(* ===== verification/_CoqProject ===== *)
-Q . S2P
Prelude.v
Errors.v
Effects.v
Json.v
JsonProps.v
Order.v
Float64.v
Manifest.v
ManifestProps.v
GoTime.v
Store.v
StoreSpec.v
StoreInv.v
StoreProps.v
Bridge.v
Journal.v
JournalSpec.v
ToolStats.v
ToolStatsProps.v
Bundle.v
Runner.v
RunnerSpec.v
RunnerProps.v
Capability.v
CapabilityProps.v
ReplayProps.v
History.v
HistoryProps.v
Executor.v
ExecutorSpec.v
ExecutorProps.v
Paths.v
RootedFS.v
HostFS.v
RootedFSSpec.v
RootedFSProps.v
Sha256.v
Snapshot.v
SnapshotProps.v
Conflict.v
Ingress.v
IngressSpec.v
IngressProps.v
ConflictProps.v
Manager.v
ManagerProps.v
Http.v
Service.v
ServiceSpec.v
ServiceInv.v
ServiceProps.v
DurableService.v
DurableServiceSpec.v
DurableServiceProps.v
Leb128.v
Cowmem.v
CowmemProps.v
DataImage.v
DataImageSpec.v
DataImageProps.v
Prepared.v
PreparedSpec.v
PreparedInv.v
PreparedBuild.v
PreparedSystem.v
PreparedProps.v
Sim.v
SimSpec.v
SimOps.v
SimProps.v
JsonStream.v
Calibration.v
CalibrationProps.v
Sweep.v
SweepProps.v
