(* ===== verification/Prelude.v ===== *)
(** * Pysolate durable runtime: verification development

    Pysolate runs untrusted Python programs in disposable WebAssembly Guests.
    A Guest reaches the outside only through host calls (its tools) and a
    bounded private workspace; durable execution records every tool call in a
    SQLite store, so that a run interrupted by a crash, a wait or a failure is
    attempted again and its recorded calls are answered from the record.  This
    development models the Go code that does this as functional programs and
    step relations, and proves what the code promises of them.

    ** The program and its model

    Each file models the Go file named after it, function by function; names
    are those of the source.

    - [Prelude], [Errors], [Effects], [Json], [GoTime], [Sha256], [Order],
      [Float64]: machine integers and strings; the tree of wrapped Go errors
      with [errors.Is] and [errors.As]; a state and error monad; the parts of
      [encoding/json], [time] and [crypto/sha256] the sources use; sorting; the
      type [float64].
    - [Manifest] ([tool_provider.go], [mcpadapter/adapter.go]): tools, their
      validation and their discovery; [ManifestProps] that accepted manifests
      are unambiguous.  [Capability] ([durable/capability.go]): approval;
      [CapabilityProps] leads from providers to a runner.
    - [Store] ([durable/store.go], [durable/types.go]): the three tables as
      finite maps, every operation as a transaction over them.  The database's
      failures ([faults]) and the commits of other connections ([others]) are
      arbitrary parameters.  [StoreSpec] is the abstract contract
      ([store_step]) and the refinement of every operation to it; [StoreInv]
      and [StoreProps] are the invariants.
    - [Bridge] ([bridge.go], [future.go], [runner.go], [recording.go]): the
      message protocol between a Guest and the Host.  A Guest is the tree of
      the host calls it makes.
    - [Journal] ([durable/runner.go]): recording, replay and recovery of tool
      calls; [JournalSpec] is its effect discipline [ext].
    - [Runner] ([durable/runner.go], [durable/attempt.go]): tool declarations,
      creation of runs, attempts, decisions; [RunnerSpec] relates an attempt
      to its offline replay; [RunnerProps] states what durable execution
      promises over any sequence of attempts, crashes and interference.
    - [Bundle] ([durable/export_replay.go]): export, validation and offline
      replay of ended runs; [JsonProps] the round trips of JSON it rests on,
      [ReplayProps] that a completed run replays.
    - [Executor] ([durable/executor.go]): admission and scheduling of attempts
      as a step relation over the sections that hold the mutex;
      [ExecutorSpec] is its invariant, [ExecutorProps] its properties.
    - [Paths] ([runtime/workspace/workspace.go]): accepted file names.
    - [RootedFS] ([runtime/workspace/fs.go]): the quota in front of the
      private directory.  [HostFS] states what the code relies on of the
      Host's directory ([HostLaws]) and gives an in-memory instance;
      [RootedFSSpec] and [RootedFSProps] are the invariant and properties.
    - [Snapshot] ([runtime/workspace/snapshot.go], [export.go]): snapshots,
      comparison, exported change sets; [SnapshotProps] their properties.
    - [Conflict] ([runtime/workspace/export.go], [ingress.go]): the check of a
      target directory against a change set; [ConflictProps] its property.
    - [Ingress] ([runtime/workspace/ingress.go]): the copy of a Host directory
      that may change meanwhile.  [IngressSpec] is source trees and what they
      become; [IngressProps] what holds of every copy, and of the copy of a
      directory that holds still.
    - [Manager] ([runtime/workspace/workspace.go], [ingress.go]): allocation of private
      workspaces, leases, release and removal, as sections on a [world] of one
      manager, its leases and its directories; [ManagerProps] the exclusion.
    - [Http], [Service] ([service/server.go]): the HTTP control plane of the
      workspaces.  Requests are dispatched by pure code; a handler is a
      goroutine ([pc]) that enters one section after another, over the
      [world] of [Manager].  [ServiceSpec] says who answers for a workspace,
      [ServiceInv] that every section keeps the invariant, [ServiceProps]
      what follows for every interleaving.
    - [DurableService] ([service/durable/server.go]): the HTTP control plane of
      durable runs, over a runtime that is a class ([Runtime]) as it is an
      interface in the source, and the [Executor].  [DurableServiceSpec] states
      the laws the service relies on ([RuntimeLaws]) and discharges them with
      the modelled [Runner]; [DurableServiceProps] are its properties.
    - [Cowmem] ([internal/cowmem/cow_linux.go]): the memory file behind a
      copy-on-write image, over what the operating system answers;
      [CowmemProps] says what a capture leaves in it.
    - [Leb128], [DataImage] ([cow_data_image.go], [cow_data_code.go]): the
      transformation of a Wasm module whose initial memory becomes a
      copy-on-write image.  [DataImageSpec] is a grammar of modules, which is
      shown to be unambiguous, and the instantiation of their data segments;
      [DataImageProps] relates the two.
    - [Prepared] ([runner.go], [prepared.go], [recording.go],
      [internal/cowmem]): the life of a Wasm runner.  Runtimes, modules, images
      and mappings are handles in a [world] whose every call may fail; wazero
      with the artifact is the class [Wasm].  A started Guest is handed to the
      [exec_guest] of [Bridge].  [PreparedSpec] gives the effect of every
      operation on a Guest, [PreparedInv] what each leaves open,
      [PreparedBuild] what the constructors make, [PreparedSystem] the histories
      of runners that are made, used and closed, [PreparedProps] the theorems
      and the laws they rely on ([laws]).
    - [History] ([durable/replay_diagnostics.go]): pages of a run's journal;
      [HistoryProps] follows them.
    - [Sim] ([scheduling/sim.go]): the discrete-event simulation of admission
      policies.  [SimSpec] says where every task is and what its flags are
      there, [SimOps] that the operations keep it, [SimProps] that the loops
      end and what the result says.
    - [JsonStream], [Calibration] ([scheduling/calibration.go]): JSON rows of
      measurements, the traces made of them, and predictions compared with
      observations; [CalibrationProps].
    - [Sweep] ([scheduling/sweep.go]): grids of simulations; [SweepProps].
    - [ToolStats] ([durable/tool_stats.go]): statistics of the tools over the
      observations of [Journal]; [ToolStatsProps].

    ** The properties

    - C1 and C2, the store: refinement of the contract under
      failures and interference, well-formed tables.
    - C4-C8, durable execution: a manual tool is dispatched once, every
      dispatch is reserved, completed calls are final, responses are the
      stored ones, a completed attempt replays to the same result.
    - C9-C11, Wasm runners: an attempt on a prepared runner goes on from the
      memory, random stream and clocks of a start from scratch, and is that
      start when [init] changes nothing else; every handle has an owner and is given up with it whatever
      fails, and all Guests of a prepared runner start alike.
    - C12 and C13, tools: accepted manifests are unambiguous, an approved catalog
      makes a runner of exactly its capabilities.
    - C14-C16, the executor: exact bounded statistics, no deadlock,
      final results.
    - C17, the workspace: the quota, but for writes to files that cannot be
      examined afterwards.
    - C18-C20, change sets: exact comparison, exact exports that rebuild the
      workspace.
    - C3 and C21, ingress: a copy holds only what was found in the source,
      whatever happens to it meanwhile, and a source that holds still is copied
      exactly when it fits.
    - C22 and C23, the data image: the rewritten module with the seeded memory
      starts in the state of the original one; the accepted code never names a
      segment that was emptied.
    - C24, workspaces: a directory has one lease at a time, and is removed only
      when it has none.
    - C25-C29, the workspace service: no workspace is lost unless the Host
      refuses to remove it, executions are bounded and alone, requests are answered and checked, and the way in
      which closing can hang the server.
    - C30-C33, the durable service: attempts, cancellations and closing reach
      the executor and the run they name, completed replies are durable, announced runs can be
      attempted, and the history shows no arguments or outcomes.
    - C34, conflicts: the report is exact on a directory that holds still.
    - C35 and C36, the simulator: every accepted simulation ends with all tasks
      accounted for and within its limits, and no work is lost.
    - C37, calibration: traces keep what was measured and are what the
      simulator accepts.
    - C38, sweeps: the results are the points of the sorted grid, and the
      boundaries are what the points say.
    - C39, tool statistics: one estimate per class, with exact counts and means.
    - C40, the history: pages neither skip nor repeat calls while the run goes
      on.
    - Further theorems that are not among the numbered ones: what follows from
      the flaws that modelling showed ([directory_write_is_charged],
      [unexamined_appends_pass_the_quota], [refused_removal_strays],
      [output_that_is_not_text_does_not_replay],
      [unencodable_result_is_not_exportable],
      [replaced_workspace_is_not_exportable], [wrapped_sample_is_accepted],
      [accepted_ratio_overflows], [nan_weight_is_accepted]), the growth of the
      store ([durable_state_monotone]), fairness among attempts
      ([queue_head_runs_after_burst]), open files ([open_files_keep_their_names]),
      revisions ([revision_identifies_snapshot]), predictions, each a complete
      simulation ([predictions_are_complete]), and their grouping
      ([summaries_partition_comparisons]), what a run pins and its Guests are
      shown ([runs_pin_what_guests_are_shown]), slots that are not left idle
      ([slots_are_not_left_idle]), the round trip of LEB128 numbers, the agreement of [Wait] and [Resume], unique operation keys
      ([operation_keys_never_collide]), the executor ([schedule_loop_terminates],
      [one_attempt_per_run], [drained_when_closed_and_empty],
      [admission_never_overtakes]), exact usage ([usage_is_exact]), the accepted
      file names ([guest_path_accepted]), and the discovery of MCP tools: its
      result is bounded ([mcp_discovery_is_bounded]), but a server can keep it
      going for ever ([mcp_discovery_may_never_end]).

    ** Bounds and fuel

    The scheduling loop of the executor runs on [schedule_fuel], shown to be
    enough for every state ([schedule_loop_terminates]).  The quota theorems assume that the counters
    cannot wrap: fewer than 2^32 operations on a mount, and byte limits below
    2^64 less what those operations can charge ([acquired]).  Sizes that the
    Go code keeps in [uint32] and [uint64] are reduced explicitly; where a
    theorem needs them not to wrap it says so.

    The readers of Wasm run on the length of their buffer: every turn consumes
    a byte ([instructions_fuel], [sections_fuel]); [write_bytes] runs on the
    bytes left to write.  The simulator runs on [simulate_fuel], one turn per
    arrival and phase, and [drain] on [drain_fuel]; C35 shows both enough.  C36
    assumes that the latest arrival plus all durations is below 2^63; C22 and
    C23 as well as C9 take modules shorter than 2^62 bytes, whose positions a Go [int] holds;
    C40 takes fewer than 2^32 calls in a run.  The client loop [follow] of C40
    takes its number of pages as an argument.  The copy of a directory runs on
    [copy_fuel], more than the components of any accepted path; C3 shows that it
    does not run out.  C3 and C21 take an entry limit below 2^32 - 1, where the
    32-bit counter cannot wrap ([limits_small]), and names of the source without
    slashes, as [ReadDir] gives them.

    ** Not modelled

    SQLite, wazero, the random streams of [math/rand/v2], the Host's file system
    and Python are parameters: their behaviour appears as hypotheses with
    instances ([HostLaws], [memory_disk], [laws], [demo_laws]).  The commands,
    the benchmarks and diagnostics, the client of the MCP library and the file
    locks only connect the modelled parts to the operating system or to
    third-party code.  The corpus tools are left out.  Reading, listing and
    syncing files keep no state of the workspace and have no definition.  Of the
    Wasm runners, attempts are atomic steps that do not overlap, a mapping is as
    large as asked and starts at a page, and the Host calls that a Guest makes
    while it initializes are outside. *)

From stdpp Require Export base gmap strings list fin_maps pretty numbers.
From Stdlib Require Export Ascii ZArith Lia.

Declare Scope go_scope.
Delimit Scope go_scope with go.
#[global] Open Scope go_scope.

(** ** Machine integers

    Go's [uint32], [uint64] and [int64] as [N] and [Z] with the wrap-around of
    each width written out.  [int] is 64 bits wide on every target of the
    repository. *)

Definition u32 (n : N) : N := (n mod 2 ^ 32)%N.
Definition u64 (n : N) : N := (n mod 2 ^ 64)%N.
Definition i64 (z : Z) : Z := ((z + 2 ^ 63) mod 2 ^ 64 - 2 ^ 63)%Z.

(** Unsigned subtraction at 64 bits: [a - b] of two [uint64]. *)
Definition sub64 (a b : N) : N := u64 (a + (2 ^ 64 - b mod 2 ^ 64))%N.

(** ** Strings

    A Go string is a sequence of bytes; [string] is a list of 8-bit [ascii].
    A nil and an empty byte slice are both the empty string: every reader the
    model keeps ([len], [bytes.Equal], [append([]byte(nil), x...)]) treats them
    alike, and [append([]byte(nil), empty...)] is nil again. *)

Definition slen (s : string) : N := N.of_nat (String.length s).

(** [strconv.FormatUint(n, 10)] and the [%d] verb on unsigned integers. *)
Definition format_uint (n : N) : string := pretty n.

(** The [%06d] verb on a number that is not negative. *)
Fixpoint zeros (n : nat) : string := match n with O => "" | S n => String "0" (zeros n) end.

Definition format_06d (n : N) : string := let s := format_uint n in zeros (6 - String.length s) +:+ s.

Fixpoint has_char (c : ascii) (s : string) : bool :=
  match s with
  | EmptyString => false
  | String d s' => bool_decide (c = d) || has_char c s'
  end.

(** [strings.HasPrefix]. *)
Definition has_prefix (p s : string) : bool := String.prefix p s.

(** [strings.TrimPrefix]. *)
Definition trim_prefix (p s : string) : string :=
  if has_prefix p s then String.substring (String.length p) (String.length s - String.length p) s else s.

(** [strings.Contains]. *)
Fixpoint contains (sub s : string) : bool :=
  String.prefix sub s ||
  match s with
  | EmptyString => false
  | String _ s' => contains sub s'
  end.

Definition lower_ascii (c : ascii) : ascii :=
  let n := N_of_ascii c in
  if (65 <=? n)%N && (n <=? 90)%N then ascii_of_N (n + 32) else c.

(** [strings.ToLower] on the ASCII letters, the only ones the callers search. *)
Fixpoint to_lower (s : string) : string :=
  match s with
  | EmptyString => EmptyString
  | String c s' => String (lower_ascii c) (to_lower s')
  end.

(** [strings.Join]. *)
Fixpoint join_with (sep : string) (l : list string) : string :=
  match l with
  | [] => ""
  | [s] => s
  | s :: l' => s +:+ sep +:+ join_with sep l'
  end.

(** [strings.Split] on a one-byte separator: one part more than separators. *)
Fixpoint split_char (sep : ascii) (s : string) : list string :=
  match s with
  | EmptyString => [""]
  | String c s' =>
      if bool_decide (c = sep) then "" :: split_char sep s'
      else match split_char sep s' with
           | [] => [String c ""]
           | p :: ps => String c p :: ps
           end
  end.

(** Byte-wise order on strings, Go's [<] on [string]. *)
Fixpoint str_lt (a b : string) : bool :=
  match a, b with
  | _, EmptyString => false
  | EmptyString, String _ _ => true
  | String c a', String d b' =>
      if bool_decide (c = d) then str_lt a' b'
      else (N_of_ascii c <? N_of_ascii d)%N
  end.

(** ** Results

    A fallible call returns [Ok] or [Err]; [res_bind] is the early return of
    [if err != nil { return ..., err }]. *)

Inductive res (E A : Type) : Type :=
| Ok (a : A)
| Err (e : E).
Arguments Ok {_ _} _.
Arguments Err {_ _} _.

Definition res_bind {E A B} (r : res E A) (f : A -> res E B) : res E B :=
  match r with Ok a => f a | Err e => Err e end.

Definition res_map {E A B} (f : A -> B) (r : res E A) : res E B :=
  match r with Ok a => Ok (f a) | Err e => Err e end.

Definition is_ok {E A} (r : res E A) : bool :=
  match r with Ok _ => true | Err _ => false end.

Notation "'let*' x ':=' r 'in' k" := (res_bind r (fun x => k))
  (at level 10, x pattern, r at level 100, k at level 200) : go_scope.

(** [guard b e]: the early return [if !b { return e }]. *)
Definition guard {E} (b : bool) (e : E) : res E unit := if b then Ok tt else Err e.

(** ** Automation *)

Create HintDb pysolate discriminated.
Create Rewrite HintDb go_ints.
Create Rewrite HintDb go_errors.

(** Splits every [match] and [if] of the goal and hypotheses, closing the
    contradictory cases. *)
Ltac split_cases := repeat (case_match; simplify_eq/=; try done).

(** Turns boolean guards of the code into propositions. *)
Ltac guards :=
  repeat match goal with
  | H : _ && _ = true |- _ => apply andb_prop in H as [? ?]
  | H : _ || _ = false |- _ => apply orb_false_iff in H as [? ?]
  | H : negb _ = true |- _ => apply negb_true_iff in H
  | H : negb _ = false |- _ => apply negb_false_iff in H
  | H : bool_decide _ = true |- _ => apply bool_decide_eq_true in H
  | H : bool_decide _ = false |- _ => apply bool_decide_eq_false in H
  | H : (_ <? _)%N = true |- _ => apply N.ltb_lt in H
  | H : (_ <? _)%N = false |- _ => apply N.ltb_ge in H
  | H : (_ <=? _)%N = true |- _ => apply N.leb_le in H
  | H : (_ <=? _)%N = false |- _ => apply N.leb_gt in H
  | H : (_ =? _)%N = true |- _ => apply N.eqb_eq in H
  | H : (_ =? _)%N = false |- _ => apply N.eqb_neq in H
  | H : (_ <? _)%nat = true |- _ => apply Nat.ltb_lt in H
  | H : (_ <? _)%nat = false |- _ => apply Nat.ltb_ge in H
  | H : (_ <=? _)%nat = true |- _ => apply Nat.leb_le in H
  | H : (_ <=? _)%nat = false |- _ => apply Nat.leb_gt in H
  | H : (_ <? _)%Z = true |- _ => apply Z.ltb_lt in H
  | H : (_ <? _)%Z = false |- _ => apply Z.ltb_ge in H
  | H : (_ <=? _)%Z = true |- _ => apply Z.leb_le in H
  | H : (_ <=? _)%Z = false |- _ => apply Z.leb_gt in H
  end.

(** ** Results: lemmas *)

Lemma res_bind_Ok {E A B} (r : res E A) (f : A -> res E B) b :
  res_bind r f = Ok b -> exists a, r = Ok a /\ f a = Ok b.
Proof. destruct r; [eauto | done]. Qed.

Lemma guard_Ok {E} b (e : E) u : guard b e = Ok u -> b = true.
Proof. by destruct b. Qed.

(** ** Integers: lemmas *)

Lemma u32_id n : (n < 2 ^ 32)%N -> u32 n = n.
Proof. apply N.mod_small. Qed.

Lemma u64_id n : (n < 2 ^ 64)%N -> u64 n = n.
Proof. apply N.mod_small. Qed.

Lemma i64_id z : (- 2 ^ 63 <= z < 2 ^ 63)%Z -> i64 z = z.
Proof. intros. unfold i64. rewrite Z.mod_small; lia. Qed.

(** Only the last of a chain of operations needs to wrap. *)
Lemma i64_sub_l a b : i64 (i64 a - b) = i64 (a - b).
Proof.
  unfold i64. f_equal. replace ((a + 2 ^ 63) mod 2 ^ 64 - 2 ^ 63 - b + 2 ^ 63)%Z with ((a + 2 ^ 63) mod 2 ^ 64 - b)%Z by lia.
  rewrite Zminus_mod_idemp_l. f_equal. lia.
Qed.

Lemma i64_idem a : i64 (i64 a) = i64 a.
Proof. pose proof (i64_sub_l a 0) as H. by rewrite !Z.sub_0_r in H. Qed.

Lemma i64_add_l a b : i64 (i64 a + b) = i64 (a + b).
Proof. pose proof (i64_sub_l a (- b)) as H. by rewrite !Z.sub_opp_r in H. Qed.

Lemma sub64_exact a b : (b <= a)%N -> (a < 2 ^ 64)%N -> sub64 a b = (a - b)%N.
Proof.
  intros Hle Ha. unfold sub64, u64. rewrite (N.mod_small b) by lia.
  replace (a + (2 ^ 64 - b))%N with (a - b + 1 * 2 ^ 64)%N by lia.
  rewrite N.Div0.mod_add. apply N.mod_small. lia.
Qed.

#[export] Hint Rewrite u32_id u64_id using lia : go_ints.

(** ** Strings: lemmas *)

Lemma str_length_app (a b : string) :
  String.length (a +:+ b) = (String.length a + String.length b)%nat.
Proof. induction a as [|c a IH]; [done |]. simpl. by rewrite IH. Qed.

Lemma slen_app a b : slen (a +:+ b) = (slen a + slen b)%N.
Proof. unfold slen. rewrite str_length_app. lia. Qed.

Lemma str_app_cons c a b : String c a +:+ b = String c (a +:+ b).
Proof. done. Qed.

Lemma str_app_assoc (a b c : string) : (a +:+ b) +:+ c = a +:+ (b +:+ c).
Proof. induction a as [|x a IH]; [done |]. rewrite !str_app_cons. by rewrite IH. Qed.

Lemma str_app_nil (a : string) : a +:+ "" = a.
Proof. induction a as [| c a IH]; [done |]. rewrite str_app_cons. by rewrite IH. Qed.

Lemma has_char_app c a b : has_char c (a +:+ b) = has_char c a || has_char c b.
Proof.
  induction a as [|d a IH]; [done |].
  rewrite str_app_cons. simpl. rewrite IH. by rewrite orb_assoc.
Qed.

Lemma prefix_iff p s : has_prefix p s = true <-> exists rest, s = p +:+ rest.
Proof.
  unfold has_prefix. revert s. induction p as [| c p IH]; intros s.
  - split; [eauto |]. by destruct s.
  - destruct s as [| d s]; cbn [String.prefix]; [split; [done | by intros []] |].
    destruct (ascii_dec c d) as [<- | Hne].
    + rewrite IH. split; intros [rest Hr]; exists rest; [by rewrite Hr |]. by injection Hr.
    + split; [done |]. by intros [rest [= ->]].
Qed.

Lemma trim_prefix_app p s : trim_prefix p (p +:+ s) = s.
Proof.
  unfold trim_prefix. rewrite (proj2 (prefix_iff p (p +:+ s))) by eauto. rewrite str_length_app.
  replace (String.length p + String.length s - String.length p)%nat with (String.length s) by lia.
  induction p as [| c p IH]; [| exact IH]. cbn [String.length].
  change ("" +:+ s) with s. induction s as [| c s IH]; [done |]. cbn. by rewrite IH.
Qed.

Lemma split_char_none sep s : has_char sep s = false -> split_char sep s = [s].
Proof.
  induction s as [| c s IH]; [done |]. cbn [has_char split_char]. intros [Hc Hs]%orb_false_iff.
  apply bool_decide_eq_false in Hc. rewrite bool_decide_eq_false_2 by congruence. by rewrite IH.
Qed.

Lemma split_char_cons sep s rest : has_char sep s = false -> split_char sep (s +:+ String sep rest) = s :: split_char sep rest.
Proof.
  induction s as [| c s IH]; cbn [has_char].
  - intros _. change ("" +:+ String sep rest) with (String sep rest). cbn [split_char]. by rewrite bool_decide_eq_true_2.
  - intros [Hc Hs]%orb_false_iff. apply bool_decide_eq_false in Hc. rewrite str_app_cons. cbn [split_char].
    rewrite bool_decide_eq_false_2 by congruence. by rewrite IH.
Qed.

Lemma str_app_inv_tail (x a b : string) : a +:+ x = b +:+ x -> a = b.
Proof.
  revert b. induction a as [|c a IH]; intros [|d b] Heq; try done.
  1,2: apply (f_equal String.length) in Heq; rewrite !str_length_app in Heq; simpl in Heq; lia.
  rewrite !str_app_cons in Heq. injection Heq as -> Heq. f_equal. by apply IH.
Qed.

(** Two strings that end in the same separator followed by a separator-free
    suffix split at the same place. *)
Lemma has_char_mid c a x : has_char c (a +:+ String c x) = true.
Proof.
  rewrite has_char_app. simpl. rewrite bool_decide_eq_true_2 by done.
  by rewrite orb_true_r.
Qed.

Lemma last_sep_inj sep a b x y :
  has_char sep x = false -> has_char sep y = false ->
  a +:+ String sep x = b +:+ String sep y -> a = b /\ x = y.
Proof.
  intros Hx Hy. revert b. induction a as [|c a IH]; intros [|d b] Heq; simpl in Heq.
  - by simplify_eq.
  - injection Heq as _ ->. by rewrite has_char_mid in Hx.
  - injection Heq as _ Heq. subst y. by rewrite has_char_mid in Hy.
  - injection Heq as -> Heq. destruct (IH b Heq) as [-> ->]. done.
Qed.

Lemma pretty_N_char_digit n : has_char "/"%char (String (pretty_N_char (n mod 10)) "") = false.
Proof.
  assert (n mod 10 < 10)%N as H by (apply N.mod_lt; lia).
  revert H. generalize (n mod 10)%N. intros m H.
  assert (m = 0 \/ m = 1 \/ m = 2 \/ m = 3 \/ m = 4 \/ m = 5 \/ m = 6 \/ m = 7 \/ m = 8 \/ m = 9)%N
    as Hm by lia.
  by repeat destruct Hm as [-> | Hm]; subst.
Qed.

Lemma pretty_N_go_no_slash n s :
  has_char "/"%char s = false -> has_char "/"%char (pretty_N_go n s) = false.
Proof.
  revert s. induction (N.lt_wf_0 n) as [n _ IH]; intros s Hs.
  destruct (decide (n = 0)%N) as [-> |]; [by rewrite pretty_N_go_0 |].
  rewrite pretty_N_go_step by lia.
  apply IH; [apply N.div_lt; lia |].
  pose proof (pretty_N_char_digit n) as Hd. simpl in Hd |- *. by rewrite Hs.
Qed.

Lemma format_uint_no_slash n : has_char "/"%char (format_uint n) = false.
Proof.
  unfold format_uint, pretty, pretty_N. case_decide; [done |].
  by apply pretty_N_go_no_slash.
Qed.

Lemma format_uint_inj n m : format_uint n = format_uint m -> n = m.
Proof. apply pretty_N_inj. Qed.

(** No number but zero is written with a leading zero. *)
Lemma pretty_N_go_head n s : (0 < n)%N -> exists c s', pretty_N_go n s = String c s' /\ c <> "0"%char.
Proof.
  revert s. induction (N.lt_wf_0 n) as [n _ IH]; intros s Hn. rewrite pretty_N_go_step by lia.
  destruct (decide (n / 10 = 0)%N) as [Hz | Hz].
  - rewrite Hz, pretty_N_go_0. eexists _, _. split; [done |]. apply N.div_small_iff in Hz; [| done].
    rewrite N.mod_small by done.
    assert (n = 1 \/ n = 2 \/ n = 3 \/ n = 4 \/ n = 5 \/ n = 6 \/ n = 7 \/ n = 8 \/ n = 9)%N as Hd by (clear IH; lia).
    by repeat destruct Hd as [-> | Hd]; [..| subst n].
  - apply IH; [apply N.div_lt; lia | by apply N.neq_0_lt_0].
Qed.

Lemma format_uint_head n : n = 0%N \/ exists c s, format_uint n = String c s /\ c <> "0"%char.
Proof.
  unfold format_uint, pretty, pretty_N. case_decide; [by left | right]. apply pretty_N_go_head. lia.
Qed.

(** Dropping the leading zeros of a number, all but its last digit. *)
Fixpoint strip_zeros (s : string) : string :=
  match s with
  | String "0" (String _ _ as s') => strip_zeros s'
  | _ => s
  end.

Lemma strip_zeros_digits s : s = "0" \/ (exists c s', s = String c s' /\ c <> "0"%char) -> strip_zeros s = s.
Proof.
  intros [-> | (c & s' & -> & Hc)]; [done |]. destruct c as [[] [] [] [] [] [] [] []]; try done.
Qed.

Lemma strip_zeros_app n s : s <> "" -> strip_zeros (zeros n +:+ s) = strip_zeros s.
Proof.
  intros Hs. induction n as [| n IH]; [done |]. cbn [zeros]. change (String "0" (zeros n) +:+ s) with (String "0" (zeros n +:+ s)).
  destruct (zeros n +:+ s) as [| c r] eqn:Heq; [destruct n; [by destruct s | done] |]. rewrite <- IH. done.
Qed.

Lemma format_06d_inj n m : format_06d n = format_06d m -> n = m.
Proof.
  assert (forall n, strip_zeros (format_06d n) = format_uint n) as Hstrip.
  { intros k. unfold format_06d. destruct (format_uint_head k) as [-> | Hk]; [done |].
    rewrite strip_zeros_app by (by destruct Hk as (c & s & -> & _)). apply strip_zeros_digits. by right. }
  intros Heq%(f_equal strip_zeros). rewrite !Hstrip in Heq. by apply format_uint_inj.
Qed.

(** ** Sums over lists *)

Definition zsum {A} (f : A -> Z) (l : list A) : Z := foldr (fun x n => (f x + n)%Z) 0%Z l.

Lemma zsum_cons {A} (f : A -> Z) x l : zsum f (x :: l) = (f x + zsum f l)%Z.
Proof. done. Qed.

Lemma zsum_app {A} (f : A -> Z) l l' : zsum f (l ++ l') = (zsum f l + zsum f l')%Z.
Proof. induction l as [| x l IH]; [done |]. rewrite <- app_comm_cons, !zsum_cons, IH. lia. Qed.

Lemma zsum_perm {A} (f : A -> Z) l l' : l ≡ₚ l' -> zsum f l = zsum f l'.
Proof. induction 1; rewrite ?zsum_cons in *; lia. Qed.

Lemma zsum_ext {A} (f g : A -> Z) l : (forall x, x ∈ l -> f x = g x) -> zsum f l = zsum g l.
Proof.
  induction l as [| x l IH]; intros Heq; [done |]. rewrite !zsum_cons, IH, Heq; [done | by left |].
  intros y Hy. apply Heq. by right.
Qed.

Lemma zsum_nonneg {A} (f : A -> Z) l : (forall x, x ∈ l -> 0 <= f x)%Z -> (0 <= zsum f l)%Z.
Proof.
  induction l as [| x l IH]; intros Hf; [done |]. rewrite zsum_cons. assert (0 <= f x)%Z by (apply Hf; by left).
  assert (0 <= zsum f l)%Z; [| lia]. apply IH. intros y Hy. apply Hf. by right.
Qed.

Lemma zsum_le {A} (f g : A -> Z) l : (forall x, x ∈ l -> f x <= g x)%Z -> (zsum f l <= zsum g l)%Z.
Proof.
  intros Hle. assert (0 <= zsum (fun x => g x - f x) l)%Z as H.
  { apply zsum_nonneg. intros x Hx. specialize (Hle x Hx). lia. }
  assert (zsum (fun x => g x - f x)%Z l = (zsum g l - zsum f l)%Z) as Heq; [| lia].
  clear. induction l as [| x l IH]; [done |]. rewrite !zsum_cons, IH. lia.
Qed.

Lemma zsum_member {A} (f : A -> Z) l x : (forall y, y ∈ l -> 0 <= f y)%Z -> x ∈ l -> (f x <= zsum f l)%Z.
Proof.
  intros Hf Hx. apply list_elem_of_split in Hx as (l1 & l2 & ->). rewrite zsum_app, zsum_cons.
  assert (0 <= zsum f l1)%Z by (apply zsum_nonneg; intros; apply Hf; set_solver).
  assert (0 <= zsum f l2)%Z by (apply zsum_nonneg; intros; apply Hf; set_solver). lia.
Qed.

Lemma zsum_map {A B} (f : B -> Z) (g : A -> B) l : zsum f (map g l) = zsum (fun x => f (g x)) l.
Proof. induction l as [| x l IH]; [done |]. cbn [map]. by rewrite !zsum_cons, IH. Qed.

(** ** Sums over finite maps

    [SELECT SUM(...)] over the rows of a table, and the byte totals the
    workspace keeps. *)

Section map_sum.
Context {K V : Type} `{Countable K}.
Implicit Types (m : gmap K V) (f : K -> V -> N).

Definition map_sum f m : N := map_fold (fun k v acc => f k v + acc)%N 0%N m.

Lemma map_sum_empty f : map_sum f ∅ = 0%N.
Proof. apply map_fold_empty. Qed.

Lemma map_sum_insert f m k v :
  m !! k = None -> map_sum f (<[k := v]> m) = (f k v + map_sum f m)%N.
Proof.
  intros Hk. unfold map_sum. rewrite map_fold_insert_L; [done | | done].
  intros. lia.
Qed.

Lemma map_sum_delete f m k v :
  m !! k = Some v -> map_sum f m = (f k v + map_sum f (delete k m))%N.
Proof.
  intros Hk. rewrite <- (insert_delete_id m k v Hk) at 1.
  apply map_sum_insert. apply lookup_delete_eq.
Qed.

Lemma map_sum_update f m k v0 v :
  m !! k = Some v0 -> (map_sum f (<[k := v]> m) + f k v0 = map_sum f m + f k v)%N.
Proof.
  intros Hk. rewrite <- (insert_delete_eq m k v).
  rewrite map_sum_insert by apply lookup_delete_eq.
  rewrite (map_sum_delete f m k v0 Hk). lia.
Qed.

(** One step for both: the row's old contribution is zero when absent. *)
Lemma map_sum_set f m k v :
  (map_sum f (<[k := v]> m) + from_option (f k) 0 (m !! k) = map_sum f m + f k v)%N.
Proof.
  destruct (m !! k) as [v0 |] eqn:Hk; simpl.
  - by apply map_sum_update.
  - rewrite map_sum_insert by done. lia.
Qed.

Lemma map_sum_lookup_le f m k v : m !! k = Some v -> (f k v <= map_sum f m)%N.
Proof. intros Hk. rewrite (map_sum_delete f m k v Hk). lia. Qed.

Lemma map_sum_zero f m : (forall k v, m !! k = Some v -> f k v = 0%N) -> map_sum f m = 0%N.
Proof.
  induction m as [| k v m Hk IH] using map_ind; intros Hf; [apply map_sum_empty |].
  rewrite map_sum_insert by done. rewrite (Hf k v) by apply lookup_insert_eq.
  rewrite IH; [done |]. intros k' v' Hk'. apply (Hf k').
  rewrite lookup_insert_ne by congruence. done.
Qed.

Lemma map_sum_ext f g m :
  (forall k v, m !! k = Some v -> f k v = g k v) -> map_sum f m = map_sum g m.
Proof.
  revert f g. induction m as [| k v m Hk IH] using map_ind; intros f g Hfg.
  - by rewrite !map_sum_empty.
  - rewrite !map_sum_insert by done. f_equal.
    + apply Hfg. apply lookup_insert_eq.
    + apply IH. intros k' v' Hk'. apply Hfg.
      rewrite lookup_insert_ne by congruence. done.
Qed.
End map_sum.

(** Updating the row of a key that is present. *)
Lemma alter_present {K V} `{Countable K} (f : V -> V) (m : gmap K V) k v :
  m !! k = Some v -> alter f k m = <[k := f v]> m.
Proof.
  intros Hk. apply map_eq. intros i. rewrite lookup_alter, lookup_insert.
  case_decide; [| done]. subst. by rewrite Hk.
Qed.
