(* ===== verification/Errors.v ===== *)
(** * Errors: the Go error values of the durable runtime

    The package variables made by [errors.New], the typed errors of
    [durable/runner.go], [durable/replay_diagnostics.go] and
    [durable/replay_mismatch.go], wrapping with the [%w] verb and [errors.Join]
    form a tree; [errors_is] and [find_*] are [errors.Is] and [errors.As] on
    it, [error_text] is the [Error] method. *)

From S2P Require Import Prelude.

Inductive sentinel :=
| ErrBusy | ErrNotFound | ErrConflict | ErrHistoryMismatch | ErrLimit
| ErrInvalidRunner | ErrParked | ErrBlocked | ErrCancelled
| ErrQueueFull | ErrClosed
| ErrBundleInvalid | ErrBundleMismatch
| Canceled | DeadlineExceeded.

#[export] Instance sentinel_eq_dec : EqDecision sentinel.
Proof. solve_decision. Defined.

(** The texts given to [errors.New]; the last two are the [context] package's. *)
Definition sentinel_text (s : sentinel) : string :=
  match s with
  | ErrBusy => "durable run is busy"
  | ErrNotFound => "durable object not found"
  | ErrConflict => "durable state conflict"
  | ErrHistoryMismatch => "durable history mismatch"
  | ErrLimit => "durable logical payload limit exceeded"
  | ErrInvalidRunner => "invalid durable runner"
  | ErrParked => "durable attempt parked"
  | ErrBlocked => "durable run blocked"
  | ErrCancelled => "durable run cancelled"
  | ErrQueueFull => "durable executor queue is full"
  | ErrClosed => "durable executor is closed"
  | ErrBundleInvalid => "invalid durable run bundle"
  | ErrBundleMismatch => "offline replay mismatch"
  | Canceled => "context canceled"
  | DeadlineExceeded => "context deadline exceeded"
  end.

Record ParkError := mkParkError {
  pe_Kind : string;
  pe_RunID : string;
  pe_WaitID : string;
  pe_Sequence : N;
  pe_Reason : string
}.

Definition ParkWait : string := "wait".
Definition ParkLookup : string := "lookup".

Inductive HistoryMismatchField :=
| HistoryMismatchSequence | HistoryMismatchCallID | HistoryMismatchCapability
| HistoryMismatchOperationKey | HistoryMismatchArguments.

Definition field_text (f : HistoryMismatchField) : string :=
  match f with
  | HistoryMismatchSequence => "sequence"
  | HistoryMismatchCallID => "call_id"
  | HistoryMismatchCapability => "capability"
  | HistoryMismatchOperationKey => "operation_key"
  | HistoryMismatchArguments => "arguments"
  end.

(** [HistoryMismatchError]. *)
Record HistoryMismatchError := mkHistoryMismatch {
  hm_RunID : string;
  hm_Sequence : N;
  hm_Field : HistoryMismatchField
}.

Inductive ReplayMismatchLocation :=
| ReplayMismatchLocationArtifact | ReplayMismatchLocationCall | ReplayMismatchLocationResult.

Definition location_text (l : ReplayMismatchLocation) : string :=
  match l with
  | ReplayMismatchLocationArtifact => "artifact"
  | ReplayMismatchLocationCall => "call"
  | ReplayMismatchLocationResult => "result"
  end.

Inductive ReplayMismatchReason :=
| ReasonArtifactIdentity | ReasonCallExcess | ReasonCallUnconsumed | ReasonCallSequence
| ReasonCallID | ReasonCallTool | ReasonCallOperationKey | ReasonCallArguments
| ReasonResult | ReasonTerminalStdout | ReasonTerminalTransformed | ReasonTerminalError.

Definition reason_text (r : ReplayMismatchReason) : string :=
  match r with
  | ReasonArtifactIdentity => "artifact"
  | ReasonCallExcess => "excess"
  | ReasonCallUnconsumed => "unconsumed"
  | ReasonCallSequence => "sequence"
  | ReasonCallID => "call_id"
  | ReasonCallTool => "tool"
  | ReasonCallOperationKey => "operation_key"
  | ReasonCallArguments => "arguments"
  | ReasonResult => "result"
  | ReasonTerminalStdout => "stdout"
  | ReasonTerminalTransformed => "transformed"
  | ReasonTerminalError => "error"
  end.

(** [ReplayMismatchError]; [Sequence] is meaningful when [HasSequence]. *)
Record ReplayMismatchError := mkReplayMismatch {
  rm_Location : ReplayMismatchLocation;
  rm_Reason : ReplayMismatchReason;
  rm_Sequence : option N
}.

Inductive error :=
| ESentinel (s : sentinel)
| EMsg (m : string)
| EWrap (pre : string) (e : error) (post : string)
| EJoin (es : list error)
| EPark (p : ParkError)
| EPython (msg : string)
| EHistory (h : HistoryMismatchError)
| EReplay (r : ReplayMismatchError).
Coercion ESentinel : sentinel >-> error.

(** The [%q] verb: a double-quoted literal.  Escapes are those of the ASCII
    range; the bytes of other runes are taken to be printable. *)
Definition hex_digit (n : N) : ascii :=
  if (n <? 10)%N then ascii_of_N (48 + n) else ascii_of_N (87 + n).

Definition quote_char (c : ascii) : string :=
  let n := N_of_ascii c in
  if (n =? 34)%N then String "\" (String c "")
  else if (n =? 92)%N then "\\"
  else if (n =? 7)%N then "\a" else if (n =? 8)%N then "\b"
  else if (n =? 12)%N then "\f" else if (n =? 10)%N then "\n"
  else if (n =? 13)%N then "\r" else if (n =? 9)%N then "\t"
  else if (n =? 11)%N then "\v"
  else if (n <? 32)%N || (n =? 127)%N
  then "\x" +:+ String (hex_digit (n / 16)) (String (hex_digit (n mod 16)) "")
  else String c "".

Definition dquote : ascii := ascii_of_N 34.

Fixpoint quote_body (s : string) : string :=
  match s with
  | EmptyString => String dquote ""
  | String c s' => quote_char c +:+ quote_body s'
  end.

Definition quote (s : string) : string := String dquote (quote_body s).

Definition park_text (p : ParkError) : string :=
  sentinel_text ErrParked +:+ ": run=" +:+ pe_RunID p +:+ " sequence="
  +:+ format_uint (pe_Sequence p) +:+ " wait=" +:+ pe_WaitID p
  +:+ " reason=" +:+ pe_Reason p.

Definition history_text (h : HistoryMismatchError) : string :=
  sentinel_text ErrHistoryMismatch +:+ ": run=" +:+ quote (hm_RunID h)
  +:+ " sequence=" +:+ format_uint (hm_Sequence h)
  +:+ " field=" +:+ field_text (hm_Field h).

Definition replay_text (r : ReplayMismatchError) : string :=
  sentinel_text ErrBundleMismatch +:+ ": location=" +:+ location_text (rm_Location r)
  +:+ " reason=" +:+ reason_text (rm_Reason r)
  +:+ match rm_Sequence r with
      | Some n => " sequence=" +:+ format_uint n
      | None => ""
      end.

(** [err.Error()]. *)
Fixpoint error_text (e : error) : string :=
  match e with
  | ESentinel s => sentinel_text s
  | EMsg m => m
  | EWrap pre e' post => pre +:+ error_text e' +:+ post
  | EJoin es => join_with (String (ascii_of_N 10) "") (map error_text es)
  | EPark p => park_text p
  | EPython m => m
  | EHistory h => history_text h
  | EReplay r => replay_text r
  end.

(** [errors.Is(err, target)] for a package variable [target]. *)
Fixpoint errors_is (target : sentinel) (e : error) : bool :=
  match e with
  | ESentinel s => bool_decide (s = target)
  | EMsg _ => false
  | EWrap _ e' _ => errors_is target e'
  | EJoin es => existsb (errors_is target) es
  | EPark _ => bool_decide (ErrParked = target)
  | EPython _ => false
  | EHistory _ => bool_decide (ErrHistoryMismatch = target)
  | EReplay _ => bool_decide (ErrBundleMismatch = target)
  end.

(** [errors.As]: the first error of the wanted type, in depth-first order. *)
Fixpoint find_error {A} (pick : error -> option A) (e : error) : option A :=
  match pick e with
  | Some a => Some a
  | None =>
      match e with
      | EWrap _ e' _ => find_error pick e'
      | EJoin es =>
          (fix first (l : list error) : option A :=
             match l with
             | [] => None
             | x :: l' =>
                 match find_error pick x with Some a => Some a | None => first l' end
             end) es
      | _ => None
      end
  end.

Definition as_park (e : error) : option ParkError :=
  find_error (fun e => match e with EPark p => Some p | _ => None end) e.

Definition as_python (e : error) : option string :=
  find_error (fun e => match e with EPython m => Some m | _ => None end) e.

Definition as_replay (e : error) : option ReplayMismatchError :=
  find_error (fun e => match e with EReplay r => Some r | _ => None end) e.

(** [errors.Join(a, b)] of two possibly nil errors. *)
Definition join_errors (a b : option error) : option error :=
  match a, b with
  | None, None => None
  | Some x, None => Some (EJoin [x])
  | None, Some y => Some (EJoin [y])
  | Some x, Some y => Some (EJoin [x; y])
  end.

Definition historyMismatch (runID : string) (sequence : N) (field : HistoryMismatchField) : error :=
  EHistory (mkHistoryMismatch runID sequence field).

Definition replayMismatch (location : ReplayMismatchLocation) (reason : ReplayMismatchReason)
    (sequence : option N) : error :=
  EReplay (mkReplayMismatch location reason sequence).

Definition replayMismatchAt (location : ReplayMismatchLocation) (reason : ReplayMismatchReason)
    (sequence : N) : error :=
  replayMismatch location reason (Some sequence).

Inductive ReplayErrorCategory :=
| CategoryNone | CategoryBundle | CategoryArtifact | CategoryCall | CategoryResult
| CategoryRuntime.

Definition ErrorCategory (err : option error) : ReplayErrorCategory :=
  match err with
  | None => CategoryNone
  | Some e =>
      match as_replay e with
      | Some m =>
          match rm_Location m with
          | ReplayMismatchLocationArtifact => CategoryArtifact
          | ReplayMismatchLocationCall => CategoryCall
          | ReplayMismatchLocationResult => CategoryResult
          end
      | None =>
          if errors_is ErrBundleInvalid e then CategoryBundle else CategoryRuntime
      end
  end.

(** ** Lemmas *)

Lemma errors_is_self s : errors_is s (ESentinel s) = true.
Proof. simpl. by rewrite bool_decide_eq_true_2. Qed.

Lemma errors_is_wrap s pre e post : errors_is s (EWrap pre e post) = errors_is s e.
Proof. done. Qed.

Lemma errors_is_join2 s a b :
  errors_is s (EJoin [a; b]) = errors_is s a || errors_is s b.
Proof. simpl. by rewrite orb_false_r. Qed.
#[export] Hint Rewrite errors_is_self errors_is_wrap errors_is_join2 : go_errors.
