(* ===== verification/Effects.v ===== *)
(** * Effects: the state and error monad of the effectful code

    [M S A] is a computation on the state [S] that ends in a value or in a Go
    error.  An error does not undo what was done to the state: only a
    transaction of [Store] rolls back.  The store, the journal and the runner
    are written in it at their own state types. *)

From S2P Require Import Prelude Errors.

Definition M (S A : Type) : Type := S -> res error A * S.

Definition ret {S A} (a : A) : M S A := fun s => (Ok a, s).
Definition fail {S A} (e : error) : M S A := fun s => (Err e, s).
Definition bind {S A B} (m : M S A) (f : A -> M S B) : M S B :=
  fun s => let '(r, s') := m s in
           match r with Ok a => f a s' | Err e => (Err e, s') end.

Declare Scope db_scope.
Delimit Scope db_scope with db.
Notation "x <- m ;; k" := (bind m (fun x => k))
  (at level 100, m at next level, right associativity) : db_scope.
Notation "m ;;; k" := (bind m (fun _ => k))
  (at level 100, right associativity) : db_scope.
#[global] Open Scope db_scope.

(** [if cond { return e }]. *)
Definition reject {S} (cond : bool) (e : error) : M S unit := if cond then fail e else ret tt.

(** Maps the error of a call, as [if isConstraint(err) { ... }] does. *)
Definition on_error {S A} (m : M S A) (h : error -> error) : M S A :=
  fun s => let '(r, s') := m s in
           match r with Ok a => (Ok a, s') | Err e => (Err (h e), s') end.

(** The value and the error of a call, for code that looks at both. *)
Definition try_ {S A} (m : M S A) : M S (res error A) :=
  fun s => let '(r, s') := m s in (Ok r, s').

(** [return x, err] after a call whose result is passed on. *)
Definition of_res {S A} (r : res error A) : M S A :=
  match r with Ok a => ret a | Err e => fail e end.

Definition get {S} : M S S := fun s => (Ok s, s).
Definition put {S} (s : S) : M S unit := fun _ => (Ok tt, s).

(** A computation on a part of the state. *)
Definition lift {S T A} (view : S -> T) (set : T -> S -> S) (m : M T A) : M S A :=
  fun s => let '(r, t) := m (view s) in (r, set t s).

(** ** Equations *)

Lemma bind_ret {S A B} (a : A) (f : A -> M S B) s : bind (ret a) f s = f a s.
Proof. done. Qed.

Lemma bind_Ok {S A B} (m : M S A) (f : A -> M S B) s b s' :
  bind m f s = (Ok b, s') -> exists a s1, m s = (Ok a, s1) /\ f a s1 = (Ok b, s').
Proof. unfold bind. destruct (m s) as [[a | e] s1]; [eauto | done]. Qed.

Lemma bind_Err {S A B} (m : M S A) (f : A -> M S B) s e s' :
  bind m f s = (Err e, s') ->
  m s = (Err e, s') \/ exists a s1, m s = (Ok a, s1) /\ f a s1 = (Err e, s').
Proof. unfold bind. destruct (m s) as [[a | e1] s1]; [eauto | intros [= -> ->]; auto]. Qed.
