(* ===== verification/Json.v ===== *)
(** * Json: what the sources use of [encoding/json] and [unicode/utf8]

    The byte-level scanner of the package as a transition function with its
    parse stack, and on top of it [json.Valid], the compaction applied to a
    [json.RawMessage], the string encoder with HTML escaping, and the split of
    an object into its members with which structs are decoded.  Every function
    is structural on the input, so all of them evaluate. *)

From S2P Require Import Prelude.

(** ** UTF-8 *)

Definition byte_in (lo hi : N) (c : ascii) : bool :=
  (lo <=? N_of_ascii c)%N && (N_of_ascii c <=? hi)%N.

Definition cont_byte (c : ascii) : bool := byte_in 128 191 c.

(** [utf8.DecodeRune]: the number of bytes of the rune at the front, [None]
    where Go yields [RuneError] of width one. *)
Definition rune_len (s : string) : option nat :=
  match s with
  | EmptyString => None
  | String a s1 =>
      if byte_in 0 127 a then Some 1%nat
      else match s1 with
      | EmptyString => None
      | String b s2 =>
          if byte_in 194 223 a then (if cont_byte b then Some 2%nat else None)
          else match s2 with
          | EmptyString => None
          | String c s3 =>
              if byte_in 224 239 a then
                let lo := if (N_of_ascii a =? 224)%N then 160%N else 128%N in
                let hi := if (N_of_ascii a =? 237)%N then 159%N else 191%N in
                if byte_in lo hi b && cont_byte c then Some 3%nat else None
              else match s3 with
              | EmptyString => None
              | String d _ =>
                  if byte_in 240 244 a then
                    let lo := if (N_of_ascii a =? 240)%N then 144%N else 128%N in
                    let hi := if (N_of_ascii a =? 244)%N then 143%N else 191%N in
                    if byte_in lo hi b && cont_byte c && cont_byte d then Some 4%nat else None
                  else None
              end
          end
      end
  end.

(** [utf8.ValidString]; [skip] counts the remaining bytes of the current rune. *)
Fixpoint utf8_valid_from (skip : nat) (s : string) : bool :=
  match s with
  | EmptyString => true
  | String _ s' =>
      match skip with
      | S k => utf8_valid_from k s'
      | O => match rune_len s with
             | Some n => utf8_valid_from (n - 1) s'
             | None => false
             end
      end
  end.

Definition utf8_valid (s : string) : bool := utf8_valid_from 0 s.

(** ** The scanner *)

Inductive parse_state := ParseObjectKey | ParseObjectValue | ParseArrayValue.

Inductive scan_step :=
| BeginValueOrEmpty | BeginValue | BeginStringOrEmpty | BeginString
| EndValue | EndTop
| InString | InStringEsc | InStringEscU (more : nat)
| Neg | Int1 | Int0 | Dot | Dot0 | Exp | ExpSign | Exp0
| Literal (rest : string).

Record scanner := mkScanner { sc_step : scan_step; sc_stack : list parse_state }.

Definition maxNestingDepth : N := 10000.

Definition is_space (c : ascii) : bool :=
  let n := N_of_ascii c in
  (n =? 32)%N || (n =? 9)%N || (n =? 13)%N || (n =? 10)%N.

Definition is_digit (c : ascii) : bool := byte_in 48 57 c.
Definition is_digit19 (c : ascii) : bool := byte_in 49 57 c.
Definition is_hex (c : ascii) : bool :=
  byte_in 48 57 c || byte_in 97 102 c || byte_in 65 70 c.

Definition push (st : scan_step) (p : parse_state) (stack : list parse_state) : option scanner :=
  if (N.of_nat (S (length stack)) <=? maxNestingDepth)%N then Some (mkScanner st (p :: stack)) else None.

Definition pop (stack : list parse_state) : option scanner :=
  match tail stack with
  | [] => Some (mkScanner EndTop [])
  | stack' => Some (mkScanner EndValue stack')
  end.

Definition step_end_top (c : ascii) : option scanner :=
  if is_space c then Some (mkScanner EndTop []) else None.

Definition step_end_value (stack : list parse_state) (c : ascii) : option scanner :=
  match stack with
  | [] => step_end_top c
  | p :: stack' =>
      if is_space c then Some (mkScanner EndValue stack)
      else match p with
      | ParseObjectKey =>
          if bool_decide (c = ":"%char) then Some (mkScanner BeginValue (ParseObjectValue :: stack'))
          else None
      | ParseObjectValue =>
          if bool_decide (c = ","%char) then Some (mkScanner BeginString (ParseObjectKey :: stack'))
          else if bool_decide (c = "}"%char) then pop stack else None
      | ParseArrayValue =>
          if bool_decide (c = ","%char) then Some (mkScanner BeginValue stack)
          else if bool_decide (c = "]"%char) then pop stack else None
      end
  end.

Definition step_begin_value (stack : list parse_state) (c : ascii) : option scanner :=
  if is_space c then Some (mkScanner BeginValue stack)
  else if bool_decide (c = "{"%char) then push BeginStringOrEmpty ParseObjectKey stack
  else if bool_decide (c = "["%char) then push BeginValueOrEmpty ParseArrayValue stack
  else if (N_of_ascii c =? 34)%N then Some (mkScanner InString stack)
  else if bool_decide (c = "-"%char) then Some (mkScanner Neg stack)
  else if bool_decide (c = "0"%char) then Some (mkScanner Int0 stack)
  else if bool_decide (c = "t"%char) then Some (mkScanner (Literal "rue") stack)
  else if bool_decide (c = "f"%char) then Some (mkScanner (Literal "alse") stack)
  else if bool_decide (c = "n"%char) then Some (mkScanner (Literal "ull") stack)
  else if is_digit19 c then Some (mkScanner Int1 stack)
  else None.

Definition step_begin_string (stack : list parse_state) (c : ascii) : option scanner :=
  if is_space c then Some (mkScanner BeginString stack)
  else if (N_of_ascii c =? 34)%N then Some (mkScanner InString stack)
  else None.

Definition step_int0 (stack : list parse_state) (c : ascii) : option scanner :=
  if bool_decide (c = "."%char) then Some (mkScanner Dot stack)
  else if bool_decide (c = "e"%char) || bool_decide (c = "E"%char) then Some (mkScanner Exp stack)
  else step_end_value stack c.

Definition step_exp_sign (stack : list parse_state) (c : ascii) : option scanner :=
  if is_digit c then Some (mkScanner Exp0 stack) else None.

(** One byte of input; [None] is [scanError]. *)
Definition scan (sc : scanner) (c : ascii) : option scanner :=
  let stack := sc_stack sc in
  match sc_step sc with
  | BeginValueOrEmpty =>
      if is_space c then Some (mkScanner BeginValueOrEmpty stack)
      else if bool_decide (c = "]"%char) then step_end_value stack c
      else step_begin_value stack c
  | BeginValue => step_begin_value stack c
  | BeginStringOrEmpty =>
      if is_space c then Some (mkScanner BeginStringOrEmpty stack)
      else if bool_decide (c = "}"%char)
      then step_end_value (ParseObjectValue :: tail stack) c
      else step_begin_string stack c
  | BeginString => step_begin_string stack c
  | EndValue => step_end_value stack c
  | EndTop => step_end_top c
  | InString =>
      if (N_of_ascii c =? 34)%N then Some (mkScanner EndValue stack)
      else if bool_decide (c = "\"%char) then Some (mkScanner InStringEsc stack)
      else if (N_of_ascii c <? 32)%N then None
      else Some (mkScanner InString stack)
  | InStringEsc =>
      if (N_of_ascii c =? 34)%N || has_char c "bfnrt\/" then Some (mkScanner InString stack)
      else if bool_decide (c = "u"%char) then Some (mkScanner (InStringEscU 4) stack)
      else None
  | InStringEscU more =>
      if is_hex c
      then Some (mkScanner (match more with S (S k) => InStringEscU (S k) | _ => InString end) stack)
      else None
  | Neg =>
      if bool_decide (c = "0"%char) then Some (mkScanner Int0 stack)
      else if is_digit19 c then Some (mkScanner Int1 stack) else None
  | Int1 => if is_digit c then Some (mkScanner Int1 stack) else step_int0 stack c
  | Int0 => step_int0 stack c
  | Dot => if is_digit c then Some (mkScanner Dot0 stack) else None
  | Dot0 =>
      if is_digit c then Some (mkScanner Dot0 stack)
      else if bool_decide (c = "e"%char) || bool_decide (c = "E"%char) then Some (mkScanner Exp stack)
      else step_end_value stack c
  | Exp =>
      if bool_decide (c = "+"%char) || bool_decide (c = "-"%char) then Some (mkScanner ExpSign stack)
      else step_exp_sign stack c
  | ExpSign => step_exp_sign stack c
  | Exp0 => if is_digit c then Some (mkScanner Exp0 stack) else step_end_value stack c
  | Literal rest =>
      match rest with
      | String d rest' =>
          if bool_decide (c = d)
          then Some (mkScanner (match rest' with EmptyString => EndValue | _ => Literal rest' end) stack)
          else None
      | EmptyString => None
      end
  end.

Definition scan_init : scanner := mkScanner BeginValue [].

(** [scanner.eof]: a value that ended at the end of the input is seen by one
    more blank. *)
Definition scan_eof (sc : scanner) : bool :=
  match sc_step sc with
  | EndTop => true
  | _ => match scan sc " "%char with
         | Some sc' => match sc_step sc' with EndTop => true | _ => false end
         | None => false
         end
  end.

Fixpoint scan_all (sc : scanner) (s : string) : option scanner :=
  match s with
  | EmptyString => Some sc
  | String c s' => match scan sc c with Some sc' => scan_all sc' s' | None => None end
  end.

(** [json.Valid]. *)
Definition valid (s : string) : bool :=
  match scan_all scan_init s with Some sc => scan_eof sc | None => false end.

(** ** Encoding *)

Definition hex4 (n : N) : string :=
  let d k := let m := (n / k mod 16)%N in
             if (m <? 10)%N then ascii_of_N (48 + m) else ascii_of_N (87 + m) in
  "\u" +:+ String (d 4096%N) (String (d 256%N) (String (d 16%N) (String (d 1%N) ""))).

Definition html_special (c : ascii) : bool :=
  bool_decide (c = "<"%char) || bool_decide (c = ">"%char) || bool_decide (c = "&"%char).

(** [U+2028] and [U+2029] at the front of [s]. *)
Definition line_separator (s : string) : option N :=
  match s with
  | String a (String b (String c _)) =>
      if (N_of_ascii a =? 226)%N && (N_of_ascii b =? 128)%N
      then if (N_of_ascii c =? 168)%N then Some 8232%N
           else if (N_of_ascii c =? 169)%N then Some 8233%N else None
      else None
  | _ => None
  end.

Definition in_string (st : scan_step) : bool :=
  match st with InString | InStringEsc | InStringEscU _ => true | _ => false end.

(** [appendCompact] with [escapeHTML]: blanks outside strings are dropped and
    the HTML-sensitive characters escaped. *)
Fixpoint compact_from (skip : nat) (sc : scanner) (s : string) : option string :=
  match s with
  | EmptyString => if scan_eof sc then Some "" else None
  | String c s' =>
      match scan sc c with
      | None => None
      | Some sc' =>
          match skip with
          | S k => compact_from k sc' s'
          | O =>
              if in_string (sc_step sc) then
                if html_special c then String.app (hex4 (N_of_ascii c)) <$> compact_from 0 sc' s'
                else match line_separator s with
                     | Some r => String.app (hex4 r) <$> compact_from 2 sc' s'
                     | None => String c <$> compact_from 0 sc' s'
                     end
              else if is_space c then compact_from 0 sc' s'
              else String c <$> compact_from 0 sc' s'
          end
      end
  end.

(** [json.Marshal] of a [json.RawMessage]: nil is [null]. *)
Definition marshal_raw (raw : string) : option string :=
  match raw with
  | EmptyString => Some "null"
  | _ => compact_from 0 scan_init raw
  end.

Definition escape_ascii (c : ascii) : string :=
  let n := N_of_ascii c in
  if (n =? 34)%N then String "\"%char (String c "")
  else if (n =? 92)%N then "\\"
  else if (n =? 8)%N then "\b" else if (n =? 12)%N then "\f"
  else if (n =? 10)%N then "\n" else if (n =? 13)%N then "\r"
  else if (n =? 9)%N then "\t"
  else if (n <? 32)%N || html_special c then hex4 n
  else String c "".

(** [appendString] with [escapeHTML], the quotes left to the caller. *)
Fixpoint marshal_string_from (skip : nat) (emit : bool) (s : string) : string :=
  match s with
  | EmptyString => ""
  | String c s' =>
      match skip with
      | S k => (if emit then String c "" else "") +:+ marshal_string_from k emit s'
      | O =>
          if (N_of_ascii c <? 128)%N then escape_ascii c +:+ marshal_string_from 0 true s'
          else match rune_len s with
               | None => "\ufffd" +:+ marshal_string_from 0 true s'
               | Some n =>
                   match line_separator s with
                   | Some r => hex4 r +:+ marshal_string_from (n - 1) false s'
                   | None => String c (marshal_string_from (n - 1) true s')
                   end
               end
      end
  end.

Definition quote_mark : string := String (ascii_of_N 34) "".

(** [json.Marshal] of a string. *)
Definition marshal_string (s : string) : string :=
  quote_mark +:+ marshal_string_from 0 true s +:+ quote_mark.

(** A member of an encoded struct. *)
Definition member (name value : string) : string :=
  quote_mark +:+ name +:+ quote_mark +:+ ":" +:+ value.

Definition object_of (members : list string) : string :=
  "{" +:+ join_with "," members +:+ "}".

Definition array_of (elems : list string) : string :=
  "[" +:+ join_with "," elems +:+ "]".

(** [json.Marshal] of a [json.RawMessage] that may be nil: an empty slice that
    is not nil is not JSON. *)
Definition marshal_raw_opt (raw : option string) : option string :=
  match raw with
  | None => Some "null"
  | Some s => compact_from 0 scan_init s
  end.

(** ** Decoding *)

(** The separators of the outermost object or array of a document. *)
Definition separator (sc sc' : scanner) (c : ascii) : bool :=
  match sc_stack sc, sc_stack sc' with
  | [], [_] | [_], [] | [ParseObjectKey], [ParseObjectValue]
  | [ParseObjectValue], [ParseObjectKey] => true
  | [ParseArrayValue], [ParseArrayValue] =>
      negb (in_string (sc_step sc)) && bool_decide (c = ","%char)
  | _, _ => false
  end.

(** The text cut at those separators. *)
Fixpoint split_top (sc : scanner) (s : string) : list string :=
  match s with
  | EmptyString => [""]
  | String c s' =>
      match scan sc c with
      | None => [""]
      | Some sc' =>
          let toks := split_top sc' s' in
          if separator sc sc' c then "" :: toks
          else match toks with
               | t :: ts => String c t :: ts
               | [] => []
               end
      end
  end.

Fixpoint trim_left (s : string) : string :=
  match s with
  | String c s' => if is_space c then trim_left s' else s
  | EmptyString => EmptyString
  end.

Fixpoint trim_right (s : string) : string :=
  match s with
  | EmptyString => EmptyString
  | String c s' =>
      match trim_right s' with
      | EmptyString => if is_space c then EmptyString else String c EmptyString
      | t => String c t
      end
  end.

Definition trim (s : string) : string := trim_right (trim_left s).

Fixpoint pair_up (l : list string) : list (string * string) :=
  match l with
  | k :: v :: l' => (k, v) :: pair_up l'
  | _ => []
  end.

(** The members of an encoded object, keys and values as they are written;
    [None] when the document is not an object. *)
Definition object_members (s : string) : option (list (string * string)) :=
  if has_prefix "{" (trim s)
  then Some (pair_up (removelast (tail (map trim (split_top scan_init s)))))
  else None.

Definition array_elems (s : string) : option (list string) :=
  if has_prefix "[" (trim s)
  then match removelast (tail (map trim (split_top scan_init s))) with
       | [""] => Some []
       | l => Some l
       end
  else None.

Definition hex_value (c : ascii) : N :=
  let n := N_of_ascii c in
  if (n <=? 57)%N then n - 48 else if (n <=? 70)%N then n - 55 else n - 87.

(** [getu4]: the four digits after a [\u]. *)
Definition getu4 (s : string) : option N :=
  match s with
  | String x (String y (String a (String b (String c (String d _))))) =>
      if bool_decide (x = "\"%char) && bool_decide (y = "u"%char)
         && is_hex a && is_hex b && is_hex c && is_hex d
      then Some (((hex_value a * 16 + hex_value b) * 16 + hex_value c) * 16 + hex_value d)%N
      else None
  | _ => None
  end.

Definition char_of (n : N) (s : string) : string := String (ascii_of_N n) s.

(** [utf8.AppendRune]. *)
Definition encode_rune (r : N) : string :=
  if (r <? 128)%N then char_of r ""
  else if (r <? 2048)%N then char_of (192 + r / 64) (char_of (128 + r mod 64) "")
  else if (1114111 <? r)%N || ((55296 <=? r)%N && (r <=? 57343)%N) then char_of 239 (char_of 191 (char_of 189 ""))
  else if (r <? 65536)%N
  then char_of (224 + r / 4096) (char_of (128 + r / 64 mod 64) (char_of (128 + r mod 64) ""))
  else char_of (240 + r / 262144) (char_of (128 + r / 4096 mod 64)
         (char_of (128 + r / 64 mod 64) (char_of (128 + r mod 64) ""))).

Definition is_surrogate (r : N) : bool := (55296 <=? r)%N && (r <=? 57343)%N.

(** [utf16.DecodeRune] of a pair that is one. *)
Definition surrogate_pair (hi lo : N) : option N :=
  if (55296 <=? hi)%N && (hi <=? 56319)%N && (56320 <=? lo)%N && (lo <=? 57343)%N
  then Some (65536 + (hi - 55296) * 1024 + (lo - 56320))%N else None.

Definition unescape (c : ascii) : string :=
  if bool_decide (c = "b"%char) then char_of 8 ""
  else if bool_decide (c = "f"%char) then char_of 12 ""
  else if bool_decide (c = "n"%char) then char_of 10 ""
  else if bool_decide (c = "r"%char) then char_of 13 ""
  else if bool_decide (c = "t"%char) then char_of 9 ""
  else String c "".

(** [unquoteBytes] after the opening mark of a literal the scanner accepted:
    [skip] counts the bytes of the current escape or rune, [emit] says whether
    they are copied. *)
Fixpoint unquote_from (skip : nat) (emit : bool) (s : string) : string :=
  match s with
  | EmptyString => ""
  | String c s' =>
      match skip with
      | S k => (if emit then String c "" else "") +:+ unquote_from k emit s'
      | O =>
          let n := N_of_ascii c in
          if (n =? 34)%N then ""
          else if (n =? 92)%N then
            match s' with
            | EmptyString => ""
            | String d s2 =>
                if bool_decide (d = "u"%char) then
                  match getu4 s with
                  | None => ""
                  | Some r =>
                      if is_surrogate r then
                        match from_option (fun lo => surrogate_pair r lo) None
                                (getu4 (String.substring 4 6 s2)) with
                        | Some rr => encode_rune rr +:+ unquote_from 11 false s'
                        | None => encode_rune 65533 +:+ unquote_from 5 false s'
                        end
                      else encode_rune r +:+ unquote_from 5 false s'
                  end
                else unescape d +:+ unquote_from 1 false s'
            end
          else if (n <? 128)%N then String c (unquote_from 0 true s')
          else match rune_len s with
               | Some k => String c (unquote_from (k - 1) true s')
               | None => encode_rune 65533 +:+ unquote_from 0 true s'
               end
      end
  end.

(** A string literal as it is written; [None] on any other value. *)
Definition decode_string (raw : string) : option string :=
  match raw with
  | String c s => if (N_of_ascii c =? 34)%N then Some (unquote_from 0 true s) else None
  | EmptyString => None
  end.

Definition upper_ascii (c : ascii) : ascii :=
  if byte_in 97 122 c then ascii_of_N (N_of_ascii c - 32) else c.

(** [foldName]: ASCII case, and the two runes that fold to ASCII letters. *)
Fixpoint fold_name (skip : nat) (s : string) : string :=
  match s with
  | EmptyString => ""
  | String c s' =>
      match skip with
      | S k => fold_name k s'
      | O =>
          if has_prefix (char_of 197 (char_of 191 "")) s then String "S" (fold_name 1 s')
          else if has_prefix (char_of 226 (char_of 132 (char_of 170 ""))) s
          then String "K" (fold_name 2 s')
          else String (upper_ascii c) (fold_name 0 s')
      end
  end.

Definition names (key : string) (field : string) : bool :=
  bool_decide (fold_name 0 (default "" (decode_string key)) = fold_name 0 field).

(** A struct's string field: every member of its name is stored in turn, a
    [null] leaves it, another type is reported and skipped. *)
Definition string_field (field : string) (ms : list (string * string)) : string * bool :=
  fold_left (fun acc kv =>
    if names kv.1 field then
      if bool_decide (kv.2 = "null") then acc
      else match decode_string kv.2 with
           | Some x => (x, snd acc)
           | None => (fst acc, false)
           end
    else acc) ms ("", true).

(** A [json.RawMessage] field. *)
Definition raw_field (field : string) (ms : list (string * string)) : string :=
  fold_left (fun acc kv => if names kv.1 field then kv.2 else acc) ms "".
