(* ===== verification/JsonProps.v ===== *)
(** * JsonProps: what is encoded is decoded

    A string that is valid UTF-8 survives [json.Marshal] and [json.Unmarshal];
    compaction is idempotent; the members of an encoded struct and the elements
    of an encoded array are found again.  The splitter only looks at separators
    of the outermost value, so each lemma is about one complete value read
    inside of another one. *)

From S2P Require Import Prelude Json.

(** ** Runes *)

Definition high (c : ascii) : Prop := (128 <= N_of_ascii c)%N.

Fixpoint all_high (s : string) : Prop :=
  match s with EmptyString => True | String c s' => high c /\ all_high s' end.

Lemma byte_in_spec lo hi c : byte_in lo hi c = true <-> (lo <= N_of_ascii c <= hi)%N.
Proof. unfold byte_in. rewrite andb_true_iff, !N.leb_le. done. Qed.

(** A rune does not look at what follows it. *)
Lemma rune_split s n :
  rune_len s = Some n ->
  exists a p r, s = String a (p +:+ r) /\ S (String.length p) = n /\ all_high p
    /\ (forall r', rune_len (String a (p +:+ r')) = Some n).
Proof.
  intros Hn. destruct s as [| a s1]; [done |]. unfold rune_len in Hn.
  destruct (byte_in 0 127 a) eqn:H1.
  { simplify_eq. exists a, "", s1. split_and!; try done. intros r. cbn. by rewrite H1. }
  destruct s1 as [| b s2]; [done |]. destruct (byte_in 194 223 a) eqn:H2.
  { destruct (cont_byte b) eqn:Hb; simplify_eq. exists a, (String b ""), s2. split_and!; try done.
    - split; [| done]. apply byte_in_spec in Hb. unfold high. lia.
    - intros r. rewrite !str_app_cons. cbn [rune_len]. by rewrite H1, H2, Hb. }
  destruct s2 as [| c s3]; [done |]. destruct (byte_in 224 239 a) eqn:H3.
  { destruct (byte_in _ _ b && cont_byte c) eqn:Hbc; simplify_eq. exists a, (String b (String c "")), s3. split_and!; try done.
    - apply andb_true_iff in Hbc as [Hb%byte_in_spec Hc%byte_in_spec]. unfold all_high, high.
      destruct (N_of_ascii a =? 224)%N; split_and!; (done || lia).
    - intros r. rewrite !str_app_cons. cbn [rune_len]. by rewrite H1, H2, H3, Hbc. }
  destruct s3 as [| d s4]; [done |]. destruct (byte_in 240 244 a) eqn:H4; [| done].
  destruct (_ && _ && _) eqn:Hbcd; simplify_eq. exists a, (String b (String c (String d ""))), s4. split_and!; try done.
  - apply andb_true_iff in Hbcd as [[Hb%byte_in_spec Hc%byte_in_spec]%andb_true_iff Hd%byte_in_spec]. unfold all_high, high.
    destruct (N_of_ascii a =? 240)%N; split_and!; (done || lia).
  - intros r. rewrite !str_app_cons. cbn [rune_len]. by rewrite H1, H2, H3, H4, Hbcd.
Qed.

Lemma skip_emit p r k emit :
  String.length p = k -> marshal_string_from k emit (p +:+ r) = (if emit then p else "") +:+ marshal_string_from 0 true r.
Proof.
  intros <-. induction p as [| c p IH]; cbn [String.length].
  - change ("" +:+ r) with r. destruct r, emit; done.
  - rewrite !str_app_cons. cbn [marshal_string_from]. rewrite IH. by destruct emit.
Qed.

Lemma skip_unquote p r k emit :
  String.length p = k -> unquote_from k emit (p +:+ r) = (if emit then p else "") +:+ unquote_from 0 true r.
Proof.
  intros <-. induction p as [| c p IH]; cbn [String.length].
  - change ("" +:+ r) with r. destruct r, emit; done.
  - rewrite !str_app_cons. cbn [unquote_from]. rewrite IH. by destruct emit.
Qed.

Lemma skip_valid p r k : String.length p = k -> utf8_valid_from k (p +:+ r) = utf8_valid_from 0 r.
Proof. intros <-. induction p as [| c p IH]; [done |]. rewrite str_app_cons. cbn. apply IH. Qed.

(** The encoder goes from rune to rune. *)
Lemma marshal_string_ind (P : string -> Prop) :
  P "" ->
  (forall c s, (N_of_ascii c < 128)%N -> P s -> P (String c s)) ->
  (forall c s, high c -> rune_len (String c s) = None -> P s -> P (String c s)) ->
  (forall c p s, high c -> all_high p -> (forall r, rune_len (String c (p +:+ r)) = Some (S (String.length p))) ->
     P s -> P (String c (p +:+ s))) ->
  forall s, P s.
Proof.
  intros H0 H1 H2 H3 s. remember (String.length s) as n eqn:Hn. revert s Hn.
  induction (lt_wf n) as [n _ IH]. intros s ->. destruct s as [| c s]; [done |].
  destruct (N.ltb_spec (N_of_ascii c) 128) as [Hc | Hc].
  { apply H1; [done |]. by apply (IH (String.length s)); [cbn; lia |]. }
  destruct (rune_len (String c s)) as [k |] eqn:Hr.
  - destruct (rune_split _ _ Hr) as (a & p & r & [= <- ->] & Hk & Hp & Hall). apply H3; [done | done | |].
    + intros r'. by rewrite Hk.
    + apply (IH (String.length r)); [| done]. cbn. rewrite str_length_app. lia.
  - apply H2; [done | done |]. by apply (IH (String.length s)); [cbn; lia |].
Qed.

(** ** One value inside of another *)

(** The scanner after [s], if no separator of the outermost value is on the way. *)
Fixpoint inside (sc : scanner) (s : string) : option scanner :=
  match s with
  | EmptyString => Some sc
  | String c s' =>
      match scan sc c with
      | Some sc' => if separator sc sc' c then None else inside sc' s'
      | None => None
      end
  end.

Lemma inside_app sc a b : inside sc (a +:+ b) = inside sc a ≫= (fun sc' => inside sc' b).
Proof.
  revert sc. induction a as [| c a IH]; intros sc; [done |]. rewrite str_app_cons. cbn [inside].
  destruct (scan sc c) as [sc' |]; [| done]. destruct (separator _ _ _); [done | apply IH].
Qed.

Lemma inside_scan sc s sc' : inside sc s = Some sc' -> scan_all sc s = Some sc'.
Proof.
  revert sc. induction s as [| c s IH]; intros sc; [done |]. cbn [inside scan_all].
  destruct (scan sc c) as [sc1 |]; [| done]. destruct (separator _ _ _); [done | apply IH].
Qed.

Lemma scan_all_app sc a b : scan_all sc (a +:+ b) = scan_all sc a ≫= (fun sc' => scan_all sc' b).
Proof.
  revert sc. induction a as [| c a IH]; intros sc; [done |]. rewrite str_app_cons. cbn [scan_all].
  destruct (scan sc c); [apply IH | done].
Qed.

(** Put in front of the first part. *)
Definition prepend (s : string) (l : list string) : list string :=
  match l with t :: l => (s +:+ t) :: l | [] => [] end.

Lemma split_nonempty sc s : split_top sc s <> [].
Proof.
  revert sc. induction s as [| c s IH]; intros sc; [done |]. cbn [split_top]. destruct (scan sc c) as [sc' |]; [| done].
  specialize (IH sc'). destruct (separator _ _ _); [done |]. by destruct (split_top sc' s).
Qed.

Lemma split_inside sc s sc' r : inside sc s = Some sc' -> split_top sc (s +:+ r) = prepend s (split_top sc' r).
Proof.
  revert sc. induction s as [| c s IH]; intros sc; cbn [inside].
  - intros [= <-]. change ("" +:+ r) with r. pose proof (split_nonempty sc r). by destruct (split_top sc r).
  - destruct (scan sc c) as [sc1 |] eqn:Hc; [| done]. destruct (separator sc sc1 c) eqn:Hs; [done |]. intros Hin.
    rewrite str_app_cons. cbn [split_top]. rewrite Hc, Hs, (IH _ Hin).
    pose proof (split_nonempty sc' r). by destruct (split_top sc' r).
Qed.

Lemma split_separator sc c sc' r :
  scan sc c = Some sc' -> separator sc sc' c = true -> split_top sc (String c r) = "" :: split_top sc' r.
Proof. intros Hc Hs. cbn [split_top]. by rewrite Hc, Hs. Qed.

(** ** Strings *)

Lemma same_stack_no_separator st st' stack c :
  in_string st = true -> separator (mkScanner st stack) (mkScanner st' stack) c = false.
Proof. intros Hst. unfold separator. cbn. rewrite Hst. destruct stack as [| [] [| ? ?]]; done. Qed.

Lemma high_in_string c stack : high c -> scan (mkScanner InString stack) c = Some (mkScanner InString stack).
Proof.
  unfold high. intros Hc. unfold scan. cbn [sc_step sc_stack].
  destruct (N.eqb_spec (N_of_ascii c) 34); [lia |].
  rewrite bool_decide_eq_false_2 by (intros ->; cbn in Hc; lia).
  destruct (N.ltb_spec (N_of_ascii c) 32); [lia | done].
Qed.

Lemma inside_high p r stack : all_high p -> inside (mkScanner InString stack) (p +:+ r) = inside (mkScanner InString stack) r.
Proof.
  induction p as [| c p IH]; [done |]. intros [Hc Hp]. rewrite str_app_cons. cbn [inside].
  rewrite high_in_string, same_stack_no_separator by done. by apply IH.
Qed.

Lemma inside_escape c stack :
  (N_of_ascii c < 128)%N -> inside (mkScanner InString stack) (escape_ascii c) = Some (mkScanner InString stack).
Proof.
  intros Hc. destruct stack as [| [] [| x l]]; destruct c as [[] [] [] [] [] [] [] []]; try (vm_compute in Hc; discriminate Hc);
    vm_compute; reflexivity.
Qed.

Lemma unquote_escape c r : (N_of_ascii c < 128)%N -> unquote_from 0 true (escape_ascii c +:+ r) = String c (unquote_from 0 true r).
Proof.
  intros Hc. destruct c as [[] [] [] [] [] [] [] []]; try (vm_compute in Hc; discriminate Hc); destruct r; reflexivity.
Qed.

Lemma escaped_string_stays s stack : inside (mkScanner InString stack) (marshal_string_from 0 true s) = Some (mkScanner InString stack).
Proof.
  induction s as [| c s Hc IH | c s Hc Hr IH | c p s Hc Hp Hr IH] using marshal_string_ind; [done | ..].
  - cbn [marshal_string_from]. apply N.ltb_lt in Hc as Hlt. rewrite Hlt, inside_app, inside_escape by done. exact IH.
  - cbn [marshal_string_from]. destruct (N.ltb_spec (N_of_ascii c) 128); [unfold high in Hc; lia |].
    rewrite Hr, inside_app.
    assert (inside (mkScanner InString stack) "\ufffd" = Some (mkScanner InString stack)) as -> by (destruct stack as [| [] [| ? ?]]; reflexivity).
    exact IH.
  - cbn [marshal_string_from]. destruct (N.ltb_spec (N_of_ascii c) 128); [unfold high in Hc; lia |].
    rewrite Hr. rewrite Nat.sub_succ, Nat.sub_0_r. destruct (line_separator _) as [x |] eqn:Hl.
    + rewrite (skip_emit p) by done. rewrite inside_app.
      assert (inside (mkScanner InString stack) (hex4 x) = Some (mkScanner InString stack)) as ->; [| exact IH].
      unfold line_separator in Hl. destruct (p +:+ s) as [| b [| d u]]; [done.. |].
      destruct (_ && _); [| done]. destruct (_ =? _)%N; [| destruct (_ =? _)%N; [| done]]; simplify_eq;
        destruct stack as [| [] [| ? ?]]; reflexivity.
    + rewrite (skip_emit p) by done. cbn [inside]. rewrite high_in_string, same_stack_no_separator by done.
      by rewrite inside_high.
Qed.

(** The text of a string, as a value or as a key. *)
Lemma inside_string st s stack :
  scan (mkScanner st stack) (ascii_of_N 34) = Some (mkScanner InString stack) ->
  inside (mkScanner st stack) (marshal_string s) = Some (mkScanner EndValue stack).
Proof.
  intros Hst. unfold marshal_string, quote_mark. rewrite str_app_cons. cbn [inside]. rewrite Hst.
  assert (separator (mkScanner st stack) (mkScanner InString stack) (ascii_of_N 34) = false) as ->.
  { unfold separator. cbn [sc_stack sc_step]. destruct stack as [| [] [| ? ?]]; try done. by rewrite andb_false_r. }
  change ("" +:+ ?x) with x. rewrite inside_app, escaped_string_stays. cbn [mbind option_bind].
  destruct stack as [| [] [| ? ?]]; vm_compute; reflexivity.
Qed.

(** The runes that are escaped though they are text. *)
Lemma line_separator_inv c s x :
  line_separator (String c s) = Some x ->
  exists d u, c = ascii_of_N 226 /\ s = String (ascii_of_N 128) (String d u)
    /\ (d = ascii_of_N 168 /\ x = 8232%N \/ d = ascii_of_N 169 /\ x = 8233%N).
Proof.
  unfold line_separator. destruct s as [| b [| d u]]; [done.. |]. destruct (_ && _) eqn:Hab; [| done].
  apply andb_true_iff in Hab as [Ha%N.eqb_eq Hb%N.eqb_eq]. intros Hx. exists d, u.
  rewrite <- (ascii_N_embedding c), Ha, <- (ascii_N_embedding b), Hb. rewrite <- (ascii_N_embedding d).
  destruct (N.eqb_spec (N_of_ascii d) 168) as [-> |]; [simplify_eq; auto |].
  destruct (N.eqb_spec (N_of_ascii d) 169) as [-> |]; [simplify_eq; auto | done].
Qed.

Lemma unquote_separators d x r :
  d = ascii_of_N 168 /\ x = 8232%N \/ d = ascii_of_N 169 /\ x = 8233%N ->
  unquote_from 0 true (hex4 x +:+ r) = String (ascii_of_N 226) (String (ascii_of_N 128) (String d (unquote_from 0 true r))).
Proof. intros [[-> ->] | [-> ->]]; destruct r; reflexivity. Qed.

Lemma unquote_marshalled s r : utf8_valid s = true -> unquote_from 0 true (marshal_string_from 0 true s +:+ String (ascii_of_N 34) r) = s.
Proof.
  unfold utf8_valid.
  induction s as [| c s Hc IH | c s Hc Hr IH | c p s Hc Hp Hr IH] using marshal_string_ind; [done | ..].
  - cbn [utf8_valid_from marshal_string_from]. apply N.ltb_lt in Hc as Hlt. rewrite Hlt. intros Hv.
    rewrite str_app_assoc, unquote_escape by done. f_equal. apply IH. revert Hv.
    assert (rune_len (String c s) = Some 1%nat) as ->; [| done].
    cbn [rune_len]. by assert (byte_in 0 127 c = true) as -> by (apply byte_in_spec; lia).
  - cbn [utf8_valid_from]. by rewrite Hr.
  - cbn [utf8_valid_from marshal_string_from]. rewrite Hr. rewrite Nat.sub_succ, Nat.sub_0_r, skip_valid by done. intros Hv.
    destruct (N.ltb_spec (N_of_ascii c) 128); [unfold high in Hc; lia |].
    destruct (line_separator _) as [x |] eqn:Hl.
    + specialize (Hr s). rewrite (skip_emit p) by done.
      destruct (line_separator_inv _ _ _ Hl) as (d & u & -> & Hps & Hx). rewrite Hps in Hr.
      assert (String.length p = 2%nat) as Hlen by (destruct Hx as [[-> _] | [-> _]]; by injection Hr).
      destruct p as [| b [| d' [| ? ?]]]; try done. rewrite !str_app_cons in Hps. injection Hps as -> -> Hs.
      change ("" +:+ s) with s in Hs. subst u. rewrite !str_app_assoc.
      rewrite (unquote_separators d) by done. change ("" +:+ ?y) with y. by rewrite (IH Hv).
    + rewrite (skip_emit p) by done. rewrite str_app_cons, str_app_assoc. cbn [unquote_from].
      destruct (N.eqb_spec (N_of_ascii c) 34); [lia |]. destruct (N.eqb_spec (N_of_ascii c) 92); [lia |].
      destruct (N.ltb_spec (N_of_ascii c) 128); [lia |].
      rewrite Hr, Nat.sub_succ, Nat.sub_0_r, skip_unquote by done. by rewrite (IH Hv).
Qed.

Lemma decode_marshalled s : utf8_valid s = true -> decode_string (marshal_string s) = Some s.
Proof. intros Hv. pose proof (unquote_marshalled s "" Hv) as H. unfold decode_string, marshal_string, quote_mark. f_equal. exact H. Qed.

(** ** Blanks *)

Lemma trim_right_snoc s c : is_space c = false -> trim_right (s +:+ String c "") = s +:+ String c "".
Proof.
  intros Hc. induction s as [| d s IH].
  - change ("" +:+ String c "") with (String c ""). cbn [trim_right]. by rewrite Hc.
  - rewrite str_app_cons. cbn [trim_right]. rewrite IH. destruct (s +:+ String c "") eqn:Hs; [by destruct s | done].
Qed.

Lemma trim_same c s : is_space c = false -> trim_right (String c s) = String c s -> trim (String c s) = String c s.
Proof. intros Hc Hr. unfold trim. cbn [trim_left]. by rewrite Hc. Qed.

Lemma trim_between c s d : is_space c = false -> is_space d = false -> trim (String c (s +:+ String d "")) = String c (s +:+ String d "").
Proof. intros Hc Hd. apply trim_same; [done |]. rewrite <- str_app_cons. by apply trim_right_snoc. Qed.

Lemma trim_marshalled s : trim (marshal_string s) = marshal_string s.
Proof. unfold marshal_string, quote_mark. rewrite str_app_cons. by apply trim_between. Qed.

(** ** Structs *)

(** A text that is one value inside of a struct: read there it stays, and a
    separator may follow. *)
Definition value_in (parent : parse_state) (t : string) : Prop :=
  exists st, inside (mkScanner BeginValue [parent]) t = Some (mkScanner st [parent])
    /\ (forall c, (c = ","%char \/ c = "}"%char \/ c = "]"%char) -> scan (mkScanner st [parent]) c = step_end_value [parent] c).

Lemma string_value parent s : value_in parent (marshal_string s).
Proof. exists EndValue. split; [by apply inside_string; destruct parent | done]. Qed.

(** The members of a struct, as name and text. *)
Definition members_of (ms : list (string * string)) : list string := map (fun m => member m.1 m.2) ms.

(** A name that is written as it is. *)
Definition plain_name (n : string) : Prop :=
  inside (mkScanner BeginString [ParseObjectKey]) (quote_mark +:+ n +:+ quote_mark) = Some (mkScanner EndValue [ParseObjectKey])
  /\ trim (quote_mark +:+ n +:+ quote_mark) = quote_mark +:+ n +:+ quote_mark.

Definition key_text (n : string) : string := quote_mark +:+ n +:+ quote_mark.

Lemma split_member st n t r :
  st = BeginString \/ st = BeginStringOrEmpty -> plain_name n -> value_in ParseObjectValue t ->
  exists st', (forall c, (c = ","%char \/ c = "}"%char \/ c = "]"%char) ->
      scan (mkScanner st' [ParseObjectValue]) c = step_end_value [ParseObjectValue] c)
    /\ split_top (mkScanner st [ParseObjectKey]) (member n t +:+ r)
       = key_text n :: prepend t (split_top (mkScanner st' [ParseObjectValue]) r).
Proof.
  intros Hst [Hn _] (st' & Ht & Hend). exists st'. split; [done |].
  assert (inside (mkScanner st [ParseObjectKey]) (key_text n) = Some (mkScanner EndValue [ParseObjectKey])) as Hkey.
  { rewrite <- Hn. destruct Hst as [-> | ->]; reflexivity. }
  assert (member n t +:+ r = key_text n +:+ String ":" (t +:+ r)) as ->.
  { unfold member, key_text. rewrite !str_app_assoc. reflexivity. }
  rewrite (split_inside _ _ _ _ Hkey).
  rewrite (split_separator _ _ (mkScanner BeginValue [ParseObjectValue])) by reflexivity.
  rewrite (split_inside _ _ _ _ Ht). unfold prepend. by rewrite str_app_nil.
Qed.

Lemma split_members ms : ms <> [] ->
  Forall (fun m => plain_name m.1 /\ value_in ParseObjectValue m.2) ms ->
  forall st, st = BeginString \/ st = BeginStringOrEmpty ->
  split_top (mkScanner st [ParseObjectKey]) (join_with "," (members_of ms) +:+ "}")
  = flat_map (fun m => [key_text m.1; m.2]) ms ++ [""].
Proof.
  intros Hne Hms. induction Hms as [| [n t] ms [Hn Ht] Hms IH]; [done |]. intros st Hst. clear Hne. cbn [fst snd] in Hn, Ht.
  destruct ms as [| m ms].
  - change (join_with "," (members_of [(n, t)])) with (member n t). destruct (split_member st n t "}" Hst Hn Ht) as (st' & Hend & ->).
    rewrite (split_separator _ _ (mkScanner EndTop [])); [| by rewrite Hend by auto | reflexivity].
    cbn. by rewrite str_app_nil.
  - assert (join_with "," (members_of ((n, t) :: m :: ms)) +:+ "}"
      = member n t +:+ String "," (join_with "," (members_of (m :: ms)) +:+ "}")) as ->.
    { change (join_with "," (members_of ((n, t) :: m :: ms))) with (member n t +:+ "," +:+ join_with "," (members_of (m :: ms))).
      by rewrite !str_app_assoc. }
    destruct (split_member st n t (String "," (join_with "," (members_of (m :: ms)) +:+ "}")) Hst Hn Ht) as (st' & Hend & ->).
    rewrite (split_separator _ _ (mkScanner BeginString [ParseObjectKey])); [| by rewrite Hend by auto | reflexivity].
    rewrite IH by auto. cbn [prepend flat_map app fst snd]. by rewrite str_app_nil.
Qed.

Lemma pair_up_members ms : pair_up (flat_map (fun m : string * string => [key_text m.1; m.2]) ms) = map (fun m => (key_text m.1, m.2)) ms.
Proof. induction ms as [| m ms IH]; [done |]. cbn. by rewrite IH. Qed.

(** The members of an encoded struct are found again. *)
Lemma object_members_of ms : ms <> [] ->
  Forall (fun m => plain_name m.1 /\ value_in ParseObjectValue m.2 /\ trim m.2 = m.2) ms ->
  object_members (object_of (members_of ms)) = Some (map (fun m => (key_text m.1, m.2)) ms).
Proof.
  intros Hne Hms. unfold object_members, object_of.
  assert (trim ("{" +:+ join_with "," (members_of ms) +:+ "}") = "{" +:+ join_with "," (members_of ms) +:+ "}") as Htrim
    by (by apply (trim_between "{"%char _ "}"%char)).
  rewrite Htrim. change (has_prefix "{" ("{" +:+ ?x)) with (has_prefix "" x).
  assert (forall x, has_prefix "" x = true) as -> by (by intros []). f_equal. rewrite <- pair_up_members. f_equal.
  rewrite (str_app_cons "{"%char). rewrite (split_separator _ _ (mkScanner BeginStringOrEmpty [ParseObjectKey])) by reflexivity.
  change ("" +:+ ?x) with x.
  rewrite split_members; [| done | | by right].
  2:{ apply (list.Forall_impl _ _ _ Hms). by intros m (? & ? & _). }
  cbn [map tail]. rewrite map_app. cbn [map]. rewrite removelast_last.
  clear Htrim Hne. induction Hms as [| m ms (Hn & _ & Ht) _ IH]; [done |]. cbn [flat_map app map]. rewrite IH, Ht.
  destruct Hn as [_ Hn]. unfold key_text. by rewrite Hn.
Qed.

(** ** Any value inside of another one *)

(** States that only a composite value has. *)
Definition opened (st : scan_step) : bool :=
  match st with BeginValueOrEmpty | BeginStringOrEmpty | BeginString => true | _ => false end.

(** States of a value that has not ended. *)
Definition going (st : scan_step) : Prop :=
  match st with EndTop => False | Literal rest => has_char ","%char rest = false | _ => True end.

(** A value by itself and the same value inside of a parent. *)
Definition embedded (parent : parse_state) (sc sc2 : scanner) : Prop :=
  sc_stack sc2 = sc_stack sc ++ [parent]
  /\ (sc_step sc2 = sc_step sc /\ going (sc_step sc) /\ (sc_stack sc = [] -> opened (sc_step sc) = false)
      \/ sc = mkScanner EndTop [] /\ sc_step sc2 = EndValue).

Lemma embedded_same parent st stack :
  going st -> (stack = [] -> opened st = false) -> embedded parent (mkScanner st stack) (mkScanner st (stack ++ [parent])).
Proof. intros H1 H2. split; [done | by left]. Qed.

Lemma embedded_end parent : embedded parent (mkScanner EndTop []) (mkScanner EndValue [parent]).
Proof. split; [done | by right]. Qed.

Lemma embed_pop parent x stack sc sc2 :
  pop (x :: stack) = Some sc -> pop ((x :: stack) ++ [parent]) = Some sc2 -> embedded parent sc sc2.
Proof.
  unfold pop. cbn [tail app]. destruct stack as [| y stack]; cbn [app]; intros [= <-] [= <-]; [apply embedded_end |].
  by apply (embedded_same parent EndValue (y :: stack)).
Qed.

Lemma embed_end_value parent stack c sc sc2 :
  step_end_value stack c = Some sc -> step_end_value (stack ++ [parent]) c = Some sc2 -> embedded parent sc sc2.
Proof.
  destruct stack as [| x stack]; cbn [step_end_value app].
  - unfold step_end_top. destruct (is_space c); [| done]. intros [= <-] [= <-]. apply embedded_end.
  - destruct (is_space c).
    { intros [= <-] [= <-]. by apply (embedded_same parent EndValue (x :: stack)). }
    destruct x.
    + destruct (bool_decide (c = ":"%char)); [| done]. intros [= <-] [= <-]. by apply (embedded_same parent BeginValue (ParseObjectValue :: stack)).
    + destruct (bool_decide (c = ","%char)); [intros [= <-] [= <-]; by apply (embedded_same parent BeginString (ParseObjectKey :: stack)) |].
      destruct (bool_decide (c = "}"%char)); [| done]. apply embed_pop.
    + destruct (bool_decide (c = ","%char)); [intros [= <-] [= <-]; by apply (embedded_same parent BeginValue (ParseArrayValue :: stack)) |].
      destruct (bool_decide (c = "]"%char)); [| done]. apply embed_pop.
Qed.

Lemma embed_push parent st p stack sc sc2 :
  going st -> push st p stack = Some sc -> push st p (stack ++ [parent]) = Some sc2 -> embedded parent sc sc2.
Proof.
  intros Hst. unfold push. destruct (_ <=? _)%N; [| done]. destruct (_ <=? _)%N; [| done]. intros [= <-] [= <-].
  by apply (embedded_same parent st (p :: stack)).
Qed.

Lemma embed_begin_value parent stack c sc sc2 :
  step_begin_value stack c = Some sc -> step_begin_value (stack ++ [parent]) c = Some sc2 -> embedded parent sc sc2.
Proof.
  unfold step_begin_value.
  repeat match goal with |- (if ?b then _ else _) = Some _ -> _ => destruct b end;
    first [by apply embed_push | done | intros [= <-] [= <-]; by apply embedded_same].
Qed.

Lemma embed_int0 parent stack c sc sc2 :
  step_int0 stack c = Some sc -> step_int0 (stack ++ [parent]) c = Some sc2 -> embedded parent sc sc2.
Proof.
  unfold step_int0. destruct (bool_decide _); [intros [= <-] [= <-]; by apply embedded_same |].
  destruct (_ || _); [intros [= <-] [= <-]; by apply embedded_same | apply embed_end_value].
Qed.

Ltac embed_cases :=
  repeat match goal with |- context [if ?b then _ else _] => destruct b end;
  first [apply embed_end_value | apply embed_begin_value | apply embed_int0 | done
        | intros [= <-] [= <-]; first [by apply embedded_same | apply (embedded_same _ _ (_ :: _)); done]].

Lemma embed_scan parent sc sc2 c sc' sc2' :
  embedded parent sc sc2 -> scan sc c = Some sc' -> scan sc2 c = Some sc2' -> embedded parent sc' sc2'.
Proof.
  intros [Hstack Hst]. destruct sc as [st stack], sc2 as [st2 stack2]. cbn [sc_step sc_stack] in *. subst stack2.
  destruct Hst as [(-> & Hend & Hop) | [[= -> ->] ->]]; cycle 1.
  { cbn [scan sc_step sc_stack]. unfold step_end_top. destruct (is_space c) eqn:Hc; [| done]. intros [= <-]. cbn [app step_end_value].
    rewrite Hc. intros [= <-]. apply embedded_end. }
  destruct st; cbn [scan sc_step sc_stack]; unfold step_begin_string, step_exp_sign.
  all: try embed_cases; try done.
  - destruct stack as [| x stack]; [by specialize (Hop eq_refl) |]. cbn [list.tail app].
    change (x :: stack ++ [parent]) with ((x :: stack) ++ [parent]).
    change (ParseObjectValue :: stack ++ [parent]) with ((ParseObjectValue :: stack) ++ [parent]). embed_cases.
  - destruct (is_hex c); [| done]. intros [= <-] [= <-]. apply embedded_same; by destruct more as [| [| ?]].
  - destruct rest as [| d rest]; [done |]. destruct (bool_decide _); [| done]. intros [= <-] [= <-].
    cbn [going has_char] in Hend. apply orb_false_iff in Hend as [_ Hend]. by apply embedded_same; destruct rest.
Qed.

Lemma embed_quiet parent sc sc2 c sc' sc2' :
  embedded parent sc sc2 -> scan sc c = Some sc' -> embedded parent sc' sc2' -> separator sc2 sc2' c = false.
Proof.
  intros [Hs Hst] Hscan [Hs' _]. unfold separator. rewrite Hs, Hs'.
  destruct (sc_stack sc) as [| x [| y stack]] eqn:Hx, (sc_stack sc') as [| x' [| y' stack']]; cbn [app];
    try (by repeat case_match); try (by destruct parent; repeat case_match).
  destruct parent; [done.. |]. apply andb_false_iff.
  destruct (decide (c = ","%char)) as [-> | Hc]; [left | right; by apply bool_decide_eq_false_2].
  destruct sc as [st stack]. cbn [sc_step sc_stack] in *. subst stack.
  destruct Hst as [(-> & Hg & Hop) | [[= ->] _]]; [| done].
  destruct st; try done. destruct rest as [| d rest]; [done |]. cbn [scan sc_step] in Hscan. cbn [going has_char] in Hg.
  apply orb_false_iff in Hg as [Hg _]. by rewrite Hg in Hscan.
Qed.

Lemma embed_inside parent t sc sc2 sc' :
  embedded parent sc sc2 -> scan_all sc t = Some sc' -> is_Some (scan_all sc2 t) ->
  exists sc2', inside sc2 t = Some sc2' /\ embedded parent sc' sc2'.
Proof.
  revert sc sc2. induction t as [| c t IH]; intros sc sc2 He; cbn [scan_all inside].
  { intros [= <-] _. by exists sc2. }
  destruct (scan sc c) as [sc1 |] eqn:H1; [| done]. destruct (scan sc2 c) as [sc3 |] eqn:H3; [| by intros _ []].
  intros Hall Hsome. pose proof (embed_scan _ _ _ _ _ _ He H1 H3) as He'.
  rewrite (embed_quiet _ _ _ _ _ _ He H1 He'). by apply (IH sc1).
Qed.

(** A value that could end here may be followed by a separator. *)
Lemma end_follows parent sc st2 stack2 c :
  embedded parent sc (mkScanner st2 stack2) -> scan_eof sc = true -> (c = ","%char \/ c = "}"%char \/ c = "]"%char) ->
  stack2 = [parent] /\ scan (mkScanner st2 stack2) c = step_end_value [parent] c.
Proof.
  intros [Hs Hst] Heof Hc. destruct sc as [st stack]. cbn [sc_step sc_stack] in *. subst stack2.
  destruct Hst as [(-> & Hne & Hop) | [[= -> ->] ->]]; [| done].
  assert (stack = [] /\ st ∈ [EndValue; Int1; Int0; Dot0; Exp0]) as [-> Hin].
  { unfold scan_eof in Heof. cbn [sc_step] in Heof.
    destruct st; try done; destruct stack as [| x stack]; try done; try (by (split; [done | set_solver])).
    all: destruct rest as [| d rest]; [done |]; cbn [scan sc_step sc_stack] in Heof; destruct (bool_decide _); [by destruct rest | done]. }
  split; [done |]. rewrite !elem_of_cons, elem_of_nil in Hin.
  destruct Hc as [-> | [-> | ->]], Hin as [-> | [-> | [-> | [-> | [-> | []]]]]]; done.
Qed.

(** A valid document, wherever it may be read, is one value there. *)
Lemma embedded_value parent t :
  valid t = true -> is_Some (scan_all (mkScanner BeginValue [parent]) t) -> value_in parent t.
Proof.
  unfold valid. destruct (scan_all scan_init t) as [sc |] eqn:Ht; [| done]. intros Heof Hsome.
  destruct (embed_inside parent t scan_init _ sc (embedded_same parent BeginValue [] ltac:(done) ltac:(done)) Ht Hsome)
    as ([st2 stack2] & Hin & He). cbn [app] in Hin.
  assert (stack2 = [parent]) as -> by (by destruct (end_follows parent sc st2 stack2 ","%char He Heof ltac:(auto))).
  exists st2. split; [done |]. intros c Hc. by destruct (end_follows parent sc st2 [parent] c He Heof Hc).
Qed.

(** ** Compaction *)

Lemma compact_scans k sc s v : compact_from k sc s = Some v -> exists sc', scan_all sc s = Some sc' /\ scan_eof sc' = true.
Proof.
  revert k sc v. induction s as [| c s IH]; intros k sc v; cbn [compact_from scan_all].
  { destruct (scan_eof sc) eqn:He; [| done]. eauto. }
  destruct (scan sc c) as [sc' |]; [| done].
  assert (forall k (f : string -> string), f <$> compact_from k sc' s = Some v -> exists sc2, scan_all sc' s = Some sc2 /\ scan_eof sc2 = true) as Hf.
  { intros k' f. destruct (compact_from k' sc' s) eqn:Hc; [| done]. intros _. by eapply IH. }
  destruct k; [| apply IH]. destruct (in_string _).
  - destruct (html_special c); [apply Hf |]. destruct (line_separator _); apply Hf.
  - destruct (is_space c); [apply IH | apply Hf].
Qed.

Lemma compact_valid s v : compact_from 0 scan_init s = Some v -> valid s = true.
Proof. intros (sc & Hs & He)%compact_scans. unfold valid. by rewrite Hs. Qed.

(** The literals that are left to read hold no blanks, and nothing is open at the
    end. *)
Definition worded (sc : scanner) : Prop :=
  match sc_step sc with
  | Literal rest => forall c, is_space c = true -> has_char c rest = false
  | EndTop => sc_stack sc = []
  | _ => True
  end.

Ltac by_space := let c := fresh in let H := fresh in intros c H; destruct c as [[] [] [] [] [] [] [] []]; vm_compute in H |- *; congruence.

Lemma worded_scan sc c sc' : worded sc -> scan sc c = Some sc' -> worded sc'.
Proof.
  destruct sc as [st stack]. unfold worded. cbn [sc_step sc_stack].
  intros Hw Hs. destruct sc' as [st' stack']. cbn [sc_step sc_stack]. destruct st'; try done.
  all: destruct st; cbn [scan sc_step sc_stack] in Hs;
    unfold step_begin_string, step_exp_sign, step_int0, step_end_value, step_begin_value, step_end_top, push, pop in Hs.
  all: repeat match type of Hs with context [if ?b then _ else _] => destruct b end.
  all: repeat match type of Hs with context [match ?x with _ => _ end] => destruct x eqn:? end.
  all: try discriminate Hs; try (injection Hs as <- <-; by_space); try (by simplify_eq).
  injection Hs as <- <-; intros d Hd; specialize (Hw d Hd); cbn [has_char] in Hw |- *; by apply orb_false_iff in Hw as [_ Hw].
Qed.

(** Where the scanner of the compacted text is: at the same place, or before the
    blanks after a value. *)
Definition ended (stack : list parse_state) : scanner :=
  match stack with [] => mkScanner EndTop [] | _ => mkScanner EndValue stack end.

Definition could_end (st : scan_step) : bool :=
  match st with EndValue | Int1 | Int0 | Dot0 | Exp0 => true | _ => false end.

Definition late (sc sc2 : scanner) : Prop :=
  sc = sc2 \/ (could_end (sc_step sc2) = true /\ sc = ended (sc_stack sc2)).

Lemma end_value_char stack c sc : step_end_value stack c = Some sc -> is_space c = false -> c ∈ [":"%char; ","%char; "}"%char; "]"%char].
Proof.
  destruct stack as [| [] stack]; cbn [step_end_value]; unfold step_end_top; intros H Hc; rewrite Hc in H; [done | ..].
  all: rewrite !elem_of_cons.
  all: repeat match type of H with context [bool_decide ?p] => destruct (bool_decide_reflect p) end; try done; auto.
Qed.

Lemma late_scan sc sc2 c sc' : late sc sc2 -> scan sc c = Some sc' -> is_space c = false -> scan sc2 c = Some sc'.
Proof.
  intros [-> | [Hend ->]]; [done |]. destruct sc2 as [st [| x stack]]; cbn [ended sc_stack sc_step] in *.
  - cbn. unfold step_end_top. intros Hs Hc. by rewrite Hc in Hs.
  - cbn [scan sc_step sc_stack]. intros Hs Hc. pose proof (end_value_char _ _ _ Hs Hc) as Hin.
    destruct st; try done; unfold scan, step_int0; cbn [sc_step sc_stack].
    all: rewrite !elem_of_cons, elem_of_nil in Hin; destruct Hin as [-> | [-> | [-> | [-> | []]]]]; exact Hs.
Qed.

Lemma space_cases c : is_space c = true -> c ∈ map ascii_of_N [32; 9; 13; 10]%N.
Proof. destruct c as [[] [] [] [] [] [] [] []]; intros H; vm_compute in H; try discriminate H; set_solver. Qed.

Lemma late_space sc c sc' : worded sc -> scan sc c = Some sc' -> is_space c = true -> in_string (sc_step sc) = false -> late sc' sc.
Proof.
  intros Hw Hs Hc Hin. destruct sc as [st stack]. unfold worded in Hw. cbn [sc_step sc_stack] in Hw.
  destruct st as [| | | | | | | | more | | | | | | | | | rest]; cycle -1.
  { specialize (Hw c Hc). destruct rest as [| d rest]; [done |]. cbn [has_char] in Hw. apply orb_false_iff in Hw as [Hd _].
    cbn [scan sc_step] in Hs. by rewrite Hd in Hs. }
  all: apply space_cases in Hc; cbn [map] in Hc; rewrite !elem_of_cons, elem_of_nil in Hc.
  all: destruct Hc as [-> | [-> | [-> | [-> | []]]]], stack as [| x stack]; vm_compute in Hs; simplify_eq; try done.
  all: first [by left | by right].
Qed.

Lemma late_trans_space sc c sc' sc2 :
  worded sc -> late sc sc2 -> scan sc c = Some sc' -> is_space c = true -> in_string (sc_step sc) = false -> late sc' sc2.
Proof.
  intros Hw Hl Hs Hc Hin. pose proof (late_space sc c sc' Hw Hs Hc Hin) as [-> | [He ->]]; [done |].
  destruct Hl as [-> | [Hend ->]]; [by right |]. destruct sc2 as [st [| x stack]]; [done | by right].
Qed.

Lemma late_eof sc sc2 : late sc sc2 -> scan_eof sc = true -> scan_eof sc2 = true.
Proof.
  intros [-> | [Hend ->]]; [done |]. destruct sc2 as [st [| x stack]]; cbn [ended sc_stack sc_step] in *; [| done].
  by destruct st.
Qed.

(** ** Compacting twice *)

Lemma not_separator c s : N_of_ascii c <> 226%N -> line_separator (String c s) = None.
Proof.
  intros Hc. destruct s as [| b [| d s]]; [done.. |]. cbn [line_separator]. by destruct (N.eqb_spec (N_of_ascii c) 226).
Qed.

Lemma compact_copy sc c sc' s :
  scan sc c = Some sc' -> in_string (sc_step sc) = true -> html_special c = false -> line_separator (String c s) = None ->
  compact_from 0 sc (String c s) = String c <$> compact_from 0 sc' s.
Proof. intros Hs Hi Hh Hl. cbn [compact_from]. by rewrite Hs, Hi, Hh, Hl. Qed.

(** An escape is copied. *)
Lemma compact_escape n stack s :
  n ∈ [60; 62; 38; 8232; 8233]%N ->
  compact_from 0 (mkScanner InString stack) (hex4 n +:+ s) = String.append (hex4 n) <$> compact_from 0 (mkScanner InString stack) s.
Proof.
  intros Hn. rewrite !elem_of_cons, elem_of_nil in Hn.
  destruct Hn as [-> | [-> | [-> | [-> | [-> | []]]]]].
  all: match goal with |- compact_from _ _ (?h +:+ _) = _ => let h' := eval vm_compute in h in change h with h' end; rewrite !str_app_cons.
  all: do 6 (erewrite compact_copy; [| reflexivity | reflexivity | reflexivity | by apply not_separator]).
  all: change ("" +:+ s) with s; by destruct (compact_from 0 _ s).
Qed.

Lemma late_string sc sc2 : late sc sc2 -> in_string (sc_step sc) = true -> sc = sc2.
Proof. intros [-> | [Hend ->]]; [done |]. by destruct (sc_stack sc2). Qed.

Lemma string_high sc c sc' : in_string (sc_step sc) = true -> scan sc c = Some sc' -> high c -> sc' = sc /\ sc_step sc = InString.
Proof.
  destruct sc as [st stack]. destruct st; try done; cbn [sc_step]; intros _ Hs Hc.
  - rewrite high_in_string in Hs by done. by simplify_eq.
  - exfalso. destruct c as [[] [] [] [] [] [] [] []]; vm_compute in Hc; try (by apply Hc); vm_compute in Hs; discriminate Hs.
  - exfalso. destruct c as [[] [] [] [] [] [] [] []]; vm_compute in Hc; try (by apply Hc); vm_compute in Hs; discriminate Hs.
Qed.

(** A high byte of the compacted text is that byte of the text. *)
Lemma compact_high stack s b v :
  high b -> compact_from 0 (mkScanner InString stack) s = Some (String b v) ->
  exists s', s = String b s' /\ compact_from 0 (mkScanner InString stack) s' = Some v.
Proof.
  intros Hb. assert (forall n x, String.append (hex4 n) <$> x <> Some (String b v)) as Hhex.
  { intros n [x |]; [| done]. intros [= <- _]. vm_compute in Hb. by apply Hb. }
  destruct s as [| c s]; [done |]. cbn [compact_from]. destruct (scan _ c) as [sc' |] eqn:Hs; [| done]. cbn [in_string sc_step].
  destruct (html_special c); [by intros ?%Hhex |]. destruct (line_separator _); [by intros ?%Hhex |].
  destruct (compact_from 0 sc' s) as [v' |] eqn:Hv; [| done]. intros [= -> ->].
  rewrite high_in_string in Hs by done. simplify_eq. by exists s.
Qed.

Lemma compact_line_separator sc c sc' s v :
  in_string (sc_step sc) = true -> scan sc c = Some sc' -> line_separator (String c s) = None ->
  compact_from 0 sc' s = Some v -> line_separator (String c v) = None.
Proof.
  intros Hin Hs Hl Hv. destruct (line_separator (String c v)) as [x |] eqn:Hx; [| done]. exfalso.
  destruct (line_separator_inv _ _ _ Hx) as (d & u & -> & -> & Hd).
  destruct (string_high _ _ _ Hin Hs) as [-> Hst]; [done |]. destruct sc as [st stack]. cbn [sc_step] in Hst. subst st.
  apply compact_high in Hv as (s1 & -> & Hv); [| done].
  assert (high d) as Hhd by (by destruct Hd as [[-> _] | [-> _]]).
  apply compact_high in Hv as (s2 & -> & _); [| done]. by destruct Hd as [[-> _] | [-> _]].
Qed.

(** The rest of a rune that was escaped. *)
Lemma compact_skip c s x stack :
  line_separator (String c s) = Some x ->
  exists u, compact_from 2 (mkScanner InString stack) s = compact_from 0 (mkScanner InString stack) u
    /\ (String.length u < String.length s)%nat /\ x ∈ [60; 62; 38; 8232; 8233]%N.
Proof.
  intros Hx. destruct (line_separator_inv _ _ _ Hx) as (d & u & -> & -> & Hd). exists u. split; [| split; [cbn; lia |]].
  - assert (high d) as Hhd by (by destruct Hd as [[-> _] | [-> _]]). cbn [compact_from].
    rewrite high_in_string by done. cbn [compact_from]. by rewrite high_in_string.
  - destruct Hd as [[_ ->] | [_ ->]]; set_solver.
Qed.

(** Compaction has nothing left to do. *)
Lemma compact_again s : forall sc sc2 v, worded sc -> late sc sc2 -> compact_from 0 sc s = Some v -> compact_from 0 sc2 v = Some v.
Proof.
  remember (String.length s) as n eqn:Hn. revert s Hn. induction (lt_wf n) as [n _ IH]. intros s -> sc sc2 v Hw Hl.
  destruct s as [| c s]; cbn [compact_from].
  { destruct (scan_eof sc) eqn:He; [| done]. intros [= <-]. cbn. by rewrite (late_eof _ _ Hl He). }
  destruct (scan sc c) as [sc' |] eqn:Hs; [| done]. pose proof (worded_scan _ _ _ Hw Hs) as Hw'.
  assert (forall s' v, (String.length s' < String.length (String c s))%nat -> compact_from 0 sc' s' = Some v -> compact_from 0 sc' v = Some v) as Hgo.
  { intros s' v' Hlen. apply (IH _ Hlen s' eq_refl sc' sc'); [done | by left]. }
  destruct (in_string (sc_step sc)) eqn:Hin.
  - pose proof (late_string _ _ Hl Hin) as <-. destruct (html_special c) eqn:Hh.
    + assert (sc' = sc /\ sc_step sc = InString /\ N_of_ascii c ∈ [60; 62; 38; 8232; 8233]%N) as (-> & Hst & Hc).
      { destruct sc as [[] stack]; try done; destruct c as [[] [] [] [] [] [] [] []]; vm_compute in Hh; try discriminate Hh;
          vm_compute in Hs; simplify_eq; (split; [done | split; [done | set_solver]]). }
      destruct sc as [st stack]. cbn [sc_step] in Hst. subst st.
      destruct (compact_from 0 _ s) as [v' |] eqn:Hv; [| done]. intros [= <-]. rewrite compact_escape by done.
      by rewrite (Hgo s v') by (done || (cbn; lia)).
    + destruct (line_separator (String c s)) as [x |] eqn:Hx.
      * assert (high c) as Hc by (by destruct (line_separator_inv _ _ _ Hx) as (d & u & -> & _)).
        destruct (string_high _ _ _ Hin Hs Hc) as [-> Hst]. destruct sc as [st stack]. cbn [sc_step] in Hst. subst st.
        destruct (compact_skip c s x stack Hx) as (u & -> & Hlen & Hn).
        destruct (compact_from 0 _ u) as [v' |] eqn:Hv; [| done]. intros [= <-]. rewrite compact_escape by done.
        by rewrite (Hgo u v') by (done || (cbn; lia)).
      * destruct (compact_from 0 sc' s) as [v' |] eqn:Hv; [| done]. intros [= <-].
        pose proof (compact_line_separator _ _ _ _ _ Hin Hs Hx Hv) as Hx'. rewrite (compact_copy _ _ sc') by done.
        by rewrite (Hgo s v') by (done || (cbn; lia)).
  - destruct (is_space c) eqn:Hc.
    + apply (IH (String.length s)); [cbn; lia | done | done |]. by apply (late_trans_space sc c).
    + destruct (compact_from 0 sc' s) as [v' |] eqn:Hv; [| done]. intros [= <-].
      cbn [compact_from]. rewrite (late_scan _ _ _ _ Hl Hs Hc).
      assert (in_string (sc_step sc2) = false) as ->.
      { destruct Hl as [<- | [Hend _]]; [done |]. by destruct (sc_step sc2). }
      rewrite Hc. by rewrite (Hgo s v') by (done || (cbn; lia)).
Qed.

Lemma trim_right_cons c s : trim_right s = s -> (s = "" -> is_space c = false) -> trim_right (String c s) = String c s.
Proof. intros Hs Hc. cbn [trim_right]. rewrite Hs. destruct s; [by rewrite Hc | done]. Qed.

Lemma trim_right_hex4 n s : n ∈ [60; 62; 38; 8232; 8233]%N -> trim_right s = s -> trim_right (hex4 n +:+ s) = hex4 n +:+ s.
Proof.
  intros Hn Hs. rewrite !elem_of_cons, elem_of_nil in Hn.
  destruct Hn as [-> | [-> | [-> | [-> | [-> | []]]]]].
  all: match goal with |- context [trim_right (?h +:+ _)] => let h' := eval vm_compute in h in change h with h' end; rewrite !str_app_cons.
  all: by repeat (apply trim_right_cons; [| done]).
Qed.

Lemma html_escapes c : html_special c = true -> N_of_ascii c ∈ [60; 62; 38; 8232; 8233]%N.
Proof. destruct c as [[] [] [] [] [] [] [] []]; intros H; vm_compute in H; try discriminate H; set_solver. Qed.

(** The compacted text ends in no blank, and a string is not over before its mark. *)
Lemma compact_trimmed s : forall k sc v, compact_from k sc s = Some v -> trim_right v = v /\ (k = 0%nat -> in_string (sc_step sc) = true -> v <> "").
Proof.
  induction s as [| c s IH]; intros k sc v; cbn [compact_from].
  { destruct (scan_eof sc) eqn:He; [| done]. intros [= <-]. split; [done |]. intros _ Hin. destruct sc as [[] [| ? ?]]; done. }
  destruct (scan sc c) as [sc' |] eqn:Hs; [| done].
  assert (forall k n, n ∈ [60; 62; 38; 8232; 8233]%N -> String.append (hex4 n) <$> compact_from k sc' s = Some v -> trim_right v = v /\ v <> "") as Hhex.
  { intros k' n Hn. destruct (compact_from k' sc' s) as [v' |] eqn:Hv; [| done]. intros [= <-]. split; [| done].
    apply trim_right_hex4; [done |]. by eapply IH. }
  assert ((in_string (sc_step sc') = true \/ is_space c = false) -> String c <$> compact_from 0 sc' s = Some v -> trim_right v = v /\ v <> "") as Hcopy.
  { intros Hin. destruct (compact_from 0 sc' s) as [v' |] eqn:Hv; [| done]. intros [= <-]. destruct (IH _ _ _ Hv) as [Ht Hne].
    split; [| done]. apply trim_right_cons; [done |]. intros ->. by destruct Hin as [Hin | ?]; [destruct (Hne eq_refl Hin) |]. }
  assert (trim_right v = v /\ v <> "" -> trim_right v = v /\ (k = 0%nat -> in_string (sc_step sc) = true -> v <> "")) as Hweak by naive_solver.
  destruct k as [| k]; [| intros Hv; split; [by eapply IH | done]].
  destruct (in_string (sc_step sc)) eqn:Hin.
  - destruct (html_special c) eqn:Hh; [intros Hv; by apply Hweak, (Hhex 0%nat (N_of_ascii c)); [apply html_escapes |] |].
    destruct (line_separator (String c s)) as [x |] eqn:Hx.
    + intros Hv. apply Hweak, (Hhex 2%nat x); [by destruct (compact_skip c s x [] Hx) as (? & _ & _ & ?) | done].
    + intros Hv. apply Hweak, Hcopy; [| done].
      destruct sc as [[] stack]; try done; cbn [scan sc_step sc_stack] in Hs.
      * destruct (N.eqb_spec (N_of_ascii c) 34) as [Hq |]; [right | left; repeat case_match; by simplify_eq].
        rewrite <- (ascii_N_embedding c), Hq. done.
      * left. repeat case_match; by simplify_eq.
      * left. destruct (is_hex c); [| done]. simplify_eq. by destruct more as [| [| ?]].
  - destruct (is_space c) eqn:Hc; [intros Hv; split; [by eapply IH | by intros _ ?] |]. intros Hv. by apply Hweak, Hcopy; [right |].
Qed.

(** The compacted text of a document begins with no blank. *)
Lemma compact_first stack s v : compact_from 0 (mkScanner BeginValue stack) s = Some v -> exists c v', v = String c v' /\ is_space c = false.
Proof.
  induction s as [| c s IH]; cbn [compact_from]; [done |]. destruct (scan _ c) as [sc' |] eqn:Hs; [| done]. cbn [in_string sc_step].
  destruct (is_space c) eqn:Hc.
  - cbn [scan sc_step sc_stack] in Hs. unfold step_begin_value in Hs. rewrite Hc in Hs. simplify_eq. apply IH.
  - destruct (compact_from 0 sc' s) as [v' |]; [| done]. intros [= <-]. eauto.
Qed.

Lemma compact_trim s v : compact_from 0 scan_init s = Some v -> trim v = v.
Proof.
  intros Hv. destruct (compact_first _ _ _ Hv) as (c & v' & -> & Hc). apply trim_same; [done |]. by apply compact_trimmed in Hv as [? _].
Qed.

Lemma compact_idempotent s v : compact_from 0 scan_init s = Some v -> compact_from 0 scan_init v = Some v.
Proof. apply compact_again; [done | by left]. Qed.

(** [json.Marshal] of a [json.RawMessage], twice. *)
Lemma marshal_raw_facts s v : marshal_raw s = Some v -> marshal_raw v = Some v /\ valid v = true /\ trim v = v /\ v <> "".
Proof.
  assert (forall s, compact_from 0 scan_init s = Some v -> marshal_raw v = Some v /\ valid v = true /\ trim v = v /\ v <> "") as H.
  { clear s. intros s Hv. destruct (compact_first _ _ _ Hv) as (c & v' & Heq & _). pose proof (compact_idempotent _ _ Hv) as Hi.
    split_and!; [by rewrite Heq in * | by apply (compact_valid _ v) | by apply (compact_trim s) | by rewrite Heq]. }
  destruct s as [| c s]; cbn [marshal_raw]; [| by apply H]. intros [= <-]. by apply (H "null").
Qed.

(** ** Arrays *)

Lemma split_elems ts : ts <> [] -> Forall (value_in ParseArrayValue) ts -> forall r,
  split_top (mkScanner BeginValue [ParseArrayValue]) (join_with "," ts +:+ String "]" r) = ts ++ split_top (mkScanner EndTop []) r.
Proof.
  intros Hne Hts r. induction Hts as [| t ts (st & Ht & Hend) Hts IH]; [done |]. clear Hne. destruct ts as [| t' ts].
  - cbn [join_with]. rewrite (split_inside _ _ _ _ Ht).
    rewrite (split_separator _ _ (mkScanner EndTop [])); [| by rewrite Hend by auto | reflexivity]. cbn [prepend app]. by rewrite str_app_nil.
  - assert (join_with "," (t :: t' :: ts) +:+ String "]" r = t +:+ String "," (join_with "," (t' :: ts) +:+ String "]" r)) as ->.
    { change (join_with "," (t :: t' :: ts)) with (t +:+ "," +:+ join_with "," (t' :: ts)). by rewrite !str_app_assoc. }
    rewrite (split_inside _ _ _ _ Ht).
    assert (scan (mkScanner st [ParseArrayValue]) ","%char = Some (mkScanner BeginValue [ParseArrayValue])) as Hcomma by (by rewrite Hend by auto).
    rewrite (split_separator _ _ _ _ Hcomma); [rewrite IH by done; cbn [prepend app]; by rewrite str_app_nil |].
    unfold separator. cbn. destruct (in_string st) eqn:Hin; [| done]. exfalso.
    destruct st; try done; vm_compute in Hcomma; discriminate Hcomma.
Qed.

(** The first value of an array. *)
Lemma split_first c t :
  is_space c = false -> is_Some (scan (mkScanner BeginValue [ParseArrayValue]) c) ->
  split_top (mkScanner BeginValueOrEmpty [ParseArrayValue]) (String c t) = split_top (mkScanner BeginValue [ParseArrayValue]) (String c t).
Proof.
  intros Hc [sc Hs]. cbn [split_top].
  assert (scan (mkScanner BeginValueOrEmpty [ParseArrayValue]) c = scan (mkScanner BeginValue [ParseArrayValue]) c) as ->; [| done].
  cbn [scan sc_step sc_stack] in *. rewrite Hc. destruct (bool_decide_reflect (c = "]"%char)) as [-> |]; [| done].
  vm_compute in Hs. discriminate Hs.
Qed.

(** The elements of an encoded array are found again. *)
Lemma array_elems_of ts :
  Forall (fun t => value_in ParseArrayValue t /\ trim t = t /\ exists c t', t = String c t' /\ is_space c = false) ts ->
  array_elems (array_of ts) = Some ts.
Proof.
  intros Hts. destruct ts as [| t ts]; [done |]. unfold array_elems, array_of.
  assert (trim ("[" +:+ join_with "," (t :: ts) +:+ "]") = "[" +:+ join_with "," (t :: ts) +:+ "]") as Htrim
    by (by apply (trim_between "["%char _ "]"%char)).
  rewrite Htrim. change (has_prefix "[" ("[" +:+ ?x)) with (has_prefix "" x).
  assert (forall x, has_prefix "" x = true) as -> by (by intros []).
  rewrite (str_app_cons "["%char). rewrite (split_separator _ _ (mkScanner BeginValueOrEmpty [ParseArrayValue])) by reflexivity.
  change ("" +:+ ?x) with x.
  assert (split_top (mkScanner BeginValueOrEmpty [ParseArrayValue]) (join_with "," (t :: ts) +:+ "]")
    = split_top (mkScanner BeginValue [ParseArrayValue]) (join_with "," (t :: ts) +:+ "]")) as ->.
  { apply list.Forall_cons in Hts as [((st & Hin & _) & _ & c & t' & -> & Hc) _].
    assert (join_with "," (String c t' :: ts) = String c (match ts with [] => t' | _ => t' +:+ "," +:+ join_with "," ts end)) as -> by (by destruct ts).
    rewrite str_app_cons. apply split_first; [done |]. cbn [inside] in Hin. by destruct (scan _ c). }
  rewrite (split_elems (t :: ts) ltac:(done)); cycle 1.
  { apply (list.Forall_impl _ _ _ Hts). by intros ? [? _]. }
  change (split_top (mkScanner EndTop []) "") with [""]. rewrite map_cons, map_app. cbn [tail map]. rewrite removelast_last.
  assert (map trim (t :: ts) = t :: ts) as Hmap.
  { clear Htrim. induction Hts as [| x l (_ & Hx & _) _ IH]; [done |]. cbn. by rewrite Hx, IH. }
  injection Hmap as -> ->. apply list.Forall_cons in Hts as [(_ & _ & c & t' & -> & _) _]. by destruct ts.
Qed.

(** ** Encoded values are valid *)

Lemma scan_member st n t r :
  st = BeginString \/ st = BeginStringOrEmpty -> plain_name n -> value_in ParseObjectValue t ->
  exists st', (forall c, (c = ","%char \/ c = "}"%char \/ c = "]"%char) ->
      scan (mkScanner st' [ParseObjectValue]) c = step_end_value [ParseObjectValue] c)
    /\ scan_all (mkScanner st [ParseObjectKey]) (member n t +:+ r) = scan_all (mkScanner st' [ParseObjectValue]) r.
Proof.
  intros Hst [Hn _] (st' & Ht & Hend). exists st'. split; [done |].
  assert (member n t +:+ r = key_text n +:+ String ":" (t +:+ r)) as ->.
  { unfold member, key_text. rewrite !str_app_assoc. reflexivity. }
  assert (inside (mkScanner st [ParseObjectKey]) (key_text n) = Some (mkScanner EndValue [ParseObjectKey])) as Hkey.
  { rewrite <- Hn. destruct Hst as [-> | ->]; reflexivity. }
  rewrite scan_all_app, (inside_scan _ _ _ Hkey). cbn [mbind option_bind scan_all].
  assert (scan (mkScanner EndValue [ParseObjectKey]) ":"%char = Some (mkScanner BeginValue [ParseObjectValue])) as -> by reflexivity.
  by rewrite scan_all_app, (inside_scan _ _ _ Ht).
Qed.

Lemma scan_members ms : ms <> [] ->
  Forall (fun m => plain_name m.1 /\ value_in ParseObjectValue m.2) ms ->
  forall st, st = BeginString \/ st = BeginStringOrEmpty ->
  scan_all (mkScanner st [ParseObjectKey]) (join_with "," (members_of ms) +:+ "}") = Some (mkScanner EndTop []).
Proof.
  intros Hne Hms. induction Hms as [| [n t] ms [Hn Ht] Hms IH]; [done |]. intros st Hst. clear Hne. cbn [fst snd] in Hn, Ht.
  destruct ms as [| m ms].
  - change (join_with "," (members_of [(n, t)])) with (member n t). destruct (scan_member st n t "}" Hst Hn Ht) as (st' & Hend & ->).
    cbn [scan_all]. by rewrite Hend by auto.
  - assert (join_with "," (members_of ((n, t) :: m :: ms)) +:+ "}"
      = member n t +:+ String "," (join_with "," (members_of (m :: ms)) +:+ "}")) as ->.
    { change (join_with "," (members_of ((n, t) :: m :: ms))) with (member n t +:+ "," +:+ join_with "," (members_of (m :: ms))).
      by rewrite !str_app_assoc. }
    destruct (scan_member st n t (String "," (join_with "," (members_of (m :: ms)) +:+ "}")) Hst Hn Ht) as (st' & Hend & ->).
    cbn [scan_all]. rewrite Hend by auto. change (step_end_value [ParseObjectValue] ",") with (Some (mkScanner BeginString [ParseObjectKey])).
    by apply IH; [done | left].
Qed.

Lemma object_valid ms : ms <> [] ->
  Forall (fun m => plain_name m.1 /\ value_in ParseObjectValue m.2) ms -> valid (object_of (members_of ms)) = true.
Proof.
  intros Hne Hms. unfold valid, object_of. rewrite (str_app_cons "{"%char). cbn [scan_all].
  change (scan scan_init "{") with (Some (mkScanner BeginStringOrEmpty [ParseObjectKey])). change ("" +:+ ?x) with x.
  cbv beta iota. by rewrite scan_members by auto.
Qed.

Lemma object_trimmed ms : trim (object_of ms) = object_of ms.
Proof. unfold object_of. by apply (trim_between "{"%char _ "}"%char). Qed.

(** The elements of a valid array are values in it. *)
Lemma array_values ts :
  Forall (fun t => valid t = true) ts ->
  is_Some (scan_all (mkScanner BeginValue [ParseArrayValue]) (join_with "," ts +:+ "]")) -> Forall (value_in ParseArrayValue) ts.
Proof.
  induction ts as [| t ts IH]; [constructor |]. intros [Ht Hts]%list.Forall_cons Hscan.
  assert (exists r, join_with "," (t :: ts) +:+ "]" = t +:+ r /\ (ts <> [] -> r = String "," (join_with "," ts +:+ "]"))) as (r & Hr & Hrest).
  { destruct ts as [| t' ts]; [by exists "]" |]. exists (String "," (join_with "," (t' :: ts) +:+ "]")). split; [| done].
    change (join_with "," (t :: t' :: ts)) with (t +:+ "," +:+ join_with "," (t' :: ts)). by rewrite !str_app_assoc. }
  rewrite Hr, scan_all_app in Hscan.
  assert (value_in ParseArrayValue t) as Hv.
  { apply embedded_value; [done |]. by destruct (scan_all _ t); [eexists | destruct Hscan]. }
  constructor; [done |]. destruct ts as [| t' ts]; [constructor |]. apply IH; [done |]. rewrite (Hrest ltac:(done)) in Hscan.
  destruct Hv as (st & Hin & Hend). rewrite (inside_scan _ _ _ Hin) in Hscan. cbn [mbind option_bind scan_all] in Hscan.
  rewrite Hend in Hscan by auto. exact Hscan.
Qed.

Lemma valid_array_values ts :
  Forall (fun t => valid t = true /\ exists c t', t = String c t' /\ is_space c = false) ts -> valid (array_of ts) = true ->
  Forall (value_in ParseArrayValue) ts.
Proof.
  intros Hts Hv. destruct ts as [| t ts]; [constructor |].
  apply array_values; [apply (list.Forall_impl _ _ _ Hts); by intros ? [? _] |].
  unfold valid, array_of in Hv. rewrite (str_app_cons "["%char) in Hv. cbn [scan_all] in Hv.
  change (scan scan_init "[") with (Some (mkScanner BeginValueOrEmpty [ParseArrayValue])) in Hv. change ("" +:+ ?x) with x in Hv.
  cbv beta iota in Hv. apply list.Forall_cons in Hts as [(Ht & c & t' & -> & Hc) _].
  assert (join_with "," (String c t' :: ts) = String c (match ts with [] => t' | _ => t' +:+ "," +:+ join_with "," ts end)) as Hj by (by destruct ts).
  rewrite Hj in *. rewrite str_app_cons in *. cbn [scan_all] in *.
  assert (scan (mkScanner BeginValue [ParseArrayValue]) c = scan (mkScanner BeginValueOrEmpty [ParseArrayValue]) c) as ->.
  { cbn [scan sc_step sc_stack]. rewrite Hc. destruct (bool_decide_reflect (c = "]"%char)) as [-> |]; [| done].
    unfold valid in Ht. cbn [scan_all] in Ht. change (scan scan_init "]") with (@None scanner) in Ht. done. }
  destruct (scan _ c) as [sc |]; [| done]. by destruct (scan_all sc _).
Qed.
