(* ===== verification/Order.v ===== *)
(** * Order: sorting ([sort.Slice], [sort.Strings])

    The sources sort by keys that are distinct, or whose ties are equal; the
    sorted list is then the only one, however the library sorts.  [sort_by] is
    insertion sort on a boolean order. *)

From S2P Require Import Prelude.
From stdpp Require Export sorting.

Section Sort.
Context {A : Type} (lt : A -> A -> bool).

Fixpoint insert_by (a : A) (l : list A) : list A :=
  match l with
  | [] => [a]
  | x :: l' => if lt x a then x :: insert_by a l' else a :: l
  end.

Definition sort_by (l : list A) : list A := foldr insert_by [] l.

(** [x] may stand before [y]. *)
Definition not_after (x y : A) : Prop := lt y x = false.
End Sort.

(** The laws of a boolean order that sorting relies on. *)
Class SortOrder {A} (lt : A -> A -> bool) : Prop := {
  lt_asym x y : lt x y = true -> lt y x = false;
  not_after_trans x y z : not_after lt x y -> not_after lt y z -> not_after lt x z
}.

Section SortLemmas.
Context {A : Type} (lt : A -> A -> bool).

Lemma insert_by_perm a l : insert_by lt a l ≡ₚ a :: l.
Proof. induction l as [| x l IH]; [done |]. simpl. case_match; [| done]. rewrite IH. constructor. Qed.

Lemma sort_by_perm l : sort_by lt l ≡ₚ l.
Proof. induction l as [| x l IH]; [done |]. simpl. by rewrite insert_by_perm, IH. Qed.

Lemma elem_of_sort_by x l : x ∈ sort_by lt l <-> x ∈ l.
Proof. by rewrite sort_by_perm. Qed.

Context `{!SortOrder lt}.

Lemma insert_by_sorted a l : StronglySorted (not_after lt) l -> StronglySorted (not_after lt) (insert_by lt a l).
Proof.
  induction 1 as [| x l Hl IH Hx]; simpl; [repeat constructor |].
  destruct (lt x a) eqn:Ha; constructor; [done | | by constructor |].
  - rewrite insert_by_perm. constructor; [by apply lt_asym | done].
  - constructor; [done |]. eapply Forall_impl; [exact Hx |]. intros y. by apply not_after_trans.
Qed.

Lemma sort_by_sorted l : StronglySorted (not_after lt) (sort_by lt l).
Proof. induction l as [| x l IH]; [constructor |]. by apply insert_by_sorted. Qed.

(** Sorting does not depend on the order of the input, when only equal
    elements tie. *)
Lemma sort_by_unique l1 l2 :
  l1 ≡ₚ l2 -> (forall x y, x ∈ l1 -> y ∈ l1 -> not_after lt x y -> not_after lt y x -> x = y) ->
  sort_by lt l1 = sort_by lt l2.
Proof.
  intros Hp Ha. apply (StronglySorted_unique_strong (not_after lt)).
  - intros x y. rewrite !elem_of_sort_by, <- Hp. apply Ha.
  - apply sort_by_sorted.
  - apply sort_by_sorted.
  - by rewrite !sort_by_perm.
Qed.
End SortLemmas.

(** ** The order of strings *)

Lemma str_lt_irrefl a : str_lt a a = false.
Proof. induction a as [| c a IH]; [done |]. simpl. by rewrite bool_decide_eq_true_2. Qed.

Lemma N_of_ascii_inj c d : N_of_ascii c = N_of_ascii d -> c = d.
Proof. intros H. by rewrite <- (ascii_N_embedding c), H, ascii_N_embedding. Qed.

Lemma str_lt_total a b : str_lt a b = false -> str_lt b a = false -> a = b.
Proof.
  revert b. induction a as [| c a IH]; intros [| d b]; [done.. |]. simpl.
  destruct (decide (c = d)) as [<- | Hne]; [rewrite bool_decide_eq_true_2 by done; intros; f_equal; auto |].
  rewrite !bool_decide_eq_false_2 by congruence. intros. guards.
  destruct Hne. apply N_of_ascii_inj. lia.
Qed.

#[export] Instance str_lt_order : SortOrder str_lt.
Proof.
  split.
  - intros a. induction a as [| c a IH]; intros [| d b]; [done.. |]. simpl.
    destruct (decide (c = d)) as [<- | Hne]; [rewrite bool_decide_eq_true_2 by done; apply IH |].
    rewrite !bool_decide_eq_false_2 by congruence. intros. guards. apply N.ltb_ge. lia.
  - unfold not_after. intros a. induction a as [| c a IH]; intros [| d b] [| e f]; [done.. |]. simpl.
    repeat case_bool_decide; subst; try done; try apply IH; intros; guards; try (apply N.ltb_ge; lia).
    by assert (N_of_ascii c = N_of_ascii d) as ->%N_of_ascii_inj by lia.
Qed.

(** Sorting by a key. *)
#[export] Instance key_order {A B} (lt : B -> B -> bool) (key : A -> B) :
  SortOrder lt -> SortOrder (fun x y => lt (key x) (key y)).
Proof. intros H. split; intros *; [apply lt_asym | apply (not_after_trans (lt := lt))]. Qed.

Lemma insert_by_map {A B} (lt : B -> B -> bool) (key : A -> B) x l :
  map key (insert_by (fun x y => lt (key x) (key y)) x l) = insert_by lt (key x) (map key l).
Proof. induction l as [| y l IH]; [done |]. cbn. case_match; [| done]. cbn. by rewrite IH. Qed.

Lemma sort_by_map {A B} (lt : B -> B -> bool) (key : A -> B) l :
  map key (sort_by (fun x y => lt (key x) (key y)) l) = sort_by lt (map key l).
Proof. unfold sort_by. induction l as [| x l IH]; [done |]. cbn [foldr map]. by rewrite insert_by_map, IH. Qed.

(** Sorting by a key that has no duplicates gives the only list. *)
Lemma sort_by_key_unique {A} (key : A -> string) l1 l2 :
  l1 ≡ₚ l2 -> NoDup (map key l1) ->
  sort_by (fun x y => str_lt (key x) (key y)) l1 = sort_by (fun x y => str_lt (key x) (key y)) l2.
Proof.
  intros Hp Hd. apply sort_by_unique; [apply _ | done |]. unfold not_after. intros x y Hx Hy H1 H2.
  assert (key x = key y) as Hk by (by apply str_lt_total).
  apply list_elem_of_lookup in Hx as [i Hi]. apply list_elem_of_lookup in Hy as [j Hj].
  assert (i = j) as ->; [| by simplify_eq].
  apply (NoDup_lookup (map key l1) i j (key x)); [done | | rewrite Hk]; by rewrite list_lookup_fmap, ?Hi, ?Hj.
Qed.

(** Without ties, sorting is strict. *)
Lemma sort_by_strict {A B} (lt : B -> B -> bool) (key : A -> B) l :
  SortOrder lt -> (forall x y, lt x y = false -> lt y x = false -> x = y) -> NoDup (map key l) ->
  StronglySorted (fun a b => lt (key a) (key b) = true) (sort_by (fun a b => lt (key a) (key b)) l).
Proof.
  intros Ho Ht Hd. pose proof (sort_by_sorted (fun a b => lt (key a) (key b)) l) as Hs.
  rewrite <- (sort_by_perm (fun a b => lt (key a) (key b)) l) in Hd. revert Hd.
  induction Hs as [| x l' Hs IH Hx]; intros Hd; constructor.
  - apply IH. by apply list.NoDup_cons in Hd as [_ ?].
  - cbn in Hd. apply list.NoDup_cons in Hd as [Hn _]. rewrite list.Forall_forall in *. intros y Hy.
    destruct (lt (key x) (key y)) eqn:Hlt; [done |]. destruct Hn. apply list_elem_of_fmap. exists y.
    split; [apply Ht; [done | by apply Hx] | done].
Qed.

(** ** Comparing by several keys *)

(** [if x.key != y.key { return x.key < y.key }] before other comparisons. *)
Definition lex {A B} `{EqDecision B} (key : A -> B) (lt : B -> B -> bool) (rest : A -> A -> bool) (x y : A) : bool :=
  if bool_decide (key x = key y) then rest x y else lt (key x) (key y).

(** Keys that tie are equal. *)
Class TotalOrder {A} (lt : A -> A -> bool) : Prop := {
  total_sort : SortOrder lt;
  lt_total x y : lt x y = false -> lt y x = false -> x = y
}.

#[export] Existing Instance total_sort.

#[export] Instance str_lt_total_order : TotalOrder str_lt.
Proof. split; [apply _ | apply str_lt_total]. Qed.

#[export] Instance Z_ltb_total_order : TotalOrder Z.ltb.
Proof. split; [split | ]; unfold not_after; intros *; rewrite ?Z.ltb_ge, ?Z.ltb_lt; lia. Qed.

#[export] Instance lex_order {A B} `{EqDecision B} (key : A -> B) lt rest :
  TotalOrder lt -> SortOrder rest -> SortOrder (lex key lt rest).
Proof.
  intros Hl Hr. unfold lex. split.
  - intros x y. repeat case_bool_decide; try congruence; apply lt_asym.
  - unfold not_after. intros x y z. repeat case_bool_decide; try congruence.
    + by apply (not_after_trans (lt := rest)).
    + intros Hxy Hyz. assert (key z = key y); [| congruence]. apply lt_total; [done |]. congruence.
    + by apply (not_after_trans (lt := lt)).
Qed.

Lemma lex_ties {A B} `{EqDecision B} (key : A -> B) lt rest x y :
  TotalOrder lt -> lex key lt rest x y = false -> lex key lt rest y x = false ->
  key x = key y /\ rest x y = false /\ rest y x = false.
Proof. intros Ht. unfold lex. repeat case_bool_decide; try congruence; intros; [done |]. by destruct (lt_total (key x) (key y)). Qed.

(** [false] before [true]. *)
#[export] Instance flag_order {A} (flag : A -> bool) : SortOrder (fun a b => negb (flag a) && flag b).
Proof. split; unfold not_after; intros *; repeat destruct (flag _); done. Qed.

Lemma lt_not_after {A} (lt : A -> A -> bool) x y z : SortOrder lt -> lt x y = true -> not_after lt y z -> lt x z = true.
Proof.
  intros Ho Hxy Hyz. destruct (lt x z) eqn:Hxz; [done |].
  by rewrite (not_after_trans (lt := lt) y z x Hyz Hxz) in Hxy.
Qed.

(** A sorted list whose neighbours differ is strictly sorted. *)
Lemma sorted_strictly {A} (lt : A -> A -> bool) l :
  SortOrder lt -> StronglySorted (not_after lt) l ->
  (forall n x y, l !! n = Some x -> l !! S n = Some y -> lt x y = true) -> StronglySorted (fun x y => lt x y = true) l.
Proof.
  intros Ho Hs. induction Hs as [| x l Hs IH Hx]; intros Hadj; [constructor |].
  constructor; [apply IH; intros n; apply (Hadj (S n)) |].
  destruct l as [| y l]; [constructor |]. pose proof (Hadj 0%nat x y eq_refl eq_refl) as Hxy. constructor; [done |].
  apply StronglySorted_inv in Hs as [_ Hy]. eapply list.Forall_impl; [exact Hy |]. intros z. by apply lt_not_after.
Qed.

Lemma sorted_neighbours {A} (R : relation A) l n x y :
  StronglySorted R l -> l !! n = Some x -> l !! S n = Some y -> R x y.
Proof.
  intros Hs. revert n. induction Hs as [| z l Hs IH Hz]; intros n Hx Hy; [done |].
  destruct n as [| n]; [| by apply (IH n)]. injection Hx as <-. rewrite list.Forall_forall in Hz.
  by apply Hz, (list_elem_of_lookup_2 _ 0%nat).
Qed.
