(* ===== verification/Float64.v ===== *)
(** * Float64: Go's [float64] and [strconv.ParseFloat]

    The binary64 format of the Standard Library's executable specification of
    IEEE 754 arithmetic: rounding to nearest, ties to even, one rounding per
    operation.  (Go may fuse a product and a sum into one rounding on some
    targets; amd64, the target of the repository's images, does not.) *)

From S2P Require Import Prelude Json.
From Stdlib Require Export SpecFloat.

Definition float64 : Type := spec_float.

Definition fadd (x y : float64) : float64 := SFadd 53 1024 x y.
Definition fsub (x y : float64) : float64 := SFsub 53 1024 x y.
Definition fmul (x y : float64) : float64 := SFmul 53 1024 x y.
Definition fdiv (x y : float64) : float64 := SFdiv 53 1024 x y.
Definition flt (x y : float64) : bool := SFltb x y.
Definition fle (x y : float64) : bool := SFleb x y.
Definition feq (x y : float64) : bool := SFeqb x y.
Definition is_nan (x : float64) : bool := match x with S754_nan => true | _ => false end.
Definition is_inf (x : float64) : bool := match x with S754_infinity _ => true | _ => false end.

(** [float64(n)] of an integer. *)
Definition float_of_int (n : Z) : float64 := binary_normalize 53 1024 n 0 false.

(** [int64(x)] when the truncated value is in range; Go leaves the other
    conversions to the implementation. *)
Definition trunc (x : float64) : option Z :=
  let in_range z := if ((- 2 ^ 63 <=? z) && (z <? 2 ^ 63))%Z then Some z else None in
  match x with
  | S754_zero _ => Some 0%Z
  | S754_finite s m e =>
      if (64 <? e)%Z then None
      else let a := Z.shiftl (Zpos m) e in in_range (if s then - a else a)%Z
  | _ => None
  end.

(** [math.Round]: to the nearest integer, halves away from zero. *)
Definition math_Round (x : float64) : float64 :=
  match x with
  | S754_finite s m e =>
      if (0 <=? e)%Z then x
      else
        let q := Z.shiftr (Z.shiftr (Zpos m) (- e - 1) + 1) 1 in
        binary_normalize 53 1024 (if s then - q else q)%Z 0 s
  | _ => x
  end.

(** [math.Ceil]. *)
Definition math_Ceil (x : float64) : float64 :=
  match x with
  | S754_finite s m e =>
      if (0 <=? e)%Z then x
      else binary_normalize 53 1024 (- Z.shiftr (if s then Zpos m else Zneg m) (- e))%Z 0 s
  | _ => x
  end.

(** The float nearest to [digits * 10^exp10], infinite out of range. *)
Definition float_of_decimal (neg : bool) (digits : Z) (exp10 : Z) : float64 :=
  match digits with
  | Zpos d =>
      if (0 <=? exp10)%Z then
        let x := binary_normalize 53 1024 (Zpos d * 10 ^ exp10)%Z 0 false in if neg then SFopp x else x
      else
        let '(m, e, l) := SFdiv_core_binary 53 1024 (Zpos d) 0 (10 ^ (- exp10)) 0 in
        binary_round_aux 53 1024 neg m e l
  | _ => S754_zero neg
  end.

(** The digits at the head, as a number and how many there are. *)
Fixpoint read_digits (acc : Z) (count : Z) (s : string) : Z * Z * string :=
  match s with
  | String c s' =>
      if is_digit c then read_digits (acc * 10 + Z.of_N (N_of_ascii c) - 48) (count + 1) s' else (acc, count, s)
  | EmptyString => (acc, count, s)
  end.

(** The exponent of a number that has one. *)
Definition take_exponent (s : string) : Z :=
  match s with
  | String "e" s' | String "E" s' =>
      match s' with
      | String "-" s'' => - (read_digits 0 0 s'').1.1
      | String "+" s'' => (read_digits 0 0 s'').1.1
      | _ => (read_digits 0 0 s').1.1
      end
  | _ => 0
  end%Z.

(** [strconv.ParseFloat(s, 64)] of a JSON number; none out of range.  A number
    of at least [10^310] is out of range, one below [10^-400] rounds to zero. *)
Definition ParseFloat (s : string) : option float64 :=
  let '(neg, s) := match s with String "-" s' => (true, s') | _ => (false, s) end in
  let '(whole, count, s) := read_digits 0 0 s in
  let '(digits, fraction, s) :=
    match s with String "." s' => read_digits whole 0 s' | _ => (whole, 0%Z, s) end in
  let exp10 := (take_exponent s - fraction)%Z in
  let size := Z.of_nat (String.length (pretty (Z.to_N digits))) in
  if (digits =? 0)%Z || (exp10 + size <? -400)%Z then Some (S754_zero neg)
  else if (310 <? exp10 + size)%Z then None
  else let x := float_of_decimal neg digits exp10 in if is_inf x then None else Some x.

(** ** The order of floats *)

(** Floats that are numbers, in the order of their signs, exponents and
    mantissas. *)
Definition float_key (x : float64) : Z * Z * Z :=
  match x with
  | S754_infinity s => (if s then -2 else 2, 0, 0)
  | S754_finite s m e => if s then (-1, - e, - Zpos m) else (1, e, Zpos m)
  | _ => (0, 0, 0)
  end%Z.

Definition key_le (a b : Z * Z * Z) : Prop :=
  let '(a1, a2, a3) := a in
  let '(b1, b2, b3) := b in
  (a1 < b1 \/ a1 = b1 /\ (a2 < b2 \/ a2 = b2 /\ a3 <= b3))%Z.

Lemma fle_spec x y : fle x y = true <-> is_nan x = false /\ is_nan y = false /\ key_le (float_key x) (float_key y).
Proof.
  unfold fle, SFleb, key_le, float_key.
  destruct x as [[] | [] | | [] m e], y as [[] | [] | | [] m' e']; cbn;
    try (split; [done | by intros (? & ? & ?)]); try (split; [| done]; intros _; split_and!; lia);
    try (split; [done |]; intros (_ & _ & ?); lia).
  all: change (Pos.compare_cont Eq m m') with (Pos.compare m m').
  all: destruct (Z.compare_spec e e'), (Pos.compare_spec m m'); cbn; split; try done; intros;
    destruct_and?; split_and?; try done; lia.
Qed.

Lemma flt_spec x y : flt x y = true <-> is_nan x = false /\ is_nan y = false /\ ~ key_le (float_key y) (float_key x).
Proof.
  unfold flt, SFltb, key_le, float_key.
  destruct x as [[] | [] | | [] m e], y as [[] | [] | | [] m' e']; cbn;
    try (split; [done | by intros (? & ? & ?)]); try (split; [| done]; intros _; split_and!; lia);
    try (split; [done |]; intros (_ & _ & ?); lia).
  all: change (Pos.compare_cont Eq m m') with (Pos.compare m m').
  all: destruct (Z.compare_spec e e'), (Pos.compare_spec m m'); cbn; split; try done; intros;
    destruct_and?; split_and?; try done; lia.
Qed.

Lemma key_le_trans a b c : key_le a b -> key_le b c -> key_le a c.
Proof. destruct a as [[??]?], b as [[??]?], c as [[??]?]. unfold key_le. lia. Qed.

Lemma key_le_total a b : key_le a b \/ key_le b a.
Proof. destruct a as [[??]?], b as [[??]?]. unfold key_le. lia. Qed.

Lemma fle_trans x y z : fle x y = true -> fle y z = true -> fle x z = true.
Proof. rewrite !fle_spec. intros (? & ? & ?) (? & ? & ?). split_and!; [done.. |]. by eapply key_le_trans. Qed.

Lemma fle_refl x : is_nan x = false -> fle x x = true.
Proof. rewrite fle_spec. intros. split_and!; [done.. |]. destruct (float_key x) as [[??]?]. unfold key_le. lia. Qed.

(** Of two numbers one is at most the other. *)
Lemma fle_flt x y : is_nan x = false -> is_nan y = false -> flt x y = false -> fle y x = true.
Proof.
  intros Hx Hy Hn. apply fle_spec. split_and!; [done.. |].
  destruct (key_le_total (float_key y) (float_key x)) as [| Hl]; [done |].
  destruct (decide (key_le (float_key y) (float_key x))) as [| Hd]; [done |].
  by rewrite (proj2 (flt_spec x y)) in Hn.
Qed.

Lemma flt_fle x y : flt x y = true -> fle x y = true.
Proof.
  rewrite flt_spec, fle_spec. intros (? & ? & Hn). split_and!; [done.. |].
  by destruct (key_le_total (float_key x) (float_key y)).
Qed.

(** ** Results that are numbers *)

Lemma iter_pos_keeps {A} (P : A -> Prop) (f : A -> A) n x : (forall y, P y -> P (f y)) -> P x -> P (iter_pos f n x).
Proof. intros Hf. revert x. induction n; simpl; intros; auto. Qed.

Lemma shr_nonneg mrs e n : (0 <= shr_m mrs)%Z -> (0 <= shr_m (shr mrs e n).1)%Z.
Proof.
  intros Hm. destruct n; try done. simpl. apply (iter_pos_keeps (fun r => 0 <= shr_m r)%Z); [| done].
  intros [[| [] |] r s]; simpl; intros; try done; lia.
Qed.

Lemma shr_fexp_nonneg m e l : (0 <= m)%Z -> (0 <= shr_m (shr_fexp 53 1024 m e l).1)%Z.
Proof. intros Hm. apply shr_nonneg. by destruct l as [| []]. Qed.

Lemma round_even_nonneg m l : (0 <= m)%Z -> (0 <= round_nearest_even m l)%Z.
Proof. intros Hm. destruct l as [| []]; simpl; try case_match; lia. Qed.

(** Rounding never makes a NaN of a magnitude. *)
Lemma round_number s m e l : (0 <= m)%Z -> is_nan (binary_round_aux 53 1024 s m e l) = false.
Proof.
  intros Hm. unfold binary_round_aux.
  destruct (shr_fexp 53 1024 m e l) as [r1 e1] eqn:H1.
  destruct (shr_fexp 53 1024 (round_nearest_even _ _) e1 loc_Exact) as [r2 e2] eqn:H2.
  assert (0 <= shr_m r2)%Z as H.
  { change r2 with (r2, e2).1. rewrite <- H2. apply shr_fexp_nonneg, round_even_nonneg.
    change r1 with (r1, e1).1. rewrite <- H1. by apply shr_fexp_nonneg. }
  destruct (shr_m r2); try done. by case_match.
Qed.

Lemma float_of_int_number n : is_nan (float_of_int n) = false.
Proof.
  destruct n as [| p | p]; [done | |]; unfold float_of_int, binary_normalize, binary_round;
    destruct (shl_align _ _ _); by apply round_number.
Qed.
