(* ===== verification/Manifest.v ===== *)
(** * Manifest: tools, their providers and the manifest ([tool_provider.go],
    [bridge.go], [mcpadapter/adapter.go])

    The implementation of a tool is an opaque value of type [C].  A manifest is
    a map; Go iterates over maps in an unspecified order, so every loop over one
    takes the order as a parameter ([iterate]). *)

From S2P Require Import Prelude Errors Json Float64 Order.

Definition maxToolNameBytes : N := 128.
Definition maxToolDescriptionBytes : N := 4096.
Definition maxToolSchemaBytes : N := 65536.

Record ToolAnnotations := mkAnnotations {
  an_ReadOnlyHint : bool;
  an_DestructiveHint : bool;
  an_IdempotentHint : bool;
  an_OpenWorldHint : bool
}.

Definition no_annotations : ToolAnnotations := mkAnnotations false false false false.

(** [guestToolSpec]. *)
Record guestToolSpec := mkGuestToolSpec {
  gt_Name : string;
  gt_PythonPath : string;
  gt_AllowEarlyRead : bool
}.

(** ** Names *)

Definition is_letter (c : ascii) : bool := byte_in 65 90 c || byte_in 97 122 c.

(** [^[A-Za-z0-9_][A-Za-z0-9_.:/-]*$]. *)
Definition canonicalToolName (name : string) : bool :=
  match name with
  | EmptyString => false
  | String c name' =>
      let first c := is_letter c || is_digit c || bool_decide (c = "_"%char) in
      first c
      && forallb (fun c => first c || bool_decide (c ∈ String.list_ascii_of_string ".:/-")) (String.list_ascii_of_string name')
  end.

Definition validateToolName (name : string) : res error unit :=
  if bool_decide (name = "") || (maxToolNameBytes <? slen name)%N || negb (canonicalToolName name)
  then Err (EMsg ("invalid canonical tool name: " +:+ name)) else Ok tt.

(** [^[A-Za-z_][A-Za-z0-9_]*$]. *)
Definition pythonIdentifier (s : string) : bool :=
  match s with
  | EmptyString => false
  | String c s' =>
      (is_letter c || bool_decide (c = "_"%char))
      && forallb (fun c => is_letter c || is_digit c || bool_decide (c = "_"%char)) (String.list_ascii_of_string s')
  end.

Definition pythonKeywords : list string :=
  ["False"; "None"; "True"; "and"; "as"; "assert"; "async"; "await"; "break"; "class"; "continue"; "def"; "del";
   "elif"; "else"; "except"; "finally"; "for"; "from"; "global"; "if"; "import"; "in"; "is"; "lambda"; "nonlocal";
   "not"; "or"; "pass"; "raise"; "return"; "try"; "while"; "with"; "yield"].

(** The first part of a path: the names the Guest keeps for itself. *)
Definition reserved_part (part : string) : bool :=
  bool_decide (part ∈ ["inputs"; "__name__"; "__builtins__"]) || has_prefix "_pysolate" part.

Definition validPythonPath (name : string) : bool :=
  let parts := split_char "." name in
  forallb (fun part => pythonIdentifier part && negb (bool_decide (part ∈ pythonKeywords))) parts
  && negb (existsb reserved_part (take 1 parts))
  && (0 <? length parts)%nat.

(** ** Input schemas *)

(** The number literals of a valid JSON text, outside its strings. *)
Inductive text_state := TOutside | TString | TEscaped.

Fixpoint number_literals (st : text_state) (current : string) (s : string) : list string :=
  let flush := if bool_decide (current = "") then [] else [current] in
  match s with
  | EmptyString => flush
  | String c s' =>
      match st with
      | TEscaped => number_literals TString "" s'
      | TString => number_literals (if (N_of_ascii c =? 34)%N then TOutside
                                    else if bool_decide (c = "\"%char) then TEscaped else TString) "" s'
      | TOutside =>
          if (N_of_ascii c =? 34)%N then flush ++ number_literals TString "" s'
          else if is_digit c || bool_decide (c = "-"%char)
                  || negb (bool_decide (current = "")) && bool_decide (c ∈ String.list_ascii_of_string "+.eE")
          then number_literals TOutside (current +:+ String c "") s'
          else flush ++ number_literals TOutside "" s'
      end
  end.

(** [json.Unmarshal] into a [map[string]any] that is not nil afterwards: every
    number must be in the range of [float64]. *)
Definition decodes_to_object (schema : string) : bool :=
  valid schema && has_prefix "{" (trim schema)
  && forallb (fun n => bool_decide (is_Some (ParseFloat n))) (number_literals TOutside "" schema).

(** [append(json.RawMessage(nil), raw...)]. *)
Definition clone (raw : option string) : option string :=
  match raw with Some "" => None | _ => raw end.

(** ** Manifests *)

Section Manifest.
Context {C : Type}.

Record ToolSpec := mkToolSpec {
  ts_Call : option C;
  ts_AllowEarlyRead : bool;
  ts_PythonPath : string;
  ts_Description : string;
  ts_InputSchema : option string;
  ts_Annotations : ToolAnnotations
}.

Record Capability := mkCapability { cap_Name : string; cap_Spec : ToolSpec }.

#[local] Notation Manifest := (gmap string ToolSpec).

Definition with_path (path : string) (s : ToolSpec) : ToolSpec :=
  mkToolSpec (ts_Call s) (ts_AllowEarlyRead s) path (ts_Description s) (ts_InputSchema s) (ts_Annotations s).
Definition with_schema (schema : option string) (s : ToolSpec) : ToolSpec :=
  mkToolSpec (ts_Call s) (ts_AllowEarlyRead s) (ts_PythonPath s) (ts_Description s) schema (ts_Annotations s).
Definition with_call (call : option C) (s : ToolSpec) : ToolSpec :=
  mkToolSpec call (ts_AllowEarlyRead s) (ts_PythonPath s) (ts_Description s) (ts_InputSchema s) (ts_Annotations s).

Definition guest_spec (name : string) (s : ToolSpec) : guestToolSpec :=
  mkGuestToolSpec name (ts_PythonPath s) (ts_AllowEarlyRead s).

(** The path under which a tool is presented. *)
Definition python_path (name : string) (s : ToolSpec) : string :=
  if bool_decide (ts_PythonPath s = "") then name else ts_PythonPath s.

Definition normalize_path (name : string) (s : ToolSpec) : res error ToolSpec :=
  if bool_decide (ts_PythonPath s = "") then
    if validPythonPath name then Ok (with_path name s)
    else Err (EMsg ("tool " +:+ name +:+ " requires an explicit Python path"))
  else if validPythonPath (ts_PythonPath s) then Ok s
  else Err (EMsg ("invalid Python tool path for " +:+ name +:+ ": " +:+ ts_PythonPath s)).

Definition normalize_schema (name : string) (s : ToolSpec) : res error ToolSpec :=
  match ts_InputSchema s with
  | None => Ok s
  | Some schema =>
      if (maxToolSchemaBytes <? slen schema)%N
      then Err (EMsg ("tool input schema exceeds " +:+ format_uint maxToolSchemaBytes +:+ " bytes: " +:+ name))
      else if negb (decodes_to_object schema)
      then Err (EMsg ("tool input schema must be a JSON object: " +:+ name))
      else Ok (with_schema (clone (Some schema)) s)
  end.

(** The body of the loop of [normalizeManifest]. *)
Definition normalize_tool (name : string) (source : ToolSpec) : res error ToolSpec :=
  let* _ := validateToolName name in
  match ts_Call source with
  | None => Err (EMsg ("tool has no Host implementation: " +:+ name))
  | Some _ =>
      if (maxToolDescriptionBytes <? slen (ts_Description source))%N
      then Err (EMsg ("tool description exceeds " +:+ format_uint maxToolDescriptionBytes +:+ " bytes: " +:+ name))
      else
        let* spec := normalize_path name source in
        normalize_schema name spec
  end.

Fixpoint normalize_tools (l : list (string * ToolSpec)) : res error (list (string * ToolSpec)) :=
  match l with
  | [] => Ok []
  | (name, source) :: l' =>
      let* spec := normalize_tool name source in
      let* rest := normalize_tools l' in
      Ok ((name, spec) :: rest)
  end.

(** The check over the sorted paths: each against the one before it. *)
Fixpoint colliding_path (previous : string) (paths : list string) : option string :=
  match paths with
  | [] => None
  | path :: paths' =>
      if bool_decide (path = previous) || has_prefix (previous +:+ ".") path then Some path
      else colliding_path path paths'
  end.

Definition path_collision (paths : list string) : option string :=
  match sort_by str_lt paths with [] => None | first :: rest => colliding_path first rest end.

Definition by_name (a b : guestToolSpec) : bool := str_lt (gt_Name a) (gt_Name b).

Variable iterate : Manifest -> list (string * ToolSpec).

Definition normalizeManifest (manifest : Manifest) : res error (Manifest * list guestToolSpec) :=
  let* tools := normalize_tools (iterate manifest) in
  match path_collision (map (fun t => ts_PythonPath t.2) tools) with
  | Some path => Err (EMsg ("Python tool path collision: " +:+ path))
  | None => Ok (list_to_map tools, sort_by by_name (map (fun t => guest_spec t.1 t.2) tools))
  end.

(** ** Capabilities *)

(** The loop of [ManifestFromCapabilities]. *)
Fixpoint collect (capabilities : list Capability) (manifest : Manifest) : res error Manifest :=
  match capabilities with
  | [] => Ok manifest
  | c :: capabilities' =>
      if bool_decide (is_Some (manifest !! cap_Name c)) then Err (EMsg ("duplicate capability: " +:+ cap_Name c))
      else collect capabilities' (<[cap_Name c := cap_Spec c]> manifest)
  end.

Definition ManifestFromCapabilities (capabilities : list Capability) : res error Manifest :=
  let* manifest := collect capabilities ∅ in
  let* normalized := normalizeManifest manifest in
  Ok normalized.1.

(** [ToolProvider]: nil, or what its [Tools] answers. *)
Definition ToolProvider : Type := option (res error (list Capability)).

(** The definitions of one provider; [seen] are the names so far. *)
Fixpoint take_definitions (definitions : list Capability) (seen : gset string) (discovered : list Capability)
  : res error (gset string * list Capability) :=
  match definitions with
  | [] => Ok (seen, discovered)
  | d :: definitions' =>
      if bool_decide (cap_Name d ∈ seen) then Err (EMsg ("duplicate tool from providers: " +:+ cap_Name d))
      else take_definitions definitions' ({[cap_Name d]} ∪ seen) (discovered ++ [d])
  end.

Fixpoint discover (index : nat) (providers : list ToolProvider) (seen : gset string) (discovered : list Capability)
  : res error (list Capability) :=
  match providers with
  | [] => Ok discovered
  | None :: _ => Err (EMsg ("tool provider " +:+ format_uint (N.of_nat index) +:+ " is nil"))
  | Some (Err e) :: _ => Err (EWrap ("discover tool provider " +:+ format_uint (N.of_nat index) +:+ ": ") e "")
  | Some (Ok definitions) :: providers' =>
      let* (seen, discovered) := take_definitions definitions seen discovered in
      discover (S index) providers' seen discovered
  end.

Definition DiscoverCapabilities (providers : list ToolProvider) : res error (list Capability) :=
  let* discovered := discover 0 providers ∅ [] in
  let* manifest := ManifestFromCapabilities discovered in
  let names := sort_by str_lt (map fst (iterate manifest)) in
  Ok (omap (fun name => mkCapability name <$> manifest !! name) names).

Definition ManifestFromProviders (providers : list ToolProvider) : res error Manifest :=
  let* capabilities := DiscoverCapabilities providers in
  ManifestFromCapabilities capabilities.
End Manifest.
Arguments ToolSpec : clear implicits.
Arguments Capability : clear implicits.
Arguments ToolProvider : clear implicits.
Notation Manifest C := (gmap string (ToolSpec C)).

(** ** The MCP adapter ([mcpadapter/adapter.go]) *)

Definition maxDiscoveredTools : nat := 1024.

Record McpTool := mkMcpTool {
  mt_Name : string;
  mt_Description : string;
  mt_InputSchema : option string;
  mt_Annotations : ToolAnnotations
}.

Record ToolPage := mkToolPage { tp_Tools : list McpTool; tp_NextCursor : string }.

(** [strings.TrimSuffix(s, ".")]. *)
Fixpoint trim_dot (s : string) : string :=
  match s with
  | EmptyString | String "." EmptyString => ""
  | String c s' => String c (trim_dot s')
  end.

Section Mcp.
Context {C : Type}.

(** The client: the answer of its [n]-th [ListTools], and [CallTool] under a
    name of the server. *)
Variable ListTools : nat -> string -> res error ToolPage.
Variable CallTool : string -> C.

(** [Provider]. *)
Record Provider := mkProvider {
  pv_Client : bool;
  pv_CanonicalNamespace : string;
  pv_PythonNamespace : string;
  pv_AllowEarlyRead : option (McpTool -> bool)
}.

Definition mcp_definition (canonicalNamespace pythonNamespace : string) (allow : option (McpTool -> bool))
    (tool : McpTool) : Capability C :=
  mkCapability (canonicalNamespace +:+ "." +:+ mt_Name tool)
    (mkToolSpec (Some (CallTool (mt_Name tool))) (match allow with Some f => f tool | None => false end)
       (pythonNamespace +:+ "." +:+ mt_Name tool) (mt_Description tool) (clone (mt_InputSchema tool))
       (mt_Annotations tool)).

(** The tools of one page. *)
Fixpoint take_page (define : McpTool -> Capability C) (tools : list McpTool) (seenNames : gset string)
    (definitions : list (Capability C)) : res error (gset string * list (Capability C)) :=
  match tools with
  | [] => Ok (seenNames, definitions)
  | tool :: tools' =>
      if bool_decide (mt_Name tool = "") || bool_decide (mt_Name tool ∈ seenNames)
      then Err (EMsg ("invalid or duplicate MCP tool name " +:+ quote (mt_Name tool)))
      else if (maxDiscoveredTools <=? length definitions)%nat
      then Err (EMsg ("MCP tool discovery exceeds " +:+ format_uint (N.of_nat maxDiscoveredTools) +:+ " tools"))
      else take_page define tools' ({[mt_Name tool]} ∪ seenNames) (definitions ++ [define tool])
  end.

(** The loop of [Tools]; none if more than [fuel] pages are asked for. *)
Fixpoint mcp_pages (fuel n : nat) (define : McpTool -> Capability C) (cursor : string)
    (seenCursors seenNames : gset string) (definitions : list (Capability C))
  : option (res error (list (Capability C))) :=
  match fuel with
  | O => None
  | S fuel =>
      if bool_decide (cursor ∈ seenCursors)
      then Some (Err (EMsg ("MCP tool pagination repeated cursor " +:+ quote cursor)))
      else
        match ListTools n cursor with
        | Err e => Some (Err (EWrap "list MCP tools: " e ""))
        | Ok page =>
            match take_page define (tp_Tools page) seenNames definitions with
            | Err e => Some (Err e)
            | Ok (seenNames, definitions) =>
                if bool_decide (tp_NextCursor page = "") then Some (Ok definitions)
                else mcp_pages fuel (S n) define (tp_NextCursor page) ({[cursor]} ∪ seenCursors) seenNames definitions
            end
        end
  end.

(** [Provider.Tools]. *)
Definition Tools (fuel : nat) (p : Provider) : option (res error (list (Capability C))) :=
  if negb (pv_Client p) then Some (Err (EMsg "MCP adapter requires a client"))
  else if bool_decide (trim_dot (pv_CanonicalNamespace p) = "")
  then Some (Err (EMsg "MCP adapter requires a canonical namespace"))
  else if bool_decide (trim_dot (pv_PythonNamespace p) = "")
  then Some (Err (EMsg "MCP adapter requires a Python namespace"))
  else mcp_pages fuel 0 (mcp_definition (trim_dot (pv_CanonicalNamespace p)) (trim_dot (pv_PythonNamespace p))
                           (pv_AllowEarlyRead p)) "" ∅ ∅ [].
End Mcp.
