(* ===== verification/ManifestProps.v ===== *)
(** * ManifestProps: what an accepted manifest is

    The check for colliding Python paths looks at neighbours in sorted order
    only; it is shown to find every collision.  Discovery gives the same
    catalog in whatever order providers and maps are visited. *)

From S2P Require Import Prelude Errors Json Order Manifest.

(** ** The characters of a Python path *)

(** A character that may follow a path that is a prefix, other than the dot:
    letters, digits and the underscore are all greater than the dot. *)
Definition above_dot (c : ascii) : Prop := (46 <= N_of_ascii c)%N.

Definition all_above (s : string) : Prop := Forall above_dot (String.list_ascii_of_string s).

Lemma is_letter_above c : is_letter c = true -> above_dot c.
Proof. unfold is_letter, byte_in, above_dot. intros [H | H]%orb_true_iff; guards; lia. Qed.

Lemma is_digit_above c : is_digit c = true -> above_dot c.
Proof. unfold is_digit, byte_in, above_dot. intros. guards. lia. Qed.

Lemma underscore_above c : bool_decide (c = "_"%char) = true -> above_dot c.
Proof. intros ->%bool_decide_eq_true. done. Qed.

#[local] Hint Resolve is_letter_above is_digit_above underscore_above : core.

Lemma identifier_above s : pythonIdentifier s = true -> all_above s.
Proof.
  destruct s as [| c s]; [done |]. cbn [pythonIdentifier]. intros [[Hc | Hc]%orb_true_iff Hs]%andb_true_iff;
    unfold all_above; cbn [String.list_ascii_of_string]; (constructor; [auto |]);
    rewrite forallb_forall in Hs; apply list.Forall_forall; intros x Hx%list_elem_of_In;
    destruct (orb_prop _ _ (Hs x Hx)) as [[|]%orb_prop |]; auto.
Qed.

Lemma split_all_above s : Forall all_above (split_char "." s) -> all_above s.
Proof.
  unfold all_above. induction s as [| c s IH]; [constructor |]. cbn [split_char String.list_ascii_of_string].
  case_bool_decide as Hc.
  - intros [_ H]%Forall_cons. subst c. constructor; [done | by apply IH].
  - destruct (split_char "." s) as [| p ps] eqn:Hs; intros [Hp Hps]%Forall_cons; cbn in Hp;
      apply Forall_cons in Hp as [H1 H2]; (constructor; [done |]); apply IH.
    + done.
    + by constructor.
Qed.

Lemma python_path_above path : validPythonPath path = true -> all_above path.
Proof.
  unfold validPythonPath. intros [[Hp _]%andb_true_iff _]%andb_true_iff. apply split_all_above.
  rewrite forallb_forall in Hp. apply list.Forall_forall. intros part Hin%list_elem_of_In.
  apply Hp in Hin. apply andb_true_iff in Hin as [Hi _]. by apply identifier_above.
Qed.

(** ** Collisions *)

(** [b] is [a], or below it. *)
Definition within (a b : string) : Prop := b = a \/ has_prefix (a +:+ ".") b = true.

(** Two paths that cannot both be bound to a tool. *)
Definition ambiguous (a b : string) : Prop := within a b \/ within b a.

(** What stands between a path and something below it is below it, too. *)
Lemma squeezed p s r :
  all_above s -> str_lt s p = false -> str_lt (p +:+ String "." r) s = false ->
  s = p \/ has_prefix (p +:+ ".") s = true.
Proof.
  unfold all_above. revert s. induction p as [| d p IH]; intros [| c s] Hs H1 H2; [by left | | done |].
  - right. change ("" +:+ String "." r) with (String "." r) in H2. cbn [str_lt] in H2.
    apply Forall_cons in Hs as [Hc _].
    case_bool_decide as Hd; [subst c; by destruct s |].
    guards. destruct Hd. apply N_of_ascii_inj. unfold above_dot in Hc.
    change (N_of_ascii ".") with 46%N in *. lia.
  - rewrite str_app_cons in H2. cbn in H1, H2, Hs. apply Forall_cons in Hs as [_ Hs].
    destruct (decide (c = d)) as [-> | Hne].
    + rewrite !bool_decide_eq_true_2 in * by done. destruct (IH s Hs H1 H2) as [-> | Hp]; [by left | right].
      rewrite str_app_cons. apply prefix_iff in Hp as [rest ->]. apply prefix_iff. exists rest. by rewrite str_app_cons.
    + rewrite !bool_decide_eq_false_2 in * by congruence. guards. destruct Hne. apply N_of_ascii_inj. lia.
Qed.

Lemma within_after a b : within a b -> str_lt b a = false.
Proof.
  intros [-> | [rest ->]%prefix_iff]; [apply str_lt_irrefl |]. rewrite str_app_assoc. revert rest.
  induction a as [| c a IH]; intros rest; [done |]. rewrite str_app_cons. cbn. by rewrite bool_decide_eq_true_2.
Qed.

(** Between [a] and something within [a] there is only what is within [a]. *)
Lemma within_squeezed a b s : all_above s -> str_lt s a = false -> str_lt b s = false -> within a b -> within a s.
Proof.
  intros Hs H1 H2 [-> | [rest ->]%prefix_iff]; [left; by apply str_lt_total |].
  rewrite str_app_assoc in H2. by apply (squeezed a s rest).
Qed.

(** Paths that may stand together, whatever their order. *)
Definition apart : list string -> Prop := StronglySorted (fun a b => ~ ambiguous a b).

(** The check of neighbours finds every collision. *)
Lemma sorted_collisions previous paths :
  StronglySorted (not_after str_lt) (previous :: paths) -> Forall all_above (previous :: paths) ->
  colliding_path previous paths = None <-> apart (previous :: paths).
Proof.
  revert previous. induction paths as [| s paths IH]; intros previous Hs Ha; [by repeat constructor |].
  pose proof (StronglySorted_inv Hs) as [Hs' Hp]. apply Forall_cons in Ha as Ha'. destruct Ha' as [_ Has].
  cbn [colliding_path]. case_match eqn:Hc.
  - split; [done |]. intros [_ [Hn _]%Forall_cons]%StronglySorted_inv. destruct Hn. left.
    apply orb_true_iff in Hc as [Hc | Hc]; guards; [by left | by right].
  - rewrite (IH s Hs' Has). split; [intros Hr; constructor; [done |] | by intros [? _]%StronglySorted_inv].
    guards. assert (~ within previous s) as Hn by (intros [-> | ?]; congruence).
    apply Forall_cons in Hp as Hp'. destruct Hp' as [Hps _]. pose proof (StronglySorted_inv Hs') as [_ Hss].
    apply Forall_cons in Has as [Has _]. rewrite list.Forall_forall in *. intros b Hb.
    assert (not_after str_lt s b) as Hsb by (apply elem_of_cons in Hb as [-> | Hb]; [apply str_lt_irrefl | by apply Hss]).
    assert (~ within previous b) as Hnb by (intros Hw; by apply Hn, (within_squeezed previous b s)).
    intros [Hw | Hw]; [done |]. apply Hnb. left. apply str_lt_total; [by apply Hp | by apply within_after].
Qed.

Lemma apart_perm l1 l2 : l1 ≡ₚ l2 -> apart l1 -> apart l2.
Proof.
  unfold apart. induction 1 as [| x l1 l2 Hp IH | x y l | l1 l2 l3 _ IH1 _ IH2]; intros H; auto.
  - apply StronglySorted_inv in H as [? Hx]. constructor; [auto | by rewrite <- Hp].
  - apply StronglySorted_inv in H as [[H Hx]%StronglySorted_inv [Hxy Hy]%Forall_cons].
    constructor; by constructor.
Qed.

Lemma path_collision_None paths : Forall all_above paths -> path_collision paths = None <-> apart paths.
Proof.
  intros Ha. pose proof (sort_by_perm str_lt paths) as Hp. pose proof (sort_by_sorted str_lt paths) as Hs.
  rewrite <- Hp in Ha. transitivity (apart (sort_by str_lt paths)).
  - unfold path_collision. destruct (sort_by str_lt paths); [split; [constructor | done] | by apply sorted_collisions].
  - split; by apply apart_perm.
Qed.

Lemma ambiguous_sym a b : ambiguous a b -> ambiguous b a.
Proof. unfold ambiguous. tauto. Qed.

(** Of things with distinct keys, the paths stand apart pair by pair. *)
Lemma apart_pairs {A} (key path : A -> string) l :
  NoDup (map key l) ->
  apart (map path l) <-> (forall x y, x ∈ l -> y ∈ l -> key x <> key y -> ~ ambiguous (path x) (path y)).
Proof.
  unfold apart. induction l as [| x l IH]; intros Hd; [split; [intros _ x y Hx; by apply not_elem_of_nil in Hx | constructor] |].
  cbn in Hd |- *. apply list.NoDup_cons in Hd as [Hx Hd]. specialize (IH Hd). split.
  - intros [Hs Hn]%StronglySorted_inv. rewrite list.Forall_forall in Hn.
    assert (forall y, y ∈ l -> ~ ambiguous (path x) (path y)) as Hl by (intros y Hy; apply Hn, list_elem_of_fmap; eauto).
    intros a b [-> | Ha]%elem_of_cons [-> | Hb]%elem_of_cons Hk; [done | by apply Hl | | by apply (proj1 IH Hs)].
    intros Hw%ambiguous_sym. by apply (Hl a).
  - intros H. constructor; [apply IH; intros a b Ha Hb; apply H; by constructor |].
    apply list.Forall_forall. intros b' (b & -> & Hb)%list_elem_of_fmap. apply H; [by constructor.. |].
    intros Hk. apply Hx, list_elem_of_fmap. by exists b.
Qed.

(** ** Normalization *)

Section Normalize.
Context {C : Type}.

(** A tool as it is presented: with the path that stands for the default. *)
Definition presented (name : string) (s : ToolSpec C) : ToolSpec C := with_path (python_path name s) s.

Lemma normalize_path_Ok name (s s' : ToolSpec C) :
  normalize_path name s = Ok s' -> s' = presented name s /\ validPythonPath (python_path name s) = true.
Proof.
  unfold normalize_path, presented, python_path. case_bool_decide as Hp; case_match; intros; simplify_eq; [done |].
  by destruct s'.
Qed.

Lemma normalize_schema_Ok name (s s' : ToolSpec C) : normalize_schema name s = Ok s' -> s' = s.
Proof.
  unfold normalize_schema. destruct s as [call early path desc [schema |] ann]; cbn; [| by intros [= <-]].
  case_match; [done |]. destruct (decodes_to_object schema) eqn:Hd; [| done]. intros [= <-].
  destruct schema; done.
Qed.

Lemma normalize_tool_Ok name (s s' : ToolSpec C) :
  normalize_tool name s = Ok s' -> s' = presented name s /\ validPythonPath (python_path name s) = true.
Proof.
  unfold normalize_tool. destruct (validateToolName name); [cbn | done]. case_match; [| done]. case_match; [done |].
  intros (spec & Hp & Hs)%res_bind_Ok. apply normalize_schema_Ok in Hs as ->. by apply normalize_path_Ok.
Qed.

(** What a source that is accepted has. *)
Lemma normalize_tool_source name (s s' : ToolSpec C) :
  normalize_tool name s = Ok s' -> name <> "" /\ is_Some (ts_Call s) /\ clone (ts_InputSchema s) = ts_InputSchema s.
Proof.
  unfold normalize_tool, validateToolName. case_match eqn:Hv; [done |]. cbn. destruct (ts_Call s) eqn:Hc; [| done].
  case_match; [done |]. intros (spec & [-> _]%normalize_path_Ok & Hs)%res_bind_Ok. guards. split_and!; [done.. |].
  unfold normalize_schema in Hs. cbn in Hs. destruct (ts_InputSchema s) as [schema |]; [| done]. case_match; [done |].
  destruct (decodes_to_object schema) eqn:Hd; [| done]. by destruct schema.
Qed.

Lemma valid_path_nonempty path : validPythonPath path = true -> path <> "".
Proof. by intros H ->. Qed.

Lemma presented_path name (s : ToolSpec C) : ts_PythonPath (presented name s) = python_path name s.
Proof. done. Qed.

(** Normalizing again changes nothing. *)
Lemma normalize_tool_again name (s s' : ToolSpec C) : normalize_tool name s = Ok s' -> normalize_tool name s' = Ok s'.
Proof.
  intros H. pose proof (normalize_tool_Ok _ _ _ H) as [-> Hv]. pose proof (valid_path_nonempty _ Hv) as Hne.
  unfold normalize_tool in *. destruct (validateToolName name); [cbn in * | done].
  destruct s as [[call |] early path desc schema ann]; [| done]. cbn in *. destruct (_ <? _)%N; [done |].
  apply res_bind_Ok in H as (spec & Hp & Hs). apply normalize_path_Ok in Hp as [-> _].
  unfold normalize_path, presented, python_path in *. cbn in *.
  rewrite bool_decide_eq_false_2, Hv by done. exact Hs.
Qed.

Lemma normalize_tools_Ok (l l' : list (string * ToolSpec C)) :
  normalize_tools l = Ok l' <->
  l' = map (fun t => (t.1, presented t.1 t.2)) l
  /\ Forall (fun t => normalize_tool t.1 t.2 = Ok (presented t.1 t.2)) l.
Proof.
  revert l'. induction l as [| [name s] l IH]; intros l'; cbn; [split; [by intros [= <-] | by intros [-> _]] |].
  split.
  - intros (spec & Hn & (rest & [-> Hr]%IH & [= <-])%res_bind_Ok)%res_bind_Ok.
    pose proof (normalize_tool_Ok _ _ _ Hn) as [-> _]. split; [done | by constructor].
  - intros [-> [Hn Hr]%Forall_cons]. cbn in Hn. rewrite Hn. cbn. by rewrite (proj2 (IH _) (conj eq_refl Hr)).
Qed.

Variable iterate : Manifest C -> list (string * ToolSpec C).
Hypothesis iterate_all : forall m, iterate m ≡ₚ map_to_list m.

Lemma iterate_names m : NoDup (map fst (iterate m)).
Proof. rewrite iterate_all. apply NoDup_fst_map_to_list. Qed.

Lemma elem_of_iterate m name s : (name, s) ∈ iterate m <-> m !! name = Some s.
Proof. by rewrite iterate_all, elem_of_map_to_list. Qed.

(** The manifest and the list of the Guest that an accepted manifest becomes. *)
Definition presented_all (m : Manifest C) : Manifest C := map_imap (fun name s => Some (presented name s)) m.

Definition shown (m : Manifest C) : list guestToolSpec :=
  sort_by by_name (map (fun t => guest_spec t.1 (presented t.1 t.2)) (iterate m)).

(** What is accepted: every tool by itself, and no two paths that collide. *)
Definition acceptable_manifest (m : Manifest C) : Prop :=
  (forall name s, m !! name = Some s -> normalize_tool name s = Ok (presented name s))
  /\ (forall n1 n2 s1 s2, n1 <> n2 -> m !! n1 = Some s1 -> m !! n2 = Some s2 ->
        ~ ambiguous (python_path n1 s1) (python_path n2 s2)).

Lemma list_to_map_presented (l : list (string * ToolSpec C)) (m : Manifest C) :
  l ≡ₚ map_to_list m -> list_to_map (map (fun t => (t.1, presented t.1 t.2)) l) = presented_all m.
Proof.
  intros Hp. apply map_eq. intros name. unfold presented_all. rewrite map_lookup_imap.
  assert (NoDup (map fst (map (fun t => (t.1, presented t.1 t.2)) l))) as Hd.
  { rewrite map_map. cbn. rewrite Hp. apply NoDup_fst_map_to_list. }
  destruct (m !! name) as [s |] eqn:Hm; cbn.
  - apply elem_of_list_to_map; [done |]. apply list_elem_of_fmap. exists (name, s). split; [done |].
    by rewrite Hp, elem_of_map_to_list.
  - apply not_elem_of_list_to_map. rewrite <- list_fmap_compose. intros ([n s] & -> & Hin)%list_elem_of_fmap.
    rewrite Hp, elem_of_map_to_list in Hin. cbn in Hm. congruence.
Qed.

Lemma normalizeManifest_Ok m n guest :
  normalizeManifest iterate m = Ok (n, guest) <-> acceptable_manifest m /\ n = presented_all m /\ guest = shown m.
Proof.
  assert (forall tools, normalize_tools (iterate m) = Ok tools ->
    path_collision (map (fun t => ts_PythonPath t.2) tools) = None <->
    (forall n1 n2 s1 s2, n1 <> n2 -> m !! n1 = Some s1 -> m !! n2 = Some s2 ->
       ~ ambiguous (python_path n1 s1) (python_path n2 s2))) as Hpaths.
  { intros tools [-> Hall]%normalize_tools_Ok. rewrite map_map. cbn. rewrite path_collision_None.
    - rewrite (apart_pairs fst) by apply iterate_names. split.
      + intros H n1 n2 s1 s2 Hne H1%elem_of_iterate H2%elem_of_iterate. by apply (H (n1, s1) (n2, s2)).
      + intros H [n1 s1] [n2 s2] H1%elem_of_iterate H2%elem_of_iterate Hne. by apply H.
    - apply Forall_map. eapply Forall_impl; [exact Hall |]. intros [name s] Hn. cbn in *.
      apply python_path_above. by apply normalize_tool_Ok in Hn as [_ ?]. }
  unfold normalizeManifest. split.
  - intros (tools & Ht & H)%res_bind_Ok. pose proof (Hpaths tools Ht) as Hp.
    destruct (path_collision _); [done |]. injection H as <- <-. apply normalize_tools_Ok in Ht as [-> Hall].
    split_and!; [split; [| by apply Hp] | by apply list_to_map_presented | unfold shown; by rewrite map_map].
    intros name s Hm%elem_of_iterate. rewrite list.Forall_forall in Hall. exact (Hall _ Hm).
  - intros ([Hall Hp] & -> & ->).
    assert (normalize_tools (iterate m) = Ok (map (fun t => (t.1, presented t.1 t.2)) (iterate m))) as Ht.
    { apply normalize_tools_Ok. split; [done |]. apply list.Forall_forall. intros [name s] H%elem_of_iterate. by apply Hall. }
    rewrite Ht. cbn. rewrite (proj2 (Hpaths _ Ht) Hp). rewrite (list_to_map_presented _ m (iterate_all m)).
    unfold shown. by rewrite map_map.
Qed.
End Normalize.

(** ** Discovery *)

Section Discovery.
Context {C : Type}.
Implicit Types (c d : Capability C) (l definitions : list (Capability C)).

Definition entries l : list (string * ToolSpec C) := map (fun c => (cap_Name c, cap_Spec c)) l.

(** The manifest of distinct capabilities. *)
Definition manifest_of l : Manifest C := list_to_map (entries l).

Lemma entries_names l : map fst (entries l) = map cap_Name l.
Proof. unfold entries. by rewrite map_map. Qed.

Lemma manifest_of_None l name : manifest_of l !! name = None <-> name ∉ map cap_Name l.
Proof.
  unfold manifest_of. rewrite <- entries_names. split; [apply not_elem_of_list_to_map | apply not_elem_of_list_to_map_1].
Qed.

Lemma collect_Ok l (m m' : Manifest C) :
  collect l m = Ok m' <->
  NoDup (map cap_Name l) /\ (forall c, c ∈ l -> m !! cap_Name c = None) /\ m' = manifest_of l ∪ m.
Proof.
  revert m. induction l as [| c l IH]; intros m.
  { cbn. rewrite (left_id_L ∅ (∪)). split; [intros [= <-]; split_and!; [constructor | | done] | by intros (_ & _ & ->)].
    intros c Hc. by apply not_elem_of_nil in Hc. }
  cbn [collect]. case_bool_decide as Hm.
  - split; [done | intros (_ & Hn & _)]. rewrite (Hn c) in Hm by constructor. by destruct Hm.
  - apply eq_None_not_Some in Hm. cbn [map]. rewrite IH, list.NoDup_cons, <- manifest_of_None.
    assert (manifest_of l !! cap_Name c = None -> manifest_of l ∪ <[cap_Name c := cap_Spec c]> m = manifest_of (c :: l) ∪ m) as Heq.
    { intros Hn. cbn. rewrite <- insert_union_r by done. by rewrite insert_union_l. }
    split.
    + intros (Hd & Hl & ->). assert (manifest_of l !! cap_Name c = None) as Hn.
      { apply manifest_of_None. intros (d & Hk & Hdl)%list_elem_of_fmap. specialize (Hl d Hdl).
        by rewrite <- Hk, lookup_insert_eq in Hl. }
      split_and!; [done.. | | by apply Heq]. intros d [-> | Hdl]%elem_of_cons; [done |].
      specialize (Hl d Hdl). by apply lookup_insert_None in Hl as [? _].
    + intros ((Hn & Hd) & Hl & ->). split_and!; [done | | by rewrite Heq].
      intros d Hdl. apply lookup_insert_None. split; [apply Hl; by constructor |]. intros Hk.
      apply manifest_of_None in Hn as []. apply list_elem_of_fmap. by exists d.
Qed.

Lemma take_definitions_Ok l (seen seen' : gset string) found found' :
  take_definitions l seen found = Ok (seen', found') <->
  NoDup (map cap_Name l) /\ (forall c, c ∈ l -> cap_Name c ∉ seen)
  /\ seen' = list_to_set (map cap_Name l) ∪ seen /\ found' = found ++ l.
Proof.
  revert seen found. induction l as [| c l IH]; intros seen found.
  { cbn. rewrite (left_id_L ∅ (∪)), app_nil_r. split.
    - intros [= <- <-]. split_and!; [constructor | | done..]. intros c Hc. by apply not_elem_of_nil in Hc.
    - by intros (_ & _ & -> & ->). }
  cbn [take_definitions]. case_bool_decide as Hm.
  - split; [done | intros (_ & Hn & _)]. by destruct (Hn c); [constructor |].
  - cbn [map]. rewrite IH, list.NoDup_cons, <- app_assoc. cbn [list_to_set].
    assert (list_to_set (map cap_Name l) ∪ ({[cap_Name c]} ∪ seen) = {[cap_Name c]} ∪ list_to_set (map cap_Name l) ∪ seen) as ->
      by set_solver.
    split; intros H; destruct_and! H; split_and!; try done.
    + intros (d & Hk & Hd)%list_elem_of_fmap. assert (cap_Name d ∉ {[cap_Name c]} ∪ seen) by auto. set_solver.
    + intros d [-> | Hd]%elem_of_cons; [done |]. assert (cap_Name d ∉ {[cap_Name c]} ∪ seen) by auto. set_solver.
    + intros d Hd. assert (cap_Name d ∉ seen) by (match goal with H : forall _, _ -> _ ∉ _ |- _ => apply H; by constructor end).
      assert (cap_Name d <> cap_Name c); [| set_solver]. intros Hk.
      match goal with H : _ ∉ _ |- _ => apply H; apply list_elem_of_fmap; by exists d end.
Qed.

(** What the providers give, when all of them answer. *)
Definition all_answer (providers : list (ToolProvider C)) (answers : list (list (Capability C))) : Prop :=
  providers = map (fun l => Some (Ok l)) answers.

Lemma discover_Ok i providers (seen : gset string) found result :
  discover i providers seen found = Ok result <->
  exists answers, all_answer providers answers /\ result = found ++ concat answers
    /\ NoDup (map cap_Name (concat answers)) /\ (forall c, c ∈ concat answers -> cap_Name c ∉ seen).
Proof.
  unfold all_answer. revert i seen found. induction providers as [| [[l | e] |] providers IH]; intros i seen found; cbn [discover].
  - split.
    + intros [= <-]. exists []. rewrite app_nil_r. split_and!; [done.. | constructor |]. intros c Hc. by apply not_elem_of_nil in Hc.
    + by intros ([| ? ?] & Ha & -> & _); [rewrite app_nil_r |].
  - split.
    + intros ([seen' found'] & Ht & Hd)%res_bind_Ok. apply take_definitions_Ok in Ht as (Hl & Hs & -> & ->).
      apply IH in Hd as (answers & -> & -> & Hn & Hd). exists (l :: answers). cbn. rewrite app_assoc, map_app.
      split_and!; [done.. | |].
      * apply list.NoDup_app. split_and!; [done | | done]. intros x Hx (c & -> & Hc)%list_elem_of_fmap.
        apply (Hd c Hc), elem_of_union. left. by apply elem_of_list_to_set.
      * intros c [Hc | Hc]%elem_of_app; [by apply Hs |]. intros Hin. apply (Hd c Hc), elem_of_union. by right.
    + intros ([| l' answers] & Ha & -> & Hn & Hs); [done |]. cbn in Ha, Hn, Hs. injection Ha as -> ->.
      rewrite map_app in Hn. apply list.NoDup_app in Hn as (Hl & Hx & Hr).
      rewrite (proj2 (take_definitions_Ok l' seen (list_to_set (map cap_Name l') ∪ seen) found (found ++ l'))).
      * cbn. apply IH. exists answers. rewrite <- app_assoc. split_and!; [done.. |]. intros c Hc Hin.
        apply elem_of_union in Hin as [Hin%elem_of_list_to_set | Hin].
        -- apply (Hx _ Hin), list_elem_of_fmap. by exists c.
        -- apply (Hs c); [by apply elem_of_app; right | done].
      * split_and!; [done | | done..]. intros c Hc. apply Hs, elem_of_app. by left.
  - split; [done | by intros ([| ? ?] & ? & _)].
  - split; [done | by intros ([| ? ?] & ? & _)].
Qed.
End Discovery.

(** ** The catalog *)

Section Catalog.
Context {C : Type}.

(** The capabilities of a manifest, sorted by name, as they are presented. *)
Definition catalog (m : Manifest C) : list (Capability C) :=
  sort_by (fun a b => str_lt (cap_Name a) (cap_Name b))
    (map (fun t => mkCapability t.1 (presented t.1 t.2)) (map_to_list m)).

Lemma catalog_names (l : list (string * ToolSpec C)) :
  map cap_Name (map (fun t => mkCapability t.1 (presented t.1 t.2)) l) = map fst l.
Proof. by rewrite map_map. Qed.

Lemma elem_of_catalog c (m : Manifest C) :
  c ∈ catalog m <-> exists s, m !! cap_Name c = Some s /\ c = mkCapability (cap_Name c) (presented (cap_Name c) s).
Proof.
  unfold catalog. rewrite elem_of_sort_by. split.
  - intros ([name s] & -> & Hin%elem_of_map_to_list)%list_elem_of_fmap. by exists s.
  - intros (s & Hm & Hc). apply list_elem_of_fmap. exists (cap_Name c, s). by rewrite elem_of_map_to_list.
Qed.

Lemma omap_lookup_names (m : Manifest C) (l : list (Capability C)) :
  (forall c, c ∈ l -> m !! cap_Name c = Some (cap_Spec c)) ->
  omap (fun name => mkCapability name <$> m !! name) (map cap_Name l) = l.
Proof.
  induction l as [| [name s] l IH]; intros H; [done |]. cbn.
  pose proof (H (mkCapability name s)) as Hc. cbn in Hc. rewrite Hc by constructor. cbn.
  f_equal. apply IH. intros c Hc'. apply H. by constructor.
Qed.

Variable iterate : Manifest C -> list (string * ToolSpec C).
Hypothesis iterate_all : forall m, iterate m ≡ₚ map_to_list m.

Lemma presented_all_lookup (m : Manifest C) name : presented_all m !! name = presented name <$> m !! name.
Proof. unfold presented_all. rewrite map_lookup_imap. by destruct (m !! name). Qed.

(** The list [DiscoverCapabilities] makes of a normalized manifest. *)
Lemma discovered_catalog (m : Manifest C) :
  omap (fun name => mkCapability name <$> presented_all m !! name)
    (sort_by str_lt (map fst (iterate (presented_all m)))) = catalog m.
Proof.
  assert (forall l, l ≡ₚ map_to_list (presented_all m) ->
    sort_by str_lt (map fst l) = map cap_Name (catalog m)) as Hnames.
  { intros l Hl. unfold catalog. rewrite sort_by_map, catalog_names.
    assert (map fst l ≡ₚ map fst (map_to_list m)) as Hp.
    { rewrite Hl. apply NoDup_Permutation; [apply NoDup_fst_map_to_list.. |]. intros name.
      rewrite !list_elem_of_fmap. split; intros ([n s] & -> & Hin%elem_of_map_to_list); cbn.
      - rewrite presented_all_lookup in Hin. destruct (m !! n) as [s0 |] eqn:Hn; [| done].
        exists (n, s0). by rewrite elem_of_map_to_list.
      - exists (n, presented n s). by rewrite elem_of_map_to_list, presented_all_lookup, Hin. }
    apply sort_by_unique; [apply _ | done |]. unfold not_after. intros. by apply str_lt_total. }
  rewrite Hnames by apply iterate_all. apply omap_lookup_names. intros c (s & Hm & ->)%elem_of_catalog.
  cbn in *. by rewrite presented_all_lookup, Hm.
Qed.

Lemma ManifestFromCapabilities_Ok l n :
  ManifestFromCapabilities iterate l = Ok n <->
  NoDup (map cap_Name l) /\ acceptable_manifest (manifest_of l) /\ n = presented_all (manifest_of l).
Proof.
  unfold ManifestFromCapabilities. split.
  - intros (m & (Hd & _ & ->)%collect_Ok & ([n' guest] & Hn & [= <-])%res_bind_Ok)%res_bind_Ok.
    rewrite (right_id_L ∅ (∪)) in Hn. by apply (normalizeManifest_Ok iterate iterate_all) in Hn as (Ha & -> & _).
  - intros (Hd & Ha & ->). assert (collect l ∅ = Ok (manifest_of l)) as ->.
    { apply collect_Ok. rewrite (right_id_L ∅ (∪)). split_and!; [done | | done]. intros c _. apply lookup_empty. }
    cbn. rewrite (proj2 (normalizeManifest_Ok iterate iterate_all _ _ _) (conj Ha (conj eq_refl eq_refl))). done.
Qed.

(** Discovery: all providers answer, the names are distinct and the manifest is
    acceptable; the result is the sorted catalog. *)
Lemma DiscoverCapabilities_Ok providers result :
  DiscoverCapabilities iterate providers = Ok result <->
  exists answers, all_answer providers answers /\ NoDup (map cap_Name (concat answers))
    /\ acceptable_manifest (manifest_of (concat answers)) /\ result = catalog (manifest_of (concat answers)).
Proof.
  unfold DiscoverCapabilities. split.
  - intros (found & (answers & Ha & -> & Hd & _)%discover_Ok & (n & (_ & Hm & ->)%ManifestFromCapabilities_Ok & [= <-])%res_bind_Ok)%res_bind_Ok.
    exists answers. split_and!; [done.. |]. apply discovered_catalog.
  - intros (answers & Ha & Hd & Hm & ->).
    assert (discover 0 providers ∅ [] = Ok (concat answers)) as ->.
    { apply discover_Ok. exists answers. split_and!; [done.. |]. intros c _. apply not_elem_of_empty. }
    cbn. rewrite (proj2 (ManifestFromCapabilities_Ok _ _) (conj Hd (conj Hm eq_refl))). cbn. by rewrite discovered_catalog.
Qed.

(** Two lists of the same distinct capabilities make the same manifest. *)
Lemma manifest_of_perm (l1 l2 : list (Capability C)) : l1 ≡ₚ l2 -> NoDup (map cap_Name l1) -> manifest_of l1 = manifest_of l2.
Proof.
  intros Hp Hd. unfold manifest_of. apply list_to_map_proper; [by rewrite entries_names |].
  unfold entries. by rewrite Hp.
Qed.

(** The order of the providers does not matter. *)
Lemma DiscoverCapabilities_perm providers providers' result :
  providers ≡ₚ providers' -> DiscoverCapabilities iterate providers = Ok result ->
  DiscoverCapabilities iterate providers' = Ok result.
Proof.
  intros Hp (answers & Ha & Hd & Hm & ->)%DiscoverCapabilities_Ok. unfold all_answer in Ha.
  rewrite Ha in Hp. symmetry in Hp. apply Permutation_map_inv in Hp as (answers' & Ha' & Hp).
  apply DiscoverCapabilities_Ok. exists answers'.
  assert (concat answers ≡ₚ concat answers') as Hc by (by rewrite Hp).
  rewrite <- (manifest_of_perm (concat answers) (concat answers')) by done. split_and!; [done | by rewrite <- Hc | done..].
Qed.
End Catalog.

(** ** The MCP adapter *)

Section Mcp.
Context {C : Type}.
Variable ListTools : nat -> string -> res error ToolPage.

Lemma take_page_Ok (define : McpTool -> Capability C) tools seen found seen' found' :
  take_page define tools seen found = Ok (seen', found') ->
  found' = found ++ map define tools /\ seen' = list_to_set (map mt_Name tools) ∪ seen
  /\ NoDup (map mt_Name tools) /\ (forall t, t ∈ tools -> mt_Name t <> "" /\ mt_Name t ∉ seen)
  /\ (length found <= maxDiscoveredTools -> length found' <= maxDiscoveredTools)%nat.
Proof.
  revert seen found. induction tools as [| t tools IH]; intros seen found; cbn [take_page].
  - intros [= <- <-]. cbn. rewrite app_nil_r, (left_id_L ∅ (∪)). split_and!; [done.. | constructor | | done].
    intros t Ht. by apply not_elem_of_nil in Ht.
  - destruct (bool_decide (mt_Name t = "") || _) eqn:Hb; [done |]. destruct (maxDiscoveredTools <=? length found)%nat eqn:Hmax; [done |].
    guards. intros (-> & -> & Hd & Hs & Hl)%IH. cbn. rewrite <- app_assoc, list.NoDup_cons. split_and!; [done | set_solver | | done | |].
    + intros (t' & Hn & Ht')%list_elem_of_fmap. apply (Hs t' Ht'). set_solver.
    + intros t' [-> | Ht']%elem_of_cons; [done |]. destruct (Hs t' Ht'). set_solver.
    + intros _. rewrite <- app_assoc in Hl. apply Hl. rewrite length_app. cbn. lia.
Qed.

(** The tools the server offered. *)
Definition offered (t : McpTool) : Prop :=
  exists n cursor page, ListTools n cursor = Ok page /\ t ∈ tp_Tools page /\ mt_Name t <> "".

Lemma mcp_pages_Ok fuel n (define : McpTool -> Capability C) cursor seenC seenN tools result :
  mcp_pages ListTools fuel n define cursor seenC seenN (map define tools) = Some (Ok result) ->
  seenN = list_to_set (map mt_Name tools) -> NoDup (map mt_Name tools) -> Forall offered tools ->
  (length tools <= maxDiscoveredTools)%nat ->
  exists all, result = map define all /\ NoDup (map mt_Name all) /\ Forall offered all /\ (length all <= maxDiscoveredTools)%nat.
Proof.
  revert n cursor seenC seenN tools. induction fuel as [| fuel IH]; intros n cursor seenC seenN tools; [done |].
  cbn [mcp_pages]. case_bool_decide; [done |]. destruct (ListTools n cursor) as [page |] eqn:Hl; [| done].
  destruct (take_page _ _ _ _) as [[seenN' found'] |] eqn:Ht; [| done]. intros Hr Hs Hd Ho Hlen.
  apply take_page_Ok in Ht as (-> & -> & Hd' & Hn & Hmax). rewrite <- map_app in *. rewrite !length_map in Hmax.
  assert (NoDup (map mt_Name (tools ++ tp_Tools page))) as Hall.
  { rewrite map_app. apply list.NoDup_app. split_and!; [done | | done].
    intros name Hname (t & -> & Ht)%list_elem_of_fmap. destruct (Hn t Ht) as [_ Hnot]. apply Hnot. subst seenN.
    by apply elem_of_list_to_set. }
  assert (Forall offered (tools ++ tp_Tools page)) as Hoff.
  { apply Forall_app. split; [done |]. apply list.Forall_forall. intros t Ht. exists n, cursor, page. by destruct (Hn t Ht). }
  case_bool_decide; [injection Hr as <-; eauto 6 |].
  apply IH in Hr; [done | | done.. | by apply Hmax]. subst seenN. rewrite map_app, list_to_set_app_L. set_solver.
Qed.

Lemma distinct_size (l : list string) : (size (list_to_set l : gset string) <= length l)%nat.
Proof.
  induction l as [| x l IH]; [done |]. cbn. rewrite size_union_alt, size_singleton.
  assert (size (list_to_set l ∖ {[x]} : gset string) <= size (list_to_set l : gset string))%nat by (apply subseteq_size; set_solver).
  lia.
Qed.

(** Every page that goes on uses up a cursor of the server. *)
Lemma mcp_pages_end (cursors : list string) fuel n (define : McpTool -> Capability C) cursor (seenC : gset string) seenN found :
  (forall n c page, ListTools n c = Ok page -> tp_NextCursor page ∈ cursors) ->
  seenC ⊆ list_to_set ("" :: cursors) -> cursor ∈ "" :: cursors ->
  (length cursors + 2 <= fuel + size seenC)%nat ->
  is_Some (mcp_pages ListTools fuel n define cursor seenC seenN found).
Proof.
  intros Hc. revert n cursor seenC seenN found. induction fuel as [| fuel IH]; intros n cursor seenC seenN found Hs Hcur Hf.
  - exfalso. assert (size seenC <= length ("" :: cursors))%nat; [| cbn in *; lia].
    etrans; [by apply subseteq_size |]. apply distinct_size.
  - cbn [mcp_pages]. case_bool_decide as Hin; [done |]. destruct (ListTools n cursor) as [page |] eqn:Hl; [| done].
    destruct (take_page _ _ _ _) as [[seenN' found'] |]; [| done]. case_bool_decide; [done |].
    apply IH; [| constructor; by eapply Hc |].
    + set_solver.
    + rewrite size_union, size_singleton by set_solver. lia.
Qed.

(** Pages that are not asked for change nothing. *)
Lemma mcp_pages_more fuel more n (define : McpTool -> Capability C) cursor seenC seenN found :
  is_Some (mcp_pages ListTools fuel n define cursor seenC seenN found) ->
  mcp_pages ListTools (fuel + more) n define cursor seenC seenN found = mcp_pages ListTools fuel n define cursor seenC seenN found.
Proof.
  revert n cursor seenC seenN found. induction fuel as [| fuel IH]; intros n cursor seenC seenN found; [by intros [? ?] |].
  cbn [mcp_pages Nat.add]. case_bool_decide; [done |]. destruct (ListTools n cursor); [| done].
  destruct (take_page _ _ _ _) as [[? ?] |]; [| done]. case_bool_decide; [done | apply IH].
Qed.
End Mcp.

(** The cursor of the [n]-th page of a server that never ends. *)
Definition fresh_cursor (n : nat) : string := String "c" (format_uint (N.of_nat n)).

Lemma fresh_cursor_inj n m : fresh_cursor n = fresh_cursor m -> n = m.
Proof. intros [= H%format_uint_inj]. lia. Qed.

Lemma fresh_pages_go_on {C} fuel n (define : McpTool -> Capability C) cursor (seenC : gset string) seenN found :
  (forall k, (n <= k)%nat -> fresh_cursor k ∉ {[cursor]} ∪ seenC) -> cursor ∉ seenC ->
  mcp_pages (fun n _ => Ok (mkToolPage [] (fresh_cursor n))) fuel n define cursor seenC seenN found = None.
Proof.
  revert n cursor seenC. induction fuel as [| fuel IH]; intros n cursor seenC Hf Hc; [done |].
  cbn [mcp_pages]. rewrite bool_decide_eq_false_2 by done. cbn [take_page tp_Tools tp_NextCursor].
  rewrite bool_decide_eq_false_2 by done. apply IH; [| apply Hf; lia].
  intros k Hk. assert (fresh_cursor k <> fresh_cursor n) by (intros H%fresh_cursor_inj; lia).
  specialize (Hf k ltac:(lia)). set_solver.
Qed.

(** ** Properties *)

(** C12.  A manifest is accepted exactly when every tool is acceptable by
    itself (its name, implementation, description, path and schema) and no two
    tools are presented under the same Python path or one below the other: the
    comparison of neighbours in the sorted paths misses no collision.  What is
    accepted does not depend on the order in which the map is visited, and
    neither does the result: every tool under its own name with its path filled
    in, and the list for the Guest strictly sorted by name. *)
Theorem manifest_is_unambiguous {C} (iterate : Manifest C -> list (string * ToolSpec C))
  (iterate_all : forall m, iterate m ≡ₚ map_to_list m) m :
  (is_ok (normalizeManifest iterate m) = true <-> acceptable_manifest m)
  /\ (forall n guest, normalizeManifest iterate m = Ok (n, guest) ->
        (forall name, n !! name = presented name <$> m !! name)
        /\ StronglySorted (fun a b => str_lt (gt_Name a) (gt_Name b) = true) guest
        /\ (forall g, g ∈ guest <-> exists name s, m !! name = Some s /\ g = guest_spec name (presented name s))).
Proof.
  split.
  - split.
    + destruct (normalizeManifest iterate m) as [[n guest] | e] eqn:Hn; [| done]. intros _.
      by apply (normalizeManifest_Ok iterate iterate_all) in Hn as [? _].
    + intros Ha. by rewrite (proj2 (normalizeManifest_Ok iterate iterate_all _ _ _) (conj Ha (conj eq_refl eq_refl))).
  - intros n guest (_ & -> & ->)%(normalizeManifest_Ok iterate iterate_all). split_and!.
    + apply presented_all_lookup.
    + apply (sort_by_strict str_lt gt_Name); [apply _ | | rewrite map_map; by apply iterate_names].
      intros x y H1 H2. by apply str_lt_total.
    + intros g. unfold shown. rewrite elem_of_sort_by, list_elem_of_fmap. split.
      * intros ([name s] & -> & Hin%elem_of_iterate); [eauto | done].
      * intros (name & s & Hm & ->). exists (name, s). by rewrite elem_of_iterate.
Qed.

(** Discovery over MCP is bounded in its result: at most
    [maxDiscoveredTools] tools, each offered by the server under a name of its
    own and presented below both namespaces.  It ends within two pages more
    than the server has cursors, and the pages it is given beyond that change
    nothing. *)
Theorem mcp_discovery_is_bounded {C} ListTools (CallTool : string -> C) p cursors
  (Hcursors : forall n c page, ListTools n c = Ok page -> tp_NextCursor page ∈ cursors) :
  let fuel := (length cursors + 2)%nat in
  is_Some (Tools ListTools CallTool fuel p)
  /\ (forall more, Tools ListTools CallTool (fuel + more) p = Tools ListTools CallTool fuel p)
  /\ forall definitions, Tools ListTools CallTool fuel p = Some (Ok definitions) ->
       exists tools, definitions = map (mcp_definition CallTool (trim_dot (pv_CanonicalNamespace p))
                                          (trim_dot (pv_PythonNamespace p)) (pv_AllowEarlyRead p)) tools
         /\ Forall (offered ListTools) tools /\ NoDup (map mt_Name tools) /\ (length tools <= maxDiscoveredTools)%nat.
Proof.
  intros fuel. unfold Tools. repeat case_match; try (split_and!; by eauto).
  set (define := mcp_definition _ _ _ _). split_and!.
  - apply (mcp_pages_end _ cursors); [done | set_solver | by constructor | lia].
  - intros more. apply mcp_pages_more, (mcp_pages_end _ cursors); [done | set_solver | by constructor | lia].
  - intros definitions Hr. apply (mcp_pages_Ok _ _ _ _ _ _ _ []) in Hr as (all & -> & Hd & Ho & Hl);
      [eauto 6 | done | constructor | constructor | cbn; lia].
Qed.

(** A server that answers every page with a fresh cursor and no tools keeps the
    discovery going for ever: the tools are counted, the pages are not. *)
Theorem mcp_discovery_may_never_end {C} (CallTool : string -> C) namespace python
  (Hn : trim_dot namespace <> "") (Hp : trim_dot python <> "") :
  exists ListTools, (forall n c page, ListTools n c = Ok page -> tp_Tools page = [])
    /\ forall fuel, Tools ListTools CallTool fuel (mkProvider true namespace python None) = None.
Proof.
  exists (fun n _ => Ok (mkToolPage [] (fresh_cursor n))).
  split; [by intros n c page [= <-] |]. intros fuel. unfold Tools. cbn.
  rewrite !bool_decide_eq_false_2 by done.
  apply fresh_pages_go_on; [| set_solver]. intros k _ H. rewrite (right_id_L ∅ (∪)) in H. by apply elem_of_singleton in H.
Qed.

(** ** Witnesses *)

Definition demo_tool (path : string) : ToolSpec nat := mkToolSpec (Some 0%nat) true path "" (Some "{}") no_annotations.

Definition demo_manifest : Manifest nat :=
  list_to_map [("files.read", demo_tool ""); ("files:list", demo_tool "files.list"); ("files_all", demo_tool "")].

(** [files] collides with [files.read], which is not its neighbour by name. *)
Definition demo_collision : Manifest nat :=
  list_to_map [("zoo", demo_tool "files"); ("files.read", demo_tool ""); ("files0", demo_tool "")].

Lemma manifest_is_unambiguous_witness : acceptable_manifest demo_manifest /\ ~ acceptable_manifest demo_collision.
Proof.
  split; [apply (manifest_is_unambiguous map_to_list (fun _ => Permutation_refl _)); vm_compute; reflexivity |].
  intros H. apply (manifest_is_unambiguous map_to_list (fun _ => Permutation_refl _)) in H. vm_compute in H. discriminate H.
Defined.

Definition demo_pages (n : nat) (cursor : string) : res error ToolPage :=
  if bool_decide (cursor = "") then Ok (mkToolPage [mkMcpTool "read" "" None no_annotations] "next")
  else Ok (mkToolPage [mkMcpTool "write" "" (Some "{}") no_annotations] "").

Definition demo_provider : Provider := mkProvider true "mcp." "files" None.

Lemma mcp_discovery_is_bounded_witness :
  exists definitions, Tools demo_pages (fun name => name) 7 demo_provider = Some (Ok definitions)
    /\ map cap_Name definitions = ["mcp.read"; "mcp.write"].
Proof.
  assert (forall n c page, demo_pages n c = Ok page -> tp_NextCursor page ∈ ["next"; ""]) as Hc.
  { unfold demo_pages. intros n c page. case_bool_decide; intros [= <-]; [by left | by right; left]. }
  destruct (mcp_discovery_is_bounded demo_pages (fun name => name) demo_provider ["next"; ""] Hc) as (_ & Hmore & _).
  rewrite (Hmore 3%nat : Tools demo_pages (fun name => name) 7 demo_provider = _).
  eexists. split; reflexivity.
Defined.
