(* ===== verification/GoTime.v ===== *)
(** * GoTime: [time.Time] in UTC and its RFC 3339 text form

    A [time.Time] is its number of nanoseconds since the Unix epoch.  Wait
    deadlines are stored as text with [t.UTC().Format(time.RFC3339Nano)] and
    read back with [time.Parse]; both are written out over the proleptic
    Gregorian calendar. *)

From S2P Require Import Prelude.

Local Open Scope Z_scope.

Definition Time := Z.

Definition second : Z := 1000000000.

(** Civil date of a day number counted from 1970-01-01. *)
Definition civil_from_days (z0 : Z) : Z * Z * Z :=
  let z := z0 + 719468 in
  let era := z / 146097 in
  let doe := z mod 146097 in
  let yoe := (doe - doe / 1460 + doe / 36524 - doe / 146096) / 365 in
  let doy := doe - (365 * yoe + yoe / 4 - yoe / 100) in
  let mp := (5 * doy + 2) / 153 in
  let d := doy - (153 * mp + 2) / 5 + 1 in
  let m := if mp <? 10 then mp + 3 else mp - 9 in
  let y := yoe + era * 400 + (if m <=? 2 then 1 else 0) in
  (y, m, d).

Definition days_from_civil (y0 m d : Z) : Z :=
  let y := if m <=? 2 then y0 - 1 else y0 in
  let era := y / 400 in
  let yoe := y mod 400 in
  let mp := (m + 9) mod 12 in
  let doy := (153 * mp + 2) / 5 + d - 1 in
  let doe := yoe * 365 + yoe / 4 - yoe / 100 + doy in
  era * 146097 + doe - 719468.

Definition days_in_month (y m : Z) : Z :=
  if m =? 2 then (if (y mod 4 =? 0) && (negb (y mod 100 =? 0) || (y mod 400 =? 0)) then 29 else 28)
  else if (m =? 4) || (m =? 6) || (m =? 9) || (m =? 11) then 30 else 31.

Definition digit_char (z : Z) : ascii := ascii_of_N (Z.to_N (48 + z mod 10)).

(** [n] in decimal, padded to [w] digits. *)
Fixpoint pad_digits (w : nat) (n : Z) (acc : string) : string :=
  match w with
  | O => acc
  | S w' => pad_digits w' (n / 10) (String (digit_char n) acc)
  end.

Definition year_text (y : Z) : string :=
  if y <? 0 then "-" +:+ pad_digits 4 (- y) ""
  else if y <? 10000 then pad_digits 4 y "" else pad_digits 5 y "".

(** Fraction digits with the trailing zeros removed. *)
Fixpoint trim_frac (w : nat) (n : Z) : string :=
  match w with
  | O => ""
  | S w' => if n mod 10 =? 0 then trim_frac w' (n / 10) else pad_digits w n ""
  end.

Definition frac_text (ns : Z) : string :=
  if ns =? 0 then "" else "." +:+ trim_frac 9 ns.

(** [t.UTC().Format(time.RFC3339Nano)]. *)
Definition format_rfc3339nano (t : Time) : string :=
  let secs := t / second in
  let ns := t mod second in
  let days := secs / 86400 in
  let sod := secs mod 86400 in
  let '(y, m, d) := civil_from_days days in
  year_text y +:+ "-" +:+ pad_digits 2 m "" +:+ "-" +:+ pad_digits 2 d "" +:+ "T"
  +:+ pad_digits 2 (sod / 3600) "" +:+ ":" +:+ pad_digits 2 (sod / 60 mod 60) "" +:+ ":"
  +:+ pad_digits 2 (sod mod 60) "" +:+ frac_text ns +:+ "Z".

(** Reading: [w] decimal digits at the front. *)
Fixpoint take_digits (w : nat) (acc : Z) (s : string) : option (Z * string) :=
  match w with
  | O => Some (acc, s)
  | S w' =>
      match s with
      | String c s' =>
          let n := Z.of_N (N_of_ascii c) - 48 in
          if (0 <=? n) && (n <=? 9) then take_digits w' (acc * 10 + n) s' else None
      | EmptyString => None
      end
  end.

Definition take_char (c : ascii) (s : string) : option string :=
  match s with
  | String d s' => if bool_decide (c = d) then Some s' else None
  | EmptyString => None
  end.

(** The fraction after the point, scaled to nanoseconds; digits past the ninth
    are read and dropped. *)
Fixpoint take_frac (w : nat) (acc : Z) (s : string) : Z * string :=
  match s with
  | String c s' =>
      let n := Z.of_N (N_of_ascii c) - 48 in
      if (0 <=? n) && (n <=? 9) then
        match w with
        | O => take_frac O acc s'
        | S w' => take_frac w' (acc * 10 + n) s'
        end
      else (acc * 10 ^ Z.of_nat w, s)
  | EmptyString => (acc * 10 ^ Z.of_nat w, s)
  end.

(** Zone: [Z] or a signed offset, as seconds east of UTC. *)
Definition take_zone (s : string) : option Z :=
  match s with
  | String c s' =>
      if bool_decide (c = "Z"%char) then (if bool_decide (s' = "") then Some 0 else None)
      else if bool_decide (c = "+"%char) || bool_decide (c = "-"%char) then
        '(h, s1) ← take_digits 2 0 s';
        s2 ← take_char ":" s1;
        '(m, s3) ← take_digits 2 0 s2;
        if bool_decide (s3 = "") && (h <=? 24) && (m <=? 60)
        then Some ((if bool_decide (c = "+"%char) then 1 else -1) * (h * 3600 + m * 60))
        else None
      else None
  | EmptyString => None
  end.

(** [time.Parse(time.RFC3339Nano, s)]. *)
Definition parse_rfc3339nano (s : string) : option Time :=
  '(y, s) ← take_digits 4 0 s; s ← take_char "-" s;
  '(mo, s) ← take_digits 2 0 s; s ← take_char "-" s;
  '(d, s) ← take_digits 2 0 s; s ← take_char "T" s;
  '(h, s) ← take_digits 2 0 s; s ← take_char ":" s;
  '(mi, s) ← take_digits 2 0 s; s ← take_char ":" s;
  '(sec, s) ← take_digits 2 0 s;
  '(ns, s) ← match s with
             | String c (String d' _ as s') =>
                 if bool_decide (c = "."%char) &&
                    (48 <=? Z.of_N (N_of_ascii d')) && (Z.of_N (N_of_ascii d') <=? 57)
                 then Some (take_frac 9 0 s') else Some (0, s)
             | _ => Some (0, s)
             end;
  off ← take_zone s;
  if (1 <=? mo) && (mo <=? 12) && (1 <=? d) && (d <=? days_in_month y mo)
     && (h <=? 23) && (mi <=? 59) && (sec <=? 59)
  then Some ((days_from_civil y mo d * 86400 + h * 3600 + mi * 60 + sec - off) * second + ns)
  else None.

(** Evaluation at boundary values. *)
Example format_epoch : format_rfc3339nano 0 = "1970-01-01T00:00:00Z".
Proof. vm_compute. reflexivity. Qed.

Example format_leap :
  format_rfc3339nano (951782399 * second + 120000000) = "2000-02-28T23:59:59.12Z".
Proof. vm_compute. reflexivity. Qed.

Example parse_format_leap :
  parse_rfc3339nano (format_rfc3339nano (951868800 * second + 5)) = Some (951868800 * second + 5).
Proof. vm_compute. reflexivity. Qed.

Example parse_before_epoch :
  parse_rfc3339nano (format_rfc3339nano (-1)) = Some (-1).
Proof. vm_compute. reflexivity. Qed.

Example parse_offset :
  parse_rfc3339nano "1970-01-01T01:00:00.5+01:00" = Some 500000000.
Proof. vm_compute. reflexivity. Qed.
