(* ===== verification/Store.v ===== *)
(** * Store: the SQLite-backed durable store ([durable/types.go], [durable/store.go])

    The three tables are finite maps keyed by their primary keys; a row is the
    Go record read from it.  A transaction sees the tables, rolls back when it
    returns an error and commits otherwise.  Two parameters stand for what is
    outside the program: [faults n] is the error the database returns for the
    [n]-th statement (if any), [others n] is what other connections committed
    to the tables just before the [n]-th transaction or autocommit query. *)

From S2P Require Import Prelude Errors Effects Json GoTime.

(** ** Data ([types.go]) *)

Definition StatusActive : string := "active".
Definition StatusWaiting : string := "waiting".
Definition StatusCompleted : string := "completed".
Definition StatusFailed : string := "failed".
Definition StatusCancelled : string := "cancelled".
Definition StatusBlocked : string := "blocked".

Definition CallPending : string := "pending".
Definition CallWaiting : string := "waiting".
Definition CallCompleted : string := "completed".

Definition MaxRunPayloadBytes : N := 64 * 2 ^ 20.
Definition maxRunIDBytes : N := 128.

Record Definition_ := mkDefinition {
  d_ID : string;
  d_Code : string;
  d_Seed : string;
  d_ArtifactSHA256 : string;
  d_EnvironmentVersion : string;
  d_Inputs : string;
  d_Tools : string
}.

Record Run := mkRun {
  r_Definition : Definition_;
  r_Status : string;
  r_Outcome : string;
  r_Reason : string
}.

Record Call := mkCall {
  c_RunID : string;
  c_Sequence : N;
  c_CallID : string;
  c_Tool : string;
  c_OperationKey : string;
  c_State : string;
  c_Arguments : string;
  c_Outcome : string
}.

Record LoggedCall := mkLoggedCall {
  lc_Sequence : N;
  lc_CallID : string;
  lc_Capability : string;
  lc_Arguments : string
}.

Record WaitSpec := mkWaitSpec {
  ws_Kind : string;
  ws_Request : string;
  ws_Deadline : option Time
}.

Record Decision := mkDecision { dec_Result : string; dec_Error : string }.

Record Wait := mkWait {
  w_ID : string;
  w_RunID : string;
  w_Sequence : N;
  w_Spec : WaitSpec;
  w_Decision : option Decision
}.

(** ** Tables ([store.go], [schema]) *)

(** A row of [waits]; [wr_deadline] is the nullable text column. *)
Record wait_row := mkWaitRow {
  wr_run_id : string;
  wr_sequence : N;
  wr_kind : string;
  wr_request : string;
  wr_deadline : option string;
  wr_resolved : bool;
  wr_decision_result : string;
  wr_decision_error : string
}.

Record tables := mkTables {
  t_runs : gmap string Run;
  t_calls : gmap (string * N) Call;
  t_waits : gmap string wait_row
}.

Definition empty_tables : tables := mkTables ∅ ∅ ∅.

Definition set_runs (t : tables) m := mkTables m (t_calls t) (t_waits t).
Definition set_calls (t : tables) m := mkTables (t_runs t) m (t_waits t).
Definition set_waits (t : tables) m := mkTables (t_runs t) (t_calls t) m.

(** ** Helpers of [store.go] *)

Definition validStatus (status : string) : bool :=
  bool_decide (status = StatusActive) || bool_decide (status = StatusWaiting)
  || bool_decide (status = StatusCompleted) || bool_decide (status = StatusFailed)
  || bool_decide (status = StatusCancelled) || bool_decide (status = StatusBlocked).

Definition terminalStatus (status : string) : bool :=
  bool_decide (status = StatusCompleted) || bool_decide (status = StatusFailed)
  || bool_decide (status = StatusCancelled).

Definition operationKey (runID : string) (sequence : N) : string :=
  runID +:+ "/" +:+ format_uint sequence.

Definition waitKey (runID : string) (sequence : N) : string :=
  runID +:+ "/wait/" +:+ format_uint sequence.

Definition encodeDeadline (deadline : option Time) : option string :=
  format_rfc3339nano <$> deadline.

Definition decodeDeadline (value : option string) : option Time :=
  match value with
  | None => None
  | Some s => if bool_decide (s = "") then None else parse_rfc3339nano s
  end.

(** [current > Max || additional > Max - current]: the second test is read
    only when the subtraction does not wrap. *)
Definition exceeds (current additional : N) : bool :=
  (MaxRunPayloadBytes <? current)%N || (sub64 MaxRunPayloadBytes current <? additional)%N.

Definition definitionPayload (d : Definition_) : N :=
  slen (d_ID d) + slen (d_Code d) + slen (d_Seed d) + slen (d_ArtifactSHA256 d)
  + slen (d_EnvironmentVersion d) + slen (d_Inputs d) + slen (d_Tools d).

Definition callPayload (call : LoggedCall) (opKey : string) : N :=
  slen (lc_CallID call) + slen (lc_Capability call) + slen opKey + slen (lc_Arguments call).

Definition waitPayload (waitID : string) (spec : WaitSpec) (deadline : option string) : N :=
  slen waitID + slen (ws_Kind spec) + slen (ws_Request spec) + from_option slen 0%N deadline.

Definition decisionPayload (decision : Decision) : N :=
  slen (dec_Result decision) + slen (dec_Error decision).

(** [newSize - oldSize] is read only when it does not wrap. *)
Definition replacementIncrease (oldOutcome newOutcome oldReason newReason : string) : N :=
  let oldSize := (slen oldOutcome + slen oldReason)%N in
  let newSize := (slen newOutcome + slen newReason)%N in
  if (newSize <=? oldSize)%N then 0%N else (newSize - oldSize)%N.

(** The three sums of [payloadSizeTx]'s query. *)
Definition run_bytes (r : Run) : N :=
  definitionPayload (r_Definition r) + slen (r_Outcome r) + slen (r_Reason r).

Definition call_bytes (c : Call) : N :=
  slen (c_CallID c) + slen (c_Tool c) + slen (c_OperationKey c) + slen (c_Arguments c)
  + slen (c_Outcome c).

Definition wait_bytes (waitID : string) (w : wait_row) : N :=
  slen waitID + slen (wr_kind w) + slen (wr_request w) + from_option slen 0%N (wr_deadline w)
  + slen (wr_decision_result w) + slen (wr_decision_error w).

Definition payload_size (t : tables) (runID : string) : N :=
  from_option run_bytes 0%N (t_runs t !! runID)
  + map_sum (fun (k : string * N) c => if bool_decide (k.1 = runID) then call_bytes c else 0%N)
      (t_calls t)
  + map_sum (fun (k : string) w =>
               if bool_decide (wr_run_id w = runID) then wait_bytes k w else 0%N) (t_waits t).

(** [SELECT COALESCE(MAX(sequence)+1,0) FROM calls WHERE run_id=?]. *)
Definition next_sequence (t : tables) (runID : string) : N :=
  map_fold (fun (k : string * N) _ acc =>
              if bool_decide (k.1 = runID) then N.max acc (k.2 + 1) else acc) 0%N (t_calls t).

(** [SELECT COUNT( * ) FROM calls WHERE run_id=?]. *)
Definition count_calls (t : tables) (runID : string) : N :=
  map_sum (fun (k : string * N) _ => if bool_decide (k.1 = runID) then 1%N else 0%N) (t_calls t).

(** The text of a constraint violation reported by the driver. *)
Definition constraint_error : error :=
  EMsg "sqlite3: constraint failed: UNIQUE constraint failed".

Definition isConstraint (err : error) : bool :=
  contains "constraint" (to_lower (error_text err)) || contains "unique" (to_lower (error_text err)).

(** [INSERT INTO runs]: the primary key must be free. *)
Definition insert_run (r : Run) (t : tables) : res error tables :=
  match t_runs t !! d_ID (r_Definition r) with
  | Some _ => Err constraint_error
  | None => Ok (set_runs t (<[d_ID (r_Definition r) := r]> (t_runs t)))
  end.

(** Some row of [calls] already holds this operation key. *)
Definition operation_key_taken (t : tables) (key : string) : bool :=
  map_fold (fun _ c acc => bool_decide (c_OperationKey c = key) || acc) false (t_calls t).

(** [INSERT INTO calls]: primary key, unique operation key, foreign key. *)
Definition insert_call (c : Call) (t : tables) : res error tables :=
  match t_calls t !! (c_RunID c, c_Sequence c), t_runs t !! c_RunID c with
  | None, Some _ =>
      if operation_key_taken t (c_OperationKey c) then Err constraint_error
      else Ok (set_calls t (<[(c_RunID c, c_Sequence c) := c]> (t_calls t)))
  | _, _ => Err constraint_error
  end.

(** Some row of [waits] already holds this (run_id, sequence). *)
Definition wait_position_taken (t : tables) (runID : string) (sequence : N) : bool :=
  map_fold (fun _ w acc =>
              (bool_decide (wr_run_id w = runID) && (wr_sequence w =? sequence)%N) || acc)
    false (t_waits t).

(** [INSERT INTO waits]: primary key, unique position, foreign key. *)
Definition insert_wait (waitID : string) (w : wait_row) (t : tables) : res error tables :=
  match t_waits t !! waitID, t_calls t !! (wr_run_id w, wr_sequence w) with
  | None, Some _ =>
      if wait_position_taken t (wr_run_id w) (wr_sequence w) then Err constraint_error
      else Ok (set_waits t (<[waitID := w]> (t_waits t)))
  | _, _ => Err constraint_error
  end.

Definition with_status (status : string) (r : Run) : Run :=
  mkRun (r_Definition r) status (r_Outcome r) (r_Reason r).

Definition with_state (state : string) (c : Call) : Call :=
  mkCall (c_RunID c) (c_Sequence c) (c_CallID c) (c_Tool c) (c_OperationKey c) state
    (c_Arguments c) (c_Outcome c).

Definition with_outcome (state outcome : string) (c : Call) : Call :=
  mkCall (c_RunID c) (c_Sequence c) (c_CallID c) (c_Tool c) (c_OperationKey c) state
    (c_Arguments c) outcome.

Definition with_decision (d : Decision) (w : wait_row) : wait_row :=
  mkWaitRow (wr_run_id w) (wr_sequence w) (wr_kind w) (wr_request w) (wr_deadline w)
    true (dec_Result d) (dec_Error d).

(** [scanWait]. *)
Definition scanWait (waitID : string) (w : wait_row) : Wait :=
  mkWait waitID (wr_run_id w) (wr_sequence w)
    (mkWaitSpec (wr_kind w) (wr_request w) (decodeDeadline (wr_deadline w)))
    (if wr_resolved w then Some (mkDecision (wr_decision_result w) (wr_decision_error w)) else None).

Definition validateDefinition (d : Definition_) : option error :=
  if bool_decide (d_ID d = "") then Some (EMsg "durable definition ID is required")
  else if (maxRunIDBytes <? slen (d_ID d))%N then Some (EMsg "durable definition ID is too long")
  else if (MaxRunPayloadBytes <? definitionPayload d)%N then Some (ESentinel ErrLimit)
  else if negb (bool_decide (d_Inputs d = "")) && negb (Json.valid (d_Inputs d))
  then Some (EMsg "durable definition inputs are not valid JSON")
  else if negb (bool_decide (d_Tools d = "")) && negb (Json.valid (d_Tools d))
  then Some (EMsg "durable definition tools are not valid JSON")
  else None.

(** ** Database access *)

Record world := mkWorld { w_tables : tables; w_ticks : nat }.

Definition DB (A : Type) : Type := M world A.

Section Database.
Variable faults : nat -> option error.
Variable others : nat -> tables -> tables.

(** One statement: it fails when the database says so. *)
Definition stmt {A} (f : tables -> res error (A * tables)) : DB A := fun w =>
  let w' := mkWorld (w_tables w) (S (w_ticks w)) in
  match faults (w_ticks w) with
  | Some e => (Err e, w')
  | None => match f (w_tables w) with
            | Ok (a, t) => (Ok a, mkWorld t (S (w_ticks w)))
            | Err e => (Err e, w')
            end
  end.

Definition query {A} (f : tables -> A) : DB A := stmt (fun t => Ok (f t, t)).
Definition exec (f : tables -> res error tables) : DB unit :=
  stmt (fun t => match f t with Ok t' => Ok (tt, t') | Err e => Err e end).
Definition exec_total (f : tables -> tables) : DB unit := exec (fun t => Ok (f t)).
Definition commit : DB unit := query (fun _ => tt).

(** What other connections committed before this transaction. *)
Definition interleave : DB unit := fun w =>
  (Ok tt, mkWorld (others (w_ticks w) (w_tables w)) (S (w_ticks w))).

(** [BeginTx], the body, and the deferred [Rollback] on an error. *)
Definition transaction {A} (body : DB A) : DB A := fun w0 =>
  let '(_, w) := interleave w0 in
  let '(r, w') := (query (fun _ => tt);;; body) w in
  match r with
  | Ok a => (Ok a, w')
  | Err e => (Err e, mkWorld (w_tables w) (w_ticks w'))
  end.

(** [s.db.QueryRowContext]: an autocommit query. *)
Definition db_query {A} (f : tables -> A) : DB A := interleave;;; query f.

Definition payloadSizeTx (runID : string) : DB N :=
  total <- query (fun t => payload_size t runID);;
  reject (MaxRunPayloadBytes <? total)%N ErrLimit;;;
  ret total.

(** ** Operations *)

Definition Create (definition : Definition_) : DB unit :=
  match validateDefinition definition with
  | Some e => fail e
  | None =>
      transaction (
        found <- query (fun t => bool_decide (is_Some (t_runs t !! d_ID definition)));;
        reject found ErrConflict;;;
        on_error (exec (insert_run (mkRun definition StatusActive "" "")))
          (fun err => if isConstraint err then ESentinel ErrConflict else err);;;
        commit)
  end.

Definition Get (runID : string) : DB Run :=
  row <- db_query (fun t => t_runs t !! runID);;
  match row with
  | None => fail ErrNotFound
  | Some run => ret run
  end.

(** [Claim]; [openRunLock n] is what locking the run's file gives at the
    [n]-th tick ([lock_unix.go]: [ErrBusy] when another process holds it). *)
Definition Claim (openRunLock : nat -> option error) (runID : string) : DB unit :=
  if bool_decide (runID = "") || (maxRunIDBytes <? slen runID)%N then fail ErrNotFound
  else
    Get runID;;;
    (fun w => match openRunLock (w_ticks w) with
              | Some e => (Err e, w)
              | None => (Ok tt, w)
              end).

(** The checks of [BeginCall] on a row that exists. *)
Definition match_call (runID : string) (call : LoggedCall) (status : string) (record : Call)
  : res error Call :=
  if negb (bool_decide (c_CallID record = lc_CallID call))
  then Err (historyMismatch runID (lc_Sequence call) HistoryMismatchCallID)
  else if negb (bool_decide (c_Tool record = lc_Capability call))
  then Err (historyMismatch runID (lc_Sequence call) HistoryMismatchCapability)
  else if negb (bool_decide (c_OperationKey record = operationKey runID (lc_Sequence call)))
  then Err (historyMismatch runID (lc_Sequence call) HistoryMismatchOperationKey)
  else if negb (bool_decide (c_Arguments record = lc_Arguments call))
  then Err (historyMismatch runID (lc_Sequence call) HistoryMismatchArguments)
  else if (bool_decide (c_State record = CallPending) || bool_decide (c_State record = CallWaiting))
          && (terminalStatus status || bool_decide (status = StatusBlocked))
  then Err (ESentinel ErrConflict)
  else Ok record.

Definition new_call (runID : string) (call : LoggedCall) : Call :=
  mkCall runID (lc_Sequence call) (lc_CallID call) (lc_Capability call)
    (operationKey runID (lc_Sequence call)) CallPending (lc_Arguments call) "".

(** The record and whether it was created by this call. *)
Definition BeginCall (runID : string) (call : LoggedCall) : DB (Call * bool) :=
  if (maxRunIDBytes <? slen runID)%N then fail ErrNotFound
  else transaction (
    run <- query (fun t => t_runs t !! runID);;
    match run with
    | None => fail ErrNotFound
    | Some run =>
        let status := r_Status run in
        row <- query (fun t => t_calls t !! (runID, lc_Sequence call));;
        match row with
        | Some record =>
            match match_call runID call status record with
            | Err e => fail e
            | Ok record => commit;;; ret (record, false)
            end
        | None =>
            reject (terminalStatus status || bool_decide (status = StatusBlocked)
                    || bool_decide (status = StatusWaiting)) ErrConflict;;;
            count <- query (fun t => next_sequence t runID);;
            reject (negb (count =? lc_Sequence call)%N)
              (historyMismatch runID (lc_Sequence call) HistoryMismatchSequence);;;
            current <- payloadSizeTx runID;;
            reject (exceeds current (callPayload call (operationKey runID (lc_Sequence call))))
              ErrLimit;;;
            on_error (exec (insert_call (new_call runID call)))
              (fun err => if isConstraint err
                          then historyMismatch runID (lc_Sequence call) HistoryMismatchSequence
                          else err);;;
            commit;;;
            ret (new_call runID call, true)
        end
    end).

Definition CompleteCall (runID : string) (sequence : N) (outcome : string) : DB string :=
  transaction (
    row <- query (fun t => t_calls t !! (runID, sequence));;
    match row with
    | None => fail ErrNotFound
    | Some c =>
        if bool_decide (c_State c = CallCompleted) then commit;;; ret (c_Outcome c)
        else if negb (bool_decide (c_State c = CallPending))
                && negb (bool_decide (c_State c = CallWaiting))
        then fail ErrConflict
        else
          current <- payloadSizeTx runID;;
          reject (exceeds current (replacementIncrease (c_Outcome c) outcome "" "")) ErrLimit;;;
          exec_total (fun t =>
            set_calls t (alter (with_outcome CallCompleted outcome) (runID, sequence) (t_calls t)));;;
          commit;;;
          ret outcome
    end).

Definition EnsureWait (runID : string) (sequence : N) (spec : WaitSpec) : DB Wait :=
  let waitID := waitKey runID sequence in
  transaction (
    row <- query (fun t => t_waits t !! waitID);;
    match row with
    | Some w => commit;;; ret (scanWait waitID w)
    | None =>
        let deadline := encodeDeadline (ws_Deadline spec) in
        call <- query (fun t => t_calls t !! (runID, sequence));;
        match call with
        | None => fail ErrNotFound
        | Some c =>
            reject (bool_decide (c_State c = CallCompleted)) ErrConflict;;;
            reject (negb (bool_decide (c_State c = CallPending))
                    && negb (bool_decide (c_State c = CallWaiting))) ErrConflict;;;
            run <- query (fun t => t_runs t !! runID);;
            match run with
            | None => fail ErrNotFound
            | Some run =>
                let status := r_Status run in
                reject (terminalStatus status || bool_decide (status = StatusBlocked)) ErrConflict;;;
                current <- payloadSizeTx runID;;
                reject (exceeds current (waitPayload waitID spec deadline)) ErrLimit;;;
                on_error (exec (insert_wait waitID
                  (mkWaitRow runID sequence (ws_Kind spec) (ws_Request spec) deadline false "" "")))
                  (fun err => if isConstraint err
                              then historyMismatch runID sequence HistoryMismatchSequence
                              else err);;;
                exec_total (fun t =>
                  set_calls t (alter (with_state CallWaiting) (runID, sequence) (t_calls t)));;;
                (if bool_decide (status = StatusActive)
                 then exec_total (fun t =>
                        set_runs t (alter (with_status StatusWaiting) runID (t_runs t)))
                 else ret tt);;;
                commit;;;
                ret (mkWait waitID runID sequence spec None)
            end
        end
    end).

Definition GetWait (waitID : string) : DB Wait :=
  row <- db_query (fun t => t_waits t !! waitID);;
  match row with
  | None => fail ErrNotFound
  | Some w => ret (scanWait waitID w)
  end.

Definition ResolveWait (waitID : string) (decision : Decision) : DB unit :=
  transaction (
    row <- query (fun t => t_waits t !! waitID);;
    match row with
    | None => fail ErrNotFound
    | Some w =>
        match w_Decision (scanWait waitID w) with
        | Some d =>
            if bool_decide (dec_Result d = dec_Result decision)
               && bool_decide (dec_Error d = dec_Error decision)
            then commit else fail ErrConflict
        | None =>
            current <- payloadSizeTx (wr_run_id w);;
            reject (exceeds current (decisionPayload decision)) ErrLimit;;;
            exec_total (fun t =>
              set_waits t (alter (fun w => if wr_resolved w then w else with_decision decision w)
                             waitID (t_waits t)));;;
            exec_total (fun t =>
              set_runs t (alter (fun r => if bool_decide (r_Status r = StatusWaiting)
                                          then with_status StatusActive r else r)
                            (wr_run_id w) (t_runs t)));;;
            commit
        end
    end).

Definition CallCount (runID : string) : DB N :=
  count <- db_query (fun t => count_calls t runID);;
  run <- db_query (fun t => t_runs t !! runID);;
  match run with
  | None => fail ErrNotFound
  | Some _ =>
      reject (2 ^ 32 - 1 <? count)%N ErrLimit;;;
      ret (u32 count)
  end.

Definition SetState (runID status outcome reason : string) : DB unit :=
  if negb (validStatus status)
  then fail (EMsg ("invalid durable run status " +:+ quote status))
  else transaction (
    row <- query (fun t => t_runs t !! runID);;
    match row with
    | None => fail ErrNotFound
    | Some run =>
        if terminalStatus (r_Status run) then
          if bool_decide (r_Status run = status) && bool_decide (r_Outcome run = outcome)
             && bool_decide (r_Reason run = reason)
          then commit else fail ErrConflict
        else
          current <- payloadSizeTx runID;;
          reject (exceeds current
                    (replacementIncrease (r_Outcome run) outcome (r_Reason run) reason)) ErrLimit;;;
          exec_total (fun t =>
            set_runs t (alter (fun r => mkRun (r_Definition r) status outcome reason)
                          runID (t_runs t)));;;
          commit
    end).

Definition hasCall (runID : string) (sequence : N) : DB bool :=
  db_query (fun t => bool_decide (is_Some (t_calls t !! (runID, sequence)))).

(** The rows of [readCompleted]: the contiguous run of completed calls from
    [from], at most [n] of them, cut after the one that reaches 1 MiB. *)
Fixpoint completed_window (t : tables) (runID : string) (from : N) (n : nat) (size : N)
  : list Call :=
  match n with
  | O => []
  | S n' =>
      match t_calls t !! (runID, from) with
      | Some c =>
          if bool_decide (c_State c = CallCompleted) then
            let size' := (size + slen (c_Arguments c) + slen (c_Outcome c))%N in
            c :: (if (2 ^ 20 <=? size')%N then [] else completed_window t runID (from + 1) n' size')
          else []
      | None => []
      end
  end.

Definition readCompleted (runID : string) (from : N) : DB (list Call) :=
  db_query (fun t => completed_window t runID from 64 0).
End Database.

(** ** The schema version check of [configure]: what a store opens. *)
Definition schemaVersion : N := 3.

(** The user_version left behind, or the refusal. *)
Definition configure (version : N) : res error N :=
  if negb (version =? 0)%N && negb (version =? schemaVersion)%N
  then Err (EMsg ("unsupported durable schema version " +:+ format_uint version))
  else Ok (if (version =? 0)%N then schemaVersion else version).
