(* ===== verification/StoreSpec.v ===== *)
(** * StoreSpec: the contract of the durable store and its refinement

    [store_step] is the abstract specification: the six ways a committed
    transaction may change the tables, with their preconditions.  [ok_post]
    is a small program logic for transaction bodies; with it every operation
    of [Store] is shown to commit one [store_step] or to leave the tables as
    it found them, whatever the database's faults and the other connections
    do.  The rest of the file is about [store_step]: the table invariant, the
    payload bound and the monotonicity of durable state. *)

From S2P Require Import Prelude Errors Effects Json GoTime Store.

(** ** Abstract transitions *)

Inductive store_event :=
| EvCreate (definition : Definition_)
| EvBegin (runID : string) (call : LoggedCall)
| EvComplete (runID : string) (sequence : N) (outcome : string)
| EvWait (runID : string) (sequence : N) (spec : WaitSpec)
| EvResolve (waitID : string) (decision : Decision)
| EvState (runID status outcome reason : string).

Definition wait_of (runID : string) (sequence : N) (spec : WaitSpec) : wait_row :=
  mkWaitRow runID sequence (ws_Kind spec) (ws_Request spec)
    (encodeDeadline (ws_Deadline spec)) false "" "".

Definition call_open (c : Call) : Prop :=
  c_State c = CallPending \/ c_State c = CallWaiting.

Inductive store_step : store_event -> tables -> tables -> Prop :=
| step_create d t :
    validateDefinition d = None ->
    t_runs t !! d_ID d = None ->
    store_step (EvCreate d) t
      (set_runs t (<[d_ID d := mkRun d StatusActive "" ""]> (t_runs t)))
| step_begin runID call run t :
    (slen runID <= maxRunIDBytes)%N ->
    t_runs t !! runID = Some run ->
    terminalStatus (r_Status run) = false ->
    r_Status run <> StatusBlocked -> r_Status run <> StatusWaiting ->
    t_calls t !! (runID, lc_Sequence call) = None ->
    next_sequence t runID = lc_Sequence call ->
    exceeds (payload_size t runID)
      (callPayload call (operationKey runID (lc_Sequence call))) = false ->
    store_step (EvBegin runID call) t
      (set_calls t (<[(runID, lc_Sequence call) := new_call runID call]> (t_calls t)))
| step_complete runID sequence outcome c t :
    t_calls t !! (runID, sequence) = Some c ->
    call_open c ->
    exceeds (payload_size t runID) (replacementIncrease (c_Outcome c) outcome "" "") = false ->
    store_step (EvComplete runID sequence outcome) t
      (set_calls t (<[(runID, sequence) := with_outcome CallCompleted outcome c]> (t_calls t)))
| step_wait runID sequence spec c run t :
    t_waits t !! waitKey runID sequence = None ->
    t_calls t !! (runID, sequence) = Some c ->
    call_open c ->
    t_runs t !! runID = Some run ->
    terminalStatus (r_Status run) = false -> r_Status run <> StatusBlocked ->
    exceeds (payload_size t runID)
      (waitPayload (waitKey runID sequence) spec (encodeDeadline (ws_Deadline spec))) = false ->
    store_step (EvWait runID sequence spec) t
      (mkTables
         (if bool_decide (r_Status run = StatusActive)
          then <[runID := with_status StatusWaiting run]> (t_runs t) else t_runs t)
         (<[(runID, sequence) := with_state CallWaiting c]> (t_calls t))
         (<[waitKey runID sequence := wait_of runID sequence spec]> (t_waits t)))
| step_resolve waitID decision w t :
    t_waits t !! waitID = Some w ->
    wr_resolved w = false ->
    exceeds (payload_size t (wr_run_id w)) (decisionPayload decision) = false ->
    store_step (EvResolve waitID decision) t
      (mkTables
         (alter (fun r => if bool_decide (r_Status r = StatusWaiting)
                          then with_status StatusActive r else r) (wr_run_id w) (t_runs t))
         (t_calls t)
         (<[waitID := with_decision decision w]> (t_waits t)))
| step_state runID status outcome reason run t :
    validStatus status = true ->
    t_runs t !! runID = Some run ->
    terminalStatus (r_Status run) = false ->
    exceeds (payload_size t runID)
      (replacementIncrease (r_Outcome run) outcome (r_Reason run) reason) = false ->
    store_step (EvState runID status outcome reason) t
      (set_runs t (<[runID := mkRun (r_Definition run) status outcome reason]> (t_runs t))).

Definition store_next (t t' : tables) : Prop := exists ev, store_step ev t t'.

Definition reachable (t : tables) : Prop := rtc store_next empty_tables t.

(** ** The table invariant *)

Definition valid_state (s : string) : Prop :=
  s = CallPending \/ s = CallWaiting \/ s = CallCompleted.

Record wf (t : tables) : Prop := {
  wf_run : forall id r, t_runs t !! id = Some r ->
    d_ID (r_Definition r) = id /\ validateDefinition (r_Definition r) = None
    /\ validStatus (r_Status r) = true;
  wf_call : forall run s c, t_calls t !! (run, s) = Some c ->
    c_RunID c = run /\ c_Sequence c = s /\ c_OperationKey c = operationKey run s
    /\ is_Some (t_runs t !! run) /\ valid_state (c_State c)
    /\ (c_State c <> CallCompleted -> c_Outcome c = "");
  wf_contiguous : forall run s s', is_Some (t_calls t !! (run, s)) -> (s' <= s)%N ->
    is_Some (t_calls t !! (run, s'));
  wf_wait : forall id w, t_waits t !! id = Some w ->
    id = waitKey (wr_run_id w) (wr_sequence w)
    /\ (exists c, t_calls t !! (wr_run_id w, wr_sequence w) = Some c
                  /\ c_State c <> CallPending)
    /\ (wr_resolved w = false -> wr_decision_result w = "" /\ wr_decision_error w = "");
  wf_payload : forall run, (payload_size t run <= MaxRunPayloadBytes)%N
}.

(** ** Durable state only grows *)

Definition call_le (c c' : Call) : Prop :=
  c_RunID c' = c_RunID c /\ c_Sequence c' = c_Sequence c /\ c_CallID c' = c_CallID c
  /\ c_Tool c' = c_Tool c /\ c_OperationKey c' = c_OperationKey c
  /\ c_Arguments c' = c_Arguments c
  /\ (c_State c = CallCompleted -> c' = c)
  /\ (c_State c = CallWaiting -> c_State c' <> CallPending).

Definition run_le (r r' : Run) : Prop :=
  r_Definition r' = r_Definition r /\ (terminalStatus (r_Status r) = true -> r' = r).

Definition wait_le (w w' : wait_row) : Prop :=
  wr_run_id w' = wr_run_id w /\ wr_sequence w' = wr_sequence w /\ wr_kind w' = wr_kind w
  /\ wr_request w' = wr_request w /\ wr_deadline w' = wr_deadline w
  /\ (wr_resolved w = true -> w' = w).

Record tables_le (t t' : tables) : Prop := {
  le_runs : forall id r, t_runs t !! id = Some r ->
    exists r', t_runs t' !! id = Some r' /\ run_le r r';
  le_calls : forall k c, t_calls t !! k = Some c ->
    exists c', t_calls t' !! k = Some c' /\ call_le c c';
  le_waits : forall id w, t_waits t !! id = Some w ->
    exists w', t_waits t' !! id = Some w' /\ wait_le w w'
}.

(** ** A program logic for transactions *)

(** Started on the tables [t], the body either fails or ends well in [Q]. *)
Definition ok_post {A} (m : DB A) (t : tables) (Q : A -> tables -> Prop) : Prop :=
  forall w, w_tables w = t ->
    match m w with
    | (Ok a, w') => Q a (w_tables w')
    | (Err _, _) => True
    end.

(** A whole operation on the tables [t] it finds: [Q] on success, no change on
    an error. *)
Definition op_post {A} (others : nat -> tables -> tables) (m : DB A)
    (Q : tables -> A -> tables -> Prop) : Prop :=
  forall w,
    match m w with
    | (Ok a, w') => Q (others (w_ticks w) (w_tables w)) a (w_tables w')
    | (Err _, w') => w_tables w' = others (w_ticks w) (w_tables w) \/ w_tables w' = w_tables w
    end.

Section Logic.
Variable faults : nat -> option error.
Variable others : nat -> tables -> tables.

Lemma ok_ret {A} (a : A) t Q : Q a t -> ok_post (ret a) t Q.
Proof. intros HQ w <-. done. Qed.

Lemma ok_fail {A} e t (Q : A -> tables -> Prop) : ok_post (fail e) t Q.
Proof. done. Qed.

Lemma ok_bind {A B} (m : DB A) (f : A -> DB B) t Q :
  ok_post m t (fun a t' => ok_post (f a) t' Q) -> ok_post (bind m f) t Q.
Proof.
  intros Hm w Hw. specialize (Hm w Hw). unfold bind.
  destruct (m w) as [[a | e] w']; [| done]. by apply Hm.
Qed.

Lemma ok_exec f t Q :
  (forall t', f t = Ok t' -> Q tt t') -> ok_post (exec faults f) t Q.
Proof.
  intros HQ w <-. unfold exec, stmt.
  destruct (faults _); [done |]. destruct (f (w_tables w)) eqn:Hf; [| done]. by apply HQ.
Qed.

Lemma ok_query {A} (f : tables -> A) t Q : Q (f t) t -> ok_post (query faults f) t Q.
Proof. intros HQ w <-. unfold query, stmt. by destruct (faults _). Qed.

Lemma ok_exec_total f t Q : Q tt (f t) -> ok_post (exec_total faults f) t Q.
Proof. intros HQ. apply ok_exec. by intros t' [= <-]. Qed.

Lemma ok_commit t Q : Q tt t -> ok_post (commit faults) t Q.
Proof. apply (ok_query (fun _ => tt)). Qed.

Lemma ok_reject b e t Q : (b = false -> Q tt t) -> ok_post (reject b e) t Q.
Proof. intros HQ w <-. destruct b; [done |]. by apply HQ. Qed.

Lemma ok_on_error {A} (m : DB A) h t Q : ok_post m t Q -> ok_post (on_error m h) t Q.
Proof.
  intros Hm w Hw. specialize (Hm w Hw). unfold on_error. by destruct (m w) as [[] ?].
Qed.

Lemma ok_payload runID t Q :
  Q (payload_size t runID) t -> ok_post (payloadSizeTx faults runID) t Q.
Proof.
  intros HQ. apply ok_bind, ok_query, ok_bind, ok_reject. intros _. by apply ok_ret.
Qed.

Lemma op_transaction {A} (body : DB A) (Q : tables -> A -> tables -> Prop) :
  (forall t, ok_post body t (Q t)) -> op_post others (transaction faults others body) Q.
Proof.
  intros Hb w. unfold transaction. simpl.
  set (w1 := mkWorld (others (w_ticks w) (w_tables w)) (S (w_ticks w))).
  assert (ok_post (query faults (fun _ => tt);;; body) (w_tables w1) (Q (w_tables w1))) as H
    by (apply ok_bind, ok_query, Hb).
  specialize (H w1 eq_refl).
  destruct ((query faults (fun _ => tt);;; body) w1) as [[a | e] w2]; [done |]. by left.
Qed.

Lemma op_fail {A} e (Q : tables -> A -> tables -> Prop) : op_post others (fail e) Q.
Proof. intros w. by right. Qed.

Lemma op_db_query {A} (f : tables -> A) :
  op_post others (db_query faults others f) (fun t a t' => t' = t /\ a = f t).
Proof. intros w. unfold db_query, bind, interleave, query, stmt. simpl.
  destruct (faults _); simpl; auto.
Qed.
End Logic.

(** Runs a transaction body symbolically; leaves the guards as hypotheses. *)
Ltac ok_step :=
  first
  [ apply ok_fail
  | apply ok_ret
  | apply ok_bind
  | apply ok_payload
  | apply ok_query
  | apply ok_commit
  | apply ok_exec_total
  | apply ok_on_error
  | apply ok_exec; intros ? ?
  | apply ok_reject; intros ?
  | match goal with |- ok_post _ _ _ => case_match end ].
Ltac ok_run := repeat ok_step; guards.

(** ** Every operation refines the specification *)

Lemma match_call_Ok runID call status r r' :
  match_call runID call status r = Ok r' ->
  r' = r /\ c_CallID r = lc_CallID call /\ c_Tool r = lc_Capability call
  /\ c_OperationKey r = operationKey runID (lc_Sequence call)
  /\ c_Arguments r = lc_Arguments call
  /\ (call_open r -> terminalStatus status = false /\ status <> StatusBlocked).
Proof.
  unfold match_call. repeat case_match; intros; simplify_eq; guards.
  split_and!; try done. intros Ho.
  match goal with H : _ && _ = false |- _ => apply andb_false_iff in H as [H | H] end;
    guards; [by destruct Ho | done].
Qed.

Lemma insert_wait_Ok id w t t' :
  insert_wait id w t = Ok t' -> t' = set_waits t (<[id := w]> (t_waits t)).
Proof. unfold insert_wait. repeat case_match; intros; by simplify_eq. Qed.

Section Refinement.
Variable faults : nat -> option error.
Variable others : nat -> tables -> tables.

Lemma create_post d :
  op_post others (Create faults others d) (fun t _ t' => store_step (EvCreate d) t t').
Proof.
  unfold Create. destruct (validateDefinition d) eqn:Hv; [apply op_fail |].
  apply op_transaction. intros t. ok_run.
  match goal with H : insert_run _ _ = _ |- _ => unfold insert_run in H end.
  simpl in *. case_match; simplify_eq. by constructor.
Qed.

Lemma get_post runID :
  op_post others (Get faults others runID)
    (fun t run t' => t' = t /\ t_runs t !! runID = Some run).
Proof.
  intros w. pose proof (op_db_query faults others (fun t => t_runs t !! runID) w) as H.
  unfold Get, bind at 1. destruct (db_query _ _ _ w) as [[[run |] | e] w']; simpl.
  - by destruct H as [-> ?].
  - left. by destruct H as [-> ?].
  - done.
Qed.

Lemma begin_post runID call :
  op_post others (BeginCall faults others runID call) (fun t p t' =>
    if p.2 : bool
    then store_step (EvBegin runID call) t t' /\ p.1 = new_call runID call
    else t' = t /\ t_calls t !! (runID, lc_Sequence call) = Some p.1
         /\ exists run, t_runs t !! runID = Some run
                        /\ match_call runID call (r_Status run) p.1 = Ok p.1).
Proof.
  unfold BeginCall. destruct (_ <? _)%N eqn:Hlen; [apply op_fail |].
  apply op_transaction. intros t. ok_run; simpl.
  - match goal with H : match_call _ _ _ _ = Ok _ |- _ =>
      pose proof (match_call_Ok _ _ _ _ _ H) as [-> _] end.
    eauto.
  - match goal with H : insert_call _ _ = _ |- _ => unfold insert_call in H end.
    simpl in *. repeat case_match; simplify_eq.
    split; [| done]. econstructor; eauto.
Qed.

Lemma complete_post runID sequence outcome :
  op_post others (CompleteCall faults others runID sequence outcome) (fun t winner t' =>
    (t' = t /\ exists c, t_calls t !! (runID, sequence) = Some c
                        /\ c_State c = CallCompleted /\ winner = c_Outcome c)
    \/ (store_step (EvComplete runID sequence outcome) t t' /\ winner = outcome)).
Proof.
  unfold CompleteCall. apply op_transaction. intros t. ok_run; [left; eauto | right].
  split; [| done].
  erewrite alter_present by done. econstructor; eauto.
  match goal with H : _ && _ = false |- _ => apply andb_false_iff in H as [H | H] end;
    guards; unfold call_open; eauto.
Qed.

Lemma ensure_post runID sequence spec :
  op_post others (EnsureWait faults others runID sequence spec) (fun t w t' =>
    (t' = t /\ exists row, t_waits t !! waitKey runID sequence = Some row
                          /\ w = scanWait (waitKey runID sequence) row)
    \/ (store_step (EvWait runID sequence spec) t t'
        /\ w = mkWait (waitKey runID sequence) runID sequence spec None)).
Proof.
  unfold EnsureWait. apply op_transaction. intros t.
  assert (forall c, negb (bool_decide (c_State c = CallPending))
                    && negb (bool_decide (c_State c = CallWaiting)) = false -> call_open c) as Hopen.
  { intros c H. apply andb_false_iff in H as [H | H]; guards; unfold call_open; auto. }
  ok_run; [left; eauto | right | right].
  all: match goal with H : insert_wait _ _ _ = _ |- _ => apply insert_wait_Ok in H as -> end.
  all: split; [| done]; simpl; erewrite alter_present by done; simpl.
  all: match goal with Hr : t_runs _ !! _ = Some ?r, Hc : t_calls _ !! _ = Some ?c |- _ =>
         pose proof (step_wait runID sequence spec c r t) as Hs end.
  - rewrite bool_decide_eq_true_2 in Hs by done. erewrite alter_present by done. by apply Hs; auto.
  - rewrite bool_decide_eq_false_2 in Hs by done. by apply Hs; auto.
Qed.

Lemma get_wait_post waitID :
  op_post others (GetWait faults others waitID) (fun t w t' =>
    t' = t /\ exists row, t_waits t !! waitID = Some row /\ w = scanWait waitID row).
Proof.
  intros w. pose proof (op_db_query faults others (fun t => t_waits t !! waitID) w) as H.
  unfold GetWait, bind at 1. destruct (db_query _ _ _ w) as [[[row |] | e] w']; simpl.
  - destruct H as [-> ?]. eauto.
  - left. by destruct H as [-> ?].
  - done.
Qed.

Lemma resolve_post waitID decision :
  op_post others (ResolveWait faults others waitID decision) (fun t _ t' =>
    (t' = t /\ exists row, t_waits t !! waitID = Some row /\ wr_resolved row = true
                          /\ wr_decision_result row = dec_Result decision
                          /\ wr_decision_error row = dec_Error decision)
    \/ store_step (EvResolve waitID decision) t t').
Proof.
  unfold ResolveWait. apply op_transaction. intros t. ok_run.
  - left. simpl in *. case_match; simplify_eq. eauto 6.
  - right. simpl in *. case_match; simplify_eq.
    erewrite alter_present by done. case_match; [congruence |].
    by apply (step_resolve waitID decision w t).
Qed.

Lemma set_state_post runID status outcome reason :
  op_post others (SetState faults others runID status outcome reason) (fun t _ t' =>
    (t' = t /\ exists run, t_runs t !! runID = Some run
                          /\ run = mkRun (r_Definition run) status outcome reason
                          /\ terminalStatus status = true)
    \/ store_step (EvState runID status outcome reason) t t').
Proof.
  unfold SetState. destruct (negb (validStatus status)) eqn:Hv; [apply op_fail |].
  apply op_transaction. intros t. ok_run.
  - left. split; [done |]. eexists. split; [done |]. destruct r; simpl in *. by subst.
  - right. erewrite alter_present by done. econstructor; eauto.
Qed.

Lemma has_call_post runID sequence :
  op_post others (hasCall faults others runID sequence) (fun t b t' =>
    t' = t /\ b = bool_decide (is_Some (t_calls t !! (runID, sequence)))).
Proof. apply op_db_query. Qed.

Lemma read_completed_post runID from :
  op_post others (readCompleted faults others runID from) (fun t l t' =>
    t' = t /\ l = completed_window t runID from 64 0).
Proof. apply op_db_query. Qed.
End Refinement.
