(* ===== verification/StoreInv.v ===== *)
(** * StoreInv: invariants of the durable store

    Consequences of the contract in [StoreSpec]: every reachable table state
    is well formed and within the payload bound, call histories are
    contiguous, terminal runs, completed calls and resolved waits never
    change, and no insert the operations issue can violate a constraint. *)

From S2P Require Import Prelude Errors Effects Json GoTime Store StoreSpec.

(** ** Keys *)

Lemma operationKey_inj r s r' s' :
  operationKey r s = operationKey r' s' -> r = r' /\ s = s'.
Proof.
  unfold operationKey. intros Heq.
  change (r +:+ String "/" (format_uint s) = r' +:+ String "/" (format_uint s')) in Heq.
  apply last_sep_inj in Heq as [-> Hs]; [| apply format_uint_no_slash ..].
  by apply format_uint_inj in Hs.
Qed.

Lemma waitKey_inj r s r' s' : waitKey r s = waitKey r' s' -> r = r' /\ s = s'.
Proof.
  unfold waitKey. intros Heq.
  assert (forall r s, r +:+ "/wait/" +:+ format_uint s
                      = (r +:+ "/wait") +:+ String "/" (format_uint s)) as Hk.
  { intros. by rewrite str_app_assoc. }
  rewrite !Hk in Heq.
  apply last_sep_inj in Heq as [Hr Hs]; [| apply format_uint_no_slash ..].
  apply format_uint_inj in Hs. split; [| done].
  by apply str_app_inv_tail in Hr.
Qed.

(** ** Payload arithmetic *)

Lemma exceeds_false c a :
  (c < 2 ^ 64)%N -> exceeds c a = false <-> (c + a <= MaxRunPayloadBytes)%N.
Proof.
  intros Hc. unfold exceeds. rewrite orb_false_iff, N.ltb_ge, N.ltb_ge.
  split.
  - intros [H1 H2]. rewrite sub64_exact in H2 by (unfold MaxRunPayloadBytes in *; lia). lia.
  - intros H. split; [lia |]. rewrite sub64_exact by (unfold MaxRunPayloadBytes in *; lia). lia.
Qed.

Lemma exceeds_le c a :
  (c <= MaxRunPayloadBytes)%N -> exceeds c a = false -> (c + a <= MaxRunPayloadBytes)%N.
Proof. intros Hc. apply exceeds_false. unfold MaxRunPayloadBytes in Hc. lia. Qed.

Lemma replacementIncrease_le oo no orr nr :
  (slen no + slen nr <= slen oo + slen orr + replacementIncrease oo no orr nr)%N.
Proof. unfold replacementIncrease. case_match; guards; lia. Qed.

Lemma payload_set_run t id r run :
  (payload_size (set_runs t (<[id := r]> (t_runs t))) run
   + (if decide (run = id) then from_option run_bytes 0 (t_runs t !! id) else 0)
   = payload_size t run + (if decide (run = id) then run_bytes r else 0))%N.
Proof.
  unfold payload_size. simpl. rewrite lookup_insert.
  destruct (decide (id = run)), (decide (run = id)); subst; simpl; try done; lia.
Qed.

Lemma payload_set_call t k c run :
  (payload_size (set_calls t (<[k := c]> (t_calls t))) run
   + (if decide (k.1 = run) then from_option call_bytes 0 (t_calls t !! k) else 0)
   = payload_size t run + (if decide (k.1 = run) then call_bytes c else 0))%N.
Proof.
  unfold payload_size. simpl.
  match goal with |- context [map_sum ?f (<[k := c]> _)] =>
    pose proof (map_sum_set f (t_calls t) k c) as H end.
  destruct (t_calls t !! k); simpl in *; case_bool_decide; case_decide; subst; try done; lia.
Qed.

Lemma payload_set_wait t id w run :
  (forall w0, t_waits t !! id = Some w0 -> wr_run_id w0 = wr_run_id w) ->
  (payload_size (set_waits t (<[id := w]> (t_waits t))) run
   + (if decide (wr_run_id w = run) then from_option (wait_bytes id) 0 (t_waits t !! id) else 0)
   = payload_size t run + (if decide (wr_run_id w = run) then wait_bytes id w else 0))%N.
Proof.
  intros Hid. unfold payload_size. simpl.
  match goal with |- context [map_sum ?f (<[id := w]> _)] =>
    pose proof (map_sum_set f (t_waits t) id w) as H end.
  simpl in H. destruct (t_waits t !! id) as [w0 |] eqn:Hw; simpl in *.
  - specialize (Hid w0 eq_refl). rewrite Hid in H. case_bool_decide; case_decide; subst; try done; lia.
  - case_bool_decide; case_decide; subst; try done; lia.
Qed.

(** ** Sequences *)

Lemma next_sequence_spec t runID :
  (forall s, is_Some (t_calls t !! (runID, s)) -> (s < next_sequence t runID)%N)
  /\ (next_sequence t runID = 0%N
      \/ exists s, is_Some (t_calls t !! (runID, s)) /\ next_sequence t runID = (s + 1)%N).
Proof.
  unfold next_sequence. generalize (t_calls t). clear t. intros m.
  apply (map_fold_weak_ind (fun acc (m : gmap (string * N) Call) =>
    (forall s, is_Some (m !! (runID, s)) -> (s < acc)%N)
    /\ (acc = 0%N \/ exists s, is_Some (m !! (runID, s)) /\ acc = (s + 1)%N))).
  - split; [| by left]. intros s [? H]. by rewrite lookup_empty in H.
  - intros [r s0] c m' acc Hnone [IH1 IH2]. simpl. case_bool_decide as Hr; subst.
    + split.
      * intros s. rewrite lookup_insert. case_decide as Hd; [simplify_eq; lia |].
        intros Hs%IH1. lia.
      * right. destruct (decide (acc <= s0 + 1)%N).
        -- exists s0. rewrite lookup_insert_eq. split; [eauto | lia].
        -- destruct IH2 as [-> | (s & Hs & ->)]; [lia |].
           exists s. rewrite lookup_insert_ne; [split; [done | lia] |].
           intros [= ->]. by rewrite Hnone in Hs; destruct Hs.
    + split.
      * intros s. rewrite lookup_insert_ne by congruence. apply IH1.
      * destruct IH2 as [-> | (s & Hs & ->)]; [by left | right].
        exists s. by rewrite lookup_insert_ne by congruence.
Qed.

Lemma next_sequence_contiguous t runID s :
  wf t -> is_Some (t_calls t !! (runID, s)) <-> (s < next_sequence t runID)%N.
Proof.
  intros Hwf. destruct (next_sequence_spec t runID) as [H1 H2]. split; [apply H1 |].
  intros Hs. destruct H2 as [H0 | (s' & Hs' & Heq)]; [lia |].
  apply (wf_contiguous t Hwf runID s' s); [done | lia].
Qed.

(** ** Statuses *)

Lemma terminal_waiting : terminalStatus StatusWaiting = false.
Proof. reflexivity. Qed.

Lemma terminal_active : terminalStatus StatusActive = false.
Proof. reflexivity. Qed.

Lemma terminal_cancelled : terminalStatus StatusCancelled = true.
Proof. reflexivity. Qed.

(** ** Orders *)

#[export] Instance call_le_refl : Reflexive call_le.
Proof. intros c. unfold call_le. split_and!; try done. by intros ->. Qed.
#[export] Instance run_le_refl : Reflexive run_le.
Proof. done. Qed.
#[export] Instance wait_le_refl : Reflexive wait_le.
Proof. done. Qed.

#[export] Instance run_le_trans : Transitive run_le.
Proof.
  intros a b c [Hd Ht] [Hd' Ht']. split; [congruence |].
  intros H. pose proof (Ht H) as ->. by apply Ht'.
Qed.

#[export] Instance wait_le_trans : Transitive wait_le.
Proof.
  intros a b c (?&?&?&?&?&Ht) (?&?&?&?&?&Ht'). unfold wait_le. split_and!; try congruence.
  intros Hr. pose proof (Ht Hr) as ->. by apply Ht'.
Qed.

Lemma call_le_trans_valid a b c :
  valid_state (c_State b) -> call_le a b -> call_le b c -> call_le a c.
Proof.
  intros Hv (?&?&?&?&?&?&Hc&Hw) (?&?&?&?&?&?&Hc'&Hw'). unfold call_le.
  split_and!; try congruence.
  - intros Ha. pose proof (Hc Ha) as ->. by apply Hc'.
  - intros Ha. destruct Hv as [Hb | [Hb | Hb]]; [by apply Hw in Ha | by apply Hw' |].
    rewrite (Hc' Hb), Hb. done.
Qed.

#[export] Instance tables_le_refl : Reflexive tables_le.
Proof. intros t. split; intros; eexists; (split; [done | reflexivity]). Qed.

Lemma tables_le_trans t1 t2 t3 :
  wf t2 -> tables_le t1 t2 -> tables_le t2 t3 -> tables_le t1 t3.
Proof.
  intros Hwf H12 H23. split.
  - intros id r Hr. destruct (le_runs _ _ H12 id r Hr) as (r2 & Hr2 & Hle).
    destruct (le_runs _ _ H23 id r2 Hr2) as (r3 & Hr3 & Hle'). exists r3.
    split; [done | by etrans].
  - intros [run s] c Hc. destruct (le_calls _ _ H12 _ c Hc) as (c2 & Hc2 & Hle).
    destruct (le_calls _ _ H23 _ c2 Hc2) as (c3 & Hc3 & Hle'). exists c3. split; [done |].
    eapply call_le_trans_valid; eauto. by apply (wf_call _ Hwf) in Hc2 as (?&?&?&?&?&?).
  - intros id w Hw. destruct (le_waits _ _ H12 id w Hw) as (w2 & Hw2 & Hle).
    destruct (le_waits _ _ H23 id w2 Hw2) as (w3 & Hw3 & Hle'). exists w3.
    split; [done | by etrans].
Qed.

(** Pointwise criterion: a single row of each table changes. *)
Lemma tables_le_rows t t' :
  (forall id r, t_runs t !! id = Some r ->
     exists r', t_runs t' !! id = Some r' /\ (r' = r \/ run_le r r')) ->
  (forall k c, t_calls t !! k = Some c ->
     exists c', t_calls t' !! k = Some c' /\ (c' = c \/ call_le c c')) ->
  (forall id w, t_waits t !! id = Some w ->
     exists w', t_waits t' !! id = Some w' /\ (w' = w \/ wait_le w w')) ->
  tables_le t t'.
Proof.
  intros Hr Hc Hw. split.
  - intros id r H. destruct (Hr id r H) as (r' & ? & [-> | ?]); [| by eauto].
    exists r. split; [done | reflexivity].
  - intros k c H. destruct (Hc k c H) as (c' & ? & [-> | ?]); [| by eauto].
    exists c. split; [done | reflexivity].
  - intros id w H. destruct (Hw id w H) as (w' & ? & [-> | ?]); [| by eauto].
    exists w. split; [done | reflexivity].
Qed.

Lemma lookup_grow {K V} `{Countable K} (R : V -> V -> Prop) (m : gmap K V) k v i x :
  (forall v0, m !! k = Some v0 -> R v0 v) ->
  m !! i = Some x -> exists x', <[k := v]> m !! i = Some x' /\ (x' = x \/ R x x').
Proof.
  intros HR Hi. rewrite lookup_insert. case_decide as Hk; [subst | eauto].
  exists v. split; [done |]. right. by apply HR.
Qed.

Lemma with_outcome_le outcome c : call_open c -> call_le c (with_outcome CallCompleted outcome c).
Proof. intros [H | H]; unfold call_le; simpl; rewrite H; by split_and!. Qed.

Lemma with_state_le c : call_open c -> call_le c (with_state CallWaiting c).
Proof. intros [H | H]; unfold call_le; simpl; rewrite H; by split_and!. Qed.

Lemma store_step_le ev t t' : store_step ev t t' -> tables_le t t'.
Proof.
  intros Hs. apply tables_le_rows; destruct Hs; simpl; eauto.
  all: intros i x Hi.
  all: try (eapply lookup_grow; [| exact Hi]; intros v0 Hv0; simplify_eq;
            first [ by apply with_outcome_le | by apply with_state_le | done ]).
  - case_match; [| eauto]. eapply lookup_grow; [| exact Hi]. intros v0 Hv0. simplify_eq.
    split; [done | congruence].
  - rewrite lookup_alter. case_decide; [subst; rewrite Hi; simpl | by eauto].
    eexists. split; [reflexivity |]. right. case_bool_decide as Hst; [| done].
    split; [done |]. rewrite Hst, terminal_waiting. done.
  - eapply lookup_grow; [| exact Hi]. intros v0 Hv0. simplify_eq.
    split; [done | congruence].
  - eapply lookup_grow; [| exact Hi]. intros v0 Hv0. simplify_eq.
    unfold wait_le. split_and!; try done. congruence.
Qed.

(** ** Preservation *)

Lemma wf_empty : wf empty_tables.
Proof.
  split; simpl.
  - intros id r H. by rewrite lookup_empty in H.
  - intros run s c H. by rewrite lookup_empty in H.
  - intros run s s' [? H]. by rewrite lookup_empty in H.
  - intros id w H. by rewrite lookup_empty in H.
  - intros run. unfold payload_size. simpl. rewrite lookup_empty, !map_sum_empty. simpl.
    unfold MaxRunPayloadBytes. lia.
Qed.

Lemma validateDefinition_payload d :
  validateDefinition d = None -> (definitionPayload d <= MaxRunPayloadBytes)%N.
Proof. unfold validateDefinition. repeat case_match; intros; simplify_eq; guards; lia. Qed.

(** A run that does not exist owns no bytes. *)
Lemma payload_absent t run : wf t -> t_runs t !! run = None -> payload_size t run = 0%N.
Proof.
  intros Hwf Hnone. unfold payload_size. rewrite Hnone. simpl.
  assert (forall r s c, t_calls t !! (r, s) = Some c -> r <> run) as Hc.
  { intros r s c H ->. apply (wf_call t Hwf) in H as (_&_&_&[? H]&_). congruence. }
  rewrite (map_sum_zero _ (t_calls t)), (map_sum_zero _ (t_waits t)); [done | |].
  - intros id w Hw. apply (wf_wait t Hwf) in Hw as (_&(c & Hw & _)&_). apply Hc in Hw.
    by rewrite bool_decide_eq_false_2.
  - intros [r s] c Hk. apply Hc in Hk. by rewrite bool_decide_eq_false_2.
Qed.

(** The part of one call in its run's payload. *)
Lemma call_bytes_le t run s c :
  t_calls t !! (run, s) = Some c -> (call_bytes c <= payload_size t run)%N.
Proof.
  intros Hc. unfold payload_size.
  pose proof (map_sum_lookup_le (fun (k : string * N) c =>
    if bool_decide (k.1 = run) then call_bytes c else 0%N) _ _ _ Hc) as H.
  simpl in H. rewrite bool_decide_eq_true_2 in H by done. lia.
Qed.

Lemma run_bytes_le t run r :
  t_runs t !! run = Some r -> (run_bytes r <= payload_size t run)%N.
Proof. intros Hr. unfold payload_size. rewrite Hr. simpl. lia. Qed.

(** Status changes and call state changes move no bytes. *)
Lemma payload_runs_ext t m run :
  from_option run_bytes 0%N (m !! run) = from_option run_bytes 0%N (t_runs t !! run) ->
  payload_size (set_runs t m) run = payload_size t run.
Proof. intros H. unfold payload_size. simpl. by rewrite H. Qed.

Ltac bytes :=
  unfold run_bytes, call_bytes, wait_bytes, callPayload, waitPayload, decisionPayload in *;
  simpl in *; change (slen "") with 0%N in *.

Lemma payload_step ev t t' run :
  wf t -> store_step ev t t' -> (payload_size t' run <= MaxRunPayloadBytes)%N.
Proof.
  intros Hwf Hs. pose proof (fun r => wf_payload t Hwf r) as Hp.
  destruct Hs as [ d t Hv Hnone | id call r t _ Hr _ _ _ Hnone _ Hex
                 | id s o c t Hc Ho Hex | id s spec c r t Hw Hc Ho Hr _ _ Hex
                 | wid d w t Hw Hres Hex | id st o re r t _ Hr _ Hex ].
  - pose proof (payload_set_run t (d_ID d) (mkRun d StatusActive "" "") run) as Hset.
    pose proof (payload_absent t (d_ID d) Hwf Hnone) as H0.
    apply validateDefinition_payload in Hv. specialize (Hp run).
    case_decide; subst; [| lia]. rewrite Hnone in Hset. bytes. lia.
  - pose proof (payload_set_call t (id, lc_Sequence call) (new_call id call) run) as Hset.
    rewrite Hnone in Hset. simpl in Hset. apply exceeds_le in Hex; [| apply Hp].
    specialize (Hp run). case_decide; subst; [| lia].
    bytes. lia.
  - pose proof (payload_set_call t (id, s) (with_outcome CallCompleted o c) run) as Hset.
    rewrite Hc in Hset. simpl in Hset. apply exceeds_le in Hex; [| apply Hp].
    pose proof (call_bytes_le t id s c Hc). specialize (Hp run). case_decide; subst; [| lia].
    pose proof (replacementIncrease_le (c_Outcome c) o "" "").
    bytes. lia.
  - apply exceeds_le in Hex; [| apply Hp].
    assert (payload_size (mkTables (if bool_decide (r_Status r = StatusActive)
              then <[id := with_status StatusWaiting r]> (t_runs t) else t_runs t)
              (<[(id, s) := with_state CallWaiting c]> (t_calls t))
              (<[waitKey id s := wait_of id s spec]> (t_waits t))) run
            = payload_size (set_waits (set_calls t (<[(id, s) := with_state CallWaiting c]> (t_calls t)))
                (<[waitKey id s := wait_of id s spec]> (t_waits t))) run) as ->.
    { apply (payload_runs_ext (set_waits (set_calls t _) _)). simpl. case_bool_decide; [| done].
      rewrite lookup_insert. case_decide; [subst; by rewrite Hr | done]. }
    set (t1 := set_calls t _).
    pose proof (payload_set_wait t1 (waitKey id s) (wait_of id s spec) run) as Hset.
    pose proof (payload_set_call t (id, s) (with_state CallWaiting c) run) as Hset1.
    fold t1 in Hset1. rewrite Hc in Hset1. simpl in Hset, Hset1. rewrite Hw in Hset.
    specialize (Hset ltac:(done)). specialize (Hp run).
    bytes. case_decide; subst; lia.
  - apply exceeds_le in Hex; [| apply Hp].
    pose proof (payload_set_wait t wid (with_decision d w) run) as Hset.
    rewrite Hw in Hset. specialize (Hset ltac:(intros w0 [= <-]; done)). simpl in Hset.
    assert (payload_size (mkTables
              (alter (fun r => if bool_decide (r_Status r = StatusWaiting)
                               then with_status StatusActive r else r) (wr_run_id w) (t_runs t))
              (t_calls t) (<[wid := with_decision d w]> (t_waits t))) run
            = payload_size (set_waits t (<[wid := with_decision d w]> (t_waits t))) run) as ->.
    { apply (payload_runs_ext (set_waits t _)). simpl. rewrite lookup_alter.
      case_decide; [subst | done]. destruct (t_runs t !! wr_run_id w); [simpl | done].
      by case_bool_decide. }
    apply (wf_wait t Hwf) in Hw as (_ & _ & Hempty). destruct (Hempty Hres) as [E1 E2].
    specialize (Hp run). bytes. rewrite E1, E2 in Hset. bytes. case_decide; subst; lia.
  - pose proof (payload_set_run t id (mkRun (r_Definition r) st o re) run) as Hset.
    apply exceeds_le in Hex; [| apply Hp]. pose proof (run_bytes_le t id r Hr).
    specialize (Hp run). rewrite Hr in Hset. simpl in Hset. case_decide; subst; [| lia].
    pose proof (replacementIncrease_le (r_Outcome r) o (r_Reason r) re).
    bytes. lia.
Qed.

Lemma open_not_completed c : call_open c -> c_State c <> CallCompleted.
Proof. by intros [-> | ->]. Qed.

(** Presence of calls after a step: only [EvBegin] adds one. *)
Lemma runs_kept ev t t' id :
  store_step ev t t' -> is_Some (t_runs t !! id) -> is_Some (t_runs t' !! id).
Proof.
  intros Hs [r Hr]. destruct (le_runs _ _ (store_step_le _ _ _ Hs) id r Hr) as (r' & ? & _). eauto.
Qed.

Lemma step_wf_run ev t t' id r :
  wf t -> store_step ev t t' -> t_runs t' !! id = Some r ->
  d_ID (r_Definition r) = id /\ validateDefinition (r_Definition r) = None
  /\ validStatus (r_Status r) = true.
Proof.
  intros Hwf Hs. pose proof (wf_run t Hwf) as Hrun. destruct Hs; simpl; try by apply Hrun.
  - rewrite lookup_insert. case_decide; [intros [= <-]; by subst | apply Hrun].
  - case_bool_decide; [| apply Hrun]. rewrite lookup_insert.
    case_decide; [intros [= <-]; subst; simpl | apply Hrun].
    match goal with H : t_runs t !! _ = Some _ |- _ => apply Hrun in H as (? & ? & _) end. done.
  - rewrite lookup_alter. case_decide; [subst | apply Hrun].
    destruct (t_runs t !! wr_run_id w) as [r0 |] eqn:Hr0; intros [= <-].
    apply Hrun in Hr0 as (? & ? & ?). by case_bool_decide.
  - rewrite lookup_insert. case_decide; [intros [= <-]; subst; simpl | apply Hrun].
    match goal with H : t_runs t !! _ = Some _ |- _ => apply Hrun in H as (? & ? & _) end. done.
Qed.

Definition call_wf (t : tables) (run : string) (s : N) (c : Call) : Prop :=
  c_RunID c = run /\ c_Sequence c = s /\ c_OperationKey c = operationKey run s
  /\ is_Some (t_runs t !! run) /\ valid_state (c_State c)
  /\ (c_State c <> CallCompleted -> c_Outcome c = "").

Lemma step_wf_call ev t t' run s c :
  wf t -> store_step ev t t' -> t_calls t' !! (run, s) = Some c -> call_wf t' run s c.
Proof.
  intros Hwf Hs Hc.
  assert (forall c, call_wf t run s c -> call_wf t' run s c) as Hmono.
  { intros c0 (?&?&?&Hr&?&?). pose proof (runs_kept ev t t' run Hs Hr). by split_and!. }
  pose proof (wf_call t Hwf) as Hcall. destruct Hs; simpl in Hc; try by apply Hmono, Hcall.
  all: rewrite lookup_insert in Hc; case_decide as Hd; [| by apply Hmono, Hcall].
  all: injection Hd as ? ?; subst; injection Hc as <-; apply Hmono.
  - unfold call_wf, new_call, valid_state. simpl. split_and!; eauto.
  - match goal with H : t_calls t !! _ = Some _ |- _ => apply Hcall in H as (?&?&?&?&?&?) end.
    unfold call_wf, valid_state. simpl. split_and!; naive_solver.
  - match goal with H : t_calls t !! _ = Some _ |- _ => apply Hcall in H as (?&?&?&?&?&Ho) end.
    unfold call_wf, valid_state. simpl. split_and!; auto. intros _. apply Ho.
    by apply open_not_completed.
Qed.

(** The positions of the call table after a step. *)
Lemma step_calls_dom ev t t' run s :
  store_step ev t t' ->
  is_Some (t_calls t' !! (run, s)) <->
  is_Some (t_calls t !! (run, s))
  \/ exists call, ev = EvBegin run call /\ s = lc_Sequence call.
Proof.
  intros Hs. split; [| intros [[c Hc] | (call & -> & ->)]].
  - destruct Hs; simpl; try by left.
    all: rewrite lookup_insert; case_decide as Hd; [injection Hd as ? ?; subst | by left].
    all: intros _; first [by left; eauto | by right; eauto].
  - destruct (le_calls _ _ (store_step_le _ _ _ Hs) _ c Hc) as (c' & ? & _). eauto.
  - inversion Hs; subst. simpl. rewrite lookup_insert_eq. eauto.
Qed.

Lemma step_wf_contiguous ev t t' run s s' :
  wf t -> store_step ev t t' ->
  is_Some (t_calls t' !! (run, s)) -> (s' <= s)%N -> is_Some (t_calls t' !! (run, s')).
Proof.
  intros Hwf Hs Hsome Hle. apply (step_calls_dom _ _ _ _ _ Hs).
  apply (step_calls_dom _ _ _ _ _ Hs) in Hsome as [H | (call & -> & ->)].
  - left. by apply (wf_contiguous t Hwf run s s').
  - destruct (decide (s' = lc_Sequence call)) as [-> | Hne]; [by right; eauto | left].
    inversion Hs; subst. apply next_sequence_contiguous; [done | lia].
Qed.

Lemma step_wf_wait ev t t' id w :
  wf t -> store_step ev t t' -> t_waits t' !! id = Some w ->
  id = waitKey (wr_run_id w) (wr_sequence w)
  /\ (exists c, t_calls t' !! (wr_run_id w, wr_sequence w) = Some c /\ c_State c <> CallPending)
  /\ (wr_resolved w = false -> wr_decision_result w = "" /\ wr_decision_error w = "").
Proof.
  intros Hwf Hs Hw.
  assert (forall run s c, t_calls t !! (run, s) = Some c -> c_State c <> CallPending ->
            exists c', t_calls t' !! (run, s) = Some c' /\ c_State c' <> CallPending) as Hmono.
  { intros run s c Hc Hp. destruct (le_calls _ _ (store_step_le _ _ _ Hs) _ c Hc) as (c' & Hc' & Hle).
    exists c'. split; [done |]. destruct Hle as (_&_&_&_&_&_&Hcc&Hcw).
    apply (wf_call t Hwf) in Hc as (_&_&_&_&Hv&_).
    destruct Hv as [Hv | [Hv | Hv]]; [done | by auto | by rewrite (Hcc Hv), Hv]. }
  assert (forall w, t_waits t !! id = Some w ->
    id = waitKey (wr_run_id w) (wr_sequence w)
    /\ (exists c, t_calls t' !! (wr_run_id w, wr_sequence w) = Some c /\ c_State c <> CallPending)
    /\ (wr_resolved w = false -> wr_decision_result w = "" /\ wr_decision_error w = "")) as Hold.
  { intros w0 H. apply (wf_wait t Hwf) in H as (? & (c & ? & ?) & ?). eauto. }
  destruct Hs; simpl in Hw; try by apply Hold.
  all: rewrite lookup_insert in Hw; case_decide; [subst; injection Hw as <- | by apply Hold].
  - simpl. split; [done |]. split; [| done]. eexists. by rewrite lookup_insert_eq.
  - match goal with H : t_waits t !! _ = Some _ |- _ => apply Hold in H as (? & ? & ?) end. done.
Qed.

Lemma store_step_wf ev t t' : wf t -> store_step ev t t' -> wf t'.
Proof.
  intros Hwf Hs. split.
  - intros. by eapply step_wf_run.
  - intros. by eapply step_wf_call.
  - intros. by eapply step_wf_contiguous.
  - intros. by eapply step_wf_wait.
  - intros. by eapply payload_step.
Qed.

Lemma rtc_wf t t' : wf t -> rtc store_next t t' -> wf t'.
Proof. intros Hwf Hr. induction Hr as [| ? ? ? [ev Hs]]; [done |]. eauto using store_step_wf. Qed.

Lemma rtc_le t t' : wf t -> rtc store_next t t' -> tables_le t t'.
Proof.
  intros Hwf Hr. induction Hr as [| t1 t2 t3 [ev Hs] Hr IH]; [reflexivity |].
  pose proof (store_step_wf _ _ _ Hwf Hs). eapply tables_le_trans; eauto using store_step_le.
Qed.

Lemma reachable_wf_lemma t : reachable t -> wf t.
Proof. apply rtc_wf, wf_empty. Qed.
#[export] Hint Resolve store_step_wf store_step_le reachable_wf_lemma rtc_wf rtc_le : pysolate.
