(* ===== verification/StoreProps.v ===== *)
(** * StoreProps: what the durable store promises

    The properties of the store, each an application of the lemmas of
    [StoreSpec] and [StoreInv], with concrete instances. *)

From S2P Require Import Prelude Errors Effects Json GoTime Store StoreSpec StoreInv.

(** ** The operations as one interface *)

Inductive op :=
| OpCreate (d : Definition_)
| OpGet (runID : string)
| OpBeginCall (runID : string) (call : LoggedCall)
| OpCompleteCall (runID : string) (sequence : N) (outcome : string)
| OpEnsureWait (runID : string) (sequence : N) (spec : WaitSpec)
| OpGetWait (waitID : string)
| OpResolveWait (waitID : string) (decision : Decision)
| OpSetState (runID status outcome reason : string)
| OpHasCall (runID : string) (sequence : N)
| OpReadCompleted (runID : string) (from : N).

Section Ops.
Variable faults : nat -> option error.
Variable others : nat -> tables -> tables.

Definition run_op (o : op) : DB unit :=
  match o with
  | OpCreate d => Create faults others d
  | OpGet id => Get faults others id;;; ret tt
  | OpBeginCall id call => BeginCall faults others id call;;; ret tt
  | OpCompleteCall id s out => CompleteCall faults others id s out;;; ret tt
  | OpEnsureWait id s spec => EnsureWait faults others id s spec;;; ret tt
  | OpGetWait id => GetWait faults others id;;; ret tt
  | OpResolveWait id d => ResolveWait faults others id d
  | OpSetState id st out re => SetState faults others id st out re
  | OpHasCall id s => hasCall faults others id s;;; ret tt
  | OpReadCompleted id from => readCompleted faults others id from;;; ret tt
  end.

(** A sequence of operations, each started whatever the previous returned. *)
Fixpoint run_ops (l : list op) (w : world) : world :=
  match l with
  | [] => w
  | o :: l' => run_ops l' (run_op o w).2
  end.
End Ops.

Definition no_faults : nat -> option error := fun _ => None.
Definition no_others : nat -> tables -> tables := fun _ t => t.
Definition start : world := mkWorld empty_tables 0.

Lemma op_post_unit {A} others (m : DB A) (Q : tables -> A -> tables -> Prop) :
  op_post others m Q -> op_post others (m;;; ret tt) (fun t _ t' => exists a, Q t a t').
Proof.
  intros Hm w. specialize (Hm w). unfold bind, ret.
  destruct (m w) as [[a | e] w']; eauto.
Qed.

Lemma op_post_mono {A} others (m : DB A) (Q Q' : tables -> A -> tables -> Prop) :
  (forall t a t', Q t a t' -> Q' t a t') -> op_post others m Q -> op_post others m Q'.
Proof.
  intros HQ Hm w. specialize (Hm w). destruct (m w) as [[a | e] w']; eauto.
Qed.

Lemma run_op_post faults others o :
  op_post others (run_op faults others o)
    (fun t _ t' => t' = t \/ exists ev, store_step ev t t').
Proof.
  destruct o; simpl.
  - eapply op_post_mono; [| apply create_post]. intros t ? t' H. right. eexists. exact H.
  - eapply op_post_mono; [| apply op_post_unit, get_post]. intros t ? t' (a & H). left. apply H.
  - eapply op_post_mono; [| apply op_post_unit, begin_post].
    intros t ? t' [[r []] H]; simpl in H; [right | left]; [| apply H]. eexists. apply H.
  - eapply op_post_mono; [| apply op_post_unit, complete_post].
    intros t ? t' (a & [[H _] | [H _]]); eauto.
  - eapply op_post_mono; [| apply op_post_unit, ensure_post].
    intros t ? t' (a & [[H _] | [H _]]); eauto.
  - eapply op_post_mono; [| apply op_post_unit, get_wait_post]. intros t ? t' (a & H & _). eauto.
  - eapply op_post_mono; [| apply resolve_post]. intros t ? t' [[H _] | H]; eauto.
  - eapply op_post_mono; [| apply set_state_post]. intros t ? t' [[H _] | H]; eauto.
  - eapply op_post_mono; [| apply op_post_unit, has_call_post]. intros t ? t' (a & H & _). eauto.
  - eapply op_post_mono; [| apply op_post_unit, read_completed_post]. intros t ? t' (a & H & _). eauto.
Qed.

Lemma run_ops_reachable faults l w :
  reachable (w_tables w) -> reachable (w_tables (run_ops faults no_others l w)).
Proof.
  revert w. induction l as [| o l IH]; intros w Hw; simpl; [done |]. apply IH.
  pose proof (run_op_post faults no_others o w) as H. unfold no_others in H.
  destruct (run_op faults _ o w) as [[[] | e] w']; simpl.
  - destruct H as [-> | [ev Hs]]; [done |]. eapply rtc_r; [done |]. by exists ev.
  - by destruct H as [-> | ->].
Qed.

(** ** Properties *)

(** C1.  Every store operation, under any pattern of database failures and any
    interference of other connections, either commits exactly one transition
    of the store's specification or leaves the tables as it found them; an
    operation that returns an error changes nothing. *)
Theorem store_refines_specification faults others o w :
  let t := others (w_ticks w) (w_tables w) in
  match run_op faults others o w with
  | (Ok _, w') => w_tables w' = t \/ exists ev, store_step ev t (w_tables w')
  | (Err _, w') => w_tables w' = t \/ w_tables w' = w_tables w
  end.
Proof. apply run_op_post. Qed.

(** C2.  Every table state reachable through the store's transitions satisfies
    the table invariant: rows sit under their keys, histories are contiguous,
    every wait belongs to a started call, and each run's logical payload is
    within the 64 MiB limit. *)
Theorem reachable_tables_well_formed t : reachable t -> wf t.
Proof. apply reachable_wf_lemma. Qed.

(** Durable state only grows: definitions and call identities never
    change, a terminal run, a completed call and a resolved wait are frozen,
    and no row disappears. *)
Theorem durable_state_monotone t t' :
  reachable t -> rtc store_next t t' -> tables_le t t'.
Proof. intros Hr. apply rtc_le. auto with pysolate. Qed.

(** In a reachable state distinct calls have distinct operation keys, so
    the unique index on [operation_key] never rejects the row [BeginCall]
    inserts: only the primary key and the run's existence matter. *)
Theorem operation_keys_never_collide t runID call :
  reachable t -> is_Some (t_runs t !! runID) ->
  t_calls t !! (runID, lc_Sequence call) = None ->
  is_ok (insert_call (new_call runID call) t) = true.
Proof.
  intros Hr%reachable_wf_lemma [run Hrun] Hnone. unfold insert_call. simpl.
  rewrite Hnone, Hrun.
  assert (operation_key_taken t (operationKey runID (lc_Sequence call)) = false) as ->; [| done].
  unfold operation_key_taken. revert Hnone. pose proof (wf_call t Hr) as Hc. revert Hc.
  generalize (t_calls t). intros m.
  apply (map_fold_weak_ind (fun b (m : gmap (string * N) Call) =>
    (forall r s c, m !! (r, s) = Some c -> c_RunID c = r /\ c_Sequence c = s /\
       c_OperationKey c = operationKey r s /\ is_Some (t_runs t !! r) /\ valid_state (c_State c)
       /\ (c_State c <> CallCompleted -> c_Outcome c = "")) ->
    m !! (runID, lc_Sequence call) = None -> b = false)); [done |].
  intros [r s] c m' b Hk IH Hwf Hfree.
  destruct (Hwf r s c) as (_ & _ & Hkey & _); [by rewrite lookup_insert_eq |].
  rewrite bool_decide_eq_false_2.
  - simpl. apply IH.
    + intros r' s' c' Hm. apply (Hwf r' s' c'). rewrite lookup_insert_ne; [done |].
      intros [= -> ->]. congruence.
    + rewrite <- Hfree, lookup_insert_ne; [done |]. intros [= -> ->].
      by rewrite lookup_insert_eq in Hfree.
  - rewrite Hkey. intros [-> ->]%operationKey_inj. by rewrite lookup_insert_eq in Hfree.
Qed.

(** The limit test of [exceeds] is exact on every pair of 64-bit sizes: it
    accepts when and only when the sum is within the limit, with no wrap of
    the unsigned subtraction. *)
Theorem exceeds_is_exact current additional :
  (current < 2 ^ 64)%N ->
  exceeds current additional = false <-> (current + additional <= MaxRunPayloadBytes)%N.
Proof. apply exceeds_false. Qed.

(** ** Instances *)

Definition demo_definition : Definition_ :=
  mkDefinition "run-1" "result = tool.read(1)" "seed" "sha256:ab" "env-1" "{}" "[]".

Definition demo_call : LoggedCall := mkLoggedCall 0 "call-0" "tool.read" "[1]".

Definition demo_ops : list op :=
  [ OpCreate demo_definition; OpBeginCall "run-1" demo_call;
    OpEnsureWait "run-1" 0 (mkWaitSpec "approval" "{}" (Some 0%Z));
    OpResolveWait "run-1/wait/0" (mkDecision "true" "");
    OpCompleteCall "run-1" 0 "1" ].

Definition demo_tables : tables := w_tables (run_ops no_faults no_others demo_ops start).

Definition demo_after : tables :=
  w_tables (run_ops no_faults no_others
              [OpSetState "run-1" StatusCompleted "{}" ""] (mkWorld demo_tables 100)).

(** The transactions of the instance all commit. *)
Example demo_committed :
  c_State <$> t_calls demo_tables !! ("run-1", 0%N) = Some CallCompleted
  /\ r_Status <$> t_runs demo_after !! "run-1" = Some StatusCompleted
  /\ payload_size demo_after "run-1" = 122%N.
Proof. vm_compute. done. Qed.

Lemma demo_reachable : reachable demo_tables.
Proof. apply run_ops_reachable. by apply rtc_refl. Qed.

Lemma demo_after_next : rtc store_next demo_tables demo_after.
Proof.
  pose proof (run_op_post no_faults no_others (OpSetState "run-1" StatusCompleted "{}" "")
                (mkWorld demo_tables 100)) as H.
  unfold demo_after. unfold run_ops.
  destruct (run_op _ _ _ _) as [[[] | e] w'] eqn:Hop; simpl in *.
  - destruct H as [-> | [ev Hs]]; [by apply rtc_refl |]. apply rtc_once. by exists ev.
  - destruct H as [-> | ->]; by apply rtc_refl.
Qed.

Theorem reachable_tables_well_formed_witness : reachable demo_tables /\ wf demo_tables.
Proof. split; [apply demo_reachable | apply (reachable_tables_well_formed demo_tables), demo_reachable]. Defined.

Theorem durable_state_monotone_witness : tables_le demo_tables demo_after.
Proof. apply (durable_state_monotone demo_tables demo_after); [apply demo_reachable | apply demo_after_next]. Defined.

Theorem operation_keys_never_collide_witness :
  is_ok (insert_call (new_call "run-1" (mkLoggedCall 1 "call-1" "tool.read" "[2]")) demo_tables) = true.
Proof.
  apply (operation_keys_never_collide demo_tables "run-1" (mkLoggedCall 1 "call-1" "tool.read" "[2]")).
  - apply demo_reachable.
  - vm_compute. eauto.
  - vm_compute. reflexivity.
Defined.

Theorem exceeds_is_exact_witness : exceeds 5 7 = false <-> (5 + 7 <= MaxRunPayloadBytes)%N.
Proof. apply (exceeds_is_exact 5 7). reflexivity. Defined.
