(* ===== verification/Bridge.v ===== *)
(** * Bridge: the Guest's host calls ([bridge.go], [future.go], [runner.go])

    A Guest is the tree of the host calls the Wasm module makes: what it does
    next depends only on the bytes it was given back.  [exec_guest] runs one
    against the run state of [future.go], a manifest of Host tools and an
    optional journal, all at an abstract host state [S], so that the durable
    journal, the offline journal and the plain runner are instances. *)

From S2P Require Import Prelude Errors Effects Json Manifest.

(** ** Data *)

Definition maxMessage : N := 2 ^ 20.
Definition maxToolCalls : N := 1024.

Record callRequest := mkCallRequest { rq_Tool : string; rq_Args : string }.

(** What a Host tool returns: a value with the JSON [json.Marshal] writes for
    it, a value that cannot be encoded with the encoder's message, or an
    error. *)
Inductive tool_result :=
| ToolValue (json : string)
| ToolUnencodable (msg : string)
| ToolError (e : error).

Record guestExecutionResponse := mkResponse {
  ge_Value : string;
  ge_Error : string;
  ge_Transformed : string
}.

Record Output := mkOutput { o_Value : string; o_Stdout : string; o_Transformed : string }.

Definition no_output : Output := mkOutput "" "" "".

(** The Guest: [data] is the request it points at, [None] when the range is
    outside its memory; a reply of [None] is [^uint32(0)]. *)
Inductive guest :=
| GWrite (text : string) (k : bool -> guest)
| GCall (data : option string) (capacity : N) (k : option string -> guest)
| GPrepare (data : option string) (k : N -> guest)
| GResolve (id : N) (data : option string) (capacity : N) (k : option string -> guest)
| GReturn (response : guestExecutionResponse)
| GTrap (e : error) (stderr : string).

(** ** Pure parts of [bridge.go] *)

(** [encodeResponse]. *)
Definition encodeResponse (r : tool_result) : string :=
  match r with
  | ToolValue json => object_of [member "value" json]
  | ToolUnencodable msg =>
      object_of [member "error" (marshal_string ("tool result is not JSON: " +:+ msg))]
  | ToolError e =>
      object_of [member "value" "null"; member "error" (marshal_string (error_text e))]
  end.

(** [readRequest]; [json_error] gives the text of the decoder's complaint. *)
Definition readRequest (json_error : string -> error) (data : option string) : res error callRequest :=
  match data with
  | None => Err (EMsg "tool request outside ABI bounds")
  | Some text =>
      if (maxMessage <? slen text)%N then Err (EMsg "tool request outside ABI bounds")
      else if negb (Json.valid text) then Err (json_error text)
      else match object_members text with
           | None => if bool_decide (trim text = "null") then Ok (mkCallRequest "" "")
                     else Err (json_error text)
           | Some ms =>
               let '(tool, ok) := string_field "tool" ms in
               if ok then Ok (mkCallRequest tool (raw_field "args" ms)) else Err (json_error text)
           end
  end.

(** [writeResponse]: [None] is the failure code of the ABI. *)
Definition writeResponse (capacity : N) (data : string) : option string :=
  if (maxMessage <? slen data)%N || (capacity <? slen data)%N then None else Some data.

(** [boundedText.Write]. *)
Definition boundedWrite (b p : string) : string * bool :=
  if (maxMessage <? slen b + slen p)%N then (b, false) else (b +:+ p, true).

(** ** [json.Marshal] and [json.Unmarshal] of an [Output] *)

Definition marshal_output (o : Output) : option string :=
  (fun v => object_of [member "Value" v; member "Stdout" (marshal_string (o_Stdout o));
                       member "Transformed" (marshal_string (o_Transformed o))])
  <$> marshal_raw (o_Value o).

(** The output and whether the decoder was satisfied. *)
Definition unmarshal_output (s : string) : Output * bool :=
  if negb (Json.valid s) then (no_output, false)
  else match object_members s with
       | None => (no_output, bool_decide (trim s = "null"))
       | Some ms =>
           let '(out, ok1) := string_field "Stdout" ms in
           let '(tr, ok2) := string_field "Transformed" ms in
           (mkOutput (raw_field "Value" ms) out tr, ok1 && ok2)
       end.

(** ** The run state *)

Record future := mkFuture { fu_request : callRequest; fu_response : string }.

(** [runState]: the call budget, the future table, whether early reads are on
    and the journal's refusal. *)
Record runState := mkRunState {
  rs_calls : N;
  rs_controlErr : option error;
  rs_enabled : bool;
  rs_next : N;
  rs_futures : gmap N future
}.

Definition newRun (enabled : bool) : runState := mkRunState 0 None enabled 0 ∅.

Definition with_calls (n : N) (st : runState) : runState :=
  mkRunState n (rs_controlErr st) (rs_enabled st) (rs_next st) (rs_futures st).
Definition with_control (e : error) (st : runState) : runState :=
  mkRunState (rs_calls st) (Some e) (rs_enabled st) (rs_next st) (rs_futures st).
Definition with_futures (next : N) (fs : gmap N future) (st : runState) : runState :=
  mkRunState (rs_calls st) (rs_controlErr st) (rs_enabled st) next fs.

Section Bridge.
Context {S : Type}.

(** A Host tool of the manifest: whether it may be read early, and its call
    under an operation key. *)
Record HostTool := mkHostTool {
  ht_Call : option string -> string -> S -> tool_result * S;
  ht_AllowEarlyRead : bool
}.

(** [Journal.Call]; its last argument is [next]. *)
Record Journal := mkJournal {
  j_Call : string -> string -> (option string -> S -> string * S) -> M S string
}.

Variable json_error : string -> error.
Variable manifest : gmap string HostTool.
Variable journal : option Journal.

(** [Runner.dispatch]; [key] is the operation key of the context. *)
Definition dispatch (request : callRequest) (key : option string) (s : S) : string * S :=
  match manifest !! rq_Tool request with
  | None => (encodeResponse (ToolError (EMsg ("unknown tool: " +:+ rq_Tool request))), s)
  | Some spec =>
      let '(r, s') := ht_Call spec key (rq_Args request) s in
      (encodeResponse r, s')
  end.

(** [Runner.invoke]: [None] is the nil response of a stopped run. *)
Definition invoke (request : callRequest) (st : runState) (s : S)
  : option string * runState * S :=
  match rs_controlErr st with
  | Some _ => (None, st, s)
  | None =>
      if (maxToolCalls <=? rs_calls st)%N
      then (Some (encodeResponse (ToolError (EMsg "tool call budget exhausted"))), st, s)
      else
        let st' := with_calls (rs_calls st + 1) st in
        match journal with
        | Some j =>
            match j_Call j (rq_Tool request) (rq_Args request) (dispatch request) s with
            | (Ok response, s') => (Some response, st', s')
            | (Err e, s') => (None, with_control e st', s')
            end
        | None =>
            let '(response, s') := dispatch request None s in (Some response, st', s')
        end
  end.

(** [runState.prepare]; the worker runs where it is started. *)
Definition prepare (request : callRequest) (st : runState) (s : S) : N * runState * S :=
  match manifest !! rq_Tool request with
  | None => (0%N, st, s)
  | Some spec =>
      if negb (rs_enabled st) || negb (ht_AllowEarlyRead spec)
         || (64 <=? N.of_nat (size (rs_futures st)))%N || (maxToolCalls <=? rs_calls st)%N
      then (0%N, st, s)
      else
        let id := u32 (rs_next st + 1) in
        let '(r, s') := ht_Call spec None (rq_Args request) s in
        (id, with_calls (rs_calls st + 1)
               (with_futures id (<[id := mkFuture request (encodeResponse r)]> (rs_futures st)) st), s')
  end.

(** [runState.resolve]. *)
Definition resolve (id : N) (request : callRequest) (st : runState) (s : S)
  : option string * runState * S :=
  if (id =? 0)%N then invoke request st s
  else match rs_futures st !! id with
  | None =>
      (Some (encodeResponse (ToolError (EMsg "unknown or consumed future"))), st, s)
  | Some f =>
      let st' := with_futures (rs_next st) (delete id (rs_futures st)) st in
      if negb (bool_decide (rq_Tool (fu_request f) = rq_Tool request))
         || negb (bool_decide (rq_Args (fu_request f) = rq_Args request))
      then invoke request st' s
      else (Some (fu_response f), st', s)
  end.

(** How a Guest ends: it answered, it trapped with its diagnostics, or the
    journal stopped it with [journalExitCode]. *)
Inductive guest_end :=
| Answered (response : guestExecutionResponse)
| Trapped (e : error) (stderr : string)
| Stopped (e : error).

(** What [hostCall] and [hostResolve] do with a response. *)
Definition deliver (capacity : N) (p : option string * runState * S)
    (k : option string -> runState -> S -> guest_end * string * S) (stdout : string)
  : guest_end * string * S :=
  let '(response, st, s) := p in
  match rs_controlErr st with
  | Some e => (Stopped e, stdout, s)
  | None => k (writeResponse capacity (default "" response)) st s
  end.

(** The Guest's run: its end, its standard output and the host state. *)
Fixpoint exec_guest (g : guest) (st : runState) (stdout : string) (s : S)
  : guest_end * string * S :=
  match g with
  | GWrite text k =>
      let '(stdout', ok) := boundedWrite stdout text in exec_guest (k ok) st stdout' s
  | GCall data capacity k =>
      deliver capacity
        (match readRequest json_error data with
         | Err e => (Some (encodeResponse (ToolError e)), st, s)
         | Ok request => invoke request st s
         end) (fun r st' s' => exec_guest (k r) st' stdout s') stdout
  | GPrepare data k =>
      match readRequest json_error data with
      | Err _ => exec_guest (k 0%N) st stdout s
      | Ok request =>
          let '(id, st', s') := prepare request st s in exec_guest (k id) st' stdout s'
      end
  | GResolve id data capacity k =>
      deliver capacity
        (match readRequest json_error data with
         | Err e => (Some (encodeResponse (ToolError e)), st, s)
         | Ok request => resolve id request st s
         end) (fun r st' s' => exec_guest (k r) st' stdout s') stdout
  | GReturn response => (Answered response, stdout, s)
  | GTrap e stderr => (Trapped e stderr, stdout, s)
  end.

(** The result part of [Runner.run] and [runFailure]. *)
Definition run_result (e : guest_end) (stdout : string) : Output * option error :=
  match e with
  | Answered r =>
      let out := mkOutput (ge_Value r) stdout (ge_Transformed r) in
      if bool_decide (ge_Error r = "") then (out, None) else (out, Some (EPython (ge_Error r)))
  | Trapped e stderr => (mkOutput "" stdout "", Some (EWrap "" e stderr))
  | Stopped e => (mkOutput "" stdout "", Some e)
  end.

(** The Guest that the loaded artifact runs on a request, under a seed. *)
Variable artifact : string -> string -> guest.
Variable guestManifest : list guestToolSpec.

Definition encode_guest_tool (t : guestToolSpec) : string :=
  object_of [member "name" (marshal_string (gt_Name t));
             member "python_path" (marshal_string (gt_PythonPath t));
             member "allow_early_read" (if gt_AllowEarlyRead t then "true" else "false")].

(** [marshalRunRequest]. *)
Definition marshalRunRequest (source inputs : string) (earlyReads workspace : bool)
  : res error string :=
  match marshal_raw inputs with
  | None => Err (json_error inputs)
  | Some inputs =>
      let request := object_of
        [member "source" (marshal_string source); member "inputs" inputs;
         member "plm" (if earlyReads then "true" else "false");
         member "workspace" (if workspace then "true" else "false");
         member "manifest" (array_of (map encode_guest_tool guestManifest))] in
      if (maxMessage <? slen request)%N then Err (EMsg "request exceeds 1 MiB") else Ok request
  end.

(** [Runner.run] on a fresh Guest. *)
Definition run (source inputs seed : string) (earlyReads : bool) (s : S)
  : Output * option error * S :=
  match marshalRunRequest source inputs earlyReads false with
  | Err e => (no_output, Some e, s)
  | Ok request =>
      let '(e, stdout, s') := exec_guest (artifact seed request) (newRun earlyReads) "" s in
      (run_result e stdout, s')
  end.

(** [Runner.RunRecorded] on a runner whose prepared seed, if any, is
    [prepared]. *)
Definition RunRecorded (prepared : option string) (source inputs seed : string) (s : S)
  : Output * option error * S :=
  match journal with
  | None => (no_output, Some (EMsg "recorded runs require a journal and seed"), s)
  | Some _ =>
      if bool_decide (seed = "")
      then (no_output, Some (EMsg "recorded runs require a journal and seed"), s)
      else if negb (from_option (fun p => bool_decide (p = seed)) true prepared)
      then (no_output, Some (EMsg "prepared recording seed does not match"), s)
      else run source inputs seed false s
  end.
End Bridge.
Arguments HostTool : clear implicits.
Arguments Journal : clear implicits.
