(* ===== verification/Journal.v ===== *)
(** * Journal: recorded calls and their recovery ([durable/runner.go], the
    [journal] type and the scheduling of Host tools)

    Host code (the tools, their lookups and wait declarations, the observer)
    is the programmer's: it appears as functions of everything the Host has
    been asked so far.  The host state is the database world, the trace of the
    Host code that was entered, newest first, and the attempt's journal. *)

From S2P Require Import Prelude Errors Effects Json GoTime Store Manifest Bridge.

(** ** Declarations *)

Definition RetrySafe : string := "retry_safe".
Definition Idempotent : string := "idempotent".
Definition LookupMode : string := "lookup".
Definition Manual : string := "manual".
Definition WaitMode : string := "wait".

Definition Inline : string := "inline".
Definition ExternalIO : string := "external_io".

Definition ToolCall : string := "call".
Definition ToolLookup : string := "lookup".

Inductive ToolOutcome := ToolSucceeded | ToolFailed | ToolCancelled | ToolDeadline.

(** [ToolObservation], without its three measured durations. *)
Record ToolObservation := mkObservation {
  ob_Name : string;
  ob_Version : string;
  ob_Operation : string;
  ob_Scheduling : string;
  ob_OperationKey : string;
  ob_ArgumentBytes : N;
  ob_Outcome : ToolOutcome
}.

(** Host code that was entered: a tool's call, a lookup and a wait declaration
    under their operation key, an observation. *)
Inductive event :=
| EvDispatch (key : option string) (tool args : string)
| EvLookup (key : option string) (tool args : string)
| EvWaitDeclared (key : option string) (tool args : string)
| EvObserved (o : ToolObservation).

Definition LookupDone : string := "done".
Definition LookupPending : string := "pending".
Definition LookupSafeToDispatch : string := "safe_to_dispatch".
Definition LookupUnknown : string := "unknown".

(** [LookupResult]; a nil [Result] is [None]. *)
Record LookupResult := mkLookupResult {
  lr_State : string;
  lr_Result : option string;
  lr_Error : string
}.

(** Host code: given the trace, the context's operation key and the
    arguments. *)
Definition host_code (A : Type) : Type := list event -> option string -> string -> A.

(** The capability of a legacy declaration: none. *)
Definition no_capability : Capability (host_code tool_result) :=
  mkCapability "" (mkToolSpec None false "" "" None no_annotations).

Record Tool := mkTool {
  tl_Definition : Capability (host_code tool_result);
  tl_Name : string;
  tl_Version : string;
  tl_Call : option (host_code tool_result);
  tl_Recovery : string;
  tl_Lookup : option (host_code (res error LookupResult));
  tl_Wait : option (host_code (res error WaitSpec));
  tl_Scheduling : string;
  tl_Observed : bool
}.

(** ** The host state *)

Record journal_state := mkJournalState {
  js_sequence : N;
  js_history : list Call;
  js_live : bool
}.

Definition fresh_journal : journal_state := mkJournalState 0 [] false.

Record host := mkHost { h_db : world; h_trace : list event; h_journal : journal_state }.

Definition H (A : Type) : Type := M host A.

Definition set_db (w : world) (h : host) : host := mkHost w (h_trace h) (h_journal h).
Definition set_journal (j : journal_state) (h : host) : host := mkHost (h_db h) (h_trace h) j.
Definition emit (ev : event) (h : host) : host := mkHost (h_db h) (ev :: h_trace h) (h_journal h).

Definition on_db {A} (m : DB A) : H A := lift h_db set_db m.
Definition on_journal {A} (m : M journal_state A) : H A := lift h_journal set_journal m.
Definition emits (ev : event) : H unit := fun h => (Ok tt, emit ev h).

(** Enters Host code: the event is in the trace the code sees. *)
Definition enter {A} (ev : event) (code : option (host_code A)) (nil : A)
    (key : option string) (args : string) : host -> A * host := fun h =>
  let h' := emit ev h in
  (match code with Some f => f (h_trace h') key args | None => nil end, h').

Definition nil_call : error := EMsg "runtime error: invalid memory address or nil pointer dereference".

(** ** Scheduling of Host tools *)

(** [classifyToolOutcome]. *)
Definition classifyToolOutcome (err : option error) : ToolOutcome :=
  match err with
  | None => ToolSucceeded
  | Some e => if errors_is DeadlineExceeded e then ToolDeadline
              else if errors_is Canceled e then ToolCancelled else ToolFailed
  end.

Definition err_of {A} (r : res error A) : option error :=
  match r with Ok _ => None | Err e => Some e end.

Definition observation (tool : Tool) (operation : string) (key : option string) (args : string)
    (outcome : ToolOutcome) : ToolObservation :=
  mkObservation (tl_Name tool) (tl_Version tool) operation (tl_Scheduling tool)
    (default "" key) (slen args) outcome.

(** ** Wire outcomes *)

(** [encodeWireOutcome]. *)
Definition encodeWireOutcome (value : option string) (errorText : string) : string :=
  match marshal_raw_opt value with
  | Some v =>
      object_of (member "value" v ::
        (if bool_decide (errorText = "") then [] else [member "error" (marshal_string errorText)]))
  | None =>
      object_of [member "value" "null";
                 member "error" (quote_mark +:+ "durable outcome encoding failed" +:+ quote_mark)]
  end.

(** [lookupResponse]. *)
Definition lookupResponse (result : LookupResult) : res error string :=
  let text := default "" (lr_Result result) in
  if bool_decide (lr_Error result = "") && bool_decide (text = "")
  then Err (EMsg "lookup returned neither a result nor an error")
  else if negb (bool_decide (text = "")) && negb (Json.valid text)
  then Err (EMsg "lookup returned invalid JSON")
  else Ok (encodeWireOutcome (lr_Result result) (lr_Error result)).

(** A column read back: the empty text is NULL, hence nil. *)
Definition column (s : string) : option string :=
  if bool_decide (s = "") then None else Some s.

Section Journal.
(** The database's failures, the other connections, the wall clock at each
    tick, the executor's gate, and the tools of the runner. *)
Variable faults : nat -> option error.
Variable others : nat -> tables -> tables.
Variable now : nat -> Time.
Variable yieldExecution : list event -> option error.
Variable reacquireExecution : list event -> option error.
Variable tools : gmap string Tool.
Variable runID : string.

(** [executeScheduled]: the deferred observation comes last. *)
Definition executeScheduled {A} (tool : Tool) (operation : string) (key : option string)
    (args : string) (call : H A) : H A := fun h0 =>
  let '(r, h) :=
    if bool_decide (tl_Scheduling tool = ExternalIO) then
      match yieldExecution (h_trace h0) with
      | Some e => (Err e, h0)
      | None =>
          let '(r, h1) := call h0 in
          match join_errors (err_of r) (reacquireExecution (h_trace h1)) with
          | None => (r, h1)
          | Some e => (Err e, h1)
          end
      end
    else call h0 in
  (r, if tl_Observed tool
      then emit (EvObserved (observation tool operation key args (classifyToolOutcome (err_of r)))) h
      else h).

(** [tool.Call(ctx, args)] with Go's two results split. *)
Definition call_tool (tool : Tool) (key : option string) (args : string) : H tool_result :=
  fun h =>
    let '(r, h') := enter (EvDispatch key (tl_Name tool) args) (tl_Call tool) (ToolError nil_call)
                      key args h in
    match r with
    | ToolError e => (Err e, h')
    | _ => (Ok r, h')
    end.

(** [scheduledTool]. *)
Definition scheduledTool (tool : Tool) (key : option string) (args : string) (h : host)
  : tool_result * host :=
  match executeScheduled tool ToolCall key args (call_tool tool key args) h with
  | (Ok r, h') => (r, h')
  | (Err e, h') => (ToolError e, h')
  end.

(** The manifest [NewRunner] gives the core. *)
Definition durable_manifest : gmap string (HostTool host) :=
  (fun tool => mkHostTool (scheduledTool tool) false) <$> tools.

(** ** The journal *)

Definition nextCall : H N :=
  on_journal (js <- get;;
              put (mkJournalState (u32 (js_sequence js + 1)) (js_history js) (js_live js));;;
              ret (js_sequence js)).

Definition set_history (l : list Call) : H unit :=
  on_journal (js <- get;; put (mkJournalState (js_sequence js) l (js_live js))).

Definition set_live : H unit :=
  on_journal (js <- get;; put (mkJournalState (js_sequence js) (js_history js) true)).

(** The checks of a record replayed from the read-ahead window. *)
Definition replay_record (logged : LoggedCall) (record : Call) : res error string :=
  let mismatch f := Err (historyMismatch runID (lc_Sequence logged) f) in
  if negb (c_Sequence record =? lc_Sequence logged)%N then mismatch HistoryMismatchSequence
  else if negb (bool_decide (c_CallID record = lc_CallID logged)) then mismatch HistoryMismatchCallID
  else if negb (bool_decide (c_Tool record = lc_Capability logged))
  then mismatch HistoryMismatchCapability
  else if negb (bool_decide (c_Arguments record = lc_Arguments logged))
  then mismatch HistoryMismatchArguments
  else if negb (bool_decide (c_OperationKey record = operationKey runID (lc_Sequence logged)))
  then mismatch HistoryMismatchOperationKey
  else Ok (c_Outcome record).

(** The next record of the read-ahead window, which is refilled when empty;
    the journal goes live when the store has none. *)
Definition next_record (sequence : N) : H (option Call) :=
  js <- on_journal get;;
  if js_live js then ret None
  else
    history <- (match js_history js with
                | [] => on_db (readCompleted faults others runID sequence)
                | l => ret l
                end);;
    match history with
    | record :: rest => set_history rest;;; ret (Some record)
    | [] => set_history [];;; set_live;;; ret None
    end.

Definition complete (logged : LoggedCall) (response : string) : H string :=
  on_db (CompleteCall faults others runID (lc_Sequence logged) response).

Definition dispatchAndComplete (key : string) (logged : LoggedCall)
    (next : option string -> host -> string * host) : H string :=
  response <- (fun h => let '(r, h') := next (Some key) h in (Ok r, h'));;
  complete logged response.

(** [journal.lookup]. *)
Definition lookup_call (key : string) (logged : LoggedCall) (tool : Tool)
    (next : option string -> host -> string * host) : H string :=
  resolved <- executeScheduled tool ToolLookup (Some key) (lc_Arguments logged)
    (enter (EvLookup (Some key) (tl_Name tool) (lc_Arguments logged)) (tl_Lookup tool)
       (Err nil_call) (Some key) (lc_Arguments logged));;
  if bool_decide (lr_State resolved = LookupSafeToDispatch)
  then dispatchAndComplete key logged next
  else if bool_decide (lr_State resolved = LookupPending)
  then fail (EPark (mkParkError ParkLookup runID "" (lc_Sequence logged) "lookup pending"))
  else if bool_decide (lr_State resolved = LookupDone)
  then match lookupResponse resolved with
       | Ok response => complete logged response
       | Err e => fail (EWrap "" (ESentinel ErrBlocked) (": " +:+ error_text e))
       end
  else fail (EWrap "" (ESentinel ErrBlocked) ": lookup result is unknown").

Definition expired (w : Wait) (t : Time) : bool :=
  match w_Decision w, ws_Deadline (w_Spec w) with
  | None, Some deadline => negb (t <? deadline)%Z
  | _, _ => false
  end.

Definition clock : H Time := fun h => (Ok (now (w_ticks (h_db h))), h).

(** [journal.wait]. *)
Definition wait_call (key : string) (logged : LoggedCall) (tool : Tool) : H string :=
  let waitID := runID +:+ "/wait/" +:+ format_uint (lc_Sequence logged) in
  found <- try_ (on_db (GetWait faults others waitID));;
  wait <- (match found with
           | Ok w => ret w
           | Err e =>
               if errors_is ErrNotFound e then
                 spec <- enter (EvWaitDeclared (Some key) (tl_Name tool) (lc_Arguments logged))
                           (tl_Wait tool) (Err nil_call) (Some key) (lc_Arguments logged);;
                 on_db (EnsureWait faults others runID (lc_Sequence logged) spec)
               else fail e
           end);;
  t <- clock;;
  wait <- (if expired wait t then
             on_db (ResolveWait faults others (w_ID wait) (mkDecision "" "wait expired"));;;
             on_db (GetWait faults others (w_ID wait))
           else ret wait);;
  match w_Decision wait with
  | None => fail (EPark (mkParkError ParkWait runID (w_ID wait) (lc_Sequence logged)
                           "waiting for decision"))
  | Some d =>
      complete logged (encodeWireOutcome (column (dec_Result d)) (dec_Error d))
  end.

(** What is done with a call that has no outcome yet. *)
Definition recover (tool : string) (logged : LoggedCall) (record : Call) (created : bool)
    (next : option string -> host -> string * host) : H string :=
  let key := c_OperationKey record in
  match tools !! tool with
  | None => dispatchAndComplete key logged next
  | Some declared =>
      let mode := tl_Recovery declared in
      if created then
        if bool_decide (mode = WaitMode) then wait_call key logged declared
        else dispatchAndComplete key logged next
      else if bool_decide (mode = RetrySafe) || bool_decide (mode = Idempotent)
      then dispatchAndComplete key logged next
      else if bool_decide (mode = LookupMode) then lookup_call key logged declared next
      else if bool_decide (mode = Manual)
      then fail (EWrap "" (ESentinel ErrBlocked) ": manual recovery required")
      else if bool_decide (mode = WaitMode) then wait_call key logged declared
      else fail ErrInvalidRunner
  end.

(** [journal.Call]. *)
Definition journal_call (tool args : string) (next : option string -> host -> string * host)
  : H string :=
  sequence <- nextCall;;
  let logged := mkLoggedCall sequence ("call-" +:+ format_uint sequence) tool args in
  record <- next_record sequence;;
  match record with
  | Some record => of_res (replay_record logged record)
  | None =>
      begun <- on_db (BeginCall faults others runID logged);;
      let '(record, created) := begun in
      if bool_decide (c_State record = CallCompleted) then ret (c_Outcome record)
      else recover tool logged record created next
  end.

Definition durable_journal : Journal host := mkJournal journal_call.
End Journal.
