(* ===== verification/JournalSpec.v ===== *)
(** * JournalSpec: the effect discipline of recorded calls

    [ext] relates the host states before and after any part of an attempt: the
    store moved along its specification, Host code was entered, and every tool
    dispatch among it was reserved in the store first, belongs to a call that
    had no outcome, never goes to a wait tool, and for a manual tool happens
    only under the attempt that created the call, once.  The relation is a
    preorder, so it holds of whole sequences of attempts. *)

From S2P Require Import Prelude Errors Effects Json GoTime Store StoreSpec StoreInv Manifest Bridge Journal.

Definition tabs (h : host) : tables := w_tables (h_db h).

(** How often the tool was dispatched under a key. *)
Definition is_dispatch (key : option string) (ev : event) : bool :=
  match ev with EvDispatch k _ _ => bool_decide (k = key) | _ => false end.

Definition dispatches (key : option string) (tr : list event) : nat :=
  length (List.filter (is_dispatch key) tr).

Lemma dispatches_app key a b : dispatches key (a ++ b) = (dispatches key a + dispatches key b)%nat.
Proof. unfold dispatches. by rewrite List.filter_app, length_app. Qed.

Lemma dispatches_zero key tr :
  (forall tool args, EvDispatch key tool args ∉ tr) -> dispatches key tr = 0%nat.
Proof.
  induction tr as [| ev tr IH]; intros Hno; [done |].
  assert (dispatches key tr = 0%nat) as Htr.
  { apply IH. intros tool args Hin. apply (Hno tool args). by apply list_elem_of_further. }
  unfold dispatches in *. simpl. destruct (is_dispatch key ev) eqn:Hd; [| done].
  destruct ev; simpl in Hd; try done. guards. subst.
  destruct (Hno tool args). apply list_elem_of_here.
Qed.

Section Discipline.
Variable tools : gmap string Tool.
Variable runID : string.

(** One dispatch of the events [evs] between the tables [t] and [t']. *)
Definition dispatch_ok (t t' : tables) (evs : list event) (key : option string) (tool args : string)
  : Prop :=
  exists seq, key = Some (operationKey runID seq)
  /\ (exists c, t_calls t' !! (runID, seq) = Some c /\ c_Tool c = tool /\ c_Arguments c = args)
  /\ (forall c, t_calls t !! (runID, seq) = Some c -> c_State c <> CallCompleted)
  /\ (forall d, tools !! tool = Some d ->
        tl_Recovery d <> WaitMode
        /\ (tl_Recovery d = Manual -> t_calls t !! (runID, seq) = None /\ dispatches key evs = 1%nat)).

Record ext (h h' : host) : Prop := {
  ext_tables : rtc store_next (tabs h) (tabs h');
  ext_trace : exists evs, h_trace h' = evs ++ h_trace h
    /\ forall key tool args, EvDispatch key tool args ∈ evs ->
         dispatch_ok (tabs h) (tabs h') evs key tool args
}.

Lemma ext_same h h' :
  rtc store_next (tabs h) (tabs h') -> h_trace h' = h_trace h -> ext h h'.
Proof.
  intros Ht Htr. split; [done |]. exists []. split; [done |]. intros ? ? ? Hin. by apply elem_of_nil in Hin.
Qed.

Lemma ext_refl h : ext h h.
Proof. by apply ext_same. Qed.

Lemma completed_stays t t' k c :
  wf t -> rtc store_next t t' -> t_calls t !! k = Some c -> c_State c = CallCompleted ->
  t_calls t' !! k = Some c.
Proof.
  intros Hwf Hr Hc Hst. destruct (le_calls _ _ (rtc_le _ _ Hwf Hr) k c Hc) as (c' & Hc' & Hle).
  destruct Hle as (_&_&_&_&_&_&Hsame&_). by rewrite (Hsame Hst) in Hc'.
Qed.

Lemma call_stays t t' k c :
  wf t -> rtc store_next t t' -> t_calls t !! k = Some c ->
  exists c', t_calls t' !! k = Some c' /\ c_Tool c' = c_Tool c /\ c_Arguments c' = c_Arguments c.
Proof.
  intros Hwf Hr Hc. destruct (le_calls _ _ (rtc_le _ _ Hwf Hr) k c Hc) as (c' & Hc' & Hle).
  destruct Hle as (_&_&_&?&_&?&_). eauto.
Qed.

Lemma call_absent_before t t' k :
  wf t -> rtc store_next t t' -> t_calls t' !! k = None -> t_calls t !! k = None.
Proof.
  intros Hwf Hr Hnone. destruct (t_calls t !! k) as [c |] eqn:Hc; [| done].
  destruct (call_stays _ _ _ _ Hwf Hr Hc) as (c' & Hc' & _). congruence.
Qed.

Lemma ext_trans h1 h2 h3 : wf (tabs h1) -> ext h1 h2 -> ext h2 h3 -> ext h1 h3.
Proof.
  intros Hwf [Ht12 (e1 & Htr1 & H1)] [Ht23 (e2 & Htr2 & H2)].
  assert (wf (tabs h2)) as Hwf2 by (by eapply rtc_wf).
  split; [by etrans |]. exists (e2 ++ e1). split; [by rewrite Htr2, Htr1, app_assoc |].
  intros key tool args [Hin | Hin]%elem_of_app.
  - destruct (H2 key tool args Hin) as (seq & -> & Hrow & Hopen & Hmode).
    exists seq. split; [done |]. split; [done |]. split.
    { intros c Hc Hst. apply (Hopen c); [| done]. exact (completed_stays _ _ _ _ Hwf Ht12 Hc Hst). }
    intros d Hd. destruct (Hmode d Hd) as [Hw Hm]. split; [done |]. intros Hman.
    destruct (Hm Hman) as [Hnone Hone]. split; [exact (call_absent_before _ _ _ Hwf Ht12 Hnone) |].
    rewrite dispatches_app, Hone. rewrite dispatches_zero; [done |].
    intros tool' args' Hin'. destruct (H1 _ _ _ Hin') as (seq' & Hk & (c & Hc & _) & _).
    injection Hk as Hk. apply operationKey_inj in Hk as [_ <-]. congruence.
  - destruct (H1 key tool args Hin) as (seq & -> & (c & Hc & Htool & Hargs) & Hopen & Hmode).
    exists seq. split; [done |].
    destruct (call_stays _ _ _ _ Hwf2 Ht23 Hc) as (c' & Hc' & Htool' & Hargs').
    split; [exists c'; split_and!; congruence |]. split; [done |].
    intros d Hd. destruct (Hmode d Hd) as [Hw Hm]. split; [done |]. intros Hman.
    destruct (Hm Hman) as [Hnone Hone]. split; [done |].
    rewrite dispatches_app, Hone. rewrite dispatches_zero; [done |].
    intros tool' args' Hin'. destruct (H2 _ _ _ Hin') as (seq' & Hk & (c2 & Hc2 & Htool2 & _) & _ & Hmode').
    injection Hk as Hk. apply operationKey_inj in Hk as [_ <-].
    assert (tool' = tool) as -> by congruence.
    destruct (Hmode' d Hd) as [_ Hm']. destruct (Hm' Hman) as [Hnone' _]. congruence.
Qed.
End Discipline.

(** ** Host code that touches only the trace *)

Definition only_trace (h h' : host) (evs : list event) : Prop :=
  h_db h' = h_db h /\ h_journal h' = h_journal h /\ h_trace h' = evs ++ h_trace h.

Definition is_observation (ev : event) : Prop :=
  match ev with EvObserved _ => True | _ => False end.

(** Observations, and the one event of the call if it was entered. *)
Definition entered_once (ev : event) (evs : list event) : Prop :=
  exists obs tl, evs = obs ++ tl /\ Forall is_observation obs /\ (tl = [] \/ tl = [ev]).

Lemma observations_only evs key tool args :
  Forall is_observation evs -> EvDispatch key tool args ∉ evs.
Proof. intros Hobs Hin. by apply (list.Forall_forall _ _) with (x := EvDispatch key tool args) in Hobs. Qed.

Lemma entered_once_dispatch ev evs key tool args :
  entered_once ev evs -> EvDispatch key tool args ∈ evs ->
  ev = EvDispatch key tool args /\ dispatches key evs = 1%nat.
Proof.
  intros (obs & tl & -> & Hobs & Htl) [Hin | Hin]%elem_of_app.
  { by apply (observations_only _ _ _ _ Hobs) in Hin. }
  destruct Htl as [-> | ->]; [by apply elem_of_nil in Hin |].
  apply list_elem_of_singleton in Hin as <-. split; [done |].
  rewrite dispatches_app, dispatches_zero.
  - unfold dispatches. simpl. by rewrite bool_decide_eq_true_2.
  - intros tool' args' Hin. by apply (observations_only _ _ _ _ Hobs) in Hin.
Qed.

Section Scheduled.
Variable yieldExecution : list event -> option error.
Variable reacquireExecution : list event -> option error.

Lemma executeScheduled_quiet {A} tool operation key args (call : H A) ev h :
  (forall h, exists r, call h = (r, emit ev h)) ->
  exists r h' evs,
    executeScheduled yieldExecution reacquireExecution tool operation key args call h = (r, h')
    /\ only_trace h h' evs /\ entered_once ev evs.
Proof.
  intros Hcall. destruct (Hcall h) as [r Hr]. unfold executeScheduled.
  assert (forall (r : res error A) h1 evs1,
    only_trace h h1 evs1 -> (evs1 = [] \/ evs1 = [ev]) ->
    exists r' h' evs,
      (r, if tl_Observed tool
          then emit (EvObserved (observation tool operation key args
                                   (classifyToolOutcome (err_of r)))) h1
          else h1) = (r', h')
      /\ only_trace h h' evs /\ entered_once ev evs) as Hobs.
  { intros r1 h1 evs1 (Hdb & Hj & Htr) Hev.
    destruct (tl_Observed tool); eexists r1, _, _; (split; [done |]).
    - split; [split; [exact Hdb |]; split; [exact Hj |] |].
      + simpl. rewrite Htr. rewrite app_comm_cons. reflexivity.
      + eexists [_], evs1. split; [reflexivity |]. split; [| done]. by repeat constructor.
    - split; [split; [exact Hdb |]; split; [exact Hj |]; exact Htr |].
      exists [], evs1. auto. }
  destruct (bool_decide (tl_Scheduling tool = ExternalIO)).
  - destruct (yieldExecution (h_trace h)).
    + by apply (Hobs (Err e) h []); [| left].
    + rewrite Hr. destruct (join_errors _ _); apply (Hobs _ (emit ev h) [ev]); auto; done.
  - rewrite Hr. apply (Hobs r (emit ev h) [ev]); auto; done.
Qed.

Lemma call_tool_emits tool key args h :
  exists r, call_tool tool key args h = (r, emit (EvDispatch key (tl_Name tool) args) h).
Proof. unfold call_tool, enter. repeat case_match; eexists; reflexivity. Qed.

Lemma enter_emits {A} ev (code : option (host_code (res error A))) nil key args h :
  exists r, enter ev code nil key args h = (r, emit ev h).
Proof. by eexists. Qed.

(** What [next] does to the host state. *)
Lemma dispatch_quiet tools request key h :
  (forall name d, tools !! name = Some d -> tl_Name d = name) ->
  exists r h' evs,
    dispatch (durable_manifest yieldExecution reacquireExecution tools) request key h = (r, h')
    /\ only_trace h h' evs
    /\ entered_once (EvDispatch key (rq_Tool request) (rq_Args request)) evs.
Proof.
  intros Hnamed. unfold dispatch, durable_manifest. rewrite lookup_fmap.
  destruct (tools !! rq_Tool request) as [tool |] eqn:Htool; simpl.
  - rewrite <- (Hnamed _ _ Htool). unfold scheduledTool.
    destruct (executeScheduled_quiet tool ToolCall key (rq_Args request)
                (call_tool tool key (rq_Args request)) _ h
                (call_tool_emits tool key (rq_Args request))) as (r & h' & evs & -> & Hq & He).
    destruct r; eexists _, h', evs; eauto.
  - eexists _, h, []. split; [done |]. split; [done |]. exists [], []. auto.
Qed.
End Scheduled.

(** ** A logic for the journal: whatever happens, [ext] holds *)

Section Logic.
Variable faults : nat -> option error.
Variable others : nat -> tables -> tables.
Variable now : nat -> Time.
Variable yieldExecution : list event -> option error.
Variable reacquireExecution : list event -> option error.
Variable tools : gmap string Tool.
Variable runID : string.

(** Other connections follow the store's specification; tools are filed
    under their names. *)
Hypothesis others_ok : forall n t, rtc store_next t (others n t).
Hypothesis tools_named : forall name d, tools !! name = Some d -> tl_Name d = name.

Notation ext := (ext tools runID).

Variable h0 : host.
Hypothesis h0_wf : wf (tabs h0).

(** From [h], the computation keeps [ext h0] and a value satisfies [Q]. *)
Definition eff {A} (m : H A) (h : host) (Q : A -> host -> Prop) : Prop :=
  match m h with
  | (Ok a, h') => ext h0 h' /\ Q a h'
  | (Err _, h') => ext h0 h'
  end.

Lemma eff_ret {A} (a : A) h Q : ext h0 h -> Q a h -> eff (ret a) h Q.
Proof. done. Qed.

Lemma eff_fail {A} e h (Q : A -> host -> Prop) : ext h0 h -> eff (fail e) h Q.
Proof. done. Qed.

Lemma eff_of_res {A} (r : res error A) h (Q : A -> host -> Prop) :
  ext h0 h -> (forall a, r = Ok a -> Q a h) -> eff (of_res r) h Q.
Proof. intros He HQ. destruct r; simpl; [apply eff_ret; auto | by apply eff_fail]. Qed.

Lemma eff_bind {A B} (m : H A) (f : A -> H B) h Q :
  eff m h (fun a h' => ext h0 h' -> eff (f a) h' Q) -> eff (bind m f) h Q.
Proof.
  unfold eff, bind. intros Hm. destruct (m h) as [[a | e] h']; [| done].
  destruct Hm as [He Hf]. by apply Hf.
Qed.

Lemma eff_mono {A} (m : H A) h (Q Q' : A -> host -> Prop) :
  (forall a h', Q a h' -> Q' a h') -> eff m h Q -> eff m h Q'.
Proof. unfold eff. intros HQ. destruct (m h) as [[a | e] h']; [| done]. intros [? ?]; eauto. Qed.

Lemma eff_try {A} (m : H A) h (Q : res error A -> host -> Prop) :
  eff m h (fun a h' => Q (Ok a) h') ->
  (forall e h', ext h0 h' -> rtc store_next (tabs h) (tabs h') -> Q (Err e) h') ->
  (forall e h', m h = (Err e, h') -> rtc store_next (tabs h) (tabs h')) ->
  eff (try_ m) h Q.
Proof.
  unfold eff, try_. intros Hm HE Hr. destruct (m h) as [[a | e] h'] eqn:Heq; [done |].
  split; [done |]. apply HE; eauto.
Qed.

Lemma ext_then h h' :
  ext h0 h -> rtc store_next (tabs h) (tabs h') -> h_trace h' = h_trace h -> ext h0 h'.
Proof. intros He Ht Htr. apply (ext_trans tools runID h0 h h' h0_wf He). by apply ext_same. Qed.

(** A store operation: what it did, or nothing but interference. *)
Lemma eff_db {A} (m : DB A) P h Q :
  op_post others m P ->
  (forall t a t', P t a t' -> rtc store_next t t') ->
  ext h0 h ->
  (forall a h' n, let t := others n (tabs h) in
     h_trace h' = h_trace h -> h_journal h' = h_journal h ->
     rtc store_next (tabs h) (tabs h') -> P t a (tabs h') -> Q a h') ->
  eff (on_db m) h Q.
Proof.
  intros Hop Hnext He HQ. unfold eff, on_db, lift. specialize (Hop (h_db h)).
  destruct (m (h_db h)) as [[a | e] w'].
  - assert (rtc store_next (tabs h) (w_tables w')) as Hr.
    { etrans; [apply (others_ok (w_ticks (h_db h))) | by eapply Hnext]. }
    split; [by apply (ext_then h) |]. by apply (HQ a _ (w_ticks (h_db h))).
  - apply (ext_then h); [done | | done]. unfold tabs. simpl.
    destruct Hop as [-> | ->]; [apply others_ok | done].
Qed.

Lemma db_error_rtc {A} (m : DB A) P h e h' :
  op_post others m P -> on_db m h = (Err e, h') -> rtc store_next (tabs h) (tabs h').
Proof.
  intros Hop. unfold on_db, lift. specialize (Hop (h_db h)).
  destruct (m (h_db h)) as [[a | e'] w'] eqn:Hm; intros [= <- <-]. unfold tabs. simpl.
  destruct Hop as [-> | ->]; [apply others_ok | done].
Qed.

Lemma eff_journal {A} (m : M journal_state A) h Q :
  (exists a j, m (h_journal h) = (Ok a, j) /\ Q a (set_journal j h)) ->
  ext h0 h -> eff (on_journal m) h Q.
Proof.
  intros (a & j & Hm & HQ) He. unfold eff, on_journal, lift. rewrite Hm. split; [| done].
  by apply (ext_then h).
Qed.

(** Host code other than a dispatch. *)
Lemma ext_emit h h' evs :
  ext h0 h -> only_trace h h' evs -> (forall key tool args, EvDispatch key tool args ∉ evs) ->
  ext h0 h'.
Proof.
  intros He (Hdb & _ & Htr) Hno. apply (ext_trans tools runID h0 h h' h0_wf He).
  split; [unfold tabs; by rewrite Hdb |]. exists evs. split; [done |].
  intros key tool args Hin. by apply Hno in Hin.
Qed.

(** A dispatch: the call is reserved and has had no outcome since [h0]. *)
Lemma ext_dispatch h h' evs seq tool args :
  ext h0 h -> only_trace h h' evs ->
  entered_once (EvDispatch (Some (operationKey runID seq)) tool args) evs ->
  (exists c, t_calls (tabs h) !! (runID, seq) = Some c /\ c_Tool c = tool /\ c_Arguments c = args) ->
  (forall c, t_calls (tabs h0) !! (runID, seq) = Some c -> c_State c <> CallCompleted) ->
  (forall d, tools !! tool = Some d -> tl_Recovery d <> WaitMode
     /\ (tl_Recovery d = Manual ->
         t_calls (tabs h0) !! (runID, seq) = None /\ h_trace h = h_trace h0)) ->
  ext h0 h'.
Proof.
  intros [Ht (e0 & Htr0 & H0)] (Hdb & _ & Htr) Hone Hrow Hopen Hmode.
  assert (tabs h' = tabs h) as Htabs by (unfold tabs; by rewrite Hdb).
  split; [by rewrite Htabs |]. exists (evs ++ e0). split; [by rewrite Htr, Htr0, app_assoc |].
  rewrite Htabs. intros key tool' args' [Hin | Hin]%elem_of_app.
  - destruct (entered_once_dispatch _ _ _ _ _ Hone Hin) as [[= <- <- <-] Hcount].
    exists seq. split_and!; try done. intros d Hd. destruct (Hmode d Hd) as [Hw Hm].
    split; [done |]. intros Hman. destruct (Hm Hman) as [Hnone Hsame]. split; [done |].
    rewrite dispatches_app, Hcount.
    assert (e0 = []) as ->; [| done].
    rewrite Hsame in Htr0. apply (f_equal length) in Htr0. rewrite length_app in Htr0.
    destruct e0; [done |]. simpl in Htr0. lia.
  - destruct (H0 _ _ _ Hin) as (seq' & -> & (c' & Hc' & Htool' & Hargs') & Hopen' & Hmode').
    exists seq'. split_and!; eauto. intros d Hd. destruct (Hmode' d Hd) as [Hw Hm].
    split; [done |]. intros Hman. destruct (Hm Hman) as [Hnone Hcount]. split; [done |].
    rewrite dispatches_app, Hcount. rewrite dispatches_zero; [done |].
    intros tool2 args2 Hin2.
    destruct (entered_once_dispatch _ _ _ _ _ Hone Hin2) as [[= Hk <- <-] _].
    apply operationKey_inj in Hk as [_ <-].
    destruct Hrow as (c & Hc & Htool & _). assert (tool' = tool) as -> by congruence.
    destruct (Hmode d Hd) as [_ Hm2]. destruct (Hm2 Hman) as [_ Hsame].
    rewrite Hsame in Htr0. apply (f_equal length) in Htr0. rewrite length_app in Htr0.
    destruct e0; [by apply elem_of_nil in Hin | simpl in Htr0; lia].
Qed.

(** ** The parts of the journal *)

Definition reserved (h : host) (seq : N) (tool args : string) : Prop :=
  exists c, t_calls (tabs h) !! (runID, seq) = Some c /\ c_Tool c = tool /\ c_Arguments c = args.

Definition durable (h : host) (seq : N) (tool args response : string) : Prop :=
  exists c, t_calls (tabs h) !! (runID, seq) = Some c
    /\ c_Tool c = tool /\ c_Arguments c = args
    /\ c_State c = CallCompleted /\ c_Outcome c = response.

Lemma ext_wf h : ext h0 h -> wf (tabs h).
Proof. intros [Ht _]. by eapply rtc_wf. Qed.

Lemma reserved_stays h h' seq tool args :
  wf (tabs h) -> rtc store_next (tabs h) (tabs h') -> reserved h seq tool args ->
  reserved h' seq tool args.
Proof.
  intros Hwf Hr (c & Hc & <- & <-).
  destruct (call_stays _ _ _ _ Hwf Hr Hc) as (c' & ? & ? & ?). exists c'. auto.
Qed.

(** What the journal call returned is in the store, with its request. *)
Definition later (h h' : host) : Prop :=
  h_journal h' = h_journal h /\ rtc store_next (tabs h) (tabs h').

Definition answered (h : host) (seq : N) (tool args : string) (r : string) (h' : host)
  : Prop := durable h' seq tool args r /\ later h h'.

Lemma later_refl h : later h h.
Proof. done. Qed.

Lemma later_trans h1 h2 h3 : later h1 h2 -> later h2 h3 -> later h1 h3.
Proof. intros [? ?] [? ?]. split; [congruence | by etrans]. Qed.

Lemma later_quiet h h' evs : only_trace h h' evs -> later h h'.
Proof. intros (Hdb & Hj & _). split; [done |]. unfold tabs. by rewrite Hdb. Qed.

Lemma eff_answered (m : H string) h h1 seq tool args :
  later h h1 -> eff m h1 (answered h1 seq tool args) -> eff m h1 (answered h seq tool args).
Proof.
  intros Hl. apply eff_mono. intros r h' [Hd Hl']. split; [done |]. by eapply later_trans.
Qed.

Lemma eff_complete logged response h tool args :
  ext h0 h -> reserved h (lc_Sequence logged) tool args ->
  eff (complete faults others runID logged response) h
    (answered h (lc_Sequence logged) tool args).
Proof.
  intros He Hres. unfold complete. eapply eff_db; [apply complete_post | | done |].
  { intros t a t' [[-> _] | [Hs _]]; [done |]. apply rtc_once. by eexists. }
  intros a h' n t Htr Hj Hr Hpost. split; [| by split].
  destruct (reserved_stays h h' _ _ _ (ext_wf h He) Hr Hres) as (c' & Hc' & Htool & Hargs).
  exists c'. split_and!; try done.
  - destruct Hpost as [[Heq (c & Hc & Hst & _)] | [Hs _]].
    + rewrite Heq in Hc'. by simplify_eq.
    + inversion Hs; simplify_eq. match goal with H : _ = tabs h' |- _ => rewrite <- H in Hc' end.
      simpl in Hc'. rewrite lookup_insert_eq in Hc'. by simplify_eq.
  - destruct Hpost as [[Heq (c & Hc & Hst & ->)] | [Hs ->]].
    + rewrite Heq in Hc'. by simplify_eq.
    + inversion Hs; simplify_eq. match goal with H : _ = tabs h' |- _ => rewrite <- H in Hc' end.
      simpl in Hc'. rewrite lookup_insert_eq in Hc'. by simplify_eq.
Qed.

Lemma eff_dispatch logged h tool args :
  ext h0 h -> reserved h (lc_Sequence logged) tool args ->
  (forall c, t_calls (tabs h0) !! (runID, lc_Sequence logged) = Some c -> c_State c <> CallCompleted) ->
  (forall d, tools !! tool = Some d -> tl_Recovery d <> WaitMode
     /\ (tl_Recovery d = Manual ->
         t_calls (tabs h0) !! (runID, lc_Sequence logged) = None /\ h_trace h = h_trace h0)) ->
  eff (dispatchAndComplete faults others runID (operationKey runID (lc_Sequence logged)) logged
         (dispatch (durable_manifest yieldExecution reacquireExecution tools)
            (mkCallRequest tool args))) h
    (answered h (lc_Sequence logged) tool args).
Proof.
  intros He Hres Hopen Hmode. unfold dispatchAndComplete. apply eff_bind. unfold eff.
  destruct (dispatch_quiet yieldExecution reacquireExecution tools (mkCallRequest tool args)
              (Some (operationKey runID (lc_Sequence logged))) h tools_named)
    as (r & h' & evs & -> & Hquiet & Honce). simpl in Honce.
  split; [by eapply ext_dispatch |]. intros He'.
  apply eff_answered; [by eapply later_quiet |]. apply eff_complete; [done |].
  destruct Hquiet as (Hdb & _ & _). unfold reserved, tabs. by rewrite Hdb.
Qed.

(** The state in which a recovery path may dispatch a non-manual call. *)
Record may_resume (logged : LoggedCall) (tool args : string) (h : host) : Prop := {
  mr_ext : ext h0 h;
  mr_reserved : reserved h (lc_Sequence logged) tool args;
  mr_open : forall c, t_calls (tabs h0) !! (runID, lc_Sequence logged) = Some c ->
              c_State c <> CallCompleted;
}.

Lemma may_resume_quiet logged tool args h h' evs :
  may_resume logged tool args h -> only_trace h h' evs ->
  (forall key tool args, EvDispatch key tool args ∉ evs) ->
  may_resume logged tool args h' /\ later h h'.
Proof.
  intros [He Hres Hopen] Hquiet Hno. split; [| by eapply later_quiet].
  split; [by eapply ext_emit | | done].
  destruct Hquiet as (Hdb & _). unfold reserved, tabs. by rewrite Hdb.
Qed.

Lemma eff_lookup logged declared h tool args :
  may_resume logged tool args h ->
  tools !! tool = Some declared -> tl_Recovery declared = LookupMode ->
  eff (lookup_call faults others yieldExecution reacquireExecution runID
         (operationKey runID (lc_Sequence logged)) logged declared
         (dispatch (durable_manifest yieldExecution reacquireExecution tools)
            (mkCallRequest tool args))) h
    (answered h (lc_Sequence logged) tool args).
Proof.
  intros Hmr Hdecl Hmode. unfold lookup_call. apply eff_bind. unfold eff at 1.
  destruct (executeScheduled_quiet yieldExecution reacquireExecution declared ToolLookup
              (Some (operationKey runID (lc_Sequence logged))) (lc_Arguments logged) _ _ h
              (enter_emits (EvLookup (Some (operationKey runID (lc_Sequence logged)))
                              (tl_Name declared) (lc_Arguments logged)) (tl_Lookup declared) (Err nil_call)
                 (Some (operationKey runID (lc_Sequence logged))) (lc_Arguments logged)))
    as (r & h' & evs & -> & Hquiet & Honce).
  destruct (may_resume_quiet _ _ _ _ _ _ Hmr Hquiet) as [[He' Hres' Hopen'] Hj].
  { intros key tool' args' Hin. by destruct (entered_once_dispatch _ _ _ _ _ Honce Hin). }
  destruct r as [resolved | e]; [| done]. split; [done |]. intros _.
  apply eff_answered; [done |].
  repeat case_match; try by apply eff_fail.
  - apply eff_dispatch; try done. intros d Hd. rewrite Hdecl in Hd. simplify_eq.
    by rewrite Hmode.
  - by apply eff_complete.
Qed.

Lemma eff_clock h Q : ext h0 h -> (forall t, Q t h) -> eff (clock now) h Q.
Proof. intros He HQ. split; [done | apply HQ]. Qed.

Lemma eff_get_wait id h (Q : Wait -> host -> Prop) :
  ext h0 h ->
  (forall w h', ext h0 h' -> rtc store_next (tabs h) (tabs h') -> h_journal h' = h_journal h ->
     Q w h') ->
  eff (on_db (GetWait faults others id)) h Q.
Proof.
  intros He HQ. eapply eff_db; [apply get_wait_post | | done |].
  { intros t a t' [-> _]. done. }
  intros a h' n t Htr Hj Hr _. apply HQ; [by apply (ext_then h) | done..].
Qed.

(** Any store operation of the store's specification keeps a call reserved. *)
Lemma may_resume_db {A} (m : DB A) P h logged tool args (Q : A -> host -> Prop) :
  op_post others m P -> (forall t a t', P t a t' -> rtc store_next t t') ->
  may_resume logged tool args h ->
  (forall a h', may_resume logged tool args h' -> later h h' -> Q a h') ->
  eff (on_db m) h Q.
Proof.
  intros Hop Hnext [He Hres Hopen] HQ. eapply eff_db; [exact Hop | exact Hnext | done |].
  intros a h' n t Htr Hj Hr _. apply HQ; [| by split]. split; [by apply (ext_then h) | | done].
  by apply (reserved_stays h); [apply ext_wf |..].
Qed.

Lemma resolve_next t w d t' :
  (t' = t /\ exists row, t_waits t !! w = Some row /\ wr_resolved row = true
     /\ wr_decision_result row = dec_Result d /\ wr_decision_error row = dec_Error d)
  \/ store_step (EvResolve w d) t t' -> rtc store_next t t'.
Proof. intros [[-> _] | Hs]; [done |]. apply rtc_once. by eexists. Qed.

Lemma get_wait_next t id (w : Wait) t' :
  (t' = t /\ exists row, t_waits t !! id = Some row /\ w = scanWait id row) -> rtc store_next t t'.
Proof. by intros [-> _]. Qed.

Lemma ensure_next t s spec (w : Wait) t' :
  (t' = t /\ exists row, t_waits t !! waitKey runID s = Some row
                        /\ w = scanWait (waitKey runID s) row)
  \/ (store_step (EvWait runID s spec) t t'
      /\ w = mkWait (waitKey runID s) runID s spec None) -> rtc store_next t t'.
Proof. intros [[-> _] | [Hs _]]; [done |]. apply rtc_once. by eexists. Qed.

(** The wait row a wait call works on. *)
Lemma eff_wait logged declared h tool args :
  may_resume logged tool args h ->
  eff (wait_call faults others now runID (operationKey runID (lc_Sequence logged)) logged declared) h
    (answered h (lc_Sequence logged) tool args).
Proof.
  intros Hmr. unfold wait_call.
  set (J := fun (_ : Wait) h' => may_resume logged tool args h' /\ later h h').
  apply eff_bind. unfold eff at 1, try_.
  destruct (on_db (GetWait faults others _) h) as [r h1] eqn:Hget.
  assert (may_resume logged tool args h1 /\ later h h1) as [Hmr1 Hj1].
  { unfold on_db, lift in Hget.
    pose proof (get_wait_post faults others (runID +:+ "/wait/" +:+ format_uint (lc_Sequence logged))
                  (h_db h)) as Hpost.
    destruct (GetWait _ _ _ (h_db h)) as [r' w'] eqn:Hg. injection Hget as <- <-.
    assert (rtc store_next (tabs h) (w_tables w')) as Hr.
    { destruct r'; simpl in Hpost; [destruct Hpost as [-> _] | destruct Hpost as [-> | ->]];
        [apply others_ok | apply others_ok | done]. }
    destruct Hmr as [He Hres Hopen]. split; [| by split].
    split; [by apply (ext_then h) | | done].
    by apply (reserved_stays h); [apply ext_wf |..]. }
  split; [apply Hmr1 |]. intros _.
  apply eff_bind. apply (eff_mono _ _ J).
  2:{ destruct r as [w | e]; [by apply eff_ret; [apply Hmr1 |] |].
      destruct (errors_is ErrNotFound e); [| apply eff_fail, Hmr1].
      apply eff_bind. unfold eff at 1.
      set (ev := EvWaitDeclared (Some (operationKey runID (lc_Sequence logged)))
                   (tl_Name declared) (lc_Arguments logged)).
      destruct (enter_emits ev (tl_Wait declared) (Err nil_call)
                  (Some (operationKey runID (lc_Sequence logged))) (lc_Arguments logged) h1)
        as [r ->].
      destruct (may_resume_quiet logged tool args h1 (emit ev h1) [ev] Hmr1) as [Hmr2 Hj2].
      { by split_and!. }
      { intros key tool' args' Hin. by apply list_elem_of_singleton in Hin. }
      destruct r as [spec | e']; [| apply Hmr2]. split; [apply Hmr2 |]. intros _.
      eapply may_resume_db; [apply ensure_post | intros ? ? ?; apply ensure_next | exact Hmr2 |].
      intros w h' Hm Hj. split; [done |]. eauto using later_trans. }
  intros w h2 [Hmr2 Hj2] _. apply eff_bind, eff_clock; [apply Hmr2 |]. intros t _.
  apply eff_bind. apply (eff_mono _ _ J).
  2:{ destruct (expired w t); [| by apply eff_ret; [apply Hmr2 |]].
      apply eff_bind.
      eapply may_resume_db; [apply resolve_post | intros ? ? ?; apply resolve_next | exact Hmr2 |].
      intros [] h3 Hmr3 Hj3 _.
      eapply may_resume_db; [apply get_wait_post | intros ? ? ?; apply get_wait_next | exact Hmr3 |].
      intros w' h4 Hmr4 Hj4. split; [done |]. eauto using later_trans. }
  intros w' h3 [Hmr3 Hj3] _. destruct (w_Decision w'); [| apply eff_fail, Hmr3].
  apply eff_answered; [done |]. apply eff_complete; apply Hmr3.
Qed.

Lemma eff_recover logged record created h tool args :
  may_resume logged tool args h ->
  c_OperationKey record = operationKey runID (lc_Sequence logged) ->
  (created = true -> t_calls (tabs h0) !! (runID, lc_Sequence logged) = None
                     /\ h_trace h = h_trace h0) ->
  eff (recover faults others now yieldExecution reacquireExecution tools runID tool logged record
         created (dispatch (durable_manifest yieldExecution reacquireExecution tools)
                    (mkCallRequest tool args))) h
    (answered h (lc_Sequence logged) tool args).
Proof.
  intros Hmr Hkey Hnew. pose proof Hmr as [He Hres Hopen]. unfold recover. rewrite Hkey.
  destruct (tools !! tool) as [d |] eqn:Hd.
  2:{ apply eff_dispatch; try done. intros d Hd'. congruence. }
  destruct created.
  - destruct (bool_decide (tl_Recovery d = WaitMode)) eqn:Hw; guards; [by apply eff_wait |].
    apply eff_dispatch; try done. intros d' Hd'. rewrite Hd in Hd'. simplify_eq. auto.
  - repeat case_match; guards; try by apply eff_fail.
    + apply eff_dispatch; try done. intros d' Hd'. rewrite Hd in Hd'. simplify_eq.
      match goal with H : _ || _ = true |- _ => apply orb_prop in H as [H | H] end;
        guards; by match goal with H : tl_Recovery _ = _ |- _ => rewrite H end.
    + by apply eff_lookup.
    + by apply eff_wait.
Qed.
End Logic.

(** ** One journal call *)

Lemma completed_window_lookup t runID n from size i c :
  completed_window t runID from n size !! i = Some c ->
  t_calls t !! (runID, (from + N.of_nat i)%N) = Some c /\ c_State c = CallCompleted.
Proof.
  revert from size i. induction n as [| n IH]; intros from size i; simpl; [done |].
  destruct (t_calls t !! (runID, from)) as [c0 |] eqn:Hc; [| done].
  case_bool_decide; [| done]. destruct i as [| i]; simpl.
  - intros [= <-]. by rewrite N.add_0_r.
  - case_match; [done |]. intros Hi. apply IH in Hi.
    by replace (from + N.of_nat (S i))%N with (from + 1 + N.of_nat i)%N by lia.
Qed.

Section Call.
Variable faults : nat -> option error.
Variable others : nat -> tables -> tables.
Variable now : nat -> Time.
Variable yieldExecution : list event -> option error.
Variable reacquireExecution : list event -> option error.
Variable tools : gmap string Tool.
Variable runID : string.
Hypothesis others_ok : forall n t, rtc store_next t (others n t).
Hypothesis tools_named : forall name d, tools !! name = Some d -> tl_Name d = name.

(** The read-ahead window, from the sequence [seq] on, holds the store's
    completed rows; a live journal has none. *)
Definition window_from (seq : N) (h : host) : Prop :=
  (forall i c, js_history (h_journal h) !! i = Some c ->
     t_calls (tabs h) !! (runID, (seq + N.of_nat i)%N) = Some c /\ c_State c = CallCompleted)
  /\ (js_live (h_journal h) = true -> js_history (h_journal h) = []).

Definition window (h : host) : Prop := window_from (js_sequence (h_journal h)) h.

Lemma window_stays seq h h' :
  wf (tabs h) -> rtc store_next (tabs h) (tabs h') -> h_journal h' = h_journal h ->
  window_from seq h -> window_from seq h'.
Proof.
  intros Hwf Hr Hj [Hwin Hl]. rewrite <- Hj in Hl. split; [| done]. rewrite Hj.
  intros i c Hi. destruct (Hwin i c Hi) as [Hc Hst]. split; [| done].
  by apply (completed_stays (tabs h)).
Qed.

Lemma eff_rebase {A} h0 h1 (m : H A) h Q :
  wf (tabs h0) -> ext tools runID h0 h1 ->
  eff tools runID h1 m h Q -> eff tools runID h0 m h Q.
Proof.
  intros Hwf H01. unfold eff. destruct (m h) as [[a | e] h'];
    [intros [H1 HQ]; split; [| done] | intros H1]; by apply (ext_trans tools runID h0 h1).
Qed.

Definition advanced (seq : N) (h : host) : Prop := js_sequence (h_journal h) = (seq + 1)%N.

Definition next_ok (seq : N) (r : option Call) (h' : host) : Prop :=
  advanced seq h' /\ window h'
  /\ match r with
     | Some c => t_calls (tabs h') !! (runID, seq) = Some c /\ c_State c = CallCompleted
     | None => True
     end.

(** Taking the head of a window. *)
Lemma eff_pop h0 h seq record rest :
  ext tools runID h0 h -> wf (tabs h0) -> advanced seq h -> js_live (h_journal h) = false ->
  (forall i c, (record :: rest) !! i = Some c ->
     t_calls (tabs h) !! (runID, (seq + N.of_nat i)%N) = Some c /\ c_State c = CallCompleted) ->
  eff tools runID h0 (set_history rest;;; ret (Some record)) h (next_ok seq).
Proof.
  intros He Hwf Hadv Hlive Hwin. apply eff_bind, eff_journal; try done.
  eexists _, _. split; [reflexivity |]. intros He'. apply eff_ret; [done |].
  split; [done |]. split; [split; [| simpl; congruence] |].
  - simpl. intros i c Hi. destruct (Hwin (S i) c Hi) as [Hc Hst]. split; [| done].
    unfold advanced in Hadv. rewrite Hadv.
    by replace (seq + 1 + N.of_nat i)%N with (seq + N.of_nat (S i))%N by lia.
  - destruct (Hwin 0%nat record eq_refl) as [Hc Hst]. by rewrite N.add_0_r in Hc.
Qed.

(** [next_record]: a record is the store's completed row. *)
Lemma eff_next_record h0 h seq :
  wf (tabs h0) -> ext tools runID h0 h -> advanced seq h -> window_from seq h ->
  eff tools runID h0 (next_record faults others runID seq) h (next_ok seq).
Proof.
  intros Hwf He Hadv [Hwin Hlive]. unfold next_record.
  apply eff_bind, eff_journal; try done. eexists _, _. split; [reflexivity |].
  assert (set_journal (h_journal h) h = h) as -> by (by destruct h). intros _.
  destruct (js_live (h_journal h)) eqn:Hl.
  { apply eff_ret; [done |]. split; [done |]. split; [| done].
    split; [| by rewrite Hl]. rewrite Hlive by done. by intros [] c. }
  apply eff_bind. destruct (js_history (h_journal h)) as [| record rest] eqn:Hh.
  2:{ apply eff_ret; [done |]. intros _. by apply eff_pop. }
  eapply eff_db; [done | done | apply read_completed_post | | done |].
  { by intros t a t' [-> _]. }
  intros rows h1 n t Htr Hj Hr [Ht ->] He1. fold t. unfold advanced in Hadv.
  destruct (completed_window t runID seq 64 0) as [| record rest] eqn:Hrows.
  - apply eff_bind, eff_journal; try done. eexists _, _. split; [reflexivity |]. intros He2.
    apply eff_bind, eff_journal; try done. eexists _, _. split; [reflexivity |]. intros He3.
    apply eff_ret; [done |]. split; [by unfold advanced; simpl; rewrite Hj |]. split; [| done].
    split; [| done]. simpl. by intros [] c.
  - apply eff_pop; try done; [by unfold advanced; rewrite Hj | by rewrite Hj |].
    intros i c Hi. rewrite <- Hrows in Hi. apply completed_window_lookup in Hi. by rewrite Ht.
Qed.

Lemma replay_record_Ok logged record r :
  replay_record runID logged record = Ok r ->
  r = c_Outcome record /\ c_Tool record = lc_Capability logged
  /\ c_Arguments record = lc_Arguments logged.
Proof. unfold replay_record. repeat case_match; intros; simplify_eq; guards; auto. Qed.

Lemma begin_next t call (p : Call * bool) t' :
  (if p.2 : bool then store_step (EvBegin runID call) t t' /\ p.1 = new_call runID call
   else t' = t /\ t_calls t !! (runID, lc_Sequence call) = Some p.1
        /\ exists run, t_runs t !! runID = Some run
                       /\ match_call runID call (r_Status run) p.1 = Ok p.1) ->
  rtc store_next t t'.
Proof. destruct p as [r []]; simpl; [| by intros [-> _]]. intros [Hs _]. apply rtc_once. by eexists. Qed.

(** A call that has been begun: the row as [BeginCall] returned it, and
    what is known of it at [h1], where the call started. *)
Lemma begun_row h1 n h logged p :
  wf (tabs h1) -> rtc store_next (tabs h1) (others n (tabs h1)) ->
  (if p.2 : bool
   then store_step (EvBegin runID logged) (others n (tabs h1)) (tabs h) /\ p.1 = new_call runID logged
   else tabs h = others n (tabs h1)
        /\ t_calls (others n (tabs h1)) !! (runID, lc_Sequence logged) = Some p.1
        /\ exists run, t_runs (others n (tabs h1)) !! runID = Some run
                       /\ match_call runID logged (r_Status run) p.1 = Ok p.1) ->
  t_calls (tabs h) !! (runID, lc_Sequence logged) = Some p.1
  /\ c_Tool p.1 = lc_Capability logged /\ c_Arguments p.1 = lc_Arguments logged
  /\ c_OperationKey p.1 = operationKey runID (lc_Sequence logged)
  /\ (p.2 = true -> t_calls (tabs h1) !! (runID, lc_Sequence logged) = None)
  /\ (c_State p.1 <> CallCompleted ->
      forall c, t_calls (tabs h1) !! (runID, lc_Sequence logged) = Some c -> c_State c <> CallCompleted).
Proof.
  intros Hwf Hr. destruct p as [r []]; simpl.
  - intros [Hs ->]. inversion Hs; simplify_eq. simpl. rewrite lookup_insert_eq.
    assert (t_calls (tabs h1) !! (runID, lc_Sequence logged) = None) as Hnone
      by (by eapply call_absent_before).
    split_and!; try done. intros _ c Hc. congruence.
  - intros (-> & Hc & run & _ & Hm). apply match_call_Ok in Hm as (_ & _ & Htool & Hkey & Hargs & _).
    split_and!; try done. intros Hst c Hc1 Hst1. apply Hst.
    rewrite (completed_stays _ _ _ _ Hwf Hr Hc1 Hst1) in Hc. by simplify_eq.
Qed.

Lemma eff_journal_call h tool args :
  wf (tabs h) -> window h -> (js_sequence (h_journal h) + 1 < 2 ^ 32)%N ->
  eff tools runID h
    (journal_call faults others now yieldExecution reacquireExecution tools runID tool args
       (dispatch (durable_manifest yieldExecution reacquireExecution tools)
          (mkCallRequest tool args))) h
    (fun r h' => durable runID h' (js_sequence (h_journal h)) tool args r
                 /\ advanced (js_sequence (h_journal h)) h' /\ window h').
Proof.
  intros Hwf Hwin Hbound. unfold journal_call. set (seq := js_sequence (h_journal h)).
  apply eff_bind, eff_journal; [done.. | | apply ext_refl].
  eexists _, _. split; [reflexivity |]. intros He0. fold seq.
  set (h1 := set_journal _ h) in *.
  assert (advanced seq h1) as Hadv1.
  { unfold advanced. simpl. fold seq. apply u32_id. done. }
  apply eff_bind. eapply eff_mono; [| by apply eff_next_record].
  intros record h2 (Hadv2 & Hwin2 & Hrec) He2.
  destruct record as [record |].
  { destruct Hrec as [Hc Hst]. apply eff_of_res; [done |]. intros r Hok.
    apply replay_record_Ok in Hok as (-> & Htool & Hargs).
    split; [| done]. exists record. auto. }
  set (logged := mkLoggedCall seq _ tool args).
  assert (wf (tabs h2)) as Hwf2 by (by eapply ext_wf).
  apply (eff_rebase h h2); [done.. |].
  apply eff_bind. eapply eff_db; [done | done | apply begin_post | | apply ext_refl |].
  { intros t a t'. apply begin_next. }
  intros p h3 n t Htr Hj Hr Hpost He3. subst t.
  destruct (begun_row h2 n h3 logged p Hwf2 (others_ok n (tabs h2)) Hpost)
    as (Hrow & Htool & Hargs & Hkey & Hnew & Hopen).
  assert (window h3 /\ advanced seq h3) as [Hwin3 Hadv3].
  { unfold window, advanced. rewrite Hj. split; [by apply (window_stays _ h2) | done]. }
  destruct p as [record created]. simpl in *.
  destruct (bool_decide (c_State record = CallCompleted)) eqn:Hst; guards.
  { apply eff_ret; [done |]. split; [| done]. exists record. auto. }
  eapply eff_mono; [| apply eff_recover; try done].
  - intros r h4 [Hdur [Hj4 Hr4]]. simpl in Hdur. split; [done |].
    unfold window, advanced. rewrite Hj4. split; [done |].
    apply (window_stays _ h3); [by eapply rtc_wf | done..].
  - split; [done | by exists record | auto].
  - auto.
Qed.
End Call.
