(* ===== verification/ToolStats.v ===== *)
(** * ToolStats: latency statistics of Host tools ([durable/tool_stats.go])

    Means and moving averages of the durations that observations report, one
    entry for each tool, version, operation, scheduling class and size of the
    arguments.  Counters are [uint64], totals [int64] and averages [float64];
    a [float64] outside the range of [int64] is converted as the implementation
    of Go likes ([convert_out_of_range]).  The mutex makes every operation one
    step. *)

From S2P Require Import Order Prelude Errors Float64 Journal.

#[export] Instance ToolOutcome_eq_dec : EqDecision ToolOutcome.
Proof. solve_decision. Defined.

(** An observation with its measured durations. *)
Record Observed := mkObserved {
  od_Observation : ToolObservation;
  od_Queue : Z;
  od_Service : Z;
  od_Resume : Z
}.

Record ToolEstimate := mkEstimate {
  te_Name : string;
  te_Version : string;
  te_Operation : string;
  te_Scheduling : string;
  te_ArgumentBucket : string;
  te_Count : N;
  te_Failures : N;
  te_Cancellations : N;
  te_Deadlines : N;
  te_MeanQueue : Z;
  te_MeanService : Z;
  te_MeanResume : Z;
  te_EWMAQueue : Z;
  te_EWMAService : Z;
  te_EWMAResume : Z
}.

(** Name, version, bucket, operation, scheduling. *)
Notation toolEstimateKey := (string * string * string * string * string)%type.

Record toolEstimateState := mkState {
  es_count : N;
  es_failures : N;
  es_cancellations : N;
  es_deadlines : N;
  es_queueTotal : Z;
  es_serviceTotal : Z;
  es_resumeTotal : Z;
  es_queueEWMA : float64;
  es_serviceEWMA : float64;
  es_resumeEWMA : float64
}.

Record ToolLatencyStats := mkStats { st_alpha : float64; st_entries : gmap toolEstimateKey toolEstimateState }.

Definition NewToolLatencyStats (alpha : float64) : res string ToolLatencyStats :=
  if fle alpha (float_of_int 0) || flt (float_of_int 1) alpha
  then Err "tool latency EWMA alpha must be in (0, 1]"
  else Ok (mkStats alpha ∅).

Definition ewma (previous current alpha : float64) : float64 :=
  fadd (fmul alpha current) (fmul (fsub (float_of_int 1) alpha) previous).

Definition toolArgumentBucket (bytes : N) : string :=
  if (bytes <=? 1024)%N then "le_1k"
  else if (bytes <=? 16384)%N then "le_16k"
  else if (bytes <=? 262144)%N then "le_256k"
  else "gt_256k".

Definition estimate_key (o : ToolObservation) : toolEstimateKey :=
  (ob_Name o, ob_Version o, toolArgumentBucket (ob_ArgumentBytes o), ob_Operation o, ob_Scheduling o).

Definition new_state : toolEstimateState :=
  mkState 0 0 0 0 0 0 0 (S754_zero false) (S754_zero false) (S754_zero false).

Definition count_outcome (outcome : ToolOutcome) (which : ToolOutcome) (n : N) : N :=
  match outcome, which with
  | ToolFailed, ToolFailed | ToolCancelled, ToolCancelled | ToolDeadline, ToolDeadline => u64 (n + 1)
  | _, _ => n
  end.

(** One entry after one more observation. *)
Definition observe_state (alpha : float64) (o : Observed) (s : toolEstimateState) : toolEstimateState :=
  let count := u64 (es_count s + 1) in
  let average previous duration :=
    if (count =? 1)%N then float_of_int duration else ewma previous (float_of_int duration) alpha in
  let outcome := ob_Outcome (od_Observation o) in
  mkState count
    (count_outcome outcome ToolFailed (es_failures s))
    (count_outcome outcome ToolCancelled (es_cancellations s))
    (count_outcome outcome ToolDeadline (es_deadlines s))
    (i64 (es_queueTotal s + od_Queue o)) (i64 (es_serviceTotal s + od_Service o)) (i64 (es_resumeTotal s + od_Resume o))
    (average (es_queueEWMA s) (od_Queue o)) (average (es_serviceEWMA s) (od_Service o))
    (average (es_resumeEWMA s) (od_Resume o)).

(** [ObserveTool]; a nil receiver ignores it. *)
Definition ObserveTool (stats : option ToolLatencyStats) (o : Observed) : option ToolLatencyStats :=
  match stats with
  | None => None
  | Some stats =>
      let key := estimate_key (od_Observation o) in
      let state := default new_state (st_entries stats !! key) in
      Some (mkStats (st_alpha stats) (<[key := observe_state (st_alpha stats) o state]> (st_entries stats)))
  end.

Definition estimate_lt : ToolEstimate -> ToolEstimate -> bool :=
  lex te_Name str_lt (lex te_Version str_lt (lex te_Operation str_lt (lex te_Scheduling str_lt
    (fun a b => str_lt (te_ArgumentBucket a) (te_ArgumentBucket b))))).

Section Snapshot.
Context (convert_out_of_range : float64 -> Z).

Definition duration_of_average (x : float64) : Z := default (convert_out_of_range x) (trunc x).

(** The mean of a total over a count; a count of zero would panic. *)
Definition mean_duration (total : Z) (count : N) : Z := i64 (Z.quot total (i64 (Z.of_N count))).

Definition estimate (key : toolEstimateKey) (s : toolEstimateState) : ToolEstimate :=
  let '(name, version, bucket, operation, scheduling) := key in
  mkEstimate name version operation scheduling bucket (es_count s) (es_failures s) (es_cancellations s) (es_deadlines s)
    (mean_duration (es_queueTotal s) (es_count s)) (mean_duration (es_serviceTotal s) (es_count s))
    (mean_duration (es_resumeTotal s) (es_count s))
    (duration_of_average (es_queueEWMA s)) (duration_of_average (es_serviceEWMA s)) (duration_of_average (es_resumeEWMA s)).

Definition Snapshot (stats : option ToolLatencyStats) : list ToolEstimate :=
  match stats with
  | None => []
  | Some stats => sort_by estimate_lt (map (fun kv => estimate kv.1 kv.2) (map_to_list (st_entries stats)))
  end.
End Snapshot.
