(* ===== verification/ToolStatsProps.v ===== *)
(** * ToolStatsProps: what the statistics of Host tools promise

    Every observation is counted in exactly one estimate, and the means are the
    means of what was observed. *)

From S2P Require Import Order Prelude Errors Float64 Journal ToolStats.

Definition observe_all (alpha : float64) (os : list Observed) : toolEstimateState :=
  foldl (fun s o => observe_state alpha o s) new_state os.

Definition of_key (key : toolEstimateKey) (os : list Observed) : list Observed :=
  filter (fun o => estimate_key (od_Observation o) = key) os.

Lemma of_key_snoc key os o :
  of_key key (os ++ [o]) = of_key key os ++ (if bool_decide (estimate_key (od_Observation o) = key) then [o] else []).
Proof. unfold of_key. rewrite list.filter_app, filter_cons, filter_nil. by repeat case_decide || case_bool_decide. Qed.

Lemma stats_spec alpha os :
  exists entries, foldl ObserveTool (Some (mkStats alpha ∅)) os = Some (mkStats alpha entries)
    /\ forall key, entries !! key
         = match of_key key os with [] => None | (_ :: _) as mine => Some (observe_all alpha mine) end.
Proof.
  induction os as [| o os (entries & Heq & IH)] using rev_ind; [by exists ∅ |]. rewrite foldl_snoc, Heq. cbn [ObserveTool st_alpha st_entries].
  eexists. split; [done |]. intros key. rewrite of_key_snoc. case_bool_decide as Hk.
  - subst key. rewrite lookup_insert_eq, IH. destruct (of_key _ os) as [| first mine]; [done |].
    cbn [app default]. unfold observe_all. change (first :: mine ++ [o]) with ((first :: mine) ++ [o]). by rewrite foldl_snoc.
  - by rewrite lookup_insert_ne, IH, app_nil_r.
Qed.

(** How many ended like this. *)
Definition ended (outcome : ToolOutcome) (os : list Observed) : nat :=
  length (filter (fun o => ob_Outcome (od_Observation o) = outcome) os).

Lemma ended_snoc outcome os o :
  ended outcome (os ++ [o])
  = (ended outcome os + if bool_decide (ob_Outcome (od_Observation o) = outcome) then 1 else 0)%nat.
Proof.
  unfold ended. rewrite list.filter_app, filter_cons, filter_nil, length_app. by repeat case_decide || case_bool_decide.
Qed.

Lemma ended_le outcome os : (ended outcome os <= length os)%nat.
Proof. apply length_filter. Qed.

Lemma observe_all_counts alpha os :
  (N.of_nat (length os) < 2 ^ 64)%N ->
  let s := observe_all alpha os in
  es_count s = N.of_nat (length os) /\ es_failures s = N.of_nat (ended ToolFailed os)
  /\ es_cancellations s = N.of_nat (ended ToolCancelled os) /\ es_deadlines s = N.of_nat (ended ToolDeadline os).
Proof.
  induction os as [| o os IH] using rev_ind; [done |]. rewrite length_app. cbn [length]. intros Hlt.
  destruct IH as (Hc & Hf & Hx & Hd); [lia |]. unfold observe_all in *. rewrite foldl_snoc, !ended_snoc.
  set (s := foldl _ _ os) in *. cbn zeta. cbn [observe_state es_count es_failures es_cancellations es_deadlines].
  rewrite Hc, Hf, Hx, Hd. pose proof (ended_le ToolFailed os). pose proof (ended_le ToolCancelled os).
  pose proof (ended_le ToolDeadline os). unfold count_outcome.
  split_and!; [rewrite u64_id; lia | ..]; destruct (ob_Outcome (od_Observation o)); rewrite ?u64_id by lia;
    repeat case_bool_decide; try done; lia.
Qed.

Lemma observe_all_totals alpha os :
  let s := observe_all alpha os in
  es_queueTotal s = i64 (zsum od_Queue os) /\ es_serviceTotal s = i64 (zsum od_Service os)
  /\ es_resumeTotal s = i64 (zsum od_Resume os).
Proof.
  induction os as [| o os (Hq & Hs & Hr)] using rev_ind; [done |]. unfold observe_all in *. rewrite foldl_snoc, !zsum_app, !zsum_cons.
  cbn zeta. cbn [observe_state es_queueTotal es_serviceTotal es_resumeTotal]. rewrite Hq, Hs, Hr, !i64_add_l. cbn [zsum foldr].
  by rewrite !Z.add_0_r.
Qed.

(** The arithmetic mean, where the total does not overflow. *)
Definition exact_mean (duration : Observed -> Z) (os : list Observed) (mean : Z) : Prop :=
  Forall (fun o => 0 <= duration o)%Z os -> (zsum duration os < 2 ^ 63)%Z ->
  mean = (zsum duration os / Z.of_nat (length os))%Z.

Lemma mean_exact duration os :
  os <> [] -> (N.of_nat (length os) < 2 ^ 63)%N ->
  exact_mean duration os (mean_duration (i64 (zsum duration os)) (N.of_nat (length os))).
Proof.
  intros Hne Hlen Hf Hlt. unfold mean_duration.
  assert (0 <= zsum duration os)%Z as H0 by (apply zsum_nonneg; by apply list.Forall_forall).
  assert (0 < Z.of_nat (length os))%Z by (destruct os; [done | cbn; lia]).
  rewrite (i64_id (zsum duration os)), (i64_id (Z.of_N _)) by lia. rewrite nat_N_Z, Z.quot_div_nonneg by lia.
  apply i64_id. pose proof (Z.div_pos (zsum duration os) (Z.of_nat (length os))).
  pose proof (Z.div_le_upper_bound (zsum duration os) (Z.of_nat (length os)) (zsum duration os)). nia.
Qed.

Definition key_of (e : ToolEstimate) : toolEstimateKey :=
  (te_Name e, te_Version e, te_ArgumentBucket e, te_Operation e, te_Scheduling e).

Definition key_lt : toolEstimateKey -> toolEstimateKey -> bool :=
  lex (fun k => k.1.1.1.1) str_lt (lex (fun k => k.1.1.1.2) str_lt (lex (fun k => k.1.2) str_lt
    (lex (fun k => k.2) str_lt (fun a b => str_lt a.1.1.2 b.1.1.2)))).

Lemma key_lt_total x y : key_lt x y = false -> key_lt y x = false -> x = y.
Proof.
  intros Hx Hy. unfold key_lt in *.
  do 4 (let H := fresh in destruct (lex_ties _ _ _ _ _ _ Hx Hy) as (H & Hx' & Hy'); clear Hx Hy;
        rename Hx' into Hx, Hy' into Hy).
  pose proof (str_lt_total _ _ Hx Hy). destruct x as [[[[??]?]?]?], y as [[[[??]?]?]?]; cbn in *; congruence.
Qed.

#[export] Instance key_lt_order : SortOrder key_lt.
Proof. unfold key_lt. repeat apply lex_order; try apply _. Qed.

(** C39.  The statistics are exact.  After any sequence of observations the
    snapshot has one estimate for each tool, version, operation, scheduling
    class and size class observed, in strictly increasing order; it counts the
    observations of its class and how many failed, were cancelled or ran out of
    time, its means are the means of their durations, and the moving average of
    a single observation is its duration as a [float64]. *)
Theorem tool_statistics_are_exact convert alpha stats observations :
  NewToolLatencyStats alpha = Ok stats -> (N.of_nat (length observations) < 2 ^ 63)%N ->
  let estimates := Snapshot convert (foldl ObserveTool (Some stats) observations) in
  StronglySorted (fun a b => key_lt (key_of a) (key_of b) = true) estimates
  /\ (forall o, o ∈ observations -> estimate_key (od_Observation o) ∈ map key_of estimates)
  /\ forall e, e ∈ estimates ->
     let mine := of_key (key_of e) observations in
     mine <> [] /\ te_Count e = N.of_nat (length mine)
     /\ te_Failures e = N.of_nat (ended ToolFailed mine) /\ te_Cancellations e = N.of_nat (ended ToolCancelled mine)
     /\ te_Deadlines e = N.of_nat (ended ToolDeadline mine)
     /\ exact_mean od_Queue mine (te_MeanQueue e) /\ exact_mean od_Service mine (te_MeanService e)
     /\ exact_mean od_Resume mine (te_MeanResume e)
     /\ forall o, mine = [o] ->
          te_EWMAQueue e = duration_of_average convert (float_of_int (od_Queue o))
          /\ te_EWMAService e = duration_of_average convert (float_of_int (od_Service o))
          /\ te_EWMAResume e = duration_of_average convert (float_of_int (od_Resume o)).
Proof.
  intros Hnew Hlen. unfold NewToolLatencyStats in Hnew. destruct (_ || _); [done |]. injection Hnew as <-.
  destruct (stats_spec alpha observations) as (entries & Heq & Hentries). intros estimates.
  assert (forall e, e ∈ estimates <-> exists key s, entries !! key = Some s /\ e = estimate convert key s) as Helem.
  { intros e. unfold estimates. rewrite Heq. cbn [Snapshot st_entries]. rewrite elem_of_sort_by, list_elem_of_fmap. split.
    - intros ([key s] & -> & Hin%elem_of_map_to_list). by exists key, s.
    - intros (key & s & Hs & ->). exists (key, s). by rewrite elem_of_map_to_list. }
  assert (forall key s, key_of (estimate convert key s) = key) as Hkey by (by intros [[[[??]?]?]?]).
  split_and!.
  - unfold estimates. rewrite Heq. apply (sort_by_strict key_lt key_of); [apply _ | apply key_lt_total |]. rewrite map_map.
    rewrite (map_ext _ fst); [apply NoDup_fst_map_to_list |]. intros [key s]. apply Hkey.
  - intros o Ho. apply list_elem_of_fmap. set (key := estimate_key (od_Observation o)).
    assert (o ∈ of_key key observations) as Hin by (by apply list_elem_of_filter).
    specialize (Hentries key). destruct (of_key key observations) as [| first mine]; [by apply elem_of_nil in Hin |].
    eexists. split; [| apply Helem; eexists key, _; by split]. by rewrite Hkey.
  - intros e (key & s & Hs & ->)%Helem. rewrite Hkey. intros mine. specialize (Hentries key). fold mine in Hentries.
    rewrite Hs in Hentries. assert (length mine <= length observations)%nat as Hle by apply length_filter.
    destruct mine as [| first rest] eqn:Hmine; [done |]. injection Hentries as ->. rewrite <- Hmine in *.
    assert (mine <> []) as Hne by (by rewrite Hmine).
    destruct (observe_all_counts alpha mine ltac:(lia)) as (Hc & Hf & Hx & Hd). destruct (observe_all_totals alpha mine) as (Hq & Hsv & Hr).
    destruct key as [[[[name version] bucket] operation] scheduling]. cbn [estimate te_Count te_Failures te_Cancellations te_Deadlines
      te_MeanQueue te_MeanService te_MeanResume te_EWMAQueue te_EWMAService te_EWMAResume].
    rewrite Hc, Hf, Hx, Hd, Hq, Hsv, Hr. split_and!; try done; try (apply mean_exact; [done | lia]).
    by intros o ->.
Qed.

Definition demo_observed (name : string) (queue service : Z) (outcome : ToolOutcome) : Observed :=
  mkObserved (Journal.mkObservation name "1" ToolCall Inline "" 20 outcome) queue service 0.

Definition demo_observed_all : list Observed :=
  [demo_observed "fetch" 3 100 ToolSucceeded; demo_observed "pay" 0 7 ToolSucceeded;
   demo_observed "fetch" 6 51 ToolDeadline].

Lemma tool_statistics_are_exact_witness :
  exists stats, NewToolLatencyStats (float_of_decimal false 5 (-1)) = Ok stats
    /\ map (fun e => (te_Name e, te_Count e, te_Deadlines e, te_MeanService e, te_EWMAService e))
         (Snapshot (fun _ => 0%Z) (foldl ObserveTool (Some stats) demo_observed_all))
       = [("fetch", 2%N, 1%N, 75%Z, 75%Z); ("pay", 1%N, 0%N, 7%Z, 7%Z)]
    /\ forall e, e ∈ Snapshot (fun _ => 0%Z) (foldl ObserveTool (Some stats) demo_observed_all) ->
         exact_mean od_Queue (of_key (key_of e) demo_observed_all) (te_MeanQueue e).
Proof.
  eexists. split; [by vm_compute |]. split; [by vm_compute |]. intros e He.
  eapply (tool_statistics_are_exact (fun _ => 0%Z) (float_of_decimal false 5 (-1))); [by vm_compute | by vm_compute |].
  exact He.
Defined.

(** What is no number passes for a weight in (0, 1]. *)
Lemma nan_weight_is_accepted : exists stats, NewToolLatencyStats S754_nan = Ok stats.
Proof. by eexists. Qed.
