(* ===== verification/Bundle.v ===== *)
(** * Bundle: export and offline replay ([durable/export_replay.go])

    The exported bundle of an ended run, its validation, the offline journal
    that answers a fresh Guest from the bundle alone and the comparison of the
    terminal result.  Files, the decoder of a bundle file and the SHA-256 of
    the artifact are outside: a bundle is the decoded value, an artifact the
    pair of its identity and the Guests it runs. *)

From S2P Require Import Prelude Errors Effects Json GoTime Store Manifest Bridge.

(** ** Data *)

Definition RunBundleVersion : string := "pysolate-durable-run/v1".
Definition RunBundlePrivacyWarning : string :=
  "SENSITIVE LOCAL EXPORT: contains full source, inputs, ordered tool arguments and outcomes. Do not upload or share.".

Record BundleRun := mkBundleRun {
  br_ID : string;
  br_Code : string;
  br_Seed : string;
  br_ArtifactSHA256 : string;
  br_EnvironmentVersion : string;
  br_Inputs : string;
  br_Tools : string;
  br_Status : string;
  br_Outcome : string;
  br_Reason : string
}.

Record BundleCall := mkBundleCall {
  bc_Sequence : N;
  bc_CallID : string;
  bc_Tool : string;
  bc_OperationKey : string;
  bc_State : string;
  bc_Arguments : string;
  bc_Outcome : string
}.

Record BundleWait := mkBundleWait {
  bw_ID : string;
  bw_Sequence : N;
  bw_Kind : string;
  bw_Request : string;
  bw_Deadline : string;
  bw_DecisionResult : string;
  bw_DecisionError : string
}.

Record RunBundle := mkRunBundle {
  b_Version : string;
  b_PrivacyWarning : string;
  b_Run : BundleRun;
  b_Calls : list BundleCall;
  b_Waits : list BundleWait
}.

(** [toolDeclaration]. *)
Record toolDeclaration := mkToolDeclaration {
  td_Name : string;
  td_Version : string;
  td_Recovery : string;
  td_PythonPath : string
}.

(** ** Decoding *)

Definition decode_declaration (raw : string) : option toolDeclaration :=
  match object_members raw with
  | None => if bool_decide (raw = "null") then Some (mkToolDeclaration "" "" "" "") else None
  | Some ms =>
      let '(name, ok1) := string_field "name" ms in
      let '(version, ok2) := string_field "version" ms in
      let '(recovery, ok3) := string_field "recovery" ms in
      let '(path, ok4) := string_field "python_path" ms in
      if ok1 && ok2 && ok3 && ok4 then Some (mkToolDeclaration name version recovery path) else None
  end.

(** [json.Unmarshal] into a slice of tool declarations. *)
Definition unmarshal_declarations (raw : string) : option (list toolDeclaration) :=
  if negb (Json.valid raw) then None
  else match array_elems raw with
       | None => if bool_decide (trim raw = "null") then Some [] else None
       | Some elems => mapM decode_declaration elems
       end.

(** The wire outcome has a [value] member and decodes. *)
Definition wire_complete (outcome : string) : bool :=
  Json.valid outcome &&
  match object_members outcome with
  | None => false
  | Some ms =>
      snd (string_field "error" ms) && existsb (fun kv => names kv.1 "value") ms
  end.

(** [fmt.Errorf("%w: ...", ErrBundleInvalid)]. *)
Definition invalid {A} (m : string) : res error A := Err (EWrap "" (ESentinel ErrBundleInvalid) (": " +:+ m)).

Definition valid_if_present (raw : string) : bool := bool_decide (raw = "") || Json.valid raw.

(** ** Validation *)

Definition validateBundleRun (run : BundleRun) : res error unit :=
  if bool_decide (br_ID run = "") || bool_decide (br_Code run = "") || bool_decide (br_Seed run = "")
     || bool_decide (br_ArtifactSHA256 run = "") || bool_decide (br_EnvironmentVersion run = "")
  then invalid "incomplete run definition"
  else if negb (bool_decide (br_Status run = StatusCompleted))
          && negb (bool_decide (br_Status run = StatusFailed))
  then invalid "run status is not replayable"
  else if bool_decide (br_Inputs run = "") || negb (Json.valid (br_Inputs run))
          || negb (valid_if_present (br_Tools run))
  then invalid "run definition JSON is invalid"
  else if bool_decide (br_Outcome run = "") || negb (Json.valid (br_Outcome run))
  then invalid "terminal outcome is invalid"
  else if bool_decide (br_Status run = StatusCompleted) && negb (bool_decide (br_Reason run = ""))
  then invalid "completed run has a failure reason"
  else if bool_decide (br_Status run = StatusFailed) && bool_decide (br_Reason run = "")
  then invalid "failed run has no failure reason"
  else match (if bool_decide (br_Tools run = "") then Some [] else unmarshal_declarations (br_Tools run)) with
       | None => invalid "tool metadata is invalid"
       | Some declarations =>
           if existsb (fun d => bool_decide (td_Name d = "") || bool_decide (td_Version d = "")
                                || bool_decide (td_PythonPath d = "")) declarations
           then invalid "tool Python path metadata is missing"
           else Ok tt
       end.

Definition validateBundleCall (runID : string) (sequence : N) (call : BundleCall) : res error unit :=
  if negb (bc_Sequence call =? sequence)%N
     || negb (bool_decide (bc_CallID call = "call-" +:+ format_uint sequence))
     || bool_decide (bc_Tool call = "")
     || negb (bool_decide (bc_OperationKey call = operationKey runID sequence))
     || negb (bool_decide (bc_State call = CallCompleted))
     || bool_decide (bc_Outcome call = "")
  then invalid "call history identity is invalid"
  else if bool_decide (bc_Arguments call = "") || negb (Json.valid (bc_Arguments call))
          || negb (Json.valid (bc_Outcome call))
  then invalid "call history JSON is invalid"
  else if negb (wire_complete (bc_Outcome call))
  then invalid "call outcome is incomplete"
  else Ok tt.

Fixpoint validate_calls (runID : string) (index : N) (calls : list BundleCall) : res error unit :=
  match calls with
  | [] => Ok tt
  | call :: calls' =>
      let* _ := validateBundleCall runID (u32 index) call in
      validate_calls runID (index + 1) calls'
  end.

Fixpoint validate_waits (runID : string) (ncalls : N) (seen : list N) (waits : list BundleWait)
  : res error unit :=
  match waits with
  | [] => Ok tt
  | wait :: waits' =>
      if negb (bool_decide (bw_ID wait = waitKey runID (bw_Sequence wait)))
         || bool_decide (bw_Kind wait = "") || (u32 ncalls <=? bw_Sequence wait)%N
         || existsb (N.eqb (bw_Sequence wait)) seen
      then invalid "invalid durable wait metadata"
      else if negb (bool_decide (bw_Deadline wait = ""))
              && negb (bool_decide (is_Some (parse_rfc3339nano (bw_Deadline wait))))
      then invalid "invalid durable wait deadline"
      else if negb (valid_if_present (bw_Request wait))
      then invalid "invalid durable wait request"
      else if negb (valid_if_present (bw_DecisionResult wait))
      then invalid "invalid durable wait decision"
      else validate_waits runID ncalls (bw_Sequence wait :: seen) waits'
  end.

Definition bundle_definition (run : BundleRun) : Definition_ :=
  mkDefinition (br_ID run) (br_Code run) (br_Seed run) (br_ArtifactSHA256 run)
    (br_EnvironmentVersion run) (br_Inputs run) (br_Tools run).

(** The payload sum, in [uint64]. *)
Definition bundle_payload (bundle : RunBundle) : N :=
  let run := b_Run bundle in
  let total :=
    (definitionPayload (bundle_definition run) + slen (br_Outcome run) + slen (br_Reason run))%N in
  let total := fold_left (fun acc c => u64 (acc + (slen (bc_CallID c) + slen (bc_Tool c)
      + slen (bc_OperationKey c) + slen (bc_Arguments c) + slen (bc_Outcome c))))%N
    (b_Calls bundle) total in
  fold_left (fun acc w => u64 (acc + (slen (bw_ID w) + slen (bw_Kind w) + slen (bw_Deadline w)
      + slen (bw_Request w) + slen (bw_DecisionResult w) + slen (bw_DecisionError w))))%N
    (b_Waits bundle) total.

Definition validateRunBundle (bundle : RunBundle) : res error unit :=
  if negb (bool_decide (b_Version bundle = RunBundleVersion))
     || negb (bool_decide (b_PrivacyWarning bundle = RunBundlePrivacyWarning))
  then invalid "unsupported bundle version or privacy marker"
  else
    let* _ := validateBundleRun (b_Run bundle) in
    let* _ := match b_Calls bundle with
              | c :: _ => if negb (bc_Sequence c =? 0)%N
                          then invalid "call sequence does not start at zero" else Ok tt
              | [] => Ok tt
              end in
    let* _ := validate_calls (br_ID (b_Run bundle)) 0 (b_Calls bundle) in
    if (MaxRunPayloadBytes <? bundle_payload bundle)%N
    then invalid "bundle exceeds durable payload limit"
    else validate_waits (br_ID (b_Run bundle)) (N.of_nat (length (b_Calls bundle))) [] (b_Waits bundle).

(** ** Export *)

Definition bundle_call (c : Call) : BundleCall :=
  mkBundleCall (c_Sequence c) (c_CallID c) (c_Tool c) (c_OperationKey c) (c_State c)
    (c_Arguments c) (c_Outcome c).

(** Sequence numbers below a bound, in order. *)
Definition sequences (n : N) : list N := map N.of_nat (List.seq 0 (N.to_nat n)).

(** [exportCalls]: the rows of the run in increasing sequence. *)
Definition exportCalls (t : tables) (runID : string) : list BundleCall :=
  omap (fun s => bundle_call <$> t_calls t !! (runID, s)) (sequences (next_sequence t runID)).

(** The rows of [waits] of the run, in increasing sequence. *)
Definition wait_rows (t : tables) (runID : string) : list (string * wait_row) :=
  let rows := List.filter (fun kv => bool_decide (wr_run_id kv.2 = runID)) (map_to_list (t_waits t)) in
  let bound := fold_left (fun acc kv => N.max acc (wr_sequence kv.2 + 1)) rows 0%N in
  flat_map (fun s => List.filter (fun kv => (wr_sequence kv.2 =? s)%N) rows) (sequences bound).

Definition bundle_wait (kv : string * wait_row) : BundleWait :=
  mkBundleWait kv.1 (wr_sequence kv.2) (wr_kind kv.2) (wr_request kv.2)
    (default "" (wr_deadline kv.2)) (wr_decision_result kv.2) (wr_decision_error kv.2).

(** [exportWaits]. *)
Definition exportWaits (t : tables) (runID : string) : res error (list BundleWait) :=
  let rows := wait_rows t runID in
  if existsb (fun kv => negb (wr_resolved kv.2)) rows
  then invalid "unresolved durable wait" else Ok (map bundle_wait rows).

Definition bundle_run (r : Run) : BundleRun :=
  let d := r_Definition r in
  mkBundleRun (d_ID d) (d_Code d) (d_Seed d) (d_ArtifactSHA256 d) (d_EnvironmentVersion d)
    (d_Inputs d) (d_Tools d) (r_Status r) (r_Outcome r) (r_Reason r).

Section Exporting.
Variable faults : nat -> option error.
Variable others : nat -> tables -> tables.

(** [Store.Export]: three autocommit reads. *)
Definition Export (runID : string) : DB RunBundle :=
  if bool_decide (runID = "") then fail ErrNotFound
  else
    run <- Get faults others runID;;
    if negb (bool_decide (r_Status run = StatusCompleted))
       && negb (bool_decide (r_Status run = StatusFailed))
    then of_res (invalid "run is not an ended successful or failed run")
    else
      of_res (validateBundleRun (bundle_run run));;;
      calls <- db_query faults others (fun t => exportCalls t runID);;
      waits <- db_query faults others (fun t => exportWaits t runID);;
      waits <- of_res waits;;
      let bundle := mkRunBundle RunBundleVersion RunBundlePrivacyWarning (bundle_run run) calls waits in
      of_res (validateRunBundle bundle);;;
      ret bundle.
End Exporting.

(** ** Offline replay *)

(** [sameJSON]. *)
Definition sameJSON (left right : string) : bool :=
  match marshal_raw left, marshal_raw right with
  | Some a, Some b => bool_decide (a = b)
  | _, _ => false
  end.

(** The offline journal over a bundle's calls; its state is the index. *)
Definition offline_call (runID : string) (calls : list BundleCall) (tool args : string)
    (next : option string -> nat -> string * nat) : M nat string := fun index =>
  let sequence := u32 (N.of_nat index) in
  let mismatch r := (Err (replayMismatchAt ReplayMismatchLocationCall r sequence), index) in
  match calls !! index with
  | None => mismatch ReasonCallExcess
  | Some call =>
      if negb (bc_Sequence call =? sequence)%N then mismatch ReasonCallSequence
      else if negb (bool_decide (bc_CallID call = "call-" +:+ format_uint sequence))
      then mismatch ReasonCallID
      else if negb (bool_decide (bc_Tool call = tool)) then mismatch ReasonCallTool
      else if negb (bool_decide (bc_OperationKey call = operationKey runID sequence))
      then mismatch ReasonCallOperationKey
      else if negb (sameJSON (bc_Arguments call) args) then mismatch ReasonCallArguments
      else (Ok (bc_Outcome call), S index)
  end.

Definition offlineJournal (runID : string) (calls : list BundleCall) : Journal nat :=
  mkJournal (offline_call runID calls).

(** A tool stub of [offlineManifest]. *)
Definition denied_tool : HostTool nat :=
  mkHostTool (fun _ _ index =>
    (ToolError (EMsg "offline replay tool dispatch denied"), index)) false.

(** The entry of a declaration in the offline manifest: a stub under its path. *)
Definition offline_stub (path : string) : ToolSpec (HostTool nat) :=
  mkToolSpec (Some denied_tool) false path "" None no_annotations.

(** The loop of [offlineManifest]. *)
Fixpoint offline_manifest (declarations : list toolDeclaration) (acc : Manifest (HostTool nat))
  : res error (Manifest (HostTool nat)) :=
  match declarations with
  | [] => Ok acc
  | d :: ds =>
      match acc !! td_Name d with
      | Some _ => invalid "duplicate tool metadata"
      | None => offline_manifest ds (<[td_Name d := offline_stub (td_PythonPath d)]> acc)
      end
  end.

Definition offlineManifest (raw : string) : res error (Manifest (HostTool nat)) :=
  match (if bool_decide (raw = "") then Some [] else unmarshal_declarations raw) with
  | None => invalid "tool metadata is invalid"
  | Some declarations => offline_manifest declarations ∅
  end.

Definition compareReplay (run : BundleRun) (output : Output) (runErr : option error) : option error :=
  let '(expected, ok) := unmarshal_output (br_Outcome run) in
  let terminal r := Some (replayMismatch ReplayMismatchLocationResult r None) in
  if negb ok then Some (EWrap "" (ESentinel ErrBundleInvalid) ": terminal output is invalid")
  else if negb (sameJSON (o_Value expected) (o_Value output)) then terminal ReasonResult
  else if negb (bool_decide (o_Stdout expected = o_Stdout output)) then terminal ReasonTerminalStdout
  else if negb (bool_decide (o_Transformed expected = o_Transformed output))
  then terminal ReasonTerminalTransformed
  else if bool_decide (br_Status run = StatusCompleted) then
    match runErr with Some _ => terminal ReasonTerminalError | None => None end
  else if bool_decide (br_Status run = StatusFailed) then
    match runErr with
    | None => terminal ReasonTerminalError
    | Some e => match as_python e with
                | Some m => if bool_decide (m = br_Reason run) then None else terminal ReasonTerminalError
                | None => terminal ReasonTerminalError
                end
    end
  else Some (EWrap "" (ESentinel ErrBundleInvalid) ": unsupported terminal status").

Section Replay.
Variable json_error : string -> error.
(** The supplied Guest bytes: their identity, whether there are any, and the
    Guests the runtime loads from them, unless it refuses; the order in which Go
    visits the offline manifest. *)
Variable artifactID : string.
Variable artifact_empty : bool.
Variable load : option (string -> string -> guest).
Variable iterate : Manifest (HostTool nat) -> list (string * ToolSpec (HostTool nat)).

(** [pysolate.New] on the offline manifest: it is normalized, then the bytes are
    loaded. *)
Definition reconstruct (stubs : Manifest (HostTool nat))
  : option (Manifest (HostTool nat) * list guestToolSpec * (string -> string -> guest)) :=
  match normalizeManifest iterate stubs, load with
  | Ok (manifest, shown), Some artifact => Some (manifest, shown, artifact)
  | _, _ => None
  end.

(** [ReplayBundle]. *)
Definition ReplayBundle (bundle : RunBundle) : Output * option error :=
  match validateRunBundle bundle with
  | Err e => (no_output, Some e)
  | Ok _ =>
      if artifact_empty
      then (no_output, Some (EWrap "" (ESentinel ErrBundleInvalid) ": Guest artifact is empty"))
      else if negb (bool_decide (artifactID = br_ArtifactSHA256 (b_Run bundle)))
      then (no_output, Some (replayMismatch ReplayMismatchLocationArtifact ReasonArtifactIdentity None))
      else match offlineManifest (br_Tools (b_Run bundle)) with
      | Err e => (no_output, Some e)
      | Ok stubs =>
          match reconstruct stubs with
          | None => (no_output, Some (EWrap "" (ESentinel ErrBundleInvalid)
                                        ": Guest could not be reconstructed"))
          | Some (manifest, shown, artifact) =>
              let '(output, runErr, index) :=
                RunRecorded json_error (omap ts_Call manifest)
                  (Some (offlineJournal (br_ID (b_Run bundle)) (b_Calls bundle)))
                  artifact shown None (br_Code (b_Run bundle)) (br_Inputs (b_Run bundle))
                  (br_Seed (b_Run bundle)) 0%nat in
              let compare :=
                if negb (Nat.eqb index (length (b_Calls bundle)))
                then Some (replayMismatchAt ReplayMismatchLocationCall ReasonCallUnconsumed
                             (u32 (N.of_nat index)))
                else compareReplay (b_Run bundle) output runErr in
              match runErr with
              | None => (output, compare)
              | Some e =>
                  match as_replay e with
                  | Some m => (output, Some (EReplay m))
                  | None =>
                      if errors_is ErrBundleMismatch e then (output, Some (ESentinel ErrBundleMismatch))
                      else match as_python e with
                           | None => (output, runErr)
                           | Some _ => (output, compare)
                           end
                  end
              end
          end
      end
  end.
End Replay.
