(* ===== verification/Runner.v ===== *)
(** * Runner: attempts on durable runs ([durable/runner.go], [durable/attempt.go])

    Validation and snapshot of the tool declarations, creation of runs, the
    attempt [Resume] with every early return, cancellation and decisions, and
    the classification of an attempt's result. *)

From S2P Require Import Prelude Errors Effects Json Order GoTime Store Manifest Bridge Journal Bundle.

(** ** Tool declarations *)

Definition encode_declaration (d : toolDeclaration) : string :=
  object_of ([member "name" (marshal_string (td_Name d));
              member "version" (marshal_string (td_Version d));
              member "recovery" (marshal_string (td_Recovery d))] ++
             (if bool_decide (td_PythonPath d = "") then []
              else [member "python_path" (marshal_string (td_PythonPath d))])).

(** [legacyToolDeclaration]. *)
Definition encode_legacy (d : toolDeclaration) : string :=
  object_of [member "name" (marshal_string (td_Name d));
             member "version" (marshal_string (td_Version d));
             member "recovery" (marshal_string (td_Recovery d))].

Definition encode_declarations (l : list toolDeclaration) : string :=
  array_of (map encode_declaration l).

Definition matchesToolSnapshot (snapshot current : string) : bool :=
  bool_decide (snapshot = current)
  || match unmarshal_declarations current with
     | None => false
     | Some declarations => bool_decide (snapshot = array_of (map encode_legacy declarations))
     end.

Definition invalid_runner {A} (m : string) : res error A :=
  Err (EWrap "" (ESentinel ErrInvalidRunner) (": " +:+ m)).

(** The Python path of the manifest entry: legacy tools have none. *)
Definition spec_python_path (tool : Tool) : string :=
  if bool_decide (cap_Name (tl_Definition tool) = "") then ""
  else ts_PythonPath (cap_Spec (tl_Definition tool)).

Definition waitToolPlaceholder : host_code tool_result :=
  fun _ _ _ => ToolError (EMsg "wait tool must be resolved by the durable journal").

Definition with_identity (name : string) (call : option (host_code tool_result)) (t : Tool) : Tool :=
  mkTool (tl_Definition t) name (tl_Version t) call (tl_Recovery t) (tl_Lookup t) (tl_Wait t)
    (tl_Scheduling t) (tl_Observed t).
Definition with_scheduling (s : string) (t : Tool) : Tool :=
  mkTool (tl_Definition t) (tl_Name t) (tl_Version t) (tl_Call t) (tl_Recovery t) (tl_Lookup t)
    (tl_Wait t) s (tl_Observed t).

(** The capability identity of a tool. *)
Definition bind_identity (tool : Tool) : res error Tool :=
  let cap := tl_Definition tool in
  if bool_decide (cap_Name cap = "") then Ok tool
  else if negb (bool_decide (tl_Name tool = "")) && negb (bool_decide (tl_Name tool = cap_Name cap))
  then invalid_runner ("capability identity " +:+ quote (cap_Name cap)
                       +:+ " conflicts with tool name " +:+ quote (tl_Name tool))
  else match tl_Call tool with
       | Some _ => invalid_runner ("capability " +:+ quote (cap_Name cap) +:+ " also supplies a legacy call")
       | None => Ok (with_identity (cap_Name cap) (ts_Call (cap_Spec cap)) tool)
       end.

Definition check_scheduling (tool : Tool) : res error Tool :=
  if bool_decide (tl_Scheduling tool = "") || bool_decide (tl_Scheduling tool = Inline)
  then Ok (with_scheduling Inline tool)
  else if bool_decide (tl_Scheduling tool = ExternalIO) then
    if bool_decide (tl_Recovery tool = WaitMode)
    then invalid_runner ("wait tool " +:+ quote (tl_Name tool) +:+ " cannot use external I/O scheduling")
    else Ok tool
  else invalid_runner ("tool " +:+ quote (tl_Name tool) +:+ " has invalid scheduling class").

Definition check_recovery (tool : Tool) : res error Tool :=
  let no_call := invalid_runner ("tool " +:+ quote (tl_Name tool) +:+ " has no call") in
  let mode := tl_Recovery tool in
  if bool_decide (mode = RetrySafe) || bool_decide (mode = Idempotent) || bool_decide (mode = Manual)
  then match tl_Call tool with None => no_call | Some _ => Ok tool end
  else if bool_decide (mode = LookupMode)
  then match tl_Call tool, tl_Lookup tool with
       | None, _ => no_call
       | _, None => invalid_runner ("lookup tool " +:+ quote (tl_Name tool) +:+ " has no resolver")
       | _, _ => Ok tool
       end
  else if bool_decide (mode = WaitMode)
  then match tl_Wait tool, tl_Call tool with
       | None, _ => invalid_runner ("wait tool " +:+ quote (tl_Name tool) +:+ " has no wait declaration")
       | _, None => Ok (with_identity (tl_Name tool) (Some waitToolPlaceholder) tool)
       | _, _ => Ok tool
       end
  else invalid_runner ("tool " +:+ quote (tl_Name tool) +:+ " has no recovery declaration").

(** The declaration loop of [NewRunner]. *)
Fixpoint declare_tools (tools : list Tool) (acc : gmap string Tool) : res error (gmap string Tool) :=
  match tools with
  | [] => Ok acc
  | tool :: tools' =>
      let* tool := bind_identity tool in
      if bool_decide (tl_Name tool = "") || bool_decide (tl_Version tool = "")
      then invalid_runner "tool name and version are required"
      else if bool_decide (is_Some (acc !! tl_Name tool))
      then invalid_runner ("duplicate tool " +:+ quote (tl_Name tool))
      else
        let* tool := check_scheduling tool in
        let* tool := check_recovery tool in
        declare_tools tools' (<[tl_Name tool := tool]> acc)
  end.

Definition declaration (tool : Tool) : toolDeclaration :=
  mkToolDeclaration (tl_Name tool) (tl_Version tool) (tl_Recovery tool)
    (if bool_decide (spec_python_path tool = "") then tl_Name tool else spec_python_path tool).

Definition declared_before (a b : toolDeclaration) : bool := str_lt (td_Name a) (td_Name b).

Definition declarations (tools : gmap string Tool) : list toolDeclaration :=
  sort_by declared_before (map (fun kv => declaration kv.2) (map_to_list tools)).

Definition tool_snapshot (tools : gmap string Tool) : string := encode_declarations (declarations tools).

(** The entry of a tool in the manifest of the core.  Its call is the closure
    [scheduledTool(tool)], named by the tool; a legacy declaration has nothing
    else. *)
Definition tool_spec (tool : Tool) : ToolSpec Tool :=
  let spec := cap_Spec (tl_Definition tool) in
  if bool_decide (cap_Name (tl_Definition tool) = "")
  then mkToolSpec (Some tool) false "" "" None no_annotations
  else mkToolSpec (Some tool) (ts_AllowEarlyRead spec) (ts_PythonPath spec) (ts_Description spec)
         (ts_InputSchema spec) (ts_Annotations spec).

Definition tool_manifest (tools : gmap string Tool) : Manifest Tool := tool_spec <$> tools.

Record Preparation := mkPreparation { pr_Seed : string; pr_COW : bool; pr_COWDataImage : bool }.

(** [Runner]: the pinned part; of the core, the artifact and what its Guests
    are shown of the tools. *)
Record Runner := mkRunner {
  rn_preparedSeed : string;
  rn_artifactSHA256 : string;
  rn_environmentVersion : string;
  rn_tools : gmap string Tool;
  rn_toolSnapshot : string;
  rn_guestManifest : list guestToolSpec
}.

(** [NewRunner].  The core is made by [New] or a [NewPrepared...]: the artifact
    is rewritten first for a data image, which may fail ([image_error]); the
    manifest is normalized; the rest may fail ([core_error]) or give a core of
    the identity [artifactID]. *)
Definition NewRunner (iterate : Manifest Tool -> list (string * ToolSpec Tool))
    (store_nil artifact_empty : bool) (environmentVersion : string)
    (tools : list Tool) (preparation : list Preparation)
    (artifactID : string) (image_error core_error : option error) : res error Runner :=
  if store_nil || artifact_empty || bool_decide (environmentVersion = "") then Err (ESentinel ErrInvalidRunner)
  else
    let* seed := match preparation with
                 | [] => Ok ""
                 | [p] => if bool_decide (pr_Seed p = "") || (pr_COWDataImage p && negb (pr_COW p))
                          then Err (ESentinel ErrInvalidRunner) else Ok (pr_Seed p)
                 | _ => Err (ESentinel ErrInvalidRunner)
                 end in
    let* toolMap := declare_tools tools ∅ in
    match image_error with
    | Some e => Err e
    | None =>
        let* core := normalizeManifest iterate (tool_manifest toolMap) in
        match core_error with
        | Some e => Err e
        | None => Ok (mkRunner seed artifactID environmentVersion toolMap (tool_snapshot toolMap) core.2)
        end
    end.

(** ** Attempt results ([attempt.go]) *)

Inductive State := StateCompleted | StateParked | StateBlocked | StateFailed | StateCancelled.

Inductive FailureKind := FailurePython | FailureRecovery | FailureCancellation.

Record Failure := mkFailure { fl_Kind : FailureKind; fl_Message : string }.

Record Park := mkPark {
  pk_Kind : string;
  pk_RunID : string;
  pk_WaitID : string;
  pk_Sequence : N;
  pk_Reason : string
}.

(** [Result]; the state is absent when an infrastructure error is returned. *)
Record Result := mkResult {
  re_State : option State;
  re_Output : Output;
  re_Park : option Park;
  re_Failure : option Failure
}.

Definition asPark (err : error) : option Park :=
  match as_park err with
  | None => None
  | Some p =>
      let kind := if bool_decide (pe_Kind p = "")
                  then (if bool_decide (pe_WaitID p = "") then ParkLookup else ParkWait)
                  else pe_Kind p in
      Some (mkPark kind (pe_RunID p) (pe_WaitID p) (pe_Sequence p) (pe_Reason p))
  end.

Definition parkError (park : option Park) : error :=
  match park with
  | None => ESentinel ErrParked
  | Some p => EPark (mkParkError (pk_Kind p) (pk_RunID p) (pk_WaitID p) (pk_Sequence p) (pk_Reason p))
  end.

Definition classifyAttemptResult (output : Output) (err : option error) : Result * option error :=
  match err with
  | None => (mkResult (Some StateCompleted) output None None, None)
  | Some e =>
      match asPark e with
      | Some p => (mkResult (Some StateParked) output (Some p) None, None)
      | None =>
          if errors_is ErrBlocked e
          then (mkResult (Some StateBlocked) output None (Some (mkFailure FailureRecovery (error_text e))), None)
          else match as_python e with
          | Some m => (mkResult (Some StateFailed) output None (Some (mkFailure FailurePython m)), None)
          | None =>
              if errors_is ErrCancelled e
              then (mkResult (Some StateCancelled) output None
                      (Some (mkFailure FailureCancellation (error_text e))), None)
              else (mkResult None output None None, Some e)
          end
      end
  end.

(** ** Runner operations *)

Section Runner.
Variable faults : nat -> option error.
Variable others : nat -> tables -> tables.
Variable openRunLock : nat -> option error.
Variable now : nat -> Time.
Variable yieldExecution : list event -> option error.
Variable reacquireExecution : list event -> option error.
Variable json_error : string -> error.
(** The Guests of the artifact and the manifest they are shown. *)
Variable artifact : string -> string -> guest.
Variable guestManifest : list guestToolSpec.
(** Whether [Close] has been called, read at a tick. *)
Variable closed : nat -> bool.
Variable runner : Runner.

Definition with_tools (tools : string) (d : Definition_) : Definition_ :=
  mkDefinition (d_ID d) (d_Code d) (d_Seed d) (d_ArtifactSHA256 d) (d_EnvironmentVersion d)
    (d_Inputs d) tools.

(** [runner.validateDefinition]. *)
Definition validatePinned (definition : Definition_) : option error :=
  if bool_decide (d_ID definition = "") || bool_decide (d_Code definition = "")
     || bool_decide (d_Seed definition = "")
     || negb (bool_decide (d_EnvironmentVersion definition = rn_environmentVersion runner))
     || negb (bool_decide (d_ArtifactSHA256 definition = rn_artifactSHA256 runner))
  then Some (EWrap "" (ESentinel ErrInvalidRunner) ": pinned definition does not match runner")
  else if bool_decide (d_Inputs definition = "") || negb (Json.valid (d_Inputs definition))
  then Some (EWrap "" (ESentinel ErrInvalidRunner) ": invalid inputs")
  else if bool_decide (d_Tools definition = "")
          || negb (matchesToolSnapshot (d_Tools definition) (rn_toolSnapshot runner))
  then Some (EWrap "" (ESentinel ErrInvalidRunner) ": tool declaration snapshot does not match runner")
  else None.

(** [runner.Create]. *)
Definition CreateRun (definition : Definition_) : DB Run :=
  if bool_decide (rn_toolSnapshot runner = "") then fail ErrInvalidRunner
  else if negb (bool_decide (d_Tools definition = ""))
          && negb (matchesToolSnapshot (d_Tools definition) (rn_toolSnapshot runner))
  then fail (EWrap "" (ESentinel ErrInvalidRunner) ": tool declaration snapshot does not match runner")
  else
    let definition := with_tools (rn_toolSnapshot runner) definition in
    match validatePinned definition with
    | Some e => fail e
    | None => Create faults others definition;;; Get faults others (d_ID definition)
    end.

Definition result : Type := Output * option error.

Definition blocked_by (e : error) : error := EJoin [ESentinel ErrBlocked; e].

(** [blockAttempt]. *)
Definition blockAttempt (runID reason : string) (h : host) : error * host :=
  match on_db (SetState faults others runID StatusBlocked "" reason) h with
  | (Err e, h') => (blocked_by e, h')
  | (Ok _, h') => (EWrap "" (ESentinel ErrBlocked) (": " +:+ reason), h')
  end.

(** A terminal state: when the store refuses it, a cancellation that won the
    race is reported as such. *)
Definition finish_with (runID status stored reason : string) (output : Output)
    (success : option error) (h : host) : result * host :=
  match on_db (SetState faults others runID status stored reason) h with
  | (Ok _, h') => ((output, success), h')
  | (Err stateErr, h') =>
      match on_db (Get faults others runID) h' with
      | (Ok current, h'') =>
          if bool_decide (r_Status current = StatusCancelled)
          then ((output, Some (ESentinel ErrCancelled)), h'')
          else ((output, Some stateErr), h'')
      | (Err _, h'') => ((output, Some stateErr), h'')
      end
  end.

(** What an ended run answers without executing anything. *)
Definition stored_result (run : Run) : result :=
  let '(output, ok) := unmarshal_output (r_Outcome run) in
  if bool_decide (r_Outcome run = "") || negb ok
  then (output, Some (EWrap "" (ESentinel ErrInvalidRunner) ": stored output is invalid"))
  else if bool_decide (r_Status run = StatusFailed) then (output, Some (EPython (r_Reason run)))
  else (output, None).

(** The end of an attempt that ran the Guest: [output] and [runErr]. *)
Definition conclude (runID : string) (output : Output) (runErr : option error) (h : host)
  : result * host :=
  match on_db (Get faults others runID) h with
  | (Err statusErr, h) => ((output, Some statusErr), h)
  | (Ok latest, h) =>
      if bool_decide (r_Status latest = StatusCancelled)
      then ((output, Some (ESentinel ErrCancelled)), h)
      else
        let pythonErr := from_option as_python None runErr in
        let completed := bool_decide (runErr = None) || bool_decide (is_Some pythonErr) in
        let '(remaining, h) :=
          if completed
          then on_db (hasCall faults others runID (js_sequence (h_journal h))) h
          else (Ok false, h) in
        match remaining with
        | Err countErr => ((output, Some countErr), h)
        | Ok true =>
            let '(e, h) := blockAttempt runID "recorded call history was not fully consumed" h in
            ((output, Some e), h)
        | Ok false =>
            match runErr with
            | None =>
                match marshal_output output with
                | None => ((output, Some (json_error (o_Value output))), h)
                | Some stored => finish_with runID StatusCompleted stored "" output None h
                end
            | Some e =>
                match pythonErr with
                | Some message =>
                    match marshal_output output with
                    | None => ((output, Some (json_error (o_Value output))), h)
                    | Some stored => finish_with runID StatusFailed stored message output runErr h
                    end
                | None =>
                    if errors_is ErrHistoryMismatch e || errors_is ErrBlocked e
                    then let '(e', h) := blockAttempt runID (error_text e) h in
                         ((output, Some e'), h)
                    else ((output, Some e), h)
                end
            end
        end
  end.

(** The Guest of an attempt, over a fresh journal. *)
Definition run_attempt (run : Run) (runID : string) (h : host) : Output * option error * host :=
  let d := r_Definition run in
  RunRecorded json_error
    (durable_manifest yieldExecution reacquireExecution (rn_tools runner))
    (Some (durable_journal faults others now yieldExecution reacquireExecution
             (rn_tools runner) runID))
    artifact guestManifest
    (if bool_decide (rn_preparedSeed runner = "") then None else Some (rn_preparedSeed runner))
    (d_Code d) (d_Inputs d) (d_Seed d) (set_journal fresh_journal h).

(** After the claim: the run is read, checked and executed. *)
Definition resume_claimed (runID : string) (h : host) : result * host :=
  match on_db (Get faults others runID) h with
  | (Err e, h) => ((no_output, Some e), h)
  | (Ok run, h) =>
      if bool_decide (r_Status run = StatusBlocked)
      then ((no_output, Some (EWrap "" (ESentinel ErrBlocked) (": " +:+ r_Reason run))), h)
      else match validatePinned (r_Definition run) with
      | Some definitionErr =>
          match on_db (SetState faults others runID StatusBlocked "" (error_text definitionErr)) h with
          | (Err blockErr, h) =>
              ((no_output, Some (blocked_by (if errors_is ErrConflict blockErr then definitionErr
                                             else blockErr))), h)
          | (Ok _, h) => ((no_output, Some (blocked_by definitionErr)), h)
          end
      | None =>
          if bool_decide (r_Status run = StatusCancelled)
          then ((no_output, Some (ESentinel ErrCancelled)), h)
          else if bool_decide (r_Status run = StatusCompleted)
                  || bool_decide (r_Status run = StatusFailed)
          then (stored_result run, h)
          else if negb (bool_decide (rn_preparedSeed runner = ""))
                  && negb (bool_decide (d_Seed (r_Definition run) = rn_preparedSeed runner))
          then ((no_output, Some (EWrap "" (ESentinel ErrInvalidRunner)
                                    ": preparation seed does not match run")), h)
          else if closed (w_ticks (h_db h))
          then ((no_output, Some (ESentinel ErrInvalidRunner)), h)
          else match on_db (Get faults others runID) h with
          | (Err e, h) => ((no_output, Some e), h)
          | (Ok latest, h) =>
              if bool_decide (r_Status latest = StatusCancelled)
              then ((no_output, Some (ESentinel ErrCancelled)), h)
              else
                let '(output, runErr, h) := run_attempt run runID h in
                conclude runID output runErr h
          end
      end
  end.

(** [runner.Resume]. *)
Definition Resume (runID : string) (h : host) : result * host :=
  if bool_decide (runID = "") then ((no_output, Some (ESentinel ErrInvalidRunner)), h)
  else if closed (w_ticks (h_db h)) then ((no_output, Some (ESentinel ErrInvalidRunner)), h)
  else match on_db (Claim faults others openRunLock runID) h with
       | (Err e, h) => ((no_output, Some e), h)
       | (Ok _, h) => resume_claimed runID h
       end.

(** [runner.Advance]. *)
Definition Advance (runID : string) (h : host) : Result * option error * host :=
  let '((output, err), h') := Resume runID h in (classifyAttemptResult output err, h').

(** [runner.Decide]. *)
Definition Decide (waitID : string) (decision : Decision) : DB unit :=
  if bool_decide (waitID = "") then fail ErrInvalidRunner
  else ResolveWait faults others waitID decision.

(** [runner.Cancel], the durable part; the local attempt's context is then
    cancelled. *)
Definition Cancel (runID : string) : DB unit :=
  if bool_decide (runID = "") then fail ErrInvalidRunner
  else SetState faults others runID StatusCancelled "" "cancelled".

Definition GetRun (runID : string) : DB Run :=
  if bool_decide (runID = "") then fail ErrInvalidRunner else Get faults others runID.
End Runner.
