(* ===== verification/RunnerSpec.v ===== *)
(** * RunnerSpec: attempts and their replay

    A Guest run over the durable journal keeps the effect discipline [ext],
    and whenever the journal did not stop it, the same Guest run over the
    offline journal of the recorded calls ends the same way, with the same
    output, consuming exactly the calls of the attempt. *)

From S2P Require Import Prelude Errors Effects Json GoTime Store StoreSpec StoreInv Manifest Bridge Journal JournalSpec Bundle Runner.

(** ** Compaction accepts what the scanner accepts *)

Lemma compact_accepts sc s sc' k :
  scan_all sc s = Some sc' -> scan_eof sc' = true -> is_Some (compact_from k sc s).
Proof.
  revert sc k. induction s as [| c s IH]; intros sc k; simpl.
  - intros [= ->] ->. eauto.
  - destruct (scan sc c) as [sc1 |] eqn:Hs; [| done]. intros Hall Heof.
    assert (forall k, is_Some (compact_from k sc1 s)) as Hk by eauto.
    assert (forall k (f : string -> string), is_Some (f <$> compact_from k sc1 s)) as Hf.
    { intros k' f. destruct (Hk k') as [x ->]. by eexists. }
    repeat case_match; auto.
Qed.

Lemma sameJSON_refl s : Json.valid s = true -> sameJSON s s = true.
Proof.
  intros Hv. unfold sameJSON, marshal_raw.
  destruct s as [| c s]; [by rewrite bool_decide_eq_true_2 |].
  unfold Json.valid in Hv. destruct (scan_all scan_init (String c s)) eqn:Hall; [| done].
  destruct (compact_accepts _ _ _ 0 Hall Hv) as [x Hx]. rewrite Hx. by rewrite bool_decide_eq_true_2.
Qed.

(** ** Recorded calls *)

(** The bundle's calls below [n] are valid and are the rows of [T]. *)
Definition recorded (T : tables) (runID : string) (calls : list BundleCall) (n : N) : Prop :=
  forall i, (i < n)%N -> exists call row, calls !! N.to_nat i = Some call
    /\ validateBundleCall runID i call = Ok tt
    /\ t_calls T !! (runID, i) = Some row /\ call = bundle_call row.

Lemma recorded_le T runID calls n m : (m <= n)%N -> recorded T runID calls n -> recorded T runID calls m.
Proof. intros Hle Hr i Hi. apply Hr. lia. Qed.

Lemma validateBundleCall_Ok runID seq call :
  validateBundleCall runID seq call = Ok tt ->
  bc_Sequence call = seq /\ bc_CallID call = "call-" +:+ format_uint seq
  /\ bc_OperationKey call = operationKey runID seq /\ Json.valid (bc_Arguments call) = true.
Proof.
  unfold validateBundleCall, invalid. repeat case_match; intros; simplify_eq; guards.
  by split_and!.
Qed.

Lemma offline_call_recorded T runID calls n i tool args next row :
  recorded T runID calls n -> (i < n)%N -> (n <= maxToolCalls)%N ->
  t_calls T !! (runID, i) = Some row -> c_Tool row = tool -> c_Arguments row = args ->
  offline_call runID calls tool args next (N.to_nat i) = (Ok (c_Outcome row), S (N.to_nat i)).
Proof.
  intros Hrec Hi Hn Hrow Htool Hargs. destruct (Hrec i Hi) as (call & row' & Hcall & Hv & Hrow' & ->).
  rewrite Hrow in Hrow'. simplify_eq.
  destruct (validateBundleCall_Ok _ _ _ Hv) as (Hs & Hid & Hkey & Hargs).
  unfold offline_call. rewrite Hcall, N2Nat.id.
  assert (u32 i = i) as -> by (apply u32_id; unfold maxToolCalls in Hn; lia).
  rewrite Hs, N.eqb_refl, Hid, Hkey. simpl.
  rewrite !bool_decide_eq_true_2 by done. simpl. simpl in Hargs. by rewrite (sameJSON_refl _ Hargs).
Qed.

Section Attempt.
Variable faults : nat -> option error.
Variable others : nat -> tables -> tables.
Variable now : nat -> Time.
Variable yieldExecution : list event -> option error.
Variable reacquireExecution : list event -> option error.
Variable json_error : string -> error.
Variable tools : gmap string Tool.
Variable runID : string.
Hypothesis others_ok : forall n t, rtc store_next t (others n t).
Hypothesis tools_named : forall name d, tools !! name = Some d -> tl_Name d = name.

Notation ext := (ext tools runID).
Notation manifest := (durable_manifest yieldExecution reacquireExecution tools).
Notation journal :=
  (durable_journal faults others now yieldExecution reacquireExecution tools runID).

(** The state between two host calls of a recorded Guest. *)
Record running (st : runState) (h : host) : Prop := {
  rn_wf : wf (tabs h);
  rn_window : window runID h;
  rn_enabled : rs_enabled st = false;
  rn_futures : rs_futures st = ∅;
  rn_control : rs_controlErr st = None;
  rn_calls : js_sequence (h_journal h) = rs_calls st;
  rn_budget : (rs_calls st <= maxToolCalls)%N;
  rn_rows : forall i, (i < rs_calls st)%N -> is_Some (t_calls (tabs h) !! (runID, i))
}.

(** One host call of the recorded Guest and its offline twin. *)
Definition call_ok (offline : gmap string (HostTool nat)) (st : runState) (h : host)
    (p : option string * runState * host)
    (twin : list BundleCall -> option string * runState * nat) : Prop :=
  let '(response, st', h') := p in
  ext h h' /\
  match rs_controlErr st' with
  | Some _ => True
  | None =>
      running st' h' /\ (rs_calls st <= rs_calls st')%N
      /\ forall T calls, rtc store_next (tabs h') T -> recorded T runID calls (rs_calls st') ->
           twin calls = (response, st', N.to_nat (rs_calls st'))
  end.

Lemma invoke_ok offline request st h :
  running st h ->
  call_ok offline st h (invoke manifest (Some journal) request st h)
    (fun calls => invoke offline (Some (offlineJournal runID calls)) request st
                    (N.to_nat (rs_calls st))).
Proof.
  intros Hrun. pose proof Hrun as [Hwf Hwin Hen Hfut Hctl Hseq Hbud Hrows].
  unfold call_ok, invoke. rewrite Hctl.
  destruct (maxToolCalls <=? rs_calls st)%N eqn:Hfull; guards.
  { split; [apply ext_refl |]. rewrite Hctl. split; [done |]. split; [lia |]. auto. }
  simpl. destruct request as [tool args]. simpl.
  pose proof (eff_journal_call faults others now yieldExecution reacquireExecution tools runID
                others_ok tools_named h tool args Hwf Hwin) as Hcall.
  assert (js_sequence (h_journal h) + 1 < 2 ^ 32)%N as Hsmall
    by (unfold maxToolCalls in *; lia).
  specialize (Hcall Hsmall). unfold eff in Hcall.
  destruct (journal_call _ _ _ _ _ _ _ _ _ _ h) as [[r | e] h'].
  2:{ split; [done |]. done. }
  destruct Hcall as [He ((row & Hrow & Htool & Hargs & Hst & Hout) & Hadv & Hwin')].
  split; [done |]. simpl. rewrite Hctl. unfold advanced in Hadv.
  assert (wf (tabs h')) as Hwf' by (eapply ext_wf; [exact Hwf | exact He]).
  rewrite Hseq in Hrow.
  split; [split; simpl; try done; [by rewrite Hadv, Hseq | lia |] |].
  { intros i Hi. apply (wf_contiguous _ Hwf' _ (rs_calls st)); [by eexists | lia]. }
  split; [lia |]. intros T calls HT Hrec.
  pose proof (completed_stays _ _ _ _ Hwf' HT Hrow Hst) as HrowT.
  rewrite (offline_call_recorded T runID calls (rs_calls st + 1) (rs_calls st) tool args _ row);
    try done; try lia.
  rewrite Hout. do 2 f_equal. lia.
Qed.

Lemma resolve_ok offline id request st h :
  running st h ->
  call_ok offline st h (resolve manifest (Some journal) id request st h)
    (fun calls => resolve offline (Some (offlineJournal runID calls)) id request st
                    (N.to_nat (rs_calls st))).
Proof.
  intros Hrun. unfold resolve. destruct (id =? 0)%N; [by apply invoke_ok |].
  pose proof Hrun as [Hwf Hwin Hen Hfut Hctl Hseq Hbud Hrows].
  rewrite Hfut, lookup_empty. unfold call_ok. split; [apply ext_refl |]. rewrite Hctl.
  split; [done |]. split; [lia |]. auto.
Qed.

(** Early reads are off in recorded runs. *)
Lemma prepare_off {S} (m : gmap string (HostTool S)) request st s :
  rs_enabled st = false -> prepare m request st s = (0%N, st, s).
Proof. intros Hen. unfold prepare. destruct (m !! _); [| done]. by rewrite Hen. Qed.

(** The end of a recorded Guest and its offline twin. *)
Definition end_ok (st : runState) (h : host) (p : guest_end * string * host)
    (twin : list BundleCall -> guest_end * string * nat) : Prop :=
  let '(e, stdout, h') := p in
  ext h h' /\
  match e with
  | Stopped _ => True
  | _ =>
      (rs_calls st <= js_sequence (h_journal h') <= maxToolCalls)%N
      /\ (forall i, (i < js_sequence (h_journal h'))%N -> is_Some (t_calls (tabs h') !! (runID, i)))
      /\ forall T calls, rtc store_next (tabs h') T ->
           recorded T runID calls (js_sequence (h_journal h')) ->
           twin calls = (e, stdout, N.to_nat (js_sequence (h_journal h')))
  end.

Lemma deliver_ok offline st h capacity p twin k k' stdout :
  wf (tabs h) -> call_ok offline st h p twin ->
  (forall r st' h', running st' h' ->
     end_ok st' h' (k r st' h') (fun calls => k' calls r st' (N.to_nat (rs_calls st')))) ->
  end_ok st h (deliver capacity p k stdout)
    (fun calls => deliver capacity (twin calls) (k' calls) stdout).
Proof.
  intros Hwf Hcall Hk. destruct p as [[response st'] h']. destruct Hcall as [He Hrest].
  unfold deliver at 1. destruct (rs_controlErr st') eqn:Hctl; [by split |].
  destruct Hrest as (Hrun & Hle & Htwin).
  specialize (Hk (writeResponse capacity (default "" response)) st' h' Hrun).
  destruct (k _ st' h') as [[e stdout'] h''] eqn:Hkeq. destruct Hk as [He' Hend].
  split; [by apply (ext_trans tools runID h h') |].
  assert (forall T, rtc store_next (tabs h'') T -> rtc store_next (tabs h') T) as Htr.
  { intros T HT. etrans; [apply He' | done]. }
  assert ((rs_calls st' <= js_sequence (h_journal h'') <= maxToolCalls)%N ->
    (forall i, (i < js_sequence (h_journal h''))%N -> is_Some (t_calls (tabs h'') !! (runID, i))) ->
    (forall T calls, rtc store_next (tabs h'') T ->
       recorded T runID calls (js_sequence (h_journal h'')) ->
       k' calls (writeResponse capacity (default "" response)) st' (N.to_nat (rs_calls st'))
       = (e, stdout', N.to_nat (js_sequence (h_journal h'')))) ->
    (rs_calls st <= js_sequence (h_journal h'') <= maxToolCalls)%N
    /\ (forall i, (i < js_sequence (h_journal h''))%N -> is_Some (t_calls (tabs h'') !! (runID, i)))
    /\ forall T calls, rtc store_next (tabs h'') T ->
         recorded T runID calls (js_sequence (h_journal h'')) ->
         deliver capacity (twin calls) (k' calls) stdout
         = (e, stdout', N.to_nat (js_sequence (h_journal h'')))) as Hgo.
  { intros Hb Hr Ht. split; [lia |]. split; [done |]. intros T calls HT Hrec.
    rewrite (Htwin T calls); [| by apply Htr | apply (recorded_le _ _ _ (js_sequence (h_journal h''))); [lia | done]].
    unfold deliver. rewrite Hctl. eauto. }
  destruct e; [| | done]; destruct Hend as (? & ? & ?); by apply Hgo.
Qed.

(** Every Guest, from every point of an attempt. *)
Lemma exec_guest_ok offline g st stdout h :
  running st h ->
  end_ok st h (exec_guest json_error manifest (Some journal) g st stdout h)
    (fun calls => exec_guest json_error offline (Some (offlineJournal runID calls)) g st stdout
                    (N.to_nat (rs_calls st))).
Proof.
  revert st stdout h.
  induction g as [text k IH | data cap k IH | data k IH | id data cap k IH | response | e stderr];
    intros st stdout h Hrun; simpl.
  - destruct (boundedWrite stdout text) as [stdout' ok]. by apply IH.
  - apply (deliver_ok offline); [apply Hrun | | intros; by apply IH].
    destruct (readRequest json_error data) as [request | e]; [by apply invoke_ok |].
    split; [apply ext_refl |]. rewrite (rn_control _ _ Hrun). split; [done |]. split; [lia |]. auto.
  - destruct (readRequest json_error data) as [request | e]; [| by apply IH].
    rewrite !prepare_off by apply Hrun. by apply IH.
  - apply (deliver_ok offline); [apply Hrun | | intros; by apply IH].
    destruct (readRequest json_error data) as [request | e]; [by apply resolve_ok |].
    split; [apply ext_refl |]. rewrite (rn_control _ _ Hrun). split; [done |]. split; [lia |]. auto.
  - split; [apply ext_refl |]. pose proof Hrun as [_ _ _ _ _ Hseq Hbud Hrows].
    rewrite Hseq. split; [lia |]. split; [done |]. auto.
  - split; [apply ext_refl |]. pose proof Hrun as [_ _ _ _ _ Hseq Hbud Hrows].
    rewrite Hseq. split; [lia |]. split; [done |]. auto.
Qed.
End Attempt.

(** ** Whole attempts *)

Section Resume.
Variable faults : nat -> option error.
Variable others : nat -> tables -> tables.
Variable openRunLock : nat -> option error.
Variable now : nat -> Time.
Variable yieldExecution : list event -> option error.
Variable reacquireExecution : list event -> option error.
Variable json_error : string -> error.
Variable artifact : string -> string -> guest.
Variable guestManifest : list guestToolSpec.
Variable closed : nat -> bool.
Variable runner : Runner.
Variable runID : string.
Hypothesis others_ok : forall n t, rtc store_next t (others n t).
Hypothesis tools_named : forall name d, rn_tools runner !! name = Some d -> tl_Name d = name.

Notation ext := (ext (rn_tools runner) runID).

(** A store operation that follows the specification. *)
Definition moves {A} (m : DB A) : Prop := op_post others m (fun t _ t' => rtc store_next t t').

Lemma moves_of {A} (m : DB A) P :
  op_post others m P -> (forall t a t', P t a t' -> rtc store_next t t') -> moves m.
Proof. intros Hp HP w. specialize (Hp w). destruct (m w) as [[a | e] w']; eauto. Qed.

Lemma moves_tables {A} (m : DB A) h : moves m -> rtc store_next (tabs h) (tabs (on_db m h).2).
Proof.
  intros Hm. unfold on_db, lift. specialize (Hm (h_db h)).
  destruct (m (h_db h)) as [[a | e] w']; unfold tabs; simpl.
  - etrans; [apply others_ok | exact Hm].
  - destruct Hm as [-> | ->]; [apply others_ok | done].
Qed.

Lemma ext_db {A} (m : DB A) h : moves m -> ext h (on_db m h).2.
Proof.
  intros Hm. apply ext_same; [by apply moves_tables |].
  unfold on_db, lift. by destruct (m (h_db h)).
Qed.

Lemma ext_db_eq {A} (m : DB A) h r h' : moves m -> on_db m h = (r, h') -> ext h h'.
Proof. intros Hm Heq. pose proof (ext_db m h Hm) as He. by rewrite Heq in He. Qed.

Lemma moves_get id : moves (Get faults others id).
Proof. eapply moves_of; [apply get_post |]. by intros t a t' [-> _]. Qed.

Lemma moves_has id s : moves (hasCall faults others id s).
Proof. eapply moves_of; [apply has_call_post |]. by intros t a t' [-> _]. Qed.

Lemma state_next t id st out re t' :
  (t' = t /\ exists run, t_runs t !! id = Some run
                        /\ run = mkRun (r_Definition run) st out re
                        /\ terminalStatus st = true)
  \/ store_step (EvState id st out re) t t' -> rtc store_next t t'.
Proof. intros [[-> _] | Hs]; [done |]. apply rtc_once. by eexists. Qed.

Lemma moves_set_state id st out re : moves (SetState faults others id st out re).
Proof. eapply moves_of; [apply set_state_post |]. intros t a t'. apply state_next. Qed.

Lemma moves_claim id : moves (Claim faults others openRunLock id).
Proof.
  intros w. unfold Claim. destruct (_ || _); [by right |].
  pose proof (get_post faults others id w) as Hg. unfold bind.
  destruct (Get _ _ _ w) as [[a | e] w']; [| done]. destruct Hg as [Ht _].
  destruct (openRunLock _); [by left | by rewrite Ht].
Qed.

Lemma ext_finish_with id status stored reason output success h :
  wf (tabs h) -> ext h (finish_with faults others id status stored reason output success h).2.
Proof.
  intros Hwf. unfold finish_with.
  destruct (on_db (SetState _ _ _ _ _ _) h) as [[u | e] h1] eqn:H1;
    apply ext_db_eq in H1; try apply moves_set_state; [done |].
  destruct (on_db (Get _ _ _) h1) as [[run | e2] h2] eqn:H2;
    apply ext_db_eq in H2; try apply moves_get.
  - case_match; by apply (ext_trans _ _ h h1).
  - by apply (ext_trans _ _ h h1).
Qed.

Lemma ext_blockAttempt id reason h : ext h (blockAttempt faults others id reason h).2.
Proof.
  unfold blockAttempt.
  destruct (on_db (SetState _ _ _ _ _ _) h) as [[u | e] h1] eqn:H1;
    apply ext_db_eq in H1; try apply moves_set_state; done.
Qed.

Lemma ext_blocked_then id reason h (f : error -> result) :
  ext h (let '(e, h') := blockAttempt faults others id reason h in (f e, h')).2.
Proof. pose proof (ext_blockAttempt id reason h). by destruct (blockAttempt _ _ _ _ _). Qed.

Lemma ext_conclude output runErr h :
  wf (tabs h) -> ext h (conclude faults others json_error runID output runErr h).2.
Proof.
  intros Hwf. unfold conclude.
  destruct (on_db (Get _ _ _) h) as [[run | e] h1] eqn:H1;
    apply ext_db_eq in H1; try apply moves_get; [| done].
  case_match; [done |].
  assert (wf (tabs h1)) as Hwf1 by (eapply ext_wf; [exact Hwf | exact H1]).
  set (completed := bool_decide _ || bool_decide _).
  assert (exists rem h2, (if completed
      then on_db (hasCall faults others runID (js_sequence (h_journal h1))) h1
      else (Ok false, h1)) = (rem, h2) /\ ext h1 h2) as (rem & h2 & -> & H2).
  { destruct completed; [| by exists (Ok false), h1; split; [| apply ext_refl]].
    destruct (on_db _ h1) as [rem h2] eqn:H2. exists rem, h2. split; [done |].
    eapply ext_db_eq; [| exact H2]. apply moves_has. }
  assert (ext h h2) as H02 by (by apply (ext_trans _ _ h h1)).
  assert (wf (tabs h2)) as Hwf2 by (eapply ext_wf; [exact Hwf | exact H02]).
  apply (ext_trans _ _ h h2); [done.. |].
  assert (forall r : result, ext h2 (r, h2).2) as Hstay by (intros; apply ext_refl).
  destruct rem as [[] | e]; [apply ext_blocked_then | | apply Hstay].
  destruct runErr as [e |].
  - destruct (from_option as_python None (Some e)) as [m |].
    + destruct (marshal_output output); [by apply ext_finish_with | apply Hstay].
    + case_match; [apply ext_blocked_then | apply Hstay].
  - destruct (marshal_output output); [by apply ext_finish_with | apply Hstay].
Qed.

Lemma running_fresh h : wf (tabs h) -> running runID (newRun false) (set_journal fresh_journal h).
Proof.
  intros Hwf. split; simpl; try done.
  intros i Hi. lia.
Qed.

Lemma ext_run_attempt run h :
  wf (tabs h) ->
  ext h (run_attempt faults others now yieldExecution reacquireExecution json_error artifact
           guestManifest runner run runID h).2.
Proof.
  intros Hwf. unfold run_attempt, RunRecorded.
  assert (ext h (set_journal fresh_journal h)) as H0 by (by apply ext_same).
  destruct (bool_decide (d_Seed _ = "")); [exact H0 |].
  destruct (negb _); [exact H0 |]. unfold Bridge.run.
  destruct (marshalRunRequest _ _ _ _ _ _) as [a | e]; [| exact H0].
  pose proof (exec_guest_ok faults others now yieldExecution reacquireExecution json_error
                (rn_tools runner) runID others_ok tools_named ∅
                (artifact (d_Seed (r_Definition run)) a) (newRun false) ""
                _ (running_fresh h Hwf)) as Hend.
  unfold end_ok in Hend. destruct (exec_guest _ _ _ _ _ _ _) as [[e out] h'].
  destruct Hend as [Hext _]. by apply (ext_trans _ _ h (set_journal fresh_journal h)).
Qed.

Lemma ext_resume_claimed h :
  wf (tabs h) ->
  ext h (resume_claimed faults others now yieldExecution reacquireExecution json_error artifact
           guestManifest closed runner runID h).2.
Proof.
  intros Hwf. unfold resume_claimed.
  destruct (on_db (Get _ _ _) h) as [[run | e] h1] eqn:H1;
    apply ext_db_eq in H1; try apply moves_get; [| done].
  assert (wf (tabs h1)) as Hwf1 by (eapply ext_wf; [exact Hwf | exact H1]).
  case_match; [done |]. destruct (validatePinned _ _) as [derr |].
  { destruct (on_db (SetState _ _ _ _ _ _) h1) as [[u | e] h2] eqn:E2;
      apply ext_db_eq in E2; try apply moves_set_state; by apply (ext_trans _ _ h h1). }
  case_match; [done |]. case_match; [done |]. case_match; [done |]. case_match; [done |].
  destruct (on_db (Get _ _ _) h1) as [[latest | e] h2] eqn:E2;
    apply ext_db_eq in E2; try apply moves_get; [| by apply (ext_trans _ _ h h1)].
  assert (ext h h2) as H02 by (by apply (ext_trans _ _ h h1)).
  assert (wf (tabs h2)) as Hwf2 by (eapply ext_wf; [exact Hwf | exact H02]).
  case_match; [done |]. pose proof (ext_run_attempt run h2 Hwf2) as H23.
  destruct (run_attempt _ _ _ _ _ _ _ _ _ _ _ _) as [[output runErr] h3].
  assert (ext h h3) as H03 by (by apply (ext_trans _ _ h h2)).
  apply (ext_trans _ _ h h3); [done.. |]. apply ext_conclude.
  eapply ext_wf; [exact Hwf | exact H03].
Qed.

Lemma ext_resume h :
  wf (tabs h) ->
  ext h (Resume faults others openRunLock now yieldExecution reacquireExecution json_error artifact
           guestManifest closed runner runID h).2.
Proof.
  intros Hwf. unfold Resume. case_match; [apply ext_refl |]. case_match; [apply ext_refl |].
  destruct (on_db (Claim _ _ _ _) h) as [[u | e] h1] eqn:H1;
    apply ext_db_eq in H1; try apply moves_claim; [| done].
  apply (ext_trans _ _ h h1); [done.. |]. apply ext_resume_claimed.
  eapply ext_wf; [exact Hwf | exact H1].
Qed.
End Resume.

(** ** Completion and export *)

Lemma omap_total {A B} (f : A -> option B) (l : list A) :
  (forall x, x ∈ l -> is_Some (f x)) ->
  length (omap f l) = length l /\ forall i x, l !! i = Some x -> omap f l !! i = f x.
Proof.
  induction l as [| a l IH]; intros Hf; [done |].
  destruct IH as [Hlen Hget]; [intros x Hx; apply Hf; by apply list_elem_of_further |].
  destruct (Hf a) as [b Hb]; [apply list_elem_of_here |].
  simpl. rewrite Hb. split; [simpl; by f_equal |].
  intros [| i] x; simpl; [by intros [= <-] | apply Hget].
Qed.

Lemma sequences_lookup n i : (i < N.to_nat n)%nat -> sequences n !! i = Some (N.of_nat i).
Proof.
  intros Hi. unfold sequences. rewrite list_lookup_fmap.
  rewrite lookup_seq_lt by done. done.
Qed.

Lemma sequences_elem n s : s ∈ sequences n -> (s < n)%N.
Proof.
  unfold sequences. intros (i & -> & Hi)%list_elem_of_fmap. apply elem_of_seq in Hi. lia.
Qed.

Lemma exportCalls_rows T runID n :
  wf T -> (forall i, (i < n)%N -> is_Some (t_calls T !! (runID, i))) ->
  t_calls T !! (runID, n) = None ->
  length (exportCalls T runID) = N.to_nat n
  /\ forall i row, (i < n)%N -> t_calls T !! (runID, i) = Some row ->
       exportCalls T runID !! N.to_nat i = Some (bundle_call row).
Proof.
  intros Hwf Hrows Hnone.
  assert (next_sequence T runID = n) as Hnext.
  { apply N.le_antisymm.
    - apply N.le_ngt. intros Hlt. apply (next_sequence_contiguous T runID n Hwf) in Hlt.
      destruct Hlt as [x Hx]. congruence.
    - destruct (N.eq_0_gt_0_cases n) as [-> | Hpos]; [lia |].
      assert (n - 1 < next_sequence T runID)%N; [| lia].
      apply (next_sequence_contiguous T runID (n - 1) Hwf). apply Hrows. lia. }
  unfold exportCalls. rewrite Hnext.
  destruct (omap_total (fun s => bundle_call <$> t_calls T !! (runID, s)) (sequences n)) as [Hlen Hget].
  { intros s Hs%sequences_elem. destruct (Hrows s Hs) as [c ->]. by eexists. }
  split.
  - rewrite Hlen. unfold sequences. by rewrite length_map, length_seq.
  - intros i row Hi Hrow. rewrite (Hget (N.to_nat i) i).
    + by rewrite Hrow.
    + rewrite sequences_lookup by lia. by rewrite N2Nat.id.
Qed.

(** A terminal run gets no further calls. *)
Lemma terminal_calls_frozen t t' runID r s :
  wf t -> rtc store_next t t' -> t_runs t !! runID = Some r -> terminalStatus (r_Status r) = true ->
  t_calls t !! (runID, s) = None -> t_calls t' !! (runID, s) = None.
Proof.
  intros Hwf Hr. revert Hwf. induction Hr as [| t1 t2 t3 [ev Hs] Hr IH]; [done |].
  intros Hwf Hrun Hterm Hnone. apply IH; [by eapply store_step_wf | | done |].
  - destruct (le_runs _ _ (store_step_le _ _ _ Hs) _ _ Hrun) as (r' & Hr' & _ & Hsame).
    by rewrite (Hsame Hterm) in Hr'.
  - destruct (t_calls t2 !! (runID, s)) as [c |] eqn:Hc; [| done].
    assert (is_Some (t_calls t2 !! (runID, s))) as Hd by by eexists.
    apply (step_calls_dom _ _ _ _ _ Hs) in Hd as [[x Hx] | (call & -> & ->)]; [congruence |].
    inversion Hs; simplify_eq; congruence.
Qed.

Lemma run_frozen t t' runID r :
  wf t -> rtc store_next t t' -> t_runs t !! runID = Some r -> terminalStatus (r_Status r) = true ->
  t_runs t' !! runID = Some r.
Proof.
  intros Hwf Hr Hrun Hterm.
  destruct (le_runs _ _ (rtc_le _ _ Hwf Hr) _ _ Hrun) as (r' & Hr' & _ & Hsame).
  by rewrite (Hsame Hterm) in Hr'.
Qed.

Section Completion.
Variable faults : nat -> option error.
Variable others : nat -> tables -> tables.
Variable json_error : string -> error.
Variable runID : string.
Hypothesis others_ok : forall n t, rtc store_next t (others n t).

Lemma set_state_Ok h status outcome reason h' u :
  on_db (SetState faults others runID status outcome reason) h = (Ok u, h') ->
  (exists d, t_runs (tabs h') !! runID = Some (mkRun d status outcome reason))
  /\ exists n, t_calls (tabs h') = t_calls (others n (tabs h)).
Proof.
  unfold on_db, lift. pose proof (set_state_post faults others runID status outcome reason (h_db h)) as Hp.
  destruct (SetState _ _ _ _ _ _ (h_db h)) as [[u' | e] w']; intros [= <- <-].
  unfold tabs. simpl. destruct Hp as [[-> (run & Hrun & Heq & _)] | Hs].
  - rewrite Heq in Hrun. split; eauto.
  - inversion Hs; subst. simpl. split; [rewrite lookup_insert_eq; eauto | eauto].
Qed.

(** An attempt that succeeded: the run is completed with the output, and
    the history was consumed to its end. *)
Lemma conclude_stored output runErr h out h' :
  conclude faults others json_error runID output runErr h = ((out, None), h') ->
  runErr = None /\ out = output
  /\ (exists d stored, marshal_output output = Some stored
        /\ t_runs (tabs h') !! runID = Some (mkRun d StatusCompleted stored ""))
  /\ exists t n, t_calls t !! (runID, js_sequence (h_journal h)) = None /\ t_calls (tabs h') = t_calls (others n t).
Proof.
  unfold conclude. destruct (on_db (Get _ _ _) h) as [[run | e] h1] eqn:H1; [| done].
  assert (h_journal h1 = h_journal h) as Hj1.
  { unfold on_db, lift in H1. destruct (Get _ _ _ _). by injection H1 as _ <-. }
  destruct (bool_decide (r_Status run = StatusCancelled)); [done |].
  destruct (bool_decide (runErr = None) || _) eqn:Hc.
  2:{ destruct runErr as [e |]; [| by simpl in Hc].
      destruct (from_option as_python None (Some e)) eqn:Hp.
      - done.
      - destruct (errors_is ErrHistoryMismatch e || errors_is ErrBlocked e); [| done].
        by destruct (blockAttempt _ _ _ _ _). }
  destruct (on_db (hasCall _ _ _ _) h1) as [[[] | e] h2] eqn:H2; [| | done].
  { by destruct (blockAttempt _ _ _ _ _). }
  assert (t_calls (tabs h2) !! (runID, js_sequence (h_journal h)) = None) as Hnone.
  { unfold on_db, lift in H2. rewrite Hj1 in H2.
    pose proof (has_call_post faults others runID (js_sequence (h_journal h)) (h_db h1)) as Hp.
    destruct (hasCall _ _ _ _ _) as [[b | e] w2]; [| done].
    injection H2 as -> <-. destruct Hp as [Ht Hb]. unfold tabs. simpl. rewrite Ht.
    symmetry in Hb. guards. by apply eq_None_not_Some. }
  assert (forall status stored reason (success : option error),
    finish_with faults others runID status stored reason output success h2 = ((out, None), h') ->
    out = output /\ success = None
    /\ (exists d, t_runs (tabs h') !! runID = Some (mkRun d status stored reason))
    /\ exists t n, t_calls t !! (runID, js_sequence (h_journal h)) = None /\ t_calls (tabs h') = t_calls (others n t)) as Hfin.
  { intros status stored reason success. unfold finish_with.
    destruct (on_db (SetState _ _ _ _ _ _) h2) as [[u | e] h3] eqn:H3.
    - intros [= <- -> <-]. apply set_state_Ok in H3 as [Hrow [n Habs]]. eauto 10.
    - destruct (on_db (Get _ _ _) h3) as [[cur | e2] h4]; [| done]. by case_match. }
  destruct runErr as [e |].
  - destruct (from_option as_python None (Some e)).
    + destruct (marshal_output output) eqn:Hm; [| done]. intros (_ & Hs & _)%Hfin. done.
    + destruct (errors_is ErrHistoryMismatch e || errors_is ErrBlocked e); [| done].
      by destruct (blockAttempt _ _ _ _ _).
  - destruct (marshal_output output) as [stored |] eqn:Hm; [| done].
    intros (-> & _ & [d Hd] & Hn)%Hfin. eauto 10.
Qed.

(** The claim: no other connection begins a call of this run. *)
Hypothesis others_claim : forall n t s,
  t_calls t !! (runID, s) = None -> t_calls (others n t) !! (runID, s) = None.

Lemma conclude_completed output runErr h out h' :
  conclude faults others json_error runID output runErr h = ((out, None), h') ->
  runErr = None /\ out = output
  /\ (exists d stored, marshal_output output = Some stored
        /\ t_runs (tabs h') !! runID = Some (mkRun d StatusCompleted stored ""))
  /\ t_calls (tabs h') !! (runID, js_sequence (h_journal h)) = None.
Proof.
  intros (H1 & H2 & H3 & t & n & Ht & ->)%conclude_stored. split_and!; [done.. |]. by apply others_claim.
Qed.
End Completion.

Lemma validate_calls_Ok runID calls k i call :
  validate_calls runID k calls = Ok tt -> calls !! i = Some call ->
  validateBundleCall runID (u32 (k + N.of_nat i)) call = Ok tt.
Proof.
  revert k i. induction calls as [| c calls IH]; intros k i; simpl; [done |].
  destruct (validateBundleCall runID (u32 k) c) as [[] | e] eqn:Hc; simpl; [| done].
  intros Hrest. destruct i as [| i]; simpl.
  - intros [= <-]. by rewrite N.add_0_r.
  - intros Hi. replace (k + N.of_nat (S i))%N with (k + 1 + N.of_nat i)%N by lia. by apply (IH (k + 1)%N i).
Qed.

Lemma validateRunBundle_calls b :
  validateRunBundle b = Ok tt -> validate_calls (br_ID (b_Run b)) 0 (b_Calls b) = Ok tt.
Proof.
  unfold validateRunBundle, invalid. case_match; [done |].
  destruct (validateBundleRun (b_Run b)); simpl; [| done].
  destruct (match b_Calls b with [] => _ | _ => _ end); simpl; [| done].
  by destruct (validate_calls _ _ _) as [[] |].
Qed.

(** What an export read, at two later moments. *)
Lemma Export_Ok faults others runID w bundle w' :
  (forall n t, rtc store_next t (others n t)) ->
  Export faults others runID w = (Ok bundle, w') ->
  exists t1 t2 run, rtc store_next (w_tables w) t1 /\ rtc store_next t1 t2
    /\ t_runs t1 !! runID = Some run /\ b_Run bundle = bundle_run run
    /\ b_Calls bundle = exportCalls t2 runID /\ validateRunBundle bundle = Ok tt.
Proof.
  intros Hothers. unfold Export. destruct (bool_decide (runID = "")); [done |].
  intros (run & w1 & Hget & Hrest)%bind_Ok.
  pose proof (get_post faults others runID w) as Hg. rewrite Hget in Hg. destruct Hg as [Ht1 Hrun].
  destruct (_ && _); [by inversion Hrest |].
  apply bind_Ok in Hrest as (u & w2 & Hv & Hrest).
  assert (w2 = w1) as -> by (by destruct (validateBundleRun _); injection Hv).
  apply bind_Ok in Hrest as (calls & w3 & Hcalls & Hrest).
  pose proof (op_db_query faults others (fun t => exportCalls t runID) w1) as Hq.
  rewrite Hcalls in Hq. destruct Hq as [Ht2 ->].
  apply bind_Ok in Hrest as (rwaits & w4 & _ & Hrest).
  apply bind_Ok in Hrest as (waits & w5 & _ & Hrest).
  apply bind_Ok in Hrest as ([] & w6 & Hval & Hrest). injection Hrest as <- _.
  exists (w_tables w1), (w_tables w3), run. rewrite Ht2 in *. split_and!; simpl; try done.
  - rewrite Ht1. apply Hothers.
  - by rewrite Ht1.
  - destruct (validateRunBundle _) as [[] |]; [done |]. by injection Hval.
Qed.

(** The exported calls of a run whose history has [n] calls. *)
Lemma recorded_export bundle t runID n :
  wf t -> (n <= maxToolCalls)%N ->
  (forall i, (i < n)%N -> is_Some (t_calls t !! (runID, i))) -> t_calls t !! (runID, n) = None ->
  br_ID (b_Run bundle) = runID -> b_Calls bundle = exportCalls t runID ->
  validateRunBundle bundle = Ok tt ->
  length (b_Calls bundle) = N.to_nat n /\ recorded t runID (b_Calls bundle) n.
Proof.
  intros Hwf Hb Hrows Hnone HID Hbc Hval.
  destruct (exportCalls_rows t runID n Hwf Hrows Hnone) as [Hlen Hget]. rewrite Hbc.
  split; [done |]. intros i Hi. destruct (Hrows i Hi) as [c Hc].
  exists (bundle_call c), c. split; [by apply Hget |]. split; [| done].
  apply validateRunBundle_calls in Hval. rewrite HID, Hbc in Hval.
  pose proof (validate_calls_Ok _ _ _ (N.to_nat i) _ Hval (Hget i c Hi Hc)) as Hv.
  rewrite N.add_0_l, N2Nat.id, u32_id in Hv; [done |]. unfold maxToolCalls in Hb. lia.
Qed.

(** An attempt whose Guest answered without an error, and its offline twin. *)
Lemma run_attempt_twin faults others now y rq je artifact gm runner runID run h output h1 offline :
  (forall n t, rtc store_next t (others n t)) ->
  (forall name d, rn_tools runner !! name = Some d -> tl_Name d = name) -> wf (tabs h) ->
  run_attempt faults others now y rq je artifact gm runner run runID h = (output, None, h1) ->
  let n := js_sequence (h_journal h1) in
  (n <= maxToolCalls)%N
  /\ (forall i, (i < n)%N -> is_Some (t_calls (tabs h1) !! (runID, i)))
  /\ forall T calls, rtc store_next (tabs h1) T -> recorded T runID calls n ->
       let d := r_Definition run in
       RunRecorded je offline (Some (offlineJournal runID calls)) artifact gm None
         (d_Code d) (d_Inputs d) (d_Seed d) 0%nat = (output, None, N.to_nat n).
Proof.
  intros Hothers Hnamed Hwf. unfold run_attempt, RunRecorded.
  destruct (bool_decide (d_Seed _ = "")); [done |]. destruct (negb _); [done |]. simpl.
  unfold Bridge.run. destruct (marshalRunRequest _ _ _ _ _ _) as [request | e]; [| done].
  pose proof (exec_guest_ok faults others now y rq je (rn_tools runner) runID Hothers Hnamed offline
                (artifact (d_Seed (r_Definition run)) request) (newRun false) ""
                _ (running_fresh runID h Hwf)) as Hend.
  unfold end_ok in Hend. destruct (exec_guest _ _ _ _ _ _ (set_journal _ _)) as [[e sout] hx].
  destruct Hend as [_ Hend]. intros [= Hres <-].
  destruct e; try done; destruct Hend as ([_ Hb] & Hrows & Htwin).
  split; [done |]. split; [done |]. intros T calls HT Hrec.
  pose proof (Htwin T calls HT Hrec) as Ht. change (N.to_nat (rs_calls (newRun false))) with 0%nat in Ht.
  rewrite Ht. by rewrite <- Hres.
Qed.
