(* ===== verification/RunnerProps.v ===== *)
(** * RunnerProps: what durable execution promises

    The life of a run is any sequence of attempts, each under its own database
    failures, interference, clock, Guest and Host code, and of store
    transitions of other processes; a crash is a failure of every statement
    from some tick on.  The properties hold of every such life. *)

From S2P Require Import Prelude Errors Effects Json GoTime Store StoreSpec StoreInv StoreProps Manifest Bridge Journal JournalSpec Bundle Runner RunnerSpec.

(** ** Declared tools *)

Lemma bind_identity_Ok tool tool' :
  bind_identity tool = Ok tool' -> tl_Recovery tool' = tl_Recovery tool /\ tl_Lookup tool' = tl_Lookup tool
  /\ tl_Wait tool' = tl_Wait tool /\ tl_Version tool' = tl_Version tool.
Proof. unfold bind_identity, invalid_runner. repeat case_match; intros; by simplify_eq. Qed.

(** What [NewRunner] accepts under a name. *)
Definition declared_ok (name : string) (d : Tool) : Prop :=
  tl_Name d = name /\ name <> "" /\ tl_Version d <> "" /\ is_Some (tl_Call d)
  /\ (tl_Scheduling d = Inline \/ tl_Scheduling d = ExternalIO /\ tl_Recovery d <> WaitMode)
  /\ ((tl_Recovery d = RetrySafe \/ tl_Recovery d = Idempotent \/ tl_Recovery d = Manual)
      \/ (tl_Recovery d = LookupMode /\ is_Some (tl_Lookup d))
      \/ (tl_Recovery d = WaitMode /\ is_Some (tl_Wait d))).

Lemma check_scheduling_Ok tool tool' :
  check_scheduling tool = Ok tool' ->
  tl_Name tool' = tl_Name tool /\ tl_Version tool' = tl_Version tool /\ tl_Recovery tool' = tl_Recovery tool
  /\ tl_Call tool' = tl_Call tool
  /\ (tl_Scheduling tool' = Inline \/ tl_Scheduling tool' = ExternalIO /\ tl_Recovery tool' <> WaitMode).
Proof.
  unfold check_scheduling, invalid_runner.
  repeat case_match; intros; simplify_eq; guards; simpl; split_and!; auto.
Qed.

Lemma check_recovery_Ok tool tool' :
  check_recovery tool = Ok tool' ->
  tl_Name tool' = tl_Name tool /\ tl_Version tool' = tl_Version tool
  /\ tl_Scheduling tool' = tl_Scheduling tool /\ tl_Recovery tool' = tl_Recovery tool
  /\ is_Some (tl_Call tool')
  /\ ((tl_Recovery tool = RetrySafe \/ tl_Recovery tool = Idempotent \/ tl_Recovery tool = Manual)
      \/ (tl_Recovery tool = LookupMode /\ is_Some (tl_Lookup tool'))
      \/ (tl_Recovery tool = WaitMode /\ is_Some (tl_Wait tool'))).
Proof.
  unfold check_recovery, invalid_runner.
  destruct (bool_decide (tl_Recovery tool = RetrySafe) || bool_decide (tl_Recovery tool = Idempotent)
            || bool_decide (tl_Recovery tool = Manual)) eqn:Hmode.
  { apply orb_prop in Hmode as [[Hm | Hm]%orb_prop | Hm]; guards;
      destruct (tl_Call tool) eqn:Hc; intros; simplify_eq; rewrite ?Hc; split_and!; eauto. }
  destruct (bool_decide (tl_Recovery tool = LookupMode)) eqn:Hl; guards.
  { destruct (tl_Call tool) eqn:Hc; [| done]. destruct (tl_Lookup tool) eqn:Hlk; [| done].
    intros; simplify_eq. rewrite Hc, Hlk. split_and!; eauto. }
  destruct (bool_decide (tl_Recovery tool = WaitMode)) eqn:Hw; guards; [| done].
  destruct (tl_Wait tool) eqn:Hwt; [| done]. destruct (tl_Call tool) eqn:Hc;
    intros; simplify_eq; simpl; rewrite ?Hc, ?Hwt; split_and!; eauto.
Qed.

Lemma declare_tools_ok l acc tools :
  (forall name d, acc !! name = Some d -> declared_ok name d) ->
  declare_tools l acc = Ok tools ->
  forall name d, tools !! name = Some d -> declared_ok name d.
Proof.
  revert acc. induction l as [| tool l IH]; intros acc Hacc; simpl; [by intros [= <-] |].
  destruct (bind_identity tool) as [t1 |]; simpl; [| done].
  destruct (bool_decide (tl_Name t1 = "") || _) eqn:Hne; [done |].
  destruct (bool_decide (is_Some _)) eqn:Hdup; [done |].
  destruct (check_scheduling t1) as [t2 |] eqn:H2; simpl; [| done].
  destruct (check_recovery t2) as [t3 |] eqn:H3; simpl; [| done].
  apply IH. intros name d. rewrite lookup_insert.
  destruct (decide (tl_Name t3 = name)) as [Hname |]; [| by apply Hacc].
  intros [= <-]. subst name. guards.
  apply check_scheduling_Ok in H2 as (Hn2 & Hv2 & Hr2 & _ & Hs2).
  apply check_recovery_Ok in H3 as (Hn3 & Hv3 & Hs3 & Hr3 & Hc3 & Hm3).
  unfold declared_ok. rewrite Hs3, Hr3. split_and!; try done; congruence.
Qed.

Lemma NewRunner_declared iterate sn ae ev l prep id ie ce r :
  NewRunner iterate sn ae ev l prep id ie ce = Ok r ->
  forall name d, rn_tools r !! name = Some d -> declared_ok name d.
Proof.
  unfold NewRunner. case_match; [done |].
  destruct (match prep with [] => _ | _ => _ end) as [seed |]; simpl; [| done].
  destruct (declare_tools l ∅) as [tools |] eqn:Hd; simpl; [| done].
  destruct ie; [done |]. destruct (normalizeManifest _ _); simpl; [| done].
  destruct ce; [done |]. intros [= <-]. simpl. apply (declare_tools_ok l ∅); [| done].
  intros name d. by rewrite lookup_empty.
Qed.

(** ** The life of a run *)

Inductive life_step (tools : gmap string Tool) (runID : string) : host -> host -> Prop :=
| life_attempt faults others lock now y rq je artifact gm closed runner h :
    rn_tools runner = tools -> (forall n t, rtc store_next t (others n t)) ->
    life_step tools runID h
      (Resume faults others lock now y rq je artifact gm closed runner runID h).2
| life_others h t n :
    rtc store_next (tabs h) t -> life_step tools runID h (set_db (mkWorld t n) h).

Definition tools_declared (tools : gmap string Tool) : Prop :=
  forall name d, tools !! name = Some d -> declared_ok name d.

Lemma life_ext tools runID h h' :
  tools_declared tools -> wf (tabs h) -> rtc (life_step tools runID) h h' -> ext tools runID h h'.
Proof.
  intros Hd Hwf Hr. induction Hr as [| h1 h2 h3 Hs Hr IH]; [apply ext_refl |].
  assert (ext tools runID h1 h2) as H12.
  { inversion Hs; subst.
    - apply ext_resume; [done | | done]. intros name d Hn. by apply (Hd name).
    - by apply ext_same. }
  apply (ext_trans _ _ h1 h2); [done.. |]. apply IH. eapply ext_wf; [exact Hwf | exact H12].
Qed.

Lemma life_dispatch tools runID h0 h key tool args :
  tools_declared tools -> reachable (tabs h0) -> h_trace h0 = [] ->
  rtc (life_step tools runID) h0 h -> EvDispatch key tool args ∈ h_trace h ->
  dispatch_ok tools runID (tabs h0) (tabs h) (h_trace h) key tool args.
Proof.
  intros Hd Hwf%reachable_wf_lemma Htr Hr Hin.
  destruct (life_ext _ _ _ _ Hd Hwf Hr) as [_ (evs & Hevs & Hall)].
  rewrite Htr, app_nil_r in Hevs. rewrite Hevs in Hin |- *. by apply Hall.
Qed.

(** ** Properties *)

(** C4.  A tool declared with manual recovery is dispatched at most once per
    recorded call, over any number of attempts, with any database failures,
    crashes and interference in between. *)
Theorem manual_tool_dispatched_once tools runID h0 h key tool args d :
  tools_declared tools -> reachable (tabs h0) -> h_trace h0 = [] ->
  rtc (life_step tools runID) h0 h ->
  tools !! tool = Some d -> tl_Recovery d = Manual ->
  EvDispatch key tool args ∈ h_trace h -> dispatches key (h_trace h) = 1%nat.
Proof.
  intros Hd Hwf Htr Hr Htool Hman Hin.
  destruct (life_dispatch _ _ _ _ _ _ _ Hd Hwf Htr Hr Hin) as (seq & -> & _ & _ & Hm).
  by destruct (Hm d Htool) as [_ [_ ?]].
Qed.

(** C5.  A Host tool is entered only for a call the store holds: the key it is
    given is the key of a row of this run with the same tool and arguments,
    and a wait tool is never entered at all. *)
Theorem dispatch_is_reserved tools runID h0 h key tool args :
  tools_declared tools -> reachable (tabs h0) -> h_trace h0 = [] ->
  rtc (life_step tools runID) h0 h ->
  EvDispatch key tool args ∈ h_trace h ->
  (exists seq c, key = Some (operationKey runID seq)
     /\ t_calls (tabs h) !! (runID, seq) = Some c /\ c_Tool c = tool /\ c_Arguments c = args)
  /\ forall d, tools !! tool = Some d -> tl_Recovery d <> WaitMode.
Proof.
  intros Hd Hwf Htr Hr Hin.
  destruct (life_dispatch _ _ _ _ _ _ _ Hd Hwf Htr Hr Hin) as (seq & -> & (c & ? & ? & ?) & _ & Hm).
  split; [eauto 6 |]. intros d Hdecl. by destruct (Hm d Hdecl).
Qed.

(** C6.  Once a call has its outcome no later attempt dispatches it again and
    the outcome never changes, whatever the tool's recovery mode. *)
Theorem completed_call_is_final tools runID h h' seq c :
  tools_declared tools -> reachable (tabs h) ->
  rtc (life_step tools runID) h h' ->
  t_calls (tabs h) !! (runID, seq) = Some c -> c_State c = CallCompleted ->
  t_calls (tabs h') !! (runID, seq) = Some c
  /\ dispatches (Some (operationKey runID seq)) (h_trace h')
     = dispatches (Some (operationKey runID seq)) (h_trace h).
Proof.
  intros Hd Hwf%reachable_wf_lemma Hr Hc Hst.
  destruct (life_ext _ _ _ _ Hd Hwf Hr) as [Ht (evs & Hevs & Hall)].
  split; [exact (completed_stays _ _ _ _ Hwf Ht Hc Hst) |].
  rewrite Hevs, dispatches_app, dispatches_zero; [done |].
  intros tool args Hin. destruct (Hall _ _ _ Hin) as (seq' & Hkey & _ & Hopen & _).
  injection Hkey as Hkey. apply operationKey_inj in Hkey as [_ <-]. by apply (Hopen c).
Qed.

(** C7.  The contract of [Journal.Call]: a response is durable before it is
    returned.  Whatever [journal.Call] answers the Guest, at any point of an
    attempt, is the stored outcome of the completed row of that call, under
    the tool and the arguments of the request. *)
Theorem response_is_durable faults others now y rq tools runID h tool args r h' :
  (forall n t, rtc store_next t (others n t)) -> tools_declared tools ->
  wf (tabs h) -> window runID h -> (js_sequence (h_journal h) < maxToolCalls)%N ->
  journal_call faults others now y rq tools runID tool args
    (dispatch (durable_manifest y rq tools) (mkCallRequest tool args)) h = (Ok r, h') ->
  exists c, t_calls (tabs h') !! (runID, js_sequence (h_journal h)) = Some c
    /\ c_Tool c = tool /\ c_Arguments c = args /\ c_State c = CallCompleted /\ c_Outcome c = r.
Proof.
  intros Hothers Hd Hwf Hwin Hlt Hcall.
  assert (js_sequence (h_journal h) + 1 < 2 ^ 32)%N as Hsmall by (unfold maxToolCalls in Hlt; lia).
  pose proof (eff_journal_call faults others now y rq tools runID Hothers
                (fun name d H => proj1 (Hd name d H)) h tool args Hwf Hwin Hsmall) as H.
  unfold eff in H. rewrite Hcall in H. by destruct H as [_ [H _]].
Qed.

(** ** Instances *)

(** JSON written with single quotes. *)
Definition dq (s : string) : string := String.concat quote_mark (split_char "'" s).

(** A manual payment tool and a Guest that pays once and answers. *)
Definition pay_tool : Tool :=
  mkTool no_capability "pay" "1" (Some (fun _ _ _ => ToolValue "true")) Manual None None "" true.

Definition pay_runner : Runner :=
  match NewRunner map_to_list false false "env-1" [pay_tool] [] "sha256:ab" None None with
  | Ok r => r
  | Err _ => mkRunner "" "" "" ∅ "" []
  end.

Definition pay_guest (seed request : string) : guest :=
  GCall (Some (dq "{'tool':'pay','args':[7]}")) 4096 (fun r =>
    GWrite "paid" (fun _ => GReturn (mkResponse (default "null" r) "" ""))).

Definition pay_definition : Definition_ :=
  mkDefinition "run-1" "pay(7)" "seed" "sha256:ab" "env-1" "{}" "".

Definition created (w : world) : world := (CreateRun no_faults no_others pay_runner pay_definition w).2.

Definition pay_start : host := mkHost (created (mkWorld empty_tables 0)) [] fresh_journal.

(** An attempt whose process dies at tick [n]. *)
Definition dies_at (k : nat) : nat -> option error :=
  fun n => if (k <=? n)%nat then Some (EMsg "disk I/O error") else None.

Definition pay_resume (faults : nat -> option error) (h : host) : result * host :=
  Resume faults no_others (fun _ => None) (fun _ => 0%Z) (fun _ => None) (fun _ => None) EMsg
    pay_guest [mkGuestToolSpec "pay" "pay" false] (fun _ => false) pay_runner "run-1" h.

(** A crash between the payment and its record, then a second attempt. *)
Definition pay_crashed : host := (pay_resume (dies_at 28) pay_start).2.
Definition pay_retried : host := (pay_resume no_faults pay_crashed).2.

(** An attempt without failures. *)
Definition pay_done : host := (pay_resume no_faults pay_start).2.

Example pay_crash_blocks :
  c_State <$> t_calls (tabs pay_crashed) !! ("run-1", 0%N) = Some CallPending
  /\ r_Status <$> t_runs (tabs pay_retried) !! "run-1" = Some StatusBlocked
  /\ List.filter (is_dispatch (Some "run-1/0")) (h_trace pay_retried)
     = [EvDispatch (Some "run-1/0") "pay" "[7]"].
Proof. vm_compute. auto. Qed.

Lemma no_others_ok (n : nat) t : rtc store_next t (no_others n t).
Proof. apply rtc_refl. Qed.

Lemma pay_declared : tools_declared (rn_tools pay_runner).
Proof. exact (NewRunner_declared map_to_list false false "env-1" [pay_tool] [] "sha256:ab" None None pay_runner eq_refl). Qed.

Lemma pay_reachable : reachable (tabs pay_start).
Proof.
  assert (tabs pay_start = w_tables (run_ops no_faults no_others
            [OpCreate (with_tools (rn_toolSnapshot pay_runner) pay_definition)] start)) as ->
    by (vm_compute; reflexivity).
  apply run_ops_reachable. by apply rtc_refl.
Qed.

Lemma pay_attempt faults h :
  life_step (rn_tools pay_runner) "run-1" h (pay_resume faults h).2.
Proof. by apply life_attempt; [| apply no_others_ok]. Qed.

Lemma pay_life : rtc (life_step (rn_tools pay_runner) "run-1") pay_start pay_retried.
Proof.
  eapply rtc_l; [apply (pay_attempt (dies_at 28)) |].
  eapply rtc_l; [apply (pay_attempt no_faults) | apply rtc_refl].
Qed.

Lemma pay_again : rtc (life_step (rn_tools pay_runner) "run-1") pay_done (pay_resume no_faults pay_done).2.
Proof. eapply rtc_l; [apply (pay_attempt no_faults) | apply rtc_refl]. Qed.

Lemma pay_done_reachable : reachable (tabs pay_done).
Proof.
  assert (ext (rn_tools pay_runner) "run-1" pay_start pay_done) as [Ht _].
  { apply life_ext; [apply pay_declared | apply reachable_wf_lemma, pay_reachable |].
    eapply rtc_l; [apply (pay_attempt no_faults) | apply rtc_refl]. }
  unfold reachable. etrans; [apply pay_reachable | exact Ht].
Qed.

Lemma pay_dispatched : EvDispatch (Some "run-1/0") "pay" "[7]" ∈ h_trace pay_retried.
Proof. vm_compute. apply list_elem_of_further, list_elem_of_here. Qed.

Theorem manual_tool_dispatched_once_witness :
  dispatches (Some "run-1/0") (h_trace pay_retried) = 1%nat.
Proof.
  apply (manual_tool_dispatched_once (rn_tools pay_runner) "run-1" pay_start pay_retried
           (Some "run-1/0") "pay" "[7]"
           (mkTool no_capability "pay" "1" (Some (fun _ _ _ => ToolValue "true")) Manual
              None None Inline true)).
  - apply pay_declared.
  - apply pay_reachable.
  - reflexivity.
  - apply pay_life.
  - reflexivity.
  - reflexivity.
  - apply pay_dispatched.
Defined.

Theorem dispatch_is_reserved_witness :
  (exists seq c, Some "run-1/0" = Some (operationKey "run-1" seq)
     /\ t_calls (tabs pay_retried) !! ("run-1", seq) = Some c /\ c_Tool c = "pay" /\ c_Arguments c = "[7]")
  /\ forall d, rn_tools pay_runner !! "pay" = Some d -> tl_Recovery d <> WaitMode.
Proof.
  apply (dispatch_is_reserved (rn_tools pay_runner) "run-1" pay_start pay_retried
           (Some "run-1/0") "pay" "[7]").
  - apply pay_declared.
  - apply pay_reachable.
  - reflexivity.
  - apply pay_life.
  - apply pay_dispatched.
Defined.

Definition pay_row : Call :=
  mkCall "run-1" 0 "call-0" "pay" "run-1/0" CallCompleted "[7]" (dq "{'value':true}").

Theorem completed_call_is_final_witness :
  t_calls (tabs (pay_resume no_faults pay_done).2) !! ("run-1", 0%N) = Some pay_row
  /\ dispatches (Some (operationKey "run-1" 0)) (h_trace (pay_resume no_faults pay_done).2)
     = dispatches (Some (operationKey "run-1" 0)) (h_trace pay_done).
Proof.
  apply (completed_call_is_final (rn_tools pay_runner) "run-1" pay_done
           (pay_resume no_faults pay_done).2 0 pay_row).
  - apply pay_declared.
  - apply pay_done_reachable.
  - apply pay_again.
  - vm_compute. reflexivity.
  - reflexivity.
Defined.

(** The journal call of the payment, on its own. *)
Definition pay_call (h : host) : res error string * host :=
  journal_call no_faults no_others (fun _ => 0%Z) (fun _ => None) (fun _ => None)
    (rn_tools pay_runner) "run-1" "pay" "[7]"
    (dispatch (durable_manifest (fun _ => None) (fun _ => None) (rn_tools pay_runner))
       (mkCallRequest "pay" "[7]")) h.

Theorem response_is_durable_witness :
  exists c, t_calls (tabs (pay_call pay_start).2) !! ("run-1", js_sequence (h_journal pay_start)) = Some c
    /\ c_Tool c = "pay" /\ c_Arguments c = "[7]" /\ c_State c = CallCompleted
    /\ c_Outcome c = dq "{'value':true}".
Proof.
  apply (response_is_durable no_faults no_others (fun _ => 0%Z) (fun _ => None) (fun _ => None)
           (rn_tools pay_runner) "run-1" pay_start "pay" "[7]" (dq "{'value':true}") (pay_call pay_start).2).
  - apply no_others_ok.
  - apply pay_declared.
  - apply reachable_wf_lemma, pay_reachable.
  - split; [| reflexivity]. intros i c Hi. change ((@nil Call) !! i = Some c) in Hi. by rewrite lookup_nil in Hi.
  - reflexivity.
  - vm_compute. reflexivity.
Defined.

(** ** Results that have no JSON form *)

(** What the bridge answers, and the journal stores, when a tool's result
    holds a NaN. *)
Definition nan_outcome : string := encodeResponse (ToolUnencodable "json: unsupported value: NaN").

(** A run whose history holds such an outcome cannot be exported: the
    bundle validation refuses the call whatever its identity and arguments,
    because the stored outcome has an error and no value. *)
Theorem unencodable_result_is_not_exportable runID sequence call :
  bc_Outcome call = nan_outcome ->
  exists e, validateBundleCall runID sequence call = Err e /\ errors_is ErrBundleInvalid e = true.
Proof.
  intros Hout. assert (wire_complete nan_outcome = false) as Hwire by (by vm_compute).
  unfold validateBundleCall. rewrite Hout, Hwire.
  destruct (_ || _ || _ || _ || _ || _); [by eexists |].
  destruct (_ || _ || _); by eexists.
Qed.

Definition nan_call : BundleCall :=
  mkBundleCall 0 "call-0" "measure" "{}" (operationKey "run" 0) CallCompleted nan_outcome.

Lemma unencodable_result_is_not_exportable_witness :
  Json.valid (bc_Outcome nan_call) = true
  /\ exists e, validateBundleCall "run" 0 nan_call = Err e /\ errors_is ErrBundleInvalid e = true.
Proof.
  split; [by vm_compute |]. by apply (unencodable_result_is_not_exportable "run" 0 nan_call).
Defined.
