(* ===== verification/Capability.v ===== *)
(** * Capability: approval of discovered tools ([durable/capability.go]) *)

From S2P Require Import Prelude Errors Store Manifest Bridge Journal.

(** [CapabilityPolicy]. *)
Record CapabilityPolicy := mkPolicy {
  po_Version : string;
  po_Recovery : string;
  po_Lookup : option (host_code (res error LookupResult));
  po_Wait : option (host_code (res error WaitSpec));
  po_Scheduling : string;
  po_Observed : bool
}.

Section Capability.
Notation capability := (Capability (host_code tool_result)).

(** [CapabilityApprover].  Every capability has a name of its own and is asked
    about once, so a function of it is what any Host can answer. *)
Definition CapabilityApprover : Type := capability -> res error CapabilityPolicy.

Definition BindCapability (c : capability) (policy : CapabilityPolicy) : Tool :=
  mkTool (mkCapability (cap_Name c) (with_schema (clone (ts_InputSchema (cap_Spec c))) (cap_Spec c)))
    (cap_Name c) (po_Version policy) None (po_Recovery policy) (po_Lookup policy) (po_Wait policy)
    (po_Scheduling policy) (po_Observed policy).

Definition recovery_modes : list string := [RetrySafe; Idempotent; LookupMode; Manual; WaitMode].

(** The loop of [ToolsFromProviders]. *)
Fixpoint approve_all (approve : CapabilityApprover) (capabilities : list capability) : res error (list Tool) :=
  match capabilities with
  | [] => Ok []
  | c :: capabilities' =>
      match approve c with
      | Err e => Err (EWrap ("approve capability " +:+ quote (cap_Name c) +:+ ": ") e "")
      | Ok policy =>
          if bool_decide (po_Version policy = "")
          then Err (EMsg ("approve capability " +:+ quote (cap_Name c) +:+ ": version is required"))
          else if negb (bool_decide (po_Recovery policy ∈ recovery_modes))
          then Err (EMsg ("approve capability " +:+ quote (cap_Name c) +:+ ": recovery mode is required"))
          else
            let* tools := approve_all approve capabilities' in
            Ok (BindCapability c policy :: tools)
      end
  end.

Definition ToolsFromProviders (iterate : Manifest (host_code tool_result) ->
      list (string * ToolSpec (host_code tool_result)))
    (approve : option CapabilityApprover) (providers : list (ToolProvider (host_code tool_result)))
  : res error (list Tool) :=
  match approve with
  | None => Err (EMsg "durable capability policy is required")
  | Some approve =>
      let* capabilities := DiscoverCapabilities iterate providers in
      approve_all approve capabilities
  end.
End Capability.
