(* ===== verification/CapabilityProps.v ===== *)
(** * CapabilityProps: from providers to a runner

    A catalog that the Host approved completely is what the runner executes and
    what its Guests are shown, whatever the order of the providers. *)

From S2P Require Import Prelude Errors Json Order Store Manifest ManifestProps Bridge Journal Bundle Runner RunnerProps Capability.

Notation code := (host_code tool_result).

(** ** Approval *)

(** What approval makes of one capability. *)
Definition approved (approve : CapabilityApprover) (c : Capability code) (t : Tool) : Prop :=
  exists policy, approve c = Ok policy /\ po_Version policy <> "" /\ po_Recovery policy ∈ recovery_modes
    /\ t = BindCapability c policy.

Lemma approve_all_Ok approve l tools : approve_all approve l = Ok tools <-> Forall2 (approved approve) l tools.
Proof.
  revert tools. induction l as [| c l IH]; intros tools; cbn.
  - split; [by intros [= <-] | by intros ->%Forall2_nil_inv_l].
  - split.
    + destruct (approve c) as [policy | e] eqn:Ha; [| done]. case_bool_decide; [done |].
      destruct (negb _) eqn:Hr; [done |]. intros (rest & Hrest & [= <-])%res_bind_Ok. guards.
      constructor; [by exists policy | by apply IH].
    + intros (t & rest & (policy & -> & Hv & Hr & ->) & Hrest & ->)%Forall2_cons_inv_l.
      rewrite bool_decide_eq_false_2, bool_decide_eq_true_2 by done. cbn. by rewrite (proj2 (IH rest) Hrest).
Qed.

(** ** Binding *)

Section Bind.
Context {C D : Type}.

(** A spec with another implementation. *)
Definition retarget (call : D) (s : ToolSpec C) : ToolSpec D :=
  mkToolSpec (Some call) (ts_AllowEarlyRead s) (ts_PythonPath s) (ts_Description s) (ts_InputSchema s) (ts_Annotations s).

Lemma normalize_path_retarget name call (s : ToolSpec C) :
  normalize_path name (retarget call s) = res_map (retarget call) (normalize_path name s).
Proof. unfold normalize_path. cbn. by repeat case_match. Qed.

Lemma normalize_schema_retarget name call (s : ToolSpec C) :
  normalize_schema name (retarget call s) = res_map (retarget call) (normalize_schema name s).
Proof. unfold normalize_schema. destruct s as [? ? ? ? [schema |] ?]; [cbn | done]. by repeat case_match. Qed.

Lemma normalize_retarget name call (s : ToolSpec C) :
  normalize_tool name s = Ok s -> normalize_tool name (retarget call s) = Ok (retarget call s).
Proof.
  unfold normalize_tool. destruct (validateToolName name); [cbn | done]. destruct (ts_Call s); [| done].
  case_match; [done |]. intros (spec & Hp & Hs)%res_bind_Ok.
  rewrite normalize_path_retarget, Hp. cbn. by rewrite normalize_schema_retarget, Hs.
Qed.
End Bind.

(** A policy that [NewRunner] has nothing against. *)
Definition coherent (p : CapabilityPolicy) : Prop :=
  (po_Scheduling p ∈ [""; Inline] \/ po_Scheduling p = ExternalIO /\ po_Recovery p <> WaitMode)
  /\ (po_Recovery p = LookupMode -> is_Some (po_Lookup p))
  /\ (po_Recovery p = WaitMode -> is_Some (po_Wait p)).

(** The tool as [NewRunner] keeps it. *)
Definition declared_as (c : Capability code) (policy : CapabilityPolicy) (d : Tool) : Prop :=
  tl_Name d = cap_Name c /\ tl_Version d = po_Version policy /\ tl_Recovery d = po_Recovery policy
  /\ tool_spec d = retarget d (cap_Spec c).

Lemma check_scheduling_coherent policy t :
  coherent policy -> tl_Scheduling t = po_Scheduling policy -> tl_Recovery t = po_Recovery policy ->
  exists class, check_scheduling t = Ok (with_scheduling class t).
Proof.
  intros [[Hs | [Hs Hw]] _] Ht Hr; unfold check_scheduling; rewrite Ht.
  - exists Inline. apply elem_of_cons in Hs as [-> | ->%list_elem_of_singleton]; done.
  - exists ExternalIO. rewrite Hs, Hr, (bool_decide_eq_false_2 (po_Recovery policy = WaitMode)) by done. cbn.
    destruct t. cbn in Ht. by rewrite Ht, Hs.
Qed.

Lemma check_recovery_coherent t :
  tl_Recovery t ∈ recovery_modes -> is_Some (tl_Call t) ->
  (tl_Recovery t = LookupMode -> is_Some (tl_Lookup t)) -> (tl_Recovery t = WaitMode -> is_Some (tl_Wait t)) ->
  check_recovery t = Ok t.
Proof.
  intros Hr [f Hc] Hl Hw. unfold check_recovery, recovery_modes in *. rewrite Hc.
  repeat (apply elem_of_cons in Hr as [Hr | Hr]; [rewrite Hr in * |]); try done.
  - by destruct (Hl eq_refl) as [? ->].
  - by destruct (Hw eq_refl) as [? ->].
  - by apply not_elem_of_nil in Hr.
Qed.

Lemma bind_declared c policy :
  normalize_tool (cap_Name c) (cap_Spec c) = Ok (cap_Spec c) ->
  po_Recovery policy ∈ recovery_modes -> coherent policy ->
  exists t class, bind_identity (BindCapability c policy) = Ok t /\ tl_Name t = cap_Name c /\ tl_Version t = po_Version policy
    /\ check_scheduling t = Ok (with_scheduling class t) /\ check_recovery (with_scheduling class t) = Ok (with_scheduling class t)
    /\ declared_as c policy (with_scheduling class t).
Proof.
  intros Hnorm Hr Hco. destruct (normalize_tool_source _ _ _ Hnorm) as (Hn & Hcall & Hschema).
  unfold BindCapability, bind_identity. cbn. rewrite (bool_decide_eq_false_2 (cap_Name c = "")) by done.
  rewrite (bool_decide_eq_true_2 (cap_Name c = cap_Name c)) by done. rewrite andb_false_r.
  set (t := with_identity _ _ _). destruct (check_scheduling_coherent policy t Hco eq_refl eq_refl) as [class Hs].
  exists t, class. split_and!; [done.. | apply check_recovery_coherent; cbn; try done; apply Hco |].
  split_and!; [done.. |]. unfold tool_spec. cbn. rewrite bool_decide_eq_false_2 by done.
  unfold with_schema, retarget. cbn. by rewrite Hschema.
Qed.

(** ** The declaration loop *)

Lemma declare_tools_all approve l tools acc :
  Forall2 (approved approve) l tools ->
  NoDup (map cap_Name l) -> (forall c, c ∈ l -> acc !! cap_Name c = None) ->
  Forall (fun c => normalize_tool (cap_Name c) (cap_Spec c) = Ok (cap_Spec c)) l ->
  (forall c policy, c ∈ l -> approve c = Ok policy -> coherent policy) ->
  exists m, declare_tools tools acc = Ok m
    /\ (forall c, c ∈ l -> exists policy d, approve c = Ok policy /\ m !! cap_Name c = Some d /\ declared_as c policy d)
    /\ (forall name, name ∉ map cap_Name l -> m !! name = acc !! name).
Proof.
  intros Hall. revert acc. induction Hall as [| c t l tools (policy & Ha & Hv & Hr & ->) _ IH]; intros acc Hd Hacc Hn Hco.
  { exists acc. split_and!; [done | | done]. intros c Hc. by apply not_elem_of_nil in Hc. }
  apply list.NoDup_cons in Hd as [Hc Hd]. apply Forall_cons in Hn as [Hnc Hn].
  assert (coherent policy) as Hcoh by (apply (Hco c); [by constructor | done]).
  destruct (bind_declared c policy Hnc Hr Hcoh) as (t & class & Hb & Hname & Hver & Hs & Hrec & Hdecl).
  set (d := with_scheduling class t) in *. pose proof Hdecl as (Hdn & _).
  destruct (normalize_tool_source _ _ _ Hnc) as (Hne & _ & _).
  assert (declare_tools (BindCapability c policy :: tools) acc = declare_tools tools (<[cap_Name c := d]> acc)) as ->.
  { cbn [declare_tools]. rewrite Hb. cbn. rewrite Hname, Hver, !bool_decide_eq_false_2 by done. cbn.
    rewrite (bool_decide_eq_false_2 (is_Some _)) by (rewrite (Hacc c) by constructor; by intros [? ?]).
    rewrite Hs. cbn [res_bind]. fold d. rewrite Hrec. cbn [res_bind]. by rewrite Hdn. }
  destruct (IH (<[cap_Name c := d]> acc)) as (m & Hm & Hin & Hout); [done | | done | |].
  { intros c' Hc'. rewrite lookup_insert_ne; [apply Hacc; by constructor |]. intros Hk. apply Hc, list_elem_of_fmap. eauto. }
  { intros c' p Hc'. apply Hco. by constructor. }
  exists m. split_and!; [done | |].
  - intros c' [-> | Hc']%elem_of_cons; [| by apply Hin]. exists policy, d. split_and!; [done | | done].
    rewrite Hout by done. by rewrite lookup_insert_eq.
  - intros name Hnin. rewrite Hout by (intros Hx; apply Hnin; by constructor).
    apply lookup_insert_ne. intros Hk. apply Hnin. rewrite <- Hk. by constructor.
Qed.

(** The tools are kept under their names. *)
Lemma declare_tools_named tools acc m :
  (forall name d, acc !! name = Some d -> tl_Name d = name) -> declare_tools tools acc = Ok m ->
  forall name d, m !! name = Some d -> tl_Name d = name.
Proof.
  revert acc. induction tools as [| t tools IH]; intros acc Hacc; [by intros [= <-] |]. cbn [declare_tools].
  intros (t1 & _ & H)%res_bind_Ok. case_match; [done |]. case_match; [done |].
  apply res_bind_Ok in H as (t2 & _ & (t3 & _ & H)%res_bind_Ok).
  refine (IH _ _ H). intros name d [[<- <-] | [_ ?]]%lookup_insert_Some; [done | by apply Hacc].
Qed.

(** ** What Guests are shown *)

Definition shown_pair (g : guestToolSpec) : string * string := (gt_Name g, gt_PythonPath g).
Definition pinned_pair (d : toolDeclaration) : string * string := (td_Name d, td_PythonPath d).

Lemma pinned_path name d :
  tl_Name d = name -> pinned_pair (declaration d) = (name, python_path name (tool_spec d)).
Proof.
  intros <-. unfold pinned_pair, declaration, python_path, tool_spec, spec_python_path. cbn.
  destruct (bool_decide (cap_Name (tl_Definition d) = "")); cbn; [by rewrite !bool_decide_eq_true_2 |].
  by case_bool_decide.
Qed.

Section Shown.
Variable iterate : Manifest Tool -> list (string * ToolSpec Tool).
Hypothesis iterate_all : forall m, iterate m ≡ₚ map_to_list m.

Lemma shown_is_pinned tools :
  (forall name d, tools !! name = Some d -> tl_Name d = name) ->
  map shown_pair (shown iterate (tool_manifest tools)) = map pinned_pair (declarations tools).
Proof.
  intros Hnames. unfold shown, declarations.
  change by_name with (fun x y => str_lt (shown_pair x).1 (shown_pair y).1).
  change declared_before with (fun x y => str_lt (pinned_pair x).1 (pinned_pair y).1).
  rewrite (sort_by_map (fun x y => str_lt x.1 y.1) shown_pair), (sort_by_map (fun x y => str_lt x.1 y.1) pinned_pair).
  rewrite !map_map. cbn.
  assert (map (fun t => (t.1, python_path t.1 t.2)) (iterate (tool_manifest tools))
    ≡ₚ map (fun t => pinned_pair (declaration t.2)) (map_to_list tools)) as Hp.
  { rewrite iterate_all. unfold tool_manifest. rewrite map_to_list_fmap, map_map. cbn.
    apply Permutation_refl'. apply map_ext_in. intros [name d] Hin%list_elem_of_In%elem_of_map_to_list.
    symmetry. apply pinned_path. by apply Hnames. }
  apply (sort_by_key_unique fst); [exact Hp |]. rewrite map_map. cbn. by apply iterate_names.
Qed.
End Shown.

(** A capability as its Guests are shown it. *)
Definition as_guest (c : Capability code) : guestToolSpec := guest_spec (cap_Name c) (cap_Spec c).

(** A manifest of the tools that were declared for a catalog shows the catalog. *)
Lemma shown_catalog iterate (iterate_all : forall m, iterate m ≡ₚ map_to_list m) tools (M : Manifest code) (approve : CapabilityApprover) :
  acceptable_manifest M ->
  (forall c, c ∈ catalog M -> exists policy d, approve c = Ok policy /\ tools !! cap_Name c = Some d /\ declared_as c policy d) ->
  (forall name, name ∉ map cap_Name (catalog M) -> tools !! name = None) ->
  acceptable_manifest (tool_manifest tools)
  /\ shown iterate (tool_manifest tools) = map as_guest (catalog M).
Proof.
  intros [Hone Hpair] Hin Hout.
  assert (forall name s, tool_manifest tools !! name = Some s <->
    exists s0 d, M !! name = Some s0 /\ s = retarget d (presented name s0) /\ tools !! name = Some d /\ tool_spec d = s) as Hlook.
  { intros name s. unfold tool_manifest. rewrite lookup_fmap. split.
    - destruct (tools !! name) as [d |] eqn:Hd; [| done]. intros [= <-].
      destruct (decide (name ∈ map cap_Name (catalog M))) as [Hc | Hc]; [| by rewrite (Hout _ Hc) in Hd].
      apply list_elem_of_fmap in Hc as (c & -> & Hc). destruct (Hin c Hc) as (policy & d' & _ & Hd' & (_ & _ & _ & Hs)).
      apply elem_of_catalog in Hc as (s0 & Hm & Hc). rewrite Hc in Hs. cbn in Hs. simplify_eq. by exists s0, d.
    - by intros (s0 & d & _ & _ & -> & <-). }
  assert (forall name s0, M !! name = Some s0 -> normalize_tool name (presented name s0) = Ok (presented name s0)) as Hnorm.
  { intros name s0 Hm. by apply (normalize_tool_again name s0), Hone. }
  assert (forall name (s0 : ToolSpec code) (d : Tool), M !! name = Some s0 -> presented name (retarget d (presented name s0)) = retarget d (presented name s0)) as Hpres.
  { intros name s0 d Hm. pose proof (normalize_retarget name d _ (Hnorm name s0 Hm)) as Hn. by apply normalize_tool_Ok in Hn as [<- _]. }
  split.
  - split.
    + intros name s (s0 & d & Hm & -> & _)%Hlook. rewrite Hpres by done. by apply normalize_retarget, Hnorm.
    + intros n1 n2 s1 s2 Hne (a & d1 & Ha & -> & _)%Hlook (b & d2 & Hb & -> & _)%Hlook Hamb.
      apply (Hpair n1 n2 a b Hne Ha Hb). rewrite <- !presented_path in Hamb. by rewrite !Hpres in Hamb.
  - unfold shown, catalog.
    change (fun a b : Capability code => str_lt (cap_Name a) (cap_Name b)) with (fun a b => by_name (as_guest a) (as_guest b)).
    rewrite (sort_by_map by_name as_guest), map_map. cbn.
    apply (sort_by_key_unique gt_Name); [| rewrite map_map; cbn; by apply iterate_names].
    apply NoDup_Permutation.
    + apply (NoDup_fmap_1 gt_Name). rewrite <- list_fmap_compose. cbn. by apply iterate_names.
    + apply (NoDup_fmap_1 gt_Name). rewrite <- list_fmap_compose. cbn. apply NoDup_fst_map_to_list.
    + intros g. rewrite !list_elem_of_fmap. split.
      * intros ([name s] & -> & (s0 & d & Hm & -> & _)%elem_of_iterate%Hlook); [| done].
        exists (name, s0). cbn. rewrite Hpres by done. split; [done | by apply elem_of_map_to_list].
      * intros ([name s0] & -> & Hm%elem_of_map_to_list). cbn.
        assert (mkCapability name (presented name s0) ∈ catalog M) as Hc by (apply elem_of_catalog; by exists s0).
        destruct (Hin _ Hc) as (policy & d & _ & Hd & (_ & _ & _ & Hs)). cbn in Hd, Hs.
        exists (name, tool_spec d). rewrite elem_of_iterate by done. cbn. rewrite Hs, Hpres by done. split; [done |].
        apply Hlook. exists s0, d. by rewrite Hs.
Qed.

(** ** Properties *)

Lemma NewRunner_parts iterate sn ae env tools prep id ie ce runner :
  NewRunner iterate sn ae env tools prep id ie ce = Ok runner ->
  declare_tools tools ∅ = Ok (rn_tools runner) /\ rn_toolSnapshot runner = tool_snapshot (rn_tools runner)
  /\ exists n, normalizeManifest iterate (tool_manifest (rn_tools runner)) = Ok (n, rn_guestManifest runner).
Proof.
  unfold NewRunner. case_match; [done |].
  intros (seed & _ & (m & Hm & Hr)%res_bind_Ok)%res_bind_Ok. destruct ie; [done |].
  apply res_bind_Ok in Hr as ([n guest] & Hn & Hr). destruct ce; [done |]. injection Hr as <-. eauto.
Qed.

(** What a run pins is what its Guests are shown: the tool snapshot that
    is stored with every run of a runner lists the same names with the same
    Python paths as the manifest of its Guests, with the default path filled in
    the same way in both, and no two of these paths are equal or one below the
    other. *)
Theorem runs_pin_what_guests_are_shown iterate (iterate_all : forall m, iterate m ≡ₚ map_to_list m)
  sn ae env tools prep id ie ce runner
  (Hnew : NewRunner iterate sn ae env tools prep id ie ce = Ok runner) :
  rn_toolSnapshot runner = encode_declarations (declarations (rn_tools runner))
  /\ map shown_pair (rn_guestManifest runner) = map pinned_pair (declarations (rn_tools runner))
  /\ apart (map td_PythonPath (declarations (rn_tools runner))).
Proof.
  apply NewRunner_parts in Hnew as (Hd & Hs & (n & (Ha & _ & ->)%normalizeManifest_Ok)); [| done].
  assert (forall name d, rn_tools runner !! name = Some d -> tl_Name d = name) as Hnames
    by (apply (declare_tools_named tools ∅); [done | exact Hd]).
  pose proof (shown_is_pinned iterate iterate_all _ Hnames) as Hp. split_and!; [exact Hs | exact Hp |].
  assert (map td_PythonPath (declarations (rn_tools runner)) = map gt_PythonPath (shown iterate (tool_manifest (rn_tools runner)))) as ->.
  { apply (f_equal (map snd)) in Hp. by rewrite !map_map in Hp. }
  apply (apart_pairs gt_Name gt_PythonPath).
  - unfold shown. rewrite sort_by_perm, map_map. cbn. by apply iterate_names.
  - intros g1 g2. unfold shown. rewrite !elem_of_sort_by, !list_elem_of_fmap.
    intros ([n1 s1] & -> & H1) ([n2 s2] & -> & H2) Hne. apply elem_of_iterate in H1, H2; [| done..].
    by apply (proj2 Ha n1 n2 s1 s2).
Qed.

(** C13.  An approved catalog makes a runner.  If every provider answers, the
    Host approves every capability and its policies are coherent, the tools
    give a runner of exactly these capabilities: each is declared with the
    version and the recovery mode of its policy, no other tool is, and the
    Guests are shown exactly the catalog.  The order of the providers makes no
    difference. *)
Theorem approved_catalog_makes_a_runner iterate0 iterate approve providers tools env id
  (iterate0_all : forall m, iterate0 m ≡ₚ map_to_list m) (iterate_all : forall m, iterate m ≡ₚ map_to_list m)
  (Htools : ToolsFromProviders iterate0 (Some approve) providers = Ok tools)
  (Hcoherent : forall c policy, approve c = Ok policy -> coherent policy) (Henv : env <> "") :
  (exists runner capabilities,
     NewRunner iterate false false env tools [] id None None = Ok runner
     /\ DiscoverCapabilities iterate0 providers = Ok capabilities
     /\ rn_guestManifest runner = map as_guest capabilities
     /\ (forall c, c ∈ capabilities -> exists policy d,
           approve c = Ok policy /\ rn_tools runner !! cap_Name c = Some d /\ declared_as c policy d)
     /\ (forall name, name ∉ map cap_Name capabilities -> rn_tools runner !! name = None))
  /\ (forall providers', providers ≡ₚ providers' -> ToolsFromProviders iterate0 (Some approve) providers' = Ok tools).
Proof.
  apply res_bind_Ok in Htools as (caps & Hdisc & Happ).
  split; [| intros providers' Hp; cbn; by rewrite (DiscoverCapabilities_perm iterate0 iterate0_all _ _ _ Hp Hdisc)].
  pose proof Hdisc as (answers & _ & Hd & Hm & Hcat)%DiscoverCapabilities_Ok; [| done].
  apply approve_all_Ok in Happ. set (M := manifest_of (concat answers)) in *.
  assert (NoDup (map cap_Name caps)) as Hnames.
  { subst caps. unfold catalog. rewrite sort_by_perm, catalog_names. apply NoDup_fst_map_to_list. }
  assert (Forall (fun c => normalize_tool (cap_Name c) (cap_Spec c) = Ok (cap_Spec c)) caps) as Hnorm.
  { subst caps. apply list.Forall_forall. intros c (s & Hs & Hc)%elem_of_catalog. rewrite Hc. cbn.
    by apply (normalize_tool_again (cap_Name c) s), Hm. }
  destruct (declare_tools_all approve caps tools ∅ Happ Hnames) as (m & Hdecl & Hin & Hout); [done.. | by eauto |].
  rewrite Hcat in Hin, Hout.
  destruct (shown_catalog iterate iterate_all m M approve Hm Hin Hout) as [Hacc Hshown].
  exists (mkRunner "" id env m (tool_snapshot m) (shown iterate (tool_manifest m))), caps.
  rewrite Hcat. split_and!; [| by rewrite <- Hcat | done..].
  unfold NewRunner. rewrite bool_decide_eq_false_2 by done. cbn. rewrite Hdecl. cbn.
  by rewrite (proj2 (normalizeManifest_Ok iterate iterate_all _ _ _) (conj Hacc (conj eq_refl eq_refl))).
Qed.

(** ** Witnesses *)

Definition demo_spec (path : string) (schema : option string) : ToolSpec code :=
  mkToolSpec (Some (fun _ _ _ => ToolValue "1")) false path "a tool" schema no_annotations.

Definition demo_providers : list (ToolProvider code) :=
  [Some (Ok [mkCapability "files/write" (demo_spec "files.write" (Some "{}"))]);
   Some (Ok [mkCapability "clock" (demo_spec "" None)])].

Definition demo_approve : CapabilityApprover := fun _ => Ok (mkPolicy "1" Manual None None "" false).

Definition demo_approved : list Tool :=
  match ToolsFromProviders map_to_list (Some demo_approve) demo_providers with Ok tools => tools | Err _ => [] end.

Lemma demo_coherent c policy : demo_approve c = Ok policy -> coherent policy.
Proof. intros [= <-]. split_and!; [left; by constructor | done..]. Qed.

Lemma approved_catalog_makes_a_runner_witness :
  exists runner capabilities,
    NewRunner map_to_list false false "env-1" demo_approved [] "sha256:ab" None None = Ok runner
    /\ DiscoverCapabilities map_to_list (reverse demo_providers) = Ok capabilities
    /\ map shown_pair (map as_guest capabilities) = [("clock", "clock"); ("files/write", "files.write")].
Proof.
  destruct (approved_catalog_makes_a_runner map_to_list map_to_list demo_approve demo_providers demo_approved "env-1" "sha256:ab")
    as ((runner & capabilities & Hnew & Hdisc & _) & _); [done | done | reflexivity | exact demo_coherent | done |].
  exists runner, capabilities. split_and!; [exact Hnew | |].
  - apply (DiscoverCapabilities_perm map_to_list (fun _ => Permutation_refl _) demo_providers); [by rewrite reverse_Permutation | exact Hdisc].
  - assert (DiscoverCapabilities map_to_list demo_providers
      = Ok [mkCapability "clock" (demo_spec "clock" None); mkCapability "files/write" (demo_spec "files.write" (Some "{}"))]) as H
      by reflexivity.
    rewrite H in Hdisc. by injection Hdisc as <-.
Defined.

(** A legacy declaration, and a capability. *)
Definition demo_mixed : list Tool :=
  [mkTool no_capability "legacy" "1" (Some (fun _ _ _ => ToolValue "1")) RetrySafe None None "" false;
   BindCapability (mkCapability "files/write" (demo_spec "files.write" (Some "{}"))) (mkPolicy "2" Manual None None "" false)].

Definition demo_mixed_runner : Runner.Runner :=
  match NewRunner map_to_list false false "env-1" demo_mixed [] "sha256:ab" None None with
  | Ok r => r | Err _ => mkRunner "" "" "" ∅ "" [] end.

Lemma runs_pin_what_guests_are_shown_witness :
  map shown_pair (rn_guestManifest demo_mixed_runner) = [("files/write", "files.write"); ("legacy", "legacy")]
  /\ map pinned_pair (declarations (rn_tools demo_mixed_runner)) = [("files/write", "files.write"); ("legacy", "legacy")]
  /\ apart (map td_PythonPath (declarations (rn_tools demo_mixed_runner))).
Proof.
  destruct (runs_pin_what_guests_are_shown map_to_list (fun _ => Permutation_refl _) false false "env-1" demo_mixed []
    "sha256:ab" None None demo_mixed_runner eq_refl) as (_ & Hs & Ha).
  split; [reflexivity | split; [rewrite <- Hs; reflexivity | exact Ha]].
Defined.
