(* ===== verification/ReplayProps.v ===== *)
(** * ReplayProps: an exported run replays offline

    What [Export] wrote, read back: the stored output, the pinned tool snapshot
    and from it the offline manifest, which shows the Guest the same tools as the
    runner did.  Then [ReplayBundle] ends as the attempt did. *)

From S2P Require Import Prelude Errors Effects Json JsonProps Order GoTime Store StoreSpec StoreInv StoreProps Manifest ManifestProps Bridge Journal JournalSpec Bundle Runner RunnerSpec RunnerProps Capability CapabilityProps.

(** ** The stored output *)

Lemma plain_names : Forall plain_name ["Value"; "Stdout"; "Transformed"; "name"; "version"; "recovery"; "python_path"].
Proof. repeat (constructor; [split; reflexivity |]). constructor. Qed.

Ltac plain := match goal with
  | |- plain_name _ => refine (proj1 (list.Forall_forall _ _) plain_names _ _); set_solver
  end.

Lemma marshalled_not_null s : bool_decide (marshal_string s = "null") = false.
Proof. by apply bool_decide_eq_false_2. Qed.

Lemma decode_some s : exists x, decode_string (marshal_string s) = Some x.
Proof. by eexists. Qed.

(** What the decoder makes of an encoded output. *)
Lemma stored_output out stored :
  marshal_output out = Some stored -> Json.valid stored = true ->
  utf8_valid (o_Stdout out) = true -> utf8_valid (o_Transformed out) = true ->
  exists v, marshal_raw (o_Value out) = Some v /\ marshal_raw v = Some v /\ v <> ""
    /\ unmarshal_output stored = (mkOutput v (o_Stdout out) (o_Transformed out), true).
Proof.
  unfold marshal_output. destruct (marshal_raw (o_Value out)) as [v |] eqn:Hv; [| done]. intros [= <-] Hvalid Hout Htr.
  destruct (marshal_raw_facts _ _ Hv) as (Hagain & Hvv & Htrim & Hne). exists v. split_and!; [done.. |].
  set (ms := [("Value", v); ("Stdout", marshal_string (o_Stdout out)); ("Transformed", marshal_string (o_Transformed out))]).
  change [member "Value" v; member "Stdout" (marshal_string (o_Stdout out)); member "Transformed" (marshal_string (o_Transformed out))]
    with (members_of ms) in *.
  assert (value_in ParseObjectValue v) as Hin.
  { apply embedded_value; [done |]. revert Hvalid. unfold Json.valid, object_of, members_of, ms. cbn [map fst snd join_with].
    assert (forall r, scan_all scan_init ("{" +:+ member "Value" v +:+ r) = scan_all (mkScanner BeginValue [ParseObjectValue]) (v +:+ r)) as Heq.
    { intros r. unfold member. rewrite !str_app_assoc. reflexivity. }
    rewrite !str_app_assoc, Heq, scan_all_app. by destruct (scan_all _ v). }
  unfold unmarshal_output. rewrite Hvalid. cbn [negb]. rewrite object_members_of; [| done |].
  2:{ unfold ms. repeat constructor; cbn [fst snd]; try plain; try done; try apply string_value; try apply trim_marshalled. }
  unfold ms, string_field, raw_field. cbn [map fold_left fst snd].
  change (names (key_text "Value") "Stdout") with false. change (names (key_text "Value") "Transformed") with false.
  change (names (key_text "Value") "Value") with true. change (names (key_text "Stdout") "Stdout") with true.
  change (names (key_text "Stdout") "Transformed") with false. change (names (key_text "Stdout") "Value") with false.
  change (names (key_text "Transformed") "Stdout") with false. change (names (key_text "Transformed") "Transformed") with true.
  change (names (key_text "Transformed") "Value") with false. cbv beta iota.
  by rewrite !marshalled_not_null, !decode_marshalled.
Qed.

(** The comparison of the replay with the output that was stored. *)
Lemma compare_stored run out :
  marshal_output out = Some (br_Outcome run) -> Json.valid (br_Outcome run) = true -> br_Status run = StatusCompleted ->
  utf8_valid (o_Stdout out) = true -> utf8_valid (o_Transformed out) = true -> compareReplay run out None = None.
Proof.
  intros Hm Hv Hs H1 H2. destruct (stored_output _ _ Hm Hv H1 H2) as (v & Hr & Hagain & Hne & Hu).
  unfold compareReplay. rewrite Hu. cbn [negb o_Value o_Stdout o_Transformed].
  assert (sameJSON v (o_Value out) = true) as ->.
  { unfold sameJSON. rewrite Hagain, Hr. by apply bool_decide_eq_true_2. }
  rewrite Hs, !bool_decide_eq_true_2 by done. reflexivity.
Qed.

(** ** The tool snapshot *)

(** A declaration as it is read back: the version may have lost bytes that are
    not UTF-8. *)
Definition same_entry (d d' : toolDeclaration) : Prop := pinned_pair d' = pinned_pair d.

Definition declaration_members (d : toolDeclaration) : list (string * string) :=
  [("name", marshal_string (td_Name d)); ("version", marshal_string (td_Version d)); ("recovery", marshal_string (td_Recovery d))].

Definition all_members (d : toolDeclaration) : list (string * string) :=
  declaration_members d ++ [("python_path", marshal_string (td_PythonPath d))].

Lemma encode_declaration_members d : td_PythonPath d <> "" -> encode_declaration d = object_of (members_of (all_members d)).
Proof. intros Hd. unfold encode_declaration. by rewrite bool_decide_eq_false_2. Qed.

Lemma members_fine d : Forall (fun m => plain_name m.1 /\ value_in ParseObjectValue m.2 /\ trim m.2 = m.2) (all_members d).
Proof. repeat constructor; cbn [fst snd]; try plain; try apply string_value; try apply trim_marshalled. Qed.

Lemma legacy_members_fine d : Forall (fun m => plain_name m.1 /\ value_in ParseObjectValue m.2 /\ trim m.2 = m.2) (declaration_members d).
Proof. pose proof (members_fine d) as H. by apply list.Forall_app in H as [? _]. Qed.

(** Reading one declaration. *)
Lemma decode_members d ms :
  string_field "name" ms = (td_Name d, true) -> (exists v, string_field "version" ms = (v, true)) ->
  (exists r, string_field "recovery" ms = (r, true)) -> string_field "python_path" ms = (td_PythonPath d, true) ->
  forall raw, object_members raw = Some ms -> exists d', decode_declaration raw = Some d' /\ same_entry d d'.
Proof.
  intros H1 [v H2] [r H3] H4 raw Hraw. unfold decode_declaration. rewrite Hraw, H1, H2, H3, H4. cbn [andb].
  eexists. split; [reflexivity |]. by destruct d.
Qed.

Ltac read_field :=
  unfold string_field; cbn [map app fold_left fst snd];
  repeat match goal with
  | |- context [names (key_text ?k) ?n] =>
      let b := eval vm_compute in (names (key_text k) n) in change (names (key_text k) n) with b
  end; cbv beta iota; rewrite ?marshalled_not_null.

Lemma decode_encoded d :
  td_PythonPath d <> "" -> utf8_valid (td_Name d) = true -> utf8_valid (td_PythonPath d) = true ->
  exists d', decode_declaration (encode_declaration d) = Some d' /\ same_entry d d'.
Proof.
  intros Hp Hn Hu. rewrite encode_declaration_members by done.
  apply (decode_members d (map (fun m => (key_text m.1, m.2)) (all_members d)));
    [| | | | apply object_members_of; [done | apply members_fine]]; unfold all_members, declaration_members; read_field.
  - by rewrite decode_marshalled.
  - destruct (decode_some (td_Version d)) as [x ->]. by eexists.
  - destruct (decode_some (td_Recovery d)) as [x ->]. by eexists.
  - by rewrite decode_marshalled.
Qed.

Lemma decode_legacy d : exists d', decode_declaration (encode_legacy d) = Some d' /\ td_PythonPath d' = "".
Proof.
  change (encode_legacy d) with (object_of (members_of (declaration_members d))). unfold decode_declaration.
  rewrite object_members_of; [| done | apply legacy_members_fine]. unfold declaration_members. read_field.
  destruct (decode_some (td_Name d)) as [x ->], (decode_some (td_Version d)) as [y ->], (decode_some (td_Recovery d)) as [z ->].
  eexists. split; reflexivity.
Qed.

(** Reading a list of structs. *)
Lemma read_objects l (encode : toolDeclaration -> list (string * string)) :
  (forall d, encode d <> [] /\ Forall (fun m => plain_name m.1 /\ value_in ParseObjectValue m.2 /\ trim m.2 = m.2) (encode d)) ->
  let text := array_of (map (fun d => object_of (members_of (encode d))) l) in
  Json.valid text = true -> unmarshal_declarations text = mapM decode_declaration (map (fun d => object_of (members_of (encode d))) l).
Proof.
  intros He text Hv. unfold unmarshal_declarations. rewrite Hv. cbn [negb]. unfold text. rewrite array_elems_of; [done |].
  assert (forall d, Json.valid (object_of (members_of (encode d))) = true) as Hobj.
  { intros d. destruct (He d) as [Hne Hms]. apply object_valid; [done |]. apply (list.Forall_impl _ _ _ Hms). naive_solver. }
  assert (Forall (value_in ParseArrayValue) (map (fun d => object_of (members_of (encode d))) l)) as Hin.
  { apply valid_array_values; [| exact Hv]. apply list.Forall_forall. intros t (d & -> & _)%list_elem_of_fmap.
    split; [apply Hobj |]. by eexists _, _. }
  apply list.Forall_forall. intros t Ht. split; [by apply (proj1 (list.Forall_forall _ _) Hin) |].
  apply list_elem_of_fmap in Ht as (d & -> & _). split; [apply object_trimmed |]. by eexists _, _.
Qed.

Lemma read_snapshot l :
  Forall (fun d => td_PythonPath d <> "" /\ utf8_valid (td_Name d) = true /\ utf8_valid (td_PythonPath d) = true) l ->
  Json.valid (encode_declarations l) = true ->
  exists l', unmarshal_declarations (encode_declarations l) = Some l' /\ Forall2 same_entry l l'.
Proof.
  intros Hl Hv. unfold encode_declarations in *.
  assert (map encode_declaration l = map (fun d => object_of (members_of (all_members d))) l) as Heq.
  { apply map_ext_in. intros d Hd%list_elem_of_In. apply encode_declaration_members. by apply (proj1 (list.Forall_forall _ _) Hl). }
  rewrite Heq in *. rewrite (read_objects l all_members); [| | done].
  2:{ intros d. split; [done | apply members_fine]. }
  rewrite <- Heq. clear Heq Hv. induction Hl as [| d l (H1 & H2 & H3) _ (l' & IH & Hall)]; [by exists [] |].
  destruct (decode_encoded d H1 H2 H3) as (d' & Hd & Hs). exists (d' :: l'). cbn. rewrite Hd, IH. split; [done | by constructor].
Qed.

Lemma read_legacy l : Json.valid (array_of (map encode_legacy l)) = true ->
  exists l', unmarshal_declarations (array_of (map encode_legacy l)) = Some l' /\ Forall (fun d => td_PythonPath d = "") l' /\ length l' = length l.
Proof.
  change (map encode_legacy l) with (map (fun d => object_of (members_of (declaration_members d))) l).
  intros Hv. rewrite (read_objects l declaration_members); [| | done].
  2:{ intros d. split; [done | apply legacy_members_fine]. }
  change (map _ l) with (map encode_legacy l). clear Hv. induction l as [| d l (l' & IH & Hall & Hlen)]; [by exists [] |].
  destruct (decode_legacy d) as (d' & Hd & Hs). exists (d' :: l'). cbn. rewrite Hd, IH. split; [done |]. split; [by constructor | by rewrite Hlen].
Qed.

(** ** The pinned snapshot *)

Lemma validateBundleRun_facts run :
  validateBundleRun run = Ok tt ->
  Json.valid (br_Outcome run) = true /\ (br_Tools run <> "" -> Json.valid (br_Tools run) = true)
  /\ exists l, (if bool_decide (br_Tools run = "") then Some [] else unmarshal_declarations (br_Tools run)) = Some l
       /\ Forall (fun d => td_PythonPath d <> "") l.
Proof.
  unfold validateBundleRun, invalid, valid_if_present.
  repeat match goal with |- (if ?b then _ else _) = _ -> _ => destruct b eqn:?; [done |] end.
  destruct (if bool_decide (br_Tools run = "") then _ else _) as [l |]; [| done].
  destruct (existsb _ l) eqn:He; [done |]. intros _. guards. split; [done |]. split.
  { intros Hne. match goal with H : _ || Json.valid (br_Tools run) = true |- _ => apply orb_true_iff in H as [H | H] end; [by guards | done]. }
  exists l. split; [done |]. apply list.Forall_forall. intros d Hd Hp. apply not_true_iff_false in He. apply He.
  apply existsb_exists. exists d. split; [by apply list_elem_of_In |].
  by rewrite (bool_decide_eq_true_2 (td_PythonPath d = "")), orb_true_r.
Qed.

(** ASCII is UTF-8. *)
Lemma ascii_utf8 s : Forall (fun c => (N_of_ascii c < 128)%N) (String.list_ascii_of_string s) -> utf8_valid s = true.
Proof.
  unfold utf8_valid. induction s as [| c s IH]; [done |]. cbn [String.list_ascii_of_string utf8_valid_from].
  intros [Hc Hs]%list.Forall_cons. cbn [rune_len]. assert (byte_in 0 127 c = true) as -> by (apply byte_in_spec; lia). by apply IH.
Qed.

Lemma letter_ascii c : is_letter c = true -> (N_of_ascii c < 128)%N.
Proof. unfold is_letter. intros [H%byte_in_spec | H%byte_in_spec]%orb_true_iff; lia. Qed.

Lemma digit_ascii c : is_digit c = true -> (N_of_ascii c < 128)%N.
Proof. intros H%byte_in_spec. lia. Qed.

Lemma tool_name_utf8 name u : validateToolName name = Ok u -> utf8_valid name = true.
Proof.
  unfold validateToolName. destruct (_ || _) eqn:Hv; [done |]. intros _. guards.
  apply ascii_utf8. destruct name as [| c name]; [done |].
  assert (forall c, (is_letter c || is_digit c || bool_decide (c = "_"%char)) = true -> (N_of_ascii c < 128)%N) as Hfirst.
  { intros x [[Hx | Hx]%orb_true_iff | Hx]%orb_true_iff; [by apply letter_ascii | by apply digit_ascii | by apply bool_decide_eq_true in Hx as ->]. }
  match goal with H : canonicalToolName _ = true |- _ => cbn [canonicalToolName] in H; apply andb_true_iff in H as [Hc Hs] end.
  cbn [String.list_ascii_of_string]. constructor; [by apply Hfirst |].
  rewrite forallb_forall in Hs. apply list.Forall_forall. intros x Hx%list_elem_of_In. apply Hs in Hx.
  apply orb_true_iff in Hx as [Hx | Hx]; [by apply Hfirst |]. apply bool_decide_eq_true in Hx. cbn in Hx.
  repeat (apply elem_of_cons in Hx as [-> | Hx]; [done |]). by apply elem_of_nil in Hx.
Qed.

Lemma identifier_ascii s : pythonIdentifier s = true -> Forall (fun c => (N_of_ascii c < 128)%N) (String.list_ascii_of_string s).
Proof.
  destruct s as [| c s]; [done |]. cbn [pythonIdentifier String.list_ascii_of_string]. intros [Hc Hs]%andb_true_iff. constructor.
  - apply orb_true_iff in Hc as [Hc | Hc]; [by apply letter_ascii | by apply bool_decide_eq_true in Hc as ->].
  - rewrite forallb_forall in Hs. apply list.Forall_forall. intros x Hx%list_elem_of_In. apply Hs in Hx.
    apply orb_true_iff in Hx as [[Hx | Hx]%orb_true_iff | Hx]; [by apply letter_ascii | by apply digit_ascii | by apply bool_decide_eq_true in Hx as ->].
Qed.

Lemma split_ascii sep s :
  (N_of_ascii sep < 128)%N -> Forall (fun p => Forall (fun c => (N_of_ascii c < 128)%N) (String.list_ascii_of_string p)) (split_char sep s) ->
  Forall (fun c => (N_of_ascii c < 128)%N) (String.list_ascii_of_string s).
Proof.
  intros Hsep. induction s as [| c s IH]; [constructor |]. cbn [split_char String.list_ascii_of_string].
  case_bool_decide as Hc.
  - intros [_ H]%list.Forall_cons. subst c. constructor; [done | by apply IH].
  - destruct (split_char sep s) as [| p ps] eqn:Hs; intros [Hp Hps]%list.Forall_cons; cbn in Hp;
      apply list.Forall_cons in Hp as [H1 H2]; (constructor; [done |]); apply IH; [done | by constructor].
Qed.

Lemma python_path_utf8 path : validPythonPath path = true -> utf8_valid path = true.
Proof.
  unfold validPythonPath. intros [[Hp _]%andb_true_iff _]%andb_true_iff. apply ascii_utf8, (split_ascii "."); [done |].
  rewrite forallb_forall in Hp. apply list.Forall_forall. intros part Hin%list_elem_of_In.
  apply Hp in Hin. apply andb_true_iff in Hin as [Hi _]. by apply identifier_ascii.
Qed.

(** ** The offline manifest *)

Lemma offline_manifest_Ok l acc :
  NoDup (map td_Name l) -> (forall d, d ∈ l -> acc !! td_Name d = None) ->
  exists m, offline_manifest l acc = Ok m
    /\ forall n s, m !! n = Some s <-> acc !! n = Some s \/ exists d, d ∈ l /\ td_Name d = n /\ s = offline_stub (td_PythonPath d).
Proof.
  revert acc. induction l as [| d l IH]; intros acc Hd Hacc; cbn [offline_manifest].
  { exists acc. split; [done |]. intros n s. split; [by left |]. intros [? | (d & Hd' & _)]; [done | by apply elem_of_nil in Hd']. }
  rewrite (Hacc d) by constructor. cbn [map] in Hd. apply list.NoDup_cons in Hd as [Hnot Hd].
  destruct (IH (<[td_Name d := offline_stub (td_PythonPath d)]> acc) Hd) as (m & Hm & Hlook).
  { intros d' Hd'. rewrite lookup_insert_ne; [apply Hacc; by constructor |]. intros Heq. apply Hnot. rewrite Heq. by apply list_elem_of_fmap_2. }
  exists m. split; [done |]. intros n s. rewrite Hlook, lookup_insert_Some. setoid_rewrite elem_of_cons. split.
  - intros [[[<- <-] | [_ ?]] | (d' & ? & ? & ?)]; [right; exists d; auto | by left | right; exists d'; auto].
  - intros [Hs | (d' & [-> | Hd'] & Hn & Hs)]; [| by left; left | right; by exists d'].
    left. right. split; [| done]. intros <-. by rewrite (Hacc d) in Hs by constructor.
Qed.

Lemma normalize_tool_named {C} name (s s' : ToolSpec C) : normalize_tool name s = Ok s' -> exists u, validateToolName name = Ok u.
Proof. unfold normalize_tool. destruct (validateToolName name); [eauto | done]. Qed.

Lemma pinned_pair_inv a b : pinned_pair a = pinned_pair b -> td_Name a = td_Name b /\ td_PythonPath a = td_PythonPath b.
Proof. by intros [=]. Qed.

Lemma offline_path name path : path <> "" -> python_path name (offline_stub path) = path.
Proof. intros Hne. unfold python_path. cbn [ts_PythonPath offline_stub]. by rewrite bool_decide_eq_false_2. Qed.

Lemma offline_normal name u path :
  validateToolName name = Ok u -> validPythonPath path = true ->
  normalize_tool name (offline_stub path) = Ok (offline_stub path) /\ presented name (offline_stub path) = offline_stub path.
Proof.
  intros Hu Hv. pose proof (valid_path_nonempty _ Hv) as Hne. split.
  - unfold normalize_tool. rewrite Hu. cbn [res_bind ts_Call offline_stub].
    change (maxToolDescriptionBytes <? slen (ts_Description (offline_stub path)))%N with false. cbv beta iota.
    unfold normalize_path. cbn [ts_PythonPath offline_stub]. by rewrite bool_decide_eq_false_2, Hv by done.
  - unfold presented. by rewrite offline_path.
Qed.

Section Pinned.
Variable tools : gmap string Tool.
Hypothesis named : forall name t, tools !! name = Some t -> tl_Name t = name.
Hypothesis accepted : acceptable_manifest (tool_manifest tools).

Lemma tool_accepted name t :
  tools !! name = Some t -> normalize_tool name (tool_spec t) = Ok (presented name (tool_spec t)).
Proof. intros Ht. apply accepted. unfold tool_manifest. by rewrite lookup_fmap, Ht. Qed.

Lemma tool_path name t :
  tools !! name = Some t -> exists u, validateToolName name = Ok u /\ validPythonPath (python_path name (tool_spec t)) = true.
Proof.
  intros Ht. pose proof (tool_accepted name t Ht) as Hn. destruct (normalize_tool_named _ _ _ Hn) as [u Hu].
  apply normalize_tool_Ok in Hn as [_ Hv]. eauto.
Qed.

Lemma elem_of_declarations d :
  d ∈ declarations tools <-> exists name t, tools !! name = Some t /\ d = declaration t.
Proof.
  unfold declarations. rewrite elem_of_sort_by, list_elem_of_fmap. split.
  - intros ([name t] & -> & Hin%elem_of_map_to_list). by exists name, t.
  - intros (name & t & Ht & ->). exists (name, t). split; [done | by apply elem_of_map_to_list].
Qed.

Lemma declaration_pair name t :
  tools !! name = Some t -> td_Name (declaration t) = name /\ td_PythonPath (declaration t) = python_path name (tool_spec t).
Proof. intros Ht. pose proof (pinned_path name t (named _ _ Ht)) as Hp. by injection Hp. Qed.

Lemma declarations_fine :
  Forall (fun d => td_PythonPath d <> "" /\ utf8_valid (td_Name d) = true /\ utf8_valid (td_PythonPath d) = true) (declarations tools).
Proof.
  apply list.Forall_forall. intros d (name & t & Ht & ->)%elem_of_declarations.
  destruct (declaration_pair name t Ht) as [-> ->]. destruct (tool_path name t Ht) as (u & Hu & Hv).
  split_and!; [by apply valid_path_nonempty | by apply (tool_name_utf8 name u) | by apply python_path_utf8].
Qed.

Lemma declarations_names : NoDup (map td_Name (declarations tools)).
Proof.
  unfold declarations. rewrite sort_by_perm, map_map.
  assert (map (fun kv : string * Tool => td_Name (declaration kv.2)) (map_to_list tools) = map fst (map_to_list tools)) as ->;
    [| apply NoDup_fst_map_to_list].
  apply map_ext_in. intros [name t] Ht%list_elem_of_In%elem_of_map_to_list. by apply declaration_pair.
Qed.

(** What was read back shows the Guests the same names under the same paths; no
    tool may be called early. *)
Lemma offline_manifest_shown iterate iterate' l' :
  (forall m, iterate m ≡ₚ map_to_list m) -> (forall m, iterate' m ≡ₚ map_to_list m) ->
  Forall2 same_entry (declarations tools) l' ->
  (forall name t, tools !! name = Some t -> ts_AllowEarlyRead (tool_spec t) = false) ->
  exists m n, offline_manifest l' ∅ = Ok m /\ normalizeManifest iterate' m = Ok (n, shown iterate (tool_manifest tools)).
Proof.
  intros Hall Hall' Hl Hearly.
  assert (map pinned_pair l' = map pinned_pair (declarations tools)) as Hpairs.
  { clear -Hl. induction Hl as [| d d' l l' Hd _ IH]; [done |]. cbn. by rewrite IH, Hd. }
  assert (map td_Name l' = map td_Name (declarations tools)) as Hnames.
  { apply (f_equal (map fst)) in Hpairs. by rewrite !map_map in Hpairs. }
  destruct (offline_manifest_Ok l' ∅) as (m & Hm & Hlook); [rewrite Hnames; apply declarations_names | done |].
  assert (forall n s, m !! n = Some s <-> exists t, tools !! n = Some t /\ s = offline_stub (python_path n (tool_spec t))) as Hlook'.
  { intros n s. rewrite Hlook, lookup_empty. split.
    - intros [? | (d & Hd & Hn & ->)]; [done |].
      assert (pinned_pair d ∈ map pinned_pair (declarations tools)) as Hin by (rewrite <- Hpairs; by apply list_elem_of_fmap_2).
      apply list_elem_of_fmap in Hin as (d0 & Heq & (name & t & Ht & ->)%elem_of_declarations).
      destruct (declaration_pair name t Ht) as [H1 H2]. apply pinned_pair_inv in Heq as [Hd1 Hd2].
      assert (n = name) as -> by congruence. exists t. split; [done | by rewrite Hd2, H2].
    - intros (t & Ht & ->). right. destruct (declaration_pair n t Ht) as [H1 H2].
      assert (pinned_pair (declaration t) ∈ map pinned_pair l') as Hin.
      { rewrite Hpairs. apply list_elem_of_fmap_2, elem_of_declarations. eauto. }
      apply list_elem_of_fmap in Hin as (d & Heq & Hd). apply pinned_pair_inv in Heq as [Hd1 Hd2].
      exists d. split_and!; [done | congruence | congruence]. }
  exists m, (presented_all m). split; [done |]. apply normalizeManifest_Ok; [done |]. split_and!; [split | done |].
  - intros name s (t & Ht & ->)%Hlook'. destruct (tool_path name t Ht) as (u & Hu & Hv).
    destruct (offline_normal name u _ Hu Hv) as [Hn Hp]. by rewrite Hp.
  - intros n1 n2 s1 s2 Hne (t1 & H1 & ->)%Hlook' (t2 & H2 & ->)%Hlook'.
    destruct (tool_path n1 t1 H1) as (_ & _ & Hv1%valid_path_nonempty), (tool_path n2 t2 H2) as (_ & _ & Hv2%valid_path_nonempty).
    rewrite !offline_path by done. apply (proj2 accepted n1 n2); [done | |]; unfold tool_manifest; by rewrite lookup_fmap, ?H1, ?H2.
  - unfold shown. apply (sort_by_key_unique gt_Name); [| rewrite map_map; cbn; by apply iterate_names].
    apply NoDup_Permutation.
    + apply (NoDup_fmap_1 gt_Name). rewrite <- list_fmap_compose. cbn. by apply iterate_names.
    + apply (NoDup_fmap_1 gt_Name). rewrite <- list_fmap_compose. cbn. by apply iterate_names.
    + assert (forall name t, tools !! name = Some t ->
        guest_spec name (presented name (tool_spec t)) = guest_spec name (presented name (offline_stub (python_path name (tool_spec t))))) as Hsame.
      { intros name t Ht. destruct (tool_path name t Ht) as (u & Hu & Hv). rewrite (proj2 (offline_normal name u _ Hu Hv)).
        unfold guest_spec. cbn. by rewrite (Hearly name t Ht). }
      intros g. rewrite !list_elem_of_fmap. split.
      * intros ([name s] & -> & Hin). apply elem_of_iterate in Hin; [| done]. unfold tool_manifest in Hin. rewrite lookup_fmap in Hin.
        destruct (tools !! name) as [t |] eqn:Ht; [| done]. injection Hin as <-.
        eexists (name, _). cbn. split; [by apply Hsame |]. apply elem_of_iterate; [done |]. apply Hlook'. eauto.
      * intros ([name s] & -> & Hin). apply elem_of_iterate in Hin; [| done]. apply Hlook' in Hin as (t & Ht & ->).
        exists (name, tool_spec t). cbn. split; [symmetry; by apply Hsame |]. apply elem_of_iterate; [done |].
        unfold tool_manifest. by rewrite lookup_fmap, Ht.
Qed.
End Pinned.

Lemma unmarshal_valid raw l : unmarshal_declarations raw = Some l -> Json.valid raw = true.
Proof. unfold unmarshal_declarations. by destruct (Json.valid raw). Qed.

(** An exported run has the snapshot with the Python paths. *)
Lemma exported_snapshot tools raw l :
  (forall name t, tools !! name = Some t -> tl_Name t = name) -> acceptable_manifest (tool_manifest tools) ->
  matchesToolSnapshot raw (tool_snapshot tools) = true ->
  unmarshal_declarations raw = Some l -> Forall (fun d => td_PythonPath d <> "") l -> raw = tool_snapshot tools.
Proof.
  intros Hnamed Hacc Hm Hraw Hl. unfold matchesToolSnapshot in Hm. apply orb_true_iff in Hm as [Hm | Hm]; [by guards |].
  destruct (unmarshal_declarations (tool_snapshot tools)) as [decls |] eqn:Hcur; [| done]. apply bool_decide_eq_true in Hm.
  pose proof (unmarshal_valid _ _ Hraw) as Hvraw. rewrite Hm in Hvraw.
  destruct (read_legacy decls Hvraw) as (l' & Hread & Hempty & Hlen). rewrite <- Hm, Hraw in Hread. injection Hread as <-.
  assert (decls = []) as ->.
  { destruct l as [| d l]; [by destruct decls |]. apply list.Forall_cons in Hl as [Hl _]. by apply list.Forall_cons in Hempty as [? _]. }
  destruct (read_snapshot (declarations tools) (declarations_fine _ Hnamed Hacc) (unmarshal_valid _ _ Hcur)) as (l'' & Hread & Hall).
  unfold tool_snapshot in *. rewrite Hcur in Hread. injection Hread as <-. apply Forall2_nil_inv_r in Hall. by rewrite Hm, Hall.
Qed.

Lemma validatePinned_None runner d :
  validatePinned runner d = None ->
  d_ArtifactSHA256 d = rn_artifactSHA256 runner /\ d_Tools d <> "" /\ matchesToolSnapshot (d_Tools d) (rn_toolSnapshot runner) = true.
Proof.
  unfold validatePinned. repeat match goal with |- (if ?b then _ else _) = _ -> _ => destruct b eqn:?; [done |] end.
  intros _. guards. by split_and!.
Qed.

Lemma validateRunBundle_run b : validateRunBundle b = Ok tt -> validateBundleRun (b_Run b) = Ok tt.
Proof.
  unfold validateRunBundle, invalid. case_match; [done |]. by destruct (validateBundleRun (b_Run b)) as [[] |].
Qed.

(** The steps of [ReplayBundle] on a bundle that replays. *)
Lemma ReplayBundle_runs je artifactID artifact iterate bundle m n gm out :
  validateRunBundle bundle = Ok tt -> artifactID = br_ArtifactSHA256 (b_Run bundle) ->
  offlineManifest (br_Tools (b_Run bundle)) = Ok m -> normalizeManifest iterate m = Ok (n, gm) ->
  RunRecorded je (omap ts_Call n) (Some (offlineJournal (br_ID (b_Run bundle)) (b_Calls bundle))) artifact gm None
    (br_Code (b_Run bundle)) (br_Inputs (b_Run bundle)) (br_Seed (b_Run bundle)) 0%nat = (out, None, length (b_Calls bundle)) ->
  compareReplay (b_Run bundle) out None = None ->
  ReplayBundle je artifactID false (Some artifact) iterate bundle = (out, None).
Proof.
  intros Hval Hid Hm Hn Hrun Hcmp. unfold ReplayBundle, reconstruct. rewrite Hval, bool_decide_eq_true_2 by done. cbn [negb].
  rewrite Hm, Hn, Hrun, Nat.eqb_refl. cbn [negb]. by rewrite Hcmp.
Qed.

(** The offline manifest of an exported run of a runner. *)
Lemma exported_manifest iterate iterate' tools raw l :
  (forall m, iterate m ≡ₚ map_to_list m) -> (forall m, iterate' m ≡ₚ map_to_list m) ->
  (forall name t, tools !! name = Some t -> tl_Name t = name) -> acceptable_manifest (tool_manifest tools) ->
  (forall name t, tools !! name = Some t -> ts_AllowEarlyRead (tool_spec t) = false) ->
  raw <> "" -> matchesToolSnapshot raw (tool_snapshot tools) = true ->
  unmarshal_declarations raw = Some l -> Forall (fun d => td_PythonPath d <> "") l ->
  exists m n, offlineManifest raw = Ok m /\ normalizeManifest iterate' m = Ok (n, shown iterate (tool_manifest tools)).
Proof.
  intros Hall Hall' Hnamed Hacc Hearly Hne Hm Hraw Hl.
  pose proof (exported_snapshot tools raw l Hnamed Hacc Hm Hraw Hl) as Heq. unfold tool_snapshot in Heq.
  assert (Json.valid (encode_declarations (declarations tools)) = true) as Hv by (rewrite <- Heq; by eapply unmarshal_valid).
  destruct (read_snapshot _ (declarations_fine _ Hnamed Hacc) Hv) as (l' & Hread & Hsame). rewrite <- Heq, Hraw in Hread.
  injection Hread as <-. destruct (offline_manifest_shown tools Hnamed Hacc iterate iterate' l Hall Hall' Hsame Hearly) as (m & n & Hoff & Hnorm).
  exists m, n. split; [| done]. unfold offlineManifest. by rewrite bool_decide_eq_false_2, Hraw by done.
Qed.

(** ** The property *)

(** C8.  Replay reproduces the run.  When an attempt of a runner completes a run
    while it holds the claim, [ReplayBundle] of every later export of the run,
    with the same Guest bytes, gives the same output and finds no mismatch,
    dispatching nothing.  The run was checked against the runner, as [Resume]
    does; no tool of the runner may be called early, since the offline manifest
    does not carry that permission and the Guest would be shown another
    manifest; and the two texts of the output are UTF-8, since the stored
    outcome is JSON. *)
Theorem completed_attempt_replays iterate iterate' sn ae env declared prep id ie ce runner
    faults others now y rq je artifact run runID h output runErr h1 out h2 faults' others' w bundle w'
  (iterate_all : forall m, iterate m ≡ₚ map_to_list m) (iterate'_all : forall m, iterate' m ≡ₚ map_to_list m)
  (Hnew : NewRunner iterate sn ae env declared prep id ie ce = Ok runner)
  (Hothers : forall n t, rtc store_next t (others n t))
  (Hclaim : forall n t s, t_calls t !! (runID, s) = None -> t_calls (others n t) !! (runID, s) = None)
  (Hwf : wf (tabs h)) (Hrun : t_runs (tabs h) !! runID = Some run) (Hpin : validatePinned runner (r_Definition run) = None)
  (Hatt : run_attempt faults others now y rq je artifact (rn_guestManifest runner) runner run runID h = (output, runErr, h1))
  (Hcon : conclude faults others je runID output runErr h1 = ((out, None), h2))
  (Hlater : rtc store_next (tabs h2) (w_tables w)) (Hothers' : forall n t, rtc store_next t (others' n t))
  (Hexp : Export faults' others' runID w = (Ok bundle, w'))
  (Hearly : forall name t, rn_tools runner !! name = Some t -> ts_AllowEarlyRead (tool_spec t) = false)
  (Hstdout : utf8_valid (o_Stdout out) = true) (Htransformed : utf8_valid (o_Transformed out) = true) :
  ReplayBundle je (rn_artifactSHA256 runner) false (Some artifact) iterate' bundle = (out, None).
Proof.
  pose proof (NewRunner_declared _ _ _ _ _ _ _ _ _ _ Hnew) as Hd.
  apply NewRunner_parts in Hnew as (Hdecl & Hsnap & n0 & (Hacc & _ & Hgm)%normalizeManifest_Ok); [| done].
  assert (forall name d, rn_tools runner !! name = Some d -> tl_Name d = name) as Hnamed by (intros name d H; by apply (Hd name)).
  pose proof (ext_run_attempt faults others now y rq je artifact (rn_guestManifest runner) runner runID Hothers Hnamed run h Hwf) as He1.
  rewrite Hatt in He1. simpl in He1. assert (wf (tabs h1)) as Hwf1 by (eapply ext_wf; [exact Hwf | exact He1]).
  pose proof (ext_conclude faults others je runner runID Hothers output runErr h1 Hwf1) as He2.
  rewrite Hcon in He2. simpl in He2. assert (wf (tabs h2)) as Hwf2 by (eapply ext_wf; [exact Hwf1 | exact He2]).
  apply (conclude_completed faults others je runID Hclaim) in Hcon as (-> & -> & (d & stored & Hst & Hrow) & Habs).
  destruct (Export_Ok _ _ _ _ _ _ Hothers' Hexp) as (t1 & t2 & run' & Ht1 & Ht2 & Hrun' & Hbr & Hbc & Hval).
  assert (rtc store_next (tabs h2) t1) as H21 by (by etrans). assert (rtc store_next (tabs h2) t2) as H22 by (by etrans).
  pose proof (run_frozen _ _ _ _ Hwf2 H21 Hrow eq_refl) as Hfrozen. rewrite Hrun' in Hfrozen. injection Hfrozen as ->.
  assert (d = r_Definition run) as ->.
  { assert (rtc store_next (tabs h) (tabs h2)) as Hr by (etrans; [apply He1 | apply He2]).
    destruct (le_runs _ _ (rtc_le _ _ Hwf Hr) _ _ Hrun) as (r2 & Hr2 & Hsame & _). rewrite Hrow in Hr2. by injection Hr2 as <-. }
  assert (d_ID (r_Definition run) = runID) as Hid by (by apply (wf_run _ Hwf runID)).
  assert (br_ID (b_Run bundle) = runID) as HID by (by rewrite Hbr).
  pose proof (validateRunBundle_run _ Hval) as Hvr. destruct (validateBundleRun_facts _ Hvr) as (Hvout & _ & l & Hl & Hpaths).
  destruct (validatePinned_None _ _ Hpin) as (Hartifact & Htools & Hmatch). rewrite Hsnap in Hmatch.
  assert (br_Tools (b_Run bundle) = d_Tools (r_Definition run)) as Htl by (by rewrite Hbr). rewrite Htl in Hl.
  rewrite bool_decide_eq_false_2 in Hl by done.
  destruct (exported_manifest iterate iterate' _ _ l iterate_all iterate'_all Hnamed Hacc Hearly Htools Hmatch Hl Hpaths) as (m & n & Hoff & Hnorm).
  destruct (run_attempt_twin _ _ _ _ _ _ _ _ _ _ _ _ _ _ (omap ts_Call n) Hothers Hnamed Hwf Hatt) as (Hbound & Hrows & Htwin).
  assert (rtc store_next (tabs h1) t2) as H12 by (etrans; [apply He2 | done]).
  destruct (recorded_export bundle t2 runID (js_sequence (h_journal h1))) as [Hlen Hrec]; try done.
  - by eapply rtc_wf.
  - intros i Hi. destruct (Hrows i Hi) as [c Hc]. destruct (call_stays _ _ _ _ Hwf1 H12 Hc) as (c' & ? & _). by eexists.
  - by apply (terminal_calls_frozen _ _ _ _ _ Hwf2 H22 Hrow).
  - apply (ReplayBundle_runs je _ artifact iterate' bundle m n (shown iterate (tool_manifest (rn_tools runner))) output);
      [done | by rewrite Hbr | by rewrite Htl | done | | apply compare_stored; try done; by rewrite Hbr].
    rewrite HID, Hlen, Hbr, <- Hgm. by apply (Htwin t2).
Qed.

(** ** An instance *)

Definition pay_run : Run :=
  mkRun (with_tools (rn_toolSnapshot pay_runner) pay_definition) StatusActive "" "".

Definition pay_attempted : Output * option error * host :=
  run_attempt no_faults no_others (fun _ => 0%Z) (fun _ => None) (fun _ => None) EMsg pay_guest
    (rn_guestManifest pay_runner) pay_runner pay_run "run-1" pay_start.

Definition pay_concluded : result * host :=
  conclude no_faults no_others EMsg "run-1" pay_attempted.1.1 pay_attempted.1.2 pay_attempted.2.

Definition pay_exported : res error RunBundle * world :=
  Export no_faults no_others "run-1" (h_db pay_concluded.2).

Definition pay_bundle : RunBundle :=
  match pay_exported.1 with
  | Ok b => b
  | Err _ => mkRunBundle "" "" (mkBundleRun "" "" "" "" "" "" "" "" "" "") [] []
  end.

Theorem completed_attempt_replays_witness :
  length (b_Calls pay_bundle) = 1%nat
  /\ ReplayBundle EMsg (rn_artifactSHA256 pay_runner) false (Some pay_guest) map_to_list pay_bundle
     = (mkOutput (dq "{'value':true}") "paid" "", None).
Proof.
  split; [vm_compute; reflexivity |].
  apply (completed_attempt_replays map_to_list map_to_list false false "env-1" [pay_tool] [] "sha256:ab" None None pay_runner
           no_faults no_others (fun _ => 0%Z) (fun _ => None) (fun _ => None) EMsg pay_guest pay_run "run-1" pay_start
           pay_attempted.1.1 pay_attempted.1.2 pay_attempted.2
           (mkOutput (dq "{'value':true}") "paid" "") pay_concluded.2
           no_faults no_others (h_db pay_concluded.2) pay_bundle pay_exported.2).
  - intros m. apply Permutation_refl.
  - intros m. apply Permutation_refl.
  - reflexivity.
  - apply no_others_ok.
  - intros n t s Hnone. exact Hnone.
  - apply reachable_wf_lemma, pay_reachable.
  - vm_compute. reflexivity.
  - vm_compute. reflexivity.
  - vm_compute. reflexivity.
  - vm_compute. reflexivity.
  - apply rtc_refl.
  - apply no_others_ok.
  - vm_compute. reflexivity.
  - intros name t Ht. assert (rn_tools pay_runner = list_to_map [("pay", with_scheduling Inline pay_tool)]) as Heq by (vm_compute; reflexivity).
    rewrite Heq in Ht. apply elem_of_list_to_map_2, list_elem_of_singleton in Ht. by injection Ht as -> ->.
  - vm_compute. reflexivity.
  - vm_compute. reflexivity.
Defined.

(** ** Output that is not UTF-8 *)

(** A Guest that writes one byte that is not UTF-8. *)
Definition noisy_guest (seed request : string) : guest :=
  GWrite (String (ascii_of_N 255) "") (fun _ => GReturn (mkResponse "true" "" "")).

Definition noisy_output : Output := mkOutput "true" (String (ascii_of_N 255) "") "".

Definition noisy_attempted : Output * option error * host :=
  run_attempt no_faults no_others (fun _ => 0%Z) (fun _ => None) (fun _ => None) EMsg noisy_guest
    (rn_guestManifest pay_runner) pay_runner pay_run "run-1" pay_start.

Definition noisy_concluded : result * host :=
  conclude no_faults no_others EMsg "run-1" noisy_attempted.1.1 noisy_attempted.1.2 noisy_attempted.2.

Definition noisy_exported : res error RunBundle * world :=
  Export no_faults no_others "run-1" (h_db noisy_concluded.2).

Definition noisy_bundle : RunBundle :=
  match noisy_exported.1 with
  | Ok b => b
  | Err _ => mkRunBundle "" "" (mkBundleRun "" "" "" "" "" "" "" "" "" "") [] []
  end.

(** The stored outcome holds a replacement character where the Guest wrote that
    byte.  The run is completed and exported; its replay runs the Guest to the
    same output, compares it with the stored text and reports a mismatch. *)
Theorem output_that_is_not_text_does_not_replay :
  noisy_concluded.1 = (noisy_output, None)
  /\ noisy_exported.1 = Ok noisy_bundle
  /\ ReplayBundle EMsg (rn_artifactSHA256 pay_runner) false (Some noisy_guest) map_to_list noisy_bundle
     = (noisy_output, Some (replayMismatch ReplayMismatchLocationResult ReasonTerminalStdout None)).
Proof.
  split; [vm_compute; reflexivity |]. split; [vm_compute; reflexivity |]. vm_compute. reflexivity.
Qed.
