(* ===== verification/History.v ===== *)
(** * History: paging over the recorded calls of a run
    ([durable/replay_diagnostics.go])

    [ReplayHistory] reads one page of the calls table.  The classification of an
    outcome is an SQL [CASE] over SQLite's JSON functions, which are
    parameters. *)

From S2P Require Import Prelude Errors Effects Json Store Bundle.

Definition DefaultReplayHistoryPageSize : N := 32.
Definition MaxReplayHistoryPageSize : N := 64.

Record ReplayHistoryOptions := mkHistoryOptions {
  ho_FromSequence : N;
  ho_Limit : N;
  ho_IncludePayloads : bool
}.

Definition OutcomeUnknown : string := "unknown".
Definition OutcomePending : string := "pending".
Definition OutcomeSuccess : string := "success".
Definition OutcomeError : string := "error".

Record ReplayCall := mkReplayCall {
  rc_Sequence : N;
  rc_CallID : string;
  rc_Capability : string;
  rc_Version : string;
  rc_State : string;
  rc_OperationKey : string;
  rc_OutcomeClass : string;
  rc_Arguments : string;
  rc_Outcome : string
}.

Record ReplayHistoryPage := mkPage {
  hp_Calls : list ReplayCall;
  hp_NextSequence : N;
  hp_HasMore : bool
}.

(** The loop of [toolVersionsForRun]: a later declaration of a name wins. *)
Definition tool_versions (declarations : list toolDeclaration) : gmap string string :=
  foldl (fun versions d =>
           if negb (bool_decide (td_Name d = "")) then <[td_Name d := td_Version d]> versions else versions)
    ∅ declarations.

(** The rows [WHERE run_id=? AND sequence>=? ORDER BY sequence]. *)
Definition history_rows (t : tables) (runID : string) (from : N) : list Call :=
  omap (fun s => t_calls t !! (runID, s)) (List.filter (fun s => (from <=? s)%N) (sequences (next_sequence t runID))).

Definition page_limit (limit : N) : N :=
  let limit := if (limit =? 0)%N then DefaultReplayHistoryPageSize else limit in
  if (MaxReplayHistoryPageSize <? limit)%N then MaxReplayHistoryPageSize else limit.

Section History.
Variable faults : nat -> option error.
Variable others : nat -> tables -> tables.
(** The error of [json.Unmarshal] for a text. *)
Variable decode_error : string -> error.
(** SQLite's [json_valid], [json_type] and [json_extract] at a path. *)
Variable json_valid : string -> bool.
Variable json_type : string -> string -> option string.
Variable json_extract : string -> string -> option string.

Definition toolVersionsForRun (raw : string) : res error (gmap string string) :=
  if bool_decide (raw = "") then Ok ∅
  else match unmarshal_declarations raw with
  | None => Err (EWrap "decode durable tool declarations: " (decode_error raw) "")
  | Some declarations => Ok (tool_versions declarations)
  end.

(** The [CASE] expression; [None] is NULL, which satisfies no condition. *)
Definition outcome_class (state outcome : string) : string :=
  if negb (bool_decide (state = CallCompleted)) then OutcomePending
  else if bool_decide (outcome = "") || negb (json_valid outcome) then OutcomeUnknown
  else if match json_type outcome "$" with Some kind => negb (bool_decide (kind = "object")) | None => false end
  then OutcomeUnknown
  else
    match json_type outcome "$.error" with
    | Some kind =>
        if bool_decide (kind ∈ ["integer"; "real"; "true"; "false"; "array"; "object"]) then OutcomeUnknown
        else if bool_decide (kind = "text")
                && match json_extract outcome "$.error" with Some e => negb (bool_decide (e = "")) | None => false end
        then OutcomeError
        else OutcomeSuccess
    | None => OutcomeSuccess
    end.

Definition replay_call (versions : gmap string string) (payloads : bool) (c : Call) : ReplayCall :=
  mkReplayCall (c_Sequence c) (c_CallID c) (c_Tool c) (default "" (versions !! c_Tool c)) (c_State c)
    (c_OperationKey c) (outcome_class (c_State c) (c_Outcome c))
    (if payloads then c_Arguments c else "") (if payloads then c_Outcome c else "").

(** The page made of at most one row more than [limit]. *)
Definition history_page (versions : gmap string string) (payloads : bool) (limit : N) (rows : list Call)
  : ReplayHistoryPage :=
  let calls := map (replay_call versions payloads) (take (N.to_nat limit) rows) in
  let more := (limit <? N.of_nat (length rows))%N in
  match calls !! (length calls - 1)%nat with
  | Some c =>
      if more then
        if (rc_Sequence c =? 2 ^ 32 - 1)%N then mkPage calls 0 false else mkPage calls (rc_Sequence c + 1) true
      else mkPage calls 0 false
  | None => mkPage calls 0 more
  end.

Definition ReplayHistory (runID : string) (options : ReplayHistoryOptions) : DB ReplayHistoryPage :=
  if bool_decide (runID = "") then fail ErrNotFound
  else
    run <- Get faults others runID;;
    let limit := page_limit (ho_Limit options) in
    versions <- of_res (toolVersionsForRun (d_Tools (r_Definition run)));;
    rows <- db_query faults others
              (fun t => take (N.to_nat (limit + 1)) (history_rows t runID (ho_FromSequence options)));;
    ret (history_page versions (ho_IncludePayloads options) limit rows).

(** [Runner.ReplayHistory]. *)
Definition runner_ReplayHistory (runID : string) (options : ReplayHistoryOptions) : DB ReplayHistoryPage :=
  if bool_decide (runID = "") then fail ErrInvalidRunner else ReplayHistory runID options.

(** A client that follows [NextSequence] for at most [fuel] pages; the flag
    says that the last page had no successor. *)
Fixpoint follow (fuel : nat) (runID : string) (from limit : N) (payloads : bool) : DB (list ReplayCall * bool) :=
  match fuel with
  | O => ret ([], false)
  | S fuel =>
      page <- ReplayHistory runID (mkHistoryOptions from limit payloads);;
      if hp_HasMore page then
        rest <- follow fuel runID (hp_NextSequence page) limit payloads;;
        ret (hp_Calls page ++ fst rest, snd rest)
      else ret (hp_Calls page, true)
  end.
End History.
