(* ===== verification/HistoryProps.v ===== *)
(** * HistoryProps: pages neither skip nor repeat calls

    Following the pages of [ReplayHistory] while other connections go on
    executing the run. *)

From S2P Require Import Prelude Errors Effects Json Store StoreSpec StoreInv StoreProps Bundle Runner RunnerSpec History.

(** ** Rows *)

Lemma filter_from n from :
  List.filter (fun s => (from <=? s)%N) (sequences n) = N.of_nat <$> seq (N.to_nat from) (N.to_nat n - N.to_nat from).
Proof.
  unfold sequences. remember (N.to_nat n) as m eqn:Hm. clear Hm n.
  assert (forall k, List.filter (fun s => (from <=? s)%N) (map N.of_nat (seq 0 k))
                    = N.of_nat <$> seq (N.to_nat from) (k - N.to_nat from)) as H; [| apply H].
  induction k as [| k IH]; [done |]. rewrite seq_S, map_app, List.filter_app, IH. cbn.
  destruct (N.leb_spec from (N.of_nat k)) as [Hle | Hgt].
  - replace (S k - N.to_nat from)%nat with (S (k - N.to_nat from)) by lia. rewrite seq_S, fmap_app. cbn.
    by replace (N.to_nat from + (k - N.to_nat from))%nat with k by lia.
  - rewrite app_nil_r. by replace (S k - N.to_nat from)%nat with (k - N.to_nat from)%nat by lia.
Qed.

Lemma history_rows_spec t runID from :
  wf t ->
  length (history_rows t runID from) = (N.to_nat (next_sequence t runID) - N.to_nat from)%nat
  /\ forall i c, history_rows t runID from !! i = Some c ->
       t_calls t !! (runID, (from + N.of_nat i)%N) = Some c /\ c_Sequence c = (from + N.of_nat i)%N.
Proof.
  intros Hwf. unfold history_rows. rewrite filter_from.
  set (l := N.of_nat <$> _). assert (length l = (N.to_nat (next_sequence t runID) - N.to_nat from)%nat) as Hl.
  { unfold l. by rewrite length_fmap, length_seq. }
  destruct (omap_total (fun s => t_calls t !! (runID, s)) l) as [Hlen Hget].
  { intros s (i & -> & Hi)%list_elem_of_fmap. apply elem_of_seq in Hi. apply (next_sequence_contiguous t runID _ Hwf). lia. }
  rewrite Hlen. split; [done |]. intros i c Hc. assert (i < length l)%nat as Hi by (rewrite <- Hlen; by eapply lookup_lt_Some).
  assert (l !! i = Some (from + N.of_nat i)%N) as Hli.
  { unfold l. rewrite list_lookup_fmap, lookup_seq_lt by lia. cbn. f_equal. lia. }
  rewrite (Hget i _ Hli) in Hc. split; [done |]. by destruct (wf_call t Hwf _ _ _ Hc) as (_ & -> & _).
Qed.

Lemma page_limit_bound limit : (1 <= page_limit limit <= MaxReplayHistoryPageSize)%N.
Proof.
  unfold page_limit. change MaxReplayHistoryPageSize with 64%N. change DefaultReplayHistoryPageSize with 32%N.
  destruct (N.eqb_spec limit 0); [by cbn |]. destruct (N.ltb_spec 64 limit); lia.
Qed.

(** ** One page *)

Section Pages.
Context (others : nat -> tables -> tables) (decode_error : string -> error).
Context (json_valid : string -> bool) (json_type json_extract : string -> string -> option string).
Hypothesis Hothers : forall n t, rtc store_next t (others n t).

Notation ReplayHistory := (ReplayHistory no_faults others decode_error json_valid json_type json_extract).
Notation follow := (follow no_faults others decode_error json_valid json_type json_extract).
Notation replay_call := (replay_call json_valid json_type json_extract).

(** [c] is what is shown of [row]; what can still change is the state. *)
Definition shows (versions : gmap string string) (payloads : bool) (row : Call) (c : ReplayCall) : Prop :=
  exists old, call_le old row /\ c = replay_call versions payloads old.

Lemma page_facts t runID from limit versions payloads :
  wf t -> (1 <= limit)%N -> (next_sequence t runID <= 2 ^ 32)%N ->
  let page := history_page json_valid json_type json_extract versions payloads limit
                (take (N.to_nat (limit + 1)) (history_rows t runID from)) in
  let n := length (hp_Calls page) in
  (forall i c, hp_Calls page !! i = Some c -> exists row, t_calls t !! (runID, (from + N.of_nat i)%N) = Some row
     /\ c = replay_call versions payloads row /\ rc_Sequence c = (from + N.of_nat i)%N)
  /\ (N.of_nat n <= limit)%N
  /\ if hp_HasMore page
     then (0 < n)%nat /\ hp_NextSequence page = (from + N.of_nat n)%N /\ (from + N.of_nat n < next_sequence t runID)%N
     else (next_sequence t runID <= from + N.of_nat n)%N.
Proof.
  intros Hwf Hlimit Hmax page n. destruct (history_rows_spec t runID from Hwf) as [Hlen Hrow].
  set (rows := take (N.to_nat (limit + 1)) (history_rows t runID from)) in *.
  assert (hp_Calls page = map (replay_call versions payloads) (take (N.to_nat limit) rows)) as Hcalls.
  { unfold page, history_page. by repeat case_match. }
  assert (length rows = Nat.min (N.to_nat (limit + 1)) (length (history_rows t runID from))) as Hrows by apply length_take.
  assert (n = Nat.min (N.to_nat limit) (length rows)) as Hn by (unfold n; rewrite Hcalls, length_map; apply length_take).
  assert (forall i c, hp_Calls page !! i = Some c -> exists row, t_calls t !! (runID, (from + N.of_nat i)%N) = Some row
            /\ c = replay_call versions payloads row /\ rc_Sequence c = (from + N.of_nat i)%N) as Hget.
  { intros i c Hc. rewrite Hcalls, list_lookup_fmap in Hc. destruct (take _ rows !! i) as [row |] eqn:Hr; [| done].
    injection Hc as <-. apply lookup_take_Some in Hr as [Hr _]. apply lookup_take_Some in Hr as [Hr _].
    destruct (Hrow i row Hr) as [Ht Hs]. exists row. by split_and!. }
  split; [done |]. split; [lia |]. assert (page = history_page json_valid json_type json_extract versions payloads limit rows)
    as Hpage by done. unfold history_page in Hpage. rewrite <- Hcalls in Hpage. fold n in Hpage. clearbody page.
  destruct (hp_Calls page !! (n - 1)%nat) as [c |] eqn:Hlast.
  - destruct (Hget _ _ Hlast) as (row & Ht & _ & Hseq). pose proof (lookup_lt_Some _ _ _ Hlast) as Hpos. fold n in Hpos.
    destruct (N.ltb_spec limit (N.of_nat (length rows))) as [Hmore | Hless].
    + assert (from + N.of_nat n < next_sequence t runID)%N by lia.
      destruct (N.eqb_spec (rc_Sequence c) (2 ^ 32 - 1)); [lia |].
      assert (hp_HasMore page = true /\ hp_NextSequence page = (rc_Sequence c + 1)%N) as [-> ->] by (by rewrite Hpage).
      split_and!; lia.
    + assert (hp_HasMore page = false) as -> by (by rewrite Hpage). lia.
  - apply lookup_ge_None in Hlast. fold n in Hlast. assert (n = 0%nat) as Hn0 by lia.
    assert (length rows = 0%nat) as Hr0 by lia. rewrite Hr0 in Hpage.
    assert (hp_HasMore page = false) as ->; [| lia]. rewrite Hpage. cbn. by destruct limit.
Qed.

Lemma next_sequence_mono t t' runID :
  wf t -> rtc store_next t t' -> (next_sequence t runID <= next_sequence t' runID)%N.
Proof.
  intros Hwf Hr. destruct (N.eq_0_gt_0_cases (next_sequence t runID)) as [-> | Hpos]; [lia |].
  assert (is_Some (t_calls t !! (runID, next_sequence t runID - 1)%N)) as [c Hc].
  { apply (next_sequence_contiguous t runID _ Hwf). lia. }
  destruct (le_calls _ _ (rtc_le _ _ Hwf Hr) _ _ Hc) as (c' & Hc' & _).
  assert (next_sequence t runID - 1 < next_sequence t' runID)%N; [| lia].
  apply (next_sequence_contiguous t' runID _ (rtc_wf _ _ Hwf Hr)). by exists c'.
Qed.

(** A page is read from what the tables have become. *)
Lemma ReplayHistory_reads runID options w run versions :
  wf (w_tables w) -> runID <> "" -> t_runs (w_tables w) !! runID = Some run ->
  toolVersionsForRun decode_error (d_Tools (r_Definition run)) = Ok versions ->
  exists t k, rtc store_next (w_tables w) t
    /\ ReplayHistory runID options w
       = (Ok (history_page json_valid json_type json_extract versions (ho_IncludePayloads options)
                (page_limit (ho_Limit options))
                (take (N.to_nat (page_limit (ho_Limit options) + 1)) (history_rows t runID (ho_FromSequence options)))),
          mkWorld t k).
Proof.
  intros Hwf Hid Hrun Hv. unfold History.ReplayHistory. rewrite bool_decide_eq_false_2 by done.
  set (t1 := others (w_ticks w) (w_tables w)).
  destruct (le_runs _ _ (rtc_le _ _ Hwf (Hothers (w_ticks w) (w_tables w))) _ _ Hrun) as (run' & Hrun' & Hdef & _).
  fold t1 in Hrun'. unfold bind, Get, bind, db_query, bind, interleave, query, stmt, no_faults. cbn.
  fold t1. rewrite Hrun'. cbn. rewrite Hdef, Hv. cbn. eexists _, _. split; [| done].
  etrans; [apply (Hothers (w_ticks w)) | apply Hothers].
Qed.

Lemma follow_ok runID limit payloads versions fuel from w run :
  wf (w_tables w) -> runID <> "" -> t_runs (w_tables w) !! runID = Some run ->
  toolVersionsForRun decode_error (d_Tools (r_Definition run)) = Ok versions ->
  exists calls finished w', follow fuel runID from limit payloads w = (Ok (calls, finished), w')
    /\ rtc store_next (w_tables w) (w_tables w')
    /\ ((next_sequence (w_tables w') runID <= 2 ^ 32)%N ->
        (forall i c, calls !! i = Some c -> exists row, t_calls (w_tables w') !! (runID, (from + N.of_nat i)%N) = Some row
           /\ shows versions payloads row c /\ rc_Sequence c = (from + N.of_nat i)%N)
        /\ (if finished : bool then (next_sequence (w_tables w) runID <= from + N.of_nat (length calls))%N
            else (fuel <= length calls)%nat)
        /\ (N.of_nat (length calls) <= N.of_nat fuel * MaxReplayHistoryPageSize)%N).
Proof.
  revert from w run. induction fuel as [| fuel IH]; intros from w run Hwf Hid Hrun Hv.
  { exists [], false, w. split; [done |]. split; [done |]. intros _. split; [done |]. cbn. lia. }
  destruct (ReplayHistory_reads runID (mkHistoryOptions from limit payloads) w run versions Hwf Hid Hrun Hv)
    as (t & k & Hrt & Hread). cbn [ho_IncludePayloads ho_Limit ho_FromSequence] in Hread.
  pose proof (page_limit_bound limit) as Hbound. pose proof (rtc_wf _ _ Hwf Hrt) as Hwft.
  pose proof (fun Hm => page_facts t runID from (page_limit limit) versions payloads Hwft (proj1 Hbound) Hm) as Hfacts.
  cbn [follow]. unfold bind. rewrite Hread. set (page := history_page _ _ _ _ _ _ _) in *. cbn zeta in Hfacts.
  destruct (hp_HasMore page).
  - destruct (le_runs _ _ (rtc_le _ _ Hwf Hrt) _ _ Hrun) as (run' & Hrun' & Hdef & _).
    destruct (IH (hp_NextSequence page) (mkWorld t k) run') as (calls & finished & w' & Hf & Hr' & Hok); try done.
    { by rewrite Hdef. }
    rewrite Hf. cbn. exists (hp_Calls page ++ calls), finished, w'. split; [done |]. cbn in Hr'.
    split; [by etrans |]. intros Hmax. specialize (Hok Hmax).
    pose proof (next_sequence_mono _ _ runID Hwft Hr') as Hmono.
    destruct (Hfacts ltac:(lia)) as (Hget & Hlen & Hpos & Hnext & Hlt). destruct Hok as (Hget' & Hend & Hlen').
    pose proof (next_sequence_mono _ _ runID Hwf Hrt). rewrite length_app. split; [| split; [| lia]].
    + intros i c Hc. apply lookup_app_Some in Hc as [Hc | [Hge Hc]].
      * destruct (Hget i c Hc) as (row & Hrow & -> & Hs).
        destruct (le_calls _ _ (rtc_le _ _ Hwft Hr') _ _ Hrow) as (row' & Hrow' & Hle). exists row'.
        split; [done |]. split; [by exists row | done].
      * destruct (Hget' _ c Hc) as (row & Hrow & Hshow & Hs). rewrite Hnext in Hrow, Hs.
        replace (from + N.of_nat (length (hp_Calls page)) + N.of_nat (i - length (hp_Calls page)))%N
          with (from + N.of_nat i)%N in * by lia. by exists row.
    + cbn in Hend. destruct finished; lia.
  - cbn. exists (hp_Calls page), true, (mkWorld t k). split; [done |]. split; [done |]. cbn. intros Hmax.
    destruct (Hfacts Hmax) as (Hget & Hlen & Hlast). pose proof (next_sequence_mono _ _ runID Hwf Hrt).
    split; [| split; lia]. intros i c Hc. destruct (Hget i c Hc) as (row & Hrow & -> & Hs). exists row.
    split; [done |]. split; [| done]. by exists row.
Qed.
End Pages.

(** C40.  Following the pages of a run's history neither skips nor repeats a
    call, however the run is executed meanwhile.  Reading from the start, page
    after page, never fails on a working database whose run has readable tool
    metadata; the calls returned have the sequence numbers 0, 1, 2, ... and each
    shows a stored row (its identity for ever, its state and outcome as they
    were when the page was read); when the last page says that there is no more,
    every call stored at the beginning was returned; otherwise each page
    returned at least one call.  No page has more than 64 calls. *)
Theorem history_pages_cover_the_journal others decode_error json_valid json_type json_extract runID limit payloads
    versions fuel w run :
  (forall n t, rtc store_next t (others n t)) ->
  reachable (w_tables w) -> runID <> "" -> t_runs (w_tables w) !! runID = Some run ->
  toolVersionsForRun decode_error (d_Tools (r_Definition run)) = Ok versions ->
  match follow no_faults others decode_error json_valid json_type json_extract fuel runID 0 limit payloads w with
  | (Ok (calls, finished), w') =>
      (next_sequence (w_tables w') runID <= 2 ^ 32)%N ->
      map rc_Sequence calls = map N.of_nat (seq 0 (length calls))
      /\ Forall (fun c => exists row, t_calls (w_tables w') !! (runID, rc_Sequence c) = Some row
                    /\ shows json_valid json_type json_extract versions payloads row c) calls
      /\ (if finished then (next_sequence (w_tables w) runID <= N.of_nat (length calls))%N
          else (fuel <= length calls)%nat)
      /\ (N.of_nat (length calls) <= N.of_nat fuel * MaxReplayHistoryPageSize)%N
  | (Err _, _) => False
  end.
Proof.
  intros Hothers Hreach Hid Hrun Hv.
  destruct (follow_ok others decode_error json_valid json_type json_extract Hothers runID limit payloads versions fuel 0 w run)
    as (calls & finished & w' & -> & _ & Hok); [by apply reachable_wf_lemma | done.. |].
  intros Hmax. destruct (Hok Hmax) as (Hget & Hend & Hlen). split; [| split; [| split; [| done]]].
  - apply list_eq. intros i. rewrite !list_lookup_fmap. destruct (calls !! i) as [c |] eqn:Hc.
    + destruct (Hget i c Hc) as (row & _ & _ & Hs). rewrite lookup_seq_lt by (by eapply lookup_lt_Some). cbn. f_equal. lia.
    + apply lookup_ge_None in Hc. rewrite (proj2 (lookup_ge_None (seq 0 _) i)); [done |]. by rewrite length_seq.
  - apply list.Forall_forall. intros c Hc. apply list_elem_of_lookup in Hc as [i Hc].
    destruct (Hget i c Hc) as (row & Hrow & Hshow & Hs). exists row. rewrite Hs. by split.
  - destruct finished; [| done]. lia.
Qed.

(** The run of [demo_tables], read one call at a time. *)
Lemma history_pages_cover_the_journal_witness :
  match follow no_faults no_others EMsg Json.valid (fun _ _ => None) (fun _ _ => None) 3 "run-1" 0 1 true
          (mkWorld demo_tables 0) with
  | (Ok (calls, finished), w') =>
      finished = true /\ map rc_CallID calls = ["call-0"]
      /\ map rc_Sequence calls = map N.of_nat (seq 0 (length calls))
  | (Err _, _) => False
  end.
Proof.
  assert (forall n t, rtc store_next t (no_others n t)) as Hothers by (intros n t; apply rtc_refl).
  assert (t_runs demo_tables !! "run-1" = Some (mkRun demo_definition StatusActive "" "")) as Hrun by (vm_compute; reflexivity).
  assert (toolVersionsForRun EMsg (d_Tools demo_definition) = Ok ∅) as Hv by (vm_compute; reflexivity).
  assert ("run-1" <> "") as Hid by discriminate.
  pose proof (history_pages_cover_the_journal no_others EMsg Json.valid (fun _ _ => None) (fun _ _ => None) "run-1" 1 true
    ∅ 3 (mkWorld demo_tables 0) _ Hothers demo_reachable Hid Hrun Hv) as H.
  destruct (follow _ _ _ _ _ _ _ _ _ _ _ _) as [[[calls finished] | e] w'] eqn:Hf; [| exact H].
  vm_compute in Hf. injection Hf as <- <- <-. split; [reflexivity |]. split; [reflexivity |].
  apply H. vm_compute. discriminate.
Defined.
