(* ===== verification/Executor.v ===== *)
(** * Executor: admission and scheduling of attempts ([durable/executor.go])

    Every section of the code that holds the executor's mutex is one function
    on the executor's state; what a goroutine does between two such sections
    is the program point [at_pc] of its attempt, and [exec_step] says which
    section each point leads to.  Attempts are heap objects: the queue, the
    ready list and the table of runs hold their addresses. *)

From S2P Require Import Prelude Errors Bridge Runner.

(** ** Data *)

Inductive attemptState :=
| attemptQueued | attemptRunning | attemptWaitingLive | attemptReady | attemptDone.

#[export] Instance attemptState_eq_dec : EqDecision attemptState.
Proof. solve_decision. Defined.

(** Where an attempt's goroutine is: not started, executing the Guest or an
    inline tool, in the first [select] of [yield], in the Host callback with
    its slot of [external], about to lock in [reacquire], in the [select] of
    [reacquire], or past [finish]. *)
Inductive point :=
| PNotStarted | PGuest | PTokenWait | PTool | PReacquire | PPermitWait | PFinished.

#[export] Instance point_eq_dec : EqDecision point.
Proof. solve_decision. Defined.

(** [Attempt] with its gate; [at_ctx] is the error of its context and
    [at_parent] that of the submitted one, [at_result] is set when [done] is
    closed, [at_permit] is the permit channel its goroutine waits on with
    whether it is closed, [at_stopped] says that the [AfterFunc] was stopped. *)
Record Attempt := mkAttempt {
  at_runID : string;
  at_ctx : option error;
  at_parent : option error;
  at_stopped : bool;
  at_result : option (Result * option error);
  at_state : attemptState;
  at_permit : option bool;
  at_external : bool;
  at_pc : point
}.

(** [Limits]. *)
Record Limits := mkLimits {
  l_MaxActive : Z;
  l_MaxRunning : Z;
  l_MaxResident : Z;
  l_MaxInflightTools : Z;
  l_MaxQueued : Z
}.

(** [Executor]; [ex_external] is the number of slots taken in the channel. *)
Record Executor := mkExecutor {
  ex_maxRunning : Z;
  ex_maxResident : Z;
  ex_maxQueued : Z;
  ex_maxInflight : Z;
  ex_external : Z;
  ex_closed : bool;
  ex_drained : bool;
  ex_queue : list nat;
  ex_ready : list nat;
  ex_readyBurst : Z;
  ex_running : Z;
  ex_resident : Z;
  ex_attempts : gmap string nat;
  ex_heap : gmap nat Attempt
}.

Definition maxReadyBurst : Z := 8.

Definition no_result : Result := mkResult None no_output None None.

(** [NewExecutor] for a controller that is not nil. *)
Definition NewExecutor (limits : Limits) : res error Executor :=
  let* maxRunning :=
    if (l_MaxRunning limits =? 0)%Z then Ok (l_MaxActive limits)
    else if negb (l_MaxActive limits =? 0)%Z && negb (l_MaxActive limits =? l_MaxRunning limits)%Z
    then Err (ESentinel ErrInvalidRunner)
    else Ok (l_MaxRunning limits) in
  let maxResident := if (l_MaxResident limits =? 0)%Z then maxRunning else l_MaxResident limits in
  let maxInflight :=
    if (l_MaxInflightTools limits =? 0)%Z then maxResident else l_MaxInflightTools limits in
  if (maxRunning <=? 0)%Z || (maxResident <? maxRunning)%Z || (maxInflight <=? 0)%Z
     || (l_MaxQueued limits <? 0)%Z
  then Err (ESentinel ErrInvalidRunner)
  else Ok (mkExecutor maxRunning maxResident (l_MaxQueued limits) maxInflight 0 false false [] []
             0 0 0 ∅ ∅).

(** ** Updates of one field *)

Definition set_queue (q : list nat) (e : Executor) : Executor :=
  mkExecutor (ex_maxRunning e) (ex_maxResident e) (ex_maxQueued e) (ex_maxInflight e) (ex_external e)
    (ex_closed e) (ex_drained e) q (ex_ready e) (ex_readyBurst e) (ex_running e) (ex_resident e)
    (ex_attempts e) (ex_heap e).
Definition set_ready (r : list nat) (burst : Z) (e : Executor) : Executor :=
  mkExecutor (ex_maxRunning e) (ex_maxResident e) (ex_maxQueued e) (ex_maxInflight e) (ex_external e)
    (ex_closed e) (ex_drained e) (ex_queue e) r burst (ex_running e) (ex_resident e)
    (ex_attempts e) (ex_heap e).
Definition set_counts (running resident : Z) (e : Executor) : Executor :=
  mkExecutor (ex_maxRunning e) (ex_maxResident e) (ex_maxQueued e) (ex_maxInflight e) (ex_external e)
    (ex_closed e) (ex_drained e) (ex_queue e) (ex_ready e) (ex_readyBurst e) running resident
    (ex_attempts e) (ex_heap e).
Definition set_external (n : Z) (e : Executor) : Executor :=
  mkExecutor (ex_maxRunning e) (ex_maxResident e) (ex_maxQueued e) (ex_maxInflight e) n
    (ex_closed e) (ex_drained e) (ex_queue e) (ex_ready e) (ex_readyBurst e) (ex_running e)
    (ex_resident e) (ex_attempts e) (ex_heap e).
Definition set_closed (closed drained : bool) (e : Executor) : Executor :=
  mkExecutor (ex_maxRunning e) (ex_maxResident e) (ex_maxQueued e) (ex_maxInflight e) (ex_external e)
    closed drained (ex_queue e) (ex_ready e) (ex_readyBurst e) (ex_running e) (ex_resident e)
    (ex_attempts e) (ex_heap e).
Definition set_attempts (m : gmap string nat) (e : Executor) : Executor :=
  mkExecutor (ex_maxRunning e) (ex_maxResident e) (ex_maxQueued e) (ex_maxInflight e) (ex_external e)
    (ex_closed e) (ex_drained e) (ex_queue e) (ex_ready e) (ex_readyBurst e) (ex_running e)
    (ex_resident e) m (ex_heap e).
Definition set_heap (h : gmap nat Attempt) (e : Executor) : Executor :=
  mkExecutor (ex_maxRunning e) (ex_maxResident e) (ex_maxQueued e) (ex_maxInflight e) (ex_external e)
    (ex_closed e) (ex_drained e) (ex_queue e) (ex_ready e) (ex_readyBurst e) (ex_running e)
    (ex_resident e) (ex_attempts e) h.

Definition update (id : nat) (f : Attempt -> Attempt) (e : Executor) : Executor :=
  set_heap (alter f id (ex_heap e)) e.

Definition with_state (st : attemptState) (pc : point) (a : Attempt) : Attempt :=
  mkAttempt (at_runID a) (at_ctx a) (at_parent a) (at_stopped a) (at_result a) st (at_permit a)
    (at_external a) pc.
Definition with_permit (p : option bool) (a : Attempt) : Attempt :=
  mkAttempt (at_runID a) (at_ctx a) (at_parent a) (at_stopped a) (at_result a) (at_state a) p
    (at_external a) (at_pc a).
Definition with_external (b : bool) (pc : point) (a : Attempt) : Attempt :=
  mkAttempt (at_runID a) (at_ctx a) (at_parent a) (at_stopped a) (at_result a) (at_state a)
    (at_permit a) b pc.
Definition with_pc (pc : point) (a : Attempt) : Attempt := with_state (at_state a) pc a.

(** [a.cancel()]: a context that has ended keeps its error. *)
Definition cancel_ctx (a : Attempt) : Attempt :=
  mkAttempt (at_runID a) (Some (default (ESentinel Canceled) (at_ctx a))) (at_parent a) (at_stopped a)
    (at_result a) (at_state a) (at_permit a) (at_external a) (at_pc a).

(** The submitted context ends. *)
Definition parent_done (err : error) (a : Attempt) : Attempt :=
  mkAttempt (at_runID a) (Some (default err (at_ctx a))) (Some (default err (at_parent a)))
    (at_stopped a) (at_result a) (at_state a) (at_permit a) (at_external a) (at_pc a).

(** [Attempt.complete], which follows [a.cancel()] and [a.state = attemptDone]. *)
Definition complete (result : Result) (err : option error) (pc : point) (a : Attempt) : Attempt :=
  let a := cancel_ctx a in
  mkAttempt (at_runID a) (at_ctx a) (at_parent a) true (Some (result, err)) attemptDone (at_permit a)
    (at_external a) pc.

(** ** The locked sections *)

(** [removeReadyLocked], [removeQueuedLocked]: the first occurrence. *)
Fixpoint remove_first (id : nat) (l : list nat) : list nat :=
  match l with
  | [] => []
  | x :: l' => if Nat.eqb x id then l' else x :: remove_first id l'
  end.

Definition removeReadyLocked (id : nat) (e : Executor) : Executor :=
  set_ready (remove_first id (ex_ready e)) (ex_readyBurst e) e.

Definition dropQueuedResultLocked (id : nat) (a : Attempt) (result : Result) (err : option error)
    (e : Executor) : Executor :=
  let e := set_queue (remove_first id (ex_queue e)) e in
  let e := set_attempts (delete (at_runID a) (ex_attempts e)) e in
  update id (complete result err PFinished) e.

Definition dropQueuedLocked (id : nat) (a : Attempt) (err : error) (e : Executor) : Executor :=
  dropQueuedResultLocked id a no_result (Some err) e.

Definition maybeDrainLocked (e : Executor) : Executor :=
  if ex_closed e && negb (ex_drained e) && bool_decide (ex_attempts e = ∅)
  then set_closed (ex_closed e) true e else e.

(** [scheduleLocked]; each turn takes an attempt off a list, so the fuel
    [schedule_fuel] is enough. *)
Fixpoint schedule (fuel : nat) (e : Executor) : Executor :=
  match fuel with
  | O => e
  | S fuel =>
      if negb (ex_running e <? ex_maxRunning e)%Z then e
      else
        let canAdmit := (ex_resident e <? ex_maxResident e)%Z && negb (bool_decide (ex_queue e = [])) in
        let start :=
          if negb (ex_resident e <? ex_maxResident e)%Z then e
          else match ex_queue e with
          | [] => e
          | next :: queue =>
              let e := set_queue queue e in
              match ex_heap e !! next with
              | Some a =>
                  if negb (bool_decide (at_state a = attemptQueued)) then schedule fuel e
                  else match at_ctx a with
                  | Some err => schedule fuel (dropQueuedLocked next a err e)
                  | None =>
                      let e := set_counts (ex_running e + 1) (ex_resident e + 1) e in
                      let e := set_ready (ex_ready e) 0 e in
                      schedule fuel (update next (with_state attemptRunning PGuest) e)
                  end
              | None => e
              end
          end in
        match ex_ready e with
        | next :: ready =>
            if negb canAdmit || (ex_readyBurst e <? maxReadyBurst)%Z then
              match ex_heap e !! next with
              | Some a =>
                  if negb (bool_decide (at_state a = attemptReady))
                  then schedule fuel (set_ready ready (ex_readyBurst e) e)
                  else
                    let e := set_ready ready (ex_readyBurst e + 1) e in
                    let e := set_counts (ex_running e + 1) (ex_resident e) e in
                    schedule fuel
                      (update next (fun a => with_permit (Some true)
                                               (with_state attemptRunning (at_pc a) a)) e)
              | None => e
              end
            else start
        | [] => start
        end
  end.

Definition schedule_fuel (e : Executor) : nat := S (length (ex_ready e) + length (ex_queue e)).
Definition scheduleLocked (e : Executor) : Executor := schedule (schedule_fuel e) e.

(** [Admit]: the context is [None] when nil, else its error; [id] is the
    address of the new attempt. *)
Definition Admit (ctx : option (option error)) (runID : string) (id : nat) (e : Executor)
  : res error Executor :=
  if bool_decide (runID = "") then Err (ESentinel ErrInvalidRunner)
  else match ctx with
  | None => Err (EMsg "nil submit context")
  | Some (Some err) => Err err
  | Some None =>
      if ex_closed e then Err (ESentinel ErrClosed)
      else match ex_attempts e !! runID with
      | Some _ => Err (ESentinel ErrBusy)
      | None =>
          let start st pc e :=
            set_heap (<[id := mkAttempt runID None None false None st None false pc]> (ex_heap e))
              (set_attempts (<[runID := id]> (ex_attempts e)) e) in
          if (ex_running e <? ex_maxRunning e)%Z && (ex_resident e <? ex_maxResident e)%Z
          then
            let e := set_counts (ex_running e + 1) (ex_resident e + 1) e in
            Ok (start attemptRunning PGuest (set_ready (ex_ready e) 0 e))
          else if (ex_maxQueued e <=? Z.of_nat (length (ex_queue e)))%Z
          then Err (ESentinel ErrQueueFull)
          else Ok (start attemptQueued PNotStarted (set_queue (ex_queue e ++ [id]) e))
      end
  end.

Definition live (st : attemptState) : bool :=
  match st with attemptRunning | attemptWaitingLive | attemptReady => true | _ => false end.

(** [Cancel] once the controller has committed the cancellation. *)
Definition cancel_local (runID : string) (e : Executor) : Executor :=
  match ex_attempts e !! runID with
  | None => e
  | Some id =>
      match ex_heap e !! id with
      | None => e
      | Some a =>
          if bool_decide (at_state a = attemptQueued) then
            maybeDrainLocked (dropQueuedResultLocked id a
              (mkResult (Some StateCancelled) no_output None
                 (Some (mkFailure FailureCancellation (sentinel_text ErrCancelled)))) None e)
          else if live (at_state a) then update id cancel_ctx e
          else e
      end
  end.

(** [Cancel]; [controller] is what the controller answered. *)
Definition Cancel (controller : option error) (runID : string) (e : Executor)
  : option error * Executor :=
  if bool_decide (runID = "") then (Some (ESentinel ErrInvalidRunner), e)
  else match controller with
       | Some err => (Some err, e)
       | None => (None, cancel_local runID e)
       end.

(** The locked section of [Close]. *)
Definition Close (e : Executor) : Executor := maybeDrainLocked (set_closed true (ex_drained e) e).

(** [abort]. *)
Definition abort (id : nat) (err : error) (e : Executor) : Executor :=
  match ex_heap e !! id with
  | None => e
  | Some a =>
      if bool_decide (at_state a = attemptQueued) then maybeDrainLocked (dropQueuedLocked id a err e)
      else if live (at_state a) then update id cancel_ctx e
      else e
  end.

(** [finish]. *)
Definition finish (id : nat) (result : Result) (err : option error) (e : Executor) : Executor :=
  match ex_heap e !! id with
  | None => e
  | Some a =>
      if bool_decide (at_state a = attemptDone) || bool_decide (at_state a = attemptQueued) then e
      else
        let e :=
          match at_state a with
          | attemptRunning => set_counts (ex_running e - 1) (ex_resident e - 1) e
          | attemptWaitingLive => set_counts (ex_running e) (ex_resident e - 1) e
          | attemptReady => set_counts (ex_running e) (ex_resident e - 1) (removeReadyLocked id e)
          | _ => e
          end in
        let e := set_attempts (delete (at_runID a) (ex_attempts e)) e in
        let e := update id (complete result err PFinished) e in
        maybeDrainLocked (scheduleLocked e)
  end.

(** The locked section of [yield]; an attempt that is not running is refused. *)
Definition yield (id : nat) (e : Executor) : res error Executor :=
  match ex_heap e !! id with
  | None => Err (ESentinel ErrInvalidRunner)
  | Some a =>
      if negb (bool_decide (at_state a = attemptRunning)) then Err (ESentinel ErrInvalidRunner)
      else
        let e := update id (with_state attemptWaitingLive PTokenWait) e in
        Ok (scheduleLocked (set_counts (ex_running e - 1) (ex_resident e) e))
  end.

(** The end of [yield]: a slot of [external] is taken, or the context ended. *)
Definition take_slot (id : nat) (e : Executor) : Executor :=
  update id (with_external true PTool) (set_external (ex_external e + 1) e).

(** The start of [reacquire]: the slot is given back. *)
Definition give_slot (id : nat) (e : Executor) : Executor :=
  update id (with_external false PReacquire) (set_external (ex_external e - 1) e).

(** The first locked section of [reacquire]; [ctx] is the error of the call's
    context, which may have ended on its own. *)
Definition reacquire (ctx : option error) (id : nat) (e : Executor) : option error * Executor :=
  match ex_heap e !! id with
  | None => (Some (ESentinel ErrInvalidRunner), e)
  | Some a =>
      if negb (bool_decide (at_state a = attemptWaitingLive))
      then (Some (ESentinel ErrInvalidRunner), update id (with_pc PGuest) e)
      else match ctx with
      | Some err => (Some err, update id (with_pc PGuest) e)
      | None =>
          if (ex_running e <? ex_maxRunning e)%Z
          then (None, update id (with_state attemptRunning PGuest)
                        (set_counts (ex_running e + 1) (ex_resident e) e))
          else (None, set_ready (ex_ready e ++ [id]) (ex_readyBurst e)
                        (update id (fun a => with_permit (Some false)
                                               (with_state attemptReady PPermitWait a)) e))
      end
  end.

(** The second locked section of [reacquire]: the context ended. *)
Definition withdraw (id : nat) (e : Executor) : Executor :=
  match ex_heap e !! id with
  | None => e
  | Some a =>
      if bool_decide (at_state a = attemptReady)
      then update id (fun a => with_permit None (with_state attemptWaitingLive PGuest a))
             (removeReadyLocked id e)
      else update id (fun a => with_permit None (with_pc PGuest a)) e
  end.

(** [Stats]. *)
Record ExecutorStats := mkStats {
  st_Running : Z;
  st_Resident : Z;
  st_InflightTools : Z;
  st_WaitingLive : N;
  st_Ready : N;
  st_Queued : Z
}.

(** How many attempts satisfy a test. *)
Definition count (p : Attempt -> bool) (h : gmap nat Attempt) : N :=
  map_sum (fun _ a => if p a then 1%N else 0%N) h.

Definition in_state (st : attemptState) (a : Attempt) : bool := bool_decide (at_state a = st).

(** The attempts of the table are those of the heap that are not done. *)
Definition table_count (st : attemptState) (e : Executor) : N :=
  map_sum (fun _ id => match ex_heap e !! id with
                       | Some a => if in_state st a then 1%N else 0%N
                       | None => 0%N
                       end) (ex_attempts e).

Definition Stats (e : Executor) : ExecutorStats :=
  mkStats (ex_running e) (ex_resident e) (ex_external e) (table_count attemptWaitingLive e)
    (table_count attemptReady e) (Z.of_nat (length (ex_queue e))).

(** ** Waiting for an attempt *)

Definition failureMessage (failure : option Failure) : string :=
  match failure with
  | None => "attempt failed"
  | Some f => if bool_decide (fl_Message f = "") then "attempt failed" else fl_Message f
  end.

(** [Attempt.Wait] once [done] is closed. *)
Definition attempt_wait (result : Result) (err : option error) : Output * option error :=
  match err with
  | Some e => (re_Output result, Some e)
  | None =>
      (re_Output result,
       match re_State result with
       | Some StateParked => Some (parkError (re_Park result))
       | Some StateBlocked =>
           Some (EWrap "" (ESentinel ErrBlocked) (": " +:+ failureMessage (re_Failure result)))
       | Some StateFailed => Some (EPython (failureMessage (re_Failure result)))
       | Some StateCancelled => Some (ESentinel ErrCancelled)
       | _ => None
       end)
  end.

(** [Attempt.Result]: [None] while the attempt is not done and the context of
    the call has not ended; when both are ready the [select] picks one. *)
Definition attempt_result (ctx : option error) (pick : bool) (a : Attempt) : option (Result * option error) :=
  match at_result a, ctx with
  | Some r, Some e => Some (if pick then r else (no_result, Some e))
  | Some r, None => Some r
  | None, Some e => Some (no_result, Some e)
  | None, None => None
  end.

(** ** Interleavings *)

(** The steps of the callers, the contexts and the attempts' goroutines.  The
    context of a tool call ends with its attempt's or earlier, so a [select]
    may find it ended at any time. *)
Inductive exec_step : Executor -> Executor -> Prop :=
| step_admit e e' ctx runID id :
    ex_heap e !! id = None -> Admit ctx runID id e = Ok e' -> exec_step e e'
| step_cancel e controller runID : exec_step e (Cancel controller runID e).2
| step_close e : exec_step e (Close e)
| step_parent e id a err :
    ex_heap e !! id = Some a -> at_stopped a = false -> exec_step e (update id (parent_done err) e)
| step_abort e id a err :
    ex_heap e !! id = Some a -> at_parent a = Some err -> exec_step e (abort id err e)
| step_yield e e' id a :
    ex_heap e !! id = Some a -> at_pc a = PGuest -> yield id e = Ok e' -> exec_step e e'
| step_take e id a :
    ex_heap e !! id = Some a -> at_pc a = PTokenWait -> (ex_external e < ex_maxInflight e)%Z ->
    exec_step e (take_slot id e)
| step_take_cancelled e id a :
    ex_heap e !! id = Some a -> at_pc a = PTokenWait ->
    exec_step e (update id (with_pc PGuest) e)
| step_give e id a :
    ex_heap e !! id = Some a -> at_pc a = PTool -> exec_step e (give_slot id e)
| step_reacquire e id a ctx :
    ex_heap e !! id = Some a -> at_pc a = PReacquire -> exec_step e (reacquire ctx id e).2
| step_permit e id a :
    ex_heap e !! id = Some a -> at_pc a = PPermitWait -> at_permit a = Some true ->
    exec_step e (update id (fun a => with_permit None (with_pc PGuest a)) e)
| step_withdraw e id a :
    ex_heap e !! id = Some a -> at_pc a = PPermitWait ->
    exec_step e (withdraw id e)
| step_finish e id a result err :
    ex_heap e !! id = Some a -> at_pc a = PGuest -> exec_step e (finish id result err e).

Definition exec_reachable (limits : Limits) (e : Executor) : Prop :=
  exists e0, NewExecutor limits = Ok e0 /\ rtc exec_step e0 e.
