(* ===== verification/ExecutorSpec.v ===== *)
(** * ExecutorSpec: the executor's invariant

    [ok] says that the counters, the lists and the table of runs agree with
    the attempts of the heap and respect the limits, and that every attempt's
    state fits its program point; [settled] adds what holds whenever the mutex
    is free: no capacity is left unused while work waits, and the executor is
    drained exactly when it is closed and empty. *)

From S2P Require Import Prelude Errors Bridge Runner Executor.

(** ** Counting *)

Definition b2z (b : bool) : Z := if b then 1%Z else 0%Z.

Lemma count_update p h id a a' :
  h !! id = Some a ->
  Z.of_N (count p (<[id := a']> h)) = (Z.of_N (count p h) - b2z (p a) + b2z (p a'))%Z.
Proof.
  intros Ha. unfold count.
  pose proof (map_sum_update (fun (_ : nat) a => if p a then 1%N else 0%N) h id a a' Ha) as Hs.
  cbv beta in Hs. unfold b2z. destruct (p a), (p a'); lia.
Qed.

Lemma count_insert p h id a' :
  h !! id = None -> Z.of_N (count p (<[id := a']> h)) = (Z.of_N (count p h) + b2z (p a'))%Z.
Proof.
  intros Ha. unfold count. rewrite map_sum_insert by done. unfold b2z. destruct (p a'); lia.
Qed.

Lemma count_pos p h id a : h !! id = Some a -> p a = true -> (0 < count p h)%N.
Proof.
  intros Ha Hp. unfold count.
  pose proof (map_sum_lookup_le (fun (_ : nat) a => if p a then 1%N else 0%N) h id a Ha) as Hle.
  cbv beta in Hle. rewrite Hp in Hle. lia.
Qed.

(** ** Lists of attempts *)

Lemma remove_first_notin id l : id ∉ l -> remove_first id l = l.
Proof.
  induction l as [| x l IH]; [done |]. intros [Hne Hnot]%not_elem_of_cons. simpl.
  destruct (Nat.eqb_spec x id); [by subst |]. by rewrite IH.
Qed.

Lemma remove_first_elem id l x :
  NoDup l -> x ∈ remove_first id l <-> x ∈ l /\ x <> id.
Proof.
  induction l as [| y l IH]; intros Hnd; simpl.
  - split; [intros H; by apply elem_of_nil in H | by intros [? _]].
  - apply list.NoDup_cons in Hnd as [Hy Hnd]. destruct (Nat.eqb_spec y id) as [-> | Hne].
    + rewrite elem_of_cons. split; [| by intros [[-> | ?] ?]]. intros Hx. split; [auto |].
      by intros ->.
    + rewrite !elem_of_cons, IH by done. naive_solver.
Qed.

Lemma remove_first_nodup id l : NoDup l -> NoDup (remove_first id l).
Proof.
  induction l as [| y l IH]; intros Hnd; simpl; [done |].
  pose proof Hnd as Hnd0. apply list.NoDup_cons in Hnd as [Hy Hnd].
  destruct (Nat.eqb_spec y id); [done |]. apply list.NoDup_cons. split; [| by apply IH].
  rewrite remove_first_elem by done. by intros [? _].
Qed.

Lemma remove_first_length id l :
  (length (remove_first id l) <= length l)%nat.
Proof. induction l as [| y l IH]; simpl; [done |]. destruct (Nat.eqb y id); simpl; lia. Qed.

(** The list holds exactly the attempts in a state. *)
Definition lists (l : list nat) (st : attemptState) (h : gmap nat Attempt) : Prop :=
  NoDup l /\ forall id, id ∈ l <-> exists a, h !! id = Some a /\ at_state a = st.

Lemma lists_same l st h id a a' :
  h !! id = Some a -> (at_state a = st <-> at_state a' = st) -> lists l st h ->
  lists l st (<[id := a']> h).
Proof.
  intros Ha Hst [Hnd Hl]. split; [done |]. intros x. rewrite Hl.
  destruct (decide (x = id)) as [-> |].
  - rewrite lookup_insert_eq. naive_solver.
  - by rewrite lookup_insert_ne.
Qed.

Lemma lists_remove l st h id a a' :
  h !! id = Some a -> at_state a' <> st -> lists l st h ->
  lists (remove_first id l) st (<[id := a']> h).
Proof.
  intros Ha Hst [Hnd Hl]. split; [by apply remove_first_nodup |]. intros x.
  rewrite remove_first_elem, Hl by done. destruct (decide (x = id)) as [-> |].
  - rewrite lookup_insert_eq. naive_solver.
  - rewrite lookup_insert_ne by done. naive_solver.
Qed.

Lemma lists_tail l st h id a' :
  at_state a' <> st -> lists (id :: l) st h -> lists l st (<[id := a']> h).
Proof.
  intros Hst Hl. pose proof Hl as [Hnd Hin].
  destruct (Hin id) as [[a [Ha _]] _]; [apply list_elem_of_here |].
  pose proof (lists_remove (id :: l) st h id a a' Ha Hst Hl) as Hr. simpl in Hr.
  by rewrite Nat.eqb_refl in Hr.
Qed.

Lemma lists_add l st h id a' :
  (forall a, h !! id = Some a -> at_state a <> st) -> at_state a' = st -> lists l st h ->
  lists (l ++ [id]) st (<[id := a']> h).
Proof.
  intros Hno Hst [Hnd Hl]. split.
  - apply list.NoDup_app. split; [done |]. split; [| apply list.NoDup_singleton].
    intros x Hx Hx'. apply list_elem_of_singleton in Hx' as ->. apply Hl in Hx as (a & Ha & Hs).
    by apply (Hno a).
  - intros x. rewrite elem_of_app, list_elem_of_singleton, Hl.
    destruct (decide (x = id)) as [-> |].
    + rewrite lookup_insert_eq. naive_solver.
    + rewrite lookup_insert_ne by done. naive_solver.
Qed.

Lemma lists_new l st h id a' :
  h !! id = None -> at_state a' <> st -> lists l st h -> lists l st (<[id := a']> h).
Proof.
  intros Hno Hst [Hnd Hl]. split; [done |]. intros x. rewrite Hl.
  destruct (decide (x = id)) as [-> |].
  - rewrite lookup_insert_eq, Hno. naive_solver.
  - by rewrite lookup_insert_ne.
Qed.

(** ** The table of runs *)

Definition tabled (m : gmap string nat) (h : gmap nat Attempt) : Prop :=
  forall r id, m !! r = Some id <->
    exists a, h !! id = Some a /\ at_runID a = r /\ at_state a <> attemptDone.

Lemma tabled_same m h id a a' :
  h !! id = Some a -> at_runID a' = at_runID a -> at_state a <> attemptDone ->
  at_state a' <> attemptDone -> tabled m h -> tabled m (<[id := a']> h).
Proof.
  intros Ha Hr Hs Hs' Ht r x. rewrite (Ht r x). destruct (decide (x = id)) as [-> |].
  - rewrite lookup_insert_eq. split; intros (b & Hb & ? & ?); simplify_eq; eexists; eauto.
  - by rewrite lookup_insert_ne.
Qed.

Lemma tabled_done m h id a a' :
  h !! id = Some a -> at_state a <> attemptDone -> at_state a' = attemptDone ->
  tabled m h -> tabled (delete (at_runID a) m) (<[id := a']> h).
Proof.
  intros Ha Hs Hs' Ht r x. assert (m !! at_runID a = Some id) as Hid by (apply Ht; eauto).
  destruct (decide (r = at_runID a)) as [-> | Hr].
  - rewrite lookup_delete_eq. split; [done |]. intros (b & Hb & Hrb & Hsb).
    destruct (decide (x = id)) as [-> |].
    + rewrite lookup_insert_eq in Hb. by simplify_eq.
    + rewrite lookup_insert_ne in Hb by done.
      assert (m !! at_runID a = Some x) by (apply Ht; eauto). congruence.
  - rewrite lookup_delete_ne by done. rewrite (Ht r x). destruct (decide (x = id)) as [-> |].
    + rewrite lookup_insert_eq. split; intros (b & Hb & ? & ?); simplify_eq; done.
    + by rewrite lookup_insert_ne.
Qed.

Lemma tabled_frozen m h id a a' :
  h !! id = Some a -> at_state a = attemptDone -> at_state a' = attemptDone ->
  tabled m h -> tabled m (<[id := a']> h).
Proof.
  intros Ha Hs Hs' Ht r x. rewrite (Ht r x). destruct (decide (x = id)) as [-> |].
  - rewrite lookup_insert_eq. naive_solver.
  - by rewrite lookup_insert_ne.
Qed.

Lemma tabled_new m h id a' :
  h !! id = None -> m !! at_runID a' = None -> at_state a' <> attemptDone ->
  tabled m h -> tabled (<[at_runID a' := id]> m) (<[id := a']> h).
Proof.
  intros Hno Hfree Hs Ht r x. destruct (decide (r = at_runID a')) as [-> | Hr].
  - rewrite lookup_insert_eq. destruct (decide (x = id)) as [-> |].
    + rewrite lookup_insert_eq. naive_solver.
    + rewrite lookup_insert_ne by done. split; [intros [= ->]; done |].
      intros Hb. apply Ht in Hb. congruence.
  - rewrite lookup_insert_ne by done. rewrite (Ht r x). destruct (decide (x = id)) as [-> |].
    + rewrite lookup_insert_eq, Hno. naive_solver.
    + by rewrite lookup_insert_ne.
Qed.

(** ** The invariant *)

(** The state of an attempt fits the point of its goroutine. *)
Definition point_ok (a : Attempt) : Prop :=
  at_external a = bool_decide (at_pc a = PTool)
  /\ match at_state a with
     | attemptQueued => at_pc a = PNotStarted /\ at_result a = None
     | attemptRunning =>
         (at_pc a = PGuest \/ at_pc a = PPermitWait /\ at_permit a = Some true) /\ at_result a = None
     | attemptWaitingLive =>
         (at_pc a = PTokenWait \/ at_pc a = PTool \/ at_pc a = PReacquire \/ at_pc a = PGuest)
         /\ at_result a = None
     | attemptReady => at_pc a = PPermitWait /\ at_permit a = Some false /\ at_result a = None
     | attemptDone => at_pc a = PFinished /\ is_Some (at_result a)
     end.

Definition is_live (a : Attempt) : bool := live (at_state a).

Record ok (e : Executor) : Prop := {
  ok_running : ex_running e = Z.of_N (count (in_state attemptRunning) (ex_heap e));
  ok_resident : ex_resident e = Z.of_N (count is_live (ex_heap e));
  ok_external : ex_external e = Z.of_N (count at_external (ex_heap e));
  ok_queue : lists (ex_queue e) attemptQueued (ex_heap e);
  ok_ready : lists (ex_ready e) attemptReady (ex_heap e);
  ok_table : tabled (ex_attempts e) (ex_heap e);
  ok_points : forall id a, ex_heap e !! id = Some a -> point_ok a;
  ok_bounds : (ex_running e <= ex_maxRunning e /\ ex_resident e <= ex_maxResident e
               /\ ex_external e <= ex_maxInflight e
               /\ Z.of_nat (length (ex_queue e)) <= ex_maxQueued e)%Z
}.

(** No capacity is unused while work waits. *)
Definition conserving (e : Executor) : Prop :=
  (ex_running e < ex_maxRunning e)%Z ->
  ex_ready e = [] /\ ((ex_maxResident e <= ex_resident e)%Z \/ ex_queue e = []).

Definition drain_ok (e : Executor) : Prop :=
  ex_drained e = true <-> ex_closed e = true /\ ex_attempts e = ∅.

Definition settled (e : Executor) : Prop := ok e /\ conserving e /\ drain_ok e.

Lemma points_insert (h : gmap nat Attempt) (id : nat) (a' : Attempt) :
  (forall x a, h !! x = Some a -> point_ok a) -> point_ok a' ->
  forall x a, <[id := a']> h !! x = Some a -> point_ok a.
Proof.
  intros Hh Ha' x a. rewrite lookup_insert. destruct (decide (id = x)); [by intros [= <-] | apply Hh].
Qed.

Definition limits_of (e : Executor) : Z * Z * Z * Z :=
  (ex_maxRunning e, ex_maxResident e, ex_maxQueued e, ex_maxInflight e).

(** The counters follow the change of one attempt. *)
Definition counted (e e' : Executor) (a a' : Attempt) : Prop :=
  ex_running e' = (ex_running e - b2z (in_state attemptRunning a)
                   + b2z (in_state attemptRunning a'))%Z
  /\ ex_resident e' = (ex_resident e - b2z (is_live a) + b2z (is_live a'))%Z
  /\ ex_external e' = (ex_external e - b2z (at_external a) + b2z (at_external a'))%Z.

Definition bounded (e : Executor) : Prop :=
  (ex_running e <= ex_maxRunning e /\ ex_resident e <= ex_maxResident e
   /\ ex_external e <= ex_maxInflight e /\ Z.of_nat (length (ex_queue e)) <= ex_maxQueued e)%Z.

(** One attempt changes: what is left to show of the invariant. *)
Lemma ok_change e e' id a a' :
  ok e -> ex_heap e !! id = Some a -> ex_heap e' = <[id := a']> (ex_heap e) ->
  point_ok a' -> counted e e' a a' -> bounded e' ->
  lists (ex_queue e') attemptQueued (<[id := a']> (ex_heap e)) ->
  lists (ex_ready e') attemptReady (<[id := a']> (ex_heap e)) ->
  tabled (ex_attempts e') (<[id := a']> (ex_heap e)) -> ok e'.
Proof.
  intros Hok Ha Hh Hp (Hr & Hl & Hx) Hb Hq Hrd Ht.
  split; try done; rewrite Hh; try done.
  - rewrite (count_update _ _ _ _ _ Ha), <- (ok_running e Hok). done.
  - rewrite (count_update _ _ _ _ _ Ha), <- (ok_resident e Hok). done.
  - rewrite (count_update _ _ _ _ _ Ha), <- (ok_external e Hok). done.
  - apply points_insert; [apply (ok_points e Hok) | done].
Qed.

(** The attempt of an address and the shape of its state. *)
Lemma ok_point e id a : ok e -> ex_heap e !! id = Some a -> point_ok a.
Proof. intros Hok. apply (ok_points e Hok). Qed.

(** Solves the side conditions of [ok_change] for attempts in known states. *)
Ltac counted_tac := unfold counted, in_state, is_live, b2z; simpl;
  repeat match goal with H : at_state _ = _ |- _ => rewrite H end; simpl; split_and!; lia.

(** ** The scheduling loop *)

Lemma update_present id f e a :
  ex_heap e !! id = Some a -> update id f e = set_heap (<[id := f a]> (ex_heap e)) e.
Proof. intros Ha. unfold update. by rewrite (alter_present _ _ _ _ Ha). Qed.

(** Granting the running slot to the head of the ready list. *)
Lemma ok_grant e next ready a :
  ok e -> (ex_running e < ex_maxRunning e)%Z -> ex_ready e = next :: ready ->
  ex_heap e !! next = Some a -> at_state a = attemptReady ->
  ok (update next (fun a => with_permit (Some true) (with_state attemptRunning (at_pc a) a))
        (set_counts (ex_running e + 1) (ex_resident e) (set_ready ready (ex_readyBurst e + 1) e))).
Proof.
  intros Hok Hlt Hready Ha Hst. rewrite (update_present _ _ _ a) by done.
  pose proof (ok_point _ _ _ Hok Ha) as [Hext Hp]. rewrite Hst in Hp. destruct Hp as (Hpc & Hperm & Hres).
  pose proof (ok_bounds e Hok) as Hb.
  eapply (ok_change e _ next a); [done | done | reflexivity | | | | | |].
  - split; simpl; [done |]. split; [by right | done].
  - counted_tac.
  - unfold bounded. simpl. lia.
  - simpl. apply (lists_same _ _ _ _ _ _ Ha); [simpl; by rewrite Hst | apply Hok].
  - simpl. apply lists_tail; [done |]. rewrite <- Hready. apply Hok.
  - simpl. apply (tabled_same _ _ _ _ _ Ha); simpl; try done; [by rewrite Hst | apply Hok].
Qed.

(** Admitting the head of the queue. *)
Lemma ok_start e next queue a :
  ok e -> (ex_running e < ex_maxRunning e)%Z -> (ex_resident e < ex_maxResident e)%Z ->
  ex_queue e = next :: queue -> ex_heap e !! next = Some a -> at_state a = attemptQueued ->
  ok (update next (with_state attemptRunning PGuest)
        (set_ready (ex_ready e) 0
           (set_counts (ex_running e + 1) (ex_resident e + 1) (set_queue queue e)))).
Proof.
  intros Hok Hlt Hres Hqueue Ha Hst. rewrite (update_present _ _ _ a) by done.
  pose proof (ok_point _ _ _ Hok Ha) as [Hext Hp]. rewrite Hst in Hp. destruct Hp as (Hpc & Hnone).
  pose proof (ok_bounds e Hok) as Hb. rewrite Hqueue in Hb. simpl in Hb.
  rewrite Hpc in Hext. simpl in Hext.
  eapply (ok_change e _ next a); [done | done | reflexivity | | | | | |].
  - split; simpl; [done |]. split; [by left | done].
  - counted_tac.
  - unfold bounded. simpl. lia.
  - simpl. apply lists_tail; [done |]. rewrite <- Hqueue. apply Hok.
  - simpl. apply (lists_same _ _ _ _ _ _ Ha); [simpl; by rewrite Hst | apply Hok].
  - simpl. apply (tabled_same _ _ _ _ _ Ha); simpl; try done; [by rewrite Hst | apply Hok].
Qed.

(** Dropping a queued attempt. *)
Lemma ok_drop e id a result err :
  ok e -> ex_heap e !! id = Some a -> at_state a = attemptQueued ->
  ok (dropQueuedResultLocked id a result err e).
Proof.
  intros Hok Ha Hst. unfold dropQueuedResultLocked. rewrite (update_present _ _ _ a) by done.
  pose proof (ok_point _ _ _ Hok Ha) as [Hext Hp]. rewrite Hst in Hp. destruct Hp as (Hpc & Hnone).
  pose proof (ok_bounds e Hok) as Hb. rewrite Hpc in Hext. simpl in Hext.
  pose proof (remove_first_length id (ex_queue e)) as Hlen.
  eapply (ok_change e _ id a); [done | done | reflexivity | | | | | |].
  - split; simpl; [done |]. split; [done | by eexists].
  - counted_tac.
  - unfold bounded. simpl. lia.
  - simpl. apply (lists_remove _ _ _ _ _ _ Ha); [done | apply Hok].
  - simpl. apply (lists_same _ _ _ _ _ _ Ha); [simpl; by rewrite Hst | apply Hok].
  - simpl. apply (tabled_done _ _ _ _ _ Ha); simpl; [by rewrite Hst | done | apply Hok].
Qed.

(** Dropping the head, as the loop does after taking it off the queue. *)
Lemma drop_head e next queue a result err :
  ok e -> ex_queue e = next :: queue ->
  dropQueuedResultLocked next a result err (set_queue queue e)
  = dropQueuedResultLocked next a result err e.
Proof.
  intros Hok Hqueue. unfold dropQueuedResultLocked. simpl. rewrite Hqueue. simpl.
  rewrite Nat.eqb_refl. rewrite remove_first_notin; [done |].
  pose proof (proj1 (ok_queue e Hok)) as Hnd. rewrite Hqueue in Hnd. by apply list.NoDup_cons in Hnd as [? _].
Qed.

(** ** What every section keeps *)

(** Attempts stay where they are, and a result is final. *)
Definition attempt_le (a a' : Attempt) : Prop :=
  at_runID a' = at_runID a /\ (is_Some (at_result a) -> at_result a' = at_result a)
  /\ (at_state a <> attemptQueued -> at_state a' <> attemptQueued).

Definition heap_le (h h' : gmap nat Attempt) : Prop :=
  forall id a, h !! id = Some a -> exists a', h' !! id = Some a' /\ attempt_le a a'.

#[export] Instance heap_le_refl : Reflexive heap_le.
Proof. intros h id a Ha. exists a. by split_and!. Qed.

#[export] Instance heap_le_trans : Transitive heap_le.
Proof.
  intros h1 h2 h3 H12 H23 id a Ha. destruct (H12 id a Ha) as (a2 & Ha2 & Hr & Hf & Hq).
  destruct (H23 id a2 Ha2) as (a3 & Ha3 & Hr' & Hf' & Hq'). exists a3. split; [done |].
  split; [congruence |]. split; [| auto]. intros Hs. rewrite Hf' by (by rewrite Hf). by apply Hf.
Qed.

Lemma heap_le_insert (h : gmap nat Attempt) id a a' :
  h !! id = Some a -> attempt_le a a' -> heap_le h (<[id := a']> h).
Proof.
  intros Ha Hle x b Hb. rewrite lookup_insert. destruct (decide (id = x)) as [<- |].
  - simplify_eq. eauto.
  - exists b. by split_and!.
Qed.

Record kept (e e' : Executor) : Prop := {
  kept_limits : limits_of e' = limits_of e;
  kept_flags : ex_closed e' = ex_closed e /\ ex_drained e' = ex_drained e;
  kept_heap : heap_le (ex_heap e) (ex_heap e');
  (** Only queued attempts leave the table. *)
  kept_table : forall r id a, ex_attempts e !! r = Some id -> ex_heap e !! id = Some a ->
    at_state a <> attemptQueued -> ex_attempts e' !! r = Some id
}.

#[export] Instance kept_refl : Reflexive kept.
Proof. intros e. by split. Qed.

#[export] Instance kept_trans : Transitive kept.
Proof.
  intros e1 e2 e3 [Hl1 [Hc1 Hd1] Hh1 Ht1] [Hl2 [Hc2 Hd2] Hh2 Ht2].
  split; [congruence | split; congruence | by etrans |].
  intros r id a Hr Ha Hs. destruct (Hh1 id a Ha) as (a2 & Ha2 & _ & _ & Hq). eauto.
Qed.

Lemma kept_change e e' id a a' :
  ex_heap e !! id = Some a -> ex_heap e' = <[id := a']> (ex_heap e) -> attempt_le a a' ->
  limits_of e' = limits_of e -> ex_closed e' = ex_closed e -> ex_drained e' = ex_drained e ->
  (ex_attempts e' = ex_attempts e
   \/ at_state a = attemptQueued /\ ex_attempts e' = delete (at_runID a) (ex_attempts e)
       /\ ex_attempts e !! at_runID a = Some id) ->
  kept e e'.
Proof.
  intros Ha Hh Hle Hl Hc Hd Ht. split; [done | done | rewrite Hh; by apply (heap_le_insert _ _ a) |].
  intros r x b Hr Hb Hs. destruct Ht as [-> | (Hq & -> & Hid)]; [done |].
  destruct (decide (r = at_runID a)) as [-> |]; [| by rewrite lookup_delete_ne]. congruence.
Qed.

Lemma attempt_le_open a a' :
  at_runID a' = at_runID a -> at_result a = None -> at_state a' <> attemptQueued -> attempt_le a a'.
Proof. intros Hr Hn Hq. split; [done |]. split; [| done]. rewrite Hn. by intros []. Qed.

Lemma table_of e id a :
  ok e -> ex_heap e !! id = Some a -> at_state a <> attemptDone ->
  ex_attempts e !! at_runID a = Some id.
Proof. intros Hok Ha Hs. apply (ok_table e Hok). eauto. Qed.

Lemma kept_drop e id a result err :
  ok e -> ex_heap e !! id = Some a -> at_state a = attemptQueued ->
  kept e (dropQueuedResultLocked id a result err e).
Proof.
  intros Hok Ha Hst. unfold dropQueuedResultLocked. rewrite (update_present _ _ _ a) by done.
  pose proof (ok_point _ _ _ Hok Ha) as [_ Hp]. rewrite Hst in Hp. destruct Hp as (_ & Hnone).
  eapply (kept_change e _ id a); [done | reflexivity | | done..|].
  - by apply attempt_le_open.
  - right. split; [done |]. split; [done |]. apply table_of; [done.. | by rewrite Hst].
Qed.

(** ** The loop terminates with no capacity left unused *)

Lemma head_state l st h next rest :
  lists l st h -> l = next :: rest -> exists a, h !! next = Some a /\ at_state a = st.
Proof. intros [_ Hl] ->. apply Hl, list_elem_of_here. Qed.

Lemma schedule_spec fuel e :
  ok e -> (length (ex_ready e) + length (ex_queue e) < fuel)%nat ->
  ok (schedule fuel e) /\ conserving (schedule fuel e) /\ kept e (schedule fuel e).
Proof.
  revert e. induction fuel as [| fuel IH]; intros e Hok Hfuel; [lia |]. simpl.
  destruct (ex_running e <? ex_maxRunning e)%Z eqn:Hrun; guards; simpl.
  2:{ split; [done |]. split; [| reflexivity]. intros H. lia. }
  assert (forall e1, ok e1 -> kept e e1 ->
    (length (ex_ready e1) + length (ex_queue e1) < length (ex_ready e) + length (ex_queue e))%nat ->
    ok (schedule fuel e1) /\ conserving (schedule fuel e1) /\ kept e (schedule fuel e1)) as Hgo.
  { intros e1 Hok1 Hk Hlt. destruct (IH e1 Hok1) as (H1 & H2 & H3); [lia |].
    split; [done |]. split; [done |]. by etrans. }
  set (canAdmit := (ex_resident e <? ex_maxResident e)%Z && _).
  match goal with |- context [match ex_ready e with [] => ?adm | _ => _ end] => set (start := adm) end.
  assert ((ex_ready e = [] \/ canAdmit = true) -> ok start /\ conserving start /\ kept e start) as Hadmit.
  { intros Hcond. subst start canAdmit.
    destruct (ex_resident e <? ex_maxResident e)%Z eqn:Hres; guards; simpl in *.
    2:{ destruct Hcond as [Hcond | Hcond]; [| done]. split; [done |]. split; [| reflexivity].
        intros _. split; [done | by left]. }
    destruct (ex_queue e) as [| next queue] eqn:Hqueue; simpl in *.
    { destruct Hcond as [Hcond | Hcond]; [| done]. split; [done |]. split; [| reflexivity].
      intros _. split; [done | by right]. }
    destruct (head_state _ _ _ next queue (ok_queue e Hok) Hqueue) as (a & Ha & Hst).
    rewrite Ha, Hst. simpl. pose proof (ok_point _ _ _ Hok Ha) as [_ Hp]. rewrite Hst in Hp.
    destruct (at_ctx a) as [err |].
    - unfold dropQueuedLocked. rewrite drop_head by done.
      apply Hgo; [by apply ok_drop | by apply kept_drop |].
      unfold dropQueuedResultLocked. simpl. rewrite Hqueue. simpl. rewrite Nat.eqb_refl. lia.
    - apply Hgo; [by eapply ok_start | | simpl; lia].
      rewrite (update_present _ _ _ a) by done.
      eapply (kept_change e _ next a); [done | reflexivity | | done.. | by left].
      apply attempt_le_open; [done | apply Hp | done]. }
  destruct (ex_ready e) as [| next ready] eqn:Hready; [apply Hadmit; by left |].
  destruct (negb canAdmit || _) eqn:Hcond; [| apply Hadmit; right; guards; by destruct canAdmit].
  destruct (head_state _ _ _ next ready (ok_ready e Hok) Hready) as (a & Ha & Hst).
  rewrite Ha, Hst. simpl. pose proof (ok_point _ _ _ Hok Ha) as [_ Hp]. rewrite Hst in Hp.
  apply Hgo; [by eapply ok_grant | | simpl; lia].
  rewrite (update_present _ _ _ a) by done.
  eapply (kept_change e _ next a); [done | reflexivity | | done.. | by left].
  apply attempt_le_open; [done | apply Hp | done].
Qed.

Lemma scheduleLocked_spec e :
  ok e -> ok (scheduleLocked e) /\ conserving (scheduleLocked e) /\ kept e (scheduleLocked e).
Proof. intros Hok. apply schedule_spec; [done |]. unfold schedule_fuel. lia. Qed.

(** ** Every step keeps the executor settled *)

Record evolves (e e' : Executor) : Prop := {
  ev_limits : limits_of e' = limits_of e;
  ev_closed : ex_closed e = true -> ex_closed e' = true;
  ev_heap : heap_le (ex_heap e) (ex_heap e')
}.

#[export] Instance evolves_refl : Reflexive evolves.
Proof. intros e. by split. Qed.

#[export] Instance evolves_trans : Transitive evolves.
Proof. intros e1 e2 e3 [? ? ?] [? ? ?]. split; [congruence | auto | by etrans]. Qed.

Lemma kept_evolves e e' : kept e e' -> evolves e e'.
Proof. intros [Hl [Hc _] Hh _]. split; [done | congruence | done]. Qed.

(** The drained flag may lag before [maybeDrainLocked], never lead. *)
Definition drain_safe (e : Executor) : Prop :=
  ex_drained e = true -> ex_closed e = true /\ ex_attempts e = ∅.

Lemma drain_settles e :
  ok e -> conserving e -> drain_safe e ->
  settled (maybeDrainLocked e) /\ evolves e (maybeDrainLocked e).
Proof.
  intros Hok Hc Hd. unfold maybeDrainLocked.
  destruct (ex_closed e && negb (ex_drained e) && bool_decide (ex_attempts e = ∅)) eqn:Hcond.
  - apply andb_prop in Hcond as [[Hcl Hdr]%andb_prop Hempty]. guards.
    split; [| by split]. split; [by destruct Hok |]. split; [done |]. by split.
  - split; [| reflexivity]. split; [done |]. split; [done |]. split; [by apply Hd |].
    intros [Hcl Hempty]. rewrite Hcl, bool_decide_eq_true_2 in Hcond by done.
    by destruct (ex_drained e).
Qed.

Lemma tabled_nonempty e id a :
  ok e -> ex_heap e !! id = Some a -> at_state a <> attemptDone -> ex_attempts e <> ∅.
Proof.
  intros Hok Ha Hs Hempty. pose proof (table_of _ _ _ Hok Ha Hs) as Ht.
  by rewrite Hempty, lookup_empty in Ht.
Qed.

(** A change of one attempt that stays in the table. *)
Lemma settled_change e e' id a a' :
  settled e -> ex_heap e !! id = Some a -> ok e' -> conserving e' ->
  ex_heap e' = <[id := a']> (ex_heap e) -> attempt_le a a' -> limits_of e' = limits_of e ->
  ex_closed e' = ex_closed e -> ex_drained e' = ex_drained e -> ex_attempts e' = ex_attempts e ->
  settled e' /\ evolves e e'.
Proof.
  intros (Hok & Hc & Hd) Ha Hok' Hc' Hh Hle Hl Hcl Hdr Ht.
  split.
  - split; [done |]. split; [done |]. unfold drain_ok. by rewrite Hdr, Hcl, Ht.
  - apply kept_evolves. eapply kept_change; eauto.
Qed.

(** A change that the scheduler does not look at. *)
Lemma settled_quiet e id a f :
  settled e -> ex_heap e !! id = Some a ->
  at_runID (f a) = at_runID a -> at_state (f a) = at_state a -> at_result (f a) = at_result a ->
  at_external (f a) = at_external a -> point_ok (f a) ->
  settled (update id f e) /\ evolves e (update id f e).
Proof.
  intros Hset Ha Hr Hs Hres Hx Hp. pose proof Hset as (Hok & Hc & _).
  rewrite (update_present _ _ _ a) by done.
  eapply (settled_change e _ id a (f a)); [done | done | | done | reflexivity | | done..].
  - eapply (ok_change e _ id a); [done | done | reflexivity | done | | apply Hok | | |]; simpl.
    + unfold counted, in_state, is_live. rewrite Hs, Hx. simpl. split_and!; lia.
    + apply (lists_same _ _ _ _ _ _ Ha); [by rewrite Hs | apply Hok].
    + apply (lists_same _ _ _ _ _ _ Ha); [by rewrite Hs | apply Hok].
    + destruct (decide (at_state a = attemptDone)) as [Hdone | Hdone].
      * apply (tabled_frozen _ _ _ _ _ Ha); [done | congruence | apply Hok].
      * apply (tabled_same _ _ _ _ _ Ha); [done | done | congruence | apply Hok].
  - split; [done |]. split; [by rewrite Hres |]. by rewrite Hs.
Qed.

Lemma conserving_drop e id a result err :
  conserving e -> conserving (dropQueuedResultLocked id a result err e).
Proof.
  intros Hc Hlt. destruct (Hc Hlt) as [Hr Hq]. split; [done |].
  destruct Hq as [Hq | Hq]; [by left | right]. simpl. by rewrite Hq.
Qed.

Lemma settled_drop e id a result err :
  settled e -> ex_heap e !! id = Some a -> at_state a = attemptQueued ->
  settled (maybeDrainLocked (dropQueuedResultLocked id a result err e))
  /\ evolves e (maybeDrainLocked (dropQueuedResultLocked id a result err e)).
Proof.
  intros (Hok & Hc & Hd) Ha Hst.
  pose proof (ok_drop e id a result err Hok Ha Hst) as Hok'.
  pose proof (kept_drop e id a result err Hok Ha Hst) as Hk.
  destruct (drain_settles (dropQueuedResultLocked id a result err e)) as [H1 H2]; [done | | |].
  - by apply conserving_drop.
  - intros Hdr. simpl in Hdr. apply Hd in Hdr as [_ Hempty].
    destruct (tabled_nonempty _ _ _ Hok Ha); [by rewrite Hst | done].
  - split; [done |]. etrans; [by apply kept_evolves | done].
Qed.

(** [Cancel] and [abort] on a live attempt. *)
Lemma settled_cancel_ctx e id a :
  settled e -> ex_heap e !! id = Some a ->
  settled (update id cancel_ctx e) /\ evolves e (update id cancel_ctx e).
Proof.
  intros Hset Ha. pose proof Hset as (Hok & _). pose proof (ok_point _ _ _ Hok Ha) as Hp.
  by apply (settled_quiet e id a).
Qed.

Lemma settled_abort e id err : settled e -> settled (abort id err e) /\ evolves e (abort id err e).
Proof.
  intros Hset. unfold abort. destruct (ex_heap e !! id) as [a |] eqn:Ha; [| by split].
  destruct (bool_decide (at_state a = attemptQueued)) eqn:Hq; guards; [by apply settled_drop |].
  destruct (live (at_state a)); [by eapply settled_cancel_ctx | by split].
Qed.

Lemma settled_cancel e runID :
  settled e -> settled (cancel_local runID e) /\ evolves e (cancel_local runID e).
Proof.
  intros Hset. unfold cancel_local. destruct (ex_attempts e !! runID) as [id |]; [| by split].
  destruct (ex_heap e !! id) as [a |] eqn:Ha; [| by split].
  destruct (bool_decide (at_state a = attemptQueued)) eqn:Hq; guards; [by apply settled_drop |].
  destruct (live (at_state a)); [by eapply settled_cancel_ctx | by split].
Qed.

Lemma settled_close e : settled e -> settled (Close e) /\ evolves e (Close e).
Proof.
  intros (Hok & Hc & Hd). unfold Close.
  destruct (drain_settles (set_closed true (ex_drained e) e)) as [H1 H2].
  - by destruct Hok.
  - done.
  - intros Hdr. simpl in *. apply Hd in Hdr as [_ ?]. done.
  - split; [done |]. etrans; [| done]. by split.
Qed.

(** The attempt leaves its list and its slots before it is done. *)
Definition release_live (id : nat) (a : Attempt) (e : Executor) : Executor :=
  match at_state a with
  | attemptRunning => set_counts (ex_running e - 1) (ex_resident e - 1) e
  | attemptWaitingLive => set_counts (ex_running e) (ex_resident e - 1) e
  | attemptReady => set_counts (ex_running e) (ex_resident e - 1) (removeReadyLocked id e)
  | _ => e
  end.

Lemma ok_finish e id a result err :
  ok e -> ex_heap e !! id = Some a -> live (at_state a) = true -> at_external a = false ->
  ok (set_heap (<[id := complete result err PFinished a]> (ex_heap e))
        (set_attempts (delete (at_runID a) (ex_attempts e)) (release_live id a e))).
Proof.
  intros Hok Ha Hlive Hext. pose proof (ok_bounds e Hok) as Hb.
  eapply (ok_change e _ id a); [done | done | reflexivity | | | | | |].
  - split; simpl; [done |]. split; [done | by eexists].
  - unfold release_live. unfold counted, is_live, in_state. simpl. rewrite Hext.
    destruct (at_state a); try done; simpl; split_and!; lia.
  - unfold bounded, release_live. destruct (at_state a); simpl; lia.
  - assert (ex_queue (release_live id a e) = ex_queue e) as Hq
      by (unfold release_live; by destruct (at_state a)).
    simpl. rewrite Hq. apply (lists_same _ _ _ _ _ _ Ha); [| apply Hok].
    simpl. by destruct (at_state a).
  - simpl. unfold release_live. destruct (at_state a) eqn:Hst; try done; simpl.
    + apply (lists_same _ _ _ _ _ _ Ha); [by rewrite Hst | apply Hok].
    + apply (lists_same _ _ _ _ _ _ Ha); [by rewrite Hst | apply Hok].
    + apply (lists_remove _ _ _ _ _ _ Ha); [done | apply Hok].
  - simpl. apply (tabled_done _ _ _ _ _ Ha); [by destruct (at_state a) | done | apply Hok].
Qed.

Lemma settled_finish e id a result err :
  settled e -> ex_heap e !! id = Some a -> live (at_state a) = true -> at_external a = false ->
  settled (finish id result err e) /\ evolves e (finish id result err e).
Proof.
  intros (Hok & Hc & Hd) Ha Hlive Hext. unfold finish. rewrite Ha.
  assert (at_state a <> attemptDone /\ at_state a <> attemptQueued) as [Hnd Hnq]
    by (by destruct (at_state a)).
  rewrite !bool_decide_eq_false_2 by done. simpl. change (match at_state a with attemptQueued => _ | _ => _ end)
    with (release_live id a e).
  assert (ex_heap (release_live id a e) = ex_heap e /\ ex_attempts (release_live id a e) = ex_attempts e)
    as [Hh Ht] by (unfold release_live; by destruct (at_state a)).
  rewrite (update_present _ _ _ a) by (simpl; by rewrite Hh). simpl. rewrite Hh, Ht.
  set (e2 := set_heap _ _).
  assert (ok e2) as Hok2 by (by apply ok_finish).
  assert (limits_of e2 = limits_of e /\ ex_closed e2 = ex_closed e /\ ex_drained e2 = ex_drained e)
    as (Hl2 & Hc2 & Hd2) by (unfold e2, release_live; by destruct (at_state a)).
  destruct (scheduleLocked_spec e2 Hok2) as (Hok3 & Hc3 & Hk3).
  pose proof Hk3 as [_ [Hcl3 Hdr3] _ _].
  destruct (drain_settles (scheduleLocked e2) Hok3 Hc3) as [H1 H2].
  - intros Hdr. rewrite Hdr3, Hd2 in Hdr. apply Hd in Hdr as [_ Hempty].
    by destruct (tabled_nonempty _ _ _ Hok Ha Hnd).
  - split; [done |]. etrans; [| exact H2]. etrans; [| by apply kept_evolves].
    split; [done | congruence |]. apply (heap_le_insert _ _ a); [done |].
    pose proof (ok_point _ _ _ Hok Ha) as [_ Hp].
    apply attempt_le_open; [done | by destruct (at_state a); try done; apply Hp | done].
Qed.

(** ** The gate *)

Lemma settled_yield e e' id a :
  settled e -> ex_heap e !! id = Some a -> at_pc a = PGuest -> yield id e = Ok e' ->
  settled e' /\ evolves e e'.
Proof.
  intros (Hok & Hc & Hd) Ha Hpc. unfold yield. rewrite Ha.
  destruct (bool_decide (at_state a = attemptRunning)) eqn:Hst; simpl; [| done]. guards.
  rewrite (update_present _ _ _ a) by done. set (e1 := set_counts _ _ _). intros [= <-].
  pose proof (ok_point _ _ _ Hok Ha) as [Hext Hp]. rewrite Hst in Hp. rewrite Hpc in Hext. simpl in Hext.
  assert (ok e1) as Hok1.
  { pose proof (ok_bounds e Hok) as Hb.
    eapply (ok_change e _ id a); [done | done | reflexivity | | | | | |].
    - split; simpl; [done |]. split; [auto | apply Hp].
    - counted_tac.
    - unfold bounded. simpl. lia.
    - simpl. apply (lists_same _ _ _ _ _ _ Ha); [simpl; by rewrite Hst | apply Hok].
    - simpl. apply (lists_same _ _ _ _ _ _ Ha); [simpl; by rewrite Hst | apply Hok].
    - simpl. apply (tabled_same _ _ _ _ _ Ha); simpl; try done; [by rewrite Hst | apply Hok]. }
  assert (kept e e1) as Hk1.
  { eapply (kept_change e _ id a); [done | reflexivity | | done.. | by left].
    apply attempt_le_open; [done | apply Hp | done]. }
  destruct (scheduleLocked_spec e1 Hok1) as (Hok2 & Hc2 & Hk2).
  assert (kept e (scheduleLocked e1)) as Hk by (by etrans).
  split; [| by apply kept_evolves]. split; [done |]. split; [done |].
  pose proof Hk as [_ [Hcl Hdr] _ Ht].
  assert (at_state a <> attemptDone /\ at_state a <> attemptQueued) as [Hnd Hnq] by (by rewrite Hst).
  pose proof (Ht _ _ _ (table_of _ _ _ Hok Ha Hnd) Ha Hnq) as Hin.
  unfold drain_ok. rewrite Hcl, Hdr. split.
  - intros Hdr'. apply Hd in Hdr' as [_ Hempty]. by destruct (tabled_nonempty _ _ _ Hok Ha Hnd).
  - intros [_ Hempty]. by rewrite Hempty, lookup_empty in Hin.
Qed.

(** A point that only a waiting attempt can be at. *)
Lemma waiting_point e id a pc :
  ok e -> ex_heap e !! id = Some a -> at_pc a = pc ->
  pc = PTokenWait \/ pc = PTool \/ pc = PReacquire ->
  at_state a = attemptWaitingLive /\ at_result a = None.
Proof.
  intros Hok Ha Hpc Hcase. pose proof (ok_point _ _ _ Hok Ha) as [_ Hp].
  destruct (at_state a); rewrite Hpc in Hp; destruct Hcase as [-> | [-> | ->]]; intuition congruence.
Qed.

(** The two ends of a Host callback. *)
Lemma settled_slot e id a b pc delta :
  settled e -> ex_heap e !! id = Some a -> at_state a = attemptWaitingLive -> at_result a = None ->
  (ex_external e + delta <= ex_maxInflight e)%Z -> delta = (b2z b - b2z (at_external a))%Z ->
  b = bool_decide (pc = PTool) -> pc = PTool \/ pc = PReacquire ->
  settled (update id (with_external b pc) (set_external (ex_external e + delta) e))
  /\ evolves e (update id (with_external b pc) (set_external (ex_external e + delta) e)).
Proof.
  intros Hset Ha Hst Hres Hbound Hdelta Hb Hpc. pose proof Hset as (Hok & Hc & _).
  rewrite (update_present _ _ _ a) by done. pose proof (ok_bounds e Hok) as Hbs.
  eapply (settled_change e _ id a); [done | done | | done | reflexivity | | done..].
  - eapply (ok_change e _ id a); [done | done | reflexivity | | | | | |].
    + split; simpl; [done |]. rewrite Hst. split; [destruct Hpc; auto | done].
    + unfold counted, in_state, is_live. simpl. rewrite Hst. simpl. split_and!; lia.
    + unfold bounded. simpl. lia.
    + simpl. apply (lists_same _ _ _ _ _ _ Ha); [done | apply Hok].
    + simpl. apply (lists_same _ _ _ _ _ _ Ha); [done | apply Hok].
    + simpl. apply (tabled_same _ _ _ _ _ Ha); simpl; try done; [by rewrite Hst.. | apply Hok].
  - apply attempt_le_open; [done | done | simpl; by rewrite Hst].
Qed.

(** ** Admission *)

Lemma settled_admit e e' ctx runID id :
  settled e -> ex_heap e !! id = None -> Admit ctx runID id e = Ok e' -> settled e' /\ evolves e e'.
Proof.
  intros (Hok & Hc & Hd) Hnew. unfold Admit.
  destruct (bool_decide (runID = "")); [done |]. destruct ctx as [[err |] |]; [done | | done].
  destruct (ex_closed e) eqn:Hcl; [done |]. destruct (ex_attempts e !! runID) eqn:Hfree; [done |].
  pose proof (ok_bounds e Hok) as Hb.
  assert (forall e1 a, ok e -> at_runID a = runID -> at_state a <> attemptDone -> point_ok a ->
    ex_heap e1 = <[id := a]> (ex_heap e) -> ex_attempts e1 = <[runID := id]> (ex_attempts e) ->
    ex_running e1 = (ex_running e + b2z (in_state attemptRunning a))%Z ->
    ex_resident e1 = (ex_resident e + b2z (is_live a))%Z -> ex_external e1 = ex_external e ->
    at_external a = false -> bounded e1 ->
    lists (ex_queue e1) attemptQueued (<[id := a]> (ex_heap e)) -> ex_ready e1 = ex_ready e ->
    at_state a <> attemptReady -> limits_of e1 = limits_of e -> ex_closed e1 = ex_closed e ->
    ex_drained e1 = ex_drained e -> conserving e1 -> settled e1 /\ evolves e e1) as Hadd.
  { intros e1 a _ Hr Hnd Hp Hh Ht Hrun Hres Hx Hxa Hbd Hq Hrd Hnr Hl Hcl1 Hdr1 Hcons. split.
    - split; [| split; [done |]].
      + split; try done; rewrite Hh.
        * rewrite count_insert by done. by rewrite <- (ok_running e Hok).
        * rewrite count_insert by done. by rewrite <- (ok_resident e Hok).
        * rewrite count_insert by done. rewrite <- (ok_external e Hok), Hxa. simpl. lia.
        * done.
        * rewrite Hrd. apply lists_new; [done.. | apply Hok].
        * rewrite Ht, <- Hr. apply tabled_new; [done | by rewrite Hr | done | apply Hok].
        * apply points_insert; [apply (ok_points e Hok) | done].
      + unfold drain_ok. rewrite Hdr1, Hcl1, Ht. split.
        * intros Hdr. apply Hd in Hdr as [? _]. congruence.
        * intros [? _]. congruence.
    - split; [done | congruence |]. rewrite Hh. intros x b Hx'.
      exists b. rewrite lookup_insert_ne by congruence. by split_and!. }
  destruct ((ex_running e <? ex_maxRunning e)%Z && (ex_resident e <? ex_maxResident e)%Z) eqn:Hfit; guards.
  - intros [= <-]. eapply Hadd; try reflexivity; try done.
    + split; simpl; [done |]. auto.
    + unfold bounded. simpl. lia.
    + simpl. apply lists_new; [done.. | apply Hok].
    + intros _. simpl. destruct (Hc ltac:(lia)) as [Hrd [Hq | Hq]]; [lia |]. by split; [| right].
  - destruct (ex_maxQueued e <=? _)%Z eqn:Hfull; guards; [done |]. intros [= <-].
    eapply Hadd; try reflexivity; try done.
    + simpl. lia.
    + simpl. lia.
    + unfold bounded. simpl. rewrite length_app. simpl. lia.
    + simpl. apply lists_add; [intros a Ha; congruence | done | apply Hok].
    + intros Hlt. simpl in *. destruct (Hc Hlt) as [Hrd _]. split; [done |]. left.
      apply andb_false_iff in Hfit as [Hf | Hf]; guards; lia.
Qed.

Lemma settled_reacquire e ctx id a :
  settled e -> ex_heap e !! id = Some a -> at_pc a = PReacquire ->
  settled (reacquire ctx id e).2 /\ evolves e (reacquire ctx id e).2.
Proof.
  intros Hset Ha Hpc. pose proof Hset as (Hok & Hc & _). pose proof (ok_bounds e Hok) as Hb.
  destruct (waiting_point e id a PReacquire Hok Ha Hpc) as [Hst Hres]; [auto |].
  pose proof (ok_point _ _ _ Hok Ha) as [Hext Hp]. rewrite Hpc in Hext. simpl in Hext.
  unfold reacquire. rewrite Ha, Hst. simpl. destruct ctx as [err |].
  { apply (settled_quiet e id a); try done. split; [done |]. simpl. rewrite Hst. auto. }
  destruct (ex_running e <? ex_maxRunning e)%Z eqn:Hlt; guards; simpl;
    rewrite (update_present _ _ _ a) by done.
  - destruct (Hc Hlt) as [Hrd Hq].
    eapply (settled_change e _ id a); [done | done | | | reflexivity | | done..].
    + eapply (ok_change e _ id a); [done | done | reflexivity | | | | | |].
      * split; simpl; [done |]. auto.
      * counted_tac.
      * unfold bounded. simpl. lia.
      * simpl. apply (lists_same _ _ _ _ _ _ Ha); [simpl; by rewrite Hst | apply Hok].
      * simpl. apply (lists_same _ _ _ _ _ _ Ha); [simpl; by rewrite Hst | apply Hok].
      * simpl. apply (tabled_same _ _ _ _ _ Ha); simpl; try done; [by rewrite Hst | apply Hok].
    + intros _. done.
    + by apply attempt_le_open.
  - eapply (settled_change e _ id a); [done | done | | | reflexivity | | done..].
    + eapply (ok_change e _ id a); [done | done | reflexivity | | | | | |].
      * split; simpl; [done |]. auto.
      * counted_tac.
      * unfold bounded. simpl. lia.
      * simpl. apply (lists_same _ _ _ _ _ _ Ha); [simpl; by rewrite Hst | apply Hok].
      * simpl. apply lists_add; [| done | apply Hok]. intros a0 Ha0. simplify_eq. by rewrite Hst.
      * simpl. apply (tabled_same _ _ _ _ _ Ha); simpl; try done; [by rewrite Hst | apply Hok].
    + intros H. simpl in H. lia.
    + by apply attempt_le_open.
Qed.

(** An attempt in the last [select] is ready, or it was granted its slot. *)
Lemma permit_point e id a :
  ok e -> ex_heap e !! id = Some a -> at_pc a = PPermitWait ->
  at_external a = false /\ at_result a = None
  /\ (at_state a = attemptReady /\ at_permit a = Some false
      \/ at_state a = attemptRunning /\ at_permit a = Some true).
Proof.
  intros Hok Ha Hpc. pose proof (ok_point _ _ _ Hok Ha) as [Hext Hp]. rewrite Hpc in Hext.
  split; [done |]. destruct (at_state a); rewrite Hpc in Hp; intuition congruence.
Qed.

Lemma settled_resumed e id a :
  settled e -> ex_heap e !! id = Some a -> at_pc a = PPermitWait -> at_state a = attemptRunning ->
  settled (update id (fun a => with_permit None (with_pc PGuest a)) e)
  /\ evolves e (update id (fun a => with_permit None (with_pc PGuest a)) e).
Proof.
  intros Hset Ha Hpc Hst. pose proof Hset as (Hok & _).
  destruct (permit_point e id a Hok Ha Hpc) as (Hext & Hres & _).
  apply (settled_quiet e id a); try done. split; [done |]. simpl. rewrite Hst. auto.
Qed.

Lemma settled_withdraw e id a :
  settled e -> ex_heap e !! id = Some a -> at_pc a = PPermitWait ->
  settled (withdraw id e) /\ evolves e (withdraw id e).
Proof.
  intros Hset Ha Hpc. pose proof Hset as (Hok & Hc & _). pose proof (ok_bounds e Hok) as Hb.
  destruct (permit_point e id a Hok Ha Hpc) as (Hext & Hres & Hcase).
  unfold withdraw. rewrite Ha. destruct Hcase as [[Hst _] | [Hst _]].
  2:{ rewrite bool_decide_eq_false_2 by (by rewrite Hst). by apply (settled_resumed e id a). }
  rewrite bool_decide_eq_true_2 by done. rewrite (update_present _ _ _ a) by done.
  eapply (settled_change e _ id a); [done | done | | | reflexivity | | done..].
  - eapply (ok_change e _ id a); [done | done | reflexivity | | | | | |].
    + split; simpl; [done |]. auto.
    + counted_tac.
    + unfold bounded. simpl. lia.
    + simpl. apply (lists_same _ _ _ _ _ _ Ha); [simpl; by rewrite Hst | apply Hok].
    + simpl. apply (lists_remove _ _ _ _ _ _ Ha); [done | apply Hok].
    + simpl. apply (tabled_same _ _ _ _ _ Ha); simpl; try done; [by rewrite Hst | apply Hok].
  - intros Hlt. destruct (Hc Hlt) as [Hr Hq]. simpl. rewrite Hr. by split.
  - by apply attempt_le_open.
Qed.

(** A Guest point: the attempt is live and holds no slot. *)
Lemma guest_point e id a :
  ok e -> ex_heap e !! id = Some a -> at_pc a = PGuest ->
  live (at_state a) = true /\ at_external a = false.
Proof.
  intros Hok Ha Hpc. pose proof (ok_point _ _ _ Hok Ha) as [Hext Hp]. rewrite Hpc in Hext.
  split; [| done]. destruct (at_state a); rewrite Hpc in Hp; intuition congruence.
Qed.

Lemma settled_step e e' : settled e -> exec_step e e' -> settled e' /\ evolves e e'.
Proof.
  intros Hset Hs. pose proof Hset as (Hok & _). pose proof (ok_bounds e Hok) as Hb. destruct Hs.
  - by eapply settled_admit.
  - unfold Cancel. destruct (bool_decide (runID = "")); [by split |].
    destruct controller; [by split |]. by apply settled_cancel.
  - by apply settled_close.
  - match goal with H : ex_heap e !! id = Some a |- _ => pose proof (ok_point e id a Hok H) as Hp end.
    by apply (settled_quiet e id a).
  - by apply settled_abort.
  - by eapply settled_yield.
  - destruct (waiting_point e id a PTokenWait Hok) as [Hst Hres]; [done | done | auto |].
    pose proof (ok_point e id a Hok) as Hp. destruct Hp as [Hext _]; [done |].
    apply (settled_slot e id a); try done; [lia | | by left].
    match goal with H : at_pc a = _ |- _ => rewrite H in Hext end. by rewrite Hext.
  - destruct (waiting_point e id a PTokenWait Hok) as [Hst Hres]; [done | done | auto |].
    pose proof (ok_point e id a Hok) as Hp. destruct Hp as [Hext _]; [done |].
    match goal with H : at_pc a = _ |- _ => rewrite H in Hext end.
    apply (settled_quiet e id a); try done. split; [done |]. simpl. rewrite Hst. auto.
  - destruct (waiting_point e id a PTool Hok) as [Hst Hres]; [done | done | auto |].
    pose proof (ok_point e id a Hok) as Hp. destruct Hp as [Hext _]; [done |].
    match goal with H : at_pc a = _ |- _ => rewrite H in Hext end.
    unfold give_slot. replace (ex_external e - 1)%Z with (ex_external e + -1)%Z by lia.
    apply (settled_slot e id a); try done; [lia | by rewrite Hext | by right].
  - by apply (settled_reacquire e ctx id a).
  - destruct (permit_point e id a Hok) as (_ & _ & [[_ Hperm] | [Hst _]]); [done | done | congruence |].
    by apply (settled_resumed e id a).
  - by apply (settled_withdraw e id a).
  - destruct (guest_point e id a Hok) as [Hlive Hext]; [done | done |]. by apply (settled_finish e id a).
Qed.

Lemma settled_new limits e : NewExecutor limits = Ok e -> settled e.
Proof.
  unfold NewExecutor. destruct (if (l_MaxRunning limits =? 0)%Z then _ else _) as [maxRunning | err];
    simpl; [| done].
  match goal with |- (if ?b then _ else _) = _ -> _ => destruct b eqn:Hbad end; [done |].
  guards. intros [= <-].
  assert (forall st, lists [] st ∅) as Hl.
  { intros st. split; [constructor |]. intros id. split; [intros Hin; by apply elem_of_nil in Hin |].
    intros (a & Ha & _). by rewrite lookup_empty in Ha. }
  split; [| split].
  - split; simpl; try done; try (by unfold count; rewrite map_sum_empty).
    + intros r id. rewrite lookup_empty. split; [done |]. intros (a & Ha & _).
      by rewrite lookup_empty in Ha.
    + lia.
  - intros _. simpl. auto.
  - split; simpl; [done |]. by intros [? _].
Qed.

Lemma reachable_settled limits e : exec_reachable limits e -> settled e.
Proof.
  intros (e0 & H0 & Hr). apply settled_new in H0.
  induction Hr as [| e1 e2 e3 Hs Hr IH]; [done |]. apply IH. by eapply settled_step.
Qed.

Lemma steps_evolve e e' : settled e -> rtc exec_step e e' -> evolves e e'.
Proof.
  intros Hset Hr. induction Hr as [| e1 e2 e3 Hs Hr IH]; [reflexivity |].
  destruct (settled_step _ _ Hset Hs) as [Hset2 He]. etrans; [exact He | by apply IH].
Qed.
#[export] Hint Resolve reachable_settled : pysolate.
