(* ===== verification/ExecutorProps.v ===== *)
(** * ExecutorProps: what the executor promises

    Properties of every state the callers, the contexts and the attempts'
    goroutines can bring an executor to, in any interleaving. *)

From S2P Require Import Prelude Errors Bridge Runner Executor ExecutorSpec.

(** ** Counting through the table *)

(** A sum over the objects of a heap that a table names, taken through the
    table. *)
Lemma table_sum {A} (key : A -> string) (named : A -> bool) (f : A -> N)
    (m : gmap string nat) (h : gmap nat A) :
  (forall r id, m !! r = Some id <-> exists a, h !! id = Some a /\ key a = r /\ named a = true) ->
  (forall a, named a = false -> f a = 0%N) ->
  map_sum (fun _ id => from_option f 0%N (h !! id)) m = map_sum (fun _ a => f a) h.
Proof.
  intros Hm Hf. revert m Hm. induction h as [| id a h Hid IH] using map_ind; intros m Hm.
  { rewrite map_sum_empty. apply map_sum_zero. intros r id _. by rewrite lookup_empty. }
  rewrite map_sum_insert by done. destruct (named a) eqn:Hn.
  - assert (m !! key a = Some id) as Hk.
    { apply Hm. exists a. by rewrite lookup_insert_eq. }
    rewrite (map_sum_delete _ m (key a) id Hk), lookup_insert_eq. simpl. f_equal.
    rewrite <- (IH (delete (key a) m)).
    + apply map_sum_ext. intros r x Hr. destruct (decide (r = key a)) as [-> |].
      { by rewrite lookup_delete_eq in Hr. }
      rewrite lookup_delete_ne in Hr by done. rewrite lookup_insert_ne; [done |].
      intros <-. apply Hm in Hr as (b & Hb & Hkb & _). rewrite lookup_insert_eq in Hb. congruence.
    + intros r x. destruct (decide (r = key a)) as [-> | Hr].
      * rewrite lookup_delete_eq. split; [done |]. intros (b & Hb & Hkb & Hnb).
        assert (x <> id) by (intros ->; congruence).
        assert (m !! key a = Some x) by (apply Hm; exists b; by rewrite lookup_insert_ne).
        congruence.
      * rewrite lookup_delete_ne by done. rewrite (Hm r x).
        split; intros (b & Hb & Hkb & Hnb); exists b; (split; [| done]).
        -- rewrite lookup_insert in Hb. destruct (decide (id = x)); [congruence | done].
        -- rewrite lookup_insert_ne; [done |]. intros <-. congruence.
  - rewrite (Hf a Hn). rewrite <- (IH m).
    + simpl. apply map_sum_ext. intros r x Hr. rewrite lookup_insert_ne; [done |].
      intros <-. apply Hm in Hr as (b & Hb & _ & Hnb). rewrite lookup_insert_eq in Hb. congruence.
    + intros r x. rewrite (Hm r x). split; intros (b & Hb & Hkb & Hnb); exists b; (split; [| done]).
      * rewrite lookup_insert in Hb. destruct (decide (id = x)); [congruence | done].
      * rewrite lookup_insert_ne; [done |]. intros <-. congruence.
Qed.

Lemma table_count_exact st e :
  ok e -> st <> attemptDone -> table_count st e = count (in_state st) (ex_heap e).
Proof.
  intros Hok Hst. unfold table_count, count.
  rewrite <- (table_sum at_runID (fun a => negb (in_state attemptDone a))
                (fun a => if in_state st a then 1%N else 0%N) (ex_attempts e) (ex_heap e)).
  - apply map_sum_ext. intros r id _. by destruct (ex_heap e !! id).
  - intros r id. rewrite (ok_table e Hok r id). unfold in_state.
    split; intros (a & Ha & Hr & Hs); exists a; (split; [done |]); (split; [done |]).
    + by rewrite bool_decide_eq_false_2.
    + by guards.
  - intros a Hn. unfold in_state in *. guards. rewrite bool_decide_eq_false_2; congruence.
Qed.

(** ** The loop's fuel *)

Lemma schedule_fuel_enough e :
  forall n k, (length (ex_ready e) + length (ex_queue e) < n)%nat ->
              (length (ex_ready e) + length (ex_queue e) < k)%nat -> schedule n e = schedule k e.
Proof.
  intros n. revert e. induction n as [| n IH]; intros e k Hn Hk; [lia |].
  destruct k as [| k]; [lia |]. simpl.
  destruct (ex_running e <? ex_maxRunning e)%Z; simpl; [| done].
  destruct (ex_resident e <? ex_maxResident e)%Z; simpl;
    destruct (ex_ready e) as [| r ready] eqn:Hr; destruct (ex_queue e) as [| q queue] eqn:Hq;
    simpl in Hn, Hk |- *; try done;
    repeat (first [ done
                  | apply IH; simpl; rewrite ?Hr, ?Hq; simpl;
                    repeat match goal with
                    | |- context [remove_first ?x ?l] =>
                        pose proof (remove_first_length x l); generalize dependent (remove_first x l); intros
                    end; lia
                  | match goal with |- context [ex_heap e !! ?x] => destruct (ex_heap e !! x) as [? |] end
                  | match goal with |- context [at_ctx ?a] => destruct (at_ctx a) end
                  | match goal with
                    | |- context [bool_decide (at_state ?a = ?s)] =>
                        destruct (bool_decide (at_state a = s))
                    | |- context [(ex_readyBurst e <? maxReadyBurst)%Z] =>
                        destruct (ex_readyBurst e <? maxReadyBurst)%Z
                    end; simpl ]).
Qed.

(** ** Witnesses of a count *)

Lemma count_witness p (h : gmap nat Attempt) :
  (0 < count p h)%N -> exists id a, h !! id = Some a /\ p a = true.
Proof.
  unfold count. induction h as [| id a h Hid IH] using map_ind; [by rewrite map_sum_empty |].
  rewrite map_sum_insert by done. destruct (p a) eqn:Hp.
  - intros _. exists id, a. by rewrite lookup_insert_eq.
  - intros Hlt. destruct IH as (x & b & Hb & Hpb); [lia |]. exists x, b.
    rewrite lookup_insert_ne; [done | congruence].
Qed.

(** The limits of a new executor are positive where the scheduler needs it. *)
Lemma new_limits limits e :
  NewExecutor limits = Ok e ->
  (0 < ex_maxRunning e /\ ex_maxRunning e <= ex_maxResident e /\ 0 < ex_maxInflight e)%Z.
Proof.
  unfold NewExecutor. destruct (if (l_MaxRunning limits =? 0)%Z then _ else _) as [maxRunning | err];
    simpl; [| done].
  match goal with |- (if ?b then _ else _) = _ -> _ => destruct b eqn:Hbad end; [done |].
  guards. intros [= <-]. simpl. lia.
Qed.

Lemma reachable_limits limits e :
  exec_reachable limits e -> exists e0, NewExecutor limits = Ok e0 /\ limits_of e = limits_of e0.
Proof.
  intros (e0 & H0 & Hr). exists e0. split; [done |].
  apply (ev_limits e0 e), steps_evolve; [by eapply settled_new | done].
Qed.

Lemma reachable_positive limits e :
  exec_reachable limits e ->
  (0 < ex_maxRunning e /\ ex_maxRunning e <= ex_maxResident e /\ 0 < ex_maxInflight e)%Z.
Proof.
  intros (e0 & H0 & Hl)%reachable_limits. apply new_limits in H0. unfold limits_of in Hl.
  injection Hl as -> -> _ ->. done.
Qed.

(** ** What an attempt's goroutine can do on its own *)

(** The goroutine of the attempt is not blocked: it runs the Guest, a Host
    callback or a locked section, or what its [select] waits for is there. *)
Definition unblocked (e : Executor) (a : Attempt) : bool :=
  match at_pc a with
  | PGuest | PTool | PReacquire => true
  | PTokenWait => (ex_external e <? ex_maxInflight e)%Z
  | PPermitWait => bool_decide (at_permit a = Some true)
  | PNotStarted | PFinished => false
  end.

Lemma unblocked_steps e id a :
  ex_heap e !! id = Some a -> ok e -> unblocked e a = true -> exists e', exec_step e e'.
Proof.
  unfold unblocked. intros Ha Hok. destruct (at_pc a) eqn:Hpc; intros Hu; guards; try done.
  - eexists. by apply (step_finish e id a no_result None).
  - eexists. by apply (step_take e id a).
  - eexists. by apply (step_give e id a).
  - eexists. by apply (step_reacquire e id a None).
  - eexists. by apply (step_permit e id a).
Qed.

Lemma running_unblocked e :
  ok e -> (0 < ex_running e)%Z ->
  exists id a, ex_heap e !! id = Some a /\ unblocked e a = true.
Proof.
  intros Hok Hlt. rewrite (ok_running e Hok) in Hlt.
  destruct (count_witness (in_state attemptRunning) (ex_heap e)) as (id & a & Ha & Hst); [lia |].
  exists id, a. split; [done |]. unfold in_state in Hst. guards.
  pose proof (ok_point _ _ _ Hok Ha) as [_ Hp]. rewrite Hst in Hp. unfold unblocked.
  destruct Hp as [[-> | [-> Hperm]] _]; [done |]. by apply bool_decide_eq_true_2.
Qed.

Lemma live_unblocked e id a :
  ok e -> conserving e -> (0 < ex_maxRunning e)%Z -> (0 < ex_maxInflight e)%Z ->
  ex_heap e !! id = Some a -> live (at_state a) = true ->
  exists id a, ex_heap e !! id = Some a /\ unblocked e a = true.
Proof.
  intros Hok Hc Hr Hi Ha Hl. pose proof (ok_point _ _ _ Hok Ha) as [_ Hp].
  destruct (at_state a) eqn:Hst; try done.
  - apply running_unblocked; [done |]. rewrite (ok_running e Hok).
    pose proof (count_pos (in_state attemptRunning) _ id a Ha) as Hpos.
    unfold in_state in Hpos at 1. rewrite bool_decide_eq_true_2 in Hpos by done. specialize (Hpos eq_refl). lia.
  - destruct Hp as [Hpc _]. destruct (ex_external e <? ex_maxInflight e)%Z eqn:Hx.
    + exists id, a. split; [done |]. unfold unblocked. by destruct Hpc as [-> | [-> | [-> | ->]]].
    + guards. rewrite (ok_external e Hok) in Hx.
      destruct (count_witness at_external (ex_heap e)) as (x & b & Hb & Hext); [lia |].
      exists x, b. split; [done |]. pose proof (ok_point _ _ _ Hok Hb) as [Hpx _].
      rewrite Hext in Hpx. unfold unblocked. symmetry in Hpx. apply bool_decide_eq_true_1 in Hpx. by rewrite Hpx.
  - apply running_unblocked; [done |].
    destruct (decide (ex_running e < ex_maxRunning e)%Z) as [Hlt | Hge]; [| lia].
    destruct (Hc Hlt) as [Hnil _]. pose proof (proj2 (ok_ready e Hok) id) as Hin.
    rewrite Hnil in Hin. destruct Hin as [_ Hin].
    assert (id ∈ @nil nat) as Habs by (apply Hin; eauto). by apply elem_of_nil in Habs.
Qed.

(** ** An executor at work *)

(** One attempt executes at a time, two may be resident, one tool call may be
    in flight and one submission may wait. *)
Definition demo_limits : Limits := mkLimits 1 0 2 1 1.

Definition or_stay (r : res error Executor) (e : Executor) : Executor :=
  match r with Ok e' => e' | Err _ => e end.

Definition demo_new : Executor :=
  mkExecutor 1 2 1 1 0 false false [] [] 0 0 0 ∅ ∅.
Definition submit (runID : string) (id : nat) (e : Executor) : Executor :=
  or_stay (Admit (Some None) runID id e) e.

(** The first attempt calls a tool, and the second takes its running slot. *)
Definition demo_two : Executor := submit "b" 1 (submit "a" 0 demo_new).
Definition demo_yielded : Executor := or_stay (yield 0 demo_two) demo_two.
Definition demo_tool : Executor := take_slot 0 demo_yielded.

(** The tool has returned, and a third submission waits. *)
Definition demo_returned : Executor := (reacquire None 0 (give_slot 0 demo_tool)).2.
Definition demo_ready : Executor := submit "c" 2 demo_returned.

(** The second attempt is done. *)
Definition demo_done : Executor := finish 1 no_result None demo_ready.

Lemma admit_step e runID id :
  ex_heap e !! id = None -> is_ok (Admit (Some None) runID id e) = true ->
  exec_step e (submit runID id e).
Proof.
  intros Hid Hok. unfold submit. destruct (Admit _ _ _ e) as [e' | err] eqn:Ha; [| done].
  by apply (step_admit e e' (Some None) runID id).
Qed.

Lemma attempt_of (e : Executor) (id : nat) (P : Attempt -> bool) :
  match ex_heap e !! id with Some a => P a | None => false end = true ->
  exists a, ex_heap e !! id = Some a /\ P a = true.
Proof. destruct (ex_heap e !! id) as [a |]; [eauto | done]. Qed.

Definition at_point (pc : point) (a : Attempt) : bool := bool_decide (at_pc a = pc).

Lemma demo_two_reachable : rtc exec_step demo_new demo_two.
Proof.
  eapply rtc_l; [apply (admit_step _ "a" 0); by vm_compute |].
  eapply rtc_once. apply (admit_step _ "b" 1); by vm_compute.
Qed.

Lemma demo_tool_steps : rtc exec_step demo_two demo_tool.
Proof.
  destruct (attempt_of demo_two 0 (at_point PGuest)) as (a & Ha & Hpc); [by vm_compute |].
  destruct (attempt_of demo_yielded 0 (at_point PTokenWait)) as (b & Hb & Hpb); [by vm_compute |].
  unfold at_point in *. guards. apply (rtc_l _ _ demo_yielded).
  - apply (step_yield _ _ 0 a); [done.. | by vm_compute].
  - eapply rtc_once. apply (step_take _ 0 b); [done.. | by vm_compute].
Qed.

Lemma demo_tool_reachable : exec_reachable demo_limits demo_tool.
Proof.
  exists demo_new. split; [reflexivity |].
  transitivity demo_two; [apply demo_two_reachable | apply demo_tool_steps].
Qed.

Lemma demo_returned_reachable : exec_reachable demo_limits demo_returned.
Proof.
  destruct demo_tool_reachable as (e0 & H0 & Hr). exists e0. split; [done |].
  etrans; [exact Hr |].
  destruct (attempt_of demo_tool 0 (at_point PTool)) as (a & Ha & Hpc); [by vm_compute |].
  destruct (attempt_of (give_slot 0 demo_tool) 0 (at_point PReacquire)) as (b & Hb & Hpb);
    [by vm_compute |].
  unfold at_point in *. guards. eapply rtc_l; [by apply (step_give _ 0 a) |].
  eapply rtc_once. by apply (step_reacquire _ 0 b None).
Qed.

Lemma reachable_then limits e e' :
  exec_reachable limits e -> rtc exec_step e e' -> exec_reachable limits e'.
Proof. intros (e0 & H0 & Hr) Hs. exists e0. split; [done | by etrans]. Qed.

Lemma demo_ready_reachable : exec_reachable demo_limits demo_ready.
Proof.
  apply (reachable_then _ _ _ demo_returned_reachable), rtc_once.
  apply (admit_step _ "c" 2); by vm_compute.
Qed.

Lemma demo_done_steps : rtc exec_step demo_ready demo_done.
Proof.
  destruct (attempt_of demo_ready 1 (at_point PGuest)) as (a & Ha & Hpc); [by vm_compute |].
  unfold at_point in *. guards. eapply rtc_once. by apply (step_finish _ 1 a).
Qed.

(** The loop touches only attempts that are queued or ready. *)
Lemma schedule_frozen n e id a :
  ex_heap e !! id = Some a -> at_state a <> attemptQueued -> at_state a <> attemptReady ->
  ex_heap (schedule n e) !! id = Some a.
Proof.
  intros Ha Hq Hr. revert e Ha. induction n as [| n IH]; intros e Ha; [done |]. simpl.
  assert (forall x f e1, ex_heap e1 = ex_heap e -> x <> id -> ex_heap (update x f e1) !! id = Some a) as Hup.
  { intros x f e1 Hh Hx. unfold update. simpl. by rewrite Hh, lookup_alter_ne. }
  repeat first
    [ done
    | apply IH; first [ done | apply Hup; [done |]; intros ->; simplify_eq; done ]
    | case_match; simplify_eq; guards ].
Qed.

(** ** The properties *)

(** C14.  In every state that callers, contexts and attempts can bring an
    executor to, the statistics are exact: the running, resident, waiting,
    ready and queued figures are the numbers of attempts in those states and
    the in-flight figure the number of Host callbacks; and running, resident,
    in-flight and queued never exceed the configured limits. *)
Theorem statistics_exact_and_bounded limits e e0 :
  exec_reachable limits e -> NewExecutor limits = Ok e0 ->
  st_Running (Stats e) = Z.of_N (count (in_state attemptRunning) (ex_heap e))
  /\ st_Resident (Stats e) = Z.of_N (count is_live (ex_heap e))
  /\ st_InflightTools (Stats e) = Z.of_N (count at_external (ex_heap e))
  /\ st_WaitingLive (Stats e) = count (in_state attemptWaitingLive) (ex_heap e)
  /\ st_Ready (Stats e) = count (in_state attemptReady) (ex_heap e)
  /\ (forall id, id ∈ ex_queue e <-> exists a, ex_heap e !! id = Some a /\ at_state a = attemptQueued)
  /\ (st_Running (Stats e) <= ex_maxRunning e0 /\ st_Resident (Stats e) <= ex_maxResident e0
      /\ st_InflightTools (Stats e) <= ex_maxInflight e0 /\ st_Queued (Stats e) <= ex_maxQueued e0)%Z.
Proof.
  intros Hr H0. destruct (reachable_settled _ _ Hr) as (Hok & _ & _).
  destruct (reachable_limits _ _ Hr) as (e1 & H1 & Hl). assert (e1 = e0) as -> by congruence.
  unfold limits_of in Hl. injection Hl as <- <- <- <-. pose proof (ok_bounds e Hok) as Hb. simpl.
  rewrite !table_count_exact by done.
  split; [apply Hok |]. split; [apply Hok |]. split; [apply Hok |]. do 2 (split; [done |]).
  split; [apply (ok_queue e Hok) | done].
Qed.

Lemma statistics_exact_and_bounded_witness :
  Stats demo_ready = mkStats 1 2 0 0 1 1
  /\ st_Ready (Stats demo_ready) = count (in_state attemptReady) (ex_heap demo_ready).
Proof.
  split; [by vm_compute |].
  apply (statistics_exact_and_bounded demo_limits demo_ready demo_new demo_ready_reachable eq_refl).
Defined.

(** Work conservation: in every reachable state where a running slot is
    free, no attempt waits to resume, and no submission waits unless every
    resident slot is taken. *)
Theorem slots_are_not_left_idle limits e :
  exec_reachable limits e -> (ex_running e < ex_maxRunning e)%Z ->
  ex_ready e = [] /\ count (in_state attemptReady) (ex_heap e) = 0%N
  /\ ((ex_resident e < ex_maxResident e)%Z -> ex_queue e = []).
Proof.
  intros Hr Hlt. destruct (reachable_settled _ _ Hr) as (Hok & Hc & _).
  destruct (Hc Hlt) as [Hnil Hq]. split; [done |]. split; [| intros; destruct Hq; [lia | done]].
  destruct (decide (count (in_state attemptReady) (ex_heap e) = 0%N)) as [| Hn]; [done |].
  destruct (count_witness (in_state attemptReady) (ex_heap e)) as (id & a & Ha & Hst); [lia |].
  unfold in_state in Hst. guards.
  assert (id ∈ ex_ready e) as Hin by (apply (proj2 (ok_ready e Hok)); eauto).
  rewrite Hnil in Hin. by apply elem_of_nil in Hin.
Qed.

Definition demo_waiting : Executor := take_slot 0 (or_stay (yield 0 (submit "a" 0 demo_new)) demo_new).

Lemma demo_waiting_reachable : exec_reachable demo_limits demo_waiting.
Proof.
  exists demo_new. split; [reflexivity |].
  destruct (attempt_of (submit "a" 0 demo_new) 0 (at_point PGuest)) as (a & Ha & Hpc); [by vm_compute |].
  destruct (attempt_of (or_stay (yield 0 (submit "a" 0 demo_new)) demo_new) 0 (at_point PTokenWait))
    as (b & Hb & Hpb); [by vm_compute |].
  unfold at_point in *. guards.
  eapply rtc_l; [apply (admit_step _ "a" 0); by vm_compute |].
  apply (rtc_l _ _ (or_stay (yield 0 (submit "a" 0 demo_new)) demo_new)).
  - apply (step_yield _ _ 0 a); [done.. | by vm_compute].
  - eapply rtc_once. apply (step_take _ 0 b); [done.. | by vm_compute].
Qed.

Lemma slots_are_not_left_idle_witness :
  (ex_running demo_waiting < ex_maxRunning demo_waiting)%Z /\ ex_queue demo_waiting = [].
Proof.
  split; [by vm_compute |].
  apply (slots_are_not_left_idle demo_limits demo_waiting demo_waiting_reachable); by vm_compute.
Defined.

(** C15.  The executor cannot deadlock: in every reachable state with an
    unfinished attempt, the goroutine of some attempt can take a step of its
    own - not a submission, a cancellation or the end of a context. *)
Theorem executor_never_stuck limits e id a :
  exec_reachable limits e -> ex_heap e !! id = Some a -> at_result a = None ->
  exists id' a' e', ex_heap e !! id' = Some a' /\ unblocked e a' = true /\ exec_step e e'.
Proof.
  intros Hr Ha Hres. destruct (reachable_settled _ _ Hr) as (Hok & Hc & _).
  destruct (reachable_positive _ _ Hr) as (Hrun & Hle & Hin).
  assert (exists id' a', ex_heap e !! id' = Some a' /\ unblocked e a' = true) as (x & b & Hb & Hu).
  2:{ destruct (unblocked_steps e x b Hb Hok Hu) as [e' He]. by exists x, b, e'. }
  destruct (live (at_state a)) eqn:Hlive; [by eapply live_unblocked |].
  destruct (at_state a) eqn:Hst; try done.
  - destruct (decide (ex_running e < ex_maxRunning e)%Z) as [Hlt | Hge].
    2:{ apply running_unblocked; [done | lia]. }
    destruct (Hc Hlt) as [_ [Hfull | Hnil]].
    + rewrite (ok_resident e Hok) in Hfull.
      destruct (count_witness is_live (ex_heap e)) as (x & b & Hb & Hlb); [lia |].
      by apply (live_unblocked e x b).
    + assert (id ∈ ex_queue e) as Hq by (apply (proj2 (ok_queue e Hok)); eauto).
      rewrite Hnil in Hq. by apply elem_of_nil in Hq.
  - pose proof (ok_point _ _ _ Hok Ha) as [_ Hp]. rewrite Hst, Hres in Hp. by destruct Hp as [_ []].
Qed.

Lemma executor_never_stuck_witness :
  exists id' a' e',
    ex_heap demo_ready !! id' = Some a' /\ unblocked demo_ready a' = true /\ exec_step demo_ready e'.
Proof.
  destruct (attempt_of demo_ready 2 (fun a => bool_decide (at_result a = None))) as (a & Ha & Hres);
    [by vm_compute |].
  apply bool_decide_eq_true in Hres.
  exact (executor_never_stuck demo_limits demo_ready 2 a demo_ready_reachable Ha Hres).
Defined.

(** C16.  An attempt completes once: from a reachable state where it is done,
    every later state has the same attempt with the same result, done, out of
    the table of runs. *)
Theorem attempt_result_is_final limits e e' id a r :
  exec_reachable limits e -> rtc exec_step e e' -> ex_heap e !! id = Some a ->
  at_result a = Some r ->
  exists a', ex_heap e' !! id = Some a' /\ at_runID a' = at_runID a /\ at_result a' = Some r
    /\ at_state a' = attemptDone /\ forall runID, ex_attempts e' !! runID <> Some id.
Proof.
  intros Hr Hs Ha Hres. pose proof (reachable_settled _ _ Hr) as Hset.
  destruct (ev_heap _ _ (steps_evolve e e' Hset Hs) id a Ha) as (a' & Ha' & Hrun & Hfinal & _).
  rewrite Hres in Hfinal. specialize (Hfinal ltac:(by eexists)).
  pose proof (reachable_then _ _ _ Hr Hs) as Hr'.
  destruct (reachable_settled _ _ Hr') as (Hok' & _).
  pose proof (ok_point _ _ _ Hok' Ha') as [_ Hp]. rewrite Hfinal in Hp.
  assert (at_state a' = attemptDone) as Hdone.
  { destruct (at_state a'); try (by destruct Hp as (? & ?)); try (by destruct Hp as (? & ? & ?)). }
  exists a'. split_and!; try done. intros runID Ht.
  apply (ok_table e' Hok') in Ht as (b & Hb & _ & Hnd). simplify_eq.
Qed.

Lemma demo_done_reachable : exec_reachable demo_limits demo_done.
Proof. apply (reachable_then _ _ _ demo_ready_reachable demo_done_steps). Qed.

Lemma demo_close_step : rtc exec_step demo_done (Close demo_done).
Proof. eapply rtc_once. apply step_close. Qed.

Lemma attempt_result_is_final_witness :
  exists a', ex_heap (Close demo_done) !! 1%nat = Some a' /\ at_result a' = Some (no_result, None).
Proof.
  destruct (attempt_of demo_done 1 (fun a => bool_decide (at_state a = attemptDone)))
    as (a & Ha & _); [by vm_compute |].
  assert (at_result a = Some (no_result, None)) as Hres.
  { assert (option_map at_result (ex_heap demo_done !! 1%nat) = Some (Some (no_result, None))) as H
      by (by vm_compute). rewrite Ha in H. by injection H. }
  destruct (attempt_result_is_final demo_limits demo_done (Close demo_done) 1 a _
              demo_done_reachable demo_close_step Ha Hres) as (a' & Ha' & _ & Hr & _).
  by exists a'.
Defined.

(** A run has at most one unfinished attempt in an executor, and the
    table of runs finds exactly that one. *)
Theorem one_attempt_per_run limits e id1 id2 a1 a2 :
  exec_reachable limits e -> ex_heap e !! id1 = Some a1 -> ex_heap e !! id2 = Some a2 ->
  at_result a1 = None -> at_result a2 = None -> at_runID a1 = at_runID a2 ->
  id1 = id2 /\ ex_attempts e !! at_runID a1 = Some id1.
Proof.
  intros Hr H1 H2 Hres1 Hres2 Heq. destruct (reachable_settled _ _ Hr) as (Hok & _).
  assert (forall id a, ex_heap e !! id = Some a -> at_result a = None ->
            ex_attempts e !! at_runID a = Some id) as Ht.
  { intros id a Ha Hn. apply (table_of e id a Hok Ha). intros Hd.
    pose proof (ok_point _ _ _ Hok Ha) as [_ Hp]. rewrite Hd, Hn in Hp. by destruct Hp as [_ []]. }
  pose proof (Ht id1 a1 H1 Hres1) as Ht1. pose proof (Ht id2 a2 H2 Hres2) as Ht2.
  rewrite <- Heq in Ht2. split; [congruence | done].
Qed.

Lemma one_attempt_per_run_witness : ex_attempts demo_ready !! "b" = Some 1%nat.
Proof.
  destruct (attempt_of demo_ready 1 (fun a => bool_decide (at_result a = None) && bool_decide (at_runID a = "b")))
    as (a & Ha & Hres); [by vm_compute |]. guards.
  match goal with H : at_runID a = _ |- _ => rewrite <- H end.
  by apply (one_attempt_per_run demo_limits demo_ready 1 1 a a demo_ready_reachable).
Defined.

(** A closed executor drains: in every reachable state, [drained] is
    closed exactly when the executor is closed and every attempt it ever
    admitted has completed. *)
Theorem drained_when_closed_and_empty limits e :
  exec_reachable limits e ->
  (ex_drained e = true <->
   ex_closed e = true /\ forall id a, ex_heap e !! id = Some a -> at_state a = attemptDone).
Proof.
  intros Hr. destruct (reachable_settled _ _ Hr) as (Hok & _ & Hd).
  transitivity (ex_closed e = true /\ ex_attempts e = ∅); [exact Hd |].
  split; intros [Hc Hall]; (split; [done |]).
  - intros id a Ha. destruct (decide (at_state a = attemptDone)) as [| Hnd]; [done |].
    by destruct (tabled_nonempty _ _ _ Hok Ha Hnd).
  - apply map_empty. intros r. destruct (ex_attempts e !! r) as [id |] eqn:Ht; [| done].
    apply (ok_table e Hok) in Ht as (a & Ha & _ & Hnd). by apply Hall in Ha.
Qed.

Lemma drained_when_closed_and_empty_witness :
  ex_drained (Close demo_done) = false
  /\ ~ (forall id a, ex_heap (Close demo_done) !! id = Some a -> at_state a = attemptDone).
Proof.
  pose proof (reachable_then _ _ _ demo_done_reachable demo_close_step) as Hr.
  split; [by vm_compute |]. intros Hall.
  assert (ex_drained (Close demo_done) = true) as Hd.
  { apply (drained_when_closed_and_empty demo_limits _ Hr). by split. }
  by vm_compute in Hd.
Defined.

(** No starvation of submissions: when a running and a resident slot are
    free and [maxReadyBurst] attempts in a row have been resumed, the head of
    the queue is the next to run, whatever is ready. *)
Theorem queue_head_runs_after_burst e next queue a :
  ok e -> (ex_running e < ex_maxRunning e)%Z -> (ex_resident e < ex_maxResident e)%Z ->
  (maxReadyBurst <= ex_readyBurst e)%Z -> ex_queue e = next :: queue ->
  ex_heap e !! next = Some a -> at_ctx a = None ->
  exists a', ex_heap (scheduleLocked e) !! next = Some a' /\ at_state a' = attemptRunning
    /\ at_pc a' = PGuest.
Proof.
  intros Hok Hrun Hres Hburst Hqueue Ha Hctx.
  destruct (head_state _ _ _ next queue (ok_queue e Hok) Hqueue) as (a0 & Ha0 & Hst).
  rewrite Ha in Ha0. injection Ha0 as <-.
  exists (with_state attemptRunning PGuest a). split; [| done].
  unfold scheduleLocked, schedule_fuel. simpl. rewrite (proj2 (Z.ltb_lt _ _) Hrun),
    (proj2 (Z.ltb_lt _ _) Hres), (proj2 (Z.ltb_ge _ _) Hburst), Hqueue. simpl.
  rewrite Ha, Hst, Hctx. simpl.
  destruct (ex_ready e); (apply schedule_frozen; [| done..]); unfold update; simpl;
    by rewrite lookup_alter_eq, Ha.
Qed.

(** Two attempts are ready to go when the slot of a third is released. *)
Definition demo_burst : Executor :=
  set_ready (ex_ready demo_returned) maxReadyBurst
    (match ex_heap demo_ready !! 1%nat with
     | Some a =>
         set_heap (<[1%nat := complete no_result None PFinished a]> (ex_heap demo_ready))
           (set_attempts (delete (at_runID a) (ex_attempts demo_ready)) (release_live 1 a demo_ready))
     | None => demo_ready
     end).

Lemma ok_set_burst e burst : ok e -> ok (set_ready (ex_ready e) burst e).
Proof. by intros []. Qed.

Lemma demo_burst_ok : ok demo_burst.
Proof.
  destruct (reachable_settled _ _ demo_ready_reachable) as (Hok & _).
  destruct (attempt_of demo_ready 1 (fun a => live (at_state a) && negb (at_external a)))
    as (a & Ha & [Hlive Hext]%andb_prop); [by vm_compute |]. guards.
  pose proof (ok_set_burst _ maxReadyBurst (ok_finish demo_ready 1 a no_result None Hok Ha Hlive Hext)) as H.
  unfold demo_burst. rewrite Ha. simpl in H.
  replace (ex_ready demo_returned) with (ex_ready (release_live 1 a demo_ready)); [exact H |].
  unfold release_live. by destruct (at_state a).
Qed.

Lemma queue_head_runs_after_burst_witness :
  ex_ready demo_burst = [0%nat] /\ ex_queue demo_burst = [2%nat]
  /\ exists a', ex_heap (scheduleLocked demo_burst) !! 2%nat = Some a' /\ at_state a' = attemptRunning.
Proof.
  split; [by vm_compute |]. split; [by vm_compute |].
  destruct (attempt_of demo_burst 2 (fun a => bool_decide (at_ctx a = None))) as (a & Ha & Hctx);
    [by vm_compute |]. apply bool_decide_eq_true in Hctx.
  destruct (queue_head_runs_after_burst demo_burst 2 [] a demo_burst_ok) as (a' & Ha' & Hst & _);
    [by vm_compute | by vm_compute | by vm_compute | by vm_compute | done | done | by exists a'].
Defined.

(** The scheduling loop terminates: its turns are at most the attempts
    that are ready or queued, so more fuel than [schedule_fuel] never changes
    what it does; and it stops only when no attempt can be started. *)
Theorem schedule_loop_terminates e n :
  ok e ->
  schedule (schedule_fuel e + n) e = scheduleLocked e
  /\ ok (scheduleLocked e) /\ conserving (scheduleLocked e).
Proof.
  intros Hok. split.
  - unfold scheduleLocked. apply schedule_fuel_enough; unfold schedule_fuel; lia.
  - by destruct (scheduleLocked_spec e Hok) as (H1 & H2 & _).
Qed.

Lemma schedule_loop_terminates_witness :
  ex_running demo_burst = 0%Z /\ ex_running (scheduleLocked demo_burst) = 1%Z
  /\ conserving (scheduleLocked demo_burst).
Proof.
  split; [by vm_compute |]. split; [by vm_compute |].
  apply (schedule_loop_terminates demo_burst 3 demo_burst_ok).
Defined.

(** Admission is first come, first served: a submission is started at
    once only when a running and a resident slot are free and no attempt waits
    to resume or to start; otherwise it goes to the end of the queue, and the
    attempts that wait are as before. *)
Theorem admission_never_overtakes limits e e' runID id :
  exec_reachable limits e -> ex_heap e !! id = None -> Admit (Some None) runID id e = Ok e' ->
  (ex_running e' = ex_running e + 1 /\ ex_resident e' = ex_resident e + 1
   /\ ex_ready e = [] /\ ex_queue e = [] /\ ex_queue e' = []
   /\ exists a, ex_heap e' !! id = Some a /\ at_runID a = runID /\ at_state a = attemptRunning)%Z
  \/ (ex_queue e' = ex_queue e ++ [id] /\ ex_ready e' = ex_ready e
      /\ ex_running e' = ex_running e /\ ex_resident e' = ex_resident e
      /\ exists a, ex_heap e' !! id = Some a /\ at_runID a = runID /\ at_state a = attemptQueued).
Proof.
  intros Hr Hid. destruct (reachable_settled _ _ Hr) as (Hok & Hc & _). unfold Admit.
  destruct (bool_decide (runID = "")); [done |]. destruct (ex_closed e); [done |].
  destruct (ex_attempts e !! runID); [done |].
  destruct ((ex_running e <? ex_maxRunning e)%Z && (ex_resident e <? ex_maxResident e)%Z) eqn:Hfit; guards.
  - intros [= <-]. left. destruct (Hc ltac:(lia)) as [Hnil Hq].
    assert (ex_queue e = []) as Hq' by (destruct Hq; [lia | done]).
    simpl. split_and!; try done. eexists. by rewrite lookup_insert_eq.
  - destruct (ex_maxQueued e <=? _)%Z; [done |]. intros [= <-]. right. simpl. split_and!; try done.
    eexists. by rewrite lookup_insert_eq.
Qed.

Lemma admission_never_overtakes_witness :
  exists e', Admit (Some None) "c" 2 demo_returned = Ok e' /\ ex_queue e' = ex_queue demo_returned ++ [2%nat].
Proof.
  pose proof demo_returned_reachable as Hr.
  destruct (Admit (Some None) "c" 2 demo_returned) as [e' | err] eqn:Ha.
  2:{ assert (is_ok (Admit (Some None) "c" 2 demo_returned) = true) as Hx by (by vm_compute).
      rewrite Ha in Hx. done. }
  exists e'. split; [done |].
  assert (ex_heap demo_returned !! 2%nat = None) as Hid by (by vm_compute).
  destruct (admission_never_overtakes demo_limits demo_returned e' "c" 2 Hr Hid Ha)
    as [(_ & _ & _ & Hq & _) | [Hq _]]; [| exact Hq].
  assert (ex_ready demo_returned = [0%nat]) as Hready by (by vm_compute).
  destruct (admission_never_overtakes demo_limits demo_returned e' "c" 2 Hr Hid Ha)
    as [(_ & _ & Hnil & _) | [Hq' _]]; [by rewrite Hready in Hnil | exact Hq'].
Defined.

(** [Wait] on a finished attempt reports what [Resume] reported: the same
    output, an error exactly when there was one, and an error of the same
    class - parked with the same wait and reason, blocked, failed in Python with
    the same message, or cancelled; an error of no class is passed through. *)
Theorem wait_agrees_with_resume output err :
  let '(result, resultErr) := classifyAttemptResult output err in
  let '(output', err') := attempt_wait result resultErr in
  output' = output /\ (err' = None <-> err = None) /\
  forall e, err = Some e ->
    exists e', err' = Some e' /\
      match asPark e with
      | Some p => e' = parkError (Some p) /\ errors_is ErrParked e' = true
      | None =>
          if errors_is ErrBlocked e then errors_is ErrBlocked e' = true
          else match as_python e with
          | Some m => as_python e' = Some (if bool_decide (m = "") then "attempt failed" else m)
          | None => if errors_is ErrCancelled e then e' = ESentinel ErrCancelled else e' = e
          end
      end.
Proof.
  destruct err as [e |]; simpl; [| by split_and!].
  destruct (asPark e) as [p |] eqn:Hp.
  { simpl. split_and!; [done.. |]. intros e0 [= <-]. rewrite Hp. by eexists. }
  destruct (errors_is ErrBlocked e) eqn:Hb.
  { simpl. split_and!; [done.. |]. intros e0 [= <-]. rewrite Hp, Hb. by eexists. }
  destruct (as_python e) as [m |] eqn:Hm.
  { simpl. split_and!; [done.. |]. intros e0 [= <-]. rewrite Hp, Hb, Hm. by eexists. }
  destruct (errors_is ErrCancelled e) eqn:Hc; simpl; (split_and!; [done.. |]);
    intros e0 [= <-]; rewrite Hp, Hb, Hm, Hc; by eexists.
Qed.
