(* ===== verification/Paths.v ===== *)
(** * Paths: names of workspace files ([runtime/workspace/workspace.go])

    Go's [path.Clean], [path.Dir] and [path.Join] on slash-separated names and
    [cleanGuestPath], which decides what a Guest or an ingress may name.  The
    lemmas read an accepted name as a non-empty list of ordinary components,
    on which prefixes are subtrees. *)

From S2P Require Import Prelude Errors Json.

Definition slash : ascii := "/"%char.
Definition split_slash (s : string) : list string := split_char slash s.

(** ** Package [path] *)

(** The rules of [path.Clean] on the elements of a name, over the elements
    kept so far, last first. *)
Fixpoint clean_parts (rooted : bool) (kept : list string) (parts : list string) : list string :=
  match parts with
  | [] => rev kept
  | p :: parts =>
      if bool_decide (p = "") || bool_decide (p = ".") then clean_parts rooted kept parts
      else if bool_decide (p = "..") then
        match kept with
        | [] => clean_parts rooted (if rooted then [] else [".."]) parts
        | k :: kept' =>
            if bool_decide (k = "..") then clean_parts rooted (".." :: kept) parts
            else clean_parts rooted kept' parts
        end
      else clean_parts rooted (p :: kept) parts
  end.

Definition path_Clean (name : string) : string :=
  let rooted := has_prefix "/" name in
  let parts := clean_parts rooted [] (split_slash name) in
  if rooted then "/" +:+ join_with "/" parts
  else if bool_decide (parts = []) then "." else join_with "/" parts.

(** [path.Dir]: what precedes the last slash, cleaned. *)
Definition path_Dir (name : string) : string :=
  path_Clean (join_with "/" (removelast (split_slash name) ++ [""])).

(** [path.Join] of two names that are not empty. *)
Definition path_Join (a b : string) : string := path_Clean (a +:+ "/" +:+ b).

(** [strings.TrimRight(s, "/")]. *)
Fixpoint trim_slashes (s : string) : string :=
  match s with
  | EmptyString => EmptyString
  | String c s' =>
      match trim_slashes s' with
      | EmptyString => if bool_decide (c = slash) then EmptyString else String c EmptyString
      | t => String c t
      end
  end.

(** [strings.Count(s, "/")]. *)
Fixpoint count_slash (s : string) : nat :=
  match s with
  | EmptyString => O
  | String c s' => if bool_decide (c = slash) then S (count_slash s') else count_slash s'
  end.

(** ** [cleanGuestPath] *)

Definition maxWorkspacePathBytes : N := 4096.

Definition cleanGuestPath (name : string) (maxDepth : N) (allowRoot : bool) : option string :=
  if bool_decide (name = "") || (maxWorkspacePathBytes <? slen name)%N || negb (utf8_valid name)
     || has_char (ascii_of_N 0) name || contains "\" name || has_prefix "/" name
  then None
  else
    let cleaned := path_Clean name in
    if bool_decide (cleaned = ".") then
      if allowRoot && bool_decide (name = ".") then Some cleaned else None
    else if negb (bool_decide (cleaned = name)) || bool_decide (cleaned = "..")
            || has_prefix "../" cleaned
    then None
    else if (maxDepth <? u32 (N.of_nat (count_slash cleaned) + 1))%N then None
    else if existsb (fun component => bool_decide (component = ".git")) (split_slash cleaned)
    then None
    else Some cleaned.

(** ** Splitting and joining *)

Lemma split_slash_nonempty s : split_slash s <> [].
Proof.
  unfold split_slash. destruct s as [| c s]; simpl; [done |].
  destruct (bool_decide (c = slash)); [done |]. by destruct (split_char slash s).
Qed.

Lemma join_split s : join_with "/" (split_slash s) = s.
Proof.
  unfold split_slash. induction s as [| c s IH]; [done |]. simpl.
  pose proof (split_slash_nonempty s) as Hne. unfold split_slash in Hne.
  destruct (bool_decide (c = slash)) eqn:Hc; guards; subst.
  - destruct (split_char slash s) as [| p ps]; [done |]. simpl in *. by rewrite IH.
  - destruct (split_char slash s) as [| p ps]; [done |]. rewrite <- IH. by destruct ps.
Qed.

(** A component: no slash in it. *)
Definition component (p : string) : bool := negb (has_char slash p).

Lemma split_components s : Forall (fun p => component p = true) (split_slash s).
Proof.
  unfold split_slash, component. induction s as [| c s IH]; simpl; [by repeat constructor |].
  destruct (bool_decide (c = slash)) eqn:Hc; guards; [by constructor |].
  destruct (split_char slash s) as [| p ps].
  - repeat constructor. simpl. by rewrite bool_decide_eq_false_2 by congruence.
  - inversion IH; subst. constructor; [| done]. simpl.
    by rewrite bool_decide_eq_false_2 by congruence.
Qed.

Lemma split_component p rest :
  component p = true -> split_slash (p +:+ String slash rest) = p :: split_slash rest.
Proof.
  unfold split_slash, component. induction p as [| c p IH]; intros Hp; simpl.
  - done.
  - apply negb_true_iff in Hp. simpl in Hp.
    apply orb_false_iff in Hp as [Hc Hp]. apply bool_decide_eq_false in Hc.
    rewrite bool_decide_eq_false_2 by congruence. rewrite IH by (by rewrite Hp). done.
Qed.

Lemma split_single p : component p = true -> split_slash p = [p].
Proof.
  unfold split_slash, component. induction p as [| c p IH]; intros Hp; simpl; [done |].
  apply negb_true_iff in Hp. simpl in Hp.
    apply orb_false_iff in Hp as [Hc Hp]. apply bool_decide_eq_false in Hc.
  rewrite bool_decide_eq_false_2 by congruence. by rewrite IH by (by rewrite Hp).
Qed.

Lemma split_join l :
  l <> [] -> Forall (fun p => component p = true) l -> split_slash (join_with "/" l) = l.
Proof.
  intros Hne Hl. induction Hl as [| p l Hp Hl IH]; [done |]. destruct l as [| q l].
  - by apply split_single.
  - change (join_with "/" (p :: q :: l)) with (p +:+ String slash (join_with "/" (q :: l))).
    rewrite split_component by done. by rewrite IH.
Qed.

Lemma count_slash_split s : length (split_slash s) = S (count_slash s).
Proof.
  unfold split_slash. induction s as [| c s IH]; simpl; [done |].
  destruct (bool_decide (c = slash)); simpl; [by rewrite IH |].
  destruct (split_char slash s); simpl in *; [done | by rewrite IH].
Qed.

Lemma count_slash_le s : (count_slash s <= String.length s)%nat.
Proof. induction s as [| c s IH]; simpl; [done |]. destruct (bool_decide _); lia. Qed.

(** ** What [path.Clean] returns *)

(** An element [path.Clean] keeps as it is. *)
Definition ordinary (p : string) : bool :=
  negb (bool_decide (p = "")) && negb (bool_decide (p = ".")) && negb (bool_decide (p = "..")).

Lemma clean_ordinary rooted kept parts :
  Forall (fun p => ordinary p = true) parts -> clean_parts rooted kept parts = rev kept ++ parts.
Proof.
  intros Hp. revert kept. induction Hp as [| p parts Ho _ IH]; intros kept; simpl.
  - by rewrite app_nil_r.
  - unfold ordinary in Ho. guards. rewrite !bool_decide_eq_false_2 by done. simpl.
    rewrite IH. simpl. by rewrite <- app_assoc.
Qed.

(** In a relative name, what is kept is some [..] and then ordinary elements. *)
Definition upward (kept : list string) : Prop :=
  exists n l, kept = l ++ replicate n ".." /\ Forall (fun p => ordinary p = true) l.

Lemma clean_upward kept parts :
  upward kept ->
  exists n l, clean_parts false kept parts = replicate n ".." ++ l
    /\ Forall (fun p => ordinary p = true) l.
Proof.
  revert kept. induction parts as [| p parts IH]; intros kept Hk; simpl.
  { destruct Hk as (n & l & -> & Hl). exists n, (rev l). rewrite rev_app_distr. split.
    - f_equal. clear. induction n as [| n IH]; [done |]. simpl. rewrite IH.
      by rewrite <- replicate_cons_app.
    - by apply Forall_rev. }
  destruct (bool_decide (p = "") || bool_decide (p = ".")) eqn:Hskip; [by apply IH |]. guards.
  destruct (bool_decide (p = "..")) eqn:Hup; guards; subst.
  - destruct Hk as (n & l & -> & Hl). destruct l as [| x l]; simpl.
    + destruct n as [| n]; simpl.
      * apply IH. exists 1%nat, []. by split.
      * apply IH. exists (S (S n)), []. by split.
    + inversion Hl as [| ? ? Hx Hl']; subst. unfold ordinary in Hx. guards.
      rewrite bool_decide_eq_false_2 by done. apply IH. by exists n, l.
  - apply IH. destruct Hk as (n & l & -> & Hl). exists n, (p :: l). split; [done |].
    constructor; [| done]. unfold ordinary. by rewrite !bool_decide_eq_false_2.
Qed.

(** ** The names that are accepted *)

(** What the characters of a name must satisfy. *)
Definition clean_bytes (name : string) : bool :=
  (slen name <=? maxWorkspacePathBytes)%N && utf8_valid name && negb (has_char (ascii_of_N 0) name)
  && negb (contains "\" name).

Definition clean_component (p : string) : bool := ordinary p && negb (bool_decide (p = ".git")).

(** An accepted name other than the root. *)
Definition clean_name (maxDepth : N) (name : string) : Prop :=
  clean_bytes name = true /\ Forall (fun p => clean_component p = true) (split_slash name)
  /\ (N.of_nat (length (split_slash name)) <= maxDepth)%N.

Lemma has_prefix_slash name : has_prefix "/" name = true <-> exists rest, name = String slash rest.
Proof. apply (prefix_iff "/"). Qed.

Lemma no_leading_slash name :
  Forall (fun p => clean_component p = true) (split_slash name) -> has_prefix "/" name = false.
Proof.
  intros Hp. destruct (has_prefix "/" name) eqn:H; [| done]. apply has_prefix_slash in H as [rest ->].
  unfold split_slash in Hp. simpl in Hp. inversion Hp as [| ? ? Hc]; subst. by vm_compute in Hc.
Qed.

Lemma clean_fixed name :
  has_prefix "/" name = false -> split_slash name <> [] ->
  Forall (fun p => ordinary p = true) (split_slash name) -> path_Clean name = name.
Proof.
  intros Hs Hne Hp. unfold path_Clean. rewrite Hs, clean_ordinary by done. simpl.
  rewrite bool_decide_eq_false_2 by done. apply join_split.
Qed.

(** A relative name that [path.Clean] leaves alone, that is not the root and
    does not go up, has ordinary elements only. *)
Lemma clean_unchanged name :
  has_prefix "/" name = false -> path_Clean name = name -> name <> "." -> name <> ".." ->
  has_prefix "../" name = false -> Forall (fun p => ordinary p = true) (split_slash name).
Proof.
  intros Hs Hc Hdot Hup Hpre. unfold path_Clean in Hc. rewrite Hs in Hc.
  destruct (clean_upward [] (split_slash name)) as (n & l & Heq & Hl); [by exists 0%nat, [] |].
  rewrite Heq in Hc. destruct (bool_decide (replicate n ".." ++ l = [])) eqn:Hnil; guards; [by subst |].
  rewrite <- Hc, split_join; [| done |].
  - destruct n as [| n]; [done |]. exfalso. simpl in Hc.
    destruct (replicate n ".." ++ l) as [| q qs] eqn:Hq; [by subst |]. subst name.
    apply not_true_iff_false in Hpre. apply Hpre, prefix_iff. by eexists.
  - rewrite <- Heq. clear. generalize (split_components name). generalize (split_slash name).
    intros parts Hp. assert (forall kept, Forall (fun p => component p = true) kept ->
      Forall (fun p => component p = true) (clean_parts false kept parts)) as H; [| by apply H].
    induction Hp as [| p parts Hp _ IH]; intros kept Hk; simpl; [by apply Forall_rev |].
    destruct (_ || _); [by apply IH |]. destruct (bool_decide (p = "..")).
    + destruct kept as [| k kept]; [by apply IH; repeat constructor |].
      destruct (bool_decide (k = "..")); apply IH; [by constructor |]. by inversion Hk.
    + apply IH. by constructor.
Qed.

(** The depth the code counts is the number of components. *)
Lemma depth_is_components name :
  (slen name <= maxWorkspacePathBytes)%N ->
  u32 (N.of_nat (count_slash name) + 1) = N.of_nat (length (split_slash name)).
Proof.
  intros Hlen. pose proof (count_slash_le name). unfold slen, maxWorkspacePathBytes in Hlen.
  rewrite count_slash_split, u32_id; lia.
Qed.

Lemma git_components l :
  existsb (fun p => bool_decide (p = ".git")) l = false <-> Forall (fun p => p <> ".git") l.
Proof.
  induction l as [| p l IH]; simpl; [by split; constructor |].
  rewrite orb_false_iff, IH, bool_decide_eq_false, list.Forall_cons. done.
Qed.

Lemma clean_components l :
  Forall (fun p => clean_component p = true) l <->
  Forall (fun p => ordinary p = true) l /\ Forall (fun p => p <> ".git") l.
Proof.
  rewrite <- list.Forall_and. apply list.Forall_iff. intros p. unfold clean_component.
  by rewrite andb_true_iff, negb_true_iff, bool_decide_eq_false.
Qed.

Lemma ordinary_name name :
  Forall (fun p => ordinary p = true) (split_slash name) ->
  name <> "" /\ name <> "." /\ name <> ".." /\ has_prefix "/" name = false
  /\ has_prefix "../" name = false.
Proof.
  intros Ho. assert (forall rest, Forall (fun p => ordinary p = true) (split_slash rest) ->
    forall bad, ordinary bad = false -> component bad = true -> rest <> bad) as Hnot.
  { intros rest Hr bad Hbad Hc ->. rewrite split_single in Hr by done. inversion Hr. congruence. }
  split_and!; try (by apply Hnot).
  - apply not_true_iff_false. intros [rest ->]%has_prefix_slash.
    change (String slash rest) with ("" +:+ String slash rest) in Ho.
    rewrite split_component in Ho by done. by inversion Ho.
  - apply not_true_iff_false. intros [rest ->]%(prefix_iff "../").
    change ("../" +:+ rest) with (".." +:+ String slash rest) in Ho.
    rewrite split_component in Ho by done. by inversion Ho.
Qed.

Lemma clean_name_accepted maxDepth name allowRoot :
  clean_name maxDepth name -> cleanGuestPath name maxDepth allowRoot = Some name.
Proof.
  intros (Hb & Hp & Hd). unfold clean_bytes in Hb. guards. rewrite clean_components in Hp.
  destruct Hp as [Ho Hgit]. destruct (ordinary_name name Ho) as (Hn1 & Hn2 & Hn3 & Hs & Hup).
  pose proof (clean_fixed name Hs (split_slash_nonempty name) Ho) as Hc.
  unfold cleanGuestPath. rewrite Hc, depth_is_components by done.
  rewrite (bool_decide_eq_false_2 (name = "")), (bool_decide_eq_false_2 (name = ".")),
    (bool_decide_eq_false_2 (name = "..")), (bool_decide_eq_true_2 (name = name)) by done.
  rewrite !(proj2 (N.ltb_ge _ _)) by done. rewrite (proj2 (git_components _) Hgit), Hs, Hup.
  repeat match goal with H : _ = _ :> bool |- _ => rewrite H end. done.
Qed.

Lemma accepted_clean_name maxDepth name allowRoot cleaned :
  cleanGuestPath name maxDepth allowRoot = Some cleaned ->
  cleaned = name /\ (name = "." /\ allowRoot = true \/ clean_name maxDepth name).
Proof.
  unfold cleanGuestPath.
  destruct (bool_decide (name = "") || _ || _ || _ || _ || _) eqn:Hbytes; [done |]. guards.
  destruct (bool_decide (path_Clean name = ".")) eqn:Hdot; guards.
  { destruct allowRoot; [| done]. simpl. destruct (bool_decide (name = ".")) eqn:Hn; [| done].
    guards. intros [= <-]. rewrite Hdot, Hn. auto. }
  destruct (negb (bool_decide (path_Clean name = name)) || _ || _) eqn:Hup; [done |]. guards.
  match goal with H : path_Clean name = name |- _ => rename H into Hc end. rewrite Hc in *.
  rewrite depth_is_components by done.
  destruct (maxDepth <? _)%N eqn:Hdepth; [done |]. guards.
  destruct (existsb _ _) eqn:Hgit; [done |]. apply git_components in Hgit. intros [= <-].
  split; [done |]. right. split; [| split; [| done]].
  - unfold clean_bytes. rewrite (proj2 (N.leb_le _ _)) by done.
    repeat match goal with H : _ = _ :> bool |- _ => rewrite H end. done.
  - apply clean_components. split; [| done]. by apply clean_unchanged.
Qed.

(** ** Parents *)

Lemma split_app q r : split_slash (q +:+ String slash r) = split_slash q ++ split_slash r.
Proof.
  unfold split_slash. induction q as [| c q IH]; [done |].
  change (String c q +:+ String slash r) with (String c (q +:+ String slash r)). simpl.
  rewrite IH. destruct (bool_decide (c = slash)); [done |].
  pose proof (split_slash_nonempty q) as Hne. unfold split_slash in Hne.
  by destruct (split_char slash q).
Qed.

Lemma join_app d e :
  d <> [] -> e <> [] -> join_with "/" (d ++ e) = join_with "/" d +:+ String slash (join_with "/" e).
Proof.
  intros Hd He. induction d as [| p d IH]; [done |]. destruct d as [| q d].
  - destruct e as [| r e]; [done |]. done.
  - change (join_with "/" ((p :: q :: d) ++ e)) with (p +:+ "/" +:+ join_with "/" ((q :: d) ++ e)).
    rewrite IH by done.
    change (join_with "/" (p :: q :: d)) with (p +:+ "/" +:+ join_with "/" (q :: d)).
    by rewrite !str_app_assoc.
Qed.

Lemma clean_parts_app rooted kept a b :
  clean_parts rooted kept (a ++ b) = clean_parts rooted (rev (clean_parts rooted kept a)) b.
Proof.
  revert kept. induction a as [| p a IH]; intros kept; simpl; [by rewrite rev_involutive |].
  destruct (_ || _); [apply IH |]. destruct (bool_decide (p = "..")); [| apply IH].
  destruct kept as [| k kept]; [apply IH |]. destruct (bool_decide (k = "..")); apply IH.
Qed.

Lemma ordinary_component p : component p = true -> ordinary p = true -> has_prefix "/" p = false.
Proof.
  intros Hc Ho. apply not_true_iff_false. intros [r ->]%has_prefix_slash.
  unfold component in Hc. simpl in Hc. done.
Qed.

Lemma path_Dir_ordinary d x :
  d <> [] -> Forall (fun p => component p = true) (d ++ [x]) ->
  Forall (fun p => ordinary p = true) (d ++ [x]) ->
  path_Dir (join_with "/" (d ++ [x])) = join_with "/" d.
Proof.
  intros Hd Hc Ho. apply list.Forall_app in Hc as [Hc Hcx]. apply list.Forall_app in Ho as [Ho _].
  unfold path_Dir. rewrite split_join; [| by destruct d | by apply list.Forall_app; split].
  rewrite removelast_last. unfold path_Clean.
  assert (split_slash (join_with "/" (d ++ [""])) = d ++ [""]) as Hs.
  { apply split_join; [by destruct d |]. apply list.Forall_app. split; [done |]. by repeat constructor. }
  destruct (has_prefix "/" (join_with "/" (d ++ [""]))) eqn:Hroot.
  { apply has_prefix_slash in Hroot as [r Hr]. rewrite Hr in Hs.
    change (String slash r) with ("" +:+ String slash r) in Hs. rewrite split_component in Hs by done.
    destruct d as [| p d]; [done |]. injection Hs as <- _. by inversion Ho. }
  rewrite Hs, clean_parts_app, (clean_ordinary false [] d) by done. simpl. rewrite !rev_involutive.
  by rewrite bool_decide_eq_false_2.
Qed.

(** The parent of a clean name below [q] is [q] or is below it. *)
Lemma path_Dir_below name q :
  Forall (fun p => ordinary p = true) (split_slash name) -> has_prefix (q +:+ "/") name = true ->
  path_Dir name <> "." /\ (path_Dir name = q \/ has_prefix (q +:+ "/") (path_Dir name) = true).
Proof.
  intros Ho [r ->]%prefix_iff. rewrite str_app_assoc in *.
  change ("/" +:+ r) with (String slash r) in *. rewrite split_app in Ho.
  assert (q +:+ String slash r = join_with "/" (split_slash q ++ split_slash r)) as Hj
    by (by rewrite join_app, !join_split by apply split_slash_nonempty).
  pose proof (split_slash_nonempty r) as Hr. destruct (exists_last Hr) as (init & x & Hx).
  assert (path_Dir (q +:+ String slash r) = join_with "/" (split_slash q ++ init)) as ->.
  { rewrite Hj, Hx, app_assoc. apply path_Dir_ordinary.
    - pose proof (split_slash_nonempty q). by destruct (split_slash q).
    - rewrite <- app_assoc, <- Hx. apply list.Forall_app. split; apply split_components.
    - by rewrite <- app_assoc, <- Hx. }
  destruct init as [| i init].
  - rewrite app_nil_r, join_split. split; [| by left]. apply list.Forall_app in Ho as [Ho _].
    by destruct (ordinary_name q Ho) as (_ & Hdot & _).
  - rewrite join_app, join_split by (done || apply split_slash_nonempty). split.
    + destruct q as [| c [| c' q]]; try done.
    + right. apply prefix_iff. exists (join_with "/" (i :: init)). by rewrite str_app_assoc.
Qed.

(** ** The property *)

(** [cleanGuestPath] returns the name itself or refuses it.  It accepts
    the root where asked to, and exactly the names that are valid UTF-8 of at
    most 4096 bytes without NUL or backslash, whose slash-separated components
    are none of the empty string, [.], [..] and [.git] and no more than the
    depth limit: none of them can leave the workspace. *)
Theorem guest_path_accepted name maxDepth allowRoot cleaned :
  cleanGuestPath name maxDepth allowRoot = Some cleaned <->
  cleaned = name /\
  (name = "." /\ allowRoot = true
   \/ ((slen name <= maxWorkspacePathBytes)%N /\ utf8_valid name = true
       /\ has_char (ascii_of_N 0) name = false /\ contains "\" name = false
       /\ Forall (fun p => p <> "" /\ p <> "." /\ p <> ".." /\ p <> ".git") (split_slash name)
       /\ (N.of_nat (length (split_slash name)) <= maxDepth)%N)).
Proof.
  assert (clean_name maxDepth name <->
    ((slen name <= maxWorkspacePathBytes)%N /\ utf8_valid name = true
       /\ has_char (ascii_of_N 0) name = false /\ contains "\" name = false
       /\ Forall (fun p => p <> "" /\ p <> "." /\ p <> ".." /\ p <> ".git") (split_slash name)
       /\ (N.of_nat (length (split_slash name)) <= maxDepth)%N)) as <-.
  { assert (forall p, clean_component p = true <-> p <> "" /\ p <> "." /\ p <> ".." /\ p <> ".git") as Hcomp.
    { intros p. unfold clean_component, ordinary.
      rewrite !andb_true_iff, !negb_true_iff, !bool_decide_eq_false. tauto. }
    unfold clean_name, clean_bytes. rewrite !andb_true_iff, !negb_true_iff, N.leb_le.
    rewrite (list.Forall_iff _ _ _ Hcomp). tauto. }
  split; [apply accepted_clean_name |].
  intros [-> [[-> ->] | Hname]]; [by vm_compute | by apply clean_name_accepted].
Qed.
