(* ===== verification/RootedFS.v ===== *)
(** * RootedFS: the workspace a Guest sees ([runtime/workspace/fs.go])

    [rootedFS] puts a byte and entry quota in front of a private directory of
    the Host, and [quotaFile] in front of its open files.  The directory is
    reached through [os.Root] and wazero's [sysfs.DirFS], which are not part
    of the repository: [Host] is what the code calls of them, on an abstract
    disk.  Every operation holds the filesystem's mutex, so one operation is
    one function on the filesystem, its open files and the disk. *)

From S2P Require Import Prelude Errors Json Paths.

(** ** Data *)

Inductive Errno :=
| EACCES | EBADF | EEXIST | EINVAL | EIO | EISDIR | ENOENT | ENOSYS | ENOTDIR | ENOTEMPTY | EPERM.

#[export] Instance Errno_eq_dec : EqDecision Errno.
Proof. solve_decision. Defined.

(** [experimentalsys.Oflag], the bits the code looks at and the others. *)
Record Oflag := mkOflag {
  O_CREAT : bool;
  O_TRUNC : bool;
  O_APPEND : bool;
  O_NOFOLLOW : bool;
  O_others : N
}.

Definition with_nofollow (f : Oflag) : Oflag :=
  mkOflag (O_CREAT f) (O_TRUNC f) (O_APPEND f) true (O_others f).

Inductive file_type := TRegular | TDir | TSymlink | TOther.

#[export] Instance file_type_eq_dec : EqDecision file_type.
Proof. solve_decision. Defined.

(** What [Lstat] and [Stat] report. *)
Record Info := mkInfo {
  i_type : file_type;
  i_perm : N;
  i_dev : N;
  i_ino : N;
  i_nlink : N;
  i_size : Z
}.

Definition Errno_of {A} (r : res Errno A) : option Errno :=
  match r with Ok _ => None | Err e => Some e end.

(** [fs.FileMode] as the usage keeps it: the directory bit and permissions. *)
Record FileMode := mkMode { m_dir : bool; m_perm : N }.

(** [Limits] of a workspace. *)
Record WLimits := mkWLimits {
  MaxFiles : N;
  MaxBytes : N;
  MaxFileBytes : N;
  MaxDepth : N
}.

Definition validate_limits (l : WLimits) : bool :=
  negb (bool_decide (MaxFiles l = 0%N)) && negb (bool_decide (MaxBytes l = 0%N))
  && negb (bool_decide (MaxFileBytes l = 0%N)) && negb (bool_decide (MaxDepth l = 0%N))
  && (MaxFileBytes l <=? MaxBytes l)%N.

(** [treeUsage]. *)
Record treeUsage := mkUsage {
  u_entries : gmap string FileMode;
  u_sizes : gmap string N;
  u_files : N;
  u_bytes : N
}.

(** [rootedFS] without the handles of the Host. *)
Record rootedFS := mkFS {
  fs_rootDev : N;
  fs_limits : WLimits;
  fs_usage : treeUsage;
  fs_open : gmap string N;
  fs_closed : bool
}.

(** [quotaFile]; [qf_handle] is the Host's open file. *)
Record quotaFile := mkQFile {
  qf_handle : nat;
  qf_name : string;
  qf_append : bool;
  qf_closed : bool
}.

(** ** The Host

    [Walk] lists what [filepath.WalkDir] visits below the root, by relative
    name; [Lstat] is [os.Root.Lstat], told whether the root was closed; the other
    operations are those of the delegate and of its open files. *)
Class Host (disk : Type) := {
  h_Walk : disk -> res Errno (list (string * Info));
  h_Lstat : bool -> string -> disk -> res Errno Info;
  h_Stat : string -> disk -> res Errno Info;
  h_OpenFile : string -> Oflag -> N -> disk -> res Errno nat * disk;
  h_Mkdir : string -> N -> disk -> option Errno * disk;
  h_Chmod : string -> N -> disk -> option Errno * disk;
  h_Rename : string -> string -> disk -> option Errno * disk;
  h_Unlink : string -> disk -> option Errno * disk;
  h_Rmdir : string -> disk -> option Errno * disk;
  h_Close : nat -> disk -> option Errno * disk;
  h_Seek : nat -> Z -> N -> disk -> res Errno Z * disk;
  h_Write : nat -> string -> disk -> N * option Errno * disk;
  h_Pwrite : nat -> string -> Z -> disk -> N * option Errno * disk;
  h_Truncate : nat -> Z -> disk -> option Errno * disk;
  h_SetAppend : nat -> bool -> disk -> option Errno * disk
}.

Definition SeekCurrent : N := 1.

(** ** Updates *)

Definition set_usage (u : treeUsage) (fs : rootedFS) : rootedFS :=
  mkFS (fs_rootDev fs) (fs_limits fs) u (fs_open fs) (fs_closed fs).
Definition set_open (o : gmap string N) (fs : rootedFS) : rootedFS :=
  mkFS (fs_rootDev fs) (fs_limits fs) (fs_usage fs) o (fs_closed fs).

Definition set_sizes (sizes : gmap string N) (bytes : N) (u : treeUsage) : treeUsage :=
  mkUsage (u_entries u) sizes (u_files u) bytes.

(** A Go map's zero value. *)
Definition size_of (name : string) (u : treeUsage) : N := default 0%N (u_sizes u !! name).
Definition open_of (name : string) (fs : rootedFS) : N := default 0%N (fs_open fs !! name).

(** ** Names *)

Definition clean (fs : rootedFS) (name : string) (allowRoot : bool) : res Errno string :=
  let name := if bool_decide (name = ".") then name else trim_slashes name in
  match cleanGuestPath name (MaxDepth (fs_limits fs)) allowRoot with
  | Some cleaned => Ok cleaned
  | None => Err EPERM
  end.

Section Host.
Context {disk : Type} `{Host disk}.

(** The prefixes of a name, shortest first, as [strings.Join(components[:i+1], "/")]. *)
Fixpoint prefixes (before : list string) (components : list string) : list string :=
  match components with
  | [] => []
  | c :: rest => join_with "/" (before ++ [c]) :: prefixes (before ++ [c]) rest
  end.

Fixpoint validate_prefixes (fs : rootedFS) (d : disk) (allowMissingFinal : bool) (names : list string)
  : option Errno :=
  match names with
  | [] => None
  | current :: rest =>
      match h_Lstat (fs_closed fs) current d with
      | Err e =>
          if bool_decide (e = ENOENT) && allowMissingFinal && bool_decide (rest = []) then None
          else Some e
      | Ok info =>
          if negb (bool_decide (i_dev info = fs_rootDev fs))
             || bool_decide (i_type info = TRegular) && negb (bool_decide (i_nlink info = 1%N))
             || negb (bool_decide (i_type info = TRegular)) && negb (bool_decide (i_type info = TDir))
          then Some EPERM
          else if negb (bool_decide (rest = [])) && negb (bool_decide (i_type info = TDir))
          then Some ENOTDIR
          else validate_prefixes fs d allowMissingFinal rest
      end
  end.

Definition validateComponents (fs : rootedFS) (d : disk) (name : string) (allowMissingFinal : bool)
  : option Errno :=
  if bool_decide (name = ".") then None
  else validate_prefixes fs d allowMissingFinal (prefixes [] (split_slash name)).

(** The parent of a new entry is the root or a directory of the usage. *)
Definition parent_ok (fs : rootedFS) (cleaned : string) : bool :=
  let parent := path_Dir cleaned in
  bool_decide (parent = ".")
  || match u_entries (fs_usage fs) !! parent with Some mode => m_dir mode | None => false end.

Definition canonical_perm (executable : bool) : N := if executable then 448%N else 384%N.

(** ** Operations on names *)

(** Whether the name is known to the usage, and the disk agrees. *)
Definition entry_exists (fs : rootedFS) (d : disk) (cleaned : string) : res Errno bool :=
  let exists_ := bool_decide (is_Some (u_entries (fs_usage fs) !! cleaned)) in
  if bool_decide (cleaned = ".") then Ok true
  else match h_Lstat (fs_closed fs) cleaned d with
  | Err e =>
      if negb (bool_decide (e = ENOENT)) then Err e
      else if exists_ then Err EPERM else Ok exists_
  | Ok _ => if exists_ then Ok exists_ else Err EPERM
  end.

(** The usage after the delegate opened the file. *)
Definition opened_usage (cleaned : string) (exists_ trunc : bool) (u : treeUsage) : treeUsage :=
  let u := if exists_ then u
           else mkUsage (<[cleaned := mkMode false 0]> (u_entries u)) (<[cleaned := 0%N]> (u_sizes u))
                  (u32 (u_files u + 1)) (u_bytes u) in
  if trunc
  then set_sizes (<[cleaned := 0%N]> (u_sizes u)) (sub64 (u_bytes u) (size_of cleaned u)) u
  else u.

Definition OpenFile (name : string) (flag : Oflag) (perm : N) (fs : rootedFS) (d : disk)
  : res Errno quotaFile * rootedFS * disk :=
  match clean fs name true with
  | Err e => (Err e, fs, d)
  | Ok cleaned =>
      let creating := O_CREAT flag in
      if fs_closed fs then (Err EBADF, fs, d)
      else match validateComponents fs d cleaned creating with
      | Some e => (Err e, fs, d)
      | None =>
          match entry_exists fs d cleaned with
          | Err e => (Err e, fs, d)
          | Ok exists_ =>
              if creating && negb exists_ && (MaxFiles (fs_limits fs) <=? u_files (fs_usage fs))%N
              then (Err EACCES, fs, d)
              else if negb exists_ && creating && negb (parent_ok fs cleaned)
              then (Err ENOENT, fs, d)
              else
                let canonicalPerm := canonical_perm (negb (bool_decide (N.land perm 73 = 0%N))) in
                match h_OpenFile cleaned (with_nofollow flag) canonicalPerm d with
                | (Err e, d) => (Err e, fs, d)
                | (Ok handle, d) =>
                    let fs := set_usage (opened_usage cleaned exists_ (O_TRUNC flag) (fs_usage fs)) fs in
                    let fs := set_open (<[cleaned := u32 (open_of cleaned fs + 1)]> (fs_open fs)) fs in
                    (Ok (mkQFile handle cleaned (O_APPEND flag) false), fs, d)
                end
          end
      end
  end.

Definition Mkdir (name : string) (fs : rootedFS) (d : disk) : option Errno * rootedFS * disk :=
  match clean fs name false with
  | Err e => (Some e, fs, d)
  | Ok cleaned =>
      if fs_closed fs then (Some EBADF, fs, d)
      else match validateComponents fs d cleaned true with
      | Some e => (Some e, fs, d)
      | None =>
          let u := fs_usage fs in
          if bool_decide (is_Some (u_entries u !! cleaned)) then (Some EEXIST, fs, d)
          else if (MaxFiles (fs_limits fs) <=? u_files u)%N then (Some EACCES, fs, d)
          else if negb (parent_ok fs cleaned) then (Some ENOENT, fs, d)
          else match h_Mkdir cleaned 448 d with
          | (Some e, d) => (Some e, fs, d)
          | (None, d) =>
              (None,
               set_usage (mkUsage (<[cleaned := mkMode true 0]> (u_entries u)) (u_sizes u)
                            (u32 (u_files u + 1)) (u_bytes u)) fs, d)
          end
      end
  end.

Definition maskStat (i : Info) : Info :=
  mkInfo (if bool_decide (i_type i = TDir) then TDir else TRegular) (i_perm i) 0 0 1 (i_size i).

Definition Stat (name : string) (fs : rootedFS) (d : disk) : res Errno Info :=
  let* cleaned := clean fs name true in
  if fs_closed fs then Err EBADF
  else match validateComponents fs d cleaned false with
  | Some e => Err e
  | None => res_map maskStat (h_Stat cleaned d)
  end.

Definition Chmod (name : string) (perm : N) (fs : rootedFS) (d : disk) : option Errno * rootedFS * disk :=
  match clean fs name false with
  | Err e => (Some e, fs, d)
  | Ok cleaned =>
      match validateComponents fs d cleaned false with
      | Some e => (Some e, fs, d)
      | None =>
          match u_entries (fs_usage fs) !! cleaned with
          | None => (Some ENOENT, fs, d)
          | Some mode =>
              let '(e, d) := h_Chmod cleaned
                (canonical_perm (m_dir mode || negb (bool_decide (N.land perm 73 = 0%N)))) d in
              (e, fs, d)
          end
      end
  end.

(** [name] or an entry below it. *)
Definition at_or_below (name other : string) : bool :=
  bool_decide (other = name) || has_prefix (name +:+ "/") other.

Definition hasOpenAtOrBelow (fs : rootedFS) (name : string) : bool :=
  existsb (fun '(openName, count) => (0 <? count)%N && at_or_below name openName)
    (map_to_list (fs_open fs)).

(** The renames of the entries at or below [from]; [None] when one of them is
    refused. *)
Fixpoint rename_updates (from to : string) (maxDepth : N) (names : list string)
  : option (list (string * string)) :=
  match names with
  | [] => Some []
  | existing :: rest =>
      if at_or_below from existing then
        let replacement := to +:+ trim_prefix from existing in
        match cleanGuestPath replacement maxDepth false, rename_updates from to maxDepth rest with
        | Some _, Some updates => Some ((existing, replacement) :: updates)
        | _, _ => None
        end
      else rename_updates from to maxDepth rest
  end.

(** One turn of the loop over the updates. *)
Definition move_entry (u : treeUsage) (update : string * string) : treeUsage :=
  let '(oldName, newName) := update in
  let entries :=
    match u_entries u !! oldName with
    | Some mode => delete oldName (<[newName := mode]> (u_entries u))
    | None => delete oldName (<[newName := mkMode false 0]> (u_entries u))
    end in
  let sizes :=
    match u_sizes u !! oldName with
    | Some size => delete oldName (<[newName := size]> (u_sizes u))
    | None => u_sizes u
    end in
  mkUsage entries sizes (u_files u) (u_bytes u).

Definition Rename (from to : string) (fs : rootedFS) (d : disk) : option Errno * rootedFS * disk :=
  match clean fs from false with
  | Err e => (Some e, fs, d)
  | Ok cleanFrom =>
  match clean fs to false with
  | Err e => (Some e, fs, d)
  | Ok cleanTo =>
  match validateComponents fs d cleanFrom false with
  | Some e => (Some e, fs, d)
  | None =>
  match validateComponents fs d cleanTo true with
  | Some e => (Some e, fs, d)
  | None =>
      let u := fs_usage fs in
      if bool_decide (is_Some (u_entries u !! cleanTo)) then (Some EEXIST, fs, d)
      else if hasOpenAtOrBelow fs cleanFrom || hasOpenAtOrBelow fs cleanTo then (Some EACCES, fs, d)
      else if negb (parent_ok fs cleanTo) then (Some ENOENT, fs, d)
      else match rename_updates cleanFrom cleanTo (MaxDepth (fs_limits fs))
                   (map fst (map_to_list (u_entries u))) with
      | None => (Some EPERM, fs, d)
      | Some updates =>
          if bool_decide (updates = []) then (Some ENOENT, fs, d)
          else match h_Rename cleanFrom cleanTo d with
          | (Some e, d) => (Some e, fs, d)
          | (None, d) => (None, set_usage (foldl move_entry u updates) fs, d)
          end
      end
  end
  end
  end
  end.

Definition Unlink (name : string) (fs : rootedFS) (d : disk) : option Errno * rootedFS * disk :=
  match clean fs name false with
  | Err e => (Some e, fs, d)
  | Ok cleaned =>
      match validateComponents fs d cleaned false with
      | Some e => (Some e, fs, d)
      | None =>
          let u := fs_usage fs in
          match u_entries u !! cleaned with
          | None => (Some ENOENT, fs, d)
          | Some mode =>
              if m_dir mode then (Some EISDIR, fs, d)
              else if negb (open_of cleaned fs =? 0)%N then (Some EACCES, fs, d)
              else match h_Unlink cleaned d with
              | (Some e, d) => (Some e, fs, d)
              | (None, d) =>
                  (None,
                   set_usage (mkUsage (delete cleaned (u_entries u)) (delete cleaned (u_sizes u))
                                (u32 (u_files u + (2 ^ 32 - 1)))
                                (sub64 (u_bytes u) (size_of cleaned u))) fs, d)
              end
          end
      end
  end.

Definition Rmdir (name : string) (fs : rootedFS) (d : disk) : option Errno * rootedFS * disk :=
  match clean fs name false with
  | Err e => (Some e, fs, d)
  | Ok cleaned =>
      match validateComponents fs d cleaned false with
      | Some e => (Some e, fs, d)
      | None =>
          let u := fs_usage fs in
          match u_entries u !! cleaned with
          | None => (Some ENOENT, fs, d)
          | Some mode =>
              if negb (m_dir mode) then (Some ENOTDIR, fs, d)
              else if hasOpenAtOrBelow fs cleaned then (Some EACCES, fs, d)
              else match h_Rmdir cleaned d with
              | (Some e, d) => (Some e, fs, d)
              | (None, d) =>
                  (None,
                   set_usage (mkUsage (delete cleaned (u_entries u)) (u_sizes u)
                                (u32 (u_files u + (2 ^ 32 - 1))) (u_bytes u)) fs, d)
              end
          end
      end
  end.

(** ** Operations on open files *)

Definition checkedWriteEnd (offset : Z) (len : N) : option N :=
  if (offset <? 0)%Z then None
  else
    let start := Z.to_N offset in
    if (2 ^ 64 - 1 - start <? len)%N then None else Some (u64 (start + len)).

Definition reserveSize (name : string) (size : N) (fs : rootedFS) : bool * rootedFS :=
  let u := fs_usage fs in
  let current := size_of name u in
  if (size <=? current)%N then (true, fs)
  else if (MaxFileBytes (fs_limits fs) <? size)%N || (MaxBytes (fs_limits fs) <? u_bytes u)%N
  then (false, fs)
  else
    let delta := (size - current)%N in
    if (MaxBytes (fs_limits fs) - u_bytes u <? delta)%N then (false, fs)
    else (true, set_usage (set_sizes (<[name := size]> (u_sizes u)) (u64 (u_bytes u + delta)) u) fs).

Definition reconcileSize (name : string) (fallback : N) (fs : rootedFS) (d : disk) : rootedFS :=
  let actual :=
    match h_Stat name d with
    | Ok value => if (0 <=? i_size value)%Z then Z.to_N (i_size value) else fallback
    | Err _ => fallback
    end in
  let u := fs_usage fs in
  let reserved := size_of name u in
  let bytes :=
    if (actual <? reserved)%N then sub64 (u_bytes u) (reserved - actual)
    else if (reserved <? actual)%N then u64 (u_bytes u + (actual - reserved))
    else u_bytes u in
  set_usage (set_sizes (<[name := actual]> (u_sizes u)) bytes u) fs.

Definition file_Close (file : quotaFile) (fs : rootedFS) (d : disk)
  : option Errno * quotaFile * rootedFS * disk :=
  if qf_closed file then (None, file, fs, d)
  else
    let '(errno, d) := h_Close (qf_handle file) d in
    let count := open_of (qf_name file) fs in
    let fs := set_open (if (count <=? 1)%N then delete (qf_name file) (fs_open fs)
                        else <[qf_name file := (count - 1)%N]> (fs_open fs)) fs in
    (errno, mkQFile (qf_handle file) (qf_name file) (qf_append file) true, fs, d).

(** The offset [Write] writes at. *)
Definition write_offset (file : quotaFile) (current : N) (d : disk) : res Errno Z * disk :=
  if qf_append file then (Ok (i64 (Z.of_N current)), d)
  else h_Seek (qf_handle file) 0 SeekCurrent d.

Definition Write (buffer : string) (file : quotaFile) (fs : rootedFS) (d : disk)
  : N * option Errno * rootedFS * disk :=
  if qf_closed file || fs_closed fs then (0%N, Some EBADF, fs, d)
  else
    let current := size_of (qf_name file) (fs_usage fs) in
    match write_offset file current d with
    | (Err e, d) => (0%N, Some e, fs, d)
    | (Ok offset, d) =>
        if (offset <? 0)%Z || (current <? Z.to_N offset)%N then (0%N, Some EACCES, fs, d)
        else match checkedWriteEnd offset (slen buffer) with
        | None => (0%N, Some EACCES, fs, d)
        | Some end_ =>
            match reserveSize (qf_name file) end_ fs with
            | (false, fs) => (0%N, Some EACCES, fs, d)
            | (true, fs) =>
                let '(n, errno, d) := h_Write (qf_handle file) buffer d in
                (n, errno, reconcileSize (qf_name file) current fs d, d)
            end
        end
    end.

Definition Pwrite (buffer : string) (offset : Z) (file : quotaFile) (fs : rootedFS) (d : disk)
  : N * option Errno * rootedFS * disk :=
  if qf_closed file || fs_closed fs then (0%N, Some EBADF, fs, d)
  else
    let current := size_of (qf_name file) (fs_usage fs) in
    if (offset <? 0)%Z || (current <? Z.to_N offset)%N then (0%N, Some EACCES, fs, d)
    else match checkedWriteEnd offset (slen buffer) with
    | None => (0%N, Some EACCES, fs, d)
    | Some end_ =>
        match reserveSize (qf_name file) end_ fs with
        | (false, fs) => (0%N, Some EACCES, fs, d)
        | (true, fs) =>
            let '(n, errno, d) := h_Pwrite (qf_handle file) buffer offset d in
            (n, errno, reconcileSize (qf_name file) current fs d, d)
        end
    end.

Definition Truncate (size : Z) (file : quotaFile) (fs : rootedFS) (d : disk)
  : option Errno * rootedFS * disk :=
  if qf_closed file || fs_closed fs then (Some EBADF, fs, d)
  else
    let u := fs_usage fs in
    let current := size_of (qf_name file) u in
    if (size <? 0)%Z || (current <? Z.to_N size)%N then (Some EACCES, fs, d)
    else match h_Truncate (qf_handle file) size d with
    | (Some e, d) => (Some e, fs, d)
    | (None, d) =>
        (None,
         set_usage (set_sizes (<[qf_name file := Z.to_N size]> (u_sizes u))
                      (sub64 (u_bytes u) (current - Z.to_N size)) u) fs, d)
    end.

Definition SetAppend (enabled : bool) (file : quotaFile) (d : disk) : option Errno * quotaFile * disk :=
  let '(errno, d) := h_SetAppend (qf_handle file) enabled d in
  (errno, mkQFile (qf_handle file) (qf_name file) enabled (qf_closed file), d).

(** [rootedFS.close]. *)
Definition close_root (fs : rootedFS) : rootedFS :=
  mkFS (fs_rootDev fs) (fs_limits fs) (fs_usage fs) (fs_open fs) true.

(** ** Opening a workspace *)

(** [scanOrdinaryTree], the visits of [WalkDir] in order. *)
Fixpoint scan_entries (l : WLimits) (rootDev : N) (listing : list (string * Info)) (u : treeUsage)
  : option treeUsage :=
  match listing with
  | [] => Some u
  | (name, info) :: rest =>
      match cleanGuestPath name (MaxDepth l) false with
      | None => None
      | Some _ =>
          let regular := bool_decide (i_type info = TRegular) in
          if negb (bool_decide (i_dev info = rootDev)) || bool_decide (i_type info = TSymlink)
             || negb regular && negb (bool_decide (i_type info = TDir))
             || regular && negb (bool_decide (i_nlink info = 1%N))
          then None
          else
            let files := u32 (u_files u + 1) in
            if (MaxFiles l <? files)%N then None
            else
              let entries := <[name := mkMode (bool_decide (i_type info = TDir)) (i_perm info)]> (u_entries u) in
              if regular then
                let size := Z.to_N (i_size info) in
                if (MaxFileBytes l <? size)%N || (MaxBytes l - u_bytes u <? size)%N then None
                else scan_entries l rootDev rest
                       (mkUsage entries (<[name := size]> (u_sizes u)) files (u64 (u_bytes u + size)))
              else scan_entries l rootDev rest (mkUsage entries (u_sizes u) files (u_bytes u))
      end
  end.

Definition scanOrdinaryTree (l : WLimits) (rootDev : N) (d : disk) : option treeUsage :=
  match h_Walk d with
  | Ok listing => scan_entries l rootDev listing (mkUsage ∅ ∅ 0 0)
  | Err _ => None
  end.

(** [newRootedFS]. *)
Definition newRootedFS (rootDev : N) (l : WLimits) (u : treeUsage) : rootedFS :=
  mkFS rootDev l u ∅ false.

(** ** What a Guest does

    The mounted filesystem, the Guest's open files by descriptor, and the disk.
    wazero forgets a descriptor when the Guest closes it. *)
Record mount := mkMount {
  mt_fs : rootedFS;
  mt_files : gmap nat quotaFile;
  mt_next : nat;
  mt_disk : disk
}.

Inductive guest_op :=
| OpOpen (name : string) (flag : Oflag) (perm : N)
| OpMkdir (name : string)
| OpChmod (name : string) (perm : N)
| OpRename (from to : string)
| OpUnlink (name : string)
| OpRmdir (name : string)
| OpClose (file : nat)
| OpSeek (file : nat) (offset : Z) (whence : N)
| OpWrite (file : nat) (buffer : string)
| OpPwrite (file : nat) (buffer : string) (offset : Z)
| OpTruncate (file : nat) (size : Z)
| OpSetAppend (file : nat) (enabled : bool).

Definition with_fs (m : mount) (fs : rootedFS) (d : disk) : mount :=
  mkMount fs (mt_files m) (mt_next m) d.

Definition run_op (op : guest_op) (m : mount) : mount :=
  let fs := mt_fs m in
  let d := mt_disk m in
  let on_file (id : nat) (f : quotaFile -> mount) : mount :=
    match mt_files m !! id with Some file => f file | None => m end in
  match op with
  | OpOpen name flag perm =>
      match OpenFile name flag perm fs d with
      | (Ok file, fs, d) => mkMount fs (<[mt_next m := file]> (mt_files m)) (S (mt_next m)) d
      | (Err _, fs, d) => with_fs m fs d
      end
  | OpMkdir name => let '(_, fs, d) := Mkdir name fs d in with_fs m fs d
  | OpChmod name perm => let '(_, fs, d) := Chmod name perm fs d in with_fs m fs d
  | OpRename from to => let '(_, fs, d) := Rename from to fs d in with_fs m fs d
  | OpUnlink name => let '(_, fs, d) := Unlink name fs d in with_fs m fs d
  | OpRmdir name => let '(_, fs, d) := Rmdir name fs d in with_fs m fs d
  | OpClose id => on_file id (fun file =>
      let '(_, _, fs, d) := file_Close file fs d in
      mkMount fs (delete id (mt_files m)) (mt_next m) d)
  | OpSeek id offset whence => on_file id (fun file =>
      with_fs m fs (h_Seek (qf_handle file) offset whence d).2)
  | OpWrite id buffer => on_file id (fun file =>
      let '(_, _, fs, d) := Write buffer file fs d in with_fs m fs d)
  | OpPwrite id buffer offset => on_file id (fun file =>
      let '(_, _, fs, d) := Pwrite buffer offset file fs d in with_fs m fs d)
  | OpTruncate id size => on_file id (fun file =>
      let '(_, fs, d) := Truncate size file fs d in with_fs m fs d)
  | OpSetAppend id enabled => on_file id (fun file =>
      let '(_, file, d) := SetAppend enabled file d in
      mkMount fs (<[id := file]> (mt_files m)) (mt_next m) d)
  end.

(** What [Acquire] and [BeginRun] give the Guest of a workspace. *)
Definition mount_workspace (l : WLimits) (rootDev : N) (d : disk) : option mount :=
  match scanOrdinaryTree l rootDev d with
  | Some u => Some (mkMount (newRootedFS rootDev l u) ∅ O d)
  | None => None
  end.

Definition run_ops (ops : list guest_op) (m : mount) : mount := foldl (fun m op => run_op op m) m ops.
End Host.
Arguments mkMount {_} _ _ _ _.
Arguments mount : clear implicits.
