(* ===== verification/HostFS.v ===== *)
(** * HostFS: what the workspace relies on of the Host's directory

    [HostLaws] states the documented behaviour of [os.Root] and of wazero's
    [sysfs.DirFS] that the quota depends on, for a private directory that only
    the filesystem writes to: an operation that fails changes nothing a Guest
    could see, one that succeeds does what its name says, and an open file
    stays the file it was opened on.  Any call may fail at any time; a [Stat]
    that succeeds on a regular file reports the file's size.  [memory_disk] is a
    directory kept in memory, with names whose [Stat] fails, for which the laws
    hold. *)

From S2P Require Import Prelude Errors Json Paths RootedFS.

(** ** The directory as a tree of names *)

Inductive node := NDir | NFile (size : N).

Definition is_dir (n : node) : bool := match n with NDir => true | NFile _ => false end.
Definition node_size (n : node) : N := match n with NDir => 0%N | NFile s => s end.

Notation tree := (gmap string node).

(** An open file: the name it was opened under, its mode and its offset. *)
Record open_handle := mkHandle { oh_name : string; oh_append : bool; oh_pos : Z }.

Definition set_pos (pos : Z) (h : open_handle) : open_handle :=
  mkHandle (oh_name h) (oh_append h) pos.
Definition set_append (b : bool) (h : open_handle) : open_handle :=
  mkHandle (oh_name h) b (oh_pos h).

(** What a successful open does to the tree. *)
Definition opened (name : string) (flag : Oflag) (t t' : tree) : Prop :=
  if bool_decide (name = ".") then O_TRUNC flag = false /\ t' = t
  else match t !! name with
  | None => O_CREAT flag = true /\ t' = <[name := NFile 0]> t
  | Some NDir => O_TRUNC flag = false /\ t' = t
  | Some (NFile _) => t' = if O_TRUNC flag then <[name := NFile 0]> t else t
  end.

(** The subtree at [from] moves to [to]. *)
Record renamed (from to : string) (t t' : tree) : Prop := {
  renamed_apart : at_or_below from to = false;
  renamed_moved : forall suffix, suffix = "" \/ has_prefix "/" suffix = true ->
    t' !! (to +:+ suffix) = t !! (from +:+ suffix);
  renamed_gone : forall q, at_or_below from q = true -> t' !! q = None;
  renamed_other : forall q, at_or_below from q = false -> at_or_below to q = false -> t' !! q = t !! q
}.

(** Writing at most [len] bytes at [base] of the file a handle is open on. *)
Definition written (name : string) (base len : N) (t t' : tree) : Prop :=
  match t !! name with
  | Some (NFile s) =>
      exists m, (m <= len)%N /\ t' = if (m =? 0)%N then t else <[name := NFile (s `max` (base + m))]> t
  | _ => t' = t
  end.

(** The node of an entry that is a directory or a regular file. *)
Definition node_of (i : Info) : node :=
  if bool_decide (i_type i = TDir) then NDir else NFile (Z.to_N (i_size i)).

(** A walk visits every entry once, and a directory before its contents. *)
Record walks (listing : list (string * Info)) (t : tree) : Prop := {
  walks_once : NoDup listing.*1;
  walks_node : forall name i, (name, i) ∈ listing -> i_type i = TDir \/ i_type i = TRegular ->
    t !! name = Some (node_of i);
  walks_all : forall name, is_Some (t !! name) -> name ∈ listing.*1;
  walks_parents : forall name q, name ∈ listing.*1 -> has_prefix (q +:+ "/") name = true ->
    t !! q = Some NDir
}.

Class HostLaws (disk : Type) `{Host disk} := {
  tree_of : disk -> tree;
  handles_of : disk -> gmap nat open_handle;
  dir_stat_max : N;
  walk_law d listing : h_Walk d = Ok listing -> walks listing (tree_of d);
  stat_file d name s i :
    name <> "." -> tree_of d !! name = Some (NFile s) -> h_Stat name d = Ok i -> i_size i = Z.of_N s;
  stat_dir d name i :
    name = "." \/ (forall s, tree_of d !! name <> Some (NFile s)) -> h_Stat name d = Ok i ->
    (i_size i <= Z.of_N dir_stat_max)%Z;
  open_law d d' name flag perm r :
    h_OpenFile name flag perm d = (r, d') ->
    match r with
    | Err _ => tree_of d' = tree_of d /\ handles_of d' = handles_of d
    | Ok h => handles_of d !! h = None
              /\ handles_of d' = <[h := mkHandle name (O_APPEND flag) 0]> (handles_of d)
              /\ opened name flag (tree_of d) (tree_of d')
    end;
  mkdir_law d d' name perm e :
    h_Mkdir name perm d = (e, d') -> handles_of d' = handles_of d /\
    match e with
    | Some _ => tree_of d' = tree_of d
    | None => tree_of d !! name = None /\ tree_of d' = <[name := NDir]> (tree_of d)
    end;
  chmod_law d d' name perm e :
    h_Chmod name perm d = (e, d') -> handles_of d' = handles_of d /\ tree_of d' = tree_of d;
  rename_law d d' from to e :
    h_Rename from to d = (e, d') ->
    (forall h oh, handles_of d !! h = Some oh -> at_or_below from (oh_name oh) = false) ->
    handles_of d' = handles_of d /\
    match e with
    | Some _ => tree_of d' = tree_of d
    | None => renamed from to (tree_of d) (tree_of d')
    end;
  unlink_law d d' name e :
    h_Unlink name d = (e, d') -> handles_of d' = handles_of d /\
    match e with
    | Some _ => tree_of d' = tree_of d
    | None => tree_of d' = delete name (tree_of d)
    end;
  rmdir_law d d' name e :
    h_Rmdir name d = (e, d') -> handles_of d' = handles_of d /\
    match e with
    | Some _ => tree_of d' = tree_of d
    | None => (forall q, has_prefix (name +:+ "/") q = true -> tree_of d !! q = None)
              /\ tree_of d' = delete name (tree_of d)
    end;
  close_law d d' h e :
    h_Close h d = (e, d') -> handles_of d' = delete h (handles_of d) /\ tree_of d' = tree_of d;
  seek_law d d' h offset whence r :
    h_Seek h offset whence d = (r, d') ->
    tree_of d' = tree_of d /\ exists pos, handles_of d' = alter (set_pos pos) h (handles_of d);
  seek_current_law d d' h oh offset :
    h_Seek h 0 SeekCurrent d = (Ok offset, d') -> handles_of d !! h = Some oh ->
    offset = oh_pos oh /\ handles_of d' = handles_of d;
  write_law d d' h oh buffer n e :
    h_Write h buffer d = (n, e, d') -> handles_of d !! h = Some oh ->
    (exists pos, handles_of d' = alter (set_pos pos) h (handles_of d)) /\
    written (oh_name oh) (if oh_append oh then default 0%N (node_size <$> tree_of d !! oh_name oh)
                          else Z.to_N (oh_pos oh)) (slen buffer) (tree_of d) (tree_of d');
  pwrite_law d d' h oh buffer offset n e :
    h_Pwrite h buffer offset d = (n, e, d') -> handles_of d !! h = Some oh ->
    handles_of d' = handles_of d /\
    if oh_append oh then tree_of d' = tree_of d
    else written (oh_name oh) (Z.to_N offset) (slen buffer) (tree_of d) (tree_of d');
  truncate_law d d' h oh size e :
    h_Truncate h size d = (e, d') -> handles_of d !! h = Some oh -> handles_of d' = handles_of d /\
    match e with
    | Some _ => tree_of d' = tree_of d
    | None => (exists s, tree_of d !! oh_name oh = Some (NFile s))
              /\ tree_of d' = <[oh_name oh := NFile (Z.to_N size)]> (tree_of d)
    end;
  set_append_law d d' h b e :
    h_SetAppend h b d = (e, d') ->
    tree_of d' = tree_of d /\ handles_of d' = alter (set_append b) h (handles_of d)
}.

(** ** Subtrees *)

(** What may follow a name in the names of its subtree. *)
Definition suffix_ok (s : string) : Prop := s = "" \/ has_prefix "/" s = true.

Lemma below_suffix n q : at_or_below n q = true <-> exists s, q = n +:+ s /\ suffix_ok s.
Proof.
  unfold at_or_below, suffix_ok. rewrite orb_true_iff, bool_decide_eq_true. split.
  - intros [-> | [r ->]%prefix_iff].
    + exists "". split; [by rewrite str_app_nil | by left].
    + exists (String slash r). split; [by rewrite str_app_assoc |]. right. by apply has_prefix_slash; eexists.
  - intros (s & -> & [-> | [r ->]%has_prefix_slash]).
    + left. by rewrite str_app_nil.
    + right. apply prefix_iff. exists r. by rewrite str_app_assoc.
Qed.

Lemma str_app_inv_head (a x y : string) : a +:+ x = a +:+ y -> x = y.
Proof. induction a as [| c a IH]; [done |]. rewrite !str_app_cons. intros [= H]. by apply IH. Qed.

Lemma below_comparable a b s s' :
  suffix_ok s -> suffix_ok s' -> a +:+ s = b +:+ s' -> at_or_below a b = true \/ at_or_below b a = true.
Proof.
  intros Hs Hs'. assert (forall b s s', suffix_ok s -> s = b +:+ s' -> at_or_below "" b = true) as Hnil.
  { intros b0 s0 s0' [-> | [r ->]%has_prefix_slash] Heq; apply below_suffix; exists b0; (split; [done |]).
    - left. by destruct b0.
    - destruct b0 as [| c b0]; [by left | right]. injection Heq as <- _. by apply has_prefix_slash; eexists. }
  revert b. induction a as [| c a IH]; intros b Heq; [left; by eapply (Hnil b s s') |].
  destruct b as [| d b]; [right; by eapply (Hnil (String c a) s' s) |].
  rewrite !str_app_cons in Heq. injection Heq as -> Heq.
  assert (forall x y, at_or_below x y = true -> at_or_below (String d x) (String d y) = true) as Hcons.
  { intros x y (r & -> & Hr)%below_suffix. apply below_suffix. by exists r. }
  destruct (IH b Heq) as [H | H]; apply Hcons in H; auto.
Qed.

Lemma below_refl n : at_or_below n n = true.
Proof. unfold at_or_below. by rewrite bool_decide_eq_true_2. Qed.

Lemma suffix_app s s' : suffix_ok s -> suffix_ok s' -> suffix_ok (s +:+ s').
Proof.
  intros [-> | [r ->]%has_prefix_slash] Hs'; [done |]. right. apply has_prefix_slash. by eexists.
Qed.

Lemma below_trans a b c : at_or_below a b = true -> at_or_below b c = true -> at_or_below a c = true.
Proof.
  intros (s & -> & Hs)%below_suffix (s' & -> & Hs')%below_suffix. apply below_suffix.
  exists (s +:+ s'). split; [by rewrite str_app_assoc | by apply suffix_app].
Qed.

(** ** A directory in memory *)

(** [md_unread] are the names whose [Stat] fails. *)
Record memory_disk := mkMemory {
  md_tree : tree;
  md_handles : gmap nat open_handle;
  md_unread : list string
}.

Definition md_set_tree (t : tree) (d : memory_disk) : memory_disk :=
  mkMemory t (md_handles d) (md_unread d).
Definition md_set_handles (h : gmap nat open_handle) (d : memory_disk) : memory_disk :=
  mkMemory (md_tree d) h (md_unread d).

Definition md_info (n : node) : Info :=
  match n with
  | NDir => mkInfo TDir 448 1 1 2 4096
  | NFile s => mkInfo TRegular 384 1 1 1 (Z.of_N s)
  end.

Definition md_lstat (name : string) (d : memory_disk) : res Errno Info :=
  if bool_decide (name = ".") then Ok (md_info NDir)
  else match md_tree d !! name with Some n => Ok (md_info n) | None => Err ENOENT end.

Definition md_stat (name : string) (d : memory_disk) : res Errno Info :=
  if bool_decide (name ∈ md_unread d) then Err EIO else md_lstat name d.

Definition md_OpenFile (name : string) (flag : Oflag) (d : memory_disk) : res Errno nat * memory_disk :=
  let h := fresh (dom (md_handles d)) in
  let opened_as t :=
    (Ok h, mkMemory t (<[h := mkHandle name (O_APPEND flag) 0]> (md_handles d)) (md_unread d)) in
  let t := md_tree d in
  if bool_decide (name = ".") then (if O_TRUNC flag then (Err EISDIR, d) else opened_as t)
  else match t !! name with
  | None => if O_CREAT flag then opened_as (<[name := NFile 0]> t) else (Err ENOENT, d)
  | Some NDir => if O_TRUNC flag then (Err EISDIR, d) else opened_as t
  | Some (NFile _) => opened_as (if O_TRUNC flag then <[name := NFile 0]> t else t)
  end.

(** The names of two subtrees exchanged. *)
Definition swap_names (from to name : string) : string :=
  if at_or_below from name then to +:+ trim_prefix from name
  else if at_or_below to name then from +:+ trim_prefix to name
  else name.

(** [to] and what is below it must be free, and [from] be there. *)
Definition md_Rename (from to : string) (d : memory_disk) : option Errno * memory_disk :=
  let t := md_tree d in
  if bool_decide (t !! from = None) then (Some ENOENT, d)
  else if at_or_below from to then (Some EINVAL, d)
  else if existsb (at_or_below to) (map fst (map_to_list t)) then (Some EEXIST, d)
  else (None, md_set_tree (kmap (swap_names from to) t) d).

Definition md_Rmdir (name : string) (d : memory_disk) : option Errno * memory_disk :=
  let t := md_tree d in
  if existsb (has_prefix (name +:+ "/")) (map fst (map_to_list t)) then (Some ENOTEMPTY, d)
  else match t !! name with
  | Some NDir => (None, md_set_tree (delete name t) d)
  | Some (NFile _) => (Some ENOTDIR, d)
  | None => (Some ENOENT, d)
  end.

Definition md_Unlink (name : string) (d : memory_disk) : option Errno * memory_disk :=
  match md_tree d !! name with
  | Some (NFile _) => (None, md_set_tree (delete name (md_tree d)) d)
  | Some NDir => (Some EISDIR, d)
  | None => (Some ENOENT, d)
  end.

Definition md_Mkdir (name : string) (d : memory_disk) : option Errno * memory_disk :=
  match md_tree d !! name with
  | Some _ => (Some EEXIST, d)
  | None => (None, md_set_tree (<[name := NDir]> (md_tree d)) d)
  end.

(** Writing [len] bytes at [base]: nothing is written through a directory. *)
Definition md_write (name : string) (base len : N) (t : tree) : option tree :=
  match t !! name with
  | Some (NFile s) => Some (if (len =? 0)%N then t else <[name := NFile (s `max` (base + len))]> t)
  | _ => None
  end.

Definition md_Write (h : nat) (buffer : string) (d : memory_disk) : N * option Errno * memory_disk :=
  match md_handles d !! h with
  | None => (0%N, Some EBADF, d)
  | Some oh =>
      let base := if oh_append oh then default 0%N (node_size <$> md_tree d !! oh_name oh)
                  else Z.to_N (oh_pos oh) in
      match md_write (oh_name oh) base (slen buffer) (md_tree d) with
      | None => (0%N, Some EISDIR, d)
      | Some t =>
          (slen buffer, None,
           mkMemory t (alter (set_pos (Z.of_N (base + slen buffer))) h (md_handles d)) (md_unread d))
      end
  end.

Definition md_Pwrite (h : nat) (buffer : string) (offset : Z) (d : memory_disk)
  : N * option Errno * memory_disk :=
  match md_handles d !! h with
  | None => (0%N, Some EBADF, d)
  | Some oh =>
      if oh_append oh then (0%N, Some EINVAL, d)
      else match md_write (oh_name oh) (Z.to_N offset) (slen buffer) (md_tree d) with
      | None => (0%N, Some EISDIR, d)
      | Some t => (slen buffer, None, md_set_tree t d)
      end
  end.

Definition md_Truncate (h : nat) (size : Z) (d : memory_disk) : option Errno * memory_disk :=
  match md_handles d !! h with
  | None => (Some EBADF, d)
  | Some oh =>
      match md_tree d !! oh_name oh with
      | Some (NFile _) => (None, md_set_tree (<[oh_name oh := NFile (Z.to_N size)]> (md_tree d)) d)
      | _ => (Some EISDIR, d)
      end
  end.

(** [Seek] from the start or the current offset. *)
Definition md_Seek (h : nat) (offset : Z) (whence : N) (d : memory_disk) : res Errno Z * memory_disk :=
  match md_handles d !! h with
  | None => (Err EBADF, d)
  | Some oh =>
      let pos := if bool_decide (whence = 0%N) then offset else (oh_pos oh + offset)%Z in
      (Ok pos, md_set_handles (<[h := set_pos pos oh]> (md_handles d)) d)
  end.

(** The proper prefixes of a name that end before a slash. *)
Fixpoint ancestors (before s : string) : list string :=
  match s with
  | EmptyString => []
  | String c s' =>
      (if bool_decide (c = slash) then [before] else []) ++ ancestors (before +:+ String c "") s'
  end.

(** A walk fails on what is not a tree of directories. *)
Definition md_Walk (d : memory_disk) : res Errno (list (string * Info)) :=
  let listing := map (fun '(name, n) => (name, md_info n)) (map_to_list (md_tree d)) in
  if forallb (fun name => forallb (fun q => bool_decide (is_dir <$> md_tree d !! q = Some true)) (ancestors "" name))
       (listing.*1)
  then Ok listing else Err EIO.

#[export] Instance memory_host : Host memory_disk := {
  h_Walk := md_Walk;
  h_Lstat := fun closed name d => if closed : bool then Err EBADF else md_lstat name d;
  h_Stat := md_stat;
  h_OpenFile := fun name flag _ d => md_OpenFile name flag d;
  h_Mkdir := fun name _ d => md_Mkdir name d;
  h_Chmod := fun _ _ d => (None, d);
  h_Rename := md_Rename;
  h_Unlink := md_Unlink;
  h_Rmdir := md_Rmdir;
  h_Close := fun h d => (None, md_set_handles (delete h (md_handles d)) d);
  h_Seek := md_Seek;
  h_Write := md_Write;
  h_Pwrite := md_Pwrite;
  h_Truncate := md_Truncate;
  h_SetAppend := fun h b d => (None, md_set_handles (alter (set_append b) h (md_handles d)) d)
}.

(** ** The laws hold of it *)

Lemma existsb_names (p : string -> bool) (t : tree) q :
  existsb p (map fst (map_to_list t)) = false -> p q = true -> t !! q = None.
Proof.
  intros Hex Hp. destruct (t !! q) as [n |] eqn:Hq; [| done].
  apply not_true_iff_false in Hex. destruct Hex. apply existsb_exists. exists q. split; [| done].
  apply in_map_iff. exists (q, n). split; [done |]. by apply list_elem_of_In, elem_of_map_to_list.
Qed.

Lemma swap_from from to s : suffix_ok s -> swap_names from to (from +:+ s) = to +:+ s.
Proof.
  intros Hs. unfold swap_names. rewrite (proj2 (below_suffix from _)) by eauto.
  by rewrite trim_prefix_app.
Qed.

Section swap.
Context (from to : string) (Hft : at_or_below from to = false) (Htf : at_or_below to from = false).

Lemma swap_to s : suffix_ok s -> swap_names from to (to +:+ s) = from +:+ s.
Proof.
  intros Hs. unfold swap_names. destruct (at_or_below from (to +:+ s)) eqn:Hb.
  - apply below_suffix in Hb as (s' & Heq & Hs'). destruct (below_comparable to from s s' Hs Hs' Heq); congruence.
  - rewrite (proj2 (below_suffix to _)) by eauto. by rewrite trim_prefix_app.
Qed.

Lemma swap_involutive name : swap_names from to (swap_names from to name) = name.
Proof.
  destruct (at_or_below from name) eqn:Hf.
  { apply below_suffix in Hf as (s & -> & Hs). by rewrite swap_from, swap_to. }
  destruct (at_or_below to name) eqn:Ht.
  { apply below_suffix in Ht as (s & -> & Hs). by rewrite swap_to, swap_from. }
  unfold swap_names at 2. rewrite Hf, Ht. unfold swap_names. by rewrite Hf, Ht.
Qed.

#[local] Instance swap_inj : Inj (=) (=) (swap_names from to).
Proof. intros x y Heq. by rewrite <- (swap_involutive x), Heq, swap_involutive. Qed.

Lemma renamed_swap (t : tree) :
  (forall q, at_or_below to q = true -> t !! q = None) -> renamed from to t (kmap (swap_names from to) t).
Proof.
  intros Hfree. split; [done | | |].
  - intros s Hs. rewrite <- (swap_from from to s Hs). apply lookup_kmap. apply _.
  - intros q (s & -> & Hs)%below_suffix. rewrite <- (swap_to s Hs), lookup_kmap by apply _.
    apply Hfree, below_suffix. eauto.
  - intros q Hf Ht. assert (swap_names from to q = q) as Hq by (unfold swap_names; by rewrite Hf, Ht).
    rewrite <- Hq at 1. apply lookup_kmap. apply _.
Qed.
End swap.

Lemma written_write name base len (t t' : tree) :
  md_write name base len t = Some t' -> written name base len t t'.
Proof.
  unfold md_write, written. destruct (t !! name) as [[| s] |]; try done. intros [= <-].
  exists len. by split.
Qed.

Lemma not_written name base len (t : tree) : md_write name base len t = None -> written name base len t t.
Proof. unfold md_write, written. by destruct (t !! name) as [[| s] |]. Qed.

Lemma alter_pos_id (h : gmap nat open_handle) i oh : h !! i = Some oh -> alter (set_pos (oh_pos oh)) i h = h.
Proof.
  intros Hi. rewrite (alter_present _ _ _ _ Hi). replace (set_pos (oh_pos oh) oh) with oh by (by destruct oh).
  by apply insert_id.
Qed.

Lemma alter_absent (f : open_handle -> open_handle) (h : gmap nat open_handle) i :
  h !! i = None -> alter f i h = h.
Proof.
  intros Hi. apply map_eq. intros j. rewrite lookup_alter. destruct (decide (i = j)) as [<- |]; [by rewrite Hi | done].
Qed.

Lemma ancestors_prefix before s q :
  (exists r, s = q +:+ String slash r) -> before +:+ q ∈ ancestors before s.
Proof.
  intros [r ->]. revert before. induction q as [| c q IH]; intros before.
  - rewrite str_app_nil. simpl. apply list_elem_of_here.
  - rewrite str_app_cons. simpl. apply elem_of_app. right.
    replace (before +:+ String c q) with ((before +:+ String c "") +:+ q) by (by rewrite str_app_assoc).
    apply IH.
Qed.

Lemma memory_walk d listing : md_Walk d = Ok listing -> walks listing (md_tree d).
Proof.
  unfold md_Walk. destruct (forallb _ _) eqn:Hall; [| done]. intros [= <-].
  set (entry := fun '(name, n) => (name, md_info n)).
  assert ((map entry (map_to_list (md_tree d))).*1 = (map_to_list (md_tree d)).*1) as Hnames.
  { rewrite <- list_fmap_compose. apply list_fmap_ext. by intros i [name n]. }
  fold entry in Hall. rewrite Hnames in Hall. split; rewrite ?Hnames.
  - apply NoDup_fst_map_to_list.
  - intros name i ([name' n] & Heq & Hin%elem_of_map_to_list)%list_elem_of_fmap _.
    simpl in Heq. injection Heq as -> ->. rewrite Hin. destruct n; [done |].
    unfold node_of. simpl. by rewrite N2Z.id.
  - intros name [n Hn]. apply list_elem_of_fmap. exists (name, n). split; [done |]. by apply elem_of_map_to_list.
  - intros name q Hin [r Hr]%prefix_iff.
    rewrite forallb_forall in Hall. specialize (Hall name ltac:(by apply list_elem_of_In)).
    rewrite forallb_forall in Hall. rewrite str_app_assoc in Hr.
    specialize (Hall ("" +:+ q)). rewrite bool_decide_eq_true in Hall.
    assert (is_dir <$> md_tree d !! q = Some true) as Hq.
    { apply Hall, list_elem_of_In, ancestors_prefix. by exists r. }
    by destruct (md_tree d !! q) as [[|] |].
Qed.

#[export, refine] Instance memory_laws : HostLaws memory_disk := {
  tree_of := md_tree;
  handles_of := md_handles;
  dir_stat_max := 4096
}.
Proof.
  all: simpl.
  - apply memory_walk.
  - intros d name s i Hn Hs. unfold md_stat, md_lstat. destruct (bool_decide (name ∈ _)); [done |].
    rewrite bool_decide_eq_false_2, Hs by done. by intros [= <-].
  - intros d name i Hn. unfold md_stat, md_lstat. destruct (bool_decide (name ∈ _)); [done |].
    destruct (bool_decide (name = ".")) eqn:Hd; guards.
    { by intros [= <-]. }
    destruct Hn as [| Hn]; [done |]. destruct (md_tree d !! name) as [[| s] |] eqn:Hs; try done.
    + by intros [= <-].
    + by destruct (Hn s).
  - intros d d' name flag _ r. unfold md_OpenFile, opened.
    assert (md_handles d !! fresh (dom (md_handles d)) = None) as Hfresh
      by (apply not_elem_of_dom, is_fresh).
    destruct (bool_decide (name = ".")); [| destruct (md_tree d !! name) as [[| s] |] eqn:Hs];
      try (destruct (O_TRUNC flag) eqn:Ht); try (destruct (O_CREAT flag) eqn:Hc);
      intros [= <- <-]; by split_and!.
  - intros d d' name _ e. unfold md_Mkdir. destruct (md_tree d !! name) eqn:Hs; by intros [= <- <-].
  - intros d d' name _ e. by intros [= <- <-].
  - intros d d' from to e. unfold md_Rename. destruct (bool_decide _) eqn:Hfrom; [by intros [= <- <-] |].
    guards. destruct (at_or_below from to) eqn:Hft; [by intros [= <- <-] |].
    destruct (existsb _ _) eqn:Hex; [by intros [= <- <-] |]. intros [= <- <-] _. split; [done |]. simpl.
    assert (forall q, at_or_below to q = true -> md_tree d !! q = None) as Hfree
      by (intros q; by apply existsb_names).
    apply renamed_swap; [done | | done].
    destruct (at_or_below to from) eqn:Htf; [| done]. by destruct Hfrom; apply Hfree.
  - intros d d' name e. unfold md_Unlink. destruct (md_tree d !! name) as [[| s] |]; by intros [= <- <-].
  - intros d d' name e. unfold md_Rmdir. destruct (existsb _ _) eqn:Hex; [by intros [= <- <-] |].
    destruct (md_tree d !! name) as [[| s] |]; intros [= <- <-]; split_and!; try done.
    intros q. by apply existsb_names.
  - intros d d' h e. by intros [= <- <-].
  - intros d d' h offset whence r. unfold md_Seek.
    destruct (md_handles d !! h) as [oh |] eqn:Hh; intros [= <- <-]; (split; [done |]); simpl.
    + exists (if bool_decide (whence = 0%N) then offset else (oh_pos oh + offset)%Z).
      by rewrite (alter_present _ _ _ _ Hh).
    + exists 0%Z. by rewrite alter_absent.
  - intros d d' h oh offset. unfold md_Seek. intros Hseek Hh. rewrite Hh in Hseek. simpl in Hseek.
    injection Hseek as <- <-. simpl. split; [lia |].
    replace (set_pos (oh_pos oh + 0) oh) with oh by (destruct oh; unfold set_pos; simpl; by rewrite Z.add_0_r).
    by apply insert_id.
  - intros d d' h oh buffer n e. unfold md_Write. intros Hw Hh. rewrite Hh in Hw.
    destruct (md_write _ _ _ _) as [t |] eqn:Ht; injection Hw as <- <- <-; simpl.
    + split; [by eexists | by apply written_write].
    + split; [exists (oh_pos oh); by rewrite alter_pos_id | by apply not_written].
  - intros d d' h oh buffer offset n e. unfold md_Pwrite. intros Hw Hh. rewrite Hh in Hw.
    destruct (oh_append oh); [by injection Hw as <- <- <- |].
    destruct (md_write _ _ _ _) as [t |] eqn:Ht; injection Hw as <- <- <-; simpl; (split; [done |]).
    + by apply written_write.
    + by apply not_written.
  - intros d d' h oh size e. unfold md_Truncate. intros Ht Hh. rewrite Hh in Ht.
    destruct (md_tree d !! oh_name oh) as [[| s] |] eqn:Hs; injection Ht as <- <-; try done.
    simpl. split; [done |]. split; [by exists s | done].
  - intros d d' h b e. by intros [= <- <-].
Defined.
