(* ===== verification/RootedFSSpec.v ===== *)
(** * RootedFSSpec: the workspace's quota invariant

    [usage_core] relates the usage the filesystem keeps to the directory,
    [tree_ok] states what the quota promises of the directory, [files_ok] ties
    the Guest's open files to those of the Host; [mount_ok] is their
    conjunction and every operation keeps it.

    A failed write through a directory makes the usage count the directory's
    own size; [slack] bounds what such writes have added, and [strict] says
    that there were none.  A write whose file cannot be examined afterwards is
    not counted: [believed] is the directory the usage describes, and [debt]
    bounds the bytes it lags behind. *)

From S2P Require Import Prelude Errors Json Paths RootedFS HostFS.

Section Spec.
Context {disk : Type} `{HostLaws disk}.
Implicit Types (t : tree) (u : treeUsage) (l : WLimits).

(** ** The invariant *)

Definition total (sizes : gmap string N) : N := map_sum (fun _ n => n) sizes.
Definition tree_bytes (t : tree) : N := map_sum (fun _ n => node_size n) t.

Record usage_core (strict : bool) (l : WLimits) (slack : N) (u : treeUsage) (t : tree) : Prop := {
  uc_names : m_dir <$> u_entries u = is_dir <$> t;
  uc_sizes : forall p s, t !! p = Some (NFile s) -> u_sizes u !! p = Some s;
  uc_files : u_files u = N.of_nat (size t);
  uc_bytes : (total (u_sizes u) <= u_bytes u /\ u_bytes u <= MaxBytes l + slack)%N;
  uc_exact : strict = true ->
    (forall p s, u_sizes u !! p = Some s -> t !! p = Some (NFile s)) /\ u_bytes u = total (u_sizes u)
}.

(** [debt] is what writes may have added to files that could not be examined
    afterwards. *)
Record tree_ok (l : WLimits) (debt : N) (t : tree) : Prop := {
  to_count : (N.of_nat (size t) <= MaxFiles l)%N;
  to_total : (tree_bytes t <= MaxBytes l + debt)%N;
  to_file : forall p s, t !! p = Some (NFile s) -> (s <= MaxFileBytes l + debt)%N;
  to_clean : forall p, is_Some (t !! p) -> clean_name (MaxDepth l) p;
  to_closed : forall p q, is_Some (t !! p) -> has_prefix (q +:+ "/") p = true -> t !! q = Some NDir
}.

(** The limits fit their machine integers with room for the slack. *)
Definition limits_fit (l : WLimits) (slack : N) : Prop :=
  (MaxFiles l + 1 < 2 ^ 32 /\ MaxBytes l + slack < 2 ^ 64)%N.

(** ** The usage and the tree *)

Lemma entry_some strict l slack u t p mode :
  usage_core strict l slack u t -> u_entries u !! p = Some mode ->
  exists n, t !! p = Some n /\ is_dir n = m_dir mode.
Proof.
  intros Hc Hp. assert ((m_dir <$> u_entries u) !! p = Some (m_dir mode)) as Hm by (by rewrite lookup_fmap, Hp).
  rewrite (uc_names _ _ _ _ _ Hc), lookup_fmap in Hm. destruct (t !! p) as [n |]; [| done].
  injection Hm as Hm. eauto.
Qed.

Lemma entry_none strict l slack u t p :
  usage_core strict l slack u t -> u_entries u !! p = None -> t !! p = None.
Proof.
  intros Hc Hp. assert ((m_dir <$> u_entries u) !! p = None) as Hm by (by rewrite lookup_fmap, Hp).
  rewrite (uc_names _ _ _ _ _ Hc), lookup_fmap in Hm. by destruct (t !! p).
Qed.

Lemma total_set sizes p n :
  (total (<[p := n]> sizes) + default 0%N (sizes !! p) = total sizes + n)%N.
Proof. pose proof (map_sum_set (fun _ n => n) sizes p n) as Hs. unfold total. destruct (sizes !! p); exact Hs. Qed.

Lemma total_delete sizes p : (total (delete p sizes) + default 0%N (sizes !! p) = total sizes)%N.
Proof.
  unfold total. destruct (sizes !! p) as [n |] eqn:Hp; simpl.
  - rewrite (map_sum_delete _ sizes p n Hp). lia.
  - rewrite delete_id by done. lia.
Qed.

Lemma tree_bytes_set t p n :
  (tree_bytes (<[p := n]> t) + default 0%N (node_size <$> t !! p) = tree_bytes t + node_size n)%N.
Proof.
  pose proof (map_sum_set (fun _ n => node_size n) t p n) as Hs. unfold tree_bytes.
  destruct (t !! p); exact Hs.
Qed.

Lemma tree_bytes_delete t p : (tree_bytes (delete p t) + default 0%N (node_size <$> t !! p) = tree_bytes t)%N.
Proof.
  unfold tree_bytes. destruct (t !! p) as [n |] eqn:Hp; simpl.
  - rewrite (map_sum_delete _ t p n Hp). lia.
  - rewrite delete_id by done. lia.
Qed.

(** The files of the tree are within what the sizes add up to. *)
Lemma tree_bytes_total t sizes :
  (forall p s, t !! p = Some (NFile s) -> sizes !! p = Some s) -> (tree_bytes t <= total sizes)%N.
Proof.
  revert sizes. induction t as [| p n t Hp IH] using map_ind; intros sizes Hs.
  { unfold tree_bytes. rewrite map_sum_empty. lia. }
  pose proof (tree_bytes_set t p n) as Ht. rewrite Hp in Ht. simpl in Ht.
  pose proof (total_delete sizes p) as Hd.
  assert ((tree_bytes t <= total (delete p sizes))%N) as Hle.
  { apply IH. intros q s Hq. assert (q <> p) by congruence. rewrite lookup_delete_ne by done.
    apply Hs. by rewrite lookup_insert_ne. }
  destruct n as [| s]; simpl in *; [lia |].
  rewrite (Hs p s) in Hd by apply lookup_insert_eq. simpl in Hd. lia.
Qed.

Lemma size_of_file strict l slack u t p s :
  usage_core strict l slack u t -> t !! p = Some (NFile s) -> size_of p u = s.
Proof. intros Hc Hp. unfold size_of. by rewrite (uc_sizes _ _ _ _ _ Hc p s Hp). Qed.

Lemma size_of_le u p : (size_of p u <= total (u_sizes u))%N.
Proof. pose proof (total_delete (u_sizes u) p). unfold size_of. lia. Qed.

(** ** One file changes its size *)

(** The size of [p] in the usage becomes [a], which is what the disk says. *)
Lemma core_resize strict l slack slack' u t t' p a bytes :
  usage_core strict l slack u t ->
  (t' = t /\ (forall s, t !! p <> Some (NFile s)) /\ strict = false
   \/ t' = <[p := NFile a]> t /\ exists s, t !! p = Some (NFile s)) ->
  (bytes + size_of p u = u_bytes u + a)%N -> (bytes <= MaxBytes l + slack')%N ->
  usage_core strict l slack' (set_sizes (<[p := a]> (u_sizes u)) bytes u) t'.
Proof.
  intros Hc Ht Hb Hle. pose proof (uc_bytes _ _ _ _ _ Hc) as [Hsum _].
  pose proof (total_set (u_sizes u) p a) as Hset. fold (size_of p u) in Hset.
  split; simpl.
  - destruct Ht as [[-> _] | [-> (s & Hs)]]; [apply Hc |].
    rewrite fmap_insert, (uc_names _ _ _ _ _ Hc). symmetry. apply insert_id. simpl.
    by rewrite lookup_fmap, Hs.
  - intros q s Hq. rewrite lookup_insert. destruct (decide (p = q)) as [<- | Hne].
    + destruct Ht as [[-> [Hno _]] | [-> _]]; [by destruct (Hno s) |].
      rewrite lookup_insert_eq in Hq. congruence.
    + apply (uc_sizes _ _ _ _ _ Hc). destruct Ht as [[-> _] | [-> _]]; [done |].
      by rewrite lookup_insert_ne in Hq.
  - rewrite (uc_files _ _ _ _ _ Hc). destruct Ht as [[-> _] | [-> (s & Hs)]]; [done |].
    by rewrite map_size_insert_Some by eauto.
  - lia.
  - intros ->. destruct Ht as [(_ & _ & Hf) | [-> (s0 & Hs0)]]; [done |].
    destruct (uc_exact _ _ _ _ _ Hc eq_refl) as [Hex Heq]. split; [| lia].
    intros q s. rewrite !lookup_insert. destruct (decide (p = q)); [by intros [= ->] | apply Hex].
Qed.

Lemma tree_resize l debt t p s a :
  tree_ok l debt t -> t !! p = Some (NFile s) -> (a <= MaxFileBytes l + debt)%N ->
  (tree_bytes t - s + a <= MaxBytes l + debt)%N -> tree_ok l debt (<[p := NFile a]> t).
Proof.
  intros Ht Hp Ha Hle. pose proof (tree_bytes_set t p (NFile a)) as Hset. rewrite Hp in Hset. simpl in Hset.
  split.
  - rewrite map_size_insert_Some by eauto. apply Ht.
  - lia.
  - intros q s0. rewrite lookup_insert. destruct (decide (p = q)); [by intros [= <-] | apply Ht].
  - intros q. rewrite lookup_insert. destruct (decide (p = q)) as [<- |]; [| apply Ht].
    intros _. apply Ht. by eexists.
  - intros q r Hq Hr. assert (t !! r = Some NDir) as Hdir.
    { apply (to_closed _ _ _ Ht q r); [| done]. rewrite lookup_insert in Hq.
      destruct (decide (p = q)) as [<- |]; [by eexists | done]. }
    rewrite lookup_insert_ne by congruence. done.
Qed.

(** ** One entry appears or goes *)

(** Every proper prefix of the name is a directory. *)
Definition parents_ok (t : tree) (p : string) : Prop :=
  forall q, has_prefix (q +:+ "/") p = true -> t !! q = Some NDir.

Lemma tree_add l debt t p n :
  tree_ok l debt t -> t !! p = None -> clean_name (MaxDepth l) p -> parents_ok t p ->
  (N.of_nat (size t) < MaxFiles l)%N -> node_size n = 0%N -> tree_ok l debt (<[p := n]> t).
Proof.
  intros Ht Hp Hclean Hpar Hlt Hn. pose proof (tree_bytes_set t p n) as Hset. rewrite Hp in Hset.
  simpl in Hset. pose proof (to_total _ _ _ Ht). split.
  - rewrite map_size_insert_None by done. lia.
  - lia.
  - intros q s. rewrite lookup_insert. destruct (decide (p = q)); [| apply Ht]. intros [= ->].
    simpl in Hn. lia.
  - intros q. rewrite lookup_insert. destruct (decide (p = q)) as [<- |]; [done | apply Ht].
  - intros q r Hq Hr. assert (t !! r = Some NDir) as Hdir.
    { rewrite lookup_insert in Hq. destruct (decide (p = q)) as [<- |]; [by apply Hpar |].
      by apply (to_closed _ _ _ Ht q r). }
    rewrite lookup_insert_ne by congruence. done.
Qed.

Lemma tree_delete l debt t p :
  tree_ok l debt t -> (forall q, has_prefix (p +:+ "/") q = true -> t !! q = None) -> tree_ok l debt (delete p t).
Proof.
  intros Ht Hleaf. pose proof (tree_bytes_delete t p) as Hd. pose proof (to_total _ _ _ Ht).
  pose proof (to_count _ _ _ Ht). split.
  - rewrite map_size_delete. destruct (t !! p); simpl; lia.
  - lia.
  - intros q s [_ Hq]%lookup_delete_Some. by apply (to_file _ _ _ Ht q).
  - intros q [n [_ Hq]%lookup_delete_Some]. apply Ht. by eexists.
  - intros q r [n [Hne Hq]%lookup_delete_Some] Hr.
    assert (t !! r = Some NDir) as Hdir by (apply (to_closed _ _ _ Ht q r); [by eexists | done]).
    rewrite lookup_delete_ne; [done |]. intros <-. by rewrite (Hleaf q Hr) in Hq.
Qed.

(** A file has nothing below it. *)
Lemma file_leaf l debt t p s :
  tree_ok l debt t -> t !! p = Some (NFile s) -> forall q, has_prefix (p +:+ "/") q = true -> t !! q = None.
Proof.
  intros Ht Hp q Hq. destruct (t !! q) as [n |] eqn:Hn; [| done].
  assert (t !! p = Some NDir) by (apply (to_closed _ _ _ Ht q p); [by eexists | done]). congruence.
Qed.

Lemma free_leaf l debt t p :
  tree_ok l debt t -> t !! p = None -> forall q, has_prefix (p +:+ "/") q = true -> t !! q = None.
Proof.
  intros Ht Hp q Hq. destruct (t !! q) as [n |] eqn:Hn; [| done].
  assert (t !! p = Some NDir) by (apply (to_closed _ _ _ Ht q p); [by eexists | done]). congruence.
Qed.

(** ** Names *)

Lemma clean_Ok fs name allowRoot cleaned :
  clean fs name allowRoot = Ok cleaned ->
  cleaned = "." /\ allowRoot = true \/ clean_name (MaxDepth (fs_limits fs)) cleaned.
Proof.
  unfold clean. destruct (cleanGuestPath _ _ _) as [c |] eqn:Hc; [| done]. intros [= ->].
  apply accepted_clean_name in Hc as [-> [[-> ->] | Hc]]; auto.
Qed.

Lemma clean_name_ordinary d p :
  clean_name d p -> Forall (fun p => ordinary p = true) (split_slash p).
Proof. intros (_ & Hp & _). by apply clean_components in Hp as [Ho _]. Qed.

Lemma clean_name_not_root d p : clean_name d p -> p <> ".".
Proof. intros Hp. by destruct (ordinary_name p (clean_name_ordinary d p Hp)) as (_ & Hdot & _). Qed.

Lemma parent_ok_parents strict slack debt fs t p :
  usage_core strict (fs_limits fs) slack (fs_usage fs) t -> tree_ok (fs_limits fs) debt t ->
  clean_name (MaxDepth (fs_limits fs)) p -> parent_ok fs p = true -> parents_ok t p.
Proof.
  intros Hc Ht Hp Hpar q Hq.
  destruct (path_Dir_below p q (clean_name_ordinary _ _ Hp) Hq) as [Hdot Hcase].
  unfold parent_ok in Hpar. rewrite bool_decide_eq_false_2 in Hpar by done. simpl in Hpar.
  destruct (u_entries (fs_usage fs) !! path_Dir p) as [mode |] eqn:He; [| done].
  destruct (entry_some _ _ _ _ _ _ _ Hc He) as (n & Hn & Hdir). rewrite Hpar in Hdir.
  destruct n as [| s]; [| done]. destruct Hcase as [<- | Hpre]; [done |].
  apply (to_closed _ _ _ Ht (path_Dir p)); [by eexists | done].
Qed.

(** ** Creating and deleting in the usage *)

Lemma core_add strict l slack u t p n mode sizes :
  usage_core strict l slack u t -> t !! p = None -> m_dir mode = is_dir n ->
  (N.of_nat (size t) < MaxFiles l)%N -> (MaxFiles l < 2 ^ 32)%N ->
  (n = NDir /\ sizes = u_sizes u \/ n = NFile 0 /\ sizes = <[p := 0%N]> (u_sizes u)) ->
  usage_core strict l slack (mkUsage (<[p := mode]> (u_entries u)) sizes (u32 (u_files u + 1)) (u_bytes u))
    (<[p := n]> t).
Proof.
  intros Hc Hp Hm Hlt Hmax Hcase. pose proof (uc_bytes _ _ _ _ _ Hc) as [Hsum Hle].
  pose proof (total_set (u_sizes u) p 0) as Hset.
  assert (total sizes <= total (u_sizes u))%N as Htot by (destruct Hcase as [[_ ->] | [_ ->]]; lia).
  split; simpl.
  - by rewrite !fmap_insert, (uc_names _ _ _ _ _ Hc), Hm.
  - intros q s. rewrite lookup_insert. destruct (decide (p = q)) as [<- | Hne].
    + intros [= ->]. destruct Hcase as [[? _] | [[= ->] ->]]; [done |]. apply lookup_insert_eq.
    + intros Hq. apply (uc_sizes _ _ _ _ _ Hc) in Hq. destruct Hcase as [[_ ->] | [_ ->]]; [done |].
      by rewrite lookup_insert_ne.
  - rewrite map_size_insert_None, (uc_files _ _ _ _ _ Hc), u32_id by (done || lia). lia.
  - lia.
  - intros ->. destruct (uc_exact _ _ _ _ _ Hc eq_refl) as [Hex Heq].
    assert (u_sizes u !! p = None) as Hnone.
    { destruct (u_sizes u !! p) as [s |] eqn:Hs; [| done]. apply Hex in Hs. congruence. }
    rewrite Hnone in Hset. simpl in Hset.
    split; [| by destruct Hcase as [[_ ->] | [_ ->]]; lia].
    intros q s Hq. destruct (decide (p = q)) as [<- | Hne].
    + destruct Hcase as [[_ ->] | [-> ->]]; [congruence |]. rewrite lookup_insert_eq in Hq. rewrite lookup_insert_eq. congruence.
    + rewrite lookup_insert_ne by done. apply Hex.
      destruct Hcase as [[_ ->] | [_ ->]]; [done |]. by rewrite lookup_insert_ne in Hq.
Qed.

Lemma core_delete strict l slack u t p n sizes bytes :
  usage_core strict l slack u t -> t !! p = Some n -> (N.of_nat (size t) < 2 ^ 32)%N ->
  (n = NDir /\ sizes = u_sizes u /\ bytes = u_bytes u
   \/ (exists s, n = NFile s) /\ sizes = delete p (u_sizes u) /\ (bytes + size_of p u = u_bytes u)%N) ->
  usage_core strict l slack
    (mkUsage (delete p (u_entries u)) sizes (u32 (u_files u + (2 ^ 32 - 1))) bytes) (delete p t).
Proof.
  intros Hc Hp Hfit Hcase. pose proof (uc_bytes _ _ _ _ _ Hc) as [Hsum Hle].
  pose proof (total_delete (u_sizes u) p) as Hdel. fold (size_of p u) in Hdel.
  split; simpl.
  - by rewrite !fmap_delete, (uc_names _ _ _ _ _ Hc).
  - intros q s [Hne Hq]%lookup_delete_Some. apply (uc_sizes _ _ _ _ _ Hc) in Hq.
    destruct Hcase as [(_ & -> & _) | (_ & -> & _)]; [done |]. by rewrite lookup_delete_ne.
  - rewrite map_size_delete, Hp, (uc_files _ _ _ _ _ Hc). unfold u32. simpl.
    assert (0 < size t)%nat.
    { destruct (size t) eqn:Hz; [| lia]. apply map_size_empty_inv in Hz. by rewrite Hz, lookup_empty in Hp. }
    replace (N.of_nat (size t) + 4294967295)%N with (N.of_nat (pred (size t)) + 1 * 2 ^ 32)%N by lia.
    rewrite N.Div0.mod_add, N.mod_small; lia.
  - destruct Hcase as [(_ & -> & ->) | (_ & -> & Hb)]; lia.
  - intros ->. destruct (uc_exact _ _ _ _ _ Hc eq_refl) as [Hex Heq]. split.
    + intros q s Hq. destruct Hcase as [(-> & -> & _) | (_ & -> & _)].
      * pose proof (Hex q s Hq). rewrite lookup_delete_ne; [done |]. intros <-. congruence.
      * apply lookup_delete_Some in Hq as [Hne Hq]. rewrite lookup_delete_ne by done. by apply Hex.
    + destruct Hcase as [(_ & -> & ->) | (_ & -> & Hb)]; [done | lia].
Qed.

(** ** Renaming *)

(** One entry of a tree moves. *)
Definition move_node (t : tree) (update : string * string) : tree :=
  match t !! update.1 with
  | Some n => <[update.2 := n]> (delete update.1 t)
  | None => t
  end.

Lemma move_node_sums t o n x :
  t !! o = Some x -> t !! n = None ->
  move_node t (o, n) = <[n := x]> (delete o t) /\ tree_bytes (move_node t (o, n)) = tree_bytes t
  /\ size (move_node t (o, n)) = size t.
Proof.
  intros Ho Hn. assert (o <> n) as Hne by congruence. unfold move_node. simpl. rewrite Ho. split; [done |].
  pose proof (tree_bytes_delete t o) as Hd. rewrite Ho in Hd. simpl in Hd.
  pose proof (tree_bytes_set (delete o t) n x) as Hs. rewrite lookup_delete_ne, Hn in Hs by done. simpl in Hs.
  rewrite map_size_insert_None, map_size_delete, Ho by (by rewrite lookup_delete_ne). simpl.
  assert (size t <> 0)%nat by (intros Hz; apply map_size_empty_inv in Hz; by rewrite Hz, lookup_empty in Ho).
  lia.
Qed.

Lemma move_entry_core strict l slack u t o n x :
  usage_core strict l slack u t -> t !! o = Some x -> t !! n = None ->
  usage_core strict l slack (move_entry u (o, n)) (move_node t (o, n)).
Proof.
  intros Hc Ho Hn. assert (o <> n) as Hne by congruence.
  pose proof (uc_bytes _ _ _ _ _ Hc) as [Hsum Hle]. unfold move_node. simpl. rewrite Ho.
  assert (exists mode, u_entries u !! o = Some mode /\ m_dir mode = is_dir x) as (mode & Hmode & Hdir).
  { destruct (u_entries u !! o) as [mode |] eqn:Hm.
    - destruct (entry_some _ _ _ _ _ _ _ Hc Hm) as (y & Hy & Hd). exists mode. split; [done | congruence].
    - apply (entry_none _ _ _ _ _ _ Hc) in Hm. congruence. }
  rewrite Hmode.
  set (sizes' := match u_sizes u !! o with Some _ => _ | None => _ end).
  assert (total sizes' + default 0%N (u_sizes u !! n) = total (u_sizes u)
          \/ total sizes' = total (u_sizes u) /\ sizes' = u_sizes u)%N as Htot.
  { subst sizes'. destruct (u_sizes u !! o) as [s |] eqn:Hs; [left | by right].
    pose proof (total_delete (<[n := s]> (u_sizes u)) o) as Hd. rewrite lookup_insert_ne, Hs in Hd by done.
    pose proof (total_set (u_sizes u) n s). simpl in Hd. lia. }
  split; simpl.
  - by rewrite fmap_delete, !fmap_insert, fmap_delete, (uc_names _ _ _ _ _ Hc), Hdir,
      delete_insert_ne by done.
  - intros q s Hq. subst sizes'. destruct (decide (n = q)) as [<- | Hnq].
    + rewrite lookup_insert_eq in Hq. injection Hq as ->.
      rewrite (uc_sizes _ _ _ _ _ Hc o s Ho), lookup_delete_ne, lookup_insert_eq by done. done.
    + rewrite lookup_insert_ne in Hq by done. apply lookup_delete_Some in Hq as [Hoq Hq].
      apply (uc_sizes _ _ _ _ _ Hc) in Hq. destruct (u_sizes u !! o); [| done].
      by rewrite lookup_delete_ne, lookup_insert_ne.
  - rewrite map_size_insert_None, map_size_delete, Ho by (by rewrite lookup_delete_ne).
    rewrite (uc_files _ _ _ _ _ Hc). simpl.
    assert (size t <> 0)%nat by (intros Hz; apply map_size_empty_inv in Hz; by rewrite Hz, lookup_empty in Ho).
    lia.
  - lia.
  - intros ->. destruct (uc_exact _ _ _ _ _ Hc eq_refl) as [Hex Heq].
    assert (u_sizes u !! n = None) as Hnone.
    { destruct (u_sizes u !! n) as [s |] eqn:Hs; [| done]. apply Hex in Hs. congruence. }
    rewrite Hnone in Htot. simpl in Htot. split; [| lia]. intros q s Hq. subst sizes'.
    destruct (u_sizes u !! o) as [s0 |] eqn:Hs0.
    + apply Hex in Hs0. apply lookup_delete_Some in Hq as [Hoq Hq].
      destruct (decide (n = q)) as [<- | Hnq].
      * rewrite lookup_insert_eq in Hq. rewrite lookup_insert_eq. congruence.
      * rewrite lookup_insert_ne in Hq by done. rewrite lookup_insert_ne, lookup_delete_ne by done.
        by apply Hex.
    + pose proof (Hex q s Hq) as Hq'. rewrite lookup_insert_ne by congruence.
      rewrite lookup_delete_ne by congruence. done.
Qed.

(** The moves of a rename: from distinct old names to distinct free ones. *)
Record moves (t : tree) (ups : list (string * string)) : Prop := {
  mv_old : NoDup ups.*1;
  mv_new : NoDup ups.*2;
  mv_there : forall o, o ∈ ups.*1 -> is_Some (t !! o);
  mv_free : forall n, n ∈ ups.*2 -> t !! n = None
}.

Lemma moves_cons t o n ups x :
  t !! o = Some x -> moves t ((o, n) :: ups) ->
  t !! n = None /\ o ∉ ups.*1 /\ n ∉ ups.*2 /\ o ∉ ups.*2 /\ n ∉ ups.*1
  /\ moves (move_node t (o, n)) ups.
Proof.
  intros Ho [Hold Hnew Hthere Hfree]. simpl in *.
  apply list.NoDup_cons in Hold as [Ho1 Hold]. apply list.NoDup_cons in Hnew as [Hn2 Hnew].
  assert (t !! n = None) as Hn by (apply Hfree; apply list_elem_of_here).
  assert (o ∉ ups.*2) as Ho2.
  { intros Hin. rewrite (Hfree o) in Ho; [done |]. by apply list_elem_of_further. }
  assert (n ∉ ups.*1) as Hn1.
  { intros Hin. destruct (Hthere n) as [y Hy]; [by apply list_elem_of_further | congruence]. }
  split_and!; try done. unfold move_node. simpl. rewrite Ho. split; [done | done | |].
  - intros q Hq. rewrite lookup_insert_ne, lookup_delete_ne by (by intros ->).
    apply Hthere. by apply list_elem_of_further.
  - intros q Hq. rewrite lookup_insert_ne, lookup_delete_ne by (by intros ->).
    apply Hfree. by apply list_elem_of_further.
Qed.

Lemma moves_bytes ups u : u_bytes (foldl move_entry u ups) = u_bytes u.
Proof. revert u. induction ups as [| [o n] ups IH]; intros u; [done |]. cbn [foldl]. by rewrite IH. Qed.

Lemma moves_core strict l slack ups u t :
  moves t ups -> usage_core strict l slack u t ->
  usage_core strict l slack (foldl move_entry u ups) (foldl move_node t ups).
Proof.
  revert u t. induction ups as [| [o n] ups IH]; intros u t Hm Hc; [done |].
  destruct (mv_there _ _ Hm o) as [x Ho]; [apply list_elem_of_here |].
  destruct (moves_cons _ _ _ _ _ Ho Hm) as (Hn & _ & _ & _ & _ & Hm').
  cbn [foldl]. apply IH; [done |]. by eapply move_entry_core.
Qed.

Lemma moves_sums ups t :
  moves t ups -> tree_bytes (foldl move_node t ups) = tree_bytes t /\ size (foldl move_node t ups) = size t.
Proof.
  revert t. induction ups as [| [o n] ups IH]; intros t Hm; [done |].
  destruct (mv_there _ _ Hm o) as [x Ho]; [apply list_elem_of_here |].
  destruct (moves_cons _ _ _ _ _ Ho Hm) as (Hn & _ & _ & _ & _ & Hm').
  destruct (move_node_sums t o n x Ho Hn) as (_ & Hb & Hs). cbn [foldl]. rewrite <- Hb, <- Hs. by apply IH.
Qed.

Lemma moves_lookup ups t :
  moves t ups ->
  (forall o n, (o, n) ∈ ups -> foldl move_node t ups !! n = t !! o)
  /\ (forall o, o ∈ ups.*1 -> foldl move_node t ups !! o = None)
  /\ (forall q, q ∉ ups.*1 -> q ∉ ups.*2 -> foldl move_node t ups !! q = t !! q).
Proof.
  revert t. induction ups as [| [o n] ups IH]; intros t Hm.
  { split_and!; [by intros ? ? ?%elem_of_nil | by intros ? ?%elem_of_nil | done]. }
  destruct (mv_there _ _ Hm o) as [x Ho]; [apply list_elem_of_here |].
  destruct (moves_cons _ _ _ _ _ Ho Hm) as (Hn & Ho1 & Hn2 & Ho2 & Hn1 & Hm').
  assert (o <> n) as Hne by congruence.
  destruct (IH _ Hm') as (Hmoved & Hgone & Hrest). cbn [foldl].
  assert (forall q, q <> o -> q <> n -> move_node t (o, n) !! q = t !! q) as Hother.
  { intros q Hqo Hqn. unfold move_node. simpl. rewrite Ho. by rewrite lookup_insert_ne, lookup_delete_ne. }
  assert (forall o' n', (o', n') ∈ ups -> o' ∈ ups.*1 /\ n' ∈ ups.*2) as Hin.
  { intros o' n' Hon. split; apply list_elem_of_fmap; by exists (o', n'). }
  split_and!.
  - intros o' n' [[= -> ->] | Hon]%elem_of_cons.
    + rewrite Hrest by done. unfold move_node. simpl. by rewrite Ho, lookup_insert_eq.
    + rewrite (Hmoved o' n' Hon). destruct (Hin o' n' Hon) as [Ho' _].
      apply Hother; intros ->; done.
  - intros o' [-> | Hin']%elem_of_cons; [| by apply Hgone]. simpl. rewrite Hrest by done.
    unfold move_node. simpl. rewrite Ho, lookup_insert_ne by done. apply lookup_delete_eq.
  - simpl. intros q [Hqo Hq1]%not_elem_of_cons [Hqn Hq2]%not_elem_of_cons.
    rewrite Hrest by done. by apply Hother.
Qed.

(** The updates [Rename] collects. *)
Lemma rename_updates_spec from to depth names ups :
  rename_updates from to depth names = Some ups ->
  (forall o n, (o, n) ∈ ups <-> o ∈ names /\ at_or_below from o = true /\ n = to +:+ trim_prefix from o)
  /\ (forall n, n ∈ ups.*2 -> clean_name depth n) /\ (NoDup names -> NoDup ups.*1).
Proof.
  revert ups. induction names as [| q names IH]; intros ups; simpl.
  { intros [= <-]. split_and!; [| by intros ? ?%elem_of_nil | by constructor].
    intros o n. split; [by intros ?%elem_of_nil | by intros [?%elem_of_nil _]]. }
  destruct (at_or_below from q) eqn:Hq.
  - destruct (cleanGuestPath _ _ _) as [c |] eqn:Hclean; [| done].
    destruct (rename_updates from to depth names) as [ups' |] eqn:Hups; [| done]. intros [= <-].
    destruct (IH ups' eq_refl) as (Hin & Hcl & Hnd). split_and!.
    + intros o n. rewrite !elem_of_cons, Hin. split.
      * intros [[= -> ->] | (? & ? & ?)]; auto.
      * intros ([-> | ?] & ? & ->); auto.
    + intros n [-> | Hn]%elem_of_cons; [| by apply Hcl].
      by apply accepted_clean_name in Hclean as [_ [[_ ?] | ?]].
    + intros [Hqn Hn]%list.NoDup_cons. simpl. apply list.NoDup_cons. split; [| by apply Hnd].
      intros ([o n] & Ho & Hon)%list_elem_of_fmap. simpl in Ho. subst o. apply Hin in Hon. by destruct Hon.
  - intros Hups. destruct (IH ups Hups) as (Hin & Hcl & Hnd). split_and!; [| done |].
    + intros o n. rewrite Hin, elem_of_cons. split; [by intros (? & ? & ?); auto |].
      intros ([-> | ?] & ? & ?); [congruence | done].
    + by intros [_ ?]%list.NoDup_cons; apply Hnd.
Qed.

Lemma nodup_targets (ups : list (string * string)) :
  NoDup ups.*1 ->
  (forall o n o' n', (o, n) ∈ ups -> (o', n') ∈ ups -> n = n' -> o = o') -> NoDup ups.*2.
Proof.
  induction ups as [| [o n] ups IH]; intros Hnd Hinj; [constructor |].
  simpl in *. apply list.NoDup_cons in Hnd as [Ho Hnd]. apply list.NoDup_cons. split.
  - intros ([o' n'] & -> & Hin)%list_elem_of_fmap. apply Ho.
    rewrite (Hinj o n' o' n') by (done || apply list_elem_of_here || by apply list_elem_of_further).
    apply list_elem_of_fmap. by exists (o', n').
  - apply IH; [done |]. intros o1 n1 o2 n2 H1 H2. apply Hinj; by apply list_elem_of_further.
Qed.

Section rename.
Context (l : WLimits) (debt : N) (u : treeUsage) (t : tree) (from to : string).
Context (ups : list (string * string)).
Hypothesis Hnames : m_dir <$> u_entries u = is_dir <$> t.
Hypothesis Htree : tree_ok l debt t.
Hypothesis Hto : t !! to = None.
Hypothesis Hups : rename_updates from to (MaxDepth l) (map fst (map_to_list (u_entries u))) = Some ups.
Hypothesis Hsome : ups <> [].

Lemma names_in_tree q : q ∈ map fst (map_to_list (u_entries u)) <-> is_Some (t !! q).
Proof.
  assert (is_Some (u_entries u !! q) <-> is_Some (t !! q)) as <-.
  { rewrite <- (fmap_is_Some m_dir (u_entries u !! q)), <- (fmap_is_Some is_dir (t !! q)).
    by rewrite <- !lookup_fmap, Hnames. }
  rewrite list_elem_of_fmap. split.
  - intros ([q' mode] & -> & Hin%elem_of_map_to_list). by eexists.
  - intros [mode Hm]. exists (q, mode). split; [done |]. by apply elem_of_map_to_list.
Qed.

Lemma update_elem o n :
  (o, n) ∈ ups <-> exists s, suffix_ok s /\ o = from +:+ s /\ n = to +:+ s /\ is_Some (t !! o).
Proof.
  destruct (rename_updates_spec _ _ _ _ _ Hups) as (Hin & _). rewrite Hin, names_in_tree. split.
  - intros (Ho & (s & -> & Hs)%below_suffix & ->). exists s. by rewrite trim_prefix_app.
  - intros (s & Hs & -> & -> & Ho). rewrite trim_prefix_app, below_suffix. eauto.
Qed.

(** Nothing is at or below [to]. *)
Lemma to_free s : suffix_ok s -> t !! (to +:+ s) = None.
Proof.
  intros [-> | [r ->]%has_prefix_slash]; [by rewrite str_app_nil |].
  apply (free_leaf l debt t to Htree Hto). apply prefix_iff. exists r. by rewrite str_app_assoc.
Qed.

Lemma from_there : is_Some (t !! from).
Proof.
  assert (exists o n, (o, n) ∈ ups) as (o & n & Hin).
  { clear -Hsome. destruct ups as [| [o n] rest]; [done |]. exists o, n. apply list_elem_of_here. }
  apply update_elem in Hin as (s & Hs & -> & -> & Ho).
  destruct Hs as [-> | [r ->]%has_prefix_slash]; [by rewrite str_app_nil in Ho |].
  exists NDir. apply (to_closed _ _ _ Htree _ from Ho). apply prefix_iff. exists r. by rewrite str_app_assoc.
Qed.

Lemma from_not_below_to : at_or_below to from = false.
Proof.
  apply not_true_iff_false. intros (s & Heq & Hs)%below_suffix. destruct from_there as [n Hn].
  rewrite Heq, to_free in Hn by done. done.
Qed.

Lemma rename_moves : moves t ups.
Proof.
  destruct (rename_updates_spec _ _ _ _ _ Hups) as (_ & _ & Hnd).
  assert (NoDup ups.*1) as Hold by (apply Hnd, NoDup_fst_map_to_list). split; [done | | |].
  - apply nodup_targets; [done |].
    intros o n o' n' (x & _ & -> & -> & _)%update_elem (x' & _ & -> & -> & _)%update_elem Heq.
    by apply str_app_inv_head in Heq as ->.
  - intros o ([o' n] & -> & (_ & _ & _ & _ & Ho)%update_elem)%list_elem_of_fmap. done.
  - intros n ([o n'] & -> & (x & Hx & _ & -> & _)%update_elem)%list_elem_of_fmap. by apply to_free.
Qed.

(** The moves one by one are the rename of the directory. *)
Lemma rename_tree t' : renamed from to t t' -> foldl move_node t ups = t'.
Proof.
  intros [Hapart Hmoved Hgone Hother]. destruct (moves_lookup ups t rename_moves) as (Hm & Hg & Hr).
  assert (forall s, suffix_ok s -> at_or_below from (to +:+ s) = false) as Hnot.
  { intros x Hx. apply not_true_iff_false. intros (y & Heq & Hy)%below_suffix.
    pose proof from_not_below_to. destruct (below_comparable to from x y Hx Hy Heq); congruence. }
  assert (forall q, q ∈ ups.*1 -> at_or_below from q = true) as Hold.
  { intros q ([o n] & -> & (x & Hx & -> & _)%update_elem)%list_elem_of_fmap. apply below_suffix. eauto. }
  assert (forall q, q ∈ ups.*2 -> exists x, suffix_ok x /\ q = to +:+ x /\ is_Some (t !! (from +:+ x))) as Hnew.
  { intros q ([o n] & -> & (x & Hx & -> & -> & Ho)%update_elem)%list_elem_of_fmap. eauto. }
  apply map_eq. intros q. destruct (at_or_below from q) eqn:Hf.
  - rewrite (Hgone q Hf). destruct (decide (q ∈ ups.*1)) as [Hin | Hin]; [by apply Hg |].
    rewrite Hr; [| done |].
    + apply below_suffix in Hf as (x & -> & Hx).
      destruct (t !! (from +:+ x)) as [n |] eqn:Hn; [| done]. destruct Hin.
      apply list_elem_of_fmap. exists (from +:+ x, to +:+ x). split; [done |]. apply update_elem.
      exists x. by rewrite Hn.
    + intros (x & Hx & -> & _)%Hnew. by rewrite Hnot in Hf.
  - assert (q ∉ ups.*1) as Hq1 by (intros Hin%Hold; congruence).
    destruct (at_or_below to q) eqn:Ht.
    + apply below_suffix in Ht as (x & -> & Hx). rewrite (Hmoved x Hx).
      destruct (t !! (from +:+ x)) as [n |] eqn:Hn.
      * rewrite (Hm (from +:+ x)); [done |]. apply update_elem. exists x. by rewrite Hn.
      * rewrite Hr; [by apply to_free | done |]. intros (y & Hy & Heq & Hsm)%Hnew.
        apply str_app_inv_head in Heq as <-. rewrite Hn in Hsm. by destruct Hsm.
    + rewrite (Hother q Hf Ht). apply Hr; [done |]. intros (x & Hx & -> & _)%Hnew.
      apply not_true_iff_false in Ht. apply Ht, below_suffix. eauto.
Qed.

(** Where an entry of the renamed directory comes from. *)
Lemma renamed_source t' q n :
  renamed from to t t' -> t' !! q = Some n ->
  (exists s, suffix_ok s /\ q = to +:+ s /\ t !! (from +:+ s) = Some n)
  \/ at_or_below from q = false /\ at_or_below to q = false /\ t !! q = Some n.
Proof.
  intros [Hapart Hmoved Hgone Hother] Hq. destruct (at_or_below from q) eqn:Hf.
  { by rewrite (Hgone q Hf) in Hq. }
  destruct (at_or_below to q) eqn:Ht.
  - apply below_suffix in Ht as (x & -> & Hx). left. exists x. by rewrite <- (Hmoved x Hx).
  - right. by rewrite <- (Hother q Hf Ht).
Qed.

Lemma below_prefix p q : has_prefix (q +:+ "/") p = true -> at_or_below q p = true.
Proof. intros H'. unfold at_or_below. rewrite H'. apply orb_true_r. Qed.

Lemma rename_closed t' p q n :
  renamed from to t t' -> parents_ok t to -> t' !! p = Some n ->
  has_prefix (q +:+ "/") p = true -> t' !! q = Some NDir.
Proof.
  intros Hren Hpar Hp Hq. pose proof Hren as [Hapart Hmoved _ Hother].
  assert (at_or_below from q = false -> at_or_below to q = false -> t !! q = Some NDir -> t' !! q = Some NDir)
    as Hkeep by (intros Hf Ht <-; by apply Hother).
  destruct (renamed_source t' p n Hren Hp) as [(x & Hx & -> & Hn) | (Hf & Ht & Hn)].
  - destruct (at_or_below to q) eqn:Htq.
    + apply below_suffix in Htq as (y & -> & Hy). rewrite (Hmoved y Hy).
      apply (to_closed _ _ _ Htree (from +:+ x)); [by eexists |].
      apply prefix_iff in Hq as [r Hr]. rewrite !str_app_assoc in Hr. apply str_app_inv_head in Hr as ->.
      apply prefix_iff. exists r. by rewrite !str_app_assoc.
    + pose proof (below_prefix _ _ Hq) as Hqp.
      assert (at_or_below q to = true) as Hqt.
      { apply below_suffix in Hqp as (y & Heq & Hy).
        destruct (below_comparable to q x y Hx Hy Heq); [congruence | done]. }
      apply Hkeep; [| done |].
      * apply not_true_iff_false. intros Hfq. pose proof (below_trans _ _ _ Hfq Hqt). congruence.
      * apply Hpar. unfold at_or_below in Hqt. apply orb_prop in Hqt as [Heq |]; [| done]. guards.
        subst q. by rewrite below_refl in Htq.
  - pose proof (below_prefix _ _ Hq) as Hqp. apply Hkeep.
    + apply not_true_iff_false. intros Hfq. pose proof (below_trans _ _ _ Hfq Hqp). congruence.
    + apply not_true_iff_false. intros Htq. pose proof (below_trans _ _ _ Htq Hqp). congruence.
    + apply (to_closed _ _ _ Htree p); [by eexists | done].
Qed.

Lemma rename_tree_ok t' :
  renamed from to t t' -> parents_ok t to -> tree_ok l debt t'.
Proof.
  intros Hren Hpar. destruct (moves_sums ups t rename_moves) as [Hb' Hs']. rewrite (rename_tree t' Hren) in Hb', Hs'.
  pose proof (to_total _ _ _ Htree). pose proof (to_count _ _ _ Htree).
  destruct (rename_updates_spec _ _ _ _ _ Hups) as (_ & Hclean & _).
  split.
  - by rewrite Hs'.
  - lia.
  - intros p s Hp. destruct (renamed_source t' p _ Hren Hp) as [(x & _ & _ & Hx) | (_ & _ & Hx)];
      by apply (to_file _ _ _ Htree) in Hx.
  - intros p [n Hp]. destruct (renamed_source t' p _ Hren Hp) as [(x & Hx & -> & Hn) | (_ & _ & Hn)].
    + apply Hclean, list_elem_of_fmap. exists (from +:+ x, to +:+ x). split; [done |].
      apply update_elem. exists x. by rewrite Hn.
    + apply (to_clean _ _ _ Htree). by eexists.
  - intros p q [n Hp] Hq. by apply (rename_closed t' p q n).
Qed.
End rename.

(** ** What the filesystem believes *)

(** [tb] is the directory the usage describes: the same entries as [t], with
    files no larger than they are, [debt] bytes smaller at most in all. *)
Record believed (l : WLimits) (slack debt : N) (u : treeUsage) (tb t : tree) : Prop := {
  be_kinds : is_dir <$> tb = is_dir <$> t;
  be_least : forall p a s, tb !! p = Some (NFile a) -> t !! p = Some (NFile s) -> (a <= s)%N;
  be_debt : (tree_bytes t <= tree_bytes tb + debt)%N;
  be_room : (u_bytes u + tree_bytes t <= MaxBytes l + slack + debt + tree_bytes tb)%N
}.

Lemma kinds_lookup tb t p : is_dir <$> tb = is_dir <$> t -> is_dir <$> tb !! p = is_dir <$> t !! p.
Proof. intros Hk. by rewrite <- !lookup_fmap, Hk. Qed.

Lemma kinds_none tb t p : is_dir <$> tb = is_dir <$> t -> t !! p = None <-> tb !! p = None.
Proof. intros Hk%(kinds_lookup _ _ p). by destruct (tb !! p), (t !! p). Qed.

Lemma kinds_dir tb t p : is_dir <$> tb = is_dir <$> t -> t !! p = Some NDir <-> tb !! p = Some NDir.
Proof. intros Hk%(kinds_lookup _ _ p). by destruct (tb !! p) as [[|] |], (t !! p) as [[|] |]. Qed.

Lemma kinds_file tb t p s :
  is_dir <$> tb = is_dir <$> t -> t !! p = Some (NFile s) -> exists a, tb !! p = Some (NFile a).
Proof.
  intros Hk%(kinds_lookup _ _ p) Hp. rewrite Hp in Hk. destruct (tb !! p) as [[| a] |]; try done. by exists a.
Qed.

Lemma kinds_some tb t p : is_dir <$> tb = is_dir <$> t -> is_Some (t !! p) <-> is_Some (tb !! p).
Proof. intros Hk. rewrite <- !not_eq_None_Some. by rewrite (kinds_none _ _ p Hk). Qed.

Lemma kinds_size tb t : is_dir <$> tb = is_dir <$> t -> size tb = size t.
Proof. intros Hk. by rewrite <- (map_size_fmap is_dir tb), Hk, map_size_fmap. Qed.

Lemma kinds_insert tb t p n n' :
  is_dir <$> tb = is_dir <$> t -> is_dir n = is_dir n' -> is_dir <$> <[p := n]> tb = is_dir <$> <[p := n']> t.
Proof. intros Hk Hn. by rewrite !fmap_insert, Hk, Hn. Qed.

(** A tree whose files are no larger holds no more bytes. *)
Lemma tree_bytes_mono tb t :
  is_dir <$> tb = is_dir <$> t ->
  (forall p a s, tb !! p = Some (NFile a) -> t !! p = Some (NFile s) -> (a <= s)%N) ->
  (tree_bytes tb <= tree_bytes t)%N.
Proof.
  revert t. induction tb as [| p n tb Hp IH] using map_ind; intros t Hk Hle.
  { unfold tree_bytes at 1. rewrite map_sum_empty. lia. }
  pose proof (tree_bytes_set tb p n) as Hset. rewrite Hp in Hset. simpl in Hset.
  pose proof (tree_bytes_delete t p) as Hd.
  pose proof (kinds_lookup _ _ p Hk) as Hpk. rewrite lookup_insert_eq in Hpk.
  assert (tree_bytes tb <= tree_bytes (delete p t))%N as Hrest.
  { apply IH.
    - rewrite fmap_delete, <- Hk, fmap_insert, delete_insert_id; [done |]. by rewrite lookup_fmap, Hp.
    - intros q a s Hq [Hne Hs]%lookup_delete_Some. apply (Hle q); [by rewrite lookup_insert_ne | done]. }
  destruct (t !! p) as [x |] eqn:Hx; [| done]. destruct n as [| a], x as [| s]; simpl in *; try done; [lia |].
  specialize (Hle p a s ltac:(apply lookup_insert_eq) Hx). lia.
Qed.

Section believed.
Context (l : WLimits) (slack debt : N) (u : treeUsage) (tb t : tree).
Hypothesis Hbe : believed l slack debt u tb t.

Lemma believed_le : (tree_bytes tb <= tree_bytes t)%N.
Proof. apply tree_bytes_mono; apply Hbe. Qed.

(** What one file's size lags behind is part of the debt. *)
Lemma believed_file p a s :
  tb !! p = Some (NFile a) -> t !! p = Some (NFile s) ->
  (a <= s)%N /\ (s - a <= debt)%N /\ (tree_bytes tb + (s - a) <= tree_bytes t)%N.
Proof.
  intros Ha Hs. pose proof (be_least _ _ _ _ _ _ Hbe p a s Ha Hs) as Hle.
  pose proof (tree_bytes_delete tb p) as Hdb. pose proof (tree_bytes_delete t p) as Hd.
  rewrite Ha in Hdb. rewrite Hs in Hd. simpl in Hd, Hdb. pose proof (be_debt _ _ _ _ _ _ Hbe).
  assert (tree_bytes (delete p tb) <= tree_bytes (delete p t))%N; [| lia].
  apply tree_bytes_mono.
  - by rewrite !fmap_delete, (be_kinds _ _ _ _ _ _ Hbe).
  - intros q a' s' [_ Ha']%lookup_delete_Some [_ Hs']%lookup_delete_Some.
    by apply (be_least _ _ _ _ _ _ Hbe q).
Qed.

Lemma believed_tree : tree_ok l debt t -> tree_ok l debt tb.
Proof.
  intros [Hcount Htotal Hfile Hclean Hclosed]. pose proof (be_kinds _ _ _ _ _ _ Hbe) as Hk.
  pose proof believed_le. split.
  - by rewrite (kinds_size _ _ Hk).
  - lia.
  - intros p a Ha. destruct (kinds_file t tb p a (eq_sym Hk) Ha) as [s Hs].
    pose proof (Hfile p s Hs). destruct (believed_file p a s Ha Hs). lia.
  - intros p Hp. apply Hclean. by apply (kinds_some _ _ _ Hk).
  - intros p q Hp Hq. apply (kinds_dir _ _ _ Hk), (Hclosed p); [| done]. by apply (kinds_some _ _ _ Hk).
Qed.

Lemma believed_parents p : parents_ok tb p -> parents_ok t p.
Proof. intros Hp q Hq. by apply (kinds_dir _ _ _ (be_kinds _ _ _ _ _ _ Hbe)), Hp. Qed.

(** A file's size becomes [n] on the disk and [a'] in the usage. *)
Lemma believed_set slack' debt' u' p a s a' n :
  tb !! p = Some (NFile a) -> t !! p = Some (NFile s) -> (a' <= n)%N -> (n + a <= s + a' + (debt' - debt))%N ->
  (debt <= debt')%N ->
  (u_bytes u' + n + a + tree_bytes t <= MaxBytes l + slack' + debt' + s + a' + tree_bytes tb)%N ->
  believed l slack' debt' u' (<[p := NFile a']> tb) (<[p := NFile n]> t).
Proof.
  intros Ha Hs Hle Hn Hd Hroom. pose proof (tree_bytes_set tb p (NFile a')) as Hb.
  pose proof (tree_bytes_set t p (NFile n)) as Ht. rewrite Ha in Hb. rewrite Hs in Ht. simpl in Hb, Ht.
  destruct (believed_file p a s Ha Hs) as (? & ? & ?). pose proof (be_debt _ _ _ _ _ _ Hbe). split.
  - by apply kinds_insert; [apply Hbe |].
  - intros q x y. rewrite !lookup_insert. destruct (decide (p = q)); [by intros [= <-] [= <-] | apply Hbe].
  - lia.
  - lia.
Qed.

Lemma believed_add u' p n :
  t !! p = None -> node_size n = 0%N -> u_bytes u' = u_bytes u ->
  believed l slack debt u' (<[p := n]> tb) (<[p := n]> t).
Proof.
  intros Hp Hn Hu. pose proof (be_kinds _ _ _ _ _ _ Hbe) as Hk.
  pose proof (proj1 (kinds_none _ _ p Hk) Hp) as Hpb.
  pose proof (tree_bytes_set tb p n) as Hb. pose proof (tree_bytes_set t p n) as Ht.
  rewrite Hpb in Hb. rewrite Hp in Ht. simpl in Hb, Ht. pose proof (be_debt _ _ _ _ _ _ Hbe).
  pose proof (be_room _ _ _ _ _ _ Hbe). split; [by apply kinds_insert | | lia | lia].
  intros q x y. rewrite !lookup_insert. destruct (decide (p = q)); [by intros [= ->] [= ->] | apply Hbe].
Qed.

Lemma believed_delete u' p :
  (u_bytes u' + default 0 (node_size <$> tb !! p) <= u_bytes u)%N ->
  believed l slack debt u' (delete p tb) (delete p t).
Proof.
  intros Hu. pose proof (be_kinds _ _ _ _ _ _ Hbe) as Hk.
  pose proof (tree_bytes_delete tb p) as Hb. pose proof (tree_bytes_delete t p) as Ht.
  pose proof (be_debt _ _ _ _ _ _ Hbe). pose proof (be_room _ _ _ _ _ _ Hbe).
  assert (default 0 (node_size <$> tb !! p) <= default 0 (node_size <$> t !! p))%N as Hle.
  { pose proof (kinds_lookup _ _ p Hk) as Hpk. destruct (tb !! p) as [[| a] |] eqn:Ha; simpl; [lia | | lia].
    destruct (t !! p) as [[| s] |] eqn:Hs; try done. simpl. by apply (be_least _ _ _ _ _ _ Hbe p). }
  split; [by rewrite !fmap_delete, Hk | | lia | lia].
  intros q x y [_ Hx]%lookup_delete_Some [_ Hy]%lookup_delete_Some. by apply (be_least _ _ _ _ _ _ Hbe q).
Qed.

Lemma believed_weaken slack' debt' :
  (slack <= slack')%N -> (debt <= debt')%N -> believed l slack' debt' u tb t.
Proof. intros Hs Hd. destruct Hbe as [Hk Hle Hb Hr]. split; [done | done | lia | lia]. Qed.
End believed.

(** Without a debt the filesystem believes what is there. *)
Lemma believed_exact l slack u tb t : believed l slack 0 u tb t -> tb = t.
Proof.
  intros Hbe. apply map_eq. intros p. pose proof (be_kinds _ _ _ _ _ _ Hbe) as Hk.
  pose proof (kinds_lookup _ _ p Hk) as Hp.
  destruct (tb !! p) as [[| a] |] eqn:Ha, (t !! p) as [[| s] |] eqn:Hs; try done.
  destruct (believed_file _ _ _ _ _ _ Hbe p a s Ha Hs). do 2 f_equal. lia.
Qed.

Lemma believed_refl l slack u t : (u_bytes u <= MaxBytes l + slack)%N -> believed l slack 0 u t t.
Proof. intros Hu. split; [done | | lia | lia]. intros p a s Ha Hs. rewrite Ha in Hs. by injection Hs as ->. Qed.

(** The moves of a rename, in what is there and in what is believed. *)
Lemma believed_moves l slack debt u u' tb t ups :
  believed l slack debt u tb t -> moves t ups -> u_bytes u' = u_bytes u ->
  believed l slack debt u' (foldl move_node tb ups) (foldl move_node t ups).
Proof.
  revert tb t. induction ups as [| [o n] ups IH]; intros tb t Hbe Hm Hu; cbn [foldl].
  { destruct Hbe as [Hk Hle Hd Hr]. split; [done | done | done | by rewrite Hu]. }
  destruct (mv_there _ _ Hm o) as [x Ho]; [apply list_elem_of_here |].
  destruct (moves_cons _ _ _ _ _ Ho Hm) as (Hn & _ & _ & _ & _ & Hm'). apply IH; [| done | done].
  pose proof (be_kinds _ _ _ _ _ _ Hbe) as Hk. assert (o <> n) as Hne by congruence.
  pose proof (kinds_lookup _ _ o Hk) as Hok. rewrite Ho in Hok.
  destruct (tb !! o) as [y |] eqn:Hy; [| done]. simpl in Hok.
  pose proof (proj1 (kinds_none _ _ n Hk) Hn) as Hnb.
  destruct (move_node_sums t o n x Ho Hn) as (Ht & Htb & _).
  destruct (move_node_sums tb o n y Hy Hnb) as (Hb & Hbb & _).
  split; rewrite ?Htb, ?Hbb; try apply Hbe; rewrite Ht, Hb.
  - apply kinds_insert; [by rewrite !fmap_delete, Hk | congruence].
  - intros q a s. rewrite !lookup_insert. destruct (decide (n = q)).
    + intros [= ->] [= ->]. by apply (be_least _ _ _ _ _ _ Hbe o).
    + intros [_ Ha]%lookup_delete_Some [_ Hs]%lookup_delete_Some. by apply (be_least _ _ _ _ _ _ Hbe q).
Qed.

(** A rename that succeeded, in the usage and on the disk. *)
Lemma renamed_core strict l slack debt u tb t t' from to ups :
  usage_core strict l (slack + debt) u tb -> believed l slack debt u tb t ->
  tree_ok l debt t -> tree_ok l debt tb -> tb !! to = None ->
  rename_updates from to (MaxDepth l) (map fst (map_to_list (u_entries u))) = Some ups -> ups <> [] ->
  renamed from to t t' -> parents_ok t to ->
  exists tb', usage_core strict l (slack + debt) (foldl move_entry u ups) tb'
    /\ believed l slack debt (foldl move_entry u ups) tb' t' /\ tree_ok l debt t'.
Proof.
  intros Hc Hbe Ht Htb Hto Hups Hsome Hren Hpar. pose proof (be_kinds _ _ _ _ _ _ Hbe) as Hk.
  pose proof (uc_names _ _ _ _ _ Hc) as Hnb. assert (m_dir <$> u_entries u = is_dir <$> t) as Hn by congruence.
  assert (t !! to = None) as Hto' by (by apply (kinds_none _ _ _ Hk)).
  exists (foldl move_node tb ups). split_and!.
  - apply moves_core; [| done]. by eapply rename_moves.
  - rewrite <- (rename_tree l debt u t from to ups Hn Ht Hto' Hups Hsome t' Hren).
    eapply believed_moves; [exact Hbe | by eapply rename_moves | apply moves_bytes].
  - by eapply rename_tree_ok.
Qed.

(** ** Reserving and reconciling *)

Lemma sub64_le a b : (b <= a)%N -> (a < 2 ^ 64)%N -> (sub64 a b + b = a)%N.
Proof. intros Hb Ha. rewrite sub64_exact by done. lia. Qed.

(** What a reservation leaves: at least [size] bytes for [name], within the
    limits if any had to be added. *)
Lemma reserveSize_spec name size fs fs' :
  reserveSize name size fs = (true, fs') -> (MaxBytes (fs_limits fs) < 2 ^ 64)%N ->
  fs_limits fs' = fs_limits fs /\ fs_open fs' = fs_open fs
  /\ u_entries (fs_usage fs') = u_entries (fs_usage fs) /\ u_files (fs_usage fs') = u_files (fs_usage fs)
  /\ exists r, r = (size_of name (fs_usage fs) `max` size)%N /\ size_of name (fs_usage fs') = r
     /\ (forall q, q <> name -> u_sizes (fs_usage fs') !! q = u_sizes (fs_usage fs) !! q)
     /\ (u_bytes (fs_usage fs') + size_of name (fs_usage fs) = u_bytes (fs_usage fs) + r)%N
     /\ (r = size_of name (fs_usage fs)
         \/ (r <= MaxFileBytes (fs_limits fs) /\ u_bytes (fs_usage fs') <= MaxBytes (fs_limits fs))%N).
Proof.
  unfold reserveSize. intros Hres Hfit. destruct (size <=? size_of name (fs_usage fs))%N eqn:Hle; guards.
  { injection Hres as <-. split_and!; try done. exists (size_of name (fs_usage fs)).
    split_and!; try done; [lia | by left]. }
  destruct ((MaxFileBytes (fs_limits fs) <? size)%N || (MaxBytes (fs_limits fs) <? u_bytes (fs_usage fs))%N)
    eqn:Hmax; [done |]. guards.
  destruct (MaxBytes (fs_limits fs) - u_bytes (fs_usage fs) <? size - size_of name (fs_usage fs))%N eqn:Hd;
    [done |]. guards. injection Hres as <-. simpl.
  assert ((u_bytes (fs_usage fs) + (size - size_of name (fs_usage fs)) < 2 ^ 64)%N) by lia.
  split_and!; try done. exists size. rewrite u64_id by done.
  split_and!; [lia | | | lia | right; lia].
  - unfold size_of at 1. simpl. by rewrite lookup_insert_eq.
  - intros q Hq. by rewrite lookup_insert_ne.
Qed.

(** What [reconcileSize] takes the size to be. *)
Definition actual_size (name : string) (fallback : N) (d : disk) : N :=
  match h_Stat name d with
  | Ok value => if (0 <=? i_size value)%Z then Z.to_N (i_size value) else fallback
  | Err _ => fallback
  end.

Lemma reconcileSize_spec name fallback fs d :
  let a := actual_size name fallback d in
  let u := fs_usage fs in
  (size_of name u <= u_bytes u)%N -> (u_bytes u < 2 ^ 64)%N -> (u_bytes u + a < 2 ^ 64 + size_of name u)%N ->
  exists bytes, reconcileSize name fallback fs d = set_usage (set_sizes (<[name := a]> (u_sizes u)) bytes u) fs
    /\ (bytes + size_of name u = u_bytes u + a)%N.
Proof.
  intros a u Hle Hfit Hup. unfold reconcileSize. change (match h_Stat name d with Ok _ => _ | Err _ => _ end) with a.
  fold u. eexists. split; [reflexivity |].
  destruct (a <? size_of name u)%N eqn:H1; guards.
  - pose proof (sub64_le (u_bytes u) (size_of name u - a)). lia.
  - destruct (size_of name u <? a)%N eqn:H2; guards; [rewrite u64_id by lia |]; lia.
Qed.

(** What a write the reservation covers makes of the file's size. *)
Lemma written_size name base len t t' s :
  t !! name = Some (NFile s) -> written name base len t t' ->
  exists n, t' = <[name := NFile n]> t /\ (n = s \/ s <= n /\ n <= base + len)%N.
Proof.
  intros Hs Hw. unfold written in Hw. rewrite Hs in Hw. destruct Hw as (k & Hk & ->).
  destruct (k =? 0)%N.
  - exists s. split; [symmetry; by apply insert_id | by left].
  - exists (s `max` (base + k))%N. split; [done |]. lia.
Qed.

(** The debt of a write: its bytes, when the file could not be examined. *)
Definition unread (name : string) (len : N) (d : disk) : N :=
  match h_Stat name d with Ok _ => 0%N | Err _ => len end.

(** What is taken for the size of a file of [n] bytes. *)
Lemma actual_size_file name fallback d n len :
  name <> "." -> tree_of d !! name = Some (NFile n) ->
  actual_size name fallback d = n /\ unread name len d = 0%N
  \/ actual_size name fallback d = fallback /\ unread name len d = len.
Proof.
  intros Hroot Hn. unfold actual_size, unread. destruct (h_Stat name d) as [i | e] eqn:Hi; [left | by right].
  rewrite (stat_file d name n i Hroot Hn Hi), (proj2 (Z.leb_le _ _)), N2Z.id by lia. done.
Qed.

Section write.
Context (strict : bool) (slack debt : N) (fs fs1 : rootedFS) (tb t : tree) (d1 : disk) (name : string).
Context (at_ base len : N).
Let l := fs_limits fs.
Let u := fs_usage fs.
Let cur := size_of name u.
Let extra := unread name len d1.
Let slack' := (slack + dir_stat_max)%N.
Hypothesis Hc : usage_core strict l (slack + debt) u tb.
Hypothesis Hbe : believed l slack debt u tb t.
Hypothesis Ht : tree_ok l debt t.
Hypothesis Hfit : limits_fit l (slack' + debt + extra).
Hypothesis Hres : reserveSize name (at_ + len) fs = (true, fs1).
Hypothesis Hat : (at_ <= cur)%N.
Hypothesis Hw : written name base len t (tree_of d1).

(** The usage after the write, from what [reconcileSize] takes the size to be. *)
Lemma write_reconciled a :
  actual_size name cur d1 = a -> (u_bytes u + a <= MaxBytes l + slack' + debt + extra + cur)%N ->
  let fs2 := reconcileSize name cur fs1 d1 in
  exists bytes, fs_usage fs2 = set_sizes (<[name := a]> (u_sizes u)) bytes u
    /\ (bytes + cur = u_bytes u + a)%N /\ fs_limits fs2 = l /\ fs_open fs2 = fs_open fs.
Proof.
  intros Ha Hroom fs2. destruct Hfit as [_ Hfit2]. pose proof (uc_bytes _ _ _ _ _ Hc) as [Hsum Hbytes].
  destruct (reserveSize_spec _ _ _ _ Hres) as (Hl & Hopen & Hent & Hfiles & r & Hr & Hsz & Hoth & Hb & Hcase);
    [fold l; lia |]. fold u l cur in Hent, Hfiles, Hr, Hoth, Hb, Hcase.
  pose proof (size_of_le u name) as Hcur. fold cur in Hcur.
  destruct (reconcileSize_spec name cur fs1 d1) as (bytes & Hfs2 & Hbeq); rewrite ?Ha in *.
  { lia. } { unfold slack' in *. destruct Hcase as [Hcase | [_ Hcase]]; lia. }
  { rewrite Hsz. lia. }
  fold fs2 in Hfs2. exists bytes. rewrite Hfs2. simpl. split; [| split; [lia | by split]].
  unfold set_sizes. rewrite Hent, Hfiles. f_equal. apply map_eq. intros q. rewrite !lookup_insert.
  destruct (decide (name = q)); [done |]. by apply Hoth.
Qed.

Lemma write_room :
  let r := (cur `max` (at_ + len))%N in
  r = cur \/ (r <= MaxFileBytes l /\ u_bytes u + r <= MaxBytes l + cur)%N.
Proof.
  destruct Hfit as [_ Hfit2].
  destruct (reserveSize_spec _ _ _ _ Hres) as (_ & _ & _ & _ & r & Hr & _ & _ & Hb & Hcase);
    [fold l; lia |]. fold u l cur in Hr, Hb, Hcase. rewrite <- Hr.
  destruct Hcase as [Hcase | [Hc1 Hc2]]; [by left | right; lia].
Qed.

Definition write_kept (fs2 : rootedFS) : Prop :=
  exists tb', usage_core strict l (slack' + (debt + extra)) (fs_usage fs2) tb'
  /\ believed l slack' (debt + extra) (fs_usage fs2) tb' (tree_of d1) /\ tree_ok l (debt + extra) (tree_of d1)
  /\ fs_limits fs2 = l /\ fs_open fs2 = fs_open fs.

(** Through a file: [base] is where the disk writes, [at_] where the usage
    takes it to write. *)
Lemma write_file s :
  t !! name = Some (NFile s) -> (base + cur <= at_ + s)%N -> write_kept (reconcileSize name cur fs1 d1).
Proof.
  intros Hs Hbase. destruct (written_size _ _ _ _ _ _ Hs Hw) as (n & Htree & Hn).
  destruct (kinds_file _ _ _ _ (be_kinds _ _ _ _ _ _ Hbe) Hs) as [a Ha].
  assert (cur = a) as Hcur by (by apply (size_of_file _ _ _ _ _ _ _ Hc)).
  destruct (believed_file _ _ _ _ _ _ Hbe name a s Ha Hs) as (Has & Hdebt & Hlag).
  pose proof (be_debt _ _ _ _ _ _ Hbe) as HT. pose proof (be_room _ _ _ _ _ _ Hbe) as Hroom.
  pose proof (uc_bytes _ _ _ _ _ Hc) as [Hsum Hbytes]. pose proof write_room as Hgrow. cbv zeta in Hgrow.
  pose proof (tree_bytes_total _ _ (uc_sizes _ _ _ _ _ Hc)) as Htot.
  pose proof (to_file _ _ _ Ht name s Hs) as Hfile. pose proof (to_total _ _ _ Ht) as Htotal.
  assert (s <= tree_bytes t)%N by (apply (map_sum_lookup_le (fun _ n => node_size n) t name (NFile s) Hs)).
  assert (name <> ".") as Hroot by (eapply clean_name_not_root, (to_clean _ _ _ Ht); eauto).
  assert (s <= n /\ n <= s + len /\ (n = s \/ n <= MaxFileBytes l + debt /\ u_bytes u + n <= MaxBytes l + s))%N
    as (Hsn & Hlen & Hcases) by lia.
  assert (tree_ok l (debt + extra) (<[name := NFile n]> t)) as Htree'.
  { apply (tree_resize l _ t name s); [| done | lia | lia]. destruct Ht. split; try done; [lia |].
    intros q x Hq. specialize (to_file0 q x Hq). lia. }
  assert (exists a', actual_size name cur d1 = a' /\ (a' <= n)%N
    /\ (a' = n /\ extra = 0 \/ a' = a /\ extra = len)%N) as (a' & Hact & Ha' & Hex).
  { destruct (actual_size_file name cur d1 n len Hroot) as [[Hact Hx] | [Hact Hx]].
    - rewrite Htree. apply lookup_insert_eq.
    - exists n. split_and!; [done | lia | left; by split].
    - exists a. split_and!; [congruence | lia | right; by split]. }
  destruct (write_reconciled a' Hact) as (bytes & Hu & Hb & Hl & Hopen); [unfold slack'; lia |].
  exists (<[name := NFile a']> tb). rewrite Hu, Htree. split_and!; [| | done | done | done].
  - eapply core_resize; [exact Hc | right; split; [done | by exists a] | fold cur; lia | unfold slack'; lia].
  - eapply believed_set; [exact Hbe | exact Ha | exact Hs | done | lia | lia | simpl; unfold slack'; lia].
Qed.

(** Through a directory nothing is written. *)
Lemma write_not_file :
  (forall s, t !! name <> Some (NFile s)) -> strict = false -> write_kept (reconcileSize name cur fs1 d1).
Proof.
  intros Hno Hstrict. assert (tree_of d1 = t) as Htree.
  { unfold written in Hw. destruct (t !! name) as [[| s] |] eqn:Hn; try done. by destruct (Hno s). }
  pose proof (uc_bytes _ _ _ _ _ Hc) as [Hsum Hbytes]. pose proof (be_room _ _ _ _ _ _ Hbe) as Hroom.
  pose proof (be_debt _ _ _ _ _ _ Hbe). pose proof (believed_le _ _ _ _ _ _ Hbe).
  pose proof (size_of_le u name) as Hle. fold cur in Hle.
  assert (actual_size name cur d1 <= cur \/ actual_size name cur d1 <= dir_stat_max)%N as Ha.
  { unfold actual_size. destruct (h_Stat name d1) as [i | e] eqn:Hi; [| lia].
    destruct (0 <=? i_size i)%Z eqn:Hpos; [| lia].
    assert (i_size i <= Z.of_N dir_stat_max)%Z; [| lia].
    apply (stat_dir d1 name i); [| done]. right. by rewrite Htree. }
  destruct (write_reconciled _ eq_refl) as (bytes & Hu & Hb & Hl & Hopen); [unfold slack'; lia |].
  exists tb. rewrite Hu, Htree. split_and!; [| | | done | done].
  - eapply core_resize; [exact Hc | left | fold cur; lia | unfold slack'; lia]. split_and!; [done | | done].
    intros s Hs. destruct (kinds_file _ _ _ _ (eq_sym (be_kinds _ _ _ _ _ _ Hbe)) Hs) as [x Hx]. by apply (Hno x).
  - destruct Hbe as [Hk Hleast _ _]. split; [done | done | lia | simpl; unfold slack'; lia].
  - destruct Ht. split; try done; [lia |]. intros q x Hq. specialize (to_file0 q x Hq). lia.
Qed.
End write.

(** ** Open files *)

Definition open_count (name : string) (files : gmap nat quotaFile) : N :=
  map_sum (fun _ f => if bool_decide (qf_name f = name) then 1%N else 0%N) files.

Record files_ok (opens : gmap string N) (files : gmap nat quotaFile) (next : nat) (t : tree)
    (handles : gmap nat open_handle) : Prop := {
  fo_handle : forall id f, files !! id = Some f -> qf_closed f = false /\
    exists oh, handles !! qf_handle f = Some oh /\ oh_name oh = qf_name f /\ oh_append oh = qf_append f;
  fo_there : forall id f, files !! id = Some f -> qf_name f = "." \/ is_Some (t !! qf_name f);
  fo_owner : forall h oh, handles !! h = Some oh -> exists id f, files !! id = Some f /\ qf_handle f = h;
  fo_distinct : forall id1 f1 id2 f2, files !! id1 = Some f1 -> files !! id2 = Some f2 ->
    qf_handle f1 = qf_handle f2 -> id1 = id2;
  fo_open : forall name, default 0%N (opens !! name) = open_count name files;
  fo_next : forall id, is_Some (files !! id) -> (id < next)%nat;
  fo_size : (size files <= next)%nat
}.

Lemma open_count_le name files : (open_count name files <= N.of_nat (size files))%N.
Proof.
  unfold open_count. induction files as [| id f files Hid IH] using map_ind.
  { by rewrite map_sum_empty. }
  rewrite map_sum_insert, map_size_insert_None by done. destruct (bool_decide _); lia.
Qed.

Lemma open_count_delete name files id f :
  files !! id = Some f ->
  open_count name files =
    ((if bool_decide (qf_name f = name) then 1 else 0) + open_count name (delete id files))%N.
Proof. apply (map_sum_delete (fun _ f => if bool_decide (qf_name f = name) then 1%N else 0%N)). Qed.

Lemma open_count_pos files id f : files !! id = Some f -> (0 < open_count (qf_name f) files)%N.
Proof. intros Hf. rewrite (open_count_delete _ _ _ _ Hf), bool_decide_eq_true_2 by done. lia. Qed.

Lemma files_open opens files next t handles h name app :
  files_ok opens files next t handles -> handles !! h = None -> name = "." \/ is_Some (t !! name) ->
  (N.of_nat next + 1 < 2 ^ 32)%N ->
  files_ok (<[name := u32 (default 0%N (opens !! name) + 1)]> opens)
    (<[next := mkQFile h name app false]> files) (S next) t (<[h := mkHandle name app 0]> handles).
Proof.
  intros [Hh Ht Ho Hd Hop Hn Hs] Hnew Hname Hfit.
  assert (files !! next = None) as Hnone.
  { destruct (files !! next) as [f |] eqn:Hf; [| done]. specialize (Hn next ltac:(by eexists)). lia. }
  split.
  - intros id f. rewrite lookup_insert. destruct (decide (next = id)) as [<- |].
    + intros [= <-]. split; [done |]. exists (mkHandle name app 0). simpl. by rewrite lookup_insert_eq.
    + intros Hf. destruct (Hh id f Hf) as (Hc & oh & Hoh & ? & ?). split; [done |]. exists oh.
      rewrite lookup_insert_ne; [done |]. intros ->. congruence.
  - intros id f. rewrite lookup_insert. destruct (decide (next = id)); [by intros [= <-] | apply Ht].
  - intros x oh. rewrite lookup_insert. destruct (decide (h = x)) as [<- |].
    + intros _. exists next, (mkQFile h name app false). by rewrite lookup_insert_eq.
    + intros Hx. destruct (Ho x oh Hx) as (id & f & Hf & ?). exists id, f.
      rewrite lookup_insert_ne; [done |]. intros <-. congruence.
  - intros id1 f1 id2 f2. rewrite !lookup_insert.
    destruct (decide (next = id1)) as [<- |], (decide (next = id2)) as [<- |]; try done.
    + intros [= <-] H2 Heq. destruct (Hh id2 f2 H2) as (_ & oh & Hoh & _). simpl in Heq. congruence.
    + intros H1 [= <-] Heq. destruct (Hh id1 f1 H1) as (_ & oh & Hoh & _). simpl in Heq. congruence.
    + apply Hd.
  - intros q. unfold open_count. rewrite map_sum_insert by done. simpl.
    pose proof (open_count_le name files) as Hle. rewrite lookup_insert.
    destruct (decide (name = q)) as [<- |].
    + rewrite bool_decide_eq_true_2 by done. simpl. rewrite Hop, u32_id by lia.
      unfold open_count. lia.
    + rewrite bool_decide_eq_false_2 by done. simpl. apply Hop.
  - intros id [f Hf]. rewrite lookup_insert in Hf. destruct (decide (next = id)); [lia |].
    specialize (Hn id ltac:(by eexists)). lia.
  - rewrite map_size_insert_None by done. lia.
Qed.

Lemma files_close opens files next t handles id f :
  files_ok opens files next t handles -> files !! id = Some f ->
  files_ok (if (default 0%N (opens !! qf_name f) <=? 1)%N then delete (qf_name f) opens
            else <[qf_name f := (default 0%N (opens !! qf_name f) - 1)%N]> opens)
    (delete id files) next t (delete (qf_handle f) handles).
Proof.
  intros [Hh Ht Ho Hd Hop Hn Hs] Hf. split.
  - intros x g [Hne Hg]%lookup_delete_Some. destruct (Hh x g Hg) as (? & oh & Hoh & ? & ?).
    split; [done |]. exists oh. rewrite lookup_delete_ne; [done |]. intros Heq.
    by pose proof (Hd id f x g Hf Hg Heq).
  - intros x g [_ Hg]%lookup_delete_Some. by apply (Ht x).
  - intros x oh [Hne Hx]%lookup_delete_Some. destruct (Ho x oh Hx) as (y & g & Hg & ?).
    exists y, g. rewrite lookup_delete_ne; [done |]. intros <-. congruence.
  - intros id1 f1 id2 f2 [_ H1]%lookup_delete_Some [_ H2]%lookup_delete_Some. by apply Hd.
  - intros q. pose proof (open_count_delete q files id f Hf) as Hq. rewrite <- Hop in Hq.
    pose proof (open_count_pos files id f Hf) as Hpos. rewrite <- Hop in Hpos.
    destruct (decide (qf_name f = q)) as [<- | Hne].
    + rewrite bool_decide_eq_true_2 in Hq by done.
      destruct (default 0%N (opens !! qf_name f) <=? 1)%N eqn:Hle; guards.
      * rewrite lookup_delete_eq. simpl. lia.
      * rewrite lookup_insert_eq. simpl. lia.
    + rewrite bool_decide_eq_false_2 in Hq by done.
      destruct (default 0%N (opens !! qf_name f) <=? 1)%N;
        rewrite ?lookup_delete_ne, ?lookup_insert_ne by done; lia.
  - intros x [g [_ Hg]%lookup_delete_Some]. apply Hn. by eexists.
  - rewrite map_size_delete, Hf. simpl. lia.
Qed.

(** Open files follow a handle's offset, and a tree that keeps their names. *)
Lemma files_pos opens files next t handles h pos :
  files_ok opens files next t handles -> files_ok opens files next t (alter (set_pos pos) h handles).
Proof.
  intros [Hh Ht Ho Hd Hop Hn Hs]. split; try done.
  - intros id f Hf. destruct (Hh id f Hf) as (? & oh & Hoh & ? & ?). split; [done |].
    rewrite lookup_alter. destruct (decide (h = qf_handle f)) as [-> |]; rewrite Hoh; simpl; eauto.
  - intros x oh Hx. rewrite lookup_alter in Hx. destruct (decide (h = x)) as [<- |]; [| by eapply Ho].
    destruct (handles !! h) as [oh0 |] eqn:Hoh; [| done]. by eapply Ho.
Qed.

Lemma files_append opens files next t handles id f b :
  files_ok opens files next t handles -> files !! id = Some f ->
  files_ok opens (<[id := mkQFile (qf_handle f) (qf_name f) b (qf_closed f)]> files) next t
    (alter (set_append b) (qf_handle f) handles).
Proof.
  intros [Hh Ht Ho Hd Hop Hn Hs] Hf. set (f' := mkQFile _ _ _ _). split.
  - intros x g. rewrite lookup_insert. destruct (decide (id = x)) as [<- |].
    + intros [= <-]. destruct (Hh id f Hf) as (? & oh & Hoh & ? & ?). split; [done |].
      exists (set_append b oh). simpl. by rewrite lookup_alter_eq, Hoh.
    + intros Hg. destruct (Hh x g Hg) as (? & oh & Hoh & ? & ?). split; [done |]. exists oh.
      rewrite lookup_alter_ne; [done |]. intros Heq. by pose proof (Hd id f x g Hf Hg Heq).
  - intros x g. rewrite lookup_insert. destruct (decide (id = x)) as [<- |]; [| apply Ht].
    intros [= <-]. by apply (Ht id f).
  - intros x oh Hx. assert (is_Some (handles !! x)) as [oh0 Hx0].
    { rewrite lookup_alter in Hx. destruct (decide (qf_handle f = x)) as [<- |]; [| by eexists].
      by destruct (handles !! qf_handle f). }
    destruct (Ho x oh0 Hx0) as (y & g & Hg & Hgx). destruct (decide (id = y)) as [<- |].
    + exists id, f'. rewrite lookup_insert_eq. by simplify_eq.
    + exists y, g. by rewrite lookup_insert_ne.
  - intros id1 f1 id2 f2. rewrite !lookup_insert.
    destruct (decide (id = id1)) as [<- |], (decide (id = id2)) as [<- |]; try done.
    + intros [= <-] H2 ?. by apply (Hd id f id2 f2).
    + intros H1 [= <-] ?. by apply (Hd id1 f1 id f).
    + apply Hd.
  - intros q. rewrite Hop, (open_count_delete q files id f Hf).
    rewrite (open_count_delete q (<[id := f']> files) id f') by apply lookup_insert_eq.
    by rewrite delete_insert_eq.
  - intros x [g Hg]. rewrite lookup_insert in Hg. apply Hn. destruct (decide (id = x)) as [<- |]; by eexists.
  - by rewrite map_size_insert_Some by eauto.
Qed.

Lemma files_tree opens files next t t' handles :
  files_ok opens files next t handles ->
  (forall id f, files !! id = Some f -> is_Some (t !! qf_name f) -> is_Some (t' !! qf_name f)) ->
  files_ok opens files next t' handles.
Proof.
  intros [Hh Ht Ho Hd Hop Hn Hs] Hkeep. split; try done.
  intros id f Hf. destruct (Ht id f Hf) as [| Hin]; [by left | right]. by apply (Hkeep id).
Qed.

(** ** Mounts *)

Record mount_ok (strict : bool) (l : WLimits) (slack debt : N) (m : mount disk) : Prop := {
  mo_limits : fs_limits (mt_fs m) = l;
  mo_core : exists tb, usage_core strict l (slack + debt) (fs_usage (mt_fs m)) tb
    /\ believed l slack debt (fs_usage (mt_fs m)) tb (tree_of (mt_disk m));
  mo_tree : tree_ok l debt (tree_of (mt_disk m));
  mo_files : files_ok (fs_open (mt_fs m)) (mt_files m) (mt_next m) (tree_of (mt_disk m))
               (handles_of (mt_disk m))
}.

(** The operation does not write through a directory. *)
Definition writes_file (op : guest_op) (m : mount disk) : bool :=
  match op with
  | OpWrite id _ | OpPwrite id _ _ =>
      match mt_files m !! id with
      | Some f => match u_entries (fs_usage (mt_fs m)) !! qf_name f with
                  | Some mode => negb (m_dir mode)
                  | None => false
                  end
      | None => true
      end
  | _ => true
  end.

(** The bytes the operation may add to a file that cannot be examined
    afterwards. *)
Definition unexamined (op : guest_op) (m : mount disk) : N :=
  match op with
  | OpWrite id buffer | OpPwrite id buffer _ =>
      match mt_files m !! id with
      | Some f => unread (qf_name f) (slen buffer) (mt_disk (run_op op m))
      | None => 0%N
      end
  | _ => 0%N
  end.

Lemma core_weaken strict l slack slack' u t :
  usage_core strict l slack u t -> (slack <= slack')%N -> usage_core strict l slack' u t.
Proof. intros [Hn Hs Hf [Hb1 Hb2] He] Hle. split; try done. lia. Qed.

(** The disk answered, and nothing a Guest could see changed. *)
Lemma mount_same strict l slack debt m d' :
  mount_ok strict l slack debt m -> tree_of d' = tree_of (mt_disk m) -> handles_of d' = handles_of (mt_disk m) ->
  mount_ok strict l slack debt (with_fs m (mt_fs m) d').
Proof. intros [Hl Hc Ht Hf] Htree Hhandles. split; simpl; rewrite ?Htree, ?Hhandles; done. Qed.
End Spec.
