(* ===== verification/RootedFSProps.v ===== *)
(** * RootedFSProps: what the workspace's quota guarantees

    Every operation a Guest can make keeps [mount_ok]; so, whatever a Guest
    does and however the Host's calls fail, the private directory's names stay
    inside it, and it stays within its limits but for the bytes of the writes
    after which the Host could not examine the file.
    [unexamined_appends_pass_the_quota] shows that those are not bounded. *)

From S2P Require Import Prelude Errors Json Paths RootedFS HostFS RootedFSSpec.

Section Steps.
Context {disk : Type} `{HostLaws disk}.
Context (strict : bool) (l : WLimits) (slack debt : N) (m : mount disk).
Hypothesis Hok : mount_ok strict l slack debt m.
Hypothesis Hfit : limits_fit l (slack + dir_stat_max + debt).

Let fs := mt_fs m.
Let d := mt_disk m.
Let t := tree_of d.

(** The usage, and the directory it describes. *)
Lemma ok_core : exists tb, usage_core strict l (slack + debt) (fs_usage fs) tb
  /\ believed l slack debt (fs_usage fs) tb t /\ tree_ok l debt tb /\ tree_ok l debt t.
Proof.
  destruct (mo_core _ _ _ _ _ Hok) as (tb & Hc & Hbe). exists tb. split_and!; [done | done | | apply Hok].
  eapply believed_tree; [exact Hbe | apply Hok].
Qed.

Lemma stay : mount_ok strict l slack debt (with_fs m fs d).
Proof. by apply mount_same. Qed.

(** The usage and the tree change; the open files keep their names. *)
Lemma mount_change u d' tb :
  usage_core strict l (slack + debt) u tb -> believed l slack debt u tb (tree_of d') ->
  tree_ok l debt (tree_of d') -> handles_of d' = handles_of d ->
  (forall id f, mt_files m !! id = Some f -> is_Some (t !! qf_name f) -> is_Some (tree_of d' !! qf_name f)) ->
  mount_ok strict l slack debt (with_fs m (set_usage u fs) d').
Proof.
  intros Hc Hbe Ht Hh Hkeep. destruct Hok as [Hl _ _ Hf]. split; simpl; [done | by exists tb | done |].
  rewrite Hh. by apply (files_tree _ _ _ t).
Qed.

Lemma next_small : (N.of_nat (size t) <= MaxFiles l)%N /\ (MaxFiles l < 2 ^ 32)%N.
Proof. pose proof (to_count _ _ _ (mo_tree _ _ _ _ _ Hok)). destruct Hfit. split; [done | lia]. Qed.

Lemma bytes_small : (u_bytes (fs_usage fs) < 2 ^ 64)%N.
Proof.
  destruct ok_core as (tb & Hc & _). pose proof (uc_bytes _ _ _ _ _ Hc) as [_ Hb].
  destruct Hfit as [_ Hx]. lia.
Qed.

Lemma insert_keeps p n id f :
  mt_files m !! id = Some f -> is_Some (t !! qf_name f) -> is_Some (<[p := n]> t !! qf_name f).
Proof. intros _ Hs. rewrite lookup_insert. destruct (decide (p = qf_name f)); [by eexists | done]. Qed.

(** A new entry's parents, when the usage has its parent directory. *)
Lemma parents_there p : clean_name (MaxDepth l) p -> parent_ok fs p = true -> parents_ok t p.
Proof.
  intros Hp Hpar. destruct ok_core as (tb & Hc & Hbe & Htb & _).
  pose proof (mo_limits _ _ _ _ _ Hok) as Hl. fold fs in Hl. rewrite <- Hl in Hc, Hp, Htb.
  eapply believed_parents; [exact Hbe |]. by eapply parent_ok_parents.
Qed.

(** A file of the disk becomes [n] bytes long, in the usage as well. *)
Lemma resized tb p s n bytes :
  usage_core strict l (slack + debt) (fs_usage fs) tb -> believed l slack debt (fs_usage fs) tb t ->
  tree_ok l debt t -> t !! p = Some (NFile s) -> (n <= size_of p (fs_usage fs))%N ->
  (bytes + (size_of p (fs_usage fs) - n) = u_bytes (fs_usage fs))%N ->
  let u := set_sizes (<[p := n]> (u_sizes (fs_usage fs))) bytes (fs_usage fs) in
  let tb' := <[p := NFile n]> tb in
  usage_core strict l (slack + debt) u tb' /\ believed l slack debt u tb' (<[p := NFile n]> t)
  /\ tree_ok l debt (<[p := NFile n]> t).
Proof.
  intros Hc Hbe Ht Hs Hn Hb u tb'.
  destruct (kinds_file _ _ _ _ (be_kinds _ _ _ _ _ _ Hbe) Hs) as [a Ha].
  assert (size_of p (fs_usage fs) = a) as Hsz by (by apply (size_of_file _ _ _ _ _ _ _ Hc)). rewrite Hsz in *.
  destruct (believed_file _ _ _ _ _ _ Hbe p a s Ha Hs) as (? & ? & ?).
  pose proof (be_room _ _ _ _ _ _ Hbe). pose proof (uc_bytes _ _ _ _ _ Hc) as [? ?].
  pose proof (to_file _ _ _ Ht p s Hs). pose proof (to_total _ _ _ Ht).
  assert (s <= tree_bytes t)%N by (apply (map_sum_lookup_le (fun _ n => node_size n) t p (NFile s) Hs)).
  split_and!.
  - eapply core_resize; [exact Hc | right; split; [done | by exists a] | lia | lia].
  - eapply believed_set; [exact Hbe | exact Ha | exact Hs | lia | lia | lia | simpl; lia].
  - apply (tree_resize l debt t p s); [done | done | lia | lia].
Qed.

(** The usage after a successful open. *)
Lemma opened_core cleaned flag d' (exists_ : bool) :
  cleaned = "." \/ clean_name (MaxDepth l) cleaned ->
  opened cleaned flag t (tree_of d') ->
  exists_ = bool_decide (cleaned = ".") || bool_decide (is_Some (u_entries (fs_usage fs) !! cleaned)) ->
  (O_CREAT flag && negb exists_ = true ->
   (u_files (fs_usage fs) < MaxFiles l)%N /\ parent_ok fs cleaned = true) ->
  let u := opened_usage cleaned exists_ (O_TRUNC flag) (fs_usage fs) in
  (exists tb, usage_core strict l (slack + debt) u tb /\ believed l slack debt u tb (tree_of d'))
  /\ tree_ok l debt (tree_of d')
  /\ (cleaned = "." \/ is_Some (tree_of d' !! cleaned))
  /\ (forall id f, mt_files m !! id = Some f -> is_Some (t !! qf_name f) ->
        is_Some (tree_of d' !! qf_name f)).
Proof.
  intros Hname Hopen Hex Hcreate u. destruct ok_core as (tb & Hc & Hbe & Htb & Ht).
  pose proof bytes_small as Hbytes. unfold opened in Hopen. pose proof (be_kinds _ _ _ _ _ _ Hbe) as Hk.
  destruct (bool_decide (cleaned = ".")) eqn:Hroot; guards.
  { destruct Hopen as [Htr ->]. simpl in Hex. subst u exists_. unfold opened_usage. rewrite Htr.
    split_and!; [by exists tb | done | by left | done]. }
  destruct Hname as [| Hname]; [done |]. simpl in Hex.
  assert (is_Some (t !! cleaned) -> exists_ = true) as Hthere.
  { intros Hin. rewrite Hex. apply bool_decide_eq_true_2.
    destruct (u_entries (fs_usage fs) !! cleaned) eqn:He; [by eexists |].
    apply (entry_none _ _ _ _ _ _ Hc), (kinds_none _ _ _ Hk) in He. rewrite He in Hin. by destruct Hin. }
  destruct (t !! cleaned) as [[| s] |] eqn:Hn.
  - destruct Hopen as [Htr ->]. subst u. rewrite Hthere by (by eexists). unfold opened_usage. rewrite Htr.
    split_and!; [by exists tb | done | right; by eexists | done].
  - subst u. rewrite Hthere by (by eexists). unfold opened_usage. rewrite Hopen. destruct (O_TRUNC flag).
    2:{ split_and!; [by exists tb | done | right; by eexists | done]. }
    pose proof (size_of_le (fs_usage fs) cleaned) as Hle. pose proof (uc_bytes _ _ _ _ _ Hc) as [Hsum Hb].
    pose proof (sub64_le (u_bytes (fs_usage fs)) (size_of cleaned (fs_usage fs)) ltac:(lia) Hbytes) as Hsub.
    destruct (resized tb cleaned s 0 (sub64 (u_bytes (fs_usage fs)) (size_of cleaned (fs_usage fs)))) as (H1 & H2 & H3);
      [done | done | done | done | lia | lia |].
    split_and!; [by eexists | done | right; rewrite lookup_insert_eq; by eexists | intros id f; by apply insert_keeps].
  - destruct Hopen as [Hcr ->]. assert (exists_ = false) as Hnot.
    { rewrite Hex. apply bool_decide_eq_false_2. intros [mode He].
      destruct (entry_some _ _ _ _ _ _ _ Hc He) as (n & Hn' & _).
      apply (kinds_none _ _ _ Hk) in Hn. congruence. }
    destruct Hcreate as [Hlt Hpar]; [by rewrite Hcr, Hnot |]. subst u. rewrite Hnot.
    destruct next_small as [_ Hmax]. rewrite (uc_files _ _ _ _ _ Hc), (kinds_size _ _ Hk) in Hlt.
    pose proof (proj1 (kinds_none _ _ _ Hk) Hn) as Hnb.
    assert (usage_core strict l (slack + debt) (opened_usage cleaned false false (fs_usage fs))
      (<[cleaned := NFile 0]> tb)) as Hnew by (apply core_add; rewrite ?(kinds_size _ _ Hk); auto).
    assert (opened_usage cleaned false (O_TRUNC flag) (fs_usage fs) = opened_usage cleaned false false (fs_usage fs))
      as ->.
    { destruct (O_TRUNC flag); [| done].
      unfold opened_usage, set_sizes, size_of. simpl. rewrite insert_insert_eq, lookup_insert_eq. simpl.
      pose proof (sub64_le (u_bytes (fs_usage fs)) 0 ltac:(lia) Hbytes). f_equal. lia. }
    split_and!.
    + eexists. split; [exact Hnew |]. by eapply believed_add.
    + apply tree_add; try done. by apply parents_there.
    + right. rewrite lookup_insert_eq. by eexists.
    + intros id f. by apply insert_keeps.
Qed.

Lemma step_open name flag perm :
  (N.of_nat (mt_next m) + 1 < 2 ^ 32)%N -> mount_ok strict l slack debt (run_op (OpOpen name flag perm) m).
Proof.
  intros Hnext. simpl. fold fs d. unfold OpenFile.
  destruct (clean fs name true) as [cleaned | e] eqn:Hclean; [| apply stay].
  destruct (fs_closed fs); [apply stay |].
  destruct (validateComponents fs d cleaned (O_CREAT flag)); [apply stay |].
  destruct (entry_exists fs d cleaned) as [exists_ | e] eqn:Hex; [| apply stay].
  destruct (O_CREAT flag && negb exists_ && _) eqn:Hfull; [apply stay |].
  destruct (negb exists_ && O_CREAT flag && _) eqn:Hpar; [apply stay |].
  destruct (h_OpenFile _ _ _ d) as [[h | e] d'] eqn:Hopen; apply open_law in Hopen.
  2:{ destruct Hopen. by apply mount_same. }
  destruct Hopen as (Hnew & Hhandles & Hopened). simpl.
  pose proof Hok as [Hl _ _ Hf]. fold fs d t in Hl, Hf.
  destruct (opened_core cleaned flag d' exists_) as (Hc' & Ht' & Hin & Hkeep).
  - rewrite <- Hl. destruct (clean_Ok _ _ _ _ Hclean) as [[? _] | ?]; auto.
  - exact Hopened.
  - unfold entry_exists in Hex. destruct (bool_decide (cleaned = ".")); [by injection Hex as <- |].
    destruct (h_Lstat _ _ _); repeat match goal with
      | H : context [if ?b then _ else _] |- _ => destruct b eqn:?
      end; simplify_eq; done.
  - intros Hcr. apply andb_prop in Hcr as [Hcr Hne]. rewrite Hcr, Hne in Hfull, Hpar. simpl in *.
    rewrite <- Hl. guards. done.
  - split; simpl; [done | done | done |]. rewrite Hhandles. apply files_open; try done.
    by apply (files_tree _ _ _ t).
Qed.

Lemma clean_strict name cleaned : clean fs name false = Ok cleaned -> clean_name (MaxDepth l) cleaned.
Proof.
  intros Hclean. destruct (clean_Ok _ _ _ _ Hclean) as [[_ ?] | Hn]; [done |].
  pose proof (mo_limits _ _ _ _ _ Hok) as Hl. fold fs in Hl. by rewrite <- Hl.
Qed.

Lemma step_mkdir name : mount_ok strict l slack debt (run_op (OpMkdir name) m).
Proof.
  simpl. fold fs d. unfold Mkdir.
  destruct (clean fs name false) as [cleaned | e] eqn:Hclean; [| apply stay].
  destruct (fs_closed fs); [apply stay |].
  destruct (validateComponents _ _ _ _); [apply stay |].
  destruct (bool_decide (is_Some _)); [apply stay |].
  destruct (_ <=? _)%N eqn:Hfull; [apply stay |]. guards.
  destruct (parent_ok fs cleaned) eqn:Hpar; simpl; [| apply stay].
  destruct (h_Mkdir _ _ d) as [[e |] d'] eqn:Hmk; apply mkdir_law in Hmk as [Hh Hmk].
  { by apply mount_same. }
  destruct Hmk as [Hnone Htree]. destruct ok_core as (tb & Hc & Hbe & Htb & Ht).
  pose proof (mo_limits _ _ _ _ _ Hok) as Hl. fold fs d t in Hl, Hnone, Htree.
  pose proof (be_kinds _ _ _ _ _ _ Hbe) as Hk. pose proof (clean_strict _ _ Hclean) as Hname.
  destruct next_small as [_ Hmax]. rewrite Hl, (uc_files _ _ _ _ _ Hc), (kinds_size _ _ Hk) in Hfull.
  apply (mount_change _ _ (<[cleaned := NDir]> tb)); rewrite ?Htree; [| | | done |].
  - pose proof (proj1 (kinds_none _ _ _ Hk) Hnone). apply core_add; rewrite ?(kinds_size _ _ Hk); auto.
  - by eapply believed_add.
  - apply tree_add; try done. by apply parents_there.
  - intros id f. by apply insert_keeps.
Qed.

Lemma step_chmod name perm : mount_ok strict l slack debt (run_op (OpChmod name perm) m).
Proof.
  simpl. fold fs d. unfold Chmod.
  destruct (clean fs name false) as [cleaned | e]; [| apply stay].
  destruct (validateComponents _ _ _ _); [apply stay |].
  destruct (u_entries _ !! cleaned); [| apply stay].
  destruct (h_Chmod _ _ d) as [e d'] eqn:Hch. apply chmod_law in Hch as [Hh Ht]. by apply mount_same.
Qed.

(** No open file is at or below the name. *)
Lemma none_open name id f :
  hasOpenAtOrBelow fs name = false -> mt_files m !! id = Some f -> at_or_below name (qf_name f) = false.
Proof.
  intros Hno Hf. pose proof Hok as [_ _ _ Hfiles]. fold fs in Hfiles.
  pose proof (open_count_pos _ _ _ Hf) as Hpos. rewrite <- (fo_open _ _ _ _ _ Hfiles) in Hpos.
  destruct (fs_open fs !! qf_name f) as [c |] eqn:Hc; simpl in Hpos; [| lia].
  apply not_true_iff_false. intros Hb. apply not_true_iff_false in Hno. apply Hno.
  apply existsb_exists. exists (qf_name f, c). split.
  - apply list_elem_of_In. by apply elem_of_map_to_list.
  - rewrite Hb, andb_true_r. by apply N.ltb_lt.
Qed.

Lemma step_rename from to : mount_ok strict l slack debt (run_op (OpRename from to) m).
Proof.
  simpl. fold fs d. unfold Rename.
  destruct (clean fs from false) as [cleanFrom | e] eqn:Hfrom; [| apply stay].
  destruct (clean fs to false) as [cleanTo | e] eqn:Hto; [| apply stay].
  destruct (validateComponents _ _ cleanFrom _); [apply stay |].
  destruct (validateComponents _ _ cleanTo _); [apply stay |].
  destruct (bool_decide (is_Some _)) eqn:Hexists; [apply stay |].
  destruct (hasOpenAtOrBelow fs cleanFrom || hasOpenAtOrBelow fs cleanTo) eqn:Hopen; [apply stay |]. guards.
  destruct (parent_ok fs cleanTo) eqn:Hpar; simpl; [| apply stay].
  destruct (rename_updates _ _ _ _) as [ups |] eqn:Hups; [| apply stay].
  destruct (bool_decide (ups = [])) eqn:Hnil; guards; [apply stay |].
  pose proof Hok as [Hl _ _ Hf]. fold fs d t in Hl, Hf. destruct ok_core as (tb & Hc & Hbe & Htb & Ht).
  assert (forall id f, mt_files m !! id = Some f -> at_or_below cleanFrom (qf_name f) = false) as Hnone
    by (intros id f; by apply none_open).
  destruct (h_Rename _ _ d) as [e d'] eqn:Hren. apply rename_law in Hren as [Hh Hren].
  2:{ intros h oh Hoh. destruct (fo_owner _ _ _ _ _ Hf h oh Hoh) as (id & f & Hfid & <-).
      destruct (fo_handle _ _ _ _ _ Hf id f Hfid) as (_ & oh' & Hoh' & Hname & _).
      change (handles_of d !! qf_handle f = Some oh) in Hoh. rewrite Hoh in Hoh'. injection Hoh' as <-.
      rewrite Hname. by apply (Hnone id). }
  destruct e as [e |]; [by apply mount_same |]. fold t in Hren.
  assert (tb !! cleanTo = None) as Hfree.
  { apply (entry_none _ _ _ _ _ _ Hc). by apply eq_None_not_Some. }
  rewrite Hl in Hups.
  destruct (renamed_core _ _ _ _ _ _ _ _ _ _ _ Hc Hbe Ht Htb Hfree Hups Hnil Hren) as (tb' & Hr1 & Hr2 & Hr3).
  { apply parents_there; [by eapply clean_strict | done]. }
  apply (mount_change _ _ tb'); [done | done | done | done |].
  - intros id f Hfid [n Hn]. rewrite (renamed_other _ _ _ _ Hren); [by eexists | by apply (Hnone id) |].
    by apply (none_open cleanTo id).
Qed.

Lemma step_unlink name : mount_ok strict l slack debt (run_op (OpUnlink name) m).
Proof.
  simpl. fold fs d. unfold Unlink.
  destruct (clean fs name false) as [cleaned | e]; [| apply stay].
  destruct (validateComponents _ _ _ _); [apply stay |].
  destruct (u_entries _ !! cleaned) as [mode |] eqn:He; [| apply stay].
  destruct (m_dir mode) eqn:Hdir; [apply stay |].
  destruct (open_of cleaned fs =? 0)%N eqn:Hopen; simpl; [| apply stay]. apply N.eqb_eq in Hopen.
  destruct (h_Unlink _ d) as [[e |] d'] eqn:Hun; apply unlink_law in Hun as [Hh Hun].
  { by apply mount_same. }
  pose proof Hok as [_ _ _ Hf]. fold fs d t in Hun, Hf. destruct ok_core as (tb & Hc & Hbe & Htb & Ht).
  pose proof (be_kinds _ _ _ _ _ _ Hbe) as Hk.
  destruct (entry_some _ _ _ _ _ _ _ Hc He) as (n & Hn & Hnd). rewrite Hdir in Hnd.
  destruct n as [| a]; [done |]. pose proof next_small as [Hcount Hmax].
  destruct (kinds_file _ _ _ _ (eq_sym Hk) Hn) as [s Hs].
  pose proof (size_of_le (fs_usage fs) cleaned) as Hle. pose proof (uc_bytes _ _ _ _ _ Hc) as [Hsum Hb].
  pose proof (sub64_le (u_bytes (fs_usage fs)) (size_of cleaned (fs_usage fs)) ltac:(lia) bytes_small) as Hsub.
  apply (mount_change _ _ (delete cleaned tb)); rewrite ?Hun; [| | | done |].
  - eapply core_delete; [exact Hc | exact Hn | rewrite (kinds_size _ _ Hk); lia |].
    right. split; [by exists a |]. split; [done |]. exact Hsub.
  - apply (believed_delete _ _ _ _ _ _ Hbe). rewrite Hn. simpl.
    rewrite (size_of_file _ _ _ _ _ _ _ Hc Hn) in Hsub |- *. lia.
  - apply tree_delete; [done |]. by eapply file_leaf.
  - intros id f Hfid Hin. rewrite lookup_delete_ne; [done |]. intros ->.
    pose proof (open_count_pos _ _ _ Hfid) as Hpos. rewrite <- (fo_open _ _ _ _ _ Hf) in Hpos.
    unfold open_of in Hopen. lia.
Qed.

Lemma step_rmdir name : mount_ok strict l slack debt (run_op (OpRmdir name) m).
Proof.
  simpl. fold fs d. unfold Rmdir.
  destruct (clean fs name false) as [cleaned | e]; [| apply stay].
  destruct (validateComponents _ _ _ _); [apply stay |].
  destruct (u_entries _ !! cleaned) as [mode |] eqn:He; [| apply stay].
  destruct (m_dir mode) eqn:Hdir; simpl; [| apply stay].
  destruct (hasOpenAtOrBelow fs cleaned) eqn:Hopen; [apply stay |].
  destruct (h_Rmdir _ d) as [[e |] d'] eqn:Hrm; apply rmdir_law in Hrm as [Hh Hrm].
  { by apply mount_same. }
  destruct Hrm as [Hleaf Htree]. fold d t in Htree, Hleaf. destruct ok_core as (tb & Hc & Hbe & Htb & Ht).
  pose proof (be_kinds _ _ _ _ _ _ Hbe) as Hk.
  destruct (entry_some _ _ _ _ _ _ _ Hc He) as (n & Hn & Hnd). rewrite Hdir in Hnd.
  destruct n as [| s]; [| done]. pose proof next_small as [Hcount Hmax].
  apply (mount_change _ _ (delete cleaned tb)); rewrite ?Htree; [| | | done |].
  - eapply core_delete; [exact Hc | exact Hn | rewrite (kinds_size _ _ Hk); lia |]. by left.
  - apply (believed_delete _ _ _ _ _ _ Hbe). rewrite Hn. simpl. lia.
  - by apply tree_delete.
  - intros id f Hfid Hin. rewrite lookup_delete_ne; [done |]. intros ->.
    pose proof (none_open _ _ _ Hopen Hfid) as Hno. by rewrite below_refl in Hno.
Qed.

(** ** Steps on open files *)

Lemma step_close id : mount_ok strict l slack debt (run_op (OpClose id) m).
Proof.
  simpl. destruct (mt_files m !! id) as [f |] eqn:Hf; [| done]. fold fs d.
  pose proof Hok as [Hl Hc Ht Hfiles]. fold fs d t in Hl, Hc, Ht, Hfiles.
  destruct (fo_handle _ _ _ _ _ Hfiles id f Hf) as (Hcl & _). unfold file_Close. rewrite Hcl.
  destruct (h_Close _ d) as [e d'] eqn:Hclose. apply close_law in Hclose as [Hh Htree]. simpl.
  split; simpl; rewrite ?Hh, ?Htree; try done. by apply files_close.
Qed.

(** A call on an open file that moves its offset at most. *)
Lemma mount_pos d' h pos :
  tree_of d' = t -> handles_of d' = alter (set_pos pos) h (handles_of d) ->
  mount_ok strict l slack debt (with_fs m fs d').
Proof.
  intros Ht Hh. destruct Hok as [Hl Hc Htr Hf]. split; simpl; rewrite ?Ht; try done.
  rewrite Hh. by apply files_pos.
Qed.

Lemma step_seek id offset whence : mount_ok strict l slack debt (run_op (OpSeek id offset whence) m).
Proof.
  simpl. destruct (mt_files m !! id) as [f |] eqn:Hf; [| done]. fold fs d.
  destruct (h_Seek _ _ _ d) as [r d'] eqn:Hseek. apply seek_law in Hseek as [Ht (pos & Hh)].
  by eapply mount_pos.
Qed.

Lemma step_set_append id b : mount_ok strict l slack debt (run_op (OpSetAppend id b) m).
Proof.
  simpl. destruct (mt_files m !! id) as [f |] eqn:Hf; [| done]. fold fs d. unfold SetAppend.
  destruct (h_SetAppend _ _ d) as [e d'] eqn:Hset. apply set_append_law in Hset as [Ht Hh].
  pose proof Hok as [Hl Hc Htr Hfiles]. split; simpl; rewrite ?Ht, ?Hh; try done. by apply files_append.
Qed.

Lemma step_truncate id size : mount_ok strict l slack debt (run_op (OpTruncate id size) m).
Proof.
  simpl. destruct (mt_files m !! id) as [f |] eqn:Hf; [| done]. fold fs d. unfold Truncate.
  destruct (qf_closed f || fs_closed fs); [apply stay |].
  destruct ((size <? 0)%Z || _) eqn:Hrange; [apply stay |]. guards.
  pose proof Hok as [_ _ _ Hfiles]. fold fs d t in Hfiles. destruct ok_core as (tb & Hc & Hbe & Htb & Ht).
  destruct (fo_handle _ _ _ _ _ Hfiles id f Hf) as (_ & oh & Hoh & Hname & _).
  destruct (h_Truncate _ _ d) as [[e |] d'] eqn:Htr; destruct (truncate_law _ _ _ _ _ _ Htr Hoh) as [Hh Htree].
  { by apply mount_same. }
  destruct Htree as [(s & Hs) Htree]. rewrite Hname in Hs, Htree. fold t in Hs, Htree.
  pose proof (size_of_le (fs_usage fs) (qf_name f)) as Hle. pose proof (uc_bytes _ _ _ _ _ Hc) as [Hsum Hb].
  pose proof (sub64_le (u_bytes (fs_usage fs)) (size_of (qf_name f) (fs_usage fs) - Z.to_N size)
    ltac:(lia) bytes_small) as Hsub.
  destruct (resized tb (qf_name f) s (Z.to_N size) _ Hc Hbe Ht Hs ltac:(lia) Hsub) as (Hr1 & Hr2 & Hr3).
  eapply mount_change; rewrite ?Htree; [exact Hr1 | exact Hr2 | exact Hr3 | done |].
  - intros x g _. rewrite lookup_insert. destruct (decide (qf_name f = qf_name g)); [by eexists | done].
Qed.

(** The write itself: [at_] is where the usage takes it to write, and [base]
    where the disk does. *)
Lemma write_tail f fs1 d' (at_ base len : N) id :
  let name := qf_name f in
  let cur := size_of name (fs_usage fs) in
  let extra := unread name len d' in
  mt_files m !! id = Some f -> reserveSize name (at_ + len) fs = (true, fs1) -> (at_ <= cur)%N ->
  limits_fit l (slack + dir_stat_max + debt + extra) ->
  (forall s, t !! name = Some (NFile s) -> base + cur <= at_ + s)%N ->
  written name base len t (tree_of d') ->
  (exists pos, handles_of d' = alter (set_pos pos) (qf_handle f) (handles_of d)) ->
  (strict = true -> exists mode, u_entries (fs_usage fs) !! name = Some mode /\ m_dir mode = false) ->
  mount_ok strict l (slack + dir_stat_max) (debt + extra) (with_fs m (reconcileSize name cur fs1 d') d').
Proof.
  intros name cur extra Hf Hres Hat Hfits Hbase Hw (pos & Hh) Hstrict.
  pose proof Hok as [Hl _ _ Hfiles]. fold fs d t in Hl, Hfiles.
  destruct ok_core as (tb & Hc & Hbe & Htb & Ht). pose proof (be_kinds _ _ _ _ _ _ Hbe) as Hk.
  assert (write_kept strict slack debt fs d' name len (reconcileSize name cur fs1 d')) as Hkept.
  { rewrite <- Hl in Hc, Hbe, Ht, Hfits. destruct (t !! name) as [[| s] |] eqn:Hn.
    2:{ eapply write_file; eauto. }
    all: apply (write_not_file strict slack debt fs fs1 tb t d' name at_ base len Hc Hbe Ht Hfits Hres Hat Hw);
      [by rewrite Hn |]; destruct strict; [| done]; destruct (Hstrict eq_refl) as (mode & He & Hdir);
      destruct (entry_some _ _ _ _ _ _ _ Hc He) as (n & Hx & Hnd); rewrite Hdir in Hnd;
      pose proof (kinds_lookup _ _ name Hk) as Hlk; rewrite Hx, Hn in Hlk; simpl in Hlk; congruence. }
  destruct Hkept as (tb' & H1 & H2 & H3 & Hl2 & Hopen2). rewrite <- Hl.
  set (fs2 := reconcileSize _ _ fs1 d') in *. clearbody fs2.
  split; simpl; rewrite ?Hl2, ?Hopen2; [done | by exists tb' | done |]. rewrite Hh. apply files_pos.
  apply (files_tree _ _ _ t); [done |]. intros x g _ [n Hn]. unfold written in Hw.
  destruct (t !! name) as [[| s] |]; try (rewrite Hw; by eexists).
  destruct Hw as (k & _ & ->). destruct (k =? 0)%N; [by eexists |].
  rewrite lookup_insert. destruct (decide (name = qf_name g)); by eexists.
Qed.

Lemma mount_weaken m' extra :
  mount_ok strict l slack debt m' -> mount_ok strict l (slack + dir_stat_max) (debt + extra) m'.
Proof.
  intros [Hl (tb & Hc & Hbe) Ht Hf]. split; [done | | | done].
  - exists tb. split; [eapply core_weaken; [exact Hc | lia] | eapply believed_weaken; [exact Hbe | lia | lia]].
  - destruct Ht as [Hcount Htotal Hfile Hclean Hclosed]. split; try done; [lia |].
    intros p s Hp. specialize (Hfile p s Hp). lia.
Qed.

Lemma checkedWriteEnd_Some offset len e :
  (Z.to_N offset < 2 ^ 64)%N -> checkedWriteEnd offset len = Some e ->
  e = (Z.to_N offset + len)%N.
Proof.
  intros Hfits. unfold checkedWriteEnd. destruct (offset <? 0)%Z eqn:Hneg; [done |]. guards.
  destruct (_ <? len)%N eqn:Hlen; [done |]. guards. intros [= <-]. apply u64_id. lia.
Qed.

Lemma i64_nonneg c : (c < 2 ^ 64)%N -> (0 <= i64 (Z.of_N c))%Z -> i64 (Z.of_N c) = Z.of_N c.
Proof.
  intros Hc. unfold i64. destruct (decide (Z.of_N c < 2 ^ 63)%Z) as [Hlt | Hge].
  - intros _. rewrite Z.mod_small; lia.
  - rewrite (Z.mod_eq _ (2 ^ 64)) by lia.
    assert ((Z.of_N c + 2 ^ 63) / 2 ^ 64 = 1)%Z as -> by (symmetry; apply Z.div_unique with (Z.of_N c - 2 ^ 63)%Z; lia).
    lia.
Qed.

Lemma step_write id buffer :
  (strict = true -> writes_file (OpWrite id buffer) m = true) ->
  limits_fit l (slack + dir_stat_max + debt + unexamined (OpWrite id buffer) m) ->
  mount_ok strict l (slack + dir_stat_max) (debt + unexamined (OpWrite id buffer) m)
    (run_op (OpWrite id buffer) m).
Proof.
  unfold unexamined. intros Hstrict. simpl in *.
  destruct (mt_files m !! id) as [f |] eqn:Hf; [| by intros _; apply mount_weaken].
  fold fs d in Hstrict |- *. unfold Write.
  destruct (qf_closed f || fs_closed fs); [intros _; apply mount_weaken, stay |].
  pose proof Hok as [Hl _ _ Hfiles]. fold fs d t in Hl, Hfiles. destruct ok_core as (tb & Hc & Hbe & Htb & Ht).
  destruct (fo_handle _ _ _ _ _ Hfiles id f Hf) as (_ & oh & Hoh & Hname & Happ).
  pose proof (size_of_le (fs_usage fs) (qf_name f)) as Hle. pose proof (uc_bytes _ _ _ _ _ Hc) as [Hsum _].
  pose proof bytes_small as Hsmall.
  set (current := size_of (qf_name f) (fs_usage fs)) in *.
  destruct (write_offset f current d) as [[offset | e] d1] eqn:Hoff; unfold write_offset in Hoff.
  2:{ destruct (qf_append f); [done |]. apply seek_law in Hoff as [Ht1 (pos & Hh1)].
      intros _. apply mount_weaken. by eapply mount_pos. }
  assert (tree_of d1 = t /\ handles_of d1 = handles_of d) as [Ht1 Hh1].
  { destruct (qf_append f); [by injection Hoff as _ <- |]. pose proof (seek_law _ _ _ _ _ _ Hoff) as [Ht1 _].
    destruct (seek_current_law _ _ _ _ _ Hoff Hoh). done. }
  destruct ((offset <? 0)%Z || (current <? Z.to_N offset)%N) eqn:Hrange; simpl;
    [by intros _; apply mount_weaken, mount_same |]. guards.
  destruct (checkedWriteEnd offset (slen buffer)) as [e |] eqn:Hend; [| by intros _; apply mount_weaken, mount_same].
  apply checkedWriteEnd_Some in Hend as ->; [| lia].
  destruct (reserveSize _ _ fs) as [[|] fs1] eqn:Hres; simpl.
  2:{ assert (fs1 = fs) as ->; [| by intros _; apply mount_weaken, mount_same].
      unfold reserveSize in Hres. destruct (_ <=? _)%N; [done |]. destruct (_ || _); [congruence |].
      destruct (_ <? _)%N; congruence. }
  destruct (h_Write _ buffer d1) as [[n e] d2] eqn:Hw. rewrite <- Hh1 in Hoh.
  destruct (write_law _ _ _ _ _ _ _ Hw Hoh) as [Hpos Hwritten].
  rewrite Hname, Happ, Ht1 in Hwritten. rewrite Hh1 in Hpos.
  intros Hfits. eapply write_tail; [exact Hf | exact Hres | lia | exact Hfits | | exact Hwritten | exact Hpos |].
  - intros s Hn. fold t. fold current. rewrite Hn. simpl. destruct (qf_append f).
    + injection Hoff as <- _. rewrite i64_nonneg by lia. lia.
    + destruct (seek_current_law _ _ _ _ _ Hoff ltac:(by rewrite <- Hh1)) as [-> _].
      destruct (kinds_file _ _ _ _ (be_kinds _ _ _ _ _ _ Hbe) Hn) as [a Ha].
      destruct (believed_file _ _ _ _ _ _ Hbe _ _ _ Ha Hn).
      assert (current = a) as -> by (by apply (size_of_file _ _ _ _ _ _ _ Hc)). lia.
  - intros Hs. specialize (Hstrict Hs).
    destruct (u_entries (fs_usage fs) !! qf_name f) as [mode |]; [| done]. exists mode. by guards.
Qed.

Lemma step_pwrite id buffer offset :
  (strict = true -> writes_file (OpPwrite id buffer offset) m = true) ->
  limits_fit l (slack + dir_stat_max + debt + unexamined (OpPwrite id buffer offset) m) ->
  mount_ok strict l (slack + dir_stat_max) (debt + unexamined (OpPwrite id buffer offset) m)
    (run_op (OpPwrite id buffer offset) m).
Proof.
  unfold unexamined. intros Hstrict. simpl in *.
  destruct (mt_files m !! id) as [f |] eqn:Hf; [| by intros _; apply mount_weaken].
  fold fs d in Hstrict |- *. unfold Pwrite.
  destruct (qf_closed f || fs_closed fs); [intros _; apply mount_weaken, stay |].
  pose proof Hok as [Hl _ _ Hfiles]. fold fs d t in Hl, Hfiles. destruct ok_core as (tb & Hc & Hbe & Htb & Ht).
  destruct (fo_handle _ _ _ _ _ Hfiles id f Hf) as (_ & oh & Hoh & Hname & Happ).
  pose proof (size_of_le (fs_usage fs) (qf_name f)) as Hle. pose proof (uc_bytes _ _ _ _ _ Hc) as [Hsum _].
  pose proof bytes_small as Hsmall.
  set (current := size_of (qf_name f) (fs_usage fs)) in *.
  destruct ((offset <? 0)%Z || (current <? Z.to_N offset)%N) eqn:Hrange; simpl; [intros _; apply mount_weaken, stay |]. guards.
  destruct (checkedWriteEnd offset (slen buffer)) as [e |] eqn:Hend; [| intros _; apply mount_weaken, stay].
  apply checkedWriteEnd_Some in Hend as ->; [| lia].
  destruct (reserveSize _ _ fs) as [[|] fs1] eqn:Hres; simpl.
  2:{ assert (fs1 = fs) as ->; [| intros _; apply mount_weaken, stay].
      unfold reserveSize in Hres. destruct (_ <=? _)%N; [done |]. destruct (_ || _); [congruence |].
      destruct (_ <? _)%N; congruence. }
  destruct (h_Pwrite _ buffer offset d) as [[n e] d2] eqn:Hw.
  destruct (pwrite_law _ _ _ _ _ _ _ _ Hw Hoh) as [Hpos Hwritten]. rewrite Hname in Hwritten.
  intros Hfits. apply (write_tail f fs1 d2 (Z.to_N offset) (Z.to_N offset) (slen buffer) id); try done.
  - intros s Hn. fold current. destruct (kinds_file _ _ _ _ (be_kinds _ _ _ _ _ _ Hbe) Hn) as [a Ha].
    destruct (believed_file _ _ _ _ _ _ Hbe _ _ _ Ha Hn).
    assert (current = a) as -> by (by apply (size_of_file _ _ _ _ _ _ _ Hc)). lia.
  - destruct (oh_append oh); [| exact Hwritten]. unfold written. fold t in Hwritten.
    destruct (t !! qf_name f) as [[| s] |]; try done. exists 0%N. split; [lia | done].
  - rewrite Hpos. exists (oh_pos oh). rewrite (alter_present _ _ _ _ Hoh).
    replace (set_pos (oh_pos oh) oh) with oh by (by destruct oh). symmetry. by apply insert_id.
  - intros Hs. specialize (Hstrict Hs).
    destruct (u_entries (fs_usage fs) !! qf_name f) as [mode |]; [| done]. exists mode. by guards.
Qed.

Lemma step_op op :
  (N.of_nat (mt_next m) + 1 < 2 ^ 32)%N -> (strict = true -> writes_file op m = true) ->
  limits_fit l (slack + dir_stat_max + debt + unexamined op m) ->
  mount_ok strict l (slack + dir_stat_max) (debt + unexamined op m) (run_op op m)
  /\ (mt_next (run_op op m) <= S (mt_next m))%nat.
Proof.
  intros Hnext Hstrict Hfits. split.
  - destruct op; try (by apply step_write || by apply step_pwrite); apply mount_weaken;
      auto using step_open, step_mkdir, step_chmod, step_rename, step_unlink, step_rmdir, step_close,
        step_seek, step_truncate, step_set_append.
  - destruct op; simpl; repeat (match goal with
      | |- context [match ?x with _ => _ end] => destruct x
      | |- context [let '(_, _) := ?x in _] => destruct x
      end; simpl); lia.
Qed.
End Steps.

Section Workspace.
Context {disk : Type} `{HostLaws disk}.
Implicit Types (t : tree) (u : treeUsage) (l : WLimits) (d : disk).

(** ** Opening a workspace *)

(** What the scan has established of the entries it has seen. *)
Record scanned (l : WLimits) (u : treeUsage) (t : tree) : Prop := {
  sc_core : usage_core true l 0 u t;
  sc_count : (N.of_nat (size t) <= MaxFiles l)%N;
  sc_file : forall p s, t !! p = Some (NFile s) -> (s <= MaxFileBytes l)%N;
  sc_clean : forall p, is_Some (t !! p) -> clean_name (MaxDepth l) p
}.

Lemma scanned_insert l u t name n u' :
  scanned l u t -> t !! name = None -> clean_name (MaxDepth l) name -> limits_fit l 0 ->
  (N.of_nat (size t) < MaxFiles l)%N -> (node_size n <= MaxFileBytes l)%N ->
  usage_core true l 0 u' (<[name := n]> t) -> scanned l u' (<[name := n]> t).
Proof.
  intros [Hc Hcount Hfile Hclean] Hnone Hname Hfit Hlt Hsize Hc'. split; [done | | |].
  - rewrite map_size_insert_None by done. lia.
  - intros p s. rewrite lookup_insert. destruct (decide (name = p)); [by intros [= ->] | apply Hfile].
  - intros p. rewrite lookup_insert. destruct (decide (name = p)) as [<- |]; [done | apply Hclean].
Qed.

Lemma scan_entries_spec l dev listing u t u' :
  scan_entries l dev listing u = Some u' -> limits_fit l 0 -> scanned l u t ->
  NoDup listing.*1 -> (forall name, name ∈ listing.*1 -> t !! name = None) ->
  exists t', scanned l u' t'
    /\ (forall name i, (name, i) ∈ listing -> t' !! name = Some (node_of i)
                                           /\ (i_type i = TDir \/ i_type i = TRegular))
    /\ (forall name, name ∉ listing.*1 -> t' !! name = t !! name).
Proof.
  revert u t. induction listing as [| [name i] rest IH]; intros u t Hscan Hfit Hs Hnd Hnew.
  { injection Hscan as <-. exists t. split_and!; [done | by intros ? ? ?%elem_of_nil | done]. }
  cbn [scan_entries] in Hscan. destruct (cleanGuestPath name _ false) as [c |] eqn:Hclean; [| done].
  apply accepted_clean_name in Hclean as [_ [[_ ?] | Hclean]]; [done |].
  destruct (_ || _ || _ || _) eqn:Hbad in Hscan; [done |].
  destruct (MaxFiles l <? _)%N eqn:Hmax in Hscan; [done |]. guards.
  simpl in Hnd. apply list.NoDup_cons in Hnd as [Hname Hnd].
  assert (t !! name = None) as Hnone by (apply Hnew, list_elem_of_here).
  pose proof (uc_files _ _ _ _ _ (sc_core _ _ _ Hs)) as Hfiles. pose proof (sc_count _ _ _ Hs) as Hcount.
  destruct Hfit as [Hfit1 Hfit2].
  match goal with H : (u32 _ <= _)%N |- _ => rename H into Hlt end. rewrite u32_id in Hlt by lia.
  assert (N.of_nat (size t) < MaxFiles l)%N as Hroom by lia.
  assert (forall u1 n, scan_entries l dev rest u1 = Some u' -> n = node_of i ->
    i_type i = TDir \/ i_type i = TRegular -> (node_size n <= MaxFileBytes l)%N ->
    usage_core true l 0 u1 (<[name := n]> t) ->
    exists t', scanned l u' t'
      /\ (forall name' i', (name', i') ∈ (name, i) :: rest -> t' !! name' = Some (node_of i')
                                             /\ (i_type i' = TDir \/ i_type i' = TRegular))
      /\ (forall name', name' ∉ ((name, i) :: rest).*1 -> t' !! name' = t !! name')) as Hgo.
  { intros u1 n Hscan1 -> Htype Hsize Hc1.
    destruct (IH u1 (<[name := node_of i]> t) Hscan1) as (t' & Hs' & Hin & Hout); [by split | | done | |].
    - by eapply scanned_insert.
    - intros q Hq. rewrite lookup_insert_ne by (by intros ->). apply Hnew. by apply list_elem_of_further.
    - exists t'. split; [done |]. split.
      + intros q j [[= -> ->] | Hj]%elem_of_cons; [| by apply Hin].
        split; [| done]. rewrite Hout by done. apply lookup_insert_eq.
      + simpl. intros q [Hne Hq]%not_elem_of_cons. rewrite Hout by done. by rewrite lookup_insert_ne. }
  destruct (bool_decide (i_type i = TRegular)) eqn:Hreg; guards.
  - destruct (_ || _) eqn:Hsize in Hscan; [done |]. guards.
    pose proof (uc_bytes _ _ _ _ _ (sc_core _ _ _ Hs)) as [Hsum Hb].
    apply (Hgo _ (NFile (Z.to_N (i_size i))) Hscan); [| by right | done |].
    { unfold node_of. rewrite bool_decide_eq_false_2 by congruence. done. }
    rewrite u64_id by lia. rewrite bool_decide_eq_false_2 by congruence.
    pose proof (core_add true l 0 u t name (NFile 0) (mkMode false (i_perm i)) _ (sc_core _ _ _ Hs) Hnone eq_refl
      Hroom ltac:(lia) (or_intror (conj eq_refl eq_refl))) as Hadd.
    assert (usage_core true l 0 (set_sizes (<[name := Z.to_N (i_size i)]> (<[name := 0%N]> (u_sizes u)))
      (u_bytes u + Z.to_N (i_size i)) (mkUsage (<[name := mkMode false (i_perm i)]> (u_entries u))
        (<[name := 0%N]> (u_sizes u)) (u32 (u_files u + 1)) (u_bytes u)))
      (<[name := NFile (Z.to_N (i_size i))]> (<[name := NFile 0]> t))) as Hset.
    { eapply core_resize; [exact Hadd | right; split; [done |] | | lia].
      - exists 0%N. apply lookup_insert_eq.
      - unfold size_of. simpl. rewrite lookup_insert_eq. simpl. lia. }
    unfold set_sizes in Hset. simpl in Hset. by rewrite !insert_insert_eq in Hset.
  - assert (i_type i = TDir) as Hdir.
    { destruct (i_type i); try done; guards; done. }
    apply (Hgo _ NDir Hscan); [unfold node_of; by rewrite bool_decide_eq_true_2 | by left | simpl; lia |].
    rewrite bool_decide_eq_true_2 by done.
    apply core_add; try done; [apply Hs | lia | by left].
Qed.

Lemma scanned_empty l : scanned l (mkUsage ∅ ∅ 0 0) ∅.
Proof.
  split; [| | by intros p s | by intros p [? ?]].
  - split; simpl.
    + by rewrite !fmap_empty.
    + by intros p s.
    + by rewrite map_size_empty.
    + unfold total. rewrite map_sum_empty. lia.
    + intros _. split; [by intros p s | by unfold total; rewrite map_sum_empty].
  - rewrite map_size_empty. lia.
Qed.

Lemma mount_workspace_ok l dev d m :
  mount_workspace l dev d = Some m -> limits_fit l 0 -> handles_of d = ∅ ->
  mount_ok true l 0 0 m /\ mt_next m = O /\ mt_disk m = d.
Proof.
  unfold mount_workspace, scanOrdinaryTree. destruct (h_Walk d) as [listing | e] eqn:Hwalk; [| done].
  destruct (scan_entries _ _ _ _) as [u |] eqn:Hscan; [| done]. intros [= <-] Hfit Hh.
  apply walk_law in Hwalk as [Honce Hnode Hall Hpar].
  destruct (scan_entries_spec _ _ _ _ ∅ _ Hscan Hfit (scanned_empty l) Honce) as (t & Hs & Hin & Hout).
  { intros name _. apply lookup_empty. }
  assert (t = tree_of d) as ->.
  { apply map_eq. intros name. destruct (decide (name ∈ listing.*1)) as [Hl | Hl].
    - apply list_elem_of_fmap in Hl as ([name' i] & -> & Hi). simpl.
      destruct (Hin _ _ Hi) as [-> Htype]. symmetry. by apply Hnode.
    - rewrite (Hout name Hl), lookup_empty. destruct (tree_of d !! name) eqn:Hn; [| done].
      destruct Hl. apply Hall. by eexists. }
  destruct Hs as [Hc Hcount Hfile Hclean]. split; [| done]. split; simpl; [done | | |].
  - exists (tree_of d). split; [done |]. apply believed_refl. pose proof (uc_bytes _ _ _ _ _ Hc). lia.
  - split; try done.
    + pose proof (tree_bytes_total _ _ (uc_sizes _ _ _ _ _ Hc)). pose proof (uc_bytes _ _ _ _ _ Hc). lia.
    + intros p s Hp. specialize (Hfile p s Hp). lia.
    + intros p q Hp Hq. apply (Hpar p); [by apply Hall | done].
  - rewrite Hh. split; try (by intros ? ?); try (by intros ? ? ? ?); simpl.
    + intros name. rewrite lookup_empty. unfold open_count. by rewrite map_sum_empty.
    + intros id [? ?]. by rewrite lookup_empty in H1.
    + rewrite map_size_empty. lia.
Qed.
End Workspace.

(** ** Any sequence of operations *)

Section Runs.
Context {disk : Type} `{HostLaws disk}.
Implicit Types (t : tree) (l : WLimits) (d : disk) (m : mount disk).

(** No operation of the sequence writes through a directory. *)
Fixpoint writes_files (ops : list guest_op) m : bool :=
  match ops with
  | [] => true
  | op :: rest => writes_file op m && writes_files rest (run_op op m)
  end.

(** The bytes the sequence may add to files that cannot be examined after the
    write. *)
Fixpoint unexamined_bytes (ops : list guest_op) m : N :=
  match ops with
  | [] => 0%N
  | op :: rest => (unexamined op m + unexamined_bytes rest (run_op op m))%N
  end.

Lemma run_ops_ok strict l ops : forall slack debt m,
  let slack' := (slack + N.of_nat (length ops) * dir_stat_max)%N in
  let debt' := (debt + unexamined_bytes ops m)%N in
  mount_ok strict l slack debt m -> limits_fit l (slack' + debt') ->
  (N.of_nat (mt_next m) + N.of_nat (length ops) < 2 ^ 32)%N ->
  (strict = true -> writes_files ops m = true) ->
  mount_ok strict l slack' debt' (run_ops ops m).
Proof.
  induction ops as [| op ops IH]; intros slack debt m slack' debt' Hok Hfit Hnext Hstrict.
  { subst slack' debt'. simpl. by rewrite !N.add_0_r. }
  subst slack' debt'. simpl length in *. simpl unexamined_bytes in *. destruct Hfit as [Hfit1 Hfit2].
  destruct (step_op strict l slack debt m Hok) with (op := op) as [Hok' Hnext'].
  - split; [done | lia].
  - lia.
  - intros Hs. specialize (Hstrict Hs). simpl in Hstrict. by guards.
  - split; [done | lia].
  - replace (slack + N.of_nat (S (length ops)) * dir_stat_max)%N
      with ((slack + dir_stat_max) + N.of_nat (length ops) * dir_stat_max)%N in * by lia.
    rewrite (N.add_assoc debt) in *.
    change (run_ops (op :: ops) m) with (run_ops ops (run_op op m)).
    apply IH; [done | split; [done | lia] | lia |].
    intros Hs. specialize (Hstrict Hs). simpl in Hstrict. by guards.
Qed.

(** The sizes of the files, when the usage has nothing else. *)
Lemma total_tree_bytes t sizes :
  (forall p s, sizes !! p = Some s -> t !! p = Some (NFile s)) -> (total sizes <= tree_bytes t)%N.
Proof.
  revert t. induction sizes as [| p s sizes Hp IH] using map_ind; intros t Hs.
  { unfold total. rewrite map_sum_empty. lia. }
  pose proof (total_set sizes p s) as Hset. rewrite Hp in Hset. simpl in Hset.
  pose proof (tree_bytes_delete t p) as Hd. rewrite (Hs p s) in Hd by apply lookup_insert_eq. simpl in Hd.
  assert ((total sizes <= tree_bytes (delete p t))%N); [| lia].
  apply IH. intros q s' Hq. assert (q <> p) by congruence. rewrite lookup_delete_ne by done.
  apply Hs. by rewrite lookup_insert_ne.
Qed.

(** A workspace, as it is handed to a Guest, with machine integers wide enough
    for what [ops] do. *)
Definition acquired l dev d m (ops : list guest_op) : Prop :=
  let steps := N.of_nat (length ops) in
  mount_workspace l dev d = Some m /\ handles_of d = ∅
  /\ (MaxFiles l + 1 < 2 ^ 32)%N /\ (steps < 2 ^ 32)%N
  /\ (MaxBytes l + steps * dir_stat_max + unexamined_bytes ops m < 2 ^ 64)%N.

Lemma acquired_ok l dev d m ops :
  acquired l dev d m ops ->
  let slack := (N.of_nat (length ops) * dir_stat_max)%N in
  mount_ok false l slack (unexamined_bytes ops m) (run_ops ops m)
  /\ (writes_files ops m = true -> mount_ok true l slack (unexamined_bytes ops m) (run_ops ops m)).
Proof.
  intros (Hm & Hh & Hfit1 & Hsteps & Hfit2).
  destruct (mount_workspace_ok l dev d m Hm) as (Hok & Hnext & _); [split; [done | lia] | done |].
  split.
  - apply (run_ops_ok false l ops 0%N 0%N); [| split; [done | lia] | by rewrite Hnext | done].
    destruct Hok as [Hl (tb & Hc & Hbe) Ht Hf]. split; try done. exists tb. split; [by destruct Hc | done].
  - intros Hw. apply (run_ops_ok true l ops 0%N 0%N); [done | split; [done | lia] | by rewrite Hnext | done].
Qed.

(** C17.  The quota holds whatever the Guest does: after any operations, with
    the Host's calls failing at any point and writes landing in part, the
    directory has at most [MaxFiles] entries, every name is one
    [cleanGuestPath] accepts within the depth limit, and every parent is a
    directory; it has at most [MaxBytes] bytes in files, and no file is larger
    than [MaxFileBytes], but for the bytes of the writes after which the Host's
    [Stat] of the file failed ([unexamined_bytes], nothing when none failed):
    those [reconcileSize] does not count. *)
Theorem quota_is_never_exceeded l dev d m ops :
  acquired l dev d m ops ->
  let t := tree_of (mt_disk (run_ops ops m)) in
  let extra := unexamined_bytes ops m in
  (N.of_nat (size t) <= MaxFiles l)%N
  /\ (tree_bytes t <= MaxBytes l + extra)%N
  /\ (forall p s, t !! p = Some (NFile s) -> (s <= MaxFileBytes l + extra)%N)
  /\ (forall p, is_Some (t !! p) -> cleanGuestPath p (MaxDepth l) false = Some p)
  /\ (forall p q, is_Some (t !! p) -> has_prefix (q +:+ "/") p = true -> t !! q = Some NDir).
Proof.
  intros Hacq t extra. destruct (acquired_ok _ _ _ _ _ Hacq) as [[_ _ Ht _] _]. fold t in Ht.
  destruct Ht as [Hcount Htotal Hfile Hclean Hclosed]. split_and!; try done.
  intros p Hp. by apply clean_name_accepted, Hclean.
Qed.

(** The accounts are exact: as long as no write goes through a handle on
    a directory, and every file written can be examined, the usage names exactly the entries of the directory with
    their kinds, its sizes are those of the files, and its counters are the
    number of entries and the sum of the sizes. *)
Theorem usage_is_exact l dev d m ops :
  acquired l dev d m ops -> writes_files ops m = true -> unexamined_bytes ops m = 0%N ->
  let u := fs_usage (mt_fs (run_ops ops m)) in
  let t := tree_of (mt_disk (run_ops ops m)) in
  m_dir <$> u_entries u = is_dir <$> t
  /\ (forall p s, u_sizes u !! p = Some s <-> t !! p = Some (NFile s))
  /\ u_files u = N.of_nat (size t)
  /\ u_bytes u = tree_bytes t.
Proof.
  intros Hacq Hw Hread u t. destruct (acquired_ok _ _ _ _ _ Hacq) as [_ Hok].
  destruct (Hok Hw) as [_ (tb & Hc & Hbe) _ _]. rewrite Hread in Hbe. apply believed_exact in Hbe as ->.
  fold u t in Hc. destruct Hc as [Hnames Hsizes Hfiles Hbytes Hexact].
  destruct (Hexact eq_refl) as [Hback Heq].
  pose proof (tree_bytes_total t _ Hsizes). pose proof (total_tree_bytes t _ Hback).
  split_and!; [done | | done | lia]. intros p s. split; auto.
Qed.

(** Open files stay put: after any operations, every descriptor the
    Guest holds is open on the Host under the name it was opened with, in the
    mode the quota assumes, and that name is still there - the Host file cannot
    have been renamed, unlinked or replaced underneath it. *)
Theorem open_files_keep_their_names l dev d m ops id f :
  acquired l dev d m ops -> mt_files (run_ops ops m) !! id = Some f ->
  exists oh, handles_of (mt_disk (run_ops ops m)) !! qf_handle f = Some oh
    /\ oh_name oh = qf_name f /\ oh_append oh = qf_append f
    /\ (qf_name f = "." \/ is_Some (tree_of (mt_disk (run_ops ops m)) !! qf_name f))
    /\ (forall id' f', mt_files (run_ops ops m) !! id' = Some f' -> qf_handle f' = qf_handle f -> id' = id).
Proof.
  intros Hacq Hf. destruct (acquired_ok _ _ _ _ _ Hacq) as [[_ _ _ Hfiles] _].
  destruct (fo_handle _ _ _ _ _ Hfiles id f Hf) as (_ & oh & Hoh & Hname & Happ).
  exists oh. split_and!; try done; [by apply (fo_there _ _ _ _ _ Hfiles id) |].
  intros id' f' Hf' Heq. by apply (fo_distinct _ _ _ _ _ Hfiles id' f' id f).
Qed.

(** A write through a handle on a directory fails on the Host, yet the
    usage is charged what the Host reports as the directory's own size, and
    removing the directory does not return it. *)
Theorem directory_write_is_charged fs d f n e fs' d' i :
  tree_of d !! qf_name f = Some NDir -> (exists oh, handles_of d !! qf_handle f = Some oh /\ oh_name oh = qf_name f) ->
  qf_closed f = false -> fs_closed fs = false -> u_sizes (fs_usage fs) !! qf_name f = None ->
  (1 <= MaxFileBytes (fs_limits fs))%N -> (u_bytes (fs_usage fs) + 1 <= MaxBytes (fs_limits fs))%N ->
  (MaxBytes (fs_limits fs) + dir_stat_max < 2 ^ 64)%N ->
  Pwrite "x" 0 f fs d = (n, e, fs', d') -> h_Stat (qf_name f) d' = Ok i -> (0 <= i_size i)%Z ->
  tree_of d' = tree_of d /\ u_bytes (fs_usage fs') = (u_bytes (fs_usage fs) + Z.to_N (i_size i))%N
  /\ forall name d2 fs2 d3, Rmdir name fs' d2 = (None, fs2, d3) -> u_bytes (fs_usage fs2) = u_bytes (fs_usage fs').
Proof.
  intros Hdir (oh & Hoh & Hname) Hcl Hcf Hnone Hfile Hroom Hfit Hw Hstat Hpos.
  assert (size_of (qf_name f) (fs_usage fs) = 0%N) as Hz by (unfold size_of; by rewrite Hnone).
  assert (checkedWriteEnd 0 (slen "x") = Some 1%N) as Hend by reflexivity.
  unfold Pwrite in Hw. rewrite Hcl, Hcf, Hz, Hend in Hw. cbn [orb Z.ltb Z.to_N N.ltb] in Hw.
  change ((0 <? 0)%Z || (0 <? 0)%N) with false in Hw. cbv iota in Hw.
  destruct (reserveSize (qf_name f) 1 fs) as [[|] fs1] eqn:Hres.
  2:{ exfalso. unfold reserveSize in Hres. rewrite Hz in Hres.
      rewrite (proj2 (N.leb_gt _ _)), !(proj2 (N.ltb_ge _ _)) in Hres by lia. done. }
  destruct (reserveSize_spec _ _ _ _ Hres) as (_ & _ & _ & _ & r & Hr & Hsz & _ & Hb & _); [lia |].
  destruct (h_Pwrite _ _ _ d) as [[n1 e1] d1] eqn:Hpw. injection Hw as <- <- <- <-.
  destruct (pwrite_law _ _ _ _ _ _ _ _ Hpw Hoh) as [_ Htree].
  assert (tree_of d1 = tree_of d) as Ht.
  { destruct (oh_append oh); [done |]. unfold written in Htree. by rewrite Hname, Hdir in Htree. }
  split; [done |].
  assert (i_size i <= Z.of_N dir_stat_max)%Z as Hmax.
  { apply (stat_dir d1 (qf_name f)); [| done]. right. intros s. rewrite Ht, Hdir. done. }
  assert (actual_size (qf_name f) 0 d1 = Z.to_N (i_size i)) as Ha.
  { unfold actual_size. rewrite Hstat. by rewrite (proj2 (Z.leb_le _ _)). }
  destruct (reconcileSize_spec (qf_name f) 0 fs1 d1) as (bytes & Heq & Hbytes); rewrite ?Ha in *; [lia.. |].
  rewrite Heq. simpl. split; [lia |]. intros name d2 fs2 d3. unfold Rmdir.
  destruct (clean _ name false) as [cleaned | e2]; [| done].
  destruct (validateComponents _ d2 cleaned false); [done |].
  destruct (u_entries _ !! cleaned) as [mode |]; [| done]. destruct (negb (m_dir mode)); [done |].
  destruct (hasOpenAtOrBelow _ cleaned); [done |].
  destruct (h_Rmdir cleaned d2) as [[e2 |] d4]; [done |]. by intros [= <- _].
Qed.
End Runs.

(** ** A workspace in memory *)

Definition ws_limits : WLimits := mkWLimits 4 100 50 3.
Definition ws_disk : memory_disk := mkMemory (<["notes" := NFile 3]> (<["src" := NDir]> ∅)) ∅ [].
Definition ws_start : option (mount memory_disk) := mount_workspace ws_limits 1 ws_disk.
Definition ws_mount : mount memory_disk :=
  default (mkMount (newRootedFS 1 ws_limits (mkUsage ∅ ∅ 0 0)) ∅ O ws_disk) ws_start.

Definition create_flag : Oflag := mkOflag true false false false 0.
Definition append_flag : Oflag := mkOflag false false true false 0.
Definition read_flag : Oflag := mkOflag false false false false 0.

(** Some of these are refused: the second name leaves the workspace, the first
    rename moves an open file, the first unlink removes one, and the last write
    is larger than a file may be. *)
Definition ws_ops : list guest_op :=
  [ OpOpen "notes" append_flag 0; OpWrite 0 "hello"; OpMkdir "../etc"; OpOpen "src/main.py" create_flag 0;
    OpWrite 1 "print(1)"; OpRename "src" "lib"; OpUnlink "notes"; OpClose 1; OpRename "src/" "lib";
    OpOpen "lib/main.py" read_flag 0; OpPwrite 2 "printf" 0; OpTruncate 2 6;
    OpPwrite 2 "0123456789012345678901234567890123456789012345678901234567890" 6 ].

Definition ws_end : mount memory_disk := run_ops ws_ops ws_mount.

Example ws_tree :
  tree_of (mt_disk ws_end) = <["notes" := NFile 8]> (<["lib" := NDir]> (<["lib/main.py" := NFile 6]> ∅)).
Proof. by vm_compute. Qed.

Lemma ws_acquired : acquired ws_limits 1 ws_disk ws_mount ws_ops.
Proof. split; [by vm_compute |]. split; [by vm_compute |]. split_and!; by vm_compute. Qed.

Lemma quota_is_never_exceeded_witness :
  (tree_bytes (tree_of (mt_disk (run_ops ws_ops ws_mount))) <= MaxBytes ws_limits)%N.
Proof.
  destruct (quota_is_never_exceeded ws_limits 1 ws_disk ws_mount ws_ops ws_acquired) as (_ & Hbytes & _).
  exact Hbytes.
Defined.

Lemma usage_is_exact_witness :
  writes_files ws_ops ws_mount = true
  /\ u_bytes (fs_usage (mt_fs (run_ops ws_ops ws_mount))) = tree_bytes (tree_of (mt_disk (run_ops ws_ops ws_mount))).
Proof.
  assert (writes_files ws_ops ws_mount = true) as Hw by (by vm_compute). split; [exact Hw |].
  destruct (usage_is_exact ws_limits 1 ws_disk ws_mount ws_ops ws_acquired Hw eq_refl) as (_ & _ & _ & Hb).
  exact Hb.
Defined.

Lemma open_files_keep_their_names_witness :
  exists f oh, mt_files (run_ops ws_ops ws_mount) !! 2%nat = Some f
    /\ handles_of (mt_disk (run_ops ws_ops ws_mount)) !! qf_handle f = Some oh /\ oh_name oh = qf_name f.
Proof.
  destruct (mt_files (run_ops ws_ops ws_mount) !! 2%nat) as [f |] eqn:Hf.
  2:{ assert (bool_decide (mt_files (run_ops ws_ops ws_mount) !! 2%nat = None) = false) as Hs by (by vm_compute).
      apply bool_decide_eq_false in Hs. by destruct Hs. }
  destruct (open_files_keep_their_names ws_limits 1 ws_disk ws_mount ws_ops 2 f ws_acquired Hf)
    as (oh & Hoh & Hname & _).
  exists f, oh. split; [exact eq_refl |]. split; [exact Hoh | exact Hname].
Defined.

(** The same workspace on a Host that cannot examine ["notes"]. *)
Definition ws_unread : memory_disk := mkMemory (md_tree ws_disk) ∅ ["notes"].
Definition ws_unread_mount : mount memory_disk :=
  default ws_mount (mount_workspace ws_limits 1 ws_unread).
Definition twenty : string := "01234567890123456789".
Definition ws_appends : list guest_op :=
  [OpOpen "notes" append_flag 0; OpWrite 0 twenty; OpWrite 0 twenty; OpWrite 0 twenty; OpWrite 0 twenty;
   OpWrite 0 twenty; OpWrite 0 twenty].

(** While [Stat] fails the quota bounds nothing: every append is reserved
    against the size before the first of them, which [reconcileSize] falls back
    to, so six appends of 20 bytes make a file of 123 bytes in a workspace of
    100, in which no file may exceed 50, and the usage still says 3. *)
Theorem unexamined_appends_pass_the_quota :
  acquired ws_limits 1 ws_unread ws_unread_mount ws_appends
  /\ let m := run_ops ws_appends ws_unread_mount in
     tree_of (mt_disk m) !! "notes" = Some (NFile 123)
     /\ (MaxFileBytes ws_limits < 123 /\ MaxBytes ws_limits < 123)%N
     /\ u_bytes (fs_usage (mt_fs m)) = 3%N /\ unexamined_bytes ws_appends ws_unread_mount = 120%N.
Proof. split; [split; [by vm_compute |]; split_and!; by vm_compute | split_and!; by vm_compute]. Qed.

(** The workspace with its directory open. *)
Definition ws_dir : mount memory_disk := run_ops [OpOpen "src" read_flag 0] ws_mount.
Definition ws_dir_file : quotaFile := mkQFile 0 "src" false false.
Definition ws_pwrite : N * option Errno * rootedFS * memory_disk :=
  Pwrite "x" 0 ws_dir_file (mt_fs ws_dir) (mt_disk ws_dir).

Lemma directory_write_is_charged_witness :
  ws_pwrite.1.1.2 = Some EISDIR /\ u_bytes (fs_usage (mt_fs ws_dir)) = 3%N
  /\ u_bytes (fs_usage ws_pwrite.1.2) = 4099%N.
Proof.
  split; [by vm_compute |]. split; [by vm_compute |].
  destruct (directory_write_is_charged (mt_fs ws_dir) (mt_disk ws_dir) ws_dir_file
    ws_pwrite.1.1.1 ws_pwrite.1.1.2 ws_pwrite.1.2 ws_pwrite.2 (md_info NDir)) as (_ & Hb & _).
  - by vm_compute.
  - exists (mkHandle "src" false 0). split; by vm_compute.
  - done.
  - by vm_compute.
  - by vm_compute.
  - by vm_compute.
  - by vm_compute.
  - by vm_compute.
  - unfold ws_pwrite. by destruct (Pwrite _ _ _ _ _) as [[[? ?] ?] ?].
  - by vm_compute.
  - by vm_compute.
  - rewrite Hb. by vm_compute.
Defined.
