(* ===== verification/Sha256.v ===== *)
(** * Sha256: [crypto/sha256] and [encoding/hex]

    SHA-256 of a byte string, in hexadecimal, as the workspace's snapshots use
    it, with 32-bit words as [N]. *)

From S2P Require Import Prelude.

Definition add32 (a b : N) : N := u32 (a + b).
Definition rotr (n : N) (x : N) : N := N.lor (N.shiftr x n) (u32 (N.shiftl x (32 - n))).
Definition not32 (x : N) : N := N.lxor x (2 ^ 32 - 1).

Definition ch (x y z : N) : N := N.lxor (N.land x y) (N.land (not32 x) z).
Definition maj (x y z : N) : N := N.lxor (N.lxor (N.land x y) (N.land x z)) (N.land y z).
Definition big0 (x : N) : N := N.lxor (N.lxor (rotr 2 x) (rotr 13 x)) (rotr 22 x).
Definition big1 (x : N) : N := N.lxor (N.lxor (rotr 6 x) (rotr 11 x)) (rotr 25 x).
Definition small0 (x : N) : N := N.lxor (N.lxor (rotr 7 x) (rotr 18 x)) (N.shiftr x 3).
Definition small1 (x : N) : N := N.lxor (N.lxor (rotr 17 x) (rotr 19 x)) (N.shiftr x 10).

(** The constants of FIPS 180-4: the first 32 bits of the fractional parts of
    the cube roots of the first 64 primes, and of the square roots of the first
    8. *)
Definition primes : list N :=
  filter (fun p => Forall (fun d => N.modulo p d <> 0%N)
                     (filter (fun d => (d * d <= p)%N) (map N.of_nat (seq 2 17))))
    (map N.of_nat (seq 2 310)).

(** The integer [k]-th root, from the highest bit down. *)
Fixpoint root_bits (k n : N) (bits : nat) (r : N) : N :=
  match bits with
  | O => r
  | S b =>
      let r' := (r + 2 ^ N.of_nat b)%N in
      root_bits k n b (if (r' ^ k <=? n)%N then r' else r)
  end.

Definition root_fraction (k p : N) : N := u32 (root_bits k (p * 2 ^ (32 * k)) 40 0).

Definition round_constants : list N := Eval vm_compute in map (root_fraction 3) primes.

Record words8 := mkWords { wa : N; wb : N; wc : N; wd : N; we : N; wf : N; wg : N; wh : N }.

Definition initial_words : list N := Eval vm_compute in map (root_fraction 2) (take 8 primes).

Definition initial : words8 :=
  let w i := nth i initial_words 0%N in
  mkWords (w 0%nat) (w 1%nat) (w 2%nat) (w 3%nat) (w 4%nat) (w 5%nat) (w 6%nat) (w 7%nat).

Definition round (s : words8) (k w : N) : words8 :=
  let t1 := add32 (add32 (add32 (add32 (wh s) (big1 (we s))) (ch (we s) (wf s) (wg s))) k) w in
  let t2 := add32 (big0 (wa s)) (maj (wa s) (wb s) (wc s)) in
  mkWords (add32 t1 t2) (wa s) (wb s) (wc s) (add32 (wd s) t1) (we s) (wf s) (wg s).

(** The rounds, with the message schedule as a window of the last 16 words. *)
Fixpoint rounds (ks : list N) (window : list N) (s : words8) : words8 :=
  match ks with
  | [] => s
  | k :: ks =>
      let w i := nth i window 0%N in
      let next := add32 (add32 (add32 (small1 (w 14%nat)) (w 9%nat)) (small0 (w 1%nat))) (w 0%nat) in
      rounds ks (tail window ++ [next]) (round s k (w 0%nat))
  end.

Definition compress (s : words8) (block : list N) : words8 :=
  let r := rounds round_constants block s in
  mkWords (add32 (wa s) (wa r)) (add32 (wb s) (wb r)) (add32 (wc s) (wc r)) (add32 (wd s) (wd r))
    (add32 (we s) (we r)) (add32 (wf s) (wf r)) (add32 (wg s) (wg r)) (add32 (wh s) (wh r)).

Fixpoint bytes_of (s : string) : list N :=
  match s with
  | EmptyString => []
  | String c s' => N_of_ascii c :: bytes_of s'
  end.

(** Big-endian, [n] bytes. *)
Fixpoint be_bytes (n : nat) (x : N) : list N :=
  match n with
  | O => []
  | S n' => N.land (N.shiftr x (8 * N.of_nat n')) 255 :: be_bytes n' x
  end.

Definition padding (len : nat) : list N :=
  128%N :: repeat 0%N (Nat.modulo (119 - Nat.modulo len 64) 64) ++ be_bytes 8 (8 * N.of_nat len).

Fixpoint words_of (bytes : list N) : list N :=
  match bytes with
  | a :: b :: c :: d :: rest => (((a * 256 + b) * 256 + c) * 256 + d)%N :: words_of rest
  | _ => []
  end.

Fixpoint blocks (fuel : nat) (words : list N) : list (list N) :=
  match fuel, words with
  | S fuel, _ :: _ => firstn 16 words :: blocks fuel (skipn 16 words)
  | _, _ => []
  end.

Definition sum256 (data : string) : words8 :=
  let bytes := bytes_of data in
  let words := words_of (bytes ++ padding (length bytes)) in
  fold_left compress (blocks (length words) words) initial.

Definition nibble (n : N) : ascii :=
  if (n <? 10)%N then ascii_of_N (48 + n) else ascii_of_N (87 + n).

Fixpoint hex_word (digits : nat) (x : N) : string :=
  match digits with
  | O => ""
  | S d => String (nibble (N.land (N.shiftr x (4 * N.of_nat d)) 15)) (hex_word d x)
  end.

(** [hex.EncodeToString] of the digest. *)
Definition sha256_hex (data : string) : string :=
  let s := sum256 data in
  hex_word 8 (wa s) +:+ hex_word 8 (wb s) +:+ hex_word 8 (wc s) +:+ hex_word 8 (wd s)
  +:+ hex_word 8 (we s) +:+ hex_word 8 (wf s) +:+ hex_word 8 (wg s) +:+ hex_word 8 (wh s).

Definition hex_char (c : ascii) : bool :=
  let n := N_of_ascii c in
  (48 <=? n)%N && (n <=? 57)%N || (97 <=? n)%N && (n <=? 102)%N || (65 <=? n)%N && (n <=? 70)%N.

Fixpoint all_chars (p : ascii -> bool) (s : string) : bool :=
  match s with
  | EmptyString => true
  | String c s' => p c && all_chars p s'
  end.

(** [hex.DecodeString] succeeds. *)
Definition hex_valid (s : string) : bool :=
  Nat.even (String.length s) && all_chars hex_char s.

(** ** The standard's examples *)

Example sha256_empty :
  sha256_hex "" = "e3b0c44298fc1c149afbf4c8996fb92427ae41e4649b934ca495991b7852b855".
Proof. vm_compute. reflexivity. Qed.

Example sha256_abc :
  sha256_hex "abc" = "ba7816bf8f01cfea414140de5dae2223b00361a396177a9cb410ff61f20015ad".
Proof. vm_compute. reflexivity. Qed.

Example sha256_two_blocks :
  sha256_hex "abcdbcdecdefdefgefghfghighijhijkijkljklmklmnlmnomnopnopq"
  = "248d6a61d20638b8e5c026930c3e6039a33ce45964ff2167f6ecedd419db06c1".
Proof. vm_compute. reflexivity. Qed.

(** ** The form of a digest *)

Lemma nibble_hex n : (n < 16)%N -> hex_char (nibble n) = true.
Proof.
  intros Hn. unfold nibble, hex_char. destruct (n <? 10)%N eqn:Hlt.
  - apply N.ltb_lt in Hlt. rewrite N_ascii_embedding by lia.
    rewrite !(proj2 (N.leb_le _ _)) by lia. done.
  - apply N.ltb_ge in Hlt. rewrite N_ascii_embedding by lia.
    rewrite (proj2 (N.leb_le 97 _)), (proj2 (N.leb_le _ 102)) by lia. by rewrite orb_true_r.
Qed.

Lemma all_chars_app p a b : all_chars p (a +:+ b) = all_chars p a && all_chars p b.
Proof. induction a as [| c a IH]; [done |]. rewrite str_app_cons. simpl. by rewrite IH, andb_assoc. Qed.

Lemma hex_word_length d x : String.length (hex_word d x) = d.
Proof. induction d as [| d IH]; [done |]. simpl. by rewrite IH. Qed.

Lemma hex_word_hex d x : all_chars hex_char (hex_word d x) = true.
Proof.
  induction d as [| d IH]; [done |]. simpl. rewrite IH, nibble_hex; [done |].
  change 15%N with (N.ones 4). rewrite N.land_ones. apply N.mod_lt. done.
Qed.

Lemma sha256_length data : String.length (sha256_hex data) = 64%nat.
Proof.
  unfold sha256_hex. generalize (sum256 data). intros s.
  rewrite !str_length_app, !hex_word_length. reflexivity.
Qed.

Lemma sha256_hex_valid data : hex_valid (sha256_hex data) = true.
Proof.
  unfold hex_valid. rewrite sha256_length. unfold sha256_hex. generalize (sum256 data). intros s.
  rewrite !all_chars_app, !hex_word_hex. reflexivity.
Qed.
#[export] Hint Resolve sha256_length sha256_hex_valid : pysolate.
