(* ===== verification/Snapshot.v ===== *)
(** * Snapshot: snapshots and change sets ([runtime/workspace/snapshot.go],
    [runtime/workspace/export.go])

    A snapshot lists the states of the files of a workspace in order and names
    them by a digest; [Diff] compares two snapshots, and [ExportChanges] adds
    the contents of what changed.  The workspace's files are ordinary files of
    the Host, so every call about one is an answer of its own ([views]): a
    snapshot examines each file before and after it reads it, and the export
    reads it once more. *)

From stdpp Require Import sorting.
From S2P Require Import Prelude Errors Json Paths RootedFS Sha256.

(** An error wrapped around a sentinel with [%w] is identified with it. *)
Inductive ws_error :=
| ErrInvalidWorkspace | ErrWorkspaceBusy | ErrWorkspaceNotFound | ErrWorkspaceClosed
| ErrInvalidChangeSet | ErrExportTooLarge
| EHost (what : string)
| ESnapshotFile (name what : string) | EChangedBeforeRead (name : string) | EChangedDuringRead (name : string)
| EChangedAfterSnapshot (name : string) | ERead (name : string).

(** ** Data *)

Record FileState := mkState {
  fs_Path : string;
  fs_Size : N;
  fs_SHA256 : string;
  fs_Executable : bool
}.

#[export] Instance FileState_eq_dec : EqDecision FileState.
Proof. solve_decision. Defined.

Record Snapshot := mkSnapshot {
  sn_Revision : string;
  sn_FileCount : N;
  sn_Bytes : N;
  sn_Files : list FileState
}.

Definition ChangeAdded : string := "added".
Definition ChangeModified : string := "modified".
Definition ChangeDeleted : string := "deleted".

Record Change := mkChange {
  ch_Path : string;
  ch_Kind : string;
  ch_Before : option FileState;
  ch_After : option FileState
}.

Record ChangeSummary := mkSummary {
  su_Before : string;
  su_After : string;
  su_Added : N;
  su_Modified : N;
  su_Deleted : N;
  su_Changes : list Change
}.

Record ExportedChange := mkExported {
  ec_Path : string;
  ec_Kind : string;
  ec_Before : option FileState;
  ec_After : option FileState;
  ec_Data : string
}.

Record ChangeSet := mkChangeSet {
  cs_SchemaVersion : Z;
  cs_Before : string;
  cs_After : string;
  cs_Bytes : N;
  cs_Changes : list ExportedChange
}.

Definition ChangeSetSchemaVersion : Z := 1.

(** ** Files of the Host *)

(** What [Lstat] and [Stat] report, with the modification time. *)
Record Stat := mkStat { st_info : Info; st_mtime : Z }.

Inductive found := Found (s : Stat) | NotExist | Failed.

(** [sameSourceObject]. *)
Definition sameSourceObject (l r : Stat) : bool :=
  let a := st_info l in
  let b := st_info r in
  bool_decide (i_type a = i_type b) && bool_decide (i_size a = i_size b) && bool_decide (i_dev a = i_dev b)
  && bool_decide (i_ino a = i_ino b) && bool_decide (i_nlink a = i_nlink b).

Definition same_and_unmodified (l r : Stat) : bool :=
  sameSourceObject l r && bool_decide (st_mtime l = st_mtime r).

(** The answers of the Host while one snapshot is taken and exported, by name:
    [root.Open], the two [file.Stat], what [io.Copy] copied and whether it
    succeeded, [file.Close], [root.Lstat], and the [root.ReadFile] of the export;
    [vw_root] and [vw_again] are the errors of the two [os.OpenRoot]. *)
Record views := mkViews {
  vw_root : option string;
  vw_open : string -> option string;
  vw_before : string -> found;
  vw_copy : string -> string * bool;
  vw_after : string -> found;
  vw_close : string -> bool;
  vw_linked : string -> found;
  vw_again : option string;
  vw_read : string -> option string
}.

(** ** Revisions *)

Fixpoint string_of_bytes (l : list N) : string :=
  match l with
  | [] => ""
  | n :: l => String (ascii_of_N n) (string_of_bytes l)
  end.

(** [binary.BigEndian.PutUint64]. *)
Definition put_uint64 (n : N) : string := string_of_bytes (be_bytes 8 n).

Definition encode_state (f : FileState) : string :=
  put_uint64 (slen (fs_Path f)) +:+ fs_Path f +:+ put_uint64 (fs_Size f)
  +:+ String (ascii_of_N (if fs_Executable f then 1 else 0)) (fs_SHA256 f).

Definition revision_header : string := "pysolate-workspace-snapshot-v1" +:+ String (ascii_of_N 0) "".

(** What [snapshotRevision] writes to the hash. *)
Definition revision_input (files : list FileState) : string :=
  revision_header +:+ join_with "" (map encode_state files).

Definition snapshotRevision (files : list FileState) : string :=
  "sha256:" +:+ sha256_hex (revision_input files).

Definition validRevision (value : string) : bool :=
  has_prefix "sha256:" value && (slen value =? 7 + 64)%N && hex_valid (trim_prefix "sha256:" value).

(** ** Snapshots *)

(** [sort.Strings]. *)
Definition sort_strings (l : list string) : list string := merge_sort String.le l.

Section Workspace.
Variable v : views.

Definition file_state (u : treeUsage) (name data : string) : FileState :=
  mkState name (size_of name u) (sha256_hex data)
    (match u_entries u !! name with
     | Some mode => negb (bool_decide (N.land (m_perm mode) 73 = 0%N))
     | None => false
     end).

(** The file is the regular file of [size] bytes that the scan found. *)
Definition still_regular (size : N) (before : Stat) : bool :=
  bool_decide (i_type (st_info before) = TRegular) && (0 <=? i_size (st_info before))%Z
  && (Z.to_N (i_size (st_info before)) =? size)%N.

(** An examination found the same object, not modified since. *)
Definition unchanged (before : Stat) (again : found) : bool :=
  match again with Found now => same_and_unmodified before now | _ => false end.

(** One turn of the loop over the paths. *)
Definition snapshot_file (u : treeUsage) (name : string) : res ws_error FileState :=
  match vw_open v name with
  | Some e => Err (ESnapshotFile name e)
  | None =>
      match vw_before v name with
      | Found before =>
          if negb (still_regular (size_of name u) before) then Err (EChangedBeforeRead name)
          else
            let (data, copied) := vw_copy v name in
            if copied && vw_close v name && (slen data =? size_of name u)%N
               && unchanged before (vw_after v name) && unchanged before (vw_linked v name)
            then Ok (file_state u name data)
            else Err (EChangedDuringRead name)
      | _ => Err (EChangedBeforeRead name)
      end
  end.

Fixpoint snapshot_files (u : treeUsage) (names : list string) : res ws_error (list FileState) :=
  match names with
  | [] => Ok []
  | name :: rest =>
      let* file := snapshot_file u name in
      let* files := snapshot_files u rest in
      Ok (file :: files)
  end.

(** [snapshotLocked], given what the scan found. *)
Definition snapshotLocked (scan : option treeUsage) : res ws_error Snapshot :=
  match scan with
  | None => Err ErrInvalidWorkspace
  | Some u =>
      match vw_root v with
      | Some e => Err (EHost e)
      | None =>
          let* files := snapshot_files u (sort_strings (map fst (map_to_list (u_sizes u)))) in
          Ok (mkSnapshot (snapshotRevision files) (u32 (N.of_nat (length files))) (u_bytes u) files)
      end
  end.

(** ** Comparing *)

(** A map filled in order: a later file of the same path replaces an earlier. *)
Definition files_map (files : list FileState) : gmap string FileState :=
  foldl (fun m f => <[fs_Path f := f]> m) ∅ files.

Definition ordered_paths (old new : gmap string FileState) : list string :=
  sort_strings (elements (dom old ∪ dom new)).

(** One turn of [Diff]'s loop. *)
Definition diff_path (old new : gmap string FileState) (s : ChangeSummary) (name : string) : ChangeSummary :=
  let add a m d change :=
    mkSummary (su_Before s) (su_After s) (u32 (su_Added s + a)) (u32 (su_Modified s + m))
      (u32 (su_Deleted s + d)) (su_Changes s ++ [change]) in
  match old !! name, new !! name with
  | None, newFile => add 1%N 0%N 0%N (mkChange name ChangeAdded None newFile)
  | Some oldFile, None => add 0%N 0%N 1%N (mkChange name ChangeDeleted (Some oldFile) None)
  | Some oldFile, Some newFile =>
      if bool_decide (oldFile = newFile) then s
      else add 0%N 1%N 0%N (mkChange name ChangeModified (Some oldFile) (Some newFile))
  end.

Definition Diff (before after : Snapshot) : ChangeSummary :=
  let old := files_map (sn_Files before) in
  let new := files_map (sn_Files after) in
  foldl (diff_path old new) (mkSummary (sn_Revision before) (sn_Revision after) 0 0 0 [])
    (ordered_paths old new).

(** ** Validation *)

Definition matchesFileState (data : string) (state : FileState) : bool :=
  (slen data =? fs_Size state)%N && bool_decide (sha256_hex data = fs_SHA256 state).

Definition validState (path : string) (l : WLimits) (state : option FileState) : bool :=
  match state with
  | None => false
  | Some s =>
      bool_decide (fs_Path s = path) && (fs_Size s <=? MaxFileBytes l)%N && (slen (fs_SHA256 s) =? 64)%N
      && hex_valid (fs_SHA256 s)
  end.

Definition carries (data : string) (state : option FileState) : bool :=
  match state with Some s => matchesFileState data s | None => false end.

Definition validateExportedChange (c : ExportedChange) (l : WLimits) : res ws_error unit :=
  let ok :=
    if bool_decide (ec_Kind c = ChangeAdded)
    then bool_decide (ec_Before c = None) && validState (ec_Path c) l (ec_After c) && carries (ec_Data c) (ec_After c)
    else if bool_decide (ec_Kind c = ChangeModified)
    then validState (ec_Path c) l (ec_Before c) && validState (ec_Path c) l (ec_After c)
         && carries (ec_Data c) (ec_After c)
    else if bool_decide (ec_Kind c = ChangeDeleted)
    then validState (ec_Path c) l (ec_Before c) && bool_decide (ec_After c = None)
         && bool_decide (ec_Data c = "")
    else false in
  guard ok ErrInvalidChangeSet.

(** [cleanGuestPath] returns the path itself, and it comes after the previous. *)
Definition next_path (l : WLimits) (previous : option string) (path : string) : bool :=
  bool_decide (cleanGuestPath path (MaxDepth l) false = Some path)
  && match previous with
     | None => true
     | Some p => negb (bool_decide (String.le path p))
     end.

Fixpoint validate_changes (l : WLimits) (maxBytes total : N) (previous : option string)
    (changes : list ExportedChange) : res ws_error N :=
  match changes with
  | [] => Ok total
  | c :: rest =>
      let* _ := guard (next_path l previous (ec_Path c)) ErrInvalidChangeSet in
      let* _ := validateExportedChange c l in
      let* _ := guard (negb (sub64 maxBytes total <? slen (ec_Data c))%N) ErrExportTooLarge in
      validate_changes l maxBytes (u64 (total + slen (ec_Data c))) (Some (ec_Path c)) rest
  end.

Definition Validate (bundle : ChangeSet) (l : WLimits) (maxBytes : N) : res ws_error unit :=
  let* _ := guard (validate_limits l) ErrInvalidWorkspace in
  let* _ := guard ((cs_SchemaVersion bundle =? ChangeSetSchemaVersion)%Z && validRevision (cs_Before bundle)
                   && validRevision (cs_After bundle) && negb (maxBytes =? 0)%N) ErrInvalidChangeSet in
  let* _ := guard (N.of_nat (length (cs_Changes bundle)) <=? MaxFiles l)%N ErrInvalidChangeSet in
  let* total := validate_changes l maxBytes 0 None (cs_Changes bundle) in
  guard (total =? cs_Bytes bundle)%N ErrInvalidChangeSet.

Fixpoint validate_files (l : WLimits) (bytes : N) (previous : option string) (files : list FileState)
  : res ws_error N :=
  match files with
  | [] => Ok bytes
  | f :: rest =>
      let* _ := guard (next_path l previous (fs_Path f) && (fs_Size f <=? MaxFileBytes l)%N
                       && (slen (fs_SHA256 f) =? 64)%N) ErrInvalidChangeSet in
      let* _ := guard (hex_valid (fs_SHA256 f) && negb (sub64 (MaxBytes l) bytes <? fs_Size f)%N)
                  ErrInvalidChangeSet in
      validate_files l (u64 (bytes + fs_Size f)) (Some (fs_Path f)) rest
  end.

Definition validateSnapshot (s : Snapshot) (l : WLimits) : res ws_error unit :=
  let* _ := guard (validRevision (sn_Revision s) && (N.of_nat (length (sn_Files s)) <=? MaxFiles l)%N)
              ErrInvalidChangeSet in
  let* bytes := validate_files l 0 None (sn_Files s) in
  guard ((u32 (N.of_nat (length (sn_Files s))) =? sn_FileCount s)%N && (bytes =? sn_Bytes s)%N
         && bool_decide (snapshotRevision (sn_Files s) = sn_Revision s)) ErrInvalidChangeSet.

(** ** Exporting *)

Fixpoint export_changes (maxBytes bytes : N) (changes : list Change)
  : res ws_error (N * list ExportedChange) :=
  match changes with
  | [] => Ok (bytes, [])
  | c :: rest =>
      if bool_decide (ch_Kind c = ChangeDeleted) then
        let* (total, exported) := export_changes maxBytes bytes rest in
        Ok (total, mkExported (ch_Path c) (ch_Kind c) (ch_Before c) (ch_After c) "" :: exported)
      else match ch_After c with
      | None => Err ErrExportTooLarge
      | Some after =>
          if (sub64 maxBytes bytes <? fs_Size after)%N then Err ErrExportTooLarge
          else match vw_read v (ch_Path c) with
          | None => Err (ERead (ch_Path c))
          | Some data =>
              if negb (matchesFileState data after) then Err (EChangedAfterSnapshot (ch_Path c))
              else
                let* (total, exported) := export_changes maxBytes (u64 (bytes + slen data)) rest in
                Ok (total, mkExported (ch_Path c) (ch_Kind c) (ch_Before c) (ch_After c) data :: exported)
          end
      end
  end.

(** [ExportChanges] on a lease that is neither running nor released. *)
Definition ExportChanges (scan : option treeUsage) (l : WLimits) (before : Snapshot) (maxBytes : N)
  : res ws_error ChangeSet :=
  if (maxBytes =? 0)%N then Err ErrInvalidWorkspace
  else
    let* _ := validateSnapshot before l in
    let* after := snapshotLocked scan in
    let summary := Diff before after in
    match vw_again v with
    | Some e => Err (EHost e)
    | None =>
        let* (bytes, changes) := export_changes maxBytes 0 (su_Changes summary) in
        let bundle := mkChangeSet ChangeSetSchemaVersion (sn_Revision before) (sn_Revision after) bytes changes in
        let* _ := Validate bundle l maxBytes in
        Ok bundle
    end.
End Workspace.
