(* ===== verification/SnapshotProps.v ===== *)
(** * SnapshotProps: what snapshots and change sets promise

    [Diff] is exact, a revision pins its files, an export either carries every
    change with its contents or is refused for a limit, and a validated change
    set pins its data. *)

From stdpp Require Import sorting.
From S2P Require Import Prelude Errors Json Paths RootedFS HostFS RootedFSSpec Sha256 Snapshot.

#[local] Opaque sha256_hex.

(** ** Sorted names *)

Definition str_before (a b : string) : Prop := ~ String.le b a.

Lemma sort_strings_elem l x : x ∈ sort_strings l <-> x ∈ l.
Proof. unfold sort_strings. by rewrite merge_sort_Permutation. Qed.

Lemma sort_strings_sorted l : NoDup l -> StronglySorted str_before (sort_strings l).
Proof.
  intros Hnd. assert (NoDup (sort_strings l)) as Hnd' by (unfold sort_strings; by rewrite merge_sort_Permutation).
  assert (StronglySorted String.le (sort_strings l)) as Hs by (apply StronglySorted_merge_sort; apply _).
  induction Hs as [| x l' Hs IH Hx]; [constructor |]. apply list.NoDup_cons in Hnd' as [Hnot Hnd'].
  constructor; [by apply IH |]. apply list.Forall_forall. intros y Hy Hle.
  rewrite list.Forall_forall in Hx. specialize (Hx y Hy).
  assert (x = y) as -> by (by apply (anti_symm String.le)). done.
Qed.

(** ** Diff *)

Definition change_of (old new : gmap string FileState) (name : string) : option Change :=
  match old !! name, new !! name with
  | None, newFile => Some (mkChange name ChangeAdded None newFile)
  | Some oldFile, None => Some (mkChange name ChangeDeleted (Some oldFile) None)
  | Some oldFile, Some newFile =>
      if bool_decide (oldFile = newFile) then None
      else Some (mkChange name ChangeModified (Some oldFile) (Some newFile))
  end.

Definition changes_of (old new : gmap string FileState) : list Change :=
  omap (change_of old new) (ordered_paths old new).

Lemma diff_fold old new names s :
  su_Changes (foldl (diff_path old new) s names) = su_Changes s ++ omap (change_of old new) names.
Proof.
  revert s. induction names as [| name names IH]; intros s; simpl; [by rewrite app_nil_r |].
  rewrite IH. unfold diff_path, change_of.
  destruct (old !! name) as [o |], (new !! name) as [n |]; try (destruct (bool_decide (o = n))); simpl;
    by rewrite <- ?app_assoc.
Qed.

Lemma Diff_changes before after :
  su_Changes (Diff before after) = changes_of (files_map (sn_Files before)) (files_map (sn_Files after)).
Proof. unfold Diff. by rewrite diff_fold. Qed.

Lemma change_of_path old new name c : change_of old new name = Some c -> ch_Path c = name.
Proof. unfold change_of. intros H. repeat (case_match; simplify_eq/=; try done). Qed.

Lemma change_of_spec old new name c :
  change_of old new name = Some c -> is_Some (old !! name) \/ is_Some (new !! name) ->
  ch_Path c = name /\ ch_Before c = old !! name /\ ch_After c = new !! name
  /\ ch_Kind c = (if bool_decide (old !! name = None) then ChangeAdded
                  else if bool_decide (new !! name = None) then ChangeDeleted else ChangeModified)
  /\ old !! name <> new !! name.
Proof.
  unfold change_of. intros H Hsome. destruct (old !! name) as [o |] eqn:Ho, (new !! name) as [n |] eqn:Hn.
  - destruct (bool_decide (o = n)) eqn:Heq; [done |]. guards. simplify_eq/=. split_and!; try done. congruence.
  - by simplify_eq/=.
  - by simplify_eq/=.
  - by destruct Hsome as [[? ?] | [? ?]].
Qed.

Lemma change_of_None old new name :
  is_Some (old !! name) \/ is_Some (new !! name) -> change_of old new name = None -> old !! name = new !! name.
Proof.
  unfold change_of. intros Hsome. destruct (old !! name) as [o |], (new !! name) as [n |]; try done.
  destruct (bool_decide (o = n)) eqn:Heq; [| done]. guards. by subst.
Qed.

Lemma ordered_elem old new name :
  name ∈ ordered_paths old new <-> is_Some (old !! name) \/ is_Some (new !! name).
Proof. unfold ordered_paths. by rewrite sort_strings_elem, elem_of_elements, elem_of_union, !elem_of_dom. Qed.

Lemma ordered_sorted old new : StronglySorted str_before (ordered_paths old new).
Proof. apply sort_strings_sorted, NoDup_elements. Qed.

Lemma changes_elem old new c :
  c ∈ changes_of old new <->
  exists name, (is_Some (old !! name) \/ is_Some (new !! name)) /\ change_of old new name = Some c.
Proof.
  unfold changes_of. rewrite list_elem_of_omap. split; intros (name & H1 & H2); exists name;
    by rewrite ordered_elem in *.
Qed.

(** A path is among the changes exactly when its files differ. *)
Lemma changes_at old new p :
  old !! p <> new !! p -> exists c, c ∈ changes_of old new /\ ch_Path c = p /\ ch_After c = new !! p.
Proof.
  intros Hne. assert (is_Some (old !! p) \/ is_Some (new !! p)) as Hsome.
  { destruct (old !! p), (new !! p); eauto. done. }
  destruct (change_of old new p) as [c |] eqn:Hc; [| by apply change_of_None in Hc].
  destruct (change_of_spec _ _ _ _ Hc Hsome) as (Hp & _ & Ha & _). exists c.
  split_and!; try done. apply changes_elem. by exists p.
Qed.

Lemma changes_differ old new p : p ∈ map ch_Path (changes_of old new) -> old !! p <> new !! p.
Proof.
  intros (c & -> & (name & Hsome & Hc)%changes_elem)%list_elem_of_fmap.
  by destruct (change_of_spec _ _ _ _ Hc Hsome) as (-> & _ & _ & _ & Hne).
Qed.

(** The paths of a strictly sorted list of changes. *)
Lemma changes_sorted old new : StronglySorted str_before (map ch_Path (changes_of old new)).
Proof.
  unfold changes_of. pose proof (ordered_sorted old new) as Hs. revert Hs.
  generalize (ordered_paths old new). intros names Hs.
  induction Hs as [| name names Hs IH Hlt]; simpl; [constructor |].
  destruct (change_of old new name) as [c |] eqn:Hc; [| done]. simpl. constructor; [done |].
  apply list.Forall_forall. intros p (c' & -> & Hin)%list_elem_of_fmap.
  apply list_elem_of_omap in Hin as (name' & Hin & Hc').
  rewrite (change_of_path _ _ _ _ Hc), (change_of_path _ _ _ _ Hc').
  rewrite list.Forall_forall in Hlt. by apply Hlt.
Qed.

(** Putting a change into effect on the files it was made from. *)
Definition apply_change (m : gmap string FileState) (c : Change) : gmap string FileState :=
  match ch_After c with
  | Some after => <[ch_Path c := after]> m
  | None => delete (ch_Path c) m
  end.

Lemma apply_lookup m c p :
  apply_change m c !! p = if decide (ch_Path c = p) then ch_After c else m !! p.
Proof.
  unfold apply_change. destruct (ch_After c) as [a |].
  - rewrite lookup_insert. by destruct (decide (ch_Path c = p)).
  - rewrite lookup_delete. by destruct (decide (ch_Path c = p)).
Qed.

Lemma apply_changes_lookup old new names m p :
  NoDup names -> (forall name, name ∈ names -> is_Some (old !! name) \/ is_Some (new !! name)) ->
  (p ∈ names -> m !! p = old !! p) ->
  foldl apply_change m (omap (change_of old new) names) !! p
  = if decide (p ∈ names) then new !! p else m !! p.
Proof.
  revert m. induction names as [| name names IH]; intros m Hnd Hsome Hm; simpl.
  { done. }
  apply list.NoDup_cons in Hnd as [Hnot Hnd].
  assert (is_Some (old !! name) \/ is_Some (new !! name)) as Hname by (apply Hsome, list_elem_of_here).
  assert (forall m', (p <> name -> m' !! p = m !! p) -> (p = name -> m' !! p = new !! p) ->
    foldl apply_change m' (omap (change_of old new) names) !! p
    = if decide (p ∈ name :: names) then new !! p else m !! p) as Hgo.
  { intros m' Hne Heq. rewrite (IH m'); [| done | |].
    - destruct (decide (p ∈ names)) as [Hin | Hin].
      + rewrite decide_True; [done | by apply list_elem_of_further].
      + destruct (decide (p = name)) as [-> | Hpn].
        * rewrite decide_True by apply list_elem_of_here. by apply Heq.
        * rewrite decide_False; [by apply Hne |]. by intros [? | ?]%elem_of_cons.
    - intros q Hq. by apply Hsome, list_elem_of_further.
    - intros Hin. rewrite Hne; [by apply Hm, list_elem_of_further |]. by intros ->. }
  destruct (change_of old new name) as [c |] eqn:Hc; simpl.
  - destruct (change_of_spec _ _ _ _ Hc Hname) as (Hp & _ & Ha & _). apply Hgo.
    + intros Hne. rewrite apply_lookup, decide_False by congruence. done.
    + intros ->. by rewrite apply_lookup, decide_True.
  - apply Hgo; [done |]. intros ->. rewrite Hm by apply list_elem_of_here. by apply change_of_None.
Qed.

(** How many changes are of a kind. *)
Definition kind_count (k : string) (l : list Change) : N :=
  N.of_nat (length (filter (fun c => ch_Kind c = k) l)).

Lemma kind_count_app k a b : kind_count k (a ++ b) = (kind_count k a + kind_count k b)%N.
Proof. unfold kind_count. rewrite list.filter_app, length_app. lia. Qed.

Lemma diff_turn_counts old new s name :
  (su_Added s + su_Modified s + su_Deleted s + 1 < 2 ^ 32)%N ->
  let s' := diff_path old new s name in
  let c := option_list (change_of old new name) in
  su_Added s' = (su_Added s + kind_count ChangeAdded c)%N
  /\ su_Modified s' = (su_Modified s + kind_count ChangeModified c)%N
  /\ su_Deleted s' = (su_Deleted s + kind_count ChangeDeleted c)%N
  /\ (su_Added s' + su_Modified s' + su_Deleted s' <= su_Added s + su_Modified s + su_Deleted s + 1)%N.
Proof.
  intros Hfit. unfold diff_path, change_of.
  destruct (old !! name) as [o |], (new !! name) as [n |]; try (destruct (bool_decide (o = n)));
    simpl; rewrite ?u32_id by lia; unfold kind_count; simpl; lia.
Qed.

Lemma diff_counts old new names s :
  (su_Added s + su_Modified s + su_Deleted s + N.of_nat (length names) < 2 ^ 32)%N ->
  let s' := foldl (diff_path old new) s names in
  let changes := omap (change_of old new) names in
  su_Added s' = (su_Added s + kind_count ChangeAdded changes)%N
  /\ su_Modified s' = (su_Modified s + kind_count ChangeModified changes)%N
  /\ su_Deleted s' = (su_Deleted s + kind_count ChangeDeleted changes)%N.
Proof.
  revert s. induction names as [| name names IH]; intros s Hfit; cbn [foldl length] in *.
  { unfold kind_count. simpl. lia. }
  destruct (diff_turn_counts old new s name) as (Ha & Hm & Hd & Hle); [lia |].
  destruct (IH (diff_path old new s name)) as (Ha' & Hm' & Hd'); [lia |]. cbv zeta.
  assert (omap (change_of old new) (name :: names)
          = option_list (change_of old new name) ++ omap (change_of old new) names) as ->.
  { simpl. by destruct (change_of old new name). }
  rewrite !kind_count_app, Ha', Hm', Hd', Ha, Hm, Hd. lia.
Qed.

(** ** Revisions *)

Fixpoint be_value (acc : N) (s : string) : N :=
  match s with
  | EmptyString => acc
  | String c s' => be_value (acc * 256 + N_of_ascii c) s'
  end.

Lemma be_value_put n x acc :
  be_value acc (string_of_bytes (be_bytes n x)) = (acc * 256 ^ N.of_nat n + x mod 256 ^ N.of_nat n)%N.
Proof.
  revert acc. induction n as [| n IH]; intros acc.
  { simpl. rewrite N.mod_1_r. lia. }
  cbn [be_bytes string_of_bytes be_value]. rewrite IH. clear IH.
  set (p := (256 ^ N.of_nat n)%N). assert (p <> 0)%N as Hp by (apply N.pow_nonzero; lia).
  replace (256 ^ N.of_nat (S n))%N with (256 * p)%N by (unfold p; rewrite Nat2N.inj_succ, N.pow_succ_r'; lia).
  assert (N.land (N.shiftr x (8 * N.of_nat n)) 255 = (x / p) mod 256)%N as ->.
  { change 255%N with (N.ones 8). rewrite N.land_ones, N.shiftr_div_pow2. f_equal.
    unfold p. change 256%N with (2 ^ 8)%N. by rewrite <- N.pow_mul_r. }
  rewrite N_ascii_embedding by (apply N.mod_lt; lia).
  rewrite (N.mul_comm 256 p), (N.Div0.mod_mul_r x p 256). lia.
Qed.

Lemma put_uint64_length n : String.length (put_uint64 n) = 8%nat.
Proof. done. Qed.

Lemma put_uint64_inj a b : (a < 2 ^ 64)%N -> (b < 2 ^ 64)%N -> put_uint64 a = put_uint64 b -> a = b.
Proof.
  intros Ha Hb Heq. apply (f_equal (be_value 0)) in Heq. unfold put_uint64 in Heq.
  rewrite !be_value_put in Heq. simpl N.of_nat in Heq.
  rewrite !N.mod_small in Heq by (change (256 ^ 8)%N with (2 ^ 64)%N; done). lia.
Qed.

Lemma str_app_inv_length (a b x y : string) :
  String.length a = String.length b -> a +:+ x = b +:+ y -> a = b /\ x = y.
Proof.
  revert b. induction a as [| c a IH]; intros [| d b] Hlen Heq; try done.
  rewrite !str_app_cons in Heq. injection Heq as -> Heq. injection Hlen as Hlen.
  by destruct (IH b Hlen Heq) as [-> ->].
Qed.

(** The states a snapshot can hold. *)
Definition state_ok (f : FileState) : Prop :=
  (slen (fs_Path f) < 2 ^ 64)%N /\ (fs_Size f < 2 ^ 64)%N /\ String.length (fs_SHA256 f) = 64%nat.

Lemma encode_state_inj f g x y :
  state_ok f -> state_ok g -> encode_state f +:+ x = encode_state g +:+ y -> f = g /\ x = y.
Proof.
  intros (Hfp & Hfs & Hfh) (Hgp & Hgs & Hgh) Heq. unfold encode_state in Heq.
  rewrite !str_app_assoc in Heq. apply str_app_inv_length in Heq as [Hp Heq]; [| done].
  apply put_uint64_inj in Hp; [| done | done]. unfold slen in Hp.
  apply str_app_inv_length in Heq as [Hpath Heq]; [| lia].
  apply str_app_inv_length in Heq as [Hs Heq]; [| done].
  apply put_uint64_inj in Hs; [| done | done].
  rewrite !str_app_cons in Heq. injection Heq as He Heq.
  apply str_app_inv_length in Heq as [Hh ->]; [| by rewrite Hfh, Hgh]. split; [| done].
  destruct f as [p s h e], g as [p' s' h' e']. simpl in *. subst.
  by destruct e, e'.
Qed.

Lemma revision_input_inj fs gs :
  Forall state_ok fs -> Forall state_ok gs -> revision_input fs = revision_input gs -> fs = gs.
Proof.
  intros Hf Hg Heq. unfold revision_input in Heq. apply str_app_inv_head in Heq.
  assert (forall x l, join_with "" (map encode_state (x :: l)) = encode_state x +:+ join_with "" (map encode_state l))
    as Hjoin.
  { intros x [| z l]; simpl; [by rewrite str_app_nil | done]. }
  assert (forall x l, join_with "" (map encode_state (x :: l)) <> "") as Hne.
  { intros x l. rewrite Hjoin. unfold encode_state. done. }
  revert gs Hg Heq. induction Hf as [| f fs Hok Hf IH]; intros gs Hg Heq.
  - destruct gs as [| g gs]; [done |]. symmetry in Heq. by apply Hne in Heq.
  - destruct Hg as [| g gs Hokg Hg]; [by apply Hne in Heq |].
    rewrite !Hjoin in Heq. apply encode_state_inj in Heq as [-> Heq]; [| done | done].
    f_equal. by apply IH.
Qed.

(** ** Validation *)

(** A strictly sorted list of accepted paths, from the one before. *)
Fixpoint paths_ok (l : WLimits) (previous : option string) (paths : list string) : bool :=
  match paths with
  | [] => true
  | p :: rest => next_path l previous p && paths_ok l (Some p) rest
  end.

Lemma paths_ok_sorted l previous paths :
  Forall (fun p => cleanGuestPath p (MaxDepth l) false = Some p) paths ->
  StronglySorted str_before paths ->
  (forall q, previous = Some q -> Forall (str_before q) paths) -> paths_ok l previous paths = true.
Proof.
  intros Hc Hs. revert previous. induction Hs as [| p paths Hs IH Hp]; intros previous Hprev; [done |].
  inversion Hc as [| ? ? Hcp Hc']; subst. simpl. unfold next_path.
  rewrite bool_decide_eq_true_2 by done. rewrite IH; [| done |].
  - destruct previous as [q |]; [| done]. specialize (Hprev q eq_refl). inversion Hprev; subst.
    by rewrite bool_decide_eq_false_2.
  - intros q [= <-]. done.
Qed.

Lemma paths_ok_clean l previous paths :
  paths_ok l previous paths = true -> Forall (fun p => cleanGuestPath p (MaxDepth l) false = Some p) paths.
Proof.
  revert previous. induction paths as [| p paths IH]; intros previous Hp; [constructor |].
  simpl in Hp. unfold next_path in Hp. apply andb_prop in Hp as [[Hc _]%andb_prop Hp]. guards.
  constructor; [done | by eapply IH].
Qed.

Lemma validate_files_Ok l bytes previous files total :
  validate_files l bytes previous files = Ok total ->
  paths_ok l previous (map fs_Path files) = true
  /\ Forall (fun f => validState (fs_Path f) l (Some f) = true) files.
Proof.
  revert bytes previous. induction files as [| f files IH]; intros bytes previous Hv; [done |]. cbn in Hv.
  destruct (next_path l previous (fs_Path f)) eqn:Hnext; [| done].
  destruct (fs_Size f <=? MaxFileBytes l)%N eqn:Hsize; [| done].
  destruct (slen (fs_SHA256 f) =? 64)%N eqn:Hlen; [| done].
  destruct (hex_valid (fs_SHA256 f)) eqn:Hhex; [| done]. simpl in Hv.
  destruct (negb _); [| done]. simpl in Hv. destruct (IH _ _ Hv) as [Hp Hall].
  simpl. rewrite Hnext. split; [done |]. constructor; [| done].
  unfold validState. by rewrite bool_decide_eq_true_2, Hsize, Hlen, Hhex by done.
Qed.

(** The bytes of a list of changes, and the shape of each. *)
Definition data_bytes (changes : list ExportedChange) : N :=
  foldr (fun c n => (slen (ec_Data c) + n)%N) 0%N changes.

Lemma validate_changes_Ok l maxBytes total previous changes :
  paths_ok l previous (map ec_Path changes) = true ->
  Forall (fun c => validateExportedChange c l = Ok tt) changes ->
  (total + data_bytes changes <= maxBytes)%N -> (maxBytes < 2 ^ 64)%N ->
  validate_changes l maxBytes total previous changes = Ok (total + data_bytes changes)%N.
Proof.
  revert total previous. induction changes as [| c changes IH]; intros total previous Hp Hv Hle Hfit.
  { simpl. by rewrite N.add_0_r. }
  simpl in Hp. apply andb_prop in Hp as [Hnext Hp]. inversion Hv as [| ? ? Hc Hv']; subst.
  simpl in Hle. cbn [validate_changes]. rewrite Hnext, Hc. simpl.
  pose proof (sub64_le maxBytes total ltac:(lia) Hfit) as Hsub.
  rewrite (proj2 (N.ltb_ge _ _)) by lia. simpl. rewrite u64_id by lia.
  rewrite IH; [f_equal; lia | done | done | lia | done].
Qed.

Lemma validate_changes_inv l maxBytes total previous changes out :
  validate_changes l maxBytes total previous changes = Ok out ->
  Forall (fun c => validateExportedChange c l = Ok tt) changes.
Proof.
  revert total previous. induction changes as [| c changes IH]; intros total previous Hv; [constructor |].
  cbn [validate_changes] in Hv. destruct (next_path _ _ _); [| done]. simpl in Hv.
  destruct (validateExportedChange c l) as [[] | e] eqn:Hc; [| done]. simpl in Hv.
  destruct (negb _); [| done]. simpl in Hv. constructor; [done | by eapply IH].
Qed.

(** ** Exporting *)

Lemma files_map_in files p f : files_map files !! p = Some f -> f ∈ files /\ fs_Path f = p.
Proof.
  unfold files_map. assert (forall (m : gmap string FileState), (forall q g, m !! q = Some g -> g ∈ files /\ fs_Path g = q) ->
    forall rest, (forall g, g ∈ rest -> g ∈ files) ->
    foldl (fun m f => <[fs_Path f := f]> m) m rest !! p = Some f -> f ∈ files /\ fs_Path f = p) as Hgen.
  { intros m Hm rest. revert m Hm. induction rest as [| g rest IH]; intros m Hm Hin; cbn [foldl]; [apply Hm |].
    apply IH.
    - intros q h. rewrite lookup_insert. destruct (decide (fs_Path g = q)) as [<- |]; [| apply Hm].
      intros [= <-]. split; [| done]. by apply Hin, list_elem_of_here.
    - intros h Hh. by apply Hin, list_elem_of_further. }
  apply Hgen; [by intros q g Hq; rewrite lookup_empty in Hq | done].
Qed.

(** ** Snapshots *)

(** What the snapshot has seen of a file: opened as the regular file of the
    scan, read whole, closed, and found by its handle and by its name to be the
    same object, not modified since. *)
Record settled (v : views) (u : treeUsage) (name : string) (data : string) : Prop := {
  se_open : vw_open v name = None;
  se_copy : vw_copy v name = (data, true);
  se_close : vw_close v name = true;
  se_size : slen data = size_of name u;
  se_same : exists before after linked,
    vw_before v name = Found before /\ vw_after v name = Found after /\ vw_linked v name = Found linked
    /\ i_type (st_info before) = TRegular /\ i_size (st_info before) = Z.of_N (size_of name u)
    /\ same_and_unmodified before after = true /\ same_and_unmodified before linked = true
}.

Lemma snapshot_file_Ok v u name f :
  snapshot_file v u name = Ok f <-> exists data, settled v u name data /\ f = file_state u name data.
Proof.
  unfold snapshot_file. split.
  - destruct (vw_open v name) eqn:Hopen; [done |]. destruct (vw_before v name) as [before | |] eqn:Hb; try done.
    destruct (negb (still_regular _ _)) eqn:Hreg; [done |]. destruct (vw_copy v name) as [data copied] eqn:Hcopy.
    destruct (_ && _ && _ && _ && _) eqn:Hall; [| done]. intros [= <-]. exists data. split; [| done].
    unfold still_regular in Hreg. guards.
    destruct (vw_after v name) as [after | |] eqn:Ha; try done.
    destruct (vw_linked v name) as [linked | |] eqn:Hl; try done.
    split; try done; [by subst copied |]. exists before, after, linked. split_and!; try done. lia.
  - intros (data & [Hopen Hcopy Hclose Hsize (before & after & linked & Hb & Ha & Hl & Ht & Hz & H1 & H2)] & ->).
    rewrite Hopen, Hb, Hcopy, Hclose, Hsize, Ha, Hl. simpl. rewrite H1, H2, N.eqb_refl. simpl.
    unfold still_regular. rewrite bool_decide_eq_true_2 by done.
    rewrite Hz, (proj2 (Z.leb_le _ _)), N2Z.id, N.eqb_refl by lia. done.
Qed.

(** A snapshot that succeeds lists the files of the scan in order, each as it
    was seen. *)
Definition seen (v : views) (u : treeUsage) (name : string) (f : FileState) : Prop :=
  exists data, settled v u name data /\ f = file_state u name data.

Lemma snapshot_files_Ok v u names files :
  snapshot_files v u names = Ok files <-> Forall2 (seen v u) names files.
Proof.
  revert files. induction names as [| name names IH]; intros files; cbn [snapshot_files].
  { split; [by intros [= <-] | by intros ->%Forall2_nil_inv_l]. }
  destruct (snapshot_file v u name) as [f | e] eqn:Hf; cbn [res_bind]; split.
  - destruct (snapshot_files v u names) as [fs | e]; [| done]. intros [= <-].
    constructor; [by apply snapshot_file_Ok | by apply IH].
  - intros (g & fs & (data & Hd & ->) & Hfs & ->)%list.Forall2_cons_inv_l.
    apply IH in Hfs as ->. assert (snapshot_file v u name = Ok (file_state u name data)) as Hg
      by (apply snapshot_file_Ok; eauto). cbn [res_bind]. congruence.
  - done.
  - intros (g & fs & Hg & _ & ->)%list.Forall2_cons_inv_l. apply snapshot_file_Ok in Hg. congruence.
Qed.

Section Files.
Context (read : string -> option string) (u : treeUsage).

Definition contents (name : string) : string := default "" (read name).

(** The snapshot of the workspace. *)
Definition after_files : list FileState :=
  map (fun name => file_state u name (contents name)) (sort_strings (map fst (map_to_list (u_sizes u)))).
Definition after : Snapshot :=
  mkSnapshot (snapshotRevision after_files) (u32 (N.of_nat (length after_files))) (u_bytes u) after_files.

Lemma sizes_name p : p ∈ sort_strings (map fst (map_to_list (u_sizes u))) <-> is_Some (u_sizes u !! p).
Proof.
  rewrite sort_strings_elem, list_elem_of_fmap. split.
  - intros ([q s] & -> & Hin%elem_of_map_to_list). by eexists.
  - intros [s Hs]. exists (p, s). split; [done |]. by apply elem_of_map_to_list.
Qed.
End Files.

Section Exporting.
Context (v : views) (l : WLimits) (u : treeUsage) (before : Snapshot).
Notation read := (vw_read v).
Notation contents := (contents (vw_read v)).
Notation after_files := (after_files (vw_read v) u).
Notation after := (after (vw_read v) u).

(** A workspace no Guest is running in: every file the scan found is settled
    and within the limits, and stays as it is until it is exported. *)
Record at_rest : Prop := {
  rest_root : vw_root v = None;
  rest_again : vw_again v = None;
  rest_file : forall p s, u_sizes u !! p = Some s ->
    cleanGuestPath p (MaxDepth l) false = Some p /\ (s <= MaxFileBytes l)%N
    /\ exists data, settled v u p data /\ read p = Some data
}.

Hypothesis Hrest : at_rest.
Hypothesis Hbefore : validateSnapshot before l = Ok tt.

Lemma snapshot_is_after : snapshotLocked v (Some u) = Ok after.
Proof.
  unfold snapshotLocked. rewrite (rest_root Hrest).
  rewrite (proj2 (snapshot_files_Ok v u _ after_files)); [done |]. unfold SnapshotProps.after_files.
  assert (forall names, (forall p, p ∈ names -> is_Some (u_sizes u !! p)) ->
    Forall2 (seen v u) names (map (fun name => file_state u name (contents name)) names)) as Hgen.
  { induction names as [| p names IH]; intros Hin; constructor.
    - destruct (Hin p (list_elem_of_here _ _)) as [s Hs].
      destruct (rest_file Hrest p s Hs) as (_ & _ & data & Hd & Hread). exists data. split; [done |].
      unfold SnapshotProps.contents. by rewrite Hread.
    - apply IH. intros q Hq. by apply Hin, list_elem_of_further. }
  apply Hgen. intros p Hp. by apply sizes_name.
Qed.

(** A change the export can carry. *)
Definition carried (c : Change) : Prop :=
  if bool_decide (ch_Kind c = ChangeDeleted) then ch_After c = None
  else exists a data, ch_After c = Some a /\ read (ch_Path c) = Some data /\ matchesFileState data a = true.

Definition changed_bytes (changes : list Change) : N :=
  foldr (fun c n => (match ch_After c with Some a => fs_Size a | None => 0 end + n)%N) 0%N changes.

Definition exported (c : Change) : ExportedChange :=
  mkExported (ch_Path c) (ch_Kind c) (ch_Before c) (ch_After c)
    (match ch_After c with Some _ => contents (ch_Path c) | None => "" end).

Lemma export_changes_spec maxBytes bytes changes :
  Forall carried changes -> (bytes <= maxBytes)%N -> (maxBytes < 2 ^ 64)%N ->
  export_changes v maxBytes bytes changes =
    if (maxBytes <? bytes + changed_bytes changes)%N then Err ErrExportTooLarge
    else Ok ((bytes + changed_bytes changes)%N, map exported changes).
Proof.
  intros Hall Hle Hfit. revert bytes Hle. induction Hall as [| c changes Hc Hall IH]; intros bytes Hle.
  { simpl. rewrite N.add_0_r, (proj2 (N.ltb_ge _ _)) by done. done. }
  pose proof (sub64_le maxBytes bytes Hle Hfit) as Hsub. unfold carried in Hc. cbn [export_changes].
  destruct (bool_decide (ch_Kind c = ChangeDeleted)).
  - rewrite IH by done. simpl. unfold exported at 2. rewrite Hc. simpl.
    destruct (_ <? _)%N; done.
  - destruct Hc as (a & data & Ha & Hd & Hm). rewrite Ha, Hd, Hm. simpl.
    unfold matchesFileState in Hm. apply andb_prop in Hm as [Hlen _]. apply N.eqb_eq in Hlen.
    rewrite Ha. destruct (sub64 maxBytes bytes <? fs_Size a)%N eqn:Hbig.
    + apply N.ltb_lt in Hbig. rewrite (proj2 (N.ltb_lt _ _)) by lia. done.
    + apply N.ltb_ge in Hbig. rewrite u64_id by lia. rewrite IH by lia. rewrite Hlen.
      replace (bytes + fs_Size a + changed_bytes changes)%N
        with (bytes + (fs_Size a + changed_bytes changes))%N by lia.
      destruct (_ <? _)%N; [done |]. simpl. unfold exported at 2. rewrite Ha. unfold SnapshotProps.contents. by rewrite Hd.
Qed.

Lemma after_state p a :
  files_map after_files !! p = Some a ->
  validState p l (Some a) = true /\ cleanGuestPath p (MaxDepth l) false = Some p
  /\ read p = Some (contents p) /\ matchesFileState (contents p) a = true.
Proof.
  intros (Hin & Hp)%files_map_in. apply list_elem_of_fmap in Hin as (name & -> & Hname).
  simpl in Hp. subst name. apply sizes_name in Hname as [s Hs].
  destruct (rest_file Hrest p s Hs) as (Hc & Hsize & data & Hset & Hd).
  unfold SnapshotProps.contents. rewrite Hd. simpl.
  assert (size_of p u = s) as Hsz by (unfold size_of; by rewrite Hs).
  pose proof (se_size _ _ _ _ Hset) as Hlen. rewrite Hsz in Hlen.
  split_and!; try done.
  - unfold validState. simpl. rewrite bool_decide_eq_true_2, Hsz, (proj2 (N.leb_le _ _)) by done.
    unfold slen. by rewrite sha256_length, sha256_hex_valid.
  - unfold matchesFileState. simpl. by rewrite Hsz, Hlen, N.eqb_refl, bool_decide_eq_true_2.
Qed.

Lemma before_state p b :
  files_map (sn_Files before) !! p = Some b ->
  validState p l (Some b) = true /\ cleanGuestPath p (MaxDepth l) false = Some p.
Proof.
  intros (Hin & Hp)%files_map_in. unfold validateSnapshot in Hbefore.
  destruct (validRevision _ && _); [| done]. simpl in Hbefore.
  destruct (validate_files l 0 None (sn_Files before)) as [total |] eqn:Hv; [| done].
  apply validate_files_Ok in Hv as [Hpaths Hall]. rewrite list.Forall_forall in Hall. specialize (Hall b Hin).
  apply paths_ok_clean in Hpaths. rewrite list.Forall_forall in Hpaths. subst p. split; [done |].
  apply Hpaths. apply list_elem_of_fmap. eauto.
Qed.

Let changes := su_Changes (Diff before after).

(** Every change is one the export carries and the validation accepts. *)
Lemma change_ok c :
  c ∈ changes ->
  carried c /\ cleanGuestPath (ch_Path c) (MaxDepth l) false = Some (ch_Path c)
  /\ validateExportedChange (exported c) l = Ok tt.
Proof.
  unfold changes. rewrite Diff_changes. intros (name & Hsome & Hc)%changes_elem.
  destruct (change_of_spec _ _ _ _ Hc Hsome) as (Hp & Hb & Ha & Hk & Hne).
  change (sn_Files after) with after_files in *. unfold carried, validateExportedChange, exported.
  cbn [ec_Path ec_Kind ec_Before ec_After ec_Data]. rewrite Hp, Hb, Ha, Hk.
  destruct (files_map (sn_Files before) !! name) as [b |] eqn:Hbn,
    (files_map after_files !! name) as [a |] eqn:Han; cbn -[validState matchesFileState].
  - destruct (before_state _ _ Hbn) as [Hvb _]. destruct (after_state _ _ Han) as (Hva & Hcl & Hr & Hm).
    rewrite Hvb, Hva, Hm.
    split_and!; [by exists a, (contents name) | done | done].
  - destruct (before_state _ _ Hbn) as [Hvb Hcl]. by rewrite Hvb.
  - destruct (after_state _ _ Han) as (Hva & Hcl & Hr & Hm). rewrite Hva, Hm.
    split_and!; [by exists a, (contents name) | done | done].
  - by destruct Hsome as [[? ?] | [? ?]].
Qed.

Lemma exported_paths : map ec_Path (map exported changes) = map ch_Path changes.
Proof. rewrite map_map. by apply map_ext. Qed.

Lemma exported_bytes cs : Forall carried cs -> data_bytes (map exported cs) = changed_bytes cs.
Proof.
  induction 1 as [| c cs Hc _ IH]; [done |]. simpl. rewrite IH. f_equal. unfold carried in Hc.
  destruct (bool_decide _); [by rewrite Hc |]. destruct Hc as (a & data & -> & Hd & Hm).
  unfold SnapshotProps.contents. rewrite Hd. unfold matchesFileState in Hm. apply andb_prop in Hm as [Hm _].
  simpl. by apply N.eqb_eq.
Qed.

Lemma revision_valid files : validRevision (snapshotRevision files) = true.
Proof.
  unfold validRevision, snapshotRevision. rewrite trim_prefix_app, sha256_hex_valid.
  rewrite (proj2 (prefix_iff _ _)) by eauto. rewrite slen_app. unfold slen at 2. rewrite sha256_length. done.
Qed.

Lemma validate_bundle bytes maxBytes :
  validate_limits l = true -> (0 < maxBytes)%N -> (maxBytes < 2 ^ 64)%N ->
  bytes = changed_bytes changes -> (bytes <= maxBytes)%N ->
  Validate (mkChangeSet ChangeSetSchemaVersion (sn_Revision before) (sn_Revision after) bytes (map exported changes))
    l maxBytes
  = guard (N.of_nat (length changes) <=? MaxFiles l)%N ErrInvalidChangeSet.
Proof.
  intros Hl Hpos Hfit -> Hle. unfold Validate. rewrite Hl. simpl.
  assert (validRevision (sn_Revision before) = true) as Hrev.
  { unfold validateSnapshot in Hbefore. destruct (validRevision (sn_Revision before)); [done |]. done. }
  rewrite Hrev, revision_valid, (proj2 (N.eqb_neq _ _)) by lia. simpl. rewrite length_map.
  destruct (N.of_nat (length changes) <=? MaxFiles l)%N; [| done]. simpl.
  assert (Forall carried changes) as Hcarried by (apply list.Forall_forall; intros c Hc; by apply change_ok).
  rewrite validate_changes_Ok; rewrite ?exported_bytes, ?exported_paths by done; try done.
  - simpl. by rewrite N.eqb_refl.
  - apply paths_ok_sorted; [| | done].
    + apply list.Forall_forall. intros p (c & -> & Hc)%list_elem_of_fmap. by apply change_ok.
    + unfold changes. rewrite Diff_changes. apply changes_sorted.
  - apply list.Forall_forall. intros e (c & -> & Hc)%list_elem_of_fmap. by apply change_ok.
Qed.

Lemma export_result maxBytes :
  validate_limits l = true -> (0 < maxBytes)%N -> (maxBytes < 2 ^ 64)%N ->
  ExportChanges v (Some u) l before maxBytes =
    if (maxBytes <? changed_bytes changes)%N then Err ErrExportTooLarge
    else if (N.of_nat (length changes) <=? MaxFiles l)%N
    then Ok (mkChangeSet ChangeSetSchemaVersion (sn_Revision before) (sn_Revision after)
               (changed_bytes changes) (map exported changes))
    else Err ErrInvalidChangeSet.
Proof.
  intros Hl Hpos Hfit. unfold ExportChanges. rewrite (proj2 (N.eqb_neq _ _)), Hbefore, snapshot_is_after, (rest_again Hrest) by lia.
  cbn [res_bind]. fold changes. rewrite export_changes_spec; [| | lia | done].
  2:{ apply list.Forall_forall. intros c Hc. by apply change_ok. }
  rewrite N.add_0_l. destruct (maxBytes <? changed_bytes changes)%N eqn:Hbig; [done |].
  apply N.ltb_ge in Hbig. cbn [res_bind]. rewrite validate_bundle by done.
  by destruct (N.of_nat (length changes) <=? MaxFiles l)%N.
Qed.
End Exporting.

(** ** Sizes *)

Lemma files_map_size files : (size (files_map files) <= length files)%nat.
Proof.
  unfold files_map. assert (forall (m : gmap string FileState),
    size (foldl (fun m f => <[fs_Path f := f]> m) m files) <= size m + length files)%nat as Hgen.
  { induction files as [| f files IH]; intros m; cbn [foldl length]; [lia |].
    specialize (IH (<[fs_Path f := f]> m)).
    assert (size (<[fs_Path f := f]> m) <= S (size m))%nat; [| lia].
    rewrite map_size_insert; unfold id. case_match; simpl; lia. }
  specialize (Hgen ∅). by rewrite map_size_empty in Hgen.
Qed.

Lemma ordered_length old new : (length (ordered_paths old new) <= size old + size new)%nat.
Proof.
  unfold ordered_paths, sort_strings. rewrite merge_sort_Permutation.
  change (length (elements (dom old ∪ dom new))) with (size (dom old ∪ dom new)).
  rewrite <- !size_dom, size_union_alt.
  assert (size (dom new ∖ dom old) <= size (dom new))%nat; [| lia]. by apply subseteq_size, subseteq_difference_l.
Qed.

(** Files whose paths do not repeat, as a map. *)
Lemma files_map_lookup files f :
  NoDup (map fs_Path files) -> f ∈ files -> files_map files !! fs_Path f = Some f.
Proof.
  unfold files_map. intros Hnd Hin.
  assert (forall (m : gmap string FileState),
    foldl (fun m f => <[fs_Path f := f]> m) m files !! fs_Path f = Some f) as Hgen; [| done].
  induction files as [| g files IH]; intros m; [by apply elem_of_nil in Hin |]. cbn [foldl map] in *.
  apply list.NoDup_cons in Hnd as [Hnot Hnd].
  apply elem_of_cons in Hin as [-> | Hin]; [| by apply IH].
  assert (forall (m : gmap string FileState) rest, fs_Path g ∉ map fs_Path rest ->
    foldl (fun m f => <[fs_Path f := f]> m) m rest !! fs_Path g = m !! fs_Path g) as Hkeep.
  { intros m' rest. revert m'. induction rest as [| h rest IHr]; intros m' Hn; [done |]. cbn [foldl map] in *.
    rewrite not_elem_of_cons in Hn. destruct Hn as [Hne Hn]. rewrite IHr by done.
    by rewrite lookup_insert_ne. }
  rewrite Hkeep by done. by rewrite lookup_insert_eq.
Qed.

(** The counters of a summary. *)
Lemma diff_summary_counts before after :
  (N.of_nat (length (sn_Files before) + length (sn_Files after)) < 2 ^ 32)%N ->
  let s := Diff before after in
  let changes := changes_of (files_map (sn_Files before)) (files_map (sn_Files after)) in
  su_Added s = kind_count ChangeAdded changes /\ su_Modified s = kind_count ChangeModified changes
  /\ su_Deleted s = kind_count ChangeDeleted changes.
Proof.
  intros Hfit. set (old := files_map (sn_Files before)). set (new := files_map (sn_Files after)).
  pose proof (ordered_length old new). pose proof (files_map_size (sn_Files before)) as Hb.
  pose proof (files_map_size (sn_Files after)) as Ha. fold old in Hb. fold new in Ha.
  pose proof (diff_counts old new (ordered_paths old new)
    (mkSummary (sn_Revision before) (sn_Revision after) 0 0 0 [])) as Hc.
  simpl su_Added in Hc. simpl su_Modified in Hc. simpl su_Deleted in Hc.
  unfold Diff. fold old new. apply Hc. lia.
Qed.

(** *** Claims *)

(** C18.  [Diff] is exact.  Its changes come in strictly increasing order of
    path; a path is among them exactly when the two snapshots hold different
    files there, with the kind and the files of both sides; putting the changes
    into effect on the first snapshot gives the second; and the counters are
    the numbers of changes of each kind. *)
Theorem diff_is_exact (before after : Snapshot) :
  (N.of_nat (length (sn_Files before) + length (sn_Files after)) < 2 ^ 32)%N ->
  let old := files_map (sn_Files before) in
  let new := files_map (sn_Files after) in
  let s := Diff before after in
  StronglySorted str_before (map ch_Path (su_Changes s))
  /\ (forall p, p ∈ map ch_Path (su_Changes s) <-> old !! p <> new !! p)
  /\ (forall c, c ∈ su_Changes s ->
        ch_Before c = old !! ch_Path c /\ ch_After c = new !! ch_Path c
        /\ ch_Kind c = (if bool_decide (ch_Before c = None) then ChangeAdded
                        else if bool_decide (ch_After c = None) then ChangeDeleted else ChangeModified))
  /\ foldl apply_change old (su_Changes s) = new
  /\ su_Added s = kind_count ChangeAdded (su_Changes s)
  /\ su_Modified s = kind_count ChangeModified (su_Changes s)
  /\ su_Deleted s = kind_count ChangeDeleted (su_Changes s).
Proof.
  intros Hfit old new s. unfold s. rewrite !Diff_changes. fold old new.
  assert (forall c, c ∈ changes_of old new -> ch_Before c = old !! ch_Path c /\ ch_After c = new !! ch_Path c
    /\ ch_Kind c = (if bool_decide (ch_Before c = None) then ChangeAdded
                    else if bool_decide (ch_After c = None) then ChangeDeleted else ChangeModified)
    /\ old !! ch_Path c <> new !! ch_Path c) as Hspec.
  { intros c (name & Hsome & Hc)%changes_elem.
    destruct (change_of_spec _ _ _ _ Hc Hsome) as (-> & -> & -> & -> & Hne). done. }
  split_and!.
  - apply changes_sorted.
  - intros p. split.
    + apply changes_differ.
    + intros (c & Hc & <- & _)%changes_at. apply list_elem_of_fmap. eauto.
  - intros c Hc. destruct (Hspec c Hc) as (H1 & H2 & H3 & _). done.
  - apply map_eq. intros p. unfold changes_of. rewrite apply_changes_lookup; [| | | done].
    + destruct (decide (p ∈ ordered_paths old new)) as [| Hno]; [done |].
      rewrite ordered_elem in Hno. destruct (old !! p) eqn:Ho, (new !! p) eqn:Hn; try done;
        exfalso; apply Hno; eauto.
    + unfold ordered_paths, sort_strings. rewrite merge_sort_Permutation. apply NoDup_elements.
    + intros name. by rewrite ordered_elem.
  - apply diff_summary_counts, Hfit.
  - apply diff_summary_counts, Hfit.
  - apply diff_summary_counts, Hfit.
Qed.

(** Two small snapshots: a file modified, one deleted, one added. *)
Definition demo_state (name data : string) : FileState := mkState name (slen data) (sha256_hex data) false.
Definition demo_snapshot (files : list FileState) : Snapshot :=
  mkSnapshot (snapshotRevision files) (u32 (N.of_nat (length files)))
    (foldr (fun f n => (fs_Size f + n)%N) 0%N files) files.
Definition demo_before : Snapshot := demo_snapshot [demo_state "a" "one"; demo_state "b/c" "two"].
Definition demo_after : Snapshot := demo_snapshot [demo_state "a" "1"; demo_state "d" "three"].

Lemma diff_is_exact_witness :
  let s := Diff demo_before demo_after in
  map (fun c => (ch_Path c, ch_Kind c)) (su_Changes s)
    = [("a", ChangeModified); ("b/c", ChangeDeleted); ("d", ChangeAdded)]
  /\ foldl apply_change (files_map (sn_Files demo_before)) (su_Changes s) = files_map (sn_Files demo_after).
Proof.
  split; [vm_compute; reflexivity |].
  assert ((N.of_nat (length (sn_Files demo_before) + length (sn_Files demo_after)) < 2 ^ 32)%N) as Hfit by done.
  destruct (diff_is_exact demo_before demo_after Hfit) as (_ & _ & _ & H & _). exact H.
Defined.

(** ** Revisions of validated snapshots *)

Definition total_size (files : list FileState) (bytes : N) : N :=
  foldl (fun n f => u64 (n + fs_Size f)) bytes files.

Lemma validate_files_total l bytes previous files total :
  validate_files l bytes previous files = Ok total -> total = total_size files bytes.
Proof.
  revert bytes previous. induction files as [| f files IH]; intros bytes previous Hv.
  { by injection Hv. }
  cbn [validate_files] in Hv. destruct (_ && _ && _); [| done]. simpl in Hv.
  destruct (_ && _); [| done]. simpl in Hv. by apply IH in Hv.
Qed.

Lemma accepted_state l f :
  (MaxFileBytes l < 2 ^ 64)%N -> validState (fs_Path f) l (Some f) = true ->
  cleanGuestPath (fs_Path f) (MaxDepth l) false = Some (fs_Path f) -> state_ok f.
Proof.
  intros Hfit Hv Hc. unfold validState in Hv. guards.
  apply accepted_clean_name in Hc as [_ [[_ ?] | [Hb _]]]; [done |]. unfold clean_bytes in Hb. guards.
  unfold state_ok, maxWorkspacePathBytes, slen in *.
  split_and!; lia.
Qed.

(** What [validateSnapshot] establishes. *)
Lemma validated_snapshot s l :
  (MaxFileBytes l < 2 ^ 64)%N -> validateSnapshot s l = Ok tt ->
  Forall state_ok (sn_Files s)
  /\ s = mkSnapshot (snapshotRevision (sn_Files s)) (u32 (N.of_nat (length (sn_Files s))))
           (total_size (sn_Files s) 0) (sn_Files s).
Proof.
  intros Hfit Hv. unfold validateSnapshot in Hv. destruct (_ && _); [| done]. simpl in Hv.
  destruct (validate_files l 0 None (sn_Files s)) as [total |] eqn:Hf; [| done]. simpl in Hv.
  destruct (_ && _ && bool_decide _) eqn:Hok; [| done]. guards.
  pose proof (validate_files_total _ _ _ _ _ Hf) as ->. apply validate_files_Ok in Hf as [Hp Hall]. split.
  - apply paths_ok_clean in Hp. rewrite list.Forall_forall in Hall. rewrite list.Forall_forall in Hp. apply list.Forall_forall.
    intros f Hin. apply (accepted_state l); [done | by apply Hall |]. apply Hp. apply list_elem_of_fmap. eauto.
  - destruct s as [r n b fs]. simpl in *. congruence.
Qed.

(** Two different inputs with one digest. *)
Definition sha256_collision (a b : string) : Prop := a <> b /\ sha256_hex a = sha256_hex b.

(** A revision identifies the files it was made from.  Two snapshots that
    pass validation and carry the same revision are the same snapshot - paths,
    sizes, contents digests, modes, counts - unless the encodings of their file
    lists are a SHA-256 collision: the encoding itself loses nothing. *)
Theorem revision_identifies_snapshot (s t : Snapshot) (l l' : WLimits) :
  (MaxFileBytes l < 2 ^ 64)%N -> (MaxFileBytes l' < 2 ^ 64)%N ->
  validateSnapshot s l = Ok tt -> validateSnapshot t l' = Ok tt ->
  sn_Revision s = sn_Revision t ->
  s = t \/ sha256_collision (revision_input (sn_Files s)) (revision_input (sn_Files t)).
Proof.
  intros Hl Hl' Hs Ht Hrev. apply validated_snapshot in Hs as [Hs Hes]; [| done].
  apply validated_snapshot in Ht as [Ht Het]; [| done].
  rewrite Hes, Het in Hrev. simpl in Hrev. unfold snapshotRevision in Hrev. apply str_app_inv_head in Hrev.
  destruct (decide (revision_input (sn_Files s) = revision_input (sn_Files t))) as [Heq | Hne]; [| by right].
  left. apply revision_input_inj in Heq; [| done | done]. rewrite Hes, Het. by rewrite Heq.
Qed.

Definition demo_limits : WLimits := mkWLimits 4 1024 512 4.

Lemma revision_identifies_snapshot_witness :
  validateSnapshot demo_before demo_limits = Ok tt /\ sn_Revision demo_before <> sn_Revision demo_after
  /\ (demo_before = demo_before
      \/ sha256_collision (revision_input (sn_Files demo_before)) (revision_input (sn_Files demo_before))).
Proof.
  assert ((MaxFileBytes demo_limits < 2 ^ 64)%N) as Hl by done.
  assert (validateSnapshot demo_before demo_limits = Ok tt) as Hv by (vm_compute; reflexivity).
  split; [exact Hv |]. split; [vm_compute; discriminate |].
  exact (revision_identifies_snapshot demo_before demo_before demo_limits demo_limits Hl Hl Hv Hv eq_refl).
Defined.

(** ** Exports *)

Lemma validated_changes b l maxBytes :
  Validate b l maxBytes = Ok tt -> Forall (fun c => validateExportedChange c l = Ok tt) (cs_Changes b).
Proof.
  intros Hv. unfold Validate in Hv. destruct (validate_limits l); [| done]. simpl in Hv.
  destruct (_ && _ && _ && _); [| done]. simpl in Hv. destruct (_ <=? _)%N; [| done]. simpl in Hv.
  destruct (validate_changes _ _ _ _ _) eqn:Hc; [| done]. by apply validate_changes_inv in Hc.
Qed.

(** The data a valid change carries. *)
Lemma validated_carries l c :
  validateExportedChange c l = Ok tt ->
  if bool_decide (ec_Kind c = ChangeDeleted) then ec_Data c = "" else carries (ec_Data c) (ec_After c) = true.
Proof.
  unfold validateExportedChange. intros Hv. destruct (bool_decide (ec_Kind c = ChangeDeleted)) eqn:Hd.
  - guards. rewrite Hd in Hv. simpl in Hv. destruct (_ && _ && _) eqn:Hok; [| done]. by guards.
  - destruct (bool_decide (ec_Kind c = ChangeAdded)); [| destruct (bool_decide (ec_Kind c = ChangeModified))];
      try done; destruct (_ && _ && carries _ _) eqn:Hok; try done; by guards.
Qed.

(** What a change says without its data. *)
Definition described (c : ExportedChange) : string * string * option FileState * option FileState :=
  (ec_Path c, ec_Kind c, ec_Before c, ec_After c).

Definition announced (c : Change) : string * string * option FileState * option FileState :=
  (ch_Path c, ch_Kind c, ch_Before c, ch_After c).

Lemma export_changes_said v maxBytes bytes changes total out :
  export_changes v maxBytes bytes changes = Ok (total, out) ->
  map described out = map announced changes.
Proof.
  revert bytes total out. induction changes as [| c changes IH]; intros bytes total out Hex; cbn [export_changes] in Hex.
  { by injection Hex as <- <-. }
  destruct (bool_decide (ch_Kind c = ChangeDeleted)).
  - destruct (export_changes v maxBytes bytes changes) as [[n es] | e] eqn:Hrest; [| done].
    injection Hex as <- <-. simpl.
    f_equal; first [by eapply IH | unfold described, announced; simpl; congruence].
  - destruct (ch_After c) as [a |] eqn:Ha; [| done]. destruct (_ <? _)%N; [done |].
    destruct (vw_read v (ch_Path c)) as [data |]; [| done]. destruct (negb _); [done |].
    destruct (export_changes v maxBytes _ changes) as [[n es] | e] eqn:Hrest; [| done].
    injection Hex as <- <-. simpl.
    f_equal; first [by eapply IH | unfold described, announced; simpl; congruence].
Qed.

(** An export that succeeded was made of a snapshot of which every file was
    settled, whatever the Host did meanwhile. *)
Lemma export_made_of v u l before maxBytes bundle :
  ExportChanges v (Some u) l before maxBytes = Ok bundle ->
  exists s, snapshotLocked v (Some u) = Ok s
    /\ Forall2 (seen v u) (sort_strings (map fst (map_to_list (u_sizes u)))) (sn_Files s)
    /\ cs_Before bundle = sn_Revision before /\ cs_After bundle = sn_Revision s
    /\ map described (cs_Changes bundle) = map announced (su_Changes (Diff before s)).
Proof.
  unfold ExportChanges. destruct (maxBytes =? 0)%N; [done |].
  destruct (validateSnapshot before l); [cbn [res_bind] | done].
  destruct (snapshotLocked v (Some u)) as [s |] eqn:Hs; [cbn [res_bind] | done]. destruct (vw_again v); [done |].
  destruct (export_changes _ _ _ _) as [[total out] |] eqn:Hex; [cbn [res_bind] | done].
  destruct (Validate _ _ _) as [[] |]; [cbn [res_bind] | done]. intros [= <-].
  exists s. split_and!; try done; [| by eapply export_changes_said].
  unfold snapshotLocked in Hs. destruct (vw_root v); [done |].
  destruct (snapshot_files v u _) as [files |] eqn:Hf; [| done]. injection Hs as <-.
  by apply snapshot_files_Ok.
Qed.

(** C19.  The outcome of an export is exact.  Against a baseline that
    [validateSnapshot] accepts, under limits that are valid and with a positive
    cap: in a workspace at rest (no Guest is running in it, its names and sizes
    are within the limits, and the Host's calls succeed and see every file
    unchanged throughout), [ExportChanges] fails only because the bytes of the
    changed files exceed the cap, or because there are more changes than the
    workspace may hold entries, and otherwise returns every change of [Diff] with
    the whole contents of each added or modified file.  Whatever the Host does
    meanwhile, a change set that is returned describes the changes to a snapshot
    each of whose files was opened, read whole and closed between examinations
    that found one unmodified regular file of the scan's size, and carries data
    of the described size and digest. *)
Theorem export_is_exact v l u before maxBytes :
  validateSnapshot before l = Ok tt -> validate_limits l = true -> (0 < maxBytes)%N -> (maxBytes < 2 ^ 64)%N ->
  let changes := su_Changes (Diff before (after (vw_read v) u)) in
  (at_rest v l u ->
   ExportChanges v (Some u) l before maxBytes =
     if (maxBytes <? changed_bytes changes)%N then Err ErrExportTooLarge
     else if (N.of_nat (length changes) <=? MaxFiles l)%N
     then Ok (mkChangeSet ChangeSetSchemaVersion (sn_Revision before) (sn_Revision (after (vw_read v) u))
                (changed_bytes changes) (map (exported v) changes))
     else Err ErrInvalidChangeSet)
  /\ (forall bundle, ExportChanges v (Some u) l before maxBytes = Ok bundle ->
      exists s, snapshotLocked v (Some u) = Ok s
        /\ Forall2 (seen v u) (sort_strings (map fst (map_to_list (u_sizes u)))) (sn_Files s)
        /\ cs_Before bundle = sn_Revision before /\ cs_After bundle = sn_Revision s
        /\ map described (cs_Changes bundle) = map announced (su_Changes (Diff before s))
        /\ Forall (fun e => if bool_decide (ec_Kind e = ChangeDeleted) then ec_Data e = ""
                            else carries (ec_Data e) (ec_After e) = true) (cs_Changes bundle)).
Proof.
  intros Hb Hl Hpos Hfit changes. split; [intros Hrest; by apply export_result |].
  intros bundle Hex. destruct (export_made_of _ _ _ _ _ _ Hex) as (s & Hs & Hseen & Hbr & Har & Hsaid).
  exists s. split_and!; try done.
  unfold ExportChanges in Hex. destruct (maxBytes =? 0)%N; [done |]. rewrite Hb, Hs in Hex. cbn [res_bind] in Hex.
  destruct (vw_again v); [done |]. destruct (export_changes _ _ _ _) as [[total out] |]; [cbn [res_bind] in Hex | done].
  destruct (Validate _ _ _) as [[] |] eqn:Hv; [| done]. injection Hex as <-.
  apply validated_changes in Hv. eapply list.Forall_impl; [exact Hv |]. apply validated_carries.
Qed.

(** The answers of a Host on which nothing happens meanwhile. *)
Definition quiet_stat (files : gmap string string) (name : string) : found :=
  match files !! name with
  | Some data => Found (mkStat (mkInfo TRegular 384 1 1 1 (Z.of_N (slen data))) 0)
  | None => NotExist
  end.
Definition quiet_views (files : gmap string string) : views :=
  mkViews None (fun name => match files !! name with Some _ => None | None => Some "no such file" end)
    (quiet_stat files) (fun name => (default "" (files !! name), true)) (quiet_stat files) (fun _ => true)
    (quiet_stat files) None (fun name => files !! name).

Lemma quiet_at_rest files u l :
  u_sizes u = slen <$> files ->
  map_Forall (fun p data => cleanGuestPath p (MaxDepth l) false = Some p /\ (slen data <= MaxFileBytes l)%N) files ->
  at_rest (quiet_views files) l u.
Proof.
  intros Hu Hall. split; [done | done |]. intros p s Hs. rewrite Hu, lookup_fmap in Hs.
  apply fmap_Some in Hs as (data & Hp & ->). destruct (Hall p data Hp) as [Hc Hle]. split_and!; [done | done |].
  exists data. split; [| done].
  assert (size_of p u = slen data) as Hsz by (unfold size_of; by rewrite Hu, lookup_fmap, Hp).
  split; simpl; rewrite ?Hp; [done | done | done | done |].
  set (st := mkStat (mkInfo TRegular 384 1 1 1 (Z.of_N (slen data))) 0).
  assert (same_and_unmodified st st = true) as Hsame.
  { unfold same_and_unmodified, sameSourceObject. by rewrite !bool_decide_eq_true_2. }
  exists st, st, st. unfold quiet_stat. rewrite Hp, Hsz. by split_and!.
Qed.

(** The workspace of the examples. *)
Definition demo_files : gmap string string := list_to_map [("a", "1"); ("d", "three")].
Definition demo_views : views := quiet_views demo_files.
Definition demo_usage : treeUsage := mkUsage ∅ (slen <$> demo_files) 2 6.

Lemma demo_at_rest : at_rest demo_views demo_limits demo_usage.
Proof.
  apply quiet_at_rest; [done |].
  repeat apply map_Forall_insert_2; [| | apply map_Forall_empty]; split; vm_compute; (reflexivity || discriminate).
Qed.

(** A file replaced by another of the same size between the examinations. *)
Definition replaced_views : views :=
  let v := demo_views in
  mkViews (vw_root v) (vw_open v) (vw_before v) (vw_copy v) (vw_after v) (vw_close v)
    (fun name => if bool_decide (name = "a")
                 then Found (mkStat (mkInfo TRegular 384 1 2 1 1) 0) else vw_linked v name) (vw_again v) (vw_read v).

Lemma export_is_exact_witness :
  (exists bundle, ExportChanges demo_views (Some demo_usage) demo_limits demo_before 10 = Ok bundle
   /\ cs_Bytes bundle = 6%N
   /\ map (fun c => (ec_Path c, ec_Data c)) (cs_Changes bundle) = [("a", "1"); ("b/c", ""); ("d", "three")])
  /\ ExportChanges replaced_views (Some demo_usage) demo_limits demo_before 10 = Err (EChangedDuringRead "a").
Proof.
  split; [| vm_compute; reflexivity].
  assert (validateSnapshot demo_before demo_limits = Ok tt) as Hv by (vm_compute; reflexivity).
  assert (validate_limits demo_limits = true) as Hl by reflexivity.
  assert ((0 < 10)%N) as Hpos by done. assert ((10 < 2 ^ 64)%N) as Hfit by done.
  destruct (export_is_exact demo_views demo_limits demo_usage demo_before 10 Hv Hl Hpos Hfit) as [H _].
  specialize (H demo_at_rest). eexists. split.
  - rewrite H. vm_compute. reflexivity.
  - split; vm_compute; reflexivity.
Defined.

(** Putting an exported change into effect on a copy of the files. *)
Definition put_change (m : gmap string string) (c : ExportedChange) : gmap string string :=
  match ec_After c with
  | Some _ => <[ec_Path c := ec_Data c]> m
  | None => delete (ec_Path c) m
  end.

(** A copy of the files a snapshot was taken of. *)
Definition copy_of (m : gmap string string) (s : Snapshot) : Prop :=
  forall p, match m !! p, files_map (sn_Files s) !! p with
            | Some data, Some f => matchesFileState data f = true
            | None, None => True
            | _, _ => False
            end.

Lemma put_lookup m c p :
  put_change m c !! p
  = if decide (ec_Path c = p) then (match ec_After c with Some _ => Some (ec_Data c) | None => None end)
    else m !! p.
Proof.
  unfold put_change. destruct (ec_After c).
  - rewrite lookup_insert. by destruct (decide (ec_Path c = p)).
  - rewrite lookup_delete. by destruct (decide (ec_Path c = p)).
Qed.

(** What the changes of an export leave at a path. *)
Lemma put_changes_lookup m cs p :
  NoDup (map ec_Path cs) ->
  (forall c, c ∈ cs -> ec_Path c = p ->
     foldl put_change m cs !! p = match ec_After c with Some _ => Some (ec_Data c) | None => None end)
  /\ (p ∉ map ec_Path cs -> foldl put_change m cs !! p = m !! p).
Proof.
  revert m. induction cs as [| c cs IH]; intros m Hnd.
  { split; [by intros c Hin%elem_of_nil | done]. }
  cbn [map] in Hnd. apply list.NoDup_cons in Hnd as [Hnot Hnd].
  destruct (IH (put_change m c) Hnd) as [Hin Hout]. cbn [foldl map]. split.
  - intros c' [-> | Hc']%elem_of_cons Hp; [| by apply Hin].
    rewrite Hout; [by rewrite put_lookup, decide_True | by rewrite <- Hp].
  - intros [Hne Hno]%not_elem_of_cons. rewrite Hout by done. by rewrite put_lookup, decide_False.
Qed.

Lemma sorted_NoDup l : StronglySorted str_before l -> NoDup l.
Proof.
  induction 1 as [| x l Hs IH Hx]; constructor; [| done]. intros Hin.
  rewrite list.Forall_forall in Hx. by apply (Hx x Hin).
Qed.

Lemma after_files_lookup read u p :
  is_Some (files_map (after_files read u) !! p) <-> is_Some (u_sizes u !! p).
Proof.
  rewrite <- sizes_name. unfold after_files.
  set (names := sort_strings (map fst (map_to_list (u_sizes u)))). split.
  - intros [f (Hin & Hp)%files_map_in]. apply list_elem_of_fmap in Hin as (name & -> & Hname). by rewrite <- Hp.
  - intros Hin. exists (file_state u p (contents read p)).
    assert (map fs_Path (map (fun name => file_state u name (contents read name)) names) = names) as Hpaths.
    { rewrite map_map. simpl. apply map_id. }
    apply (files_map_lookup (map (fun name => file_state u name (contents read name)) names)
             (file_state u p (contents read p))).
    + rewrite Hpaths. unfold names, sort_strings. rewrite merge_sort_Permutation. apply NoDup_fst_map_to_list.
    + apply list_elem_of_fmap. eauto.
Qed.

(** C20.  An exported change set rebuilds the workspace.  Put into effect on any
    copy of the files the baseline was taken of, it leaves at every path exactly
    what the workspace holds there - the data of its file, or nothing - except
    where the copy and the workspace hold different data of the same SHA-256
    digest, which no snapshot can tell apart. *)
Theorem export_rebuilds_workspace v l u before maxBytes bundle m p :
  at_rest v l u -> validateSnapshot before l = Ok tt ->
  validate_limits l = true -> (0 < maxBytes)%N -> (maxBytes < 2 ^ 64)%N ->
  ExportChanges v (Some u) l before maxBytes = Ok bundle ->
  copy_of m before ->
  foldl put_change m (cs_Changes bundle) !! p
    = match u_sizes u !! p with Some _ => vw_read v p | None => None end
  \/ exists old new, m !! p = Some old /\ vw_read v p = Some new /\ sha256_collision old new.
Proof.
  intros Hrest Hb Hl Hpos Hfit Hexp Hcopy.
  rewrite (export_result v l u before Hrest Hb maxBytes Hl Hpos Hfit) in Hexp.
  set (changes := su_Changes (Diff before (after (vw_read v) u))) in *.
  destruct (maxBytes <? _)%N; [done |]. destruct (_ <=? MaxFiles l)%N; [| done]. injection Hexp as <-. simpl.
  assert (map ec_Path (map (exported v) changes) = map ch_Path changes) as Hpaths.
  { rewrite map_map. by apply map_ext. }
  destruct (put_changes_lookup m (map (exported v) changes) p) as [Hin Hout].
  { rewrite Hpaths. unfold changes. rewrite Diff_changes. apply sorted_NoDup, changes_sorted. }
  set (old := files_map (sn_Files before)). set (new := files_map (after_files (vw_read v) u)).
  assert (forall a, new !! p = Some a -> vw_read v p = Some (contents (vw_read v) p)
    /\ matchesFileState (contents (vw_read v) p) a = true /\ is_Some (u_sizes u !! p)) as Hnew.
  { intros a Ha. destruct (after_state v l u Hrest p a Ha) as (_ & _ & Hr & Hm). split_and!; try done.
    apply (after_files_lookup (vw_read v)). by eexists. }
  assert (new !! p = None -> u_sizes u !! p = None) as Hnone.
  { intros Hn. apply eq_None_not_Some. rewrite <- (after_files_lookup (vw_read v)). fold new. rewrite Hn. by intros [? ?]. }
  destruct (decide (old !! p = new !! p)) as [Heq | Hne].
  - rewrite Hout; [| rewrite Hpaths; unfold changes; rewrite Diff_changes].
    2:{ intros Hp%changes_differ. done. }
    specialize (Hcopy p). fold old in Hcopy. rewrite Heq in Hcopy.
    destruct (new !! p) as [a |] eqn:Ha, (m !! p) as [d |] eqn:Hd; try done.
    + destruct (Hnew a eq_refl) as (Hr & Hm & [s Hs]). rewrite Hs, Hr.
      destruct (decide (d = contents (vw_read v) p)) as [-> | Hneq]; [by left |]. right. exists d, (contents (vw_read v) p).
      split_and!; [done | done |]. split; [done |]. unfold matchesFileState in Hcopy, Hm. guards. congruence.
    + left. by rewrite Hnone.
  - left. destruct (changes_at _ _ _ Hne) as (c & Hc & Hp & Ha).
    assert (c ∈ changes) as Hch by (unfold changes; by rewrite Diff_changes).
    rewrite (Hin (exported v c)); [| by apply list_elem_of_fmap; eauto | done].
    simpl. rewrite Ha, Hp. destruct (new !! p) as [a |] eqn:Hn; [| by rewrite Hnone].
    destruct (Hnew a eq_refl) as (Hr & _ & [s ->]). done.
Qed.

Definition demo_copy : gmap string string := <["a" := "one"]> (<["b/c" := "two"]> ∅).

Lemma export_rebuilds_workspace_witness :
  exists bundle, ExportChanges demo_views (Some demo_usage) demo_limits demo_before 10 = Ok bundle
  /\ (foldl put_change demo_copy (cs_Changes bundle) !! "b/c" = None
      \/ exists old new, demo_copy !! "b/c" = Some old /\ vw_read demo_views "b/c" = Some new /\ sha256_collision old new).
Proof.
  assert (validateSnapshot demo_before demo_limits = Ok tt) as Hv by (vm_compute; reflexivity).
  assert (validate_limits demo_limits = true) as Hl by reflexivity.
  assert ((0 < 10)%N) as Hpos by done. assert ((10 < 2 ^ 64)%N) as Hfit by done.
  destruct (ExportChanges demo_views (Some demo_usage) demo_limits demo_before 10) as [bundle | e] eqn:Hexp.
  2:{ vm_compute in Hexp. discriminate. }
  exists bundle. split; [reflexivity |].
  assert (copy_of demo_copy demo_before) as Hcopy.
  { intros p. unfold demo_copy. change (files_map (sn_Files demo_before))
      with (<["b/c" := demo_state "b/c" "two"]> (<["a" := demo_state "a" "one"]> (∅ : gmap string FileState))).
    rewrite !lookup_insert, !lookup_empty. destruct (decide ("b/c" = p)) as [<- |]; [vm_compute; reflexivity |].
    destruct (decide ("a" = p)) as [<- |]; [vm_compute; reflexivity | done]. }
  pose proof (export_rebuilds_workspace demo_views demo_limits demo_usage demo_before 10 bundle demo_copy "b/c"
    demo_at_rest Hv Hl Hpos Hfit Hexp Hcopy) as H.
  destruct H as [H | H]; [left; exact H | right; exact H].
Defined.

(** ** More changes than entries *)

Lemma validated_sorted s l :
  validateSnapshot s l = Ok tt -> paths_ok l None (map fs_Path (sn_Files s)) = true.
Proof.
  intros Hv. unfold validateSnapshot in Hv. destruct (_ && _); [| done]. simpl in Hv.
  destruct (validate_files l 0 None (sn_Files s)) as [total |] eqn:Hf; [| done].
  by apply validate_files_Ok in Hf as [Hp _].
Qed.

(** An export of an ordinary edit can be refused.  When everything the
    baseline holds was deleted or renamed, each old file is a deletion and each
    new one an addition, so the change set has as many changes as the two
    snapshots have files together - and [Validate] refuses more changes than the
    workspace may hold entries ([MaxFiles]), although both snapshots are within
    their limits and the bytes within the cap. *)
Theorem replaced_workspace_is_not_exportable v l u before maxBytes :
  at_rest v l u -> validateSnapshot before l = Ok tt ->
  validate_limits l = true -> (0 < maxBytes)%N -> (maxBytes < 2 ^ 64)%N ->
  (forall p, ~ (is_Some (files_map (sn_Files before) !! p) /\ is_Some (u_sizes u !! p))) ->
  (changed_bytes (su_Changes (Diff before (after (vw_read v) u))) <= maxBytes)%N ->
  (MaxFiles l < N.of_nat (size (files_map (sn_Files before)) + size (u_sizes u)))%N ->
  ExportChanges v (Some u) l before maxBytes = Err ErrInvalidChangeSet.
Proof.
  intros Hrest Hb Hl Hpos Hfit Hdisj Hbytes Hmany.
  rewrite (export_result v l u before Hrest Hb maxBytes Hl Hpos Hfit).
  rewrite (proj2 (N.ltb_ge _ _)) by done. rewrite (proj2 (N.leb_gt _ _)); [done |].
  rewrite Diff_changes. set (old := files_map (sn_Files before)) in *.
  set (new := files_map (sn_Files (after (vw_read v) u))).
  assert (dom new = dom (u_sizes u)) as Hdom.
  { apply set_eq. intros p. rewrite !elem_of_dom. apply after_files_lookup. }
  rewrite <- (size_dom (u_sizes u)), <- Hdom in Hmany. rewrite <- (size_dom old) in Hmany.
  rewrite <- size_union in Hmany.
  2:{ rewrite Hdom. intros p Ho Hu. apply (Hdisj p). by rewrite <- !elem_of_dom. }
  assert (size (dom old ∪ dom new) <= length (changes_of old new))%nat; [| unfold slen in *; lia].
  rewrite <- (length_map ch_Path (changes_of old new)).
  change (size (dom old ∪ dom new)) with (length (elements (dom old ∪ dom new))).
  apply submseteq_length, NoDup_submseteq; [apply NoDup_elements |].
  intros p. rewrite elem_of_elements, elem_of_union, !elem_of_dom. intros Hsome.
  assert (old !! p <> new !! p) as (c & Hc & <- & _)%changes_at.
  { intros Heq. apply (Hdisj p). unfold new in *. simpl in *. rewrite Heq in *.
    assert (is_Some (files_map (after_files (vw_read v) u) !! p)) as Hs by (by destruct Hsome).
    split; [done | by apply (after_files_lookup (vw_read v))]. }
  apply list_elem_of_fmap. eauto.
Qed.

Definition rename_before : Snapshot := demo_snapshot [demo_state "a" "x"].
Definition rename_files : gmap string string := {["b" := "x"]}.
Definition rename_usage : treeUsage := mkUsage ∅ (slen <$> rename_files) 1 1.
Definition rename_limits : WLimits := mkWLimits 1 1024 512 4.

Lemma replaced_workspace_is_not_exportable_witness :
  validateSnapshot rename_before rename_limits = Ok tt
  /\ ExportChanges (quiet_views rename_files) (Some rename_usage) rename_limits rename_before 10
     = Err ErrInvalidChangeSet.
Proof.
  assert (validateSnapshot rename_before rename_limits = Ok tt) as Hv by (vm_compute; reflexivity).
  split; [exact Hv |].
  assert (at_rest (quiet_views rename_files) rename_limits rename_usage) as Hrest.
  { apply quiet_at_rest; [done |]. apply map_Forall_singleton. split; vm_compute; [reflexivity | discriminate]. }
  assert (validate_limits rename_limits = true) as Hl by reflexivity.
  assert ((0 < 10)%N) as Hpos by done. assert ((10 < 2 ^ 64)%N) as Hfit by done.
  assert (forall p, ~ (is_Some (files_map (sn_Files rename_before) !! p) /\ is_Some (u_sizes rename_usage !! p)))
    as Hdisj.
  { intros p [Ho Hn]. unfold rename_usage, rename_files in Hn. simpl in Hn. rewrite lookup_fmap, fmap_is_Some in Hn.
    apply lookup_singleton_is_Some in Hn as <-. destruct Ho as [f Hf]. vm_compute in Hf. discriminate. }
  assert ((changed_bytes (su_Changes (Diff rename_before (after (vw_read (quiet_views rename_files)) rename_usage))) <= 10)%N)
    as Hbytes by (vm_compute; discriminate).
  assert ((MaxFiles rename_limits
           < N.of_nat (size (files_map (sn_Files rename_before)) + size (u_sizes rename_usage)))%N)
    as Hmany by (vm_compute; reflexivity).
  exact (replaced_workspace_is_not_exportable (quiet_views rename_files) rename_limits rename_usage rename_before 10
           Hrest Hv Hl Hpos Hfit Hdisj Hbytes Hmany).
Defined.

(** ** The data of a change set *)

Lemma validated_data c l :
  validateExportedChange c l = Ok tt ->
  match ec_After c with
  | Some a => if bool_decide (ec_Kind c = ChangeDeleted) then ec_Data c = ""
              else matchesFileState (ec_Data c) a = true
  | None => ec_Data c = ""
  end.
Proof.
  unfold validateExportedChange. intros Hv.
  destruct (bool_decide (ec_Kind c = ChangeAdded)) eqn:Ha.
  { destruct (_ && _ && carries _ _) eqn:Hok; [| done]. guards. unfold carries in *.
    destruct (ec_After c); [| done]. rewrite Ha. done. }
  destruct (bool_decide (ec_Kind c = ChangeModified)) eqn:Hm.
  { destruct (_ && _ && carries _ _) eqn:Hok; [| done]. guards. unfold carries in *.
    destruct (ec_After c); [| done]. rewrite Hm. done. }
  destruct (bool_decide (ec_Kind c = ChangeDeleted)) eqn:Hd; [| done].
  destruct (_ && _ && _) eqn:Hok; [| done]. guards. by rewrite H1.
Qed.

Lemma described_data c c' l l' :
  described c = described c' -> validateExportedChange c l = Ok tt -> validateExportedChange c' l' = Ok tt ->
  ec_Data c = ec_Data c' \/ sha256_collision (ec_Data c) (ec_Data c').
Proof.
  unfold described. intros [= Hp Hk Hb Ha] Hc%validated_data Hc'%validated_data. rewrite <- Hk, <- Ha in Hc'.
  destruct (ec_After c) as [a |]; [| left; congruence].
  destruct (bool_decide (ec_Kind c = ChangeDeleted)); [left; congruence |].
  destruct (decide (ec_Data c = ec_Data c')) as [| Hne]; [by left |]. right. split; [done |].
  unfold matchesFileState in *. guards. congruence.
Qed.

(** Validation pins the contents.  If two change sets both pass [Validate]
    and say the same of every change - paths, kinds, states before and after -
    then they carry the same data, unless two data of one change are a SHA-256
    collision: data cannot be exchanged without the description showing it. *)
Theorem validated_change_set_pins_data b b' l l' maxBytes maxBytes' :
  Validate b l maxBytes = Ok tt -> Validate b' l' maxBytes' = Ok tt ->
  map described (cs_Changes b) = map described (cs_Changes b') ->
  map ec_Data (cs_Changes b) = map ec_Data (cs_Changes b')
  \/ exists c c', c ∈ cs_Changes b /\ c' ∈ cs_Changes b' /\ ec_Path c = ec_Path c'
                  /\ sha256_collision (ec_Data c) (ec_Data c').
Proof.
  intros Hb%validated_changes Hb'%validated_changes. generalize dependent (cs_Changes b').
  induction Hb as [| c cs Hc Hcs IH]; intros [| c' cs'] Hb' Hsame; try done; [by left |].
  simpl in Hsame. injection Hsame as Hp Hk Hbf Haf Hsame. inversion Hb' as [| ? ? Hc' Hcs']; subst.
  destruct (described_data c c' l l') as [Hd | Hd]; try done; [unfold described; congruence | |].
  - destruct (IH cs' Hcs' Hsame) as [Hds | (d & d' & Hd1 & Hd2 & Hd3)].
    + left. simpl. congruence.
    + right. exists d, d'. split_and!; [by right | by right | |]; apply Hd3.
  - right. exists c, c'. split_and!; [by left | by left | done | done].
Qed.

Definition demo_bundle (data : string) : ChangeSet :=
  mkChangeSet ChangeSetSchemaVersion (sn_Revision demo_before) (sn_Revision demo_after) (slen data)
    [mkExported "d" ChangeAdded None (Some (demo_state "d" data)) data].

Lemma validated_change_set_pins_data_witness :
  Validate (demo_bundle "three") demo_limits 10 = Ok tt
  /\ Validate (mkChangeSet ChangeSetSchemaVersion (sn_Revision demo_before) (sn_Revision demo_after) 5
       [mkExported "d" ChangeAdded None (Some (demo_state "d" "three")) "THREE"]) demo_limits 10
     = Err ErrInvalidChangeSet
  /\ (["three"] = ["three"]
      \/ exists c c', c ∈ cs_Changes (demo_bundle "three") /\ c' ∈ cs_Changes (demo_bundle "three")
                      /\ ec_Path c = ec_Path c' /\ sha256_collision (ec_Data c) (ec_Data c')).
Proof.
  assert (Validate (demo_bundle "three") demo_limits 10 = Ok tt) as Hv by (vm_compute; reflexivity).
  split; [exact Hv |]. split; [vm_compute; reflexivity |].
  exact (validated_change_set_pins_data (demo_bundle "three") (demo_bundle "three") demo_limits demo_limits 10 10
           Hv Hv eq_refl).
Defined.
