(* ===== verification/Conflict.v ===== *)
(** * Conflict: checking a target directory against a change set
    ([runtime/workspace/export.go])

    [CheckDirectoryConflicts] reads a Host directory and never writes to it.
    What the Host answers is a [target]: how names are found, and what a file
    holds together with how it and its name are found after it was read. *)

From S2P Require Import Prelude Errors Json Paths RootedFS Sha256 Snapshot.

Inductive ConflictKind := ConflictAlreadyExists | ConflictMissing | ConflictChanged | ConflictUnsupported.

#[export] Instance ConflictKind_eq_dec : EqDecision ConflictKind.
Proof. solve_decision. Defined.

Record Conflict := mkConflict { cf_Path : string; cf_Kind : ConflictKind }.

Record ConflictReport := mkReport { cr_Clean : bool; cr_Conflicts : list Conflict }.

(** The answers of the Host.  [tg_read] is the contents of a file, its [Stat]
    once it was read and the [Lstat] of its name after that, or a failure of one
    of these; [tg_root], [tg_opened], [tg_final] are the three examinations of
    the root and [tg_open] the error of opening it. *)
Record target := mkTarget {
  tg_root : found;
  tg_open : option string;
  tg_opened : found;
  tg_final : found;
  tg_lstat : string -> found;
  tg_read : string -> option (string * Stat * Stat)
}.

Section Check.
Variable t : target.
Variable rootDevice : N.

(** The loop over the components of the parent. *)
Fixpoint parents_are_safe (current : string) (components : list string) : res ws_error bool :=
  match components with
  | [] => Ok true
  | component :: rest =>
      let current := if bool_decide (current = "") then component else path_Join current component in
      match tg_lstat t current with
      | NotExist => Ok true
      | Failed => Err (EHost ("inspect conflict target parent " +:+ current))
      | Found s =>
          if negb (bool_decide (i_type (st_info s) = TDir)) || negb (i_dev (st_info s) =? rootDevice)%N
          then Ok false
          else parents_are_safe current rest
      end
  end.

Definition targetParentsAreSafe (name : string) : res ws_error bool :=
  let components := split_slash (path_Dir name) in
  if bool_decide (components = ["."]) then Ok true else parents_are_safe "" components.

(** The state of the file and whether it stayed the same meanwhile. *)
Definition readStableTargetFile (name : string) (before : Stat) : res ws_error (FileState * bool) :=
  match tg_read t name with
  | None => Err (ERead name)
  | Some (data, after, linkedAfter) =>
      Ok (mkState name (slen data) (sha256_hex data)
            (negb (bool_decide (N.land (i_perm (st_info before)) 73 = 0%N))),
          same_and_unmodified before after && same_and_unmodified before linkedAfter)
  end.

Definition checkTargetPath (change : ExportedChange) : res ws_error (option ConflictKind) :=
  let* safe := targetParentsAreSafe (ec_Path change) in
  if negb safe then Ok (Some ConflictUnsupported)
  else
    let added := bool_decide (ec_Kind change = ChangeAdded) in
    match tg_lstat t (ec_Path change) with
    | NotExist => Ok (if added then None else Some ConflictMissing)
    | Failed => Err (EHost ("inspect conflict target " +:+ ec_Path change))
    | Found s =>
        if added then Ok (Some ConflictAlreadyExists)
        else if negb (bool_decide (i_type (st_info s) = TRegular)) || negb (i_nlink (st_info s) =? 1)%N
                || negb (i_dev (st_info s) =? rootDevice)%N
        then Ok (Some ConflictUnsupported)
        else
          let* (actual, stable) := readStableTargetFile (ec_Path change) s in
          Ok (if stable && bool_decide (ec_Before change = Some actual) then None else Some ConflictChanged)
    end.

Fixpoint check_changes (changes : list ExportedChange) : res ws_error (list Conflict) :=
  match changes with
  | [] => Ok []
  | change :: rest =>
      let* kind := checkTargetPath change in
      let* conflicts := check_changes rest in
      Ok (option_list (mkConflict (ec_Path change) <$> kind) ++ conflicts)
  end.
End Check.

Definition CheckDirectoryConflicts (t : target) (name : string) (bundle : ChangeSet) (l : WLimits)
  : res ws_error ConflictReport :=
  if bool_decide (name = "") || negb (has_prefix "/" name) || negb (bool_decide (path_Clean name = name))
  then Err ErrInvalidWorkspace
  else
    let* _ := Validate bundle l (MaxBytes l) in
    match tg_root t with
    | Found root =>
        if negb (bool_decide (i_type (st_info root) = TDir)) then Err ErrInvalidWorkspace
        else match tg_open t with
        | Some e => Err (EHost ("open conflict target: " +:+ e))
        | None =>
            match tg_opened t with
            | Found opened =>
                if negb (sameSourceObject root opened) then Err ErrInvalidWorkspace
                else
                  let* conflicts := check_changes t (i_dev (st_info root)) (cs_Changes bundle) in
                  match tg_final t with
                  | Found final =>
                      if same_and_unmodified root final
                      then Ok (mkReport (bool_decide (length conflicts = 0%nat)) conflicts)
                      else Err ErrInvalidWorkspace
                  | _ => Err ErrInvalidWorkspace
                  end
            | _ => Err ErrInvalidWorkspace
            end
        end
    | _ => Err ErrInvalidWorkspace
    end.
