(* ===== verification/Ingress.v ===== *)
(** * Ingress: copying a Host directory into a workspace
    ([runtime/workspace/ingress.go])

    [CreateFromDirectory] copies a directory that other processes may change
    meanwhile.  What the Host answers is a [source]: every examination of a name
    is an answer of its own, so it may change between any two of them.  The
    directory being filled is private, and is modelled as what was placed in it. *)

From stdpp Require Import sorting.
From S2P Require Import Prelude Errors Json Paths RootedFS Sha256 Snapshot Conflict.

(** ** What the Host answers *)

(** The places of the code that examine a name: with [Lstat], or with [Stat]
    on what was opened, a failure to open included. *)
Inductive moment :=
| Root | RootOpened | RootFinal
| DirBefore | DirOpened | DirAfter
| Entry | ChildOpened | ChildFinal
| FileOpened | FileAfter | FileLinked.

(** The calls that only succeed or fail; [CWrite] is writing and closing. *)
Inductive call := CMkdir | CCreate | CWrite | CChmod | CCloseChild.

(** By logical path: [sr_list] is [ReadDir], [sr_read] what reading the whole
    file gives. *)
Record source := mkSource {
  sr_stat : moment -> string -> found;
  sr_list : string -> option (list string);
  sr_read : string -> option string;
  sr_call : call -> string -> bool
}.

(** ** The directory being filled *)

Record placed := mkPlaced { pl_dir : bool; pl_data : string; pl_mode : N }.

#[export] Instance placed_eq_dec : EqDecision placed.
Proof. solve_decision. Defined.

(** [ingressUsage] and what was placed, by path. *)
Record progress := mkProgress {
  pr_entries : N;
  pr_bytes : N;
  pr_placed : gmap string placed
}.

Definition parent_placed (name : string) (m : gmap string placed) : bool :=
  bool_decide (path_Dir name = ".")
  || match m !! path_Dir name with Some p => pl_dir p | None => false end.

(** [Mkdir] and [OpenFile] with [O_EXCL]: the name is new and its parent there. *)
Definition place (name : string) (p : placed) (m : gmap string placed) : res ws_error (gmap string placed) :=
  let* _ := guard (parent_placed name m && bool_decide (m !! name = None)) ErrInvalidWorkspace in
  Ok (<[name := p]> m).

Definition chmod (name : string) (mode : N) (m : gmap string placed) : gmap string placed :=
  alter (fun p => mkPlaced (pl_dir p) (pl_data p) mode) name m.

Definition executable (s : Stat) : bool := negb (bool_decide (N.land (i_perm (st_info s)) 73 = 0%N)).

Section Copy.
Variable s : source.

(** An examination that has to succeed and to satisfy [test]. *)
Definition examine (m : moment) (name : string) (test : Stat -> bool) : res ws_error Stat :=
  match sr_stat s m name with
  | Found st => if test st then Ok st else Err ErrInvalidWorkspace
  | _ => Err ErrInvalidWorkspace
  end.

Definition host_call (c : call) (name : string) : res ws_error unit := guard (sr_call s c name) ErrInvalidWorkspace.

Definition is_type (k : file_type) (st : Stat) : bool := bool_decide (i_type (st_info st) = k).

(** [CopyN] writes the first [Size] bytes; one more read must find the end. *)
Definition copySourceFile (name : string) (before : Stat) (m : gmap string placed)
  : res ws_error (gmap string placed) :=
  let size := Z.to_N (i_size (st_info before)) in
  let* _ := examine FileOpened name (fun o => is_type TRegular o && sameSourceObject before o) in
  let '(mode, canonicalMode) := if executable before then (448, 493)%N else (384, 420)%N in
  let* _ := host_call CCreate name in
  let* m := place name (mkPlaced false "" mode) m in
  match sr_read s name with
  | None => Err ErrInvalidWorkspace
  | Some data =>
      let m := <[name := mkPlaced false (String.substring 0 (N.to_nat size) data) mode]> m in
      let* _ := guard (sr_call s CWrite name && (slen data =? size)%N) ErrInvalidWorkspace in
      let* _ := examine FileAfter name (same_and_unmodified before) in
      let* _ := examine FileLinked name (same_and_unmodified before) in
      let* _ := host_call CChmod name in
      Ok (chmod name canonicalMode m)
  end.

Variable rootDevice : N.
Variable l : WLimits.

Definition on_device (st : Stat) : bool := (i_dev (st_info st) =? rootDevice)%N.

(** What the loop requires of an entry before it counts it. *)
Definition ordinary_entry (st : Stat) : bool :=
  on_device st && negb (is_type TSymlink st) && (is_type TDir st || is_type TRegular st)
  && negb (is_type TRegular st && negb (i_nlink (st_info st) =? 1)%N).

Section Entries.
(** The recursive call. *)
Variable copy_directory : string -> progress -> res ws_error progress.

Definition copy_child (name : string) (info : Stat) (pr : progress) : res ws_error progress :=
  let* _ := host_call CMkdir name in
  let* m := place name (mkPlaced true "" 448) (pr_placed pr) in
  let* _ := examine ChildOpened name (sameSourceObject info) in
  let* pr := copy_directory name (mkProgress (pr_entries pr) (pr_bytes pr) m) in
  let* _ := host_call CCloseChild name in
  let* _ := examine ChildFinal name (same_and_unmodified info) in
  let* _ := host_call CChmod name in
  Ok (mkProgress (pr_entries pr) (pr_bytes pr) (chmod name 493 (pr_placed pr))).

Definition copy_file (name : string) (info : Stat) (pr : progress) : res ws_error progress :=
  let size := Z.to_N (i_size (st_info info)) in
  if (i_size (st_info info) <? 0)%Z || (MaxFileBytes l <? size)%N || (sub64 (MaxBytes l) size <? pr_bytes pr)%N
  then Err ErrInvalidWorkspace
  else
    let* m := copySourceFile name info (pr_placed pr) in
    Ok (mkProgress (pr_entries pr) (u64 (pr_bytes pr + size)) m).

Definition relative_path (logicalPath name : string) : string :=
  if bool_decide (logicalPath = ".") then name else path_Join logicalPath name.

(** One turn of the loop of [copySourceDirectory]. *)
Definition copy_entry (logicalPath name : string) (pr : progress) : res ws_error progress :=
  if bool_decide (name = ".git") then Ok pr
  else
    let relative := relative_path logicalPath name in
    let* _ := guard (bool_decide (cleanGuestPath relative (MaxDepth l) false = Some relative)) ErrInvalidWorkspace in
    let* info := examine Entry relative ordinary_entry in
    let entries := u32 (pr_entries pr + 1) in
    let* _ := guard (entries <=? MaxFiles l)%N ErrInvalidWorkspace in
    let pr := mkProgress entries (pr_bytes pr) (pr_placed pr) in
    if is_type TDir info then copy_child relative info pr else copy_file relative info pr.

Fixpoint copy_entries (logicalPath : string) (names : list string) (pr : progress) : res ws_error progress :=
  match names with
  | [] => Ok pr
  | name :: rest => let* pr := copy_entry logicalPath name pr in copy_entries logicalPath rest pr
  end.
End Entries.

(** [fuel] bounds the depth of the recursion. *)
Fixpoint copySourceDirectory (fuel : nat) (logicalPath : string) (pr : progress) : res ws_error progress :=
  match fuel with
  | O => Err (EHost "out of fuel")
  | S fuel =>
      let* before := examine DirBefore logicalPath (fun b => is_type TDir b && on_device b) in
      let* _ := examine DirOpened logicalPath
                  (fun o => is_type TDir o && sameSourceObject before o && on_device o) in
      match sr_list s logicalPath with
      | None => Err ErrInvalidWorkspace
      | Some names =>
          let* pr := copy_entries (copySourceDirectory fuel) logicalPath (sort_strings names) pr in
          let* _ := examine DirAfter logicalPath (same_and_unmodified before) in
          Ok pr
      end
  end.
End Copy.

(** A name has at most [maxWorkspacePathBytes + 1] components. *)
Definition copy_fuel : nat := S (S (N.to_nat maxWorkspacePathBytes)).

(** ** The parts of [CreateFromDirectory] before and after the allocation *)

Definition source_root (s : source) (path : string) : res ws_error Stat :=
  let* _ := guard (negb (bool_decide (path = "")) && has_prefix "/" path && bool_decide (path_Clean path = path))
              ErrInvalidWorkspace in
  let* root := examine s Root path (is_type TDir) in
  let* _ := examine s RootOpened path (sameSourceObject root) in
  Ok root.

Definition copy_source (s : source) (path : string) (l : WLimits) (root : Stat)
  : res ws_error (gmap string placed) :=
  let* pr := copySourceDirectory s (i_dev (st_info root)) l copy_fuel "." (mkProgress 0 0 ∅) in
  let* _ := examine s RootFinal path (same_and_unmodified root) in
  Ok (pr_placed pr).
