(* ===== verification/IngressSpec.v ===== *)
(** * IngressSpec: what copying a directory means

    Source directories as trees, the files and directories a tree becomes in a
    workspace, which trees a workspace can hold, and what it is for the Host to
    answer the code with a tree that does not change.  Then what holds of a copy
    whatever the Host answers. *)

From stdpp Require Import sorting.
From S2P Require Import Prelude Errors Json Paths RootedFS Sha256 Snapshot Conflict Ingress.

(** ** Trees *)

Inductive snode :=
| SFile (st : Stat) (data : string)
| SDirectory (st : Stat) (children : list (string * snode))
| SOther (st : Stat).

Section snode_induction.
Variable P : snode -> Prop.
Hypothesis PFile : forall st data, P (SFile st data).
Hypothesis PDirectory : forall st ch, Forall (fun c => P c.2) ch -> P (SDirectory st ch).
Hypothesis POther : forall st, P (SOther st).

Fixpoint snode_nested (n : snode) : P n :=
  match n with
  | SFile st data => PFile st data
  | SDirectory st ch =>
      PDirectory st ch
        ((fix go (ch : list (string * snode)) : Forall (fun c => P c.2) ch :=
            match ch with [] => Forall_nil _ | c :: ch => Forall_cons _ c ch (snode_nested c.2) (go ch) end) ch)
  | SOther st => POther st
  end.
End snode_induction.

Definition child (path name : string) : string := if bool_decide (path = ".") then name else path +:+ "/" +:+ name.

(** What is copied of the children of a directory, and of a node. *)
Definition contents_of (image : string -> snode -> gmap string placed) (path : string)
    (ch : list (string * snode)) : gmap string placed :=
  foldr (fun c m => (if bool_decide (c.1 = ".git") then ∅ else image (child path c.1) c.2) ∪ m) ∅ ch.

Definition file_mode (st : Stat) : N := if executable st then 493 else 420.

Fixpoint image (path : string) (n : snode) : gmap string placed :=
  match n with
  | SFile st data => {[path := mkPlaced false data (file_mode st)]}
  | SDirectory st ch => {[path := mkPlaced true "" 493]} ∪ contents_of image path ch
  | SOther st => ∅
  end.

Definition contents (path : string) (ch : list (string * snode)) : gmap string placed := contents_of image path ch.

(** The node that the components of a path lead to, and what is placed for it. *)
Fixpoint find_node (ch : list (string * snode)) (parts : list string) : option snode :=
  match parts with
  | [] => None
  | p :: rest =>
      match (list_to_map ch : gmap string snode) !! p with
      | None => None
      | Some c =>
          match rest, c with
          | [], _ => Some c
          | _, SDirectory _ ch' => find_node ch' rest
          | _, _ => None
          end
      end
  end.

Definition placed_of (n : snode) : option placed :=
  match n with
  | SFile st data => Some (mkPlaced false data (file_mode st))
  | SDirectory _ _ => Some (mkPlaced true "" 493)
  | SOther _ => None
  end.

(** The nodes that [CreateFromDirectory] takes from a device. *)
Section Acceptable.
Variable l : WLimits.
Variable device : N.

Definition accepted_path (path : string) : bool := bool_decide (cleanGuestPath path (MaxDepth l) false = Some path).

Fixpoint acceptable (path : string) (n : snode) : bool :=
  accepted_path path &&
  match n with
  | SFile st data =>
      on_device device st && (i_nlink (st_info st) =? 1)%N && (slen data <=? MaxFileBytes l)%N
  | SDirectory st ch =>
      on_device device st
      && forallb (fun c => bool_decide (c.1 = ".git") || acceptable (child path c.1) c.2) ch
  | SOther st => false
  end.

Definition acceptable_children (path : string) (ch : list (string * snode)) : bool :=
  forallb (fun c => bool_decide (c.1 = ".git") || acceptable (child path c.1) c.2) ch.
End Acceptable.

Definition placed_bytes (m : gmap string placed) : N := map_sum (fun _ p => slen (pl_data p)) m.

(** ** A source that stays the same *)

(** [ReadDir] gives names of files. *)
Definition file_name (name : string) : bool := component name && ordinary name.

Definition node_stat (n : snode) : Stat :=
  match n with SFile st _ | SDirectory st _ | SOther st => st end.

(** The answers at the path of a node. *)
Definition answers (s : source) (path : string) (n : snode) : Prop :=
  (forall m, sr_stat s m path = Found (node_stat n)) /\ (forall c, sr_call s c path = true) /\
  match n with
  | SFile st data => is_type TRegular st = true /\ i_size (st_info st) = Z.of_N (slen data)
                     /\ sr_read s path = Some data
  | SDirectory st ch => is_type TDir st = true /\ NoDup (map fst ch)
                        /\ Forall (fun c => file_name c.1 = true) ch
                        /\ exists names, sr_list s path = Some names /\ names ≡ₚ map fst ch
  | SOther st => is_type TRegular st = false /\ is_type TDir st = false
  end.

(** Every node below [path] answers for itself. *)
Inductive describes (s : source) : string -> snode -> Prop :=
| describes_node path n :
    answers s path n ->
    (forall st ch, n = SDirectory st ch ->
       forall name c, (name, c) ∈ ch -> describes s (child path name) c) ->
    describes s path n.

(** ** What holds of every copy *)

(** [ReadDir] gives names of files. *)
Definition lists_names (s : source) : Prop :=
  forall path names, sr_list s path = Some names -> Forall (fun name => file_name name = true) names.

(** Limits below the ends of the counters. *)
Definition limits_small (l : WLimits) : Prop := (MaxFiles l < 2 ^ 32 - 1)%N /\ (MaxBytes l < 2 ^ 64)%N.

(** Why a file or directory is in the workspace: what the Host answered of the
    name in the source, and the directory it was put into. *)
Record justified (s : source) (device : N) (l : WLimits) (m : gmap string placed) (path : string) (p : placed)
  : Prop := {
  ju_path : cleanGuestPath path (MaxDepth l) false = Some path;
  ju_parent : parent_placed path m = true;
  ju_source : exists st, sr_stat s Entry path = Found st /\ i_dev (st_info st) = device /\
    if pl_dir p
    then i_type (st_info st) = TDir /\ p = mkPlaced true "" 493
         /\ (exists final, sr_stat s ChildFinal path = Found final /\ same_and_unmodified st final = true)
    else i_type (st_info st) = TRegular /\ i_nlink (st_info st) = 1%N
         /\ sr_read s path = Some (pl_data p) /\ (slen (pl_data p) <= MaxFileBytes l)%N
         /\ pl_mode p = file_mode st
         /\ (exists final, sr_stat s FileLinked path = Found final /\ same_and_unmodified st final = true)
}.

(** The counters are what was placed, within the limits. *)
Record counted (l : WLimits) (pr : progress) : Prop := {
  co_entries : pr_entries pr = N.of_nat (size (pr_placed pr));
  co_bytes : pr_bytes pr = placed_bytes (pr_placed pr);
  co_files : (pr_entries pr <= MaxFiles l)%N;
  co_total : (pr_bytes pr <= MaxBytes l)%N
}.

(** A part of the copy adds what is justified. *)
Record extends (s : source) (device : N) (l : WLimits) (pr pr' : progress) : Prop := {
  ex_sub : pr_placed pr ⊆ pr_placed pr';
  ex_new : forall path p, pr_placed pr !! path = None -> pr_placed pr' !! path = Some p ->
             justified s device l (pr_placed pr') path p;
  ex_counted : counted l pr'
}.

(** A result that satisfies [P], or the error of this file. *)
Definition post {A} (P : A -> Prop) (r : res ws_error A) : Prop :=
  match r with Ok a => P a | Err e => e = ErrInvalidWorkspace end.

Lemma post_bind {A B} (P : A -> Prop) (Q : B -> Prop) r k :
  post P r -> (forall a, P a -> post Q (k a)) -> post Q (res_bind r k).
Proof. destruct r; simpl; auto. Qed.

Lemma post_guard {B} b (Q : B -> Prop) k :
  (b = true -> post Q k) -> post Q (res_bind (guard b ErrInvalidWorkspace) (fun _ => k)).
Proof. destruct b; simpl; auto. Qed.

Lemma post_examine {B} s m name test (Q : B -> Prop) k :
  (forall st, sr_stat s m name = Found st -> test st = true -> post Q (k st)) ->
  post Q (res_bind (examine s m name test) k).
Proof.
  unfold examine. intros H. destruct (sr_stat s m name) as [st | |]; try done.
  destruct (test st) eqn:Ht; [by apply H | done].
Qed.

Lemma post_place {B} name p m (Q : B -> Prop) k :
  (parent_placed name m = true -> m !! name = None -> post Q (k (<[name := p]> m))) ->
  post Q (res_bind (place name p m) k).
Proof.
  unfold place. intros H. destruct (parent_placed name m); [| done].
  destruct (bool_decide (m !! name = None)) eqn:Hn; [| done]. apply H; [done |]. by guards.
Qed.

(** ** Paths *)

Lemma child_split path name :
  file_name name = true -> split_slash (child path name) = (if bool_decide (path = ".") then [] else split_slash path) ++ [name].
Proof.
  intros Hn. unfold file_name in Hn. guards. unfold child. destruct (bool_decide (path = ".")).
  - by apply split_single.
  - change ("/" +:+ name) with (String slash name). by rewrite split_app, (split_single name).
Qed.

(** The directories of the recursion. *)
Definition directory_path (l : WLimits) (path : string) : Prop := path = "." \/ clean_name (MaxDepth l) path.

Lemma relative_child l path name :
  directory_path l path -> file_name name = true -> relative_path path name = child path name.
Proof.
  intros Hp Hn. unfold relative_path, child. destruct (bool_decide (path = ".")) eqn:Hdot; [done |]. guards.
  destruct Hp as [-> | (_ & Hparts & _)]; [done |]. apply clean_components in Hparts as [Ho _].
  unfold file_name in Hn. guards. unfold path_Join. apply clean_fixed.
  - apply not_true_iff_false. intros [rest Hrest]%has_prefix_slash.
    destruct (ordinary_name path Ho) as (Hne & _ & _ & Hslash & _). destruct path as [| c path]; [done |].
    rewrite str_app_cons in Hrest. injection Hrest as -> _.
    apply not_true_iff_false in Hslash. apply Hslash, has_prefix_slash. by eexists.
  - apply split_slash_nonempty.
  - change ("/" +:+ name) with (String slash name). rewrite split_app, (split_single name) by done.
    apply list.Forall_app. by repeat constructor.
Qed.

Definition depth (path : string) : nat := if bool_decide (path = ".") then 0 else length (split_slash path).

Lemma depth_child path name : file_name name = true -> child path name <> "." -> depth (child path name) = S (depth path).
Proof.
  intros Hn Hdot. unfold depth. rewrite (bool_decide_eq_false_2 (child path name = ".")) by done.
  rewrite child_split by done. rewrite length_app. simpl. destruct (bool_decide (path = ".")); simpl; lia.
Qed.

Lemma accepted_is_clean l path :
  cleanGuestPath path (MaxDepth l) false = Some path -> clean_name (MaxDepth l) path /\ path <> ".".
Proof.
  intros H. destruct (accepted_clean_name _ _ _ _ H) as (_ & [[_ ?] | Hc]); [done |]. split; [done |].
  intros ->. destruct Hc as (_ & Hp & _). apply clean_components in Hp as [Ho _].
  by destruct (ordinary_name _ Ho) as (_ & ? & _).
Qed.

Lemma clean_depth l path : directory_path l path -> (depth path <= S (N.to_nat maxWorkspacePathBytes))%nat.
Proof.
  intros Hp. unfold depth. destruct (bool_decide (path = ".")) eqn:Hdot; [lia |]. guards.
  destruct Hp as [-> | (Hb & _)]; [done |]. unfold clean_bytes in Hb. guards.
  rewrite count_slash_split. pose proof (count_slash_le path). unfold slen in *. lia.
Qed.
