(* ===== verification/IngressProps.v ===== *)
(** * IngressProps: what copying a directory promises

    Whatever other processes do to the source meanwhile, a copy that succeeds
    holds ordinary files and directories of one device, as they were listed and
    read, within the limits; and a source that stays the same is copied exactly
    when it is acceptable and fits, as it is apart from [.git]. *)

From stdpp Require Import sorting.
From S2P Require Import Prelude Errors Json Paths RootedFS Sha256 Snapshot SnapshotProps Conflict Ingress IngressSpec.

Lemma substring_all (d : string) : String.substring 0 (String.length d) d = d.
Proof. induction d as [| c d IH]; [done |]. simpl. by rewrite IH. Qed.

Lemma stat_same_dev st st' : same_and_unmodified st st' = true -> i_dev (st_info st) = i_dev (st_info st').
Proof. unfold same_and_unmodified, sameSourceObject. intros H. by guards. Qed.

Lemma placed_bytes_insert m path p :
  m !! path = None -> placed_bytes (<[path := p]> m) = (slen (pl_data p) + placed_bytes m)%N.
Proof. apply (map_sum_insert (fun _ p => slen (pl_data p))). Qed.

Lemma placed_bytes_chmod path mode m : placed_bytes (chmod path mode m) = placed_bytes m.
Proof.
  unfold chmod, placed_bytes. destruct (m !! path) as [p |] eqn:Hp.
  - rewrite (alter_present _ m path p Hp).
    pose proof (map_sum_update (fun (_ : string) p => slen (pl_data p)) m path p
      (mkPlaced (pl_dir p) (pl_data p) mode) Hp) as H. simpl in H. lia.
  - by rewrite alter_id by (intros; congruence).
Qed.

Lemma chmod_size path mode m : size (chmod path mode m) = size m.
Proof. unfold chmod. by rewrite <- !size_dom, dom_alter_L. Qed.

Lemma chmod_insert path mode p m :
  chmod path mode (<[path := p]> m) = <[path := mkPlaced (pl_dir p) (pl_data p) mode]> m.
Proof. unfold chmod. by rewrite alter_insert_eq. Qed.

Lemma chmod_lookup path mode m q :
  chmod path mode m !! q =
    if bool_decide (q = path) then (fun p => mkPlaced (pl_dir p) (pl_data p) mode) <$> m !! path else m !! q.
Proof.
  unfold chmod. destruct (bool_decide (q = path)) eqn:Hq; guards; subst; [by rewrite lookup_alter_eq |].
  by rewrite lookup_alter_ne.
Qed.

(** Directories stay directories. *)
Definition keeps (m m' : gmap string placed) : Prop :=
  forall q p, m !! q = Some p -> exists p', m' !! q = Some p' /\ pl_dir p' = pl_dir p.

Lemma keeps_sub m m' : m ⊆ m' -> keeps m m'.
Proof. intros Hsub q p Hq. exists p. split; [| done]. by eapply lookup_weaken. Qed.

Lemma keeps_chmod path mode m : keeps m (chmod path mode m).
Proof.
  intros q p Hq. rewrite chmod_lookup. destruct (bool_decide (q = path)) eqn:Hd; guards; subst; [| by exists p].
  rewrite Hq. by eexists.
Qed.

Lemma parent_keeps m m' path : keeps m m' -> parent_placed path m = true -> parent_placed path m' = true.
Proof.
  unfold parent_placed. intros Hk. destruct (bool_decide _); [done |]. simpl.
  destruct (m !! path_Dir path) as [p |] eqn:Hp; [| done]. destruct (Hk _ _ Hp) as (p' & -> & ->). done.
Qed.

Lemma justified_keeps s device l m m' path p :
  keeps m m' -> justified s device l m path p -> justified s device l m' path p.
Proof. intros Hk [H1 H2 H3]. split; [done | by eapply parent_keeps | done]. Qed.

Lemma ordinary_entry_iff device st :
  ordinary_entry device st = true <->
  i_dev (st_info st) = device /\ (i_type (st_info st) = TDir \/ i_type (st_info st) = TRegular /\ i_nlink (st_info st) = 1%N).
Proof.
  unfold ordinary_entry, on_device, is_type.
  rewrite !andb_true_iff, orb_true_iff, !negb_true_iff, andb_false_iff, negb_false_iff, !N.eqb_eq,
    !bool_decide_eq_true, !bool_decide_eq_false.
  split; [intuition congruence |]. intros [-> [-> | [-> ->]]]; intuition congruence.
Qed.

(** ** Whatever the Host answers *)

Section Soundness.
Variable s : source.
Variable device : N.
Variable l : WLimits.
Hypothesis Hnames : lists_names s.
Hypothesis Hvalid : validate_limits l = true.
Hypothesis Hsmall : limits_small l.

Lemma extends_refl pr : counted l pr -> extends s device l pr pr.
Proof. intros Hc. split; [done | congruence | done]. Qed.

Lemma extends_trans pr1 pr2 pr3 : extends s device l pr1 pr2 -> extends s device l pr2 pr3 -> extends s device l pr1 pr3.
Proof.
  intros [S1 N1 C1] [S2 N2 C2]. split; [by etrans | | done]. intros path p H1 H3.
  destruct (pr_placed pr2 !! path) as [p2 |] eqn:H2; [| by apply N2].
  assert (pr_placed pr3 !! path = Some p2) as Heq by (by eapply lookup_weaken).
  simplify_eq. apply (justified_keeps _ _ _ (pr_placed pr2)); [by apply keeps_sub | by apply N1].
Qed.

(** What [copySourceFile] adds. *)
Lemma copySourceFile_post name before m :
  (0 <= i_size (st_info before))%Z ->
  post (fun m' => m !! name = None /\ parent_placed name m = true /\ exists data final,
          sr_read s name = Some data /\ slen data = Z.to_N (i_size (st_info before))
          /\ sr_stat s FileLinked name = Found final /\ same_and_unmodified before final = true
          /\ m' = <[name := mkPlaced false data (file_mode before)]> m)
       (copySourceFile s name before m).
Proof.
  intros Hsize. unfold copySourceFile. apply post_examine. intros opened _ _.
  assert (exists mode, (if executable before then (448, 493)%N else (384, 420)%N) = (mode, file_mode before)) as [mode ->]
    by (unfold file_mode; destruct (executable before); by eexists).
  apply post_guard. intros _. apply post_place. intros Hparent Hnew. destruct (sr_read s name) as [data |] eqn:Hr; [| done].
  apply post_guard. intros Hw. guards. apply post_examine. intros _ _ _. apply post_examine. intros final Hf Hsame.
  apply post_guard. intros _. simpl. repeat (split; [done |]). exists data, final. repeat (split; [done |]).
  replace (N.to_nat (Z.to_N (i_size (st_info before)))) with (String.length data) by (unfold slen in *; lia).
  by rewrite substring_all, insert_insert_eq, chmod_insert.
Qed.

(** An entry that was counted and is placed now. *)
Lemma counted_insert pr path p :
  counted l pr -> pr_placed pr !! path = None ->
  (u32 (pr_entries pr + 1) <= MaxFiles l)%N -> (slen (pl_data p) <= MaxBytes l)%N ->
  (pr_bytes pr <= MaxBytes l - slen (pl_data p))%N ->
  counted l (mkProgress (u32 (pr_entries pr + 1)) (u64 (pr_bytes pr + slen (pl_data p))) (<[path := p]> (pr_placed pr))).
Proof.
  intros [He Hb Hf Ht] Hnew Hcount Hfit Hroom. destruct Hsmall as [Hs1 Hs2].
  assert (u32 (pr_entries pr + 1) = pr_entries pr + 1)%N as Hu by (apply u32_id; lia).
  assert (u64 (pr_bytes pr + slen (pl_data p)) = pr_bytes pr + slen (pl_data p))%N as Hv by (apply u64_id; lia).
  rewrite Hu, Hv in *. split; cbn [pr_entries pr_bytes pr_placed]; [| | done | lia].
  - rewrite map_size_insert_None by done. lia.
  - rewrite placed_bytes_insert by done. lia.
Qed.

Lemma counted_chmod pr path mode :
  counted l pr -> counted l (mkProgress (pr_entries pr) (pr_bytes pr) (chmod path mode (pr_placed pr))).
Proof. intros [He Hb Hf Ht]. split; simpl; [by rewrite chmod_size | by rewrite placed_bytes_chmod | done | done]. Qed.

Lemma copy_file_post name info pr :
  counted l pr -> (u32 (pr_entries pr + 1) <= MaxFiles l)%N ->
  cleanGuestPath name (MaxDepth l) false = Some name -> sr_stat s Entry name = Found info ->
  ordinary_entry device info = true -> is_type TDir info = false ->
  post (extends s device l pr)
    (copy_file s l name info (mkProgress (u32 (pr_entries pr + 1)) (pr_bytes pr) (pr_placed pr))).
Proof.
  intros Hc Hcount Hpath Hentry Hord Hdir. unfold copy_file. cbn [pr_bytes pr_placed pr_entries].
  destruct ((i_size (st_info info) <? 0)%Z || _ || _) eqn:Hguard; [done |].
  apply ordinary_entry_iff in Hord as [Hdev Hkind]. unfold is_type in Hdir. unfold validate_limits in Hvalid. guards.
  destruct Hkind as [| [Hreg Hlink]]; [done |].
  rewrite sub64_exact in * by (destruct Hsmall; lia).
  eapply post_bind; [by apply copySourceFile_post |].
  intros m (Hnew & Hparent & data & final & Hread & Hlen & Hfinal & Hsame & ->). rewrite <- Hlen in *.
  split; cbn [pr_placed].
  - by apply insert_subseteq.
  - intros path p Hp [[<- <-] | [_ ?]]%lookup_insert_Some; [| congruence].
    split; [done | apply (parent_keeps (pr_placed pr)); [by apply keeps_sub, insert_subseteq | done] |].
    exists info. repeat (split; [done |]). by exists final.
  - apply (counted_insert pr name (mkPlaced false data (file_mode info))); simpl; (done || lia).
Qed.

Section Step.
Variable copy_directory : string -> progress -> res ws_error progress.
Variable room : nat.
Hypothesis Hcopy : forall path pr, directory_path l path -> (depth path = room)%nat -> counted l pr ->
  post (extends s device l pr) (copy_directory path pr).

Lemma copy_child_post name info pr :
  counted l pr -> (u32 (pr_entries pr + 1) <= MaxFiles l)%N ->
  cleanGuestPath name (MaxDepth l) false = Some name -> depth name = room -> sr_stat s Entry name = Found info ->
  ordinary_entry device info = true -> is_type TDir info = true ->
  post (extends s device l pr)
    (copy_child s copy_directory name info (mkProgress (u32 (pr_entries pr + 1)) (pr_bytes pr) (pr_placed pr))).
Proof.
  intros Hc Hcount Hpath Hroom Hentry Hord Hdir. unfold copy_child. cbn [pr_bytes pr_placed pr_entries].
  apply post_guard. intros _. apply post_place. intros Hparent Hnew. apply post_examine. intros _ _ _.
  pose proof (counted_insert pr name (mkPlaced true "" 448) Hc Hnew Hcount) as Hc1. cbn [pl_data] in Hc1.
  change (slen "") with 0%N in Hc1.
  rewrite N.add_0_r, N.sub_0_r, (u64_id (pr_bytes pr)) in Hc1 by (destruct Hc, Hsmall; lia).
  eapply post_bind; [apply Hcopy; [right; by apply accepted_is_clean | done | apply Hc1; destruct Hc; lia] |].
  intros pr2 [Hsub Hjust Hc2]. cbn [pr_placed] in Hsub, Hjust.
  apply post_guard. intros _. apply post_examine. intros final Hfinal Hsame. apply post_guard. intros _.
  assert (pr_placed pr2 !! name = Some (mkPlaced true "" 448)) as Hname
    by (eapply lookup_weaken; [| exact Hsub]; apply lookup_insert_eq).
  assert (keeps (pr_placed pr) (chmod name 493 (pr_placed pr2))) as Hkeeps.
  { intros q p Hq. destruct (keeps_chmod name 493 (pr_placed pr2) q p) as (p' & ? & ?); [| by exists p'].
    eapply lookup_weaken; [| exact Hsub]. rewrite lookup_insert_ne; [done | congruence]. }
  split; cbn [pr_placed].
  - apply map_subseteq_spec. intros q p Hq. rewrite chmod_lookup, bool_decide_eq_false_2 by congruence.
    eapply lookup_weaken; [| exact Hsub]. rewrite lookup_insert_ne; [done | congruence].
  - intros q p Hq. rewrite chmod_lookup. destruct (bool_decide (q = name)) eqn:Hqn; guards.
    + subst q. rewrite Hname. intros [= <-]. apply ordinary_entry_iff in Hord as [Hdev _].
      split; [done | by eapply parent_keeps |]. exists info. unfold is_type in Hdir. guards.
      repeat (split; [done |]). by exists final.
    + intros Hp. apply (justified_keeps _ _ _ (pr_placed pr2)); [apply keeps_chmod |].
      apply Hjust; [| done]. by rewrite lookup_insert_ne.
  - by apply counted_chmod.
Qed.

Lemma copy_entry_post path name pr :
  directory_path l path -> file_name name = true -> S (depth path) = room -> counted l pr ->
  post (extends s device l pr) (copy_entry s device l copy_directory path name pr).
Proof.
  intros Hpath Hname Hroom Hc. unfold copy_entry. destruct (bool_decide (name = ".git")); [by apply extends_refl |].
  cbv zeta. rewrite (relative_child l) by done. apply post_guard. intros Hclean. guards.
  apply post_examine. intros info Hentry Hord. apply post_guard. intros Hcount. guards. cbn [pr_entries pr_bytes pr_placed].
  destruct (is_type TDir info) eqn:Hdir; [| by apply copy_file_post].
  apply copy_child_post; try done. rewrite depth_child; [done | done |]. by apply (accepted_is_clean l).
Qed.

Lemma copy_entries_post path names pr :
  directory_path l path -> Forall (fun name => file_name name = true) names -> S (depth path) = room -> counted l pr ->
  post (extends s device l pr) (copy_entries s device l copy_directory path names pr).
Proof.
  intros Hpath Hall Hroom. revert pr. induction Hall as [| name names Hname _ IH]; intros pr Hc; [by apply extends_refl |].
  simpl. eapply post_bind; [by apply copy_entry_post |]. intros pr1 H1.
  pose proof (IH pr1 (ex_counted _ _ _ _ _ H1)) as H2.
  destruct (copy_entries _ _ _ _ _ _ _) as [pr2 |]; [| done]. by eapply extends_trans.
Qed.
End Step.

(** The recursion ends: a path that is accepted is not that deep. *)
Lemma copySourceDirectory_post fuel path pr :
  directory_path l path -> (copy_fuel <= depth path + fuel)%nat -> counted l pr ->
  post (extends s device l pr) (copySourceDirectory s device l fuel path pr).
Proof.
  revert path pr. induction fuel as [| fuel IH]; intros path pr Hpath Hfuel Hc.
  { pose proof (clean_depth l path Hpath). unfold copy_fuel in Hfuel. lia. }
  cbn [copySourceDirectory]. apply post_examine. intros before _ _. apply post_examine. intros _ _ _.
  destruct (sr_list s path) as [names |] eqn:Hlist; [| done]. eapply post_bind.
  - apply (copy_entries_post _ (S (depth path))); try done.
    + intros q pr' Hq Hdepth Hc'. apply IH; [done | lia | done].
    + unfold sort_strings. rewrite merge_sort_Permutation. by apply (Hnames path).
  - intros pr' Hext. by apply post_examine.
Qed.

Lemma counted_start : counted l (mkProgress 0 0 ∅).
Proof. split; simpl; [by rewrite map_size_empty | done | lia | lia]. Qed.
End Soundness.

(** ** A source that stays the same *)

(** The components that names below a path begin with. *)
Definition base (path : string) : list string := if bool_decide (path = ".") then [] else split_slash path.

Definition below (path q : string) : Prop := exists r, split_slash q = base path ++ r.

Lemma base_child path name : file_name name = true -> child path name <> "." -> base (child path name) = base path ++ [name].
Proof. intros Hn Hd. unfold base at 1. rewrite bool_decide_eq_false_2 by done. by rewrite child_split. Qed.

Lemma child_not_root path name : file_name name = true -> child path name <> ".".
Proof.
  intros Hn Heq. pose proof (child_split path name Hn) as Hs. rewrite Heq in Hs. change (split_slash ".") with ["."] in Hs.
  apply (app_inj_tail []) in Hs as [_ <-]. by vm_compute in Hn.
Qed.

Lemma below_child path name q : file_name name = true -> below (child path name) q -> exists r, split_slash q = base path ++ name :: r.
Proof.
  intros Hn [r Hr]. exists r. rewrite Hr, base_child by (done || by apply child_not_root). by rewrite <- app_assoc.
Qed.

Lemma children_apart path a b q :
  file_name a = true -> file_name b = true -> below (child path a) q -> below (child path b) q -> a = b.
Proof.
  intros Ha Hb [r Hr]%below_child [r' Hr']%below_child; try done. rewrite Hr in Hr'.
  by apply app_inv_head in Hr' as [= ->].
Qed.

Lemma path_Dir_child path name :
  path = "." \/ Forall (fun p => ordinary p = true) (split_slash path) -> file_name name = true ->
  path_Dir (child path name) = path.
Proof.
  intros Hp Hn. pose proof (child_split path name Hn) as Hs. unfold file_name in Hn. guards.
  rewrite <- (join_split (child path name)), Hs. destruct (bool_decide (path = ".")) eqn:Hd; guards; subst.
  - cbn [app join_with]. unfold path_Dir. rewrite split_single by done. by vm_compute.
  - destruct Hp as [| Ho]; [done |]. rewrite path_Dir_ordinary.
    + apply join_split.
    + apply split_slash_nonempty.
    + apply list.Forall_app. split; [apply split_components | by repeat constructor].
    + apply list.Forall_app. split; [done | by repeat constructor].
Qed.

Section Image.
Variable s : source.

Lemma describes_answers path n : describes s path n -> answers s path n.
Proof. by intros []. Qed.

Lemma describes_child path st ch name c :
  describes s path (SDirectory st ch) -> (name, c) ∈ ch -> describes s (child path name) c.
Proof. intros Hd Hin. inversion Hd as [? ? _ H]; subst. by eapply H. Qed.

Lemma describes_names path st ch :
  describes s path (SDirectory st ch) -> NoDup (map fst ch) /\ Forall (fun c => file_name c.1 = true) ch.
Proof. intros (_ & _ & _ & H1 & H2 & _)%describes_answers. done. Qed.

Lemma contents_from path ch q p :
  contents path ch !! q = Some p -> exists c, c ∈ ch /\ c.1 <> ".git" /\ image (child path c.1) c.2 !! q = Some p.
Proof.
  induction ch as [| c ch IH]; cbn; [done |]. intros [H | [_ H]]%lookup_union_Some_raw.
  - destruct (bool_decide (c.1 = ".git")) eqn:Hg; [done |]. guards. exists c. split; [apply list_elem_of_here | done].
  - destruct (IH H) as (c' & Hin & Hrest). exists c'. split; [by apply list_elem_of_further | done].
Qed.

Lemma image_below n : forall path q p, describes s path n -> path <> "." -> image path n !! q = Some p -> below path q.
Proof.
  assert (forall path, path <> "." -> below path path) as Hself.
  { intros path Hp. exists []. unfold base. rewrite bool_decide_eq_false_2 by done. by rewrite app_nil_r. }
  induction n as [st data | st ch IH | st] using snode_nested; intros path q p Hd Hp Hi; simpl in Hi.
  - apply lookup_singleton_Some in Hi as [<- _]. by apply Hself.
  - apply lookup_union_Some_raw in Hi as [Hi | [_ Hi]].
    { apply lookup_singleton_Some in Hi as [<- _]. by apply Hself. }
    apply contents_from in Hi as ([name c] & Hin & _ & Hi). cbn [fst snd] in Hi.
    destruct (describes_names _ _ _ Hd) as [_ Hf]. rewrite list.Forall_forall in IH, Hf. pose proof (Hf _ Hin) as Hn. simpl in Hn.
    apply (IH _ Hin) in Hi; [| by eapply describes_child | by apply child_not_root].
    apply below_child in Hi as [r Hr]; [| done]. by eexists.
  - by rewrite lookup_empty in Hi.
Qed.

(** A directory whose children are described. *)
Definition children_described (path : string) (ch : list (string * snode)) : Prop :=
  NoDup (map fst ch) /\ Forall (fun c => file_name c.1 = true /\ describes s (child path c.1) c.2) ch.

Lemma describes_children path st ch : describes s path (SDirectory st ch) -> children_described path ch.
Proof.
  intros Hd. destruct (describes_names _ _ _ Hd) as [Hnd Hf]. split; [done |]. rewrite list.Forall_forall in *.
  intros [name c] Hin. split; [by apply Hf | by eapply describes_child].
Qed.

Lemma contents_lookup path ch q p :
  children_described path ch ->
  contents path ch !! q = Some p <-> exists c, c ∈ ch /\ c.1 <> ".git" /\ image (child path c.1) c.2 !! q = Some p.
Proof.
  intros [Hnd Hall]. split; [apply contents_from |]. induction ch as [| c ch IH]; [by intros (? & ?%elem_of_nil & _) |].
  cbn [map] in Hnd. apply list.NoDup_cons in Hnd as [Hnot Hnd]. inversion Hall as [| ? ? [Hf Hd] Hall']; subst.
  intros (c' & Hin & Hg & Hi). cbn. apply lookup_union_Some_raw. apply elem_of_cons in Hin as [-> | Hin].
  - left. by rewrite bool_decide_eq_false_2.
  - right. split; [| apply IH; [done | done | by exists c']].
    destruct (bool_decide (c.1 = ".git")); [apply lookup_empty |]. apply eq_None_not_Some. intros [p' Hp'].
    rewrite list.Forall_forall in Hall'. destruct (Hall' _ Hin) as [Hf' Hd'].
    apply image_below in Hi; [| done | by apply child_not_root].
    apply image_below in Hp'; [| done | by apply child_not_root].
    apply Hnot. rewrite (children_apart path c.1 c'.1 q) by done. apply list_elem_of_fmap. by exists c'.
Qed.

Lemma contents_perm path ch ch' : children_described path ch -> ch ≡ₚ ch' -> contents path ch = contents path ch'.
Proof.
  intros Hch Hperm. assert (children_described path ch') as Hch'.
  { destruct Hch as [Hnd Hall]. by rewrite Hperm in Hnd, Hall. }
  apply map_eq. intros q. apply option_eq. intros p. rewrite !contents_lookup by done. by setoid_rewrite Hperm.
Qed.

Lemma path_not_in_contents path st ch : describes s path (SDirectory st ch) -> path <> "." -> contents path ch !! path = None.
Proof.
  intros Hd Hp. apply eq_None_not_Some. intros [p Hi]. apply contents_from in Hi as ([name c] & Hin & _ & Hi).
  destruct (describes_names _ _ _ Hd) as [_ Hf]. rewrite list.Forall_forall in Hf. pose proof (Hf _ Hin) as Hn. simpl in Hn, Hi.
  apply image_below in Hi; [| by eapply describes_child | by apply child_not_root].
  apply below_child in Hi as [r Hr]; [| done]. unfold base in Hr. rewrite bool_decide_eq_false_2 in Hr by done.
  apply (f_equal length) in Hr. rewrite length_app in Hr. simpl in Hr. lia.
Qed.
End Image.

(** What still fits into a workspace. *)
Definition fits (l : WLimits) (m : gmap string placed) : Prop :=
  (N.of_nat (size m) <= MaxFiles l)%N /\ (placed_bytes m <= MaxBytes l)%N.

Lemma placed_bytes_sub m m' : m ⊆ m' -> (placed_bytes m <= placed_bytes m')%N.
Proof.
  revert m'. induction m as [| k p m Hk IH] using map_ind; intros m' Hsub.
  { unfold placed_bytes at 1. rewrite map_sum_empty. lia. }
  assert (m' !! k = Some p) as Hk' by (eapply lookup_weaken; [apply lookup_insert_eq | done]).
  rewrite placed_bytes_insert by done. unfold placed_bytes at 2. rewrite (map_sum_delete _ m' k p Hk').
  assert (m ⊆ delete k m') as Hm; [| specialize (IH _ Hm); unfold placed_bytes in *; lia].
  rewrite <- (delete_insert_id m k p Hk). by apply delete_mono.
Qed.

Lemma fits_sub l m m' : m ⊆ m' -> fits l m' -> fits l m.
Proof.
  intros Hsub [H1 H2]. pose proof (placed_bytes_sub _ _ Hsub). pose proof (map_subseteq_size _ _ Hsub). split; lia.
Qed.

Lemma fits_chmod l path mode m : fits l (chmod path mode m) <-> fits l m.
Proof. unfold fits. by rewrite chmod_size, placed_bytes_chmod. Qed.

Section Still.
Variable s : source.
Variable device : N.
Variable l : WLimits.
Hypothesis Hvalid : validate_limits l = true.
Hypothesis Hsmall : limits_small l.

(** The result of a part of the copy that is to add [img]: it succeeds exactly
    if the source is acceptable and there is room. *)
Definition exact (ok : bool) (img : gmap string placed) (pr : progress) (r : res ws_error progress) : Prop :=
  match r with
  | Ok pr' => ok = true /\ pr_placed pr' = img ∪ pr_placed pr /\ counted l pr'
  | Err e => e = ErrInvalidWorkspace /\ (ok = true -> fits l (img ∪ pr_placed pr) -> False)
  end.

Lemma exact_refused img pr : exact false img pr (Err ErrInvalidWorkspace).
Proof. done. Qed.

Lemma same_object st : same_and_unmodified st st = true.
Proof. unfold same_and_unmodified, sameSourceObject. by rewrite !bool_decide_eq_true_2. Qed.

Lemma examine_still path n m test :
  answers s path n -> test (node_stat n) = true -> examine s m path test = Ok (node_stat n).
Proof. intros (Hst & _) Ht. unfold examine. by rewrite Hst, Ht. Qed.

Lemma call_still path n c : answers s path n -> host_call s c path = Ok tt.
Proof. intros (_ & Hc & _). unfold host_call. by rewrite Hc. Qed.

Lemma place_new name p m : parent_placed name m = true -> m !! name = None -> place name p m = Ok (<[name := p]> m).
Proof. intros Hp Hn. unfold place. rewrite Hp, bool_decide_eq_true_2 by done. done. Qed.

Lemma same_source st : sameSourceObject st st = true.
Proof. pose proof (same_object st) as H. unfold same_and_unmodified in H. by guards. Qed.

Lemma copySourceFile_still name st data m :
  answers s name (SFile st data) -> parent_placed name m = true -> m !! name = None ->
  copySourceFile s name st m = Ok (<[name := mkPlaced false data (file_mode st)]> m).
Proof.
  intros Ha Hp Hn. pose proof Ha as (_ & Hcall & Hreg & Hsize & Hread). unfold copySourceFile.
  rewrite (examine_still name (SFile st data)) by (done || by simpl; rewrite Hreg, same_source). cbn [res_bind].
  assert (exists mode, (if executable st then (448, 493)%N else (384, 420)%N) = (mode, file_mode st)) as [mode ->]
    by (unfold file_mode; destruct (executable st); by eexists).
  rewrite (call_still _ _ _ Ha). cbn [res_bind]. rewrite place_new by done. cbn [res_bind].
  rewrite Hread, Hcall, Hsize, N2Z.id, N.eqb_refl. cbn [andb guard res_bind].
  rewrite !(examine_still name (SFile st data)) by (done || apply same_object). cbn [res_bind].
  rewrite (call_still _ _ _ Ha). cbn [res_bind]. unfold slen. rewrite Nat2N.id, substring_all, insert_insert_eq.
  by rewrite chmod_insert.
Qed.

(** One more entry in the count. *)
Lemma count_one pr m p name :
  counted l pr -> pr_placed pr !! name = None -> <[name := p]> (pr_placed pr) ⊆ m -> fits l m ->
  (u32 (pr_entries pr + 1) <= MaxFiles l)%N.
Proof.
  intros Hc Hn Hsub [Hf _]. apply map_subseteq_size in Hsub. rewrite map_size_insert_None in Hsub by done.
  destruct Hc, Hsmall. rewrite u32_id by lia. lia.
Qed.

Lemma copy_file_exact name st data pr :
  answers s name (SFile st data) -> counted l pr -> (u32 (pr_entries pr + 1) <= MaxFiles l)%N ->
  parent_placed name (pr_placed pr) = true -> pr_placed pr !! name = None ->
  exact (slen data <=? MaxFileBytes l)%N {[name := mkPlaced false data (file_mode st)]} pr
    (copy_file s l name st (mkProgress (u32 (pr_entries pr + 1)) (pr_bytes pr) (pr_placed pr))).
Proof.
  intros Ha Hc Hcount Hp Hn. pose proof Ha as (_ & _ & _ & Hsize & _). unfold copy_file. cbn [pr_entries pr_bytes pr_placed].
  rewrite Hsize, N2Z.id. destruct (Z.ltb_spec (Z.of_N (slen data)) 0) as [Hneg | _]; [lia |]. cbn [orb].
  destruct (N.ltb_spec (MaxFileBytes l) (slen data)) as [Hbig | Hfit].
  { rewrite (proj2 (N.leb_gt _ _)) by done. apply exact_refused. }
  rewrite (proj2 (N.leb_le _ _)) by done. cbn [orb].
  assert (slen data <= MaxBytes l)%N as Hle by (unfold validate_limits in Hvalid; guards; lia).
  rewrite sub64_exact by (destruct Hsmall; done).
  destruct (N.ltb_spec (MaxBytes l - slen data) (pr_bytes pr)) as [Hfull | Hroom].
  - split; [done |]. rewrite <- insert_union_singleton_l. intros _ [_ Hb]. rewrite placed_bytes_insert in Hb by done. simpl in Hb. destruct Hc. lia.
  - rewrite (copySourceFile_still name st data) by done. split; [done |].
    split; [cbn [pr_placed]; by rewrite insert_union_singleton_l |].
    by apply (counted_insert l Hsmall pr name (mkPlaced false data (file_mode st))).
Qed.

(** The directory that is being filled is there. *)
Definition there (path : string) (m : gmap string placed) : Prop :=
  path = "." \/ exists p, m !! path = Some p /\ pl_dir p = true.

Lemma there_sub path m m' : m ⊆ m' -> there path m -> there path m'.
Proof. intros Hsub [-> | (p & Hp & Hd)]; [by left |]. right. exists p. split; [by eapply lookup_weaken | done]. Qed.

Lemma child_parent path name m :
  directory_path l path -> file_name name = true -> there path m -> parent_placed (child path name) m = true.
Proof.
  intros Hp Hn Hm. unfold parent_placed. rewrite path_Dir_child; [| | done].
  - destruct Hm as [-> | (p & -> & ->)]; [done | by rewrite orb_true_r].
  - destruct Hp as [-> | (_ & Ho & _)]; [by left |]. right. by apply clean_components in Ho as [? _].
Qed.

(** What is to be proved of the recursive call on the children of a directory. *)
Definition directory_exact (copy_directory : string -> progress -> res ws_error progress) (path : string)
    (ch : list (string * snode)) : Prop :=
  forall pr, counted l pr -> there path (pr_placed pr) -> contents path ch ##ₘ pr_placed pr ->
    exact (acceptable_children l device path ch) (contents path ch) pr (copy_directory path pr).

Section Step.
Variable copy_directory : string -> progress -> res ws_error progress.

Lemma copy_child_exact name st ch pr :
  describes s name (SDirectory st ch) -> directory_exact copy_directory name ch -> name <> "." ->
  counted l pr -> (u32 (pr_entries pr + 1) <= MaxFiles l)%N ->
  parent_placed name (pr_placed pr) = true -> image name (SDirectory st ch) ##ₘ pr_placed pr ->
  exact (acceptable_children l device name ch) (image name (SDirectory st ch)) pr
    (copy_child s copy_directory name st (mkProgress (u32 (pr_entries pr + 1)) (pr_bytes pr) (pr_placed pr))).
Proof.
  intros Hd IH Hdot Hc Hcount Hp Hdisj. pose proof (describes_answers _ _ _ Hd) as Ha.
  pose proof (path_not_in_contents _ _ _ _ Hd Hdot) as Hself. simpl in Hdisj |- *.
  apply map_disjoint_union_l in Hdisj as [Hn Hdisj]. apply map_disjoint_singleton_l in Hn.
  set (dir := mkPlaced true "" 448).
  assert (chmod name 493 (contents name ch ∪ <[name := dir]> (pr_placed pr))
          = {[name := mkPlaced true "" 493]} ∪ contents name ch ∪ pr_placed pr) as Hchmod.
  { rewrite <- insert_union_r by done. rewrite chmod_insert. simpl.
    by rewrite <- map_union_assoc, <- insert_union_singleton_l. }
  unfold copy_child. rewrite (call_still _ _ _ Ha). cbn [res_bind pr_entries pr_bytes pr_placed].
  rewrite place_new by done. cbn [res_bind]. rewrite (examine_still name (SDirectory st ch)) by (done || apply same_source).
  cbn [res_bind]. fold dir. pose proof (counted_insert l Hsmall pr name dir Hc Hn Hcount) as Hc1.
  cbn [pl_data dir] in Hc1. change (slen "") with 0%N in Hc1. rewrite N.add_0_r, N.sub_0_r, (u64_id (pr_bytes pr)) in Hc1
    by (destruct Hc, Hsmall; lia).
  specialize (IH (mkProgress (u32 (pr_entries pr + 1)) (pr_bytes pr) (<[name := dir]> (pr_placed pr)))).
  cbn [pr_placed] in IH. destruct (copy_directory _ _) as [pr2 | e].
  - destruct IH as (Hok & Hpl & Hc2).
    { apply Hc1; destruct Hc; lia. }
    { right. exists dir. by rewrite lookup_insert_eq. }
    { by apply map_disjoint_insert_r. }
    cbn [res_bind]. rewrite (call_still _ _ _ Ha). cbn [res_bind].
    rewrite (examine_still name (SDirectory st ch)) by (done || apply same_object). cbn [res_bind].
    rewrite (call_still _ _ _ Ha). cbn [res_bind]. split; [done |]. cbn [pr_placed]. rewrite Hpl.
    split; [exact Hchmod |]. rewrite <- Hpl. by apply counted_chmod.
  - destruct IH as (He & Hno).
    { apply Hc1; destruct Hc; lia. }
    { right. exists dir. by rewrite lookup_insert_eq. }
    { by apply map_disjoint_insert_r. }
    split; [done |]. intros Hok Hfits. apply Hno; [done |]. apply (fits_chmod l name 493).
    cbn [pr_placed]. by rewrite Hchmod.
Qed.

Lemma copy_entry_exact path name c pr :
  directory_path l path -> file_name name = true -> describes s (child path name) c ->
  (forall st ch, c = SDirectory st ch -> i_dev (st_info st) = device -> directory_path l (child path name) ->
     directory_exact copy_directory (child path name) ch) ->
  counted l pr -> there path (pr_placed pr) ->
  (if bool_decide (name = ".git") then ∅ else image (child path name) c) ##ₘ pr_placed pr ->
  exact (bool_decide (name = ".git") || acceptable l device (child path name) c)
    (if bool_decide (name = ".git") then ∅ else image (child path name) c) pr
    (copy_entry s device l copy_directory path name pr).
Proof.
  intros Hpath Hname Hd IH Hc Hthere Hdisj. unfold copy_entry.
  destruct (bool_decide (name = ".git")); cbn [orb]. { split; [done |]. split; [by rewrite map_empty_union | done]. }
  cbv zeta. rewrite (relative_child l) by done. pose proof (describes_answers _ _ _ Hd) as Ha.
  pose proof (child_parent path name _ Hpath Hname Hthere) as Hp.
  destruct (bool_decide (cleanGuestPath _ _ _ = _)) eqn:Hclean; cycle 1.
  { destruct c; cbn [acceptable]; unfold accepted_path; rewrite Hclean; apply exact_refused. }
  assert (acceptable l device (child path name) c =
    match c with
    | SFile st data => on_device device st && (i_nlink (st_info st) =? 1)%N && (slen data <=? MaxFileBytes l)%N
    | SDirectory st ch => on_device device st && acceptable_children l device (child path name) ch
    | SOther _ => false
    end) as Hacc by (destruct c; cbn [acceptable]; unfold accepted_path; by rewrite Hclean).
  rewrite Hacc. clear Hacc. cbn [guard res_bind]. guards. pose proof (accepted_is_clean _ _ Hclean) as [Hcl Hdot].
  unfold examine. rewrite (proj1 Ha). destruct (ordinary_entry device (node_stat c)) eqn:Hord; cycle 1.
  { replace (match c with SFile _ _ => _ | SDirectory _ _ => _ | SOther _ => _ end) with false; [apply exact_refused |].
    symmetry. apply not_true_iff_false. intros Ht. apply not_true_iff_false in Hord. apply Hord, ordinary_entry_iff.
    destruct Ha as (_ & _ & Ha). unfold is_type, on_device in *. destruct c; [| | done]; cbn [node_stat]; guards; destruct_and?; guards; auto. }
  apply ordinary_entry_iff in Hord as [Hdev Hkind]. cbn [res_bind pr_entries].
  destruct (N.leb_spec (u32 (pr_entries pr + 1)) (MaxFiles l)) as [Hcount | Hmany].
  - cbn [guard res_bind]. destruct c as [st data | st ch | st]; cbn [node_stat] in *; destruct Ha as (Hst & Hcall & Ha).
    + destruct Ha as (Hreg & Ha). unfold is_type in Hreg. guards. unfold is_type. rewrite bool_decide_eq_false_2 by congruence.
      unfold on_device. rewrite (proj2 (N.eqb_eq _ _) Hdev). destruct Hkind as [| [_ ->]]; [congruence |]. rewrite N.eqb_refl.
      cbn [andb]. cbn [image] in Hdisj |- *. apply map_disjoint_singleton_l in Hdisj. apply copy_file_exact; try done.
      split; [done |]. split; [done |]. split; [by apply bool_decide_eq_true | done].
    + destruct Ha as (Hdir & Ha). rewrite Hdir. unfold on_device. rewrite (proj2 (N.eqb_eq _ _) Hdev). cbn [andb].
      apply copy_child_exact; try done. apply (IH st); [done | done | by right].
    + destruct Ha as (Hr1 & Hr2). unfold is_type in *. guards. by destruct Hkind as [| []].
  - cbn [guard res_bind]. split; [done |]. intros Hok Hfits. apply N.lt_nge in Hmany. apply Hmany.
    destruct c as [st data | st ch | st]; [| | done]; cbn [image] in *.
    + apply map_disjoint_singleton_l in Hdisj.
      apply (count_one pr _ (mkPlaced false data (file_mode st)) (child path name) Hc Hdisj) in Hfits; [done |].
      by rewrite <- insert_union_singleton_l.
    + apply map_disjoint_union_l in Hdisj as [Hn Hdisj]. apply map_disjoint_singleton_l in Hn.
      apply (count_one pr _ (mkPlaced true "" 493) (child path name) Hc Hn) in Hfits; [done |].
      rewrite <- map_union_assoc, <- insert_union_singleton_l. apply insert_mono. by apply map_union_subseteq_r.
Qed.

Lemma copy_entries_exact path ch : forall pr,
  directory_path l path -> children_described s path ch ->
  Forall (fun c => forall st ch', c.2 = SDirectory st ch' -> i_dev (st_info st) = device ->
            directory_path l (child path c.1) ->
            directory_exact copy_directory (child path c.1) ch') ch ->
  counted l pr -> there path (pr_placed pr) -> contents path ch ##ₘ pr_placed pr ->
  exact (acceptable_children l device path ch) (contents path ch) pr
    (copy_entries s device l copy_directory path (map fst ch) pr).
Proof.
  induction ch as [| [name c] ch IH]; intros pr Hpath Hch Hrec Hc Hthere Hdisj.
  { split; [done |]. split; [| done]. change (contents path []) with (∅ : gmap string placed). by rewrite map_empty_union. }
  pose proof Hch as [Hnd Hall]. cbn [map fst] in Hnd. apply list.NoDup_cons in Hnd as [Hnot Hnd].
  inversion Hall as [| ? ? [Hf Hd] Hall']; inversion Hrec as [| ? ? Hr Hrec']; subst. cbn [fst snd] in *.
  cbn [map fst copy_entries].
  set (img := if bool_decide (name = ".git") then ∅ else image (child path name) c).
  change (contents path ((name, c) :: ch)) with (img ∪ contents path ch) in Hdisj |- *.
  assert (img ##ₘ contents path ch) as Happ.
  { apply map_disjoint_spec. intros q p1 p2 H1 H2. unfold img in H1. destruct (bool_decide (name = ".git")); [done |].
    apply contents_from in H2 as ([b cb] & Hin & _ & H2). rewrite list.Forall_forall in Hall'. destruct (Hall' _ Hin) as [Hfb Hdb].
    apply (image_below s) in H1; [| done | by apply child_not_root]. cbn [fst snd] in *.
    apply (image_below s) in H2; [| done | by apply child_not_root].
    apply Hnot. rewrite (children_apart path name b q) by done. apply list_elem_of_fmap. by exists (b, cb). }
  apply map_disjoint_union_l in Hdisj as [Hd1 Hd2].
  pose proof (copy_entry_exact path name c pr Hpath Hf Hd Hr Hc Hthere Hd1) as H1. fold img in H1.
  change (acceptable_children l device path ((name, c) :: ch))
    with ((bool_decide (name = ".git") || acceptable l device (child path name) c) && acceptable_children l device path ch).
  destruct (copy_entry _ _ _ _ _ _ _) as [pr1 | e]; cbn [res_bind].
  - destruct H1 as (Hok & Hpl & Hc1). rewrite Hok. cbn [andb].
    assert (contents path ch ∪ (img ∪ pr_placed pr) = img ∪ contents path ch ∪ pr_placed pr) as Hassoc.
    { by rewrite map_union_assoc, (map_union_comm (contents path ch)). }
    pose proof (IH pr1 Hpath (conj Hnd Hall') Hrec' Hc1) as H2. rewrite Hpl in H2.
    specialize (H2 (there_sub _ _ _ (map_union_subseteq_r _ _ Hd1) Hthere)
                  (proj2 (map_disjoint_union_r _ _ _) (conj (map_disjoint_sym _ _ Happ) Hd2))).
    destruct (copy_entries _ _ _ _ _ _ _) as [pr2 | e]; cbn [exact] in *; rewrite Hpl, Hassoc in H2; exact H2.
  - destruct H1 as (He & Hno). split; [done |]. intros [Hok _]%andb_prop Hfits. apply Hno; [done |].
    eapply fits_sub; [| exact Hfits]. rewrite (map_union_comm img (contents path ch)), <- map_union_assoc by done.
    apply map_union_subseteq_r. apply map_disjoint_union_r. split; [by apply map_disjoint_sym | done].
Qed.
End Step.

Lemma acceptable_children_perm path ch ch' :
  ch ≡ₚ ch' -> acceptable_children l device path ch = acceptable_children l device path ch'.
Proof.
  intros Hperm. apply eq_iff_eq_true. unfold acceptable_children. rewrite !forallb_forall.
  by setoid_rewrite <- list_elem_of_In; setoid_rewrite Hperm.
Qed.

(** One directory, given the directories among its children. *)
Lemma directory_step fuel path st ch :
  describes s path (SDirectory st ch) -> i_dev (st_info st) = device -> directory_path l path ->
  Forall (fun c => forall st' ch', c.2 = SDirectory st' ch' -> i_dev (st_info st') = device ->
            directory_path l (child path c.1) ->
            directory_exact (copySourceDirectory s device l fuel) (child path c.1) ch') ch ->
  directory_exact (copySourceDirectory s device l (S fuel)) path ch.
Proof.
  intros Hd Hdev Hpath Hrec pr Hc Hthere Hdisj. pose proof (describes_answers _ _ _ Hd) as Ha.
  pose proof (describes_children _ _ _ _ Hd) as Hch. cbn [copySourceDirectory].
  pose proof Ha as (_ & _ & Hdir & _ & _ & names & Hlist & Hperm).
  assert (on_device device st = true) as Hon by (by apply N.eqb_eq).
  rewrite (examine_still path (SDirectory st ch)) by (done || by cbn [node_stat]; rewrite Hdir, Hon). cbn [res_bind].
  rewrite (examine_still path (SDirectory st ch)) by (done || by cbn [node_stat]; rewrite Hdir, Hon, same_source).
  cbn [res_bind]. rewrite Hlist. cbn [node_stat].
  assert (sort_strings names ≡ₚ map fst ch) as Hsorted by (unfold sort_strings; by rewrite merge_sort_Permutation).
  apply Permutation_map_inv in Hsorted as (chs & -> & Hchs).
  assert (children_described s path chs) as Hchs'.
  { destruct Hch as [Hnd Hall]. split; by rewrite <- Hchs. }
  rewrite (contents_perm s path ch chs Hch Hchs) in Hdisj |- *. rewrite (acceptable_children_perm path ch chs Hchs).
  pose proof (copy_entries_exact (copySourceDirectory s device l fuel) path chs pr Hpath Hchs') as H.
  rewrite <- Hchs in H at 1. specialize (H Hrec Hc Hthere Hdisj).
  destruct (copy_entries _ _ _ _ _ _ _) as [pr' | e]; [| exact H]. cbn [res_bind].
  by rewrite (examine_still path (SDirectory st ch)) by (done || apply same_object).
Qed.

Lemma copySourceDirectory_exact n : forall fuel path st ch,
  n = SDirectory st ch -> describes s path n -> i_dev (st_info st) = device -> directory_path l path ->
  (copy_fuel <= depth path + fuel)%nat -> directory_exact (copySourceDirectory s device l fuel) path ch.
Proof.
  induction n as [stf data | st0 ch0 IH | st0] using snode_nested; intros fuel path st ch Heq Hd Hdev Hpath Hfuel.
  all: simplify_eq.
  destruct fuel as [| fuel]. { pose proof (clean_depth l path Hpath). unfold copy_fuel in Hfuel. lia. }
  apply (directory_step fuel path st ch); try done. destruct (describes_children _ _ _ _ Hd) as [_ Hall].
  rewrite list.Forall_forall in *. intros [name c] Hin st' ch' Heq Hdev' Hpath'. destruct (Hall _ Hin) as [Hf Hdc].
  cbn [fst snd] in *. apply (IH _ Hin fuel (child path name) st'); try done.
  rewrite depth_child; [lia | done | by apply child_not_root].
Qed.
End Still.

(** ** What is at a path of the copy *)

Section Tree.
Variable s : source.

Lemma child_unique (ch : list (string * snode)) name c c' :
  NoDup (map fst ch) -> (name, c) ∈ ch -> (name, c') ∈ ch -> c = c'.
Proof.
  intros Hnd H1 H2. pose proof (elem_of_list_to_map_1 (M := gmap string) ch name c Hnd H1).
  pose proof (elem_of_list_to_map_1 (M := gmap string) ch name c' Hnd H2). congruence.
Qed.

(** Below a child there is only what the child places. *)
Lemma contents_child path ch name c q r :
  children_described s path ch -> (name, c) ∈ ch -> name <> ".git" -> split_slash q = base path ++ name :: r ->
  contents path ch !! q = image (child path name) c !! q.
Proof.
  intros Hch Hin Hg Hq. apply option_eq. intros p. rewrite (contents_lookup s) by done. split.
  - intros ([b cb] & Hinb & _ & Hi). cbn [fst snd] in Hi. destruct Hch as [Hnd Hall]. rewrite list.Forall_forall in Hall.
    destruct (Hall _ Hinb) as [Hf Hd]. cbn [fst snd] in Hf, Hd. pose proof Hi as Hbelow.
    apply (image_below s) in Hbelow as [r' Hr']%below_child; [| done | done | by apply child_not_root].
    rewrite Hq in Hr'. apply app_inv_head in Hr' as [= <- _].
    by rewrite (child_unique ch name c cb).
  - intros Hi. by exists (name, c).
Qed.

Lemma image_at path c q r :
  describes s path c -> path <> "." -> split_slash q = split_slash path ++ r ->
  image path c !! q = match r, c with
                      | [], _ => placed_of c
                      | _, SDirectory _ ch => contents path ch !! q
                      | _, _ => None
                      end.
Proof.
  intros Hd Hdot Hq. assert (r = [] <-> q = path) as Hr.
  { split; [intros -> |].
    - rewrite app_nil_r in Hq. by rewrite <- (join_split q), Hq, join_split.
    - intros ->. apply (f_equal length) in Hq. rewrite length_app in Hq. destruct r; simpl in Hq; [done | lia]. }
  destruct r as [| x r].
  - assert (q = path) as -> by (by apply Hr). destruct c as [st data | st ch | st]; cbn [image placed_of].
    + apply lookup_singleton_eq.
    + rewrite <- insert_union_singleton_l. apply lookup_insert_eq.
    + apply lookup_empty.
  - assert (path <> q) as Hne by (intros Heq; symmetry in Heq; by apply Hr in Heq).
    destruct c as [st data | st ch | st]; cbn [image].
    + by apply lookup_singleton_ne.
    + rewrite <- insert_union_singleton_l. by apply lookup_insert_ne.
    + apply lookup_empty.
Qed.

Lemma contents_at parts : forall path ch q,
  children_described s path ch -> split_slash q = base path ++ parts -> parts <> [] ->
  contents path ch !! q =
    if bool_decide (".git" ∈ parts) then None else find_node ch parts ≫= placed_of.
Proof.
  induction parts as [| p rest IH]; intros path ch q Hch Hq Hne; [done |].
  pose proof Hch as [Hnd Hall]. rewrite list.Forall_forall in Hall.
  assert (forall c, (p, c) ∈ ch -> p <> ".git" -> contents path ch !! q = image (child path p) c !! q) as Hchild.
  { intros c Hin Hg. by apply (contents_child path ch p c q rest). }
  assert ((p = ".git" \/ forall c, (p, c) ∉ ch) -> contents path ch !! q = None) as Hnone.
  { intros Hor. apply eq_None_not_Some. intros [pl ([b cb] & Hin & Hg & Hi)%contents_from]. cbn [fst snd] in Hg, Hi.
    destruct (Hall _ Hin) as [Hf Hd]. cbn [fst snd] in Hf, Hd.
    apply (image_below s) in Hi as [r' Hr']%below_child; [| done | done | by apply child_not_root].
    rewrite Hq in Hr'. apply app_inv_head in Hr' as [= -> _]. destruct Hor as [| Hor]; [done | by apply (Hor cb)]. }
  destruct (decide (p = ".git")) as [-> | Hg].
  { rewrite bool_decide_eq_true_2 by apply list_elem_of_here. apply Hnone. by left. }
  cbn [find_node]. destruct ((list_to_map ch : gmap string snode) !! p) as [c |] eqn:Hc; cycle 1.
  { rewrite Hnone; [by destruct (bool_decide (".git" ∈ p :: rest)) |]. right. intros c Hin.
    rewrite (elem_of_list_to_map_1 ch p c Hnd Hin) in Hc. done. }
  apply elem_of_list_to_map_2 in Hc. destruct (Hall _ Hc) as [Hf Hd]. cbn [fst snd] in Hf, Hd.
  rewrite (Hchild c) by done. assert (split_slash q = base (child path p) ++ rest) as Hq'.
  { rewrite base_child by (done || by apply child_not_root). by rewrite <- app_assoc. }
  rewrite (image_at (child path p) c q rest); [| done | by apply child_not_root |].
  2:{ rewrite Hq'. unfold base. by rewrite bool_decide_eq_false_2 by (by apply child_not_root). }
  destruct rest as [| x rest].
  - rewrite bool_decide_eq_false_2; [done |]. intros [? | ?%elem_of_nil]%elem_of_cons; [congruence | done].
  - destruct c as [st data | st ch' | st].
    + by destruct (bool_decide (".git" ∈ p :: x :: rest)).
    + rewrite (IH (child path p) ch' q); [| by eapply describes_children | done | done].
      rewrite (bool_decide_ext (".git" ∈ x :: rest) (".git" ∈ p :: x :: rest)); [done |].
      rewrite (elem_of_cons (x :: rest) ".git" p). split; [by right |]. intros [? | ?]; [congruence | done].
    + by destruct (bool_decide (".git" ∈ p :: x :: rest)).
Qed.
End Tree.

(** ** A source to try them on *)

Definition tree_source (nodes : gmap string snode) : source :=
  mkSource
    (fun _ path => match nodes !! path with Some n => Found (node_stat n) | None => NotExist end)
    (fun path => match nodes !! path with Some (SDirectory _ ch) => Some (map fst ch) | _ => None end)
    (fun path => match nodes !! path with Some (SFile _ data) => Some data | _ => None end)
    (fun _ _ => true).

Definition demo_stat (kind : file_type) (perm ino : N) (size : Z) : Stat := mkStat (mkInfo kind perm 7 ino 1 size) 1000.
Definition demo_file : snode := SFile (demo_stat TRegular 420 3 5) "hello".
Definition demo_script : snode := SFile (demo_stat TRegular 493 4 8) "print(1)".
Definition demo_pkg : snode := SDirectory (demo_stat TDir 448 2 0) [("data.txt", demo_file)].
Definition demo_link : snode := SOther (demo_stat TSymlink 511 6 4).
Definition demo_git : snode := SDirectory (demo_stat TDir 448 5 0) [("HEAD", demo_link)].
Definition demo_children : list (string * snode) := [("pkg", demo_pkg); (".git", demo_git); ("main.py", demo_script)].
Definition demo_root : Stat := demo_stat TDir 448 1 0.
Definition demo_source : source :=
  tree_source (list_to_map
    [("/src/project", SDirectory demo_root demo_children); (".", SDirectory demo_root demo_children);
     ("pkg", demo_pkg); ("pkg/data.txt", demo_file); (".git", demo_git); (".git/HEAD", demo_link);
     ("main.py", demo_script)]).
Definition demo_ingress_limits : WLimits := mkWLimits 3 13 8 2.

(** The same, but the script is replaced once it was read. *)
Definition demo_race : source :=
  mkSource
    (fun m path => match m with
                   | FileLinked => if bool_decide (path = "main.py") then Found (demo_stat TRegular 493 9 8)
                                   else sr_stat demo_source m path
                   | _ => sr_stat demo_source m path
                   end)
    (sr_list demo_source) (sr_read demo_source) (sr_call demo_source).

Definition names_ok (n : snode) : bool :=
  match n with SDirectory _ ch => forallb (fun c => file_name c.1) ch | _ => true end.

Lemma tree_lists_names nodes : map_Forall (fun _ n => names_ok n = true) nodes -> lists_names (tree_source nodes).
Proof.
  intros Hok path names. simpl. destruct (nodes !! path) as [[| st ch |] |] eqn:Hn; try done. intros [= <-].
  pose proof (Hok _ _ Hn) as H. simpl in H. rewrite forallb_forall in H. apply list.Forall_forall.
  intros name (c & -> & Hin)%list_elem_of_fmap. by apply H, list_elem_of_In.
Qed.

Lemma demo_lists_names : lists_names demo_source.
Proof. apply tree_lists_names. apply (bool_decide_unpack _). vm_compute. reflexivity. Qed.

Lemma demo_described : describes demo_source "." (SDirectory demo_root demo_children).
Proof.
  assert (forall path n, answers demo_source path n -> (forall st ch, n <> SDirectory st ch) -> describes demo_source path n)
    as Hleaf.
  { intros path n Ha Hn. constructor; [done |]. intros st ch ->. by destruct (Hn st ch). }
  assert (forall path st ch, (forall m, sr_stat demo_source m path = Found st) -> is_type TDir st = true ->
    bool_decide (NoDup (map fst ch)) && forallb (fun c => file_name c.1) ch = true -> sr_list demo_source path = Some (map fst ch) ->
    answers demo_source path (SDirectory st ch)) as Hdir.
  { intros path st ch Hst Hd [Hnd Hf]%andb_prop Hl. guards. repeat (split; [done |]). split; [| by exists (map fst ch)].
    rewrite forallb_forall in Hf. apply list.Forall_forall. intros c Hc. by apply Hf, list_elem_of_In. }
  constructor; [apply Hdir; try (intros []); vm_compute; reflexivity |]. intros st ch [= <- <-] name c Hin.
  repeat (apply elem_of_cons in Hin as [[= -> ->] | Hin]); [| | | by apply elem_of_nil in Hin].
  - constructor; [apply Hdir; try (intros []); vm_compute; reflexivity |]. intros st ch [= <- <-] name c Hin.
    repeat (apply elem_of_cons in Hin as [[= -> ->] | Hin]); [| by apply elem_of_nil in Hin].
    apply Hleaf; [| done]. repeat split; try (intros []); vm_compute; reflexivity.
  - constructor; [apply Hdir; try (intros []); vm_compute; reflexivity |]. intros st ch [= <- <-] name c Hin.
    repeat (apply elem_of_cons in Hin as [[= -> ->] | Hin]); [| by apply elem_of_nil in Hin].
    apply Hleaf; [| done]. repeat split; try (intros []); vm_compute; reflexivity.
  - apply Hleaf; [| done]. repeat split; try (intros []); vm_compute; reflexivity.
Qed.

(** ** The properties *)

(** C3.  Nothing but the source.  Whatever other processes do to a directory
    while [CreateFromDirectory] copies it: the copy ends, with an invalid
    workspace as its only error; and if it succeeds, what it placed is within the
    limits on entries and bytes, every path is one that a Guest may name, below a
    directory that was placed, and is there because the Host found an ordinary
    file or directory of that name on the device of the root, not a symbolic link,
    a hard link or a mount; a file is what was read of it, no larger than its
    limit, of the type, size, identity and time it was listed with when it was
    found again under its name after that, and has one of the two canonical modes. *)
Theorem copy_holds_only_the_source s path l root :
  lists_names s -> validate_limits l = true -> limits_small l ->
  match copy_source s path l root with
  | Ok m => (N.of_nat (size m) <= MaxFiles l)%N /\ (placed_bytes m <= MaxBytes l)%N
            /\ (forall name p, m !! name = Some p -> justified s (i_dev (st_info root)) l m name p)
  | Err e => e = ErrInvalidWorkspace
  end.
Proof.
  intros Hnames Hvalid Hsmall. unfold copy_source.
  pose proof (copySourceDirectory_post s (i_dev (st_info root)) l Hnames Hvalid Hsmall copy_fuel "."
    (mkProgress 0 0 ∅) (or_introl eq_refl) (Nat.le_add_l _ _) (counted_start l)) as H.
  destruct (copySourceDirectory _ _ _ _ _ _) as [pr | e]; [| exact H]. cbn [res_bind].
  unfold examine. destruct (sr_stat s RootFinal path) as [final | |]; [| done | done].
  destruct (same_and_unmodified root final); [| done]. destruct H as [_ Hnew [He Hb Hf Ht]].
  cbn [res_bind]. rewrite <- He, <- Hb. repeat (split; [done |]). intros name p. by apply Hnew.
Qed.

Lemma copy_holds_only_the_source_witness :
  match copy_source demo_source "/src/project" demo_ingress_limits demo_root with
  | Ok m => (N.of_nat (size m) <= 3)%N /\ (placed_bytes m <= 13)%N
            /\ (forall name p, m !! name = Some p -> justified demo_source 7 demo_ingress_limits m name p)
  | Err e => e = ErrInvalidWorkspace
  end
  /\ is_ok (copy_source demo_source "/src/project" demo_ingress_limits demo_root) = true
  /\ copy_source demo_race "/src/project" demo_ingress_limits demo_root = Err ErrInvalidWorkspace.
Proof.
  split; [| split; vm_compute; reflexivity].
  exact (copy_holds_only_the_source demo_source "/src/project" demo_ingress_limits demo_root demo_lists_names eq_refl
           (conj eq_refl eq_refl)).
Defined.

(** C21.  What stays the same is copied as it is.  A source directory that holds
    still, given as a tree, is copied exactly when everything in it outside of
    [.git] is a file or directory on the device of the root with a path that a
    Guest may name, files without further links and within their limit, and all of
    them together fit the limits on entries and bytes; otherwise the workspace is
    invalid.  The copy has at every path what the tree has there, files with their
    data and the mode that keeps whether they can be executed, and nothing else. *)
Theorem still_source_is_copied s path l st ch :
  has_prefix "/" path = true -> path_Clean path = path ->
  validate_limits l = true -> limits_small l ->
  (forall m, sr_stat s m path = Found st) -> describes s "." (SDirectory st ch) ->
  let m := contents "." ch in
  let ok := acceptable_children l (i_dev (st_info st)) "." ch
            && (N.of_nat (size m) <=? MaxFiles l)%N && (placed_bytes m <=? MaxBytes l)%N in
  source_root s path = Ok st
  /\ copy_source s path l st = (if ok then Ok m else Err ErrInvalidWorkspace)
  /\ (forall name, m !! name =
        if bool_decide (".git" ∈ split_slash name) then None else find_node ch (split_slash name) ≫= placed_of).
Proof.
  intros Habs Hclean Hvalid Hsmall Hroot Hd m ok. pose proof (describes_answers _ _ _ Hd) as (_ & _ & Hdir & _).
  repeat split.
  - unfold source_root, examine. rewrite Habs, (bool_decide_eq_false_2 (path = "")), bool_decide_eq_true_2 by (done || by intros ->). cbn [negb andb guard res_bind].
    rewrite !Hroot, Hdir. cbn [res_bind]. by rewrite same_source.
  - unfold copy_source.
    pose proof (copySourceDirectory_exact s (i_dev (st_info st)) l Hvalid Hsmall (SDirectory st ch) copy_fuel "." st ch
      eq_refl Hd eq_refl (or_introl eq_refl) (Nat.le_add_l _ _) (mkProgress 0 0 ∅) (counted_start l)
      (or_introl eq_refl) (map_disjoint_empty_r _)) as H.
    destruct (copySourceDirectory _ _ _ _ _ _) as [pr | e]; cbn [exact res_bind pr_placed] in *.
    + destruct H as (Hok & Hpl & [He Hb Hf Ht]). rewrite map_union_empty in Hpl. fold m in Hpl. rewrite Hpl in *.
      unfold examine. rewrite Hroot, same_object. cbn [res_bind]. unfold ok. rewrite Hok, <- He, <- Hb.
      by rewrite !(proj2 (N.leb_le _ _)).
    + destruct H as [-> Hno]. rewrite map_union_empty in Hno. fold m in Hno. destruct ok eqn:Hok; [| done].
      unfold ok in Hok. guards. by destruct Hno.
  - intros name. apply (contents_at s); [by eapply describes_children | done | apply split_slash_nonempty].
Qed.

Lemma still_source_is_copied_witness :
  copy_source demo_source "/src/project" demo_ingress_limits demo_root = Ok (contents "." demo_children)
  /\ contents "." demo_children !! "pkg/data.txt" = Some (mkPlaced false "hello" 420)
  /\ contents "." demo_children !! "main.py" = Some (mkPlaced false "print(1)" 493)
  /\ contents "." demo_children !! ".git/HEAD" = None
  /\ copy_source demo_source "/src/project" (mkWLimits 3 12 8 2) demo_root = Err ErrInvalidWorkspace.
Proof.
  assert (forall m, sr_stat demo_source m "/src/project" = Found demo_root) as Hroot by (intros []; vm_compute; reflexivity).
  destruct (still_source_is_copied demo_source "/src/project" demo_ingress_limits demo_root demo_children
    eq_refl eq_refl eq_refl (conj eq_refl eq_refl) Hroot demo_described) as (_ & Hcopy & _).
  split; [rewrite Hcopy; vm_compute; reflexivity |]. repeat split; vm_compute; reflexivity.
Defined.
