(* ===== verification/ConflictProps.v ===== *)
(** * ConflictProps: what the conflict check promises

    On a directory that holds still, the check of a change set reports exactly
    the changes whose baseline the directory no longer is, each with its
    reason. *)

From S2P Require Import Prelude Errors Json Paths RootedFS Sha256 Snapshot SnapshotProps Conflict.

(** ** Ordinary directories *)

Inductive tnode := TFile (data : string) (executable : bool) | TDirectory.

(** [q] is a proper ancestor of [p]. *)
Definition ancestor (q p : string) : Prop :=
  exists d e, d <> [] /\ e <> [] /\ split_slash p = d ++ e /\ q = join_with "/" d.

Definition is_file (n : option tnode) : Prop := exists data executable, n = Some (TFile data executable).

(** A path below a file cannot be examined. *)
Definition blocked (tree : gmap string tnode) (p : string) : Prop := exists q, ancestor q p /\ is_file (tree !! q).

(** The Host's answers for a directory that holds [tree] on one device, made of
    directories and regular files with one link, and that nobody writes to. *)
Record ordinary_target (tree : gmap string tnode) (t : target) (dev : N) : Prop := {
  ot_root : exists root opened final,
    tg_root t = Found root /\ tg_open t = None /\ tg_opened t = Found opened /\ tg_final t = Found final
    /\ i_type (st_info root) = TDir /\ i_dev (st_info root) = dev
    /\ sameSourceObject root opened = true /\ same_and_unmodified root final = true;
  ot_closed : forall p q, is_Some (tree !! p) -> ancestor q p -> tree !! q = Some TDirectory;
  ot_lstat : forall p, ~ blocked tree p ->
    match tree !! p with
    | None => tg_lstat t p = NotExist
    | Some TDirectory => exists s, tg_lstat t p = Found s /\ i_type (st_info s) = TDir /\ i_dev (st_info s) = dev
    | Some (TFile data executable) =>
        exists s after linked, tg_lstat t p = Found s /\ tg_read t p = Some (data, after, linked)
          /\ i_type (st_info s) = TRegular /\ i_nlink (st_info s) = 1%N /\ i_dev (st_info s) = dev
          /\ negb (bool_decide (N.land (i_perm (st_info s)) 73 = 0%N)) = executable
          /\ same_and_unmodified s after = true /\ same_and_unmodified s linked = true
    end
}.

Definition state_at (p data : string) (executable : bool) : FileState :=
  mkState p (slen data) (sha256_hex data) executable.

(** The directory is at [c]'s path what the change set was made from. *)
Definition agrees (tree : gmap string tnode) (c : ExportedChange) : Prop :=
  match ec_Before c with
  | None => tree !! ec_Path c = None /\ ~ blocked tree (ec_Path c)
  | Some b => exists data executable, tree !! ec_Path c = Some (TFile data executable)
                                      /\ b = state_at (ec_Path c) data executable
  end.

(** What a reported conflict says. *)
Definition explains (tree : gmap string tnode) (c : ExportedChange) (k : ConflictKind) : Prop :=
  match k with
  | ConflictAlreadyExists => ec_Before c = None /\ is_Some (tree !! ec_Path c)
  | ConflictMissing => ec_Before c <> None /\ tree !! ec_Path c = None
  | ConflictChanged => exists data executable, tree !! ec_Path c = Some (TFile data executable)
                         /\ ec_Before c <> Some (state_at (ec_Path c) data executable)
  | ConflictUnsupported => blocked tree (ec_Path c) \/ ec_Before c <> None /\ tree !! ec_Path c = Some TDirectory
  end.

(** ** Parents *)

Lemma path_Join_component d c :
  d <> [] -> Forall (fun p => component p = true) (d ++ [c]) -> Forall (fun p => ordinary p = true) (d ++ [c]) ->
  path_Join (join_with "/" d) c = join_with "/" (d ++ [c]).
Proof.
  intros Hd Hc Ho. unfold path_Join. change ("/" +:+ c) with (String slash c).
  assert (join_with "/" d +:+ String slash c = join_with "/" (d ++ [c])) as Hj by (by rewrite join_app).
  rewrite Hj. apply clean_fixed; [| apply split_slash_nonempty |].
  - assert (split_slash (join_with "/" (d ++ [c])) = d ++ [c]) as Hs by (apply split_join; [by destruct d | done]).
    apply (ordinary_name (join_with "/" (d ++ [c]))). by rewrite Hs.
  - rewrite split_join; [done | by destruct d | done].
Qed.

Lemma split_prefix d e p : d <> [] -> split_slash p = d ++ e -> split_slash (join_with "/" d) = d.
Proof.
  intros Hd Hp. apply split_join; [done |]. pose proof (split_components p) as Hc. rewrite Hp in Hc.
  by apply list.Forall_app in Hc as [Hc _].
Qed.

Lemma ancestor_prefix p d e : d <> [] -> e <> [] -> split_slash p = d ++ e -> ancestor (join_with "/" d) p.
Proof. intros Hd He Hp. by exists d, e. Qed.

(** The ancestors of an ancestor. *)
Lemma ancestor_trans q r p : ancestor q r -> ancestor r p -> ancestor q p.
Proof.
  intros (d & e & Hd & He & Hr & ->) (d' & e' & Hd' & He' & Hp & ->).
  rewrite (split_prefix d' e' p) in Hr by done. subst d'. exists d, (e ++ e').
  split_and!; [done | by destruct e | by rewrite Hp, app_assoc | done].
Qed.

Lemma not_blocked_below tree q p : ~ blocked tree p -> ancestor q p -> ~ blocked tree q.
Proof. intros Hp Hq (r & Hr & Hf). apply Hp. exists r. split; [by eapply ancestor_trans | done]. Qed.

(** Two ways to cut a list. *)
Lemma snoc_prefix {A} (l : list A) x f d e :
  (l ++ [x]) ++ f = d ++ e -> (exists e', l = d ++ e') \/ (exists e', d = (l ++ [x]) ++ e').
Proof.
  intros [(k & Hk & _) | (k & Hk & _)]%app_eq_inv; [| by right; exists k].
  destruct k as [| y k _] using rev_ind; [right; exists []; by rewrite app_nil_r in *|].
  rewrite app_assoc in Hk. apply app_inj_tail in Hk as [-> _]. left. by exists k.
Qed.

Section Ordinary.
Context (tree : gmap string tnode) (t : target) (dev : N).
Hypothesis Ht : ordinary_target tree t dev.

(** A path whose ancestors are directories, or are not there. *)
Lemma unblocked p : (forall q, ancestor q p -> ~ is_file (tree !! q)) -> ~ blocked tree p.
Proof. intros Hall (q & Hq & Hf). by apply (Hall q). Qed.

Lemma present_unblocked p : is_Some (tree !! p) -> ~ blocked tree p.
Proof.
  intros Hp (q & Hq & data & ex & Hf). rewrite (ot_closed _ _ _ Ht p q Hp Hq) in Hf. done.
Qed.

(** A path all of whose ancestors are among known directories. *)
Lemma unblocked_below q dn x :
  split_slash q = dn ++ [x] ->
  (forall d e, d <> [] -> dn = d ++ e -> tree !! join_with "/" d = Some TDirectory) -> ~ blocked tree q.
Proof.
  intros Hq Hdone. apply unblocked. intros r (d & e & Hd & He & Hsplit & ->) (data & ex & Hf). rewrite Hq in Hsplit.
  destruct e as [| y e _] using rev_ind; [done |]. rewrite app_assoc in Hsplit. apply app_inj_tail in Hsplit as [Heq _].
  by rewrite (Hdone d e Hd Heq) in Hf.
Qed.

Lemma parents_are_safe_spec p dn rest x :
  split_slash p = dn ++ rest ++ [x] -> Forall (fun c => ordinary c = true) (split_slash p) ->
  (forall d e, d <> [] -> dn = d ++ e -> tree !! join_with "/" d = Some TDirectory) ->
  exists b, parents_are_safe t dev (join_with "/" dn) rest = Ok b /\ if b then ~ blocked tree p else blocked tree p.
Proof.
  revert dn. induction rest as [| c rest IH]; intros dn Hp Ho Hdone.
  { exists true. split; [done |]. by apply (unblocked_below p dn x). }
  cbn [parents_are_safe].
  assert (Forall (fun p => component p = true) (dn ++ [c])) as Hc.
  { pose proof (split_components p) as Hc. rewrite Hp in Hc. simpl in Hc. rewrite cons_middle, app_assoc in Hc.
    by apply list.Forall_app in Hc as [Hc _]. }
  assert (Forall (fun p => ordinary p = true) (dn ++ [c])) as Hoc.
  { rewrite Hp in Ho. simpl in Ho. rewrite cons_middle, app_assoc in Ho. by apply list.Forall_app in Ho as [Ho' _]. }
  assert ((if bool_decide (join_with "/" dn = "") then c else path_Join (join_with "/" dn) c)
          = join_with "/" (dn ++ [c])) as ->.
  { destruct dn as [| d0 dn]; [done |]. rewrite bool_decide_eq_false_2; [by apply path_Join_component |].
    assert (split_slash (join_with "/" (d0 :: dn)) = d0 :: dn) as Hs.
    { apply split_join; [done |]. by apply list.Forall_app in Hc as [Hc' _]. }
    apply (ordinary_name (join_with "/" (d0 :: dn))). rewrite Hs. by apply list.Forall_app in Hoc as [Hoc' _]. }
  set (q := join_with "/" (dn ++ [c])).
  assert (split_slash p = (dn ++ [c]) ++ rest ++ [x]) as Hp' by (rewrite Hp, <- app_assoc; done).
  assert (ancestor q p) as Hq by (apply (ancestor_prefix p _ (rest ++ [x])); [by destruct dn | by destruct rest | done]).
  assert (split_slash q = dn ++ [c]) as Hsq by (apply (split_prefix _ (rest ++ [x]) p); [by destruct dn | done]).
  pose proof (unblocked_below q dn c Hsq Hdone) as Hnb.
  pose proof (ot_lstat _ _ _ Ht q Hnb) as Hl. destruct (tree !! q) as [[data ex |] |] eqn:Htq.
  - destruct Hl as (s & _ & _ & -> & _ & Htype & _). rewrite Htype. simpl. exists false. split; [done |].
    exists q. split; [done |]. by exists data, ex.
  - destruct Hl as (s & -> & Htype & Hdev). rewrite Htype, Hdev, N.eqb_refl. simpl.
    apply IH; [done | done |]. intros d e Hd Heq. destruct e as [| y e _] using rev_ind.
    + rewrite app_nil_r in Heq. by rewrite <- Heq.
    + rewrite app_assoc in Heq. apply app_inj_tail in Heq as [Heq _]. by apply (Hdone d e).
  - rewrite Hl. exists true. split; [done |]. apply unblocked. intros r (d & e & Hd & He & Hsplit & ->) (data & ex & Hf).
    rewrite Hp' in Hsplit. destruct (snoc_prefix _ _ _ _ _ Hsplit) as [[e' He'] | [e' He']].
    + by rewrite (Hdone d e' Hd He') in Hf.
    + destruct (decide (e' = [])) as [-> | Hne'].
      * rewrite app_nil_r in He'. subst d. fold q in Hf. congruence.
      * assert (ancestor q (join_with "/" d)) as Hanc.
        { exists (dn ++ [c]), e'. split_and!; [by destruct dn | done | | done].
          rewrite <- He'. apply (split_prefix d e p); [done |]. by rewrite Hp', Hsplit. }
        rewrite (ot_closed _ _ _ Ht (join_with "/" d) q) in Htq; [done | by rewrite Hf | done].
Qed.

Lemma targetParentsAreSafe_spec p :
  Forall (fun c => ordinary c = true) (split_slash p) ->
  exists b, targetParentsAreSafe t dev p = Ok b /\ if b then ~ blocked tree p else blocked tree p.
Proof.
  intros Ho. unfold targetParentsAreSafe. destruct (exists_last (split_slash_nonempty p)) as (d & x & Hp).
  pose proof (split_components p) as Hc. rewrite Hp in Hc, Ho.
  assert (path_Dir p = path_Dir (join_with "/" (d ++ [x]))) as -> by (by rewrite <- Hp, join_split).
  destruct d as [| c d].
  - assert (path_Dir (join_with "/" ([] ++ [x])) = ".") as ->.
    { unfold path_Dir. simpl. inversion Hc; subst. by rewrite split_single. }
    exists true. split; [done |]. apply (unblocked_below p [] x); [done |]. by intros [] e.
  - rewrite path_Dir_ordinary by done. assert (split_slash (join_with "/" (c :: d)) = c :: d) as Hs.
    { apply split_join; [done |]. by apply list.Forall_app in Hc as [Hc' _]. }
    rewrite Hs, bool_decide_eq_false_2.
    + change "" with (join_with "/" []). apply (parents_are_safe_spec p [] (c :: d) x); [done | by rewrite Hp |].
      intros [| y d'] e Hd Heq; [done | by destruct e].
    + intros [= -> ->]. inversion Ho as [| ? ? Hbad]; subst. by vm_compute in Hbad.
Qed.

(** ** The check of a change *)

Lemma checkTargetPath_spec c :
  Forall (fun p => ordinary p = true) (split_slash (ec_Path c)) ->
  (ec_Kind c = ChangeAdded <-> ec_Before c = None) ->
  exists k, checkTargetPath t dev c = Ok k /\ (k = None <-> agrees tree c)
            /\ (forall kind, k = Some kind -> explains tree c kind).
Proof.
  intros Ho Hadded. unfold checkTargetPath. set (p := ec_Path c) in *.
  destruct (targetParentsAreSafe_spec p Ho) as (b & -> & Hb). simpl. destruct b.
  2:{ exists (Some ConflictUnsupported). simpl. split; [done |].
      split; [split; [done |] | intros kind [= <-]; by left]. unfold agrees. fold p.
      destruct (ec_Before c); [| by intros [_ Hno]]. intros (data & ex & Hd & _).
      exfalso. by apply (present_unblocked p); [rewrite Hd |]. }
  pose proof (ot_lstat _ _ _ Ht p Hb) as Hl. simpl. unfold agrees, explains. fold p.
  destruct (tree !! p) as [[data ex |] |] eqn:Htp.
  - destruct Hl as (s & after & linked & -> & Hr & Htype & Hlink & Hdev & Hex & Hsa & Hsl).
    destruct (bool_decide (ec_Kind c = ChangeAdded)) eqn:Ha; guards.
    { apply Hadded in Ha. exists (Some ConflictAlreadyExists). rewrite Ha.
      split_and!; [done | split; [done | by intros [? _]] | intros kind [= <-]; split; [done | by eexists]]. }
    rewrite Htype, Hlink, Hdev, !N.eqb_refl. simpl. unfold readStableTargetFile. rewrite Hr, Hex, Hsa, Hsl. simpl.
    fold (state_at p data ex). destruct (ec_Before c) as [b |]; [| by exfalso; apply Ha, Hadded].
    destruct (bool_decide (Some b = Some (state_at p data ex))) eqn:Hstate; guards.
    + exists None. split_and!; [done | | done]. split; [intros _ | done]. exists data, ex. split; [done | congruence].
    + exists (Some ConflictChanged). split_and!; [done | | intros kind [= <-]; by exists data, ex].
      split; [done |]. intros (data' & ex' & [= <- <-] & ->). done.
  - destruct Hl as (s & -> & Htype & Hdev). destruct (bool_decide (ec_Kind c = ChangeAdded)) eqn:Ha; guards.
    { apply Hadded in Ha. exists (Some ConflictAlreadyExists). rewrite Ha.
      split_and!; [done | split; [done | by intros [? _]] | intros kind [= <-]; split; [done | by eexists]]. }
    rewrite Htype. simpl. exists (Some ConflictUnsupported).
    destruct (ec_Before c) as [b |]; [| by exfalso; apply Ha, Hadded].
    split_and!; [done | split; [done | by intros (? & ? & ? & _)] | intros kind [= <-]; by right].
  - rewrite Hl. destruct (bool_decide (ec_Kind c = ChangeAdded)) eqn:Ha; guards.
    { apply Hadded in Ha. exists None. rewrite Ha. done. }
    exists (Some ConflictMissing). destruct (ec_Before c) as [b |]; [| by exfalso; apply Ha, Hadded].
    split_and!; [done | split; [done | by intros (? & ? & ? & _)] | by intros kind [= <-]].
Qed.

Lemma check_changes_spec changes :
  Forall (fun c => Forall (fun p => ordinary p = true) (split_slash (ec_Path c))
                   /\ (ec_Kind c = ChangeAdded <-> ec_Before c = None)) changes ->
  exists conflicts, check_changes t dev changes = Ok conflicts
    /\ (conflicts = [] <-> Forall (agrees tree) changes)
    /\ (forall f, f ∈ conflicts -> exists c, c ∈ changes /\ cf_Path f = ec_Path c /\ ~ agrees tree c
                                            /\ explains tree c (cf_Kind f))
    /\ (forall c, c ∈ changes -> ~ agrees tree c -> ec_Path c ∈ map cf_Path conflicts).
Proof.
  induction 1 as [| c changes [Ho Hadded] _ IH].
  { exists []. split_and!; [done | done | by intros f Hf%elem_of_nil | by intros c Hc%elem_of_nil]. }
  destruct (checkTargetPath_spec c Ho Hadded) as (k & Hk & Hag & Hex).
  destruct IH as (conflicts & Hcs & Hall & Hsound & Hcomplete). cbn [check_changes]. rewrite Hk, Hcs. simpl.
  eexists. split; [done |]. destruct k as [kind |]; simpl.
  - assert (~ agrees tree c) as Hno by (intros Ha; by apply Hag in Ha). split_and!.
    + split; [done |]. intros Hf. inversion Hf. done.
    + intros f [-> | Hf]%elem_of_cons.
      * exists c. split_and!; [by left | done | done | by apply Hex].
      * destruct (Hsound f Hf) as (c' & Hc' & Hrest). exists c'. split; [by right | done].
    + intros c' [-> | Hc']%elem_of_cons Hn; [by left |]. right. by apply Hcomplete.
  - rewrite Hall, list.Forall_cons. assert (agrees tree c) as Ha by (by apply Hag). split_and!.
    + split; [done | by intros [_ ?]].
    + intros f Hf. destruct (Hsound f Hf) as (c' & Hc' & Hrest). exists c'. split; [by right | done].
    + intros c' [-> | Hc']%elem_of_cons Hn; [done |]. by apply Hcomplete.
Qed.
End Ordinary.

(** ** The property *)

Lemma validate_changes_paths l maxBytes total previous changes out :
  validate_changes l maxBytes total previous changes = Ok out ->
  Forall (fun c => cleanGuestPath (ec_Path c) (MaxDepth l) false = Some (ec_Path c)) changes.
Proof.
  revert total previous. induction changes as [| c changes IH]; intros total previous Hv; [constructor |].
  cbn [validate_changes] in Hv. destruct (next_path _ _ _) eqn:Hn; [| done]. simpl in Hv.
  destruct (validateExportedChange c l); [| done]. simpl in Hv. destruct (negb _); [| done].
  unfold next_path in Hn. guards. constructor; [done |]. exact (IH _ _ Hv).
Qed.

Lemma validated_kind c l :
  validateExportedChange c l = Ok tt -> ec_Kind c = ChangeAdded <-> ec_Before c = None.
Proof.
  unfold validateExportedChange. intros Hv. destruct (bool_decide (ec_Kind c = ChangeAdded)) eqn:Ha; guards.
  { rewrite Ha. destruct (bool_decide (ec_Before c = None)) eqn:Hb; guards; [done |]. discriminate Hv. }
  split; [done |]. intros Hb. exfalso. rewrite Hb in Hv. simpl in Hv.
  destruct (bool_decide _); [done |]. by destruct (bool_decide _).
Qed.

Lemma validated_bundle b l maxBytes :
  Validate b l maxBytes = Ok tt ->
  Forall (fun c => Forall (fun p => ordinary p = true) (split_slash (ec_Path c))
                   /\ (ec_Kind c = ChangeAdded <-> ec_Before c = None)) (cs_Changes b).
Proof.
  intros Hv. pose proof (validated_changes _ _ _ Hv) as Hcs. unfold Validate in Hv.
  destruct (validate_limits l); [| done]. simpl in Hv. destruct (_ && _ && _ && _); [| done]. simpl in Hv.
  destruct (_ <=? _)%N; [| done]. simpl in Hv. destruct (validate_changes _ _ _ _ _) eqn:Hc; [| done].
  apply validate_changes_paths in Hc. rewrite list.Forall_forall in Hcs. rewrite list.Forall_forall in Hc.
  apply list.Forall_forall. intros c Hin. split; [| by eapply validated_kind, Hcs].
  specialize (Hc c Hin). apply accepted_clean_name in Hc as [_ [[_ ?] | (_ & Hp & _)]]; [done |].
  by apply clean_components in Hp as [Ho _].
Qed.

(** C34.  The conflict check is exact.  On a directory of ordinary files that
    nobody writes to meanwhile, the check of a valid change set succeeds; the
    report is clean exactly when the directory is, at every path the change set
    touches, what the change set was made from - the same contents digest, size
    and mode, or nothing; otherwise it lists exactly the paths where it is not,
    each with the reason that applies. *)
Theorem conflict_check_is_exact tree t dev name bundle l :
  ordinary_target tree t dev ->
  has_prefix "/" name = true -> path_Clean name = name ->
  Validate bundle l (MaxBytes l) = Ok tt ->
  exists report, CheckDirectoryConflicts t name bundle l = Ok report
    /\ (cr_Clean report = true <-> Forall (agrees tree) (cs_Changes bundle))
    /\ (forall p, p ∈ map cf_Path (cr_Conflicts report) <->
          exists c, c ∈ cs_Changes bundle /\ ec_Path c = p /\ ~ agrees tree c)
    /\ (forall f, f ∈ cr_Conflicts report ->
          exists c, c ∈ cs_Changes bundle /\ ec_Path c = cf_Path f /\ explains tree c (cf_Kind f)).
Proof.
  intros Ht Habs Hclean Hv. unfold CheckDirectoryConflicts. rewrite Habs, (bool_decide_eq_true_2 (path_Clean name = name)) by done.
  rewrite bool_decide_eq_false_2 by (by intros ->). rewrite Hv. simpl.
  destruct (ot_root _ _ _ Ht) as (root & opened & final & -> & -> & -> & -> & Htype & Hdev & Hopened & Hfinal).
  rewrite Htype, Hopened, Hfinal, Hdev. simpl.
  destruct (check_changes_spec tree t dev Ht _ (validated_bundle _ _ _ Hv)) as (conflicts & -> & Hall & Hsound & Hcomplete).
  simpl. eexists. split; [done |]. simpl. split_and!.
  - rewrite bool_decide_eq_true, length_zero_iff_nil. done.
  - intros p. split.
    + intros (f & -> & Hf)%list_elem_of_fmap. destruct (Hsound f Hf) as (c & Hc & Hp & Hno & _). by exists c.
    + intros (c & Hc & <- & Hno). by apply Hcomplete.
  - intros f Hf. destruct (Hsound f Hf) as (c & Hc & Hp & _ & Hex). by exists c.
Qed.

(** A directory that is what [demo_before] was taken of, apart from [a], which
    was edited, and an unrelated file. *)
Definition demo_tree : gmap string tnode :=
  <["a" := TFile "edited" false]> (<["b" := TDirectory]> (<["b/c" := TFile "two" false]>
    (<["z" := TFile "other" false]> ∅))).

Definition demo_stat (type : file_type) (size : Z) : Stat := mkStat (mkInfo type 384 7 1 1 size) 0.

Definition demo_target : target :=
  let lstat p := match demo_tree !! p with
                 | None => NotExist
                 | Some TDirectory => Found (demo_stat TDir 0)
                 | Some (TFile data _) => Found (demo_stat TRegular (Z.of_N (slen data)))
                 end in
  let root := Found (demo_stat TDir 0) in
  mkTarget root None root root lstat
    (fun p => match demo_tree !! p with
              | Some (TFile data _) =>
                  let s := demo_stat TRegular (Z.of_N (slen data)) in Some (data, s, s)
              | _ => None
              end).

Lemma demo_target_ordinary : ordinary_target demo_tree demo_target 7.
Proof.
  split.
  - exists (demo_stat TDir 0), (demo_stat TDir 0), (demo_stat TDir 0). split_and!; try reflexivity; vm_compute; reflexivity.
  - intros p q Hp (d & e & Hd & He & Hsplit & ->). unfold demo_tree in Hp. rewrite !lookup_insert in Hp.
    assert (forall x, x :: nil = d ++ e -> False) as Hone.
    { intros x. destruct d as [| y [| z d]]; [done | |]; intros [= -> Hde]; by destruct e. }
    assert (["b"; "c"] = d ++ e -> d = ["b"]) as Htwo.
    { destruct d as [| y [| z d]]; [done | by intros [= <- _] |]. intros [= _ _ Hde]. by destruct d, e. }
    destruct (decide ("a" = p)) as [<- |]; [by destruct (Hone "a") |].
    destruct (decide ("b" = p)) as [<- |]; [by destruct (Hone "b") |].
    destruct (decide ("b/c" = p)) as [<- |]; [by rewrite (Htwo Hsplit) |].
    destruct (decide ("z" = p)) as [<- |]; [by destruct (Hone "z") |].
    rewrite lookup_empty in Hp. by destruct Hp.
  - intros p _. change (tg_lstat demo_target p) with
      (match demo_tree !! p with
       | None => NotExist
       | Some TDirectory => Found (demo_stat TDir 0)
       | Some (TFile data _) => Found (demo_stat TRegular (Z.of_N (slen data)))
       end).
    change (tg_read demo_target p) with
      (match demo_tree !! p with
       | Some (TFile data _) => let s := demo_stat TRegular (Z.of_N (slen data)) in Some (data, s, s)
       | _ => None
       end).
    assert (forall data ex, demo_tree !! p = Some (TFile data ex) -> ex = false) as Hex.
    { intros data ex Hp. unfold demo_tree in Hp. rewrite !lookup_insert in Hp.
      destruct (decide ("a" = p)); [by simplify_eq |]. destruct (decide ("b" = p)); [by simplify_eq |].
      destruct (decide ("b/c" = p)); [by simplify_eq |]. destruct (decide ("z" = p)); by simplify_eq. }
    destruct (demo_tree !! p) as [[data ex |] |] eqn:Hp; [| by eexists | done].
    rewrite (Hex _ _ eq_refl). do 3 eexists. split_and!; try reflexivity.
    all: unfold same_and_unmodified, sameSourceObject; by rewrite !bool_decide_eq_true_2.
Qed.

(** The change set that edits [a] and deletes [b/c]. *)
Definition demo_changes : ChangeSet :=
  mkChangeSet ChangeSetSchemaVersion (sn_Revision demo_before) (sn_Revision demo_after) 1
    [mkExported "a" ChangeModified (Some (demo_state "a" "one")) (Some (demo_state "a" "1")) "1";
     mkExported "b/c" ChangeDeleted (Some (demo_state "b/c" "two")) None ""].

(** [a] is reported, [b/c] is not. *)
Lemma conflict_check_is_exact_witness :
  CheckDirectoryConflicts demo_target "/target" demo_changes demo_limits
    = Ok (mkReport false [mkConflict "a" ConflictChanged])
  /\ (forall report, CheckDirectoryConflicts demo_target "/target" demo_changes demo_limits = Ok report ->
        cr_Clean report = true <-> Forall (agrees demo_tree) (cs_Changes demo_changes)).
Proof.
  split; [vm_compute; reflexivity |]. intros report Hr.
  assert (Validate demo_changes demo_limits (MaxBytes demo_limits) = Ok tt) as Hv by (vm_compute; reflexivity).
  destruct (conflict_check_is_exact demo_tree demo_target 7 "/target" demo_changes demo_limits
    demo_target_ordinary eq_refl eq_refl Hv) as (r & Hr' & Hclean & _).
  rewrite Hr in Hr'. injection Hr' as <-. exact Hclean.
Defined.
