(* ===== verification/Manager.v ===== *)
(** * Manager: private workspaces and their leases
    ([runtime/workspace/workspace.go], [CreateFromDirectory] of
    [runtime/workspace/ingress.go])

    The manager's table, its mutex and those of the leases: every section of the
    code that holds one is a function on the [world], and [Release], which takes
    the lease's and then the manager's, is two.  What the Host answers to the
    system calls of one section is a [host]. *)

From stdpp Require Import sorting.
From S2P Require Import Prelude Errors Json Paths RootedFS Sha256 Snapshot Conflict Ingress.

(** ** Data *)

Record InitialFile := mkInitial {
  if_Path : string;
  if_Data : string;
  if_Executable : bool
}.

Record File := mkFile {
  f_Path : string;
  f_Data : string;
  f_Executable : bool
}.

Record entry := mkEntry {
  e_root : string;
  e_limits : WLimits;
  e_owner : string
}.

Record Manager := mkManager {
  m_base : string;
  m_entries : gmap string entry;
  m_closed : bool
}.

(** [l_releasing]: between the two sections of [Release]. *)
Record Lease := mkLease {
  l_ref : string;
  l_owner : string;
  l_root : string;
  l_filesystem : rootedFS;
  l_running : bool;
  l_released : bool;
  l_releasing : bool
}.

(** The manager, the leases it gave out, and the directories below its base. *)
Record world := mkWorld {
  w_manager : Manager;
  w_leases : list Lease;
  w_roots : gset string
}.

(** The answers of the Host: random identities and errors of [Mkdir] by attempt,
    errors of [MkdirAll] and [WriteFile] by file, the scan of a directory with
    its device, errors of [RemoveAll] by directory. *)
Record host := mkHost {
  h_random : nat -> option string;
  h_mkdir : nat -> option string;
  h_mkdirall : string -> option string;
  h_writefile : string -> option string;
  h_scan : string -> WLimits -> option (N * treeUsage);
  h_remove : string -> option string
}.

Definition set_manager (m : Manager) (w : world) : world := mkWorld m (w_leases w) (w_roots w).
Definition set_leases (l : list Lease) (w : world) : world := mkWorld (w_manager w) l (w_roots w).
Definition set_roots (r : gset string) (w : world) : world := mkWorld (w_manager w) (w_leases w) r.
Definition set_entries (e : gmap string entry) (m : Manager) : Manager := mkManager (m_base m) e (m_closed m).
Definition with_owner (owner : string) (e : entry) : entry := mkEntry (e_root e) (e_limits e) owner.

(** [NewManager], given what [Lstat] says of the base: its type and its
    permissions. *)
Definition NewManager (base : string) (info : option (file_type * N)) : res ws_error Manager :=
  if bool_decide (base = "") || negb (has_prefix "/" base) || negb (bool_decide (path_Clean base = base))
  then Err ErrInvalidWorkspace
  else match info with
  | None => Err (EHost "open workspace manager base")
  | Some (kind, perm) =>
      if negb (bool_decide (kind = TDir)) || negb (perm =? 448)%N then Err ErrInvalidWorkspace
      else Ok (mkManager base ∅ false)
  end.

(** ** Initial files *)

(** The loop over the parents of a path; [fuel] covers its components. *)
Fixpoint file_as_parent (seen : gset string) (fuel : nat) (parent : string) : bool :=
  match fuel with
  | O => false
  | S fuel =>
      if bool_decide (parent = ".") then false
      else bool_decide (parent ∈ seen) || file_as_parent seen fuel (path_Dir parent)
  end.

Fixpoint check_initial (l : WLimits) (seen : gset string) (files : list InitialFile) : res ws_error unit :=
  match files with
  | [] => Ok tt
  | f :: rest =>
      let name := if_Path f in
      let* _ := guard (bool_decide (cleanGuestPath name (MaxDepth l) false = Some name)) ErrInvalidWorkspace in
      let* _ := guard (negb (bool_decide (name ∈ seen))) ErrInvalidWorkspace in
      let* _ := guard (negb (file_as_parent seen (S (count_slash name)) (path_Dir name))) ErrInvalidWorkspace in
      let* _ := guard (slen (if_Data f) <=? MaxFileBytes l)%N ErrInvalidWorkspace in
      check_initial l ({[name]} ∪ seen) rest
  end.

Definition path_le (a b : InitialFile) : Prop := String.le (if_Path a) (if_Path b).
#[export] Instance path_le_dec a b : Decision (path_le a b).
Proof. unfold path_le. apply _. Defined.

(** [sort.Slice] by path. *)
Definition canonical_files (files : list InitialFile) : list InitialFile := merge_sort path_le files.

(** ** The manager *)

Section Sections.
Variable h : host.

(** [allocateLocked] from its [attempt]-th turn. *)
Fixpoint allocate (turns attempt : nat) (w : world) : res ws_error (string * string * world) :=
  match turns with
  | O => Err (EHost "allocate workspace identity")
  | S turns =>
      match h_random h attempt with
      | None => Err (EHost "rand")
      | Some value =>
          let ref := "ws-" +:+ value in
          let root := path_Join (m_base (w_manager w)) ref in
          if bool_decide (root ∈ w_roots w) then allocate turns (S attempt) w
          else match h_mkdir h attempt with
          | Some e => Err (EHost e)
          | None => Ok (ref, root, set_roots ({[root]} ∪ w_roots w) w)
          end
      end
  end.

Definition allocateLocked (w : world) : res ws_error (string * string * world) := allocate 8 0 w.

(** [os.RemoveAll]: a directory it cannot remove is still there. *)
Definition RemoveAll (root : string) (w : world) : option string * world :=
  match h_remove h root with
  | Some e => (Some e, w)
  | None => (None, set_roots (w_roots w ∖ {[root]}) w)
  end.

Fixpoint materialize (files : list InitialFile) : res ws_error unit :=
  match files with
  | [] => Ok tt
  | f :: rest =>
      match h_mkdirall h (if_Path f) with
      | Some e => Err (EHost ("materialize workspace directories: " +:+ e))
      | None =>
          match h_writefile h (if_Path f) with
          | Some e => Err (EHost ("materialize workspace file: " +:+ e))
          | None => materialize rest
          end
      end
  end.

(** The part of [Create] and [CreateFromDirectory] that holds the mutex: a new
    directory is filled and scanned, and entered in the table or removed. *)
Definition provision (l : WLimits) (fill : res ws_error unit) (w : world) : res ws_error string * world :=
  if m_closed (w_manager w) then (Err ErrWorkspaceClosed, w)
  else match allocateLocked w with
  | Err e => (Err e, w)
  | Ok (ref, root, w) =>
      let filled :=
        let* _ := fill in
        match h_scan h root l with Some _ => Ok tt | None => Err ErrInvalidWorkspace end in
      match filled with
      | Err e => (Err e, snd (RemoveAll root w))
      | Ok _ =>
          let entries := <[ref := mkEntry root l ""]> (m_entries (w_manager w)) in
          (Ok ref, set_manager (set_entries entries (w_manager w)) w)
      end
  end.

Definition Create (files : list InitialFile) (l : WLimits) (w : world) : res ws_error string * world :=
  if negb (validate_limits l) then (Err ErrInvalidWorkspace, w)
  else
    let canonical := canonical_files files in
    match check_initial l ∅ canonical with
    | Err e => (Err e, w)
    | Ok _ => provision l (materialize canonical) w
    end.

(** [s]: what the Host answers of the source while it is examined and copied. *)
Definition CreateFromDirectory (s : source) (path : string) (l : WLimits) (w : world)
  : res ws_error string * world :=
  if negb (validate_limits l) then (Err ErrInvalidWorkspace, w)
  else match source_root s path with
  | Err e => (Err e, w)
  | Ok root => provision l (let* _ := copy_source s path l root in Ok tt) w
  end.

Definition validRef (ref : string) : bool :=
  (slen ref =? 35)%N && has_prefix "ws-" ref && hex_valid (trim_prefix "ws-" ref).

(** The new lease is the last of the world. *)
Definition Acquire (ref owner : string) (w : world) : res ws_error Lease * world :=
  let m := w_manager w in
  if negb (validRef ref) || bool_decide (owner = "") || (128 <? slen owner)%N then (Err ErrInvalidWorkspace, w)
  else if m_closed m then (Err ErrWorkspaceClosed, w)
  else match m_entries m !! ref with
  | None => (Err ErrWorkspaceNotFound, w)
  | Some item =>
      if negb (bool_decide (e_owner item = "")) then (Err ErrWorkspaceBusy, w)
      else match h_scan h (e_root item) (e_limits item) with
      | None => (Err ErrInvalidWorkspace, w)
      | Some (rootDev, usage) =>
          let lease := mkLease ref owner (e_root item) (newRootedFS rootDev (e_limits item) usage) false false false in
          let entries := <[ref := with_owner owner item]> (m_entries m) in
          (Ok lease, set_leases (w_leases w ++ [lease]) (set_manager (set_entries entries m) w))
      end
  end.

Definition Destroy (ref : string) (w : world) : res ws_error unit * world :=
  let m := w_manager w in
  if negb (validRef ref) then (Err ErrInvalidWorkspace, w)
  else if m_closed m then (Err ErrWorkspaceClosed, w)
  else match m_entries m !! ref with
  | None => (Err ErrWorkspaceNotFound, w)
  | Some item =>
      if negb (bool_decide (e_owner item = "")) then (Err ErrWorkspaceBusy, w)
      else match RemoveAll (e_root item) w with
      | (Some e, w) => (Err (EHost e), w)
      | (None, w) => (Ok tt, set_manager (set_entries (delete ref (m_entries m)) m) w)
      end
  end.

(** The loop of [Close] over the entries, in the order of [items]. *)
Fixpoint close_entries (items : list (string * entry)) (result : bool) (w : world) : bool * world :=
  match items with
  | [] => (result, w)
  | (ref, item) :: rest =>
      match RemoveAll (e_root item) w with
      | (Some _, w) => close_entries rest false w
      | (None, w) =>
          let m := w_manager w in
          close_entries rest result (set_manager (set_entries (delete ref (m_entries m)) m) w)
      end
  end.

Definition Close (w : world) : res ws_error unit * world :=
  let m := w_manager w in
  if m_closed m then (Ok tt, w)
  else
    let items := map_to_list (m_entries m) in
    if existsb (fun '(_, item) => negb (bool_decide (e_owner item = ""))) items then (Err ErrWorkspaceBusy, w)
    else
      let (ok, w) := close_entries items true w in
      if ok then (Ok tt, set_manager (mkManager (m_base (w_manager w)) (m_entries (w_manager w)) true) w)
      else (Err (EHost "remove workspaces"), w).
End Sections.

(** ** Leases *)

Definition with_running (running : bool) (l : Lease) : Lease :=
  mkLease (l_ref l) (l_owner l) (l_root l) (l_filesystem l) running (l_released l) (l_releasing l).
Definition with_released (releasing : bool) (l : Lease) : Lease :=
  mkLease (l_ref l) (l_owner l) (l_root l) (l_filesystem l) (l_running l) true releasing.

(** The guard of every operation that needs the workspace to itself. *)
Definition idle (l : Lease) : res ws_error unit :=
  if l_released l then Err ErrWorkspaceClosed else if l_running l then Err ErrWorkspaceBusy else Ok tt.

Definition BeginRun (l : Lease) : res ws_error N * Lease :=
  match idle l with
  | Err e => (Err e, l)
  | Ok _ => (Ok (u_bytes (fs_usage (l_filesystem l))), with_running true l)
  end.

Definition EndRun (l : Lease) : Lease := with_running false l.

(** The first section of [Release]: is the second still to come. *)
Definition release_lease (l : Lease) : res ws_error bool * Lease :=
  if l_released l then (Ok false, l)
  else if l_running l then (Err ErrWorkspaceBusy, l)
  else (Ok true, with_released true l).

(** The second: the manager forgets the owner. *)
Definition release_entry (l : Lease) (m : Manager) : Manager :=
  match m_entries m !! l_ref l with
  | Some item =>
      if bool_decide (e_owner item = l_owner l) then set_entries (<[l_ref l := with_owner "" item]> (m_entries m)) m
      else m
  | None => m
  end.

Section Reading.
(** [root.ReadFile] and the scan of the lease's directory. *)
Variable read : string -> option string.

Definition executable_of (u : treeUsage) (name : string) : bool :=
  match u_entries u !! name with
  | Some mode => negb (bool_decide (N.land (m_perm mode) 73 = 0%N))
  | None => false
  end.

Fixpoint read_files (u : treeUsage) (names : list string) : res ws_error (list File) :=
  match names with
  | [] => Ok []
  | name :: rest =>
      match read name with
      | None => Err (ERead name)
      | Some data =>
          let* files := read_files u rest in Ok (mkFile name data (executable_of u name) :: files)
      end
  end.

Definition Files (scan : option treeUsage) (l : Lease) : res ws_error (list File) :=
  let* _ := idle l in
  match scan with
  | None => Err ErrInvalidWorkspace
  | Some u => read_files u (sort_strings (map fst (map_to_list (u_sizes u))))
  end.

Definition ReadFile (scan : option treeUsage) (name : string) (maxBytes : N) (l : Lease) : res ws_error File :=
  if (maxBytes =? 0)%N then Err ErrInvalidWorkspace
  else
    let* _ := idle l in
    let* _ := guard (bool_decide (cleanGuestPath name (MaxDepth (fs_limits (l_filesystem l))) false = Some name))
                ErrInvalidWorkspace in
    match scan with
    | None => Err ErrInvalidWorkspace
    | Some u =>
        match u_sizes u !! name with
        | None => Err (EHost "file does not exist")
        | Some size =>
            if (maxBytes <? size)%N then Err ErrInvalidWorkspace
            else match read name with
            | None => Err (ERead name)
            | Some data => Ok (mkFile name data (executable_of u name))
            end
        end
    end.

End Reading.

(** [Snapshot] and [ExportChanges] with the guards of the lease. *)
Definition lease_Snapshot (v : views) (scan : option treeUsage) (l : Lease) : res ws_error Snapshot :=
  let* _ := idle l in snapshotLocked v scan.

Definition lease_ExportChanges (v : views) (scan : option treeUsage) (before : Snapshot) (maxBytes : N) (l : Lease)
  : res ws_error ChangeSet :=
  if (maxBytes =? 0)%N then Err ErrInvalidWorkspace
  else let* _ := idle l in ExportChanges v scan (fs_limits (l_filesystem l)) before maxBytes.

(** ** Steps *)

(** A section entered by some goroutine; leases by the order they were given. *)
Inductive section :=
| SCreate (files : list InitialFile) (l : WLimits)
| SCreateFromDirectory (s : source) (path : string) (l : WLimits)
| SAcquire (ref owner : string)
| SDestroy (ref : string)
| SClose
| SBeginRun (i : nat)
| SEndRun (i : nat)
| SRelease (i : nat)
| SReleaseEntry (i : nat).

Definition on_lease (i : nat) (f : Lease -> Lease) (w : world) : world :=
  match w_leases w !! i with
  | Some l => set_leases (<[i := f l]> (w_leases w)) w
  | None => w
  end.

Definition run_section (h : host) (s : section) (w : world) : world :=
  match s with
  | SCreate files l => snd (Create h files l w)
  | SCreateFromDirectory s path l => snd (CreateFromDirectory h s path l w)
  | SAcquire ref owner => snd (Acquire h ref owner w)
  | SDestroy ref => snd (Destroy h ref w)
  | SClose => snd (Close h w)
  | SBeginRun i => on_lease i (fun l => snd (BeginRun l)) w
  | SEndRun i => on_lease i EndRun w
  | SRelease i => on_lease i (fun l => snd (release_lease l)) w
  | SReleaseEntry i =>
      match w_leases w !! i with
      | Some l =>
          if l_releasing l
          then set_leases (<[i := with_released false l]> (w_leases w))
                 (set_manager (release_entry l (w_manager w)) w)
          else w
      | None => w
      end
  end.

(** A fresh manager, and what any sections in any order make of it. *)
Definition fresh_world (base : string) (roots : gset string) : world := mkWorld (mkManager base ∅ false) [] roots.

Definition run_sections (steps : list (host * section)) (w : world) : world :=
  foldl (fun w '(h, s) => run_section h s w) w steps.
