(* ===== verification/ManagerProps.v ===== *)
(** * ManagerProps: what the workspace manager promises

    Whatever order the goroutines enter the sections in and whatever the Host
    answers, a workspace has one lease at a time, a lease one Guest at a time,
    and a workspace that is leased stays where it is. *)

From stdpp Require Import sorting.
From S2P Require Import Prelude Errors Json Paths RootedFS Sha256 Snapshot SnapshotProps Conflict Ingress Manager.

(** ** The invariant *)

(** A lease whose owner the manager has not forgotten. *)
Definition holding (l : Lease) : Prop := l_released l = false \/ l_releasing l = true.

Record lease_ok (m : Manager) (l : Lease) : Prop := {
  lo_running : l_running l = true -> l_released l = false;
  lo_releasing : l_releasing l = true -> l_released l = true;
  lo_entry : holding l -> exists e, m_entries m !! l_ref l = Some e
               /\ e_owner e = l_owner l /\ e_owner e <> "" /\ e_root e = l_root l
}.

Record entry_ok (m : Manager) (roots : gset string) (leases : list Lease) (ref : string) (e : entry) : Prop := {
  eo_root : e_root e = path_Join (m_base m) ref;
  eo_dir : e_root e ∈ roots;
  eo_owner : e_owner e <> "" -> exists i l, leases !! i = Some l /\ holding l /\ l_ref l = ref
}.

Record world_ok (w : world) : Prop := {
  wo_leases : forall i l, w_leases w !! i = Some l -> lease_ok (w_manager w) l;
  wo_unique : forall i j l l', w_leases w !! i = Some l -> w_leases w !! j = Some l' ->
                holding l -> holding l' -> l_ref l = l_ref l' -> i = j;
  wo_entries : forall ref e, m_entries (w_manager w) !! ref = Some e ->
                 entry_ok (w_manager w) (w_roots w) (w_leases w) ref e;
  wo_distinct : forall r r' e e', m_entries (w_manager w) !! r = Some e ->
                  m_entries (w_manager w) !! r' = Some e' -> e_root e = e_root e' -> r = r';
  wo_closed : m_closed (w_manager w) = true -> m_entries (w_manager w) = ∅
}.

Lemma lookup_snoc_Some' {A} (l : list A) x i y :
  (l ++ [x]) !! i = Some y -> l !! i = Some y \/ i = length l /\ x = y.
Proof. rewrite lookup_snoc_Some. intros [[_ H] | [-> ->]]; auto. Qed.

Lemma lookup_snoc_last {A} (l : list A) x : (l ++ [x]) !! length l = Some x.
Proof. rewrite lookup_app_r, Nat.sub_diag by lia. done. Qed.

(** ** Directories *)

(** Directories that no entry names may come and go. *)
Lemma roots_ok w roots :
  world_ok w -> (forall ref e, m_entries (w_manager w) !! ref = Some e -> e_root e ∈ roots) ->
  world_ok (set_roots roots w).
Proof.
  intros [Hl Hu He Hd Hc] Hroots. split; simpl; try done. intros ref e Hre.
  destruct (He ref e Hre). split; [done | by eapply Hroots | done].
Qed.

Lemma allocate_Ok h turns attempt w ref root w' :
  allocate h turns attempt w = Ok (ref, root, w') ->
  root = path_Join (m_base (w_manager w)) ref /\ root ∉ w_roots w /\ w' = set_roots ({[root]} ∪ w_roots w) w.
Proof.
  revert attempt. induction turns as [| turns IH]; intros attempt Ha; [done |]. cbn [allocate] in Ha.
  destruct (h_random h attempt) as [value |]; [| done]. cbv zeta in Ha.
  destruct (bool_decide _) eqn:Hin; [by eapply IH |]. guards.
  destruct (h_mkdir h attempt); [done |]. by simplify_eq.
Qed.

(** Removing a directory that is not the one of an entry. *)
Lemma remove_ok h root w :
  world_ok w -> (forall ref e, m_entries (w_manager w) !! ref = Some e -> e_root e <> root) ->
  world_ok (snd (RemoveAll h root w)).
Proof.
  intros Hok Hne. unfold RemoveAll. destruct (h_remove h root); [done |]. apply roots_ok; [done |].
  intros ref e He. apply elem_of_difference. split.
  - by apply (eo_dir _ _ _ _ _ (wo_entries _ Hok _ _ He)).
  - rewrite elem_of_singleton. by eapply Hne.
Qed.

(** ** The manager's sections *)

(** An entry that no lease holds is forgotten. *)
Lemma delete_entry_ok w ref e :
  world_ok w -> m_entries (w_manager w) !! ref = Some e -> e_owner e = "" ->
  world_ok (set_manager (set_entries (delete ref (m_entries (w_manager w))) (w_manager w)) w).
Proof.
  intros [Hl Hu He Hd Hc] Hre Howner. split; simpl.
  - intros i l Hi. destruct (Hl i l Hi) as [Hr Hrel Hent]. split; [done | done |]. intros Hh.
    destruct (Hent Hh) as (e' & He' & Ho & Hne & Hroot). exists e'. simpl.
    rewrite lookup_delete_ne; [done |]. intros Heq. subst ref. congruence.
  - done.
  - intros ref' e' [_ He']%lookup_delete_Some. destruct (He ref' e' He'). by split.
  - intros r r' e1 e2 [_ H1]%lookup_delete_Some [_ H2]%lookup_delete_Some. by eapply Hd.
  - intros Hcl. rewrite (Hc Hcl) in Hre. by rewrite lookup_empty in Hre.
Qed.

(** Removing the directory of an entry and the entry. *)
Lemma remove_entry_ok h w ref e w' :
  world_ok w -> m_entries (w_manager w) !! ref = Some e -> e_owner e = "" ->
  RemoveAll h (e_root e) w = (None, w') ->
  world_ok (set_manager (set_entries (delete ref (m_entries (w_manager w'))) (w_manager w')) w')
  /\ w_manager w' = w_manager w /\ w_leases w' = w_leases w.
Proof.
  intros Hok He Ho Hr. unfold RemoveAll in Hr. destruct (h_remove h (e_root e)); [done |]. injection Hr as <-.
  split; [| done]. pose proof (delete_entry_ok w ref e Hok He Ho) as Hd.
  apply (roots_ok _ (w_roots w ∖ {[e_root e]}) Hd). simpl.
  intros r e' [Hne He']%lookup_delete_Some. apply elem_of_difference. split.
  - by apply (eo_dir _ _ _ _ _ (wo_entries _ Hok _ _ He')).
  - rewrite elem_of_singleton. intros Heq. apply Hne. by apply (wo_distinct _ Hok ref r e e').
Qed.

(** A new entry, for a directory that was made for it. *)
Lemma insert_entry_ok w ref root l :
  world_ok w -> root = path_Join (m_base (w_manager w)) ref -> root ∉ w_roots w -> m_closed (w_manager w) = false ->
  let w' := set_roots ({[root]} ∪ w_roots w) w in
  world_ok (set_manager (set_entries (<[ref := mkEntry root l ""]> (m_entries (w_manager w'))) (w_manager w')) w').
Proof.
  intros [Hl Hu He Hd Hc] Hroot Hnew Hopen w'.
  assert (m_entries (w_manager w) !! ref = None) as Hfresh.
  { apply eq_None_not_Some. intros [e Hre]. apply Hnew. destruct (He ref e Hre) as [Hr Hin _]. by rewrite Hroot, <- Hr. }
  split; simpl.
  - intros i lease Hi. destruct (Hl i lease Hi) as [Hr Hrel Hent]. split; [done | done |]. intros Hh.
    destruct (Hent Hh) as (e & He' & Hrest). exists e. simpl. rewrite lookup_insert_ne; [done |]. congruence.
  - done.
  - intros r e Hre. rewrite lookup_insert in Hre. destruct (decide (ref = r)) as [<- |].
    + simplify_eq. split; simpl; [done | set_solver | done].
    + destruct (He r e Hre). split; [done | set_solver | done].
  - intros r r' e e' H1 H2 Heq. rewrite lookup_insert in H1, H2.
    destruct (decide (ref = r)) as [<- |], (decide (ref = r')) as [<- |]; simplify_eq/=; try done.
    + exfalso. apply Hnew. rewrite Heq. by apply (eo_dir _ _ _ _ _ (He r' e' H2)).
    + exfalso. apply Hnew. rewrite <- Heq. by apply (eo_dir _ _ _ _ _ (He r e H1)).
    + by eapply Hd.
  - congruence.
Qed.

Lemma provision_ok h l fill w : world_ok w -> world_ok (snd (provision h l fill w)).
Proof.
  intros Hok. unfold provision. destruct (m_closed (w_manager w)) eqn:Hopen; [done |].
  destruct (allocateLocked h w) as [[[ref root] w'] |] eqn:Ha; [| done].
  destruct (allocate_Ok _ _ _ _ _ _ _ Ha) as (Hroot & Hnew & ->).
  destruct (let* _ := fill in _) as [|] eqn:Hfilled.
  - by apply insert_entry_ok.
  - apply remove_ok.
    + apply roots_ok; [done |]. intros r e' He. pose proof (eo_dir _ _ _ _ _ (wo_entries _ Hok _ _ He)). set_solver.
    + intros r e' He Heq. apply Hnew. rewrite <- Heq. by apply (eo_dir _ _ _ _ _ (wo_entries _ Hok _ _ He)).
Qed.

Lemma Create_ok h files l w : world_ok w -> world_ok (snd (Create h files l w)).
Proof.
  intros Hok. unfold Create. destruct (negb _); [done |]. destruct (check_initial _ _ _); [| done].
  by apply provision_ok.
Qed.

Lemma CreateFromDirectory_ok h s path l w : world_ok w -> world_ok (snd (CreateFromDirectory h s path l w)).
Proof.
  intros Hok. unfold CreateFromDirectory. destruct (negb _); [done |]. destruct (source_root s path); [| done].
  by apply provision_ok.
Qed.

Lemma Acquire_ok h ref owner w : world_ok w -> world_ok (snd (Acquire h ref owner w)).
Proof.
  intros Hok. unfold Acquire. destruct (negb (validRef ref) || _ || _) eqn:Hid; [done |].
  apply orb_false_iff in Hid as [[_ Howner]%orb_false_iff _]. apply bool_decide_eq_false in Howner.
  destruct (m_closed (w_manager w)) eqn:Hopen; [done |].
  destruct (m_entries (w_manager w) !! ref) as [item |] eqn:Hitem; [| done].
  destruct (negb (bool_decide (e_owner item = ""))) eqn:Hbusy; [done |]. guards.
  destruct (h_scan h (e_root item) (e_limits item)) as [[dev usage] |]; [| done]. simpl.
  destruct Hok as [Hl Hu He Hd Hc].
  assert (forall i l, w_leases w !! i = Some l -> holding l -> l_ref l <> ref) as Hfree.
  { intros i l Hi Hh <-. destruct (lo_entry _ _ (Hl i l Hi) Hh) as (e & He' & _ & Hne & _). congruence. }
  split; simpl.
  - intros i l [Hi | [-> <-]]%lookup_snoc_Some'.
    + destruct (Hl i l Hi) as [Hr Hrel Hent]. split; [done | done |]. intros Hh.
      destruct (Hent Hh) as (e & He' & Hrest). exists e. simpl.
      rewrite lookup_insert_ne; [done |]. intros Heq. by apply (Hfree i l Hi Hh).
    + split; simpl; [done | done |]. intros _. rewrite lookup_insert_eq. eexists. split_and!; done.
  - intros i j l l' [Hi | [-> <-]]%lookup_snoc_Some' [Hj | [-> <-]]%lookup_snoc_Some' Hh Hh' Heq; try done.
    + by eapply Hu.
    + by destruct (Hfree i l Hi Hh).
    + by destruct (Hfree j l' Hj Hh').
  - intros r e Hre. rewrite lookup_insert in Hre. destruct (decide (ref = r)) as [<- |].
    + simplify_eq. destruct (He _ _ Hitem). split; simpl; [done | done |]. intros _.
      eexists _, _. split; [apply lookup_snoc_last |]. split; [by left | done].
    + destruct (He r e Hre) as [H1 H2 H3]. split; [done | done |]. intros Hne.
      destruct (H3 Hne) as (i & l & Hi & Hrest). exists i, l. split; [| done].
      rewrite lookup_app_l; [done |]. by apply lookup_lt_Some in Hi.
  - intros r r' e e' H1 H2 Heq. rewrite lookup_insert in H1, H2.
    destruct (decide (ref = r)) as [<- |], (decide (ref = r')) as [<- |]; simplify_eq/=; try done; by eapply Hd.
  - congruence.
Qed.

Lemma Destroy_ok h ref w : world_ok w -> world_ok (snd (Destroy h ref w)).
Proof.
  intros Hok. unfold Destroy. destruct (negb _); [done |]. destruct (m_closed _); [done |].
  destruct (m_entries (w_manager w) !! ref) as [item |] eqn:Hitem; [| done].
  destruct (negb (bool_decide (e_owner item = ""))) eqn:Hbusy; [done |]. guards.
  destruct (RemoveAll h (e_root item) w) as [[e |] w'] eqn:Hr.
  - unfold RemoveAll in Hr. destruct (h_remove h (e_root item)); by simplify_eq.
  - destruct (remove_entry_ok _ _ _ _ _ Hok Hitem Hbusy Hr) as (H & Hm & _). simpl. by rewrite Hm in H.
Qed.

Lemma close_entries_ok h items result w :
  world_ok w -> NoDup (map fst items) ->
  Forall (fun p => m_entries (w_manager w) !! p.1 = Some p.2 /\ e_owner p.2 = "") items ->
  let '(ok, w') := close_entries h items result w in
  world_ok w' /\ m_closed (w_manager w') = m_closed (w_manager w)
  /\ (ok = true -> forall r, is_Some (m_entries (w_manager w') !! r) ->
        r ∉ map fst items /\ is_Some (m_entries (w_manager w) !! r)).
Proof.
  revert result w. induction items as [| [ref item] items IH]; intros result w Hok Hnd Hall.
  { simpl. split_and!; [done | done |]. intros _ r Hr. split; [apply not_elem_of_nil | done]. }
  cbn [map fst] in Hnd. apply list.NoDup_cons in Hnd as [Hnot Hnd].
  inversion Hall as [| ? ? [Hre Ho] Hall']; subst. simpl in Hre, Ho. cbn [close_entries].
  destruct (RemoveAll h (e_root item) w) as [[e |] w1] eqn:Hr.
  - assert (w1 = w) as -> by (unfold RemoveAll in Hr; destruct (h_remove h (e_root item)); by simplify_eq).
    specialize (IH false w Hok Hnd Hall'). destruct (close_entries h items false w) as [ok w'] eqn:Hc.
    destruct IH as (H1 & H2 & H3). split_and!; [done | done |]. intros ->. exfalso.
    clear -Hc. revert w w' Hc. induction items as [| [r i] items IHi]; intros w w' Hc; [done |].
    cbn [close_entries] in Hc. destruct (RemoveAll h (e_root i) w) as [[] ?]; by eapply IHi.
  - destruct (remove_entry_ok _ _ _ _ _ Hok Hre Ho Hr) as (Hok' & Hm & Hl). cbv zeta.
    set (w2 := set_manager _ w1) in *.
    assert (m_entries (w_manager w2) = delete ref (m_entries (w_manager w))) as Hw2.
    { unfold w2. simpl. by rewrite Hm. }
    specialize (IH result w2 Hok' Hnd). destruct (close_entries h items result w2) as [ok w'].
    destruct IH as (H1 & H2 & H3).
    { apply list.Forall_forall. intros [r i] Hin. rewrite list.Forall_forall in Hall'. destruct (Hall' _ Hin) as [Hri Hoi].
      simpl in *. rewrite Hw2, lookup_delete_ne; [done |]. intros ->. apply Hnot. apply list_elem_of_fmap. by exists (r, i). }
    split_and!; [done | |]. { rewrite H2. unfold w2. simpl. by rewrite Hm. }
    intros Hd r Hrs. destruct (H3 Hd r Hrs) as [Hno Hs]. rewrite Hw2 in Hs.
    apply lookup_delete_is_Some in Hs as [Hne Hs]. split; [| done]. simpl. by apply not_elem_of_cons.
Qed.

Lemma Close_ok h w : world_ok w -> world_ok (snd (Close h w)).
Proof.
  intros Hok. unfold Close. destruct (m_closed (w_manager w)) eqn:Hopen; [done |].
  destruct (existsb _ _) eqn:Hbusy; [done |].
  pose proof (close_entries_ok h (map_to_list (m_entries (w_manager w))) true w Hok) as Hc.
  destruct (close_entries _ _ _ _) as [ok w']. destruct Hc as (Hok' & Hclosed & Hall).
  { apply NoDup_fst_map_to_list. }
  { apply list.Forall_forall. intros [r e] Hin. apply elem_of_map_to_list in Hin as He. split; [done |].
    destruct (decide (e_owner e = "")) as [| Hne]; [done |]. exfalso.
    assert (existsb (fun '(_, item) => negb (bool_decide (e_owner item = ""))) (map_to_list (m_entries (w_manager w))) = true)
      as Ht; [| congruence].
    apply existsb_exists. exists (r, e). split; [by apply list_elem_of_In |]. by rewrite bool_decide_eq_false_2. }
  destruct ok; [| done]. simpl. destruct Hok' as [Hl Hu He Hd _]. split; simpl; try done.
  - intros i l Hi. destruct (Hl i l Hi). by split.
  - intros r e Hr. destruct (He r e Hr). by split.
  - intros _. apply map_eq. intros r. rewrite lookup_empty. apply eq_None_not_Some. intros Hr.
    destruct (Hall eq_refl r Hr) as [Hno [e Hre]]. apply Hno. apply list_elem_of_fmap. exists (r, e).
    split; [done |]. by apply elem_of_map_to_list.
Qed.

(** ** The leases' sections *)

(** A lease that still holds its workspace, or still does not. *)
Lemma update_lease_ok w i l l' :
  world_ok w -> w_leases w !! i = Some l ->
  l_ref l' = l_ref l -> l_owner l' = l_owner l -> l_root l' = l_root l -> (holding l' <-> holding l) ->
  (l_running l' = true -> l_released l' = false) -> (l_releasing l' = true -> l_released l' = true) ->
  world_ok (set_leases (<[i := l']> (w_leases w)) w).
Proof.
  intros [Hl Hu He Hd Hc] Hi Href Hown Hroot Hhold Hrun Hrel.
  assert (forall j m, <[i := l']> (w_leases w) !! j = Some m ->
    exists m0, w_leases w !! j = Some m0 /\ l_ref m = l_ref m0 /\ (holding m <-> holding m0)) as Hold.
  { intros j m Hj. destruct (decide (i = j)) as [<- | Hne].
    - rewrite list_lookup_insert_eq in Hj by (by apply lookup_lt_Some in Hi). simplify_eq. by exists l.
    - rewrite list_lookup_insert_ne in Hj by done. by exists m. }
  split; simpl; try done.
  - intros j m Hj. destruct (decide (i = j)) as [<- | Hne].
    + rewrite list_lookup_insert_eq in Hj by (by apply lookup_lt_Some in Hi). simplify_eq.
      destruct (Hl i l Hi) as [_ _ Hent]. split; [done | done |]. intros Hh. rewrite Href, Hown, Hroot.
      by apply Hent, Hhold.
    + rewrite list_lookup_insert_ne in Hj by done. by apply (Hl j).
  - intros j k m m' Hj Hk Hh Hh' Heq. destruct (Hold j m Hj) as (m0 & Hj0 & Hr0 & Hh0).
    destruct (Hold k m' Hk) as (m1 & Hk1 & Hr1 & Hh1).
    apply (Hu j k m0 m1); [done | done | by apply Hh0 | by apply Hh1 | congruence].
  - intros r e Hr. destruct (He r e Hr) as [H1 H2 H3]. split; [done | done |]. intros Hne.
    destruct (H3 Hne) as (j & m & Hj & Hh & Hrf). destruct (decide (i = j)) as [<- | Hij].
    + exists i, l'. rewrite list_lookup_insert_eq by (by apply lookup_lt_Some in Hi). simplify_eq.
      split_and!; [done | by apply Hhold | congruence].
    + exists j, m. by rewrite list_lookup_insert_ne.
Qed.

Lemma release_entry_ok w i l :
  world_ok w -> w_leases w !! i = Some l -> l_releasing l = true ->
  world_ok (set_leases (<[i := with_released false l]> (w_leases w)) (set_manager (release_entry l (w_manager w)) w)).
Proof.
  intros Hok Hi Hrel. destruct Hok as [Hl Hu He Hd Hc].
  destruct (Hl i l Hi) as [Hrun Hreld Hent]. assert (holding l) as Hh by (by right).
  destruct (Hent Hh) as (e & Hentry & Howner & Hne & Hroot). specialize (Hreld Hrel).
  unfold release_entry. rewrite Hentry, bool_decide_eq_true_2 by done.
  assert (~ holding (with_released false l)) as Hnot by (by intros [? | ?]).
  assert (forall j m, <[i := with_released false l]> (w_leases w) !! j = Some m -> holding m ->
    w_leases w !! j = Some m /\ i <> j /\ l_ref m <> l_ref l) as Hother.
  { intros j m Hj Hm. destruct (decide (i = j)) as [<- | Hij].
    - rewrite list_lookup_insert_eq in Hj by (by apply lookup_lt_Some in Hi). by simplify_eq.
    - rewrite list_lookup_insert_ne in Hj by done. split_and!; try done. intros Heq. apply Hij.
      by apply (Hu i j l m). }
  split; simpl.
  - intros j m Hj. destruct (decide (i = j)) as [<- | Hij].
    + rewrite list_lookup_insert_eq in Hj by (by apply lookup_lt_Some in Hi). simplify_eq. split; simpl; try done.
      intros Hr. rewrite (Hrun Hr) in Hreld. done.
    + rewrite list_lookup_insert_ne in Hj by done. destruct (Hl j m Hj) as [H1 H2 H3]. split; [done | done |].
      intros Hm. destruct (H3 Hm) as (e' & He' & Hrest). exists e'. simpl. rewrite lookup_insert_ne; [done |].
      intros Heq. apply Hij. by apply (Hu i j l m).
  - intros j k m m' Hj Hk Hm Hm'. destruct (Hother j m Hj Hm) as (Hj' & _). destruct (Hother k m' Hk Hm') as (Hk' & _).
    by apply Hu.
  - intros r e' Hr. rewrite lookup_insert in Hr. destruct (decide (l_ref l = r)) as [<- | Hrl].
    + simplify_eq. destruct (He _ _ Hentry). by split.
    + destruct (He r e' Hr) as [H1 H2 H3]. split; [done | done |]. intros Hn.
      destruct (H3 Hn) as (j & m & Hj & Hm & Hrf). exists j, m. split_and!; try done.
      rewrite list_lookup_insert_ne; [done |]. intros <-. by simplify_eq.
  - intros r r' e1 e2 H1 H2 Heq. rewrite lookup_insert in H1, H2.
    destruct (decide (l_ref l = r)) as [<- |], (decide (l_ref l = r')) as [<- |]; simplify_eq/=; try done; by eapply Hd.
  - intros Hcl. rewrite (Hc Hcl) in Hentry. by rewrite lookup_empty in Hentry.
Qed.

Lemma run_section_ok h s w : world_ok w -> world_ok (run_section h s w).
Proof.
  intros Hok. destruct s as [files l | s path l | ref owner | ref | | i | i | i | i]; cbn [run_section].
  - by apply Create_ok.
  - by apply CreateFromDirectory_ok.
  - by apply Acquire_ok.
  - by apply Destroy_ok.
  - by apply Close_ok.
  - unfold on_lease. destruct (w_leases w !! i) as [l |] eqn:Hi; [| done].
    destruct (wo_leases _ Hok i l Hi) as [Hrun Hrel _].
    unfold BeginRun, idle. destruct (l_released l) eqn:Hr, (l_running l) eqn:Hn; simpl; apply (update_lease_ok w i l);
      simpl; rewrite ?Hr, ?Hn; try done.
  - unfold on_lease. destruct (w_leases w !! i) as [l |] eqn:Hi; [| done].
    destruct (wo_leases _ Hok i l Hi) as [Hrun Hrel _]. by apply (update_lease_ok w i l).
  - unfold on_lease. destruct (w_leases w !! i) as [l |] eqn:Hi; [| done].
    destruct (wo_leases _ Hok i l Hi) as [Hrun Hrel _].
    unfold release_lease. destruct (l_released l) eqn:Hr; [| destruct (l_running l) eqn:Hn]; simpl;
      apply (update_lease_ok w i l); simpl; rewrite ?Hr, ?Hn; try done.
    unfold holding. simpl. rewrite Hr. split; auto.
  - destruct (w_leases w !! i) as [l |] eqn:Hi; [| done]. destruct (l_releasing l) eqn:Hrel; [| done].
    by apply release_entry_ok.
Qed.

Lemma fresh_world_ok base roots : world_ok (fresh_world base roots).
Proof. split; simpl; try done; intros *; rewrite ?lookup_nil, ?lookup_empty; done. Qed.

Lemma reachable_ok base roots steps : world_ok (run_sections steps (fresh_world base roots)).
Proof.
  unfold run_sections. generalize (fresh_world_ok base roots). generalize (fresh_world base roots).
  induction steps as [| [h s] steps IH]; intros w Hok; [done |]. simpl. by apply IH, run_section_ok.
Qed.

(** C24.  Leases are exclusive.  Whatever sections any goroutines enter in any
    order and whatever the Host answers: a workspace has at most one lease that
    is not completely released, and different leases of that kind have different
    directories; a lease that runs a Guest is not released; the workspace of such
    a lease is still in the manager's table, under its owner, with its directory
    in place, and [Destroy] and [Close] report it busy; and a closed manager has
    no such lease left. *)
Theorem workspace_leases_are_exclusive base roots steps h :
  let w := run_sections steps (fresh_world base roots) in
  (forall i j l l', w_leases w !! i = Some l -> w_leases w !! j = Some l' -> holding l -> holding l' ->
     l_ref l = l_ref l' \/ l_root l = l_root l' -> i = j)
  /\ (forall i l, w_leases w !! i = Some l -> l_running l = true -> l_released l = false)
  /\ (forall i l, w_leases w !! i = Some l -> holding l ->
        (exists e, m_entries (w_manager w) !! l_ref l = Some e /\ e_owner e = l_owner l /\ e_root e = l_root l)
        /\ l_root l ∈ w_roots w
        /\ (validRef (l_ref l) = true -> Destroy h (l_ref l) w = (Err ErrWorkspaceBusy, w))
        /\ Close h w = (Err ErrWorkspaceBusy, w)
        /\ m_closed (w_manager w) = false).
Proof.
  intros w. pose proof (reachable_ok base roots steps) as Hok. fold w in Hok. split_and!.
  - intros i j l l' Hi Hj Hh Hh' [Heq | Heq]; [by apply (wo_unique _ Hok i j l l') |].
    destruct (lo_entry _ _ (wo_leases _ Hok i l Hi) Hh) as (e & He & _ & _ & Hroot).
    destruct (lo_entry _ _ (wo_leases _ Hok j l' Hj) Hh') as (e' & He' & _ & _ & Hroot').
    apply (wo_unique _ Hok i j l l'); try done. apply (wo_distinct _ Hok _ _ e e' He He'). congruence.
  - intros i l Hi. apply (lo_running _ _ (wo_leases _ Hok i l Hi)).
  - intros i l Hi Hh. destruct (lo_entry _ _ (wo_leases _ Hok i l Hi) Hh) as (e & He & Howner & Hne & Hroot).
    assert (m_closed (w_manager w) = false) as Hopen.
    { destruct (m_closed (w_manager w)) eqn:Hcl; [| done]. rewrite (wo_closed _ Hok Hcl) in He.
      by rewrite lookup_empty in He. }
    split_and!; [by exists e | | | | done].
    + rewrite <- Hroot. by apply (eo_dir _ _ _ _ _ (wo_entries _ Hok _ _ He)).
    + intros Hv. unfold Destroy. rewrite Hv, Hopen, He. simpl. by rewrite bool_decide_eq_false_2.
    + unfold Close. rewrite Hopen. destruct (existsb _ _) eqn:Hex; [done |].
      assert (existsb (fun '(_, item) => negb (bool_decide (e_owner item = ""))) (map_to_list (m_entries (w_manager w))) = true)
        as Ht; [| congruence].
      apply existsb_exists. exists (l_ref l, e). split; [by apply list_elem_of_In, elem_of_map_to_list |].
      by rewrite bool_decide_eq_false_2.
Qed.

(** A workspace that is created, leased and run in, and the attempts to lease,
    run in, release and destroy it meanwhile. *)
Definition demo_host : host :=
  mkHost (fun n => Some ("0123456789abcdef0123456789abcde" +:+ format_uint (N.of_nat n))) (fun _ => None)
    (fun _ => None) (fun _ => None) (fun _ _ => Some (0%N, mkUsage ∅ ∅ 0 0)) (fun _ => None).
Definition demo_ref : string := "ws-0123456789abcdef0123456789abcde0".
Definition demo_steps : list (host * section) :=
  map (pair demo_host)
    [SCreate [mkInitial "a/b" "x" false] (mkWLimits 4 64 64 4); SAcquire demo_ref "one"; SBeginRun 0].
Definition demo_world : world := run_sections demo_steps (fresh_world "/base" ∅).

Lemma workspace_leases_are_exclusive_witness :
  (exists l, w_leases demo_world !! 0%nat = Some l /\ l_running l = true /\ holding l
     /\ fst (BeginRun l) = Err ErrWorkspaceBusy /\ fst (release_lease l) = Err ErrWorkspaceBusy)
  /\ fst (Acquire demo_host demo_ref "two" demo_world) = Err ErrWorkspaceBusy
  /\ Close demo_host demo_world = (Err ErrWorkspaceBusy, demo_world).
Proof.
  assert (exists l, w_leases demo_world !! 0%nat = Some l /\ l_running l = true /\ holding l
     /\ fst (BeginRun l) = Err ErrWorkspaceBusy /\ fst (release_lease l) = Err ErrWorkspaceBusy) as Hl.
  { eexists. split; [vm_compute; reflexivity |]. split; [reflexivity |]. split; [by left | split; reflexivity]. }
  split; [exact Hl |]. split; [vm_compute; reflexivity |]. destruct Hl as (l & Hl & _ & Hh & _).
  destruct (workspace_leases_are_exclusive "/base" ∅ demo_steps demo_host) as (_ & _ & H).
  destruct (H 0%nat l Hl Hh) as (_ & _ & _ & Hclose & _). exact Hclose.
Defined.
