(* ===== verification/Http.v ===== *)
(** * Http: requests and their bodies ([service/server.go],
    [service/durable/server.go])

    What the two HTTP services share: the request as [net/http] delivers it,
    the query parameters, the bounded and strict decoding of a JSON body and
    the time limits of an execution.  The sources have this code once in each
    service; it is the same. *)

From S2P Require Import Prelude Json.

(** ** Requests *)

(** [rq_Content] is what the connection carries of the body, and [rq_Broken]
    whether reading it fails at the end instead of reaching it. *)
Record request := mkRequest {
  rq_Method : string;
  rq_Path : string;
  rq_RawQuery : string;
  rq_Content : string;
  rq_Broken : bool
}.

Definition StatusOK : N := 200.
Definition StatusCreated : N := 201.
Definition StatusBadRequest : N := 400.
Definition StatusNotFound : N := 404.
Definition StatusMethodNotAllowed : N := 405.
Definition StatusRequestTimeout : N := 408.
Definition StatusConflict : N := 409.
Definition StatusRequestEntityTooLarge : N := 413.
Definition StatusUnprocessableEntity : N := 422.
Definition StatusTooManyRequests : N := 429.
Definition StatusInternalServerError : N := 500.
Definition StatusNotImplemented : N := 501.
Definition StatusServiceUnavailable : N := 503.

(** ** Numbers *)

Definition digit_of (c : ascii) : option N := if is_digit c then Some (N_of_ascii c - 48)%N else None.

Fixpoint digits_from (acc : N) (s : string) : option N :=
  match s with
  | EmptyString => Some acc
  | String c s' => match digit_of c with Some d => digits_from (acc * 10 + d)%N s' | None => None end
  end.

(** [strconv.ParseUint(s, 10, 32)]. *)
Definition ParseUint32 (s : string) : option N :=
  if bool_decide (s = "") then None
  else match digits_from 0 s with
       | Some n => if (n <? 2 ^ 32)%N then Some n else None
       | None => None
       end.

(** [strconv.ParseInt(s, 10, 64)] of a JSON number. *)
Definition ParseInt64 (s : string) : option Z :=
  let '(negative, digits) := match s with
                             | String c s' => if bool_decide (c = "-"%char) then (true, s') else (false, s)
                             | EmptyString => (false, s)
                             end in
  if bool_decide (digits = "") then None
  else match digits_from 0 digits with
       | Some n =>
           let z := (if negative then - Z.of_N n else Z.of_N n)%Z in
           if ((- 2 ^ 63 <=? z) && (z <? 2 ^ 63))%Z then Some z else None
       | None => None
       end.

(** ** Query parameters ([net/url]) *)

(** [url.QueryUnescape]. *)
Fixpoint QueryUnescape (s : string) : option string :=
  match s with
  | EmptyString => Some ""
  | String c s' =>
      if bool_decide (c = "%"%char) then
        match s' with
        | String a (String b s'') =>
            if is_hex a && is_hex b
            then String (ascii_of_N (hex_value a * 16 + hex_value b)) <$> QueryUnescape s''
            else None
        | _ => None
        end
      else if bool_decide (c = "+"%char) then String " " <$> QueryUnescape s'
      else String c <$> QueryUnescape s'
  end.

(** [strings.Cut(s, "=")]. *)
Fixpoint cut_equals (s : string) : string * string :=
  match s with
  | EmptyString => ("", "")
  | String c s' =>
      if bool_decide (c = "="%char) then ("", s')
      else let '(k, v) := cut_equals s' in (String c k, v)
  end.

(** One setting of a query: [None] is an error, [Some None] is skipped. *)
Definition parse_setting (setting : string) : option (option (string * string)) :=
  if has_char ";" setting then None
  else if bool_decide (setting = "") then Some None
  else
    let '(k, v) := cut_equals setting in
    match QueryUnescape k, QueryUnescape v with
    | Some k, Some v => Some (Some (k, v))
    | _, _ => None
    end.

(** [url.ParseQuery]: the settings in order, and whether all were well formed. *)
Definition ParseQuery (query : string) : list (string * string) * bool :=
  let settings := map parse_setting (split_char "&" query) in
  (omap (fun s => match s with Some (Some kv) => Some kv | _ => None end) settings,
   forallb (fun s => match s with Some _ => true | None => false end) settings).

Definition values_of (name : string) (values : list (string * string)) : list string :=
  map snd (filter (fun kv => kv.1 = name) values).

(** [request.URL.Query().Get(name)]. *)
Definition query_get (name : string) (r : request) : string :=
  default "" (head (values_of name (fst (ParseQuery (rq_RawQuery r))))).

(** ** Bodies *)

Definition maxHTTPBody : N := 1048576.

Inductive body_error := errRequestTooLarge | EBodyRead | EBodyJSON.

Definition requestErrorStatus (e : body_error) : N :=
  match e with errRequestTooLarge => StatusRequestEntityTooLarge | _ => StatusBadRequest end.

(** [io.ReadAll] through [io.LimitReader]. *)
Definition read_body (r : request) : option string :=
  let data := String.substring 0 (S (N.to_nat maxHTTPBody)) (rq_Content r) in
  if rq_Broken r && (slen (rq_Content r) <=? maxHTTPBody)%N then None else Some data.

(** [Decode] with [DisallowUnknownFields] into a struct of these fields: the
    members, none for a [null]. *)
Definition strict_members (fields : list string) (data : string) : option (list (string * string)) :=
  if bool_decide (trim data = "null") then Some []
  else match object_members data with
       | Some ms => if forallb (fun kv => existsb (names kv.1) fields) ms then Some ms else None
       | None => None
       end.

(** [decode]: what the fields make of a JSON value. *)
Definition decodeBody {A} (decode : string -> option A) (r : request) : res body_error A :=
  match read_body r with
  | None => Err EBodyRead
  | Some data =>
      if (maxHTTPBody <? slen data)%N then Err errRequestTooLarge
      else if negb (valid data) then Err EBodyJSON
      else match decode data with Some a => Ok a | None => Err EBodyJSON end
  end.

(** The fields of a struct: every member of its name is stored in turn. *)
Definition fold_field {A} (field : string) (store : A -> string -> option A) (zero : A)
    (ms : list (string * string)) : option A :=
  fold_left (fun acc kv => if names kv.1 field then a ← acc; store a kv.2 else acc) ms (Some zero).

Definition store_string (old raw : string) : option string :=
  if bool_decide (raw = "null") then Some old else decode_string raw.

Definition store_raw (_ raw : string) : option string := Some raw.

Definition store_bool (old : bool) (raw : string) : option bool :=
  if bool_decide (raw = "null") then Some old
  else if bool_decide (raw = "true") then Some true
  else if bool_decide (raw = "false") then Some false else None.

(** A [*int64]. *)
Definition store_int64 (_ : option Z) (raw : string) : option (option Z) :=
  if bool_decide (raw = "null") then Some None else Some <$> ParseInt64 raw.

(** ** Time limits *)

Definition millisecond : Z := 1000000.
Definition maxTimeoutMS : Z := Z.quot (2 ^ 63 - 1) millisecond.

Inductive duration_error := ETimeoutNotPositive | ETimeoutTooLarge | ETimeoutAboveMaximum.

Definition runDuration (timeoutMS : option Z) (maximum : Z) : res duration_error Z :=
  match timeoutMS with
  | None => Ok maximum
  | Some ms =>
      if (ms <=? 0)%Z then Err ETimeoutNotPositive
      else if (maxTimeoutMS <? ms)%Z then Err ETimeoutTooLarge
      else
        let duration := i64 (ms * millisecond) in
        if (0 <? maximum)%Z && (maximum <? duration)%Z then Err ETimeoutAboveMaximum else Ok duration
  end.

(** The deadline an execution gets: none when the duration is zero. *)
Definition executionContext (timeoutMS : option Z) (maximum : Z) : res duration_error (option Z) :=
  let* duration := runDuration timeoutMS maximum in
  Ok (if (duration =? 0)%Z then None else Some duration).

(** ** Lemmas *)

Lemma runDuration_exact timeoutMS maximum d :
  (0 <= maximum < 2 ^ 63)%Z ->
  runDuration timeoutMS maximum = Ok d <->
  match timeoutMS with
  | None => d = maximum
  | Some ms => (0 < ms)%Z /\ d = (ms * millisecond)%Z /\ (d < 2 ^ 63)%Z /\ (maximum = 0 \/ d <= maximum)%Z
  end.
Proof.
  intros Hm. unfold runDuration. destruct timeoutMS as [ms |]; [| split; congruence].
  assert (maxTimeoutMS = 9223372036854)%Z as -> by (by vm_compute). unfold millisecond.
  destruct (Z.leb_spec ms 0); [split; [done | intros; exfalso; lia] |].
  destruct (Z.ltb_spec 9223372036854 ms); [split; [done | intros; exfalso; lia] |]. rewrite i64_id by lia.
  destruct (Z.ltb_spec 0 maximum), (Z.ltb_spec maximum (ms * 1000000)); cbn [andb]; split; intros Hd;
    try congruence; try (injection Hd as <-); try lia; try (exfalso; lia); destruct Hd as (_ & -> & _); (done || lia).
Qed.

Lemma read_body_length r data :
  read_body r = Some data -> (slen data <= maxHTTPBody)%N -> data = rq_Content r.
Proof.
  unfold read_body. destruct (rq_Broken r && _); [done |]. intros [= <-].
  assert (forall n s, (n <= maxHTTPBody)%N -> (slen (String.substring 0 (S (N.to_nat n)) s) <= n)%N ->
    String.substring 0 (S (N.to_nat n)) s = s) as H; [| intros Hl; by apply H].
  intros n s _. rewrite <- (N2Nat.id n) at 2. generalize (N.to_nat n). clear. intros k. unfold slen.
  revert s. induction k as [| k IH]; intros [| c s]; cbn [String.substring String.length]; try done.
  intros Hl. f_equal. apply IH. lia.
Qed.
