(* ===== verification/Service.v ===== *)
(** * Service: the HTTP control plane of the workspaces ([service/server.go])

    A request is dispatched by pure code ([dispatch]) and then handled by a
    goroutine that enters sections: of the server's mutex, of the manager's and
    of a lease's, and operations on the channel that bounds executions.  A
    [pc] is what a goroutine still has to do, and [step] its next section; the
    workspaces are the [world] of [Manager].  Nothing is assumed of the order in
    which the goroutines take their steps. *)

From S2P Require Import Prelude Errors Json Paths RootedFS Sha256 Snapshot Conflict Ingress Manager Http Bridge.

(** ** Request bodies *)

(** [runRequest]. *)
Record runRequest := mkRunRequest {
  rr_Source : string;
  rr_Inputs : string;
  rr_TimeoutMS : option Z;
  rr_EarlyReads : bool
}.

Definition decode_run (data : string) : option runRequest :=
  ms ← strict_members ["source"; "inputs"; "timeout_ms"; "early_reads"] data;
  source ← fold_field "source" store_string "" ms;
  inputs ← fold_field "inputs" store_raw "" ms;
  timeout ← fold_field "timeout_ms" store_int64 None ms;
  early ← fold_field "early_reads" store_bool false ms;
  Some (mkRunRequest source inputs timeout early).

(** [base64.StdEncoding]. *)
Definition base64_value (c : ascii) : option N :=
  let n := N_of_ascii c in
  if byte_in 65 90 c then Some (n - 65)%N
  else if byte_in 97 122 c then Some (n - 71)%N
  else if is_digit c then Some (n + 4)%N
  else if bool_decide (c = "+"%char) then Some 62%N
  else if bool_decide (c = "/"%char) then Some 63%N else None.

Definition base64_pad (c : ascii) : bool := bool_decide (c = "="%char).

Fixpoint base64_groups (s : string) : option string :=
  match s with
  | EmptyString => Some ""
  | String a (String b (String c (String d s'))) =>
      x ← base64_value a;
      y ← base64_value b;
      if base64_pad c then
        if base64_pad d && bool_decide (s' = "") then Some (char_of (x * 4 + y / 16) "") else None
      else
        z ← base64_value c;
        if base64_pad d then
          if bool_decide (s' = "")
          then Some (char_of (x * 4 + y / 16) (char_of (y mod 16 * 16 + z / 4) "")) else None
        else
          w ← base64_value d;
          rest ← base64_groups s';
          Some (char_of (x * 4 + y / 16) (char_of (y mod 16 * 16 + z / 4) (char_of (z mod 4 * 64 + w) rest)))
  | _ => None
  end.

(** The decoder skips line ends. *)
Fixpoint without_line_ends (s : string) : string :=
  match s with
  | EmptyString => ""
  | String c s' =>
      let n := N_of_ascii c in
      if (n =? 10)%N || (n =? 13)%N then without_line_ends s' else String c (without_line_ends s')
  end.

Definition store_bytes (_ raw : string) : option string :=
  if bool_decide (raw = "null") then Some ""
  else s ← decode_string raw; base64_groups (without_line_ends s).

(** An element of the slice, decoded over what it held before. *)
Definition store_initial (old : InitialFile) (raw : string) : option InitialFile :=
  ms ← strict_members ["path"; "data"; "executable"] raw;
  path ← fold_field "path" store_string (if_Path old) ms;
  data ← fold_field "data" store_bytes (if_Data old) ms;
  executable ← fold_field "executable" store_bool (if_Executable old) ms;
  Some (mkInitial path data executable).

Fixpoint store_elements (backing : list InitialFile) (raws : list string) : option (list InitialFile) :=
  match raws with
  | [] => Some []
  | raw :: raws =>
      file ← store_initial (default (mkInitial "" "" false) (head backing)) raw;
      files ← store_elements (tail backing) raws;
      Some (file :: files)
  end.

(** A slice field: the elements and the array behind them, which a second
    member of the name is decoded over. *)
Definition store_files (old : nat * list InitialFile) (raw : string) : option (nat * list InitialFile) :=
  if bool_decide (raw = "null") then Some (O, [])
  else
    raws ← array_elems raw;
    if bool_decide (raws = []) then Some (O, [])
    else files ← store_elements (snd old) raws; Some (length raws, files ++ drop (length raws) (snd old)).

(** [createRequest]. *)
Definition decode_create (data : string) : option (list InitialFile) :=
  ms ← strict_members ["files"] data;
  '(n, backing) ← fold_field "files" store_files (O, []) ms;
  Some (take n backing).

(** ** Replies *)

Inductive run_error := RunFailed (e : error) | RunLease (e : ws_error).

Definition statusFor (e : ws_error) : N :=
  match e with
  | ErrWorkspaceBusy => StatusConflict
  | ErrWorkspaceNotFound => StatusNotFound
  | ErrInvalidWorkspace => StatusBadRequest
  | _ => StatusInternalServerError
  end.

Definition runErrorStatus (e : run_error) : N :=
  match e with
  | RunFailed e =>
      if errors_is Canceled e || errors_is DeadlineExceeded e then StatusRequestTimeout else StatusUnprocessableEntity
  | RunLease _ => StatusUnprocessableEntity
  end.

(** [runResponse] without the measured times. *)
Record runResponse := mkRunResponse {
  rs_Output : Output;
  rs_Changes : option (Snapshot * Snapshot * ChangeSummary);
  rs_Error : option run_error
}.

Inductive reply :=
| RError (status : N) (message : string)
| RBody (e : body_error)
| RDuration (e : duration_error)
| RWorkspace (e : ws_error)
| RReady (ready : bool)
| RCreated (ref : string)
| RRun (r : runResponse)
| RSnapshot (s : Snapshot)
| RFile (f : File)
| RDestroyed
| RClosed (failed : list string) (manager_error : option ws_error).

Definition reply_status (r : reply) : N :=
  match r with
  | RError status _ => status
  | RBody e => requestErrorStatus e
  | RDuration _ => StatusBadRequest
  | RWorkspace e => statusFor e
  | RCreated _ => StatusCreated
  | RRun r => from_option runErrorStatus StatusOK (rs_Error r)
  | _ => StatusOK
  end.

Definition not_found : reply := RError StatusNotFound "not found".
Definition workspace_not_found : reply := RError StatusNotFound "workspace not found".
Definition not_allowed : reply := RError StatusMethodNotAllowed "method not allowed".

(** ** Dispatching *)

(** A run as it is executed: source, inputs and time limit. *)
Record job := mkJob { jb_Source : string; jb_Inputs : string; jb_Deadline : option Z }.

(** What a handler does once the request is read. *)
Inductive task :=
| THealth
| TCreate (files : list InitialFile)
| TPlainRun (early : bool) (j : job)
| TWorkspaceRun (ref : string) (j : job)
| TSnapshot (ref : string)
| TFile (ref name : string)
| TDestroy (ref : string).

Section Dispatch.
Variable maxRunDuration : Z.
(** Whether [json.Unmarshal] takes a document into an [any]: it refuses numbers
    outside of the range of [float64]. *)
Variable unmarshal_any : string -> bool.

(** [decodeInputs]: the document whose value is passed on. *)
Definition decodeInputs (raw : string) : string :=
  if negb (bool_decide (raw = "")) && valid raw && unmarshal_any raw then raw else "{}".

Definition read_run (r : request) : res reply (runRequest * job) :=
  if negb (bool_decide (rq_Method r = "POST")) then Err not_allowed
  else match decodeBody decode_run r with
  | Err e => Err (RBody e)
  | Ok body =>
      if bool_decide (rr_Source body = "") then Err (RError StatusBadRequest "invalid run request")
      else Ok (body, mkJob (rr_Source body) (decodeInputs (rr_Inputs body)) None)
  end.

Definition with_deadline (body : runRequest) (j : job) : res reply job :=
  match executionContext (rr_TimeoutMS body) maxRunDuration with
  | Err e => Err (RDuration e)
  | Ok d => Ok (mkJob (jb_Source j) (jb_Inputs j) d)
  end.

Definition handleCreate (r : request) : res reply task :=
  if negb (bool_decide (rq_Method r = "POST")) then Err not_allowed
  else match decodeBody decode_create r with
  | Err e => Err (RBody e)
  | Ok files => Ok (TCreate files)
  end.

Definition handlePlainRun (r : request) : res reply task :=
  let* (body, j) := read_run r in
  let* j := with_deadline body j in
  Ok (TPlainRun (rr_EarlyReads body) j).

Definition handleWorkspaceRun (ref : string) (r : request) : res reply task :=
  let* (body, j) := read_run r in
  let* _ := guard (negb (rr_EarlyReads body))
              (RError StatusBadRequest "early_reads is unsupported for workspace runs") in
  let* j := with_deadline body j in
  Ok (TWorkspaceRun ref j).

Definition handleFile (ref : string) (r : request) : res reply task :=
  let name := query_get "path" r in
  if bool_decide (name = "") then Err (RError StatusBadRequest "missing path") else Ok (TFile ref name).

Definition workspaces_prefix : string := "/v1/workspaces/".

(** [ServeHTTP]. *)
Definition dispatch (r : request) : res reply task :=
  let path := rq_Path r in
  if bool_decide (rq_Method r = "GET") && bool_decide (path = "/healthz") then Ok THealth
  else if bool_decide (path = "/v1/run") then handlePlainRun r
  else if bool_decide (path = "/v1/workspaces") then handleCreate r
  else if has_prefix workspaces_prefix path then
    match split_char "/" (trim_prefix workspaces_prefix path) with
    | ref :: rest =>
        if bool_decide (ref = "") then Err not_found
        else match rest with
        | [] => if bool_decide (rq_Method r = "DELETE") then Ok (TDestroy ref) else Err not_found
        | [action] =>
            if bool_decide (action = "run") then handleWorkspaceRun ref r
            else if bool_decide (action = "snapshot") && bool_decide (rq_Method r = "GET") then Ok (TSnapshot ref)
            else if bool_decide (action = "files") && bool_decide (rq_Method r = "GET") then handleFile ref r
            else Err not_found
        | _ => Err not_found
        end
    | [] => Err not_found
    end
  else Err not_found.
End Dispatch.

(** ** The server *)

(** What a goroutine still has to do.  Leases are named by their place in the
    world.  A run in progress carries the snapshot before it; [PFree] holds the
    slot until its reply is written. *)
Inductive pc :=
| PRequest (r : request)
| PAcquire (ref : string)
| PAbandon (ref : string) (e : ws_error)
| PInsert (ref : string) (lease : nat)
| PRetire (ref : string) (lease : nat)
| PRetireEntry (ref : string) (lease : nat)
| PRetireDestroy (ref : string)
| PPlainAdmit (early : bool) (j : job)
| PPlainRun (early : bool) (j : job)
| PLookup (t : task)
| PSnapshot (lease : nat)
| PFile (lease : nat) (name : string)
| PRunAdmit (lease : nat) (j : job)
| PBefore (lease : nat) (j : job)
| PBegin (lease : nat) (j : job) (before : Snapshot)
| PRunning (lease : nat) (j : job) (before : Snapshot)
| PEnd (lease : nat) (before : Snapshot) (out : Output) (e : option error)
| PAfter (lease : nat) (before : Snapshot) (out : Output) (e : option run_error)
| PFree (r : reply)
| PTake (ref : string)
| PRelease (ref : string) (lease : nat)
| PReleaseEntry (ref : string) (lease : nat)
| PPutBack (ref : string) (lease : nat) (e : ws_error)
| PDestroy (ref : string)
| PClose
| PCloseNext (leases : list (string * nat)) (failed : list (string * nat))
| PCloseEntry (ref : string) (lease : nat) (leases failed : list (string * nat))
| PCloseDestroy (ref : string) (lease : nat) (leases failed : list (string * nat))
| PPanic (ref : string) (lease : nat)
| PDone (r : reply) (failed : list (string * nat)).

(** [sv_leases] is the map of the server, none once it is nil; [sv_stuck] says
    that a goroutine died with the mutex locked. *)
Record service := mkService {
  sv_world : world;
  sv_leases : option (gmap string nat);
  sv_closed : bool;
  sv_used : nat;
  sv_stuck : bool;
  sv_threads : list pc
}.

(** What the Host and the Guest answer during one step: the answers to the
    manager, the files of a lease, one by one and during a snapshot, the error
    of closing its filesystem, the end of a Guest, and the order in which Go
    visits the table. *)
Record answer := mkAnswer {
  an_host : Manager.host;
  an_scan : option treeUsage;
  an_read : string -> option string;
  an_views : views;
  an_close : option ws_error;
  an_output : Output;
  an_error : option error;
  an_order : list nat
}.

Definition DefaultLimits : WLimits := mkWLimits 4096 268435456 67108864 32.
Definition service_owner : string := "pysolate-service".

Definition set_world (w : world) (s : service) : service :=
  mkService w (sv_leases s) (sv_closed s) (sv_used s) (sv_stuck s) (sv_threads s).
Definition set_table (t : option (gmap string nat)) (s : service) : service :=
  mkService (sv_world s) t (sv_closed s) (sv_used s) (sv_stuck s) (sv_threads s).
Definition set_used (n : nat) (s : service) : service :=
  mkService (sv_world s) (sv_leases s) (sv_closed s) n (sv_stuck s) (sv_threads s).
Definition set_threads (l : list pc) (s : service) : service :=
  mkService (sv_world s) (sv_leases s) (sv_closed s) (sv_used s) (sv_stuck s) l.
Definition shut (s : service) : service :=
  mkService (sv_world s) None true (sv_used s) (sv_stuck s) (sv_threads s).
Definition stick (s : service) : service :=
  mkService (sv_world s) (sv_leases s) (sv_closed s) (sv_used s) true (sv_threads s).

(** A list in the order that [picks] gives, place by place. *)
Fixpoint arrange {A} (picks : list nat) (l : list A) : list A :=
  match picks with
  | [] => l
  | n :: picks =>
      let i := (n mod length l)%nat in
      match l !! i with
      | Some x => x :: arrange picks (delete i l)
      | None => l
      end
  end.

Lemma arrange_perm {A} picks (l : list A) : arrange picks l ≡ₚ l.
Proof.
  revert l. induction picks as [| n picks IH]; intros l; [done |]. cbn [arrange].
  destruct (l !! _) as [x |] eqn:Hx; [| done]. rewrite IH. symmetry. by apply delete_Permutation.
Qed.

(** A lookup in a map that may be nil. *)
Definition table_lookup (ref : string) (s : service) : option nat := sv_leases s ≫= (!!) ref.

Definition lease_at (k : nat) (s : service) : option Lease := w_leases (sv_world s) !! k.

(** A section of the world entered by this service. *)
Definition enter_world (h : Manager.host) (x : section) (s : service) : service :=
  set_world (run_section h x (sv_world s)) s.

Definition done (r : reply) : pc := PDone r [].

Section Steps.
Variable maxRunDuration : Z.
Variable unmarshal_any : string -> bool.
(** The capacity of [slots]. *)
Variable maxActive : nat.

(** A section of the server's mutex: it waits for ever once the mutex is stuck. *)
Definition locked {A} (s : service) (k : A) : option A := if sv_stuck s then None else Some k.

(** [handleCreate] from [manager.Create] to its return. *)
Definition step_create (a : answer) (files : list InitialFile) (s : service) : pc * service :=
  let '(r, w) := Create (an_host a) files DefaultLimits (sv_world s) in
  (match r with Ok ref => PAcquire ref | Err e => done (RWorkspace e) end, set_world w s).

Definition step_acquire (a : answer) (ref : string) (s : service) : pc * service :=
  let '(r, w) := Acquire (an_host a) ref service_owner (sv_world s) in
  (match r with
   | Ok _ => PInsert ref (length (w_leases (sv_world s)))
   | Err e => PAbandon ref e
   end, set_world w s).

Definition step_insert (ref : string) (k : nat) (s : service) : pc * service :=
  match sv_closed s, sv_leases s with
  | false, Some t => (done (RCreated ref), set_table (Some (<[ref := k]> t)) s)
  | _, _ => (PRetire ref k, s)
  end.

(** The task of a request. *)
Definition step_request (a : answer) (r : request) (s : service) : option (pc * service) :=
  match dispatch maxRunDuration unmarshal_any r with
  | Err reply => Some (done reply, s)
  | Ok THealth => locked s (done (RReady (negb (sv_closed s))), s)
  | Ok (TCreate files) => Some (step_create a files s)
  | Ok (TPlainRun early j) => Some (PPlainAdmit early j, s)
  | Ok (TDestroy ref) => Some (PTake ref, s)
  | Ok t => Some (PLookup t, s)
  end.

(** [server.lease], and what the handlers do with it. *)
Definition step_lookup (t : task) (s : service) : pc :=
  let found ref k := match table_lookup ref s with Some i => k i | None => done workspace_not_found end in
  match t with
  | TWorkspaceRun ref j => found ref (fun i => PRunAdmit i j)
  | TSnapshot ref => found ref PSnapshot
  | TFile ref name => found ref (fun i => PFile i name)
  | _ => done not_found
  end.

(** [server.admit]. *)
Definition admission (granted : pc) (s : service) : pc * service :=
  if (sv_used s <? maxActive)%nat then (granted, set_used (S (sv_used s)) s)
  else (done (RError StatusTooManyRequests "execution capacity exhausted"), s).

Definition finish_run (out : Output) (changes : option (Snapshot * Snapshot * ChangeSummary)) (e : option run_error) : pc :=
  PFree (RRun (mkRunResponse out changes e)).

(** A snapshot of a lease. *)
Definition snapshot_of (a : answer) (k : nat) (s : service) : res ws_error Snapshot :=
  match lease_at k s with
  | Some l => lease_Snapshot (an_views a) (an_scan a) l
  | None => Err ErrInvalidWorkspace
  end.

(** [errors.Is(err, fs.ErrNotExist)] of what [ReadFile] returns. *)
Definition not_exist (e : ws_error) : bool :=
  match e with EHost what => bool_decide (what = "file does not exist") | _ => false end.

Definition file_of (a : answer) (k : nat) (name : string) (s : service) : reply :=
  match lease_at k s with
  | Some l =>
      match ReadFile (an_read a) (an_scan a) name maxHTTPBody l with
      | Ok f => RFile f
      | Err e =>
          if not_exist e then RError StatusNotFound "file not found" else RWorkspace e
      end
  | None => RWorkspace ErrInvalidWorkspace
  end.

(** [RunWorkspace] up to the Guest. *)
Definition step_begin (a : answer) (k : nat) (j : job) (before : Snapshot) (s : service) : pc * service :=
  match lease_at k s with
  | None => (PAfter k before no_output (Some (RunLease ErrInvalidWorkspace)), s)
  | Some l =>
      match fst (BeginRun l) with
      | Ok _ => (PRunning k j before, enter_world (an_host a) (SBeginRun k) s)
      | Err e => (PAfter k before no_output (Some (RunLease e)), s)
      end
  end.

Definition step_after (a : answer) (k : nat) (before : Snapshot) (out : Output) (e : option run_error) (s : service) : pc :=
  match snapshot_of a k s with
  | Err e' => PFree (RWorkspace e')
  | Ok after => finish_run out (Some (before, after, Diff before after)) e
  end.

(** The first section of [Release], and what follows. *)
Definition step_release (a : answer) (k : nat) (refused : ws_error -> pc) (entry released : pc) (s : service) : pc * service :=
  match lease_at k s with
  | None => (refused ErrInvalidWorkspace, s)
  | Some l =>
      match fst (release_lease l) with
      | Err e => (refused e, s)
      | Ok true => (entry, enter_world (an_host a) (SRelease k) s)
      | Ok false => (released, s)
      end
  end.

(** The second section, with the error of closing the filesystem. *)
Definition step_entry (a : answer) (k : nat) (refused : ws_error -> pc) (released : pc) (s : service) : pc * service :=
  (from_option refused released (an_close a), enter_world (an_host a) (SReleaseEntry k) s).

(** [manager.Destroy]. *)
Definition step_destroy (a : answer) (ref : string) (next : res ws_error unit -> pc) (s : service) : pc * service :=
  let '(r, w) := Manager.Destroy (an_host a) ref (sv_world s) in (next r, set_world w s).

(** The end of [Close]. *)
Definition step_close_manager (a : answer) (failed : list (string * nat)) (s : service) : pc * service :=
  let '(r, w) := Manager.Close (an_host a) (sv_world s) in
  (PDone (RClosed (map fst failed) (match r with Ok _ => None | Err e => Some e end)) failed, set_world w s).

Definition step_take (ref : string) (s : service) : pc * service :=
  match table_lookup ref s with
  | None => (done workspace_not_found, s)
  | Some k => (PRelease ref k, set_table (delete ref <$> sv_leases s) s)
  end.

(** An assignment to a nil map panics, with the mutex locked. *)
Definition step_put_back (ref : string) (k : nat) (e : ws_error) (s : service) : pc * service :=
  match sv_leases s with
  | Some t => (done (RWorkspace e), set_table (Some (<[ref := k]> t)) s)
  | None => (PPanic ref k, stick s)
  end.

(** [Close] visits the table in any order. *)
Definition step_close (a : answer) (s : service) : pc * service :=
  if sv_closed s then (done (RClosed [] None), s)
  else (PCloseNext (arrange (an_order a) (from_option map_to_list [] (sv_leases s))) [], shut s).

(** The next section of a goroutine; none if it is done or waits. *)
Definition step_pc (a : answer) (p : pc) (s : service) : option (pc * service) :=
  match p with
  | PRequest r => step_request a r s
  | PAcquire ref => Some (step_acquire a ref s)
  | PAbandon ref e => Some (step_destroy a ref (fun _ => done (RWorkspace e)) s)
  | PInsert ref k => locked s (step_insert ref k s)
  | PRetire ref k =>
      Some (step_release a k (fun _ => PRetireDestroy ref) (PRetireEntry ref k) (PRetireDestroy ref) s)
  | PRetireEntry ref k => Some (step_entry a k (fun _ => PRetireDestroy ref) (PRetireDestroy ref) s)
  | PRetireDestroy ref =>
      Some (step_destroy a ref (fun _ => done (RError StatusServiceUnavailable "service closed")) s)
  | PPlainAdmit early j => Some (admission (PPlainRun early j) s)
  | PPlainRun early j => Some (finish_run (an_output a) None (RunFailed <$> an_error a), s)
  | PLookup t => locked s (step_lookup t s, s)
  | PSnapshot k =>
      Some (done (match snapshot_of a k s with Ok x => RSnapshot x | Err e => RWorkspace e end), s)
  | PFile k name => Some (done (file_of a k name s), s)
  | PRunAdmit k j => Some (admission (PBefore k j) s)
  | PBefore k j =>
      Some (match snapshot_of a k s with Ok x => PBegin k j x | Err e => PFree (RWorkspace e) end, s)
  | PBegin k j before => Some (step_begin a k j before s)
  | PRunning k j before => Some (PEnd k before (an_output a) (an_error a), s)
  | PEnd k before out e => Some (PAfter k before out (RunFailed <$> e), enter_world (an_host a) (SEndRun k) s)
  | PAfter k before out e => Some (step_after a k before out e s, s)
  | PFree r => Some (done r, set_used (pred (sv_used s)) s)
  | PTake ref => locked s (step_take ref s)
  | PRelease ref k => Some (step_release a k (PPutBack ref k) (PReleaseEntry ref k) (PDestroy ref) s)
  | PReleaseEntry ref k => Some (step_entry a k (PPutBack ref k) (PDestroy ref) s)
  | PPutBack ref k e => locked s (step_put_back ref k e s)
  | PDestroy ref =>
      Some (step_destroy a ref (fun r => done (match r with Ok _ => RDestroyed | Err e => RWorkspace e end)) s)
  | PClose => locked s (step_close a s)
  | PCloseNext [] failed => Some (step_close_manager a failed s)
  | PCloseNext ((ref, k) :: rest) failed =>
      Some (step_release a k (fun _ => PCloseNext rest ((ref, k) :: failed)) (PCloseEntry ref k rest failed)
              (PCloseDestroy ref k rest failed) s)
  | PCloseEntry ref k rest failed =>
      Some (step_entry a k (fun _ => PCloseNext rest ((ref, k) :: failed)) (PCloseDestroy ref k rest failed) s)
  | PCloseDestroy ref k rest failed =>
      Some (step_destroy a ref
              (fun r => PCloseNext rest (match r with Ok _ => failed | Err _ => (ref, k) :: failed end)) s)
  | PPanic _ _ | PDone _ _ => None
  end.

(** What happens to a service: a request arrives, [Close] is called, or a
    goroutine takes a step. *)
Inductive happening := Arrive (r : request) | CallClose | Go (i : nat) (a : answer).

Definition step (e : happening) (s : service) : service :=
  match e with
  | Arrive r => set_threads (sv_threads s ++ [PRequest r]) s
  | CallClose => set_threads (sv_threads s ++ [PClose]) s
  | Go i a =>
      match sv_threads s !! i with
      | None => s
      | Some p =>
          match step_pc a p s with
          | None => s
          | Some (p', s') => set_threads (<[i := p']> (sv_threads s')) s'
          end
      end
  end.

Definition run_service (l : list happening) (s : service) : service := foldl (fun s e => step e s) s l.

(** [New]: the checks of the configuration; the images of the two runners and
    whether they can be prepared are the caller's. *)
Definition configuration_ok (options : list (bool * Z)) (linux : bool) : bool :=
  (1 <=? maxActive)%nat && (maxActive <=? 64)%nat && (length options <=? 1)%nat
  && forallb (fun o => (0 <=? snd o)%Z && (negb (fst o) || linux)) options.
End Steps.

Definition new_service (w : world) : service := mkService w (Some ∅) false 0 false [].
