(* ===== verification/ServiceSpec.v ===== *)
(** * ServiceSpec: who answers for a workspace

    Every workspace of the manager is in the custody of the server's table or of
    one goroutine, with what that owner knows of its lease ([custody_ok]), or it
    has strayed: its last owner gave it up when the Host refused to remove it.
    The lemmas say what each section of the manager and of a lease does to a
    custody; they do not look at the order of the goroutines. *)

From S2P Require Import Prelude Errors Json Paths RootedFS Sha256 Snapshot Conflict Ingress Manager ManagerProps Http Bridge Service.

(** No lease is left, a lease is held (or was given back), a lease is between the
    two sections of its release, or a lease was released. *)
Inductive hold := HNone | HLease (k : nat) | HEntry (k : nat) | HGone (k : nat).

Definition custody_of (p : pc) : list (string * hold) :=
  let held := map (fun x : string * nat => (fst x, HLease (snd x))) in
  match p with
  | PAcquire ref | PAbandon ref _ | PRetireDestroy ref | PDestroy ref => [(ref, HNone)]
  | PInsert ref k | PRetire ref k | PRelease ref k | PPutBack ref k _ | PPanic ref k => [(ref, HLease k)]
  | PRetireEntry ref k | PReleaseEntry ref k => [(ref, HEntry k)]
  | PCloseNext l f => held (l ++ f)
  | PCloseEntry ref k l f => (ref, HEntry k) :: held (l ++ f)
  | PCloseDestroy ref k l f => (ref, HGone k) :: held (l ++ f)
  | PDone _ f => held f
  | _ => []
  end.

Definition table_custody (t : option (gmap string nat)) : list (string * hold) :=
  map (fun x : string * nat => (fst x, HLease (snd x))) (from_option map_to_list [] t).

Definition custody (s : service) : list (string * hold) :=
  table_custody (sv_leases s) ++ concat (map custody_of (sv_threads s)).

(** What an owner knows of the lease. *)
Definition hold_ok (w : world) (ref : string) (x : hold) : Prop :=
  match x with
  | HNone => True
  | HLease k => exists l, w_leases w !! k = Some l /\ l_ref l = ref /\ l_releasing l = false
  | HEntry k => exists l, w_leases w !! k = Some l /\ l_ref l = ref /\ l_releasing l = true
  | HGone k => exists l, w_leases w !! k = Some l /\ l_ref l = ref /\ l_released l = true /\ l_releasing l = false
  end.

(** [past] are the references that were issued.  What is in custody is in the
    manager as long as [back] holds and the manager is open: a [Close] of the
    manager that fails takes some workspaces away from under their owners. *)
Record custody_ok (back : Prop) (past : string -> Prop) (w : world) (c : list (string * hold)) : Prop := {
  cu_unique : NoDup (map fst c);
  cu_past : forall ref, ref ∈ map fst c -> past ref;
  cu_all : forall ref, is_Some (m_entries (w_manager w) !! ref) -> ref ∈ map fst c;
  cu_back : back -> m_closed (w_manager w) = false ->
              forall ref, ref ∈ map fst c -> is_Some (m_entries (w_manager w) !! ref);
  cu_valid : forall ref, is_Some (m_entries (w_manager w) !! ref) -> validRef ref = true;
  cu_hold : forall ref x, (ref, x) ∈ c -> hold_ok w ref x;
  cu_lease : forall k l, w_leases w !! k = Some l -> holding l ->
               (l_ref l, HLease k) ∈ c \/ (l_ref l, HEntry k) ∈ c
}.

(** A Host whose identities are the hexadecimal form of sixteen bytes; its calls,
    [RemoveAll] among them, may fail. *)
Definition sound_host (h : Manager.host) : Prop :=
  forall n v, h_random h n = Some v -> validRef ("ws-" +:+ v) = true.

(** Workspaces that nobody answers for any more. *)
Definition strayed (refs : list string) : list (string * hold) := map (fun ref => (ref, HNone)) refs.

Lemma strayed_refs refs : map fst (strayed refs) = refs.
Proof. unfold strayed. rewrite map_map. apply map_id. Qed.

(** What an owner gives up when [Destroy] fails because of the Host. *)
Definition refused (r : res ws_error unit) (ref : string) : list string :=
  match r with Err (EHost _) => [ref] | _ => [] end.

(** The references issued so far, once a section made [w'] of [w]. *)
Definition grown (past : string -> Prop) (w w' : world) (ref : string) : Prop :=
  past ref \/ (is_Some (m_entries (w_manager w') !! ref) /\ m_entries (w_manager w) !! ref = None).

#[export] Instance custody_ok_perm back past w : Proper (Permutation ==> iff) (custody_ok back past w).
Proof.
  assert (forall c c', c ≡ₚ c' -> custody_ok back past w c -> custody_ok back past w c') as H.
  { intros c c' Hp [H1 Hpast H2 H3 H4 H5 H6]. assert (map fst c ≡ₚ map fst c') as Hm by (by apply Permutation_map).
    split.
    - by rewrite <- Hm.
    - intros ref Hr. rewrite <- Hm in Hr. by apply Hpast.
    - intros ref Hr. rewrite <- Hm. by apply H2.
    - intros Hb Hc ref Hr. rewrite <- Hm in Hr. by apply H3.
    - done.
    - intros ref x Hx. rewrite <- Hp in Hx. by apply H5.
    - intros k l Hk Hh. rewrite <- !Hp. by apply H6. }
  intros c c' Hp. split; by apply H.
Qed.

Lemma fst_not_other {A B} (a : A) (x y : B) c : NoDup (map fst ((a, x) :: c)) -> (a, y) ∉ c.
Proof.
  cbn. rewrite list.NoDup_cons. intros [Hn _] Hin. apply Hn. apply list_elem_of_fmap. by exists (a, y).
Qed.

(** A refused [Destroy] changes nothing; one that succeeds removes the entry. *)
Lemma Destroy_facts h ref w r w' :
  Manager.Destroy h ref w = (r, w') ->
  w_leases w' = w_leases w /\ m_closed (w_manager w') = m_closed (w_manager w)
  /\ match r with
     | Ok _ => forall q, is_Some (m_entries (w_manager w') !! q) <-> q <> ref /\ is_Some (m_entries (w_manager w) !! q)
     | Err _ => w' = w
     end.
Proof.
  unfold Manager.Destroy. destruct (negb (validRef ref)); [by intros [= <- <-] |].
  destruct (m_closed (w_manager w)) eqn:Hcl; [by intros [= <- <-] |].
  destruct (m_entries (w_manager w) !! ref) as [item |]; [| by intros [= <- <-]].
  destruct (negb _); [by intros [= <- <-] |]. unfold RemoveAll. destruct (h_remove h _); intros [= <- <-]; [done |].
  cbn [w_manager w_leases set_manager set_roots set_entries m_entries m_closed]. split_and!; try done.
  intros q. rewrite lookup_delete_is_Some. naive_solver.
Qed.

(** The loop of [Close] only removes entries. *)
Lemma close_entries_facts h items result w ok w' :
  close_entries h items result w = (ok, w') ->
  w_leases w' = w_leases w /\ m_closed (w_manager w') = m_closed (w_manager w)
  /\ (forall r, is_Some (m_entries (w_manager w') !! r) -> is_Some (m_entries (w_manager w) !! r))
  /\ ((forall root, h_remove h root = None) -> ok = result).
Proof.
  revert result w. induction items as [| [ref item] items IH]; intros result w; cbn [close_entries].
  { by intros [= <- <-]. }
  unfold RemoveAll. destruct (h_remove h (e_root item)) as [e |] eqn:Hr; intros Hloop.
  - destruct (IH _ _ Hloop) as (H1 & H2 & H3 & H4). split_and!; try done. intros Hall. by rewrite Hall in Hr.
  - destruct (IH _ _ Hloop) as (H1 & H2 & H3 & H4). split_and!; try done. intros r Hin. apply H3 in Hin.
    cbn [w_manager set_manager set_roots set_entries m_entries] in Hin. by apply lookup_delete_is_Some in Hin as [_ ?].
Qed.

Section Custody.
Context {back : Prop} {past : string -> Prop}.
Notation custody_ok := (custody_ok back past).

(** ** Sections that touch no custody *)

Lemma custody_weaken (back' : Prop) (past' : string -> Prop) w c :
  custody_ok w c -> (back' -> back) -> (forall ref, past ref -> past' ref) -> ServiceSpec.custody_ok back' past' w c.
Proof. intros [H1 Hp H2 H3 H4 H5 H6] Hb Hpast. split; auto. Qed.

Lemma custody_grown w w' c w0 : custody_ok w c -> ServiceSpec.custody_ok back (grown past w0 w') w c.
Proof. intros Hc. apply (custody_weaken back _ w c Hc); [done |]. intros ref Hr. by left. Qed.

(** A world with the same table and with leases that differ in running only. *)
Lemma custody_run w k l b c :
  custody_ok w c -> w_leases w !! k = Some l -> custody_ok (set_leases (<[k := with_running b l]> (w_leases w)) w) c.
Proof.
  intros [H1 Hpast H2 H3 H4 H5 H6] Hk. assert (k < length (w_leases w))%nat as Hlt by (by apply lookup_lt_Some in Hk).
  split; try done.
  - intros ref x Hx. specialize (H5 ref x Hx). destruct x as [| j | j | j]; [done | | |]; destruct H5 as (m & Hm & Hr & Hb); cbn.
    all: destruct (decide (k = j)) as [<- | Hne];
      [rewrite list_lookup_insert_eq by done; simplify_eq; by eexists | rewrite list_lookup_insert_ne by done; by exists m].
  - intros j m Hj Hh. cbn in Hj. destruct (decide (k = j)) as [<- | Hne].
    + rewrite list_lookup_insert_eq in Hj by done. simplify_eq. by apply (H6 k l).
    + rewrite list_lookup_insert_ne in Hj by done. by apply H6.
Qed.

(** ** A new workspace *)

Lemma allocate_valid h turns attempt w ref root w' :
  sound_host h -> allocate h turns attempt w = Ok (ref, root, w') -> validRef ref = true.
Proof.
  intros Hs. revert attempt. induction turns as [| n IH]; intros attempt Ha; [done |].
  cbn [allocate] in Ha. destruct (h_random h attempt) as [v |] eqn:Hr; [| done]. cbv zeta in Ha.
  destruct (bool_decide _); [by eapply IH |]. destruct (h_mkdir h attempt); [done |]. simplify_eq. by eapply Hs.
Qed.

Lemma Create_facts h files l w r w' :
  world_ok w -> sound_host h -> Create h files l w = (r, w') ->
  w_leases w' = w_leases w /\
  match r with
  | Ok ref => m_closed (w_manager w) = false /\ m_entries (w_manager w) !! ref = None /\ validRef ref = true
              /\ exists e, m_entries (w_manager w') = <[ref := e]> (m_entries (w_manager w)) /\ m_closed (w_manager w') = false
  | Err _ => w_manager w' = w_manager w
  end.
Proof.
  intros Hok Hs. unfold Create, provision. destruct (negb _); [by intros [= <- <-] |].
  destruct (check_initial _ _ _); [| by intros [= <- <-]].
  destruct (m_closed (w_manager w)) eqn:Hopen; [by intros [= <- <-] |].
  destruct (allocateLocked h w) as [[[ref root] w1] |] eqn:Ha; [| by intros [= <- <-]].
  assert (validRef ref = true) as Hv by (by apply (allocate_valid h 8 0 w ref root w1)).
  destruct (allocate_Ok _ _ _ _ _ _ _ Ha) as (Hroot & Hnew & ->).
  destruct (let* _ := materialize h (canonical_files files) in _) as [|]; intros [= <- <-].
  - split; [done |]. split; [done |]. split.
    + apply eq_None_not_Some. intros [e He]. apply Hnew. destruct (wo_entries _ Hok ref e He) as [Hr Hin _]. by rewrite Hroot, <- Hr.
    + split; [done |]. by eexists.
  - unfold RemoveAll. by destruct (h_remove h root).
Qed.

Lemma custody_create h files l w c :
  world_ok w -> sound_host h -> custody_ok w c ->
  back \/ (forall ref, is_Some (m_entries (w_manager (snd (Create h files l w))) !! ref) ->
              m_entries (w_manager w) !! ref = None -> ~ past ref) ->
  match Create h files l w with
  | (Ok ref, w') => ServiceSpec.custody_ok back (grown past w w') w' ((ref, HNone) :: c)
  | (Err _, w') => custody_ok w' c
  end.
Proof.
  intros Hok Hs [H1 Hpast H2 H3 H4 H5 H6] Hnew. destruct (Create h files l w) as [r w'] eqn:Hc.
  pose proof (Create_facts h files l w r w' Hok Hs Hc) as [Hl H]. destruct r as [ref | e].
  - destruct H as (Hopen & Hfresh & Hvalid & e & He & Hcl). cbn [snd] in Hnew.
    assert (is_Some (m_entries (w_manager w') !! ref)) as Hthere by (rewrite He, lookup_insert_eq; by eexists).
    split; cbn [map fst].
    + apply list.NoDup_cons. split; [| done]. intros Hin. destruct Hnew as [Hb | Hnew].
      * destruct (H3 Hb Hopen ref Hin) as [e' He']. congruence.
      * by apply (Hnew ref Hthere Hfresh), Hpast.
    + intros r [-> | Hr]%elem_of_cons; [by right | left; by apply Hpast].
    + intros r. rewrite He. intros [-> | [_ Hr]]%lookup_insert_is_Some; [by left | right; by apply H2].
    + intros Hb _ r. rewrite He. intros [-> | Hr]%elem_of_cons; [rewrite lookup_insert_eq; by eexists |].
      apply lookup_insert_is_Some. destruct (decide (ref = r)); [by left | right; split; [done | by apply H3]].
    + intros r. rewrite He. intros [-> | [_ Hr]]%lookup_insert_is_Some; [done | by apply H4].
    + intros r x [[= -> ->] | Hx]%elem_of_cons; [done |]. specialize (H5 r x Hx). unfold hold_ok in *. by rewrite Hl.
    + intros k m. rewrite Hl. intros Hk Hh. destruct (H6 k m Hk Hh); [left | right]; by right.
  - split; rewrite ?H; try done.
    + intros r x Hx. specialize (H5 r x Hx). unfold hold_ok in *. by rewrite Hl.
    + rewrite Hl. done.
Qed.

(** ** Leasing *)

Lemma custody_acquire h ref owner w c :
  custody_ok w ((ref, HNone) :: c) ->
  match Acquire h ref owner w with
  | (Ok _, w') => custody_ok w' ((ref, HLease (length (w_leases w))) :: c)
  | (Err _, w') => w' = w
  end.
Proof.
  intros [H1 Hpast H2 H3 H4 H5 H6]. unfold Acquire. destruct (_ || _ || _); [done |]. destruct (m_closed _) eqn:Hopen; [done |].
  destruct (m_entries (w_manager w) !! ref) as [item |] eqn:Hitem; [| done]. destruct (negb _); [done |].
  destruct (h_scan h _ _) as [[dev usage] |]; [| done]. set (k := length (w_leases w)).
  split; cbn [map fst w_manager w_leases set_leases set_manager set_entries m_entries m_closed] in *.
  - done.
  - exact Hpast.
  - intros r [-> | [_ Hr]]%lookup_insert_is_Some; [by left | by apply H2].
  - intros Hb _ r Hr. apply lookup_insert_is_Some. destruct (decide (ref = r)); [by left | right; split; [done | by apply H3]].
  - intros r [-> | [_ Hr]]%lookup_insert_is_Some; [apply H4; by eexists | by apply H4].
  - intros r x [[= -> ->] | Hx]%elem_of_cons.
    + cbn. eexists. split; [apply lookup_snoc_last | done].
    + specialize (H5 r x ltac:(by right)). destruct x as [| j | j | j]; [done | | |]; destruct H5 as (m & Hm & Hrest); exists m;
        cbn; (split; [| done]); rewrite lookup_app_l; (done || by apply lookup_lt_Some in Hm).
  - intros j m Hj Hh. apply lookup_snoc_Some' in Hj as [Hj | [-> <-]]; [| left; by left].
    destruct (H6 j m Hj Hh) as [[? | Hin]%elem_of_cons | [? | Hin]%elem_of_cons]; try done; [left | right]; by right.
Qed.

(** Updating one lease, whose owner stays its only owner. *)
Lemma custody_update w k l l' m' ref x y c :
  custody_ok w ((ref, x) :: c) -> (x = HLease k \/ x = HEntry k) ->
  w_leases w !! k = Some l -> l_ref l' = l_ref l ->
  m_closed m' = m_closed (w_manager w) ->
  (forall r, is_Some (m_entries m' !! r) <-> is_Some (m_entries (w_manager w) !! r)) ->
  (match y with HNone => ~ holding l' | HLease j => j = k /\ l_releasing l' = false
   | HEntry j => j = k /\ l_releasing l' = true
   | HGone j => j = k /\ l_released l' = true /\ l_releasing l' = false end) ->
  custody_ok (set_leases (<[k := l']> (w_leases w)) (set_manager m' w)) ((ref, y) :: c).
Proof.
  intros [H1 Hpast H2 H3 H4 H5 H6] Hx Hk Href Hcl Hdom Hy. assert (k < length (w_leases w))%nat as Hlt by (by apply lookup_lt_Some in Hk).
  assert (l_ref l = ref) as Hl.
  { pose proof (H5 ref x ltac:(by left)) as Hh. destruct Hx as [-> | ->]; destruct Hh as (m & Hm & ? & _); congruence. }
  assert (forall r z, (r, z) ∈ c -> z <> HLease k /\ z <> HEntry k /\ z <> HGone k) as Hother.
  { intros r z Hz. assert (r <> ref) as Hne by (intros ->; by apply (fst_not_other ref x z c H1)).
    pose proof (H5 r z ltac:(by right)) as Hh. repeat split; intros ->; destruct Hh as (m & Hm & ? & _); congruence. }
  split; cbn [map fst w_manager w_leases set_leases set_manager] in *.
  - done.
  - exact Hpast.
  - intros r Hr. apply H2. by apply Hdom.
  - intros Hb Ho r Hr. apply Hdom, H3; [done | congruence | done].
  - intros r Hr. apply H4. by apply Hdom.
  - intros r z [[= -> ->] | Hz]%elem_of_cons.
    + destruct y as [| j | j | j]; [done | | |]; destruct Hy as [-> Hrel]; exists l'; cbn;
        rewrite list_lookup_insert_eq by done; split_and!; (done || congruence || apply Hrel).
    + destruct (Hother r z Hz) as (Hz1 & Hz2 & Hz3). specialize (H5 r z ltac:(by right)).
      destruct z as [| j | j | j]; [done | | |]; destruct H5 as (m & Hm & Hrest); exists m; cbn;
        rewrite list_lookup_insert_ne by congruence; done.
  - intros j m Hj Hh. destruct (decide (k = j)) as [<- | Hne].
    + rewrite list_lookup_insert_eq in Hj by done. simplify_eq. rewrite Href.
      destruct y as [| j | j | j]; [done | destruct Hy as [-> _]; left; by left | destruct Hy as [-> _]; right; by left |].
      destruct Hy as (_ & Hr1 & Hr2). destruct Hh; congruence.
    + rewrite list_lookup_insert_ne in Hj by done.
      destruct (H6 j m Hj Hh) as [[Heq | Hin]%elem_of_cons | [Heq | Hin]%elem_of_cons]; [| left; by right | | right; by right];
        destruct Hx; simplify_eq.
Qed.

Lemma set_manager_same w : set_manager (w_manager w) w = w.
Proof. by destruct w. Qed.

(** A lease that was released is forgotten. *)
Lemma custody_forget w ref k c :
  custody_ok w ((ref, HLease k) :: c) -> (forall l, w_leases w !! k = Some l -> ~ holding l) ->
  custody_ok w ((ref, HGone k) :: c).
Proof.
  intros [H1 Hpast H2 H3 H4 H5 H6] Hk. split; try done.
  - intros r x [[= -> ->] | Hx]%elem_of_cons; [| apply H5; by right].
    destruct (H5 ref (HLease k) ltac:(by left)) as (l & Hl & Hr & Hrel). exists l. split_and!; try done.
    destruct (l_released l) eqn:Hd; [done |]. destruct (Hk l Hl). by left.
  - intros j l Hj Hh. destruct (H6 j l Hj Hh) as [[Heq | ?]%elem_of_cons | [Heq | ?]%elem_of_cons];
      [| left; by right | | right; by right]; simplify_eq. by destruct (Hk l Hj).
Qed.

Lemma custody_none w ref k c : custody_ok w ((ref, HGone k) :: c) -> custody_ok w ((ref, HNone) :: c).
Proof.
  intros [H1 Hpast H2 H3 H4 H5 H6]. split; try done.
  - intros r x [[= -> ->] | Hx]%elem_of_cons; [done |]. apply H5. by right.
  - intros j l Hj Hh. destruct (H6 j l Hj Hh) as [[Heq | ?]%elem_of_cons | [Heq | ?]%elem_of_cons];
      [| left; by right | | right; by right]; by simplify_eq.
Qed.

Lemma custody_keep w ref k c : custody_ok w ((ref, HGone k) :: c) -> custody_ok w ((ref, HLease k) :: c).
Proof.
  intros [H1 Hpast H2 H3 H4 H5 H6]. split; try done.
  - intros r x [[= -> ->] | Hx]%elem_of_cons; [| apply H5; by right].
    destruct (H5 ref (HGone k) ltac:(by left)) as (l & Hl & Hr & _ & Hrel). by exists l.
  - intros j l Hj Hh. destruct (H6 j l Hj Hh) as [[Heq | ?]%elem_of_cons | [Heq | ?]%elem_of_cons];
      [| left; by right | | right; by right]; by simplify_eq.
Qed.

Lemma custody_release h w k l ref c :
  custody_ok w ((ref, HLease k) :: c) -> w_leases w !! k = Some l ->
  match fst (release_lease l) with
  | Ok true => custody_ok (run_section h (SRelease k) w) ((ref, HEntry k) :: c)
  | Ok false => custody_ok w ((ref, HGone k) :: c)
  | Err _ => l_running l = true
  end.
Proof.
  intros Hc Hk. pose proof Hc as [_ _ _ _ _ H5 _]. destruct (H5 ref (HLease k) ltac:(by left)) as (l0 & Hk0 & Href & Hrel).
  simplify_eq. unfold release_lease. destruct (l_released l) eqn:Hr.
  - apply (custody_forget w _ k); [done |]. intros l' Hl' [? | ?]; simplify_eq; congruence.
  - destruct (l_running l) eqn:Hn; [done |]. cbn [fst run_section]. unfold on_lease. rewrite Hk.
    unfold release_lease. rewrite Hr, Hn. cbn [snd].
    pose proof (custody_update w k l (with_released true l) (w_manager w) (l_ref l) (HLease k) (HEntry k) c Hc
      (or_introl eq_refl) Hk eq_refl eq_refl (fun _ => iff_refl _) (conj eq_refl eq_refl)) as H.
    by rewrite set_manager_same in H.
Qed.

Lemma custody_entry h w k ref y c :
  world_ok w -> custody_ok w ((ref, HEntry k) :: c) -> y = HNone \/ y = HLease k \/ y = HGone k ->
  custody_ok (run_section h (SReleaseEntry k) w) ((ref, y) :: c).
Proof.
  intros Hok Hc Hy. pose proof Hc as [_ _ _ _ _ H5 _]. destruct (H5 ref (HEntry k) ltac:(by left)) as (l & Hk & Href & Hrel).
  cbn [run_section]. rewrite Hk, Hrel. destruct (wo_leases _ Hok k l Hk) as [_ Hreleased _].
  apply (custody_update w k l (with_released false l) (release_entry l (w_manager w)) ref (HEntry k)).
  - done.
  - by right.
  - done.
  - done.
  - unfold release_entry. destruct (m_entries _ !! _); [| done]. by destruct (bool_decide _).
  - intros r. unfold release_entry. destruct (m_entries (w_manager w) !! l_ref l) as [item |] eqn:Hi; [| done].
    destruct (bool_decide _); [| done]. cbn. rewrite lookup_insert_is_Some. split.
    + intros [<- | [_ ?]]; [by eexists | done].
    + intros Hr. destruct (decide (l_ref l = r)); [by left | by right].
  - destruct Hy as [-> | [-> | ->]]; [intros [? | ?]; cbn in *; congruence | done | done].
Qed.

(** ** Removal *)

(** What an owner of this kind may remove. *)
Definition free_hold (w : world) (x : hold) : Prop :=
  match x with
  | HNone | HGone _ => True
  | HLease k => forall l, w_leases w !! k = Some l -> ~ holding l
  | HEntry _ => False
  end.

(** Nobody leases a workspace in custody without its lease. *)
Lemma custody_free w ref x c e :
  world_ok w -> custody_ok w ((ref, x) :: c) -> m_entries (w_manager w) !! ref = Some e ->
  free_hold w x -> e_owner e = "".
Proof.
  intros Hok [H1 Hpast H2 H3 H4 H5 H6] He Hx. destruct (decide (e_owner e = "")) as [| Hne]; [done |]. exfalso.
  destruct (eo_owner _ _ _ _ _ (wo_entries _ Hok ref e He) Hne) as (k & l & Hk & Hh & Hr).
  destruct (H6 k l Hk Hh) as [Hin | Hin]; rewrite Hr in Hin.
  all: apply elem_of_cons in Hin as [[= Heq] | Hin]; [subst x | by apply (fst_not_other ref x _ c H1) in Hin].
  - by apply (Hx l).
  - done.
Qed.

Lemma custody_drop w w' ref x c :
  custody_ok w ((ref, x) :: c) -> free_hold w x -> w_leases w' = w_leases w ->
  m_closed (w_manager w') = m_closed (w_manager w) ->
  (forall r, is_Some (m_entries (w_manager w') !! r) <-> r <> ref /\ is_Some (m_entries (w_manager w) !! r)) ->
  custody_ok w' c.
Proof.
  intros [H1 Hpast H2 H3 H4 H5 H6] Hx Hl Hcl Hdom. cbn [map fst] in *.
  assert (ref ∉ map fst c) as Hnot by (by apply list.NoDup_cons in H1 as [? _]). split.
  - by apply list.NoDup_cons in H1 as [_ ?].
  - intros r Hr. apply Hpast. by right.
  - intros r [Hne Hr]%Hdom. specialize (H2 r Hr). by apply elem_of_cons in H2 as [-> | ?].
  - intros Hb Ho r Hr. apply Hdom. split; [by intros -> |]. apply H3; [done | congruence | by right].
  - intros r [_ Hr]%Hdom. by apply H4.
  - intros r y Hy. specialize (H5 r y ltac:(by right)). unfold hold_ok in *. by rewrite Hl.
  - intros k l. rewrite Hl. intros Hk Hh.
    destruct (H6 k l Hk Hh) as [[Heq | ?]%elem_of_cons | [Heq | ?]%elem_of_cons]; [| by left | | by right].
    + simplify_eq. by destruct (Hx l Hk).
    + by simplify_eq.
Qed.

(** Why [Destroy] refuses an owner who may remove the workspace: it is gone, or
    the Host refused. *)
Lemma Destroy_refused h ref w x c e w' :
  world_ok w -> custody_ok w ((ref, x) :: c) -> free_hold w x -> Manager.Destroy h ref w = (Err e, w') ->
  (exists what, e = EHost what) \/ m_entries (w_manager w) !! ref = None.
Proof.
  intros Hok Hc Hx. pose proof (cu_valid _ _ _ _ Hc ref) as Hv. unfold Manager.Destroy.
  destruct (m_entries (w_manager w) !! ref) as [item |] eqn:Hi; [| by right]. rewrite Hv by (by eexists). cbn [negb].
  destruct (m_closed (w_manager w)) eqn:Hclosed. { rewrite (wo_closed _ Hok Hclosed) in Hi. by rewrite lookup_empty in Hi. }
  rewrite (custody_free w ref x c item Hok Hc Hi Hx), (bool_decide_eq_true_2 ("" = "")) by done. cbn [negb].
  unfold RemoveAll. destruct (h_remove h _); intros [= <- <-]. left. by eexists.
Qed.

(** [Destroy] by an owner that is done after it: a workspace the Host refuses to
    remove strays. *)
Lemma custody_destroy h w ref c r w' :
  world_ok w -> custody_ok w ((ref, HNone) :: c) -> Manager.Destroy h ref w = (r, w') ->
  custody_ok w' (strayed (refused r ref) ++ c).
Proof.
  intros Hok Hc Hd. destruct (Destroy_facts _ _ _ _ _ Hd) as (Hl & Hcl & H). destruct r as [[] | e].
  - by apply (custody_drop w w' ref HNone).
  - subst w'. destruct (Destroy_refused h ref w HNone c e w Hok Hc I Hd) as [[what ->] | Hnone]; [done |].
    assert (custody_ok w c) as Hdrop.
    { apply (custody_drop w w ref HNone); try done. intros q. split; [| by intros []]. intros Hq. split; [| done].
      intros ->. rewrite Hnone in Hq. by destruct Hq. }
    destruct e; try exact Hdrop. exact Hc.
Qed.

(** [Destroy] by an owner that keeps the reference when it fails. *)
Lemma custody_destroy_kept h w ref x c r w' :
  custody_ok w ((ref, x) :: c) -> free_hold w x -> Manager.Destroy h ref w = (r, w') ->
  match r with Ok _ => custody_ok w' c | Err _ => w' = w end.
Proof.
  intros Hc Hx Hd. destruct (Destroy_facts _ _ _ _ _ Hd) as (Hl & Hcl & H). destruct r; [| done].
  by apply (custody_drop w w' ref x).
Qed.

(** The end of [Close]: what is left of the manager is in the same custody. *)
Lemma custody_close (back' : Prop) h w c :
  world_ok w -> custody_ok w c -> (back' -> back) -> (back' -> forall root, h_remove h root = None) ->
  ServiceSpec.custody_ok back' past (snd (Manager.Close h w)) c
  /\ w_leases (snd (Manager.Close h w)) = w_leases w.
Proof.
  intros Hok Hc Hb Hremove. pose proof (Close_ok h w Hok) as Hok'. unfold Manager.Close in *.
  assert (ServiceSpec.custody_ok back' past w c) as Hsame by (by apply custody_weaken).
  destruct (m_closed (w_manager w)) eqn:Hopen; [done |]. destruct (existsb _ _); [done |].
  destruct (close_entries h _ true w) as [ok w'] eqn:Hloop.
  destruct (close_entries_facts _ _ _ _ _ _ Hloop) as (Hl & Hcl & Hsub & Hall).
  assert (forall w2, w_leases w2 = w_leases w ->
    (forall q, is_Some (m_entries (w_manager w2) !! q) -> is_Some (m_entries (w_manager w) !! q)) ->
    (back' -> m_closed (w_manager w2) = true) -> ServiceSpec.custody_ok back' past w2 c) as Hgen.
  { intros w2 Hl2 Hsub2 Hcl2. destruct Hc as [H1 Hpast H2 H3 H4 H5 H6]. split; auto.
    - intros Hb' Ho. rewrite Hcl2 in Ho by done. discriminate.
    - intros q x Hx. specialize (H5 q x Hx). unfold hold_ok in *. by rewrite Hl2.
    - by rewrite Hl2. }
  destruct ok; cbn [snd]; split; try done.
  - by apply Hgen.
  - apply Hgen; [done | done |]. intros Hb'. by specialize (Hall (Hremove Hb')).
Qed.
End Custody.
