(* ===== verification/ServiceInv.v ===== *)
(** * ServiceInv: the invariant of the workspace service

    [service_ok] says who answers for every workspace, what executes and which
    leases the goroutines may still enter.  [goes] is what one section of one
    goroutine owes to the invariant; every step of every goroutine [goes], so
    that the invariant holds over any requests, in any interleaving of their
    sections and of [Close], with any answers of the Guests. *)

From S2P Require Import Prelude Errors Json Paths RootedFS Sha256 Snapshot Conflict Ingress Manager ManagerProps Http Bridge Service ServiceSpec.

(** ** The invariant *)

(** The leases a goroutine may enter because they were in the table, and those
    only it knows of. *)
Definition uses (p : pc) : option nat :=
  match p with
  | PSnapshot k | PFile k _ | PRunAdmit k _ | PBefore k _ | PBegin k _ _ | PRunning k _ _ | PEnd k _ _ _ | PAfter k _ _ _ => Some k
  | _ => None
  end.

Definition private (p : pc) : option nat :=
  match p with PInsert _ k | PRetire _ k | PRetireEntry _ k => Some k | _ => None end.

(** The executions of a goroutine, and the leases it runs a Guest in. *)
Definition slot_of (p : pc) : list unit :=
  match p with
  | PPlainRun _ _ | PBefore _ _ | PBegin _ _ _ | PRunning _ _ _ | PEnd _ _ _ _ | PAfter _ _ _ _ | PFree _ => [tt]
  | _ => []
  end.

Definition running_of (p : pc) : list nat :=
  match p with PRunning k _ _ | PEnd k _ _ _ => [k] | _ => [] end.

Definition running_ok (w : world) (ks : list nat) : Prop :=
  NoDup ks /\ forall k, k ∈ ks <-> exists l, w_leases w !! k = Some l /\ l_running l = true.

Definition all_of {A} (f : pc -> list A) (threads : list pc) : list A := concat (map f threads).

(** The goroutines of [Close]. *)
Definition closing (p : pc) : bool :=
  match p with PCloseNext _ _ | PCloseEntry _ _ _ _ | PCloseDestroy _ _ _ _ => true | _ => false end.

(** What is in custody is in the manager until the server is closed, and after
    that as well if the Host removes what it is asked to ([strict]). *)
Definition backed (strict : bool) (s : service) : Prop := strict = true \/ sv_closed s = false.

(** [lost] are the workspaces that strayed, [past] the references issued. *)
Record service_ok (strict : bool) (maxActive : nat) (lost : list string) (past : string -> Prop) (s : service) : Prop := {
  so_world : world_ok (sv_world s);
  so_custody : custody_ok (backed strict s) past (sv_world s) (custody s ++ strayed lost);
  so_closed : sv_closed s = true <-> sv_leases s = None;
  so_slots : sv_used s = length (all_of slot_of (sv_threads s)) /\ (sv_used s <= maxActive)%nat;
  so_running : running_ok (sv_world s) (all_of running_of (sv_threads s));
  so_bound : forall i p k, sv_threads s !! i = Some p -> uses p = Some k -> (k < length (w_leases (sv_world s)))%nat;
  so_private : forall i j p q k, sv_threads s !! i = Some p -> sv_threads s !! j = Some q ->
                 private p = Some k -> uses q <> Some k;
  so_closing : forall i p, sv_threads s !! i = Some p -> closing p = true -> sv_closed s = true
}.

Lemma all_of_update {A} (f : pc -> list A) threads i p :
  threads !! i = Some p ->
  exists rest, all_of f threads ≡ₚ f p ++ rest /\ forall p', all_of f (<[i := p']> threads) ≡ₚ f p' ++ rest.
Proof.
  intros Hi. exists (all_of f (take i threads) ++ all_of f (drop (S i) threads)). unfold all_of.
  assert (i < length threads)%nat as Hlt by (by apply lookup_lt_Some in Hi). split.
  - rewrite <- (take_drop_middle threads i p Hi) at 1. rewrite map_app, concat_app. cbn. solve_Permutation.
  - intros p'. rewrite insert_take_drop by done. rewrite map_app, concat_app. cbn. solve_Permutation.
Qed.

Lemma table_of_custody t ref k :
  (ref, HLease k) ∈ table_custody (Some t) <-> t !! ref = Some k.
Proof.
  unfold table_custody. cbn. rewrite list_elem_of_fmap. split.
  - intros ([r j] & [= -> ->] & Hin). by apply elem_of_map_to_list.
  - intros H. exists (ref, k). split; [done |]. by apply elem_of_map_to_list.
Qed.

Section Steps.
Variable strict : bool.
Variable maxActive : nat.
Implicit Types (lost : list string) (past : string -> Prop).

(** The references that a section issues are new. *)
Definition issues_new (past : string -> Prop) (w w' : world) : Prop :=
  strict = true \/ forall ref, is_Some (m_entries (w_manager w') !! ref) -> m_entries (w_manager w) !! ref = None -> ~ past ref.

(** A goroutine that goes from [p] to [p'] and gives up [lost].  The conditions
    are on its own part of the custody, the executions and the leases. *)
Record goes (lost : list string) (s s' : service) (p p' : pc) : Prop := {
  go_threads : sv_threads s' = sv_threads s;
  go_world : world_ok (sv_world s');
  go_custody : forall past rest, issues_new past (sv_world s) (sv_world s') ->
                 custody_ok (backed strict s) past (sv_world s) (table_custody (sv_leases s) ++ custody_of p ++ rest) ->
                 custody_ok (backed strict s') (grown past (sv_world s) (sv_world s')) (sv_world s')
                   (table_custody (sv_leases s') ++ custody_of p' ++ strayed lost ++ rest);
  go_closed : sv_closed s' = true <-> sv_leases s' = None;
  go_slots : (sv_used s' + length (slot_of p) = sv_used s + length (slot_of p'))%nat /\ (sv_used s' <= maxActive)%nat;
  go_running : forall rest, running_ok (sv_world s) (running_of p ++ rest) -> running_ok (sv_world s') (running_of p' ++ rest);
  go_length : (length (w_leases (sv_world s)) <= length (w_leases (sv_world s')))%nat;
  go_uses : forall k, uses p' = Some k -> uses p = Some k \/ exists ref, table_lookup ref s = Some k;
  go_private : forall k, private p' = Some k -> private p = Some k \/ k = length (w_leases (sv_world s));
  go_shut : sv_closed s = true -> sv_closed s' = true;
  go_closing : closing p' = true -> sv_closed s' = true
}.

Lemma custody_split s i p :
  sv_threads s !! i = Some p ->
  exists rest, custody s ≡ₚ table_custody (sv_leases s) ++ custody_of p ++ rest
    /\ forall p' t, table_custody t ++ all_of custody_of (<[i := p']> (sv_threads s)) ≡ₚ table_custody t ++ custody_of p' ++ rest.
Proof.
  intros Hi. destruct (all_of_update custody_of _ i p Hi) as (rest & H1 & H2). exists rest.
  split; [unfold custody; by rewrite <- H1 |]. intros p' t. by rewrite H2.
Qed.

Lemma goes_ok lost new past s s' i p p' :
  service_ok strict maxActive lost past s -> sv_threads s !! i = Some p -> goes new s s' p p' ->
  issues_new past (sv_world s) (sv_world s') ->
  service_ok strict maxActive (lost ++ new) (grown past (sv_world s) (sv_world s'))
    (set_threads (<[i := p']> (sv_threads s')) s').
Proof.
  intros [Hw Hcu Hcl Hsl Hru Hbo Hpr Hcg] Hi [Gt Gw Gcu Gcl Gsl Gru Gle Gu Gp Gs Gcg] Hnew. rewrite Gt.
  destruct (custody_split s i p Hi) as (rest & Hc1 & Hc2).
  assert (i < length (sv_threads s))%nat as Hlt by (by apply lookup_lt_Some in Hi).
  assert (forall ref x, (ref, x) ∈ custody s -> hold_ok (sv_world s) ref x) as Hheld.
  { intros ref x Hx. apply (cu_hold _ _ _ _ Hcu). rewrite elem_of_app. by left. }
  assert (forall ref k, table_lookup ref s = Some k -> (ref, HLease k) ∈ custody s) as Htable.
  { intros ref k Hk. unfold table_lookup in Hk. destruct (sv_leases s) as [t |] eqn:Ht; [| done].
    unfold custody. rewrite Ht. apply elem_of_app. left. by apply table_of_custody. }
  assert (forall j q k, sv_threads s !! j = Some q -> private q = Some k ->
    exists ref x, (ref, x) ∈ custody_of q /\ (x = HLease k \/ x = HEntry k)) as Hpriv.
  { intros j q k _ Hq. destruct q; simplify_eq/=; eexists _, _; (split; [by left | auto]). }
  assert (forall j q k ref, sv_threads s !! j = Some q -> private q = Some k -> table_lookup ref s <> Some k) as Hapart.
  { intros j q k ref Hj Hq Hk. destruct (Hpriv j q k Hj Hq) as (ref' & x & Hin & Hx).
    destruct (custody_split s j q Hj) as (rest' & Hcs & _). pose proof (Htable ref k Hk) as Ht.
    assert ((ref', x) ∈ custody s) as Hin' by (rewrite Hcs, !elem_of_app; auto).
    assert (l_ref <$> w_leases (sv_world s) !! k = Some ref) as H1.
    { destruct (Hheld _ _ Ht) as (l & -> & <- & _). done. }
    assert (l_ref <$> w_leases (sv_world s) !! k = Some ref') as H2.
    { pose proof (Hheld _ _ Hin') as Hh. destruct Hx as [-> | ->]; destruct Hh as (l & -> & <- & _); done. }
    assert (ref' = ref) as -> by congruence.
    unfold table_lookup in Hk. destruct (sv_leases s) as [t |] eqn:Hts; [| done]. cbn in Hk.
    pose proof (cu_unique _ _ _ _ Hcu) as Hnd. rewrite Hcs, !map_app, <- app_assoc in Hnd.
    apply list.NoDup_app in Hnd as (_ & Hnd & _).
    apply (Hnd ref); [apply list_elem_of_fmap; exists (ref, HLease k); split; [done | by apply table_of_custody] |].
    rewrite !elem_of_app. left. left. apply list_elem_of_fmap. by exists (ref, x). }
  split; cbn [sv_world sv_leases sv_closed sv_used sv_threads set_threads].
  - done.
  - assert (custody (set_threads (<[i := p']> (sv_threads s)) s') ++ strayed (lost ++ new)
      ≡ₚ table_custody (sv_leases s') ++ custody_of p' ++ strayed new ++ rest ++ strayed lost) as Hperm.
    { unfold custody. cbn [set_threads sv_leases sv_threads]. unfold all_of in Hc2. rewrite Hc2.
      unfold strayed. rewrite map_app. solve_Permutation. }
    change (custody_ok (backed strict s') (grown past (sv_world s) (sv_world s')) (sv_world s')
      (custody (set_threads (<[i := p']> (sv_threads s)) s') ++ strayed (lost ++ new))).
    rewrite Hperm. apply Gcu; [done |]. rewrite Hc1 in Hcu. by rewrite <- !app_assoc in Hcu.
  - done.
  - destruct (all_of_update slot_of _ i p Hi) as (r & Ha1 & Ha2). split; [| lia]. rewrite Ha2, length_app.
    destruct Hsl as [Hu _]. rewrite Ha1, length_app in Hu. lia.
  - destruct (all_of_update running_of _ i p Hi) as (r & Ha1 & Ha2). unfold running_ok. setoid_rewrite Ha2.
    apply Gru. destruct Hru as [Hr1 Hr2]. split; [by rewrite <- Ha1 | intros k; by rewrite <- Ha1].
  - intros j q k Hj Hq. destruct (decide (i = j)) as [<- | Hne].
    + rewrite list_lookup_insert_eq in Hj by done. simplify_eq. destruct (Gu k Hq) as [Hk | [ref Hk]].
      * specialize (Hbo i p k Hi Hk). lia.
      * destruct (Hheld _ _ (Htable ref k Hk)) as (l & Hl & _). apply lookup_lt_Some in Hl. lia.
    + rewrite list_lookup_insert_ne in Hj by done. specialize (Hbo j q k Hj Hq). lia.
  - intros j1 j2 q1 q2 k Hj1 Hj2 Hq1 Hq2.
    assert ((exists j q, sv_threads s !! j = Some q /\ private q = Some k) \/ k = length (w_leases (sv_world s))) as H1.
    { destruct (decide (i = j1)) as [<- | Hne].
      - rewrite list_lookup_insert_eq in Hj1 by done. simplify_eq. destruct (Gp k Hq1) as [? | ->]; [left; by exists i, p | by right].
      - rewrite list_lookup_insert_ne in Hj1 by done. left. by exists j1, q1. }
    assert ((exists j q, sv_threads s !! j = Some q /\ uses q = Some k) \/ exists ref, table_lookup ref s = Some k) as H2.
    { destruct (decide (i = j2)) as [<- | Hne].
      - rewrite list_lookup_insert_eq in Hj2 by done. simplify_eq. destruct (Gu k Hq2) as [? | ?]; [left; by exists i, p | by right].
      - rewrite list_lookup_insert_ne in Hj2 by done. left. by exists j2, q2. }
    destruct H1 as [(j & q & Hj & Hq) | ->], H2 as [(j' & q' & Hj' & Hq') | (ref & Href)].
    + by apply (Hpr j j' q q' k).
    + by apply (Hapart j q k ref Hj Hq).
    + specialize (Hbo _ _ _ Hj' Hq'). lia.
    + destruct (Hheld _ _ (Htable ref _ Href)) as (l & Hl & _). apply lookup_lt_Some in Hl. lia.
  - intros j q [(<- & <- & _) | [_ Hj]]%list_lookup_insert_Some Hq; [by apply Gcg |]. by apply Gs, (Hcg j q).
Qed.

Section Invariant.
Context {lost : list string} {past : string -> Prop}.

(** ** Steps that change only the goroutine, or only the world *)

Lemma goes_same s p p' :
  service_ok strict maxActive lost past s -> custody_of p' ≡ₚ custody_of p -> slot_of p' = slot_of p -> running_of p' = running_of p ->
  (forall k, uses p' = Some k -> uses p = Some k \/ exists ref, table_lookup ref s = Some k) ->
  (forall k, private p' = Some k -> private p = Some k) -> (closing p' = true -> sv_closed s = true) ->
  goes [] s s p p'.
Proof.
  intros [Hw Hcu Hcl Hsl Hru Hbo Hpr Hcg] Hc Hs Hr Hu Hp Hclo. split; try done; rewrite ?Hs, ?Hr; try done.
  - intros past' rest _ H. cbn [strayed map app]. rewrite Hc. by apply custody_grown.
  - lia.
  - intros k Hk. left. by apply Hp.
Qed.

Definition same_running (w w' : world) : Prop :=
  forall k, (exists l, w_leases w !! k = Some l /\ l_running l = true)
        <-> (exists l, w_leases w' !! k = Some l /\ l_running l = true).

Lemma same_running_leases w w' : w_leases w' = w_leases w -> same_running w w'.
Proof. intros H k. by rewrite H. Qed.

Lemma same_running_insert w w' k l l' :
  w_leases w !! k = Some l -> w_leases w' = <[k := l']> (w_leases w) -> l_running l' = l_running l -> same_running w w'.
Proof.
  intros Hk Hw Hr j. rewrite Hw. assert (k < length (w_leases w))%nat by (by apply lookup_lt_Some in Hk).
  destruct (decide (k = j)) as [<- | Hne]; [| by rewrite list_lookup_insert_ne].
  rewrite list_lookup_insert_eq by done. rewrite Hk. naive_solver congruence.
Qed.

Lemma goes_world new s w' p p' :
  service_ok strict maxActive lost past s -> world_ok w' ->
  (forall past' c, issues_new past' (sv_world s) w' ->
     custody_ok (backed strict s) past' (sv_world s) (custody_of p ++ c) ->
     custody_ok (backed strict s) (grown past' (sv_world s) w') w' (custody_of p' ++ strayed new ++ c)) ->
  same_running (sv_world s) w' -> (length (w_leases (sv_world s)) <= length (w_leases w'))%nat ->
  slot_of p' = slot_of p -> running_of p' = running_of p ->
  (forall k, uses p' = Some k -> uses p = Some k) ->
  (forall k, private p' = Some k -> private p = Some k \/ k = length (w_leases (sv_world s))) ->
  (closing p' = true -> sv_closed s = true) ->
  goes new s (set_world w' s) p p'.
Proof.
  intros [Hw Hcu Hcl Hsl Hru Hbo Hpr Hcg] Hw' Hc Hrun Hlen Hs Hr Hu Hp Hclo.
  split; cbn [set_world sv_world sv_leases sv_closed sv_used sv_threads]; rewrite ?Hs, ?Hr; try done.
  - intros past' rest Hnew Hrest. specialize (Hc past' (table_custody (sv_leases s) ++ rest) Hnew).
    assert (table_custody (sv_leases s) ++ custody_of p' ++ strayed new ++ rest
            ≡ₚ custody_of p' ++ strayed new ++ table_custody (sv_leases s) ++ rest) as -> by solve_Permutation.
    apply Hc. by rewrite (Permutation_app_swap_app (custody_of p)).
  - lia.
  - intros rest [H1 H2]. split; [done |]. intros k. rewrite H2. apply Hrun.
  - intros k Hk. left. by apply Hu.
Qed.

(** ** The sections *)

Lemma step_create_goes s a files p r w' :
  service_ok strict maxActive lost past s -> sound_host (an_host a) -> custody_of p = [] -> slot_of p = [] -> running_of p = [] ->
  Create (an_host a) files DefaultLimits (sv_world s) = (r, w') ->
  goes [] s (set_world w' s) p (match r with Ok ref => PAcquire ref | Err e => done (RWorkspace e) end).
Proof.
  intros Hok Hs Hc Hsl Hr Hcreate. pose proof (so_world _ _ _ _ _ Hok) as Hw.
  destruct (Create_facts _ _ _ _ _ _ Hw Hs Hcreate) as [Hl _]. apply goes_world; try done.
  - pose proof (Create_ok (an_host a) files DefaultLimits _ Hw) as H. by rewrite Hcreate in H.
  - intros past' c Hnew Hcu. rewrite Hc in Hcu. cbn [strayed map app] in *.
    pose proof (custody_create (an_host a) files DefaultLimits _ _ Hw Hs Hcu) as H. rewrite Hcreate in H.
    assert (match r with
            | Ok ref => custody_ok (backed strict s) (grown past' (sv_world s) w') w' ((ref, HNone) :: c)
            | Err _ => custody_ok (backed strict s) past' w' c
            end) as H'.
    { apply H. destruct Hnew as [Hb | Hnew]; [left; by left | by right]. }
    destruct r; [done |]. by apply custody_grown.
  - by apply same_running_leases.
  - by rewrite Hl.
  - by destruct r.
  - by destruct r.
  - by destruct r.
  - by destruct r.
  - by destruct r.
Qed.

Lemma step_acquire_goes s a ref p' s' :
  service_ok strict maxActive lost past s -> step_acquire a ref s = (p', s') -> goes [] s s' (PAcquire ref) p'.
Proof.
  intros Hok. unfold step_acquire. destruct (Acquire _ _ _ _) as [r w'] eqn:Ha. intros [= <- <-].
  pose proof (Acquire_ok (an_host a) ref service_owner _ (so_world _ _ _ _ _ Hok)) as Hw. rewrite Ha in Hw. cbn in Hw.
  assert (match r with
          | Ok l => l_running l = false /\ w_leases w' = w_leases (sv_world s) ++ [l]
          | Err _ => w' = sv_world s
          end) as Hl.
  { unfold Acquire in Ha. destruct (_ || _ || _); [by simplify_eq |]. destruct (m_closed _); [by simplify_eq |].
    destruct (_ !! ref); [| by simplify_eq]. destruct (negb _); [by simplify_eq |].
    destruct (h_scan _ _ _) as [[] |]; by simplify_eq. }
  apply goes_world; try done.
  - intros past' c _ Hc. apply custody_grown. cbn [strayed map app].
    pose proof (custody_acquire (an_host a) ref service_owner _ _ Hc) as H. rewrite Ha in H.
    destruct r; [done |]. by subst.
  - destruct r as [l |]; [destruct Hl as [Hn Hl] | by subst]. intros k. rewrite Hl. split.
    + intros (m & Hm & Hr). exists m. split; [| done]. rewrite lookup_app_l; [done |]. by apply lookup_lt_Some in Hm.
    + intros (m & [Hm | [_ <-]]%lookup_snoc_Some' & Hr); [by exists m | congruence].
  - destruct r as [l |]; [destruct Hl as [_ ->]; rewrite length_app; lia | by subst].
  - by destruct r.
  - by destruct r.
  - by destruct r.
  - destruct r; [| done]. intros k [= <-]. by right.
  - by destruct r.
Qed.

(** What the sections of a release do to a world. *)
Definition world_step (w w' : world) (ref : string) (x y : hold) : Prop :=
  world_ok w' /\ same_running w w' /\ length (w_leases w') = length (w_leases w)
  /\ forall back past' c, custody_ok back past' w ((ref, x) :: c) -> custody_ok back past' w' ((ref, y) :: c).

Lemma on_lease_facts k f w l :
  w_leases w !! k = Some l -> (forall m, l_running (f m) = l_running m) ->
  same_running w (on_lease k f w) /\ length (w_leases (on_lease k f w)) = length (w_leases w).
Proof.
  intros Hk Hf. unfold on_lease. rewrite Hk. split; [by apply (same_running_insert _ _ k l (f l)) | by apply length_insert].
Qed.

Lemma step_release_spec s a k ref refused entry released p' s' rest :
  service_ok strict maxActive lost past s -> custody s ++ strayed lost ≡ₚ (ref, HLease k) :: rest ->
  step_release a k refused entry released s = (p', s') ->
  exists l, lease_at k s = Some l /\ (l_running l = true -> l_released l = false) /\
    ((exists e, p' = refused e /\ s' = s /\ l_running l = true)
     \/ (p' = entry /\ exists w', s' = set_world w' s /\ world_step (sv_world s) w' ref (HLease k) (HEntry k))
     \/ (p' = released /\ s' = s /\ free_hold (sv_world s) (HLease k))).
Proof.
  intros Hok Hc Hstep. pose proof (so_custody _ _ _ _ _ Hok) as Hcu. rewrite Hc in Hcu.
  destruct (cu_hold _ _ _ _ Hcu ref (HLease k) ltac:(by left)) as (l & Hl & Href & Hrel).
  exists l. split; [done |]. split; [apply (lo_running _ _ (wo_leases _ (so_world _ _ _ _ _ Hok) k l Hl)) |].
  unfold step_release, lease_at in Hstep. rewrite Hl in Hstep.
  pose proof (fun back past' c Hc' => custody_release (back := back) (past := past') (an_host a) (sv_world s) k l ref c Hc' Hl)
    as Hrelease.
  destruct (fst (release_lease l)) as [[|] | e] eqn:Hf; simplify_eq.
  - right. left. split; [done |]. exists (run_section (an_host a) (SRelease k) (sv_world s)). split; [done |].
    split; [apply run_section_ok, Hok |]. cbn [run_section].
    assert (forall m, l_running (snd (release_lease m)) = l_running m) as Hsame.
    { intros m. unfold release_lease. destruct (l_released m); [done |]. by destruct (l_running m) eqn:?. }
    destruct (on_lease_facts k (fun l => snd (release_lease l)) _ l Hl Hsame) as [H1 H2]. done.
  - right. right. split; [done |]. split; [done |]. intros m Hm [Hh | Hh]; simplify_eq; [| congruence].
    unfold release_lease in Hf. rewrite Hh in Hf. by destruct (l_running l).
  - left. exists e. by apply Hrelease in Hcu.
Qed.

Lemma step_entry_spec s a k ref refused released p' s' rest :
  service_ok strict maxActive lost past s -> custody s ++ strayed lost ≡ₚ (ref, HEntry k) :: rest ->
  step_entry a k refused released s = (p', s') ->
  exists w', s' = set_world w' s
    /\ (forall y, y = HNone \/ y = HLease k \/ y = HGone k -> world_step (sv_world s) w' ref (HEntry k) y)
    /\ free_hold w' (HLease k)
    /\ ((exists e, p' = refused e) \/ p' = released).
Proof.
  intros Hok Hc Hstep. pose proof (so_custody _ _ _ _ _ Hok) as Hcu. rewrite Hc in Hcu.
  destruct (cu_hold _ _ _ _ Hcu ref (HEntry k) ltac:(by left)) as (l & Hl & Href & Hrel).
  unfold step_entry in Hstep. simplify_eq. exists (run_section (an_host a) (SReleaseEntry k) (sv_world s)). split; [done |].
  destruct (wo_leases _ (so_world _ _ _ _ _ Hok) k l Hl) as [_ Hreleased _]. specialize (Hreleased Hrel).
  split; [| split].
  - intros y Hy. split; [apply run_section_ok, Hok |]. split; [| split].
    + cbn [run_section]. rewrite Hl, Hrel. by apply (same_running_insert _ _ k l (with_released false l)).
    + cbn [run_section]. rewrite Hl, Hrel. apply length_insert.
    + intros back past' c Hc'. by apply custody_entry; [apply Hok | |].
  - intros m. cbn [run_section]. rewrite Hl, Hrel. cbn. rewrite list_lookup_insert_eq by (by apply lookup_lt_Some in Hl).
    intros [= <-] [? | ?]; cbn in *; congruence.
  - destruct (an_close a); [left; by eexists | by right].
Qed.

Lemma set_world_same s : set_world (sv_world s) s = s.
Proof. by destruct s. Qed.

(** A step of one workspace and its owner. *)
Lemma goes_hold s w' p p' ref x y c :
  service_ok strict maxActive lost past s -> world_step (sv_world s) w' ref x y ->
  custody_of p ≡ₚ (ref, x) :: c -> custody_of p' ≡ₚ (ref, y) :: c ->
  slot_of p' = slot_of p -> running_of p' = running_of p ->
  (forall k, uses p' = Some k -> uses p = Some k) -> (forall k, private p' = Some k -> private p = Some k) ->
  (closing p' = true -> sv_closed s = true) -> goes [] s (set_world w' s) p p'.
Proof.
  intros Hok (Hw & Hr & Hlen & Hc) Hp Hp' Hs Hrun Hu Hpr Hclo. apply goes_world; try done.
  - intros past' d _. rewrite Hp, Hp'. cbn [strayed map app]. intros H. by apply custody_grown, Hc.
  - lia.
  - intros k Hk. left. by apply Hpr.
Qed.

Lemma goes_hold_same s p p' ref x y c :
  service_ok strict maxActive lost past s ->
  (forall back past' d, custody_ok back past' (sv_world s) ((ref, x) :: d) ->
     custody_ok back past' (sv_world s) ((ref, y) :: d)) ->
  custody_of p ≡ₚ (ref, x) :: c -> custody_of p' ≡ₚ (ref, y) :: c ->
  slot_of p' = slot_of p -> running_of p' = running_of p ->
  (forall k, uses p' = Some k -> uses p = Some k) -> (forall k, private p' = Some k -> private p = Some k) ->
  (closing p' = true -> sv_closed s = true) -> goes [] s s p p'.
Proof.
  intros Hok Hc Hp Hp' Hs Hr Hu Hpr Hclo. rewrite <- (set_world_same s) at 2.
  apply (goes_hold s (sv_world s) p p' ref x y c); try done. split; [apply Hok |]. by apply conj.
Qed.

Lemma held_app l f : map (fun x : string * nat => (fst x, HLease (snd x))) (l ++ f)
  = map (fun x => (fst x, HLease (snd x))) l ++ map (fun x => (fst x, HLease (snd x))) f.
Proof. apply map_app. Qed.

(** [Destroy] by an owner whose last section it is. *)
Lemma removes_goes s a ref p (next : res ws_error unit -> reply) p' s' :
  service_ok strict maxActive lost past s -> custody_of p = [(ref, HNone)] -> slot_of p = [] -> running_of p = [] ->
  step_destroy a ref (fun r => done (next r)) s = (p', s') ->
  goes (refused (fst (Manager.Destroy (an_host a) ref (sv_world s))) ref) s s' p p'.
Proof.
  intros Hok Hp Hsl Hr. unfold step_destroy. destruct (Manager.Destroy _ _ _) as [r w'] eqn:Hd. intros [= <- <-].
  pose proof (so_world _ _ _ _ _ Hok) as Hw. pose proof (Destroy_ok (an_host a) ref _ Hw) as Hw'. rewrite Hd in Hw'.
  destruct (Destroy_facts _ _ _ _ _ Hd) as (Hl & _ & _). cbn [fst snd] in *. apply goes_world; try done; try congruence.
  - intros past' c _. rewrite Hp. intros Hc. by apply custody_grown, (custody_destroy (an_host a) (sv_world s) ref c r w').
  - by apply same_running_leases.
  - by rewrite Hl.
Qed.

(** [Destroy] by [Close], which keeps the lease when it fails. *)
Lemma close_destroy_goes s a ref k leases failed p' s' :
  service_ok strict maxActive lost past s -> sv_closed s = true ->
  step_destroy a ref (fun r => PCloseNext leases (match r with Ok _ => failed | Err _ => (ref, k) :: failed end)) s = (p', s') ->
  goes [] s s' (PCloseDestroy ref k leases failed) p'.
Proof.
  intros Hok Hcl. unfold step_destroy. destruct (Manager.Destroy _ _ _) as [r w'] eqn:Hd. intros [= <- <-].
  pose proof (so_world _ _ _ _ _ Hok) as Hw. pose proof (Destroy_ok (an_host a) ref _ Hw) as Hw'. rewrite Hd in Hw'.
  destruct (Destroy_facts _ _ _ _ _ Hd) as (Hl & _ & _). cbn [fst snd] in *. apply goes_world; try done; try congruence.
  - intros past' c _ Hc. apply custody_grown. cbn [strayed map app custody_of] in *.
    pose proof (custody_destroy_kept (an_host a) _ ref (HGone k) _ r w' Hc I Hd) as H. destruct r as [[] | e]; [done |].
    subst w'. apply custody_keep in Hc. rewrite !held_app in *. cbn [map fst snd app]. revert Hc.
    apply custody_ok_perm. solve_Permutation.
  - by apply same_running_leases.
  - by rewrite Hl.
Qed.

(** ** Executions *)

Lemma admission_goes s p granted p' s' :
  service_ok strict maxActive lost past s -> custody_of p = [] -> custody_of granted = [] ->
  slot_of p = [] -> slot_of granted = [tt] -> running_of p = [] -> running_of granted = [] ->
  (forall k, uses granted = Some k -> uses p = Some k) -> private granted = None -> closing granted = false ->
  admission maxActive granted s = (p', s') -> goes [] s s' p p'.
Proof.
  intros Hok Hc Hcu' Hs Hsg Hr Hrg Hu Hp Hclo. unfold admission. destruct (Nat.ltb_spec (sv_used s) maxActive); intros [= <- <-].
  - pose proof Hok as [Hw Hcu Hcl Hsl Hru Hbo Hpr Hcg].
    split; cbn [set_used sv_world sv_leases sv_closed sv_used sv_threads]; rewrite ?Hc, ?Hcu', ?Hs, ?Hsg, ?Hr, ?Hrg; try done.
    + intros past' rest _ Hrest. by apply custody_grown.
    + cbn. lia.
    + intros k Hk. left. by apply Hu.
    + intros k Hk. congruence.
    + congruence.
  - apply goes_same; try done; by rewrite ?Hc, ?Hs, ?Hr.
Qed.

Lemma free_goes s r : service_ok strict maxActive lost past s -> sv_used s <> 0%nat -> goes [] s (set_used (pred (sv_used s)) s) (PFree r) (done r).
Proof.
  intros [Hw Hcu Hcl Hsl Hru Hbo Hpr Hcg] Hne.
  split; cbn [set_used sv_world sv_leases sv_closed sv_used sv_threads]; try done; [| cbn; lia].
  intros past' rest _ H. by apply custody_grown.
Qed.

(** A Guest begins or ends in a lease. *)
Lemma with_running_goes s h k b l p p' :
  service_ok strict maxActive lost past s -> lease_at k s = Some l -> l_running l = negb b -> (b = true -> l_released l = false) ->
  custody_of p = [] -> custody_of p' = [] -> slot_of p' = slot_of p ->
  running_of p = (if b then [] else [k]) -> running_of p' = (if b then [k] else []) ->
  (forall k, uses p' = Some k -> uses p = Some k) -> private p' = None -> closing p' = false ->
  (forall w, run_section h (if b then SBeginRun k else SEndRun k) w =
     on_lease k (if b then (fun l => snd (BeginRun l)) else EndRun) w) ->
  goes [] s (enter_world h (if b then SBeginRun k else SEndRun k) s) p p'.
Proof.
  intros Hok Hl Hrun Hrel Hc Hc' Hs Hr Hr' Hu Hp Hclo Hsec. pose proof Hok as [Hw Hcu Hcl Hsl Hru Hbo Hpr Hcg].
  assert (run_section h (if b then SBeginRun k else SEndRun k) (sv_world s) =
    set_leases (<[k := with_running b l]> (w_leases (sv_world s))) (sv_world s)) as Heq.
  { rewrite Hsec. unfold on_lease. unfold lease_at in Hl. rewrite Hl. destruct b; [| done].
    unfold BeginRun, idle. rewrite (Hrel eq_refl), Hrun. done. }
  assert (k < length (w_leases (sv_world s)))%nat as Hlt by (by apply lookup_lt_Some in Hl).
  pose proof (run_section_ok h (if b then SBeginRun k else SEndRun k) _ Hw) as Hw'.
  unfold enter_world. rewrite Heq in Hw' |- *.
  split; cbn [set_world sv_world sv_leases sv_closed sv_used sv_threads]; rewrite ?Hc, ?Hc', ?Hs; try done.
  - intros past' rest _ Hrest. by apply custody_grown, custody_run.
  - lia.
  - rewrite Hr, Hr'. intros rest [Hnd Hiff]. unfold running_ok. cbn [set_leases w_leases]. destruct b; cbn [app] in *.
    + split.
      * apply list.NoDup_cons. split; [| done]. intros Hin. apply Hiff in Hin as (m & Hm & Hmr). unfold lease_at in Hl. simplify_eq.
        rewrite Hrun in Hmr. done.
      * intros j. destruct (decide (k = j)) as [<- | Hne].
        -- rewrite list_lookup_insert_eq by done. split; [intros _; by eexists | intros _; by left].
        -- rewrite list_lookup_insert_ne by done. rewrite elem_of_cons, <- Hiff. naive_solver.
    + apply list.NoDup_cons in Hnd as [Hnot Hnd]. split; [done |]. intros j. destruct (decide (k = j)) as [<- | Hne].
      * rewrite list_lookup_insert_eq by done. split; [done |]. intros (m & [= <-] & Hm). done.
      * rewrite list_lookup_insert_ne by done. rewrite <- Hiff, elem_of_cons. naive_solver.
  - cbn [set_leases w_leases]. by rewrite length_insert.
  - intros j Hj. left. by apply Hu.
  - intros j Hj. congruence.
  - congruence.
Qed.

(** ** The table *)

Lemma table_insert t ref k rest :
  t !! ref = None -> table_custody (Some (<[ref := k]> t)) ++ rest ≡ₚ table_custody (Some t) ++ (ref, HLease k) :: rest.
Proof.
  intros Hn. unfold table_custody. cbn [from_option]. rewrite map_to_list_insert by done. cbn [map app]. solve_Permutation.
Qed.

Lemma table_delete t ref k rest :
  t !! ref = Some k -> table_custody (Some t) ++ rest ≡ₚ table_custody (Some (delete ref t)) ++ (ref, HLease k) :: rest.
Proof.
  intros Hk. rewrite <- (insert_delete_id t ref k Hk) at 1. apply table_insert. apply lookup_delete_eq.
Qed.

(** A lease that a goroutine holds is not in the table. *)
Lemma not_in_table s i p t ref x c :
  service_ok strict maxActive lost past s -> sv_threads s !! i = Some p -> custody_of p = (ref, x) :: c -> sv_leases s = Some t -> t !! ref = None.
Proof.
  intros Hok Hi Hp Ht. destruct (t !! ref) as [k |] eqn:Hk; [| done]. exfalso.
  destruct (custody_split s i p Hi) as (rest & Hc & _). pose proof (cu_unique _ _ _ _ (so_custody _ _ _ _ _ Hok)) as Hnd.
  rewrite Hc, Hp, Ht, !map_app, <- app_assoc in Hnd. apply list.NoDup_app in Hnd as (_ & Hnd & _).
  apply (Hnd ref); [| by left]. apply list_elem_of_fmap. exists (ref, HLease k). split; [done | by apply table_of_custody].
Qed.

(** A goroutine gives its lease to the table. *)
Lemma store_goes s i p p' t ref k :
  service_ok strict maxActive lost past s -> sv_threads s !! i = Some p -> custody_of p = [(ref, HLease k)] -> custody_of p' = [] ->
  slot_of p = [] -> slot_of p' = [] -> running_of p = [] -> running_of p' = [] -> uses p' = None -> private p' = None ->
  closing p' = false -> sv_leases s = Some t -> goes [] s (set_table (Some (<[ref := k]> t)) s) p p'.
Proof.
  intros Hok Hi Hc Hc' Hs Hs' Hr Hr' Hu Hp Hclo Ht. pose proof (not_in_table s i p t ref _ _ Hok Hi Hc Ht) as Hnone.
  pose proof Hok as [Hw Hcu Hcl Hsl Hru Hbo Hpr Hcg].
  split; cbn [set_table sv_world sv_leases sv_closed sv_used sv_threads]; rewrite ?Hc, ?Hc', ?Hs, ?Hs', ?Hr, ?Hr'; try done.
  - intros past' rest _. rewrite Ht. cbn [app strayed map]. rewrite table_insert by done. apply custody_grown.
  - rewrite Hcl, Ht. done.
  - lia.
  - congruence.
  - congruence.
  - congruence.
Qed.

Lemma take_goes s ref p' s' : service_ok strict maxActive lost past s -> step_take ref s = (p', s') -> goes [] s s' (PTake ref) p'.
Proof.
  intros Hok. unfold step_take, table_lookup. destruct (sv_leases s) as [t |] eqn:Ht; cbn; cycle 1.
  { intros [= <- <-]. by apply goes_same. }
  destruct (t !! ref) as [k |] eqn:Hk; intros [= <- <-]; [| by apply goes_same].
  pose proof Hok as [Hw Hcu Hcl Hsl Hru Hbo Hpr Hcg].
  split; cbn [set_table sv_world sv_leases sv_closed sv_used sv_threads]; try done.
  - intros past' rest _. rewrite Ht. cbn [custody_of app fmap option_fmap option_map strayed map].
    rewrite <- table_delete by done. apply custody_grown.
  - rewrite Hcl, Ht. done.
  - cbn. lia.
Qed.

Lemma close_goes s a p' s' :
  service_ok strict maxActive lost past s -> step_close a s = (p', s') -> goes [] s s' PClose p'.
Proof.
  intros Hok. unfold step_close. destruct (sv_closed s) eqn:Hcl; intros [= <- <-]; [by apply goes_same |].
  pose proof Hok as [Hw Hcu _ Hsl Hru Hbo Hpr Hcg].
  split; cbn [shut sv_world sv_leases sv_closed sv_used sv_threads]; try done.
  - intros past' rest _ H. cbn [custody_of app strayed map] in *. apply custody_grown.
    apply (custody_weaken (backed strict (shut s)) past') in H; [| | done].
    2:{ intros [Hb | Hb]; [by left | done]. }
    revert H. apply custody_ok_perm. unfold table_custody. cbn [from_option map app]. rewrite app_nil_r.
    by rewrite arrange_perm.
  - cbn. lia.
Qed.

(** ** Every step *)

Variable maxRunDuration : Z.
Variable unmarshal_any : string -> bool.
Notation step_pc := (step_pc maxRunDuration unmarshal_any maxActive).

Ltac stays := apply goes_same; [assumption | done | done | done | try done | try done | try done].

Lemma locked_Some {A} s (k x : A) : locked s k = Some x -> x = k /\ sv_stuck s = false.
Proof. unfold locked. destruct (sv_stuck s); [done |]. by intros [= <-]. Qed.

Lemma step_request_goes s a r p' s' :
  service_ok strict maxActive lost past s -> sound_host (an_host a) ->
  step_request maxRunDuration unmarshal_any a r s = Some (p', s') -> goes [] s s' (PRequest r) p'.
Proof.
  intros Hok Hs. unfold step_request. destruct (dispatch _ _ r) as [t | reply]; [| intros [= <- <-]; stays].
  destruct t; try (intros [= <- <-]; stays).
  - intros [[= -> ->] _]%locked_Some. stays.
  - unfold step_create. destruct (Create _ _ _ _) as [c w'] eqn:Hc. intros [= <- <-].
    by apply (step_create_goes s a files (PRequest r) c w').
Qed.

Lemma lookup_goes s t : service_ok strict maxActive lost past s -> goes [] s s (PLookup t) (step_lookup t s).
Proof.
  intros Hok. unfold step_lookup.
  destruct t as [| | | ref j | ref | ref name |]; try stays; destruct (table_lookup ref s) as [k |] eqn:Hk; stays.
  all: cbn; intros k' [= <-]; right; by exists ref.
Qed.

(** The owner's part of the custody at the front. *)
Lemma owner_first s i p ref x c :
  sv_threads s !! i = Some p -> custody_of p = (ref, x) :: c -> exists rest, custody s ++ strayed lost ≡ₚ (ref, x) :: rest.
Proof.
  intros Hi Hp. destruct (custody_split s i p Hi) as (rest & Hc & _).
  exists (table_custody (sv_leases s) ++ c ++ rest ++ strayed lost). rewrite Hc, Hp. cbn [app]. solve_Permutation.
Qed.

Lemma hold_gone back past' s k x ref c :
  free_hold (sv_world s) (HLease k) -> x = HNone \/ x = HGone k ->
  custody_ok back past' (sv_world s) ((ref, HLease k) :: c) -> custody_ok back past' (sv_world s) ((ref, x) :: c).
Proof. intros Hf [-> | ->] Hc; [apply (custody_none _ _ k) |]; by apply custody_forget. Qed.

(** The release of a lease in an owner's hands, by its three outcomes. *)
Lemma release_goes s i a p ref k x c refused entry released p' s' :
  service_ok strict maxActive lost past s -> sv_threads s !! i = Some p -> custody_of p = (ref, HLease k) :: c ->
  slot_of p = [] -> running_of p = [] -> uses p = None ->
  custody_of entry ≡ₚ (ref, HEntry k) :: c ->
  custody_of released ≡ₚ (ref, x) :: c -> x = HNone \/ x = HGone k ->
  (forall e, custody_of (refused e) ≡ₚ (ref, HLease k) :: c
             \/ forall l, lease_at k s = Some l -> l_running l = true -> False) ->
  (forall q, q = entry \/ q = released \/ (exists e, q = refused e) ->
     slot_of q = [] /\ running_of q = [] /\ uses q = None
     /\ (forall j, private q = Some j -> private p = Some j) /\ (closing q = true -> sv_closed s = true)) ->
  step_release a k refused entry released s = (p', s') -> goes [] s s' p p'.
Proof.
  intros Hok Hi Hp Hs Hr Hu Hentry Hreleased Hx Hrefused Hq Hstep.
  destruct (owner_first s i p ref _ c Hi Hp) as [rest Hc].
  destruct (step_release_spec s a k ref _ _ _ _ _ rest Hok Hc Hstep) as (l & Hl & Hrun & Hcases).
  destruct Hcases as [(e & -> & -> & Hrunning) | [(-> & w' & -> & Hw) | (-> & -> & Hf)]].
  - destruct (Hq (refused e)) as (H1 & H2 & H3 & H4 & H5); [right; right; by exists e |].
    destruct (Hrefused e) as [Hce | Hno]; [| by destruct (Hno l Hl)].
    apply goes_same; [done | by rewrite Hp, Hce | congruence | congruence | intros ? ?; congruence | done | done].
  - destruct (Hq entry) as (H1 & H2 & H3 & H4 & H5); [by left |].
    apply (goes_hold s w' p entry ref (HLease k) (HEntry k) c); [done | done | by rewrite Hp | done | congruence | congruence | intros ? ?; congruence | done | done].
  - destruct (Hq released) as (H1 & H2 & H3 & H4 & H5); [right; by left |].
    apply (goes_hold_same s p released ref (HLease k) x c);
      [done | intros back past' d; by apply hold_gone | by rewrite Hp | done | congruence | congruence | intros ? ?; congruence | done | done].
Qed.

Lemma entry_goes s i a p ref k c refused released p' s' y z :
  service_ok strict maxActive lost past s -> sv_threads s !! i = Some p -> custody_of p = (ref, HEntry k) :: c ->
  slot_of p = [] -> running_of p = [] -> uses p = None ->
  (forall e, custody_of (refused e) ≡ₚ (ref, y) :: c) -> custody_of released ≡ₚ (ref, z) :: c ->
  y = HNone \/ y = HLease k \/ y = HGone k -> z = HNone \/ z = HLease k \/ z = HGone k ->
  (forall q, q = released \/ (exists e, q = refused e) ->
     slot_of q = [] /\ running_of q = [] /\ uses q = None /\ private q = None
     /\ (closing q = true -> sv_closed s = true)) ->
  step_entry a k refused released s = (p', s') -> goes [] s s' p p'.
Proof.
  intros Hok Hi Hp Hs Hr Hu Hrefused Hreleased Hy Hz Hq Hstep.
  destruct (owner_first s i p ref _ c Hi Hp) as [rest Hc].
  destruct (step_entry_spec s a k ref _ _ _ _ rest Hok Hc Hstep) as (w' & -> & Hw & Hf & [[e ->] | ->]).
  - destruct (Hq (refused e)) as (H1 & H2 & H3 & H4 & H5); [right; by exists e |].
    apply (goes_hold s w' p _ ref (HEntry k) y c);
      [done | by apply Hw | by rewrite Hp | done | congruence | congruence | intros ? ?; congruence | intros ? ?; congruence | done].
  - destruct (Hq released) as (H1 & H2 & H3 & H4 & H5); [by left |].
    apply (goes_hold s w' p _ ref (HEntry k) z c);
      [done | by apply Hw | by rewrite Hp | done | congruence | congruence | intros ? ?; congruence | intros ? ?; congruence | done].
Qed.

(** A lease that only a goroutine knows of runs no Guest. *)
Lemma private_idle s i p k l :
  service_ok strict maxActive lost past s -> sv_threads s !! i = Some p -> private p = Some k -> lease_at k s = Some l -> l_running l = true -> False.
Proof.
  intros Hok Hi Hp Hl Hr. destruct (so_running _ _ _ _ _ Hok) as [_ Hiff].
  assert (k ∈ all_of running_of (sv_threads s)) as Hin by (apply Hiff; by exists l).
  apply list_elem_of_In, in_concat in Hin as (ks & (q & <- & Hq)%in_map_iff & Hk%list_elem_of_In).
  apply list_elem_of_In, list_elem_of_lookup in Hq as [j Hj]. apply (so_private _ _ _ _ _ Hok i j p q k Hi Hj Hp).
  destruct q; cbn in Hk; try (by apply elem_of_nil in Hk); apply list_elem_of_singleton in Hk as ->; done.
Qed.

(** The removals of the manager's own [Close]. *)
Definition removes (a : answer) : Prop := forall root, h_remove (an_host a) root = None.

Lemma close_next_goes s i a leases failed p' s' :
  service_ok strict maxActive lost past s -> (strict = true -> removes a) ->
  sv_threads s !! i = Some (PCloseNext leases failed) ->
  step_pc a (PCloseNext leases failed) s = Some (p', s') -> goes [] s s' (PCloseNext leases failed) p'.
Proof.
  intros Hok Hs Hi Hstep. pose proof (so_closing _ _ _ _ _ Hok i _ Hi eq_refl) as Hcl.
  destruct leases as [| [ref k] rest]; cbn [Service.step_pc] in Hstep; apply (inj Some) in Hstep.
  - unfold step_close_manager in Hstep. destruct (Manager.Close _ _) as [r w'] eqn:Hc. injection Hstep as <- <-.
    pose proof (so_world _ _ _ _ _ Hok) as Hw. pose proof (Close_ok (an_host a) _ Hw) as Hw'. rewrite Hc in Hw'.
    assert (backed strict s -> forall root, h_remove (an_host a) root = None) as Hremove.
    { intros [Hb | Hb]; [by apply Hs | congruence]. }
    pose proof (fun past' c H => custody_close (past := past') (backed strict s) (an_host a) _ c Hw H (fun b => b) Hremove) as Hclose.
    assert (w_leases w' = w_leases (sv_world s)) as Hl.
    { destruct (Hclose past _ (so_custody _ _ _ _ _ Hok)) as [_ Hl]. by rewrite Hc in Hl. }
    apply goes_world; try done; [| by apply same_running_leases | by rewrite Hl].
    intros past' c _ Hcu. apply custody_grown. destruct (Hclose past' _ Hcu) as [H _]. by rewrite Hc in H.
  - apply (release_goes s i a _ ref k (HGone k) _ _ _ _ _ _ Hok Hi eq_refl eq_refl eq_refl eq_refl) in Hstep; try done.
    + by right.
    + intros e. left. cbn [custody_of]. rewrite !held_app. cbn [map]. by rewrite <- Permutation_middle.
    + intros q [-> | [-> | [e ->]]]; done.
Qed.

(** What a goroutine gives up with its next section. *)
Definition given_up (a : answer) (p : pc) (s : service) : list string :=
  match p with
  | PAbandon ref _ | PRetireDestroy ref | PDestroy ref =>
      refused (fst (Manager.Destroy (an_host a) ref (sv_world s))) ref
  | _ => []
  end.

Lemma step_pc_goes s i a p p' s' :
  service_ok strict maxActive lost past s -> sound_host (an_host a) -> (strict = true -> removes a) ->
  sv_threads s !! i = Some p ->
  step_pc a p s = Some (p', s') -> goes (given_up a p s) s s' p p'.
Proof.
  intros Hok Hs Hrm Hi Hstep.
  destruct p as [r | ref | ref e | ref k | ref k | ref k | ref | early j | early j | t | k | k name | k j | k j
    | k j before | k j before | k before out e | k before out e | r | ref | ref k | ref k | ref k e | ref | | leases failed
    | ref k leases failed | ref k leases failed | ref k | r failed]; cbn [Service.step_pc] in Hstep.
  - by apply (step_request_goes s a r).
  - apply (inj Some) in Hstep. by apply step_acquire_goes in Hstep.
  - apply (inj Some) in Hstep. by apply (removes_goes s a ref (PAbandon ref e)) in Hstep.
  - apply locked_Some in Hstep as [Hstep _]. unfold step_insert in Hstep.
    destruct (sv_closed s) eqn:Hc, (sv_leases s) as [t |] eqn:Ht; injection Hstep as -> ->; try stays.
    by apply (store_goes s i _ _ t ref k).
  - apply (inj Some) in Hstep.
    apply (release_goes s i a _ ref k HNone [] _ _ _ _ _ Hok Hi eq_refl eq_refl eq_refl eq_refl) in Hstep; try done.
    + by left.
    + intros e. right. intros l. by apply (private_idle s i (PRetire ref k) k l).
    + intros q [-> | [-> | [e ->]]]; done.
  - apply (inj Some) in Hstep.
    apply (entry_goes s i a _ ref k [] _ _ _ _ HNone HNone Hok Hi eq_refl eq_refl eq_refl eq_refl) in Hstep; try done.
    + by left.
    + by left.
    + intros q [-> | [e ->]]; done.
  - apply (inj Some) in Hstep. by apply (removes_goes s a ref (PRetireDestroy ref)) in Hstep.
  - apply (inj Some) in Hstep. by apply (admission_goes s (PPlainAdmit early j)) in Hstep.
  - injection Hstep as <- <-. stays.
  - apply locked_Some in Hstep as [[= -> ->] _]. by apply lookup_goes.
  - injection Hstep as <- <-. stays.
  - injection Hstep as <- <-. stays.
  - apply (inj Some) in Hstep. by apply (admission_goes s (PRunAdmit k j)) in Hstep.
  - injection Hstep as <- <-. destruct (snapshot_of a k s); stays. intros j' [= <-]. by left.
  - apply (inj Some) in Hstep. unfold step_begin in Hstep. destruct (lease_at k s) as [l |] eqn:Hl; cycle 1.
    { injection Hstep as <- <-. stays. intros j' [= <-]. by left. }
    destruct (fst (BeginRun l)) as [n | e] eqn:Hb; injection Hstep as <- <-; cycle 1.
    { stays. intros j' [= <-]. by left. }
    unfold BeginRun, idle in Hb. destruct (l_released l) eqn:Hrel; [done |]. destruct (l_running l) eqn:Hrun; [done |].
    by apply (with_running_goes s (an_host a) k true l).
  - injection Hstep as <- <-. stays. intros j' [= <-]. by left.
  - injection Hstep as <- <-. destruct (so_running _ _ _ _ _ Hok) as [_ Hiff].
    destruct (proj1 (Hiff k)) as (l & Hl & Hrun).
    { destruct (all_of_update running_of _ i _ Hi) as (rest & -> & _). by left. }
    by apply (with_running_goes s (an_host a) k false l).
  - injection Hstep as <- <-. unfold step_after. destruct (snapshot_of a k s); stays.
  - injection Hstep as <- <-. apply free_goes; [done |]. destruct (so_slots _ _ _ _ _ Hok) as [Hu _].
    destruct (all_of_update slot_of _ i _ Hi) as (rest & Hp & _). rewrite Hp in Hu. cbn in Hu. lia.
  - apply locked_Some in Hstep as [Hstep _]. by apply take_goes.
  - apply (inj Some) in Hstep.
    apply (release_goes s i a _ ref k HNone [] _ _ _ _ _ Hok Hi eq_refl eq_refl eq_refl eq_refl) in Hstep; try done.
    + by left.
    + intros e. by left.
    + intros q [-> | [-> | [e ->]]]; done.
  - apply (inj Some) in Hstep.
    apply (entry_goes s i a _ ref k [] _ _ _ _ (HLease k) HNone Hok Hi eq_refl eq_refl eq_refl eq_refl) in Hstep; try done.
    + right; by left.
    + by left.
    + intros q [-> | [e ->]]; done.
  - apply locked_Some in Hstep as [Hstep _]. unfold step_put_back in Hstep.
    destruct (sv_leases s) as [t |] eqn:Ht; injection Hstep as -> ->.
    + by apply (store_goes s i _ _ t ref k).
    + pose proof (goes_same s (PPutBack ref k e) (PPanic ref k) Hok) as [G1 G2 G3 G4 G5 G6 G7 G8 G9 G10 G11]; try done.
  - apply (inj Some) in Hstep. by apply (removes_goes s a ref (PDestroy ref)) in Hstep.
  - apply locked_Some in Hstep as [Hstep _]. by eapply close_goes.
  - by apply (close_next_goes s i a).
  - apply (inj Some) in Hstep.
    apply (entry_goes s i a _ ref k (map (fun x => (fst x, HLease (snd x))) (leases ++ failed)) _ _ _ _ (HLease k) (HGone k) Hok Hi
      eq_refl eq_refl eq_refl eq_refl) in Hstep; try done.
    + intros e. cbn [custody_of]. rewrite !held_app. cbn [map]. by rewrite <- Permutation_middle.
    + right. by left.
    + right. by right.
    + pose proof (so_closing _ _ _ _ _ Hok i _ Hi eq_refl). intros q [-> | [e ->]]; done.
  - apply (inj Some) in Hstep.
    apply (close_destroy_goes s a ref k leases failed); [done | | done].
    by apply (so_closing _ _ _ _ _ Hok i _ Hi).
  - done.
  - done.
Qed.
End Invariant.

End Steps.

(** ** Every interleaving *)

Section Interleavings.
Variable maxRunDuration : Z.
Variable unmarshal_any : string -> bool.
Variable maxActive : nat.
Notation step := (Service.step maxRunDuration unmarshal_any maxActive).
Notation run_service := (Service.run_service maxRunDuration unmarshal_any maxActive).
Implicit Types (strict : bool) (lost issued : list string).

Definition sound_happening (e : happening) : Prop :=
  match e with Go _ a => sound_host (an_host a) | _ => True end.

(** The Host removes what it is asked to. *)
Definition removing (e : happening) : Prop := match e with Go _ a => removes a | _ => True end.

(** The workspaces that their last owner gave up because the Host refused to
    remove them, in the order of a run. *)
Definition strays_at (e : happening) (s : service) : list string :=
  match e with
  | Go i a => match sv_threads s !! i with Some p => given_up a p s | None => [] end
  | _ => []
  end.

Fixpoint strays (l : list happening) (s : service) : list string :=
  match l with
  | [] => []
  | e :: l => strays_at e s ++ strays l (step e s)
  end.

(** The references that the manager issued during a run. *)
Definition references (s : service) : gset string := dom (m_entries (w_manager (sv_world s))).

Fixpoint created (l : list happening) (s : service) : list string :=
  match l with
  | [] => []
  | e :: l => elements (references (step e s) ∖ references s) ++ created l (step e s)
  end.

(** No reference is issued twice, or the Host removes what it is asked to: then
    the manager itself sees to it. *)
Definition no_reuse (l : list happening) (s : service) : Prop := NoDup (created l s) \/ Forall removing l.

Lemma strays_app l1 l2 s : strays (l1 ++ l2) s = strays l1 s ++ strays l2 (run_service l1 s).
Proof.
  revert s. induction l1 as [| e l1 IH]; intros s; [done |]. cbn [app strays]. by rewrite IH, app_assoc.
Qed.

Lemma removing_strays l s : Forall removing l -> strays l s = [].
Proof.
  intros Hl. revert s. induction Hl as [| e l He _ IH]; intros s; [done |]. cbn [strays]. rewrite IH, app_nil_r.
  destruct e as [| | i a]; [done.. |]. unfold strays_at, given_up. destruct (sv_threads s !! i) as [p |]; [| done].
  assert (forall ref, refused (fst (Manager.Destroy (an_host a) ref (sv_world s))) ref = []) as H.
  { intros ref. unfold Manager.Destroy, RemoveAll.
    repeat match goal with |- context [if ?b then _ else _] => destruct b; [done |] end.
    destruct (_ !! ref); [| done]. destruct (negb _); [done |]. by rewrite He. }
  by destruct p.
Qed.

Lemma all_of_snoc {A} (f : pc -> list A) threads p : f p = [] -> all_of f (threads ++ [p]) = all_of f threads.
Proof. intros Hp. unfold all_of. rewrite map_app, concat_app. cbn. by rewrite Hp, !app_nil_r. Qed.

Lemma service_weaken strict lost (past past' : string -> Prop) s :
  service_ok strict maxActive lost past s -> (forall ref, past ref -> past' ref) -> service_ok strict maxActive lost past' s.
Proof. intros [] H. split; try done. by apply (custody_weaken (backed strict s) past' _ _ so_custody0). Qed.

(** A goroutine that starts with nothing in its hands. *)
Lemma arrival_ok strict lost past s p :
  service_ok strict maxActive lost past s -> custody_of p = [] -> slot_of p = [] -> running_of p = [] ->
  uses p = None -> private p = None -> closing p = false ->
  service_ok strict maxActive lost past (set_threads (sv_threads s ++ [p]) s).
Proof.
  intros [Hw Hcu Hcl Hsl Hru Hbo Hpr Hcg] Hc Hs Hr Hu Hp Hclo.
  split; cbn [set_threads sv_world sv_leases sv_closed sv_used sv_threads]; try done.
  - pose proof (all_of_snoc custody_of (sv_threads s) p Hc) as He. unfold all_of in He.
    unfold custody. cbn [set_threads sv_leases sv_threads]. by rewrite He.
  - by rewrite all_of_snoc.
  - by rewrite all_of_snoc.
  - intros i q k [Hi | [_ <-]]%lookup_snoc_Some'; [by apply (Hbo i q k) | congruence].
  - intros i j q r k [Hi | [_ <-]]%lookup_snoc_Some' [Hj | [_ <-]]%lookup_snoc_Some' Hq; [by apply (Hpr i j q r k) | congruence..].
  - intros i q [Hi | [_ <-]]%lookup_snoc_Some' Hq; [by apply (Hcg i q) | congruence].
Qed.

Lemma references_spec s ref : ref ∈ references s <-> is_Some (m_entries (w_manager (sv_world s)) !! ref).
Proof. apply elem_of_dom. Qed.

Lemma step_ok strict lost issued e s :
  let fresh := elements (references (step e s) ∖ references s) in
  sound_happening e -> (strict = true -> removing e) -> strict = true \/ NoDup (issued ++ fresh) ->
  service_ok strict maxActive lost (.∈ issued) s ->
  service_ok strict maxActive (lost ++ strays_at e s) (.∈ issued ++ fresh) (step e s).
Proof.
  intros fresh He Hrm Hnd Hok.
  assert (service_ok strict maxActive lost (.∈ issued ++ fresh) s) as Hok'.
  { apply (service_weaken _ _ _ _ _ Hok). intros ref Hr. rewrite elem_of_app. by left. }
  destruct e as [r | | i a]; cbn [strays_at]; [rewrite app_nil_r; by apply arrival_ok.. |].
  unfold fresh, Service.step in *. clear fresh.
  destruct (sv_threads s !! i) as [p |] eqn:Hi; [| by rewrite app_nil_r].
  destruct (step_pc maxRunDuration unmarshal_any maxActive a p s) as [[p' s'] |] eqn:Hs; cycle 1.
  { assert (given_up a p s = []) as ->; [| by rewrite app_nil_r]. by destruct p. }
  pose proof (step_pc_goes strict maxActive maxRunDuration unmarshal_any s i a p p' s' Hok He Hrm Hi Hs) as Hg.
  assert (forall ref, ref ∈ elements (references s' ∖ references s) <->
    is_Some (m_entries (w_manager (sv_world s')) !! ref) /\ m_entries (w_manager (sv_world s)) !! ref = None) as Hfresh.
  { intros ref. by rewrite elem_of_elements, elem_of_difference, !references_spec, <- eq_None_not_Some. }
  apply (service_weaken _ _ (grown (.∈ issued) (sv_world s) (sv_world s'))).
  - apply (goes_ok strict maxActive lost _ _ s s' i p p' Hok Hi Hg).
    destruct Hnd as [-> | Hnd]; [by left | right]. intros ref H1 H2 Hin.
    apply list.NoDup_app in Hnd as (_ & Hnd & _). by apply (Hnd ref), Hfresh.
  - intros ref [Hr | Hr]; rewrite elem_of_app; [by left | right]. by apply Hfresh.
Qed.

Lemma new_service_ok strict base roots : service_ok strict maxActive [] (.∈ []) (new_service (fresh_world base roots)).
Proof.
  assert (custody (new_service (fresh_world base roots)) = []) as Hnone by (unfold custody, table_custody; cbn; by rewrite map_to_list_empty).
  split; rewrite ?Hnone; try done; try apply fresh_world_ok.
  - split; cbn; try done; try apply NoDup_nil_2; intros ref; try (intros ?; by rewrite elem_of_nil);
      rewrite ?lookup_empty; try (by intros []); intros _ ref'; by rewrite elem_of_nil.
  - split; [done |]. cbn. lia.
  - split; [constructor |]. intros k. cbn. split; [by intros ?%elem_of_nil | by intros (l & Hl & _)].
Qed.

Lemma run_service_app l1 l2 s : run_service (l1 ++ l2) s = run_service l2 (run_service l1 s).
Proof. unfold Service.run_service. by rewrite foldl_app. Qed.

(** An invariant of the steps holds of every run. *)
Lemma run_service_ind (P : service -> Prop) (allowed : happening -> Prop) l s :
  P s -> Forall allowed l -> (forall e s, allowed e -> P s -> P (step e s)) -> P (run_service l s).
Proof.
  intros Hs Hl Hstep. revert s Hs. induction Hl as [| e l He Hl IH]; intros s Hs; [done |]. by apply IH, Hstep.
Qed.

Lemma run_ok strict lost issued l s :
  Forall sound_happening l -> (strict = true -> Forall removing l) -> strict = true \/ NoDup (issued ++ created l s) ->
  service_ok strict maxActive lost (.∈ issued) s ->
  service_ok strict maxActive (lost ++ strays l s) (.∈ issued ++ created l s) (run_service l s).
Proof.
  revert lost issued s. induction l as [| e l IH]; intros lost issued s Hl Hrm Hnd Hok; cbn [strays created].
  { by rewrite !app_nil_r. }
  apply list.Forall_cons in Hl as [He Hl]. rewrite !app_assoc. cbn [created] in Hnd. rewrite app_assoc in Hnd. apply IH.
  - done.
  - intros Hs. by specialize (Hrm Hs) as [_ ?]%list.Forall_cons.
  - done.
  - apply step_ok; [done | | | done].
    + intros Hs. by specialize (Hrm Hs) as [? _]%list.Forall_cons.
    + destruct Hnd as [? | Hnd]; [by left | right]. by apply list.NoDup_app in Hnd as [? _].
Qed.

Lemma run_service_ok base roots l (s0 := new_service (fresh_world base roots)) :
  Forall sound_happening l -> no_reuse l s0 ->
  exists strict, service_ok strict maxActive (strays l s0) (.∈ created l s0) (run_service l s0).
Proof.
  intros Hl [Hnd | Hrm].
  - exists false. apply (run_ok false [] []); [done | done | by right | apply new_service_ok].
  - exists true. apply (run_ok true [] []); [done | done | by left | apply new_service_ok].
Qed.
End Interleavings.
