(* ===== verification/ServiceProps.v ===== *)
(** * ServiceProps: what the workspace service promises

    Over any requests, in any interleaving of their sections and of [Close], and
    with any answers of the Guests: no workspace is lost, executions stay within
    the capacity and alone in their workspace, and every request is answered,
    except after the one way in which [Close] can break the server. *)

From S2P Require Import Prelude Errors Json Paths RootedFS Sha256 Snapshot Conflict Ingress Manager ManagerProps Http Bridge Service ServiceSpec ServiceInv.

Section Promises.
Variable maxRunDuration : Z.
Variable unmarshal_any : string -> bool.
Variable maxActive : nat.
Notation step_pc := (step_pc maxRunDuration unmarshal_any maxActive).
Notation step := (Service.step maxRunDuration unmarshal_any maxActive).
Notation run_service := (Service.run_service maxRunDuration unmarshal_any maxActive).
Notation strays := (ServiceInv.strays maxRunDuration unmarshal_any maxActive).
Notation created := (ServiceInv.created maxRunDuration unmarshal_any maxActive).
Notation no_reuse := (ServiceInv.no_reuse maxRunDuration unmarshal_any maxActive).

(** ** What a step leaves behind *)

(** A goroutine that ends keeps only what [Close] reports. *)
Definition reported (p : pc) : Prop :=
  match p with PDone r f => f = [] \/ exists e, r = RClosed (map fst f) e | _ => True end.

(** The mutex is stuck only after a goroutine died with it, for want of a table;
    the table goes only to [Close]. *)
Definition closes (p : pc) : bool := match p with PClose => true | _ => false end.

Record stepped (s s' : service) (p p' : pc) : Prop := {
  sp_threads : sv_threads s' = sv_threads s;
  sp_reported : reported p';
  sp_stuck : sv_stuck s = true -> sv_stuck s' = true;
  sp_panic : forall ref k, p' = PPanic ref k -> sv_stuck s' = true;
  sp_sticks : sv_stuck s' = true -> sv_stuck s = true \/ sv_leases s = None;
  sp_table : sv_leases s' = None -> sv_leases s = None \/ p = PClose;
  sp_gone : sv_leases s = None -> sv_leases s' = None;
  sp_close : p' <> PClose
}.

Ltac explore H :=
  repeat match type of H with
  | context [match ?x with _ => _ end] => destruct x eqn:?; try discriminate H
  end;
  try (injection H; clear H; intros; subst).

Lemma stepped_next s s' p p' :
  sv_threads s' = sv_threads s -> sv_stuck s' = sv_stuck s ->
  (sv_leases s' = None -> sv_leases s = None \/ p = PClose) -> (sv_leases s = None -> sv_leases s' = None) ->
  (forall r f, p' = PDone r f -> f = [] \/ exists e, r = RClosed (map fst f) e) ->
  (forall ref k, p' <> PPanic ref k) -> p' <> PClose -> stepped s s' p p'.
Proof.
  intros H1 H2 H3 Hg H4 H5 H6. split; rewrite ?H2; auto; [| by intros ref k ?%H5].
  destruct p'; try exact I. by apply H4.
Qed.

Lemma step_pc_stepped a p s p' s' : step_pc a p s = Some (p', s') -> stepped s s' p p'.
Proof.
  intros H. destruct p; cbn [Service.step_pc] in H.
  all: unfold step_request, locked, step_create, step_acquire, step_insert, step_release, step_entry, step_destroy,
    admission, step_lookup, step_begin, step_after, finish_run, step_take, step_put_back, step_close,
    step_close_manager, done, from_option in H.
  all: explore H.
  all: try (by apply stepped_next; cbn; auto; intros; simplify_eq; eauto).
  - apply stepped_next; cbn; auto; try done; destruct (sv_leases s); auto; done.
  - split; cbn; auto; done.
Qed.

(** What is true of a run without its end. *)
Record traces (l : list happening) (s : service) : Prop := {
  tr_reported : forall i p, sv_threads s !! i = Some p -> reported p;
  tr_panic : forall i ref k, sv_threads s !! i = Some (PPanic ref k) -> sv_stuck s = true;
  tr_stuck : sv_stuck s = true -> sv_leases s = None;
  tr_table : sv_leases s = None -> CallClose ∈ l;
  tr_close : forall i, sv_threads s !! i = Some PClose -> CallClose ∈ l
}.

Lemma traces_arrive l e p s :
  traces l s -> reported p -> (forall ref k, p <> PPanic ref k) -> (p = PClose -> e = CallClose) ->
  traces (l ++ [e]) (set_threads (sv_threads s ++ [p]) s).
Proof.
  intros [H1 H2 H3 H4 H5] Hr Hp Hc. split; cbn [set_threads sv_threads sv_stuck sv_leases]; rewrite ?elem_of_app.
  - intros i q [Hi | [_ <-]]%lookup_snoc_Some'; eauto.
  - intros i ref k [Hi | [_ Heq]]%lookup_snoc_Some'; [eauto | by apply Hp in Heq].
  - done.
  - auto.
  - intros i. rewrite ?elem_of_app. intros [Hi | [_ ->]]%lookup_snoc_Some'; [eauto |].
    right. rewrite Hc by done. by left.
Qed.

Lemma traces_step l e s : traces l s -> traces (l ++ [e]) (step e s).
Proof.
  intros Htr. destruct e as [r | | i a]; cbn [Service.step]; [by apply traces_arrive.. |].
  assert (traces (l ++ [Go i a]) s) as Hs.
  { destruct Htr as [H1 H2 H3 H4 H5]. split; try done; intros; rewrite elem_of_app; left; eauto. }
  destruct (sv_threads s !! i) as [p |] eqn:Hi; [| done]. destruct (step_pc a p s) as [[p' s'] |] eqn:Hstep; [| done].
  apply step_pc_stepped in Hstep as [G1 G2 G3 G4 G5 G6 G7]. clear Htr. destruct Hs as [H1 H2 H3 H4 H5].
  assert (i < length (sv_threads s))%nat as Hlt by (by apply lookup_lt_Some in Hi). rewrite G1.
  assert (sv_leases s' = None -> CallClose ∈ l ++ [Go i a]) as Htable.
  { intros [Hn | ->]%G6; eauto. }
  split; cbn [set_threads sv_threads sv_stuck sv_leases]; try done.
  - intros j q [(<- & <- & _) | [_ Hj]]%list_lookup_insert_Some; eauto.
  - intros j ref k [(<- & Hq & _) | [_ Hj]]%list_lookup_insert_Some; eauto.
  - intros Hst. destruct (G5 Hst) as [Hold | Hn]; eauto.
  - intros j [(<- & Hq & _) | [_ Hj]]%list_lookup_insert_Some; [done | eauto].
Qed.

Lemma traces_run l1 l2 s : traces l1 s -> traces (l1 ++ l2) (run_service l2 s).
Proof.
  revert l1 s. induction l2 as [| e l2 IH]; intros l1 s Hs; [by rewrite app_nil_r |].
  rewrite cons_middle, app_assoc. by apply IH, traces_step.
Qed.

Lemma new_service_traces w : traces [] (new_service w).
Proof. by split. Qed.

(** ** No workspace is lost *)

(** Who answers for a workspace: the table or a goroutine. *)
Definition custodian (s : service) (o : option nat) (ref : string) : Prop :=
  match o with
  | None => is_Some (table_lookup ref s)
  | Some i => exists p, sv_threads s !! i = Some p /\ ref ∈ map fst (custody_of p)
  end.

Definition finished (p : pc) : bool := match p with PDone _ _ => true | _ => false end.

Lemma table_names s ref : ref ∈ map fst (table_custody (sv_leases s)) <-> is_Some (table_lookup ref s).
Proof.
  unfold table_lookup. destruct (sv_leases s) as [t |]; cbn [mbind option_bind]; cycle 1.
  { unfold table_custody. cbn. rewrite elem_of_nil. by split; [| intros []]. }
  rewrite list_elem_of_fmap. split.
  - intros ([r x] & -> & Hin). pose proof Hin as ([r' k] & [= -> ->] & _)%list_elem_of_fmap. exists k. by apply table_of_custody.
  - intros [k Hk]. exists (ref, HLease k). split; [done |]. by apply table_of_custody.
Qed.

Lemma custodian_names s ref : ref ∈ map fst (custody s) <-> exists o, custodian s o ref.
Proof.
  unfold custody. rewrite map_app, elem_of_app, table_names. split.
  - intros [H | ([r x] & -> & Hin)%list_elem_of_fmap]; [by exists None |].
    apply list_elem_of_In, in_concat in Hin as (c & (p & <- & Hp)%in_map_iff & Hc%list_elem_of_In).
    apply list_elem_of_In, list_elem_of_lookup in Hp as [i Hi]. exists (Some i), p. split; [done |]. apply list_elem_of_fmap. by exists (r, x).
  - intros [[i |] H]; [| by left]. destruct H as (p & Hp & ([r x] & -> & Hin)%list_elem_of_fmap). right.
    apply list_elem_of_fmap. exists (r, x). split; [done |]. apply list_elem_of_In, in_concat. exists (custody_of p).
    split; [apply in_map, list_elem_of_In; by apply list_elem_of_lookup; exists i | by apply list_elem_of_In].
Qed.

Lemma custodian_unique s o o' ref :
  NoDup (map fst (custody s)) -> custodian s o ref -> custodian s o' ref -> o = o'.
Proof.
  intros Hnd.
  assert (forall i, custodian s None ref -> custodian s (Some i) ref -> False) as Htable.
  { intros i Ht (p & Hi & Hp). destruct (custody_split s i p Hi) as (rest & Hc & _). rewrite Hc, !map_app in Hnd.
    apply list.NoDup_app in Hnd as (_ & Hnd & _). apply (Hnd ref); [by apply table_names |]. rewrite elem_of_app. by left. }
  destruct o as [i |], o' as [j |]; intros H H'; [| by destruct (Htable i) | by destruct (Htable j) | done].
  destruct H as (p & Hi & Hp), H' as (q & Hj & Hq). f_equal. destruct (decide (i = j)) as [| Hne]; [done | exfalso].
  destruct (custody_split s i p Hi) as (rest & Hc & Hrest). rewrite Hc in Hnd.
  specialize (Hrest (done not_found) (sv_leases s)).
  assert (ref ∈ map fst (table_custody (sv_leases s) ++ rest)) as Hin.
  { change rest with (custody_of (done not_found) ++ rest). rewrite <- Hrest, map_app, elem_of_app. right.
    apply list_elem_of_fmap in Hq as ([r x] & -> & Hin). apply list_elem_of_fmap. exists (r, x). split; [done |].
    apply list_elem_of_In, in_concat. exists (custody_of q). split; [| by apply list_elem_of_In].
    apply in_map, list_elem_of_In, list_elem_of_lookup. exists j. by rewrite list_lookup_insert_ne. }
  rewrite (Permutation_app_comm (custody_of p)), app_assoc, map_app in Hnd. apply list.NoDup_app in Hnd as (_ & Hnd & _).
  by apply (Hnd ref).
Qed.

(** ** Executions *)

(** The lease in which a goroutine runs a Guest. *)
Definition guest_in (p : pc) : option nat := match p with PRunning k _ _ => Some k | _ => None end.

Definition executing (p : pc) : bool := bool_decide (slot_of p <> []).

Lemma slots_count threads : length (all_of slot_of threads) = length (List.filter executing threads).
Proof.
  induction threads as [| p threads IH]; [done |]. unfold all_of in *. cbn [map concat List.filter]. rewrite length_app, IH.
  by destruct p.
Qed.

Lemma running_lease strict lost past s i k :
  service_ok strict maxActive lost past s -> (exists p, sv_threads s !! i = Some p /\ k ∈ running_of p) ->
  exists l, lease_at k s = Some l /\ l_running l = true /\ l_released l = false /\ is_Some (m_entries (w_manager (sv_world s)) !! l_ref l).
Proof.
  intros Hok (p & Hi & Hp). destruct (so_running _ _ _ _ _ Hok) as [_ Hiff].
  destruct (proj1 (Hiff k)) as (l & Hl & Hr).
  { destruct (all_of_update running_of _ i p Hi) as (rest & -> & _). rewrite elem_of_app. by left. }
  destruct (wo_leases _ (so_world _ _ _ _ _ Hok) k l Hl) as [H1 _ H3]. exists l. specialize (H1 Hr).
  destruct (H3 (or_introl H1)) as (e & He & _). by split_and!.
Qed.

Lemma running_apart strict lost past s i j p q k :
  service_ok strict maxActive lost past s -> sv_threads s !! i = Some p -> sv_threads s !! j = Some q -> i <> j ->
  k ∈ running_of p -> k ∈ running_of q -> False.
Proof.
  intros Hok Hi Hj Hne Hp Hq. destruct (so_running _ _ _ _ _ Hok) as [Hnd _].
  destruct (all_of_update running_of _ i p Hi) as (rest & Hr & Hrest). rewrite Hr in Hnd.
  apply list.NoDup_app in Hnd as (_ & Hnd & _). apply (Hnd k Hp).
  assert (k ∈ all_of running_of (<[i := done not_found]> (sv_threads s))) as Hin.
  { unfold all_of. apply list_elem_of_In, in_concat. exists (running_of q). split; [| by apply list_elem_of_In].
    apply in_map, list_elem_of_In, list_elem_of_lookup. exists j. by rewrite list_lookup_insert_ne. }
  rewrite Hrest in Hin. done.
Qed.

(** ** Answers *)

(** The sections a goroutine enters at most before it is done. *)
Definition rank (p : pc) : nat :=
  match p with
  | PRequest _ => 9 | PLookup _ => 8 | PRunAdmit _ _ => 7 | PBefore _ _ => 6 | PBegin _ _ _ => 5
  | PRunning _ _ _ => 4 | PEnd _ _ _ _ => 3 | PAfter _ _ _ _ => 2 | PFree _ => 1
  | PPlainAdmit _ _ => 3 | PPlainRun _ _ => 2 | PSnapshot _ | PFile _ _ => 1
  | PAcquire _ => 5 | PInsert _ _ => 4 | PRetire _ _ => 3 | PRetireEntry _ _ => 2 | PRetireDestroy _ | PAbandon _ _ => 1
  | PTake _ => 4 | PRelease _ _ => 3 | PReleaseEntry _ _ => 2 | PDestroy _ | PPutBack _ _ _ => 1
  | PClose => 0
  | PCloseNext l _ => 3 * length l + 1
  | PCloseEntry _ _ l _ => 3 * length l + 3
  | PCloseDestroy _ _ l _ => 3 * length l + 2
  | PPanic _ _ | PDone _ _ => 0
  end.

Lemma step_pc_rank a p s p' s' : p <> PClose -> step_pc a p s = Some (p', s') -> (rank p' < rank p)%nat.
Proof.
  intros Hp H. destruct p; cbn [Service.step_pc] in H; try done.
  all: unfold step_request, locked, step_create, step_acquire, step_insert, step_release, step_entry, step_destroy,
    admission, step_lookup, step_begin, step_after, finish_run, step_take, step_put_back, step_close,
    step_close_manager, done, from_option in H.
  all: explore H; cbn; lia.
Qed.

(** The goroutines that wait for the mutex of the server. *)
Definition waits (p : pc) : bool :=
  match p with
  | PRequest r => match dispatch maxRunDuration unmarshal_any r with Ok THealth => true | _ => false end
  | PInsert _ _ | PLookup _ | PTake _ | PPutBack _ _ _ | PClose => true
  | _ => false
  end.

Lemma step_pc_blocked a p s :
  step_pc a p s = None <->
  finished p = true \/ (exists ref k, p = PPanic ref k) \/ (waits p = true /\ sv_stuck s = true).
Proof.
  destruct p; cbn [Service.step_pc]; unfold step_request, locked; try (destruct leases as [| []]);
    repeat match goal with |- context [match ?x with _ => _ end] => destruct x eqn:? end;
    cbn [waits finished]; rewrite ?Heqr0; naive_solver.
Qed.

(** The sections that a run gives to a goroutine. *)
Definition turns (i : nat) (l : list happening) : nat :=
  length (List.filter (fun e => match e with Go j _ => (i =? j)%nat | _ => false end) l).

(** After [n] turns a goroutine of rank [r] is done, or has at most [r - n]
    sections left, or the mutex is stuck. *)
Definition progressed (r i n : nat) (s : service) : Prop :=
  exists p, sv_threads s !! i = Some p /\ p <> PClose /\
    ((rank p + n <= r)%nat \/ finished p = true \/ sv_stuck s = true).

Lemma progressed_step r i n l e s :
  traces l s -> progressed r i n s -> progressed r i (n + turns i [e]) (step e s).
Proof.
  intros Htr (p & Hi & Hp & H). destruct e as [q | | j a]; cbn [Service.step].
  1,2: exists p; cbn [set_threads sv_threads sv_stuck turns List.filter length]; rewrite Nat.add_0_r;
    by rewrite lookup_app_l by (by apply lookup_lt_Some in Hi).
  unfold turns. cbn [List.filter]. destruct (Nat.eqb_spec i j) as [<- | Hne]; cbn [length].
  - rewrite Hi. destruct (step_pc a p s) as [[p' s'] |] eqn:Hs.
    + pose proof (step_pc_rank a p s p' s' Hp Hs) as Hr. apply step_pc_stepped in Hs as [G1 G2 G3 G4 G5 G6 Gg G7].
      exists p'. cbn [set_threads sv_threads sv_stuck]. rewrite G1, list_lookup_insert_eq by (by apply lookup_lt_Some in Hi).
      split; [done |]. split; [done |]. destruct H as [H | [H | H]]; [left; lia | | right; right; by apply G3].
      exfalso. destruct p; try done. cbn in Hr. lia.
    + exists p. split; [done |]. split; [done |]. right. destruct (proj1 (step_pc_blocked a p s) Hs) as [Hf | [(ref & k & ->) | [_ Hst]]];
        [by left | right; by apply (tr_panic _ _ Htr i ref k) | by right].
  - exists p. rewrite Nat.add_0_r. destruct (sv_threads s !! j) as [q |] eqn:Hj; [| done].
    destruct (step_pc a q s) as [[q' s'] |] eqn:Hs; [| done]. apply step_pc_stepped in Hs as [G1 G2 G3 G4 G5 G6 Gg G7].
    cbn [set_threads sv_threads sv_stuck]. rewrite G1, list_lookup_insert_ne by done.
    split; [done |]. split; [done |]. destruct H as [H | [H | H]]; auto.
Qed.

Lemma turns_app i l1 l2 : turns i (l1 ++ l2) = (turns i l1 + turns i l2)%nat.
Proof. unfold turns. by rewrite List.filter_app, length_app. Qed.

Lemma progressed_run r i l1 l2 n s :
  traces l1 s -> progressed r i n s -> progressed r i (n + turns i l2) (run_service l2 s).
Proof.
  revert l1 n s. induction l2 as [| e l2 IH]; intros l1 n s Htr Hp; [by rewrite Nat.add_0_r |].
  change (e :: l2) with ([e] ++ l2). rewrite turns_app, Nat.add_assoc. apply (IH (l1 ++ [e])).
  - by apply traces_step.
  - by apply (progressed_step r i n l1).
Qed.

(** A goroutine that waits for a stuck mutex waits for ever. *)
Lemma stuck_step e s i p :
  sv_stuck s = true -> sv_threads s !! i = Some p -> waits p = true ->
  sv_stuck (step e s) = true /\ sv_threads (step e s) !! i = Some p.
Proof.
  intros Hs Hi Hw. destruct e as [q | | j a]; cbn [Service.step].
  1,2: split; [done |]; cbn; by rewrite lookup_app_l by (by apply lookup_lt_Some in Hi).
  destruct (sv_threads s !! j) as [q |] eqn:Hj; [| done]. destruct (step_pc a q s) as [[q' s'] |] eqn:Hstep; [| done].
  assert (i <> j) as Hne.
  { intros ->. simplify_eq. assert (step_pc a p s = None) as Hn by (apply step_pc_blocked; auto). congruence. }
  apply step_pc_stepped in Hstep as [G1 G2 G3 G4 G5 G6 Gg G7]. cbn [set_threads sv_threads sv_stuck].
  split; [auto |]. by rewrite G1, list_lookup_insert_ne.
Qed.

Lemma stuck_stays l s i p :
  sv_stuck s = true -> sv_threads s !! i = Some p -> waits p = true -> sv_stuck (run_service l s) = true.
Proof.
  intros Hs Hi Hw. apply (run_service_ind _ _ _ (fun s => sv_stuck s = true /\ sv_threads s !! i = Some p) (fun _ => True)); [done | |].
  - by apply list.Forall_forall.
  - intros e s' _ [H1 H2]. by apply stuck_step.
Qed.

Lemma stuck_run l s i p :
  sv_stuck s = true -> sv_threads s !! i = Some p -> waits p = true -> sv_threads (run_service l s) !! i = Some p.
Proof.
  intros Hs Hi Hw. apply (run_service_ind _ _ _ (fun s => sv_stuck s = true /\ sv_threads s !! i = Some p) (fun _ => True)); [done | |].
  - by apply list.Forall_forall.
  - intros e s' _ [H1 H2]. by apply stuck_step.
Qed.

(** ** The properties *)

Definition serve (base : string) (roots : gset string) (l : list happening) : service :=
  run_service l (new_service (fresh_world base roots)).

Notation at_start base roots := (new_service (fresh_world base roots)).

Lemma serve_ok base roots l :
  Forall sound_happening l -> no_reuse l (at_start base roots) ->
  exists strict, service_ok strict maxActive (strays l (at_start base roots)) (.∈ created l (at_start base roots)) (serve base roots l).
Proof. apply run_service_ok. Qed.

Lemma serve_traces base roots l : traces l (serve base roots l).
Proof. apply (traces_run []), new_service_traces. Qed.

(** A goroutine that is done after its [Destroy]: the cleanup of a creation that
    failed, or the removal that a request asked for. *)
Definition last_destroy (p : pc) (ref : string) : Prop :=
  p = PDestroy ref \/ p = PRetireDestroy ref \/ exists e, p = PAbandon ref e.

Lemma stray_origin l ref s0 :
  ref ∈ strays l s0 ->
  exists l1 i a l2 p what, l = l1 ++ Go i a :: l2 /\ sv_threads (run_service l1 s0) !! i = Some p /\ last_destroy p ref
    /\ fst (Manager.Destroy (an_host a) ref (sv_world (run_service l1 s0))) = Err (EHost what).
Proof.
  assert (forall r q, ref ∈ refused r q -> ref = q /\ exists what, r = Err (EHost what)) as Hrefused.
  { intros [[] | e] q; [by intros ?%elem_of_nil |]. destruct e; try by intros ?%elem_of_nil.
    intros ->%list_elem_of_singleton. split; [done | by eexists]. }
  revert s0. induction l as [| e l IH]; intros s0; cbn [ServiceInv.strays]; [by intros ?%elem_of_nil |].
  intros [Hin | Hin]%elem_of_app; cycle 1.
  { destruct (IH _ Hin) as (l1 & i & a & l2 & p & what & -> & H). by exists (e :: l1), i, a, l2, p, what. }
  destruct e as [| | i a]; try by apply elem_of_nil in Hin. unfold strays_at in Hin.
  destruct (sv_threads s0 !! i) as [p |] eqn:Hp; [| by apply elem_of_nil in Hin].
  unfold given_up in Hin. destruct p; try by apply elem_of_nil in Hin.
  all: apply Hrefused in Hin as [-> [what Hd]].
  all: eexists [], i, a, l, _, what; (split; [done |]); (split; [exact Hp |]); (split; [| exact Hd]); unfold last_destroy; eauto.
Qed.

(** C25.  No workspace is lost, but for the removals that the Host refuses.  In
    every interleaving of requests and of [Close], with any failures of the Host,
    every workspace of the manager has exactly one custodian, the table or a
    goroutine, or it strayed and has none.  A workspace strays when the last
    [Destroy] of the goroutine that had it to itself (a creation that could not
    lease or store it, or a DELETE) fails because the Host refuses to remove its
    directory, and in no other way; so none does if the Host removes what it is
    asked to.  Once all goroutines are done, a workspace that did not stray is in
    the table or [Close] reported it.  What is in the table is a lease of that
    workspace that is not being released.  The random source gives identities of
    the right form; no reference is issued twice, which the manager sees to
    itself as long as the Host removes what it is asked to. *)
Theorem no_workspace_is_lost base roots l (Hl : Forall sound_happening l) (Hr : no_reuse l (at_start base roots)) :
  let s := serve base roots l in
  let gone := strays l (at_start base roots) in
  (forall ref, is_Some (m_entries (w_manager (sv_world s)) !! ref) ->
     (((exists! o, custodian s o ref) /\ ref ∉ gone) \/ ((forall o, ~ custodian s o ref) /\ ref ∈ gone))
     /\ ((forall i p, sv_threads s !! i = Some p -> finished p = true) -> ref ∉ gone ->
          is_Some (table_lookup ref s)
          \/ exists i failed e f, sv_threads s !! i = Some (PDone (RClosed failed e) f) /\ ref ∈ failed))
  /\ (forall ref, ref ∈ gone ->
        exists l1 i a l2 p what, l = l1 ++ Go i a :: l2 /\ sv_threads (serve base roots l1) !! i = Some p /\ last_destroy p ref
          /\ fst (Manager.Destroy (an_host a) ref (sv_world (serve base roots l1))) = Err (EHost what))
  /\ (Forall removing l -> gone = [])
  /\ (forall ref k, table_lookup ref s = Some k -> m_closed (w_manager (sv_world s)) = false ->
        is_Some (m_entries (w_manager (sv_world s)) !! ref)
        /\ exists lease, lease_at k s = Some lease /\ l_ref lease = ref /\ l_releasing lease = false).
Proof.
  intros s gone. destruct (serve_ok base roots l Hl Hr) as [strict Hok]. pose proof (serve_traces base roots l) as Htr.
  pose proof (so_custody _ _ _ _ _ Hok) as Hcu. fold s gone in Hok, Htr, Hcu. split_and!.
  - intros ref Href. pose proof (cu_all _ _ _ _ Hcu ref Href) as Hin. pose proof (cu_unique _ _ _ _ Hcu) as Hnd.
    rewrite map_app, strayed_refs in Hnd, Hin. apply list.NoDup_app in Hnd as (Hnd & Hapart & _).
    assert (ref ∉ gone -> exists o, custodian s o ref) as Hsome.
    { intros Hn. apply elem_of_app in Hin as [Hin | ?]; [| done]. by apply custodian_names in Hin. }
    split.
    + destruct (decide (ref ∈ gone)) as [Hg | Hg]; [right | left]; (split; [| done]).
      * intros o Ho. apply (Hapart ref); [| done]. apply custodian_names. by exists o.
      * destruct (Hsome Hg) as [o Ho]. exists o. split; [done |]. intros o' Ho'. by apply (custodian_unique s o o' ref).
    + intros Hdone Hg. destruct (Hsome Hg) as [[i |] Ho]; [right | by left]. destruct Ho as (p & Hi & Hp). pose proof (Hdone i p Hi) as Hf.
      destruct p as [| | | | | | | | | | | | | | | | | | | | | | | | | | | | | r f]; try done.
      destruct (tr_reported _ _ Htr i _ Hi) as [-> | [e ->]]; [by apply elem_of_nil in Hp |].
      exists i, (map fst f), e, f. split; [done |]. cbn [custody_of] in Hp. by rewrite map_map in Hp.
  - intros ref. apply stray_origin.
  - apply removing_strays.
  - intros ref k Hk Hopen. assert ((ref, HLease k) ∈ custody s ++ strayed gone) as Hin.
    { rewrite elem_of_app. left. unfold table_lookup in Hk. unfold custody. destruct (sv_leases s); [| done].
      rewrite elem_of_app. left. by apply table_of_custody. }
    split; [| apply (cu_hold _ _ _ _ Hcu _ _ Hin)]. apply (cu_back _ _ _ _ Hcu); [| done |].
    + right. apply not_true_iff_false. intros Hc%(so_closed _ _ _ _ _ Hok). unfold table_lookup in Hk. by rewrite Hc in Hk.
    + apply list_elem_of_fmap. by exists (ref, HLease k).
Qed.

(** C26.  Executions are bounded and alone.  In every interleaving the slots in
    use are exactly the executing goroutines and at most the capacity; a Guest
    runs in a lease that is not released, of a workspace that is still there, and
    no two Guests run in the same workspace.  The random source gives identities
    of the right form, and no reference is issued twice. *)
Theorem executions_are_bounded_and_alone base roots l (Hl : Forall sound_happening l) (Hr : no_reuse l (at_start base roots)) :
  let s := serve base roots l in
  sv_used s = length (List.filter executing (sv_threads s)) /\ (sv_used s <= maxActive)%nat
  /\ (forall i p k, sv_threads s !! i = Some p -> guest_in p = Some k ->
        exists lease, lease_at k s = Some lease /\ l_running lease = true /\ l_released lease = false
          /\ is_Some (m_entries (w_manager (sv_world s)) !! l_ref lease))
  /\ (forall i j p q k k' lease lease', sv_threads s !! i = Some p -> sv_threads s !! j = Some q -> i <> j ->
        guest_in p = Some k -> guest_in q = Some k' -> lease_at k s = Some lease -> lease_at k' s = Some lease' ->
        l_ref lease <> l_ref lease').
Proof.
  intros s. destruct (serve_ok base roots l Hl Hr) as [strict Hok]. fold s in Hok.
  assert (forall p k, guest_in p = Some k -> k ∈ running_of p) as Hguest.
  { intros p k Hp. destruct p; simplify_eq/=. by left. }
  destruct (so_slots _ _ _ _ _ Hok) as [Hu Hm]. rewrite slots_count in Hu. split_and!; try done.
  - intros i p k Hi Hp. apply (running_lease _ _ _ s i k Hok). exists p. auto.
  - intros i j p q k k' lease lease' Hi Hj Hne Hp Hq Hk Hk' Heq.
    destruct (running_lease _ _ _ s i k Hok) as (m & Hm1 & _ & Hrel & _); [exists p; auto |].
    destruct (running_lease _ _ _ s j k' Hok) as (m' & Hm2 & _ & Hrel' & _); [exists q; auto |]. simplify_eq.
    assert (k = k') as <- by (apply (wo_unique _ (so_world _ _ _ _ _ Hok) k k' lease lease' Hk Hk'); [by left | by left | done]).
    apply (running_apart _ _ _ s i j p q k Hok Hi Hj Hne); auto.
Qed.

(** C27.  Every request is answered.  In every interleaving, with any answers of
    Host and Guests, a goroutine that was given [rank] turns is done (nine for a
    request, three for each lease that [Close] releases), unless the mutex of the
    server is stuck; and that takes a call of [Close]. *)
Theorem requests_are_answered base roots l1 l2 i p
  (Hi : sv_threads (serve base roots l1) !! i = Some p) (Hp : p <> PClose) (Hturns : (rank p <= turns i l2)%nat) :
  let s := serve base roots (l1 ++ l2) in
  (exists r failed, sv_threads s !! i = Some (PDone r failed)) \/ (sv_stuck s = true /\ CallClose ∈ l1 ++ l2).
Proof.
  intros s. pose proof (serve_traces base roots l1) as Htr. pose proof (serve_traces base roots (l1 ++ l2)) as Htr'.
  assert (s = run_service l2 (serve base roots l1)) as Hs by apply run_service_app. fold s in Htr'.
  destruct (progressed_run (rank p) i l1 l2 0 _ Htr) as (p' & Hi' & Hp' & H).
  { exists p. split; [done |]. split; [done |]. left. lia. }
  rewrite <- Hs in Hi', H.
  assert (sv_stuck s = true -> sv_stuck s = true /\ CallClose ∈ l1 ++ l2) as Hclose.
  { intros Hst. split; [done |]. apply (tr_table _ _ Htr'). by apply (tr_stuck _ _ Htr'). }
  destruct H as [H | [H | H]]; [| left | right; by apply Hclose].
  - destruct p'; cbn [rank] in H; try lia; [done | right; by apply Hclose, (tr_panic _ _ Htr' i ref lease) | left; by exists r, failed].
  - destruct p'; try done. by exists r, failed.
Qed.
End Promises.

(** ** A server that is closed during a run *)

(** A Host that always draws the same identity; [refusal] is its answer to
    [RemoveAll]. *)
Definition demo_answer_of (refusal : option string) : answer :=
  mkAnswer (mkHost (fun _ => Some "0123456789abcdef0123456789abcdef") (fun _ => None) (fun _ => None) (fun _ => None)
      (fun _ _ => Some (0%N, mkUsage ∅ ∅ 0 0)) (fun _ => refusal))
    (Some (mkUsage ∅ ∅ 0 0)) (fun _ => None)
    (mkViews None (fun _ => None) (fun _ => NotExist) (fun _ => (EmptyString, false)) (fun _ => NotExist) (fun _ => false)
      (fun _ => NotExist) None (fun _ => None)) None no_output None [].
Definition demo_answer : answer := demo_answer_of None.

Definition demo_ref : string := "ws-0123456789abcdef0123456789abcdef".
Definition demo_path (suffix : string) : string := workspaces_prefix +:+ demo_ref +:+ suffix.

Definition demo_create : request := mkRequest "POST" "/v1/workspaces" "" ("{" +:+ Errors.quote "files" +:+ ":[]}") false.
Definition demo_run : request :=
  mkRequest "POST" (demo_path "/run") "" ("{" +:+ Errors.quote "source" +:+ ":" +:+ Errors.quote "1" +:+ "}") false.
Definition demo_delete : request := mkRequest "DELETE" (demo_path "") "" "" false.
Definition demo_health : request := mkRequest "GET" "/healthz" "" "" false.

Definition go (i : nat) (n : nat) : list happening := repeat (Go i demo_answer) n.

(** A workspace is created, a run is in progress, and a removal took the lease. *)
Definition demo_running : list happening :=
  [Arrive demo_create] ++ go 0 3 ++ [Arrive demo_run] ++ go 1 5.
Definition demo_removing : list happening := demo_running ++ [Arrive demo_delete] ++ go 2 2.
(** [Close] takes the table away; the removal is refused and puts the lease back. *)
Definition demo_closing : list happening := demo_removing ++ [CallClose] ++ go 3 1 ++ go 2 2 ++ [Arrive demo_health].

Notation demo_serve := (serve 0 (fun _ => true) 2 "/base" ∅).

(** A DELETE whose removal the Host refuses, and a second one. *)
Definition demo_refused : list happening :=
  [Arrive demo_create] ++ go 0 3 ++ [Arrive demo_delete] ++ go 1 4 ++ [Go 1 (demo_answer_of (Some "permission denied"))]
  ++ [Arrive demo_delete] ++ go 2 2.

Lemma demo_sound l :
  Forall (fun e => e = CallClose \/ (exists r, e = Arrive r) \/ exists i refusal, e = Go i (demo_answer_of refusal)) l ->
  Forall sound_happening l.
Proof.
  intros H. apply (list.Forall_impl _ _ _ H). clear H. intros e [-> | [[r ->] | (i & refusal & ->)]]; [done | done |].
  intros n v [= <-]. by vm_compute.
Qed.

Ltac demo_steps :=
  repeat (apply list.Forall_cons; split;
    [first [by left | right; left; by eexists | right; right; by eexists _, None | right; right; by eexists _, (Some _)] |]);
  by apply list.Forall_nil.

Lemma demo_closing_sound : Forall sound_happening demo_closing.
Proof. apply demo_sound. unfold demo_closing, demo_removing, demo_running, go. cbn [repeat app]. demo_steps. Qed.

Lemma demo_refused_sound : Forall sound_happening demo_refused.
Proof. apply demo_sound. unfold demo_refused, go. cbn [repeat app]. demo_steps. Qed.

Lemma demo_closing_removing : Forall removing demo_closing.
Proof. unfold demo_closing, demo_removing, demo_running, go. cbn [repeat app]. by repeat constructor. Qed.

Lemma demo_closing_splits : demo_closing = demo_running ++ ([Arrive demo_delete] ++ go 2 2 ++ [CallClose] ++ go 3 1 ++ go 2 2 ++ [Arrive demo_health]).
Proof. unfold demo_closing, demo_removing. by rewrite <- !app_assoc. Qed.

Lemma demo_running_sound : Forall sound_happening demo_running.
Proof. pose proof demo_closing_sound as H. rewrite demo_closing_splits in H. by apply Forall_app in H as [? _]. Qed.

Lemma demo_running_fresh : no_reuse 0 (fun _ => true) 2 demo_running (new_service (fresh_world "/base" ∅)).
Proof. right. pose proof demo_closing_removing as H. rewrite demo_closing_splits in H. by apply Forall_app in H as [? _]. Qed.

Lemma demo_refused_fresh : no_reuse 0 (fun _ => true) 2 demo_refused (new_service (fresh_world "/base" ∅)).
Proof.
  left. assert (created 0 (fun _ => true) 2 demo_refused (new_service (fresh_world "/base" ∅)) = [demo_ref]) as -> by (vm_compute; reflexivity).
  apply NoDup_singleton.
Qed.

(** The workspace of a run in progress has one custodian; the one whose removal
    was refused has none. *)
Lemma no_workspace_is_lost_witness :
  (is_Some (m_entries (w_manager (sv_world (demo_serve demo_running))) !! demo_ref)
    /\ exists! o, custodian (demo_serve demo_running) o demo_ref)
  /\ (is_Some (m_entries (w_manager (sv_world (demo_serve demo_refused))) !! demo_ref)
    /\ forall o, ~ custodian (demo_serve demo_refused) o demo_ref).
Proof.
  assert (is_Some (m_entries (w_manager (sv_world (demo_serve demo_running))) !! demo_ref)) as H1.
  { eexists. vm_compute. reflexivity. }
  assert (is_Some (m_entries (w_manager (sv_world (demo_serve demo_refused))) !! demo_ref)) as H2.
  { eexists. vm_compute. reflexivity. }
  assert (strays 0 (fun _ => true) 2 demo_running (new_service (fresh_world "/base" ∅)) = []) as G1 by (vm_compute; reflexivity).
  assert (strays 0 (fun _ => true) 2 demo_refused (new_service (fresh_world "/base" ∅)) = [demo_ref]) as G2 by (vm_compute; reflexivity).
  split; (split; [assumption |]).
  - destruct (proj1 (proj1 (no_workspace_is_lost 0 (fun _ => true) 2 "/base" ∅ demo_running demo_running_sound demo_running_fresh)
      demo_ref H1)) as [[H _] | [_ H]]; [exact H |]. exfalso. rewrite G1 in H. by apply elem_of_nil in H.
  - destruct (proj1 (proj1 (no_workspace_is_lost 0 (fun _ => true) 2 "/base" ∅ demo_refused demo_refused_sound demo_refused_fresh)
      demo_ref H2)) as [[_ H] | [H _]]; [| exact H]. exfalso. apply H. rewrite G2. by left.
Defined.

(** A DELETE takes the lease out of the table and gives it back before it removes
    the workspace.  When the Host refuses the removal, the workspace is still in
    the manager, nobody has it any more, and a second DELETE does not find it. *)
Lemma refused_removal_strays :
  Forall sound_happening demo_refused
  /\ sv_threads (demo_serve demo_refused)
     = [done (RCreated demo_ref); done (RWorkspace (EHost "permission denied")); done workspace_not_found]
  /\ is_Some (m_entries (w_manager (sv_world (demo_serve demo_refused))) !! demo_ref)
  /\ custody (demo_serve demo_refused) = [].
Proof.
  split; [apply demo_refused_sound |]. split; [vm_compute; reflexivity |].
  split; [eexists; vm_compute; reflexivity | vm_compute; reflexivity].
Qed.

Lemma executions_are_bounded_and_alone_witness :
  (exists p, sv_threads (demo_serve demo_running) !! 1%nat = Some p /\ guest_in p = Some 0%nat)
  /\ sv_used (demo_serve demo_running) = 1%nat
  /\ length (List.filter executing (sv_threads (demo_serve demo_running))) = 1%nat.
Proof.
  split; [eexists; split; [vm_compute; reflexivity | reflexivity] |].
  assert (sv_used (demo_serve demo_running) = 1%nat) as H by (vm_compute; reflexivity). split; [exact H |].
  rewrite <- H. symmetry.
  apply (proj1 (executions_are_bounded_and_alone 0 (fun _ => true) 2 "/base" ∅ demo_running demo_running_sound demo_running_fresh)).
Defined.

(** The run ends after four more turns, whatever else happens. *)
Definition demo_guest : pc := Eval vm_compute in default PClose (sv_threads (demo_serve demo_running) !! 1%nat).

Lemma requests_are_answered_witness :
  sv_threads (demo_serve demo_running) !! 1%nat = Some demo_guest /\ rank demo_guest = 4%nat
  /\ exists r failed, sv_threads (demo_serve (demo_running ++ go 1 4)) !! 1%nat = Some (PDone r failed).
Proof.
  assert (sv_threads (demo_serve demo_running) !! 1%nat = Some demo_guest) as Hi by (vm_compute; reflexivity).
  assert (rank demo_guest <= turns 1 (go 1 4))%nat as Hr by (vm_compute; lia).
  assert (sv_stuck (demo_serve (demo_running ++ go 1 4)) = false) as Hs by (vm_compute; reflexivity).
  split; [exact Hi |]. split; [reflexivity |].
  destruct (requests_are_answered 0 (fun _ => true) 2 "/base" ∅ demo_running (go 1 4) 1 demo_guest Hi ltac:(discriminate) Hr)
    as [H | [H _]]; [exact H |].
  rewrite Hs in H. discriminate H.
Defined.

(** C28.  [Close] can hang the server for ever.  A removal takes a lease out of
    the table, [Close] sets the table to nil, and the release is refused because
    of a run in progress: putting the lease back then panics with the mutex
    locked.  Whatever happens later, every goroutine that waits for the mutex
    goes on waiting, a readiness probe among them. *)
Theorem closing_can_hang_the_server :
  exists l probe, Forall sound_happening l /\ Forall removing l
    /\ sv_threads (demo_serve l) !! probe = Some (PRequest demo_health)
    /\ forall later, sv_stuck (demo_serve (l ++ later)) = true
       /\ sv_threads (demo_serve (l ++ later)) !! probe = Some (PRequest demo_health)
       /\ forall i p, sv_threads (demo_serve (l ++ later)) !! i = Some p -> waits 0 (fun _ => true) p = true ->
            forall more, sv_threads (demo_serve ((l ++ later) ++ more)) !! i = Some p.
Proof.
  assert (sv_threads (demo_serve demo_closing) !! 4%nat = Some (PRequest demo_health)) as H1 by (vm_compute; reflexivity).
  assert (sv_stuck (demo_serve demo_closing) = true) as H2 by (vm_compute; reflexivity).
  assert (waits 0 (fun _ => true) (PRequest demo_health) = true) as H3 by (vm_compute; reflexivity).
  exists demo_closing, 4%nat. split; [apply demo_closing_sound |]. split; [apply demo_closing_removing |]. split; [exact H1 |]. intros later.
  assert (sv_stuck (demo_serve (demo_closing ++ later)) = true) as H4.
  { unfold serve. rewrite run_service_app. by apply (stuck_stays _ _ _ _ _ 4 (PRequest demo_health)). }
  split; [done |]. split.
  - unfold serve. rewrite run_service_app. by apply stuck_run.
  - intros i p Hi Hw more. unfold serve. rewrite run_service_app. by apply stuck_run.
Qed.

(** ** Admission *)

Definition task_job (t : task) : option job :=
  match t with TPlainRun _ j | TWorkspaceRun _ j => Some j | _ => None end.

Lemma decodeBody_length {A} (decode : string -> option A) r a :
  decodeBody decode r = Ok a -> (slen (rq_Content r) <= maxHTTPBody)%N.
Proof.
  unfold decodeBody. destruct (read_body r) as [data |] eqn:Hr; [| done].
  destruct (N.ltb_spec maxHTTPBody (slen data)); [done |]. intros _.
  by rewrite <- (read_body_length r data Hr).
Qed.

Lemma read_run_facts um r body j :
  read_run um r = Ok (body, j) ->
  rq_Method r = "POST" /\ (slen (rq_Content r) <= maxHTTPBody)%N /\ jb_Source j <> "" /\ rr_Source body = jb_Source j.
Proof.
  unfold read_run. destruct (bool_decide (rq_Method r = "POST")) eqn:Hm; cbn [negb]; [| done].
  destruct (decodeBody decode_run r) as [b |] eqn:Hb; [| done]. apply decodeBody_length in Hb.
  destruct (bool_decide (rr_Source b = "")) eqn:Hs; [done |]. intros [= <- <-].
  apply bool_decide_eq_true in Hm. apply bool_decide_eq_false in Hs. done.
Qed.

Definition deadline_ok (maxRunDuration : Z) (o : option Z) : Prop :=
  match o with
  | None => maxRunDuration = 0%Z
  | Some d => (0 < d < 2 ^ 63)%Z /\ (maxRunDuration = 0 \/ d <= maxRunDuration)%Z
  end.

Lemma with_deadline_facts maxRunDuration body j j' :
  (0 <= maxRunDuration < 2 ^ 63)%Z -> with_deadline maxRunDuration body j = Ok j' ->
  jb_Source j' = jb_Source j /\ deadline_ok maxRunDuration (jb_Deadline j').
Proof.
  intros Hm. unfold with_deadline, executionContext. destruct (runDuration _ _) as [d |] eqn:Hd; cbn; [| done].
  apply runDuration_exact in Hd; [| done]. intros [= <-]. split; [done |]. cbn [jb_Deadline].
  unfold deadline_ok. destruct (Z.eqb_spec d 0) as [-> |]; destruct (rr_TimeoutMS body) as [ms |].
  - exfalso. unfold millisecond in Hd. lia.
  - by symmetry.
  - unfold millisecond in Hd. lia.
  - lia.
Qed.

Definition client_error (r : reply) : Prop := (400 <= reply_status r < 500)%N.

Lemma read_run_refused um r e : read_run um r = Err e -> client_error e.
Proof.
  unfold read_run. destruct (negb _); [by intros [= <-] |].
  destruct (decodeBody _ _) as [b | e0]; [destruct (bool_decide _); by intros [= <-] |]. intros [= <-]. by destruct e0.
Qed.

Lemma with_deadline_refused maxRunDuration body j e : with_deadline maxRunDuration body j = Err e -> client_error e.
Proof. unfold with_deadline. destruct (executionContext _ _); [done |]. by intros [= <-]. Qed.

(** What is known of a request that is handled. *)
Definition task_ok (maxRunDuration : Z) (r : request) (t : task) : Prop :=
  match t with
  | TPlainRun _ j | TWorkspaceRun _ j =>
      rq_Method r = "POST" /\ (slen (rq_Content r) <= maxHTTPBody)%N /\ jb_Source j <> ""
      /\ deadline_ok maxRunDuration (jb_Deadline j)
  | TCreate _ => rq_Method r = "POST" /\ (slen (rq_Content r) <= maxHTTPBody)%N
  | TDestroy _ => rq_Method r = "DELETE"
  | THealth | TSnapshot _ | TFile _ _ => rq_Method r = "GET"
  end.

Definition dispatched (maxRunDuration : Z) (r : request) (x : res reply task) : Prop :=
  match x with Ok t => task_ok maxRunDuration r t | Err e => client_error e end.

Lemma run_dispatched maxRunDuration um r (k : runRequest * job -> res reply unit) (f : runRequest -> job -> task) :
  (0 <= maxRunDuration < 2 ^ 63)%Z -> (forall x e, k x = Err e -> client_error e) ->
  (forall body j, exists e, f body j = TPlainRun e j \/ exists ref, f body j = TWorkspaceRun ref j) ->
  dispatched maxRunDuration r
    (let* (body, j) := read_run um r in let* _ := k (body, j) in let* j := with_deadline maxRunDuration body j in Ok (f body j)).
Proof.
  intros Hm Hk Hf. destruct (read_run um r) as [[body j] | e] eqn:Hr; cbn; [| by eapply read_run_refused].
  destruct (k (body, j)) as [[] | e] eqn:Hg; cbn; [| by eapply Hk].
  destruct (with_deadline maxRunDuration body j) as [j' | e] eqn:Hd; cbn; [| by eapply with_deadline_refused].
  apply read_run_facts in Hr as (H1 & H2 & H3 & _). apply with_deadline_facts in Hd as [H4 H5]; [| done].
  destruct (Hf body j') as (e & [-> | [ref ->]]); cbn; rewrite H4; done.
Qed.

Lemma handlePlainRun_dispatched maxRunDuration um r :
  (0 <= maxRunDuration < 2 ^ 63)%Z -> dispatched maxRunDuration r (handlePlainRun maxRunDuration um r).
Proof.
  intros Hm. pose proof (run_dispatched maxRunDuration um r (fun _ => Ok tt) (fun body j => TPlainRun (rr_EarlyReads body) j) Hm) as H.
  unfold handlePlainRun. destruct (read_run um r) as [[body j] | e]; apply H; try done; intros; by eexists; left.
Qed.

Lemma handleWorkspaceRun_dispatched maxRunDuration um ref r :
  (0 <= maxRunDuration < 2 ^ 63)%Z -> dispatched maxRunDuration r (handleWorkspaceRun maxRunDuration um ref r).
Proof.
  intros Hm. unfold handleWorkspaceRun.
  apply (run_dispatched maxRunDuration um r (fun x => guard (negb (rr_EarlyReads x.1)) _) (fun _ j => TWorkspaceRun ref j) Hm).
  - intros [body j] e. unfold guard. destruct (negb _); [done |]. by intros [= <-].
  - intros. exists false. right. by exists ref.
Qed.

Lemma handleCreate_dispatched maxRunDuration r : dispatched maxRunDuration r (handleCreate r).
Proof.
  unfold handleCreate. destruct (bool_decide (rq_Method r = "POST")) eqn:Hp; [| done]. apply bool_decide_eq_true in Hp.
  cbn [negb]. destruct (decodeBody decode_create r) as [files | e] eqn:Hb; [| by destruct e].
  split; [done |]. by eapply decodeBody_length.
Qed.

(** C29.  A request is answered at once with a client error, or it may be handled:
    the method is that of its resource, a body has at most 1 MiB, a run has a
    source, and its deadline is positive, within [int64] nanoseconds and within
    the limit of the server, which is absent only if the server has none. *)
Theorem requests_are_checked maxRunDuration um r (Hm : (0 <= maxRunDuration < 2 ^ 63)%Z) :
  dispatched maxRunDuration r (dispatch maxRunDuration um r).
Proof.
  pose proof (handlePlainRun_dispatched maxRunDuration um r Hm) as Hplain.
  pose proof (fun ref => handleWorkspaceRun_dispatched maxRunDuration um ref r Hm) as Hrun.
  pose proof (handleCreate_dispatched maxRunDuration r) as Hcreate.
  unfold dispatch.
  repeat match goal with
  | |- dispatched _ _ (if ?b then _ else _) => destruct b eqn:?
  | |- dispatched _ _ (match ?x with _ => _ end) => destruct x eqn:?
  end; try done.
  all: repeat match goal with H : _ && _ = true |- _ => apply andb_true_iff in H as [? ?] end.
  all: repeat match goal with H : bool_decide _ = true |- _ => apply bool_decide_eq_true in H end.
  all: unfold handleFile; try destruct (bool_decide (query_get "path" r = "")); done.
Qed.

Lemma requests_are_checked_witness :
  dispatch 1000000000 (fun _ => true) demo_run = Ok (TWorkspaceRun demo_ref (mkJob "1" "{}" (Some 1000000000%Z)))
  /\ task_ok 1000000000 demo_run (TWorkspaceRun demo_ref (mkJob "1" "{}" (Some 1000000000%Z)))
  /\ dispatched 1000000000 demo_delete (dispatch 1000000000 (fun _ => true) demo_delete).
Proof.
  assert (dispatch 1000000000 (fun _ => true) demo_run = Ok (TWorkspaceRun demo_ref (mkJob "1" "{}" (Some 1000000000%Z)))) as H
    by (vm_compute; reflexivity).
  split; [exact H |].
  assert (0 <= 1000000000 < 2 ^ 63)%Z as Hm by (split; [discriminate | reflexivity]). split.
  - pose proof (requests_are_checked 1000000000 (fun _ => true) demo_run Hm) as Hd. rewrite H in Hd. exact Hd.
  - exact (requests_are_checked 1000000000 (fun _ => true) demo_delete Hm).
Defined.
