(* ===== verification/DurableService.v ===== *)
(** * DurableService: the HTTP service of durable runs
    ([service/durable/server.go])

    The service joins two parts: the runtime that stores and advances runs, an
    interface here as in the source ([Runtime]), and the [Executor].  A request
    is read by pure code ([dispatch]); its handler then calls the runtime and
    enters sections of the executor, one step at a time.  [service_step] is the
    interleaving of the handlers, of the goroutines of the attempts, and of
    what the attempts and other processes commit meanwhile. *)

From S2P Require Import Prelude Errors Effects Json Store Bundle Runner Executor History Http.

(** ** The runtime *)

(** [Runtime] and [historyReader]: [W] is what is stored, [A] what the database
    and the clock answer during one call. *)
Class Runtime (W A : Type) := {
  rt_ArtifactID : string;
  rt_Create : A -> Definition_ -> W -> res error Run * W;
  rt_Get : A -> string -> W -> res error Run * W;
  rt_Decide : A -> string -> Decision -> W -> res error unit * W;
  rt_Cancel : A -> string -> W -> res error unit * W;
  rt_Advance : A -> string -> W -> Result * option error * W;
  rt_ReplayHistory : option (A -> string -> ReplayHistoryOptions -> W -> res error ReplayHistoryPage * W)
}.

(** ** Request bodies *)

Record createRequest := mkCreateRequest {
  cr_ID : string;
  cr_Source : string;
  cr_Inputs : string;
  cr_Seed : string
}.

Definition decode_create (data : string) : option createRequest :=
  ms ← strict_members ["id"; "source"; "inputs"; "seed"] data;
  id ← fold_field "id" store_string "" ms;
  source ← fold_field "source" store_string "" ms;
  inputs ← fold_field "inputs" store_raw "" ms;
  seed ← fold_field "seed" store_string "" ms;
  Some (mkCreateRequest id source inputs seed).

Record resolveRequest := mkResolveRequest {
  rr_WaitID : string;
  rr_Result : string;
  rr_Error : string
}.

Definition decode_resolve (data : string) : option resolveRequest :=
  ms ← strict_members ["wait_id"; "result"; "error"] data;
  wait ← fold_field "wait_id" store_string "" ms;
  result ← fold_field "result" store_raw "" ms;
  error ← fold_field "error" store_string "" ms;
  Some (mkResolveRequest wait result error).

(** [attemptRequest]. *)
Definition decode_attempt (data : string) : option (option Z) :=
  ms ← strict_members ["timeout_ms"] data;
  fold_field "timeout_ms" store_int64 None ms.

(** White space of [bytes.TrimSpace]: what follows the space at the head. *)
Definition skip_space (s : string) : option string :=
  match s with
  | String a s1 =>
      let x := N_of_ascii a in
      if ((9 <=? x) && (x <=? 13) || (x =? 32))%N then Some s1
      else match s1 with
      | String b s2 =>
          let y := N_of_ascii b in
          if ((x =? 194) && ((y =? 133) || (y =? 160)))%N then Some s2
          else match s2 with
          | String c s3 =>
              let z := N_of_ascii c in
              if ((x =? 225) && (y =? 154) && (z =? 128)
                  || (x =? 226) && (y =? 128) && ((128 <=? z) && (z <=? 138) || (z =? 168) || (z =? 169) || (z =? 175))
                  || (x =? 226) && (y =? 129) && (z =? 159)
                  || (x =? 227) && (y =? 128) && (z =? 128))%N
              then Some s3 else None
          | EmptyString => None
          end
      | EmptyString => None
      end
  | EmptyString => None
  end.

(** [len(bytes.TrimSpace(data)) == 0]; a turn consumes a byte or more. *)
Fixpoint blank (fuel : nat) (s : string) : bool :=
  match fuel with
  | O => bool_decide (s = "")
  | S fuel => if bool_decide (s = "") then true
              else match skip_space s with Some s' => blank fuel s' | None => false end
  end.

Definition decodeBody {A} : (string -> option A) -> request -> res body_error A := Http.decodeBody.

Definition decodeOptionalBody {A} (zero : A) (decode : string -> option A) (r : request) : res body_error A :=
  match read_body r with
  | None => Err EBodyRead
  | Some data =>
      if (maxHTTPBody <? slen data)%N then Err errRequestTooLarge
      else if blank (String.length data) data then Ok zero
      else if negb (valid data) then Err EBodyJSON
      else match decode data with Some a => Ok a | None => Err EBodyJSON end
  end.

Definition requestErrorStatus : body_error -> N := Http.requestErrorStatus.

Definition runDuration : option Z -> Z -> res duration_error Z := Http.runDuration.

Definition executionContext : option Z -> Z -> res duration_error (option Z) := Http.executionContext.

(** [parseHistoryUint]. *)
Definition parseHistoryUint (query : list (string * string)) (name : string) : option N :=
  match values_of name query with
  | [] => Some 0%N
  | [v] => if bool_decide (v = "") then None else ParseUint32 v
  | _ => None
  end.

Definition parseHistoryOptions (r : request) : option ReplayHistoryOptions :=
  let '(query, ok) := ParseQuery (rq_RawQuery r) in
  if negb ok then None
  else
    from ← parseHistoryUint query "from_sequence";
    limit ← parseHistoryUint query "limit";
    Some (mkHistoryOptions from limit false).

(** ** Replies *)

Definition statusFor (e : error) : N :=
  if errors_is ErrNotFound e then StatusNotFound
  else if errors_is ErrConflict e || errors_is ErrBusy e then StatusConflict
  else if errors_is ErrQueueFull e then StatusTooManyRequests
  else if errors_is ErrClosed e then StatusServiceUnavailable
  else if errors_is Canceled e || errors_is DeadlineExceeded e then StatusRequestTimeout
  else StatusInternalServerError.

(** [runResponse]. *)
Record runResponse := mkRunResponse {
  rs_ID : string;
  rs_Status : string;
  rs_Outcome : string;
  rs_Reason : string
}.

Definition responseForRun (run : Run) : runResponse :=
  mkRunResponse (d_ID (r_Definition run)) (r_Status run) (r_Outcome run) (r_Reason run).

(** [historyCallResponse] and [historyResponse]. *)
Record historyCallResponse := mkHistoryCall {
  hc_Sequence : N;
  hc_Tool : string;
  hc_Version : string;
  hc_State : string;
  hc_OutcomeClass : string
}.

Record historyResponse := mkHistoryResponse {
  hr_Calls : list historyCallResponse;
  hr_NextSequence : N;
  hr_HasMore : bool
}.

Definition history_call (c : ReplayCall) : historyCallResponse :=
  mkHistoryCall (rc_Sequence c) (rc_Capability c) (rc_Version c) (rc_State c) (rc_OutcomeClass c).

Definition history_response (page : ReplayHistoryPage) : historyResponse :=
  mkHistoryResponse (map history_call (hp_Calls page)) (hp_NextSequence page) (hp_HasMore page).

Inductive reply :=
| RError (status : N) (message : string)
| RBody (e : body_error)
| RDuration (e : duration_error)
| RFailure (e : error)
| RHealth (ready : bool) (running resident inflight queued : Z)
| RCreated (r : runResponse)
| RRun (r : runResponse)
| RHistory (h : historyResponse)
| RAttempt (r : Result)
| RCancelled
| RResolved
| RClosed (e : option error).

Definition reply_status (r : reply) : N :=
  match r with
  | RError status _ => status
  | RBody e => requestErrorStatus e
  | RDuration _ => StatusBadRequest
  | RFailure e => statusFor e
  | RCreated _ => StatusCreated
  | _ => StatusOK
  end.

Definition not_found : reply := RError StatusNotFound "not found".
Definition not_allowed : reply := RError StatusMethodNotAllowed "method not allowed".

(** What [handleHistory] makes of an error. *)
Definition history_error (e : error) : reply :=
  if (StatusInternalServerError <=? statusFor e)%N
  then RError (statusFor e) "unable to read durable history" else RFailure e.

(** ** Dispatching *)

(** What a handler does once the request is read. *)
Inductive task :=
| THealth
| TCreate (d : Definition_)
| TGet (id : string)
| THistory (id : string) (options : ReplayHistoryOptions)
| TAttempt (id : string) (deadline : option Z)
| TCancel (id : string)
| TResolve (wait : string) (d : Decision).

Definition runs_prefix : string := "/v1/durable/runs/".

Section Dispatch.
Variable artifactID : string.
Variable environmentVersion : string.
Variable preparationSeed : string.
Variable maxRunDuration : Z.
(** Whether the runtime implements [historyReader]. *)
Variable has_history : bool.

Definition handleCreate (r : request) : res reply task :=
  if negb (bool_decide (rq_Method r = "POST")) then Err not_allowed
  else match decodeBody decode_create r with
  | Err e => Err (RBody e)
  | Ok body =>
      if bool_decide (cr_ID body = "") || has_char "/" (cr_ID body)
         || bool_decide (cr_Source body = "") || bool_decide (cr_Seed body = "")
      then Err (RError StatusBadRequest "invalid durable run request")
      else if negb (bool_decide (preparationSeed = "")) && negb (bool_decide (cr_Seed body = preparationSeed))
      then Err (RError StatusBadRequest "seed does not match prepared runner")
      else
        let inputs := if bool_decide (cr_Inputs body = "") then "{}" else cr_Inputs body in
        if negb (valid inputs) then Err (RError StatusBadRequest "inputs must be valid JSON")
        else Ok (TCreate (mkDefinition (cr_ID body) (cr_Source body) (cr_Seed body) artifactID
                            environmentVersion inputs ""))
  end.

Definition handleHistory (id : string) (r : request) : res reply task :=
  if negb (bool_decide (rq_Method r = "GET")) then Err not_allowed
  else if negb has_history then Err (RError StatusNotImplemented "durable history is unavailable")
  else match parseHistoryOptions r with
  | None => Err (RError StatusBadRequest "invalid history query")
  | Some options => Ok (THistory id options)
  end.

Definition handleAttempt (id : string) (r : request) : res reply task :=
  if negb (bool_decide (rq_Method r = "POST")) then Err not_allowed
  else match decodeOptionalBody None decode_attempt r with
  | Err e => Err (RBody e)
  | Ok timeoutMS =>
      match executionContext timeoutMS maxRunDuration with
      | Err e => Err (RDuration e)
      | Ok deadline => Ok (TAttempt id deadline)
      end
  end.

Definition handleCancel (id : string) (r : request) : res reply task :=
  if negb (bool_decide (rq_Method r = "POST")) then Err not_allowed else Ok (TCancel id).

Definition handleResolve (r : request) : res reply task :=
  if negb (bool_decide (rq_Method r = "POST")) then Err not_allowed
  else match decodeBody decode_resolve r with
  | Err e => Err (RBody e)
  | Ok body =>
      let hasResult := negb (bool_decide (rr_Result body = "")) in
      let hasError := negb (bool_decide (rr_Error body = "")) in
      if bool_decide (rr_WaitID body = "") || Bool.eqb hasResult hasError
         || (hasResult && negb (valid (rr_Result body)))
      then Err (RError StatusBadRequest "invalid wait decision")
      else Ok (TResolve (rr_WaitID body) (mkDecision (rr_Result body) (rr_Error body)))
  end.

(** [ServeHTTP]. *)
Definition dispatch (r : request) : res reply task :=
  let path := rq_Path r in
  if bool_decide (rq_Method r = "GET") && bool_decide (path = "/healthz") then Ok THealth
  else if bool_decide (path = "/v1/durable/runs") then handleCreate r
  else if bool_decide (path = "/v1/durable/waits/resolve") then handleResolve r
  else if has_prefix runs_prefix path then
    match split_char "/" (trim_prefix runs_prefix path) with
    | id :: rest =>
        if bool_decide (id = "") then Err not_found
        else match rest with
        | [] => if bool_decide (rq_Method r = "GET") then Ok (TGet id) else Err not_found
        | [action] =>
            if bool_decide (action = "history") then handleHistory id r
            else if bool_decide (action = "attempts") then handleAttempt id r
            else if bool_decide (action = "cancel") then handleCancel id r
            else Err not_found
        | _ => Err not_found
        end
    | [] => Err not_found
    end
  else Err not_found.
End Dispatch.

(** ** The server *)

(** What a goroutine still has to do; attempts are named by their address. *)
Inductive pc :=
| PRequest (r : request)
| PHealth (stats : ExecutorStats)
| PCancelLocal (id : string)
| PWait (attempt : nat)
| PClose
| PCloseExecutor
| PDrain
| PDone (r : reply).

(** What the environment answers during one step: the runtime, the context of
    the request, the choice of a [select]. *)
Record answer (A : Type) := mkAnswer {
  an_runtime : A;
  an_ctx : option error;
  an_pick : bool
}.
Arguments mkAnswer {A}.
Arguments an_runtime {A}.
Arguments an_ctx {A}.
Arguments an_pick {A}.

Section Server.
Context {W A : Type} `{Runtime W A}.
Variable environmentVersion : string.
Variable preparationSeed : string.
Variable maxRunDuration : Z.

(** [sv_next] is the address of the next attempt. *)
Record service := mkService {
  sv_world : W;
  sv_executor : Executor;
  sv_next : nat;
  sv_closed : bool;
  sv_threads : list pc
}.

Definition set_world (w : W) (s : service) : service :=
  mkService w (sv_executor s) (sv_next s) (sv_closed s) (sv_threads s).
Definition set_executor (e : Executor) (s : service) : service :=
  mkService (sv_world s) e (sv_next s) (sv_closed s) (sv_threads s).
Definition set_threads (l : list pc) (s : service) : service :=
  mkService (sv_world s) (sv_executor s) (sv_next s) (sv_closed s) l.
Definition admitted (e : Executor) (s : service) : service :=
  mkService (sv_world s) e (S (sv_next s)) (sv_closed s) (sv_threads s).
Definition shut (s : service) : service :=
  mkService (sv_world s) (sv_executor s) (sv_next s) true (sv_threads s).

(** The answer of a runtime call, and the world it leaves. *)
Definition answered {B} (x : res error B * W) (next : B -> pc) (refused : error -> reply) (s : service) : pc * service :=
  let '(r, w) := x in
  (match r with Ok b => next b | Err e => PDone (refused e) end, set_world w s).

(** [handleAttempt] from [Admit] on. *)
Definition step_admit (a : answer A) (id : string) (s : service) : pc * service :=
  match Admit (Some (an_ctx a)) id (sv_next s) (sv_executor s) with
  | Err e => (PDone (RFailure e), s)
  | Ok e => (PWait (sv_next s), admitted e s)
  end.

(** [handleCancel] from [Executor.Cancel] on: the runtime commits, then the
    executor locks ([PCancelLocal]). *)
Definition step_cancel_run (a : answer A) (id : string) (s : service) : pc * service :=
  if bool_decide (id = "") then (PDone (RFailure (ESentinel ErrInvalidRunner)), s)
  else answered (rt_Cancel (an_runtime a) id (sv_world s)) (fun _ => PCancelLocal id) RFailure s.

Definition step_request (a : answer A) (r : request) (s : service) : pc * service :=
  match dispatch rt_ArtifactID environmentVersion preparationSeed maxRunDuration
          (bool_decide (is_Some rt_ReplayHistory)) r with
  | Err reply => (PDone reply, s)
  | Ok THealth => (PHealth (Stats (sv_executor s)), s)
  | Ok (TCreate d) =>
      answered (rt_Create (an_runtime a) d (sv_world s)) (fun run => PDone (RCreated (responseForRun run))) RFailure s
  | Ok (TGet id) =>
      answered (rt_Get (an_runtime a) id (sv_world s)) (fun run => PDone (RRun (responseForRun run))) RFailure s
  | Ok (THistory id options) =>
      match rt_ReplayHistory with
      | None => (PDone (RError StatusNotImplemented "durable history is unavailable"), s)
      | Some ReplayHistory =>
          answered (ReplayHistory (an_runtime a) id options (sv_world s))
            (fun page => PDone (RHistory (history_response page))) history_error s
      end
  | Ok (TAttempt id _) => step_admit a id s
  | Ok (TCancel id) => step_cancel_run a id s
  | Ok (TResolve wait d) =>
      answered (rt_Decide (an_runtime a) wait d (sv_world s)) (fun _ => PDone RResolved) RFailure s
  end.

(** [attempt.Result] and the reply.  The context is the one the attempt was
    admitted with; when it has ended here, it has ended for the attempt. *)
Definition step_wait (a : answer A) (id : nat) (s : service) : option (pc * service) :=
  match ex_heap (sv_executor s) !! id with
  | None => None
  | Some attempt =>
      let ctx := match at_parent attempt with Some e => Some e | None => an_ctx a end in
      let s := match an_ctx a with
               | Some e => if at_stopped attempt then s else set_executor (update id (parent_done e) (sv_executor s)) s
               | None => s
               end in
      match attempt_result ctx (an_pick a) attempt with
      | None => None
      | Some (_, Some e) => Some (PDone (RFailure e), s)
      | Some (result, None) => Some (PDone (RAttempt result), s)
      end
  end.

(** The next step of a goroutine; none if it is done or waits. *)
Definition step_pc (a : answer A) (p : pc) (s : service) : option (pc * service) :=
  match p with
  | PRequest r => Some (step_request a r s)
  | PHealth st =>
      Some (PDone (RHealth (negb (sv_closed s)) (st_Running st) (st_Resident st) (st_InflightTools st) (st_Queued st)), s)
  | PCancelLocal id => Some (PDone RCancelled, set_executor (cancel_local id (sv_executor s)) s)
  | PWait id => step_wait a id s
  | PClose => if sv_closed s then Some (PDone (RClosed None), s) else Some (PCloseExecutor, shut s)
  | PCloseExecutor => Some (PDrain, set_executor (Close (sv_executor s)) s)
  | PDrain =>
      match ex_drained (sv_executor s), an_ctx a with
      | true, Some e => Some (PDone (RClosed (if an_pick a then None else Some e)), s)
      | true, None => Some (PDone (RClosed None), s)
      | false, Some e => Some (PDone (RClosed (Some e)), s)
      | false, None => None
      end
  | PDone _ => None
  end.

(** ** Interleavings *)

(** A step of an attempt's goroutine between two of its sections, or of its
    context. *)
Inductive attempt_step : Executor -> Executor -> Prop :=
| attempt_parent e id a err :
    ex_heap e !! id = Some a -> at_stopped a = false -> attempt_step e (update id (parent_done err) e)
| attempt_abort e id a err :
    ex_heap e !! id = Some a -> at_parent a = Some err -> attempt_step e (abort id err e)
| attempt_yield e e' id a :
    ex_heap e !! id = Some a -> at_pc a = PGuest -> yield id e = Ok e' -> attempt_step e e'
| attempt_take e id a :
    ex_heap e !! id = Some a -> at_pc a = PTokenWait -> (ex_external e < ex_maxInflight e)%Z ->
    attempt_step e (take_slot id e)
| attempt_take_cancelled e id a :
    ex_heap e !! id = Some a -> at_pc a = PTokenWait -> attempt_step e (update id (with_pc PGuest) e)
| attempt_give e id a :
    ex_heap e !! id = Some a -> at_pc a = PTool -> attempt_step e (give_slot id e)
| attempt_reacquire e id a ctx :
    ex_heap e !! id = Some a -> at_pc a = PReacquire -> attempt_step e (reacquire ctx id e).2
| attempt_permit e id a :
    ex_heap e !! id = Some a -> at_pc a = PPermitWait -> at_permit a = Some true ->
    attempt_step e (update id (fun a => with_permit None (with_pc PGuest a)) e)
| attempt_withdraw e id a :
    ex_heap e !! id = Some a -> at_pc a = PPermitWait -> attempt_step e (withdraw id e).

(** What attempts and other processes may commit, and which answers a runtime
    can give. *)
Variable commits : W -> W -> Prop.
Variable sound : A -> Prop.

(** One step.  An attempt ends with what [Advance] returned, on some earlier
    state of the store; what [Advance] committed is among the commits. *)
Inductive service_step : service -> service -> Prop :=
| service_arrive s r : service_step s (set_threads (sv_threads s ++ [PRequest r]) s)
| service_close s : service_step s (set_threads (sv_threads s ++ [PClose]) s)
| service_go s i a p p' s' :
    sv_threads s !! i = Some p -> sound (an_runtime a) -> step_pc a p s = Some (p', s') ->
    service_step s (set_threads (<[i := p']> (sv_threads s')) s')
| service_attempt s e' : attempt_step (sv_executor s) e' -> service_step s (set_executor e' s)
| service_commit s w' : commits (sv_world s) w' -> service_step s (set_world w' s)
| service_finish s id attempt a w0 w1 result err :
    ex_heap (sv_executor s) !! id = Some attempt -> at_pc attempt = PGuest ->
    sound a -> rt_Advance a (at_runID attempt) w0 = (result, err, w1) ->
    commits w1 (sv_world s) ->
    service_step s (set_executor (finish id result err (sv_executor s)) s).

(** [New]: [options] are those given, none if there are too many. *)
Definition new_executor (options : list (string * Z)) (limits : Limits) : res error Executor :=
  if bool_decide (rt_ArtifactID = "") || bool_decide (environmentVersion = "")
  then Err (EMsg "invalid durable service configuration")
  else if (1 <? length options)%nat || existsb (fun o => (snd o <? 0)%Z) options
  then Err (EMsg "invalid durable service options")
  else NewExecutor limits.

Definition new_service (w : W) (e : Executor) : service := mkService w e 0 false [].
End Server.
Arguments service : clear implicits.
