(* ===== verification/DurableServiceSpec.v ===== *)
(** * DurableServiceSpec: what the durable service relies on

    [RuntimeLaws] is what the runtime promises to the service; the runner over
    the store keeps it ([runner_laws]).  The lemmas on the executor say where
    the result of an attempt comes from. *)

From S2P Require Import Prelude Errors Effects Json GoTime Store StoreSpec StoreInv Bundle Manifest Bridge Journal Runner RunnerSpec Executor ExecutorSpec History Http DurableService.

(** ** Where results come from *)

(** A context that has ended stays so, and so has that of an attempt that is
    done. *)
Definition ends (a a' : Attempt) : Prop :=
  (is_Some (at_ctx a) -> is_Some (at_ctx a'))
  /\ (at_state a' = attemptDone -> at_state a = attemptDone \/ is_Some (at_ctx a')).

(** Every attempt of [h'] is one of [h], with the result it had or one of [P] at
    its address. *)
Definition heap_from (P : nat -> Result -> option error -> Prop) (h h' : gmap nat Attempt) : Prop :=
  forall id a', h' !! id = Some a' ->
    exists a, h !! id = Some a /\ at_runID a' = at_runID a /\ ends a a'
      /\ (at_result a' = at_result a \/ exists r err, at_result a' = Some (r, err) /\ P id r err).

#[export] Instance heap_from_refl P : Reflexive (heap_from P).
Proof. intros h id a Ha. exists a. unfold ends. split_and!; auto. Qed.

#[export] Instance heap_from_trans P : Transitive (heap_from P).
Proof.
  intros h1 h2 h3 H12 H23 id a3 H3. destruct (H23 id a3 H3) as (a2 & H2 & Hr & [He1 He2] & Hres).
  destruct (H12 id a2 H2) as (a1 & H1 & Hr' & [He1' He2'] & Hres'). exists a1. split; [done |]. split; [congruence |].
  split; [split; [auto |]; intros Hd; destruct (He2 Hd) as [Hd' |]; [destruct (He2' Hd') |]; auto |].
  destruct Hres as [-> | ?]; auto.
Qed.

Lemma heap_from_alter P f id h :
  (forall a, at_runID (f a) = at_runID a /\ ends a (f a) /\ (at_result (f a) = at_result a \/ exists r err, at_result (f a) = Some (r, err) /\ P id r err)) ->
  heap_from P h (alter f id h).
Proof.
  intros Hf x a'. rewrite lookup_alter. case_decide as Hx; [subst | intros ?; exists a'; unfold ends; split_and!; auto].
  destruct (h !! x) as [a |]; [| done]. intros [= <-]. exists a. split; [done |]. apply Hf.
Qed.

Lemma heap_from_open P f id h :
  (forall a, at_runID (f a) = at_runID a /\ ends a (f a) /\ at_result (f a) = at_result a) -> heap_from P h (alter f id h).
Proof. intros Hf. apply heap_from_alter. intros a. destruct (Hf a) as (? & ? & ?). auto. Qed.

(** Changing the state of an attempt that goes on, or ending its context. *)
Lemma ends_open a a' : at_ctx a' = at_ctx a -> at_state a' = at_state a \/ at_state a' <> attemptDone -> ends a a'.
Proof. intros Hc [Hs | Hs]; unfold ends; rewrite Hc; [rewrite Hs |]; split; auto. by intros ?. Qed.

Lemma ends_ctx a a' : is_Some (at_ctx a') -> ends a a'.
Proof. by split; [| right]. Qed.

(** Solves that an attempt goes on, or is done with its context ended. *)
Ltac goes_on := intros ?; split_and!; [done | first [apply ends_ctx; by eexists | apply ends_open; [done | first [by left | by right]]] |].
Ltac opens := apply heap_from_open; goes_on; done.

(** What an attempt that never reached a Guest ends with. *)
Inductive dropped : Result -> option error -> Prop :=
| dropped_error e : dropped no_result (Some e)
| dropped_cancelled : dropped
    (mkResult (Some StateCancelled) no_output None (Some (mkFailure FailureCancellation (sentinel_text ErrCancelled)))) None.

Section Origin.
Variable P : nat -> Result -> option error -> Prop.
Hypothesis P_dropped : forall id r err, dropped r err -> P id r err.
Notation from := (fun e e' => heap_from P (ex_heap e) (ex_heap e')).

Lemma from_drop id a r err e : P id r err -> from e (dropQueuedResultLocked id a r err e).
Proof. intros HP. apply heap_from_alter. goes_on. right. by exists r, err. Qed.

Lemma from_drain e : from e (maybeDrainLocked e).
Proof. unfold maybeDrainLocked. by destruct (_ && _). Qed.

Lemma from_schedule fuel e : from e (schedule fuel e).
Proof.
  revert e. induction fuel as [| fuel IH]; intros e; [done |]. cbn [schedule].
  destruct (negb (ex_running e <? ex_maxRunning e)%Z); [done |]. cbv zeta.
  match goal with |- context [match ex_ready e with [] => ?adm | _ => _ end] => set (start := adm) end.
  assert (from e start) as Hstart.
  { subst start. destruct (negb _); [done |]. destruct (ex_queue e) as [| next queue]; [done |].
    cbn [ex_heap set_queue]. destruct (ex_heap e !! next) as [a |]; [| done]. destruct (negb (bool_decide (at_state a = attemptQueued))); [apply (IH (set_queue queue e)) |].
    destruct (at_ctx a) as [err |].
    - etrans; [| apply IH]. apply (from_drop next a no_result (Some err) (set_queue queue e)). apply P_dropped. constructor.
    - etrans; [| apply IH]. opens. }
  destruct (ex_ready e) as [| next ready]; [done |]. destruct (negb _ || _); [| done].
  destruct (ex_heap e !! next) as [a |]; [| done]. destruct (negb (bool_decide (at_state a = attemptReady))); [apply (IH (set_ready ready (ex_readyBurst e) e)) |].
  etrans; [| apply IH]. opens.
Qed.

Lemma from_abort id err e : from e (abort id err e).
Proof.
  unfold abort. destruct (ex_heap e !! id) as [a |]; [| done]. destruct (bool_decide _).
  - etrans; [| apply from_drain]. apply from_drop, P_dropped. constructor.
  - destruct (live _); [| done]. opens.
Qed.

Lemma from_cancel runID e : from e (cancel_local runID e).
Proof.
  unfold cancel_local. destruct (ex_attempts e !! runID) as [id |]; [| done].
  destruct (ex_heap e !! id) as [a |]; [| done]. destruct (bool_decide _).
  - etrans; [| apply from_drain]. apply from_drop, P_dropped. constructor.
  - destruct (live _); [| done]. opens.
Qed.

Lemma from_close e : from e (Close e).
Proof. unfold Close. exact (from_drain (set_closed true (ex_drained e) e)). Qed.

Lemma from_attempt_step e e' : attempt_step e e' -> from e e'.
Proof.
  intros Hs. destruct Hs as [e id a err H1 H2 | e id a err H1 H2 | e e' id a H1 H2 H3 | e id a H1 H2 H3 | e id a H1 H2
    | e id a H1 H2 | e id a ctx H1 H2 | e id a H1 H2 H3 | e id a H1 H2]; cbv beta.
  - opens.
  - apply from_abort.
  - unfold yield in H3. rewrite H1 in H3. destruct (negb _); [done |]. injection H3 as <-.
    etrans; [| apply from_schedule]. opens.
  - opens.
  - opens.
  - opens.
  - unfold reacquire. rewrite H1. destruct (negb _); [opens |].
    destruct ctx; [opens |]. destruct (_ <? _)%Z; opens.
  - opens.
  - unfold withdraw. rewrite H1. destruct (bool_decide _); opens.
Qed.

Lemma from_finish id r err e : P id r err -> from e (finish id r err e).
Proof.
  intros HP. unfold finish. destruct (ex_heap e !! id) as [a |]; [| done]. destruct (_ || _); [done |].
  match goal with |- context [set_attempts _ ?x] => set (e1 := x) end.
  assert (ex_heap e1 = ex_heap e) as Hheap by (subst e1; by destruct (at_state a)). rewrite <- Hheap.
  etrans; [| apply from_drain]. etrans; [| apply from_schedule].
  apply heap_from_alter. goes_on. right. by exists r, err.
Qed.
End Origin.

Lemma attempt_step_exec e e' : attempt_step e e' -> exec_step e e'.
Proof.
  intros Hs. destruct Hs; [by eapply step_parent | by eapply step_abort | by eapply step_yield | by eapply step_take
    | by eapply step_take_cancelled | by eapply step_give | by eapply step_reacquire | by eapply step_permit | by eapply step_withdraw].
Qed.

(** ** The laws of a runtime *)

(** A stored run that is completed with this output. *)
Definition completed_with (run : Run) (out : Output) : Prop :=
  r_Status run = StatusCompleted
  /\ (marshal_output out = Some (r_Outcome run) \/ unmarshal_output (r_Outcome run) = (out, true)).

(** [rt_commits] is what may be committed between two states, [rt_sound] which
    answers are possible, [rt_run] the stored run and [rt_fits] whether an
    attempt accepts its definition; [rt_Seed] is the seed of a prepared runner. *)
Class RuntimeLaws (W A : Type) `{Runtime W A} := {
  rt_commits : W -> W -> Prop;
  rt_sound : A -> Prop;
  rt_run : W -> string -> option Run;
  rt_fits : Definition_ -> bool;
  rt_Seed : string;
  rl_order :: PreOrder rt_commits;
  rl_runs : forall w w' id run, rt_commits w w' -> rt_run w id = Some run ->
    exists run', rt_run w' id = Some run' /\ run_le run run';
  rl_Create : forall a d w r w', rt_sound a -> rt_Create a d w = (r, w') -> rt_commits w w'
    /\ forall run, r = Ok run -> rt_run w' (d_ID d) = Some run
       /\ d_ID (r_Definition run) = d_ID d /\ d_Seed (r_Definition run) = d_Seed d /\ d_Code (r_Definition run) = d_Code d
       /\ d_Inputs (r_Definition run) = d_Inputs d
       /\ d_ArtifactSHA256 (r_Definition run) = d_ArtifactSHA256 d
       /\ d_EnvironmentVersion (r_Definition run) = d_EnvironmentVersion d
       /\ (rt_Seed = "" \/ d_Seed d = rt_Seed -> rt_fits (r_Definition run) = true);
  rl_Get : forall a id w r w', rt_sound a -> rt_Get a id w = (r, w') -> rt_commits w w'
    /\ forall run, r = Ok run -> rt_run w' id = Some run;
  rl_Decide : forall a id d w r w', rt_sound a -> rt_Decide a id d w = (r, w') -> rt_commits w w';
  rl_Cancel : forall a id w r w', rt_sound a -> rt_Cancel a id w = (r, w') -> rt_commits w w'
    /\ (r = Ok tt -> exists run, rt_run w' id = Some run /\ r_Status run = StatusCancelled);
  rl_Advance : forall a id w r err w', rt_sound a -> rt_Advance a id w = (r, err, w') ->
    err = None -> re_State r = Some StateCompleted ->
    exists run, rt_run w' id = Some run /\ completed_with run (re_Output r);
  rl_History : forall f a id o w r w', rt_ReplayHistory = Some f -> rt_sound a -> f a id o w = (r, w') -> rt_commits w w'
}.

(** ** The runner keeps them *)

(** What the environment of the runner answers during one call. *)
Record runner_answer := mkRunnerAnswer {
  ra_faults : nat -> option error;
  ra_others : nat -> tables -> tables;
  ra_lock : nat -> option error;
  ra_now : nat -> Time;
  ra_yield : list event -> option error;
  ra_reacquire : list event -> option error;
  ra_json_error : string -> error;
  ra_closed : nat -> bool;
  ra_decode_error : string -> error
}.

Section Runner.
Variable artifact : string -> string -> guest.
Variable guestManifest : list guestToolSpec.
Variable runner : Runner.
(** The JSON functions of SQLite. *)
Variable json_valid : string -> bool.
Variable json_type : string -> string -> option string.
Variable json_extract : string -> string -> option string.

#[local] Instance runner_runtime : Runtime world runner_answer := {
  rt_ArtifactID := rn_artifactSHA256 runner;
  rt_Create a d := CreateRun (ra_faults a) (ra_others a) runner d;
  rt_Get a id := GetRun (ra_faults a) (ra_others a) id;
  rt_Decide a id d := Decide (ra_faults a) (ra_others a) id d;
  rt_Cancel a id := Runner.Cancel (ra_faults a) (ra_others a) id;
  rt_Advance a id w :=
    let '(r, err, h) := Advance (ra_faults a) (ra_others a) (ra_lock a) (ra_now a) (ra_yield a) (ra_reacquire a)
                          (ra_json_error a) artifact guestManifest (ra_closed a) runner id (mkHost w [] fresh_journal) in
    (r, err, h_db h);
  rt_ReplayHistory := Some (fun a id o =>
    runner_ReplayHistory (ra_faults a) (ra_others a) (ra_decode_error a) json_valid json_type json_extract id o)
}.

(** An attempt on a stored run is not refused because of its definition. *)
Definition fits (d : Definition_) : bool :=
  match validatePinned runner d with
  | Some _ => false
  | None => bool_decide (rn_preparedSeed runner = "") || bool_decide (d_Seed d = rn_preparedSeed runner)
  end.

Definition runner_commits (w w' : world) : Prop := rtc store_next (w_tables w) (w_tables w').

#[local] Instance runner_commits_order : PreOrder runner_commits.
Proof. split; [by intros w; unfold runner_commits | intros w1 w2 w3 H1 H2; unfold runner_commits in *; by etrans]. Qed.

Definition runner_sound (a : runner_answer) : Prop := forall n t, rtc store_next t (ra_others a n t).

Lemma runs_le t t' id run :
  rtc store_next t t' -> t_runs t !! id = Some run -> exists run', t_runs t' !! id = Some run' /\ run_le run run'.
Proof.
  intros Hr. revert run. induction Hr as [t | t1 t2 t3 [ev Hs] Hr IH]; intros run Hrun; [exists run; by split |].
  destruct (le_runs _ _ (store_step_le ev t1 t2 Hs) id run Hrun) as (run2 & H2 & Hle).
  destruct (IH run2 H2) as (run3 & H3 & Hle'). exists run3. split; [done |]. by etrans.
Qed.

(** An operation of the store only commits. *)
Lemma op_commits {B} a (m : DB B) Q w :
  runner_sound a -> op_post (ra_others a) m Q -> (forall t b t', Q t b t' -> rtc store_next t t') ->
  runner_commits w (snd (m w)).
Proof.
  intros Ha Hm HQ. unfold runner_commits. specialize (Hm w). destruct (m w) as [[b | e] w']; cbn.
  - etrans; [apply (Ha (w_ticks w)) | by eapply HQ].
  - destruct Hm as [-> | ->]; [apply Ha | done].
Qed.

Lemma step_once ev t t' : store_step ev t t' -> rtc store_next t t'.
Proof. intros Hs. apply rtc_once. by exists ev. Qed.

Lemma get_commits a id w : runner_sound a -> runner_commits w (snd (Get (ra_faults a) (ra_others a) id w)).
Proof. intros Ha. apply (op_commits a _ _ w Ha (get_post _ _ _)). by intros t b t' [-> _]. Qed.

Lemma get_run a id w run w' : Get (ra_faults a) (ra_others a) id w = (Ok run, w') -> t_runs (w_tables w') !! id = Some run.
Proof. intros Hg. pose proof (get_post (ra_faults a) (ra_others a) id w) as Hp. rewrite Hg in Hp. by destruct Hp as [-> ?]. Qed.

Lemma runner_create a d w r w' :
  runner_sound a -> CreateRun (ra_faults a) (ra_others a) runner d w = (r, w') -> runner_commits w w'
  /\ forall run, r = Ok run -> t_runs (w_tables w') !! d_ID d = Some run
     /\ r_Definition run = with_tools (rn_toolSnapshot runner) d
     /\ validatePinned runner (r_Definition run) = None.
Proof.
  intros Ha. unfold CreateRun. destruct (bool_decide _); [intros [= <- <-]; by split |]. destruct (_ && _); [intros [= <- <-]; by split |].
  destruct (validatePinned runner (with_tools (rn_toolSnapshot runner) d)) as [e |] eqn:Hv; [intros [= <- <-]; by split |].
  pose proof (create_post (ra_faults a) (ra_others a) (with_tools (rn_toolSnapshot runner) d)) as Hpost.
  pose proof (op_commits a _ _ w Ha Hpost (fun t _ t' => step_once _ t t')) as Hc. specialize (Hpost w).
  unfold bind. destruct (Create _ _ _ w) as [[u | e] w1]; [| intros [= <- <-]; by split]. cbn [snd] in Hc.
  pose proof (get_commits a (d_ID d) w1 Ha) as Hg. cbn [d_ID with_tools].
  destruct (Get _ _ _ w1) as [x w2] eqn:Hget. intros [= <- <-]. cbn [snd] in Hg. split; [by etrans |].
  intros run ->. apply get_run in Hget. split; [done |].
  assert (r_Definition run = with_tools (rn_toolSnapshot runner) d) as Hd; [| by rewrite Hd].
  inversion Hpost; subst. match goal with H : _ = w_tables w1 |- _ => rename H into Hw1 end.
  destruct (runs_le (w_tables w1) (w_tables w2) (d_ID d) (mkRun (with_tools (rn_toolSnapshot runner) d) StatusActive "" "") Hg)
    as (run' & Hr' & [Hd _]).
  - rewrite <- Hw1. cbn. by rewrite lookup_insert_eq.
  - cbn in Hget, Hd. congruence.
Qed.

Lemma runner_cancel a id w r w' :
  runner_sound a -> Runner.Cancel (ra_faults a) (ra_others a) id w = (r, w') -> runner_commits w w'
  /\ (r = Ok tt -> exists run, t_runs (w_tables w') !! id = Some run /\ r_Status run = StatusCancelled).
Proof.
  intros Ha. unfold Runner.Cancel. destruct (bool_decide _); [intros [= <- <-]; by split |].
  pose proof (set_state_post (ra_faults a) (ra_others a) id StatusCancelled "" "cancelled") as Hpost.
  pose proof (op_commits a _ _ w Ha Hpost) as Hc. specialize (Hpost w). intros Heq. rewrite Heq in Hpost, Hc. split.
  - apply Hc. intros t b t' [[-> _] | Hs]; [done | by eapply step_once].
  - intros ->. destruct Hpost as [[-> (run & Hr & Heq2 & _)] | Hs]; [exists run; split; [done | by rewrite Heq2] |].
    inversion Hs; subst. cbn. rewrite lookup_insert_eq. by eexists.
Qed.

(** An attempt that reports completion left a completed run with its output. *)
Lemma runner_advance a id w r w' :
  runner_sound a -> rt_Advance a id w = (r, None, w') -> re_State r = Some StateCompleted ->
  exists run, t_runs (w_tables w') !! id = Some run /\ completed_with run (re_Output r).
Proof.
  intros Ha. cbn [rt_Advance runner_runtime]. unfold Advance.
  destruct (Resume _ _ _ _ _ _ _ _ _ _ _ _ _) as [[out err] h] eqn:Hres.
  destruct (classifyAttemptResult out err) as [r0 err0] eqn:Hclass. intros [= -> -> <-] Hstate.
  assert (err = None /\ re_Output r = out) as [-> ->].
  { unfold classifyAttemptResult in Hclass. destruct err as [e |]; [| by injection Hclass as <-].
    exfalso. destruct (asPark e); [| destruct (errors_is ErrBlocked e); [| destruct (as_python e); [| destruct (errors_is ErrCancelled e)]]];
      by injection Hclass as <-. }
  clear Hclass Hstate. unfold Resume in Hres. destruct (bool_decide (id = "")); [done |]. destruct (ra_closed a _); [done |].
  destruct (on_db _ _) as [[u | e] h1]; [| done]. unfold resume_claimed in Hres.
  destruct (on_db (Get _ _ id) h1) as [[run | e] h2] eqn:Hget; [| done].
  destruct (bool_decide (r_Status run = StatusBlocked)); [done |]. destruct (validatePinned _ _).
  { by destruct (on_db _ h2) as [[]]. }
  destruct (bool_decide (r_Status run = StatusCancelled)); [done |].
  destruct (bool_decide (r_Status run = StatusCompleted) || bool_decide (r_Status run = StatusFailed)) eqn:Hended.
  - injection Hres as Hstored <-. exists run. split.
    + unfold on_db, lift in Hget. destruct (Get _ _ _ _) as [x w1] eqn:Hg. injection Hget as -> <-. by apply get_run in Hg.
    + unfold stored_result in Hstored. destruct (unmarshal_output (r_Outcome run)) as [o ok] eqn:Hu.
      destruct ok; [| by rewrite orb_true_r in Hstored]. destruct (bool_decide (r_Outcome run = "")); [done |].
      destruct (bool_decide (r_Status run = StatusFailed)) eqn:Hf; [done |]. rewrite orb_false_r in Hended.
      apply bool_decide_eq_true in Hended. injection Hstored as <-. split; [done | by right].
  - destruct (_ && _); [done |]. destruct (ra_closed a _); [done |].
    destruct (on_db (Get _ _ id) h2) as [[latest | e] h3]; [| done]. destruct (bool_decide (r_Status latest = StatusCancelled)); [done |].
    destruct (run_attempt _ _ _ _ _ _ _ _ _ _ _ _) as [[output runErr] h4].
    apply conclude_stored in Hres as (_ & -> & (d & stored & Hm & Hrow) & _).
    exists (mkRun d StatusCompleted stored ""). split; [done |]. split; [done | by left].
Qed.

Lemma runner_history a id o w r w' :
  runner_sound a ->
  runner_ReplayHistory (ra_faults a) (ra_others a) (ra_decode_error a) json_valid json_type json_extract id o w = (r, w') ->
  runner_commits w w'.
Proof.
  intros Ha. unfold runner_ReplayHistory, ReplayHistory. destruct (bool_decide _); [by intros [= _ <-] |].
  pose proof (get_commits a id w Ha) as H1. unfold bind at 1. destruct (Get _ _ _ w) as [[run | e] w1]; [| by intros [= _ <-]].
  cbn [snd] in H1. unfold bind, of_res. destruct (toolVersionsForRun _ _) as [versions | e]; [| by intros [= _ <-]].
  cbv zeta. cbn [of_res]. pose proof (op_db_query (ra_faults a) (ra_others a)
    (fun t => take (N.to_nat (page_limit (ho_Limit o) + 1)) (history_rows t id (ho_FromSequence o)))) as Hq.
  pose proof (op_commits a _ _ w1 Ha Hq) as H2. unfold ret. destruct (db_query _ _ _ w1) as [[rows | e] w2]; intros [= _ <-].
  all: etrans; [exact H1 |]; apply H2; by intros t b t' [-> _].
Qed.

#[local] Instance runner_laws : RuntimeLaws world runner_answer.
Proof.
  refine {| rt_commits := runner_commits; rt_sound := runner_sound; rt_run w id := t_runs (w_tables w) !! id;
            rt_fits := fits; rt_Seed := rn_preparedSeed runner |}.
  - intros w w' id run. apply runs_le.
  - intros a d w r w' Ha Hc. destruct (runner_create a d w r w' Ha Hc) as [H1 H2]. split; [done |].
    intros run Hr. destruct (H2 run Hr) as (Hrow & Hd & Hv). rewrite Hd. split_and!; try done.
    intros Hseed. unfold fits. rewrite <- Hd, Hv, Hd. cbn [d_Seed with_tools]. destruct Hseed as [-> | ->]; [done |].
    apply orb_true_iff. right. by apply bool_decide_eq_true_2.
  - intros a id w r w' Ha. cbn [rt_Get runner_runtime]. unfold GetRun. destruct (bool_decide _); [intros [= <- <-]; by split |].
    intros Hg. pose proof (get_commits a id w Ha) as H1. rewrite Hg in H1. split; [done |]. intros run ->. by apply get_run in Hg.
  - intros a id d w r w' Ha. cbn [rt_Decide runner_runtime]. unfold Decide. destruct (bool_decide _); [by intros [= <- <-] |].
    intros Hr. pose proof (op_commits a _ _ w Ha (resolve_post (ra_faults a) (ra_others a) id d)) as H1. rewrite Hr in H1.
    apply H1. intros t b t' [[-> _] | Hs]; [done | by eapply step_once].
  - intros a id w r w'. apply runner_cancel.
  - intros a id w r err w' Ha Hadv -> Hst. by apply (runner_advance a id w r w').
  - intros f a id o w r w' [= <-] Ha Hh. by apply (runner_history a id o w r w').
Defined.
End Runner.
