(* ===== verification/DurableServiceProps.v ===== *)
(** * DurableServiceProps: what the durable service promises

    The theorems are proved against the laws of a runtime and hold for every
    interleaving of handlers, attempts, commits and [Close]; the witnesses run
    the service over the runner and the store. *)

From S2P Require Import Prelude Errors Effects Json GoTime Store StoreSpec StoreInv StoreProps Bundle Manifest Bridge Journal JournalSpec Runner RunnerSpec RunnerProps Executor ExecutorSpec ExecutorProps History HistoryProps Http DurableService DurableServiceSpec.

Section Promises.
Context {W A : Type} `{Laws : RuntimeLaws W A}.
Variable environmentVersion : string.
Variable preparationSeed : string.
Variable maxRunDuration : Z.
Variable limits : Limits.
Notation service := (service W).
Notation step_pc := (step_pc environmentVersion preparationSeed maxRunDuration).
Notation dispatch := (dispatch rt_ArtifactID environmentVersion preparationSeed maxRunDuration (bool_decide (is_Some rt_ReplayHistory))).
Notation service_step := (service_step environmentVersion preparationSeed maxRunDuration rt_commits rt_sound).

(** ** The invariant *)

(** The durable result of an attempt of this run. *)
Definition durable (w : W) (id : string) (r : Result) (err : option error) : Prop :=
  err = None -> re_State r = Some StateCompleted -> exists run, rt_run w id = Some run /\ completed_with run (re_Output r).

(** A run as this service creates them. *)
Definition created_here (run : Run) : Prop :=
  let d := r_Definition run in
  d_ID d <> "" /\ has_char "/" (d_ID d) = false /\ d_Code d <> "" /\ d_ArtifactSHA256 d = rt_ArtifactID
  /\ d_EnvironmentVersion d = environmentVersion /\ Json.valid (d_Inputs d) = true
  /\ (preparationSeed = "" \/ d_Seed d = preparationSeed)
  /\ (preparationSeed = rt_Seed -> rt_fits d = true).

(** What a goroutine knows of the store. *)
Definition told (w : W) (p : pc) : Prop :=
  match p with
  | PDone (RCreated resp) => exists run, rt_run w (rs_ID resp) = Some run /\ d_ID (r_Definition run) = rs_ID resp /\ created_here run
  | PCancelLocal id => id <> "" /\ exists run, rt_run w id = Some run /\ r_Status run = StatusCancelled
  | _ => True
  end.

Definition waiting (p : pc) : option nat := match p with PWait k => Some k | _ => None end.

Record served (s : service) : Prop := {
  sd_exec : exec_reachable limits (sv_executor s);
  sd_next : forall id, is_Some (ex_heap (sv_executor s) !! id) -> (id < sv_next s)%nat;
  sd_wait : forall i p k, sv_threads s !! i = Some p -> waiting p = Some k -> is_Some (ex_heap (sv_executor s) !! k);
  sd_apart : forall i j p q k, sv_threads s !! i = Some p -> sv_threads s !! j = Some q ->
               waiting p = Some k -> waiting q = Some k -> i = j;
  sd_results : forall id a r err, ex_heap (sv_executor s) !! id = Some a -> at_result a = Some (r, err) ->
                 durable (sv_world s) (at_runID a) r err;
  sd_ended : forall id a, ex_heap (sv_executor s) !! id = Some a -> at_state a = attemptDone -> is_Some (at_ctx a);
  sd_told : forall i p, sv_threads s !! i = Some p -> told (sv_world s) p
}.

(** ** Commits *)

Lemma outcome_stays w w' id run out :
  rt_commits w w' -> rt_run w id = Some run -> completed_with run out ->
  exists run', rt_run w' id = Some run' /\ completed_with run' out.
Proof.
  intros Hc Hr [Hst Ho]. destruct (rl_runs w w' id run Hc Hr) as (run' & Hr' & Hd & Hterm). exists run'. split; [done |].
  rewrite Hterm by (by rewrite Hst). by split.
Qed.

Lemma durable_stays w w' id r err : rt_commits w w' -> durable w id r err -> durable w' id r err.
Proof. intros Hc Hd He Hs. destruct (Hd He Hs) as (run & Hr & Ho). by apply (outcome_stays w w' id run). Qed.

Lemma told_stays w w' p : rt_commits w w' -> told w p -> told w' p.
Proof.
  intros Hc. destruct p as [| | id | | | | | r]; try done.
  - intros (Hne & run & Hr & Hst). split; [done |]. destruct (rl_runs w w' id run Hc Hr) as (run' & Hr' & _ & Hterm).
    exists run'. split; [done |]. by rewrite Hterm by (by rewrite Hst).
  - destruct r; try done. intros (run & Hr & Hid & Hh). destruct (rl_runs w w' _ run Hc Hr) as (run' & Hr' & Hd & _).
    exists run'. split; [done |]. unfold created_here. rewrite Hd. done.
Qed.

(** The attempts after a step of a goroutine: as before but for results of
    [dropped], or with a new one that the goroutine waits for. *)
Inductive attempts_after (s s' : service) (p' : pc) : Prop :=
| attempts_kept :
    sv_next s' = sv_next s -> waiting p' = None ->
    heap_from (fun _ => dropped) (ex_heap (sv_executor s)) (ex_heap (sv_executor s')) -> attempts_after s s' p'
| attempts_new a :
    sv_next s' = S (sv_next s) -> waiting p' = Some (sv_next s) ->
    ex_heap (sv_executor s') = <[sv_next s := a]> (ex_heap (sv_executor s)) -> at_result a = None ->
    at_state a <> attemptDone -> attempts_after s s' p'.

(** What a step of a goroutine does to the rest of the service. *)
Record serves (s s' : service) (p' : pc) : Prop := {
  sr_threads : sv_threads s' = sv_threads s;
  sr_world : rt_commits (sv_world s) (sv_world s');
  sr_exec : rtc exec_step (sv_executor s) (sv_executor s');
  sr_attempts : attempts_after s s' p';
  sr_told : told (sv_world s') p'
}.

Lemma dropped_durable w id r err : dropped r err -> durable w id r err.
Proof. by intros [e |]. Qed.

Lemma exec_steps_reach e e' : exec_reachable limits e -> rtc exec_step e e' -> exec_reachable limits e'.
Proof. intros (e0 & Hnew & Hr) Hs. exists e0. split; [done |]. by etrans. Qed.

Lemma heap_from_back P h h' k : heap_from P h h' -> is_Some (h' !! k) -> is_Some (h !! k).
Proof. intros Hf [a' Ha']. destruct (Hf k a' Ha') as (a & Ha & _). by exists a. Qed.

Lemma heap_le_keeps h h' k : heap_le h h' -> is_Some (h !! k) -> is_Some (h' !! k).
Proof. intros Hle [a Ha]. destruct (Hle k a Ha) as (a' & Ha' & _). by exists a'. Qed.

Lemma results_from w w' h h' (P : nat -> Result -> option error -> Prop) :
  rt_commits w w' ->
  (forall id a r err, h !! id = Some a -> at_result a = Some (r, err) -> durable w (at_runID a) r err) ->
  heap_from P h h' -> (forall id a r err, h !! id = Some a -> P id r err -> durable w' (at_runID a) r err) ->
  forall id a r err, h' !! id = Some a -> at_result a = Some (r, err) -> durable w' (at_runID a) r err.
Proof.
  intros Hc Hd Hf HP id a' r err Ha' Hr. destruct (Hf id a' Ha') as (a & Ha & -> & _ & [Heq | (r0 & e0 & Heq & Hp)]).
  - apply (durable_stays w); [done |]. apply (Hd id a); congruence.
  - apply (HP id a); [done |]. congruence.
Qed.

Lemma ended_from h h' (P : nat -> Result -> option error -> Prop) :
  (forall id a, h !! id = Some a -> at_state a = attemptDone -> is_Some (at_ctx a)) -> heap_from P h h' ->
  forall id a, h' !! id = Some a -> at_state a = attemptDone -> is_Some (at_ctx a).
Proof.
  intros He Hf id a' Ha' Hd. destruct (Hf id a' Ha') as (a & Ha & _ & [H1 H2] & _). destruct (H2 Hd); [| done]. by eapply H1, He.
Qed.

Lemma serves_ok s s' i p p' :
  served s -> sv_threads s !! i = Some p -> serves s s' p' -> served (set_threads (<[i := p']> (sv_threads s')) s').
Proof.
  intros [S1 S2 S3 S4 S5 S7 S6] Hi [G1 G2 G3 G4 G5]. rewrite G1.
  assert (i < length (sv_threads s))%nat as Hlt by (by apply lookup_lt_Some in Hi).
  assert (heap_le (ex_heap (sv_executor s)) (ex_heap (sv_executor s'))) as Hle.
  { apply ev_heap, steps_evolve; [by eapply reachable_settled | done]. }
  assert (~ is_Some (ex_heap (sv_executor s) !! sv_next s)) as Hfresh by (intros Hn; specialize (S2 _ Hn); lia).
  split; cbn [set_threads sv_world sv_executor sv_next sv_threads].
  - by eapply exec_steps_reach.
  - intros id Hid. destruct G4 as [-> _ Hf | a -> _ Hh _ _].
    + by eapply S2, heap_from_back.
    + rewrite Hh in Hid. apply lookup_insert_is_Some in Hid as [<- | [_ Hid]]; [lia |]. specialize (S2 id Hid). lia.
  - intros j q k [(<- & <- & _) | [_ Hj]]%list_lookup_insert_Some Hq.
    + destruct G4 as [_ Hw _ | a _ Hw Hh _ _]; [congruence |]. rewrite Hw in Hq. injection Hq as <-.
      rewrite Hh, lookup_insert_eq. by eexists.
    + by eapply heap_le_keeps, S3.
  - intros j1 j2 q1 q2 k [(<- & <- & _) | [Hn1 Hj1]]%list_lookup_insert_Some [(<- & <- & _) | [Hn2 Hj2]]%list_lookup_insert_Some Hq1 Hq2;
      [done | | | by apply (S4 j1 j2 q1 q2 k)].
    all: destruct G4 as [_ Hw _ | a _ Hw _ _ _]; [congruence |]; exfalso; apply Hfresh.
    + apply (S3 j2 q2 _ Hj2). congruence.
    + apply (S3 j1 q1 _ Hj1). congruence.
  - destruct G4 as [_ _ Hf | a _ _ Hh Hr _].
    + eapply results_from; [exact G2 | exact S5 | exact Hf |]. intros. by apply dropped_durable.
    + intros id b r err Hb Hres. rewrite Hh in Hb. apply lookup_insert_Some in Hb as [[<- <-] | [_ Hb]]; [congruence |].
      apply (durable_stays (sv_world s)); [done |]. by apply (S5 id b).
  - destruct G4 as [_ _ Hf | a _ _ Hh _ Hnd]; [by eapply ended_from |].
    intros id b Hb Hd. rewrite Hh in Hb. apply lookup_insert_Some in Hb as [[<- <-] | [_ Hb]]; [done | by eapply S7].
  - intros j q [(<- & <- & _) | [_ Hj]]%list_lookup_insert_Some; [done |]. apply (told_stays (sv_world s)); [done |]. by apply (S6 j q).
Qed.

(** ** Every step *)

Lemma serves_world s w' p' :
  rt_commits (sv_world s) w' -> waiting p' = None -> told w' p' -> serves s (set_world w' s) p'.
Proof. intros Hc Hw Ht. split; try done. by apply attempts_kept. Qed.

Lemma serves_same s p' : waiting p' = None -> told (sv_world s) p' -> serves s s p'.
Proof. intros Hw Ht. split; try done. by apply attempts_kept. Qed.

Lemma serves_executor s e' p' :
  exec_step (sv_executor s) e' -> heap_from (fun _ => dropped) (ex_heap (sv_executor s)) (ex_heap e') ->
  waiting p' = None -> told (sv_world s) p' -> serves s (set_executor e' s) p'.
Proof. intros He Hf Hw Ht. split; try done; [by apply rtc_once | by apply attempts_kept]. Qed.

Lemma answered_serves {B} (x : res error B * W) next refused s p' s' :
  answered x next refused s = (p', s') -> rt_commits (sv_world s) (snd x) ->
  (forall b, fst x = Ok b -> waiting (next b) = None /\ told (snd x) (next b)) ->
  (forall e, told (snd x) (PDone (refused e))) -> serves s s' p'.
Proof.
  unfold answered. destruct x as [[b | e] w]; intros [= <- <-] Hc Hn Hr; cbn [fst snd] in *.
  - destruct (Hn b eq_refl). by apply serves_world.
  - by apply serves_world.
Qed.

(** What is known of the definition that a request creates. *)
Lemma handleCreate_Ok r t :
  handleCreate rt_ArtifactID environmentVersion preparationSeed r = Ok t ->
  exists d, t = TCreate d /\ d_ID d <> "" /\ has_char "/" (d_ID d) = false /\ d_Code d <> ""
    /\ d_ArtifactSHA256 d = rt_ArtifactID /\ d_EnvironmentVersion d = environmentVersion
    /\ Json.valid (d_Inputs d) = true /\ (preparationSeed = "" \/ d_Seed d = preparationSeed).
Proof.
  unfold handleCreate. destruct (negb _); [done |]. destruct (decodeBody _ _) as [body |]; [| done].
  destruct (_ || _ || _ || _) eqn:Hbad; [done |]. destruct (negb (bool_decide (preparationSeed = "")) && _) eqn:Hseed; [done |].
  cbv zeta. destruct (valid _) eqn:Hv; [| done]. intros [= <-]. eexists. split; [reflexivity |].
  rewrite !orb_false_iff, !bool_decide_eq_false in Hbad. destruct Hbad as [[[H1 H2] H3] H4]. cbn [d_ID d_Code d_Seed d_ArtifactSHA256 d_EnvironmentVersion d_Inputs].
  split_and!; try done. apply andb_false_iff in Hseed as [Hs | Hs]; apply negb_false_iff, bool_decide_eq_true in Hs; auto.
Qed.

Lemma dispatch_create r d :
  dispatch r = Ok (TCreate d) ->
  d_ID d <> "" /\ has_char "/" (d_ID d) = false /\ d_Code d <> ""
    /\ d_ArtifactSHA256 d = rt_ArtifactID /\ d_EnvironmentVersion d = environmentVersion
    /\ Json.valid (d_Inputs d) = true /\ (preparationSeed = "" \/ d_Seed d = preparationSeed).
Proof.
  unfold DurableService.dispatch.
  assert (handleCreate rt_ArtifactID environmentVersion preparationSeed r = Ok (TCreate d) ->
    d_ID d <> "" /\ has_char "/" (d_ID d) = false /\ d_Code d <> ""
    /\ d_ArtifactSHA256 d = rt_ArtifactID /\ d_EnvironmentVersion d = environmentVersion
    /\ Json.valid (d_Inputs d) = true /\ (preparationSeed = "" \/ d_Seed d = preparationSeed)) as Hc.
  { intros (d' & [= <-] & ?)%handleCreate_Ok. done. }
  unfold handleResolve, handleHistory, handleAttempt, handleCancel.
  repeat match goal with
  | |- (if ?b then _ else _) = _ -> _ => destruct b
  | |- (let '_ := ?x in _) = _ -> _ => destruct x
  | |- match ?x with _ => _ end = _ -> _ => destruct x
  end; try done; exact Hc.
Qed.

(** Refusing a request tells nothing of the store. *)
Lemma dispatch_refused r e w : dispatch r = Err e -> told w (PDone e).
Proof.
  unfold DurableService.dispatch, handleCreate, handleResolve, handleHistory, handleAttempt, handleCancel.
  repeat match goal with
  | |- (if ?b then _ else _) = _ -> _ => destruct b
  | |- (let '_ := ?x in _) = _ -> _ => destruct x
  | |- match ?x with _ => _ end = _ -> _ => destruct x
  end; by intros [= <-].
Qed.

Lemma step_request_serves s a r p' s' :
  served s -> rt_sound (an_runtime a) ->
  step_request environmentVersion preparationSeed maxRunDuration a r s = (p', s') -> serves s s' p'.
Proof.
  intros Hs Ha. unfold step_request. destruct (dispatch r) as [t | reply] eqn:Hd; cycle 1.
  { intros [= <- <-]. apply serves_same; [done |]. by eapply dispatch_refused. }
  destruct t as [| d | id | id o | id dl | id | wait dec].
  - intros [= <- <-]. by apply serves_same.
  - intros Hx. destruct (rt_Create (an_runtime a) d (sv_world s)) as [x w'] eqn:Hc.
    destruct (rl_Create _ _ _ _ _ Ha Hc) as [Hcom Hrun]. eapply answered_serves; [exact Hx | done | | done].
    intros run Hx'. cbn [fst snd] in *. subst x. split; [done |]. destruct (Hrun run eq_refl) as (H1 & H2 & H3 & H4 & H5 & H6 & H7 & H8).
    destruct (dispatch_create r d Hd) as (D1 & D2 & D3 & D4 & D5 & D6 & D7).
    exists run. cbn [rs_ID responseForRun]. rewrite H2. split; [done |]. split; [done |].
    unfold created_here. rewrite H2, H3, H4, H5, H6, H7. split_and!; try done. intros Hp. apply H8. by rewrite <- Hp.
  - intros Hx. destruct (rt_Get (an_runtime a) id (sv_world s)) as [x w'] eqn:Hc.
    destruct (rl_Get _ _ _ _ _ Ha Hc) as [Hcom _]. by eapply answered_serves.
  - destruct rt_ReplayHistory as [f |] eqn:Hf; [| intros [= <- <-]; by apply serves_same].
    intros Hx. destruct (f (an_runtime a) id o (sv_world s)) as [x w'] eqn:Hc.
    pose proof (rl_History _ _ _ _ _ _ _ Hf Ha Hc) as Hcom. eapply answered_serves; [exact Hx | done | done |].
    intros e. unfold history_error. by destruct (_ <=? _)%N.
  - unfold step_admit. destruct (Admit _ _ _ _) as [e' | e] eqn:Hadm; intros [= <- <-]; [| by apply serves_same].
    assert (ex_heap (sv_executor s) !! sv_next s = None) as Hfresh.
    { destruct (ex_heap (sv_executor s) !! sv_next s) eqn:Hn; [| done]. exfalso.
      pose proof (sd_next _ Hs (sv_next s)) as Hlt. rewrite Hn in Hlt. specialize (Hlt ltac:(by eexists)). lia. }
    split; cbn [admitted sv_threads sv_world sv_executor]; try done.
    + apply rtc_once. by apply (Executor.step_admit _ _ (Some (an_ctx a)) id (sv_next s)).
    + unfold Admit in Hadm. destruct (bool_decide (id = "")); [done |]. destruct (an_ctx a); [done |]. destruct (ex_closed _); [done |].
      destruct (ex_attempts _ !! id); [done |].
      destruct (_ && _); [injection Hadm as <-; by eapply attempts_new |].
      destruct (_ <=? _)%Z; [done |]. injection Hadm as <-. by eapply attempts_new.
  - unfold step_cancel_run. destruct (bool_decide (id = "")) eqn:Hid; [intros [= <- <-]; by apply serves_same |].
    apply bool_decide_eq_false in Hid.
    intros Hx. destruct (rt_Cancel (an_runtime a) id (sv_world s)) as [x w'] eqn:Hc.
    destruct (rl_Cancel _ _ _ _ _ Ha Hc) as [Hcom Hrun]. eapply answered_serves; [exact Hx | done | | done].
    intros [] Hx'. cbn [fst snd] in *. subst x. split; [done |]. split; [done |]. by apply Hrun.
  - intros Hx. destruct (rt_Decide (an_runtime a) wait dec (sv_world s)) as [x w'] eqn:Hc.
    pose proof (rl_Decide _ _ _ _ _ _ Ha Hc) as Hcom. by eapply answered_serves.
Qed.

Lemma step_wait_serves s (a : answer A) k p' s' :
  step_wait a k s = Some (p', s') -> serves s s' p'.
Proof.
  unfold step_wait. destruct (ex_heap (sv_executor s) !! k) as [att |] eqn:Hk; [| done].
  assert (serves s (match an_ctx a with
                    | Some e => if at_stopped att then s else set_executor (update k (parent_done e) (sv_executor s)) s
                    | None => s end) (PDone not_found)) as Hs.
  { destruct (an_ctx a) as [e |]; [| by apply serves_same]. destruct (at_stopped att) eqn:Hst; [by apply serves_same |].
    apply serves_executor; try done; [by eapply step_parent | opens]. }
  destruct (attempt_result _ _ _) as [[r [e |]] |]; intros [= <- <-]; destruct Hs as [H1 H2 H3 H4 H5]; split; try done.
  all: destruct H4 as [? ? ? | ? ? Hw ? ? ?]; [by apply attempts_kept | done].
Qed.

Lemma step_pc_serves s a p p' s' :
  served s -> rt_sound (an_runtime a) -> told (sv_world s) p -> step_pc a p s = Some (p', s') -> serves s s' p'.
Proof.
  intros Hs Ha Ht. destruct p as [r | st | id | k | | | | r]; cbn [DurableService.step_pc].
  - intros Hx. apply (inj Some) in Hx. by apply (step_request_serves s a r).
  - intros [= <- <-]. by apply serves_same.
  - intros [= <- <-]. apply serves_executor; try done; [| by apply from_cancel].
    pose proof (step_cancel (sv_executor s) None id) as Hc. unfold Cancel in Hc.
    destruct Ht as [Hne _]. by rewrite bool_decide_eq_false_2 in Hc.
  - apply step_wait_serves.
  - destruct (sv_closed s); intros [= <- <-]; [by apply serves_same |]. split; try done. by apply attempts_kept.
  - intros [= <- <-]. apply serves_executor; try done; [constructor | by apply from_close].
  - destruct (ex_drained _), (an_ctx a); intros [= <- <-]; by apply serves_same.
  - done.
Qed.

Lemma arrival_served s p : served s -> waiting p = None -> told (sv_world s) p -> served (set_threads (sv_threads s ++ [p]) s).
Proof.
  intros [S1 S2 S3 S4 S5 S7 S6] Hw Ht. split; cbn [set_threads sv_world sv_executor sv_next sv_threads]; try done.
  - intros i q k [[_ Hi] | [_ <-]]%lookup_snoc_Some; [by apply (S3 i q k) | congruence].
  - intros i j q r k [[_ Hi] | [_ <-]]%lookup_snoc_Some [[_ Hj] | [_ <-]]%lookup_snoc_Some Hq Hr; [by apply (S4 i j q r k) | congruence..].
  - intros i q [[_ Hi] | [_ <-]]%lookup_snoc_Some; [by apply (S6 i q) | done].
Qed.

(** The executor and the store change, not the goroutines. *)
Lemma background_served s w' e' :
  served s -> rt_commits (sv_world s) w' -> rtc exec_step (sv_executor s) e' ->
  (exists P, heap_from P (ex_heap (sv_executor s)) (ex_heap e')) ->
  (forall id a r err, ex_heap e' !! id = Some a -> at_result a = Some (r, err) -> durable w' (at_runID a) r err) ->
  served (set_world w' (set_executor e' s)).
Proof.
  intros [S1 S2 S3 S4 S5 S7 S6] Hc He [P Hf] Hres.
  split; cbn [set_world set_executor sv_world sv_executor sv_next sv_threads]; try done.
  - by eapply exec_steps_reach.
  - intros id Hid. by eapply S2, heap_from_back.
  - intros i p k Hi Hp. eapply heap_le_keeps; [| by eapply S3]. apply ev_heap, steps_evolve; [by eapply reachable_settled | done].
  - by eapply ended_from.
  - intros i p Hi. apply (told_stays (sv_world s)); [done |]. by apply (S6 i p).
Qed.

Lemma service_step_served s s' : service_step s s' -> served s -> served s'.
Proof.
  intros Hstep Hs. pose proof Hs as [S1 S2 S3 S4 S5 S7 S6].
  destruct Hstep as [s r | s | s i a p p' s' Hi Ha Hp | s e' He | s w' Hc | s id att a w0 w1 r err Hid Hpc Ha Hadv Hc].
  - by apply arrival_served.
  - by apply arrival_served.
  - apply (serves_ok s s' i p p' Hs Hi), (step_pc_serves s a p p' s'); try done. by apply (S6 i).
  - pose proof (from_attempt_step (fun _ => dropped) (fun _ _ _ H => H) _ _ He) as Hf. cbv beta in Hf.
    apply (background_served s (sv_world s) e' Hs); [done | by apply rtc_once, attempt_step_exec | by eexists |].
    eapply results_from; [reflexivity | exact S5 | exact Hf |]. intros. by apply dropped_durable.
  - apply (background_served s w' (sv_executor s) Hs); [done | done | by exists (fun _ _ _ => False) |].
    intros id a r err Hh Hr. apply (durable_stays (sv_world s)); [done |]. by apply (S5 id a).
  - set (P := fun k r' err' => dropped r' err' \/ (k = id /\ r' = r /\ err' = err)).
    assert (heap_from P (ex_heap (sv_executor s)) (ex_heap (finish id r err (sv_executor s)))) as Hf.
    { apply (from_finish P); [by left | by right]. }
    apply (background_served s (sv_world s) (finish id r err (sv_executor s)) Hs); [done | apply rtc_once; by eapply step_finish | by eexists |].
    eapply results_from; [reflexivity | exact S5 | exact Hf |].
    intros k b r' err' Hb [Hd | (-> & -> & ->)]; [by apply dropped_durable |]. simplify_eq.
    intros He Hst. destruct (rl_Advance _ _ _ _ _ _ Ha Hadv He Hst) as (run & Hr & Ho).
    by apply (outcome_stays w1 (sv_world s) _ run).
Qed.

(** The states of a service that starts on the stored runs [w]. *)
Definition service_reachable (options : list (string * Z)) (w : W) (s : service) : Prop :=
  exists e, new_executor environmentVersion options limits = Ok e /\ rtc service_step (new_service w e) s.

Lemma new_served options w e : new_executor environmentVersion options limits = Ok e -> served (new_service w e).
Proof.
  unfold new_executor. destruct (_ || _); [done |]. destruct (_ || _); [done |]. intros Hnew.
  assert (ex_heap e = ∅) as Hempty.
  { unfold NewExecutor in Hnew. destruct (if (l_MaxRunning limits =? 0)%Z then _ else _); cbn in Hnew; [| done].
    match type of Hnew with (if ?b then _ else _) = _ => destruct b end; [done |]. by injection Hnew as <-. }
  split; cbn [new_service sv_world sv_executor sv_next sv_threads]; rewrite ?Hempty; try done.
  - by exists e.
  - intros id. rewrite lookup_empty. by intros [].
Qed.

Lemma reachable_served options w s : service_reachable options w s -> served s.
Proof.
  intros (e & He & Hr). apply (new_served options w) in He. induction Hr as [| s1 s2 s3 Hs Hr IH]; [done |].
  apply IH. by eapply service_step_served.
Qed.

(** ** The properties *)

(** ** How a service goes on *)

(** What later states of a service have in common with an earlier one. *)
Record goes_on_to (s s' : service) : Prop := {
  go_served : served s';
  go_world : rt_commits (sv_world s) (sv_world s');
  go_exec : rtc exec_step (sv_executor s) (sv_executor s');
  go_ended : forall k a, ex_heap (sv_executor s) !! k = Some a -> is_Some (at_ctx a) ->
               exists a', ex_heap (sv_executor s') !! k = Some a' /\ is_Some (at_ctx a');
  go_none : ex_closed (sv_executor s) = true ->
              forall k, is_Some (ex_heap (sv_executor s') !! k) -> is_Some (ex_heap (sv_executor s) !! k)
}.

Lemma evolved s s' : served s -> goes_on_to s s' -> evolves (sv_executor s) (sv_executor s').
Proof. intros Hs Hg. apply steps_evolve; [eapply reachable_settled, Hs | apply Hg]. Qed.

Lemma goes_on_refl s : served s -> goes_on_to s s.
Proof. intros Hs. split; try done. intros k a Ha Hc. by exists a. Qed.

Lemma goes_on_trans s1 s2 s3 : served s1 -> goes_on_to s1 s2 -> goes_on_to s2 s3 -> goes_on_to s1 s3.
Proof.
  intros Hs1 Hg1 Hg2. pose proof (evolved _ _ Hs1 Hg1) as Hev. destruct Hg1 as [A1 B1 C1 D1 E1], Hg2 as [A2 B2 C2 D2 E2].
  split; [done | by etrans | by etrans | |].
  - intros k a Ha Hc. destruct (D1 k a Ha Hc) as (a2 & Ha2 & Hc2). by apply (D2 k a2).
  - intros Hcl k Hk. apply E1; [done |]. apply E2; [by apply Hev | done].
Qed.

(** From where the attempts come, for the two parts that are about them. *)
Lemma from_goes_on P s s' :
  served s -> served s' -> rt_commits (sv_world s) (sv_world s') -> rtc exec_step (sv_executor s) (sv_executor s') ->
  heap_from P (ex_heap (sv_executor s)) (ex_heap (sv_executor s')) -> goes_on_to s s'.
Proof.
  intros Hs Hs' Hw He Hf. split; try done.
  - intros k a Ha Hc. pose proof (steps_evolve _ _ (reachable_settled _ _ (sd_exec _ Hs)) He) as Hev.
    destruct (ev_heap _ _ Hev k a Ha) as (a' & Ha' & _). exists a'. split; [done |].
    destruct (Hf k a' Ha') as (a0 & Ha0 & _ & [H1 _] & _). simplify_eq. by apply H1.
  - intros _ k. by apply (heap_from_back _ _ _ k Hf).
Qed.

(** Only an admission makes a goroutine wait. *)
Lemma only_admission_waits s a p p' s' k :
  step_pc a p s = Some (p', s') -> waiting p' = Some k ->
  exists r id dl e, p = PRequest r /\ dispatch r = Ok (TAttempt id dl) /\ k = sv_next s
    /\ Admit (Some (an_ctx a)) id k (sv_executor s) = Ok e /\ s' = admitted e s.
Proof.
  intros Hp Hw. destruct p as [r | st | id | n | | | | r]; cbn [DurableService.step_pc] in Hp; try (destruct (sv_closed s); by simplify_eq).
  - apply (inj Some) in Hp. unfold step_request, answered in Hp. destruct (dispatch r) as [t |] eqn:Hd; [| by simplify_eq].
    destruct t as [| d | id | id o | id dl | id | wait dec]; try (by simplify_eq).
    + destruct (rt_Create _ _ _) as [[] ]; by simplify_eq.
    + destruct (rt_Get _ _ _) as [[] ]; by simplify_eq.
    + destruct rt_ReplayHistory as [f |]; [destruct (f _ _ _ _) as [[] ] |]; by simplify_eq.
    + unfold step_admit in Hp. destruct (Admit _ _ _ _) as [e |] eqn:Hadm; simplify_eq. injection Hw as <-. by exists r, id, dl, e.
    + unfold step_cancel_run, answered in Hp. destruct (bool_decide (id = "")); [by simplify_eq |]. destruct (rt_Cancel _ _ _) as [[] ]; by simplify_eq.
    + destruct (rt_Decide _ _ _ _) as [[] ]; by simplify_eq.
  - unfold step_wait in Hp. destruct (_ !! n); [| done]. destruct (attempt_result _ _ _) as [[? []] |]; by simplify_eq.
  - destruct (ex_drained _), (an_ctx a); by simplify_eq.
Qed.

Lemma service_step_goes_on s s' : served s -> service_step s s' -> goes_on_to s s'.
Proof.
  intros Hs Hstep. pose proof (service_step_served _ _ Hstep Hs) as Hs'. pose proof (sd_exec _ Hs) as Hex.
  destruct Hstep as [s r | s | s i a p p' s' Hi Ha Hp | s e' He | s w' Hc | s id att a w0 w1 r err Hid Hpc Ha Hadv Hc].
  - by apply (from_goes_on (fun _ => dropped)).
  - by apply (from_goes_on (fun _ => dropped)).
  - destruct (step_pc_serves s a p p' s' Hs Ha (sd_told _ Hs i p Hi) Hp) as [G1 G2 G3 G4 G5].
    destruct G4 as [_ _ Hf | b _ Hw Hh _ _]; [by apply (from_goes_on (fun _ => dropped)) |].
    assert (ex_heap (sv_executor s) !! sv_next s = None) as Hfresh.
    { destruct (ex_heap (sv_executor s) !! sv_next s) eqn:Hn; [| done]. pose proof (sd_next _ Hs (sv_next s) ltac:(by eexists)). lia. }
    split; cbn [set_threads sv_executor sv_world]; try done.
    + intros k c Hk Hc. exists c. rewrite Hh, lookup_insert_ne; [done | congruence].
    + intros Hcl. destruct (only_admission_waits _ _ _ _ _ _ Hp Hw) as (r & id & dl & e & _ & _ & _ & Hadm & _).
      unfold Admit in Hadm. rewrite Hcl in Hadm. by destruct (bool_decide (id = "")), (an_ctx a).
  - apply (from_goes_on (fun _ => dropped)); try done; [by apply rtc_once, attempt_step_exec |].
    apply from_attempt_step; [by intros ? ? ? | done].
  - by apply (from_goes_on (fun _ => dropped)).
  - apply (from_goes_on (fun _ _ _ => True)); try done; [apply rtc_once; by eapply step_finish |]. by apply from_finish.
Qed.

Lemma goes_on s s' : served s -> rtc service_step s s' -> goes_on_to s s'.
Proof.
  intros Hs Hr. induction Hr as [s | s1 s2 s3 Hstep Hr IH]; [by apply goes_on_refl |].
  pose proof (service_step_goes_on _ _ Hs Hstep) as Hg. eapply goes_on_trans; [done | done |]. apply IH, Hg.
Qed.

(** A goroutine of the service: what is said of it ([F]) holds in all later states
    when it outlives the steps of the others and its own. *)
Lemma goroutine_ind (F : service -> pc -> Prop) s1 i p1 :
  served s1 -> sv_threads s1 !! i = Some p1 -> F s1 p1 ->
  (forall s s' p, served s -> goes_on_to s1 s -> service_step s s' -> goes_on_to s s' -> sv_threads s !! i = Some p ->
     sv_threads s' !! i = Some p -> F s p -> F s' p) ->
  (forall s a p p' s', let s'' := set_threads (<[i := p']> (sv_threads s')) s' in
     served s -> goes_on_to s1 s -> sv_threads s !! i = Some p -> F s p -> rt_sound (an_runtime a) ->
     step_pc a p s = Some (p', s') -> sv_threads s' = sv_threads s -> service_step s s'' -> goes_on_to s s'' -> F s'' p') ->
  forall s2 p2, rtc service_step s1 s2 -> sv_threads s2 !! i = Some p2 -> F s2 p2.
Proof.
  intros Hs1 Hi1 HF1 Hstay Hmove s2 p2 Hr. revert p2.
  assert (exists p, sv_threads s2 !! i = Some p /\ F s2 p) as (p & Hp & HF); [| by intros q Hq; simplify_eq].
  revert s2 Hr. refine (rtc_ind_r _ s1 _ _); [by exists p1 |]. intros s s' Hr Hstep (p & Hi & HF).
  pose proof (goes_on _ _ Hs1 Hr) as Hg1. pose proof (go_served _ _ Hg1) as Hs. pose proof (service_step_goes_on _ _ Hs Hstep) as Hg.
  assert (forall q, sv_threads s' !! i = Some q -> q = p -> exists p, sv_threads s' !! i = Some p /\ F s' p) as Hsame.
  { intros q Hq ->. exists p. split; [done |]. by apply (Hstay s s' p). }
  pose proof Hstep as Hstep0.
  destruct Hstep as [s r | s | s j a q q' s' Hj Ha Hq | s e' He | s w' Hc | s id att a w0 w1 r err Hid Hpc Ha Hadv Hc].
  - apply (Hsame p); [| done]. by apply lookup_app_l_Some.
  - apply (Hsame p); [| done]. by apply lookup_app_l_Some.
  - pose proof (sr_threads _ _ _ (step_pc_serves s a q q' s' Hs Ha (sd_told _ Hs j q Hj) Hq)) as Ht.
    destruct (decide (i = j)) as [<- | Hne].
    + assert (q = p) as -> by congruence. exists q'. split; [| by apply (Hmove s a p q' s')].
      cbn [set_threads sv_threads]. rewrite Ht. apply list_lookup_insert_eq. by apply lookup_lt_Some in Hi.
    + apply (Hsame p); [| done]. cbn [set_threads sv_threads]. rewrite Ht, list_lookup_insert_ne by done. done.
  - by apply (Hsame p).
  - by apply (Hsame p).
  - by apply (Hsame p).
Qed.

(** ** Attempts, cancellations and closing *)

(** The reply to a goroutine that waits is the result of the attempt. *)
Lemma wait_reply (s s' : service) (a : answer A) k p :
  step_wait a k s = Some (p, s') ->
  exists (att : Attempt) (reply : reply), ex_heap (sv_executor s) !! k = Some att /\ p = PDone reply /\ sv_world s' = sv_world s
    /\ forall result, reply = RAttempt result -> at_result att = Some (result, None).
Proof.
  unfold step_wait. destruct (ex_heap (sv_executor s) !! k) as [att |] eqn:Hk; [| done]. intros Hstep. exists att.
  assert (forall reply s0, Some (PDone reply, match an_ctx a with
                  | Some e => if at_stopped att then s else set_executor (update k (parent_done e) (sv_executor s)) s
                  | None => s end) = Some (p, s0) -> sv_world s0 = sv_world s) as Hw.
  { intros reply s0 [= _ <-]. destruct (an_ctx a); [| done]. by destruct (at_stopped att). }
  destruct (attempt_result _ _ _) as [[r err] |] eqn:Hres; [| done]. destruct err as [e |]; pose proof (Hw _ _ Hstep) as Hw'; injection Hstep as <- <-.
  { by exists (RFailure e). }
  exists (RAttempt r). split_and!; try done. intros result [= <-]. unfold attempt_result in Hres.
  destruct (at_result att) as [[r0 e0] |], (match at_parent att with Some e => Some e | None => an_ctx a end), (an_pick a); by simplify_eq.
Qed.

(** A new attempt of run [id]. *)
Definition attempt_since (s1 s : service) (id : string) (k : nat) (a : Attempt) : Prop :=
  ex_heap (sv_executor s) !! k = Some a /\ at_runID a = id /\ ex_heap (sv_executor s1) !! k = None.

Lemma attempt_since_later s1 s s' id k a :
  served s -> goes_on_to s s' -> attempt_since s1 s id k a ->
  exists a', attempt_since s1 s' id k a' /\ (is_Some (at_result a) -> at_result a' = at_result a).
Proof.
  intros Hs Hg (Hk & Hid & Hno). destruct (ev_heap _ _ (evolved _ _ Hs Hg) k a Hk) as (a' & Ha' & Hr & Hres & _).
  exists a'. split; [| done]. split_and!; [done | congruence | done].
Qed.

(** The goroutine of a request for an attempt. *)
Lemma attempt_goroutine s1 s2 i r id dl p :
  served s1 -> rtc service_step s1 s2 -> sv_threads s1 !! i = Some (PRequest r) -> dispatch r = Ok (TAttempt id dl) ->
  sv_threads s2 !! i = Some p ->
  p = PRequest r \/ (exists k a, p = PWait k /\ attempt_since s1 s2 id k a)
  \/ exists reply, p = PDone reply
       /\ forall result, reply = RAttempt result -> exists k a, attempt_since s1 s2 id k a /\ at_result a = Some (result, None).
Proof.
  intros Hs Hr Hi Hd Hp. revert s2 p Hr Hp. refine (goroutine_ind _ s1 i (PRequest r) Hs Hi _ _ _); [by left | |]; cbv beta.
  - intros s s' p Hss _ _ Hg _ _ [-> | [(k & a & -> & Ha) | (reply & -> & Hrep)]]; [by left | right; left | right; right].
    + destruct (attempt_since_later _ _ _ _ _ _ Hss Hg Ha) as (a' & Ha' & _). by exists k, a'.
    + exists reply. split; [done |]. intros result Hreply. destruct (Hrep result Hreply) as (k & a & Ha & Hres).
      destruct (attempt_since_later _ _ _ _ _ _ Hss Hg Ha) as (a' & Ha' & Hres'). exists k, a'. split; [done |].
      rewrite Hres'; [done | by rewrite Hres].
  - intros s a p p' s' s'' Hss Hg1 _ HF _ Hstep Ht _ Hg. destruct HF as [-> | [(k & att & -> & Ha) | (reply & -> & _)]]; [| | done].
    + cbn [DurableService.step_pc] in Hstep. apply (inj Some) in Hstep. unfold step_request in Hstep. rewrite Hd in Hstep.
      unfold step_admit in Hstep. destruct (Admit _ _ _ _) as [e' | e] eqn:Hadm; simplify_eq; [right; left | right; right; by exists (RFailure e)].
      assert (ex_heap (sv_executor s1) !! sv_next s = None) as Hno.
      { destruct (ex_heap (sv_executor s1) !! sv_next s) as [b |] eqn:Hb; [| done].
        destruct (ev_heap _ _ (evolved _ _ Hs Hg1) _ b Hb) as (b' & Hb' & _). pose proof (sd_next _ Hss (sv_next s) ltac:(by eexists)). lia. }
      unfold Admit in Hadm. destruct (bool_decide (id = "")); [done |]. destruct (an_ctx a); [done |].
      destruct (ex_closed _); [done |]. destruct (ex_attempts _ !! id); [done |]. destruct (_ && _); [| destruct (_ <=? _)%Z; [done |]]; injection Hadm as <-; eexists _, _; (split; [done |]);
        (split_and!; [apply lookup_insert_eq | done | done]).
    + right; right. destruct (wait_reply _ _ _ _ _ Hstep) as (att' & reply & Hk & -> & _ & Hrep). exists reply. split; [done |].
      intros result Hreply. pose proof Ha as (Hk' & _ & _). simplify_eq. specialize (Hrep _ eq_refl).
      destruct (attempt_since_later _ _ _ _ _ _ Hss Hg Ha) as (a' & Ha' & Hres'). exists k, a'. split; [done |].
      rewrite Hres'; [done | by rewrite Hrep].
Qed.

(** Cancelling a run ends the context of all its attempts. *)
Lemma cancel_local_ends e id k a :
  settled e -> (forall k a, ex_heap e !! k = Some a -> at_state a = attemptDone -> is_Some (at_ctx a)) ->
  ex_heap e !! k = Some a -> at_runID a = id ->
  exists a', ex_heap (cancel_local id e) !! k = Some a' /\ is_Some (at_ctx a').
Proof.
  intros [Hok _] Hdone Hk <-. unfold cancel_local.
  destruct (decide (at_state a = attemptDone)) as [Hst | Hst].
  - pose proof (Hdone k a Hk Hst) as Hctx.
    assert (forall b x, ex_attempts e !! at_runID a = Some x -> ex_heap e !! x = Some b -> x <> k) as Hne.
    { intros b x Hx Hb ->. destruct (proj1 (ok_table e Hok _ _) Hx) as (c & Hc & _ & Hnd). congruence. }
    exists a. split; [| done]. destruct (ex_attempts e !! at_runID a) as [x |]; [| done].
    destruct (ex_heap e !! x) as [b |] eqn:Hb; [| done]. specialize (Hne b x eq_refl Hb).
    destruct (bool_decide _); [| destruct (live _); [| done]].
    + unfold maybeDrainLocked. destruct (_ && _); cbn; by rewrite lookup_alter_ne.
    + cbn. by rewrite lookup_alter_ne.
  - rewrite (table_of e k a Hok Hk Hst), Hk. exists (if bool_decide (at_state a = attemptQueued) then
      complete (mkResult (Some StateCancelled) no_output None
                 (Some (mkFailure FailureCancellation (sentinel_text ErrCancelled)))) None PFinished a else cancel_ctx a).
    destruct (bool_decide (at_state a = attemptQueued)) eqn:Hq.
    + split; [| by eexists]. unfold maybeDrainLocked. destruct (_ && _); cbn; by rewrite lookup_alter_eq, Hk.
    + apply bool_decide_eq_false in Hq. destruct (live (at_state a)) eqn:Hl; [| by destruct (at_state a)].
      split; [| by eexists]. cbn. by rewrite lookup_alter_eq, Hk.
Qed.

(** Run [id] is stored as cancelled, and the contexts of all its attempts that were
    there at [s1] have ended. *)
Definition cancelled_since (s1 s : service) (id : string) : Prop :=
  (exists run, rt_run (sv_world s) id = Some run /\ r_Status run = StatusCancelled)
  /\ forall k a, ex_heap (sv_executor s1) !! k = Some a -> at_runID a = id ->
       exists a', ex_heap (sv_executor s) !! k = Some a' /\ is_Some (at_ctx a').

Lemma cancelled_since_later s1 s s' id : goes_on_to s s' -> cancelled_since s1 s id -> cancelled_since s1 s' id.
Proof.
  intros Hg [(run & Hr & Hst) Ha]. split.
  - destruct (rl_runs _ _ _ _ (go_world _ _ Hg) Hr) as (run' & Hr' & _ & Hterm).
    rewrite Hterm in Hr' by (by rewrite Hst). by exists run.
  - intros k a Hk Hid. destruct (Ha k a Hk Hid) as (a' & Ha' & Hc). by apply (go_ended _ _ Hg k a').
Qed.

(** The goroutine of a request for a cancellation. *)
Lemma cancel_goroutine s1 s2 i r id p :
  served s1 -> rtc service_step s1 s2 -> sv_threads s1 !! i = Some (PRequest r) -> dispatch r = Ok (TCancel id) ->
  sv_threads s2 !! i = Some p ->
  p = PRequest r \/ p = PCancelLocal id \/ p = PDone RCancelled /\ cancelled_since s1 s2 id \/ exists e, p = PDone (RFailure e).
Proof.
  intros Hs Hr Hi Hd Hp. revert s2 p Hr Hp. refine (goroutine_ind _ s1 i (PRequest r) Hs Hi _ _ _); [by left | |]; cbv beta.
  - intros s s' p _ _ _ Hg _ _ [? | [? | [[? ?] | ?]]]; [by left | by right; left | right; right; left | by right; right; right].
    split; [done |]. by eapply cancelled_since_later.
  - intros s a p p' s' s'' Hss Hg1 Hi' HF _ Hstep Ht _ Hg. destruct HF as [-> | [-> | [[-> _] | [e ->]]]]; [| | done | done].
    + cbn [DurableService.step_pc] in Hstep. apply (inj Some) in Hstep. unfold step_request in Hstep. rewrite Hd in Hstep.
      unfold step_cancel_run, answered in Hstep. destruct (bool_decide (id = "")); [simplify_eq; by right; right; right; eexists |].
      destruct (rt_Cancel _ _ _) as [[u | e] w]; simplify_eq; [by right; left | right; right; right; by eexists].
    + cbn [DurableService.step_pc] in Hstep. simplify_eq. right; right; left. split; [done |].
      destruct (sd_told _ Hss i _ Hi') as (_ & run & Hrun & Hst). split; [by exists run |]. intros k a' Hk Hid.
      destruct (ev_heap _ _ (evolved _ _ Hs Hg1) k a' Hk) as (b & Hb & Hrid & _).
      apply (cancel_local_ends (sv_executor s) id k b); [eapply reachable_settled, Hss | apply (sd_ended _ Hss) | done | congruence].
Qed.

#[local] Instance is_close (p : pc) : base.Decision (p = PClose).
Proof. destruct p; first [by left | by right]. Defined.

#[local] Instance is_close_executor (p : pc) : base.Decision (p = PCloseExecutor).
Proof. destruct p; first [by left | by right]. Defined.

(** A [Close] that has begun. *)
Definition begun_close (p : pc) : bool :=
  match p with PCloseExecutor | PDrain | PDone (RClosed _) => true | _ => false end.

(** What the calls of [Close] have done to the service. *)
Record closing (s : service) : Prop := {
  cl_flag : forall j p, sv_threads s !! j = Some p -> begun_close p = true -> sv_closed s = true;
  cl_begun : sv_closed s = true -> exists j p, sv_threads s !! j = Some p /\ begun_close p = true;
  cl_executor : sv_closed s = true ->
    ex_closed (sv_executor s) = true \/ exists j, sv_threads s !! j = Some PCloseExecutor;
  cl_drain : forall j, sv_threads s !! j = Some PDrain -> ex_closed (sv_executor s) = true
}.

(** Steps of a goroutine and the flags of the service. *)
Lemma step_pc_closed s (a : answer A) p p' s' :
  step_pc a p s = Some (p', s') -> p <> PClose -> sv_closed s' = sv_closed s /\ (begun_close p' = begun_close p).
Proof.
  intros Hp Hne. destruct p as [r | st | id | k | | | | r]; cbn [DurableService.step_pc] in Hp; try done; try (by simplify_eq).
  - apply (inj Some) in Hp. unfold step_request, answered in Hp. destruct (dispatch r) as [t | e] eqn:Hd.
    2:{ simplify_eq. split; [done |]. revert Hd. unfold DurableService.dispatch, handleCreate, handleResolve, handleHistory, handleAttempt, handleCancel.
        repeat match goal with
        | |- (if ?b then _ else _) = _ -> _ => destruct b
        | |- (let '_ := ?x in _) = _ -> _ => destruct x
        | |- match ?x with _ => _ end = _ -> _ => destruct x
        end; by intros [= <-]. }
    destruct t as [| d | id | id o | id dl | id | wait dec]; try (by simplify_eq).
    + destruct (rt_Create _ _ _) as [[] ]; by simplify_eq.
    + destruct (rt_Get _ _ _) as [[] ]; by simplify_eq.
    + destruct rt_ReplayHistory as [f |]; [destruct (f _ _ _ _) as [[] ] |]; simplify_eq; try done.
      split; [done |]. unfold history_error. by destruct (_ <=? _)%N.
    + unfold step_admit in Hp. destruct (Admit _ _ _ _); by simplify_eq.
    + unfold step_cancel_run, answered in Hp. destruct (bool_decide (id = "")); [by simplify_eq |]. destruct (rt_Cancel _ _ _) as [[] ]; by simplify_eq.
    + destruct (rt_Decide _ _ _ _) as [[] ]; by simplify_eq.
  - unfold step_wait in Hp. destruct (_ !! k) as [att |]; [| done].
    destruct (attempt_result _ _ _) as [[? []] |]; simplify_eq; destruct (an_ctx a); try done; by destruct (at_stopped att).
  - destruct (ex_drained _), (an_ctx a); by simplify_eq.
Qed.

Lemma close_closed e : ex_closed (Close e) = true.
Proof. unfold Close, maybeDrainLocked. by destruct (_ && _). Qed.

(** Only [Close] of the executor leads to waiting for its drain. *)
Lemma drain_after s (a : answer A) p p' s' :
  step_pc a p s = Some (p', s') -> p' = PDrain \/ p = PCloseExecutor -> ex_closed (sv_executor s') = true.
Proof.
  intros Hp Hd. assert (p = PCloseExecutor) as ->.
  { destruct Hd as [-> |]; [| done]. destruct (decide (p = PClose)) as [-> | Hne].
    - cbn in Hp. by destruct (sv_closed s).
    - destruct (step_pc_closed _ _ _ _ _ Hp Hne) as [_ Hb]. destruct p as [r | st | id | k | | | | [] ]; try done.
      cbn in Hp. by destruct (ex_drained (sv_executor s)), (an_ctx a). }
  cbn in Hp. injection Hp as _ <-. apply close_closed.
Qed.

(** A [Close] that has begun goes on. *)
Lemma begun_step s s' j p :
  served s -> service_step s s' -> sv_threads s !! j = Some p -> begun_close p = true ->
  exists p', sv_threads s' !! j = Some p' /\ begun_close p' = true.
Proof.
  intros Hs Hstep Hj Hb.
  destruct Hstep as [s r | s | s i a q q' s' Hi Ha Hq | s e' He | s w' Hc | s id att a w0 w1 r err Hid Hpc Ha Hadv Hc];
    try (exists p; by split).
  - exists p. split; [by apply lookup_app_l_Some | done].
  - exists p. split; [by apply lookup_app_l_Some | done].
  - cbn [set_threads sv_threads]. rewrite (sr_threads _ _ _ (step_pc_serves s a q q' s' Hs Ha (sd_told _ Hs i q Hi) Hq)).
    destruct (decide (i = j)) as [-> | Hne]; [| exists p; by rewrite list_lookup_insert_ne].
    exists q'. rewrite list_lookup_insert_eq by (by apply lookup_lt_Some in Hj). split; [done |].
    assert (q = p) as -> by congruence. destruct (step_pc_closed _ _ _ _ _ Hq) as [_ ->]; [by intros -> | done].
Qed.

(** The steps that are not those of a goroutine. *)
Lemma closing_background s w' e' :
  closing s -> (ex_closed (sv_executor s) = true -> ex_closed e' = true) -> closing (set_world w' (set_executor e' s)).
Proof.
  intros [C1 C2 C3 C4] He. split; cbn; try done.
  - intros Hcl. destruct (C3 Hcl); auto.
  - eauto.
Qed.

Lemma closing_arrival s p : closing s -> begun_close p = false -> closing (set_threads (sv_threads s ++ [p]) s).
Proof.
  intros [C1 C2 C3 C4] Hp. split; cbn.
  - intros j q [[_ Hj] | [_ <-]]%lookup_snoc_Some Hb; [by eapply C1 | congruence].
  - intros Hcl. destruct (C2 Hcl) as (j & q & Hj & Hb). exists j, q. split; [by apply lookup_app_l_Some | done].
  - intros Hcl. destruct (C3 Hcl) as [? | [j Hj]]; [by left | right; exists j; by apply lookup_app_l_Some].
  - intros j [[_ Hj] | [_ ->]]%lookup_snoc_Some; [by eapply C4 | done].
Qed.

Lemma closing_go s i a p p' s' :
  served s -> closing s -> sv_threads s !! i = Some p -> step_pc a p s = Some (p', s') -> sv_threads s' = sv_threads s ->
  (ex_closed (sv_executor s) = true -> ex_closed (sv_executor s') = true) ->
  closing (set_threads (<[i := p']> (sv_threads s')) s').
Proof.
  intros Hs [C1 C2 C3 C4] Hi Hp Ht He. pose proof (lookup_lt_Some _ _ _ Hi) as Hlt. rewrite Ht.
  assert (begun_close p = true -> begun_close p' = true) as Hbegun.
  { intros Hb. destruct (step_pc_closed _ _ _ _ _ Hp) as [_ ->]; [by intros -> | done]. }
  assert (begun_close p' = true -> sv_closed s' = true) as Hflag.
  { intros Hb. destruct (decide (p = PClose)) as [-> | Hne].
    - cbn in Hp. by destruct (sv_closed s) eqn:Hcl; simplify_eq.
    - destruct (step_pc_closed _ _ _ _ _ Hp Hne) as [-> Hsame]. eapply C1; [exact Hi | congruence]. }
  assert (p' = PDrain \/ p = PCloseExecutor -> ex_closed (sv_executor s') = true) as Hclosed by (by eapply drain_after).
  split; cbn [set_threads sv_threads sv_closed sv_executor].
  - intros j q [(<- & <- & _) | [_ Hj]]%list_lookup_insert_Some Hb; [by apply Hflag |].
    pose proof (C1 j q Hj Hb) as Hcl. destruct (decide (p = PClose)) as [-> | Hne].
    + cbn in Hp. rewrite Hcl in Hp. by simplify_eq.
    + by destruct (step_pc_closed _ _ _ _ _ Hp Hne) as [-> _].
  - intros Hcl. destruct (begun_close p') eqn:Hb.
    { exists i, p'. by rewrite list_lookup_insert_eq. }
    destruct (decide (p = PClose)) as [-> | Hne]; [cbn in Hp; destruct (sv_closed s); by simplify_eq |].
    destruct (step_pc_closed _ _ _ _ _ Hp Hne) as [Heq Hsame]. rewrite Heq in Hcl. destruct (C2 Hcl) as (j & q & Hj & Hq).
    exists j, q. rewrite list_lookup_insert_ne; [done |]. intros ->. congruence.
  - intros Hcl. destruct (decide (p = PClose)) as [-> | Hne].
    + cbn in Hp. destruct (sv_closed s) eqn:Hcl0; simplify_eq.
      * destruct (C3 eq_refl) as [? | [j Hj]]; [by left | right]. exists j. rewrite list_lookup_insert_ne; [done |]. intros ->. congruence.
      * right. exists i. by rewrite list_lookup_insert_eq.
    + destruct (decide (p = PCloseExecutor)) as [-> | Hne']; [left; apply Hclosed; by right |].
      destruct (step_pc_closed _ _ _ _ _ Hp Hne) as [Heq _]. rewrite Heq in Hcl.
      destruct (C3 Hcl) as [? | [j Hj]]; [left; by apply He | right]. exists j. rewrite list_lookup_insert_ne; [done |]. intros ->. congruence.
  - intros j [(<- & Hd & _) | [_ Hj]]%list_lookup_insert_Some; [apply Hclosed; by left | by eapply He, C4].
Qed.

Lemma closing_step s s' : served s -> service_step s s' -> closing s -> closing s'.
Proof.
  intros Hs Hstep Hc. pose proof (ev_closed _ _ (evolved _ _ Hs (service_step_goes_on _ _ Hs Hstep))) as Hcl.
  destruct Hstep as [s r | s | s i a p p' s' Hi Ha Hp | s e' He | s w' Hcom | s id att a w0 w1 r err Hid Hpc Ha Hadv Hcom].
  - by apply closing_arrival.
  - by apply closing_arrival.
  - apply (closing_go s i a p p' s'); try done. by apply (step_pc_serves s a p p' s' Hs Ha (sd_told _ Hs i p Hi) Hp).
  - by apply (closing_background s (sv_world s) e').
  - by apply (closing_background s w' (sv_executor s)).
  - by apply (closing_background s (sv_world s)).
Qed.

Lemma reachable_closing options w s : service_reachable options w s -> closing s.
Proof.
  intros (e & He & Hr). pose proof (new_served options w e He) as Hs.
  assert (closing (new_service w e)) as Hc by (by split).
  induction Hr as [| s1 s2 s3 Hstep Hr IH]; [done |]. apply IH; [by eapply service_step_served | by eapply closing_step].
Qed.

(** Every attempt has ended. *)
Definition all_ended (s : service) : Prop := forall k a, ex_heap (sv_executor s) !! k = Some a -> is_Some (at_result a).

Lemma drained_ended s : served s -> ex_drained (sv_executor s) = true -> all_ended s.
Proof.
  intros Hs Hd k a Hk. destruct (reachable_settled _ _ (sd_exec _ Hs)) as (Hok & _ & Hdrain). apply Hdrain in Hd as [_ Hempty].
  destruct (decide (at_state a = attemptDone)) as [Hst | Hst]; [| by destruct (tabled_nonempty _ _ _ Hok Hk Hst)].
  destruct (ok_point _ _ _ Hok Hk) as [_ Hp]. rewrite Hst in Hp. apply Hp.
Qed.

Lemma ended_later s s' : served s -> goes_on_to s s' -> ex_closed (sv_executor s) = true -> all_ended s -> all_ended s'.
Proof.
  intros Hs Hg Hcl Ha k a Hk. destruct (go_none _ _ Hg Hcl k) as [b Hb]; [by eexists |].
  destruct (ev_heap _ _ (evolved _ _ Hs Hg) k b Hb) as (a' & Ha' & _ & Hres & _). simplify_eq.
  specialize (Ha k b Hb). by rewrite Hres.
Qed.

(** Another [Close] than that of goroutine [i] has begun. *)
Definition another_close (i : nat) (s : service) : Prop :=
  exists j p, j <> i /\ sv_threads s !! j = Some p /\ begun_close p = true.

(** The goroutine of a call of [Close]. *)
Lemma close_goroutine s1 s2 i p :
  served s1 -> closing s1 -> rtc service_step s1 s2 -> sv_threads s1 !! i = Some PClose -> sv_threads s2 !! i = Some p ->
  closing s2
  /\ (p = PClose \/ p = PCloseExecutor \/ p = PDrain
      \/ exists e, p = PDone (RClosed e)
           /\ (another_close i s2 \/ ex_closed (sv_executor s2) = true /\ (e = None -> all_ended s2))).
Proof.
  intros Hs Hc1 Hr Hi Hp. revert s2 p Hr Hp. refine (goroutine_ind _ s1 i PClose Hs Hi _ _ _); [split; [done | by left] | |]; cbv beta.
  - intros s s' p Hss _ Hstep Hg _ _ [Hc HF]. split; [by eapply closing_step |].
    destruct HF as [? | [? | [? | (e & -> & Hdone)]]]; [by left | by right; left | by right; right; left | right; right; right].
    exists e. split; [done |]. destruct Hdone as [(j & p & Hne & Hj & Hb) | [Hcl Ha]].
    + left. destruct (begun_step s s' j p) as (p' & Hj' & Hb'); try done. by exists j, p'.
    + right. split; [by apply (ev_closed _ _ (evolved _ _ Hss Hg)) |]. intros He. eapply ended_later; eauto.
  - intros s a p p' s' s'' Hss _ Hi' [Hc HF] _ Hp Ht Hstep Hg. split; [by eapply closing_step |].
    destruct HF as [-> | [-> | [-> | (e & -> & _)]]]; [| | | done]; cbn [DurableService.step_pc] in Hp.
    + destruct (sv_closed s) eqn:Hcl; simplify_eq; [right; right; right | by right; left]. exists None. split; [done |]. left.
      destruct (cl_begun _ Hc Hcl) as (j & p & Hj & Hb). assert (j <> i) as Hne by (intros ->; simplify_eq).
      exists j, p. split; [done |]. split; [| done]. subst s''. cbn. by rewrite list_lookup_insert_ne.
    + simplify_eq. by right; right; left.
    + right; right; right. pose proof (cl_drain _ Hc i Hi') as Hcl.
      assert (exists e, p' = PDone (RClosed e) /\ s' = s /\ (e = None -> ex_drained (sv_executor s) = true)) as (e & -> & -> & He).
      { destruct (ex_drained _), (an_ctx a) as [err |]; simplify_eq; eexists; (split; [done |]); (split; [done |]); try done. }
      exists e. split; [done |]. right. split; [done |]. intros ->. intros k b Hk. apply (drained_ended s Hss (He eq_refl) k b Hk).
Qed.

(** A request for an attempt names a run. *)
Lemma dispatch_attempt r id dl : dispatch r = Ok (TAttempt id dl) -> id <> "".
Proof.
  unfold DurableService.dispatch, handleCreate, handleResolve, handleHistory, handleAttempt, handleCancel.
  repeat match goal with
  | |- (if bool_decide (?x = "") then _ else _) = _ -> _ => destruct (bool_decide_reflect (x = ""))
  | |- (if ?b then _ else _) = _ -> _ => destruct b
  | |- (let '_ := ?x in _) = _ -> _ => destruct x
  | |- match ?x with _ => _ end = _ -> _ => destruct x
  end; try done.
  by intros [= <- _].
Qed.

(** A closed executor refuses attempts. *)
Lemma closed_refuses s (a : answer A) r id dl :
  ex_closed (sv_executor s) = true -> dispatch r = Ok (TAttempt id dl) -> an_ctx a = None ->
  step_request environmentVersion preparationSeed maxRunDuration a r s = (PDone (RFailure (ESentinel ErrClosed)), s).
Proof.
  intros Hcl Hd Hctx. unfold step_request. rewrite Hd. unfold step_admit, Admit. rewrite Hctx, Hcl.
  by rewrite bool_decide_eq_false_2 by (by eapply dispatch_attempt).
Qed.

(** C30.  Requests reach the executor, and the executor only.  Between any two
    moments of any interleaving: a request for an attempt of a run that is
    waiting waits for an attempt of the run its path names, admitted meanwhile,
    and no two requests wait for one attempt; the result it is answered with is
    the result of such an attempt.  When a request for a cancellation has been
    answered with success, the run is stored as cancelled and the context of
    every attempt of that run that there was when the request came has ended,
    queued and running ones alike.  When a call of [Close] has returned, the
    service is closed and the executor is, too, or a call of [Close] is about to
    close it; if no other call of [Close] had begun, the executor is closed, and
    if there was no error every attempt ever admitted has ended.  A closed
    executor refuses every request for an attempt.  The executor itself is always
    in a state that it reaches by its own steps, so that everything proved of the
    executor holds in the service. *)
Theorem requests_reach_the_executor options w s1 s2 i (Hs : service_reachable options w s1) (Hr : rtc service_step s1 s2) :
  exec_reachable limits (sv_executor s2)
  /\ (forall r id dl, sv_threads s1 !! i = Some (PRequest r) -> dispatch r = Ok (TAttempt id dl) ->
       (forall k, sv_threads s2 !! i = Some (PWait k) ->
          (exists a, attempt_since s1 s2 id k a) /\ forall j, sv_threads s2 !! j = Some (PWait k) -> j = i)
       /\ forall result, sv_threads s2 !! i = Some (PDone (RAttempt result)) ->
            exists k a, attempt_since s1 s2 id k a /\ at_result a = Some (result, None))
  /\ (forall r id, sv_threads s1 !! i = Some (PRequest r) -> dispatch r = Ok (TCancel id) ->
       sv_threads s2 !! i = Some (PDone RCancelled) -> cancelled_since s1 s2 id)
  /\ (forall e, sv_threads s1 !! i = Some PClose -> sv_threads s2 !! i = Some (PDone (RClosed e)) ->
       sv_closed s2 = true
       /\ (ex_closed (sv_executor s2) = true \/ exists j, sv_threads s2 !! j = Some PCloseExecutor)
       /\ (another_close i s2 \/ ex_closed (sv_executor s2) = true /\ (e = None -> all_ended s2)))
  /\ (ex_closed (sv_executor s2) = true ->
       forall r id dl (a : answer A), dispatch r = Ok (TAttempt id dl) -> an_ctx a = None ->
         step_request environmentVersion preparationSeed maxRunDuration a r s2 = (PDone (RFailure (ESentinel ErrClosed)), s2)).
Proof.
  pose proof (reachable_served _ _ _ Hs) as H1. pose proof (go_served _ _ (goes_on _ _ H1 Hr)) as H2. split_and!.
  - apply H2.
  - intros r id dl Hi Hd. split.
    + intros k Hk. split; [| intros j Hj; by apply (sd_apart _ H2 j i (PWait k) (PWait k) k)].
      destruct (attempt_goroutine _ _ _ _ _ _ _ H1 Hr Hi Hd Hk) as [? | [(n & a & [= <-] & Ha) | (reply & ? & _)]]; [done | by exists a | done].
    + intros result Hk.
      destruct (attempt_goroutine _ _ _ _ _ _ _ H1 Hr Hi Hd Hk) as [? | [(n & a & ? & _) | (reply & [= <-] & Ha)]]; [done | done | by apply Ha].
  - intros r id Hi Hd Hk.
    by destruct (cancel_goroutine _ _ _ _ _ _ H1 Hr Hi Hd Hk) as [? | [? | [[_ ?] | [e ?]]]].
  - intros e Hi Hk. destruct (close_goroutine _ _ _ _ H1 (reachable_closing _ _ _ Hs) Hr Hi Hk) as [Hc [? | [? | [? | (e' & [= <-] & Hdone)]]]]; try done.
    assert (sv_closed s2 = true) as Hcl by (by eapply (cl_flag _ Hc)).
    split; [done |]. split; [by apply (cl_executor _ Hc) | done].
  - intros Hcl r id dl a. by apply closed_refuses.
Qed.

(** C31.  A completed attempt is answered with what is stored.  When a handler
    that waits for an attempt answers with a completed result, the result is the
    one the attempt ended with, and the run of the attempt is stored as completed
    with that output, then and in every later state of the store. *)
Theorem attempt_reply_is_durable options w s (a : answer A) k result s' w'
  (Hs : service_reachable options w s) (Hstep : step_pc a (PWait k) s = Some (PDone (RAttempt result), s'))
  (Hstate : re_State result = Some StateCompleted) (Hlater : rt_commits (sv_world s') w') :
  exists attempt run, ex_heap (sv_executor s) !! k = Some attempt /\ at_result attempt = Some (result, None)
    /\ rt_run w' (at_runID attempt) = Some run /\ completed_with run (re_Output result).
Proof.
  pose proof (reachable_served _ _ _ Hs) as H. cbn [DurableService.step_pc] in Hstep.
  destruct (wait_reply _ _ _ _ _ Hstep) as (att & reply & Hk & [= <-] & Hw & Hrep). pose proof (Hrep result eq_refl) as Hr.
  rewrite Hw in Hlater. destruct (sd_results _ H k att result None Hk Hr eq_refl Hstate) as (run & Hrun & Ho).
  destruct (outcome_stays _ _ _ _ _ Hlater Hrun Ho) as (run' & Hrun' & Ho'). by exists att, run'.
Qed.

(** The requests for a run by its id. *)
Definition run_request (method id suffix : string) : request := mkRequest method (runs_prefix +:+ id +:+ suffix) "" "" false.

Lemma dispatch_run method id suffix body query broken :
  id <> "" -> has_char "/" id = false ->
  (suffix = "" /\ method = "GET" -> dispatch (mkRequest method (runs_prefix +:+ id +:+ suffix) query body broken) = Ok (TGet id))
  /\ (suffix = "/cancel" /\ method = "POST" ->
      dispatch (mkRequest method (runs_prefix +:+ id +:+ suffix) query body broken) = Ok (TCancel id)).
Proof.
  intros Hne Hslash.
  assert (forall x, bool_decide (runs_prefix +:+ x = "/healthz") = false) as H1 by (intros x; by apply bool_decide_eq_false_2).
  assert (forall x, bool_decide (runs_prefix +:+ x = "/v1/durable/runs") = false) as H2.
  { intros x. apply bool_decide_eq_false_2. by destruct x. }
  assert (forall x, bool_decide (runs_prefix +:+ x = "/v1/durable/waits/resolve") = false) as H3 by (intros x; by apply bool_decide_eq_false_2).
  assert (forall x, has_prefix runs_prefix (runs_prefix +:+ x) = true) as H4 by (intros x; apply prefix_iff; by exists x).
  unfold DurableService.dispatch. cbn [rq_Path rq_Method]. rewrite H1, H2, H3, H4, trim_prefix_app, andb_false_r. split.
  - intros [-> ->]. rewrite (str_app_nil id), split_char_none by done. by rewrite bool_decide_eq_false_2.
  - intros [-> ->]. change "/cancel" with (String "/" "cancel"). rewrite split_char_cons by done.
    rewrite bool_decide_eq_false_2 by done. reflexivity.
Qed.

(** C32.  What the service creates can be attempted.  After a reply that
    announces a new run, and for ever, the run is stored under its id with the
    artifact, environment and seed of the service, a source and valid inputs; if
    the service has the seed of its runner, the runner accepts the definition;
    and requests under the path of its id reach the run. *)
Theorem created_runs_can_be_attempted options w s i resp w'
  (Hs : service_reachable options w s) (Hi : sv_threads s !! i = Some (PDone (RCreated resp)))
  (Hlater : rt_commits (sv_world s) w') :
  exists run, rt_run w' (rs_ID resp) = Some run /\ d_ID (r_Definition run) = rs_ID resp /\ created_here run
    /\ (preparationSeed = rt_Seed -> rt_fits (r_Definition run) = true)
    /\ dispatch (run_request "GET" (rs_ID resp) "") = Ok (TGet (rs_ID resp))
    /\ dispatch (run_request "POST" (rs_ID resp) "/cancel") = Ok (TCancel (rs_ID resp)).
Proof.
  pose proof (reachable_served _ _ _ Hs) as H. pose proof (sd_told _ H i _ Hi) as Ht.
  destruct (told_stays _ w' _ Hlater Ht) as (run & Hrun & Hid & Hh). exists run.
  pose proof Hh as (H1 & H2 & _ & _ & _ & _ & _ & H8). rewrite Hid in H1, H2.
  split_and!; try done; by apply (dispatch_run _ (rs_ID resp) _ "" "" false).
Qed.
End Promises.

(** ** What the history shows *)

Section Public.
Variable artifact : string -> string -> guest.
Variable guestManifest : list guestToolSpec.
Variable runner : Runner.
Variable json_valid : string -> bool.
Variable json_type : string -> string -> option string.
Variable json_extract : string -> string -> option string.
Notation outcome_class := (outcome_class json_valid json_type json_extract).

(** What the history may show of a call: its number, tool and state, and what
    kind of outcome it has. *)
Definition public_call (c : Call) : N * string * string * string :=
  (c_Sequence c, c_Tool c, c_State c, outcome_class (c_State c) (c_Outcome c)).

(** Tables that differ in nothing the history may show. *)
Record same_public (t1 t2 : tables) : Prop := {
  sp_runs : forall id, (fun r => d_Tools (r_Definition r)) <$> t_runs t1 !! id = (fun r => d_Tools (r_Definition r)) <$> t_runs t2 !! id;
  sp_calls : forall k, public_call <$> t_calls t1 !! k = public_call <$> t_calls t2 !! k
}.

#[local] Instance same_public_equiv : Equivalence same_public.
Proof.
  split.
  - intros t. by split.
  - intros t1 t2 [H1 H2]. split; intros; by symmetry.
  - intros t1 t2 t3 [H1 H2] [H3 H4]. split; intros x; [by rewrite H1 | by rewrite H2].
Qed.

Lemma same_public_call t1 t2 k : same_public t1 t2 -> is_Some (t_calls t1 !! k) -> is_Some (t_calls t2 !! k).
Proof. intros [_ H] [c Hc]. specialize (H k). rewrite Hc in H. destruct (t_calls t2 !! k); [by eexists | done]. Qed.

#[local] Instance next_sequence_public : Proper (same_public ==> eq ==> eq) next_sequence.
Proof.
  assert (forall t1 t2 id, same_public t1 t2 -> (next_sequence t1 id <= next_sequence t2 id)%N) as Hle.
  { intros t1 t2 id Hp. destruct (next_sequence_spec t1 id) as [_ [-> | (s & Hs & ->)]]; [lia |].
    pose proof (proj1 (next_sequence_spec t2 id) s (same_public_call t1 t2 _ Hp Hs)). lia. }
  intros t1 t2 Hp id ? <-. apply N.le_antisymm; apply Hle; [done | by symmetry].
Qed.

Lemma history_rows_public t1 t2 id from :
  same_public t1 t2 -> map public_call (history_rows t1 id from) = map public_call (history_rows t2 id from).
Proof.
  intros Hp. unfold history_rows. rewrite (next_sequence_public _ _ Hp id id eq_refl).
  induction (List.filter _ _) as [| s l IH]; [done |]. cbn [omap list_omap]. pose proof (sp_calls _ _ Hp (id, s)) as Hk.
  destruct (t_calls t1 !! (id, s)), (t_calls t2 !! (id, s)); try done. apply (inj Some) in Hk. cbn [map]. by rewrite IH, Hk.
Qed.

(** What a reply shows of a page. *)
Lemma replay_call_public versions rows1 rows2 :
  map public_call rows1 = map public_call rows2 ->
  map history_call (map (replay_call json_valid json_type json_extract versions false) rows1)
  = map history_call (map (replay_call json_valid json_type json_extract versions false) rows2).
Proof.
  revert rows2. induction rows1 as [| c1 l1 IH]; intros [| c2 l2]; try done.
  intros [= H1 H2 H3 H4 H5]. cbn [map]. rewrite (IH l2) by done. f_equal.
  unfold history_call, replay_call. cbn [rc_Sequence rc_Capability rc_Version rc_State rc_OutcomeClass]. by rewrite H1, H2, H4, H3.
Qed.

Lemma history_page_public versions limit rows1 rows2 :
  map public_call rows1 = map public_call rows2 ->
  history_response (history_page json_valid json_type json_extract versions false limit rows1)
  = history_response (history_page json_valid json_type json_extract versions false limit rows2).
Proof.
  intros Hrows. unfold history_page.
  assert (length rows1 = length rows2) as -> by (rewrite <- (length_map public_call rows1), Hrows; apply length_map).
  assert (map public_call (take (N.to_nat limit) rows1) = map public_call (take (N.to_nat limit) rows2)) as Htake.
  { rewrite <- !firstn_map. by rewrite Hrows. }
  apply (replay_call_public versions) in Htake. cbv zeta. revert Htake.
  generalize (map (replay_call json_valid json_type json_extract versions false) (take (N.to_nat limit) rows1)).
  generalize (map (replay_call json_valid json_type json_extract versions false) (take (N.to_nat limit) rows2)).
  intros calls2 calls1 Hc.
  assert (length calls1 = length calls2) as -> by (rewrite <- (length_map history_call calls1), Hc; apply length_map).
  assert (forall i, history_call <$> calls1 !! i = history_call <$> calls2 !! i) as Hi.
  { intros i. rewrite <- !list_lookup_fmap. f_equal. exact Hc. }
  specialize (Hi (length calls2 - 1)%nat). unfold history_response.
  destruct (calls1 !! _) as [c1 |], (calls2 !! _) as [c2 |]; try done; [| cbn [hp_Calls hp_NextSequence hp_HasMore]; by rewrite Hc]. injection Hi as H1 _ _ _ _.
  rewrite H1. destruct (_ <? _)%N; [destruct (_ =? _)%N |]; cbn [hp_Calls hp_NextSequence hp_HasMore]; by rewrite Hc.
Qed.

(** Two databases that look the same in public, read by the same connection. *)
Definition same_world (w1 w2 : world) : Prop := w_ticks w1 = w_ticks w2 /\ same_public (w_tables w1) (w_tables w2).

Definition related {B} (R : B -> B -> Prop) (x1 x2 : res error B * world) : Prop :=
  same_world (snd x1) (snd x2)
  /\ match fst x1, fst x2 with Ok a, Ok b => R a b | Err e, Err e' => e = e' | _, _ => False end.

Lemma db_query_related {B} (R : B -> B -> Prop) faults others (f : tables -> B) w1 w2 :
  (forall n t1 t2, same_public t1 t2 -> same_public (others n t1) (others n t2)) ->
  (forall t1 t2, same_public t1 t2 -> R (f t1) (f t2)) -> same_world w1 w2 ->
  related R (db_query faults others f w1) (db_query faults others f w2).
Proof.
  intros Ho Hf [Ht Hp]. unfold db_query, bind, interleave, query, stmt. cbn. rewrite Ht.
  specialize (Ho (w_ticks w2) _ _ Hp). destruct (faults _); (split; [by split | cbn; auto]).
Qed.

Lemma bind_related {B C} (R : B -> B -> Prop) (Q : C -> C -> Prop) (m : DB B) (f : B -> DB C) w1 w2 :
  related R (m w1) (m w2) -> (forall a b v1 v2, R a b -> same_world v1 v2 -> related Q (f a v1) (f b v2)) ->
  related Q (bind m f w1) (bind m f w2).
Proof.
  unfold bind. destruct (m w1) as [[a |] v1], (m w2) as [[b |] v2]; intros [Hw Hr] Hf; cbn [fst snd] in *; try done.
  by apply Hf.
Qed.

Lemma get_related faults others id w1 w2 :
  (forall n t1 t2, same_public t1 t2 -> same_public (others n t1) (others n t2)) -> same_world w1 w2 ->
  related (fun r1 r2 => d_Tools (r_Definition r1) = d_Tools (r_Definition r2)) (Get faults others id w1) (Get faults others id w2).
Proof.
  intros Ho Hw. unfold Get.
  apply (bind_related (fun o1 o2 => (fun r => d_Tools (r_Definition r)) <$> o1 = (fun r => d_Tools (r_Definition r)) <$> o2)).
  - apply db_query_related; [done | | done]. intros t1 t2 [H _]. apply H.
  - intros [r1 |] [r2 |] v1 v2 Hr Hv; try done. split; [done |]. by injection Hr.
Qed.

Lemma history_related faults others decode_error id from limit w1 w2 :
  (forall n t1 t2, same_public t1 t2 -> same_public (others n t1) (others n t2)) -> same_world w1 w2 ->
  let page := runner_ReplayHistory faults others decode_error json_valid json_type json_extract id (mkHistoryOptions from limit false) in
  related (fun p1 p2 => history_response p1 = history_response p2) (page w1) (page w2).
Proof.
  intros Ho Hw. cbv zeta. unfold runner_ReplayHistory, ReplayHistory. destruct (bool_decide (id = "")); [by split |].
  eapply bind_related; [by apply get_related |]. cbv beta. intros r1 r2 v1 v2 Hr Hv. cbn [ho_Limit ho_FromSequence ho_IncludePayloads].
  rewrite Hr. destruct (toolVersionsForRun _ _) as [versions | e]; [| by split].
  apply (bind_related eq); [by split |]. intros vs _ u1 u2 <- Hu.
  apply (bind_related (fun l1 l2 => map public_call l1 = map public_call l2)).
  - apply db_query_related; [done | | done]. intros t1 t2 Hp. rewrite <- !firstn_map. f_equal. by apply history_rows_public.
  - intros l1 l2 x1 x2 Hl Hx. split; [done |]. cbn. by apply history_page_public.
Qed.

Lemma parseHistoryOptions_Some r o : parseHistoryOptions r = Some o -> exists from limit, o = mkHistoryOptions from limit false.
Proof.
  unfold parseHistoryOptions. destruct (ParseQuery _) as [query ok]. destruct (negb ok); [done |].
  intros Ho. simplify_option_eq. eauto.
Qed.

Lemma dispatch_history env seed maxRun r id o :
  dispatch (rn_artifactSHA256 runner) env seed maxRun true r = Ok (THistory id o) -> exists from limit, o = mkHistoryOptions from limit false.
Proof.
  unfold dispatch, handleCreate, handleResolve, handleHistory, handleAttempt, handleCancel.
  destruct (parseHistoryOptions r) as [o' |] eqn:Ho.
  1: apply parseHistoryOptions_Some in Ho as (from & limit & ->).
  all: repeat match goal with
  | |- (if ?b then _ else _) = _ -> _ => destruct b
  | |- (let '_ := ?x in _) = _ -> _ => destruct x
  | |- match ?x with _ => _ end = _ -> _ => destruct x
  end; try done.
  intros [= <- <-]. eauto.
Qed.

#[local] Existing Instance runner_runtime.

(** C33.  The history shows only what is public.  Two databases that differ in
    the arguments, the outcomes, the call ids, the operation keys or anything
    else than the numbers, tools, states and kinds of outcome of the calls give
    the same reply to every request for a history, whatever its query asks for
    and whichever way the database fails. *)
Theorem history_shows_only_what_is_public env seed maxRun (a : answer runner_answer) r id o w1 w2 e n c threads
  (Hd : dispatch (rn_artifactSHA256 runner) env seed maxRun true r = Ok (THistory id o))
  (Ho : forall k t1 t2, same_public t1 t2 -> same_public (ra_others (an_runtime a) k t1) (ra_others (an_runtime a) k t2))
  (Hw : same_world w1 w2) :
  let step w := step_request (H := runner_runtime artifact guestManifest runner json_valid json_type json_extract)
                  env seed maxRun a r (mkService w e n c threads) in
  fst (step w1) = fst (step w2).
Proof.
  destruct (dispatch_history _ _ _ _ _ _ Hd) as (from & limit & ->). cbv zeta. unfold step_request.
  cbn [rt_ArtifactID rt_ReplayHistory runner_runtime]. rewrite bool_decide_eq_true_2 by (by eexists). rewrite Hd.
  cbn [sv_world].
  pose proof (history_related (ra_faults (an_runtime a)) (ra_others (an_runtime a)) (ra_decode_error (an_runtime a)) id from limit
    w1 w2 Ho Hw) as [_ Hr]. cbv zeta in Hr. unfold answered.
  destruct (runner_ReplayHistory _ _ _ _ _ _ _ _ w1) as [[p1 | e1] v1], (runner_ReplayHistory _ _ _ _ _ _ _ _ w2) as [[p2 | e2] v2];
    cbn [fst snd] in *; try done; by rewrite Hr.
Qed.
End Public.

(** ** A service over a runner *)

Definition demo_tools : list guestToolSpec := [mkGuestToolSpec "pay" "pay" false].
Definition no_json (_ _ : string) : option string := None.

#[local] Instance demo_runtime : Runtime world runner_answer :=
  runner_runtime pay_guest demo_tools pay_runner (fun _ => true) no_json no_json.
#[local] Instance demo_laws : RuntimeLaws world runner_answer :=
  runner_laws pay_guest demo_tools pay_runner (fun _ => true) no_json no_json.

Definition demo_runner_answer : runner_answer :=
  mkRunnerAnswer no_faults no_others (fun _ => None) (fun _ => 0%Z) (fun _ => None) (fun _ => None) EMsg (fun _ => false) EMsg.
Definition demo_answer : answer runner_answer := mkAnswer demo_runner_answer None true.

Lemma demo_answer_sound : rt_sound demo_runner_answer.
Proof. intros n t. apply rtc_refl. Qed.

Definition service_limits : Limits := mkLimits 0 1 1 1 1.
Notation demo_step := (service_step "env-1" "" 60000000000 rt_commits rt_sound).
Notation demo_reachable_service := (service_reachable "env-1" "" 60000000000 service_limits [("", 60000000000%Z)] (mkWorld empty_tables 0)).

Definition post (path body : string) : request := mkRequest "POST" path "" (dq body) false.
Definition arrive (r : request) (s : service world) : service world := set_threads (sv_threads s ++ [PRequest r]) s.
Definition turn_of (i : nat) (s : service world) : service world :=
  match sv_threads s !! i with
  | Some p => match step_pc "env-1" "" 60000000000 demo_answer p s with
              | Some (p', s') => set_threads (<[i := p']> (sv_threads s')) s'
              | None => s
              end
  | None => s
  end.

Lemma arrive_rtc r s : rtc demo_step s (arrive r s).
Proof. apply rtc_once, service_arrive. Qed.

Lemma turn_rtc i s : rtc demo_step s (turn_of i s).
Proof.
  unfold turn_of. destruct (sv_threads s !! i) as [p |] eqn:Hi; [| done].
  destruct (step_pc _ _ _ _ p s) as [[p' s'] |] eqn:Hs; [| done].
  apply rtc_once. by apply (service_go _ _ _ _ _ s i demo_answer p p' s' Hi demo_answer_sound).
Qed.

Definition demo_executor : Executor :=
  match NewExecutor service_limits with Ok e => e | Err _ => mkExecutor 0 0 0 0 0 false false [] [] 0 0 0 ∅ ∅ end.
Definition demo_start : service world := new_service (mkWorld empty_tables 0) demo_executor.

(** A run is created, and an attempt of it is admitted. *)
Definition demo_create : service world :=
  turn_of 0 (arrive (post "/v1/durable/runs" "{'id':'run-1','source':'pay(7)','seed':'seed'}") demo_start).
Definition demo_asked : service world := arrive (post "/v1/durable/runs/run-1/attempts" "{'timeout_ms':5000}") demo_create.
Definition demo_attempt : service world := turn_of 1 demo_asked.

(** The attempt runs and ends. *)
Definition demo_advance := rt_Advance demo_runner_answer "run-1" (sv_world demo_attempt).
Definition demo_end : service world :=
  set_executor (finish 0 (fst (fst demo_advance)) (snd (fst demo_advance)) (sv_executor demo_attempt))
    (set_world (snd demo_advance) demo_attempt).

Lemma demo_attempt_rtc : rtc demo_step demo_start demo_attempt.
Proof. unfold demo_attempt, demo_asked, demo_create. repeat (etrans; [| first [apply turn_rtc | apply arrive_rtc]]). apply rtc_refl. Qed.

Lemma demo_attempt_reachable : demo_reachable_service demo_attempt.
Proof. exists demo_executor. split; [reflexivity | apply demo_attempt_rtc]. Qed.

Lemma demo_advance_commits : rt_commits (sv_world demo_attempt) (snd demo_advance).
Proof.
  assert (wf (w_tables (sv_world demo_attempt))) as Hwf.
  { apply reachable_wf_lemma.
    assert (w_tables (sv_world demo_attempt) = w_tables (run_ops no_faults no_others
              [OpCreate (with_tools (rn_toolSnapshot pay_runner) pay_definition)] start)) as -> by (vm_compute; reflexivity).
    apply run_ops_reachable. by apply rtc_refl. }
  pose proof (ext_resume no_faults no_others (fun _ => None) (fun _ => 0%Z) (fun _ => None) (fun _ => None) EMsg pay_guest demo_tools
    (fun _ => false) pay_runner "run-1" no_others_ok (fun name d Hd => proj1 (pay_declared name d Hd)) (mkHost (sv_world demo_attempt) [] fresh_journal) Hwf) as He.
  apply ext_tables in He. unfold demo_advance. cbn [rt_Advance rt_commits demo_runtime demo_laws runner_runtime runner_laws]. unfold Advance.
  unfold runner_commits. exact He.
Qed.

Lemma demo_end_reachable : demo_reachable_service demo_end.
Proof.
  exists demo_executor. split; [reflexivity |]. etrans; [apply demo_attempt_rtc |]. eapply rtc_l; [apply service_commit, demo_advance_commits |].
  assert (ex_heap (sv_executor demo_attempt) !! 0%nat = Some (mkAttempt "run-1" None None false None attemptRunning None false PGuest)) as Hid
    by (vm_compute; reflexivity).
  apply rtc_once. unfold demo_end.
  apply (service_finish _ _ _ _ _ (set_world (snd demo_advance) demo_attempt) 0 _ demo_runner_answer (sv_world demo_attempt) (snd demo_advance) _ _ Hid).
  - reflexivity.
  - apply demo_answer_sound.
  - unfold demo_advance. by destruct (rt_Advance _ _ _) as [[] ].
  - apply rtc_refl.
Qed.

(** The attempt is cancelled while it runs. *)
Definition demo_cancel : service world := arrive (post "/v1/durable/runs/run-1/cancel" "") demo_attempt.
Definition demo_cancelled : service world := turn_of 2 (turn_of 2 demo_cancel).

Lemma requests_reach_the_executor_witness :
  (at_ctx <$> ex_heap (sv_executor demo_cancel) !! 0%nat = Some None
   /\ sv_threads demo_cancelled !! 2%nat = Some (PDone RCancelled)
   /\ exists a', ex_heap (sv_executor demo_cancelled) !! 0%nat = Some a' /\ is_Some (at_ctx a'))
  /\ exists a, attempt_since demo_asked demo_attempt "run-1" 0 a.
Proof.
  assert (service_reachable "env-1" "" 60000000000 service_limits [("", 60000000000%Z)] (mkWorld empty_tables 0) demo_cancel) as Hreach.
  { exists demo_executor. split; [reflexivity |]. etrans; [apply demo_attempt_rtc | apply arrive_rtc]. }
  assert (sv_threads demo_cancelled !! 2%nat = Some (PDone RCancelled)) as H2 by (vm_compute; reflexivity).
  assert (rtc demo_step demo_cancel demo_cancelled) as Hr by (etrans; apply turn_rtc).
  split; [split; [vm_compute; reflexivity |]; split; [exact H2 |] |].
  - destruct (requests_reach_the_executor "env-1" "" 60000000000 service_limits _ _ demo_cancel demo_cancelled 2%nat Hreach Hr)
      as (_ & _ & Hc & _).
    destruct (Hc (post "/v1/durable/runs/run-1/cancel" "") "run-1") as [_ Ha]; [reflexivity | vm_compute; reflexivity | exact H2 |].
    apply (Ha 0%nat (mkAttempt "run-1" None None false None attemptRunning None false PGuest)); vm_compute; reflexivity.
  - assert (service_reachable "env-1" "" 60000000000 service_limits [("", 60000000000%Z)] (mkWorld empty_tables 0) demo_asked) as Hasked.
    { exists demo_executor. split; [reflexivity |]. unfold demo_asked, demo_create. repeat (etrans; [| first [apply turn_rtc | apply arrive_rtc]]). apply rtc_refl. }
    destruct (requests_reach_the_executor "env-1" "" 60000000000 service_limits _ _ demo_asked demo_attempt 1%nat Hasked (turn_rtc 1 demo_asked))
      as (_ & Ha & _).
    destruct (Ha (post "/v1/durable/runs/run-1/attempts" "{'timeout_ms':5000}") "run-1" (Some 5000000000%Z)) as [Hw _];
      [reflexivity | vm_compute; reflexivity |].
    destruct (Hw 0%nat) as [Hw0 _]; [vm_compute; reflexivity | exact Hw0].
Defined.

Definition demo_result : Result := mkResult (Some StateCompleted) (mkOutput (dq "{'value':true}") "paid" "") None None.

Lemma attempt_reply_is_durable_witness :
  (exists s', step_pc "env-1" "" 60000000000 demo_answer (PWait 0) demo_end = Some (PDone (RAttempt demo_result), s'))
  /\ exists run, rt_run (sv_world demo_end) "run-1" = Some run /\ completed_with run (re_Output demo_result).
Proof.
  assert (step_pc "env-1" "" 60000000000 demo_answer (PWait 0) demo_end = Some (PDone (RAttempt demo_result), demo_end)) as Hstep
    by (vm_compute; reflexivity).
  split; [exists demo_end; exact Hstep |].
  destruct (attempt_reply_is_durable "env-1" "" 60000000000 service_limits _ _ demo_end demo_answer 0 demo_result demo_end (sv_world demo_end)
    demo_end_reachable Hstep eq_refl (rtc_refl _ _)) as (att & run & Hatt & _ & Hrun & Ho).
  exists run. assert (at_runID att = "run-1") as Hid.
  { assert (at_runID <$> ex_heap (sv_executor demo_end) !! 0%nat = Some "run-1") as Hr by (vm_compute; reflexivity).
    rewrite Hatt in Hr. by injection Hr. }
  rewrite Hid in Hrun. by split.
Defined.

Definition demo_created : runResponse := mkRunResponse "run-1" "active" "" "".

Lemma created_runs_can_be_attempted_witness :
  sv_threads demo_end !! 0%nat = Some (PDone (RCreated demo_created))
  /\ exists run, rt_run (sv_world demo_end) "run-1" = Some run /\ rt_fits (r_Definition run) = true.
Proof.
  assert (sv_threads demo_end !! 0%nat = Some (PDone (RCreated demo_created))) as Hi by (vm_compute; reflexivity).
  split; [exact Hi |].
  destruct (created_runs_can_be_attempted "env-1" "" 60000000000 service_limits _ _ demo_end 0 demo_created (sv_world demo_end)
    demo_end_reachable Hi (rtc_refl _ _)) as (run & Hrun & _ & _ & Hfits & _).
  exists run. split; [exact Hrun |]. apply Hfits. vm_compute. reflexivity.
Defined.

(** The same run with another argument, another outcome and another key. *)
Definition demo_secret (t : tables) : tables :=
  set_calls t ((fun c => mkCall (c_RunID c) (c_Sequence c) "hidden" (c_Tool c) "hidden" (c_State c) "[8]" (dq "{'value':false}")) <$> t_calls t).

Definition demo_history : request := mkRequest "GET" "/v1/durable/runs/run-1/history" "payloads=true&limit=8" "" false.

Lemma history_shows_only_what_is_public_witness :
  let w1 := sv_world demo_end in
  let w2 := mkWorld (demo_secret (w_tables w1)) (w_ticks w1) in
  c_Arguments <$> t_calls (w_tables w1) !! ("run-1", 0%N) = Some "[7]" /\ c_Arguments <$> t_calls (w_tables w2) !! ("run-1", 0%N) = Some "[8]"
  /\ fst (step_request "env-1" "" 60000000000 demo_answer demo_history (mkService w1 demo_executor 0 false []))
      = fst (step_request "env-1" "" 60000000000 demo_answer demo_history (mkService w2 demo_executor 0 false [])).
Proof.
  cbv zeta. split; [vm_compute; reflexivity |]. split; [vm_compute; reflexivity |].
  apply (history_shows_only_what_is_public pay_guest demo_tools pay_runner (fun _ => true) no_json no_json "env-1" "" 60000000000 demo_answer
    demo_history "run-1" (mkHistoryOptions 0 8 false)).
  - vm_compute. reflexivity.
  - intros k t1 t2 H. exact H.
  - split; [reflexivity |]. split; [intros id; reflexivity |]. intros k. cbn [w_tables demo_secret set_calls t_calls].
    rewrite lookup_fmap. destruct (t_calls (w_tables (sv_world demo_end)) !! k) as [c |] eqn:Hc; [| reflexivity].
    assert (map_Forall (fun _ c => bool_decide (c_State c = CallCompleted) && negb (bool_decide (c_Outcome c = "")) = true) (t_calls (w_tables (sv_world demo_end)))) as Hall.
    { apply map_Forall_to_list. vm_compute. repeat constructor. }
    pose proof (Hall k c Hc) as Hst. cbv beta in Hst. apply andb_true_iff in Hst as [Hst%bool_decide_eq_true Ho%negb_true_iff].
    cbn [fmap option_fmap option_map]. unfold public_call. cbn [c_Sequence c_Tool c_State c_Outcome].
    rewrite Hst. unfold outcome_class. rewrite Ho. reflexivity.
Defined.
