(* ===== verification/Leb128.v ===== *)
(** * Leb128: variable-length integers of the Wasm binary format
    ([cow_data_image.go])

    [readULEB], [readSLEB] and [appendULEB] over a buffer of bytes and a
    position in it, with Go's 64-bit [value] written out.  An error is the text
    of the Go error. *)

From S2P Require Import Prelude.

(** A Go byte slice that is indexed: bytes as 8-bit [ascii]. *)
Notation buffer := (list ascii).

(** [uint64(b) << n] and [int64(b) << n]. *)
Definition shl_u64 (x n : N) : N := u64 (N.shiftl x n).
Definition shl_i64 (x : Z) (n : N) : Z := i64 (Z.shiftl x (Z.of_N n)).

(** The loop of [readULEB] from its [i]-th turn, with the turns that are left. *)
Fixpoint read_uleb (buf : buffer) (bits : N) (turns : nat) (i : N) (pos : nat) (value : N)
  : res string (N * nat) :=
  match turns with
  | O => Err "unsigned leb128 too long"
  | S turns =>
      match buf !! pos with
      | None => Err "truncated unsigned leb128"
      | Some c =>
          let b := N_of_ascii c in
          if (i =? 9)%N && (1 <? b)%N then Err "unsigned leb128 overflow"
          else
            let value := N.lor value (shl_u64 (N.land b 127) (7 * i)) in
            if (N.land b 128 =? 0)%N then
              if (bits <? 64)%N && (N.shiftl 1 bits <=? value)%N then Err "unsigned leb128 value overflow"
              else Ok (value, S pos)
            else read_uleb buf bits turns (i + 1) (S pos) value
      end
  end.

Definition leb_turns (bits : N) : nat := N.to_nat ((bits + 6) / 7).

Definition readULEB (buf : buffer) (pos : nat) (bits : N) : res string (N * nat) :=
  read_uleb buf bits (leb_turns bits) 0 pos 0.

Fixpoint read_sleb (buf : buffer) (bits : N) (turns : nat) (i : N) (pos : nat) (value : Z)
  : res string (Z * nat) :=
  match turns with
  | O => Err "signed leb128 too long"
  | S turns =>
      match buf !! pos with
      | None => Err "truncated signed leb128"
      | Some c =>
          let b := N_of_ascii c in
          if (bits =? 64)%N && (i =? 9)%N && negb (b =? 0)%N && negb (b =? 127)%N
          then Err "signed leb128 overflow"
          else
            let value := Z.lor value (shl_i64 (Z.of_N (N.land b 127)) (7 * i)) in
            let shift := (7 * i + 7)%N in
            if (N.land b 128 =? 0)%N then
              let value :=
                if (shift <? 64)%N && negb (N.land b 64 =? 0)%N then Z.lor value (shl_i64 (-1) shift) else value in
              let bound := shl_i64 1 (bits - 1) in
              if (bits <? 64)%N && ((value <? - bound)%Z || (bound - 1 <? value)%Z)
              then Err "signed leb128 value overflow"
              else Ok (value, S pos)
            else read_sleb buf bits turns (i + 1) (S pos) value
      end
  end.

Definition readSLEB (buf : buffer) (pos : nat) (bits : N) : res string (Z * nat) :=
  read_sleb buf bits (leb_turns bits) 0 pos 0.

(** The loop of [appendULEB]; a [uint32] has at most five groups of 7 bits. *)
Fixpoint append_uleb (turns : nat) (value : N) : buffer :=
  match turns with
  | O => [ascii_of_N (value mod 256)]
  | S turns =>
      if (128 <=? value)%N
      then ascii_of_N (N.lor (value mod 256) 128) :: append_uleb turns (N.shiftr value 7)
      else [ascii_of_N (value mod 256)]
  end.

Definition appendULEB (dst : buffer) (value : N) : buffer := dst ++ append_uleb 5 (u32 value).

(** ** The encodings

    The values the byte strings stand for, from the definition of the format:
    each byte carries seven bits, lowest first, and all but the last have the
    top bit set; the last byte of a signed number carries its sign. *)

Inductive uleb : buffer -> N -> Prop :=
| uleb_last c : (N_of_ascii c < 128)%N -> uleb [c] (N_of_ascii c)
| uleb_more c enc v :
    (128 <= N_of_ascii c)%N -> uleb enc v -> uleb (c :: enc) (N_of_ascii c - 128 + 128 * v).

Inductive sleb : buffer -> Z -> Prop :=
| sleb_last c :
    (N_of_ascii c < 128)%N ->
    sleb [c] (if (N_of_ascii c <? 64)%N then Z.of_N (N_of_ascii c) else Z.of_N (N_of_ascii c) - 128)
| sleb_more c enc v :
    (128 <= N_of_ascii c)%N -> sleb enc v -> sleb (c :: enc) (Z.of_N (N_of_ascii c) - 128 + 128 * v).

(** What a [u32] and an [s32] of the format are: at most five bytes. *)
Definition uleb32 (enc : buffer) (v : N) : Prop := uleb enc v /\ (length enc <= 5)%nat /\ (v < 2 ^ 32)%N.
Definition sleb32 (enc : buffer) (v : Z) : Prop :=
  sleb enc v /\ (length enc <= 5)%nat /\ (- 2 ^ 31 <= v < 2 ^ 31)%Z.

(** ** Bits *)

Lemma byte_bound c : (N_of_ascii c < 256)%N.
Proof. apply N_ascii_bounded. Qed.

Lemma byte_low c : N.land (N_of_ascii c) 127 = (N_of_ascii c mod 128)%N.
Proof. change 127%N with (N.ones 7). by rewrite N.land_ones. Qed.

Lemma byte_top c : (N.land (N_of_ascii c) 128 =? 0)%N = (N_of_ascii c <? 128)%N.
Proof. destruct c as [[] [] [] [] [] [] [] []]; reflexivity. Qed.

Lemma byte_sign c :
  (N_of_ascii c < 128)%N -> negb (N.land (N_of_ascii c) 64 =? 0)%N = negb (N_of_ascii c <? 64)%N.
Proof. destruct c as [[] [] [] [] [] [] [] []]; intros H; try reflexivity; by vm_compute in H. Qed.

Lemma byte_low_small c : (N_of_ascii c < 128)%N -> (N_of_ascii c mod 128)%N = N_of_ascii c.
Proof. intros. by apply N.mod_small. Qed.

Lemma byte_low_cont c : (128 <= N_of_ascii c)%N -> (N_of_ascii c mod 128)%N = (N_of_ascii c - 128)%N.
Proof.
  intros. pose proof (byte_bound c). replace (N_of_ascii c) with (N_of_ascii c - 128 + 1 * 128)%N at 1 by lia.
  rewrite N.Div0.mod_add. apply N.mod_small. lia.
Qed.

Lemma lor_shift v x k : (v < 2 ^ k)%N -> N.lor v (N.shiftl x k) = (v + 2 ^ k * x)%N.
Proof.
  intros Hv. rewrite N.shiftl_mul_pow2. rewrite N.mul_comm. apply N.bits_inj. intros n.
  rewrite N.lor_spec.
  destruct (decide (n < k)%N) as [Hlt | Hge].
  - rewrite (N.mul_comm (2 ^ k)), N.mul_pow2_bits_low by done. rewrite orb_false_r.
    rewrite <- (N.mod_pow2_bits_low (v + x * 2 ^ k) k n) by done.
    rewrite N.Div0.mod_add. by rewrite N.mod_pow2_bits_low.
  - assert (exists d, n = d + k)%N as [d ->] by (exists (n - k)%N; lia).
    rewrite (N.mul_comm (2 ^ k)), N.mul_pow2_bits_add.
    rewrite <- (N.div_pow2_bits v k d), (N.div_small v) by done. rewrite N.bits_0. simpl.
    rewrite <- (N.div_pow2_bits (v + x * 2 ^ k) k d). rewrite N.div_add by (apply N.pow_nonzero; lia).
    by rewrite (N.div_small v).
Qed.

(** ** Places in a buffer *)

(** [enc] is what the buffer holds from [pos] up to [next]. *)
Definition spans (buf : buffer) (pos next : nat) (enc : buffer) : Prop :=
  next = (pos + length enc)%nat /\ drop pos buf = enc ++ drop next buf.

Lemma spans_nil buf pos : spans buf pos pos [].
Proof. split; [simpl; lia | done]. Qed.

Lemma spans_app buf p q r a b : spans buf p q a -> spans buf q r b -> spans buf p r (a ++ b).
Proof.
  intros [-> Ha] [-> Hb]. split; [rewrite length_app; lia |]. by rewrite Ha, Hb, app_assoc.
Qed.

Lemma spans_cons buf pos next c enc :
  spans buf pos next (c :: enc) <-> buf !! pos = Some c /\ spans buf (S pos) next enc.
Proof.
  unfold spans. simpl. split.
  - intros [-> Hd]. assert (buf !! pos = Some c) as Hc.
    { pose proof (lookup_drop buf pos 0) as Hl. rewrite Nat.add_0_r in Hl. by rewrite <- Hl, Hd. }
    split; [done |]. split; [lia |].
    rewrite (drop_S buf c pos Hc) in Hd. by injection Hd.
  - intros [Hc [-> Hd]]. split; [lia |]. rewrite (drop_S buf c pos Hc), Hd. do 3 f_equal. 
Qed.

Lemma spans_inj buf pos next next' a b : spans buf pos next a -> spans buf pos next' b ->
  length a = length b -> a = b.
Proof.
  intros [-> Ha] [-> Hb] Hlen. rewrite Ha in Hb. by apply app_inj_1 in Hb as [-> _].
Qed.

Lemma spans_bound buf pos next enc : enc <> [] -> spans buf pos next enc -> (next <= length buf)%nat.
Proof.
  intros Hne [-> Hd]. apply (f_equal length) in Hd. rewrite length_app, !length_drop in Hd.
  destruct enc; [done |]. simpl in *. lia.
Qed.

Lemma spans_slice buf pos next : (pos <= next)%nat -> (next <= length buf)%nat ->
  spans buf pos next (take (next - pos) (drop pos buf)).
Proof.
  intros Hle Hlen. split; [rewrite length_take, length_drop; lia |].
  rewrite <- (take_drop (next - pos) (drop pos buf)) at 1. rewrite drop_drop.
  do 2 f_equal. lia.
Qed.

Lemma spans_all buf : spans buf 0 (length buf) buf.
Proof. split; [done |]. rewrite (drop_ge buf (length buf)) by lia. by rewrite app_nil_r, drop_0. Qed.

(** ** Reading unsigned integers *)

Lemma shl_small b i : (b < 128)%N -> (i < 5)%N -> shl_u64 b (7 * i) = N.shiftl b (7 * i).
Proof.
  intros Hb Hi. unfold shl_u64. apply u64_id. rewrite N.shiftl_mul_pow2.
  assert (2 ^ (7 * i) <= 2 ^ 28)%N by (apply N.pow_le_mono_r; lia).
  apply N.le_lt_trans with (127 * 2 ^ 28)%N; [| done]. apply N.mul_le_mono; lia.
Qed.

Lemma pow_step i : (2 ^ (7 * (i + 1)) = 128 * 2 ^ (7 * i))%N.
Proof. replace (7 * (i + 1))%N with (7 + 7 * i)%N by lia. by rewrite N.pow_add_r. Qed.

(** Lengths and values of encodings. *)
Lemma uleb_nonempty enc v : uleb enc v -> enc <> [].
Proof. by destruct 1. Qed.

Lemma read_uleb_Ok buf turns i pos value v next :
  (i + N.of_nat turns <= 5)%N -> (value < 2 ^ (7 * i))%N ->
  read_uleb buf 32 turns i pos value = Ok (v, next) <->
  exists enc w, uleb enc w /\ (length enc <= turns)%nat /\ v = (value + 2 ^ (7 * i) * w)%N
                /\ (v < 2 ^ 32)%N /\ spans buf pos next enc.
Proof.
  revert i pos value. induction turns as [| turns IH]; intros i pos value Hi Hv.
  { split; [done |]. intros (enc & w & Hu & Hlen & _). apply uleb_nonempty in Hu. destruct enc; [done | simpl in Hlen; lia]. }
  cbn [read_uleb]. destruct (buf !! pos) as [c |] eqn:Hc.
  2:{ split; [done |]. intros (enc & w & Hu & _ & _ & _ & Hs). apply uleb_nonempty in Hu.
      destruct enc; [done |]. apply spans_cons in Hs as [Hs _]. congruence. }
  pose proof (byte_bound c) as Hb.
  assert ((i =? 9)%N = false) as -> by (apply N.eqb_neq; lia). simpl andb. cbv iota.
  rewrite byte_low, byte_top, shl_small, lor_shift by (try apply N.mod_lt; lia).
  destruct (N_of_ascii c <? 128)%N eqn:Hlast; guards.
  - rewrite byte_low_small by done. change (N.shiftl 1 32) with (2 ^ 32)%N. split.
    + intros Hok. destruct (2 ^ 32 <=? _)%N eqn:Hbig; [done |]. guards. simplify_eq.
      exists [c], (N_of_ascii c). split_and!; [by constructor | simpl; lia | done | lia |].
      apply spans_cons. split; [done | apply spans_nil].
    + intros (enc & w & Hu & Hlen & -> & Hfit & Hs). inversion Hu as [c' Hc' | c' enc' w' Hc' Hu']; subst.
      * apply spans_cons in Hs as [Hcc Hs]. simplify_eq.
        destruct Hs as [-> _]. simpl. rewrite Nat.add_0_r.
        by rewrite (proj2 (N.leb_gt _ _)) by done.
      * apply spans_cons in Hs as [Hcc _]. simplify_eq. lia.
  - rewrite byte_low_cont by done. rewrite IH; [| lia |].
    2:{ rewrite pow_step. nia. }
    split.
    + intros (enc & w & Hu & Hlen & -> & Hfit & Hs). exists (c :: enc), (N_of_ascii c - 128 + 128 * w)%N.
      rewrite pow_step in *. split_and!; [by constructor | simpl; lia | nia | nia |]. by apply spans_cons.
    + intros (enc & w & Hu & Hlen & -> & Hfit & Hs). inversion Hu as [c' Hc' | c' enc' w' Hc' Hu']; subst.
      * apply spans_cons in Hs as [Hcc _]. simplify_eq. lia.
      * apply spans_cons in Hs as [Hcc Hs]. simplify_eq. exists enc', w'. rewrite pow_step.
        simpl in Hlen. split_and!; [done | lia | nia | nia | done].
Qed.

(** [readULEB] reads exactly the encodings of 32-bit numbers. *)
Lemma readULEB_Ok buf pos v next :
  readULEB buf pos 32 = Ok (v, next) <-> exists enc, uleb32 enc v /\ spans buf pos next enc.
Proof.
  unfold readULEB. change (leb_turns 32) with 5%nat. rewrite read_uleb_Ok by (simpl; lia).
  unfold uleb32. split.
  - intros (enc & w & Hu & Hlen & -> & Hfit & Hs). exists enc.
    assert (0 + 2 ^ (7 * 0) * w = w)%N as Hw by (simpl; lia). rewrite Hw in *. done.
  - intros (enc & (Hu & Hlen & Hfit) & Hs). exists enc, v.
    assert (0 + 2 ^ (7 * 0) * v = v)%N as Hw by (simpl; lia). by rewrite Hw.
Qed.

(** ** Reading signed integers *)

Lemma lor_sign n k : (n < 2 ^ k)%N -> Z.lor (Z.of_N n) (Z.shiftl (-1) (Z.of_N k)) = (Z.of_N n - 2 ^ Z.of_N k)%Z.
Proof.
  intros Hn. rewrite Z.shiftl_mul_pow2 by lia.
  assert (Z.of_N n < 2 ^ Z.of_N k)%Z as Hz by (rewrite <- (N2Z.inj_pow 2); lia).
  replace (-1 * 2 ^ Z.of_N k)%Z with (Z.lnot (Z.ones (Z.of_N k))).
  2:{ rewrite Z.ones_equiv. unfold Z.lnot. lia. }
  assert (Z.land (Z.of_N n) (Z.lnot (Z.ones (Z.of_N k))) = 0)%Z as Hland.
  { rewrite <- Z.ldiff_land. destruct (decide (n = 0%N)) as [-> |]; [done |].
    apply Z.ldiff_ones_r_low; [lia |]. apply Z.log2_lt_pow2; lia. }
  pose proof (Z.add_lor_land (Z.of_N n) (Z.lnot (Z.ones (Z.of_N k)))) as H. rewrite Hland in H.
  rewrite Z.ones_equiv in *. unfold Z.lnot in *. lia.
Qed.

Lemma shl_i64_low b i :
  (b < 128)%N -> (i < 5)%N -> shl_i64 (Z.of_N b) (7 * i) = Z.of_N (N.shiftl b (7 * i)).
Proof.
  intros Hb Hi. unfold shl_i64. rewrite <- N2Z.inj_shiftl. apply i64_id.
  pose proof (shl_small b i Hb Hi) as Hs. unfold shl_u64 in Hs.
  rewrite N.shiftl_mul_pow2 in *. assert (2 ^ (7 * i) <= 2 ^ 28)%N by (apply N.pow_le_mono_r; lia).
  assert (b * 2 ^ (7 * i) <= 127 * 2 ^ 28)%N by (apply N.mul_le_mono; lia). lia.
Qed.

Lemma shl_i64_sign k : (k <= 35)%N -> shl_i64 (-1) k = Z.shiftl (-1) (Z.of_N k).
Proof.
  intros Hk. unfold shl_i64. apply i64_id. rewrite Z.shiftl_mul_pow2 by lia.
  assert (2 ^ Z.of_N k <= 2 ^ 35)%Z by (apply Z.pow_le_mono_r; lia). lia.
Qed.

Lemma sleb_nonempty enc v : sleb enc v -> enc <> [].
Proof. by destruct 1. Qed.

(** The value of the last byte. *)
Lemma sleb_last_value c i n :
  (i < 5)%N -> (n < 2 ^ (7 * i))%N -> (N_of_ascii c < 128)%N ->
  (if (7 * i + 7 <? 64)%N && negb (N.land (N_of_ascii c) 64 =? 0)%N
   then Z.lor (Z.of_N (n + 2 ^ (7 * i) * N_of_ascii c)) (shl_i64 (-1) (7 * i + 7))
   else Z.of_N (n + 2 ^ (7 * i) * N_of_ascii c))
  = (Z.of_N n + 2 ^ Z.of_N (7 * i)
      * (if (N_of_ascii c <? 64)%N then Z.of_N (N_of_ascii c) else Z.of_N (N_of_ascii c) - 128))%Z.
Proof.
  intros Hi Hn Hc. rewrite (proj2 (N.ltb_lt _ _)), byte_sign by (done || lia). simpl andb.
  assert (2 ^ Z.of_N (7 * i) = Z.of_N (2 ^ (7 * i)))%Z as -> by (by rewrite (N2Z.inj_pow 2)).
  destruct (N_of_ascii c <? 64)%N; simpl; [lia |].
  rewrite shl_i64_sign, lor_sign by (try (rewrite N.pow_add_r; change (2 ^ 7)%N with 128%N); nia).
  rewrite <- (N2Z.inj_pow 2). rewrite N.pow_add_r. change (2 ^ 7)%N with 128%N. lia.
Qed.

Lemma read_sleb_Ok buf turns i pos n v next :
  (i + N.of_nat turns <= 5)%N -> (n < 2 ^ (7 * i))%N ->
  read_sleb buf 32 turns i pos (Z.of_N n) = Ok (v, next) <->
  exists enc w, sleb enc w /\ (length enc <= turns)%nat /\ v = (Z.of_N n + 2 ^ Z.of_N (7 * i) * w)%Z
                /\ (- 2 ^ 31 <= v < 2 ^ 31)%Z /\ spans buf pos next enc.
Proof.
  revert i pos n. induction turns as [| turns IH]; intros i pos n Hi Hn.
  { split; [done |]. intros (enc & w & Hu & Hlen & _). apply sleb_nonempty in Hu.
    destruct enc; [done | simpl in Hlen; lia]. }
  cbn [read_sleb]. destruct (buf !! pos) as [c |] eqn:Hc.
  2:{ split; [done |]. intros (enc & w & Hu & _ & _ & _ & Hs). apply sleb_nonempty in Hu.
      destruct enc; [done |]. apply spans_cons in Hs as [Hs _]. congruence. }
  pose proof (byte_bound c) as Hb. change (32 =? 64)%N with false. simpl andb. cbv iota.
  rewrite byte_low, byte_top, shl_i64_low, <- N2Z.inj_lor, lor_shift by (try apply N.mod_lt; lia).
  destruct (N_of_ascii c <? 128)%N eqn:Hlast; guards.
  - rewrite byte_low_small by done. pose proof (sleb_last_value c i n) as Hval. cbv zeta.
    rewrite Hval by (done || lia). clear Hval. set (v0 := (Z.of_N n + _)%Z).
    change (32 <? 64)%N with true. change (shl_i64 1 (32 - 1)) with (2 ^ 31)%Z. simpl andb.
    split.
    + intros Hok. destruct (_ || _)%bool eqn:Hbig; [done |]. guards. simplify_eq.
      eexists [c], _. split_and!; [by constructor | simpl; lia | done | lia | lia |].
      apply spans_cons. split; [done | apply spans_nil].
    + intros (enc & w & Hu & Hlen & -> & Hfit & Hs). inversion Hu as [c' Hc' | c' enc' w' Hc' Hu']; subst.
      * apply spans_cons in Hs as [Hcc Hs]. simplify_eq. fold v0 in Hfit. fold v0.
        destruct Hs as [-> _]. simpl. rewrite Nat.add_0_r.
        by rewrite !(proj2 (Z.ltb_ge _ _)) by lia.
      * apply spans_cons in Hs as [Hcc _]. simplify_eq. lia.
  - rewrite byte_low_cont by done. rewrite IH; [| lia |].
    2:{ rewrite pow_step. nia. }
    assert (2 ^ Z.of_N (7 * (i + 1)) = 128 * 2 ^ Z.of_N (7 * i))%Z as Hstep.
    { rewrite <- !(N2Z.inj_pow 2), pow_step. lia. }
    assert (2 ^ Z.of_N (7 * i) = Z.of_N (2 ^ (7 * i)))%Z as Hp by (by rewrite (N2Z.inj_pow 2)).
    split.
    + intros (enc & w & Hu & Hlen & -> & Hfit & Hs).
      exists (c :: enc), (Z.of_N (N_of_ascii c) - 128 + 128 * w)%Z. rewrite Hstep, Hp in *.
      split_and!; [by constructor | simpl; lia | nia | nia | nia |]. by apply spans_cons.
    + intros (enc & w & Hu & Hlen & -> & Hfit & Hs). inversion Hu as [c' Hc' | c' enc' w' Hc' Hu']; subst.
      * apply spans_cons in Hs as [Hcc _]. simplify_eq. lia.
      * apply spans_cons in Hs as [Hcc Hs]. simplify_eq. exists enc', w'. rewrite Hstep, Hp in *.
        simpl in Hlen. split_and!; [done | lia | nia | nia | nia | done].
Qed.

Lemma readSLEB_Ok buf pos v next :
  readSLEB buf pos 32 = Ok (v, next) <-> exists enc, sleb32 enc v /\ spans buf pos next enc.
Proof.
  unfold readSLEB. change (leb_turns 32) with 5%nat. change 0%Z with (Z.of_N 0).
  rewrite read_sleb_Ok by (simpl; lia). unfold sleb32.
  assert (forall w, (Z.of_N 0 + 2 ^ Z.of_N (7 * 0) * w = w)%Z) as Hw by (intros; simpl; lia). split.
  - intros (enc & w & Hu & Hlen & -> & Hfit & Hs). exists enc. rewrite Hw in *. done.
  - intros (enc & (Hu & Hlen & Hfit) & Hs). exists enc, v. by rewrite Hw.
Qed.

(** A signed number of any width: what it spans. *)
Lemma read_sleb_spans buf bits turns i pos value v next :
  read_sleb buf bits turns i pos value = Ok (v, next) ->
  exists enc w, uleb enc w /\ (length enc <= turns)%nat /\ spans buf pos next enc.
Proof.
  revert i pos value. induction turns as [| turns IH]; intros i pos value Hok; [done |].
  cbn [read_sleb] in Hok. destruct (buf !! pos) as [c |] eqn:Hc; [| done].
  destruct (_ && negb (_ =? 127)%N); [done |]. rewrite byte_top in Hok. cbv zeta in Hok.
  destruct (N_of_ascii c <? 128)%N eqn:Hlast; guards.
  - destruct (_ && (_ || _)); [done |]. simplify_eq. exists [c], (N_of_ascii c).
    split_and!; [by constructor | simpl; lia |]. apply spans_cons. split; [done | apply spans_nil].
  - apply IH in Hok as (enc & w & Hu & Hlen & Hs). exists (c :: enc), (N_of_ascii c - 128 + 128 * w)%N.
    split_and!; [by constructor | simpl; lia | by apply spans_cons].
Qed.

(** ** Writing *)

Lemma shr7 v : N.shiftr v 7 = (v / 128)%N.
Proof. by rewrite N.shiftr_div_pow2. Qed.

Lemma group_byte v : N_of_ascii (ascii_of_N (N.lor (v mod 256) 128)) = (v mod 128 + 128)%N.
Proof.
  assert (N.lor (v mod 256) 128 = v mod 128 + 128)%N as ->.
  { assert (v mod 256 = v mod 128 \/ v mod 256 = v mod 128 + 128)%N as H.
    { change 256%N with (128 * 2)%N. rewrite N.Div0.mod_mul_r.
      assert ((v / 128) mod 2 < 2)%N as Hm by (apply N.mod_lt; lia). revert Hm.
      generalize ((v / 128) mod 2)%N (v mod 128)%N. intros m k Hm. lia. }
    assert (v mod 128 < 128)%N by (apply N.mod_lt; lia).
    pose proof (lor_shift (v mod 128) 1 7 ltac:(done)) as Hl. change (N.shiftl 1 7) with 128%N in Hl.
    change (2 ^ 7 * 1)%N with 128%N in Hl.
    destruct H as [-> | ->]; [done |]. rewrite <- Hl. rewrite <- N.lor_assoc. done. }
  apply N_ascii_embedding. assert (v mod 128 < 128)%N by (apply N.mod_lt; lia). lia.
Qed.

Lemma last_byte v : (v < 256)%N -> N_of_ascii (ascii_of_N (v mod 256)) = v.
Proof. intros Hv. rewrite N.mod_small by done. by apply N_ascii_embedding. Qed.

Lemma append_uleb_spec turns v :
  (v < 2 ^ (7 * N.of_nat turns + 7))%N ->
  uleb (append_uleb turns v) v /\ (length (append_uleb turns v) <= S turns)%nat.
Proof.
  revert v. induction turns as [| turns IH]; intros v Hv.
  { change (2 ^ (7 * N.of_nat 0 + 7))%N with 128%N in Hv. cbn [append_uleb]. pose proof (last_byte v ltac:(lia)) as Hb.
    split; [| simpl; lia]. rewrite <- Hb at 2. constructor. by rewrite Hb. }
  cbn [append_uleb]. destruct (128 <=? v)%N eqn:Hbig; guards.
  - destruct (IH (N.shiftr v 7)) as [Hu Hlen].
    { rewrite shr7. apply N.Div0.div_lt_upper_bound.
      replace (7 * N.of_nat (S turns) + 7)%N with (7 + (7 * N.of_nat turns + 7))%N in Hv by lia.
      by rewrite N.pow_add_r in Hv. }
    split; [| simpl; lia]. pose proof (group_byte v) as Hb.
    pose proof (N.div_mod v 128 ltac:(done)) as Hdm. rewrite shr7 in *.
    set (c := ascii_of_N (N.lor (v mod 256) 128)) in *.
    assert (N_of_ascii c - 128 + 128 * (v / 128) = v)%N as Hval.
    { rewrite Hb. revert Hdm. generalize (v / 128)%N (v mod 128)%N. intros; lia. }
    rewrite <- Hval at 2. constructor; [lia | done].
  - pose proof (last_byte v ltac:(lia)) as Hb. split; [| simpl; lia].
    rewrite <- Hb at 2. constructor. by rewrite Hb.
Qed.

(** The bound on the turns is never reached. *)
Lemma append_uleb_more turns v :
  (v < 2 ^ (7 * N.of_nat turns + 7))%N -> append_uleb (S turns) v = append_uleb turns v.
Proof.
  revert v. induction turns as [| turns IH]; intros v Hv.
  { change (2 ^ (7 * N.of_nat 0 + 7))%N with 128%N in Hv. cbn [append_uleb].
    by rewrite (proj2 (N.leb_gt _ _)). }
  cbn [append_uleb]. destruct (128 <=? v)%N; [| done]. f_equal. apply (IH (N.shiftr v 7)).
  rewrite shr7. apply N.Div0.div_lt_upper_bound.
  replace (7 * N.of_nat (S turns) + 7)%N with (7 + (7 * N.of_nat turns + 7))%N in Hv by lia.
  by rewrite N.pow_add_r in Hv.
Qed.

Lemma append_uleb32 v : (v < 2 ^ 32)%N -> uleb32 (append_uleb 5 v) v.
Proof.
  intros Hv. assert (v < 2 ^ (7 * N.of_nat 4 + 7))%N as Hv4 by (simpl; lia).
  rewrite append_uleb_more by done. by destruct (append_uleb_spec 4 v Hv4).
Qed.

Lemma appendULEB_eq dst v : (v < 2 ^ 32)%N -> appendULEB dst v = dst ++ append_uleb 5 v.
Proof. intros Hv. unfold appendULEB. by rewrite u32_id. Qed.

(** No encoding is shorter than the one written. *)
Lemma append_uleb_shortest turns v enc :
  uleb enc v -> (length (append_uleb turns v) <= length enc)%nat.
Proof.
  revert v enc. induction turns as [| turns IH]; intros v enc Hu.
  { apply uleb_nonempty in Hu. destruct enc; [done | simpl; lia]. }
  cbn [append_uleb]. destruct Hu as [c Hc | c enc w Hc Hu].
  - rewrite (proj2 (N.leb_gt _ _)) by done. simpl. lia.
  - pose proof (byte_bound c). destruct (128 <=? _)%N eqn:Hbig; simpl; [| lia].
    rewrite shr7. replace (N_of_ascii c - 128 + 128 * w)%N with (N_of_ascii c - 128 + w * 128)%N by lia.
    rewrite N.div_add, N.div_small by lia. rewrite N.add_0_l. specialize (IH w enc Hu). lia.
Qed.

Lemma spans_middle (pre enc rest : buffer) : spans (pre ++ enc ++ rest) (length pre) (length pre + length enc) enc.
Proof.
  split; [done |]. rewrite drop_app_length. rewrite <- length_app, app_assoc, drop_app_length. done.
Qed.

(** Unsigned numbers survive the binary format.  A 32-bit number appended
    to a buffer is read back from where it was appended, whatever follows, and
    the position after it is returned; no encoding of it is shorter; and what
    [readULEB] accepts anywhere is exactly an encoding of at most five bytes of
    a 32-bit number, which it reads completely. *)
Theorem uleb_roundtrip (dst rest : buffer) (v : N) :
  (v < 2 ^ 32)%N ->
  readULEB (appendULEB dst v ++ rest) (length dst) 32 = Ok (v, length (appendULEB dst v))
  /\ (forall enc, uleb enc v -> (length (appendULEB dst v) <= length dst + length enc)%nat)
  /\ (forall buf pos w next, readULEB buf pos 32 = Ok (w, next) <->
        exists enc, uleb32 enc w /\ spans buf pos next enc).
Proof.
  intros Hv. rewrite !appendULEB_eq by done. split_and!.
  - apply readULEB_Ok. exists (append_uleb 5 v). split; [by apply append_uleb32 |].
    rewrite <- app_assoc, length_app. apply spans_middle.
  - intros enc Hu. rewrite length_app. pose proof (append_uleb_shortest 5 v enc Hu). lia.
  - intros. apply readULEB_Ok.
Qed.

Lemma uleb_roundtrip_witness :
  appendULEB [] 624485 = map ascii_of_N [229; 142; 38]%N
  /\ readULEB (appendULEB [] 624485 ++ [zero]) 0 32 = Ok (624485%N, 3%nat).
Proof.
  split; [vm_compute; reflexivity |]. assert ((624485 < 2 ^ 32)%N) as Hv by done.
  destruct (uleb_roundtrip [] [zero] 624485 Hv) as (H & _). exact H.
Defined.
