(* ===== verification/Cowmem.v ===== *)
(** * Cowmem: the copy-on-write image ([internal/cowmem/cow_linux.go])

    A [linuxCOW] is a memory file that is filled once, sealed, and mapped
    privately by the memories of Guests.  What the operating system answers is a
    parameter of every operation. *)

From S2P Require Import Prelude Errors Effects Leb128.

Definition wasmPageSize : N := 65536.

(** [cowmem.Segment]: one write of the initial memory. *)
Record Segment := mkCowSegment { cow_offset : N; cow_data : buffer }.

(** The bytes of the memory file, and whether it was captured and closed. *)
Record linuxCOW := mkCOW {
  cow_file : buffer;
  cow_imageSize : N;
  cow_closed : bool
}.

Definition fresh_cow : linuxCOW := mkCOW [] 0 false.

Definition Ready (c : linuxCOW) : bool := negb (cow_closed c) && negb (cow_imageSize c =? 0)%N.

(** [fmt.Errorf("...: %w", err)] around the error of a call. *)
Definition annotate {A} (what : string) (r : res error A) : res error A :=
  match r with Ok a => Ok a | Err e => Err (EWrap what e "") end.

(** The file with [data] written at [offset]. *)
Definition write_file (file : buffer) (offset : N) (data : buffer) : buffer :=
  take (N.to_nat offset) file ++ data ++ drop (N.to_nat offset + length data) file.

(** What [ftruncate] makes of a file. *)
Definition resize (size : N) (file : buffer) : buffer :=
  take (N.to_nat size) file ++ replicate (N.to_nat size - length file) zero.

Definition set_file (file : buffer) (c : linuxCOW) : linuxCOW := mkCOW file (cow_imageSize c) (cow_closed c).
Definition set_imageSize (size : N) (c : linuxCOW) : linuxCOW := mkCOW (cow_file c) size (cow_closed c).

Section Capture.
(** The answers of the operating system: [pwrite] tells how many of the bytes it
    was given it took. *)
Variable ftruncate : N -> res error unit.
Variable pwrite : buffer -> Z -> res error N.
Variable add_seals : res error unit.
Variable cowPageSize : N.

(** The loop of [unix.Pwrite]; [fuel] is at least the bytes that are left. *)
Fixpoint write_bytes (what short : string) (fuel : nat) (offset : N) (data : buffer) : M linuxCOW unit :=
  match data with
  | [] => ret tt
  | _ =>
      match fuel with
      | O => fail (EMsg "")
      | S fuel =>
          n <- of_res (annotate what (pwrite data (Z.of_N offset)));;
          reject (n =? 0)%N (EMsg short);;;
          c <- get;;
          put (set_file (write_file (cow_file c) offset (take (N.to_nat n) data)) c);;;
          write_bytes what short fuel (offset + n) (drop (N.to_nat n) data)
      end
  end.

Fixpoint write_segments (size : N) (segments : list Segment) : M linuxCOW unit :=
  match segments with
  | [] => ret tt
  | s :: rest =>
      let len := N.of_nat (length (cow_data s)) in
      reject ((size <? cow_offset s)%N || (sub64 size (cow_offset s) <? len)%N)
        (EMsg "COW seed segment is out of bounds");;;
      write_bytes "write COW seed: " "short write while creating COW seed" (length (cow_data s)) (cow_offset s)
        (cow_data s);;;
      write_segments size rest
  end.

(** The guards of both captures. *)
Definition check_open : M linuxCOW unit :=
  c <- get;;
  reject (cow_closed c) (EMsg "COW image is closed");;;
  reject (negb (cow_imageSize c =? 0)%N) (EMsg "COW image already captured").

Definition truncate_file (size : N) : M linuxCOW unit :=
  of_res (annotate "size COW image: " (ftruncate size));;;
  c <- get;; put (set_file (resize size (cow_file c)) c).

Definition seal_file (what : string) (size : N) : M linuxCOW unit :=
  of_res (annotate what add_seals);;;
  c <- get;; put (set_imageSize size c).

Definition CaptureSegments (size : N) (segments : list Segment) : M linuxCOW unit :=
  reject ((size =? 0)%N || negb (size mod wasmPageSize =? 0)%N || negb (size mod cowPageSize =? 0)%N)
    (EMsg ("COW image size must be page aligned: " +:+ format_uint size));;;
  check_open;;;
  reject (2 ^ 63 - 1 <? size)%N (EMsg "COW image is too large");;;
  truncate_file size;;;
  write_segments size segments;;;
  seal_file "seal COW seed: " size.

Definition captureBytes (data : buffer) : M linuxCOW unit :=
  let size := N.of_nat (length data) in
  reject ((size =? 0)%N || negb (size mod cowPageSize =? 0)%N || negb (size mod wasmPageSize =? 0)%N)
    (EMsg ("COW image size must be Wasm-page aligned: " +:+ format_uint size));;;
  check_open;;;
  truncate_file size;;;
  write_bytes "write COW image: " "short write while creating COW image" (length data) 0 data;;;
  seal_file "seal COW image: " size.
End Capture.

(** [Close]; the descriptor is given up even when closing it fails. *)
Definition close_image (close : res error unit) : M linuxCOW unit :=
  c <- get;;
  if cow_closed c then ret tt
  else put (mkCOW (cow_file c) (cow_imageSize c) true);;; of_res (annotate "close COW image: " close).

(** The checks of [attachBytes] on a memory of a mapping, whose address is that
    of a page. *)
Definition attach_check (c : linuxCOW) (size : N) : res error unit :=
  if cow_closed c then Err (EMsg "COW image is closed")
  else if (cow_imageSize c =? 0)%N || negb (size =? cow_imageSize c)%N
  then Err (EMsg ("COW memory shape changed: got " +:+ format_uint size +:+ ", want " +:+ format_uint (cow_imageSize c)))
  else Ok tt.
