(* ===== verification/CowmemProps.v ===== *)
(** * CowmemProps: what a captured image holds

    Whatever the operating system answers, a capture that succeeds leaves a
    sealed file with exactly the bytes it was given; when the operating system
    does its work, it succeeds. *)

From S2P Require Import Prelude Errors Effects Leb128 Cowmem.

Lemma write_file_length file offset data :
  (offset + N.of_nat (length data) <= N.of_nat (length file))%N ->
  length (write_file file offset data) = length file.
Proof. intros Hle. unfold write_file. rewrite !length_app, length_take, length_drop. lia. Qed.

Lemma write_file_nil file offset : write_file file offset [] = file.
Proof. unfold write_file. simpl. by rewrite Nat.add_0_r, take_drop. Qed.

Lemma write_file_whole file data : length data = length file -> write_file file 0 data = data.
Proof. intros Hlen. unfold write_file. rewrite drop_ge by (rewrite <- Hlen; simpl; lia). simpl. apply app_nil_r. Qed.

Lemma write_file_split file offset n data :
  (offset + N.of_nat (length data) <= N.of_nat (length file))%N -> (n <= N.of_nat (length data))%N ->
  write_file (write_file file offset (take (N.to_nat n) data)) (offset + n) (drop (N.to_nat n) data)
  = write_file file offset data.
Proof.
  intros Hle Hn. unfold write_file. rewrite !length_take, !length_drop.
  set (o := N.to_nat offset). replace (N.to_nat (offset + n)) with (o + N.to_nat n)%nat by lia.
  rewrite !Nat.min_l by lia. set (k := N.to_nat n).
  assert (length (take o file) = o) as Ho by (rewrite length_take; lia).
  assert (length (take k data) = k) as Hk by (rewrite length_take; lia).
  rewrite !(app_assoc (take o file) (take k data)). rewrite (take_app_ge (take o file ++ take k data)).
  2:{ rewrite length_app. lia. }
  rewrite length_app, Ho, Hk. replace (o + k - (o + k))%nat with 0%nat by lia. rewrite take_0, app_nil_r.
  rewrite (drop_app_ge (take o file ++ take k data)) by (rewrite length_app; lia).
  rewrite length_app, Ho, Hk, drop_drop.
  replace (o + k + (o + k + (length data - k) - (o + k)))%nat with (o + length data)%nat by lia.
  rewrite <- !app_assoc. f_equal. rewrite app_assoc. f_equal. apply take_drop.
Qed.

Lemma resize_length size file : length (resize size file) = N.to_nat size.
Proof. unfold resize. rewrite length_app, length_take, length_replicate. lia. Qed.

Lemma resize_fresh size : resize size [] = replicate (N.to_nat size) zero.
Proof. unfold resize. by rewrite take_nil, Nat.sub_0_r. Qed.

(** A write takes at least one byte of those it was given. *)
Definition pwrite_progress (pwrite : buffer -> Z -> res error N) : Prop :=
  forall data offset, data <> [] -> exists n, pwrite data offset = Ok n /\ (1 <= n <= N.of_nat (length data))%N.

Section Capture.
Context (ftruncate : N -> res error unit) (pwrite : buffer -> Z -> res error N) (add_seals : res error unit).
Context (cowPageSize : N).

(** The bytes that a loop has written. *)
Lemma write_bytes_cons what short fuel offset c data s :
  write_bytes pwrite what short (S fuel) offset (c :: data) s
  = match pwrite (c :: data) (Z.of_N offset) with
    | Err e => (Err (EWrap what e ""), s)
    | Ok n =>
        if (n =? 0)%N then (Err (EMsg short), s)
        else write_bytes pwrite what short fuel (offset + n) (drop (N.to_nat n) (c :: data))
               (set_file (write_file (cow_file s) offset (take (N.to_nat n) (c :: data))) s)
    end.
Proof.
  cbn [write_bytes]. unfold bind, of_res, annotate, reject, ret, fail, get, put.
  destruct (pwrite (c :: data) (Z.of_N offset)) as [n | e]; [| done]. by destruct (n =? 0)%N.
Qed.

Lemma write_bytes_Ok what short fuel offset data s s' :
  (offset + N.of_nat (length data) <= N.of_nat (length (cow_file s)))%N ->
  write_bytes pwrite what short fuel offset data s = (Ok tt, s') ->
  s' = set_file (write_file (cow_file s) offset data) s.
Proof.
  revert offset data s. induction fuel as [| fuel IH]; intros offset data s Hle; destruct data as [| c data].
  1,3: intros [= <-]; rewrite write_file_nil; by destruct s.
  { done. }
  rewrite write_bytes_cons. destruct (pwrite (c :: data) (Z.of_N offset)) as [n | e]; [| done].
  destruct (N.eqb_spec n 0); [done |].
  destruct (N.le_gt_cases n (N.of_nat (length (c :: data)))) as [Hn | Hn].
  - intros Hrest. apply IH in Hrest as ->.
    + cbn [cow_file set_file cow_imageSize cow_closed]. unfold set_file. simpl. f_equal. by apply write_file_split.
    + simpl cow_file. rewrite length_drop, write_file_length; [lia |]. rewrite length_take. lia.
  - rewrite take_ge, drop_ge by lia. by destruct fuel; intros [= <-].
Qed.

Lemma write_bytes_all what short fuel offset data s :
  pwrite_progress pwrite -> (length data <= fuel)%nat ->
  (offset + N.of_nat (length data) <= N.of_nat (length (cow_file s)))%N ->
  write_bytes pwrite what short fuel offset data s = (Ok tt, set_file (write_file (cow_file s) offset data) s).
Proof.
  intros Hpw. revert offset data s. induction fuel as [| fuel IH]; intros offset data s Hfuel Hle; destruct data as [| c data].
  1,3: rewrite write_file_nil; by destruct s.
  { simpl in Hfuel. lia. }
  rewrite write_bytes_cons. destruct (Hpw (c :: data) (Z.of_N offset) ltac:(done)) as (n & -> & Hn).
  rewrite (proj2 (N.eqb_neq n 0)) by lia.
  rewrite IH; [| rewrite length_drop; simpl in *; lia |].
  2:{ simpl cow_file. rewrite length_drop, write_file_length; rewrite ?length_take; lia. }
  f_equal. unfold set_file. simpl. f_equal. apply write_file_split; lia.
Qed.

(** The file after a list of segments, and when they fit. *)
Definition written (segments : list Segment) (file : buffer) : buffer :=
  foldl (fun file s => write_file file (cow_offset s) (cow_data s)) file segments.

Definition fits (size : N) (s : Segment) : Prop := (cow_offset s + N.of_nat (length (cow_data s)) <= size)%N.

Lemma segment_guard size s :
  (size < 2 ^ 64)%N ->
  (size <? cow_offset s)%N || (sub64 size (cow_offset s) <? N.of_nat (length (cow_data s)))%N = false <-> fits size s.
Proof.
  intros Hsize. unfold fits. destruct (N.ltb_spec size (cow_offset s)) as [Hlt | Hle]; simpl.
  { split; [done | lia]. }
  rewrite sub64_exact by lia. destruct (N.ltb_spec (size - cow_offset s) (N.of_nat (length (cow_data s)))); split; done || lia.
Qed.

Lemma write_segments_cons size seg segments s :
  write_segments pwrite size (seg :: segments) s
  = if (size <? cow_offset seg)%N || (sub64 size (cow_offset seg) <? N.of_nat (length (cow_data seg)))%N
    then (Err (EMsg "COW seed segment is out of bounds"), s)
    else match write_bytes pwrite "write COW seed: " "short write while creating COW seed" (length (cow_data seg))
                 (cow_offset seg) (cow_data seg) s with
         | (Ok _, s') => write_segments pwrite size segments s'
         | (Err e, s') => (Err e, s')
         end.
Proof.
  cbn [write_segments]. unfold bind, reject, ret, fail.
  destruct ((size <? cow_offset seg)%N || (sub64 size (cow_offset seg) <? N.of_nat (length (cow_data seg)))%N); [done |].
  by destruct (write_bytes _ _ _ _ _ _ s) as [[] ?].
Qed.

Lemma write_segments_Ok size segments s s' :
  (size < 2 ^ 64)%N -> N.of_nat (length (cow_file s)) = size ->
  write_segments pwrite size segments s = (Ok tt, s') ->
  s' = set_file (written segments (cow_file s)) s /\ Forall (fits size) segments.
Proof.
  intros Hsize. revert s. induction segments as [| seg segments IH]; intros s Hlen.
  { intros [= <-]. split; [by destruct s | constructor]. }
  rewrite write_segments_cons. destruct (_ || _) eqn:Hguard; [done |].
  apply segment_guard in Hguard; [| done].
  destruct (write_bytes _ _ _ _ _ _ s) as [[[] | e] s1] eqn:Hw; [| done]. intros Hrest.
  apply write_bytes_Ok in Hw as ->; [| unfold fits in Hguard; lia].
  apply IH in Hrest as [-> Hall]; [by split; [| constructor] |].
  simpl. rewrite write_file_length; [done | unfold fits in Hguard; lia].
Qed.

Lemma write_segments_all size segments s :
  pwrite_progress pwrite -> (size < 2 ^ 64)%N -> N.of_nat (length (cow_file s)) = size ->
  Forall (fits size) segments ->
  write_segments pwrite size segments s = (Ok tt, set_file (written segments (cow_file s)) s).
Proof.
  intros Hpw Hsize Hlen Hall. revert s Hlen. induction Hall as [| seg segments Hfit Hall IH]; intros s Hlen.
  { by destruct s. }
  rewrite write_segments_cons. rewrite (proj2 (segment_guard size seg Hsize) Hfit). unfold fits in Hfit.
  rewrite write_bytes_all by (done || lia). rewrite IH; [done |]. simpl. rewrite write_file_length; lia.
Qed.

Lemma written_length segments size file :
  N.of_nat (length file) = size -> Forall (fits size) segments -> length (written segments file) = length file.
Proof.
  intros Hlen Hall. revert file Hlen. induction Hall as [| seg segments Hfit Hall IH]; intros file Hlen; [done |].
  unfold fits in Hfit. simpl. rewrite IH; rewrite write_file_length; lia.
Qed.

(** ** Captures *)

Definition zero_file (size : N) : buffer := replicate (N.to_nat size) zero.

(** A capture of segments that succeeds, on a fresh image. *)
Lemma CaptureSegments_Ok size segments c :
  CaptureSegments ftruncate pwrite add_seals cowPageSize size segments fresh_cow = (Ok tt, c) ->
  c = mkCOW (written segments (zero_file size)) size false /\ size <> 0%N /\ Forall (fits size) segments.
Proof.
  unfold CaptureSegments, check_open, truncate_file, seal_file, of_res, annotate, reject, bind, ret, fail, get, put.
  destruct (N.eqb_spec size 0); [done |]. simpl. destruct (_ || _); [done |].
  destruct (N.ltb_spec (2 ^ 63 - 1) size); [done |]. destruct (ftruncate size); [cbn | done].
  lazymatch goal with |- context [write_segments _ _ _ ?s] => set (s0 := s) end.
  destruct (write_segments pwrite size segments s0) as [[[] | e] s1] eqn:Hw; [| done].
  destruct add_seals; [| done]. intros [= <-].
  apply write_segments_Ok in Hw as [-> Hall].
  - split_and!; [| done | done]. unfold s0, zero_file. simpl. by rewrite resize_fresh.
  - assert (2 ^ 63 < 2 ^ 64)%N by done. lia.
  - unfold s0. simpl. rewrite resize_length. lia.
Qed.

Lemma captureBytes_Ok data c :
  captureBytes ftruncate pwrite add_seals cowPageSize data fresh_cow = (Ok tt, c) ->
  c = mkCOW data (N.of_nat (length data)) false /\ N.of_nat (length data) <> 0%N.
Proof.
  unfold captureBytes, check_open, truncate_file, seal_file, of_res, annotate, reject, bind, ret, fail, get, put.
  destruct (N.eqb_spec (N.of_nat (length data)) 0); [done |]. simpl. destruct (_ || _); [done |].
  destruct (ftruncate _); [cbn | done].
  lazymatch goal with |- context [write_bytes _ _ _ _ _ _ ?s] => set (s0 := s) end.
  destruct (write_bytes pwrite _ _ _ 0 data s0) as [[[] | e] s1] eqn:Hw; [| done].
  destruct add_seals; [| done]. intros [= <-].
  apply write_bytes_Ok in Hw as ->; [| unfold s0; simpl; rewrite resize_length; lia].
  split; [| done]. unfold s0. simpl. rewrite write_file_whole; [done |]. rewrite resize_length. lia.
Qed.

(** An operating system that does what it is asked. *)
Record os_works : Prop := {
  works_ftruncate size : ftruncate size = Ok tt;
  works_pwrite : pwrite_progress pwrite;
  works_seals : add_seals = Ok tt
}.

Hypothesis Hworks : os_works.

(** A size of whole Wasm pages, whatever the pages of the system. *)
Definition whole_pages (size : N) : Prop :=
  size <> 0%N /\ (size mod wasmPageSize = 0)%N /\ (size mod cowPageSize = 0)%N.

Lemma CaptureSegments_works size segments :
  whole_pages size -> (size < 2 ^ 63)%N -> Forall (fits size) segments ->
  CaptureSegments ftruncate pwrite add_seals cowPageSize size segments fresh_cow
  = (Ok tt, mkCOW (written segments (zero_file size)) size false).
Proof.
  intros (Hne & H1 & H2) Hsize Hall. destruct Hworks as [Htr Hpw Hse].
  unfold CaptureSegments, check_open, truncate_file, seal_file, of_res, annotate, reject, bind, ret, fail, get, put.
  rewrite (proj2 (N.eqb_neq _ _) Hne), H1, H2. simpl. rewrite (proj2 (N.ltb_ge _ _)) by lia.
  rewrite Htr. cbn. lazymatch goal with |- context [write_segments _ _ _ ?s] => set (s0 := s) end.
  rewrite write_segments_all; [| done | | | done].
  - rewrite Hse. unfold s0, zero_file. simpl. by rewrite resize_fresh.
  - assert (2 ^ 63 < 2 ^ 64)%N by done. lia.
  - unfold s0. simpl. rewrite resize_length. lia.
Qed.

Lemma captureBytes_works data :
  whole_pages (N.of_nat (length data)) ->
  captureBytes ftruncate pwrite add_seals cowPageSize data fresh_cow
  = (Ok tt, mkCOW data (N.of_nat (length data)) false).
Proof.
  intros (Hne & H1 & H2). destruct Hworks as [Htr Hpw Hse].
  unfold captureBytes, check_open, truncate_file, seal_file, of_res, annotate, reject, bind, ret, fail, get, put.
  rewrite (proj2 (N.eqb_neq _ _) Hne), H1, H2. simpl. rewrite Htr. cbn.
  lazymatch goal with |- context [write_bytes _ _ _ _ _ _ ?s] => set (s0 := s) end.
  rewrite write_bytes_all; [| done | done | unfold s0; simpl; rewrite resize_length; lia].
  rewrite Hse. unfold s0. simpl. rewrite write_file_whole; [done |]. rewrite resize_length. lia.
Qed.
End Capture.
