(* ===== verification/DataImage.v ===== *)
(** * DataImage: replacement shells of Wasm modules ([cow_data_image.go],
    [cow_data_code.go])

    [transformCOWDataImage] empties the active data segments of a module and
    returns them beside it, so that a replacement Guest maps them from a shared
    copy-on-write image, which [CaptureSegments] of [Cowmem] fills.  [validateDataImageCode]
    walks the functions and refuses the instructions that could see the
    difference.  A loop of the Go code over a count is a recursion on it, a loop
    over a buffer a recursion on fuel that its length always covers.  An error
    is the text of the Go error. *)

From S2P Require Import Prelude Leb128 Cowmem.

Definition wasmPageSizeBytes : N := 65536.

Definition wasmImportSection : N := 2.
Definition wasmMemorySection : N := 5.
Definition wasmStartSection : N := 8.
Definition wasmCodeSection : N := 10.
Definition wasmDataSection : N := 11.

Record cowDataSegment := mkDataSegment {
  sg_index : N;
  sg_offset : N;
  sg_data : buffer
}.

Record cowDataImage := mkDataImage {
  im_shell : buffer;
  im_memorySize : N;
  im_active : list cowDataSegment
}.

(** [fmt.Errorf("%s: %w", what, err)]. *)
Definition wrap {A} (what : string) (r : res string A) : res string A :=
  match r with Ok a => Ok a | Err e => Err (what +:+ ": " +:+ e) end.

Definition segment_error (index : N) (what : string) : string :=
  "data segment " +:+ format_uint index +:+ " " +:+ what.

(** [%x]. *)
Fixpoint format_hex_from (fuel : nat) (n : N) (s : string) : string :=
  let digit := ascii_of_N (if (n mod 16 <? 10)%N then 48 + n mod 16 else 87 + n mod 16) in
  match fuel with
  | O => String digit s
  | S fuel => if (n <? 16)%N then String digit s else format_hex_from fuel (n / 16) (String digit s)
  end.
Definition format_hex (n : N) : string := format_hex_from 16 n "".

Definition byte_at (buf : buffer) (pos : nat) : option N := N_of_ascii <$> buf !! pos.

(** [end := pos + int(length); if end < pos || end > len(buf)]: an [int] has 64
    bits. *)
Definition slice_end (buf : buffer) (pos : nat) (len : N) : option nat :=
  let e := i64 (Z.of_nat pos + Z.of_N len) in
  if (e <? Z.of_nat pos)%Z || (Z.of_nat (length buf) <? e)%Z then None else Some (Z.to_nat e).

(** [buf[pos:end]]. *)
Definition slice (buf : buffer) (pos e : nat) : buffer := take (e - pos) (drop pos buf).

Definition option_or {A} (o : option A) (e : string) : res string A :=
  match o with Some a => Ok a | None => Err e end.

Definition readI32Const (buf : buffer) (pos : nat) : res string (Z * nat) :=
  if bool_decide (byte_at buf pos = Some 65%N) then
    let* (value, next) := readSLEB buf (S pos) 32 in
    if bool_decide (byte_at buf next = Some 11%N) then Ok (value, S next)
    else Err "offset expression is not terminated"
  else Err "offset is not i32.const".

Definition skipName (buf : buffer) (pos : nat) : res string nat :=
  let* (len, next) := readULEB buf pos 32 in
  option_or (slice_end buf next len) "truncated name".

Definition skipLimits (buf : buffer) (pos : nat) : res string nat :=
  let* (flags, next) := readULEB buf pos 32 in
  let* (_, next) := readULEB buf next 32 in
  if N.testbit flags 0 then let* (_, next) := readULEB buf next 32 in Ok next else Ok next.

(** ** The Import section *)

(** The descriptor of an import after its kind: does it import a memory, and
    where it ends. *)
Definition import_desc (payload : buffer) (cursor : nat) (kind : N) : res string (bool * nat) :=
  if (kind =? 0)%N then let* (_, cursor) := readULEB payload cursor 32 in Ok (false, cursor)
  else if (kind =? 1)%N then
    if (length payload <=? cursor)%nat then Err "truncated table type"
    else let* cursor := skipLimits payload (S cursor) in Ok (false, cursor)
  else if (kind =? 2)%N then let* cursor := skipLimits payload cursor in Ok (true, cursor)
  else if (kind =? 3)%N then
    if (length payload <? cursor + 2)%nat then Err "truncated global type" else Ok (false, (cursor + 2)%nat)
  else Err ("unsupported import kind " +:+ format_uint kind).

(** The loop over the imports, counting the imported memories. *)
Fixpoint read_imports (payload : buffer) (count : nat) (i : N) (cursor : nat) (memories : N)
  : res string N :=
  match count with
  | O => Ok memories
  | S count =>
      let* cursor := wrap "import module" (skipName payload cursor) in
      let* cursor := wrap "import name" (skipName payload cursor) in
      match byte_at payload cursor with
      | None => Err "truncated import kind"
      | Some kind =>
          let* (is_memory, cursor) :=
            wrap ("import " +:+ format_uint i) (import_desc payload (S cursor) kind) in
          read_imports payload count (i + 1) cursor (if is_memory then u32 (memories + 1) else memories)
      end
  end.

Definition importedMemories (payload : buffer) (memories : N) : res string N :=
  let* (count, cursor) := wrap "imports" (readULEB payload 0 32) in
  read_imports payload (N.to_nat count) 0 cursor memories.

(** ** The Memory section *)

(** The number of memories and the limits of the only one. *)
Definition readMemories (payload : buffer) : res string (N * option (N * N)) :=
  let* (count, cursor) := wrap "memories" (readULEB payload 0 32) in
  if (count =? 1)%N then
    let* (flags, c) := wrap "memory limits" (readULEB payload cursor 32) in
    let* (min, c2) := wrap "memory minimum" (readULEB payload c 32) in
    if negb (flags =? 1)%N then Err ("unsupported memory limits flags 0x" +:+ format_hex flags)
    else
      let* (max, _) := wrap "memory maximum" (readULEB payload c2 32) in
      Ok (u32 count, Some (u32 min, u32 max))
  else Ok (u32 count, None).

(** ** The Data section *)

(** The length of a data payload, where its bytes start and where they end. *)
Definition segment_payload (payload : buffer) (index : N) (cursor : nat) : res string (N * nat * nat) :=
  let* (len, n) := wrap (segment_error index "payload length") (readULEB payload cursor 32) in
  let* e := option_or (slice_end payload n len) (segment_error index "payload truncated") in
  Ok (len, n, e).

(** An entry of the section: what is written of it, the segment if it is active,
    and where it ends. *)
Definition active_entry (payload : buffer) (index : N) (entryStart cursor : nat) (flags memoryMin : N)
    (haveMemory : bool) : res string (buffer * cowDataSegment * nat) :=
  let* cursor :=
    if (flags =? 2)%N then
      let* (memoryIndex, n) := wrap (segment_error index "memory index") (readULEB payload cursor 32) in
      if negb (memoryIndex =? 0)%N
      then Err (segment_error index ("targets memory " +:+ format_uint memoryIndex))
      else Ok n
    else Ok cursor in
  let* (offset, cursor) := wrap (segment_error index "offset") (readI32Const payload cursor) in
  if (offset <? 0)%Z then Err (segment_error index "has negative offset")
  else if negb haveMemory then Err "active data appears before memory validation"
  else
    let* (len, n, e) := segment_payload payload index cursor in
    if (u64 (memoryMin * wasmPageSizeBytes) <? u64 (Z.to_N offset + len))%N
    then Err (segment_error index "is out of bounds")
    else Ok (appendULEB (slice payload entryStart cursor) 0,
             mkDataSegment index (Z.to_N offset) (slice payload n e), e).

Definition data_entry (payload : buffer) (index : N) (entryStart : nat) (memoryMin : N) (haveMemory : bool)
  : res string (buffer * option cowDataSegment * nat) :=
  let* (flags, cursor) := wrap (segment_error index "flags") (readULEB payload entryStart 32) in
  if (flags =? 0)%N || (flags =? 2)%N then
    let* (out, segment, e) := active_entry payload index entryStart cursor flags memoryMin haveMemory in
    Ok (out, Some segment, e)
  else if negb (flags =? 1)%N then Err (segment_error index ("has unsupported flags " +:+ format_uint flags))
  else
    let* (_, _, e) := segment_payload payload index cursor in
    Ok (slice payload entryStart e, None, e).

Fixpoint data_entries (payload : buffer) (count : nat) (index : N) (cursor : nat) (memoryMin : N)
    (haveMemory : bool) : res string (buffer * list cowDataSegment * nat) :=
  match count with
  | O => Ok ([], [], cursor)
  | S count =>
      let* (out, segment, cursor) := data_entry payload index cursor memoryMin haveMemory in
      let* (outs, segments, cursor) := data_entries payload count (index + 1) cursor memoryMin haveMemory in
      Ok (out ++ outs, option_list segment ++ segments, cursor)
  end.

(** The rewritten section and its active segments.  The flag [activeSeen] of
    the caller is set exactly when one was seen. *)
Definition rewriteDataSection (payload : buffer) (memoryMin : N) (haveMemory : bool)
  : res string (buffer * list cowDataSegment) :=
  let* (count, cursor) := wrap "data count" (readULEB payload 0 32) in
  if (N.of_nat (length payload - cursor) <? count)%N then Err "data count exceeds section size"
  else
    let* (out, active, e) := data_entries payload (N.to_nat count) 0 cursor memoryMin haveMemory in
    if negb (e =? length payload)%nat then Err "trailing bytes in Data section"
    else Ok (take cursor payload ++ out, active).

(** ** The Code section *)

Definition between (lo hi op : N) : bool := (lo <=? op)%N && (op <=? hi)%N.

Definition value_type (t : N) : bool := between 123 127 t || (t =? 112)%N || (t =? 111)%N.

Fixpoint read_locals (body : buffer) (count : nat) (q : nat) : res string nat :=
  match count with
  | O => Ok q
  | S count =>
      match readULEB body q 32 with
      | Err _ => Err "truncated locals"
      | Ok (_, q) =>
          match byte_at body q with
          | None => Err "truncated locals"
          | Some t => if value_type t then read_locals body count (S q) else Err "unsupported local type"
          end
      end
  end.

Section Instruction.
Variable body : buffer.
Variable active : list bool.
Variable fn : N.

Definition in_function {A} (r : res string A) : res string A :=
  wrap ("function " +:+ format_uint fn +:+ " instruction") r.

Definition unsigned (q : nat) : res string (N * nat) := in_function (readULEB body q 32).
Definition signed (q : nat) (bits : N) : res string nat :=
  let* (_, q) := in_function (readSLEB body q bits) in Ok q.
Definition skip (n : N) (q : nat) : res string nat :=
  if (N.of_nat (length body - q) <? n)%N then in_function (Err "truncated instruction")
  else Ok (q + N.to_nat n)%nat.

Fixpoint unsigned_times (count : nat) (q : nat) : res string nat :=
  match count with
  | O => Ok q
  | S count => let* (_, q) := unsigned q in unsigned_times count q
  end.

(** The instructions after [0xfc]. *)
Definition misc_instruction (q : nat) : res string nat :=
  let* (sub, q) := unsigned q in
  if (sub <=? 7)%N then Ok q
  else if (sub =? 8)%N || (sub =? 9)%N then
    let* (index, q) := unsigned q in
    match active !! N.to_nat index with
    | None => Err "data instruction index out of range"
    | Some true =>
        Err ("COW data image rejects instruction " +:+ format_uint sub +:+ " referencing active data segment "
             +:+ format_uint index)
    | Some false => if (sub =? 8)%N then unsigned_times 1 q else Ok q
    end
  else if (sub =? 10)%N || (sub =? 12)%N || (sub =? 14)%N then unsigned_times 2 q
  else if (sub =? 11)%N || (sub =? 13)%N || between 15 17 sub then unsigned_times 1 q
  else Err ("unsupported misc instruction " +:+ format_uint sub).

(** What follows the opcode [op]: where the next instruction starts. *)
Definition instruction (op : N) (q : nat) : res string nat :=
  if (op =? 0)%N || (op =? 1)%N || (op =? 5)%N || (op =? 11)%N || (op =? 15)%N || (op =? 26)%N
     || (op =? 27)%N || (op =? 209)%N || between 69 196 op
  then Ok q
  else if between 2 4 op || (op =? 208)%N then signed q 33
  else if (op =? 12)%N || (op =? 13)%N || (op =? 16)%N || between 32 38 op || (op =? 210)%N
          || (op =? 63)%N || (op =? 64)%N
  then unsigned_times 1 q
  else if (op =? 14)%N then
    let* (n, q) := unsigned q in
    if (N.of_nat (length body - q) <? n)%N then Err "truncated branch table"
    else unsigned_times (S (N.to_nat n)) q
  else if (op =? 17)%N || between 40 62 op then unsigned_times 2 q
  else if (op =? 28)%N then
    let* (n, q) := unsigned q in
    if (N.of_nat (length body - q) <? n)%N then Err "truncated typed select" else skip n q
  else if (op =? 65)%N then signed q 32
  else if (op =? 66)%N then signed q 64
  else if (op =? 67)%N then skip 4 q
  else if (op =? 68)%N then skip 8 q
  else if (op =? 252)%N then misc_instruction q
  else Err ("COW data image does not support opcode 0x" +:+ format_hex op).

(** The loop over the body; [fuel] is one more than the bytes that are left. *)
Fixpoint instructions (fuel : nat) (q : nat) : res string unit :=
  match byte_at body q with
  | None => Ok tt
  | Some op =>
      match fuel with
      | O => Err ""
      | S fuel => let* q := instruction op (S q) in instructions fuel q
      end
  end.
End Instruction.

Fixpoint functions (code : buffer) (active : list bool) (count : nat) (fn : N) (p : nat) : res string nat :=
  match count with
  | O => Ok p
  | S count =>
      let* (size, next) := readULEB code p 32 in
      let* e := option_or (slice_end code next size) "truncated code body" in
      let body := slice code next e in
      let* (locals, q) := readULEB body 0 32 in
      let* q := read_locals body (N.to_nat locals) q in
      let* _ := instructions body active fn (length body) q in
      functions code active count (fn + 1) e
  end.

Definition validateDataImageCode (code : buffer) (active : list bool) : res string unit :=
  let* (count, p) := readULEB code 0 32 in
  let* p := functions code active (N.to_nat count) 0 p in
  if negb (p =? length code)%nat then Err "trailing code bytes" else Ok tt.

(** ** The module *)

(** The variables of [transformCOWDataImage]'s loop.  [x_limits] is the pair of
    [memoryMin] and [memoryMax] once [haveMemory] is set. *)
Record transform := mkTransform {
  x_memoryCount : N;
  x_importedMemoryCount : N;
  x_limits : option (N * N);
  x_dataSeen : bool;
  x_code : option buffer;
  x_dataModes : list bool;
  x_active : list cowDataSegment;
  x_out : buffer
}.

Definition haveMemory (x : transform) : bool := match x_limits x with Some _ => true | None => false end.
Definition memoryMin (x : transform) : N := default 0%N (fst <$> x_limits x).
Definition memoryMax (x : transform) : N := default 0%N (snd <$> x_limits x).
(** [activeSeen] is set by the active segments themselves. *)
Definition activeSeen (x : transform) : bool := negb (bool_decide (length (x_active x) = 0%nat)).

Definition copy_section (bytes : buffer) (x : transform) : transform :=
  mkTransform (x_memoryCount x) (x_importedMemoryCount x) (x_limits x) (x_dataSeen x) (x_code x)
    (x_dataModes x) (x_active x) (x_out x ++ bytes).

(** [dataModes]: which of the [count] segments are active. *)
Definition mark_active (count : N) (segments : list cowDataSegment) : list bool :=
  foldl (fun modes segment => <[N.to_nat (sg_index segment) := true]> modes)
    (replicate (N.to_nat count) false) segments.

(** What the loop does with a section of identity [id] and contents [payload],
    whose bytes in the module are [section]. *)
Definition section_step (x : transform) (id : N) (payload section : buffer) : res string transform :=
  if (id =? wasmImportSection)%N then
    let* memories := importedMemories payload (x_importedMemoryCount x) in
    Ok (copy_section section
          (mkTransform (x_memoryCount x) memories (x_limits x) (x_dataSeen x) (x_code x) (x_dataModes x)
             (x_active x) (x_out x)))
  else if (id =? wasmMemorySection)%N then
    let* (count, limits) := readMemories payload in
    Ok (copy_section section
          (mkTransform count (x_importedMemoryCount x) (match limits with Some _ => limits | None => x_limits x end)
             (x_dataSeen x) (x_code x) (x_dataModes x) (x_active x) (x_out x)))
  else if (id =? wasmCodeSection)%N then
    match x_code x with
    | Some _ => Err "multiple Code sections"
    | None =>
        Ok (copy_section section
              (mkTransform (x_memoryCount x) (x_importedMemoryCount x) (x_limits x) (x_dataSeen x) (Some payload)
                 (x_dataModes x) (x_active x) (x_out x)))
    end
  else if (id =? wasmStartSection)%N then Err "COW data image does not support a start function"
  else if (id =? wasmDataSection)%N then
    if x_dataSeen x then Err "multiple Data sections"
    else
      let* (rewritten, segments) := rewriteDataSection payload (memoryMin x) (haveMemory x) in
      let count := match readULEB payload 0 32 with Ok (count, _) => count | Err _ => 0%N end in
      Ok (mkTransform (x_memoryCount x) (x_importedMemoryCount x) (x_limits x) true (x_code x)
            (mark_active count segments) segments
            (appendULEB (x_out x ++ [ascii_of_N id]) (N.of_nat (length rewritten)) ++ rewritten))
  else Ok (copy_section section x).

(** The loop over the sections; [fuel] is one more than the bytes left. *)
Fixpoint sections (wasm : buffer) (fuel pos : nat) (x : transform) : res string transform :=
  match byte_at wasm pos with
  | None => Ok x
  | Some id =>
      match fuel with
      | O => Err ""
      | S fuel =>
          let* (len, next) := wrap "section length" (readULEB wasm (S pos) 32) in
          let* e := option_or (slice_end wasm next len) "truncated wasm section" in
          let* x := section_step x id (slice wasm next e) (slice wasm pos e) in
          sections wasm fuel e x
      end
  end.

(** The eight bytes of a module of version 1. *)
Definition wasm_header : buffer := map ascii_of_N [0; 97; 115; 109; 1; 0; 0; 0]%N.

Definition transformCOWDataImage (wasm : buffer) : res string cowDataImage :=
  if (length wasm <? 8)%nat || negb (bool_decide (take 8 wasm = wasm_header))
  then Err "COW data image requires a wasm MVP module"
  else
    let* x := sections wasm (length wasm) 8 (mkTransform 0 0 None false None [] [] (take 8 wasm)) in
    let* _ := guard (x_importedMemoryCount x =? 0)%N "COW data image rejects imported memory" in
    let* _ := guard ((x_memoryCount x =? 1)%N && haveMemory x) "COW data image requires one fixed local memory" in
    let* _ := guard (negb (memoryMin x =? 0)%N && (memoryMin x <=? memoryMax x)%N)
                "COW data image requires a nonzero fixed memory minimum" in
    let* _ := guard (x_dataSeen x && activeSeen x) "COW data image requires an active Data segment" in
    let* _ := guard (memoryMin x <=? (2 ^ 64 - 1) / wasmPageSizeBytes)%N "memory size overflows" in
    let* _ := match x_code x with
              | Some code => validateDataImageCode code (x_dataModes x)
              | None => Ok tt
              end in
    Ok (mkDataImage (x_out x) (u64 (memoryMin x * wasmPageSizeBytes)) (x_active x)).

(** The segments as [prepare] hands them to [CaptureSegments]. *)
Definition seed_segment (s : cowDataSegment) : Segment := mkCowSegment (sg_offset s) (sg_data s).
