(* ===== verification/DataImageSpec.v ===== *)
(** * DataImageSpec: the Wasm binary format as far as the transformation reads it

    Modules, data sections and function bodies as relations between a structure
    and its bytes, from the definition of the format, and what instantiating the
    data segments of a module does to its memory.  The lemmas show that what
    [DataImage] accepts has this form. *)

From S2P Require Import Prelude Leb128 Cowmem DataImage.

(** ** Data sections *)

(** A segment: its bytes up to its length (flags, memory index, offset), its
    offset if it is active, its data. *)
Record segment := mkSegment {
  g_head : buffer;
  g_target : option N;
  g_data : buffer
}.

Definition const_expr (e : buffer) (offset : N) : Prop :=
  exists enc z, e = ascii_of_N 65 :: enc ++ [ascii_of_N 11] /\ sleb32 enc z /\ (0 <= z)%Z /\ offset = Z.to_N z.

Inductive segment_head : buffer -> option N -> Prop :=
| head_passive f : uleb32 f 1 -> segment_head f None
| head_active f e offset : uleb32 f 0 -> const_expr e offset -> segment_head (f ++ e) (Some offset)
| head_indexed f m e offset :
    uleb32 f 2 -> uleb32 m 0 -> const_expr e offset -> segment_head (f ++ m ++ e) (Some offset).

Definition entry_bytes (s : segment) (bytes : buffer) : Prop :=
  segment_head (g_head s) (g_target s)
  /\ exists l, uleb32 l (N.of_nat (length (g_data s))) /\ bytes = g_head s ++ l ++ g_data s.

Definition data_section (segs : list segment) (payload : buffer) : Prop :=
  exists c bytes, uleb32 c (N.of_nat (length segs)) /\ Forall2 entry_bytes segs bytes
                  /\ payload = c ++ concat bytes.

(** An active segment without its data. *)
Definition strip (s : segment) : segment :=
  match g_target s with
  | Some _ => mkSegment (g_head s) (g_target s) []
  | None => s
  end.

(** The active segments, as the image keeps them. *)
Fixpoint actives (index : N) (segs : list segment) : list cowDataSegment :=
  match segs with
  | [] => []
  | s :: rest =>
      option_list ((fun offset => mkDataSegment index offset (g_data s)) <$> g_target s)
      ++ actives (index + 1) rest
  end.

(** An active segment lies in a memory of [pages] pages. *)
Definition in_memory (pages : N) (s : segment) : Prop :=
  match g_target s with
  | Some offset => (offset + N.of_nat (length (g_data s)) <= pages * wasmPageSizeBytes)%N
  | None => True
  end.

(** Instantiation: the active segments are copied in order; one that does not
    fit traps. *)
Fixpoint instantiate (segs : list segment) (mem : buffer) : option buffer :=
  match segs with
  | [] => Some mem
  | s :: rest =>
      match g_target s with
      | None => instantiate rest mem
      | Some offset =>
          if (offset + N.of_nat (length (g_data s)) <=? N.of_nat (length mem))%N
          then instantiate rest (write_file mem offset (g_data s))
          else None
      end
  end.

(** ** Modules *)

Definition section_bytes (s : N * buffer) (bytes : buffer) : Prop :=
  exists l, (s.1 < 256)%N /\ uleb32 l (N.of_nat (length s.2)) /\ bytes = ascii_of_N s.1 :: l ++ s.2.

Definition module_bytes (secs : list (N * buffer)) (wasm : buffer) : Prop :=
  exists bytes, Forall2 section_bytes secs bytes /\ wasm = wasm_header ++ concat bytes.

(** ** Slices *)

Lemma wrap_Ok {A} what (r : res string A) a : wrap what r = Ok a <-> r = Ok a.
Proof. by destruct r. Qed.

Lemma option_or_Ok {A} (o : option A) e a : option_or o e = Ok a <-> o = Some a.
Proof. destruct o; simpl; split; congruence. Qed.

Lemma slice_end_Some buf pos len e :
  (N.of_nat (length buf) < 2 ^ 62)%N -> (pos <= length buf)%nat -> (len < 2 ^ 32)%N ->
  slice_end buf pos len = Some e <-> (e = pos + N.to_nat len)%nat /\ (e <= length buf)%nat.
Proof.
  intros Hbuf Hpos Hlen. unfold slice_end. rewrite i64_id by lia.
  destruct (_ <? Z.of_nat pos)%Z eqn:Hlt; guards; [lia |].
  destruct (Z.of_nat (length buf) <? _)%Z eqn:Hgt; guards; simpl.
  - split; [done |]. intros [-> ?]. lia.
  - split; [intros [= <-]; lia | intros [-> ?]; f_equal; lia].
Qed.

Lemma byte_at_Some buf pos b : byte_at buf pos = Some b -> (b < 256)%N /\ buf !! pos = Some (ascii_of_N b).
Proof.
  unfold byte_at. rewrite fmap_Some. intros (c & Hc & ->). rewrite ascii_N_embedding.
  split; [apply byte_bound | done].
Qed.

(** Reading a length and the bytes it announces. *)
Lemma uleb32_bound enc v : uleb32 enc v -> (v < 2 ^ 32)%N /\ enc <> [].
Proof. intros (Hu & _ & Hv). split; [done | by apply uleb_nonempty in Hu]. Qed.

Lemma counted_slice buf pos len next e :
  (N.of_nat (length buf) < 2 ^ 62)%N ->
  readULEB buf pos 32 = Ok (len, next) -> slice_end buf next len = Some e ->
  exists l, uleb32 l (N.of_nat (length (slice buf next e))) /\ len = N.of_nat (length (slice buf next e))
            /\ spans buf pos next l /\ spans buf next e (slice buf next e) /\ spans buf pos e (l ++ slice buf next e).
Proof.
  intros Hbuf (l & Hl & Hs)%readULEB_Ok He. destruct (uleb32_bound _ _ Hl) as [Hlen Hne].
  pose proof (spans_bound _ _ _ _ Hne Hs) as Hnext.
  apply slice_end_Some in He as [-> Hle]; [| done | done | done].
  pose proof (spans_slice buf next (next + N.to_nat len) ltac:(lia) Hle) as Hd. fold (slice buf next (next + N.to_nat len)) in Hd.
  assert (N.of_nat (length (slice buf next (next + N.to_nat len))) = len) as Hlen'.
  { unfold slice. rewrite length_take, length_drop. lia. }
  exists l. rewrite Hlen'. split_and!; try done. by eapply spans_app.
Qed.

Lemma spans_prefix_slice buf pos next enc : spans buf pos next enc -> slice buf pos next = enc.
Proof.
  intros [-> Hd]. unfold slice. rewrite Hd. replace (pos + length enc - pos)%nat with (length enc) by lia.
  apply take_app_length.
Qed.

(** ** Data entries *)

Lemma readI32Const_Ok buf pos z next :
  readI32Const buf pos = Ok (z, next) -> (0 <= z)%Z ->
  exists e, const_expr e (Z.to_N z) /\ spans buf pos next e.
Proof.
  unfold readI32Const. intros Hok Hz. destruct (bool_decide _) eqn:Hop; [| done]. guards.
  apply byte_at_Some in Hop as [_ Hop].
  destruct (readSLEB buf (S pos) 32) as [[v n] |] eqn:Hr; [| done]. simpl in Hok.
  destruct (bool_decide (byte_at buf n = _)) eqn:Hend; [| done]. guards. simplify_eq.
  apply byte_at_Some in Hend as [_ Hend]. apply readSLEB_Ok in Hr as (enc & Henc & Hs).
  exists (ascii_of_N 65 :: enc ++ [ascii_of_N 11]). split; [by exists enc, z |].
  apply spans_cons. split; [done |]. eapply spans_app; [done |]. apply spans_cons. split; [done | apply spans_nil].
Qed.

Lemma segment_payload_Ok payload index cursor len n e :
  (N.of_nat (length payload) < 2 ^ 62)%N ->
  segment_payload payload index cursor = Ok (len, n, e) ->
  exists l, uleb32 l (N.of_nat (length (slice payload n e))) /\ len = N.of_nat (length (slice payload n e))
            /\ spans payload cursor e (l ++ slice payload n e).
Proof.
  unfold segment_payload. intros Hbuf Hok.
  apply res_bind_Ok in Hok as ([len' n'] & Hr%wrap_Ok & Hok).
  apply res_bind_Ok in Hok as (e' & He%option_or_Ok & Hok). simplify_eq.
  destruct (counted_slice _ _ _ _ _ Hbuf Hr He) as (l & Hl & Hlen & _ & _ & Hs). eauto.
Qed.

Lemma zero_length : uleb32 (append_uleb 5 0) 0.
Proof. by apply append_uleb32. Qed.

(** What an entry of the data section becomes. *)
Definition rewritten_entry (s : segment) (index : N) (out : buffer) (seg : option cowDataSegment) : Prop :=
  entry_bytes (strip s) out
  /\ seg = ((fun offset => mkDataSegment index offset (g_data s)) <$> g_target s).

(** The head of an active entry. *)
Lemma active_head payload index entryStart cursor flags fe :
  uleb32 fe flags -> spans payload entryStart cursor fe -> flags = 0%N \/ flags = 2%N ->
  forall cursor' offset next,
  (if (flags =? 2)%N then
     let* (memoryIndex, n) := wrap (segment_error index "memory index") (readULEB payload cursor 32) in
     if negb (memoryIndex =? 0)%N
     then Err (segment_error index ("targets memory " +:+ format_uint memoryIndex))
     else Ok n
   else Ok cursor) = Ok cursor' ->
  readI32Const payload cursor' = Ok (offset, next) -> (0 <= offset)%Z ->
  exists head, segment_head head (Some (Z.to_N offset)) /\ spans payload entryStart next head.
Proof.
  intros Hf Hs Hflags cursor' offset next Hm Hc Hpos.
  destruct (readI32Const_Ok _ _ _ _ Hc Hpos) as (e & He & Hse). destruct Hflags as [-> | ->].
  - simpl in Hm. simplify_eq. exists (fe ++ e). split; [by constructor | by eapply spans_app].
  - simpl in Hm. apply res_bind_Ok in Hm as ([mi n] & Hr%wrap_Ok & Hm).
    destruct (negb (mi =? 0)%N) eqn:Hz; [done |]. guards. subst mi. simplify_eq.
    apply readULEB_Ok in Hr as (m & Hmi & Hsm). exists (fe ++ m ++ e).
    split; [by constructor |]. eapply spans_app; [done |]. by eapply spans_app.
Qed.

Lemma data_entry_Ok payload index start pages have out seg e :
  (N.of_nat (length payload) < 2 ^ 62)%N -> (pages < 2 ^ 32)%N ->
  data_entry payload index start pages have = Ok (out, seg, e) ->
  exists s bytes, entry_bytes s bytes /\ spans payload start e bytes /\ (length out <= length bytes)%nat
    /\ rewritten_entry s index out seg /\ in_memory pages s /\ (g_target s <> None -> have = true).
Proof.
  intros Hbuf Hpages Hok. unfold data_entry in Hok.
  apply res_bind_Ok in Hok as ([flags cursor] & Hr%wrap_Ok & Hok).
  apply readULEB_Ok in Hr as (fe & Hf & Hsf).
  destruct ((flags =? 0)%N || (flags =? 2)%N) eqn:Hact.
  - apply res_bind_Ok in Hok as ([[out' s'] e'] & Hentry & Hok). simplify_eq. unfold active_entry in Hentry.
    apply res_bind_Ok in Hentry as (cursor' & Hm & Hentry).
    apply res_bind_Ok in Hentry as ([offset next] & Hc%wrap_Ok & Hentry).
    destruct (offset <? 0)%Z eqn:Hneg; [done |]. guards. destruct have; [| done]. simpl in Hentry.
    apply res_bind_Ok in Hentry as ([[len n] e'] & Hp & Hentry).
    destruct (_ <? u64 (Z.to_N offset + len))%N eqn:Hbound; [done |]. simplify_eq. guards.
    assert (flags = 0 \/ flags = 2)%N as Hflags.
    { apply orb_prop in Hact as [H | H]; guards; auto. }
    destruct (active_head _ _ _ _ _ _ Hf Hsf Hflags _ _ _ Hm Hc Hneg) as (head & Hhead & Hsh).
    destruct (segment_payload_Ok _ _ _ _ _ _ Hbuf Hp) as (l & Hl & -> & Hsl).
    exists (mkSegment head (Some (Z.to_N offset)) (slice payload n e)), (head ++ l ++ slice payload n e).
    rewrite (spans_prefix_slice _ _ _ _ Hsh), appendULEB_eq in * by done.
    split_and!; try done.
    + split; [done |]. by exists l.
    + by eapply spans_app.
    + rewrite !length_app. apply uleb32_bound in Hl as [_ Hne]. change (length (append_uleb 5 0)) with 1%nat.
      destruct l; [done | simpl; lia].
    + split; [| done]. split; [done |]. exists (append_uleb 5 0). split; [apply zero_length |].
      done.
    + unfold in_memory. simpl. destruct (uleb32_bound _ _ Hl) as [Hlen _].
      assert (offset < 2 ^ 31)%Z.
      { unfold readI32Const in Hc. destruct (bool_decide _); [| done].
        apply res_bind_Ok in Hc as ([v q] & Hv & Hc). destruct (bool_decide _); [| done]. simplify_eq.
        apply readSLEB_Ok in Hv as (enc & (_ & _ & Hv) & _). lia. }
      unfold wasmPageSizeBytes in *. rewrite !u64_id in Hbound by lia. lia.
  - destruct (negb (flags =? 1)%N) eqn:Hone; [done |]. guards. subst flags.
    apply res_bind_Ok in Hok as ([[len n] e'] & Hp & Hok). simplify_eq.
    destruct (segment_payload_Ok _ _ _ _ _ _ Hbuf Hp) as (l & Hl & -> & Hsl).
    assert (spans payload start e (fe ++ l ++ slice payload n e)) as Hs by (by eapply spans_app).
    exists (mkSegment fe None (slice payload n e)), (fe ++ l ++ slice payload n e).
    rewrite (spans_prefix_slice _ _ _ _ Hs).
    assert (entry_bytes (mkSegment fe None (slice payload n e)) (fe ++ l ++ slice payload n e)) as He.
    { split; [by constructor |]. by exists l. }
    by split_and!.
Qed.

Lemma actives_length segs index : (length (actives index segs) <= length segs)%nat.
Proof.
  revert index. induction segs as [| s segs IH]; intros index; [done |]. simpl. rewrite length_app.
  specialize (IH (index + 1)%N). destruct (g_target s); simpl; lia.
Qed.

Lemma data_entries_Ok payload count index cursor pages have outs active e :
  (N.of_nat (length payload) < 2 ^ 62)%N -> (pages < 2 ^ 32)%N ->
  data_entries payload count index cursor pages have = Ok (outs, active, e) ->
  exists segs bytes out, length segs = count /\ Forall2 entry_bytes segs bytes
    /\ spans payload cursor e (concat bytes)
    /\ Forall2 entry_bytes (map strip segs) out /\ outs = concat out /\ (length outs <= length (concat bytes))%nat
    /\ active = actives index segs /\ Forall (in_memory pages) segs
    /\ (active <> [] -> have = true).
Proof.
  intros Hbuf Hpages. revert index cursor outs active. induction count as [| count IH]; intros index cursor outs active Hok.
  { simpl in Hok. simplify_eq. exists [], [], []. split_and!; try constructor; try done; apply spans_nil. }
  cbn [data_entries] in Hok. apply res_bind_Ok in Hok as ([[out seg] cursor'] & Hd & Hok).
  apply res_bind_Ok in Hok as ([[outs' active'] e'] & Hds & Hok). simplify_eq.
  apply data_entry_Ok in Hd as (s & b & Hb & Hs & Hlen & [Hout ->] & Hin & Hhave); [| done | done].
  destruct (IH _ _ _ _ Hds) as (segs & bytes & out' & Hcount & Hbs & Hss & Houts & -> & Hlens & -> & Hins & Hhaves).
  exists (s :: segs), (b :: bytes), (out :: out'). split_and!.
  - simpl. by rewrite Hcount.
  - by constructor.
  - simpl. by eapply spans_app.
  - by constructor.
  - done.
  - simpl. rewrite !length_app. lia.
  - done.
  - by constructor.
  - intros Hne. destruct (g_target s); [by apply Hhave | by apply Hhaves].
Qed.

(** The rewritten section: the same section, its active segments emptied. *)
Lemma rewriteDataSection_Ok payload pages have out active :
  (N.of_nat (length payload) < 2 ^ 32)%N -> (pages < 2 ^ 32)%N ->
  rewriteDataSection payload pages have = Ok (out, active) ->
  exists segs c, data_section segs payload /\ data_section (map strip segs) out
    /\ readULEB payload 0 32 = Ok (N.of_nat (length segs), c)
    /\ (length out <= length payload)%nat /\ active = actives 0 segs /\ Forall (in_memory pages) segs
    /\ (active <> [] -> have = true).
Proof.
  intros Hbuf Hpages Hok. unfold rewriteDataSection in Hok.
  apply res_bind_Ok in Hok as ([count cursor] & Hr%wrap_Ok & Hok).
  destruct (_ <? count)%N eqn:Hcount; [done |].
  apply res_bind_Ok in Hok as ([[outs active'] e] & Hd & Hok).
  destruct (negb (e =? length payload)%nat) eqn:Hend; [done |]. apply negb_false_iff, Nat.eqb_eq in Hend. simplify_eq.
  apply data_entries_Ok in Hd
    as (segs & bytes & out & Hlen & Hbs & Hs & Houts & -> & Hle & -> & Hin & Hhave); [| lia | done].
  assert (count = N.of_nat (length segs)) as -> by lia.
  pose proof Hr as Hr'. apply readULEB_Ok in Hr as (c & Hc & Hsc).
  assert (payload = c ++ concat bytes) as Hpayload.
  { destruct (spans_app _ _ _ _ _ _ Hsc Hs) as [_ Hp]. rewrite (drop_ge payload (length payload)), app_nil_r in Hp by lia. by rewrite drop_0 in Hp. }
  assert (take cursor payload = c) as Htake.
  { destruct Hsc as [-> _]. rewrite Hpayload at 1. simpl. apply take_app_length. }
  exists segs, cursor. split_and!; try done.
  - by exists c, bytes.
  - exists c, out. rewrite length_map, Htake. done.
  - rewrite Htake. rewrite Hpayload, !length_app. lia.
Qed.

(** ** The loop over the sections *)

(** The loop as a walk over the sections it cuts the module into. *)
Fixpoint walk (x : transform) (secs : list (N * buffer)) (bytes : list buffer) : res string transform :=
  match secs, bytes with
  | s :: secs, b :: bytes => let* x := section_step x s.1 s.2 b in walk x secs bytes
  | _, _ => Ok x
  end.

Lemma sections_Ok wasm fuel pos x x' :
  (N.of_nat (length wasm) < 2 ^ 62)%N -> (pos <= length wasm)%nat ->
  sections wasm fuel pos x = Ok x' ->
  exists secs bytes, Forall2 section_bytes secs bytes /\ spans wasm pos (length wasm) (concat bytes)
    /\ walk x secs bytes = Ok x'.
Proof.
  intros Hbuf. revert pos x. induction fuel as [| fuel IH]; intros pos x Hpos Hok; cbn [sections] in Hok.
  all: destruct (byte_at wasm pos) as [id |] eqn:Hid; try done.
  2:{ apply byte_at_Some in Hid as [Hid Hc].
      apply res_bind_Ok in Hok as ([len next] & Hr%wrap_Ok & Hok).
      apply res_bind_Ok in Hok as (e & He%option_or_Ok & Hok).
      apply res_bind_Ok in Hok as (x1 & Hstep & Hok).
      destruct (counted_slice _ _ _ _ _ Hbuf Hr He) as (l & Hl & _ & _ & Hsp & Hs).
      assert (e <= length wasm)%nat as Hle.
      { eapply spans_bound; [| exact Hs]. apply uleb32_bound in Hl as [_ Hne]. by destruct l. }
      destruct (IH e x1 Hle Hok) as (secs & bytes & Hbs & Hss & Hw).
      assert (spans wasm pos e (ascii_of_N id :: l ++ slice wasm next e)) as Hsec by (by apply spans_cons).
      exists ((id, slice wasm next e) :: secs), ((ascii_of_N id :: l ++ slice wasm next e) :: bytes). split_and!.
      - constructor; [by exists l | done].
      - simpl. rewrite app_comm_cons. by eapply spans_app.
      - simpl. rewrite <- (spans_prefix_slice _ _ _ _ Hsec) at 1. by rewrite Hstep. }
  all: simplify_eq; exists [], []; split_and!; [constructor | | done]; simpl.
  all: assert (pos = length wasm) as -> by (unfold byte_at in Hid; apply fmap_None, lookup_ge_None in Hid; lia);
    apply spans_nil.
Qed.

(** The limits of the last memory section that has one memory. *)
Definition limits_step (l : option (N * N)) (s : N * buffer) : option (N * N) :=
  if (s.1 =? wasmMemorySection)%N then
    match readMemories s.2 with Ok (_, Some limits) => Some limits | _ => l end
  else l.
Definition memory_limits (secs : list (N * buffer)) : option (N * N) := foldl limits_step None secs.

Definition pages_of (l : option (N * N)) : N := default 0%N (fst <$> l).

(** The sections of an identity. *)
Definition of_id (id : N) (secs : list (N * buffer)) : list buffer := snd <$> filter (fun s => s.1 = id) secs.

(** The Data section that was read and what it became. *)
Record data_rewritten (pre : list (N * buffer)) (payload out : buffer) (segs : list segment)
    (x : transform) : Prop := {
  dr_read : data_section segs payload;
  dr_written : data_section (map strip segs) out;
  dr_active : x_active x = actives 0 segs;
  dr_modes : x_dataModes x = mark_active (N.of_nat (length segs)) (actives 0 segs);
  dr_bounds : Forall (in_memory (pages_of (memory_limits pre))) segs;
  dr_memory : actives 0 segs <> [] -> memory_limits pre <> None
}.

(** What the loop has established once it passed the sections [secs] and wrote
    [written]. *)
Record walk_inv (x : transform) (secs written : list (N * buffer)) : Prop := {
  wi_out : exists bytes, Forall2 section_bytes written bytes /\ x_out x = wasm_header ++ concat bytes;
  wi_start : of_id wasmStartSection secs = [];
  wi_limits : x_limits x = memory_limits secs;
  wi_code : x_code x = head (of_id wasmCodeSection secs) /\ (length (of_id wasmCodeSection secs) <= 1)%nat;
  wi_data :
    if x_dataSeen x then
      exists pre payload out post segs,
        secs = pre ++ (wasmDataSection, payload) :: post /\ written = pre ++ (wasmDataSection, out) :: post
        /\ of_id wasmDataSection pre = [] /\ of_id wasmDataSection post = []
        /\ data_rewritten pre payload out segs x
    else written = secs /\ of_id wasmDataSection secs = [] /\ x_active x = [] /\ x_dataModes x = []
}.

Lemma of_id_snoc id secs s :
  of_id id (secs ++ [s]) = of_id id secs ++ (if decide (s.1 = id) then [s.2] else []).
Proof.
  unfold of_id. rewrite list.filter_app, fmap_app. f_equal. rewrite filter_cons, filter_nil.
  by destruct (decide (s.1 = id)).
Qed.

Lemma memory_limits_snoc secs s : memory_limits (secs ++ [s]) = limits_step (memory_limits secs) s.
Proof. unfold memory_limits. by rewrite foldl_app. Qed.

Lemma readMemories_bound payload count limits :
  readMemories payload = Ok (count, limits) -> (pages_of limits < 2 ^ 32)%N.
Proof.
  unfold readMemories. intros Hok. apply res_bind_Ok in Hok as ([c p] & _ & Hok).
  destruct (c =? 1)%N; [| by simplify_eq].
  apply res_bind_Ok in Hok as ([? ?] & _ & Hok). apply res_bind_Ok in Hok as ([? ?] & _ & Hok).
  destruct (negb _); [done |]. apply res_bind_Ok in Hok as ([? ?] & _ & Hok). simplify_eq. simpl.
  unfold u32. apply N.mod_lt. lia.
Qed.

Lemma memory_limits_bound secs : (pages_of (memory_limits secs) < 2 ^ 32)%N.
Proof.
  induction secs as [| s secs IH] using rev_ind; [done |]. rewrite memory_limits_snoc. unfold limits_step.
  destruct (_ =? _)%N; [| done]. destruct (readMemories s.2) as [[c [limits |]] |] eqn:Hr; try done.
  by apply readMemories_bound in Hr.
Qed.

(** A section that is copied: [x1] is [x] with what the section told. *)
Lemma copied_inv x x1 secs written s b :
  walk_inv x secs written -> section_bytes s b ->
  s.1 <> wasmStartSection -> s.1 <> wasmDataSection ->
  x_out x1 = x_out x -> x_dataSeen x1 = x_dataSeen x -> x_active x1 = x_active x ->
  x_dataModes x1 = x_dataModes x ->
  x_limits x1 = limits_step (x_limits x) s ->
  x_code x1 = (if decide (s.1 = wasmCodeSection) then Some s.2 else x_code x) ->
  (s.1 = wasmCodeSection -> x_code x = None) ->
  walk_inv (copy_section b x1) (secs ++ [s]) (written ++ [s]).
Proof.
  intros [Hout Hstart Hlim [Hcode Hone] Hdata] Hs Hns Hnd E1 E2 E3 E4 E5 E6 Hfirst. split; simpl.
  - destruct Hout as (bytes & Hbytes & Hx). exists (bytes ++ [b]). split.
    + apply Forall2_app; [done |]. by constructor.
    + rewrite E1, Hx, concat_app. simpl. by rewrite app_nil_r.
  - rewrite of_id_snoc, Hstart. by rewrite decide_False.
  - by rewrite memory_limits_snoc, E5, Hlim.
  - rewrite of_id_snoc, E6. destruct (decide (s.1 = wasmCodeSection)) as [Hc |].
    + specialize (Hfirst Hc). rewrite Hcode in Hfirst. destruct (of_id wasmCodeSection secs); [done | done].
    + by rewrite app_nil_r.
  - rewrite E2. destruct (x_dataSeen x).
    + destruct Hdata as (pre & payload & out & post & segs & -> & -> & Hp & Hq & Hdr).
      exists pre, payload, out, (post ++ [s]), segs. rewrite <- !app_assoc. split_and!; try done.
      * rewrite of_id_snoc, Hq. by rewrite decide_False.
      * destruct Hdr. split; simpl; rewrite ?E3, ?E4; done.
    + destruct Hdata as (-> & Hno & Ha & Hm). split_and!; [done | | congruence | congruence].
      rewrite of_id_snoc, Hno. by rewrite decide_False.
Qed.

Lemma section_step_inv x secs written id payload b x' :
  walk_inv x secs written -> section_bytes (id, payload) b ->
  section_step x id payload b = Ok x' ->
  exists w, walk_inv x' (secs ++ [(id, payload)]) (written ++ [w]).
Proof.
  intros Hinv Hs Hstep. unfold section_step in Hstep.
  destruct (id =? wasmImportSection)%N eqn:Hi; guards.
  { apply res_bind_Ok in Hstep as (m & _ & Hstep). simplify_eq. exists (wasmImportSection, payload).
    by eapply copied_inv. }
  destruct (id =? wasmMemorySection)%N eqn:Hm; guards.
  { apply res_bind_Ok in Hstep as ([count limits] & Hr & Hstep). simplify_eq. exists (wasmMemorySection, payload).
    eapply copied_inv; try done. unfold limits_step. simpl. rewrite Hr. by destruct limits. }
  destruct (id =? wasmCodeSection)%N eqn:Hc; guards.
  { destruct (x_code x) eqn:Hcode; [done |]. simplify_eq. exists (wasmCodeSection, payload).
    by eapply copied_inv. }
  destruct (id =? wasmStartSection)%N eqn:Hst; guards; [done |].
  assert (limits_step (x_limits x) (id, payload) = x_limits x) as Hlim.
  { unfold limits_step. simpl. by rewrite (proj2 (N.eqb_neq _ _)). }
  destruct (id =? wasmDataSection)%N eqn:Hd; guards.
  2:{ simplify_eq. exists (id, payload). eapply copied_inv; try done. simpl. by rewrite decide_False. }
  subst id. destruct (x_dataSeen x) eqn:Hseen; [done |].
  apply res_bind_Ok in Hstep as ([out active] & Hrw & Hstep).
  destruct Hinv as [Hout Hstart Hlims [Hcode Hone] Hdata]. rewrite Hseen in Hdata.
  destruct Hdata as (-> & Hno & _ & _). destruct Hs as (l & _ & Hl & Hb). apply uleb32_bound in Hl as [Hlen _].
  assert (memoryMin x = pages_of (memory_limits secs)) as Hpages by (unfold memoryMin, pages_of; by rewrite Hlims).
  rewrite Hpages in Hrw.
  apply rewriteDataSection_Ok in Hrw
    as (segs & c & Hread & Hwritten & Hcount & Hle & -> & Hin & Hhave); [| done | apply memory_limits_bound].
  rewrite Hcount in Hstep. simplify_eq. simpl in Hlen. exists (wasmDataSection, out). split; simpl.
  - destruct Hout as (bytes & Hbytes & Hx). exists (bytes ++ [ascii_of_N wasmDataSection :: append_uleb 5 (N.of_nat (length out)) ++ out]).
    split.
    + apply Forall2_app; [done |]. constructor; [| done]. eexists. split_and!; [done | | done].
      apply append_uleb32. simpl. lia.
    + rewrite appendULEB_eq by lia. rewrite Hx, concat_app. cbn [concat]. rewrite app_nil_r, <- !app_assoc. reflexivity.
  - rewrite of_id_snoc, Hstart. done.
  - by rewrite memory_limits_snoc, <- Hlims.
  - rewrite of_id_snoc. by rewrite app_nil_r.
  - exists secs, payload, out, [], segs. split_and!; try done. split; try done.
    intros Hne. specialize (Hhave Hne). unfold haveMemory in Hhave. rewrite Hlims in Hhave.
    by destruct (memory_limits secs).
Qed.

Lemma walk_keeps_inv x secs written rest bytes x' :
  walk_inv x secs written -> Forall2 section_bytes rest bytes -> walk x rest bytes = Ok x' ->
  exists written', walk_inv x' (secs ++ rest) written'.
Proof.
  intros Hinv Hb. revert x secs written Hinv. induction Hb as [| s b rest bytes Hs Hb IH]; intros x secs written Hinv Hw.
  { simpl in Hw. simplify_eq. exists written. by rewrite app_nil_r. }
  cbn [walk] in Hw. apply res_bind_Ok in Hw as (x1 & Hstep & Hw). destruct s as [id payload].
  destruct (section_step_inv _ _ _ _ _ _ _ Hinv Hs Hstep) as [w Hinv1].
  destruct (IH _ _ _ Hinv1 Hw) as [written' H]. exists written'. by rewrite <- app_assoc in H.
Qed.
(** ** The format is unambiguous *)

Lemma uleb_prefix enc v enc' v' rest rest' :
  uleb enc v -> uleb enc' v' -> enc ++ rest = enc' ++ rest' -> enc = enc' /\ v = v' /\ rest = rest'.
Proof.
  intros Hu. revert enc' v' rest rest'. induction Hu as [c Hc | c enc v Hc Hu IH]; intros enc' v' rest rest' Hu' Heq.
  - destruct Hu' as [c' Hc' | c' enc' v' Hc' Hu']; simpl in Heq; injection Heq as <- Heq; [by split_and! | lia].
  - destruct Hu' as [c' Hc' | c' enc' v' Hc' Hu']; simpl in Heq; injection Heq as <- Heq; [lia |].
    by destruct (IH _ _ _ _ Hu' Heq) as (-> & -> & ->).
Qed.

Lemma sleb_prefix enc v enc' v' rest rest' :
  sleb enc v -> sleb enc' v' -> enc ++ rest = enc' ++ rest' -> enc = enc' /\ v = v' /\ rest = rest'.
Proof.
  intros Hu. revert enc' v' rest rest'. induction Hu as [c Hc | c enc v Hc Hu IH]; intros enc' v' rest rest' Hu' Heq.
  - destruct Hu' as [c' Hc' | c' enc' v' Hc' Hu']; simpl in Heq; injection Heq as <- Heq; [by split_and! | lia].
  - destruct Hu' as [c' Hc' | c' enc' v' Hc' Hu']; simpl in Heq; injection Heq as <- Heq; [lia |].
    by destruct (IH _ _ _ _ Hu' Heq) as (-> & -> & ->).
Qed.

Lemma counted_prefix l (data : buffer) l' data' rest rest' :
  uleb32 l (N.of_nat (length data)) -> uleb32 l' (N.of_nat (length data')) ->
  l ++ data ++ rest = l' ++ data' ++ rest' -> l = l' /\ data = data' /\ rest = rest'.
Proof.
  intros [Hl _] [Hl' _] Heq. destruct (uleb_prefix _ _ _ _ _ _ Hl Hl' Heq) as (-> & Hlen & Hrest).
  by apply app_inj_1 in Hrest as [-> ->]; [| lia].
Qed.

Lemma module_bytes_unique secs secs' wasm : module_bytes secs wasm -> module_bytes secs' wasm -> secs = secs'.
Proof.
  intros (bytes & Hall & ->) (bytes' & Hall' & Heq). apply app_inv_head in Heq.
  revert secs' bytes' Hall' Heq.
  induction Hall as [| [id data] b secs bytes (l & Hid & Hl & ->) Hall IH]; intros secs' bytes' Hall' Heq.
  - by destruct Hall' as [| [id' data'] b' secs' bytes' (l' & _ & _ & ->) _].
  - destruct Hall' as [| [id' data'] b' secs' bytes' (l' & Hid' & Hl' & ->) Hall']; [done |]. simpl in *.
    injection Heq as Hsame Heq. rewrite <- !app_assoc in Heq.
    destruct (counted_prefix _ _ _ _ _ _ Hl Hl' Heq) as (_ & -> & Hrest).
    apply (f_equal N_of_ascii) in Hsame. rewrite !N_ascii_embedding in Hsame by done. subst id'.
    f_equal. by eapply IH.
Qed.

Lemma const_expr_prefix e o e' o' rest rest' :
  const_expr e o -> const_expr e' o' -> e ++ rest = e' ++ rest' -> e = e' /\ o = o' /\ rest = rest'.
Proof.
  intros (enc & z & -> & [Hs _] & _ & ->) (enc' & z' & -> & [Hs' _] & _ & ->) Heq. simpl in Heq. injection Heq as Heq.
  rewrite <- !app_assoc in Heq. destruct (sleb_prefix _ _ _ _ _ _ Hs Hs' Heq) as (-> & -> & Hrest).
  by injection Hrest as ->.
Qed.

Lemma segment_head_prefix h t h' t' rest rest' :
  segment_head h t -> segment_head h' t' -> h ++ rest = h' ++ rest' -> h = h' /\ t = t' /\ rest = rest'.
Proof.
  intros Hh Hh' Heq.
  destruct Hh as [f [Hf _] | f e o [Hf _] He | f m e o [Hf _] [Hm _] He],
    Hh' as [f' [Hf' _] | f' e' o' [Hf' _] He' | f' m' e' o' [Hf' _] [Hm' _] He']; rewrite <- ?app_assoc in Heq;
    destruct (uleb_prefix _ _ _ _ _ _ Hf Hf' Heq) as (-> & Hv & Hrest); try done.
  - by destruct (const_expr_prefix _ _ _ _ _ _ He He' Hrest) as (-> & -> & ->).
  - destruct (uleb_prefix _ _ _ _ _ _ Hm Hm' Hrest) as (-> & _ & Hrest').
    by destruct (const_expr_prefix _ _ _ _ _ _ He He' Hrest') as (-> & -> & ->).
Qed.

Lemma data_section_unique segs segs' payload : data_section segs payload -> data_section segs' payload -> segs = segs'.
Proof.
  intros (c & bytes & [Hc _] & Hall & ->) (c' & bytes' & [Hc' _] & Hall' & Heq).
  destruct (uleb_prefix _ _ _ _ _ _ Hc Hc' Heq) as (_ & _ & Hrest). clear Hc Hc' Heq. revert segs' bytes' Hall' Hrest.
  induction Hall as [| [h t data] b segs bytes [Hh (l & Hl & ->)] Hall IH]; intros segs' bytes' Hall' Heq.
  - destruct Hall' as [| [h' t' data'] b' segs' bytes' [Hh' (l' & Hl' & ->)] Hall']; [done |]. simpl in *.
    exfalso. destruct Hh' as [f [Hf _] | f e o [Hf _] _ | f m e o [Hf _] _ _]; by destruct Hf.
  - destruct Hall' as [| [h' t' data'] b' segs' bytes' [Hh' (l' & Hl' & ->)] Hall']; simpl in *.
    { exfalso. destruct Hh as [f [Hf _] | f e o [Hf _] _ | f m e o [Hf _] _ _]; by destruct Hf. }
    rewrite <- !app_assoc in Heq. destruct (segment_head_prefix _ _ _ _ _ _ Hh Hh' Heq) as (-> & -> & Hrest).
    destruct (counted_prefix _ _ _ _ _ _ Hl Hl' Hrest) as (_ & -> & Hrest'). f_equal. by eapply IH.
Qed.
