(* ===== verification/DataImageProps.v ===== *)
(** * DataImageProps: what the data image promises

    The shell of a module is the module with its active data segments emptied;
    the captured image is the memory the module would have been instantiated
    with; and no instruction of the module can tell the emptied segments from
    the original ones. *)

From S2P Require Import Prelude Errors Effects Leb128 Cowmem CowmemProps DataImage DataImageSpec.

(** ** Instructions

    The bytes of the immediates of an opcode, from the definition of the format,
    and the data segment they refer to. *)

Definition index_bytes (enc : buffer) : Prop := exists v, uleb32 enc v.
Definition signed_bytes (n : nat) (enc : buffer) : Prop := exists v, uleb enc v /\ (length enc <= n)%nat.

Definition plain_op (op : N) : bool :=
  (op =? 0)%N || (op =? 1)%N || (op =? 5)%N || (op =? 11)%N || (op =? 15)%N || (op =? 26)%N
  || (op =? 27)%N || (op =? 209)%N || between 69 196 op.
Definition index_op (op : N) : bool :=
  (op =? 12)%N || (op =? 13)%N || (op =? 16)%N || between 32 38 op || (op =? 210)%N || (op =? 63)%N || (op =? 64)%N.
Definition pair_op (op : N) : bool := (op =? 17)%N || between 40 62 op.

Inductive immediates : N -> option N -> buffer -> Prop :=
| imm_plain op : plain_op op = true -> immediates op None []
| imm_block op enc : between 2 4 op || (op =? 208)%N = true -> signed_bytes 5 enc -> immediates op None enc
| imm_index op enc : index_op op = true -> index_bytes enc -> immediates op None enc
| imm_pair op a b : pair_op op = true -> index_bytes a -> index_bytes b -> immediates op None (a ++ b)
| imm_branch_table enc n labels :
    uleb32 enc n -> N.of_nat (length labels) = (n + 1)%N -> Forall index_bytes labels ->
    immediates 14 None (enc ++ concat labels)
| imm_select enc n types : uleb32 enc n -> N.of_nat (length types) = n -> immediates 28 None (enc ++ types)
| imm_i32 enc : signed_bytes 5 enc -> immediates 65 None enc
| imm_i64 enc : signed_bytes 10 enc -> immediates 66 None enc
| imm_f32 bytes : length bytes = 4%nat -> immediates 67 None bytes
| imm_f64 bytes : length bytes = 8%nat -> immediates 68 None bytes
| imm_truncate s sub : uleb32 s sub -> (sub <= 7)%N -> immediates 252 None s
| imm_memory_init s i index m :
    uleb32 s 8 -> uleb32 i index -> index_bytes m -> immediates 252 (Some index) (s ++ i ++ m)
| imm_data_drop s i index : uleb32 s 9 -> uleb32 i index -> immediates 252 (Some index) (s ++ i)
| imm_copy s sub a b :
    uleb32 s sub -> (sub = 10 \/ sub = 12 \/ sub = 14)%N -> index_bytes a -> index_bytes b ->
    immediates 252 None (s ++ a ++ b)
| imm_misc s sub a :
    uleb32 s sub -> (sub = 11 \/ sub = 13 \/ 15 <= sub <= 17)%N -> index_bytes a -> immediates 252 None (s ++ a).

Definition instruction_bytes (ref : option N) (bytes : buffer) : Prop :=
  exists op imm, (op < 256)%N /\ bytes = ascii_of_N op :: imm /\ immediates op ref imm.

Definition local_bytes (bytes : buffer) : Prop :=
  exists enc t, index_bytes enc /\ value_type (N_of_ascii t) = true /\ bytes = enc ++ [t].

(** A function body and the data segments its instructions refer to. *)
Definition body_bytes (refs : list (option N)) (body : buffer) : Prop :=
  exists c locals instrs, uleb32 c (N.of_nat (length locals)) /\ Forall local_bytes locals
    /\ Forall2 instruction_bytes refs instrs /\ body = c ++ concat locals ++ concat instrs.

Definition function_bytes (refs : list (option N)) (bytes : buffer) : Prop :=
  exists l body, uleb32 l (N.of_nat (length body)) /\ body_bytes refs body /\ bytes = l ++ body.

Definition code_section (refs : list (list (option N))) (code : buffer) : Prop :=
  exists c bytes, uleb32 c (N.of_nat (length refs)) /\ Forall2 function_bytes refs bytes /\ code = c ++ concat bytes.

(** The segment an instruction may refer to. *)
Definition passive_ref (active : list bool) (ref : option N) : Prop :=
  forall index, ref = Some index -> active !! N.to_nat index = Some false.

(** ** The walk over a body *)

Section Walk.
Context (body : buffer) (active : list bool) (fn : N).

Lemma unsigned_Ok q v q' : unsigned body fn q = Ok (v, q') -> exists enc, uleb32 enc v /\ spans body q q' enc.
Proof. unfold unsigned, in_function. by intros Hr%wrap_Ok%readULEB_Ok. Qed.

Lemma signed_Ok q bits q' :
  signed body fn q bits = Ok q' -> exists enc, signed_bytes (leb_turns bits) enc /\ spans body q q' enc.
Proof.
  unfold signed, in_function, readSLEB. intros ([v p] & Hr%wrap_Ok & Hok)%res_bind_Ok. simplify_eq.
  apply read_sleb_spans in Hr as (enc & w & Hu & Hlen & Hs). exists enc. split; [by exists w | done].
Qed.

Lemma skip_Ok n q q' :
  (q <= length body)%nat -> skip body fn n q = Ok q' ->
  exists bytes, N.of_nat (length bytes) = n /\ spans body q q' bytes.
Proof.
  unfold skip. intros Hq Hok. destruct (_ <? n)%N eqn:Hn; [done |]. guards. simplify_eq.
  exists (slice body q (q + N.to_nat n)). split; [unfold slice; rewrite length_take, length_drop; lia |].
  apply spans_slice; lia.
Qed.

Lemma unsigned_times_Ok count q q' :
  unsigned_times body fn count q = Ok q' ->
  exists encs, length encs = count /\ Forall index_bytes encs /\ spans body q q' (concat encs).
Proof.
  revert q. induction count as [| count IH]; intros q Hok.
  { simpl in Hok. simplify_eq. exists []. split_and!; [done | done | apply spans_nil]. }
  cbn [unsigned_times] in Hok. apply res_bind_Ok in Hok as ([v p] & Hu & Hok).
  apply unsigned_Ok in Hu as (enc & Henc & Hs). destruct (IH _ Hok) as (encs & Hlen & Hall & Hss).
  exists (enc :: encs). split_and!; [simpl; lia | | simpl; by eapply spans_app].
  constructor; [by eexists | done].
Qed.

Lemma unsigned_once q q' :
  unsigned_times body fn 1 q = Ok q' -> exists enc, index_bytes enc /\ spans body q q' enc.
Proof.
  intros (encs & Hlen & Hall & Hs)%unsigned_times_Ok. destruct encs as [| e [| ? ?]]; try done.
  inversion Hall; subst. simpl in Hs. rewrite app_nil_r in Hs. eauto.
Qed.

Lemma unsigned_twice q q' :
  unsigned_times body fn 2 q = Ok q' ->
  exists a b, index_bytes a /\ index_bytes b /\ spans body q q' (a ++ b).
Proof.
  intros (encs & Hlen & Hall & Hs)%unsigned_times_Ok. destruct encs as [| a [| b [| ? ?]]]; try done.
  inversion Hall as [| ? ? Ha Hb]; subst. inversion Hb; subst. simpl in Hs. rewrite app_nil_r in Hs. eauto.
Qed.

Lemma misc_instruction_Ok q q' :
  misc_instruction body active fn q = Ok q' ->
  exists ref imm, immediates 252 ref imm /\ spans body q q' imm /\ passive_ref active ref.
Proof.
  unfold misc_instruction. intros ([sub p] & (s & Hsub & Hs)%unsigned_Ok & Hok)%res_bind_Ok.
  destruct (sub <=? 7)%N eqn:H7; guards.
  { simplify_eq. exists None, s. split_and!; [by eapply imm_truncate | done | done]. }
  destruct ((sub =? 8)%N || (sub =? 9)%N) eqn:H89.
  { apply res_bind_Ok in Hok as ([index r] & (i & Hi & Hsi)%unsigned_Ok & Hok).
    destruct (active !! N.to_nat index) as [[] |] eqn:Hact; try done.
    assert (passive_ref active (Some index)) as Hpass by (by intros j [= <-]).
    destruct (sub =? 8)%N eqn:H8; guards.
    - subst sub. apply unsigned_once in Hok as (m & Hm & Hsm). exists (Some index), (s ++ i ++ m).
      split_and!; [by constructor | | done]. eapply spans_app; [done |]. by eapply spans_app.
    - simpl in H89. guards. subst sub. simplify_eq. exists (Some index), (s ++ i).
      split_and!; [by constructor | by eapply spans_app | done]. }
  destruct ((sub =? 10)%N || (sub =? 12)%N || (sub =? 14)%N) eqn:H10.
  { apply unsigned_twice in Hok as (a & b & Ha & Hb & Hab). exists None, (s ++ a ++ b).
    split_and!; [| by eapply spans_app | done]. apply (imm_copy s sub); try done.
    apply orb_prop in H10 as [[H | H]%orb_prop | H]; guards; auto. }
  destruct ((sub =? 11)%N || (sub =? 13)%N || between 15 17 sub) eqn:H11; [| done].
  apply unsigned_once in Hok as (a & Ha & Hsa). exists None, (s ++ a).
  split_and!; [| by eapply spans_app | done]. apply (imm_misc s sub); try done.
  apply orb_prop in H11 as [[H | H]%orb_prop | H]; unfold between in *; guards; auto.
Qed.

(** Closes a case whose immediates [enc] are read by one lemma. *)
Ltac imm_case rule enc := exists None, enc; split_and!; [by eapply rule | done | done].

Lemma instruction_Ok op q q' :
  (q <= length body)%nat -> instruction body active fn op q = Ok q' ->
  exists ref imm, immediates op ref imm /\ spans body q q' imm /\ passive_ref active ref.
Proof.
  intros Hq. unfold instruction. fold (plain_op op) (index_op op) (pair_op op). intros Hok.
  destruct (plain_op op) eqn:?. { simplify_eq. exists None, []. split_and!; [by constructor | apply spans_nil | done]. }
  destruct (between 2 4 op || (op =? 208)%N) eqn:?.
  { apply signed_Ok in Hok as (enc & Henc & Hs). imm_case imm_block enc. }
  destruct (index_op op) eqn:?. { apply unsigned_once in Hok as (enc & Henc & Hs). imm_case imm_index enc. }
  destruct (op =? 14)%N eqn:?; guards.
  { subst op. apply res_bind_Ok in Hok as ([n p] & (enc & Henc & Hs)%unsigned_Ok & Hok).
    destruct (_ <? n)%N; [done |]. apply unsigned_times_Ok in Hok as (labels & Hlen & Hall & Hss).
    exists None, (enc ++ concat labels). split_and!; [| by eapply spans_app | done].
    eapply imm_branch_table; [done | lia | done]. }
  destruct (pair_op op) eqn:?.
  { apply unsigned_twice in Hok as (a & b & Ha & Hb & Hs). imm_case imm_pair (a ++ b). }
  destruct (op =? 28)%N eqn:?; guards.
  { subst op. apply res_bind_Ok in Hok as ([n p] & (enc & Henc & Hs)%unsigned_Ok & Hok).
    destruct (_ <? n)%N; [done |].
    assert (p <= length body)%nat as Hp.
    { eapply spans_bound; [| exact Hs]. by apply uleb32_bound in Henc as [_ ?]. }
    apply skip_Ok in Hok as (types & Hlen & Hst); [| done].
    exists None, (enc ++ types). split_and!; [by econstructor | by eapply spans_app | done]. }
  destruct (op =? 65)%N eqn:?; guards. { subst op. apply signed_Ok in Hok as (enc & Henc & Hs). imm_case imm_i32 enc. }
  destruct (op =? 66)%N eqn:?; guards. { subst op. apply signed_Ok in Hok as (enc & Henc & Hs). imm_case imm_i64 enc. }
  destruct (op =? 67)%N eqn:?; guards.
  { subst op. apply skip_Ok in Hok as (bytes & Hlen & Hs); [| done]. exists None, bytes.
    split_and!; [constructor; lia | done | done]. }
  destruct (op =? 68)%N eqn:?; guards.
  { subst op. apply skip_Ok in Hok as (bytes & Hlen & Hs); [| done]. exists None, bytes.
    split_and!; [constructor; lia | done | done]. }
  destruct (op =? 252)%N eqn:?; guards; [| done]. subst op. by apply misc_instruction_Ok.
Qed.

Lemma spans_le (buf : buffer) p q enc : (p <= length buf)%nat -> spans buf p q enc -> (q <= length buf)%nat.
Proof.
  intros Hp Hs. destruct enc as [| c enc]; [destruct Hs as [-> _]; simpl; lia |]. eapply spans_bound; [| exact Hs]. done.
Qed.

Lemma instructions_Ok fuel q :
  (q <= length body)%nat -> instructions body active fn fuel q = Ok tt ->
  exists refs instrs, Forall2 instruction_bytes refs instrs /\ spans body q (length body) (concat instrs)
    /\ Forall (passive_ref active) refs.
Proof.
  revert q. induction fuel as [| fuel IH]; intros q Hq Hok; cbn [instructions] in Hok.
  all: destruct (byte_at body q) as [op |] eqn:Hop; try done.
  2:{ apply byte_at_Some in Hop as [Hbound Hop]. apply res_bind_Ok in Hok as (p & Hi & Hok).
      assert (S q <= length body)%nat as Hq' by (by apply lookup_lt_Some in Hop).
      destruct (instruction_Ok _ _ _ Hq' Hi) as (ref & imm & Himm & Hs & Hpass).
      destruct (IH p (spans_le _ _ _ _ Hq' Hs) Hok) as (refs & instrs & Hall & Hss & Hrefs).
      exists (ref :: refs), ((ascii_of_N op :: imm) :: instrs). split_and!.
      - constructor; [by exists op, imm | done].
      - simpl. apply (spans_app _ _ p _ (ascii_of_N op :: imm)); [by apply spans_cons | done].
      - by constructor. }
  all: exists [], []; split_and!; [constructor | | constructor].
  all: assert (q = length body) as -> by (unfold byte_at in Hop; apply fmap_None, lookup_ge_None in Hop; lia);
    apply spans_nil.
Qed.

Lemma read_locals_Ok count q q' :
  read_locals body count q = Ok q' ->
  exists locals, length locals = count /\ Forall local_bytes locals /\ spans body q q' (concat locals).
Proof.
  revert q. induction count as [| count IH]; intros q Hok.
  { simpl in Hok. simplify_eq. exists []. split_and!; [done | done | apply spans_nil]. }
  cbn [read_locals] in Hok. destruct (readULEB body q 32) as [[v p] |] eqn:Hr; [| done].
  destruct (byte_at body p) as [t |] eqn:Ht; [| done]. destruct (value_type t) eqn:Hv; [| done].
  apply readULEB_Ok in Hr as (enc & Henc & Hs). apply byte_at_Some in Ht as [Hbt Ht].
  destruct (IH _ Hok) as (locals & Hlen & Hall & Hss).
  exists ((enc ++ [ascii_of_N t]) :: locals). split_and!; [simpl; lia | |].
  - constructor; [| done]. exists enc, (ascii_of_N t). rewrite N_ascii_embedding by done.
    split_and!; [by eexists | done | done].
  - simpl. eapply spans_app; [| done]. eapply spans_app; [done |]. apply spans_cons. split; [done | apply spans_nil].
Qed.
End Walk.

Lemma functions_Ok code active count fn p p' :
  (N.of_nat (length code) < 2 ^ 62)%N -> functions code active count fn p = Ok p' ->
  exists refs bytes, length refs = count /\ Forall2 function_bytes refs bytes /\ spans code p p' (concat bytes)
    /\ Forall (Forall (passive_ref active)) refs.
Proof.
  intros Hbuf. revert fn p. induction count as [| count IH]; intros fn p Hok.
  { simpl in Hok. simplify_eq. exists [], []. split_and!; [done | constructor | apply spans_nil | constructor]. }
  cbn [functions] in Hok. apply res_bind_Ok in Hok as ([size next] & Hr & Hok).
  apply res_bind_Ok in Hok as (e & He%option_or_Ok & Hok). cbv zeta in Hok.
  destruct (counted_slice _ _ _ _ _ Hbuf Hr He) as (l & Hl & _ & _ & _ & Hs).
  set (body := slice code next e) in *.
  apply res_bind_Ok in Hok as ([nl q] & (c & Hc & Hsc)%readULEB_Ok & Hok).
  apply res_bind_Ok in Hok as (q' & (locals & Hnl & Hlocals & Hsl)%read_locals_Ok & Hok).
  apply res_bind_Ok in Hok as ([] & Hi & Hok).
  assert (q' <= length body)%nat as Hq.
  { eapply spans_le; [| exact Hsl]. eapply spans_bound; [| exact Hsc]. by apply uleb32_bound in Hc as [_ ?]. }
  apply instructions_Ok in Hi as (refs & instrs & Hinstrs & Hsi & Hrefs); [| done].
  destruct (IH _ _ Hok) as (refss & bytes & Hlen & Hall & Hss & Hpass).
  exists (refs :: refss), ((l ++ body) :: bytes). split_and!; [simpl; lia | | | by constructor].
  - constructor; [| done]. exists l, body. split_and!; [done | | done].
    exists c, locals, instrs. split_and!; try done; [by rewrite Hnl, N2Nat.id |].
    destruct (spans_app _ _ _ _ _ _ Hsc (spans_app _ _ _ _ _ _ Hsl Hsi)) as [_ Hb].
    by rewrite (drop_ge body (length body)), app_nil_r, drop_0 in Hb by lia.
  - simpl. by eapply spans_app.
Qed.

Lemma validateDataImageCode_Ok code active :
  (N.of_nat (length code) < 2 ^ 62)%N -> validateDataImageCode code active = Ok tt ->
  exists refs, code_section refs code /\ Forall (Forall (passive_ref active)) refs.
Proof.
  intros Hbuf Hok. unfold validateDataImageCode in Hok.
  apply res_bind_Ok in Hok as ([count p] & (c & Hc & Hsc)%readULEB_Ok & Hok).
  apply res_bind_Ok in Hok as (p' & Hf & Hok).
  destruct (negb (p' =? length code)%nat) eqn:Hend; [done |]. apply negb_false_iff, Nat.eqb_eq in Hend. subst p'.
  apply functions_Ok in Hf as (refs & bytes & Hlen & Hall & Hs & Hpass); [| done].
  exists refs. split; [| done]. exists c, bytes. split_and!; [by rewrite Hlen, N2Nat.id | done |].
  destruct (spans_app _ _ _ _ _ _ Hsc Hs) as [_ Hb].
  by rewrite (drop_ge code (length code)), app_nil_r, drop_0 in Hb by lia.
Qed.

(** ** Marks *)

Definition set_mark (modes : list bool) (s : cowDataSegment) : list bool := <[N.to_nat (sg_index s) := true]> modes.

Lemma marks_length segments modes :
  length (foldl set_mark modes segments) = length modes.
Proof.
  revert modes. induction segments as [| s segments IH]; intros modes; [done |]. simpl. unfold set_mark at 2. by rewrite IH, length_insert.
Qed.

Lemma marks_stay segments modes i :
  modes !! i = Some true ->
  foldl set_mark modes segments !! i = Some true.
Proof.
  revert modes. induction segments as [| s segments IH]; intros modes Hi; [done |]. simpl. apply IH. unfold set_mark.
  destruct (decide (N.to_nat (sg_index s) = i)) as [<- | Hne].
  - apply list_lookup_insert_eq. by apply lookup_lt_Some in Hi.
  - by rewrite list_lookup_insert_ne.
Qed.

Lemma marks_hit segments modes s :
  s ∈ segments -> (N.to_nat (sg_index s) < length modes)%nat ->
  foldl set_mark modes segments !! N.to_nat (sg_index s) = Some true.
Proof.
  revert modes. induction segments as [| t segments IH]; intros modes Hin Hlt; [by apply elem_of_nil in Hin |].
  simpl. apply elem_of_cons in Hin as [<- | Hin].
  - apply marks_stay. by apply list_lookup_insert_eq.
  - apply IH; [done |]. unfold set_mark. by rewrite length_insert.
Qed.

Lemma actives_elem segs index i s offset :
  segs !! i = Some s -> g_target s = Some offset ->
  mkDataSegment (index + N.of_nat i) offset (g_data s) ∈ actives index segs.
Proof.
  revert index i. induction segs as [| t segs IH]; intros index [| i] Hi Ht; try done.
  - simpl in Hi. simplify_eq. simpl. rewrite Ht, N.add_0_r. simpl. apply list_elem_of_here.
  - simpl in Hi. cbn [actives]. apply elem_of_app. right.
    replace (index + N.of_nat (S i))%N with (index + 1 + N.of_nat i)%N by lia. by apply IH.
Qed.

(** A segment that is not marked is passive. *)
Lemma unmarked_passive segs index :
  mark_active (N.of_nat (length segs)) (actives 0 segs) !! N.to_nat index = Some false ->
  exists s, segs !! N.to_nat index = Some s /\ g_target s = None.
Proof.
  unfold mark_active. fold set_mark. intros Hm. pose proof (lookup_lt_Some _ _ _ Hm) as Hlt.
  rewrite marks_length, length_replicate, Nat2N.id in Hlt.
  destruct (lookup_lt_is_Some_2 segs _ Hlt) as [s Hs]. exists s. split; [done |].
  destruct (g_target s) as [offset |] eqn:Ht; [| done]. exfalso.
  pose proof (actives_elem segs 0 _ s offset Hs Ht) as Hin. rewrite N.add_0_l, N2Nat.id in Hin.
  pose proof (marks_hit _ (replicate (N.to_nat (N.of_nat (length segs))) false) _ Hin) as Hhit. simpl in Hhit.
  rewrite length_replicate, Nat2N.id in *. rewrite Hhit in Hm by done. done.
Qed.

(** ** The captured image *)

(** The segments written in order are the active segments instantiated. *)
Lemma written_instantiates segs index file pages :
  N.of_nat (length file) = (pages * wasmPageSizeBytes)%N -> Forall (in_memory pages) segs ->
  let seeds := map seed_segment (actives index segs) in
  instantiate segs file = Some (written seeds file) /\ Forall (fits (pages * wasmPageSizeBytes)) seeds.
Proof.
  intros Hlen Hall. revert index file Hlen. induction Hall as [| s segs Hs Hall IH]; intros index file Hlen.
  { split; [done | constructor]. }
  cbn [actives instantiate]. unfold in_memory in Hs. destruct (g_target s) as [offset |]; simpl; [| by apply IH].
  rewrite Hlen, (proj2 (N.leb_le _ _)) by lia.
  destruct (IH (index + 1)%N (write_file file offset (g_data s))) as [H1 H2]; [rewrite write_file_length; lia |].
  split; [exact H1 | by constructor].
Qed.

(** A module whose active segments are empty instantiates to the memory it is
    given. *)
Lemma instantiate_stripped segs mem pages :
  N.of_nat (length mem) = (pages * wasmPageSizeBytes)%N -> Forall (in_memory pages) segs ->
  instantiate (map strip segs) mem = Some mem.
Proof.
  intros Hlen. induction 1 as [| s segs Hs Hall IH]; [done |]. cbn [map]. unfold strip at 1.
  unfold in_memory in Hs. destruct (g_target s) as [offset |] eqn:Ht; simpl; [| by rewrite Ht].
  rewrite N.add_0_r, (proj2 (N.leb_le _ _)) by lia. unfold write_file. simpl. by rewrite Nat.add_0_r, take_drop.
Qed.

(** ** The transformation *)

Lemma transform_inv wasm image :
  (N.of_nat (length wasm) < 2 ^ 62)%N -> transformCOWDataImage wasm = Ok image ->
  exists x secs written,
    module_bytes secs wasm /\ walk_inv x secs written
    /\ image = mkDataImage (x_out x) (pages_of (memory_limits secs) * wasmPageSizeBytes) (x_active x)
    /\ pages_of (memory_limits secs) <> 0%N /\ x_dataSeen x = true /\ x_active x <> []
    /\ match x_code x with Some code => validateDataImageCode code (x_dataModes x) = Ok tt | None => True end.
Proof.
  intros Hbuf Hok. unfold transformCOWDataImage in Hok.
  destruct (length wasm <? 8)%nat eqn:Hshort; [done |]. guards. simpl orb in Hok.
  destruct (bool_decide (take 8 wasm = wasm_header)) eqn:Hhead; [| done]. guards. cbn [negb] in Hok.
  apply res_bind_Ok in Hok as (x & Hx & Hok).
  do 5 (apply res_bind_Ok in Hok as (? & ?%guard_Ok & Hok)). apply res_bind_Ok in Hok as ([] & Hcode & Hok).
  injection Hok as <-. guards.
  apply sections_Ok in Hx as (secs & bytes & Hbytes & Hs & Hwalk); [| done | lia].
  edestruct (walk_keeps_inv (mkTransform 0 0 None false None [] [] (take 8 wasm)) [] [] secs bytes x)
    as [written Hinv]; [| done | done |].
  { split; simpl; try done. exists []. rewrite Hhead. split; [constructor | done]. split; [done | simpl; lia]. }
  simpl in Hinv. exists x, secs, written.
  assert (memoryMin x = pages_of (memory_limits secs)) as Hmin.
  { unfold memoryMin, pages_of. by rewrite (wi_limits _ _ _ Hinv). }
  rewrite Hmin in *. pose proof (memory_limits_bound secs). split_and!; try done.
  - exists bytes. split; [done |]. destruct Hs as [_ Hd].
    rewrite (drop_ge wasm (length wasm)), app_nil_r in Hd by lia. by rewrite <- Hd, <- Hhead, take_drop.
  - f_equal. unfold wasmPageSizeBytes. apply u64_id. lia.
  - unfold activeSeen in *. guards. intros Hnil. rewrite Hnil in *. done.
  - by destruct (x_code x).
Qed.

Lemma foldl_limits_none secs l : of_id wasmMemorySection secs = [] -> foldl limits_step l secs = l.
Proof.
  unfold of_id. revert l. induction secs as [| s secs IH]; intros l Hno; [done |]. simpl in *.
  rewrite filter_cons in Hno. destruct (decide (s.1 = wasmMemorySection)) as [| Hne]; [done |].
  unfold limits_step at 2. rewrite (proj2 (N.eqb_neq _ _)) by done. by apply IH.
Qed.

Lemma of_id_app id a b : of_id id (a ++ b) = of_id id a ++ of_id id b.
Proof. unfold of_id. by rewrite list.filter_app, fmap_app. Qed.

(** With one memory section, the limits known at the Data section are those of
    the whole module. *)
Lemma limits_at_data pre s post :
  (length (of_id wasmMemorySection (pre ++ s :: post)) <= 1)%nat -> s.1 = wasmDataSection ->
  memory_limits pre <> None -> memory_limits (pre ++ s :: post) = memory_limits pre.
Proof.
  intros Hone Hs Hsome. rewrite of_id_app, length_app in Hone.
  destruct (of_id wasmMemorySection pre) eqn:Hpre.
  { exfalso. apply Hsome. by apply foldl_limits_none. }
  unfold memory_limits. rewrite foldl_app. apply foldl_limits_none.
  destruct (of_id wasmMemorySection (s :: post)); [done |]. simpl in Hone. lia.
Qed.

(** The shell differs from the module in its Data section alone. *)
Lemma transform_replaces wasm image :
  (N.of_nat (length wasm) < 2 ^ 62)%N -> transformCOWDataImage wasm = Ok image ->
  exists pre payload out post segs,
    module_bytes (pre ++ (wasmDataSection, payload) :: post) wasm
    /\ module_bytes (pre ++ (wasmDataSection, out) :: post) (im_shell image)
    /\ data_section segs payload /\ data_section (map strip segs) out
    /\ im_active image = actives 0 segs
    /\ of_id wasmStartSection (pre ++ (wasmDataSection, payload) :: post) = []
    /\ forall data, let secs := pre ++ (wasmDataSection, data) :: post in
        (length (of_id wasmMemorySection secs) <= 1)%nat ->
        im_memorySize image = (pages_of (memory_limits secs) * wasmPageSizeBytes)%N
        /\ pages_of (memory_limits secs) <> 0%N /\ (pages_of (memory_limits secs) < 2 ^ 32)%N
        /\ Forall (in_memory (pages_of (memory_limits secs))) segs.
Proof.
  intros Hbuf Hok. destruct (transform_inv _ _ Hbuf Hok) as (x & secs & written & Hmod & Hinv & -> & Hpos & Hseen & Hne & _).
  pose proof (wi_data _ _ _ Hinv) as Hdata. rewrite Hseen in Hdata.
  destruct Hdata as (pre & payload & out & post & segs & -> & -> & _ & _ & [Hr Hw Ha Hm Hb Hmem]).
  exists pre, payload, out, post, segs. split_and!; [done | | done | done | done | apply (wi_start _ _ _ Hinv) |].
  { destruct (wi_out _ _ _ Hinv) as (bytes & Hbytes & ->). by exists bytes. }
  intros data secs Hone. simpl. rewrite Ha in *. unfold secs in *.
  assert (forall p, of_id wasmMemorySection (pre ++ (wasmDataSection, p) :: post) = of_id wasmMemorySection (pre ++ post)) as Hsame.
  { intros p. change ((wasmDataSection, p) :: post) with ([(wasmDataSection, p)] ++ post). by rewrite !of_id_app. }
  pose proof (limits_at_data pre (wasmDataSection, payload) post) as Hp. rewrite Hsame in *.
  specialize (Hp Hone eq_refl (Hmem Hne)).
  rewrite (limits_at_data pre (wasmDataSection, data) post), Hp in * by (try rewrite Hsame; auto).
  split_and!; [done | done | apply memory_limits_bound | done].
Qed.

(** A section is no longer than its module. *)
Lemma section_fits secs wasm id payload :
  module_bytes secs wasm -> payload ∈ of_id id secs -> (N.of_nat (length payload) <= N.of_nat (length wasm))%N.
Proof.
  intros (bytes & Hall & ->) Hin. rewrite length_app.
  assert (length payload <= length (concat bytes))%nat; [| lia].
  induction Hall as [| s b secs bytes (l & _ & _ & ->) Hall IH]; [by apply elem_of_nil in Hin |].
  simpl. rewrite !length_app. change (s :: secs) with ([s] ++ secs) in Hin.
  rewrite of_id_app in Hin. apply elem_of_app in Hin as [Hin | Hin]; [| specialize (IH Hin); lia].
  unfold of_id in Hin. rewrite filter_cons, filter_nil in Hin. destruct (decide (s.1 = id)); simpl in Hin.
  - apply list_elem_of_singleton in Hin as ->. lia.
  - by apply elem_of_nil in Hin.
Qed.

Lemma capture_instantiates ftruncate pwrite add_seals page pages segs :
  os_works ftruncate pwrite add_seals -> page <> 0%N -> (wasmPageSizeBytes mod page = 0)%N ->
  pages <> 0%N -> (pages < 2 ^ 32)%N -> Forall (in_memory pages) segs ->
  let size := (pages * wasmPageSizeBytes)%N in
  exists c, CaptureSegments ftruncate pwrite add_seals page size (map seed_segment (actives 0 segs)) fresh_cow = (Ok tt, c)
    /\ instantiate segs (zero_file size) = Some (cow_file c)
    /\ instantiate (map strip segs) (zero_file size) = Some (zero_file size).
Proof.
  intros Hos Hpage Hdiv Hpos Hpages Hall size.
  assert (N.of_nat (length (zero_file size)) = size) as Hlen by (unfold zero_file; rewrite length_replicate; lia).
  destruct (written_instantiates segs 0 (zero_file size) pages Hlen Hall) as [Hi Hfits].
  pose proof (N.mul_lt_mono_pos_r wasmPageSizeBytes pages (2 ^ 32) ltac:(done)) as [Hsize _]. specialize (Hsize Hpages).
  assert (2 ^ 32 * wasmPageSizeBytes < 2 ^ 63)%N as Hmax by done.
  exists (mkCOW (written (map seed_segment (actives 0 segs)) (zero_file size)) size false).
  split_and!; [| exact Hi | by eapply instantiate_stripped].
  apply CaptureSegments_works; [done | | unfold size; lia | done].
  assert (wasmPageSizeBytes <> 0)%N by done. split_and!; [unfold size; lia | apply N.Div0.mod_mul |].
  unfold size. rewrite N.Div0.mul_mod, Hdiv, N.mul_0_r. by apply N.Div0.mod_0_l.
Qed.

(** C22.  The shell and the image replace the module.  When the transformation
    succeeds, the shell is the module byte for byte except that its one Data
    section has the payloads of its active segments emptied; and, for a module
    with one memory, the copy-on-write image captured from the segments is
    exactly the memory that instantiating the original Data section on a zeroed
    memory gives, however the operating system splits the writes, while
    instantiating the Data section of the shell changes nothing. *)
Theorem data_image_is_faithful (wasm : buffer) (image : cowDataImage) :
  (N.of_nat (length wasm) < 2 ^ 62)%N -> transformCOWDataImage wasm = Ok image ->
  exists pre payload out post segs,
    module_bytes (pre ++ (wasmDataSection, payload) :: post) wasm
    /\ module_bytes (pre ++ (wasmDataSection, out) :: post) (im_shell image)
    /\ data_section segs payload /\ data_section (map strip segs) out
    /\ ((length (of_id wasmMemorySection (pre ++ (wasmDataSection, payload) :: post)) <= 1)%nat ->
        forall ftruncate pwrite add_seals page,
        os_works ftruncate pwrite add_seals -> page <> 0%N -> (wasmPageSizeBytes mod page = 0)%N ->
        let zeros := zero_file (im_memorySize image) in
        exists c, CaptureSegments ftruncate pwrite add_seals page (im_memorySize image)
                    (map seed_segment (im_active image)) fresh_cow = (Ok tt, c)
          /\ instantiate segs zeros = Some (cow_file c)
          /\ instantiate (map strip segs) zeros = Some zeros).
Proof.
  intros Hbuf Hok. destruct (transform_replaces _ _ Hbuf Hok) as (pre & payload & out & post & segs & H1 & H2 & H3 & H4 & Ha & _ & Hmem).
  exists pre, payload, out, post, segs. split_and!; [done | done | done | done |].
  intros Hone ftruncate pwrite add_seals page Hos Hpage Hdiv. destruct (Hmem payload Hone) as (-> & Hpos & Hlt & Hin).
  rewrite Ha. by apply capture_instantiates.
Qed.

(** C23.  No instruction can tell the shell from the module.  In a module the
    transformation accepts, the Code section is a well-formed sequence of
    function bodies, read as instructions to its last byte, and every
    [memory.init] and [data.drop] in it refers to an existing passive segment,
    which the shell keeps; and there is no start function. *)
Theorem data_image_code_is_safe (wasm : buffer) (image : cowDataImage) :
  (N.of_nat (length wasm) < 2 ^ 62)%N -> transformCOWDataImage wasm = Ok image ->
  exists secs payload segs,
    module_bytes secs wasm /\ of_id wasmDataSection secs = [payload] /\ data_section segs payload
    /\ of_id wasmStartSection secs = []
    /\ (of_id wasmCodeSection secs = []
        \/ exists code refs, of_id wasmCodeSection secs = [code] /\ code_section refs code
           /\ forall index, Some index ∈ concat refs ->
                exists s, segs !! N.to_nat index = Some s /\ g_target s = None /\ strip s = s).
Proof.
  intros Hbuf Hok. destruct (transform_inv _ _ Hbuf Hok) as (x & secs & written & Hmod & Hinv & -> & Hpos & Hseen & Hne & Hcode).
  pose proof (wi_data _ _ _ Hinv) as Hdata. rewrite Hseen in Hdata.
  destruct Hdata as (pre & payload & out & post & segs & Hsecs & _ & Hpre & Hpost & [Hr Hw Ha Hm Hb Hmem]).
  exists secs, payload, segs. split_and!; try done.
  { rewrite Hsecs, of_id_app, Hpre. unfold of_id in *. rewrite filter_cons_True by done.
    by rewrite fmap_cons, Hpost. }
  { apply (wi_start _ _ _ Hinv). }
  destruct (wi_code _ _ _ Hinv) as [Hhead Hone].
  destruct (of_id wasmCodeSection secs) as [| code [| ? ?]] eqn:Hc; [by left | | simpl in Hone; lia]. right.
  simpl in Hhead. rewrite Hhead in Hcode. rewrite Hm in Hcode.
  assert (N.of_nat (length code) < 2 ^ 62)%N as Hlen.
  { eapply N.le_lt_trans; [| exact Hbuf]. by apply (section_fits secs wasm wasmCodeSection); [| rewrite Hc; left]. }
  destruct (validateDataImageCode_Ok _ _ Hlen Hcode) as (refs & Hsec & Hrefs).
  exists code, refs. split_and!; [done | done |]. intros index Hin.
  apply list_elem_of_In, in_concat in Hin as (l & Hl%list_elem_of_In & Hin%list_elem_of_In).
  rewrite list.Forall_forall in Hrefs. specialize (Hrefs l Hl). rewrite list.Forall_forall in Hrefs.
  specialize (Hrefs _ Hin index eq_refl). destruct (unmarked_passive _ _ Hrefs) as (s & Hs & Ht).
  exists s. split_and!; [done | done |]. unfold strip. by rewrite Ht.
Qed.

(** A module with one memory page, a function that copies and drops a passive
    segment, and two active segments that overlap. *)
Definition demo_wasm : buffer :=
  wasm_header ++ map ascii_of_N
    ([5; 4; 1; 1; 1; 1]
     ++ [10; 17; 1; 15; 0; 65; 0; 65; 0; 65; 1; 252; 8; 1; 0; 252; 9; 1; 11]
     ++ [11; 17; 3; 0; 65; 8; 11; 2; 104; 105; 1; 1; 112; 0; 65; 9; 11; 1; 33])%N.

Definition demo_image : cowDataImage :=
  mkDataImage
    (wasm_header ++ map ascii_of_N
      ([5; 4; 1; 1; 1; 1]
       ++ [10; 17; 1; 15; 0; 65; 0; 65; 0; 65; 1; 252; 8; 1; 0; 252; 9; 1; 11]
       ++ [11; 14; 3; 0; 65; 8; 11; 0; 1; 1; 112; 0; 65; 9; 11; 0])%N)
    65536 [mkDataSegment 0 8 (map ascii_of_N [104; 105]%N); mkDataSegment 2 9 (map ascii_of_N [33]%N)].

(** An operating system that writes one byte at a time. *)
Definition one_byte (data : buffer) (offset : Z) : res error N := Ok 1%N.

Definition calm_ftruncate (size : N) : res error unit := Ok tt.

Lemma one_byte_works : os_works calm_ftruncate one_byte (Ok tt).
Proof.
  split; [done | | done]. intros data offset Hne. exists 1%N. split; [reflexivity |].
  assert (length data <> 0%nat) by (intros H; apply Hne, length_zero_iff_nil, H). lia.
Qed.

Lemma data_image_is_faithful_witness :
  transformCOWDataImage demo_wasm = Ok demo_image
  /\ os_works calm_ftruncate one_byte (Ok tt)
  /\ match CaptureSegments calm_ftruncate one_byte (Ok tt) 4096 65536 (map seed_segment (im_active demo_image)) fresh_cow with
     | (Ok _, c) => take 4 (drop 7 (cow_file c)) = map ascii_of_N [0; 104; 33; 0]%N
     | (Err _, _) => False
     end
  /\ exists payload out segs, data_section segs payload /\ data_section (map strip segs) out
     /\ exists pre post, module_bytes (pre ++ (wasmDataSection, out) :: post) (im_shell demo_image).
Proof.
  assert (transformCOWDataImage demo_wasm = Ok demo_image) as Hok by (vm_compute; reflexivity).
  assert ((N.of_nat (length demo_wasm) < 2 ^ 62)%N) as Hlen by (vm_compute; reflexivity).
  split; [exact Hok |]. split; [exact one_byte_works |].
  split; [vm_compute; reflexivity |].
  destruct (data_image_is_faithful demo_wasm demo_image Hlen Hok)
    as (pre & payload & out & post & segs & _ & Hshell & Hr & Hw & _).
  exists payload, out, segs. split; [exact Hr |]. split; [exact Hw |]. exists pre, post. exact Hshell.
Defined.

(** The same module with [data.drop] of an active segment. *)
Definition demo_dropping : buffer := <[31%nat := ascii_of_N 0]> demo_wasm.

Lemma data_image_code_is_safe_witness :
  transformCOWDataImage demo_dropping
    = Err "COW data image rejects instruction 9 referencing active data segment 0"
  /\ exists secs, module_bytes secs demo_wasm /\ of_id wasmStartSection secs = [].
Proof.
  assert (transformCOWDataImage demo_wasm = Ok demo_image) as Hok by (vm_compute; reflexivity).
  assert ((N.of_nat (length demo_wasm) < 2 ^ 62)%N) as Hlen by (vm_compute; reflexivity).
  split; [vm_compute; reflexivity |].
  destruct (data_image_code_is_safe demo_wasm demo_image Hlen Hok) as (secs & payload & segs & Hm & _ & _ & Hs & _).
  exists secs. split; [exact Hm | exact Hs].
Defined.

(** ** Fuel

    The loops over a buffer never run out of fuel: more changes nothing. *)

Lemma instructions_fuel body active fn f f' q :
  (length body - q <= f)%nat -> (length body - q <= f')%nat ->
  instructions body active fn f q = instructions body active fn f' q.
Proof.
  revert f' q. induction f as [| f IH]; intros f' q Hf Hf'.
  - destruct f'; cbn [instructions]; [done |]. unfold byte_at. rewrite lookup_ge_None_2 by lia. done.
  - destruct f' as [| f']; cbn [instructions].
    { unfold byte_at. rewrite lookup_ge_None_2 by lia. done. }
    destruct (byte_at body q) as [op |] eqn:Hop; [| done].
    apply byte_at_Some in Hop as [_ Hop]. apply lookup_lt_Some in Hop.
    destruct (instruction body active fn op (S q)) as [q' |] eqn:Hi; [| done]. simpl.
    apply instruction_Ok in Hi as (ref & imm & _ & [-> _] & _); [| done]. apply IH; lia.
Qed.

Lemma sections_fuel wasm f f' pos x :
  (N.of_nat (length wasm) < 2 ^ 62)%N -> (length wasm - pos <= f)%nat -> (length wasm - pos <= f')%nat ->
  sections wasm f pos x = sections wasm f' pos x.
Proof.
  intros Hbuf. revert f' pos x. induction f as [| f IH]; intros f' pos x Hf Hf'.
  - destruct f'; cbn [sections]; [done |]. unfold byte_at. rewrite lookup_ge_None_2 by lia. done.
  - destruct f' as [| f']; cbn [sections].
    { unfold byte_at. rewrite lookup_ge_None_2 by lia. done. }
    destruct (byte_at wasm pos) as [id |] eqn:Hid; [| done].
    destruct (readULEB wasm (S pos) 32) as [[len next] |] eqn:Hr; [| done]. simpl.
    destruct (slice_end wasm next len) as [e |] eqn:He; [| done]. simpl.
    destruct (section_step _ _ _ _) as [x' |]; [| done]. simpl.
    destruct (counted_slice _ _ _ _ _ Hbuf Hr He) as (l & _ & _ & _ & _ & [-> _]). apply IH; lia.
Qed.
