(* ===== verification/Prepared.v ===== *)
(** * Prepared: the life of a Wasm runner and of its Guests ([prepared.go],
    [runner.go], [recording.go], [internal/cowmem])

    A [Runner] owns a wazero runtime, the compiled artifact and, when it was
    prepared, a clean image of an initialized Guest.  Every attempt instantiates
    a Guest of its own.  The [world] holds the handles that were opened; each
    operation on it is one call of the operating system or of wazero, which may
    fail at any time ([os]).  wazero and the artifact are the class [Wasm], the
    random streams of [math/rand/v2] the class [RandomStream]. *)

From S2P Require Import Prelude Errors Effects Json Manifest Bridge Leb128 Sha256 Cowmem DataImage.

(** ** Recordings *)

Class RandomStream := {
  ChaCha8 : Type;
  NewChaCha8 : words8 -> ChaCha8;
  MarshalBinary : ChaCha8 -> res error buffer;
  UnmarshalBinary : ChaCha8 -> buffer -> res error ChaCha8
}.

Section Recording.
Context `{RandomStream}.

(** [recording] without its journal, which the bridge gets. *)
Record recording := mkRecording { rec_seed : string; rec_random : ChaCha8; rec_wall : Z; rec_mono : Z }.

Record preparedRecording := mkPreparedRecording { pr_seed : string; pr_random : buffer; pr_wall : Z; pr_mono : Z }.

Definition newRecording (seed : string) : recording :=
  mkRecording seed (NewChaCha8 (sum256 seed)) 1700000000000000000 0.

Definition capture (rec : recording) : res error preparedRecording :=
  let* data := MarshalBinary (rec_random rec) in
  Ok (mkPreparedRecording (rec_seed rec) data (rec_wall rec) (rec_mono rec)).

Definition restore (rec : recording) (saved : preparedRecording) : res error recording :=
  let* random := UnmarshalBinary (rec_random rec) (pr_random saved) in
  Ok (mkRecording (rec_seed rec) random (pr_wall saved) (pr_mono saved)).
End Recording.

(** ** wazero *)

(** A compiled module: its exports, and the declared maximum of the memory it
    exports as [memory]. *)
Record compiled := mkCompiled {
  cm_wasm : buffer;
  cm_functions : list string;
  cm_memory : option (option N)
}.

(** What a Guest wrote to [stdout] and [stderr]. *)
Notation console := (string * string)%type.

Section Wasm.
Context `{RandomStream}.

(** The entropy and the clocks of an attempt: recorded, or of the system at some
    moment. *)
Inductive inputs := Recorded (rec : recording) | System (moment : nat).

(** What a start function did: its status or a trap, what it left of the
    recorded entropy and clocks and of the instance, and what it wrote to [stdout]
    and to [stderr], one write after the other. *)
Record started (G : Type) := mkStarted {
  sd_status : res error N;
  sd_entropy : option (ChaCha8 * Z * Z);
  sd_memory : buffer;
  sd_globals : G;
  sd_stdout : list string;
  sd_stderr : list string
}.

(** wazero and the loaded artifact: compiling, the initial memory of an instance
    and the rest of it ([globals]), the pages its memory can have, the start functions and what
    [execute] does with a request.  The flag tells whether the Guest sees a
    workspace. *)
Class Wasm := {
  globals : Type;
  CompileModule : buffer -> res error compiled;
  InstantiateModule : compiled -> res error (buffer * globals);
  memory_limit : globals -> N;
  call_start : string -> bool -> inputs -> buffer -> globals -> console -> started globals;
  call_execute : bool -> inputs -> buffer -> globals -> console -> string -> guest
}.
End Wasm.
Arguments mkStarted {_ G}.
Arguments sd_status {_ G}.
Arguments sd_entropy {_ G}.
Arguments sd_memory {_ G}.
Arguments sd_globals {_ G}.
Arguments sd_stdout {_ G}.
Arguments sd_stderr {_ G}.

(** [boundedText] after some writes, and both of them after a start function. *)
Definition write_all (b : string) (writes : list string) : string := fold_left (fun b p => (boundedWrite b p).1) writes b.

Definition console_after `{RandomStream} {G} (c : console) (s : started G) : console :=
  (write_all c.1 (sd_stdout s), write_all c.2 (sd_stderr s)).

(** ** Runners and worlds *)

(** [*Runner]; the manifest holds tools that are called as [C]. *)
Record Runner (C : Type) := mkRunner {
  ru_artifactID : string;
  ru_runtime : N;
  ru_code : compiled;
  ru_manifest : Manifest C;
  ru_guestManifest : list guestToolSpec;
  ru_preparedState : option preparedRecording;
  ru_image : option buffer;
  ru_cow : option N;
  ru_cowSeed : option N;
  ru_workspaceImage : bool
}.
Arguments mkRunner {C}.
Arguments ru_artifactID {C}.
Arguments ru_runtime {C}.
Arguments ru_code {C}.
Arguments ru_manifest {C}.
Arguments ru_guestManifest {C}.
Arguments ru_preparedState {C}.
Arguments ru_image {C}.
Arguments ru_cow {C}.
Arguments ru_cowSeed {C}.
Arguments ru_workspaceImage {C}.

Section Prepared.
Context `{HR : RandomStream} `{HW : @Wasm HR}.

(** A Guest module: its runtime, its memory and the mapping behind it. *)
Record instance := mkInstance {
  in_runtime : N;
  in_code : compiled;
  in_memory : buffer;
  in_globals : globals;
  in_mapping : option N;
  in_open : bool
}.

(** A mapping or a directory: held, released, or there for good because
    releasing it failed. *)
Inductive holding := Held | Released | Unreleasable.

(** What a handle stands for. *)
Inductive resource :=
| RRuntime (open : bool)
| RImage (c : linuxCOW)
| RMapping (max : N) (st : holding)
| RModule (i : instance)
| RDir (st : holding).

(** The calls so far, the next handle, the handles, and whether memory was used
    that had been unmapped. *)
Record world := mkWorld {
  w_tick : nat;
  w_next : N;
  w_table : gmap N resource;
  w_crashed : bool
}.

(** A handle that is not given up. *)
Definition open_resource (r : resource) : bool :=
  match r with
  | RRuntime open => open
  | RImage c => negb (cow_closed c)
  | RMapping _ st | RDir st => match st with Held => true | _ => false end
  | RModule i => in_open i
  end.

Definition is_open (w : world) (id : N) : bool := from_option open_resource false (w_table w !! id).

(** The answers of the operating system and of wazero to the calls. *)
Context (os : nat -> option error) (os_pwrite : nat -> buffer -> Z -> res error N) (cowPageSize : N).

Definition answer (moment : nat) : res error unit := match os moment with None => Ok tt | Some e => Err e end.

Definition tick : M world nat := fun w => (Ok (w_tick w), mkWorld (S (w_tick w)) (w_next w) (w_table w) (w_crashed w)).

(** One call that may fail. *)
Definition syscall : M world unit := moment <- tick;; of_res (answer moment).

Definition allocate (r : resource) : M world N := fun w =>
  (Ok (w_next w), mkWorld (w_tick w) (w_next w + 1) (<[w_next w := r]> (w_table w)) (w_crashed w)).

Definition update (id : N) (r : resource) : M world unit := fun w =>
  (Ok tt, mkWorld (w_tick w) (w_next w) (<[id := r]> (w_table w)) (w_crashed w)).

(** The object behind a handle; a handle of another kind does not occur. *)
Definition stray {A} : M world A := fail (EMsg "").

Definition image_of (id : N) : M world linuxCOW := fun w =>
  match w_table w !! id with Some (RImage c) => (Ok c, w) | _ => stray w end.

Definition instance_of (id : N) : M world instance := fun w =>
  match w_table w !! id with Some (RModule i) => (Ok i, w) | _ => stray w end.

Definition mapping_of (id : N) : M world (N * holding) := fun w =>
  match w_table w !! id with Some (RMapping max st) => (Ok (max, st), w) | _ => stray w end.

(** ** Copy-on-write images and memories *)

Definition cowmem_New : M world N :=
  on_error syscall (fun e => EWrap "create COW image memfd: " e "");;;
  allocate (RImage fresh_cow).

(** An operation of [linuxCOW]. *)
Definition on_image {A} (id : N) (m : nat -> M linuxCOW A) : M world A :=
  moment <- tick;; c <- image_of id;;
  let '(r, c') := m moment c in
  update id (RImage c');;; of_res r.

Definition image_CaptureSegments (id size : N) (segments : list Segment) : M world unit :=
  first <- tick;;
  on_image id (fun moment =>
    CaptureSegments (fun _ => answer first) (os_pwrite moment) (answer moment) cowPageSize size segments).

Definition image_Close (id : N) : M world unit := on_image id (fun moment => close_image (answer moment)).

(** [newLinuxCOWMemory] below [Allocator]. *)
Definition newLinuxCOWMemory (maximum : N) : M world N :=
  reject ((maximum =? 0)%N || (2 ^ 63 - 1 <? maximum)%N)
    (EMsg ("invalid COW memory maximum: " +:+ format_uint maximum));;;
  on_error syscall (fun e => EWrap ("reserve COW linear memory (" +:+ format_uint maximum +:+ " bytes): ") e "");;;
  allocate (RMapping maximum Held).

Definition Allocator (memory : option (option N)) : M world N :=
  match memory with
  | None => fail (EMsg "COW needs an exported memory named memory")
  | Some None => fail (EMsg "COW needs a declared memory maximum")
  | Some (Some maximum) => newLinuxCOWMemory (u64 (maximum * wasmPageSize))
  end.

(** [linuxCOWMemory.release]; [Free] drops its error. *)
Definition release (id : N) : M world unit :=
  p <- mapping_of id;;
  let '(max, st) := p in
  match st with
  | Released => ret tt
  | _ =>
      moment <- tick;;
      match answer moment with
      | Ok _ => update id (RMapping max Released)
      | Err e => update id (RMapping max Unreleasable);;; fail e
      end
  end.

Definition Free (mapping : option N) : M world unit :=
  match mapping with None => ret tt | Some id => try_ (release id);;; ret tt end.

(** [linuxCOWMemory.Reallocate]: whether the memory can have that size. *)
Definition Reallocate (mapping : option N) (size : N) : M world bool :=
  match mapping with
  | None => ret true
  | Some id =>
      p <- mapping_of id;;
      let '(max, st) := p in
      ret (match st with Released => false | _ => negb (max <? size)%N && negb (2 ^ 63 - 1 <? size)%N end)
  end.

(** ** Modules *)

(** Touching the memory of a module whose mapping is gone ends the process. *)
Definition touch (i : instance) : M world unit := fun w =>
  match in_mapping i with
  | Some id =>
      if is_open w id then (Ok tt, w) else (Ok tt, mkWorld (w_tick w) (w_next w) (w_table w) true)
  | None => (Ok tt, w)
  end.

Definition with_memory (memory : buffer) (i : instance) : instance :=
  mkInstance (in_runtime i) (in_code i) memory (in_globals i) (in_mapping i) (in_open i).

Definition with_state (memory : buffer) (g : globals) (i : instance) : instance :=
  mkInstance (in_runtime i) (in_code i) memory g (in_mapping i) (in_open i).

Definition memory_size (i : instance) : N := N.of_nat (length (in_memory i)).

(** [Memory.Read(offset, count)]. *)
Definition memory_Read (id offset count : N) : M world (option buffer) :=
  i <- instance_of id;; touch i;;;
  ret (if (offset + count <=? memory_size i)%N
       then Some (take (N.to_nat count) (drop (N.to_nat offset) (in_memory i))) else None).

(** [Memory.Write(offset, data)]. *)
Definition memory_Write (id offset : N) (data : buffer) : M world bool :=
  i <- instance_of id;; touch i;;;
  if (offset + N.of_nat (length data) <=? memory_size i)%N
  then update id (RModule (with_memory (write_file (in_memory i) offset data) i));;; ret true
  else ret false.

(** [Memory.Grow(delta)], whose new pages are zero. *)
Definition memory_Grow (id delta : N) : M world bool :=
  i <- instance_of id;;
  let size := (memory_size i + delta * wasmPageSize)%N in
  if (memory_limit (in_globals i) * wasmPageSize <? size)%N then ret false
  else
    fits <- Reallocate (in_mapping i) size;;
    if (fits : bool) then touch i;;; update id (RModule (with_memory (resize size (in_memory i)) i));;; ret true
    else ret false.

(** [Module.Close], which a closed module ignores. *)
Definition module_Close (id : N) : M world unit :=
  i <- instance_of id;;
  if in_open i then
    update id (RModule (mkInstance (in_runtime i) (in_code i) (in_memory i) (in_globals i) (in_mapping i) false));;;
    syscall
  else ret tt.

(** The module that the wrapper of [WrapModule] binds to its mapping. *)
Record guest_module := mkGuestModule { gm_module : N; gm_mapping : option N }.

(** [guest.Close]. *)
Definition guest_Close (g : guest_module) : M world unit :=
  r <- try_ (module_Close (gm_module g));;
  Free (gm_mapping g);;;
  of_res r.

(** [Runtime.Close] closes the modules of the runtime. *)
Definition close_module_of (runtime : N) (r : resource) : resource :=
  match r with
  | RModule i =>
      if (in_runtime i =? runtime)%N
      then RModule (mkInstance (in_runtime i) (in_code i) (in_memory i) (in_globals i) (in_mapping i) false)
      else r
  | _ => r
  end.

Definition runtime_Close (runtime : N) : M world unit :=
  (fun w => (Ok tt, mkWorld (w_tick w) (w_next w)
                      (<[runtime := RRuntime false]> (close_module_of runtime <$> w_table w)) (w_crashed w)));;;
  syscall.

(** [linuxCOW.Capture] and [Attach] on the memory of a module, which starts at a
    page; a fixed mapping stays where it is put. *)
Definition image_Capture (id : N) (m : N) : M world unit :=
  i <- instance_of m;;
  reject (memory_size i =? 0)%N (EMsg "cannot capture empty COW memory");;;
  data <- memory_Read m 0 (memory_size i);;
  match data with
  | None => fail (EMsg "cannot read initialized Guest memory for COW image")
  | Some data =>
      first <- tick;;
      on_image id (fun moment =>
        captureBytes (fun _ => answer first) (os_pwrite moment) (answer moment) cowPageSize data)
  end.

Definition attachBytes (c : linuxCOW) (m : N) : M world unit :=
  i <- instance_of m;;
  of_res (attach_check c (memory_size i));;;
  on_error syscall (fun e => EWrap "map sealed COW image at existing address: " e "");;;
  touch i;;;
  update m (RModule (with_memory (cow_file c) i)).

Definition Attach (id : N) (m : N) : M world unit :=
  c <- image_of id;;
  i <- instance_of m;;
  (if (memory_size i <? cow_imageSize c)%N then
     grown <- memory_Grow m (u32 ((cow_imageSize c - memory_size i) / wasmPageSize));;
     reject (negb grown) (EMsg "cannot grow memory to COW image")
   else ret tt);;;
  i <- instance_of m;;
  data <- memory_Read m 0 (memory_size i);;
  match data with
  | None => fail (EMsg "cannot inspect Guest memory for COW attach")
  | Some _ => attachBytes c m
  end.

(** ** Runners *)

(** [defer func() { if failed { cleanup } }()] and [defer cleanup]. *)
Definition on_failure {S A} (m : M S A) (cleanup : M S unit) : M S A := fun s =>
  let '(r, s') := m s in match r with Ok _ => (r, s') | Err _ => (r, (cleanup s').2) end.

Definition finally {S A} (m : M S A) (cleanup : M S unit) : M S A := fun s =>
  let '(r, s') := m s in (r, (cleanup s').2).

Section Runner.
Context {C : Type} (iterate : Manifest C -> list (string * ToolSpec C)).

(** The world and the [*Runner] that a constructor fills in. *)
Record session := mkSession { ss_world : world; ss_runner : Runner C }.

Definition on_world {A} (m : M world A) : M session A := lift ss_world (fun w s => mkSession w (ss_runner s)) m.
Definition runner : M session (Runner C) := fun s => (Ok (ss_runner s), s).
Definition assign (f : Runner C -> Runner C) : M session unit := fun s => (Ok tt, mkSession (ss_world s) (f (ss_runner s))).

Definition set_preparedState (p : option preparedRecording) (r : Runner C) : Runner C :=
  mkRunner (ru_artifactID r) (ru_runtime r) (ru_code r) (ru_manifest r) (ru_guestManifest r) p (ru_image r) (ru_cow r)
    (ru_cowSeed r) (ru_workspaceImage r).
Definition set_image (image : option buffer) (r : Runner C) : Runner C :=
  mkRunner (ru_artifactID r) (ru_runtime r) (ru_code r) (ru_manifest r) (ru_guestManifest r) (ru_preparedState r) image
    (ru_cow r) (ru_cowSeed r) (ru_workspaceImage r).
Definition set_cow (cow : option N) (r : Runner C) : Runner C :=
  mkRunner (ru_artifactID r) (ru_runtime r) (ru_code r) (ru_manifest r) (ru_guestManifest r) (ru_preparedState r)
    (ru_image r) cow (ru_cowSeed r) (ru_workspaceImage r).
Definition set_cowSeed (seed : option N) (r : Runner C) : Runner C :=
  mkRunner (ru_artifactID r) (ru_runtime r) (ru_code r) (ru_manifest r) (ru_guestManifest r) (ru_preparedState r)
    (ru_image r) (ru_cow r) seed (ru_workspaceImage r).
Definition set_workspaceImage (workspace : bool) (r : Runner C) : Runner C :=
  mkRunner (ru_artifactID r) (ru_runtime r) (ru_code r) (ru_manifest r) (ru_guestManifest r) (ru_preparedState r)
    (ru_image r) (ru_cow r) (ru_cowSeed r) workspace.

(** [errors.Join] of two errors that may be nil. *)
Definition join (a b : option error) : option error :=
  match a, b with
  | None, None => None
  | _, _ => Some (EJoin (option_list a ++ option_list b))
  end.

Definition error_of {A} (r : res error A) : option error := match r with Ok _ => None | Err e => Some e end.

(** Closing an image that may be nil, after the error [err]. *)
Definition close_joined (image : option N) (err : option error) : M session (option error) :=
  match image with
  | None => ret err
  | Some id => r <- try_ (on_world (image_Close id));; ret (join err (error_of r))
  end.

(** [Runner.Close]. *)
Definition runner_Close : M session unit :=
  assign (set_image None);;;
  r <- runner;;
  closed <- try_ (on_world (runtime_Close (ru_runtime r)));;
  err <- close_joined (ru_cow r) (error_of closed);;
  assign (set_cow None);;;
  err <- close_joined (ru_cowSeed r) err;;
  assign (set_cowSeed None);;;
  match err with None => ret tt | Some e => fail e end.

(** The runner once its module is compiled. *)
Definition required_exports : list string := ["_initialize"; "init"; "alloc"; "release"; "execute"].

Definition missing_export (code : compiled) : option string :=
  list_find (fun name => bool_decide (name ∉ cm_functions code)) required_exports ≫= fun p => Some p.2.

Definition set_code (code : compiled) (r : Runner C) : Runner C :=
  mkRunner (ru_artifactID r) (ru_runtime r) code (ru_manifest r) (ru_guestManifest r) (ru_preparedState r)
    (ru_image r) (ru_cow r) (ru_cowSeed r) (ru_workspaceImage r).

Definition set_manifest (p : Manifest C * list guestToolSpec) (r : Runner C) : Runner C :=
  mkRunner (ru_artifactID r) (ru_runtime r) (ru_code r) p.1 p.2 (ru_preparedState r)
    (ru_image r) (ru_cow r) (ru_cowSeed r) (ru_workspaceImage r).

(** What [newRunner] does to the runner it has made, each [return] after a
    [Close]. *)
Definition load_runner (compileWasm : buffer) (manifest : Manifest C) : M session unit :=
  normalized <- of_res (normalizeManifest iterate manifest);;
  assign (set_manifest normalized);;;
  on_world syscall;;;
  on_world syscall;;;
  on_world syscall;;;
  code <- of_res (CompileModule compileWasm);;
  assign (set_code code);;;
  match missing_export code with
  | Some name => fail (EMsg ("missing Guest export: " +:+ name))
  | None => reject (bool_decide (cm_memory code = None)) (EMsg "missing Guest memory export")
  end.

(** A constructor: the runner after [m], or its error. *)
Definition constructed (m : M session unit) (r : Runner C) : M world (Runner C) := fun w =>
  let '(result, s) := on_failure m runner_Close (mkSession w r) in
  (match result with Ok _ => Ok (ss_runner s) | Err e => Err e end, ss_world s).

Definition artifact_id (wasm : buffer) : string := "sha256:" +:+ sha256_hex (foldr String EmptyString wasm).

Definition newRunner (compileWasm artifactWasm : buffer) (manifest : Manifest C) : M world (Runner C) :=
  runtime <- allocate (RRuntime true);;
  constructed (load_runner compileWasm manifest)
    (mkRunner (artifact_id artifactWasm) runtime (mkCompiled [] [] None) ∅ [] None None None None false).

Definition New (wasm : buffer) (manifest : Manifest C) : M world (Runner C) := newRunner wasm wasm manifest.

(** ** Guests *)

Record Guest := mkGuest { gu_module : guest_module; gu_inputs : inputs; gu_console : console }.

(** The recording of the attempt as the Guest left it. *)
Definition recording_of (i : inputs) (default : recording) : recording :=
  match i with Recorded rec => rec | System _ => default end.

(** [InstantiateModule] with the memory of [mapped]. *)
Definition instantiate_module (r : Runner C) (mapped : option N) : M world N :=
  syscall;;;
  p <- of_res (InstantiateModule (ru_code r));;
  allocate (RModule (mkInstance (ru_runtime r) (ru_code r) p.1 p.2 mapped true)).

(** The inputs after a start function: a recording goes on. *)
Definition inputs_after (i : inputs) (s : started globals) : inputs :=
  match i, sd_entropy s with
  | Recorded rec, Some (random, wall, mono) => Recorded (mkRecording (rec_seed rec) random wall mono)
  | _, _ => i
  end.

(** [ExportedFunction(name).Call] of a start function: its status. *)
Definition run_start (what name : string) (m : N) (mounted : bool) (i : inputs) (c : console) :
  M world (N * inputs * console) :=
  on_error syscall (fun e => EWrap what e c.2);;;
  guest <- instance_of m;;
  touch guest;;;
  let s := call_start name mounted i (in_memory guest) (in_globals guest) c in
  update m (RModule (with_state (sd_memory s) (sd_globals s) guest));;;
  match sd_status s with
  | Ok status => ret (status, inputs_after i s, console_after c s)
  | Err e => fail (EWrap what e (console_after c s).2)
  end.

(** Copying the prepared image into the memory. *)
Definition restore_copy (image : buffer) (m : N) : M world unit :=
  guest <- instance_of m;;
  let size := memory_size guest in
  let len := N.of_nat (length image) in
  reject (len <? size)%N (EMsg "prepared memory shape changed");;;
  (if (size <? len)%N then
     grown <- memory_Grow m (u32 (len - size) / 65536);;
     reject (negb grown) (EMsg "cannot grow memory to prepared image")
   else ret tt);;;
  written <- memory_Write m 0 image;;
  reject (negb written) (EMsg "cannot copy prepared memory").

(** The steps of [newGuest] after instantiation: the seed, ... *)
Definition attach_seed (r : Runner C) (m : N) : M world unit :=
  match ru_cowSeed r with Some seed => Attach seed m | None => ret tt end.

Definition image_ready (r : Runner C) : M world bool :=
  match ru_cow r with Some cow => image <- image_of cow;; ret (Ready image) | None => ret false end.

(** ... the initialized memory, which is prepared or made by [init], ... *)
Definition bring_up_guest (r : Runner C) (m : N) (mounted : bool) (i : inputs) (c : console) : M world (inputs * console) :=
  ready <- image_ready r;;
  match ready : bool, ru_cow r, ru_image r with
  | true, Some cow, _ => Attach cow m;;; ret (i, c)
  | _, _, None =>
      p <- run_start "init CPython: " "init" m mounted i c;;
      let '(status, i, c) := p in
      reject (negb (status =? 0)%N) (EMsg ("CPython initialization failed: " +:+ c.2));;;
      ret (i, c)
  | _, _, Some image => restore_copy image m;;; ret (i, c)
  end.

(** ... and the recording. *)
Definition resume_recording (r : Runner C) (recorded : option recording) (p : inputs * console) : M world (inputs * console) :=
  match recorded, ru_preparedState r with
  | Some rec, Some saved => rec <- of_res (restore (recording_of p.1 rec) saved);; ret (Recorded rec, p.2)
  | _, _ => ret p
  end.

Definition start_guest (r : Runner C) (m : N) (mounted : bool) (recorded : option recording) (i : inputs) :
  M world (inputs * console) :=
  attach_seed r m;;;
  p <- run_start "initialize Guest: " "_initialize" m mounted i ("", "");;
  let '(_, i, c) := p in
  p <- bring_up_guest r m mounted i c;;
  resume_recording r recorded p.

(** The mapping for the memory of a Guest. *)
Definition map_memory (r : Runner C) : M world (option N) :=
  match ru_cow r with
  | Some _ => mapping <- Allocator (cm_memory (ru_code r));; ret (Some mapping)
  | None => ret None
  end.

(** The entropy and clocks of [moduleConfig]. *)
Definition start_inputs (recorded : option recording) : M world inputs :=
  match recorded with Some rec => ret (Recorded rec) | None => moment <- tick;; ret (System moment) end.

(** [newGuest] of an attempt with a recording or without. *)
Definition newGuest (r : Runner C) (recorded : option recording) (mounted : bool) : M world Guest :=
  mapped <- map_memory r;;
  m <- on_failure (instantiate_module r mapped) (Free mapped);;
  let g := mkGuestModule m mapped in
  i <- start_inputs recorded;;
  p <- on_failure (start_guest r m mounted recorded i) (guest_Close g);;
  ret (mkGuest g p.1 p.2).

(** ** Preparation *)

(** [os.MkdirTemp] and [os.RemoveAll]. *)
Definition make_temp : M world N := syscall;;; allocate (RDir Held).

Definition remove_temp (id : N) : M world unit :=
  moment <- tick;; update id (RDir (match answer moment with Ok _ => Released | Err _ => Unreleasable end)).

(** [workspaceFSConfig]. *)
Definition workspaceFSConfig : M world unit :=
  on_error syscall (fun _ => EMsg "wazero does not support rooted workspace mounts").

(** A field of the runner set to a new image; it is nil when there is none. *)
Definition new_image (set : option N -> Runner C -> Runner C) : M session N :=
  made <- try_ (on_world cowmem_New);;
  match made with
  | Ok id => assign (set (Some id));;; ret id
  | Err e => assign (set None);;; fail e
  end.

Definition capture_seed (image : cowDataImage) : M session unit :=
  id <- new_image set_cowSeed;;
  on_world (image_CaptureSegments id (im_memorySize image) (map seed_segment (im_active image))).

(** [prepare] once it has an initialized Guest: the image, ... *)
Definition take_image (r : Runner C) (m : N) : M session unit :=
  match ru_cow r with
  | Some cow => on_world (image_Capture cow m)
  | None =>
      guest <- on_world (instance_of m);;
      data <- on_world (memory_Read m 0 (memory_size guest));;
      match data with
      | None | Some [] => fail (EMsg "cannot capture initialized Guest memory")
      | Some data => assign (set_image (Some data))
      end
  end.

(** ... the seed again, whose pages that capture has read, ... *)
Definition reseal_seed (r : Runner C) (transformed : option cowDataImage) (g : guest_module) : M session unit :=
  match transformed with
  | Some image =>
      on_world (guest_Close g);;;
      match ru_cowSeed r with Some seed => on_world (image_Close seed) | None => ret tt end;;;
      capture_seed image
  | None => ret tt
  end.

(** ... and the recording. *)
Definition save_recording (recorded : option recording) (i : inputs) : M session unit :=
  match recorded with
  | Some rec => saved <- of_res (capture (recording_of i rec));; assign (set_preparedState (Some saved))
  | None => ret tt
  end.

Definition capture_guest (transformed : option cowDataImage) (recorded : option recording) (g : Guest) : M session unit :=
  r <- runner;;
  take_image r (gm_module (gu_module g));;;
  reseal_seed r transformed (gu_module g);;;
  save_recording recorded (gu_inputs g).

(** [prepare] once it has a runner. *)
Definition make_images (transformed : option cowDataImage) (cow : bool) : M session unit :=
  if cow then
    new_image set_cow;;;
    match transformed with Some image => capture_seed image | None => ret tt end
  else ret tt.

Definition capture_initialized (transformed : option cowDataImage) (recorded : option recording) (workspace : bool) :
  M session unit :=
  r <- runner;;
  g <- on_world (newGuest r recorded workspace);;
  finally (capture_guest transformed recorded g) (on_world (guest_Close (gu_module g))).

Definition prepare_runner (transformed : option cowDataImage) (cow workspace : bool) (seed : option string) : M session unit :=
  make_images transformed cow;;;
  assign (set_workspaceImage workspace);;;
  let recorded := newRecording <$> seed in
  if workspace then
    empty <- on_world make_temp;;
    finally (on_world workspaceFSConfig;;; capture_initialized transformed recorded workspace)
      (on_world (remove_temp empty))
  else capture_initialized transformed recorded workspace.

Definition prepare (wasm : buffer) (manifest : Manifest C) (cow workspace : bool) (seed : list string) (dataImage : bool) :
  M world (Runner C) :=
  reject ((1 <? length seed)%nat || bool_decide (seed = [""])) (EMsg "preparation accepts one nonempty recording seed");;;
  transformed <- (if cow && dataImage
                  then match transformCOWDataImage wasm with Ok image => ret (Some image) | Err text => fail (EMsg text) end
                  else ret None);;
  r <- newRunner (from_option im_shell wasm transformed) wasm manifest;;
  constructed (prepare_runner transformed cow workspace (head seed)) r.

(** [COWOptions] is its one field. *)
Definition cowDataImageOption (options : list bool) : res error bool :=
  if (1 <? length options)%nat then Err (EMsg "COW accepts at most one options value")
  else Ok (bool_decide (options = [true])).

Definition NewPrepared (wasm : buffer) (manifest : Manifest C) : M world (Runner C) :=
  prepare wasm manifest false false [] false.

Definition NewPreparedCOW (wasm : buffer) (manifest : Manifest C) (options : list bool) : M world (Runner C) :=
  dataImage <- of_res (cowDataImageOption options);; prepare wasm manifest true false [] dataImage.

Definition NewPreparedWorkspace (wasm : buffer) (manifest : Manifest C) : M world (Runner C) :=
  prepare wasm manifest false true [] false.

Definition NewPreparedWorkspaceCOW (wasm : buffer) (manifest : Manifest C) : M world (Runner C) :=
  prepare wasm manifest true true [] false.

Definition NewPreparedWorkspaceCOWWithOptions (wasm : buffer) (manifest : Manifest C) (options : list bool) :
  M world (Runner C) :=
  dataImage <- of_res (cowDataImageOption options);; prepare wasm manifest true true [] dataImage.

Definition NewPreparedRecorded (wasm : buffer) (manifest : Manifest C) (seed : string) : M world (Runner C) :=
  prepare wasm manifest false false [seed] false.

Definition NewPreparedRecordedCOW (wasm : buffer) (manifest : Manifest C) (seed : string) (options : list bool) :
  M world (Runner C) :=
  dataImage <- of_res (cowDataImageOption options);; prepare wasm manifest true false [seed] dataImage.
End Runner.

(** ** Attempts *)

Section Run.
Context {S : Type} (json_error : string -> error).

(** How a Host tool is called on the host state. *)
Notation host_call := (option string -> string -> S -> tool_result * S).

Definition host_tools (manifest : Manifest host_call) : gmap string (HostTool S) :=
  omap (fun spec => (fun call => mkHostTool call (ts_AllowEarlyRead spec)) <$> ts_Call spec) manifest.

(** A workspace lease on the host state. *)
Context {Lease : Type} (BeginRun : Lease -> S -> res error unit * S) (EndRun : Lease -> S -> S).

(** The output and the error of a run on the world and the host state. *)
Definition Run_ : Type := world * S -> Output * option error * (world * S).

Definition refuse (e : error) : Run_ := fun ws => (no_output, Some e, ws).

(** [Runner.run]; [executeGuest] and [runFailure] are those of the bridge. *)
Definition run (r : Runner host_call) (source inputs : string) (earlyReads : bool) (recorded : option recording)
    (journal : option (Journal S)) (mounted : bool) : Run_ := fun ws =>
  let '(w, s) := ws in
  match marshalRunRequest json_error (ru_guestManifest r) source inputs earlyReads mounted with
  | Err e => (no_output, Some e, (w, s))
  | Ok request =>
      match newGuest r recorded mounted w with
      | (Err e, w) => (no_output, Some e, (w, s))
      | (Ok g, w) =>
          match instance_of (gm_module (gu_module g)) w with
          | (Err e, w) => (no_output, Some e, (w, s))
          | (Ok guest, w) =>
              let w := (touch guest w).2 in
              let program := call_execute mounted (gu_inputs g) (in_memory guest) (in_globals guest) (gu_console g) request in
              let '(e, stdout, s) :=
                exec_guest json_error (host_tools (ru_manifest r)) journal program (newRun earlyReads) (gu_console g).1 s in
              (run_result e stdout, ((guest_Close (gu_module g) w).2, s))
          end
      end
  end.

Definition is_prepared {C} (r : Runner C) : bool := bool_decide (is_Some (ru_image r)) || bool_decide (is_Some (ru_cow r)).

Definition workspace_only : error := EMsg "workspace-prepared runner requires RunWorkspace".

Definition Run (r : Runner host_call) (source inputs : string) : Run_ :=
  if ru_workspaceImage r then refuse workspace_only else run r source inputs false None None false.

Definition RunWithEarlyReads (r : Runner host_call) (source inputs : string) : Run_ :=
  if ru_workspaceImage r then refuse workspace_only else run r source inputs true None None false.

Definition RunRecorded (r : Runner host_call) (source inputs seed : string) (journal : option (Journal S)) : Run_ :=
  if bool_decide (journal = None) || bool_decide (seed = "")
  then refuse (EMsg "recorded runs require a journal and seed")
  else if is_prepared r && negb (from_option (fun saved => bool_decide (pr_seed saved = seed)) false (ru_preparedState r))
  then refuse (EMsg "prepared recording seed does not match")
  else run r source inputs false (Some (newRecording seed)) journal false.

Definition RunWorkspace (r : Runner host_call) (source inputs : string) (lease : option Lease) : Run_ := fun ws =>
  match lease with
  | None => refuse (EMsg "nil workspace lease") ws
  | Some lease =>
      let '(w, s) := ws in
      match BeginRun lease s with
      | (Err e, s) => refuse e (w, s)
      | (Ok _, s) =>
          let '(out, (w, s)) :=
            if is_prepared r && negb (ru_workspaceImage r)
            then refuse (EMsg "prepared runner was not captured for workspace mounts") (w, s)
            else match workspaceFSConfig w with
                 | (Err e, w) => refuse e (w, s)
                 | (Ok _, w) => run r source inputs false None None true (w, s)
                 end in
          (out, (w, EndRun lease s))
      end
  end.
End Run.
End Prepared.
