(* ===== verification/PreparedSpec.v ===== *)
(** * PreparedSpec: what the operations on Guests do

    The effect of every operation of [Prepared] on the world, as an equation; a
    Guest is one entry of the table, and starting it changes no other. *)

From S2P Require Import Prelude Errors Effects Json Manifest Bridge Leb128 Sha256 Cowmem CowmemProps DataImage Prepared.

Section Spec.
Context `{HR : RandomStream} `{HW : @Wasm HR}.
Context (os : nat -> option error) (os_pwrite : nat -> buffer -> Z -> res error N) (cowPageSize : N).

(** ** Worlds *)

(** Calls [from] up to [to] hold one that failed. *)
Definition fault_between (from to : nat) : Prop := exists n, (from <= n < to)%nat /\ os n <> None.

Lemma fault_wider a b c d : (c <= a)%nat -> (b <= d)%nat -> fault_between a b -> fault_between c d.
Proof. intros H1 H2 (n & Hn & Hf). exists n. split; [lia | done]. Qed.

Definition at_tick (t : nat) (w : world) : world := mkWorld t (w_next w) (w_table w) (w_crashed w).

(** The world in which module [m] is [i]. *)
Definition at_module (w : world) (m : N) (t : nat) (i : instance) : world :=
  mkWorld t (w_next w) (<[m := RModule i]> (w_table w)) (w_crashed w).

Definition module_at (w : world) (m : N) (i : instance) : Prop := w_table w !! m = Some (RModule i).

Lemma at_tick_module w m t i : module_at w m i -> at_tick t w = at_module w m t i.
Proof. intros Hm. unfold at_tick, at_module. by rewrite insert_id. Qed.

Lemma at_module_at w m t i : module_at (at_module w m t i) m i.
Proof. apply lookup_insert_eq. Qed.

Lemma at_module_twice w m t i t' i' : at_module (at_module w m t i) m t' i' = at_module w m t' i'.
Proof. unfold at_module. simpl. by rewrite insert_insert_eq. Qed.

(** The mapping behind the memory of a module is there. *)
Definition mapping_at (w : world) (mapped : option N) (max : N) : Prop :=
  match mapped with Some id => w_table w !! id = Some (RMapping max Held) | None => True end.

Lemma mapping_at_module w m t i i' mapped max :
  module_at w m i -> mapping_at w mapped max -> mapping_at (at_module w m t i') mapped max.
Proof.
  unfold module_at, mapping_at. destruct mapped as [id |]; [| done]. intros Hm Hid.
  unfold at_module. simpl. rewrite lookup_insert_ne; [done |]. intros ->. congruence.
Qed.

Lemma image_at_module w m t i i' id c :
  module_at w m i -> w_table w !! id = Some (RImage c) -> w_table (at_module w m t i') !! id = Some (RImage c).
Proof. unfold module_at. intros Hm Hid. simpl. rewrite lookup_insert_ne; [done |]. intros ->. congruence. Qed.

(** Operations keep what a module is. *)
Definition same_guest (i i' : instance) : Prop :=
  in_runtime i' = in_runtime i /\ in_code i' = in_code i /\ in_mapping i' = in_mapping i /\ in_open i' = in_open i.

Lemma with_memory_id i : with_memory (in_memory i) i = i.
Proof. by destruct i. Qed.

(** ** Memories *)

Lemma syscall_answer w : syscall os w = (answer os (w_tick w), at_tick (S (w_tick w)) w).
Proof. unfold syscall, bind, tick. simpl. by destruct (answer os (w_tick w)). Qed.

Lemma answer_Err n e : answer os n = Err e -> os n <> None.
Proof. unfold answer. by destruct (os n). Qed.

Lemma instance_of_at w m i : module_at w m i -> instance_of m w = (Ok i, w).
Proof. unfold instance_of, module_at. by intros ->. Qed.

Lemma image_of_at w id c : w_table w !! id = Some (RImage c) -> image_of id w = (Ok c, w).
Proof. unfold image_of. by intros ->. Qed.

Lemma touch_safe w i max : mapping_at w (in_mapping i) max -> touch i w = (Ok tt, w).
Proof. unfold touch, mapping_at, is_open. destruct (in_mapping i) as [id |]; [| done]. by intros ->. Qed.

Lemma memory_Read_all w m i max :
  module_at w m i -> mapping_at w (in_mapping i) max ->
  memory_Read m 0 (memory_size i) w = (Ok (Some (in_memory i)), w).
Proof.
  intros Hm Hmap. unfold memory_Read, bind. rewrite (instance_of_at _ _ _ Hm), (touch_safe _ _ _ Hmap).
  unfold ret. rewrite N.add_0_l, N.leb_refl. simpl. unfold memory_size. by rewrite Nat2N.id, firstn_all.
Qed.

Lemma memory_Write_whole w m i max data :
  module_at w m i -> mapping_at w (in_mapping i) max -> length data = length (in_memory i) ->
  memory_Write m 0 data w = (Ok true, at_module w m (w_tick w) (with_memory data i)).
Proof.
  intros Hm Hmap Hlen. unfold memory_Write, bind. rewrite (instance_of_at _ _ _ Hm), (touch_safe _ _ _ Hmap).
  unfold memory_size. rewrite N.add_0_l, (proj2 (N.leb_le _ _)) by lia. by rewrite write_file_whole.
Qed.

(** A memory of that many bytes is within its limits. *)
Definition growable (i : instance) (max size : N) : Prop :=
  (size <= memory_limit (in_globals i) * wasmPageSize)%N
  /\ match in_mapping i with Some _ => (size <= max /\ size < 2 ^ 63)%N | None => True end.

Lemma memory_Grow_spec w m i max delta :
  module_at w m i -> mapping_at w (in_mapping i) max ->
  let size := (memory_size i + delta * wasmPageSize)%N in
  (memory_Grow m delta w = (Ok false, w) /\ ~ growable i max size)
  \/ memory_Grow m delta w = (Ok true, at_module w m (w_tick w) (with_memory (resize size (in_memory i)) i)).
Proof.
  intros Hm Hmap size. unfold memory_Grow, bind. rewrite (instance_of_at _ _ _ Hm). fold size. unfold growable.
  destruct (N.ltb_spec (memory_limit (in_globals i) * wasmPageSize) size) as [Hlim | Hlim].
  { left. split; [done | lia]. }
  pose proof (touch_safe _ _ _ Hmap) as Ht. unfold Reallocate, mapping_of, bind, ret, mapping_at in *.
  destruct (in_mapping i) as [id |]; [rewrite Hmap |]; cbn.
  2:{ right. by rewrite Ht. }
  destruct (N.ltb_spec max size), (N.ltb_spec (2 ^ 63 - 1) size); cbn; [left | left | left |].
  1-3: split; [done | lia].
  right. by rewrite Ht.
Qed.

(** Growing a memory to a size of whole pages by the number the code computes. *)
Lemma grown_exactly (have want : N) :
  (have <= want)%N -> (want < 2 ^ 48)%N -> (have mod wasmPageSize = 0)%N -> (want mod wasmPageSize = 0)%N ->
  (have + u32 ((want - have) / wasmPageSize) * wasmPageSize = want)%N.
Proof.
  unfold wasmPageSize, u32. intros Hle Hw H1 H2.
  apply N.Div0.mod_divides in H1 as [a ->]. apply N.Div0.mod_divides in H2 as [b ->].
  replace (65536 * b - 65536 * a)%N with ((b - a) * 65536)%N by lia. rewrite N.div_mul by done.
  rewrite N.mod_small; [nia |]. assert (2 ^ 48 = 65536 * 2 ^ 32)%N by done. nia.
Qed.

Lemma copied_exactly (have want : N) :
  (have <= want)%N -> (want < 2 ^ 32)%N -> (have mod wasmPageSize = 0)%N -> (want mod wasmPageSize = 0)%N ->
  (have + u32 (want - have) / 65536 * wasmPageSize = want)%N.
Proof.
  unfold wasmPageSize, u32. intros Hle Hw H1 H2. rewrite (N.mod_small (want - have)) by lia.
  apply N.Div0.mod_divides in H1 as [a ->]. apply N.Div0.mod_divides in H2 as [b ->].
  replace (65536 * b - 65536 * a)%N with ((b - a) * 65536)%N by lia. rewrite N.div_mul by done. nia.
Qed.

(** ** Attaching and copying images *)

Definition pages_up_to (have want : N) : Prop :=
  (have <= want)%N /\ (want < 2 ^ 48)%N /\ (have mod wasmPageSize = 0)%N /\ (want mod wasmPageSize = 0)%N.

(** Captured images hold as many bytes as they say. *)
Definition captured (c : linuxCOW) : Prop := cow_imageSize c = N.of_nat (length (cow_file c)).

Definition attachable (i : instance) (max : N) (c : linuxCOW) : Prop :=
  cow_closed c = false /\ cow_imageSize c <> 0%N /\ pages_up_to (memory_size i) (cow_imageSize c)
  /\ growable i max (cow_imageSize c).

(** The effect of an operation on module [m]: its memory becomes [good], or it
    fails for a call that failed or against [can]. *)
Definition sets_memory (op : M world unit) (w : world) (m : N) (i : instance) (can : Prop) (good : buffer) : Prop :=
  exists r t mem, op w = (r, at_module w m t (with_memory mem i)) /\ (w_tick w <= t)%nat
    /\ match r with Ok _ => mem = good | Err _ => can -> fault_between (w_tick w) t end.

Lemma sets_memory_refused w m i can good e :
  module_at w m i -> (can -> False) -> sets_memory (fail e) w m i can good.
Proof.
  intros Hm Hnot. exists (Err e), (w_tick w), (in_memory i).
  rewrite with_memory_id, <- (at_tick_module w m (w_tick w) i) by done.
  split_and!; [by destruct w | lia | done].
Qed.

Lemma attach_tail w m i max c :
  module_at w m i -> mapping_at w (in_mapping i) max ->
  sets_memory (attachBytes os c m) w m i
    (cow_closed c = false /\ cow_imageSize c <> 0%N /\ memory_size i = cow_imageSize c) (cow_file c).
Proof.
  intros Hm Hmap. unfold attachBytes.
  destruct (attach_check c (memory_size i)) as [[] | e] eqn:Hc.
  - exists (match answer os (w_tick w) with Ok _ => Ok tt | Err e => Err (EWrap "map sealed COW image at existing address: " e "") end),
      (S (w_tick w)), (match answer os (w_tick w) with Ok _ => cow_file c | Err _ => in_memory i end).
    unfold bind at 1. rewrite (instance_of_at _ _ _ Hm), Hc. unfold bind, of_res, ret, on_error.
    rewrite syscall_answer. destruct (answer os (w_tick w)) as [[] | e] eqn:Ha.
    + rewrite (touch_safe _ i max) by (by destruct (in_mapping i)). split_and!; [done | lia | done].
    + rewrite with_memory_id, (at_tick_module w m _ i Hm). split_and!; [done | lia |].
      intros _. exists (w_tick w). split; [lia | by eapply answer_Err].
  - assert (attachBytes os c m w = fail e w) as Heq.
    { unfold attachBytes, bind. rewrite (instance_of_at _ _ _ Hm), Hc. done. }
    unfold attachBytes in Heq. unfold sets_memory. rewrite Heq. apply sets_memory_refused; [done |].
    intros (H1 & H2 & H3). unfold attach_check in Hc. rewrite H1, H3, N.eqb_refl in Hc.
    rewrite (proj2 (N.eqb_neq _ _) H2) in Hc. done.
Qed.

Lemma Attach_spec id w m i max c :
  module_at w m i -> mapping_at w (in_mapping i) max -> w_table w !! id = Some (RImage c) ->
  sets_memory (Attach os id m) w m i (attachable i max c) (cow_file c).
Proof.
  intros Hm Hmap Hc.
  assert (forall w' mem, w' = at_module w m (w_tick w) (with_memory mem i) ->
    ((guest <- instance_of m;; data <- memory_Read m 0 (memory_size guest);;
      match data with
      | None => fail (EMsg "cannot inspect Guest memory for COW attach")
      | Some _ => attachBytes os c m
      end) w' = attachBytes os c m w')) as Hread.
  { intros w' mem ->. unfold bind. rewrite (instance_of_at _ _ (with_memory mem i)) by apply at_module_at.
    rewrite (memory_Read_all _ _ _ max); [done | apply at_module_at | by apply (mapping_at_module w m _ i)]. }
  assert (forall mem, (attachable i max c -> N.of_nat (length mem) = cow_imageSize c) ->
    Attach os id m w = attachBytes os c m (at_module w m (w_tick w) (with_memory mem i)) ->
    sets_memory (Attach os id m) w m i (attachable i max c) (cow_file c)) as Htail.
  { intros mem Hlen Heq.
    destruct (attach_tail (at_module w m (w_tick w) (with_memory mem i)) m (with_memory mem i) max c)
      as (r & t & mem' & Hrun & Ht & Hr); [apply at_module_at | by apply (mapping_at_module w m _ i) |].
    exists r, t, mem'. rewrite Heq, Hrun, at_module_twice. split_and!; [done | done |].
    destruct r; [done |]. intros Hcan. apply Hr. destruct Hcan as (H1 & H2 & H3 & H4).
    split_and!; [done | done |]. apply Hlen. by split_and!. }
  unfold Attach in *. unfold bind at 1 in Htail. unfold bind at 1 in Htail.
  rewrite (image_of_at _ _ _ Hc), (instance_of_at _ _ _ Hm) in Htail.
  destruct (N.ltb_spec (memory_size i) (cow_imageSize c)) as [Hlt | Hge].
  - destruct (memory_Grow_spec w m i max (u32 ((cow_imageSize c - memory_size i) / wasmPageSize)) Hm Hmap) as [[Hg Hno] | Hg].
    + assert (forall P Q, sets_memory (fail (EMsg "cannot grow memory to COW image")) w m i P Q ->
        sets_memory (Attach os id m) w m i P Q) as Hsame.
      { intros P Q (r & t & mem & Hrun & ?). exists r, t, mem. split; [| done]. rewrite <- Hrun.
        unfold Attach, bind. rewrite (image_of_at _ _ _ Hc), (instance_of_at _ _ _ Hm).
        rewrite (proj2 (N.ltb_lt _ _) Hlt), Hg. done. }
      apply Hsame, sets_memory_refused; [done |]. intros (_ & _ & (H1 & H2 & H3 & H4) & Hgrow).
      apply Hno. by rewrite grown_exactly.
    + apply (Htail (resize (memory_size i + u32 ((cow_imageSize c - memory_size i) / wasmPageSize) * wasmPageSize) (in_memory i))).
      * intros (_ & _ & (H1 & H2 & H3 & H4) & _). rewrite resize_length, grown_exactly by done. lia.
      * unfold bind, reject, ret. rewrite Hg. simpl negb. cbn iota. by eapply Hread.
  - apply (Htail (in_memory i)).
    + intros (_ & _ & (H1 & _) & _). unfold memory_size in *. lia.
    + assert (w = at_module w m (w_tick w) (with_memory (in_memory i) i)) as Hw.
      { rewrite with_memory_id, <- at_tick_module by done. by destruct w. }
      rewrite <- Hw. unfold bind, ret. by eapply Hread.
Qed.

Definition copyable (i : instance) (max : N) (image : buffer) : Prop :=
  pages_up_to (memory_size i) (N.of_nat (length image)) /\ (N.of_nat (length image) < 2 ^ 32)%N
  /\ growable i max (N.of_nat (length image)).

Lemma restore_tail w m i max image :
  module_at w m i -> mapping_at w (in_mapping i) max -> (length (in_memory i) <= length image)%nat ->
  sets_memory (written <- memory_Write m 0 image;; reject (negb written) (EMsg "cannot copy prepared memory")) w m i
    (length (in_memory i) = length image) image.
Proof.
  intros Hm Hmap Hle. destruct (Nat.eq_dec (length image) (length (in_memory i))) as [Heq | Hne].
  - exists (Ok tt), (w_tick w), image. unfold bind. rewrite (memory_Write_whole _ _ _ _ _ Hm Hmap Heq). by split_and!.
  - exists (Err (EMsg "cannot copy prepared memory")), (w_tick w), (in_memory i).
    rewrite with_memory_id, <- at_tick_module by done. split_and!; [| lia | lia].
    unfold memory_Write, bind. rewrite (instance_of_at _ _ _ Hm), (touch_safe _ _ _ Hmap).
    unfold memory_size. rewrite N.add_0_l, (proj2 (N.leb_gt _ _)) by lia. by destruct w.
Qed.

Lemma restore_copy_spec image w m i max :
  module_at w m i -> mapping_at w (in_mapping i) max ->
  sets_memory (restore_copy image m) w m i (copyable i max image) image.
Proof.
  intros Hm Hmap. set (len := N.of_nat (length image)).
  assert (forall mem, (length mem <= length image)%nat -> (copyable i max image -> length mem = length image) ->
    restore_copy image m w = (written <- memory_Write m 0 image;; reject (negb written) (EMsg "cannot copy prepared memory"))
                               (at_module w m (w_tick w) (with_memory mem i)) ->
    sets_memory (restore_copy image m) w m i (copyable i max image) image) as Htail.
  { intros mem Hle Hlen Heq.
    destruct (restore_tail (at_module w m (w_tick w) (with_memory mem i)) m (with_memory mem i) max image)
      as (r & t & mem' & Hrun & Ht & Hr); [apply at_module_at | by apply (mapping_at_module w m _ i) | done |].
    exists r, t, mem'. rewrite Heq, Hrun, at_module_twice. split_and!; [done | done |].
    destruct r; [done |]. intros Hcan. by apply Hr, Hlen. }
  unfold restore_copy in *. unfold bind at 1 in Htail. rewrite (instance_of_at _ _ _ Hm) in Htail. fold len in Htail |- *.
  assert (forall e P Q, restore_copy image m w = (Err e, w) -> (P -> False) -> sets_memory (restore_copy image m) w m i P Q) as Hrefuse.
  { intros e P Q Heq Hno. destruct (sets_memory_refused w m i P Q e Hm Hno) as (r & t & mem & Hrun & Hrest).
    exists r, t, mem. by rewrite Heq, <- Hrun. }
  unfold restore_copy in Hrefuse. fold len in Hrefuse.
  destruct (N.ltb_spec len (memory_size i)) as [Hlt | Hge].
  { eapply Hrefuse; [| intros ((? & _) & _); unfold len in *; lia].
    unfold bind. by rewrite (instance_of_at _ _ _ Hm), (proj2 (N.ltb_lt _ _) Hlt). }
  destruct (N.ltb_spec (memory_size i) len) as [Hlt | Hle].
  - destruct (memory_Grow_spec w m i max (u32 (len - memory_size i) / 65536) Hm Hmap) as [[Hg Hno] | Hg].
    + eapply Hrefuse.
      { unfold bind, reject, ret. rewrite (instance_of_at _ _ _ Hm), (proj2 (N.ltb_ge _ _) Hge), (proj2 (N.ltb_lt _ _) Hlt), Hg. done. }
      intros ((H1 & H2 & H3 & H4) & Hsmall & Hgrow). apply Hno.
      rewrite copied_exactly by done. done.
    + eapply Htail; [| | unfold bind, reject, ret; rewrite Hg; simpl negb; cbn iota; reflexivity].
      * rewrite resize_length. pose proof (N.Div0.mul_div_le (u32 (len - memory_size i)) 65536).
        assert (u32 (len - memory_size i) <= len - memory_size i)%N by apply N.Div0.mod_le.
        unfold wasmPageSize, len in *. lia.
      * intros ((H1 & H2 & H3 & H4) & Hsmall & Hgrow). rewrite resize_length, copied_exactly by done. unfold len. lia.
  - apply (Htail (in_memory i)).
    + unfold memory_size, len in *. lia.
    + intros ((H1 & _) & _). unfold memory_size, len in *. lia.
    + rewrite with_memory_id, <- at_tick_module by done. unfold bind, reject, ret. by destruct w.
Qed.

(** ** Starting a Guest *)

Lemma run_start_spec what name m mounted i c w guest max :
  module_at w m guest -> mapping_at w (in_mapping guest) max ->
  let s := call_start name mounted i (in_memory guest) (in_globals guest) c in
  (run_start os what name m mounted i c w
   = (match sd_status s with Ok status => Ok (status, inputs_after i s, console_after c s) | Err e => Err (EWrap what e (console_after c s).2) end,
      at_module w m (S (w_tick w)) (with_state (sd_memory s) (sd_globals s) guest)))
  \/ exists e, run_start os what name m mounted i c w = (Err e, at_tick (S (w_tick w)) w)
       /\ fault_between (w_tick w) (S (w_tick w)).
Proof.
  intros Hm Hmap s. unfold run_start, bind, on_error. rewrite syscall_answer.
  destruct (answer os (w_tick w)) as [[] | e] eqn:Ha.
  - left. rewrite (instance_of_at _ m guest), (touch_safe _ guest max) by (by destruct (in_mapping guest)).
    fold s. by destruct (sd_status s).
  - right. eexists. split; [done |]. exists (w_tick w). split; [lia | by eapply answer_Err].
Qed.

(** The memory that a prepared Guest gets, and the memory of the seed. *)
Definition file_at (w : world) (id : option N) : option linuxCOW :=
  id ≫= fun id => match w_table w !! id with Some (RImage c) => Some c | _ => None end.

Definition prepared_memory {C} (w : world) (r : Runner C) : option buffer :=
  match file_at w (ru_cow r) with
  | Some c => if Ready c then Some (cow_file c) else ru_image r
  | None => ru_image r
  end.

Definition seed_memory {C} (w : world) (r : Runner C) : option buffer := cow_file <$> file_at w (ru_cowSeed r).

(** What a start leaves when no call fails and the images fit: the inputs, the
    console, the memory and the globals. *)
Definition start_state : Type := inputs * console * buffer * globals.

Definition initialize (mounted : bool) (i : inputs) (mem : buffer) (g : globals) : option start_state :=
  let s := call_start "_initialize" mounted i mem g ("", "") in
  match sd_status s with Ok _ => Some (inputs_after i s, console_after ("", "") s, sd_memory s, sd_globals s) | Err _ => None end.

Definition init_python (mounted : bool) (s : start_state) : option start_state :=
  let '(i, c, mem, g) := s in
  let s := call_start "init" mounted i mem g c in
  match sd_status s with
  | Ok 0%N => Some (inputs_after i s, console_after c s, sd_memory s, sd_globals s)
  | _ => None
  end.

Definition bring_up (image : option buffer) (mounted : bool) (s : start_state) : option start_state :=
  match image with
  | Some image => let '(i, c, _, g) := s in Some (i, c, image, g)
  | None => init_python mounted s
  end.

Definition restore_inputs (recorded : option recording) (saved : option preparedRecording) (s : start_state) : option start_state :=
  let '(i, c, mem, g) := s in
  match recorded, saved with
  | Some rec, Some saved =>
      match restore (recording_of i rec) saved with Ok rec => Some (Recorded rec, c, mem, g) | Err _ => None end
  | _, _ => Some s
  end.

Definition pure_start (seed image : option buffer) (saved : option preparedRecording) (mounted : bool)
    (recorded : option recording) (i : inputs) (mem : buffer) (g : globals) : option start_state :=
  s ← initialize mounted i (default mem seed) g;
  s ← bring_up image mounted s;
  restore_inputs recorded saved s.

(** The images that a runner names are there. *)
Definition images_at {C} (w : world) (r : Runner C) : Prop :=
  (forall id, ru_cow r = Some id -> exists c, w_table w !! id = Some (RImage c))
  /\ (forall id, ru_cowSeed r = Some id -> exists c, w_table w !! id = Some (RImage c)).

(** The images fit the memory of the Guest. *)
Definition images_fit {C} (w : world) (r : Runner C) (mounted : bool) (i : inputs) (guest : instance) (max : N) : Prop :=
  (forall id c, ru_cowSeed r = Some id -> w_table w !! id = Some (RImage c) -> attachable guest max c)
  /\ (forall i' c mem g, initialize mounted i (default (in_memory guest) (seed_memory w r)) (in_globals guest) = Some (i', c, mem, g) ->
        (forall id c, ru_cow r = Some id -> w_table w !! id = Some (RImage c) -> Ready c = true ->
           attachable (with_state mem g guest) max c)
        /\ (forall image, ru_image r = Some image -> copyable (with_state mem g guest) max image)).

(** The effect of an operation on a Guest: it changes the module and nothing
    else, to a state that is [good]; or it fails for a call that failed or
    against [can]. *)
Definition drives {A} (op : M world A) (w : world) (m : N) (i : instance) (can : Prop) (good : A -> buffer -> globals -> Prop) :
  Prop :=
  exists r t mem g, op w = (r, at_module w m t (with_state mem g i)) /\ (w_tick w <= t)%nat
    /\ match r with Ok a => good a mem g | Err _ => can -> fault_between (w_tick w) t end.

Lemma drives_bind {A B} (op : M world A) (f : A -> M world B) w m i (can : Prop) good (can' : A -> buffer -> globals -> Prop) good' :
  drives op w m i can good ->
  (forall a t mem g, good a mem g -> (w_tick w <= t)%nat ->
     drives (f a) (at_module w m t (with_state mem g i)) m (with_state mem g i) (can' a mem g) good') ->
  drives (bind op f) w m i (can /\ forall a mem g, good a mem g -> can' a mem g) good'.
Proof.
  intros (r & t & mem & g & Hop & Ht & Hr) Hf. unfold drives, bind. rewrite Hop. destruct r as [a | e].
  - destruct (Hf a t mem g Hr Ht) as (r' & t' & mem' & g' & Hop' & Ht' & Hr'). simpl in Ht'.
    exists r', t', mem', g'. rewrite Hop', at_module_twice. split_and!; [done | lia |].
    destruct r'; [done |]. intros [_ Hcan]. eapply fault_wider; [exact Ht | reflexivity |]. apply Hr'. by apply Hcan.
  - exists (Err e), t, mem, g. split_and!; [done | done |]. intros [Hcan _]. by apply Hr.
Qed.

Lemma drives_weaken {A} (op : M world A) w m i (can can' : Prop) (good good' : A -> buffer -> globals -> Prop) :
  drives op w m i can good -> (can' -> can) -> (forall a mem g, good a mem g -> good' a mem g) -> drives op w m i can' good'.
Proof.
  intros (r & t & mem & g & Hop & Ht & Hr) Hcan Hgood. exists r, t, mem, g. split_and!; [done | done |].
  destruct r; auto.
Qed.

Lemma with_state_id i : with_state (in_memory i) (in_globals i) i = i.
Proof. by destruct i. Qed.

Lemma drives_res {A} (r : res error A) w m i :
  module_at w m i ->
  drives (fun w => (r, w)) w m i (exists a, r = Ok a) (fun a mem g => r = Ok a /\ mem = in_memory i /\ g = in_globals i).
Proof.
  intros Hm. exists r, (w_tick w), (in_memory i), (in_globals i).
  rewrite with_state_id, <- at_tick_module by done. split_and!; [by destruct w | lia |].
  destruct r; [done |]. by intros [? ?].
Qed.

Lemma sets_memory_drives op w m i can good :
  sets_memory op w m i can good -> drives op w m i can (fun _ mem g => mem = good /\ g = in_globals i).
Proof.
  intros (r & t & mem & Hop & Ht & Hr). exists r, t, mem, (in_globals i). split_and!; [done | done |]. by destruct r.
Qed.

Lemma run_start_drives what name m mounted i c w guest max :
  module_at w m guest -> mapping_at w (in_mapping guest) max ->
  let s := call_start name mounted i (in_memory guest) (in_globals guest) c in
  drives (run_start os what name m mounted i c) w m guest (exists status, sd_status s = Ok status)
    (fun p mem g => sd_status s = Ok p.1.1 /\ p.1.2 = inputs_after i s /\ p.2 = console_after c s
                    /\ mem = sd_memory s /\ g = sd_globals s).
Proof.
  intros Hm Hmap s. destruct (run_start_spec what name m mounted i c w guest max Hm Hmap) as [Hrun | (e & Hrun & Hf)].
  - fold s in Hrun. eexists _, _, _, _. split_and!; [exact Hrun | lia |].
    destruct (sd_status s); [done |]. by intros [? ?].
  - exists (Err e), (S (w_tick w)), (in_memory guest), (in_globals guest).
    rewrite with_state_id, <- at_tick_module by done. by split_and!; [| lia |].
Qed.

Lemma file_at_Some w id c : w_table w !! id = Some (RImage c) -> file_at w (Some id) = Some c.
Proof. intros Hid. unfold file_at. simpl. by rewrite Hid. Qed.

(** The steps of a start. *)
Lemma attach_seed_drives {C} (r : Runner C) m w guest max :
  module_at w m guest -> mapping_at w (in_mapping guest) max -> images_at w r ->
  drives (attach_seed os r m) w m guest
    (forall id c, ru_cowSeed r = Some id -> w_table w !! id = Some (RImage c) -> attachable guest max c)
    (fun _ mem g => mem = default (in_memory guest) (seed_memory w r) /\ g = in_globals guest).
Proof.
  intros Hm Hmap [_ Himg]. unfold attach_seed, seed_memory. destruct (ru_cowSeed r) as [id |] eqn:Hid.
  - destruct (Himg id eq_refl) as [c Hc]. rewrite (file_at_Some _ _ _ Hc). simpl.
    eapply drives_weaken; [eapply sets_memory_drives, (Attach_spec id w m guest max c); done | | done].
    intros Hall. by eapply Hall.
  - eapply drives_weaken; [by apply (drives_res (Ok tt)) | by eexists |]. by intros ? ? ? (_ & -> & ->).
Qed.

Lemma image_ready_at {C} (r : Runner C) w :
  images_at w r ->
  image_ready r w = (Ok (from_option Ready false (file_at w (ru_cow r))), w).
Proof.
  intros [Himg _]. unfold image_ready. destruct (ru_cow r) as [id |]; [| done].
  destruct (Himg id eq_refl) as [c Hc]. rewrite (file_at_Some _ _ _ Hc). unfold bind. by rewrite (image_of_at _ _ _ Hc).
Qed.

(** An operation on the memory whose value is a constant. *)
Lemma sets_memory_ret {A} op w m i can good (a : A) :
  sets_memory op w m i can good -> drives (op;;; ret a) w m i can (fun a' mem g => a' = a /\ mem = good /\ g = in_globals i).
Proof.
  intros (r & t & mem & Hop & Ht & Hr). unfold drives, bind. rewrite Hop. destruct r as [[] | e].
  - exists (Ok a), t, mem, (in_globals i). by split_and!.
  - exists (Err e), t, mem, (in_globals i). by split_and!.
Qed.

Lemma init_drives w m mounted i c guest max :
  module_at w m guest -> mapping_at w (in_mapping guest) max ->
  let start := init_python mounted (i, c, in_memory guest, in_globals guest) in
  drives (p <- run_start os "init CPython: " "init" m mounted i c;;
          let '(status, i, c) := p in
          reject (negb (status =? 0)%N) (EMsg ("CPython initialization failed: " +:+ c.2));;;
          ret (i, c)) w m guest (start <> None) (fun p mem g => start = Some (p.1, p.2, mem, g)).
Proof.
  intros Hm Hmap start. eapply drives_weaken.
  - apply (drives_bind _ _ _ _ _ _ _ (fun _ _ _ => start <> None) (fun p mem g => start = Some (p.1, p.2, mem, g))
      (run_start_drives _ _ _ _ _ _ _ _ max Hm Hmap)).
    intros [[status i'] c'] t mem g H Ht. simpl in H. destruct H as (Hok & -> & -> & -> & ->).
    unfold start, init_python. rewrite Hok. destruct (N.eqb_spec status 0) as [-> | Hne].
    + eapply drives_weaken; [apply (drives_res (Ok (_, _))), at_module_at | by eexists |]. by intros ? ? ? ([= <-] & -> & ->).
    + eapply drives_weaken; [apply (drives_res (Err _)), at_module_at | by destruct status | by intros ? ? ? [? _]].
  - intros Hstart. split; [| done]. unfold start, init_python in Hstart. destruct (sd_status _); [by eexists | done].
  - done.
Qed.

Lemma bring_up_drives {C} (r : Runner C) m mounted i c w guest max :
  module_at w m guest -> mapping_at w (in_mapping guest) max -> images_at w r ->
  let up := bring_up (prepared_memory w r) mounted (i, c, in_memory guest, in_globals guest) in
  drives (bring_up_guest os r m mounted i c) w m guest
    ((forall id cow, ru_cow r = Some id -> w_table w !! id = Some (RImage cow) -> Ready cow = true -> attachable guest max cow)
     /\ (forall image, ru_image r = Some image -> copyable guest max image) /\ up <> None)
    (fun p mem g => up = Some (p.1, p.2, mem, g)).
Proof.
  intros Hm Hmap Himgs up.
  assert (forall good, drives (match from_option Ready false (file_at w (ru_cow r)) : bool, ru_cow r, ru_image r with
               | true, Some cow, _ => Attach os cow m;;; ret (i, c)
               | _, _, None =>
                   p <- run_start os "init CPython: " "init" m mounted i c;;
                   let '(status, i, c) := p in
                   reject (negb (status =? 0)%N) (EMsg ("CPython initialization failed: " +:+ c.2));;;
                   ret (i, c)
               | _, _, Some image => restore_copy image m;;; ret (i, c)
               end) w m guest good (fun p mem g => up = Some (p.1, p.2, mem, g)) ->
          drives (bring_up_guest os r m mounted i c) w m guest good (fun p mem g => up = Some (p.1, p.2, mem, g))) as Hread.
  { intros good (res & t & mem & g & Hrun & Hrest). exists res, t, mem, g. split; [| exact Hrest]. rewrite <- Hrun.
    unfold bring_up_guest. unfold bind at 1. by rewrite image_ready_at. }
  apply Hread. clear Hread. unfold up, prepared_memory. destruct Himgs as [Himg _].
  assert (drives (match ru_image r with
                  | Some image => restore_copy image m;;; ret (i, c)
                  | None =>
                      p <- run_start os "init CPython: " "init" m mounted i c;;
                      let '(status, i, c) := p in
                      reject (negb (status =? 0)%N) (EMsg ("CPython initialization failed: " +:+ c.2));;;
                      ret (i, c)
                  end) w m guest
            ((forall image, ru_image r = Some image -> copyable guest max image)
             /\ bring_up (ru_image r) mounted (i, c, in_memory guest, in_globals guest) <> None)
            (fun p mem g => bring_up (ru_image r) mounted (i, c, in_memory guest, in_globals guest) = Some (p.1, p.2, mem, g))) as Hcopy.
  { destruct (ru_image r) as [image |].
    - eapply drives_weaken; [by apply sets_memory_ret, (restore_copy_spec image w m guest max) | |].
      + intros [Hfit _]. by apply Hfit.
      + by intros ? ? ? (-> & -> & ->).
    - eapply drives_weaken; [by apply (init_drives _ _ _ _ _ _ max) | by intros [_ ?] | done]. }
  destruct (ru_cow r) as [id |] eqn:Hid; [| eapply drives_weaken; [exact Hcopy | by intros (_ & ? & ?) | done]].
  destruct (Himg id eq_refl) as [cow Hc]. rewrite (file_at_Some _ _ _ Hc). simpl from_option.
  destruct (Ready cow) eqn:Hready; [| eapply drives_weaken; [exact Hcopy | by intros (_ & ? & ?) | done]].
  eapply drives_weaken; [by eapply sets_memory_ret, (Attach_spec id w m guest max cow) | |].
  - intros (Hfit & _). by eapply Hfit.
  - by intros ? ? ? (-> & -> & ->).
Qed.

Lemma resume_drives {C} (r : Runner C) recorded p w m guest :
  module_at w m guest ->
  let resumed := restore_inputs recorded (ru_preparedState r) (p.1, p.2, in_memory guest, in_globals guest) in
  drives (resume_recording r recorded p) w m guest (resumed <> None) (fun p mem g => resumed = Some (p.1, p.2, mem, g)).
Proof.
  intros Hm resumed. unfold resume_recording, resumed, restore_inputs.
  destruct recorded as [rec |]; [destruct (ru_preparedState r) as [saved |]; [destruct (restore _ saved) as [rec' | e] |] |].
  2:{ eapply drives_weaken; [by apply (drives_res (Err e)) | done | by intros ? ? ? [? _]]. }
  all: eapply drives_weaken; [by apply (drives_res (Ok (_, _))) || by apply (drives_res (Ok p)) | by eexists |].
  all: by intros ? ? ? ([= <-] & -> & ->).
Qed.

Lemma file_at_module w m t i i' id :
  module_at w m i -> file_at (at_module w m t i') id = file_at w id.
Proof.
  unfold module_at, file_at. intros Hm. destruct id as [id |]; [| done]. simpl.
  destruct (decide (id = m)) as [-> | Hne]; [by rewrite lookup_insert_eq, Hm | by rewrite lookup_insert_ne].
Qed.

Lemma prepared_memory_module {C} (r : Runner C) w m t i i' :
  module_at w m i -> prepared_memory (at_module w m t i') r = prepared_memory w r.
Proof. intros Hm. unfold prepared_memory. by rewrite (file_at_module w m t i). Qed.

Lemma images_at_module {C} (r : Runner C) w m t i i' :
  module_at w m i -> images_at w r -> images_at (at_module w m t i') r.
Proof.
  intros Hm [H1 H2]. split; intros id Hid.
  - destruct (H1 id Hid) as [c Hc]. exists c. by apply (image_at_module w m t i).
  - destruct (H2 id Hid) as [c Hc]. exists c. by apply (image_at_module w m t i).
Qed.

(** Starting a Guest changes its module as [pure_start] says, whatever else is
    in the world. *)
Lemma start_guest_drives {C} (r : Runner C) m mounted recorded i w guest max :
  module_at w m guest -> mapping_at w (in_mapping guest) max -> images_at w r ->
  let start := pure_start (seed_memory w r) (prepared_memory w r) (ru_preparedState r) mounted recorded i
                 (in_memory guest) (in_globals guest) in
  drives (start_guest os r m mounted recorded i) w m guest
    (images_fit w r mounted i guest max /\ start <> None)
    (fun p mem g => start = Some (p.1, p.2, mem, g)).
Proof.
  intros Hm Hmap Himg start.
  set (good := fun (p : inputs * console) mem g => start = Some (p.1, p.2, mem, g)).
  set (begun := initialize mounted i (default (in_memory guest) (seed_memory w r)) (in_globals guest)).
  eapply drives_weaken.
  { apply (drives_bind _ _ _ _ _ _ _ (fun _ _ _ => images_fit w r mounted i guest max /\ start <> None) good
      (attach_seed_drives r m w guest max Hm Hmap Himg)).
    intros [] t mem g [-> ->] _.
    set (w1 := at_module w m t _). assert (module_at w1 m (with_state (default (in_memory guest) (seed_memory w r)) (in_globals guest) guest)) as Hm1
      by apply at_module_at.
    eapply drives_weaken.
    { apply (drives_bind _ _ _ _ _ _ _ (fun _ _ _ => images_fit w r mounted i guest max /\ start <> None) good
        (run_start_drives _ _ _ _ _ _ _ _ max Hm1 (mapping_at_module w m _ guest _ _ _ Hm Hmap))).
      intros [[status i1] c1] t1 mem1 g1 H1 _. simpl in H1. destruct H1 as (Hok & -> & -> & -> & ->).
      set (s1 := call_start "_initialize" _ _ _ _ _) in *.
      assert (begun = Some (inputs_after i s1, console_after ("", "") s1, sd_memory s1, sd_globals s1)) as Hbegun.
      { unfold begun, initialize. fold s1. by rewrite Hok. }
      unfold w1. rewrite at_module_twice. set (w2 := at_module w m t1 _).
      assert (module_at w2 m (with_state (sd_memory s1) (sd_globals s1) guest)) as Hm2 by apply at_module_at.
      pose proof (images_at_module r w m t1 guest (with_state (sd_memory s1) (sd_globals s1) guest) Hm Himg) as Himg2.
      fold w2 in Himg2.
      eapply drives_weaken.
      { apply (drives_bind _ _ _ _ _ _ _ (fun _ _ _ => start <> None) good
          (bring_up_drives r m mounted (inputs_after i s1) (console_after ("", "") s1) w2 _ max Hm2 (mapping_at_module w m _ guest _ _ _ Hm Hmap) Himg2)).
        intros p t2 mem2 g2 H2 _. unfold w2 in H2. rewrite (prepared_memory_module r w m t1 guest _ Hm) in H2. simpl in H2.
        assert (start = restore_inputs recorded (ru_preparedState r) (p.1, p.2, mem2, g2)) as Hstart.
        { unfold start, pure_start. fold begun. rewrite Hbegun. simpl. by rewrite H2. }
        unfold w2. rewrite at_module_twice.
        eapply drives_weaken; [apply resume_drives, at_module_at | |].
        - rewrite Hstart. exact id.
        - intros q mem3 g3. unfold good. rewrite Hstart. exact id. }
      - intros [Hfit Hstart]. split; [| done].
        destruct Hfit as [_ Hfit]. destruct (Hfit _ _ _ _ Hbegun) as [H1 H2]. split_and!.
        + intros id cow Hid Hc. apply (H1 id); [done |]. unfold w2, at_module in Hc. simpl in Hc.
          destruct (decide (id = m)) as [-> | Hne]; [by rewrite lookup_insert_eq in Hc | by rewrite lookup_insert_ne in Hc].
        + done.
        + unfold w2. rewrite (prepared_memory_module r w m t1 guest _ Hm). simpl. intros Hno. apply Hstart.
          unfold start, pure_start. fold begun. rewrite Hbegun. simpl. by rewrite Hno.
      - done. }
    - intros [Hfit Hstart]. split; [| done]. unfold start, pure_start in Hstart. fold begun in Hstart. unfold begun, initialize in Hstart.
      simpl. destruct (sd_status _); [by eexists | done].
    - done. }
  - intros [Hfit Hstart]. split; [apply Hfit | by split].
  - done.
Qed.
End Spec.
