(* ===== verification/PreparedInv.v ===== *)
(** * PreparedInv: what is held after every operation

    [held w0 own w]: since [w0] no handle that was there has changed, and of the
    new ones only those of [own] are still open.  Every operation that opens
    something either returns it or closes it again. *)

From S2P Require Import Prelude Errors Effects Json Manifest Bridge Leb128 Sha256 Cowmem CowmemProps DataImage Prepared PreparedSpec.

Section Inv.
Context `{HR : RandomStream} `{HW : @Wasm HR}.
Context (os : nat -> option error) (os_pwrite : nat -> buffer -> Z -> res error N) (cowPageSize : N).

(** ** The invariant *)

(** A module belongs to a runtime that was there before. *)
Definition child_ok (next : N) (r : resource) : Prop :=
  match r with RModule i => (in_runtime i < next)%N | _ => True end.

Record wf (w : world) : Prop := {
  wf_fresh id : (w_next w <= id)%N -> w_table w !! id = None;
  wf_child id r : w_table w !! id = Some r -> child_ok (w_next w) r
}.

Record held (w0 : world) (own : N -> Prop) (w : world) : Prop := {
  held_tick : (w_tick w0 <= w_tick w)%nat;
  held_next : (w_next w0 <= w_next w)%N;
  held_wf : wf w;
  held_old id : (id < w_next w0)%N -> w_table w !! id = w_table w0 !! id;
  held_own id : (w_next w0 <= id)%N -> is_open w id = true -> own id;
  held_crashed : w_crashed w = w_crashed w0
}.

Definition none : N -> Prop := fun _ => False.

Lemma held_refl w : wf w -> held w none w.
Proof.
  intros Hwf. split; [lia | lia | done | done | | done]. intros id Hid. unfold is_open.
  by rewrite (wf_fresh _ Hwf).
Qed.

Lemma held_weaken w0 own own' w : held w0 own w -> (forall id, own id -> own' id) -> held w0 own' w.
Proof. intros [] H. split; eauto. Qed.

Lemma held_trans w0 own w own' w' : held w0 own w -> held w own' w' -> held w0 (fun id => own id \/ own' id) w'.
Proof.
  intros [T N W O P C] [T' N' W' O' P' C']. split; [lia | lia | done | | | congruence].
  - intros id Hid. rewrite O' by lia. by apply O.
  - intros id Hid Hopen. destruct (N.lt_ge_cases id (w_next w)) as [Hlt | Hge]; [| right; by apply P'].
    left. apply P; [done |]. unfold is_open in *. by rewrite <- O'.
Qed.

Lemma held_at_tick w0 own w t : held w0 own w -> (w_tick w <= t)%nat -> held w0 own (at_tick t w).
Proof. intros [T N [W1 W2] O P C] Ht. split; try done. simpl. lia. Qed.

(** A new handle. *)
Definition allocated (w : world) (r : resource) : world :=
  mkWorld (w_tick w) (w_next w + 1) (<[w_next w := r]> (w_table w)) (w_crashed w).

Lemma held_allocated w0 own w r :
  held w0 own w -> child_ok (w_next w) r -> held w0 (fun id => own id \/ id = w_next w) (allocated w r).
Proof.
  intros [T N [W1 W2] O P C] Hr. split; simpl; [lia | lia | | | | done].
  - split; simpl.
    + intros id Hid. rewrite lookup_insert_ne by lia. apply W1. lia.
    + intros id r' Hr'. destruct (decide (id = w_next w)) as [-> | Hne].
      * rewrite lookup_insert_eq in Hr'. injection Hr' as <-. destruct r; simpl in *; lia || done.
      * rewrite lookup_insert_ne in Hr' by done. specialize (W2 _ _ Hr'). destruct r'; simpl in *; lia || done.
  - intros id Hid. rewrite lookup_insert_ne by lia. by apply O.
  - intros id Hid Hopen. destruct (decide (id = w_next w)) as [-> | Hne]; [by right |]. left. apply P; [done |].
    unfold is_open in *. simpl in Hopen. by rewrite lookup_insert_ne in Hopen.
Qed.

(** A handle that changes. *)
Definition updated (w : world) (t : nat) (id : N) (r : resource) : world :=
  mkWorld t (w_next w) (<[id := r]> (w_table w)) (w_crashed w).

Lemma held_updated w0 own w t id r :
  held w0 own w -> (w_tick w <= t)%nat -> (w_next w0 <= id < w_next w)%N -> child_ok (w_next w) r ->
  held w0 (fun x => (own x /\ x <> id) \/ (x = id /\ open_resource r = true)) (updated w t id r).
Proof.
  intros [T N [W1 W2] O P C] Ht Hid Hr. split; simpl; [lia | done | | | | done].
  - split; simpl.
    + intros x Hx. rewrite lookup_insert_ne by lia. by apply W1.
    + intros x r' Hr'. destruct (decide (x = id)) as [-> | Hne].
      * rewrite lookup_insert_eq in Hr'. by injection Hr' as <-.
      * rewrite lookup_insert_ne in Hr' by done. by eapply W2.
  - intros x Hx. rewrite lookup_insert_ne by lia. by apply O.
  - intros x Hx Hopen. unfold is_open in *. simpl in Hopen. destruct (decide (x = id)) as [-> | Hne].
    + rewrite lookup_insert_eq in Hopen. by right.
    + rewrite lookup_insert_ne in Hopen by done. left. split; [by apply P | done].
Qed.

Lemma in_table w id r : wf w -> w_table w !! id = Some r -> (id < w_next w)%N.
Proof.
  intros [W _] Hid. destruct (N.lt_ge_cases id (w_next w)); [done |]. rewrite W in Hid by done. done.
Qed.

Lemma held_module w0 own w m t i i' :
  held w0 own w -> (w_tick w <= t)%nat -> (w_next w0 <= m)%N -> module_at w m i -> same_guest i i' ->
  in_open i = true -> own m -> held w0 own (at_module w m t i').
Proof.
  intros Hh Ht Hm Hi (Hrt & _ & _ & Hopen') Hopen Hown. pose proof (held_wf _ _ _ Hh) as Hwf.
  eapply held_weaken.
  - apply (held_updated w0 own w t m (RModule i')); [done | done | | ].
    + split; [done |]. by eapply in_table.
    + simpl. rewrite Hrt. apply (wf_child _ Hwf _ _ Hi).
  - intros x [[? ?] | [-> _]]; done.
Qed.

(** ** Closing *)

(** [release] gives a mapping up, or leaves it for good. *)
Lemma release_spec id w max st :
  w_table w !! id = Some (RMapping max st) ->
  exists res t st', release os id w = (res, updated w t id (RMapping max st')) /\ (w_tick w <= t)%nat /\ st' <> Held.
Proof.
  intros Hid. unfold release, bind, mapping_of. rewrite Hid. destruct st.
  2:{ exists (Ok tt), (w_tick w), Released. split_and!; [| lia | done]. unfold updated. rewrite insert_id by done. by destruct w. }
  all: unfold tick; cbn; destruct (answer os (w_tick w)); eexists _, _, _; (split_and!; [reflexivity | simpl; lia | done]).
Qed.

Definition mapping_shape (w : world) (mapping : option N) : Prop :=
  forall id, mapping = Some id -> exists max st, w_table w !! id = Some (RMapping max st).

Lemma Free_held w0 own w mapping :
  held w0 own w -> mapping_shape w mapping -> (forall id, mapping = Some id -> (w_next w0 <= id)%N) ->
  let w' := (Free os mapping w).2 in
  held w0 (fun x => own x /\ mapping <> Some x) w'
  /\ (forall id r, w_table w !! id = Some r -> mapping <> Some id -> w_table w' !! id = Some r)
  /\ mapping_shape w' mapping /\ (w_tick w <= w_tick w')%nat.
Proof.
  intros Hh Hmap Hnew. unfold Free. destruct mapping as [id |].
  2:{ simpl. split_and!; [| done | done | lia]. eapply held_weaken; [exact Hh | by split]. }
  destruct (Hmap id eq_refl) as (max & st & Hst).
  destruct (release_spec id w max st Hst) as (res & t & st' & Hrel & Ht & Hst'). unfold bind, try_. rewrite Hrel. simpl.
  split_and!.
  - eapply held_weaken; [apply (held_updated w0 own); [done | done | | done] |].
    + split; [by apply Hnew | eapply in_table; [apply Hh | done]].
    + intros x [[? ?] | [_ ?]]; [| by destruct st']. split; [done | congruence].
  - intros x r Hx Hno. rewrite lookup_insert_ne; [done | congruence].
  - intros ? [= <-]. exists max, st'. apply lookup_insert_eq.
  - done.
Qed.

Lemma Free_ok mapping w : (Free os mapping w).1 = Ok tt.
Proof. unfold Free, bind, try_. destruct mapping as [id |]; [by destruct (release os id w) | done]. Qed.

Definition handle_of (g : guest_module) (id : N) : Prop := id = gm_module g \/ gm_mapping g = Some id.

(** The handles of a Guest are what they should be, in whatever state. *)
Definition guest_shape (w : world) (g : guest_module) : Prop :=
  (exists i, module_at w (gm_module g) i) /\ mapping_shape w (gm_mapping g).

Lemma module_Close_spec w m i :
  module_at w m i ->
  exists res t i', module_Close os m w = (res, updated w t m (RModule i')) /\ (w_tick w <= t)%nat
    /\ in_open i' = false /\ in_runtime i' = in_runtime i.
Proof.
  intros Hm. unfold module_Close, bind. rewrite (instance_of_at _ _ _ Hm). destruct (in_open i) eqn:Hopen.
  - unfold update. rewrite syscall_answer.
    eexists _, (S (w_tick w)), (mkInstance (in_runtime i) (in_code i) (in_memory i) (in_globals i) (in_mapping i) false).
    split_and!; [reflexivity | lia | done | done].
  - eexists _, (w_tick w), i. split_and!; [| lia | done | done].
    unfold updated. rewrite insert_id by done. by destruct w.
Qed.

Lemma guest_Close_held w0 own w g :
  held w0 own w -> guest_shape w g -> (forall id, handle_of g id -> (w_next w0 <= id)%N) ->
  let w' := (guest_Close os g w).2 in
  held w0 (fun id => own id /\ ~ handle_of g id) w'
  /\ (forall id r, w_table w !! id = Some r -> ~ handle_of g id -> w_table w' !! id = Some r)
  /\ guest_shape w' g /\ (w_tick w <= w_tick w')%nat.
Proof.
  intros Hh [[i Hi] Hmap] Hnew. pose proof (held_wf _ _ _ Hh) as Hwf.
  destruct (module_Close_spec w (gm_module g) i Hi) as (res & t & i' & Hclose & Ht & Hopen & Hrt).
  set (w1 := updated w t (gm_module g) (RModule i')) in *.
  assert (held w0 (fun id => own id /\ id <> gm_module g) w1) as Hh1.
  { eapply held_weaken; [apply (held_updated w0 own); [done | done | |] |].
    - split; [apply Hnew; by left | by eapply in_table].
    - simpl. rewrite Hrt. apply (wf_child _ Hwf _ _ Hi).
    - simpl. rewrite Hopen. by intros x [? | [_ ?]]. }
  assert (forall id, gm_mapping g = Some id -> id <> gm_module g) as Hne.
  { intros id Hid ->. destruct (Hmap _ Hid) as (max & st & Hst). unfold module_at in Hi. congruence. }
  assert (mapping_shape w1 (gm_mapping g)) as Hmap1.
  { intros id Hid. destruct (Hmap id Hid) as (max & st & Hst). exists max, st. unfold w1. simpl.
    rewrite lookup_insert_ne; [done | by apply not_eq_sym, Hne]. }
  destruct (Free_held w0 _ w1 (gm_mapping g) Hh1 Hmap1) as (Hh2 & Hkeep & Hmap2 & Ht2); [intros id Hid; apply Hnew; by right |].
  assert ((guest_Close os g w).2 = (Free os (gm_mapping g) w1).2) as Heq.
  { unfold guest_Close, bind, try_. rewrite Hclose. pose proof (Free_ok (gm_mapping g) w1) as Hok.
    destruct (Free os (gm_mapping g) w1) as [r w2]. simpl in Hok. subst r. by destruct res. }
  intros w'. unfold w'. rewrite Heq. unfold handle_of. split_and!.
  - eapply held_weaken; [exact Hh2 |]. intros x [[? ?] ?]. split; [done |]. by intros [? | ?].
  - intros id r Hid Hno. apply Hkeep; [| by intros ?; apply Hno; right]. unfold w1. simpl.
    rewrite lookup_insert_ne; [done |]. intros <-. apply Hno. by left.
  - split; [| exact Hmap2]. exists i'. apply Hkeep; [apply lookup_insert_eq |]. intros Hid. by eapply Hne.
  - simpl in Ht2. lia.
Qed.

(** ** New Guests *)

(** The memory that the module declares, which images need. *)
Definition declares {C} (r : Runner C) (declared : N) : Prop :=
  cm_memory (ru_code r) = Some (Some declared) /\ declared <> 0%N.

Lemma map_memory_spec {C} (r : Runner C) w :
  wf w ->
  let '(res, w') := map_memory os r w in
  match res with
  | Ok mapped => held w (fun id => mapped = Some id) w' /\ (exists max, mapping_at w' mapped max
                   /\ (mapped <> None -> exists declared, declares r declared /\ max = u64 (declared * wasmPageSize)))
                 /\ (forall id, mapped = Some id -> (w_next w <= id)%N) /\ (mapped = None <-> ru_cow r = None)
  | Err _ => held w none w' /\ ru_cow r <> None
             /\ ((exists declared, declares r declared /\ (declared * wasmPageSize < 2 ^ 63)%N) -> fault_between os (w_tick w) (w_tick w'))
  end.
Proof.
  intros Hwf. unfold map_memory. destruct (ru_cow r).
  2:{ simpl. split_and!; [| by exists 0%N | done | done]. eapply held_weaken; [by apply held_refl | by intros ? []]. }
  unfold bind, Allocator, declares. destruct (cm_memory (ru_code r)) as [[declared |] |]; simpl.
  2-3: split_and!; [by apply held_refl | done | by intros (? & [? ?] & ?)].
  unfold newLinuxCOWMemory, bind, reject, on_error. destruct (_ || _) eqn:Hbad; simpl.
  { split_and!; [by apply held_refl | done |]. intros (d & [[= <-] Hd] & Hlt). unfold u64 in Hbad. rewrite N.mod_small in Hbad by (simpl in *; lia).
    apply orb_prop in Hbad as [H%N.eqb_eq | H%N.ltb_lt]; unfold wasmPageSize in *; lia. }
  rewrite syscall_answer. destruct (answer os (w_tick w)) as [[] | e] eqn:Ha; simpl.
  - split_and!; [| | by intros id [= <-] | done].
    + eapply held_weaken; [apply (held_allocated w none (at_tick (S (w_tick w)) w) (RMapping _ Held)); [| done] |].
      * apply held_at_tick; [by apply held_refl | simpl; lia].
      * simpl. intros id [[] | ->]. done.
    + exists (u64 (declared * wasmPageSize)). split; [apply lookup_insert_eq |]. intros _. exists declared.
      split_and!; [done | by intros -> | done].
  - split_and!; [apply held_at_tick; [by apply held_refl | simpl; lia] | done |]. intros _.
    exists (w_tick w). split; [simpl; lia | by eapply answer_Err].
Qed.

Lemma images_at_old {C} (r : Runner C) w own w' :
  wf w -> held w own w' -> images_at w r -> images_at w' r.
Proof.
  intros Hwf Hh [H1 H2]. split; intros id Hid.
  - destruct (H1 id Hid) as [c Hc]. exists c. rewrite (held_old _ _ _ Hh); [done | by eapply in_table].
  - destruct (H2 id Hid) as [c Hc]. exists c. rewrite (held_old _ _ _ Hh); [done | by eapply in_table].
Qed.

Lemma image_old w own w' id c :
  held w own w' -> (id < w_next w)%N -> w_table w' !! id = Some (RImage c) <-> w_table w !! id = Some (RImage c).
Proof. intros Hh Hid. by rewrite (held_old _ _ _ Hh). Qed.

Lemma file_at_old w own w' id :
  wf w -> held w own w' -> (forall x, id = Some x -> exists c, w_table w !! x = Some (RImage c)) -> file_at w' id = file_at w id.
Proof.
  intros Hwf Hh Himg. unfold file_at. destruct id as [x |]; [| done]. simpl.
  destruct (Himg x eq_refl) as [c Hc]. by rewrite (held_old _ _ _ Hh) by (by eapply in_table).
Qed.

Lemma prepared_memory_old {C} (r : Runner C) w own w' :
  wf w -> held w own w' -> images_at w r -> prepared_memory w' r = prepared_memory w r.
Proof. intros Hwf Hh [H1 H2]. unfold prepared_memory. by rewrite (file_at_old w own w' (ru_cow r)). Qed.

Lemma seed_memory_old {C} (r : Runner C) w own w' :
  wf w -> held w own w' -> images_at w r -> seed_memory w' r = seed_memory w r.
Proof. intros Hwf Hh [H1 H2]. unfold seed_memory. by rewrite (file_at_old w own w' (ru_cowSeed r)). Qed.

Lemma images_fit_old {C} (r : Runner C) w own w' mounted i guest max :
  wf w -> held w own w' -> images_at w r -> images_fit w r mounted i guest max -> images_fit w' r mounted i guest max.
Proof.
  intros Hwf Hh Himg [H1 H2]. unfold images_fit. rewrite (seed_memory_old r w own w') by done.
  destruct Himg as [I1 I2]. split.
  - intros id c Hid Hc. apply (H1 id c Hid). destruct (I2 id Hid) as [c' Hc'].
    by apply (image_old _ _ _ _ _ Hh); [eapply in_table |].
  - intros i' c mem g Hs. destruct (H2 _ _ _ _ Hs) as [H3 H4]. split; [| done]. intros id c' Hid Hc'. apply (H3 id c' Hid).
    destruct (I1 id Hid) as [c'' Hc'']. by apply (image_old _ _ _ _ _ Hh); [eapply in_table |].
Qed.

(** What a new Guest is: handles of its own, a memory that is there, and the
    state that [pure_start] says. *)
Definition guest_made {C} (w : world) (r : Runner C) (mounted : bool) (recorded : option recording) (g : Guest) (w' : world) : Prop :=
  exists guest max i mem globals,
    module_at w' (gm_module (gu_module g)) guest /\ in_open guest = true
    /\ in_mapping guest = gm_mapping (gu_module g) /\ mapping_at w' (gm_mapping (gu_module g)) max
    /\ (forall id, handle_of (gu_module g) id -> (w_next w <= id)%N)
    /\ (ru_cow r <> None -> exists declared, declares r declared)
    /\ InstantiateModule (ru_code r) = Ok (mem, globals)
    /\ match recorded with Some rec => i = Recorded rec | None => exists moment, i = System moment end
    /\ pure_start (seed_memory w r) (prepared_memory w r) (ru_preparedState r) mounted recorded i mem globals
       = Some (gu_inputs g, gu_console g, in_memory guest, in_globals guest).

(** Nothing but a failing call keeps a recorded Guest from starting. *)
Definition guest_can {C} (w : world) (r : Runner C) (mounted : bool) (rec : recording) : Prop :=
  exists declared mem globals,
    (ru_cow r = None
     \/ (declares r declared /\ (declared * wasmPageSize < 2 ^ 63)%N))
    /\ InstantiateModule (ru_code r) = Ok (mem, globals)
    /\ (forall mapping,
          images_fit w r mounted (Recorded rec) (mkInstance (ru_runtime r) (ru_code r) mem globals mapping true)
            (u64 (declared * wasmPageSize)))
    /\ pure_start (seed_memory w r) (prepared_memory w r) (ru_preparedState r) mounted (Some rec) (Recorded rec) mem globals
       <> None.

Lemma instantiate_spec {C} (r : Runner C) mapped w :
  (exists mem g, instantiate_module os r mapped w
     = (Ok (w_next w), allocated (at_tick (S (w_tick w)) w)
                         (RModule (mkInstance (ru_runtime r) (ru_code r) mem g mapped true)))
     /\ InstantiateModule (ru_code r) = Ok (mem, g))
  \/ exists e, instantiate_module os r mapped w = (Err e, at_tick (S (w_tick w)) w)
       /\ ((exists p, InstantiateModule (ru_code r) = Ok p) -> fault_between os (w_tick w) (S (w_tick w))).
Proof.
  unfold instantiate_module, bind. rewrite syscall_answer. destruct (answer os (w_tick w)) as [[] | e] eqn:Ha.
  - destruct (InstantiateModule (ru_code r)) as [[mem g] | e] eqn:Hi; simpl.
    + left. by exists mem, g.
    + right. exists e. split; [done |]. by intros [? ?].
  - right. exists e. split; [done |]. intros _. exists (w_tick w). split; [lia | by eapply answer_Err].
Qed.

Lemma start_inputs_spec recorded w :
  exists i t, start_inputs recorded w = (Ok i, at_tick t w) /\ (w_tick w <= t)%nat
    /\ match recorded with Some rec => i = Recorded rec | None => exists moment, i = System moment end.
Proof.
  unfold start_inputs, bind, tick. destruct recorded as [rec |].
  - exists (Recorded rec), (w_tick w). split_and!; [by destruct w | lia | done].
  - eexists _, _. split_and!; [reflexivity | lia | by eexists].
Qed.

(** A Guest from its instantiation on. *)
Lemma begin_spec {C} (r : Runner C) recorded mounted w mapped max w1 mem g :
  wf w -> images_at w r -> (ru_runtime r < w_next w)%N ->
  held w (fun id => mapped = Some id) w1 -> mapping_at w1 mapped max -> (forall id, mapped = Some id -> (w_next w <= id)%N) ->
  (ru_cow r <> None -> exists declared, declares r declared) -> InstantiateModule (ru_code r) = Ok (mem, g) ->
  let guest := mkInstance (ru_runtime r) (ru_code r) mem g mapped true in
  let m := mkGuestModule (w_next w1) mapped in
  let '(res, w') := (i <- start_inputs recorded;;
                     p <- on_failure (start_guest os r (w_next w1) mounted recorded i) (guest_Close os m);;
                     ret (mkGuest m p.1 p.2)) (allocated w1 (RModule guest)) in
  match res with
  | Ok g => held w (handle_of (gu_module g)) w' /\ guest_made w r mounted recorded g w'
  | Err _ => held w none w'
             /\ (forall rec, recorded = Some rec -> images_fit w r mounted (Recorded rec) guest max ->
                   pure_start (seed_memory w r) (prepared_memory w r) (ru_preparedState r) mounted (Some rec) (Recorded rec) mem g
                   <> None -> fault_between os (w_tick w) (w_tick w'))
  end.
Proof.
  intros Hwf Himg Hrt Hh1 Hmap Hlow Hdecl Hinst guest m.
  set (w2 := allocated w1 (RModule guest)).
  assert (held w (handle_of m) w2) as Hh2.
  { eapply held_weaken; [apply (held_allocated w (fun id => mapped = Some id) w1); [exact Hh1 | simpl; pose proof (held_next _ _ _ Hh1); lia] |].
    intros id [? | ->]; [by right | by left]. }
  unfold bind at 1. destruct (start_inputs_spec recorded w2) as (i & t & Hi & Ht & Hin). rewrite Hi.
  set (w3 := at_tick t w2). assert (held w (handle_of m) w3) as Hh3 by (by apply held_at_tick).
  assert (module_at w3 (w_next w1) guest) as Hm3 by apply lookup_insert_eq.
  assert (mapping_at w3 mapped max) as Hmap3.
  { unfold mapping_at in *. destruct mapped as [id |]; [| done]. unfold w3, w2. simpl.
    rewrite lookup_insert_ne; [done |]. pose proof (in_table w1 _ _ (held_wf _ _ _ Hh1) Hmap). lia. }
  pose proof (images_at_old r w (handle_of m) w3 Hwf Hh3 Himg) as Himg3.
  destruct (start_guest_drives os r (w_next w1) mounted recorded i w3 guest max Hm3 Hmap3 Himg3)
    as (res & t' & mem' & g' & Hrun & Ht' & Hres).
  rewrite (seed_memory_old r w (handle_of m) w3 Hwf Hh3 Himg), (prepared_memory_old r w (handle_of m) w3 Hwf Hh3 Himg) in Hres.
  set (w4 := at_module w3 (w_next w1) t' (with_state mem' g' guest)) in *.
  assert (held w (handle_of m) w4) as Hh4.
  { apply (held_module w (handle_of m) w3 _ _ guest); try done; [|by left]. pose proof (held_next _ _ _ Hh1). lia. }
  assert (mapping_at w4 mapped max) as Hmap4 by (by apply (mapping_at_module w3 _ _ guest _ _ _ Hm3)).
  assert (forall id, handle_of m id -> (w_next w <= id)%N) as Hlows.
  { intros id [-> | Hid]; [apply Hh1 | by apply Hlow]. }
  unfold bind, on_failure. rewrite Hrun. destruct res as [p | e].
  - split; [done |]. exists (with_state mem' g' guest), max, i, mem, g. split_and!; try done. apply at_module_at.
  - destruct (guest_Close_held w (handle_of m) w4 m Hh4) as (Hh5 & _ & _ & Ht5); [| done |].
    { split; [eexists; apply at_module_at |]. intros id Hid. exists max, Held. simpl in Hid. subst mapped. exact Hmap4. }
    split; [eapply held_weaken; [exact Hh5 | by intros ? []] |].
    intros rec -> Hfit Hstart. subst i. eapply fault_wider; [| | apply Hres].
    + pose proof (held_tick _ _ _ Hh3). exact H.
    + simpl in *. lia.
    + split; [by eapply images_fit_old | done].
Qed.

(** Without a mapping its size does not matter. *)
Lemma images_fit_unmapped {C} (r : Runner C) w mounted i guest max max' :
  in_mapping guest = None -> images_fit w r mounted i guest max -> images_fit w r mounted i guest max'.
Proof.
  intros Hnone. assert (forall g size, in_mapping g = None -> growable g max size -> growable g max' size) as Hgrow.
  { intros g size Hg [H1 _]. split; [done | by rewrite Hg]. }
  intros [H1 H2]. split.
  - intros id c Hid Hc. destruct (H1 id c Hid Hc) as (? & ? & ? & ?). split_and!; auto.
  - intros i' c mem g Hs. destruct (H2 _ _ _ _ Hs) as [H3 H4]. split.
    + intros id c' Hid Hc' Hr. destruct (H3 id c' Hid Hc' Hr) as (? & ? & ? & ?). split_and!; auto.
    + intros image Himg. destruct (H4 image Himg) as (? & ? & ?). split_and!; auto.
Qed.

Lemma newGuest_spec {C} (r : Runner C) recorded mounted w :
  wf w -> images_at w r -> (ru_runtime r < w_next w)%N ->
  let '(res, w') := newGuest os r recorded mounted w in
  match res with
  | Ok g => held w (handle_of (gu_module g)) w' /\ guest_made w r mounted recorded g w'
  | Err _ => held w none w'
             /\ (forall rec, recorded = Some rec -> guest_can w r mounted rec -> fault_between os (w_tick w) (w_tick w'))
  end.
Proof.
  intros Hwf Himg Hrt. unfold newGuest. unfold bind at 1.
  pose proof (map_memory_spec r w Hwf) as Hmap. destruct (map_memory os r w) as [[mapped | e] w1].
  2:{ destruct Hmap as (Hh & Hcow & Hf). split; [done |].
      intros rec _ (declared & mem & g & [? | Hd] & _); [done | by apply Hf; exists declared]. }
  destruct Hmap as (Hh1 & (max & Hmap & Hmax) & Hlow & Hcow).
  assert (ru_cow r <> None -> exists declared, declares r declared) as Hdecl.
  { intros Hno. destruct Hmax as (declared & ? & _); [by intros ?%Hcow | by exists declared]. }
  unfold bind at 1. unfold on_failure at 1.
  destruct (instantiate_spec r mapped w1) as [(mem & g & Hrun & Hinst) | (e & Hrun & Hf)]; rewrite Hrun.
  - pose proof (begin_spec r recorded mounted w mapped max (at_tick (S (w_tick w1)) w1) mem g Hwf Himg Hrt) as Hb.
    simpl w_next in Hb. lazymatch type of Hb with ?P -> _ => assert P as Hh2 by (apply held_at_tick; [done | simpl; lia]) end.
    specialize (Hb Hh2 Hmap Hlow Hdecl Hinst). cbv zeta in Hb. destruct (bind _ _ _) as [[made | e] w'] in Hb |- *; [done |].
    destruct Hb as [Hh Hf]. split; [done |]. intros rec Hrec (declared & mem' & g' & Hd & Hinst' & Hfit & Hstart).
    rewrite Hinst in Hinst'. injection Hinst' as <- <-. apply (Hf rec Hrec); [| done].
    destruct Hd as [Hd | (Hd & _)].
    + destruct mapped as [id |]; [by apply Hcow in Hd |]. by eapply images_fit_unmapped.
    + destruct mapped as [id |]; [| by eapply images_fit_unmapped]. destruct (Hmax ltac:(done)) as (d & [Hd' _] & ->).
      assert (d = declared) as -> by (destruct Hd; congruence). done.
  - destruct (Free_held w (fun id => mapped = Some id) (at_tick (S (w_tick w1)) w1) mapped) as (Hh2 & _ & _ & Ht2).
    + apply held_at_tick; [done | lia].
    + intros id ->. by exists max, Held.
    + done.
    + split; [eapply held_weaken; [exact Hh2 | by intros ? []] |].
      intros rec _ (declared & mem & g & _ & Hinst & _). eapply fault_wider; [| | apply Hf; by eexists].
      * apply Hh1.
      * exact Ht2.
Qed.

(** ** Closing runners *)

Definition owned {C} (r : Runner C) (id : N) : Prop := id = ru_runtime r \/ ru_cow r = Some id \/ ru_cowSeed r = Some id.

(** Handles [own] and the modules of the runtimes among them are given up, and
    nothing else changes. *)
Record shut (own : N -> Prop) (w w' : world) : Prop := {
  shut_tick : (w_tick w <= w_tick w')%nat;
  shut_next : w_next w' = w_next w;
  shut_crashed : w_crashed w' = w_crashed w;
  shut_keep id r : w_table w !! id = Some r -> ~ own id ->
    match r with RModule i => ~ own (in_runtime i) | _ => True end -> w_table w' !! id = Some r;
  shut_image id c : w_table w !! id = Some (RImage c) -> exists c', w_table w' !! id = Some (RImage c');
  shut_back id r : w_table w' !! id = Some r ->
    exists r0, w_table w !! id = Some r0 /\ (forall n, child_ok n r0 -> child_ok n r)
      /\ (open_resource r = true -> open_resource r0 = true /\ ~ own id)
      /\ match r0 with RModule i => exists i', r = RModule i' /\ in_runtime i' = in_runtime i | _ => True end
}.

Lemma shut_refl w : shut none w w.
Proof.
  split; try done; [by intros; eexists |]. intros id r Hr. exists r. split_and!; [done | done | by intros ?; split; [| intros []] |].
  destruct r; try done; by eexists.
Qed.

Lemma shut_trans own own' w w' w'' :
  shut own w w' -> shut own' w' w'' -> shut (fun id => own id \/ own' id) w w''.
Proof.
  intros [T N C K I B] [T' N' C' K' I' B']. split; [lia | congruence | congruence | | |].
  - intros id r Hr Hno Hmod. apply K'; [apply K; [done | tauto |] | tauto |]; destruct r; tauto.
  - intros id c Hc. destruct (I id c Hc) as [c' Hc']. by apply (I' id c').
  - intros id r'' H''. destruct (B' id r'' H'') as (r' & H' & Hc' & Ho' & Hk'). destruct (B id r' H') as (r & Hr & Hc & Ho & Hk).
    exists r. split_and!; [done | auto | |].
    + intros Hopen. destruct (Ho' Hopen) as [H1 H2]. destruct (Ho H1) as [H3 H4]. tauto.
    + destruct r; try done. destruct Hk as (i' & -> & Hi'). destruct Hk' as (i'' & -> & Hi''). exists i''. by rewrite Hi''.
Qed.

Lemma shut_weaken own own' w w' : shut own w w' -> (forall id, own id <-> own' id) -> shut own' w w'.
Proof.
  intros [T N C K I B] H. split; try done.
  - intros id r Hr Hno Hmod. apply K; [done | by rewrite H | destruct r; try done; by rewrite H].
  - intros id r Hr. destruct (B id r Hr) as (r0 & ? & ? & Ho & ?). exists r0. split_and!; try done. rewrite <- H. done.
Qed.

Lemma shut_open own w w' id : shut own w w' -> is_open w' id = true -> is_open w id = true /\ ~ own id.
Proof.
  intros Hs. unfold is_open. destruct (w_table w' !! id) as [r |] eqn:Hr; [| done]. simpl. intros Hopen.
  destruct (shut_back _ _ _ Hs id r Hr) as (r0 & -> & _ & Ho & _). by apply Ho.
Qed.

Lemma shut_wf own w w' : shut own w w' -> wf w -> wf w'.
Proof.
  intros [T N C K I B] [W1 W2]. split.
  - intros id Hid. destruct (w_table w' !! id) as [r |] eqn:Hr; [| done]. destruct (B id r Hr) as (r0 & Hr0 & _).
    rewrite W1 in Hr0; [done | lia].
  - intros id r Hr. destruct (B id r Hr) as (r0 & Hr0 & Hc & _). rewrite N. by apply Hc, (W2 id).
Qed.

(** An operation of an image. *)
Lemma on_image_spec {A} id (m : nat -> M linuxCOW A) w c :
  w_table w !! id = Some (RImage c) ->
  on_image id m w = ((m (w_tick w) c).1, updated w (S (w_tick w)) id (RImage (m (w_tick w) c).2)).
Proof.
  intros Hc. unfold on_image, bind, tick, image_of, update. cbn. rewrite Hc.
  destruct (m (w_tick w) c) as [res c']. by destruct res.
Qed.

Lemma runtime_Close_shut w rt :
  w_table w !! rt = Some (RRuntime true) -> shut (fun id => id = rt) w (runtime_Close os rt w).2.
Proof.
  intros Hrt. unfold runtime_Close, bind. rewrite syscall_answer. simpl.
  split; simpl; [lia | done | done | | |].
  - intros id r Hr Hno Hmod. rewrite lookup_insert_ne by done. rewrite lookup_fmap, Hr. simpl.
    destruct r; try done. simpl. by rewrite (proj2 (N.eqb_neq _ _)).
  - intros id c Hc. exists c. rewrite lookup_insert_ne by congruence. by rewrite lookup_fmap, Hc.
  - intros id r Hr. destruct (decide (id = rt)) as [-> | Hne].
    + rewrite lookup_insert_eq in Hr. injection Hr as <-. by exists (RRuntime true).
    + rewrite lookup_insert_ne, lookup_fmap in Hr by done. destruct (w_table w !! id) as [r0 |]; [| done].
      injection Hr as <-. exists r0. split; [done |].
      destruct r0; try (by split_and!; try done; by eexists).
      simpl. destruct (in_runtime i =? rt)%N; split_and!; try done; by eexists.
Qed.

Lemma image_Close_shut w id c :
  w_table w !! id = Some (RImage c) -> shut (fun x => x = id) w (image_Close os id w).2.
Proof.
  intros Hc. unfold image_Close. rewrite (on_image_spec _ _ _ c Hc). cbn [snd].
  assert (cow_closed (close_image (answer os (w_tick w)) c).2 = true) as Hclosed.
  { unfold close_image, bind, get, put, of_res, ret, fail, annotate. destruct (cow_closed c) eqn:H; [done |].
    by destruct (answer os (w_tick w)). }
  split; simpl; [lia | done | done | | |].
  - intros x r Hr Hno _. by rewrite lookup_insert_ne.
  - intros x c' Hc'. destruct (decide (x = id)) as [-> | Hne]; [eexists; apply lookup_insert_eq |].
    exists c'. by rewrite lookup_insert_ne.
  - intros x r Hr. destruct (decide (x = id)) as [-> | Hne].
    + rewrite lookup_insert_eq in Hr. injection Hr as <-. exists (RImage c). split_and!; [done | done | | by eexists].
      simpl. by rewrite Hclosed.
    + rewrite lookup_insert_ne in Hr by done. exists r. split_and!; [done | done | done |]. destruct r; try done; by eexists.
Qed.

Lemma close_joined_shut {C} image err (s : session (C := C)) :
  (forall id, image = Some id -> exists c, w_table (ss_world s) !! id = Some (RImage c)) ->
  exists err' w, close_joined os image err s = (Ok err', mkSession w (ss_runner s))
    /\ shut (fun id => image = Some id) (ss_world s) w.
Proof.
  intros Himg. unfold close_joined. destruct image as [id |].
  - destruct (Himg id eq_refl) as [c Hc]. unfold bind, try_, on_world, lift.
    pose proof (image_Close_shut (ss_world s) id c Hc) as Hs. destruct (image_Close os id (ss_world s)) as [res w].
    eexists _, w. split; [reflexivity |]. eapply shut_weaken; [exact Hs |]. intros x. split; [by intros -> | by intros [= ->]].
  - exists err, (ss_world s). split; [by destruct s |]. eapply shut_weaken; [apply shut_refl |]. by intros ?; split; [intros [] |].
Qed.

(** [Close] gives up the runtime and the images of its runner. *)
Lemma runner_Close_shut {C} (s : session (C := C)) :
  w_table (ss_world s) !! ru_runtime (ss_runner s) = Some (RRuntime true) -> images_at (ss_world s) (ss_runner s) ->
  shut (owned (ss_runner s)) (ss_world s) (ss_world (runner_Close os s).2).
Proof.
  intros Hrt [Hcow Hseed]. destruct s as [w r]. simpl in *.
  unfold runner_Close, assign, runner, try_, on_world, lift. unfold bind at 1 2 3. simpl.
  pose proof (runtime_Close_shut w (ru_runtime r) Hrt) as H1. destruct (runtime_Close os (ru_runtime r) w) as [res w1]. simpl in *.
  set (s1 := mkSession w1 (set_image None r)).
  destruct (close_joined_shut (ru_cow r) (error_of res) s1) as (err & w2 & Hrun2 & H2).
  { intros id Hid. destruct (Hcow id Hid) as [c Hc]. by apply (shut_image _ _ _ H1 id c). }
  unfold bind at 1. rewrite Hrun2. unfold bind at 1. simpl.
  set (s2 := mkSession w2 _).
  destruct (close_joined_shut (ru_cowSeed r) err s2) as (err' & w3 & Hrun3 & H3).
  { intros id Hid. destruct (Hseed id Hid) as [c Hc]. destruct (shut_image _ _ _ H1 id c Hc) as [c1 Hc1].
    by apply (shut_image _ _ _ H2 id c1). }
  unfold bind at 1. rewrite Hrun3. unfold bind. simpl.
  assert (shut (owned r) w w3) as Hall.
  { eapply shut_weaken; [eapply shut_trans; [exact H1 | eapply shut_trans; [exact H2 | exact H3]] |]. done. }
  by destruct err'.
Qed.

Lemma held_shut w0 own own' w w' :
  wf w0 -> held w0 own w -> shut own' w w' -> (forall id, own' id -> (w_next w0 <= id)%N) ->
  held w0 (fun id => own id /\ ~ own' id) w'.
Proof.
  intros [F0 C0] [T N W O P C] Hs Hlow. pose proof (shut_wf _ _ _ Hs W) as W'. destruct Hs as [T' N' C' K I B].
  split; [lia | lia | done | | | congruence].
  - intros id Hid. rewrite <- O by done. destruct (w_table w !! id) as [r |] eqn:Hr.
    + apply K; [done | intros H%Hlow; lia |]. destruct r; try done. rewrite O in Hr by done.
      intros H%Hlow. specialize (C0 _ _ Hr). simpl in C0. lia.
    + destruct (w_table w' !! id) as [r |] eqn:Hr'; [| done]. destruct (B id r Hr') as (r0 & Hr0 & _). congruence.
  - intros id Hid Hopen. assert (shut own' w w') as Hs by done. destruct (shut_open _ _ _ id Hs Hopen) as [H1 H2].
    split; [by apply P | done].
Qed.

(** ** Constructors *)

(** A runner that is being made: the new handles that are open are its own and
    [extra]. *)
Record building {C} (w0 : world) (extra : N -> Prop) (s : session (C := C)) : Prop := {
  bu_held : held w0 (fun id => owned (ss_runner s) id \/ extra id) (ss_world s);
  bu_runtime : w_table (ss_world s) !! ru_runtime (ss_runner s) = Some (RRuntime true);
  bu_images : images_at (ss_world s) (ss_runner s);
  bu_low id : owned (ss_runner s) id -> (w_next w0 <= id)%N
}.

Lemma building_world {C} w0 extra own w w' (r : Runner C) :
  building w0 extra (mkSession w r) -> held w own w' -> building w0 (fun id => extra id \/ own id) (mkSession w' r).
Proof.
  intros [Hh Hrt Himg Hlow] Hh'. simpl in *. pose proof (held_wf _ _ _ Hh) as Hwf. split; simpl.
  - eapply held_weaken; [by eapply held_trans |]. simpl. tauto.
  - rewrite (held_old _ _ _ Hh'); [done | by eapply in_table].
  - by eapply images_at_old.
  - done.
Qed.

Lemma building_weaken {C} w0 extra extra' (s : session (C := C)) :
  building w0 extra s -> (forall id, extra id -> extra' id) -> building w0 extra' s.
Proof. intros [Hh Hrt Himg Hlow] H. split; [| done | done | done]. eapply held_weaken; [exact Hh |]. intros id [?|?]; auto. Qed.

(** The fields that name no handles. *)
Lemma building_fields {C} w0 extra w (r r' : Runner C) :
  building w0 extra (mkSession w r) -> ru_runtime r' = ru_runtime r -> ru_cow r' = ru_cow r -> ru_cowSeed r' = ru_cowSeed r ->
  building w0 extra (mkSession w r').
Proof.
  intros [Hh Hrt Himg Hlow] H1 H2 H3.
  assert (forall id, owned r' id <-> owned r id) as Ho by (intros id; unfold owned; by rewrite H1, H2, H3).
  split; simpl in *.
  - eapply held_weaken; [exact Hh |]. intros id. by rewrite Ho.
  - by rewrite H1.
  - unfold images_at. by rewrite H2, H3.
  - intros id. rewrite Ho. apply Hlow.
Qed.

(** A handle that is already open is closed or changed. *)
Lemma building_image {C} w0 extra w (r : Runner C) t id c c' :
  building w0 extra (mkSession w r) -> owned r id -> w_table w !! id = Some (RImage c) -> (w_tick w <= t)%nat ->
  building w0 extra (mkSession (updated w t id (RImage c')) r).
Proof.
  intros [Hh Hrt Himg Hlow] Hid Hc Ht. simpl in *. pose proof (held_wf _ _ _ Hh) as Hwf.
  assert (id <> ru_runtime r) as Hne by (intros ->; congruence).
  split; simpl.
  - eapply held_weaken; [apply (held_updated w0 _ w t id (RImage c') Hh); [done | | done] |].
    + split; [by apply Hlow | by eapply in_table].
    + intros x [[? _] | [-> _]]; [done | by left].
  - by rewrite lookup_insert_ne.
  - destruct Himg as [I1 I2]. split; intros x Hx; (destruct (decide (x = id)) as [-> | ?]; [eexists; apply lookup_insert_eq |]).
    + destruct (I1 x Hx) as [cx Hcx]. exists cx. simpl. by rewrite lookup_insert_ne.
    + destruct (I2 x Hx) as [cx Hcx]. exists cx. simpl. by rewrite lookup_insert_ne.
  - done.
Qed.

(** A new image in a field that names no open one. *)
Lemma building_cow {C} w0 extra w (r : Runner C) :
  building w0 extra (mkSession w r) -> ru_cow r = None ->
  building w0 extra (mkSession (allocated w (RImage fresh_cow)) (set_cow (Some (w_next w)) r)).
Proof.
  intros [Hh Hrt Himg Hlow] Hcow. simpl in *. pose proof (held_wf _ _ _ Hh) as Hwf. pose proof (held_next _ _ _ Hh) as Hnext.
  pose proof (in_table _ _ _ Hwf Hrt) as Hlt. split; simpl.
  - eapply held_weaken; [apply (held_allocated w0 _ w (RImage fresh_cow) Hh); done |].
    intros id [[[? | [? | ?]] | ?] | ->]; unfold owned; simpl; auto; congruence.
  - rewrite lookup_insert_ne by lia. done.
  - destruct Himg as [I1 I2]. split; simpl; intros id Hid.
    + injection Hid as <-. eexists. apply lookup_insert_eq.
    + destruct (I2 id Hid) as [c Hc]. exists c. rewrite lookup_insert_ne; [done |]. pose proof (in_table _ _ _ Hwf Hc). lia.
  - intros id [-> | [[= <-] | Hid]]; [apply Hlow; by left | done | apply Hlow; by right; right].
Qed.

Lemma building_seed {C} w0 extra w (r : Runner C) :
  building w0 extra (mkSession w r) -> (forall id, ru_cowSeed r = Some id -> is_open w id = false) ->
  building w0 extra (mkSession (allocated w (RImage fresh_cow)) (set_cowSeed (Some (w_next w)) r)).
Proof.
  intros [Hh Hrt Himg Hlow] Hseed. simpl in *. pose proof (held_wf _ _ _ Hh) as Hwf. pose proof (held_next _ _ _ Hh) as Hnext.
  pose proof (in_table _ _ _ Hwf Hrt) as Hlt. split; simpl.
  - assert (held w0 (fun id => id = ru_runtime r \/ ru_cow r = Some id \/ extra id) w) as Hh'.
    { destruct Hh as [T N W O P Cr]. split; try done. intros id Hid Hopen. destruct (P id Hid Hopen) as [[? | [? | Hs]] | ?]; auto.
      rewrite (Hseed id Hs) in Hopen. done. }
    eapply held_weaken; [apply (held_allocated w0 _ w (RImage fresh_cow) Hh'); done |].
    intros id [[? | [? | ?]] | ->]; unfold owned; simpl; auto.
  - rewrite lookup_insert_ne by lia. done.
  - destruct Himg as [I1 I2]. split; simpl; intros id Hid.
    + destruct (I1 id Hid) as [c Hc]. exists c. rewrite lookup_insert_ne; [done |]. pose proof (in_table _ _ _ Hwf Hc). lia.
    + injection Hid as <-. eexists. apply lookup_insert_eq.
  - intros id [-> | [Hid | [= <-]]]; [apply Hlow; by left | apply Hlow; by right; left | done].
Qed.

Lemma building_drop {C} w0 extra w (r : Runner C) :
  building w0 extra (mkSession w r) -> (forall id, ru_cowSeed r = Some id -> is_open w id = false) ->
  building w0 extra (mkSession w (set_cowSeed None r)).
Proof.
  intros [Hh Hrt Himg Hlow] Hseed. split; simpl in *; [| done | |].
  - destruct Hh as [T N W O P Cr]. split; try done. intros id Hid Hopen. destruct (P id Hid Hopen) as [[? | [? | Hs]] | ?]; unfold owned; simpl; auto.
    rewrite (Hseed id Hs) in Hopen. done.
  - split; [apply Himg | done].
  - intros id [-> | [Hid | Hid]]; [apply Hlow; by left | apply Hlow; by right; left | done].
Qed.

Lemma building_tick {C} w0 extra w (r : Runner C) t :
  building w0 extra (mkSession w r) -> (w_tick w <= t)%nat -> building w0 extra (mkSession (at_tick t w) r).
Proof.
  intros Hb Ht. eapply building_weaken; [eapply building_world; [exact Hb | apply (held_at_tick w none w)] |]; [| done |].
  - apply held_refl, (held_wf _ _ _ (bu_held _ _ _ Hb)).
  - by intros id [? | []].
Qed.
End Inv.
