(* ===== verification/PreparedBuild.v ===== *)
(** * PreparedBuild: what the constructors make

    A constructor either fails and leaves nothing open, or returns a runner that
    owns what is open and whose images are those of a Guest that was started. *)

From S2P Require Import Prelude Errors Effects Json Manifest Bridge Leb128 Sha256 Cowmem CowmemProps DataImage Prepared PreparedSpec PreparedInv.

Section Build.
Context `{HR : RandomStream} `{HW : @Wasm HR}.
Context (os : nat -> option error) (os_pwrite : nat -> buffer -> Z -> res error N) (cowPageSize : N).

(** ** Images *)

Definition seed_file (image : cowDataImage) : buffer :=
  written (map seed_segment (im_active image)) (zero_file (im_memorySize image)).

Lemma bind_tick {A} (f : nat -> M world A) w : bind tick f w = f (w_tick w) (at_tick (S (w_tick w)) w).
Proof. done. Qed.

Lemma bind_run {S A B} (m : M S A) (f : A -> M S B) s a s' : m s = (Ok a, s') -> bind m f s = f a s'.
Proof. unfold bind. by intros ->. Qed.

Lemma bind_stop {S A B} (m : M S A) (f : A -> M S B) s e s' : m s = (Err e, s') -> bind m f s = (Err e, s').
Proof. unfold bind. by intros ->. Qed.

Lemma image_CaptureSegments_spec id size segments w c :
  w_table w !! id = Some (RImage c) ->
  exists res t c', image_CaptureSegments os os_pwrite cowPageSize id size segments w = (res, updated w t id (RImage c'))
    /\ (w_tick w <= t)%nat
    /\ (res = Ok tt -> c = fresh_cow -> c' = mkCOW (written segments (zero_file size)) size false /\ size <> 0%N
                                        /\ Forall (fits size) segments).
Proof.
  intros Hc. unfold image_CaptureSegments. rewrite bind_tick.
  rewrite (on_image_spec _ _ _ c) by done. eexists _, _, _. split_and!; [reflexivity | simpl; lia |].
  intros Hok ->. apply (CaptureSegments_Ok (fun _ => answer os (w_tick w)) (os_pwrite (S (w_tick w))) (answer os (S (w_tick w))) cowPageSize).
  simpl in *. destruct (CaptureSegments _ _ _ _ _ _ _) as [r c']. simpl in *. by subst.
Qed.

Lemma image_Capture_spec id m w guest max c :
  module_at w m guest -> mapping_at w (in_mapping guest) max -> w_table w !! id = Some (RImage c) ->
  exists res t c', image_Capture os os_pwrite cowPageSize id m w = (res, updated w t id (RImage c'))
    /\ (w_tick w <= t)%nat
    /\ (res = Ok tt -> c = fresh_cow -> c' = mkCOW (in_memory guest) (memory_size guest) false /\ memory_size guest <> 0%N).
Proof.
  intros Hm Hmap Hc. unfold image_Capture. rewrite (bind_run _ _ _ _ _ (instance_of_at _ _ _ Hm)). unfold reject.
  assert (w = updated w (w_tick w) id (RImage c)) as Hsame by (unfold updated; rewrite insert_id by done; by destruct w).
  destruct (memory_size guest =? 0)%N.
  { eexists (Err _), _, c. split_and!; [unfold fail, bind; rewrite <- Hsame; reflexivity | lia | done]. }
  rewrite (bind_run (ret tt) _ _ tt w eq_refl), (bind_run _ _ _ _ _ (memory_Read_all _ _ _ max Hm Hmap)), bind_tick.
  rewrite (on_image_spec _ _ _ c) by done. eexists _, _, _. split_and!; [reflexivity | simpl; lia |].
  intros Hok ->. apply (captureBytes_Ok (fun _ => answer os (w_tick w)) (os_pwrite (S (w_tick w))) (answer os (S (w_tick w))) cowPageSize).
  simpl in *. destruct (captureBytes _ _ _ _ _ _) as [r c']. simpl in *. by subst.
Qed.

Lemma cowmem_New_spec w :
  cowmem_New os w = (Ok (w_next w), allocated (at_tick (S (w_tick w)) w) (RImage fresh_cow))
  \/ exists e, cowmem_New os w = (Err e, at_tick (S (w_tick w)) w).
Proof.
  unfold cowmem_New, bind, on_error. rewrite syscall_answer. destruct (answer os (w_tick w)); [by left | right; by eexists].
Qed.

Lemma new_image_spec {C} (set : option N -> Runner C -> Runner C) w r :
  new_image os set (mkSession w r)
    = (Ok (w_next w), mkSession (allocated (at_tick (S (w_tick w)) w) (RImage fresh_cow)) (set (Some (w_next w)) r))
  \/ exists e, new_image os set (mkSession w r) = (Err e, mkSession (at_tick (S (w_tick w)) w) (set None r)).
Proof.
  unfold new_image, bind, try_, on_world, lift. simpl. destruct (cowmem_New_spec w) as [-> | [e ->]]; [by left |].
  right. by exists e.
Qed.

Lemma capture_seed_spec {C} w0 extra w (r : Runner C) image :
  building w0 extra (mkSession w r) -> (forall id, ru_cowSeed r = Some id -> is_open w id = false) ->
  exists res s', capture_seed os os_pwrite cowPageSize image (mkSession w r) = (res, s')
    /\ building w0 extra s' /\ held w (fun id => ru_cowSeed (ss_runner s') = Some id) (ss_world s')
    /\ (exists x, ss_runner s' = set_cowSeed x r)
    /\ (res = Ok tt -> exists id, ru_cowSeed (ss_runner s') = Some id /\ (w_next w <= id)%N
          /\ w_table (ss_world s') !! id = Some (RImage (mkCOW (seed_file image) (im_memorySize image) false))
          /\ im_memorySize image <> 0%N /\ Forall (fits (im_memorySize image)) (map seed_segment (im_active image))).
Proof.
  intros Hb Hseed. pose proof (held_wf _ _ _ (bu_held _ _ _ Hb)) as Hwf. simpl in Hwf.
  unfold capture_seed. unfold bind at 1.
  destruct (new_image_spec set_cowSeed w r) as [-> | [e ->]].
  2:{ eexists (Err e), _. split; [reflexivity |]. simpl. split_and!; [| | by eexists | done].
      - apply (building_drop w0 extra (at_tick (S (w_tick w)) w)); [by apply building_tick; [| lia] | done].
      - eapply held_weaken; [apply held_at_tick; [by apply held_refl | lia] | by intros ? []]. }
  set (w1 := at_tick (S (w_tick w)) w). set (w2 := allocated w1 (RImage fresh_cow)).
  assert (building w0 extra (mkSession w2 (set_cowSeed (Some (w_next w)) r))) as Hb2.
  { apply (building_seed w0 extra w1); [by apply building_tick; [| simpl; lia] | done]. }
  assert (held w (fun id => id = w_next w) w2) as Hh2.
  { eapply held_weaken; [apply (held_allocated w none w1); [apply held_at_tick; [by apply held_refl | lia] | done] |].
    by intros id [[] | ->]. }
  unfold on_world, lift. simpl ss_world.
  destruct (image_CaptureSegments_spec (w_next w) (im_memorySize image) (map seed_segment (im_active image)) w2 fresh_cow)
    as (res & t & c' & Hrun & Ht & Hok); [apply lookup_insert_eq |].
  rewrite Hrun. eexists res, _. split; [reflexivity |]. simpl. split_and!.
  - eapply (building_image w0 extra w2); [exact Hb2 | by right; right | apply lookup_insert_eq | done].
  - eapply held_weaken; [apply (held_updated w (fun id => id = w_next w) w2); [done | done | | done] |].
    + split; simpl; lia.
    + by intros x [[-> ?] | [-> ?]].
  - by eexists.
  - intros Hres. destruct (Hok Hres eq_refl) as (-> & Hsize & Hfits). exists (w_next w). split_and!; try done.
    apply lookup_insert_eq.
Qed.

(** ** Capturing *)

(** Handles that are open beside those of a runner: [F], and those of a Guest. *)
Definition with_handles (F : N -> Prop) (g : guest_module) : N -> Prop := fun id => F id \/ handle_of g id.

(** Directories are left alone. *)
Definition leaves_dirs (w w' : world) : Prop := forall id st, w_table w !! id = Some (RDir st) -> w_table w' !! id = Some (RDir st).

Lemma leaves_dirs_held w own w' : wf w -> held w own w' -> leaves_dirs w w'.
Proof. intros Hwf Hh id st Hid. rewrite (held_old _ _ _ Hh); [done | by eapply in_table]. Qed.

Lemma leaves_dirs_image w t id c c' : w_table w !! id = Some (RImage c) -> leaves_dirs w (updated w t id (RImage c')).
Proof. intros Hc x st Hx. simpl. rewrite lookup_insert_ne; [done |]. intros ->. congruence. Qed.

(** Handles of a Guest stand for no image and no runtime. *)
Lemma not_a_handle w g id r :
  guest_shape w g -> w_table w !! id = Some r -> match r with RModule _ | RMapping _ _ => False | _ => True end -> ~ handle_of g id.
Proof.
  intros [[i Hi] Hmap] Hr Hkind [-> | Hid].
  - unfold module_at in Hi. rewrite Hi in Hr. by injection Hr as <-.
  - destruct (Hmap id Hid) as (max & st & Hst). rewrite Hst in Hr. by injection Hr as <-.
Qed.

(** A Guest is what it was when its module and its mapping are. *)
Lemma guest_shape_kept w w' g :
  (forall id x, w_table w !! id = Some x -> match x with RModule _ | RMapping _ _ => True | _ => False end ->
     w_table w' !! id = Some x) ->
  guest_shape w g -> guest_shape w' g.
Proof.
  intros Hk [[i Hi] Hm]. split; [exists i; by apply Hk |].
  intros id Hid. destruct (Hm id Hid) as (max & st & Hst). exists max, st. by apply Hk.
Qed.

Lemma building_close {C} w0 F w (r : Runner C) g :
  building w0 (with_handles F g) (mkSession w r) -> guest_shape w g -> (forall id, handle_of g id -> (w_next w0 <= id)%N) ->
  let w' := (guest_Close os g w).2 in
  building w0 F (mkSession w' r) /\ guest_shape w' g
  /\ (forall id c, w_table w !! id = Some (RImage c) -> w_table w' !! id = Some (RImage c)) /\ leaves_dirs w w'.
Proof.
  intros [Hh Hrt Himg Hlow] Hshape Hlows w'. simpl in *.
  destruct (guest_Close_held os w0 _ w g Hh Hshape Hlows) as (Hh' & Hkeep & Hshape' & _). fold w' in Hh', Hkeep, Hshape'.
  assert (forall id c, w_table w !! id = Some (RImage c) -> w_table w' !! id = Some (RImage c)) as Hi.
  { intros id c Hc. apply Hkeep; [done |]. exact (not_a_handle _ _ _ _ Hshape Hc I). }
  split_and!; [split; simpl | done | done |].
  - eapply held_weaken; [exact Hh' |]. intros id [[? | [? | ?]] Hno]; [by left | by right | done].
  - apply Hkeep; [done |]. exact (not_a_handle _ _ _ _ Hshape Hrt I).
  - destruct Himg as [I1 I2]. split; intros id Hid.
    + destruct (I1 id Hid) as [c Hc]. exists c. by apply Hi.
    + destruct (I2 id Hid) as [c Hc]. exists c. by apply Hi.
  - done.
  - intros id st Hid. apply Hkeep; [done |]. exact (not_a_handle _ _ _ _ Hshape Hid I).
Qed.

Lemma finally_run {S A} (m : M S A) (cleanup : M S unit) s : finally m cleanup s = ((m s).1, (cleanup (m s).2).2).
Proof. unfold finally. by destruct (m s). Qed.

Lemma on_world_run {C A} (m : M world A) (s : session (C := C)) :
  on_world m s = ((m (ss_world s)).1, mkSession (m (ss_world s)).2 (ss_runner s)).
Proof. unfold on_world, lift. by destruct (m (ss_world s)). Qed.

(** The runner after the image is taken. *)
Definition image_taken {C} (r : Runner C) (mem : buffer) (w' : world) (r' : Runner C) : Prop :=
  match ru_cow r with
  | Some id => r' = r /\ w_table w' !! id = Some (RImage (mkCOW mem (N.of_nat (length mem)) false)) /\ mem <> []
  | None => r' = set_image (Some mem) r /\ mem <> []
  end.

Lemma take_image_spec {C} w0 extra w (r : Runner C) m guest max :
  building w0 extra (mkSession w r) -> module_at w m guest -> mapping_at w (in_mapping guest) max ->
  (forall id, ru_cow r = Some id -> w_table w !! id = Some (RImage fresh_cow)) ->
  exists res w' r', take_image os os_pwrite cowPageSize r m (mkSession w r) = (res, mkSession w' r') /\ building w0 extra (mkSession w' r')
    /\ (w_next w' = w_next w) /\ (forall id, ru_cow r <> Some id -> w_table w' !! id = w_table w !! id)
    /\ ru_cowSeed r' = ru_cowSeed r
    /\ (res = Ok tt -> image_taken r (in_memory guest) w' r').
Proof.
  intros Hb Hm Hmap Hfresh. unfold take_image, image_taken. destruct (ru_cow r) as [cow |] eqn:Hcow.
  - destruct (image_Capture_spec cow m w guest max fresh_cow Hm Hmap (Hfresh cow eq_refl)) as (res & t & c' & Hrun & Ht & Hok).
    rewrite on_world_run. simpl. rewrite Hrun. exists res, (updated w t cow (RImage c')), r. split_and!; try done.
    + eapply (building_image w0 extra w); [done | by right; left | by apply Hfresh | done].
    + intros id Hne. simpl. rewrite lookup_insert_ne; [done | congruence].
    + intros Hres. destruct (Hok Hres eq_refl) as [-> Hsize]. split_and!; [done | apply lookup_insert_eq |].
      intros Hnil. unfold memory_size in Hsize. by rewrite Hnil in Hsize.
  - assert (on_world (instance_of m) (mkSession w r) = (Ok guest, mkSession w r)) as H1.
    { rewrite on_world_run. simpl. by rewrite (instance_of_at _ _ _ Hm). }
    assert (on_world (memory_Read m 0 (memory_size guest)) (mkSession w r) = (Ok (Some (in_memory guest)), mkSession w r)) as H2.
    { rewrite on_world_run. simpl. by rewrite (memory_Read_all _ _ _ max Hm Hmap). }
    rewrite (bind_run _ _ _ _ _ H1), (bind_run _ _ _ _ _ H2). destruct (in_memory guest) as [| b mem].
    + by exists (Err (EMsg "cannot capture initialized Guest memory")), w, r.
    + exists (Ok tt), w, (set_image (Some (b :: mem)) r). split_and!; try done. by eapply building_fields.
Qed.

(** The seed of a runner: a captured image when there is a replacement shell. *)
Definition seed_ready {C} (transformed : option cowDataImage) (w : world) (r : Runner C) : Prop :=
  match transformed with
  | Some image =>
      exists id, ru_cowSeed r = Some id /\ ru_cow r <> Some id
        /\ w_table w !! id = Some (RImage (mkCOW (seed_file image) (im_memorySize image) false))
        /\ im_memorySize image <> 0%N /\ Forall (fits (im_memorySize image)) (map seed_segment (im_active image))
  | None => ru_cowSeed r = None
  end.

(** Closing the image of the seed. *)
Lemma close_seed_spec {C} w0 extra w (r : Runner C) id c :
  building w0 extra (mkSession w r) -> ru_cowSeed r = Some id -> w_table w !! id = Some (RImage c) ->
  exists res t c', on_world (image_Close os id) (mkSession w r) = (res, mkSession (updated w t id (RImage c')) r)
    /\ (w_tick w <= t)%nat /\ building w0 extra (mkSession (updated w t id (RImage c')) r)
    /\ is_open (updated w t id (RImage c')) id = false.
Proof.
  intros Hb Hseed Hc. rewrite on_world_run. simpl. unfold image_Close. rewrite (on_image_spec _ _ _ c Hc). simpl.
  eexists _, _, _. split_and!; [reflexivity | simpl; lia | |].
  - eapply (building_image w0 extra w); [done | by right; right | done | simpl; lia].
  - unfold is_open. simpl. rewrite lookup_insert_eq. simpl.
    assert (cow_closed (close_image (answer os (w_tick w)) c).2 = true) as ->; [| done].
    unfold close_image, bind, get, put, of_res, ret, fail, annotate. destruct (cow_closed c) eqn:H; [done |].
    by destruct (answer os (w_tick w)).
Qed.

Lemma reseal_seed_spec {C} w0 F w (r r0 : Runner C) transformed g :
  building w0 (with_handles F g) (mkSession w r) -> guest_shape w g -> (forall id, handle_of g id -> (w_next w0 <= id)%N) ->
  ru_cowSeed r0 = ru_cowSeed r -> seed_ready transformed w r ->
  exists res w' r', reseal_seed os os_pwrite cowPageSize r0 transformed g (mkSession w r) = (res, mkSession w' r')
    /\ building w0 (with_handles F g) (mkSession w' r') /\ guest_shape w' g
    /\ (exists x, r' = set_cowSeed x r)
    /\ (forall id c, w_table w !! id = Some (RImage c) -> ru_cowSeed r <> Some id -> w_table w' !! id = Some (RImage c))
    /\ leaves_dirs w w'
    /\ (res = Ok tt -> seed_ready transformed w' r').
Proof.
  intros Hb Hshape Hlows Hr0 Hready. unfold reseal_seed. rewrite Hr0. destruct transformed as [image |].
  2:{ exists (Ok tt), w, r. split_and!; try done; [exists (ru_cowSeed r); by destruct r | by intros ? ?]. }
  destruct Hready as (id & Hid & Hne & Hc & Hsize & Hfits). rewrite Hid.
  destruct (building_close w0 F w r g Hb Hshape Hlows) as (Hb1 & Hshape1 & Hkeep1 & Hdirs1).
  set (w1 := (guest_Close os g w).2) in *.
  assert (forall A (f : unit -> M (session (C := C)) A), bind (on_world (guest_Close os g)) f (mkSession w r)
    = match (guest_Close os g w).1 with Ok _ => f tt (mkSession w1 r) | Err e => (Err e, mkSession w1 r) end) as Hclose.
  { intros A f. unfold bind. rewrite on_world_run. simpl. by destruct (guest_Close os g w).1 as [[] | e]. }
  assert (forall w' (r' : Runner C), building w0 F (mkSession w' r') -> building w0 (with_handles F g) (mkSession w' r')) as Hweak.
  { intros w' r' Hb'. eapply building_weaken; [exact Hb' | by left]. }
  rewrite Hclose. destruct (guest_Close os g w).1 as [[] | e].
  2:{ exists (Err e), w1, r. split_and!; [done | by apply Hweak | done | exists (ru_cowSeed r); by destruct r | intros x c ? _; by apply Hkeep1 | done | done]. }
  destruct (close_seed_spec w0 F w1 r id _ Hb1 Hid (Hkeep1 _ _ Hc)) as (res & t & c' & Hrun & Ht & Hb2 & Hopen).
  set (w2 := updated w1 t id (RImage c')) in *.
  assert (guest_shape w2 g) as Hshape2.
  { apply (guest_shape_kept w1); [| done]. intros x y Hx Hkind. unfold w2. simpl. rewrite lookup_insert_ne; [done |].
    intros ->. rewrite (Hkeep1 _ _ Hc) in Hx. by injection Hx as <-. }
  assert (forall x c, w_table w !! x = Some (RImage c) -> Some id <> Some x -> w_table w2 !! x = Some (RImage c)) as Hkeep2.
  { intros x c Hx Hxne. unfold w2. simpl. rewrite lookup_insert_ne by congruence. by apply Hkeep1. }
  assert (leaves_dirs w w2) as Hdirs2.
  { intros x st Hx. eapply leaves_dirs_image; [by eapply Hkeep1 | by apply Hdirs1]. }
  destruct res as [[] | e].
  2:{ rewrite (bind_stop _ _ _ _ _ Hrun). exists (Err e), w2, r.
      split_and!; [done | by apply Hweak | done | exists (ru_cowSeed r); by destruct r | | done | done].
      intros x c Hx Hxne. apply Hkeep2; [done | congruence]. }
  rewrite (bind_run _ _ _ _ _ Hrun).
  destruct (capture_seed_spec w0 F w2 r image Hb2) as (res & [w3 r3] & Hrun3 & Hb3 & Hh3 & [x Hx] & Hok).
  { rewrite Hid. by intros ? [= <-]. }
  simpl in *. pose proof (held_wf _ _ _ (bu_held _ _ _ Hb2)) as Hwf2. simpl in Hwf2.
  rewrite Hrun3. exists res, w3, r3. split_and!.
  - done.
  - by apply Hweak.
  - apply (guest_shape_kept w2); [| done]. intros y z Hy _. rewrite (held_old _ _ _ Hh3); [done | by eapply in_table].
  - by exists x.
  - intros y c Hy Hyne. assert (w_table w2 !! y = Some (RImage c)) as Hy2 by (apply Hkeep2; [done | congruence]).
    rewrite (held_old _ _ _ Hh3); [done | by eapply in_table].
  - intros y st Hy. apply (leaves_dirs_held w2 _ w3 Hwf2 Hh3). by apply Hdirs2.
  - intros Hres. destruct (Hok Hres) as (id3 & H1 & H2 & H3 & H4 & H5). exists id3. split_and!; try done.
    subst r3. simpl. intros Hcow. destruct (bu_images _ _ _ Hb2) as [I1 _]. simpl in I1. destruct (I1 _ Hcow) as [cc Hcc].
    pose proof (in_table _ _ _ Hwf2 Hcc). unfold w2 in *. simpl in *. lia.
Qed.

(** What a runner keeps of the Guest it was prepared with. *)
Record prepared_as {C} (transformed : option cowDataImage) (recorded : option recording) (i : inputs) (mem : buffer)
    (r : Runner C) (w' : world) (r' : Runner C) : Prop := {
  pa_same : ru_runtime r' = ru_runtime r /\ ru_code r' = ru_code r /\ ru_manifest r' = ru_manifest r
            /\ ru_guestManifest r' = ru_guestManifest r /\ ru_artifactID r' = ru_artifactID r
            /\ ru_workspaceImage r' = ru_workspaceImage r /\ ru_cow r' = ru_cow r;
  pa_nonempty : mem <> [];
  pa_image : match ru_cow r with
             | Some id => ru_image r' = ru_image r
                          /\ w_table w' !! id = Some (RImage (mkCOW mem (N.of_nat (length mem)) false))
             | None => ru_image r' = Some mem
             end;
  pa_seed : seed_ready transformed w' r';
  pa_state : match recorded with
             | Some rec => exists saved, capture (recording_of i rec) = Ok saved /\ ru_preparedState r' = Some saved
             | None => ru_preparedState r' = ru_preparedState r
             end
}.

Lemma save_recording_spec {C} w0 extra w (r : Runner C) recorded i :
  building w0 extra (mkSession w r) ->
  exists res r', save_recording recorded i (mkSession w r) = (res, mkSession w r') /\ building w0 extra (mkSession w r')
    /\ (res = Ok tt -> (exists x, r' = set_preparedState x r)
         /\ match recorded with
            | Some rec => exists saved, capture (recording_of i rec) = Ok saved /\ ru_preparedState r' = Some saved
            | None => r' = r
            end).
Proof.
  intros Hb. unfold save_recording. destruct recorded as [rec |].
  - unfold bind, of_res. destruct (capture (recording_of i rec)) as [saved | e].
    + exists (Ok tt), (set_preparedState (Some saved) r). split_and!; [done | by eapply building_fields |].
      intros _. split; [by eexists |]. by exists saved.
    + by exists (Err e), r.
  - exists (Ok tt), r. split_and!; try done. intros _. split; [| done]. exists (ru_preparedState r). by destruct r.
Qed.

(** A runner before it is prepared. *)
Definition unprepared {C} (transformed : option cowDataImage) (w : world) (r : Runner C) : Prop :=
  ru_image r = None /\ ru_preparedState r = None
  /\ (forall id, ru_cow r = Some id -> w_table w !! id = Some (RImage fresh_cow))
  /\ seed_ready transformed w r.

(** Closing the Guest changes none of this. *)
Lemma prepared_as_kept {C} transformed recorded i mem (r : Runner C) w w' r' :
  (forall id c, w_table w !! id = Some (RImage c) -> w_table w' !! id = Some (RImage c)) ->
  prepared_as transformed recorded i mem r w r' -> prepared_as transformed recorded i mem r w' r'.
Proof.
  intros Hkeep [P1 P2 P3 P4 P5]. split; [done | done | | | done].
  - destruct (ru_cow r); [| done]. destruct P3 as [? ?]. split; [done | by apply Hkeep].
  - unfold seed_ready in *. destruct transformed as [image |]; [| done].
    destruct P4 as (id & ? & ? & ? & ?). exists id. split_and!; try tauto. by apply Hkeep.
Qed.

(** The image, the seed and the recording together. *)
Lemma captured_as {C} transformed recorded i mem (r r1 : Runner C) x y w1 w2 r3 :
  image_taken r mem w1 r1 -> seed_ready transformed w1 r1 ->
  (forall id c, w_table w1 !! id = Some (RImage c) -> ru_cowSeed r1 <> Some id -> w_table w2 !! id = Some (RImage c)) ->
  seed_ready transformed w2 (set_cowSeed x r1) -> r3 = set_preparedState y (set_cowSeed x r1) ->
  match recorded with
  | Some rec => exists saved, capture (recording_of i rec) = Ok saved /\ ru_preparedState r3 = Some saved
  | None => r3 = set_cowSeed x r1
  end ->
  prepared_as transformed recorded i mem r w2 r3.
Proof.
  intros Htaken Hready1 Hkeep Hready2 -> Hsaved. unfold image_taken in Htaken. split.
  - destruct (ru_cow r) eqn:Hcow; destruct Htaken as [-> _]; by split_and!.
  - destruct (ru_cow r) eqn:Hcow; destruct Htaken as (_ & Hne); [by destruct Hne | done].
  - destruct (ru_cow r) as [cow |] eqn:Hcow; [| by destruct Htaken as [-> _]].
    destruct Htaken as (-> & Hc & _). split; [done |]. apply Hkeep; [done |]. unfold seed_ready in Hready1.
    destruct transformed as [image |]; [| congruence]. destruct Hready1 as (id & ? & ? & _). congruence.
  - unfold seed_ready in *. simpl in *. by destruct transformed.
  - destruct recorded as [rec |]; [done |]. apply (f_equal ru_preparedState) in Hsaved. rewrite Hsaved.
    destruct (ru_cow r) eqn:Hcow; by destruct Htaken as [-> _].
Qed.

(** Taking the image leaves the seed alone. *)
Lemma seed_ready_taken {C} transformed mem w w1 (r r1 : Runner C) :
  (forall id, ru_cow r <> Some id -> w_table w1 !! id = w_table w !! id) -> ru_cowSeed r1 = ru_cowSeed r ->
  image_taken r mem w1 r1 -> seed_ready transformed w r -> seed_ready transformed w1 r1.
Proof.
  intros Ht Hs Htaken Hready. unfold seed_ready, image_taken in *. destruct transformed as [image |]; [| by rewrite Hs].
  destruct Hready as (id & H1 & H2 & H3 & H4 & H5). exists id. rewrite Hs, Ht by done. split_and!; try done.
  destruct (ru_cow r) as [cow |] eqn:Hcow; destruct Htaken as [-> _]; simpl; congruence.
Qed.

Lemma capture_guest_spec {C} w0 F w (r : Runner C) transformed recorded g guest max :
  building w0 (with_handles F (gu_module g)) (mkSession w r) ->
  module_at w (gm_module (gu_module g)) guest -> in_mapping guest = gm_mapping (gu_module g) ->
  mapping_at w (gm_mapping (gu_module g)) max -> (forall id, handle_of (gu_module g) id -> (w_next w0 <= id)%N) ->
  unprepared transformed w r ->
  exists res w' r',
    finally (capture_guest os os_pwrite cowPageSize transformed recorded g) (on_world (guest_Close os (gu_module g)))
      (mkSession w r) = (res, mkSession w' r')
    /\ building w0 F (mkSession w' r') /\ leaves_dirs w w'
    /\ (res = Ok tt -> prepared_as transformed recorded (gu_inputs g) (in_memory guest) r w' r').
Proof.
  intros Hb Hm Hmapping Hmap Hlows (Himage & Hstate & Hfresh & Hready).
  set (good w2 r2 := prepared_as transformed recorded (gu_inputs g) (in_memory guest) r w2 r2).
  assert (guest_shape w (gu_module g)) as Hshape.
  { split; [by exists guest |]. intros id Hid. exists max, Held. unfold mapping_at in Hmap. by rewrite Hid in Hmap. }
  rewrite finally_run, on_world_run. unfold capture_guest. rewrite (bind_run runner _ (mkSession w r) r (mkSession w r) eq_refl).
  destruct (take_image_spec w0 _ w r (gm_module (gu_module g)) guest max Hb Hm) as (res1 & w1 & r1 & Hrun1 & Hb1 & Hn1 & Ht1 & Hs1 & Hok1);
    [by rewrite Hmapping | done |].
  assert (forall id x, w_table w !! id = Some x -> match x with RImage _ => False | _ => True end -> w_table w1 !! id = Some x) as Hkeep1.
  { intros id x Hx Hkind. rewrite Ht1; [done |]. intros Hcow. rewrite (Hfresh _ Hcow) in Hx. by injection Hx as <-. }
  assert (guest_shape w1 (gu_module g)) as Hshape1.
  { apply (guest_shape_kept w); [| done]. intros id x Hx Hkind. apply Hkeep1; [done | by destruct x]. }
  assert (leaves_dirs w w1) as Hdirs1 by (intros x st Hx; by apply Hkeep1).
  assert (forall (res : res error unit) w2 (r2 : Runner C), building w0 (with_handles F (gu_module g)) (mkSession w2 r2) ->
    guest_shape w2 (gu_module g) -> leaves_dirs w w2 -> (res = Ok tt -> good w2 r2) ->
    exists res' w' r', (res, mkSession (guest_Close os (gu_module g) w2).2 r2) = (res', mkSession w' r')
      /\ building w0 F (mkSession w' r') /\ leaves_dirs w w' /\ (res' = Ok tt -> good w' r')) as Hend.
  { intros res w2 r2 Hb2 Hshape2 Hdirs2 Hok. exists res, (guest_Close os (gu_module g) w2).2, r2. split; [done |].
    destruct (building_close w0 F w2 r2 (gu_module g) Hb2 Hshape2 Hlows) as (Hb3 & _ & Hkeep & Hdirs3). split; [done |].
    split; [intros x st Hx; by apply Hdirs3, Hdirs2 |]. intros Hres. eapply prepared_as_kept; [exact Hkeep | by apply Hok]. }
  destruct res1 as [[] | e]; [| rewrite (bind_stop _ _ _ _ _ Hrun1); by apply Hend].
  rewrite (bind_run _ _ _ _ _ Hrun1). specialize (Hok1 eq_refl).
  pose proof (seed_ready_taken transformed _ _ _ _ _ Ht1 Hs1 Hok1 Hready) as Hready1.
  destruct (reseal_seed_spec w0 F w1 r1 r transformed (gu_module g) Hb1 Hshape1 Hlows (eq_sym Hs1) Hready1)
    as (res2 & w2 & r2 & Hrun2 & Hb2 & Hshape2 & [x2 Hx2] & Hkeep2 & Hdirs & Hok2).
  assert (leaves_dirs w w2) as Hdirs2 by (intros x st Hx; by apply Hdirs, Hdirs1).
  destruct res2 as [[] | e]; [| rewrite (bind_stop _ _ _ _ _ Hrun2); by apply Hend].
  rewrite (bind_run _ _ _ _ _ Hrun2). specialize (Hok2 eq_refl).
  destruct (save_recording_spec w0 _ w2 r2 recorded (gu_inputs g) Hb2) as (res3 & r3 & Hrun3 & Hb3 & Hok3).
  rewrite Hrun3. simpl. apply Hend; [done | done | done |]. intros Hres. destruct (Hok3 Hres) as [[x3 Hx3] Hsaved].
  subst r2. by eapply captured_as.
Qed.

(** ** Preparing *)

(** The images of a runner are open, full and its own. *)
Record usable {C} (w : world) (r : Runner C) : Prop := {
  us_runtime : w_table w !! ru_runtime r = Some (RRuntime true);
  us_image id : ru_cow r = Some id \/ ru_cowSeed r = Some id ->
    exists c, w_table w !! id = Some (RImage c) /\ Ready c = true /\ captured c;
  us_distinct id : ru_cow r = Some id -> ru_cowSeed r <> Some id
}.

(** The image of a prepared runner is the memory of a Guest that was started the
    plain way, and its state the inputs as that Guest left them. *)
Definition primed {C} (w : world) (r : Runner C) : Prop :=
  exists recorded i mem g i' c' image g',
    InstantiateModule (ru_code r) = Ok (mem, g)
    /\ match recorded with
       | Some rec => i = Recorded rec /\ exists seed, rec = newRecording seed
       | None => exists moment, i = System moment
       end
    /\ (s ← initialize (ru_workspaceImage r) i (default mem (seed_memory w r)) g; init_python (ru_workspaceImage r) s)
       = Some (i', c', image, g')
    /\ prepared_memory w r = Some image
    /\ (ru_cow r <> None -> ru_image r = None /\ exists declared, declares r declared)
    /\ match recorded with
       | Some rec => exists saved, capture (recording_of i' rec) = Ok saved /\ ru_preparedState r = Some saved
       | None => ru_preparedState r = None
       end.

Lemma seed_ready_memory {C} transformed w (r : Runner C) : seed_ready transformed w r -> seed_memory w r = seed_file <$> transformed.
Proof.
  unfold seed_ready, seed_memory. destruct transformed as [image |].
  - intros (id & -> & _ & Hc & _). by rewrite (file_at_Some _ _ _ Hc).
  - by intros ->.
Qed.

Lemma seed_file_length image :
  Forall (fits (im_memorySize image)) (map seed_segment (im_active image)) ->
  N.of_nat (length (seed_file image)) = im_memorySize image.
Proof.
  intros Hall. assert (N.of_nat (length (zero_file (im_memorySize image))) = im_memorySize image) as Hlen.
  { unfold zero_file. rewrite length_replicate. lia. }
  unfold seed_file. by rewrite (written_length _ (im_memorySize image)).
Qed.

Lemma prepared_as_usable {C} w0 F transformed recorded i mem (r : Runner C) w' r' :
  building w0 F (mkSession w' r') -> prepared_as transformed recorded i mem r w' r' -> usable w' r'.
Proof.
  intros Hb [P1 P2 P3 P4 P5]. destruct P1 as (_ & _ & _ & _ & _ & _ & Hcow). split.
  - apply (bu_runtime _ _ _ Hb).
  - intros id [Hid | Hid].
    + rewrite Hcow in Hid. rewrite Hid in P3. destruct P3 as [_ Hc]. eexists. split; [exact Hc |]. split; [| done].
      unfold Ready. simpl. destruct (N.eqb_spec (N.of_nat (length mem)) 0); [| done]. destruct mem; [done | simpl in *; lia].
    + unfold seed_ready in P4. destruct transformed as [image |]; [| congruence].
      destruct P4 as (id' & Hid' & _ & Hc & Hsize & Hfits). assert (id = id') as -> by congruence.
      eexists. split; [exact Hc |]. split.
      * unfold Ready. simpl. by rewrite (proj2 (N.eqb_neq _ _) Hsize).
      * unfold captured. simpl. by rewrite seed_file_length.
  - intros id Hid Hseed. unfold seed_ready in P4. destruct transformed as [image |]; [| congruence].
    destruct P4 as (id' & Hid' & Hne & _). congruence.
Qed.

Lemma prepared_as_primed {C} transformed (seed : option string) g mem w (r : Runner C) w' r' wk made :
  prepared_as transformed (newRecording <$> seed) (gu_inputs g) (in_memory made) r w' r' ->
  unprepared transformed wk r -> seed_memory wk r = seed_file <$> transformed ->
  guest_made wk r (ru_workspaceImage r) (newRecording <$> seed) g w -> module_at w (gm_module (gu_module g)) made ->
  mem = in_memory made -> primed w' r' /\ seed_memory w' r' = seed_file <$> transformed.
Proof.
  intros [P1 P2 P3 P4 P5] (Hni & Hns & Hfresh & _) Hseedk (guest & max & i & mem0 & g0 & Hm & _ & _ & _ & _ & Hdecl & Hinst & Hi & Hpure) Hmade _.
  assert (guest = made) as -> by (unfold module_at in *; congruence).
  destruct P1 as (_ & Hcode & _ & _ & _ & Hws & Hcow). pose proof (seed_ready_memory _ _ _ P4) as Hseed'.
  split; [| done].
  assert (prepared_memory wk r = None) as Hno.
  { unfold prepared_memory. rewrite Hni. destruct (ru_cow r) as [id |] eqn:Hid; [| done].
    by rewrite (file_at_Some _ _ _ (Hfresh id eq_refl)). }
  rewrite Hno, Hns, Hseedk in Hpure. unfold pure_start in Hpure.
  destruct (initialize _ i _ g0) as [s1 |] eqn:Hs1; [| done]. simpl in Hpure.
  destruct (init_python _ s1) as [[[[i2 c2] mem2] g2] |] eqn:Hs2; [| done]. simpl in Hpure.
  exists (newRecording <$> seed), i, mem0, g0, (gu_inputs g), (gu_console g), (in_memory made), (in_globals made).
  rewrite Hcode, Hws, Hseed', Hs1. simpl. rewrite Hs2.
  assert (Some (i2, c2, mem2, g2) = Some (gu_inputs g, gu_console g, in_memory made, in_globals made)) as <-.
  { rewrite <- Hpure. by destruct seed. }
  split_and!; [done | | done | | |].
  - destruct seed; simpl in *; [| done]. split; [done | by eexists].
  - unfold prepared_memory. rewrite Hcow. destruct (ru_cow r) as [id |] eqn:Hid.
    + destruct P3 as [_ Hc]. rewrite (file_at_Some _ _ _ Hc). unfold Ready. simpl.
      destruct (N.eqb_spec (N.of_nat (length (in_memory made))) 0); [| done].
      destruct (in_memory made); [done | simpl in *; lia].
    + done.
  - unfold declares. rewrite Hcode, Hcow. intros Hsome. split; [| by apply Hdecl].
    destruct (ru_cow r); [by destruct P3 as [-> _] | done].
  - destruct seed; simpl in *; [done | by rewrite P5].
Qed.

(** What preparing leaves on success. *)
Definition prepared_well {C} (transformed : option cowDataImage) (workspace : bool) (seed : option string) (code : compiled) (s : session (C := C)) : Prop :=
  usable (ss_world s) (ss_runner s) /\ primed (ss_world s) (ss_runner s)
  /\ seed_memory (ss_world s) (ss_runner s) = seed_file <$> transformed
  /\ ru_code (ss_runner s) = code /\ is_prepared (ss_runner s) = true
  /\ (transformed <> None -> ru_cow (ss_runner s) <> None)
  /\ ru_workspaceImage (ss_runner s) = workspace /\ (seed = None -> ru_preparedState (ss_runner s) = None).

Lemma capture_initialized_spec {C} w0 F w (r : Runner C) transformed seed :
  building w0 F (mkSession w r) -> unprepared transformed w r -> (transformed <> None -> ru_cow r <> None) ->
  exists res w' r',
    capture_initialized os os_pwrite cowPageSize transformed (newRecording <$> seed) (ru_workspaceImage r) (mkSession w r)
    = (res, mkSession w' r')
    /\ building w0 F (mkSession w' r') /\ leaves_dirs w w' /\ (res = Ok tt -> prepared_well transformed (ru_workspaceImage r) seed (ru_code r) (mkSession w' r')).
Proof.
  intros Hb Hun Htr. pose proof (held_wf _ _ _ (bu_held _ _ _ Hb)) as Hwf. simpl in Hwf.
  unfold capture_initialized. rewrite (bind_run runner _ (mkSession w r) r (mkSession w r) eq_refl).
  pose proof (newGuest_spec os r (newRecording <$> seed) (ru_workspaceImage r) w Hwf (bu_images _ _ _ Hb)
    (in_table _ _ _ Hwf (bu_runtime _ _ _ Hb))) as Hnew. unfold bind. rewrite on_world_run. simpl ss_world.
  destruct (newGuest os r (newRecording <$> seed) (ru_workspaceImage r) w) as [[g | e] w1].
  2:{ destruct Hnew as [Hh _]. exists (Err e), w1, r. split_and!; [done | | by eapply leaves_dirs_held | done].
      eapply building_weaken; [eapply building_world; [exact Hb | exact Hh] |]. by intros id [? | []]. }
  destruct Hnew as [Hh Hmade]. simpl fst. simpl snd. simpl ss_runner.
  assert (building w0 (with_handles F (gu_module g)) (mkSession w1 r)) as Hb1.
  { eapply building_weaken; [eapply building_world; [exact Hb | exact Hh] |]. done. }
  pose proof Hmade as (guest & max & i & mem & gl & Hm & Hopen & Hmapping & Hmap & Hlows & _).
  destruct Hun as (Hni & Hns & Hfresh & Hready).
  assert (unprepared transformed w1 r) as Hun1.
  { split_and!; [done | done | |].
    - intros id Hid. rewrite (held_old _ _ _ Hh); [by apply Hfresh |]. by eapply in_table; [| apply Hfresh].
    - unfold seed_ready in *. destruct transformed as [image |]; [| done].
      destruct Hready as (id & H1 & H2 & H3 & H4). exists id. rewrite (held_old _ _ _ Hh) by (by eapply in_table). done. }
  destruct (capture_guest_spec w0 F w1 r transformed (newRecording <$> seed) g guest max Hb1 Hm Hmapping Hmap)
    as (res & w2 & r2 & Hrun & Hb2 & Hdirs & Hok); [| done |].
  { intros id Hid. etrans; [apply (held_next _ _ _ (bu_held _ _ _ Hb)) | by apply Hlows]. }
  exists res, w2, r2. split_and!; [exact Hrun | done | |].
  { intros x st Hx. apply Hdirs. by apply (leaves_dirs_held w _ w1 Hwf Hh). }
  intros Hres. specialize (Hok Hres).
  destruct (prepared_as_primed transformed seed g (in_memory guest) w1 r w2 r2 w guest Hok) as [Hprimed Hseed]; try done.
  { by apply seed_ready_memory. }
  pose proof (prepared_as_usable _ _ _ _ _ _ _ _ _ Hb2 Hok) as Hus. destruct Hok as [P1 P2 P3 P4 P5].
  destruct P1 as (_ & Hcode & _ & _ & _ & Hws & Hcow). unfold prepared_well. simpl. split_and!; try done; [| | intros ->; by rewrite P5].
  - unfold is_prepared. rewrite Hcow. destruct (ru_cow r); [apply orb_true_iff; right; by case_bool_decide; [| destruct H; eexists] |].
    rewrite P3. by case_bool_decide; [| destruct H; eexists].
  - intros H. rewrite Hcow. by apply Htr.
Qed.

Lemma make_images_spec {C} w0 w (r : Runner C) transformed cow :
  building w0 none (mkSession w r) -> ru_image r = None -> ru_preparedState r = None -> ru_cow r = None -> ru_cowSeed r = None ->
  (transformed <> None -> cow = true) ->
  exists res w' r', make_images os os_pwrite cowPageSize transformed cow (mkSession w r) = (res, mkSession w' r')
    /\ building w0 none (mkSession w' r') /\ (exists x y, r' = set_cowSeed y (set_cow x r))
    /\ (res = Ok tt -> unprepared transformed w' r' /\ (transformed <> None -> ru_cow r' <> None)).
Proof.
  intros Hb Hni Hns Hcow Hseed Htr. unfold make_images. destruct cow.
  2:{ exists (Ok tt), w, r. split_and!; [done | done | exists None, None; rewrite <- Hcow at 1; by destruct r; simpl in *; subst |].
      intros _. split; [| by intros ?%Htr]. split_and!; [done | done | by rewrite Hcow |].
      unfold seed_ready. destruct transformed; [by specialize (Htr ltac:(done)) | done]. }
  set (w1 := at_tick (S (w_tick w)) w).
  assert (building w0 none (mkSession w1 r)) as Hb1 by (by apply building_tick; [| lia]).
  destruct (new_image_spec set_cow w r) as [Hrun | [e Hrun]].
  2:{ rewrite (bind_stop _ _ _ _ _ Hrun). exists (Err e), w1, (set_cow None r). split_and!; [done | | | done].
      - by eapply building_fields; [exact Hb1 | ..].
      - exists None, (ru_cowSeed r). by destruct r. }
  rewrite (bind_run _ _ _ _ _ Hrun). fold w1. set (w2 := allocated w1 (RImage fresh_cow)).
  assert (building w0 none (mkSession w2 (set_cow (Some (w_next w)) r))) as Hb2 by (by apply (building_cow w0 none w1)).
  destruct transformed as [image |].
  - destruct (capture_seed_spec w0 none w2 _ image Hb2) as (res & [w3 r3] & Hrun3 & Hb3 & Hh3 & [x Hx] & Hok).
    { simpl. by rewrite Hseed. }
    simpl in *. rewrite Hrun3. exists res, w3, r3. split_and!; [done | done | by exists (Some (w_next w)), x; subst |].
    intros Hres. destruct (Hok Hres) as (id & H1 & H2 & H3 & H4 & H5). subst r3. simpl in *. split; [| done]. split_and!; [done | done | |].
    + intros id' [= Heq]. subst id'. rewrite (held_old _ _ _ Hh3); [apply lookup_insert_eq | simpl; lia].
    + exists id. split_and!; try done. simpl. intros [= Heq]. simpl in H2. lia.
  - exists (Ok tt), w2, (set_cow (Some (w_next w)) r). split_and!; [done | done | |].
    + exists (Some (w_next w)), (ru_cowSeed r). by destruct r.
    + intros _. split; [| done]. split_and!; [done | done | | done]. intros id [= Heq]. subst id. apply lookup_insert_eq.
Qed.

(** The temporary directory. *)
Lemma make_temp_spec w :
  make_temp os w = (Ok (w_next w), allocated (at_tick (S (w_tick w)) w) (RDir Held))
  \/ exists e, make_temp os w = (Err e, at_tick (S (w_tick w)) w).
Proof. unfold make_temp, bind. rewrite syscall_answer. destruct (answer os (w_tick w)); [by left | right; by eexists]. Qed.

Lemma building_temp {C} w0 F w (r : Runner C) :
  building w0 F (mkSession w r) -> building w0 (fun id => F id \/ id = w_next w) (mkSession (allocated w (RDir Held)) r).
Proof.
  intros Hb. pose proof (held_wf _ _ _ (bu_held _ _ _ Hb)) as Hwf. simpl in Hwf.
  eapply building_weaken; [eapply building_world; [exact Hb | apply (held_allocated w none w); [by apply held_refl | done]] |].
  by intros id [? | [[] | ?]]; [left | right].
Qed.

Lemma remove_temp_spec {C} w0 F w (r : Runner C) id st :
  building w0 (fun x => F x \/ x = id) (mkSession w r) -> w_table w !! id = Some (RDir st) -> (w_next w0 <= id)%N ->
  building w0 F (mkSession (remove_temp os id w).2 r)
  /\ (forall x y, w_table w !! x = Some y -> match y with RDir _ => False | _ => True end ->
        w_table (remove_temp os id w).2 !! x = Some y).
Proof.
  intros Hb Hid Hlow. pose proof (held_wf _ _ _ (bu_held _ _ _ Hb)) as Hwf. simpl in Hwf.
  set (st' := match answer os (w_tick w) with Ok _ => Released | Err _ => Unreleasable end).
  assert ((remove_temp os id w).2 = updated w (S (w_tick w)) id (RDir st')) as -> by done.
  assert (forall x y, w_table w !! x = Some y -> match y with RDir _ => False | _ => True end ->
            w_table (updated w (S (w_tick w)) id (RDir st')) !! x = Some y) as Hkeep.
  { intros x y Hx Hy. simpl. rewrite lookup_insert_ne; [done |]. intros ->. rewrite Hid in Hx. by injection Hx as <-. }
  split; [| done]. destruct Hb as [Hh Hrt [I1 I2] Hlows]. simpl in *. split; simpl.
  - eapply held_weaken; [apply (held_updated w0 _ w (S (w_tick w)) id (RDir st') Hh); [lia | | done] |].
    + split; [done | by eapply in_table].
    + unfold st'. intros x [[[? | [? | ->]] ?] | [_ Hopen]]; [by left | by right | done | by destruct (answer os (w_tick w))].
  - by apply Hkeep.
  - split; intros x Hx.
    + destruct (I1 x Hx) as [c Hc]. exists c. by apply Hkeep.
    + destruct (I2 x Hx) as [c Hc]. exists c. by apply Hkeep.
  - done.
Qed.

(** Runners notice nothing that leaves their own handles alone. *)
Definition leaves_own {C} (r : Runner C) (w w' : world) : Prop :=
  forall id x, owned r id -> w_table w !! id = Some x -> w_table w' !! id = Some x.

Lemma usable_files {C} w (r : Runner C) :
  usable w r -> (forall id, ru_cow r = Some id -> exists c, w_table w !! id = Some (RImage c))
                /\ (forall id, ru_cowSeed r = Some id -> exists c, w_table w !! id = Some (RImage c)).
Proof.
  intros [_ Hus _]. split; intros id Hid.
  - destruct (Hus id (or_introl Hid)) as (c & Hc & _). by exists c.
  - destruct (Hus id (or_intror Hid)) as (c & Hc & _). by exists c.
Qed.

Lemma usable_kept {C} w w' (r : Runner C) :
  leaves_own r w w' -> usable w r ->
  usable w' r /\ seed_memory w' r = seed_memory w r /\ prepared_memory w' r = prepared_memory w r.
Proof.
  intros Hk Hus. pose proof (usable_files w r Hus) as [Hf1 Hf2]. split; [| split].
  - destruct Hus as [H1 H2 H3]. split; [by apply Hk; [left |] | | done].
    intros id Hid. destruct (H2 id Hid) as (c & Hc & ? & ?). exists c. split; [by apply Hk; [right |] | done].
  - unfold seed_memory. destruct (ru_cowSeed r) as [id |] eqn:Hid; [| done]. destruct (Hf2 id eq_refl) as [c Hc].
    rewrite !(file_at_Some _ _ c); [done | done | by apply Hk; [right; right |]].
  - unfold prepared_memory. destruct (ru_cow r) as [id |] eqn:Hid; [| done]. destruct (Hf1 id eq_refl) as [c Hc].
    rewrite !(file_at_Some _ _ c); [done | done | by apply Hk; [right; left |]].
Qed.

Lemma primed_kept {C} w w' (r : Runner C) : leaves_own r w w' -> usable w r -> primed w r -> primed w' r.
Proof.
  intros Hk Hus (recorded & i & mem & g & i' & c' & image & g' & H).
  destruct (usable_kept w w' r Hk Hus) as (_ & Hs & Hp). exists recorded, i, mem, g, i', c', image, g'. by rewrite Hs, Hp.
Qed.

Lemma prepared_well_kept {C} transformed workspace seed code w w' (r : Runner C) :
  leaves_own r w w' -> prepared_well transformed workspace seed code (mkSession w r) ->
  prepared_well transformed workspace seed code (mkSession w' r).
Proof.
  intros Hk (H1 & H2 & H3 & H4). simpl in *. destruct (usable_kept w w' r Hk H1) as (H5 & Hs & _).
  split; [done |]. split; [by eapply primed_kept |]. split; [| done]. simpl. by rewrite Hs.
Qed.

Lemma prepare_runner_spec {C} w0 w (r : Runner C) transformed cow workspace seed :
  building w0 none (mkSession w r) -> ru_image r = None -> ru_preparedState r = None -> ru_cow r = None -> ru_cowSeed r = None ->
  (transformed <> None -> cow = true) ->
  exists res w' r', prepare_runner os os_pwrite cowPageSize transformed cow workspace seed (mkSession w r) = (res, mkSession w' r')
    /\ building w0 none (mkSession w' r') /\ (res = Ok tt -> prepared_well transformed workspace seed (ru_code r) (mkSession w' r')).
Proof.
  intros Hb Hni Hns Hcow Hseed Htr. unfold prepare_runner.
  destruct (make_images_spec w0 w r transformed cow Hb Hni Hns Hcow Hseed Htr) as (res1 & w1 & r1 & Hrun1 & Hb1 & (x & y & Hr1) & Hok1).
  destruct res1 as [[] | e]; [| rewrite (bind_stop _ _ _ _ _ Hrun1); by eexists _, _, _].
  rewrite (bind_run _ _ _ _ _ Hrun1). destruct (Hok1 eq_refl) as [Hun1 Hcow1].
  set (r2 := set_workspaceImage workspace r1).
  rewrite (bind_run (assign (set_workspaceImage workspace)) _ (mkSession w1 r1) tt (mkSession w1 r2) eq_refl).
  assert (building w0 none (mkSession w1 r2)) as Hb2 by (by eapply building_fields).
  assert (unprepared transformed w1 r2) as Hun2 by done.
  assert (ru_code r2 = ru_code r) as Hcode by (by subst r1).
  assert (transformed <> None -> ru_cow r2 <> None) as Hcow2 by done.
  assert (workspace = ru_workspaceImage r2) as Hws by done. rewrite <- Hcode. clearbody r2. clear r1 Hr1 Hrun1 Hb1 Hok1 Hun1 Hcow1.
  destruct workspace; cycle 1.
  { rewrite Hws. destruct (capture_initialized_spec w0 none w1 r2 transformed seed Hb2 Hun2 Hcow2)
      as (res & w' & r' & Hrun & Hb' & _ & Hok). by exists res, w', r'. }
  pose proof (bu_held _ _ _ Hb2) as Hh2. simpl in Hh2. pose proof (held_wf _ _ _ Hh2) as Hwf1.
  unfold bind at 1. rewrite on_world_run. simpl ss_world. simpl ss_runner.
  destruct (make_temp_spec w1) as [-> | [e ->]]; simpl fst; simpl snd; cbv iota beta.
  2:{ eexists (Err e), _, r2. split_and!; [reflexivity | | done]. by apply building_tick; [| lia]. }
  set (w2 := at_tick (S (w_tick w1)) w1). set (w3 := allocated w2 (RDir Held)). set (F := fun id => none id \/ id = w_next w1).
  assert (building w0 F (mkSession w3 r2)) as Hb3.
  { apply (building_temp w0 none w2). by apply building_tick; [| lia]. }
  assert (w_table w3 !! w_next w1 = Some (RDir Held)) as Htemp by apply lookup_insert_eq.
  assert (unprepared transformed w3 r2) as Hun3.
  { assert (forall id z, w_table w1 !! id = Some z -> w_table w3 !! id = Some z) as Hk.
    { intros id z Hx. simpl. rewrite lookup_insert_ne; [done |]. pose proof (in_table _ _ _ Hwf1 Hx). simpl. lia. }
    destruct Hun2 as (U1 & U2 & U3 & U4). split_and!; [done | done | intros id Hid; by apply Hk, U3 |].
    unfold seed_ready in *. destruct transformed as [image |]; [| done].
    destruct U4 as (id & ? & ? & ? & ?). exists id. split_and!; [done | done | by apply Hk | tauto | tauto]. }
  assert (exists res w4 r4, (on_world (workspaceFSConfig os);;;
            capture_initialized os os_pwrite cowPageSize transformed (newRecording <$> seed) true) (mkSession w3 r2)
          = (res, mkSession w4 r4) /\ building w0 F (mkSession w4 r4) /\ leaves_dirs w3 w4
            /\ (res = Ok tt -> prepared_well transformed true seed (ru_code r2) (mkSession w4 r4))) as (res & w4 & r4 & Hrun & Hb4 & Hdirs & Hok).
  { unfold bind at 1. rewrite on_world_run. simpl ss_world. simpl ss_runner.
    unfold workspaceFSConfig, on_error. rewrite syscall_answer. set (w5 := at_tick (S (w_tick w3)) w3).
    assert (building w0 F (mkSession w5 r2)) as Hb5 by (by apply building_tick; [| lia]).
    destruct (answer os (w_tick w3)); simpl fst; simpl snd; cbv iota beta.
    - rewrite Hws. apply (capture_initialized_spec w0 F w5 r2 transformed seed); [done | exact Hun3 | done].
    - eexists _, w5, r2. split_and!; [reflexivity | done | by intros ? ? | done]. }
  rewrite finally_run, on_world_run, Hrun. simpl.
  assert (w_table w4 !! w_next w1 = Some (RDir Held)) as Htemp4 by (by apply Hdirs).
  destruct (remove_temp_spec w0 none w4 r4 (w_next w1) Held) as [Hb6 Hkeep]; [done | done | apply (held_next _ _ _ Hh2) |].
  eexists res, _, r4. split_and!; [reflexivity | done |]. intros Hres.
  eapply prepared_well_kept; [| by apply Hok]. intros id z Hown Hz. apply Hkeep; [done |].
  destruct z; try done. destruct Hb4 as [_ Hrt [I1 I2] _]. simpl in *.
  destruct Hown as [-> | [Hid | Hid]]; [congruence | destruct (I1 id Hid); congruence | destruct (I2 id Hid); congruence].
Qed.

(** ** Constructors *)

Lemma constructed_spec {C} (m : M (session (C := C)) unit) w0 w (r : Runner C) (P : session -> Prop) :
  wf w0 ->
  (exists res w' r', m (mkSession w r) = (res, mkSession w' r') /\ building w0 none (mkSession w' r')
     /\ (res = Ok tt -> P (mkSession w' r'))) ->
  let '(res, w') := constructed os m r w in
  match res with
  | Ok r' => building w0 none (mkSession w' r') /\ P (mkSession w' r')
  | Err _ => held w0 none w'
  end.
Proof.
  intros Hwf (res & w' & r' & Hrun & Hb & Hok). unfold constructed, on_failure. rewrite Hrun. destruct res as [[] | e].
  - split; [done | by apply Hok].
  - destruct Hb as [Hh Hrt Himg Hlow]. simpl in *.
    pose proof (runner_Close_shut os (mkSession w' r') Hrt Himg) as Hs. simpl in Hs.
    destruct (runner_Close os (mkSession w' r')) as [res s]. simpl in *.
    eapply held_weaken; [by eapply held_shut |]. simpl. intros id [[? | []] Hno]. done.
Qed.

(** A runner without an image. *)
Definition plain {C} (r : Runner C) : Prop :=
  ru_image r = None /\ ru_preparedState r = None /\ ru_cow r = None /\ ru_cowSeed r = None /\ ru_workspaceImage r = false.

Lemma newRunner_spec {C} (iterate : Manifest C -> list (string * ToolSpec C)) compileWasm artifactWasm manifest w :
  wf w ->
  let '(res, w') := newRunner os iterate compileWasm artifactWasm manifest w in
  match res with
  | Ok r => building w none (mkSession w' r) /\ plain r /\ CompileModule compileWasm = Ok (ru_code r)
  | Err _ => held w none w'
  end.
Proof.
  intros Hwf. unfold newRunner. unfold bind at 1. unfold allocate. cbv beta iota.
  change (mkWorld (w_tick w) (w_next w + 1) (<[w_next w := RRuntime true]> (w_table w)) (w_crashed w)) with (allocated w (RRuntime true)).
  set (w1 := allocated w (RRuntime true)). set (r0 := mkRunner _ _ _ _ _ _ _ _ _ _).
  assert (building w none (mkSession w1 r0)) as Hb.
  { split; simpl.
    - eapply held_weaken; [apply (held_allocated w none w); [by apply held_refl | done] |]. intros id [[] | ->]. by left; left.
    - apply lookup_insert_eq.
    - done.
    - intros id [-> | [? | ?]]; done. }
  assert (forall (k : unit -> M (session (C := C)) unit) w2 (r2 : Runner C),
    building w none (mkSession w2 r2) ->
    (forall w3, building w none (mkSession w3 r2) ->
       exists res w' r', k tt (mkSession w3 r2) = (res, mkSession w' r') /\ building w none (mkSession w' r')
         /\ (res = Ok tt -> plain r' /\ CompileModule compileWasm = Ok (ru_code r'))) ->
    exists res w' r', bind (on_world (syscall os)) k (mkSession w2 r2) = (res, mkSession w' r') /\ building w none (mkSession w' r')
         /\ (res = Ok tt -> plain r' /\ CompileModule compileWasm = Ok (ru_code r'))) as Hsys.
  { intros k w2 r2 Hb2 Hk. unfold bind. rewrite on_world_run. simpl ss_world. simpl ss_runner. rewrite syscall_answer.
    assert (building w none (mkSession (at_tick (S (w_tick w2)) w2) r2)) as Hb3 by (by apply building_tick; [| lia]).
    destruct (answer os (w_tick w2)) as [[] | e]; simpl fst; simpl snd; cbv iota beta; [by apply Hk | by eexists (Err e), _, r2]. }
  pose proof (constructed_spec (load_runner os iterate compileWasm manifest) w w1 r0
    (fun s => plain (ss_runner s) /\ CompileModule compileWasm = Ok (ru_code (ss_runner s))) Hwf) as Hc.
  destruct (constructed os (load_runner os iterate compileWasm manifest) r0 w1) as [[r | e] w']; apply Hc; clear Hc.
  all: unfold load_runner; unfold bind at 1; destruct (normalizeManifest iterate manifest) as [normalized | e1]; simpl of_res; [| by eexists (Err e1), w1, r0].
  all: unfold ret at 1; rewrite (bind_run (assign (set_manifest normalized)) _ (mkSession w1 r0) tt (mkSession w1 (set_manifest normalized r0)) eq_refl).
  all: set (r1 := set_manifest normalized r0); assert (building w none (mkSession w1 r1)) as Hb1 by (by eapply building_fields).
  all: apply Hsys; [done |]; intros w2 Hb2; apply Hsys; [done |]; intros w3 Hb3; apply Hsys; [done |]; intros w4 Hb4.
  all: unfold bind at 1; destruct (CompileModule compileWasm) as [code | e2]; simpl of_res; [| by eexists (Err e2), w4, r1].
  all: unfold ret at 1; rewrite (bind_run (assign (set_code code)) _ (mkSession w4 r1) tt (mkSession w4 (set_code code r1)) eq_refl).
  all: assert (building w none (mkSession w4 (set_code code r1))) as Hb5 by (by eapply building_fields).
  all: destruct (missing_export code); [by eexists (Err _), w4, _ |].
  all: unfold reject; case_bool_decide; [by eexists (Err _), w4, _ |].
  all: by exists (Ok tt), w4, (set_code code r1).
Qed.

(** A runner that a constructor made from an artifact. *)
Definition well_made {C} (wasm : buffer) (w : world) (r : Runner C) : Prop :=
  usable w r
  /\ exists transformed,
      (forall image, transformed = Some image -> transformCOWDataImage wasm = Ok image)
      /\ CompileModule (from_option im_shell wasm transformed) = Ok (ru_code r)
      /\ seed_memory w r = seed_file <$> transformed
      /\ (ru_preparedState r <> None -> ru_workspaceImage r = false)
      /\ (if is_prepared r then primed w r else plain r).

Lemma plain_usable {C} w0 w (r : Runner C) : building w0 none (mkSession w r) -> plain r -> usable w r /\ seed_memory w r = None /\ is_prepared r = false.
Proof.
  intros Hb (H1 & H2 & H3 & H4 & H5). split_and!.
  - split; [apply (bu_runtime _ _ _ Hb) | intros id [? | ?]; congruence | congruence].
  - unfold seed_memory. by rewrite H4.
  - unfold is_prepared. by rewrite H1, H3.
Qed.

Lemma prepare_spec {C} (iterate : Manifest C -> list (string * ToolSpec C)) wasm manifest cow workspace seed dataImage w :
  wf w -> seed = [] \/ workspace = false ->
  let '(res, w') := prepare os os_pwrite cowPageSize iterate wasm manifest cow workspace seed dataImage w in
  match res with
  | Ok r => building w none (mkSession w' r) /\ well_made wasm w' r
  | Err _ => held w none w'
  end.
Proof.
  intros Hwf Hone. unfold prepare. unfold bind at 1. unfold reject. destruct (_ || _); [by apply held_refl |].
  unfold ret at 1. cbv beta iota.
  assert (forall transformed, (forall image, transformed = Some image -> transformCOWDataImage wasm = Ok image) ->
    (transformed <> None -> cow = true) ->
    let '(res, w') := (r <- newRunner os iterate (from_option im_shell wasm transformed) wasm manifest;;
                       constructed os (prepare_runner os os_pwrite cowPageSize transformed cow workspace (head seed)) r) w in
    match res with
    | Ok r => building w none (mkSession w' r) /\ well_made wasm w' r
    | Err _ => held w none w'
    end) as Hmain.
  { intros transformed Htr Hcow. unfold bind. pose proof (newRunner_spec iterate (from_option im_shell wasm transformed) wasm manifest w Hwf) as Hnew.
    destruct (newRunner os iterate (from_option im_shell wasm transformed) wasm manifest w) as [[r | e] w1]; [| done].
    destruct Hnew as (Hb & (P1 & P2 & P3 & P4 & P5) & Hcode).
    pose proof (constructed_spec (prepare_runner os os_pwrite cowPageSize transformed cow workspace (head seed)) w w1 r
      (prepared_well transformed workspace (head seed) (ru_code r)) Hwf
      (prepare_runner_spec w w1 r transformed cow workspace (head seed) Hb P1 P2 P3 P4 Hcow)) as Hc.
    destruct (constructed os _ r w1) as [[r' | e] w']; [| done]. destruct Hc as [Hb' (W1 & W2 & W3 & W4 & W5 & _ & W7 & W8)]. simpl in *.
    split; [done |]. split; [done |]. exists transformed. rewrite W4, W5. split_and!; try done.
    destruct Hone as [-> | ->]; [by rewrite W8 | done]. }
  destruct (cow && dataImage) eqn:Hboth.
  - apply andb_true_iff in Hboth as [-> _]. unfold bind at 1.
    destruct (transformCOWDataImage wasm) as [image | text] eqn:Himg; simpl; [| by apply held_refl].
    apply (Hmain (Some image)); [by intros ? [= <-] | done].
  - apply (Hmain None); done.
Qed.
End Build.
