(* ===== verification/PreparedSystem.v ===== *)
(** * PreparedSystem: runners that are made, used and closed

    [step]: a constructor that succeeds or fails, an attempt on a runner, its
    [Close], a change of the host.  A runner that is closed is gone, since [Close]
    must come after all attempts; attempts do not overlap. *)

From S2P Require Import Prelude Errors Effects Json Manifest Bridge Leb128 Sha256 Cowmem CowmemProps DataImage Prepared PreparedSpec PreparedInv PreparedBuild.

Section System.
Context `{HR : RandomStream} `{HW : @Wasm HR}.
Context (os : nat -> option error) (os_pwrite : nat -> buffer -> Z -> res error N) (cowPageSize : N).
Context {S : Type} (json_error : string -> error).
Context {Lease : Type} (BeginRun : Lease -> S -> res error unit * S) (EndRun : Lease -> S -> S).

Notation host_call := (option string -> string -> S -> tool_result * S).
Context (iterate : Manifest host_call -> list (string * ToolSpec host_call)).

(** ** The operations *)

Inductive constructor :=
| CNew
| CPrepared
| CPreparedCOW (options : list bool)
| CPreparedWorkspace
| CPreparedWorkspaceCOW
| CPreparedWorkspaceCOWWithOptions (options : list bool)
| CPreparedRecorded (seed : string)
| CPreparedRecordedCOW (seed : string) (options : list bool).

Definition construct (c : constructor) (wasm : buffer) (manifest : Manifest host_call) : M world (Runner host_call) :=
  match c with
  | CNew => New os iterate wasm manifest
  | CPrepared => NewPrepared os os_pwrite cowPageSize iterate wasm manifest
  | CPreparedCOW options => NewPreparedCOW os os_pwrite cowPageSize iterate wasm manifest options
  | CPreparedWorkspace => NewPreparedWorkspace os os_pwrite cowPageSize iterate wasm manifest
  | CPreparedWorkspaceCOW => NewPreparedWorkspaceCOW os os_pwrite cowPageSize iterate wasm manifest
  | CPreparedWorkspaceCOWWithOptions options =>
      NewPreparedWorkspaceCOWWithOptions os os_pwrite cowPageSize iterate wasm manifest options
  | CPreparedRecorded seed => NewPreparedRecorded os os_pwrite cowPageSize iterate wasm manifest seed
  | CPreparedRecordedCOW seed options => NewPreparedRecordedCOW os os_pwrite cowPageSize iterate wasm manifest seed options
  end.

Inductive attempt :=
| ARun (source inputs : string)
| AEarlyReads (source inputs : string)
| ARecorded (source inputs seed : string) (journal : option (Journal S))
| AWorkspace (source inputs : string) (lease : option Lease).

Definition attempt_run (a : attempt) (r : Runner host_call) : Run_ (S := S) :=
  match a with
  | ARun source inputs => Prepared.Run os json_error r source inputs
  | AEarlyReads source inputs => RunWithEarlyReads os json_error r source inputs
  | ARecorded source inputs seed journal => Prepared.RunRecorded os json_error r source inputs seed journal
  | AWorkspace source inputs lease => RunWorkspace os json_error BeginRun EndRun r source inputs lease
  end.

(** ** The system *)

(** The runners that are not closed, each with the artifact it was made from. *)
Record system := mkSystem { sy_world : world; sy_host : S; sy_runners : list (Runner host_call * buffer) }.

Definition close_runner (r : Runner host_call) (w : world) : world := ss_world (runner_Close os (mkSession w r)).2.

Inductive step : system -> system -> Prop :=
| step_make c wasm manifest w s rs r w' :
    construct c wasm manifest w = (Ok r, w') -> step (mkSystem w s rs) (mkSystem w' s ((r, wasm) :: rs))
| step_refuse c wasm manifest w s rs e w' :
    construct c wasm manifest w = (Err e, w') -> step (mkSystem w s rs) (mkSystem w' s rs)
| step_run a w s rs r wasm out w' s' :
    (r, wasm) ∈ rs -> attempt_run a r (w, s) = (out, (w', s')) -> step (mkSystem w s rs) (mkSystem w' s' rs)
| step_close w s before r wasm after :
    step (mkSystem w s (before ++ (r, wasm) :: after)) (mkSystem (close_runner r w) s (before ++ after))
| step_host w s s' rs : step (mkSystem w s rs) (mkSystem w s' rs).

Definition start (s : S) : system := mkSystem (mkWorld 0 0 ∅ false) s [].

Definition reachable (s : S) : system -> Prop := rtc step (start s).

(** The handles of a runner. *)
Definition runner_handles {C} (r : Runner C) : list N := ru_runtime r :: option_list (ru_cow r) ++ option_list (ru_cowSeed r).

Definition handles (rs : list (Runner host_call * buffer)) : list N := concat (map (fun p => runner_handles p.1) rs).

(** ** Runs *)

Lemma run_spec (r : Runner host_call) source inputs early recorded journal mounted w s :
  wf w -> images_at w r -> (ru_runtime r < w_next w)%N ->
  let '(out, (w', s')) := run os json_error r source inputs early recorded journal mounted (w, s) in
  held w none w'
  /\ match marshalRunRequest json_error (ru_guestManifest r) source inputs early mounted with
     | Err e => out = (no_output, Some e) /\ s' = s
     | Ok request =>
         (exists e, out = (no_output, Some e) /\ s' = s
            /\ forall rec, recorded = Some rec -> guest_can w r mounted rec -> fault_between os (w_tick w) (w_tick w'))
         \/ exists g w1 guest, guest_made w r mounted recorded g w1 /\ module_at w1 (gm_module (gu_module g)) guest
              /\ let '(e, stdout, s1) :=
                   exec_guest json_error (host_tools (ru_manifest r)) journal
                     (call_execute mounted (gu_inputs g) (in_memory guest) (in_globals guest) (gu_console g) request)
                     (newRun early) (gu_console g).1 s in
                 out = run_result e stdout /\ s' = s1
     end.
Proof.
  intros Hwf Himg Hrt. unfold run. destruct (marshalRunRequest _ _ _ _ _ _) as [request | e]; [| by split; [apply held_refl |]].
  pose proof (newGuest_spec os r recorded mounted w Hwf Himg Hrt) as Hnew.
  destruct (newGuest os r recorded mounted w) as [[g | e] w1].
  2:{ destruct Hnew as [Hh Hf]. split; [done |]. left. exists e. by split_and!. }
  destruct Hnew as [Hh Hmade]. pose proof Hmade as (guest & max & i & mem & gl & Hm & _ & Hmapping & Hmap & Hlows & _).
  rewrite (instance_of_at _ _ _ Hm). rewrite (touch_safe _ _ max) by (by rewrite Hmapping). simpl snd.
  destruct (guest_Close_held os w _ w1 (gu_module g) Hh) as (Hh2 & _); [| done |].
  { split; [by exists guest |]. intros id Hid. exists max, Held. by rewrite Hid in Hmap. }
  destruct (exec_guest _ _ _ _ _ _ _) as [[e stdout] s1] eqn:Hexec. split.
  - eapply held_weaken; [exact Hh2 | by intros id []].
  - right. exists g, w1, guest. split_and!; [done | done |]. by rewrite Hexec.
Qed.

Lemma held_run (r : Runner host_call) source inputs early recorded journal mounted w s :
  wf w -> images_at w r -> (ru_runtime r < w_next w)%N ->
  held w none (run os json_error r source inputs early recorded journal mounted (w, s)).2.1.
Proof.
  intros Hwf Himg Hrt. pose proof (run_spec r source inputs early recorded journal mounted w s Hwf Himg Hrt) as H.
  destruct (run _ _ _ _ _ _ _ _ _ _) as [out [w' s']]. apply H.
Qed.

(** Attempts leave nothing open and touch nothing that was there. *)
Lemma held_attempt a (r : Runner host_call) w s :
  wf w -> usable w r -> held w none (attempt_run a r (w, s)).2.1.
Proof.
  intros Hwf Hus. pose proof (usable_files w r Hus) as Himg. pose proof (in_table _ _ _ Hwf (us_runtime _ _ Hus)) as Hrt.
  destruct a as [source inputs | source inputs | source inputs seed journal | source inputs [lease |]]; unfold attempt_run.
  - unfold Prepared.Run. destruct (ru_workspaceImage r); [by apply held_refl | by apply held_run].
  - unfold RunWithEarlyReads. destruct (ru_workspaceImage r); [by apply held_refl | by apply held_run].
  - unfold Prepared.RunRecorded. destruct (_ || _); [by apply held_refl |].
    destruct (_ && _); [by apply held_refl | by apply held_run].
  - unfold RunWorkspace. destruct (BeginRun lease s) as [[[] | e] s1]; [| by apply held_refl].
    destruct (_ && _); [by apply held_refl |]. unfold workspaceFSConfig, on_error. rewrite syscall_answer.
    set (w1 := at_tick _ w). assert (held w none w1) as Hh by (by apply held_at_tick; [apply held_refl | lia]).
    destruct (answer os (w_tick w)); [| done]. pose proof (held_run r source inputs false None None true w1 s1 (held_wf _ _ _ Hh)) as Hr.
    cbv iota beta. destruct (run _ _ _ _ _ _ _ _ _ _) as [out [w2 s2]]. cbn [fst snd] in *.
    eapply held_weaken; [eapply held_trans; [exact Hh | by apply Hr; [eapply images_at_old |]] | by intros ? [[] | []]].
  - by apply held_refl.
Qed.

(** ** Constructors *)

Lemma construct_spec c wasm manifest w :
  wf w ->
  let '(res, w') := construct c wasm manifest w in
  match res with
  | Ok r => building w none (mkSession w' r) /\ well_made wasm w' r
  | Err _ => held w none w'
  end.
Proof.
  intros Hwf.
  assert (forall options (f : bool -> M world (Runner host_call)),
    (forall d, let '(res, w') := f d w in
       match res with Ok r => building w none (mkSession w' r) /\ well_made wasm w' r | Err _ => held w none w' end) ->
    let '(res, w') := (dataImage <- of_res (cowDataImageOption options);; f dataImage) w in
    match res with Ok r => building w none (mkSession w' r) /\ well_made wasm w' r | Err _ => held w none w' end) as Hopt.
  { intros options f Hf. unfold bind, cowDataImageOption. destruct (1 <? length options)%nat; simpl; [by apply held_refl | apply Hf]. }
  destruct c; simpl; try (by apply prepare_spec; auto); try (apply Hopt; intros d; by apply prepare_spec; auto).
  unfold New. pose proof (newRunner_spec os iterate wasm wasm manifest w Hwf) as Hnew.
  destruct (newRunner os iterate wasm wasm manifest w) as [[r | e] w']; [| done]. destruct Hnew as (Hb & Hplain & Hcode).
  split; [done |]. destruct (plain_usable _ _ _ Hb Hplain) as (Hus & Hseed & Hprep). split; [done |].
  exists None. rewrite Hprep. destruct Hplain as (? & Hst & ?). by split_and!.
Qed.

Lemma well_made_kept wasm w w' (r : Runner host_call) : leaves_own r w w' -> well_made wasm w r -> well_made wasm w' r.
Proof.
  intros Hk [Hus (transformed & H1 & H2 & H3 & H4 & H5)]. destruct (usable_kept w w' r Hk Hus) as (Hus' & Hs & _).
  split; [done |]. exists transformed. rewrite Hs. split_and!; try done.
  destruct (is_prepared r); [by eapply primed_kept | done].
Qed.

(** ** The invariant *)

Record inv (sys : system) : Prop := {
  inv_wf : wf (sy_world sys);
  inv_alive : w_crashed (sy_world sys) = false;
  inv_open id : is_open (sy_world sys) id = true -> id ∈ handles (sy_runners sys);
  inv_distinct : NoDup (handles (sy_runners sys));
  inv_made : Forall (fun p => well_made p.2 (sy_world sys) p.1) (sy_runners sys)
}.

Lemma runner_handles_owned {C} (r : Runner C) id : id ∈ runner_handles r <-> owned r id.
Proof.
  unfold runner_handles, owned. rewrite elem_of_cons, elem_of_app.
  by destruct (ru_cow r), (ru_cowSeed r); simpl; set_solver.
Qed.

Lemma handles_cons p rs : handles (p :: rs) = runner_handles p.1 ++ handles rs.
Proof. done. Qed.

Lemma handles_app rs rs' : handles (rs ++ rs') = handles rs ++ handles rs'.
Proof. unfold handles. by rewrite map_app, concat_app. Qed.

Lemma handles_owned rs id : id ∈ handles rs <-> exists p, p ∈ rs /\ owned p.1 id.
Proof.
  induction rs as [| p rs IH]; [set_solver |].
  rewrite handles_cons, elem_of_app, IH, runner_handles_owned. set_solver.
Qed.

(** The handles of a runner are there, and open. *)
Lemma usable_owned {C} w (r : Runner C) id :
  usable w r -> owned r id -> exists x, w_table w !! id = Some x /\ open_resource x = true.
Proof.
  intros [H1 H2 _] [-> | Hid]; [by eexists |]. destruct (H2 id Hid) as (c & Hc & Hready & _). exists (RImage c).
  split; [done |]. unfold Ready in Hready. simpl. by destruct (cow_closed c).
Qed.

Lemma usable_distinct {C} w (r : Runner C) : usable w r -> NoDup (runner_handles r).
Proof.
  intros [H1 H2 H3]. assert (forall id, ru_cow r = Some id \/ ru_cowSeed r = Some id -> ru_runtime r <> id) as Hne.
  { intros id Hid <-. destruct (H2 _ Hid) as (c & Hc & _). congruence. }
  unfold runner_handles. destruct (ru_cow r) as [a |], (ru_cowSeed r) as [b |]; simpl; repeat (constructor; [set_solver |]); [| | |].
  all: try constructor; rewrite ?elem_of_cons, ?elem_of_nil; try set_solver.
Qed.

Lemma held_leaves w w' own rs : wf w -> held w own w' ->
  Forall (fun p : Runner host_call * buffer => well_made p.2 w p.1) rs -> Forall (fun p => well_made p.2 w' p.1) rs.
Proof.
  intros Hwf Hh. apply Forall_impl. intros [r wasm] Hmade. eapply well_made_kept; [| exact Hmade].
  intros id x _ Hx. rewrite (held_old _ _ _ Hh); [done | by eapply in_table].
Qed.

(** Operations that leave nothing open. *)
Lemma inv_held w w' s s' rs : inv (mkSystem w s rs) -> held w none w' -> inv (mkSystem w' s' rs).
Proof.
  intros [Hwf Hal Ho Hd Hm] Hh. simpl in *. split; simpl; [apply Hh | by rewrite (held_crashed _ _ _ Hh) | | done | by eapply held_leaves].
  intros id Hopen. destruct (N.lt_ge_cases id (w_next w)) as [Hlt | Hge]; [| by destruct (held_own _ _ _ Hh id Hge Hopen)].
  apply Ho. unfold is_open in *. by rewrite <- (held_old _ _ _ Hh).
Qed.

Lemma inv_make w w' s rs (r : Runner host_call) wasm :
  inv (mkSystem w s rs) -> building w none (mkSession w' r) -> well_made wasm w' r -> inv (mkSystem w' s ((r, wasm) :: rs)).
Proof.
  intros [Hwf Hal Ho Hd Hm] [Hh Hrt Himg Hlow] Hmade. simpl in *.
  split; simpl; [apply Hh | by rewrite (held_crashed _ _ _ Hh) | | | constructor; [done | by eapply held_leaves]].
  - intros id Hopen. rewrite handles_cons, elem_of_app, runner_handles_owned.
    destruct (N.lt_ge_cases id (w_next w)) as [Hlt | Hge].
    + right. apply Ho. unfold is_open in *. by rewrite <- (held_old _ _ _ Hh).
    + left. by destruct (held_own _ _ _ Hh id Hge Hopen) as [? | []].
  - rewrite handles_cons. apply list.NoDup_app. split_and!; [by eapply usable_distinct, Hmade | | done].
    intros id Hid%runner_handles_owned%Hlow (p & Hp & Hown)%handles_owned.
    rewrite list.Forall_forall in Hm. destruct (usable_owned w p.1 id) as (x & Hx & _); [by apply (Hm p) | done |].
    pose proof (in_table _ _ _ Hwf Hx). lia.
Qed.

Lemma close_runner_shut (r : Runner host_call) wasm w : well_made wasm w r -> shut (owned r) w (close_runner r w).
Proof. intros [Hus _]. apply (runner_Close_shut os (mkSession w r)); [apply Hus | by apply usable_files]. Qed.

(** Closing a runner leaves the others alone. *)
Lemma close_leaves w s before (r : Runner host_call) wasm after p :
  inv (mkSystem w s (before ++ (r, wasm) :: after)) -> p ∈ before ++ after -> leaves_own p.1 w (close_runner r w).
Proof.
  intros [Hwf Hal Ho Hd Hm] Hp id x Hid Hx. simpl in *.
  rewrite list.Forall_forall in Hm. assert (p ∈ before ++ (r, wasm) :: after) as Hp' by set_solver.
  assert (well_made wasm w r) as Hr by (apply (Hm (r, wasm)); set_solver).
  assert (~ owned r id) as Hno.
  { intros Hown%runner_handles_owned. rewrite handles_app, handles_cons in Hd.
    rewrite (app_assoc (handles before)), (Permutation_app_comm (handles before)), <- app_assoc in Hd.
    apply list.NoDup_app in Hd as (_ & Hdisj & _). apply (Hdisj id Hown). rewrite <- handles_app.
    apply handles_owned. by exists p. }
  apply (shut_keep _ _ _ (close_runner_shut r wasm w Hr) id x Hx Hno).
  destruct x as [| | | i |]; try done. destruct (Hm p Hp') as [[U1 U2 _] _].
  destruct Hid as [-> | Hid]; [congruence |]. destruct (U2 id Hid) as (c & Hc & _). congruence.
Qed.

Lemma inv_close w s before (r : Runner host_call) wasm after :
  inv (mkSystem w s (before ++ (r, wasm) :: after)) -> inv (mkSystem (close_runner r w) s (before ++ after)).
Proof.
  intros Hinv. pose proof (fun p => close_leaves w s before r wasm after p Hinv) as Hkeep. destruct Hinv as [Hwf Hal Ho Hd Hm]. simpl in *.
  assert (well_made wasm w r) as Hr by (rewrite list.Forall_forall in Hm; apply (Hm (r, wasm)); set_solver).
  pose proof (close_runner_shut r wasm w Hr) as Hs. split; simpl.
  - by eapply shut_wf.
  - by rewrite (shut_crashed _ _ _ Hs).
  - intros id Hopen. destruct (shut_open _ _ _ id Hs Hopen) as [H1 H2]. specialize (Ho id H1).
    rewrite handles_app, elem_of_app in *. destruct Ho as [? | Ho]; [by left |].
    rewrite handles_cons in Ho. apply elem_of_app in Ho as [?%runner_handles_owned | ?]; [done | by right].
  - rewrite handles_app, handles_cons in Hd. rewrite handles_app.
    rewrite (app_assoc (handles before)), (Permutation_app_comm (handles before)), <- app_assoc in Hd.
    by apply list.NoDup_app in Hd as (_ & _ & ?).
  - rewrite list.Forall_forall in *. intros p Hp. eapply well_made_kept; [by apply Hkeep | apply Hm; set_solver].
Qed.

Lemma inv_step sys sys' : inv sys -> step sys sys' -> inv sys'.
Proof.
  intros Hinv. destruct 1 as [c wasm manifest w s rs r w' Hrun | c wasm manifest w s rs e w' Hrun | a w s rs r wasm out w' s' Hin Hrun | |].
  - pose proof (construct_spec c wasm manifest w (inv_wf _ Hinv)) as Hc. rewrite Hrun in Hc. destruct Hc.
    by eapply inv_make.
  - pose proof (construct_spec c wasm manifest w (inv_wf _ Hinv)) as Hc. rewrite Hrun in Hc. by eapply inv_held.
  - pose proof (inv_made _ Hinv) as Hm. rewrite list.Forall_forall in Hm. destruct (Hm _ Hin) as [Hus _].
    pose proof (held_attempt a r w s (inv_wf _ Hinv) Hus) as Hh. simpl in Hh. rewrite Hrun in Hh. by eapply inv_held.
  - by eapply inv_close.
  - eapply inv_held; [done | apply held_refl, (inv_wf _ Hinv)].
Qed.

(** ** Histories *)

(** Runners that are there at both ends of a step keep their handles, and none
    comes back. *)
Lemma step_keeps sys sys' (r : Runner host_call) wasm :
  inv sys -> step sys sys' -> (ru_runtime r < w_next (sy_world sys))%N ->
  (w_next (sy_world sys) <= w_next (sy_world sys'))%N
  /\ ((r, wasm) ∈ sy_runners sys' -> (r, wasm) ∈ sy_runners sys /\ leaves_own r (sy_world sys) (sy_world sys')).
Proof.
  intros Hinv Hstep Hlt. pose proof (inv_wf _ Hinv) as Hwf.
  assert (forall own w', held (sy_world sys) own w' -> leaves_own r (sy_world sys) w') as Hheld.
  { intros own w' Hh id x _ Hx. rewrite (held_old _ _ _ Hh); [done | by eapply in_table]. }
  destruct Hstep as [c wasm' manifest w s rs r' w' Hrun | c wasm' manifest w s rs e w' Hrun | a w s rs r' wasm' out w' s' Hin' Hrun
    | w s before r' wasm' after |]; simpl in *.
  - pose proof (construct_spec c wasm' manifest w Hwf) as Hc. rewrite Hrun in Hc. destruct Hc as [[Hh _ _ Hlow] _]. simpl in *.
    split; [apply Hh |]. intros [[= <- <-] | Hin]%elem_of_cons; [specialize (Hlow (ru_runtime r) ltac:(by left)); lia |].
    split; [done | by eapply Hheld].
  - pose proof (construct_spec c wasm' manifest w Hwf) as Hc. rewrite Hrun in Hc. split; [apply Hc | by split; [| eapply Hheld]].
  - pose proof (inv_made _ Hinv) as Hm. rewrite list.Forall_forall in Hm. destruct (Hm _ Hin') as [Hus _].
    pose proof (held_attempt a r' w s Hwf Hus) as Hh. simpl in Hh. rewrite Hrun in Hh. split; [apply Hh | by split; [| eapply Hheld]].
  - pose proof (inv_made _ Hinv) as Hm. rewrite list.Forall_forall in Hm.
    assert (well_made wasm' w r') as Hr by (apply (Hm (r', wasm')); set_solver).
    rewrite (shut_next _ _ _ (close_runner_shut r' wasm' w Hr)). split; [done |]. intros Hin. split; [set_solver |].
    by apply (close_leaves w s before r' wasm' after (r, wasm)).
  - split; [done |]. intros Hin. split; [done |]. eapply Hheld, held_refl, Hwf.
Qed.

Lemma history_keeps sys sys' (r : Runner host_call) wasm :
  inv sys -> rtc step sys sys' -> (ru_runtime r < w_next (sy_world sys))%N ->
  inv sys' /\ (w_next (sy_world sys) <= w_next (sy_world sys'))%N
  /\ ((r, wasm) ∈ sy_runners sys' -> leaves_own r (sy_world sys) (sy_world sys')).
Proof.
  intros Hinv Hrun Hlt. revert sys' Hrun.
  refine (rtc_ind_r _ sys _ _); [split_and!; [done | lia | by intros ? ? ?] |]. intros sys1 sys2 _ Hstep (Hinv1 & Hn1 & Hk1).
  destruct (step_keeps sys1 sys2 r wasm Hinv1 Hstep ltac:(lia)) as [Hn2 Hk2].
  split_and!; [by eapply inv_step | lia |]. intros Hin. destruct (Hk2 Hin) as [Hin1 Hl2]. specialize (Hk1 Hin1).
  intros id x Hid Hx. by apply Hl2, Hk1.
Qed.

Lemma inv_start s : inv (start s).
Proof. split; simpl; [by split | done | done | constructor | constructor]. Qed.

Lemma reachable_inv s sys : reachable s sys -> inv sys.
Proof.
  intros Hr. assert (forall a b, rtc step a b -> inv a -> inv b) as H.
  { induction 1; eauto using inv_step. }
  eapply H; [done | apply inv_start].
Qed.
End System.
