(* ===== verification/PreparedProps.v ===== *)
(** * PreparedProps: the theorems about prepared runners

    Ownership of handles, what an attempt on a prepared runner starts from, and
    when that cannot be told from a start from scratch. *)

From S2P Require Import Prelude Errors Effects Json Manifest Bridge Leb128 Sha256 Cowmem CowmemProps DataImage DataImageSpec DataImageProps Prepared PreparedSpec PreparedInv PreparedBuild PreparedSystem.

(** ** What is relied on *)

Section Laws.
Context `{HR : RandomStream} `{HW : @Wasm HR}.

(** A memory of whole pages within its limit. *)
Definition within (mem : buffer) (g : globals) : Prop :=
  (N.of_nat (length mem) mod wasmPageSize = 0)%N /\ (N.of_nat (length mem) <= memory_limit g * wasmPageSize)%N.

(** A start function that returns. *)
Definition returns (s : started globals) (status : N) : Prop := sd_status s = Ok status.

(** Random streams and wazero: a stream goes on from where it was marshalled;
    memories have whole pages, at most 8192 ([newRunner]) and at most the declared
    maximum; running code only grows them and moves no limit; a valid module has
    one Memory section at most, and the Data section decides about the initial
    memory and nothing else.  Nothing is said of what the artifact's functions do
    with the globals, the tables and the console. *)
Record laws (wasm : buffer) : Prop := {
  law_stream x y data : MarshalBinary x = Ok data -> UnmarshalBinary y data = Ok x;
  law_memory code mem g : InstantiateModule code = Ok (mem, g) -> within mem g /\ (memory_limit g <= 8192)%N;
  law_start name mounted i mem g c status :
    let s := call_start name mounted i mem g c in
    returns s status -> within mem g ->
    (length mem <= length (sd_memory s))%nat /\ within (sd_memory s) g
    /\ memory_limit (sd_globals s) = memory_limit g;
  law_declared code mem g declared :
    InstantiateModule code = Ok (mem, g) -> cm_memory code = Some (Some declared) ->
    (memory_limit g <= declared)%N /\ (declared <= 65536)%N;
  law_valid bytes secs code :
    CompileModule bytes = Ok code -> module_bytes secs bytes -> (length (of_id wasmMemorySection secs) <= 1)%nat;
  law_data pre post payload payload' segs segs' bytes code' mem mem' g :
    let secs data := pre ++ (wasmDataSection, data) :: post in
    let pages := pages_of (memory_limits (secs payload)) in
    let zeros := zero_file (pages * wasmPageSizeBytes) in
    module_bytes (secs payload) wasm -> data_section segs payload ->
    module_bytes (secs payload') bytes -> data_section segs' payload' -> map strip segs' = map strip segs ->
    of_id wasmStartSection (secs payload) = [] -> pages <> 0%N -> instantiate segs zeros = Some mem ->
    CompileModule bytes = Ok code' -> InstantiateModule code' = Ok (mem', g) ->
    instantiate segs' zeros = Some mem'
    /\ exists code, CompileModule wasm = Ok code /\ InstantiateModule code = Ok (mem, g)
}.

(** A recorded start from scratch of the artifact [wasm]: the state after
    [_initialize], and after [init] too. *)
Definition initialized (wasm : buffer) (seed : string) : option start_state :=
  match CompileModule wasm with
  | Ok code =>
      match InstantiateModule code with
      | Ok (mem, g) => initialize false (Recorded (newRecording seed)) mem g
      | Err _ => None
      end
  | Err _ => None
  end.

Definition cold_start (wasm : buffer) (seed : string) : option start_state := initialized wasm seed ≫= init_python false.

(** A start that resumes an image of the same start: the memory, the random
    stream and the clocks are those after [init]; the globals and the console are
    those of an instance of which only [_initialize] was called. *)
Definition resumed_start (wasm : buffer) (seed : string) : option start_state :=
  match initialized wasm seed, cold_start wasm seed with
  | Some (_, c, _, g), Some (i, _, mem, _) => Some (i, c, mem, g)
  | _, _ => None
  end.

(** Under this seed [init] of the artifact works on the memory only: it leaves the
    globals alone and prints nothing that is kept. *)
Definition init_is_confined (wasm : buffer) (seed : string) : Prop :=
  forall i c mem g i' c' mem' g',
    initialized wasm seed = Some (i, c, mem, g) -> cold_start wasm seed = Some (i', c', mem', g') -> g' = g /\ c' = c.

Lemma confined_start wasm seed : init_is_confined wasm seed -> resumed_start wasm seed = cold_start wasm seed.
Proof.
  unfold init_is_confined, resumed_start. destruct (initialized wasm seed) as [[[[i c] mem] g] |] eqn:Hi.
  2:{ unfold cold_start. by rewrite Hi. }
  destruct (cold_start wasm seed) as [[[[i' c'] mem'] g'] |]; [| done].
  intros H. by destruct (H _ _ _ _ _ _ _ _ eq_refl eq_refl) as [-> ->].
Qed.

(** What a Guest of a runner starts from. *)
Definition start_of {C} (r : Runner C) (wasm : buffer) (seed : string) : option start_state :=
  if is_prepared r then resumed_start wasm seed else cold_start wasm seed.

(** The Guest of the bridge that goes on from a start: what the start printed is
    its output too. *)
Definition guest_from (start : string -> option start_state) (seed request : string) : guest :=
  match start seed with
  | Some (i, c, mem, g) => GWrite c.1 (fun _ => call_execute false i mem g c request)
  | None => GTrap (EMsg "") ""
  end.

(** The console is bounded. *)
Lemma write_all_bounded writes b : (slen b <= maxMessage)%N -> (slen (write_all b writes) <= maxMessage)%N.
Proof.
  revert b. induction writes as [| p writes IH]; intros b Hb; [done |]. apply IH. unfold boundedWrite.
  destruct (N.ltb_spec maxMessage (slen b + slen p)) as [? | Hle]; cbn [fst]; [done |]. by rewrite slen_app.
Qed.

Lemma initialize_bounded mounted i mem g i' c mem' g' :
  initialize mounted i mem g = Some (i', c, mem', g') -> (slen c.1 <= maxMessage)%N.
Proof. unfold initialize. destruct (sd_status _); [| done]. intros [= _ <- _ _]. by apply write_all_bounded. Qed.

Lemma init_bounded mounted i c mem g i' c' mem' g' :
  (slen c.1 <= maxMessage)%N -> init_python mounted (i, c, mem, g) = Some (i', c', mem', g') -> (slen c'.1 <= maxMessage)%N.
Proof.
  unfold init_python. intros Hc. destruct (sd_status _) as [[|] |]; [| done | done]. intros [= _ <- _ _]. by apply write_all_bounded.
Qed.

Lemma start_bounded {C} (r : Runner C) wasm seed i c mem g :
  start_of r wasm seed = Some (i, c, mem, g) -> (slen c.1 <= maxMessage)%N.
Proof.
  assert (forall i c mem g, initialized wasm seed = Some (i, c, mem, g) -> (slen c.1 <= maxMessage)%N) as Hinit.
  { unfold initialized. intros ? ? ? ?. destruct (CompileModule wasm) as [code |]; [| done].
    destruct (InstantiateModule code) as [[memx gx] |]; [| done]. apply initialize_bounded. }
  unfold start_of, resumed_start, cold_start. destruct (initialized wasm seed) as [[[[i1 c1] mem1] g1] |]; [| by destruct (is_prepared r)].
  specialize (Hinit _ _ _ _ eq_refl). cbn [mbind option_bind]. destruct (is_prepared r).
  - destruct (init_python _ _) as [[[[? ?] ?] ?] |]; [| done]. by intros [= _ <- _ _].
  - by apply init_bounded.
Qed.

(** ** Starts from the image and from scratch *)

Section Start.
Context (wasm : buffer) (Hlaws : laws wasm) (Hsmall : (N.of_nat (length wasm) < 2 ^ 62)%N).

Lemma strip_strip s : strip (strip s) = strip s.
Proof. unfold strip. destruct (g_target s) eqn:Ht; simpl; by rewrite ?Ht. Qed.

(** The shell and its seed are the module. *)
Lemma shell_starts image code mem g :
  transformCOWDataImage wasm = Ok image -> CompileModule (im_shell image) = Ok code -> InstantiateModule code = Ok (mem, g) ->
  length mem = length (seed_file image)
  /\ exists code0, CompileModule wasm = Ok code0 /\ InstantiateModule code0 = Ok (seed_file image, g).
Proof.
  intros Himg Hcode Hinst.
  destruct (transform_replaces _ _ Hsmall Himg) as (pre & payload & out & post & segs & H1 & H2 & H3 & H4 & Ha & Hnostart & Hmem).
  pose proof (law_valid _ Hlaws _ _ _ Hcode H2) as Hone.
  assert (length (of_id wasmMemorySection (pre ++ (wasmDataSection, payload) :: post)) <= 1)%nat as Hone'.
  { rewrite of_id_app in *. exact Hone. }
  destruct (Hmem payload Hone') as (Hsize & Hpos & Hlt & Hin). set (pages := pages_of _) in *.
  assert (N.of_nat (length (zero_file (pages * wasmPageSizeBytes))) = pages * wasmPageSizeBytes)%N as Hlen
    by (unfold zero_file; rewrite length_replicate; lia).
  destruct (written_instantiates segs 0 _ pages Hlen Hin) as [Hi _].
  destruct (law_data _ Hlaws pre post payload out segs (map strip segs) (im_shell image) code
    (written (map seed_segment (actives 0 segs)) (zero_file (pages * wasmPageSizeBytes))) mem g) as [Hshell Hwhole]; try done.
  { rewrite map_map. apply map_ext. intros s. by apply strip_strip. }
  fold pages in Hshell. rewrite (instantiate_stripped segs _ pages Hlen Hin) in Hshell. injection Hshell as <-.
  assert (seed_file image = written (map seed_segment (actives 0 segs)) (zero_file (pages * wasmPageSizeBytes))) as ->.
  { unfold seed_file. by rewrite Ha, Hsize. }
  split; [| done].
  destruct (written_instantiates segs 0 _ pages Hlen Hin) as [_ Hfits].
  symmetry. by apply (written_length _ _ _ Hlen).
Qed.

(** Start functions, from the laws. *)
Lemma initialize_keeps mounted i mem g i' c mem' g' :
  within mem g -> initialize mounted i mem g = Some (i', c, mem', g') ->
  (length mem <= length mem')%nat /\ within mem' g' /\ memory_limit g' = memory_limit g.
Proof.
  unfold initialize. intros Hw Hi. destruct (sd_status _) as [status |] eqn:Hok; [| done]. injection Hi as _ _ <- <-.
  destruct (law_start _ Hlaws _ _ _ _ _ _ status Hok Hw) as (H1 & [H2 H3] & H4).
  split_and!; [done | split; [done | by rewrite H4] | done].
Qed.

Lemma init_keeps mounted i c mem g i' c' mem' g' :
  within mem g -> init_python mounted (i, c, mem, g) = Some (i', c', mem', g') ->
  (length mem <= length mem')%nat /\ within mem' g' /\ memory_limit g' = memory_limit g.
Proof.
  unfold init_python. intros Hw Hi. destruct (sd_status _) as [[| status] |] eqn:Hok; [| done | done]. injection Hi as _ _ <- <-.
  destruct (law_start _ Hlaws _ _ _ _ _ _ 0%N Hok Hw) as (H1 & [H2 H3] & H4).
  split_and!; [done | split; [done | by rewrite H4] | done].
Qed.

(** A recording stays one, under its seed. *)
Definition recorded_as (seed : string) (i : inputs) : Prop := exists rec, i = Recorded rec /\ rec_seed rec = seed.

Lemma inputs_after_recorded seed i s : recorded_as seed i -> recorded_as seed (inputs_after i s).
Proof.
  intros (rec & -> & Hseed). unfold inputs_after. destruct (sd_entropy s) as [[[random wall] mono] |]; by eexists.
Qed.

Lemma initialize_recorded seed mounted i mem g i' c mem' g' :
  recorded_as seed i -> initialize mounted i mem g = Some (i', c, mem', g') -> recorded_as seed i'.
Proof.
  unfold initialize. intros Hr Hi. destruct (sd_status _); [| done]. injection Hi as <- _ _ _. by apply inputs_after_recorded.
Qed.

Lemma init_recorded seed mounted i c mem g i' c' mem' g' :
  recorded_as seed i -> init_python mounted (i, c, mem, g) = Some (i', c', mem', g') -> recorded_as seed i'.
Proof.
  unfold init_python. intros Hr Hi. destruct (sd_status _) as [[|] |]; [| done | done]. injection Hi as <- _ _ _.
  by apply inputs_after_recorded.
Qed.

(** Restoring what was captured. *)
Lemma restore_captured rec0 rec rec1 saved :
  capture rec = Ok saved -> rec_seed rec0 = rec_seed rec -> rec1 = rec -> restore rec0 saved = Ok rec1.
Proof.
  unfold capture, restore. intros Hc Hseed ->. destruct (MarshalBinary (rec_random rec)) as [data | e] eqn:Hm; [| done].
  simpl in Hc. injection Hc as <-. simpl. rewrite (law_stream _ Hlaws _ (rec_random rec0) _ Hm). simpl.
  rewrite Hseed. by destruct rec.
Qed.

(** The memory a Guest gets before [_initialize] is the one the artifact has. *)
Lemma seeded_start {C} w (r : Runner C) mem g :
  well_made wasm w r -> InstantiateModule (ru_code r) = Ok (mem, g) ->
  within mem g /\ length (default mem (seed_memory w r)) = length mem
  /\ exists code, CompileModule wasm = Ok code /\ InstantiateModule code = Ok (default mem (seed_memory w r), g).
Proof.
  intros [_ (transformed & Htr & Hcode & -> & _)] Hinst. destruct (law_memory _ Hlaws _ _ _ Hinst) as [Hw _].
  destruct transformed as [image |]; simpl in *; [| by split_and!; [| | exists (ru_code r)]].
  destruct (shell_starts image (ru_code r) mem g) as [Hlen Hcode0]; [by apply Htr | done | done |]. by rewrite Hlen.
Qed.

(** A Guest of a recorded image resumes the start that was captured. *)
Lemma warm_start {C} w (r : Runner C) saved mem g :
  well_made wasm w r -> is_prepared r = true -> ru_preparedState r = Some saved -> InstantiateModule (ru_code r) = Ok (mem, g) ->
  let rec := newRecording (pr_seed saved) in
  exists s, resumed_start wasm (pr_seed saved) = Some s
    /\ pure_start (seed_memory w r) (prepared_memory w r) (Some saved) false (Some rec) (Recorded rec) mem g = Some s.
Proof.
  intros Hmade Hprep Hsaved Hinst rec. destruct (seeded_start w r mem g Hmade Hinst) as (Hwithin & Hlen & code & Hcode & Hinst0).
  destruct Hmade as [_ (transformed & _ & _ & _ & Hws & Hprimed)]. rewrite Hprep in Hprimed. unfold primed in Hprimed. rewrite Hws in Hprimed by congruence.
  destruct Hprimed as (recorded & i & mem0 & g0 & i' & c' & image & g' & Hinst' & Hi & Hstart & Himage & _ & Hst).
  rewrite Hinst in Hinst'. injection Hinst' as <- <-. destruct recorded as [rec0 |]; [| congruence].
  destruct Hi as [-> [seed ->]]. destruct Hst as (saved' & Hcap & Hst). assert (saved' = saved) as -> by congruence.
  destruct (initialize false _ _ g) as [[[[i1 c1] mem1] g1] |] eqn:Hinit; [| done]. cbn [mbind option_bind] in Hstart.
  assert (recorded_as seed (Recorded (newRecording seed))) as Hrec0 by (by eexists).
  pose proof (initialize_recorded _ _ _ _ _ _ _ _ _ Hrec0 Hinit) as (rec1 & -> & Hseed1).
  assert (recorded_as seed (Recorded rec1)) as Hrec1 by (by eexists).
  pose proof (init_recorded _ _ _ _ _ _ _ _ _ _ Hrec1 Hstart) as (rec' & -> & Hseed'). simpl in Hcap.
  assert (pr_seed saved = seed) as Hsame.
  { unfold capture in Hcap. destruct (MarshalBinary _); [| done]. simpl in Hcap. injection Hcap as <-. done. }
  unfold rec. rewrite Hsame in *. exists (Recorded rec', c1, image, g1). split.
  { unfold resumed_start, cold_start, initialized. rewrite Hcode, Hinst0, Hinit. cbn [mbind option_bind]. by rewrite Hstart. }
  unfold pure_start. rewrite Hinit. cbn [mbind option_bind]. rewrite Himage. simpl.
  by rewrite (restore_captured rec1 rec' rec' saved Hcap) by congruence.
Qed.

(** Images within the limits fit. *)
Lemma image_fits mem g image declared guest :
  within mem g -> within image g -> (length mem <= length image)%nat -> (memory_limit g <= declared)%N -> (declared <= 65536)%N ->
  (memory_limit g <= 8192)%N -> in_memory guest = mem -> memory_limit (in_globals guest) = memory_limit g ->
  let size := N.of_nat (length image) in
  pages_up_to (memory_size guest) size /\ (size < 2 ^ 32)%N /\ growable guest (u64 (declared * wasmPageSize)) size.
Proof.
  intros [Hm1 Hm2] [Hi1 Hi2] Hle Hd1 Hd2 Hd3 Hmem Hlim size. unfold memory_size, growable. rewrite Hmem, Hlim.
  unfold pages_up_to, u64, wasmPageSize, size in *. rewrite (N.mod_small (declared * 65536)) by lia.
  split_and!; [lia | lia | done | done | lia | done |]. destruct (in_mapping guest); [split; lia | done].
Qed.

Lemma prepared_fits {C} w (r : Runner C) saved mem g declared mapping :
  well_made wasm w r -> is_prepared r = true -> ru_preparedState r = Some saved -> InstantiateModule (ru_code r) = Ok (mem, g) ->
  (memory_limit g <= declared)%N -> (declared <= 65536)%N ->
  images_fit w r false (Recorded (newRecording (pr_seed saved)))
    (mkInstance (ru_runtime r) (ru_code r) mem g mapping true) (u64 (declared * wasmPageSize)).
Proof.
  intros Hmade Hprep Hsaved Hinst Hd1 Hd2. destruct (seeded_start w r mem g Hmade Hinst) as (Hwithin & Hlen & _).
  destruct (law_memory _ Hlaws _ _ _ Hinst) as [_ Hlim].
  destruct Hmade as [Hus (transformed & _ & _ & _ & Hws & Hprimed)]. rewrite Hprep in Hprimed.
  unfold primed in Hprimed. rewrite Hws in Hprimed by congruence.
  destruct Hprimed as (recorded & i & mem0 & g0 & i' & c' & image & g' & Hinst' & Hi & Hstart & Himage & Hcow & Hst).
  rewrite Hinst in Hinst'. injection Hinst' as <- <-. destruct recorded as [rec0 |]; [| congruence].
  destruct Hi as [-> [seed ->]]. destruct Hst as (saved' & Hcap & Hst). assert (saved' = saved) as -> by congruence.
  destruct (initialize false _ _ g) as [[[[i1 c1] mem1] g1] |] eqn:Hinit; [| done]. cbn [mbind option_bind] in Hstart.
  assert (within (default mem (seed_memory w r)) g) as Hw0 by (unfold within; by rewrite Hlen).
  destruct (initialize_keeps _ _ _ _ _ _ _ _ Hw0 Hinit) as (Hle1 & Hw1 & Hg1).
  destruct (init_keeps _ _ _ _ _ _ _ _ _ Hw1 Hstart) as (Hle2 & Hw2 & Hg2).
  assert (pr_seed saved = seed) as Hsame.
  { assert (recorded_as seed (Recorded (newRecording seed))) as Hrec0 by (by eexists).
    pose proof (initialize_recorded _ _ _ _ _ _ _ _ _ Hrec0 Hinit) as Hrec1.
    pose proof (init_recorded _ _ _ _ _ _ _ _ _ _ Hrec1 Hstart) as (rec' & -> & Hseed'). simpl in Hcap.
    unfold capture in Hcap. destruct (MarshalBinary _); [| done]. simpl in Hcap. by injection Hcap as <-. }
  rewrite Hsame. pose proof (us_image _ _ Hus) as Himgs. split; simpl.
  - intros id c Hid Hc. destruct (Himgs id (or_intror Hid)) as (c2 & Hc2 & Hready & Hcap2). assert (c2 = c) as -> by congruence.
    assert (seed_memory w r = Some (cow_file c)) as Hfile by (unfold seed_memory; rewrite Hid; by rewrite (file_at_Some _ _ _ Hc)).
    rewrite Hfile in Hlen, Hw0. simpl in *. apply andb_true_iff in Hready as [Hopen Hsize]. guards.
    edestruct (image_fits mem g (cow_file c) declared (mkInstance (ru_runtime r) (ru_code r) mem g mapping true))
      as (H1 & _ & H3); try done; [lia |]. unfold attachable. rewrite Hcap2. split_and!; [by destruct (cow_closed c) | by rewrite <- Hcap2 | done | done].
  - intros i2 c2 mem2 g2 Hinit2. rewrite Hinit in Hinit2. injection Hinit2 as <- <- <- <-.
    assert (within image g) as Hwi by (destruct Hw2 as [? Hw2]; split; [done | by rewrite <- Hg1, <- Hg2]).
    assert (within mem1 g) as Hwm by (destruct Hw1 as [? Hw1]; split; [done | by rewrite <- Hg1]).
    destruct (image_fits mem1 g image declared (with_state mem1 g1 (mkInstance (ru_runtime r) (ru_code r) mem g mapping true)))
      as (H1 & H2 & H3); try done.
    split.
    + intros id c Hid Hc Hready. destruct (Himgs id (or_introl Hid)) as (c3 & Hc3 & _ & Hcap3). assert (c3 = c) as -> by congruence.
      assert (cow_file c = image) as <-.
      { unfold prepared_memory in Himage. rewrite Hid, (file_at_Some _ _ _ Hc), Hready in Himage. by injection Himage. }
      apply andb_true_iff in Hready as [Hopen Hsize]. guards. unfold attachable. rewrite Hcap3.
      split_and!; [by destruct (cow_closed c) | by rewrite <- Hcap3 | done | done].
    + intros image' Himg'. assert (ru_cow r = None) as Hnone.
      { destruct (ru_cow r); [| done]. destruct Hcow as [? _]; [done | congruence]. }
      unfold prepared_memory in Himage. rewrite Hnone in Himage. simpl in Himage. assert (image' = image) as -> by congruence. by split_and!.
Qed.

Lemma prepared_can {C} w (r : Runner C) saved :
  well_made wasm w r -> is_prepared r = true -> ru_preparedState r = Some saved -> guest_can w r false (newRecording (pr_seed saved)).
Proof.
  intros Hmade Hprep Hsaved. pose proof Hmade as [_ (_ & _ & _ & _ & _ & Hprimed)]. rewrite Hprep in Hprimed.
  destruct Hprimed as (_ & _ & mem & g & _ & _ & _ & _ & Hinst & _ & _ & _ & Hcow & _).
  destruct (law_memory _ Hlaws _ _ _ Hinst) as [_ Hlim].
  destruct (warm_start w r saved mem g Hmade Hprep Hsaved Hinst) as (s & _ & Hs).
  assert (exists declared, (ru_cow r = None \/ declares r declared) /\ (memory_limit g <= declared)%N /\ (declared <= 65536)%N)
    as (declared & Hd & Hd1 & Hd2).
  { destruct (ru_cow r) as [id |]; [| exists 8192%N; split_and!; [by left | done | done]].
    destruct Hcow as [_ [declared Hd]]; [done |]. exists declared. split; [by right |].
    apply (law_declared _ Hlaws _ _ _ _ Hinst), Hd. }
  exists declared, mem, g. split_and!.
  - destruct Hd; [by left | right]. split; [done |]. unfold wasmPageSize. lia.
  - done.
  - intros mapping. by apply prepared_fits.
  - by rewrite Hsaved, Hs.
Qed.

(** A runner without an image starts from scratch. *)
Lemma plain_start {C} w (r : Runner C) seed :
  well_made wasm w r -> is_prepared r = false ->
  let rec := newRecording seed in
  cold_start wasm seed = match InstantiateModule (ru_code r) with
                         | Ok (mem, g) =>
                             pure_start (seed_memory w r) (prepared_memory w r) (ru_preparedState r) false (Some rec) (Recorded rec) mem g
                         | Err _ => None
                         end
  /\ (cold_start wasm seed <> None -> guest_can w r false rec).
Proof.
  intros [Hus (transformed & Htr & Hcode & Hseed & _ & Hplain)] Hprep rec. rewrite Hprep in Hplain.
  destruct Hplain as (Hi & Hst & Hcow & Hcs & _).
  assert (transformed = None) as ->.
  { unfold seed_memory in Hseed. rewrite Hcs in Hseed. by destruct transformed. }
  simpl in Hcode. assert (prepared_memory w r = None) as Hno by (unfold prepared_memory; by rewrite Hcow, Hi).
  assert (cold_start wasm seed = match InstantiateModule (ru_code r) with
                                 | Ok (mem, g) =>
                                     pure_start (seed_memory w r) (prepared_memory w r) (ru_preparedState r) false (Some rec)
                                       (Recorded rec) mem g
                                 | Err _ => None
                                 end) as Heq.
  { unfold cold_start, initialized. rewrite Hcode, Hseed, Hno, Hst. destruct (InstantiateModule (ru_code r)) as [[mem g] |]; [| done].
    unfold pure_start. fold rec. destruct (initialize _ _ _ _) as [s1 |]; [| done]. cbn [mbind option_bind bring_up].
    by destruct (init_python false s1) as [[[[? ?] ?] ?] |]. }
  split; [done |]. rewrite Heq. destruct (InstantiateModule (ru_code r)) as [[mem g] | e] eqn:Hinst; [| done].
  intros Hstart. exists 1%N, mem, g. split_and!; [by left | done | | done].
  intros mapping. split; [by intros id c Hid; congruence |]. intros i c mem1 g1 _. split; intros; congruence.
Qed.

(** What a recorded attempt starts from. *)
Lemma recorded_start {C} w (r : Runner C) seed g w1 :
  well_made wasm w r -> (is_prepared r = true -> pr_seed <$> ru_preparedState r = Some seed) ->
  guest_made w r false (Some (newRecording seed)) g w1 ->
  exists guest, module_at w1 (gm_module (gu_module g)) guest
    /\ start_of r wasm seed = Some (gu_inputs g, gu_console g, in_memory guest, in_globals guest).
Proof.
  intros Hmade Hseed (guest & max & i & mem & gl & Hm & _ & _ & _ & _ & _ & Hinst & -> & Hpure). exists guest. split; [done |]. unfold start_of.
  destruct (is_prepared r) eqn:Hprep.
  - destruct (ru_preparedState r) as [saved |] eqn:Hsaved; [| by discriminate Hseed]. destruct (warm_start w r saved mem gl Hmade Hprep Hsaved Hinst) as (s & Hcold & Hs).
    assert (pr_seed saved = seed) as Hsame by (specialize (Hseed eq_refl); by injection Hseed). rewrite Hsame in *. congruence.
  - destruct (plain_start w r seed Hmade Hprep) as [-> _]. by rewrite Hinst.
Qed.

Lemma recorded_can {C} w (r : Runner C) seed :
  well_made wasm w r -> (is_prepared r = true -> pr_seed <$> ru_preparedState r = Some seed) ->
  cold_start wasm seed <> None -> guest_can w r false (newRecording seed).
Proof.
  intros Hmade Hseed Hstart. destruct (is_prepared r) eqn:Hprep.
  - destruct (ru_preparedState r) as [saved |] eqn:Hsaved; [| by specialize (Hseed eq_refl)].
    assert (pr_seed saved = seed) as <- by (specialize (Hseed eq_refl); by injection Hseed). by apply prepared_can.
  - by destruct (plain_start w r seed Hmade Hprep) as [_ Hcan]; apply Hcan.
Qed.
End Start.
End Laws.

(** The effect of an image on a start. *)
Lemma pure_start_image `{HR : RandomStream} `{HW : @Wasm HR} seed image saved mounted recorded i mem g i' c' mem' g' :
  match recorded with Some rec => i = Recorded rec | None => exists moment, i = System moment end ->
  pure_start seed (Some image) saved mounted recorded i mem g = Some (i', c', mem', g') ->
  mem' = image
  /\ forall rec p, recorded = Some rec -> saved = Some p ->
       exists random, i' = Recorded (mkRecording (rec_seed rec) random (pr_wall p) (pr_mono p))
         /\ exists before, UnmarshalBinary before (pr_random p) = Ok random.
Proof.
  intros Hi. unfold pure_start. destruct (initialize _ _ _ _) as [[[[i1 c1] mem1] g1] |] eqn:Hinit; [| done].
  cbn [mbind option_bind bring_up restore_inputs]. destruct recorded as [rec |]; [| by intros [= <- <- <- <-]].
  subst i. destruct saved as [p |]; [| by intros [= <- <- <- <-]].
  assert (recorded_as (rec_seed rec) (Recorded rec)) as Hr by (by eexists).
  destruct (initialize_recorded _ _ _ _ _ _ _ _ _ Hr Hinit) as (rec1 & -> & Hseed). simpl. unfold restore.
  destruct (UnmarshalBinary (rec_random rec1) (pr_random p)) as [random |] eqn:Hu; [| done]. simpl.
  intros [= <- <- <- <-]. split; [done |]. intros ? ? [= <-] [= <-]. exists random. rewrite Hseed. split; [done | by eexists].
Qed.

(** ** The theorems *)

Section Theorems.
Context `{HR : RandomStream} `{HW : @Wasm HR}.
Context (os : nat -> option error) (os_pwrite : nat -> buffer -> Z -> res error N) (cowPageSize : N).
Context {S : Type} (json_error : string -> error).
Context {Lease : Type} (BeginRun : Lease -> S -> res error unit * S) (EndRun : Lease -> S -> S).

Notation host_call := (option string -> string -> S -> tool_result * S).
Context (iterate : Manifest host_call -> list (string * ToolSpec host_call)).

Notation step := (step os os_pwrite cowPageSize json_error BeginRun EndRun iterate).
Notation reachable := (reachable os os_pwrite cowPageSize json_error BeginRun EndRun iterate).

(** C10.  No handle is leaked and none is used after it was given up.  Whatever calls
    of the operating system and of wazero fail, and in whatever order runners are
    made, used and closed: the handles that are open between operations - wazero
    runtimes and their modules, memory files, mappings, temporary directories -
    are exactly the runtime and the images of the runners that are not closed, no
    two runners share one, and no memory was touched after it was unmapped. *)
Theorem wasm_handles_are_owned (s : S) (sys : system) :
  reachable s sys ->
  (forall id, is_open (sy_world sys) id = true <-> id ∈ handles (sy_runners sys))
  /\ NoDup (handles (sy_runners sys))
  /\ w_crashed (sy_world sys) = false.
Proof.
  intros Hr. destruct (reachable_inv _ _ _ _ _ _ _ _ _ Hr) as [Hwf Hal Ho Hd Hm]. split_and!; [| done | done].
  intros id. split; [apply Ho |]. intros (p & Hp & Hown)%handles_owned. rewrite list.Forall_forall in Hm.
  destruct (usable_owned (sy_world sys) p.1 id) as (x & Hx & Hopen); [by apply (Hm p) | done |].
  unfold is_open. by rewrite Hx.
Qed.

(** The seed that a prepared runner was captured with. *)
Definition prepared_seed {C} (r : Runner C) : option string :=
  if is_prepared r then Some (from_option pr_seed "" (ru_preparedState r)) else None.

(** [RunRecorded] of the bridge on a runner whose Guests go on from [start]. *)
Definition recorded_from (r : Runner host_call) (start : string -> option start_state) (journal : option (Journal S))
    (source inputs seed : string) (s : S) : Output * option error * S :=
  Bridge.RunRecorded json_error (host_tools (ru_manifest r)) journal (guest_from start) (ru_guestManifest r) (prepared_seed r)
    source inputs seed s.

Lemma recorded_from_same (r : Runner host_call) start start' journal source inputs seed s :
  start seed = start' seed -> recorded_from r start journal source inputs seed s = recorded_from r start' journal source inputs seed s.
Proof.
  intros Hsame. unfold recorded_from, Bridge.RunRecorded, Bridge.run. destruct journal; [| done].
  unfold guest_from. by rewrite Hsame.
Qed.

Lemma recorded_run wasm w s (r : Runner host_call) source inputs seed journal :
  laws wasm -> (N.of_nat (length wasm) < 2 ^ 62)%N -> wf w -> well_made wasm w r ->
  (is_prepared r = true -> pr_seed <$> ru_preparedState r = Some seed) ->
  let '(result, (w', s')) := run os json_error r source inputs false (Some (newRecording seed)) journal false (w, s) in
  (result, s') = Bridge.run json_error (host_tools (ru_manifest r)) journal (guest_from (start_of r wasm)) (ru_guestManifest r)
                   source inputs seed false s
  \/ (exists e, result = (no_output, Some e)) /\ s' = s
     /\ (fault_between os (w_tick w) (w_tick w') \/ cold_start wasm seed = None).
Proof.
  intros Hlaws Hsmall Hwf Hmade Hseed. pose proof Hmade as [Hus _].
  pose proof (run_spec os json_error r source inputs false (Some (newRecording seed)) journal false w s Hwf
    (usable_files w r Hus) (in_table _ _ _ Hwf (us_runtime _ _ Hus))) as Hrun.
  destruct (run _ _ _ _ _ _ _ _ _ _) as [result [w' s']]. destruct Hrun as [_ Hrun]. unfold Bridge.run.
  destruct (marshalRunRequest _ _ _ _ _ _) as [request | e].
  2:{ destruct Hrun as [-> ->]. by left. }
  destruct Hrun as [(e & -> & -> & Hf) | (g & w1 & guest & Hmadeg & Hm & Hexec)].
  - right. split_and!; [by eexists | done |]. destruct (cold_start wasm seed) as [s0 |] eqn:Hcold; [left | by right].
    apply (Hf (newRecording seed) eq_refl), (recorded_can wasm); try done. congruence.
  - left. destruct (recorded_start wasm Hlaws Hsmall w r seed g w1 Hmade Hseed Hmadeg) as (guest' & Hm' & Hstart).
    assert (guest' = guest) as -> by (unfold module_at in *; congruence).
    unfold guest_from. rewrite Hstart. cbn [exec_guest].
    assert (boundedWrite "" (gu_console g).1 = ((gu_console g).1, true)) as ->.
    { unfold boundedWrite. rewrite (proj2 (N.ltb_ge _ _)); [done |]. by eapply start_bounded. }
    destruct (exec_guest _ _ _ _ _ _ _) as [[e stdout] s1]. by destruct Hexec as [-> ->].
Qed.

Lemma recorded_attempt wasm s0 sys (r : Runner host_call) source inputs seed journal :
  laws wasm -> (N.of_nat (length wasm) < 2 ^ 62)%N -> reachable s0 sys -> (r, wasm) ∈ sy_runners sys ->
  let s := sy_host sys in
  let '(result, (w', s')) := Prepared.RunRecorded os json_error r source inputs seed journal (sy_world sys, s) in
  (result, s') = recorded_from r (start_of r wasm) journal source inputs seed s
  \/ (exists e, result = (no_output, Some e)) /\ s' = s
     /\ (fault_between os (w_tick (sy_world sys)) (w_tick w') \/ cold_start wasm seed = None).
Proof.
  intros Hlaws Hsmall Hr Hin s.
  destruct (reachable_inv _ _ _ _ _ _ _ _ _ Hr) as [Hwf _ _ _ Hm]. rewrite list.Forall_forall in Hm.
  pose proof (Hm _ Hin) as Hmade. simpl in Hmade. unfold Prepared.RunRecorded, recorded_from, Bridge.RunRecorded.
  destruct journal as [j |]; simpl orb; [| by left]. rewrite bool_decide_eq_false_2 by done. simpl orb.
  case_bool_decide as Hempty; [by left |]. unfold prepared_seed.
  pose proof (recorded_run wasm (sy_world sys) s r source inputs seed (Some j) Hlaws Hsmall Hwf Hmade) as Hrun.
  destruct (is_prepared r); [| by apply Hrun]. cbn [andb negb from_option].
  destruct (ru_preparedState r) as [saved |]; cbn [from_option] in *.
  - case_bool_decide as Hsame; [subst seed; by apply Hrun | by left].
  - rewrite bool_decide_eq_false_2 by done. by left.
Qed.

(** C9.  What an attempt on a prepared runner is.  Whatever happened before, a
    recorded attempt on a runner - plain, or prepared with a full copy or a
    copy-on-write image, whose artifact may have been replaced by a shell and a
    data image - gives the output, the error and the changes of the host of a
    Guest of the artifact that goes on from [start_of]: for a plain runner a start
    from scratch under that seed; for a prepared one the memory, the random stream
    and the clocks of that start from scratch, with the globals and the console of
    an instance of which only [_initialize] was called.  So if [init] changes no
    globals and prints nothing in that start, or the runner is plain, the attempt
    is exactly the one that starts from scratch.  Otherwise no Guest ran, the host
    is untouched, and either a call of the operating system or of wazero failed
    meanwhile or the artifact does not start from scratch either. *)
Theorem prepared_attempts_resume_the_start (wasm : buffer) (s0 : S) (sys : system) (r : Runner host_call) :
  laws wasm -> (N.of_nat (length wasm) < 2 ^ 62)%N -> reachable s0 sys -> (r, wasm) ∈ sy_runners sys ->
  forall source inputs seed journal,
    let s := sy_host sys in
    let '(result, (w', s')) := Prepared.RunRecorded os json_error r source inputs seed journal (sy_world sys, s) in
    ((result, s') = recorded_from r (start_of r wasm) journal source inputs seed s
     /\ (is_prepared r = false \/ init_is_confined wasm seed ->
         (result, s') = recorded_from r (cold_start wasm) journal source inputs seed s))
    \/ (exists e, result = (no_output, Some e)) /\ s' = s
       /\ (fault_between os (w_tick (sy_world sys)) (w_tick w') \/ cold_start wasm seed = None).
Proof.
  intros Hlaws Hsmall Hr Hin source inputs seed journal s.
  pose proof (recorded_attempt wasm s0 sys r source inputs seed journal Hlaws Hsmall Hr Hin) as Hrun. cbv zeta in Hrun. fold s in Hrun.
  destruct (Prepared.RunRecorded _ _ _ _ _ _ _ _) as [result [w' s']]. destruct Hrun as [-> | Hrun]; [left | by right].
  split; [done |]. intros Hc. apply recorded_from_same. unfold start_of. destruct (is_prepared r); [| done].
  apply confined_start. by destruct Hc.
Qed.

(** ** Images over time *)

(** C11.  Every Guest of a prepared runner starts alike.  However many attempts, other
    runners and failures come in between, as long as a prepared runner is not
    closed a new Guest of it has a module and a mapping of its own, the memory is
    byte for byte the same image, and a recorded Guest of a recorded image goes on
    from the same random stream and clocks. *)
Theorem prepared_guests_start_alike (s : S) (sys : system) (r : Runner host_call) (wasm : buffer) :
  reachable s sys -> (r, wasm) ∈ sy_runners sys -> is_prepared r = true ->
  exists image, forall sys' recorded mounted g w',
    rtc step sys sys' -> (r, wasm) ∈ sy_runners sys' ->
    newGuest os r recorded mounted (sy_world sys') = (Ok g, w') ->
    (forall id, handle_of (gu_module g) id -> w_table (sy_world sys') !! id = None)
    /\ exists guest, instance_of (gm_module (gu_module g)) w' = (Ok guest, w') /\ in_memory guest = image
         /\ forall rec saved, recorded = Some rec -> ru_preparedState r = Some saved ->
              exists random, gu_inputs g = Recorded (mkRecording (rec_seed rec) random (pr_wall saved) (pr_mono saved))
                /\ exists before, UnmarshalBinary before (pr_random saved) = Ok random.
Proof.
  intros Hr Hin Hprep. pose proof (reachable_inv _ _ _ _ _ _ _ _ _ Hr) as Hinv.
  pose proof (inv_made _ Hinv) as Hm. rewrite list.Forall_forall in Hm. destruct (Hm _ Hin) as [Hus (tr & _ & _ & _ & _ & Hprimed)].
  simpl in *. rewrite Hprep in Hprimed. destruct Hprimed as (_ & _ & _ & _ & _ & _ & image & _ & _ & _ & _ & Himage & _).
  exists image. intros sys' recorded mounted g w' Hrun Hin' Hnew.
  pose proof (in_table _ _ _ (inv_wf _ Hinv) (us_runtime _ _ Hus)) as Hlt.
  destruct (history_keeps _ _ _ _ _ _ _ sys sys' r wasm Hinv Hrun Hlt) as (Hinv' & Hle & Hkeep).
  destruct (usable_kept _ _ r (Hkeep Hin') Hus) as (Hus' & _ & Hsame). rewrite Himage in Hsame.
  pose proof (newGuest_spec os r recorded mounted (sy_world sys') (inv_wf _ Hinv') (usable_files _ _ Hus') ltac:(lia)) as Hspec.
  rewrite Hnew in Hspec. destruct Hspec as [_ (guest & max & i & mem & gl & Hmod & _ & _ & _ & Hlows & _ & _ & Hi & Hpure)].
  split; [intros id Hid; apply (wf_fresh _ (inv_wf _ Hinv')); by apply Hlows |].
  exists guest. split; [by apply instance_of_at |]. rewrite Hsame in Hpure. by eapply pure_start_image.
Qed.
End Theorems.

(** ** A concrete runtime *)

(** Streams that remember what was drawn. *)
#[local] Instance demo_stream : RandomStream := {|
  ChaCha8 := buffer;
  NewChaCha8 _ := [];
  MarshalBinary x := Ok x;
  UnmarshalBinary _ data := Ok data
|}.

(** A start function draws from the stream, asks for the time and stores in the
    first byte how much was drawn. *)
Definition demo_draw (i : inputs) : option (buffer * Z * Z) :=
  match i with
  | Recorded rec => Some ("r"%char :: rec_random rec, (rec_wall rec + 1000000)%Z, (rec_mono rec + 1000000)%Z)
  | System _ => None
  end.

Definition demo_drawn (i : inputs) : N :=
  match i with Recorded rec => N.of_nat (length (rec_random rec : buffer)) | System moment => N.of_nat moment end.

Definition demo_poke (i : inputs) (mem : buffer) : buffer :=
  match mem with _ :: rest => ascii_of_N (65 + demo_drawn i) :: rest | [] => [] end.

(** [execute] prints and returns the first byte, the bytes of the data segments
    and how much was drawn. *)
Definition demo_execute (i : inputs) (mem : buffer) : guest :=
  GWrite "hello" (fun _ =>
    GReturn (mkResponse (foldr String EmptyString (take 1 mem ++ take 2 (drop 8 mem)) +:+ format_uint (demo_drawn i)) "" "")).

Definition demo_compile (bytes : buffer) : res error compiled :=
  if bool_decide (bytes = demo_wasm) || bool_decide (bytes = im_shell demo_image)
  then Ok (mkCompiled bytes required_exports (Some (Some 1%N))) else Err (EMsg "invalid module").

Definition demo_instantiate (code : compiled) : res error (buffer * unit) :=
  if negb (bool_decide (cm_memory code = Some (Some 1%N))) then Err (EMsg "invalid module")
  else if bool_decide (cm_wasm code = demo_wasm) then Ok (seed_file demo_image, tt)
  else if bool_decide (cm_wasm code = im_shell demo_image) then Ok (zero_file 65536, tt)
  else Err (EMsg "invalid module").

#[local] Instance demo_wazero : Wasm := {|
  globals := unit;
  CompileModule := demo_compile;
  InstantiateModule := demo_instantiate;
  memory_limit _ := 1%N;
  call_start name mounted i mem g c :=
    mkStarted (Ok 0%N) (demo_draw i) (demo_poke i mem) tt (if String.eqb name "_initialize" then ["py "] else []) [];
  call_execute mounted i mem g c request := demo_execute i mem
|}.

(** The sections of the module and of its shell, whose active segments are
    empty. *)
Definition demo_segments (a b : buffer) : list segment :=
  [mkSegment (map ascii_of_N [0; 65; 8; 11]%N) (Some 8%N) a;
   mkSegment (map ascii_of_N [1]%N) None (map ascii_of_N [112]%N);
   mkSegment (map ascii_of_N [0; 65; 9; 11]%N) (Some 9%N) b].

Definition demo_payload (a b : buffer) : buffer :=
  map ascii_of_N [3; 0; 65; 8; 11; N.of_nat (length a)]%N ++ a ++ map ascii_of_N [1; 1; 112; 0; 65; 9; 11; N.of_nat (length b)]%N ++ b.

Definition demo_sections (payload : buffer) : list (N * buffer) :=
  [(5, map ascii_of_N [1; 1; 1; 1]); (10, map ascii_of_N [1; 15; 0; 65; 0; 65; 0; 65; 1; 252; 8; 1; 0; 252; 9; 1; 11]);
   (11, payload)]%N.

Definition demo_a : buffer := map ascii_of_N [104; 105]%N.
Definition demo_b : buffer := map ascii_of_N [33]%N.

Lemma one_byte_uleb v : (v < 128)%N -> uleb32 [ascii_of_N v] v.
Proof.
  intros Hv. assert (N_of_ascii (ascii_of_N v) = v) as Hb by (apply N_ascii_embedding; lia).
  split_and!; [| simpl; lia | lia]. rewrite <- Hb at 2. constructor. by rewrite Hb.
Qed.

Lemma one_byte_sleb v : (v < 64)%N -> sleb32 [ascii_of_N v] (Z.of_N v).
Proof.
  intros Hv. assert (N_of_ascii (ascii_of_N v) = v) as Hb by (apply N_ascii_embedding; lia).
  split_and!; [| simpl; lia | lia | lia]. pose proof (sleb_last (ascii_of_N v)) as Hs. rewrite Hb in Hs.
  rewrite (proj2 (N.ltb_lt _ _) Hv) in Hs. apply Hs. lia.
Qed.

Lemma demo_module payload :
  (length payload < 128)%nat ->
  module_bytes (demo_sections payload)
    (wasm_header ++ map ascii_of_N ([5; 4; 1; 1; 1; 1] ++ [10; 17; 1; 15; 0; 65; 0; 65; 0; 65; 1; 252; 8; 1; 0; 252; 9; 1; 11] ++ [11])%N
     ++ [ascii_of_N (N.of_nat (length payload))] ++ payload).
Proof.
  intros Hlen. eexists [_; _; _]. split.
  - repeat constructor; eexists; (split_and!; [done | apply one_byte_uleb | reflexivity]); simpl; lia.
  - simpl. by rewrite app_nil_r.
Qed.

Lemma demo_segment_bytes offset data :
  (offset < 64)%N -> (length data < 128)%nat ->
  entry_bytes (mkSegment [ascii_of_N 0; ascii_of_N 65; ascii_of_N offset; ascii_of_N 11] (Some offset) data)
    ([ascii_of_N 0; ascii_of_N 65; ascii_of_N offset; ascii_of_N 11] ++ [ascii_of_N (N.of_nat (length data))] ++ data).
Proof.
  intros Ho Hd. split; simpl.
  - apply (head_active [ascii_of_N 0] [ascii_of_N 65; ascii_of_N offset; ascii_of_N 11] offset); [by apply one_byte_uleb |].
    exists [ascii_of_N offset], (Z.of_N offset). split_and!; [done | by apply one_byte_sleb | lia | lia].
  - eexists. split; [apply one_byte_uleb; lia | done].
Qed.

Lemma demo_passive_bytes data :
  (length data < 128)%nat ->
  entry_bytes (mkSegment [ascii_of_N 1] None data) ([ascii_of_N 1] ++ [ascii_of_N (N.of_nat (length data))] ++ data).
Proof.
  intros Hd. split; simpl; [by apply (head_passive [ascii_of_N 1]), one_byte_uleb |]. eexists. split; [apply one_byte_uleb; lia | done].
Qed.

Lemma demo_data a b :
  (length a < 128)%nat -> (length b < 128)%nat -> data_section (demo_segments a b) (demo_payload a b).
Proof.
  intros Ha Hb. eexists [ascii_of_N 3], [_; _; _]. split_and!; [by apply one_byte_uleb | |].
  - apply Forall2_cons; [by apply (demo_segment_bytes 8) |]. apply Forall2_cons; [apply demo_passive_bytes; simpl; lia |].
    apply Forall2_cons; [by apply (demo_segment_bytes 9) | constructor].
  - unfold demo_payload. simpl. rewrite app_nil_r, <- ?app_assoc. reflexivity.
Qed.

(** Both modules, and no others, have these sections. *)
Lemma demo_wasm_sections secs : module_bytes secs demo_wasm -> secs = demo_sections (demo_payload demo_a demo_b).
Proof. intros H. eapply module_bytes_unique; [exact H | by apply (demo_module (demo_payload demo_a demo_b)); simpl; lia]. Qed.

Lemma demo_shell_sections secs : module_bytes secs (im_shell demo_image) -> secs = demo_sections (demo_payload [] []).
Proof. intros H. eapply module_bytes_unique; [exact H | by apply (demo_module (demo_payload [] [])); simpl; lia]. Qed.

Lemma demo_split pre payload post payload' :
  pre ++ (wasmDataSection, payload) :: post = demo_sections payload' -> pre = take 2 (demo_sections []) /\ payload = payload' /\ post = [].
Proof.
  unfold demo_sections. intros Heq.
  destruct pre as [| [i1 d1] [| [i2 d2] [| p pre]]]; simpl in Heq; try (by discriminate Heq).
  - by injection Heq as -> -> -> -> -> ->.
  - injection Heq as _ _ _ _ _ Heq. by destruct pre.
Qed.

Lemma demo_compiled bytes code :
  demo_compile bytes = Ok code ->
  cm_wasm code = bytes /\ cm_memory code = Some (Some 1%N) /\ (bytes = demo_wasm \/ bytes = im_shell demo_image).
Proof. unfold demo_compile. repeat case_bool_decide; simpl; try done; intros [= <-]; auto. Qed.

Lemma demo_memory_length : length (seed_file demo_image) = N.to_nat 65536.
Proof.
  unfold seed_file. rewrite (written_length _ 65536); [unfold zero_file; apply length_replicate | |].
  - unfold zero_file. rewrite length_replicate. simpl im_memorySize. apply N2Nat.id.
  - repeat constructor; by vm_compute.
Qed.

Lemma demo_pages payload : pages_of (memory_limits (demo_sections payload)) = 1%N.
Proof. reflexivity. Qed.

Lemma demo_instantiates :
  let zeros := zero_file (1 * wasmPageSizeBytes) in
  instantiate (demo_segments demo_a demo_b) zeros = Some (seed_file demo_image)
  /\ instantiate (demo_segments [] []) zeros = Some zeros.
Proof.
  intros zeros. assert (N.of_nat (length zeros) = 1 * wasmPageSizeBytes)%N as Hlen.
  { unfold zeros, zero_file. rewrite length_replicate. apply N2Nat.id. }
  assert (Forall (DataImageSpec.in_memory 1) (demo_segments demo_a demo_b)) as Hin by (repeat constructor; by vm_compute).
  split.
  - by destruct (written_instantiates (demo_segments demo_a demo_b) 0 zeros 1 Hlen Hin) as [-> _].
  - by apply (instantiate_stripped (demo_segments demo_a demo_b) zeros 1).
Qed.

Lemma demo_within mem g : length mem = N.to_nat 65536 -> within mem g.
Proof. intros Hlen. unfold within. rewrite Hlen, N2Nat.id. by split. Qed.

Lemma demo_whole : demo_wasm <> im_shell demo_image.
Proof. assert (bool_decide (demo_wasm = im_shell demo_image) = false) as H by (vm_compute; reflexivity). by apply bool_decide_eq_false in H. Qed.

Lemma demo_instantiated code mem g :
  demo_instantiate code = Ok (mem, g) ->
  length mem = N.to_nat 65536 /\ cm_memory code = Some (Some 1%N)
  /\ (cm_wasm code = demo_wasm -> mem = seed_file demo_image)
  /\ (cm_wasm code = im_shell demo_image -> mem = zero_file 65536).
Proof.
  pose proof demo_whole as Hne. unfold demo_instantiate. intros Hok.
  case_bool_decide as H0; [| done]. simpl in Hok.
  case_bool_decide as H1; [injection Hok as <- | case_bool_decide as H2; [injection Hok as <- | done]].
  - split_and!; [apply demo_memory_length | done | done | congruence].
  - split_and!; [unfold zero_file; apply length_replicate | done | congruence | done].
Qed.

Lemma demo_law_data pre post payload payload' segs segs' bytes code' mem mem' (g : unit) :
  let secs data := pre ++ (wasmDataSection, data) :: post in
  let zeros := zero_file (pages_of (memory_limits (secs payload)) * wasmPageSizeBytes) in
  module_bytes (secs payload) demo_wasm -> data_section segs payload ->
  module_bytes (secs payload') bytes -> data_section segs' payload' ->
  instantiate segs zeros = Some mem -> demo_compile bytes = Ok code' -> demo_instantiate code' = Ok (mem', g) ->
  instantiate segs' zeros = Some mem'
  /\ exists code, demo_compile demo_wasm = Ok code /\ demo_instantiate code = Ok (mem, g).
Proof.
  intros secs zeros Hm Hd Hm' Hd' Hi (Hw & _ & Hb)%demo_compiled (_ & _ & Hwhole & Hshell)%demo_instantiated.
  apply demo_wasm_sections in Hm. destruct demo_instantiates as [Hi1 Hi2].
  assert (zeros = zero_file (1 * wasmPageSizeBytes)) as Hz by (unfold zeros; by rewrite Hm).
  unfold secs in *. apply demo_split in Hm as (-> & -> & ->).
  assert (segs = demo_segments demo_a demo_b) as -> by (eapply data_section_unique; [exact Hd | by apply demo_data; simpl; lia]).
  rewrite Hz in *. assert (mem = seed_file demo_image) as -> by congruence. split.
  - destruct Hb as [-> | ->].
    + apply demo_wasm_sections, demo_split in Hm' as (_ & -> & _). rewrite (Hwhole Hw).
      by rewrite (data_section_unique _ _ _ Hd' (demo_data demo_a demo_b ltac:(simpl; lia) ltac:(simpl; lia))).
    + apply demo_shell_sections, demo_split in Hm' as (_ & -> & _). rewrite (Hshell Hw).
      by rewrite (data_section_unique _ _ _ Hd' (demo_data [] [] ltac:(simpl; lia) ltac:(simpl; lia))).
  - exists (mkCompiled demo_wasm required_exports (Some (Some 1%N))). destruct g. split; [by vm_compute |].
    unfold demo_instantiate. cbn [cm_wasm cm_memory].
    rewrite (bool_decide_eq_true_2 (Some (Some 1%N) = Some (Some 1%N))) by reflexivity.
    by rewrite (bool_decide_eq_true_2 (demo_wasm = demo_wasm)) by reflexivity.
Qed.

Lemma demo_law_valid bytes secs code :
  demo_compile bytes = Ok code -> module_bytes secs bytes -> (length (of_id wasmMemorySection secs) <= 1)%nat.
Proof.
  intros (_ & _ & [-> | ->])%demo_compiled.
  - by intros ->%demo_wasm_sections.
  - by intros ->%demo_shell_sections.
Qed.

Lemma demo_laws : laws demo_wasm.
Proof.
  split.
  - intros x y data [= ->]. done.
  - intros code mem g (Hlen & _)%demo_instantiated. split; [by apply demo_within | done].
  - intros name mounted i mem g c status s _ [Hm Hle]. simpl. destruct mem as [| x mem]; by split_and!.
  - intros code mem g declared (_ & Hmem & _)%demo_instantiated Hd. simpl. rewrite Hmem in Hd. by injection Hd as <-.
  - exact demo_law_valid.
  - intros. by eapply demo_law_data.
Qed.

(** An operating system that takes every write, and one a call of which fails. *)
Definition demo_pwrite (moment : nat) (data : buffer) (offset : Z) : res error N := Ok (N.of_nat (length data)).

Definition demo_calm (moment : nat) : option error := None.

Definition demo_faulty (moment : nat) : option error := if (moment =? 12)%nat then Some (EMsg "EIO") else None.

Notation demo_call := (option string -> string -> unit -> tool_result * unit).

Definition demo_iterate (m : Manifest demo_call) : list (string * ToolSpec demo_call) := map_to_list m.
Definition demo_json_error (text : string) : error := EMsg text.
Definition demo_begin (lease : unit) (s : unit) : res error unit * unit := (Ok tt, s).
Definition demo_end (lease : unit) (s : unit) : unit := s.
Definition demo_journal : Journal unit := mkJournal (fun _ _ _ => ret "").

(** A runner prepared for one seed with a data image. *)
Definition demo_construct (os : nat -> option error) (w : world) : res error (Runner demo_call) * world :=
  construct os demo_pwrite 4096 demo_iterate (CPreparedRecordedCOW "seed" [true]) demo_wasm ∅ w.

Definition demo_world : world := mkWorld 0 0 ∅ false.

Definition demo_step (os : nat -> option error) : system -> system -> Prop :=
  step os demo_pwrite 4096 demo_json_error demo_begin demo_end demo_iterate.

(** What a Guest of a runner that was just made starts with. *)
Definition demo_guest (r : Runner demo_call) (w : world) : option string :=
  match newGuest demo_calm r (Some (newRecording "seed")) false w with
  | (Ok g, w) =>
      match instance_of (gm_module (gu_module g)) w with
      | (Ok guest, _) => Some (foldr String EmptyString (take 1 (in_memory guest) ++ take 2 (drop 8 (in_memory guest))))
      | _ => None
      end
  | _ => None
  end.

Definition demo_run (r : Runner demo_call) (w : world) : Output * option error :=
  (Prepared.RunRecorded demo_calm demo_json_error r "x" "1" "seed" (Some demo_journal) (w, tt)).1.

Lemma demo_runner_reachable os r w : demo_construct os demo_world = (Ok r, w) ->
  rtc (demo_step os) (start tt) (mkSystem w tt [(r, demo_wasm)]).
Proof. intros H. eapply rtc_once, step_make. exact H. Qed.

Lemma wasm_handles_are_owned_witness :
  exists e r w1 w2,
    demo_construct demo_faulty demo_world = (Err e, w1) /\ demo_construct demo_faulty w1 = (Ok r, w2)
    /\ forall id, is_open w2 id = true <-> id ∈ handles [(r, demo_wasm)].
Proof.
  destruct (demo_construct demo_faulty demo_world) as [[r | e] w1] eqn:H1.
  { assert (match demo_construct demo_faulty demo_world with (Ok _, _) => true | _ => false end = false) as H
      by (vm_compute; reflexivity). rewrite H1 in H. discriminate H. }
  destruct (demo_construct demo_faulty w1) as [[r | e2] w2] eqn:H2.
  2:{ assert (match demo_construct demo_faulty (demo_construct demo_faulty demo_world).2 with (Ok _, _) => true | _ => false end = true)
        as H by (vm_compute; reflexivity). rewrite H1 in H. cbn [snd] in H. rewrite H2 in H. discriminate H. }
  exists e, r, w1, w2. split; [reflexivity |]. split; [exact H2 |].
  assert (rtc (demo_step demo_faulty) (start tt) (mkSystem w2 tt [(r, demo_wasm)])) as Hr.
  { eapply rtc_l; [eapply step_refuse; exact H1 |]. eapply rtc_l; [eapply step_make; exact H2 | apply rtc_refl]. }
  destruct (wasm_handles_are_owned demo_faulty demo_pwrite 4096 demo_json_error demo_begin demo_end demo_iterate tt _ Hr)
    as [Hopen _]. exact Hopen.
Defined.

Lemma demo_confined seed : init_is_confined demo_wasm seed.
Proof.
  unfold init_is_confined, cold_start. intros i c mem g i' c' mem' g' ->. cbn [mbind option_bind]. unfold init_python. simpl.
  intros [= _ <- _ _]. destruct g, g', c. done.
Qed.

Lemma prepared_attempts_resume_the_start_witness :
  exists r w, demo_construct demo_calm demo_world = (Ok r, w) /\ is_prepared r = true
    /\ demo_run r w = (mkOutput "Bh!2" "py hello" "", None)
    /\ recorded_from demo_json_error r (start_of r demo_wasm) (Some demo_journal) "x" "1" "seed" tt = (demo_run r w, tt)
    /\ recorded_from demo_json_error r (cold_start demo_wasm) (Some demo_journal) "x" "1" "seed" tt = (demo_run r w, tt).
Proof.
  destruct (demo_construct demo_calm demo_world) as [[r | e] w] eqn:H1.
  2:{ assert (match demo_construct demo_calm demo_world with (Ok _, _) => true | _ => false end = true) as H
        by (vm_compute; reflexivity). rewrite H1 in H. discriminate H. }
  exists r, w. split; [reflexivity |].
  assert (match demo_construct demo_calm demo_world with (Ok r, w) => (is_prepared r, demo_run r w) | _ => (false, (no_output, None)) end
    = (true, (mkOutput "Bh!2" "py hello" "", None))) as H by (vm_compute; reflexivity).
  rewrite H1 in H. injection H as Hp Hrun. split; [exact Hp |]. split; [exact Hrun |].
  assert ((N.of_nat (length demo_wasm) < 2 ^ 62)%N) as Hlen by (vm_compute; reflexivity).
  assert ((r, demo_wasm) ∈ [(r, demo_wasm)]) as Hin by (left).
  pose proof (prepared_attempts_resume_the_start demo_calm demo_pwrite 4096 demo_json_error demo_begin demo_end demo_iterate
    demo_wasm tt _ r demo_laws Hlen (demo_runner_reachable _ _ _ H1) Hin "x" "1" "seed" (Some demo_journal)) as Ht.
  unfold demo_run in *. cbn [sy_world sy_host] in Ht. cbv zeta in Ht.
  destruct (Prepared.RunRecorded demo_calm demo_json_error r "x" "1" "seed" (Some demo_journal) (w, tt)) as [out [w' []]].
  cbn [fst] in *. destruct Ht as [[Ht1 Ht2] | ((e & He) & _)]; [| rewrite Hrun in He; discriminate He].
  split; [symmetry; exact Ht1 | symmetry; apply Ht2; right; apply demo_confined].
Defined.

Lemma prepared_guests_start_alike_witness :
  exists r w g w' guest,
    demo_construct demo_calm demo_world = (Ok r, w)
    /\ newGuest demo_calm r (Some (newRecording "seed")) false w = (Ok g, w')
    /\ instance_of (gm_module (gu_module g)) w' = (Ok guest, w')
    /\ foldr String EmptyString (take 1 (in_memory guest) ++ take 2 (drop 8 (in_memory guest))) = "Bh!"
    /\ w_table w !! gm_module (gu_module g) = None.
Proof.
  destruct (demo_construct demo_calm demo_world) as [[r | e] w] eqn:H1.
  2:{ assert (match demo_construct demo_calm demo_world with (Ok _, _) => true | _ => false end = true) as H
        by (vm_compute; reflexivity). rewrite H1 in H. discriminate H. }
  assert (match demo_construct demo_calm demo_world with (Ok r, w) => (is_prepared r, demo_guest r w) | _ => (false, None) end
    = (true, Some "Bh!")) as H by (vm_compute; reflexivity).
  rewrite H1 in H. injection H as Hp Hg. unfold demo_guest in Hg.
  destruct (newGuest demo_calm r (Some (newRecording "seed")) false w) as [[g | e] w'] eqn:H2; [| discriminate Hg].
  assert ((r, demo_wasm) ∈ [(r, demo_wasm)]) as Hin by (left).
  destruct (prepared_guests_start_alike demo_calm demo_pwrite 4096 demo_json_error demo_begin demo_end demo_iterate
    tt _ r demo_wasm (demo_runner_reachable _ _ _ H1) Hin Hp) as [image Himage].
  destruct (Himage (mkSystem w tt [(r, demo_wasm)]) (Some (newRecording "seed")) false g w' (rtc_refl _ _) Hin H2)
    as (Hfresh & guest & H3 & _). rewrite H3 in Hg. injection Hg as Hg.
  exists r, w, g, w', guest. split; [reflexivity |]. split; [exact H2 |]. split; [exact H3 |]. split; [exact Hg |].
  apply Hfresh. left. reflexivity.
Defined.
