(* ===== verification/Sim.v ===== *)
(** * Sim: the scheduling simulator ([scheduling/sim.go])

    A discrete-event simulation of admission policies.  Tasks are heap objects
    in the code; here queues and events hold their index in [states].  The event
    heap is the list of its elements and [heap.Pop] takes the least, which is
    one: sequence numbers are distinct below 2^64 events.  Times are [int64]
    and wrap; the counts of tasks are [int] and stay below the number of tasks. *)

From stdpp Require Import sorting.
From S2P Require Import Prelude Errors Json Float64.

(** ** Data *)

(** [PhaseKind] and [Policy] are strings. *)
Definition CPU : string := "cpu".
Definition PhaseExternalIO : string := "external_io".
Definition DurableWait : string := "durable_wait".

Record Phase := mkPhase { ph_Kind : string; ph_Duration : Z }.

Record Task := mkTask {
  tk_ID : string;
  tk_Arrival : Z;
  tk_Priority : Z;
  tk_ResidentBytes : Z;
  tk_Phases : list Phase
}.

Definition FIFO : string := "fifo".
Definition ReadyFirst : string := "ready_first".
Definition FinishSoon : string := "finish_soon".

Record Config := mkConfig {
  MaxRunning : Z;
  MaxResident : Z;
  MaxInflightTools : Z;
  MaxQueued : Z;
  LiveIO : bool;
  Policy : string
}.

Record TaskResult := mkTaskResult { tr_CompletedAt : Z; tr_Latency : Z; tr_Rejected : bool }.

Record SimResult := mkSimResult {
  r_Completed : Z;
  r_Rejected : Z;
  r_Makespan : Z;
  r_MeanLatency : Z;
  r_P95Latency : Z;
  r_PeakRunning : Z;
  r_PeakResident : Z;
  r_PeakInflightTools : Z;
  r_RunningSlotTime : Z;
  r_ToolSlotTime : Z;
  r_ResidentMiBSeconds : float64;
  r_Tasks : gmap string TaskResult
}.

Inductive eventKind := eventArrival | eventCPUDone | eventIODone | eventWaitDone.

#[export] Instance eventKind_eq_dec : EqDecision eventKind.
Proof. solve_decision. Defined.

Record event := mkEvent { ev_at : Z; ev_seq : N; ev_kind : eventKind; ev_task : nat; ev_phase : nat }.

Record taskState := mkTaskState {
  ts_task : Task;
  ts_phase : nat;
  ts_admitted : bool;
  ts_continuation : bool;
  ts_readySeq : N;
  ts_holdsRunning : bool;
  ts_inToolQueue : bool;
  ts_completed : bool;
  ts_rejected : bool
}.

Record simulator := mkSim {
  sm_config : Config;
  sm_now : Z;
  sm_seq : N;
  sm_events : list event;
  sm_states : list taskState;
  sm_ready : list nat;
  sm_admission : list nat;
  sm_toolQueue : list nat;
  sm_running : Z;
  sm_resident : Z;
  sm_tools : Z;
  sm_residentBytes : Z;
  sm_result : SimResult
}.

(** ** Assignments *)

Definition set_now (now : Z) (s : simulator) : simulator :=
  mkSim (sm_config s) now (sm_seq s) (sm_events s) (sm_states s) (sm_ready s) (sm_admission s) (sm_toolQueue s)
    (sm_running s) (sm_resident s) (sm_tools s) (sm_residentBytes s) (sm_result s).
Definition set_events (seq : N) (events : list event) (s : simulator) : simulator :=
  mkSim (sm_config s) (sm_now s) seq events (sm_states s) (sm_ready s) (sm_admission s) (sm_toolQueue s)
    (sm_running s) (sm_resident s) (sm_tools s) (sm_residentBytes s) (sm_result s).
Definition set_states (states : list taskState) (s : simulator) : simulator :=
  mkSim (sm_config s) (sm_now s) (sm_seq s) (sm_events s) states (sm_ready s) (sm_admission s) (sm_toolQueue s)
    (sm_running s) (sm_resident s) (sm_tools s) (sm_residentBytes s) (sm_result s).
Definition set_queues (ready admission toolQueue : list nat) (s : simulator) : simulator :=
  mkSim (sm_config s) (sm_now s) (sm_seq s) (sm_events s) (sm_states s) ready admission toolQueue
    (sm_running s) (sm_resident s) (sm_tools s) (sm_residentBytes s) (sm_result s).
Definition set_counters (running resident tools : Z) (s : simulator) : simulator :=
  mkSim (sm_config s) (sm_now s) (sm_seq s) (sm_events s) (sm_states s) (sm_ready s) (sm_admission s)
    (sm_toolQueue s) running resident tools (sm_residentBytes s) (sm_result s).
Definition set_result (r : SimResult) (s : simulator) : simulator :=
  mkSim (sm_config s) (sm_now s) (sm_seq s) (sm_events s) (sm_states s) (sm_ready s) (sm_admission s)
    (sm_toolQueue s) (sm_running s) (sm_resident s) (sm_tools s) (sm_residentBytes s) r.
Definition set_bytes (bytes : Z) (s : simulator) : simulator :=
  mkSim (sm_config s) (sm_now s) (sm_seq s) (sm_events s) (sm_states s) (sm_ready s) (sm_admission s)
    (sm_toolQueue s) (sm_running s) (sm_resident s) (sm_tools s) bytes (sm_result s).

Definition with_phase (phase : nat) (t : taskState) : taskState :=
  mkTaskState (ts_task t) phase (ts_admitted t) (ts_continuation t) (ts_readySeq t) (ts_holdsRunning t)
    (ts_inToolQueue t) (ts_completed t) (ts_rejected t).
Definition with_admitted (admitted : bool) (t : taskState) : taskState :=
  mkTaskState (ts_task t) (ts_phase t) admitted (ts_continuation t) (ts_readySeq t) (ts_holdsRunning t)
    (ts_inToolQueue t) (ts_completed t) (ts_rejected t).
Definition with_continuation (continuation : bool) (t : taskState) : taskState :=
  mkTaskState (ts_task t) (ts_phase t) (ts_admitted t) continuation (ts_readySeq t) (ts_holdsRunning t)
    (ts_inToolQueue t) (ts_completed t) (ts_rejected t).
Definition with_readySeq (seq : N) (t : taskState) : taskState :=
  mkTaskState (ts_task t) (ts_phase t) (ts_admitted t) (ts_continuation t) seq (ts_holdsRunning t)
    (ts_inToolQueue t) (ts_completed t) (ts_rejected t).
Definition with_slots (holdsRunning inToolQueue : bool) (t : taskState) : taskState :=
  mkTaskState (ts_task t) (ts_phase t) (ts_admitted t) (ts_continuation t) (ts_readySeq t) holdsRunning
    inToolQueue (ts_completed t) (ts_rejected t).
Definition with_end (completed rejected : bool) (t : taskState) : taskState :=
  mkTaskState (ts_task t) (ts_phase t) (ts_admitted t) (ts_continuation t) (ts_readySeq t) (ts_holdsRunning t)
    (ts_inToolQueue t) completed rejected.

(** A change to the task at [i]. *)
Definition on_task (i : nat) (f : taskState -> taskState) (s : simulator) : simulator :=
  set_states (alter f i (sm_states s)) s.

(** The phase at an index, and the phase the task is at. *)
Definition phase_at (t : taskState) (phase : nat) : option Phase := tk_Phases (ts_task t) !! phase.
Definition current (t : taskState) : option Phase := phase_at t (ts_phase t).

Definition is_kind (kind : string) (p : option Phase) : bool :=
  match p with Some p => bool_decide (ph_Kind p = kind) | None => false end.

Definition duration_of (p : option Phase) : Z := match p with Some p => ph_Duration p | None => 0 end.

(** ** Validation *)

Fixpoint validate_phases (id : string) (index : nat) (phases : list Phase) : res string unit :=
  match phases with
  | [] => Ok tt
  | phase :: rest =>
      let text := "task " +:+ quote id +:+ " phase " +:+ format_uint (N.of_nat index) in
      let* _ := guard (0 <? ph_Duration phase)%Z (text +:+ " has non-positive duration") in
      let* _ := guard (bool_decide (ph_Kind phase = CPU) || bool_decide (ph_Kind phase = PhaseExternalIO)
                       || bool_decide (ph_Kind phase = DurableWait))
                  (text +:+ " has unknown kind " +:+ quote (ph_Kind phase)) in
      let* _ := guard (match rest with
                       | next :: _ =>
                           negb (bool_decide (ph_Kind phase = DurableWait) && negb (bool_decide (ph_Kind next = CPU)))
                       | [] => true
                       end)
                  ("task " +:+ quote id +:+ " must re-enter through CPU after durable wait") in
      validate_phases id (S index) rest
  end.

Fixpoint validate_tasks (seen : gset string) (tasks : list Task) : res string unit :=
  match tasks with
  | [] => Ok tt
  | task :: rest =>
      let id := tk_ID task in
      let* _ := guard (negb (bool_decide (id = "")) && (0 <=? tk_Arrival task)%Z && (0 <=? tk_ResidentBytes task)%Z
                       && is_kind CPU (head (tk_Phases task)))
                  ("invalid task " +:+ quote id) in
      let* _ := guard (negb (bool_decide (id ∈ seen))) ("duplicate task " +:+ quote id) in
      let* _ := validate_phases id 0 (tk_Phases task) in
      validate_tasks ({[id]} ∪ seen) rest
  end.

Definition validateSimulation (tasks : list Task) (config : Config) : res string unit :=
  let* _ := guard (negb (length tasks =? 0)%nat && (1 <=? MaxRunning config)%Z
                   && (MaxRunning config <=? MaxResident config)%Z && (1 <=? MaxInflightTools config)%Z
                   && (0 <=? MaxQueued config)%Z)
              "invalid scheduling simulation bounds" in
  let* _ := guard (bool_decide (Policy config = FIFO) || bool_decide (Policy config = ReadyFirst)
                   || bool_decide (Policy config = FinishSoon))
              ("unknown scheduling policy " +:+ quote (Policy config)) in
  validate_tasks ∅ tasks.

(** ** Events *)

Definition nextSeq (s : simulator) : N := u64 (sm_seq s + 1).

Definition pushEvent (at_ : Z) (kind : eventKind) (i : nat) (s : simulator) : simulator :=
  match sm_states s !! i with
  | None => s
  | Some t =>
      let seq := nextSeq s in
      set_events seq (sm_events s ++ [mkEvent at_ seq kind i (ts_phase t)]) s
  end.

(** [eventHeap.Less]. *)
Definition event_less (l r : event) : bool :=
  if negb (ev_at l =? ev_at r)%Z then (ev_at l <? ev_at r)%Z else (ev_seq l <? ev_seq r)%N.

(** The least element and the others: [heap.Pop]. *)
Fixpoint pop_event (events : list event) : option (event * list event) :=
  match events with
  | [] => None
  | e :: rest =>
      match pop_event rest with
      | None => Some (e, [])
      | Some (least, others) => if event_less least e then Some (least, e :: others) else Some (e, rest)
      end
  end.

(** The loop that pops the events of one time; [fuel] is their number. *)
Fixpoint pop_batch (fuel : nat) (at_ : Z) (events : list event) : list event * list event :=
  match fuel with
  | O => ([], events)
  | S fuel =>
      match pop_event events with
      | None => ([], [])
      | Some (e, rest) =>
          if (ev_at e =? at_)%Z then
            let (batch, rest) := pop_batch fuel at_ rest in (e :: batch, rest)
          else ([], events)
      end
  end.

(** ** Statistics *)

Definition updatePeaks (s : simulator) : simulator :=
  let r := sm_result s in
  set_result (mkSimResult (r_Completed r) (r_Rejected r) (r_Makespan r) (r_MeanLatency r) (r_P95Latency r)
    (Z.max (sm_running s) (r_PeakRunning r)) (Z.max (sm_resident s) (r_PeakResident r))
    (Z.max (sm_tools s) (r_PeakInflightTools r)) (r_RunningSlotTime r) (r_ToolSlotTime r) (r_ResidentMiBSeconds r) (r_Tasks r)) s.

(** [Duration.Seconds]. *)
Definition Seconds (d : Z) : float64 :=
  fadd (float_of_int (Z.quot d 1000000000)) (fdiv (float_of_int (Z.rem d 1000000000)) (float_of_int 1000000000)).

Definition integrate (delta : Z) (s : simulator) : simulator :=
  let r := sm_result s in
  if (delta <=? 0)%Z then s
  else set_result (mkSimResult (r_Completed r) (r_Rejected r) (r_Makespan r) (r_MeanLatency r) (r_P95Latency r)
    (r_PeakRunning r) (r_PeakResident r) (r_PeakInflightTools r)
    (i64 (r_RunningSlotTime r + i64 (sm_running s * delta)))
    (i64 (r_ToolSlotTime r + i64 (sm_tools s * delta)))
    (fadd (r_ResidentMiBSeconds r)
       (fmul (fdiv (float_of_int (sm_residentBytes s)) (float_of_int (2 ^ 20))) (Seconds delta))) (r_Tasks r)) s.

(** ** Queues *)

Definition enqueueAdmission (i : nat) (continuation : bool) (s : simulator) : simulator :=
  let seq := nextSeq s in
  let s := on_task i (fun t => with_readySeq seq (with_continuation continuation t)) (set_events seq (sm_events s) s) in
  set_queues (sm_ready s) (sm_admission s ++ [i]) (sm_toolQueue s) s.

Definition enqueueReady (i : nat) (continuation : bool) (s : simulator) : simulator :=
  let seq := nextSeq s in
  let s := on_task i (fun t => with_readySeq seq (with_continuation continuation t)) (set_events seq (sm_events s) s) in
  set_queues (sm_ready s ++ [i]) (sm_admission s) (sm_toolQueue s) s.

Definition enqueueTool (i : nat) (s : simulator) : simulator :=
  let s := on_task i (fun t => with_slots (ts_holdsRunning t) true t) s in
  set_queues (sm_ready s) (sm_admission s) (sm_toolQueue s ++ [i]) s.

(** The estimate of the task at [i]. *)
Definition resident_bytes (i : nat) (s : simulator) : Z :=
  match sm_states s !! i with Some t => tk_ResidentBytes (ts_task t) | None => 0%Z end.

Definition admitTask (i : nat) (s : simulator) : simulator :=
  let s := set_bytes (i64 (sm_residentBytes s + resident_bytes i s)) (on_task i (with_admitted true) s) in
  updatePeaks (set_counters (sm_running s) (sm_resident s + 1) (sm_tools s) s).

Definition releaseResident (i : nat) (s : simulator) : simulator :=
  match sm_states s !! i with
  | Some t =>
      if ts_admitted t
      then let s := set_bytes (i64 (sm_residentBytes s - tk_ResidentBytes (ts_task t))) (on_task i (with_admitted false) s) in
           set_counters (sm_running s) (sm_resident s - 1) (sm_tools s) s
      else s
  | None => s
  end.

Definition complete_result (id : string) (now arrival : Z) (r : SimResult) : SimResult :=
  mkSimResult (r_Completed r + 1) (r_Rejected r) (Z.max now (r_Makespan r)) (r_MeanLatency r) (r_P95Latency r)
    (r_PeakRunning r) (r_PeakResident r) (r_PeakInflightTools r) (r_RunningSlotTime r) (r_ToolSlotTime r)
    (r_ResidentMiBSeconds r) (<[id := mkTaskResult now (i64 (now - arrival)) false]> (r_Tasks r)).

Definition complete (i : nat) (s : simulator) : simulator :=
  match sm_states s !! i with
  | Some t =>
      let s := releaseResident i (on_task i (with_end true (ts_rejected t)) s) in
      set_result (complete_result (tk_ID (ts_task t)) (sm_now s) (tk_Arrival (ts_task t)) (sm_result s)) s
  | None => s
  end.

Definition advance (i : nat) (s : simulator) : simulator :=
  match sm_states s !! i with
  | None => s
  | Some t =>
      match current t with
      | None => complete i s
      | Some phase =>
          let later := negb (ts_phase t =? 0)%nat in
          if negb (ts_admitted t) then enqueueAdmission i later s
          else if bool_decide (ph_Kind phase = CPU) then enqueueReady i later s
          else if bool_decide (ph_Kind phase = PhaseExternalIO) then
            let s := on_task i (with_continuation true) s in
            if LiveIO (sm_config s) then enqueueTool i s else enqueueReady i true s
          else if bool_decide (ph_Kind phase = DurableWait) then
            let s := releaseResident i s in
            pushEvent (i64 (sm_now s + ph_Duration phase)) eventWaitDone i s
          else s
      end
  end.

(** ** Handling an event *)

(** [sim.running--] with [holdsRunning] cleared, then [advance]. *)
Definition leave_running (i : nat) (s : simulator) : simulator :=
  let s := on_task i (fun t => with_slots false (ts_inToolQueue t) t) s in
  advance i (set_counters (sm_running s - 1) (sm_resident s) (sm_tools s) s).

Definition cpu_done (i : nat) (t : taskState) (s : simulator) : simulator :=
  let s := on_task i (with_phase (S (ts_phase t))) s in
  if is_kind PhaseExternalIO (phase_at t (S (ts_phase t))) && negb (LiveIO (sm_config s))
  then enqueueTool i s
  else leave_running i s.

Definition io_done (i : nat) (t : taskState) (s : simulator) : simulator :=
  let s := set_counters (sm_running s) (sm_resident s) (sm_tools s - 1) s in
  let s := on_task i (fun t => with_phase (S (ts_phase t)) (with_slots (ts_holdsRunning t) false t)) s in
  let next := phase_at t (S (ts_phase t)) in
  if ts_holdsRunning t then
    if is_kind CPU next then pushEvent (i64 (sm_now s + duration_of next)) eventCPUDone i s
    else leave_running i s
  else advance i s.

Definition handle (next : event) (s : simulator) : res string simulator :=
  let i := ev_task next in
  match sm_states s !! i with
  | None => Ok s
  | Some t =>
      let current := (ev_phase next =? ts_phase t)%nat in
      if ts_completed t || ts_rejected t then Ok s
      else match ev_kind next with
      | eventArrival => Ok (enqueueAdmission i false s)
      | eventCPUDone =>
          if negb current || negb (ts_holdsRunning t) then Err "stale CPU completion" else Ok (cpu_done i t s)
      | eventIODone =>
          if negb current || negb (ts_inToolQueue t) then Err "stale external I/O completion" else Ok (io_done i t s)
      | eventWaitDone =>
          if negb current || ts_admitted t then Err "stale durable-wait completion"
          else Ok (advance i (on_task i (with_phase (S (ts_phase t))) s))
      end
  end.

Fixpoint handle_batch (batch : list event) (s : simulator) : res string simulator :=
  match batch with
  | [] => Ok s
  | next :: rest => let* s := handle next s in handle_batch rest s
  end.

(** ** Policies *)

Definition remainingDuration (t : taskState) : Z :=
  foldl (fun total p => i64 (total + ph_Duration p)) 0%Z (drop (ts_phase t) (tk_Phases (ts_task t))).

Definition by_sequence (l r : taskState) : bool := (ts_readySeq l <? ts_readySeq r)%N.

Definition prefer (config : Config) (l r : taskState) : bool :=
  if bool_decide (Policy config = ReadyFirst) then
    if negb (bool_decide (ts_continuation l = ts_continuation r)) then ts_continuation l else by_sequence l r
  else if bool_decide (Policy config = FinishSoon) then
    if negb (remainingDuration l =? remainingDuration r)%Z then (remainingDuration l <? remainingDuration r)%Z
    else if negb (tk_Priority (ts_task l) =? tk_Priority (ts_task r))%Z
    then (tk_Priority (ts_task r) <? tk_Priority (ts_task l))%Z
    else by_sequence l r
  else by_sequence l r.

(** [sim.prefer] on the tasks of two candidates. *)
Definition prefer_candidate (s : simulator) (l r : nat * bool) : bool :=
  match sm_states s !! fst l, sm_states s !! fst r with
  | Some l, Some r => prefer (sm_config s) l r
  | _, _ => false
  end.

(** Candidates are tasks, with whether they come from admission. *)
Definition candidates (s : simulator) : list (nat * bool) :=
  map (fun i => (i, false)) (sm_ready s)
  ++ (if (sm_resident s <? MaxResident (sm_config s))%Z then map (fun i => (i, true)) (sm_admission s) else []).

Fixpoint removeState (states : list nat) (target : nat) : list nat :=
  match states with
  | [] => []
  | i :: rest => if (i =? target)%nat then rest else i :: removeState rest target
  end.

Definition chooseRunnable (s : simulator) : option (nat * bool) * simulator :=
  match candidates s with
  | [] => (None, s)
  | first :: rest =>
      let chosen := foldl (fun best c => if prefer_candidate s c best then c else best) first rest in
      if snd chosen
      then (Some chosen, set_queues (sm_ready s) (removeState (sm_admission s) (fst chosen)) (sm_toolQueue s) s)
      else (Some chosen, set_queues (removeState (sm_ready s) (fst chosen)) (sm_admission s) (sm_toolQueue s) s)
  end.

(** ** Starting work *)

(** The inner loop of [drain], over the tool queue. *)
Fixpoint start_tools (queue : list nat) (s : simulator) : simulator :=
  match queue with
  | [] => s
  | i :: rest =>
      if (sm_tools s <? MaxInflightTools (sm_config s))%Z then
        let s := set_queues (sm_ready s) (sm_admission s) rest s in
        let s := updatePeaks (set_counters (sm_running s) (sm_resident s) (sm_tools s + 1) s) in
        let duration := match sm_states s !! i with Some t => duration_of (current t) | None => 0%Z end in
        start_tools rest (pushEvent (i64 (sm_now s + duration)) eventIODone i s)
      else s
  end.

(** What [drain] does with the task it chose. *)
Definition start_task (i : nat) (fromAdmission : bool) (s : simulator) : simulator :=
  let s := if fromAdmission then admitTask i s else s in
  let phase := match sm_states s !! i with Some t => current t | None => None end in
  let s := on_task i (fun t => with_slots true (ts_inToolQueue t) t) s in
  let s := updatePeaks (set_counters (sm_running s + 1) (sm_resident s) (sm_tools s) s) in
  if is_kind CPU phase then pushEvent (i64 (sm_now s + duration_of phase)) eventCPUDone i s
  else enqueueTool i s.

(** One turn of the loop of [drain], with whether it made progress. *)
Definition drain_turn (s : simulator) : bool * simulator :=
  let started := (sm_tools s <? MaxInflightTools (sm_config s))%Z && negb (length (sm_toolQueue s) =? 0)%nat in
  let s := start_tools (sm_toolQueue s) s in
  if (sm_running s <? MaxRunning (sm_config s))%Z then
    match chooseRunnable s with
    | (Some (i, fromAdmission), s) => (true, start_task i fromAdmission s)
    | (None, s) => (started, s)
    end
  else (started, s).

Fixpoint drain_turns (fuel : nat) (s : simulator) : simulator :=
  match fuel with
  | O => s
  | S fuel => let (progress, s) := drain_turn s in if progress then drain_turns fuel s else s
  end.

(** Every turn that makes progress starts a tool or takes a task out of its
    queue, which can put it in the tool queue. *)
Definition drain_fuel (s : simulator) : nat :=
  S (length (sm_toolQueue s) + 2 * (length (sm_ready s) + length (sm_admission s))).

Definition drain (s : simulator) : simulator := drain_turns (drain_fuel s) s.

(** ** The queue limit *)

Definition newer (s : simulator) (l r : nat) : bool :=
  match sm_states s !! l, sm_states s !! r with
  | Some l, Some r => (ts_readySeq r <? ts_readySeq l)%N
  | _, _ => false
  end.

Definition reject_result (id : string) (r : SimResult) : SimResult :=
  mkSimResult (r_Completed r) (r_Rejected r + 1) (r_Makespan r) (r_MeanLatency r) (r_P95Latency r)
    (r_PeakRunning r) (r_PeakResident r) (r_PeakInflightTools r) (r_RunningSlotTime r) (r_ToolSlotTime r)
    (r_ResidentMiBSeconds r) (<[id := mkTaskResult 0 0 true]> (r_Tasks r)).

Definition reject_newest (s : simulator) : simulator :=
  match sm_admission s with
  | [] => s
  | first :: rest =>
      let newest := foldl (fun best i => if newer s i best then i else best) first rest in
      let s := set_queues (sm_ready s) (removeState (sm_admission s) newest) (sm_toolQueue s) s in
      match sm_states s !! newest with
      | Some t =>
          let s := on_task newest (with_end (ts_completed t) true) s in
          set_result (reject_result (tk_ID (ts_task t)) (sm_result s)) s
      | None => s
      end
  end.

(** [fuel] is the length of the queue. *)
Fixpoint reject_loop (fuel : nat) (s : simulator) : simulator :=
  match fuel with
  | O => s
  | S fuel =>
      if (MaxQueued (sm_config s) <? Z.of_nat (length (sm_admission s)))%Z
      then reject_loop fuel (reject_newest s) else s
  end.

Definition enforceQueueLimit (s : simulator) : simulator :=
  if (MaxQueued (sm_config s) =? 0)%Z then s else reject_loop (length (sm_admission s)) s.

(** ** The simulation *)

(** [int(math.Ceil(0.95*float64(n))) - 1]. *)
Definition p95_index (n : nat) : nat :=
  Z.to_nat (default 0%Z (trunc (math_Ceil (fmul (float_of_decimal false 95 (-2)) (float_of_int (Z.of_nat n))))) - 1).

(** The order in which a map is ranged over matters neither to the sum nor to
    the sorted list. *)
Definition finishResult (r : SimResult) : SimResult :=
  let finished := List.filter (fun t => negb (tr_Rejected t)) (map snd (map_to_list (r_Tasks r))) in
  let latencies := merge_sort Z.le (map tr_Latency finished) in
  let total := foldl (fun total x => i64 (total + x)) 0%Z latencies in
  if (length latencies =? 0)%nat then r
  else
    mkSimResult (r_Completed r) (r_Rejected r) (r_Makespan r) (Z.quot total (Z.of_nat (length latencies)))
      (default 0%Z (latencies !! p95_index (length latencies))) (r_PeakRunning r) (r_PeakResident r)
      (r_PeakInflightTools r) (r_RunningSlotTime r) (r_ToolSlotTime r) (r_ResidentMiBSeconds r) (r_Tasks r).

(** One turn of the loop, from a state with events. *)
Definition turn (nextAt : Z) (s : simulator) : res string simulator :=
  let s := set_now nextAt (integrate (i64 (nextAt - sm_now s)) s) in
  let (batch, rest) := pop_batch (length (sm_events s)) nextAt (sm_events s) in
  let* s := handle_batch batch (set_events (sm_seq s) rest s) in
  Ok (enforceQueueLimit (drain s)).

(** The loop; [None]: out of fuel. *)
Fixpoint simulate (fuel : nat) (s : simulator) : option (res string simulator) :=
  match pop_event (sm_events s) with
  | None => Some (Ok s)
  | Some (e, _) =>
      match fuel with
      | O => None
      | S fuel => match turn (ev_at e) s with Ok s => simulate fuel s | Err e => Some (Err e) end
      end
  end.

Definition initial_state (task : Task) : taskState := mkTaskState task 0 false false 0 false false false false.

Definition empty_result : SimResult := mkSimResult 0 0 0 0 0 0 0 0 0 0 (S754_zero false) ∅.

Definition start_simulator (config : Config) : simulator := mkSim config 0 0 [] [] [] [] [] 0 0 0 0 empty_result.

Definition add_task (s : simulator) (task : Task) : simulator :=
  pushEvent (tk_Arrival task) eventArrival (length (sm_states s))
    (set_states (sm_states s ++ [initial_state task]) s).

(** Every turn handles an event, and a task has one of its arrival and at most
    one of each phase. *)
Definition simulate_fuel (tasks : list Task) : nat := list_sum (map (fun t => S (length (tk_Phases t))) tasks).

Definition Simulate (tasks : list Task) (config : Config) : option (res string SimResult) :=
  match validateSimulation tasks config with
  | Err e => Some (Err e)
  | Ok _ =>
      match simulate (simulate_fuel tasks) (foldl add_task (start_simulator config) tasks) with
      | None => None
      | Some (Err e) => Some (Err e)
      | Some (Ok s) =>
          if negb (r_Completed (sm_result s) + r_Rejected (sm_result s) =? Z.of_nat (length tasks))%Z
          then Some (Err "simulation stopped with unfinished tasks")
          else Some (Ok (finishResult (sm_result s)))
      end
  end.
