(* ===== verification/SimSpec.v ===== *)
(** * SimSpec: the invariant of the scheduling simulator

    Where every unfinished task is - in a queue, behind a pending event, or in
    the hands of the code - and what its flags are there; the counters, the
    clock and the statistics follow from it. *)

From S2P Require Import Prelude Errors Sim.

(** ** Tasks *)

Record valid_task (k : Task) : Prop := {
  vt_arrival : (0 <= tk_Arrival k)%Z;
  vt_head : is_kind CPU (tk_Phases k !! 0%nat) = true;
  vt_phase : forall n p, tk_Phases k !! n = Some p ->
    (0 < ph_Duration p)%Z /\ (ph_Kind p = CPU \/ ph_Kind p = PhaseExternalIO \/ ph_Kind p = DurableWait);
  vt_wait : forall n p q, tk_Phases k !! n = Some p -> tk_Phases k !! S n = Some q -> ph_Kind p = DurableWait ->
    ph_Kind q = CPU
}.

(** The work of the phases of a kind from the [n]-th. *)
Definition any_kind : string -> bool := fun _ => true.
Definition of_kind (kind : string) : string -> bool := fun k => bool_decide (k = kind).

Definition work (kinds : string -> bool) (phases : list Phase) : Z :=
  zsum (fun p => if kinds (ph_Kind p) then ph_Duration p else 0%Z) phases.

Lemma work_drop kinds phases n p :
  phases !! n = Some p ->
  work kinds (drop n phases) = ((if kinds (ph_Kind p) then ph_Duration p else 0) + work kinds (drop (S n) phases))%Z.
Proof. intros Hp. unfold work. by rewrite (drop_S _ _ _ Hp), zsum_cons. Qed.

Lemma work_end kinds phases n : phases !! n = None -> work kinds (drop n phases) = 0%Z.
Proof. intros Hn%lookup_ge_None. by rewrite (drop_ge phases n) by done. Qed.

Section Valid.
Context (k : Task) (Hk : valid_task k).

Lemma work_nonneg kinds n : (0 <= work kinds (drop n (tk_Phases k)))%Z.
Proof.
  apply zsum_nonneg. intros p Hp. destruct (kinds (ph_Kind p)); [| lia].
  assert (p ∈ tk_Phases k) as Hin.
  { rewrite <- (take_drop n (tk_Phases k)). apply elem_of_app. by right. }
  apply list_elem_of_lookup in Hin as [m Hm]. destruct (vt_phase k Hk m p Hm). lia.
Qed.

Lemma work_le kinds n : (work kinds (drop n (tk_Phases k)) <= work any_kind (tk_Phases k))%Z.
Proof.
  unfold work at 2. rewrite <- (take_drop n (tk_Phases k)) at 2. rewrite zsum_app.
  assert (forall l, (forall p, p ∈ l -> p ∈ tk_Phases k) ->
    (work kinds l <= zsum (fun p => if any_kind (ph_Kind p) then ph_Duration p else 0) l)%Z
    /\ (0 <= zsum (fun p => if any_kind (ph_Kind p) then ph_Duration p else 0) l)%Z) as H.
  { intros l Hl. assert (forall p, p ∈ l -> (0 < ph_Duration p)%Z) as Hpos.
    { intros p Hp%Hl. apply list_elem_of_lookup in Hp as [m Hm]. by destruct (vt_phase k Hk m p Hm). }
    split; [apply zsum_le | apply zsum_nonneg]; intros p Hp; specialize (Hpos p Hp); cbn;
      [destruct (kinds (ph_Kind p)); lia | lia]. }
  destruct (H (drop n (tk_Phases k))) as [H1 _].
  { intros p Hp. rewrite <- (take_drop n (tk_Phases k)). apply elem_of_app. by right. }
  destruct (H (take n (tk_Phases k))) as [_ H2].
  { intros p Hp. rewrite <- (take_drop n (tk_Phases k)). apply elem_of_app. by left. }
  lia.
Qed.
End Valid.

(** ** Places *)

(** [InHand]: the code is about to put the task somewhere. *)
Inductive place := AtReady | AtAdmission | AtTool | AtEvent (e : event) | InHand.

Notation token := (nat * place)%type.

Definition event_token (e : event) : token := (ev_task e, AtEvent e).

Definition tokens (s : simulator) : list token :=
  map (fun i => (i, AtReady)) (sm_ready s) ++ map (fun i => (i, AtAdmission)) (sm_admission s)
  ++ map (fun i => (i, AtTool)) (sm_toolQueue s) ++ map event_token (sm_events s).

Definition is_event (kind : eventKind) (p : place) : bool :=
  match p, kind with
  | AtEvent e, eventArrival => match ev_kind e with eventArrival => true | _ => false end
  | AtEvent e, eventCPUDone => match ev_kind e with eventCPUDone => true | _ => false end
  | AtEvent e, eventIODone => match ev_kind e with eventIODone => true | _ => false end
  | AtEvent e, eventWaitDone => match ev_kind e with eventWaitDone => true | _ => false end
  | _, _ => false
  end.

(** What the flags of a task are at a place, in a simulation with live or
    inline I/O. *)
Definition flags (admitted holds tool : bool) (t : taskState) : Prop :=
  ts_admitted t = admitted /\ ts_holdsRunning t = holds /\ ts_inToolQueue t = tool.

Definition at_kind (kind : string) (t : taskState) : Prop := is_kind kind (current t) = true.

Definition place_ok (live : bool) (p : place) (t : taskState) : Prop :=
  ts_completed t = false /\ ts_rejected t = false /\
  match p with
  | AtReady => flags true false false t /\ (at_kind CPU t \/ live = false /\ at_kind PhaseExternalIO t)
  | AtAdmission => flags false false false t /\ at_kind CPU t
  | AtTool => flags true (negb live) true t /\ at_kind PhaseExternalIO t
  | AtEvent e =>
      ev_phase e = ts_phase t /\
      match ev_kind e with
      | eventArrival => flags false false false t /\ ts_phase t = 0%nat /\ at_kind CPU t
      | eventCPUDone => flags true true false t /\ at_kind CPU t
      | eventIODone => flags true (negb live) true t /\ at_kind PhaseExternalIO t
      | eventWaitDone => flags false false false t /\ at_kind DurableWait t
      end
  | InHand =>
      ts_inToolQueue t = false /\ (ts_holdsRunning t = true -> ts_admitted t = true)
      /\ (ts_phase t <= length (tk_Phases (ts_task t)))%nat
  end.

(** ** Quantities of a task at a place *)

Definition b2z (b : bool) : Z := if b then 1%Z else 0%Z.

Definition slot (p : place) (t : taskState) : Z := b2z (ts_holdsRunning t).
Definition residency (p : place) (t : taskState) : Z := b2z (ts_admitted t).
Definition tool_slot (p : place) (t : taskState) : Z := b2z (is_event eventIODone p).

(** Events still to come. *)
Definition ahead (p : place) (t : taskState) : Z :=
  (Z.of_nat (length (tk_Phases (ts_task t))) - Z.of_nat (ts_phase t) + b2z (is_event eventArrival p))%Z.

(** The first phase that is not under way. *)
Definition next_phase (p : place) (t : taskState) : nat :=
  match p with
  | AtEvent e => match ev_kind e with eventArrival => ts_phase t | _ => S (ts_phase t) end
  | _ => ts_phase t
  end.

Definition todo (kinds : string -> bool) (p : place) (t : taskState) : Z :=
  work kinds (drop (next_phase p t) (tk_Phases (ts_task t))).

Definition due (now : Z) (p : place) : Z := match p with AtEvent e => ev_at e | _ => now end.

(** What is left of the work of a kind, the phase under way included. *)
Definition left_over (kind : string) (done_ : eventKind) (now : Z) (p : place) (t : taskState) : Z :=
  (todo (of_kind kind) p t + (if is_event done_ p then due now p - now else 0))%Z.

(** The sum over all places. *)
Definition at_place (f : place -> taskState -> Z) (states : list taskState) (x : token) : Z :=
  match states !! fst x with Some t => f (snd x) t | None => 0%Z end.

Definition sum_over (f : place -> taskState -> Z) (s : simulator) (hand : list token) : Z :=
  zsum (at_place f (sm_states s)) (tokens s ++ hand).

Definition horizon (tasks : list Task) : Z :=
  (foldr Z.max 0 (map tk_Arrival tasks) + zsum (fun k => work any_kind (tk_Phases k)) tasks)%Z.

Definition total_work (kind : string) (tasks : list Task) : Z :=
  zsum (fun k => work (of_kind kind) (tk_Phases k)) tasks.

(** ** The invariant *)

Section Invariant.
Context (tasks : list Task) (config : Config).

(** There is a place in the queue for everyone. *)
Definition roomy : Prop := MaxQueued config = 0%Z \/ (Z.of_nat (length tasks) <= MaxQueued config)%Z.

(** Nothing is rejected and no time overflows. *)
Definition fits : Prop := roomy /\ (horizon tasks < 2 ^ 63)%Z.

Record timed (s : simulator) (hand : list token) : Prop := {
  tm_now : (0 <= sm_now s)%Z;
  tm_due : forall i p, (i, p) ∈ tokens s ++ hand -> (sm_now s <= due (sm_now s) p)%Z;
  tm_horizon_now : (sm_now s + sum_over (todo any_kind) s hand <= horizon tasks)%Z;
  tm_horizon : forall i p, (i, p) ∈ tokens s ++ hand ->
    (due (sm_now s) p + sum_over (todo any_kind) s hand <= horizon tasks)%Z;
  tm_start : forall i p t, (i, p) ∈ tokens s ++ hand -> sm_states s !! i = Some t ->
    (tk_Arrival (ts_task t) + work any_kind (tk_Phases (ts_task t)) <= due (sm_now s) p + todo any_kind p t)%Z;
  tm_tool : (0 <= r_ToolSlotTime (sm_result s))%Z /\
    (r_ToolSlotTime (sm_result s) + sum_over (left_over PhaseExternalIO eventIODone (sm_now s)) s hand
     = total_work PhaseExternalIO tasks)%Z;
  tm_running : LiveIO config = true ->
    (0 <= r_RunningSlotTime (sm_result s))%Z /\
    (r_RunningSlotTime (sm_result s) + sum_over (left_over CPU eventCPUDone (sm_now s)) s hand
     = total_work CPU tasks)%Z;
  tm_makespan : (0 <= r_Makespan (sm_result s) <= horizon tasks)%Z
}.

Definition limits_ok (s : simulator) : Prop :=
  (sm_running s <= MaxRunning config /\ sm_resident s <= MaxResident config
   /\ sm_tools s <= MaxInflightTools config)%Z.

Definition peaks_ok (r : SimResult) : Prop :=
  (r_PeakRunning r <= MaxRunning config /\ r_PeakResident r <= MaxResident config
   /\ r_PeakInflightTools r <= MaxInflightTools config)%Z.

(** What the result says of a finished task. *)
Definition reported (r : SimResult) (k : Task) : Prop :=
  exists tr, r_Tasks r !! tk_ID k = Some tr
    /\ (fits -> tr_Rejected tr = false /\ (work any_kind (tk_Phases k) <= tr_Latency tr)%Z).

(** At most [n] events are still to come. *)
Record inv (n : Z) (s : simulator) (hand : list token) : Prop := {
  iv_config : sm_config s = config;
  iv_tasks : map ts_task (sm_states s) = tasks;
  iv_nodup : NoDup (map fst (tokens s ++ hand));
  iv_ok : forall i p, (i, p) ∈ tokens s ++ hand ->
    exists t, sm_states s !! i = Some t /\ place_ok (LiveIO config) p t;
  iv_running : sm_running s = sum_over slot s hand;
  iv_resident : sm_resident s = sum_over residency s hand;
  iv_tools : sm_tools s = sum_over tool_slot s hand;
  iv_limits : limits_ok s;
  iv_peaks : peaks_ok (sm_result s);
  iv_count : (r_Completed (sm_result s) + r_Rejected (sm_result s) + Z.of_nat (length (tokens s ++ hand))
              = Z.of_nat (length tasks))%Z;
  iv_unlimited : roomy -> r_Rejected (sm_result s) = 0%Z;
  iv_reported : forall i t, sm_states s !! i = Some t ->
    i ∈ map fst (tokens s ++ hand) \/ reported (sm_result s) (ts_task t);
  iv_ahead : (sum_over ahead s hand <= n)%Z;
  iv_timed : fits -> timed s hand
}.

(** ** Moving a task *)

(** The task keeps its course: nothing of its work is lost or done twice. *)
Definition same_course (now : Z) (p : place) (t : taskState) (p' : place) (t' : taskState) : Prop :=
  (now <= due now p' /\ todo any_kind p' t' <= todo any_kind p t
   /\ due now p' + todo any_kind p' t' = due now p + todo any_kind p t
   /\ left_over PhaseExternalIO eventIODone now p' t' = left_over PhaseExternalIO eventIODone now p t
   /\ (LiveIO config = true -> left_over CPU eventCPUDone now p' t' = left_over CPU eventCPUDone now p t))%Z.

Record move (i : nat) (p p' : place) (t t' : taskState) (s s' : simulator) (hand hand' rest : list token) : Prop := {
  mv_from : tokens s ++ hand ≡ₚ (i, p) :: rest;
  mv_to : tokens s' ++ hand' ≡ₚ (i, p') :: rest;
  mv_old : sm_states s !! i = Some t;
  mv_new : sm_states s' = <[i := t']> (sm_states s);
  mv_same : sm_config s' = sm_config s /\ sm_now s' = sm_now s /\ sm_result s' = sm_result s;
  mv_task : ts_task t' = ts_task t;
  mv_ok : place_ok (LiveIO config) p' t';
  mv_running : sm_running s' = (sm_running s + slot p' t' - slot p t)%Z;
  mv_resident : sm_resident s' = (sm_resident s + residency p' t' - residency p t)%Z;
  mv_tools : sm_tools s' = (sm_tools s + tool_slot p' t' - tool_slot p t)%Z
}.

Lemma sum_rest f i t' s rest :
  i ∉ map fst rest -> zsum (at_place f (<[i := t']> (sm_states s))) rest = zsum (at_place f (sm_states s)) rest.
Proof.
  intros Hi. apply zsum_ext. intros [j q] Hj. unfold at_place. cbn [fst snd].
  rewrite list_lookup_insert_ne; [done |]. intros ->. apply Hi. apply list_elem_of_fmap. by exists (j, q).
Qed.

Lemma sum_move f i p p' t t' s s' hand hand' rest :
  move i p p' t t' s s' hand hand' rest -> NoDup (map fst (tokens s ++ hand)) ->
  sum_over f s' hand' = (sum_over f s hand + f p' t' - f p t)%Z.
Proof.
  intros Hm Hnd. unfold sum_over. rewrite (zsum_perm _ _ _ (mv_from _ _ _ _ _ _ _ _ _ _ Hm)).
  rewrite (zsum_perm _ _ _ (mv_to _ _ _ _ _ _ _ _ _ _ Hm)), !zsum_cons, (mv_new _ _ _ _ _ _ _ _ _ _ Hm).
  rewrite (mv_from _ _ _ _ _ _ _ _ _ _ Hm) in Hnd. cbn [map] in Hnd. apply list.NoDup_cons in Hnd as [Hi _].
  rewrite sum_rest by done. pose proof (mv_old _ _ _ _ _ _ _ _ _ _ Hm) as Ht. unfold at_place at 1 3. cbn [fst snd].
  rewrite list_lookup_insert_eq, Ht by (by eapply lookup_lt_Some). lia.
Qed.

Lemma timed_move i p p' t t' s s' hand hand' rest :
  move i p p' t t' s s' hand hand' rest -> NoDup (map fst (tokens s ++ hand)) ->
  same_course (sm_now s) p t p' t' -> timed s hand -> timed s' hand'.
Proof.
  intros Hm Hnd (Hdue & Htodo & Hcourse & Hio & Hcpu) [Hnow Hd Hhn Hh Hs Ht Hr Hms].
  pose proof (mv_same _ _ _ _ _ _ _ _ _ _ Hm) as (Hc & Hn & Hres).
  assert (forall j q, (j, q) ∈ tokens s' ++ hand' -> (j, q) = (i, p') \/ (j, q) ∈ rest) as Hin.
  { intros j q. rewrite (mv_to _ _ _ _ _ _ _ _ _ _ Hm). by intros [? | ?]%elem_of_cons; [left | right]. }
  assert (forall j q, (j, q) ∈ rest -> (j, q) ∈ tokens s ++ hand) as Hrest.
  { intros j q Hj. rewrite (mv_from _ _ _ _ _ _ _ _ _ _ Hm). by right. }
  assert ((i, p) ∈ tokens s ++ hand) as Hip by (rewrite (mv_from _ _ _ _ _ _ _ _ _ _ Hm); by left).
  pose proof (fun f => sum_move f _ _ _ _ _ _ _ _ _ _ Hm Hnd) as Hsum.
  pose proof (Hh i p Hip) as Hhi. rewrite (mv_from _ _ _ _ _ _ _ _ _ _ Hm) in Hnd. apply list.NoDup_cons in Hnd as [Hi _].
  split; rewrite ?Hn, ?Hres, ?Hsum; try done.
  - intros j q [[= -> ->] | Hj]%Hin; [done | by eapply Hd, Hrest].
  - lia.
  - intros j q [[= -> ->] | Hj]%Hin; [lia |]. specialize (Hh j q (Hrest _ _ Hj)). lia.
  - intros j q u [[= -> ->] | Hj]%Hin; rewrite (mv_new _ _ _ _ _ _ _ _ _ _ Hm); intros Hu.
    + rewrite list_lookup_insert_eq in Hu by (eapply lookup_lt_Some, (mv_old _ _ _ _ _ _ _ _ _ _ Hm)).
      injection Hu as <-. rewrite (mv_task _ _ _ _ _ _ _ _ _ _ Hm), Hcourse.
      apply (Hs i p t Hip), (mv_old _ _ _ _ _ _ _ _ _ _ Hm).
    + rewrite list_lookup_insert_ne in Hu; [by apply (Hs j q u); [apply Hrest |] |].
      intros ->. apply Hi. apply list_elem_of_fmap. by exists (j, q).
  - split; [apply Ht |]. rewrite Hio. lia.
  - intros Hlive. destruct (Hr Hlive) as [? ?]. split; [done |]. rewrite (Hcpu Hlive). lia.
Qed.

Lemma relocate n n' i p p' t t' s s' hand hand' rest :
  move i p p' t t' s s' hand hand' rest -> inv n s hand -> limits_ok s' ->
  (ahead p' t' - ahead p t <= n' - n)%Z ->
  (fits -> timed s hand -> same_course (sm_now s) p t p' t') -> inv n' s' hand'.
Proof.
  intros Hm [Hc Htasks Hnd Hok Hrun Hres Htools Hlim Hpk Hcnt Hunl Hrep Ha Htm] Hlim' Hn Hcourse.
  pose proof (mv_same _ _ _ _ _ _ _ _ _ _ Hm) as (Hc' & Hn' & Hres').
  pose proof (fun f => sum_move f _ _ _ _ _ _ _ _ _ _ Hm Hnd) as Hsum.
  pose proof (mv_from _ _ _ _ _ _ _ _ _ _ Hm) as Hfrom. pose proof (mv_to _ _ _ _ _ _ _ _ _ _ Hm) as Hto.
  pose proof (mv_old _ _ _ _ _ _ _ _ _ _ Hm) as Hold. pose proof (mv_new _ _ _ _ _ _ _ _ _ _ Hm) as Hnew.
  pose proof (mv_task _ _ _ _ _ _ _ _ _ _ Hm) as Htask.
  assert (map fst (tokens s' ++ hand') ≡ₚ map fst (tokens s ++ hand)) as Hfst by (by rewrite Hfrom, Hto).
  assert (i < length (sm_states s))%nat as Hlt by (by eapply lookup_lt_Some).
  split; rewrite ?Hres', ?Hsum.
  - by rewrite Hc'.
  - rewrite Hnew, list_fmap_insert. rewrite list_insert_id; [done |]. by rewrite list_lookup_fmap, Hold, Htask.
  - by rewrite Hfst.
  - intros j q Hj. rewrite Hto in Hj. rewrite Hnew. apply elem_of_cons in Hj as [[= -> ->] | Hj].
    + exists t'. rewrite list_lookup_insert_eq by done. split; [done | apply (mv_ok _ _ _ _ _ _ _ _ _ _ Hm)].
    + rewrite list_lookup_insert_ne; [apply Hok; rewrite Hfrom; by right |]. intros ->.
      rewrite Hfrom in Hnd. apply list.NoDup_cons in Hnd as [Hi _]. apply Hi, list_elem_of_fmap. by exists (j, q).
  - by rewrite (mv_running _ _ _ _ _ _ _ _ _ _ Hm), Hrun.
  - by rewrite (mv_resident _ _ _ _ _ _ _ _ _ _ Hm), Hres.
  - by rewrite (mv_tools _ _ _ _ _ _ _ _ _ _ Hm), Htools.
  - done.
  - done.
  - rewrite Hto. rewrite Hfrom in Hcnt. done.
  - done.
  - intros j u Hu. rewrite Hfst. rewrite Hnew in Hu. destruct (decide (i = j)) as [-> | Hne].
    + left. rewrite Hfrom. by left.
    + rewrite list_lookup_insert_ne in Hu by done. by apply Hrep.
  - lia.
  - intros Hf. specialize (Htm Hf). eapply timed_move; [done | done | by apply Hcourse | done].
Qed.

(** ** Ending a task *)

Record retired (i : nat) (p : place) (t : taskState) (tr : TaskResult) (s s' : simulator) (hand hand' rest : list token)
  : Prop := {
  rt_from : tokens s ++ hand ≡ₚ (i, p) :: rest;
  rt_to : tokens s' ++ hand' ≡ₚ rest;
  rt_old : sm_states s !! i = Some t;
  rt_new : exists t', sm_states s' = <[i := t']> (sm_states s) /\ ts_task t' = ts_task t;
  rt_same : sm_config s' = sm_config s /\ sm_now s' = sm_now s;
  rt_running : sm_running s' = (sm_running s - slot p t)%Z;
  rt_resident : sm_resident s' = (sm_resident s - residency p t)%Z;
  rt_tools : sm_tools s' = (sm_tools s - tool_slot p t)%Z;
  rt_peaks : forall (P : Z -> Z -> Z -> Prop) (r := sm_result s) (r' := sm_result s'),
    P (r_PeakRunning r) (r_PeakResident r) (r_PeakInflightTools r) ->
    P (r_PeakRunning r') (r_PeakResident r') (r_PeakInflightTools r');
  rt_slots : r_ToolSlotTime (sm_result s') = r_ToolSlotTime (sm_result s)
    /\ r_RunningSlotTime (sm_result s') = r_RunningSlotTime (sm_result s);
  rt_results : r_Tasks (sm_result s') = <[tk_ID (ts_task t) := tr]> (r_Tasks (sm_result s));
  rt_count : (r_Completed (sm_result s') + r_Rejected (sm_result s')
              = r_Completed (sm_result s) + r_Rejected (sm_result s) + 1)%Z;
  rt_unlimited : roomy -> r_Rejected (sm_result s') = r_Rejected (sm_result s)
}.

Lemma sum_retired f i p t tr s s' hand hand' rest :
  retired i p t tr s s' hand hand' rest -> NoDup (map fst (tokens s ++ hand)) ->
  sum_over f s' hand' = (sum_over f s hand - f p t)%Z.
Proof.
  intros Hm Hnd. unfold sum_over. rewrite (zsum_perm _ _ _ (rt_from _ _ _ _ _ _ _ _ _ Hm)).
  destruct (rt_new _ _ _ _ _ _ _ _ _ Hm) as (t' & Hnew & _).
  rewrite (zsum_perm _ _ _ (rt_to _ _ _ _ _ _ _ _ _ Hm)), !zsum_cons, Hnew.
  rewrite (rt_from _ _ _ _ _ _ _ _ _ Hm) in Hnd. cbn [map] in Hnd. apply list.NoDup_cons in Hnd as [Hi _].
  rewrite sum_rest by done. unfold at_place at 2. cbn [fst snd]. rewrite (rt_old _ _ _ _ _ _ _ _ _ Hm). lia.
Qed.

(** A task that reached its end has no work left. *)
Definition spent (now : Z) (p : place) (t : taskState) : Prop :=
  todo any_kind p t = 0%Z /\ due now p = now
  /\ left_over PhaseExternalIO eventIODone now p t = 0%Z /\ left_over CPU eventCPUDone now p t = 0%Z.

Lemma timed_retired i p t tr s s' hand hand' rest :
  retired i p t tr s s' hand hand' rest -> NoDup (map fst (tokens s ++ hand)) ->
  spent (sm_now s) p t -> (0 <= r_Makespan (sm_result s') <= horizon tasks)%Z -> timed s hand -> timed s' hand'.
Proof.
  intros Hm Hnd (Htodo & Hdue & Hio & Hcpu) Hms' [Hnow Hd Hhn Hh Hs Ht Hr Hms].
  pose proof (rt_same _ _ _ _ _ _ _ _ _ Hm) as (Hc & Hn). pose proof (rt_slots _ _ _ _ _ _ _ _ _ Hm) as (Hts & Hrs).
  assert (forall j q, (j, q) ∈ tokens s' ++ hand' -> (j, q) ∈ tokens s ++ hand) as Hin.
  { intros j q. rewrite (rt_to _ _ _ _ _ _ _ _ _ Hm), (rt_from _ _ _ _ _ _ _ _ _ Hm). intros Hj. by right. }
  pose proof (fun f => sum_retired f _ _ _ _ _ _ _ _ _ Hm Hnd) as Hsum.
  split; rewrite ?Hn, ?Hsum, ?Hts, ?Hrs; try done.
  - intros j q Hj%Hin. by eapply Hd.
  - lia.
  - intros j q Hj%Hin. specialize (Hh j q Hj). lia.
  - intros j q u Hj. destruct (rt_new _ _ _ _ _ _ _ _ _ Hm) as (t' & -> & _). intros Hu.
    rewrite list_lookup_insert_ne in Hu; [by apply (Hs j q u); [apply Hin |] |]. intros ->.
    rewrite (rt_from _ _ _ _ _ _ _ _ _ Hm) in Hnd. apply list.NoDup_cons in Hnd as [Hi _]. apply Hi, list_elem_of_fmap.
    exists (j, q). split; [done |]. by rewrite <- (rt_to _ _ _ _ _ _ _ _ _ Hm).
  - split; [apply Ht |]. rewrite Hio. lia.
  - intros Hlive. destruct (Hr Hlive) as [? ?]. split; [done |]. rewrite Hcpu. lia.
Qed.

Context (Hids : NoDup (map tk_ID tasks)).

Lemma reported_insert r r' k k' tr :
  r_Tasks r' = <[tk_ID k := tr]> (r_Tasks r) -> tk_ID k <> tk_ID k' -> reported r k' -> reported r' k'.
Proof. intros Hr Hne (tr' & Htr & Hf). exists tr'. split; [by rewrite Hr, lookup_insert_ne | done]. Qed.

Lemma retire n n' i p t tr s s' hand hand' rest :
  retired i p t tr s s' hand hand' rest -> inv n s hand -> (0 <= slot p t)%Z ->
  (- ahead p t <= n' - n)%Z ->
  (fits -> timed s hand -> spent (sm_now s) p t /\ (0 <= r_Makespan (sm_result s') <= horizon tasks)%Z
     /\ tr_Rejected tr = false /\ (work any_kind (tk_Phases (ts_task t)) <= tr_Latency tr)%Z) ->
  inv n' s' hand'.
Proof.
  intros Hm [Hc Htasks Hnd Hok Hrun Hres Htools Hlim Hpk Hcnt Hunl Hrep Ha Htm] Hslot Hn Hspent.
  pose proof (rt_same _ _ _ _ _ _ _ _ _ Hm) as (Hc' & Hn').
  pose proof (fun f => sum_retired f _ _ _ _ _ _ _ _ _ Hm Hnd) as Hsum.
  pose proof (rt_from _ _ _ _ _ _ _ _ _ Hm) as Hfrom. pose proof (rt_to _ _ _ _ _ _ _ _ _ Hm) as Hto.
  pose proof (rt_old _ _ _ _ _ _ _ _ _ Hm) as Hold. destruct (rt_new _ _ _ _ _ _ _ _ _ Hm) as (t' & Hnew & Htask).
  assert (i < length (sm_states s))%nat as Hlt by (by eapply lookup_lt_Some).
  assert (0 <= residency p t /\ 0 <= tool_slot p t)%Z as [Hr0 Ht0].
  { unfold residency, tool_slot, b2z. split; by case_match. }
  pose proof Hnd as Hnd'. rewrite Hfrom in Hnd'. apply list.NoDup_cons in Hnd' as [Hi Hndr].
  pose proof (rt_running _ _ _ _ _ _ _ _ _ Hm) as Hru. pose proof (rt_resident _ _ _ _ _ _ _ _ _ Hm) as Hre.
  pose proof (rt_tools _ _ _ _ _ _ _ _ _ Hm) as Hto'.
  split; rewrite ?Hsum.
  - by rewrite Hc'.
  - rewrite Hnew, list_fmap_insert. rewrite list_insert_id; [done |]. by rewrite list_lookup_fmap, Hold, Htask.
  - by rewrite Hto.
  - intros j q Hj. rewrite Hto in Hj. rewrite Hnew. rewrite list_lookup_insert_ne; [apply Hok; rewrite Hfrom; by right |].
    intros ->. apply Hi, list_elem_of_fmap. by exists (j, q).
  - lia.
  - lia.
  - lia.
  - unfold limits_ok in *. lia.
  - exact (rt_peaks _ _ _ _ _ _ _ _ _ Hm (fun a b c => a <= _ /\ b <= _ /\ c <= _)%Z Hpk).
  - rewrite Hto. rewrite Hfrom in Hcnt. cbn [length] in Hcnt. pose proof (rt_count _ _ _ _ _ _ _ _ _ Hm). lia.
  - intros Hq. rewrite (rt_unlimited _ _ _ _ _ _ _ _ _ Hm Hq). by apply Hunl.
  - intros j u Hu. rewrite Hto. rewrite Hnew in Hu. destruct (decide (i = j)) as [<- | Hne].
    + rewrite list_lookup_insert_eq in Hu by done. injection Hu as <-. right. exists tr. rewrite Htask.
      rewrite (rt_results _ _ _ _ _ _ _ _ _ Hm), lookup_insert_eq. split; [done |]. intros Hf.
      destruct (Hspent Hf (Htm Hf)) as (_ & _ & Hrest). exact Hrest.
    + rewrite list_lookup_insert_ne in Hu by done. destruct (Hrep j u Hu) as [Hj | Hr].
      * left. rewrite Hfrom in Hj. apply elem_of_cons in Hj as [Hj | Hj]; [| done]. by cbn in Hj.
      * right. eapply reported_insert; [apply (rt_results _ _ _ _ _ _ _ _ _ Hm) | | done]. intros Heq. apply Hne.
        eapply NoDup_lookup; [exact Hids | |]; rewrite list_lookup_fmap, <- Htasks, list_lookup_fmap.
        -- rewrite Hold. cbn. by rewrite Heq.
        -- by rewrite Hu.
  - lia.
  - intros Hf. destruct (Hspent Hf (Htm Hf)) as (Hsp & Hms & _). by eapply timed_retired; [| | | | apply Htm].
Qed.
End Invariant.
