(* ===== verification/SimOps.v ===== *)
(** * SimOps: the simulator's operations keep the invariant of [SimSpec]

    One lemma per operation: what is in the hand before and after it, and that
    the invariant holds again. *)

From S2P Require Import Prelude Errors Sim SimSpec.

(** ** Tokens *)

Lemma from_hand s (x : token) hand : tokens s ++ x :: hand ≡ₚ x :: (tokens s ++ hand).
Proof. by rewrite Permutation_middle. Qed.

Lemma tokens_ready s i :
  tokens (set_queues (sm_ready s ++ [i]) (sm_admission s) (sm_toolQueue s) s) ≡ₚ (i, AtReady) :: tokens s.
Proof. unfold tokens. cbn. rewrite map_app, <- app_assoc. cbn. by rewrite <- Permutation_middle. Qed.

Lemma tokens_admission s i :
  tokens (set_queues (sm_ready s) (sm_admission s ++ [i]) (sm_toolQueue s) s) ≡ₚ (i, AtAdmission) :: tokens s.
Proof. unfold tokens. cbn. rewrite map_app, <- app_assoc. cbn. by rewrite <- !Permutation_middle. Qed.

Lemma tokens_tool s i :
  tokens (set_queues (sm_ready s) (sm_admission s) (sm_toolQueue s ++ [i]) s) ≡ₚ (i, AtTool) :: tokens s.
Proof. unfold tokens. cbn. rewrite map_app, <- app_assoc. cbn. by rewrite <- !Permutation_middle. Qed.

Lemma tokens_event s seq e : tokens (set_events seq (sm_events s ++ [e]) s) ≡ₚ event_token e :: tokens s.
Proof. unfold tokens. cbn. rewrite map_app. cbn. rewrite !app_assoc. by rewrite Permutation_app_comm. Qed.

Lemma removeState_perm l i : i ∈ l -> l ≡ₚ i :: removeState l i.
Proof.
  induction l as [| j l IH]; [by intros ?%elem_of_nil |]. intros Hi. cbn. destruct (Nat.eqb_spec j i) as [-> | Hne]; [done |].
  apply elem_of_cons in Hi as [-> | Hi]; [done |]. rewrite (IH Hi) at 1. apply perm_swap.
Qed.

Lemma alter_insert (f : taskState -> taskState) (i : nat) (l : list taskState) t : l !! i = Some t -> alter f i l = <[i := f t]> l.
Proof.
  intros Ht. apply list_eq. intros j. destruct (decide (i = j)) as [<- | Hne].
  - rewrite list_lookup_alter_eq, Ht, list_lookup_insert_eq; [done | by eapply lookup_lt_Some].
  - by rewrite list_lookup_alter_ne, list_lookup_insert_ne.
Qed.

Section Operations.
Context (tasks : list Task) (config : Config).
Context (Hids : NoDup (map tk_ID tasks)) (Hvalid : Forall valid_task tasks).

Notation inv := (inv tasks config).
Notation fits := (fits tasks config).
Notation timed := (timed tasks config).

Lemma valid_state n s hand i t : inv n s hand -> sm_states s !! i = Some t -> valid_task (ts_task t).
Proof.
  intros Hi Ht. rewrite list.Forall_forall in Hvalid. apply Hvalid. rewrite <- (iv_tasks _ _ _ _ _ Hi).
  apply list_elem_of_fmap. exists t. split; [done | by eapply list_elem_of_lookup_2].
Qed.

Lemma in_place n s hand i p : inv n s hand -> (i, p) ∈ tokens s ++ hand ->
  exists t, sm_states s !! i = Some t /\ place_ok (LiveIO config) p t.
Proof. intros Hi. apply (iv_ok _ _ _ _ _ Hi). Qed.

Lemma in_hand n s x hand : inv n s (x :: hand) ->
  exists t, sm_states s !! fst x = Some t /\ place_ok (LiveIO config) (snd x) t.
Proof. intros Hi. eapply in_place; [done |]. destruct x. apply elem_of_app. right. by left. Qed.

Lemma updatePeaks_inv n s hand : inv n s hand -> inv n (updatePeaks s) hand.
Proof.
  intros [Hc Htasks Hnd Hok Hrun Hres Htools Hlim Hpk Hcnt Hunl Hrep Ha Htm]. split; try done.
  - unfold limits_ok, peaks_ok in *. cbn. lia.
  - intros Hf. destruct (Htm Hf). by split.
Qed.

Lemma inv_weaken n n' s hand : (n <= n')%Z -> inv n s hand -> inv n' s hand.
Proof. intros Hn [Hc Htasks Hnd Hok Hrun Hres Htools Hlim Hpk Hcnt Hunl Hrep Ha Htm]. split; try done. lia. Qed.

Lemma todo_le_sum n s hand i p t :
  inv n s hand -> (i, p) ∈ tokens s ++ hand -> sm_states s !! i = Some t ->
  (0 <= todo any_kind p t <= sum_over (todo any_kind) s hand)%Z.
Proof.
  intros Hi Hin Ht. split; [by apply work_nonneg, (valid_state _ _ _ _ _ Hi Ht) |]. unfold sum_over.
  assert (todo any_kind p t = at_place (todo any_kind) (sm_states s) (i, p)) as ->.
  { unfold at_place. cbn [fst snd]. by rewrite Ht. }
  apply zsum_member; [| done]. intros [j q] Hj. unfold at_place. cbn [fst snd].
  destruct (sm_states s !! j) as [u |] eqn:Hu; [| done]. by apply work_nonneg, (valid_state _ _ _ _ _ Hi Hu).
Qed.

(** The clock may be asked for the end of a phase. *)
Lemma end_of_phase n s hand i p t ph :
  inv n s hand -> fits -> timed s hand -> (i, p) ∈ tokens s ++ hand -> sm_states s !! i = Some t ->
  next_phase p t = ts_phase t -> current t = Some ph ->
  i64 (sm_now s + ph_Duration ph) = (sm_now s + ph_Duration ph)%Z /\ (0 < ph_Duration ph)%Z.
Proof.
  intros Hi [_ Hfit] Htm Hin Ht Hnext Hph. pose proof (valid_state _ _ _ _ _ Hi Ht) as Hv.
  destruct (vt_phase _ Hv (ts_phase t) ph Hph) as [Hpos _]. split; [| done].
  pose proof (tm_now _ _ _ _ Htm) as Hnow. pose proof (tm_horizon_now _ _ _ _ Htm) as Hh.
  pose proof (todo_le_sum _ _ _ _ _ _ Hi Hin Ht) as Hle. unfold todo in Hle at 1 2. rewrite Hnext in Hle.
  unfold current, phase_at in Hph. rewrite (work_drop _ _ _ _ Hph) in Hle. cbn in Hle.
  pose proof (work_nonneg _ Hv any_kind (S (ts_phase t))). unfold i64. rewrite Z.mod_small by lia. lia.
Qed.

(** ** The hand *)

(** A change to the task in the hand. *)
Lemma in_hand_update n s i f t hand s' :
  inv n s ((i, InHand) :: hand) -> sm_states s !! i = Some t ->
  tokens s' = tokens s -> sm_states s' = alter f i (sm_states s) ->
  sm_config s' = sm_config s -> sm_now s' = sm_now s -> sm_result s' = sm_result s ->
  ts_task (f t) = ts_task t -> ts_phase (f t) = ts_phase t -> place_ok (LiveIO config) InHand (f t) ->
  sm_running s' = (sm_running s + slot InHand (f t) - slot InHand t)%Z ->
  sm_resident s' = (sm_resident s + residency InHand (f t) - residency InHand t)%Z ->
  sm_tools s' = sm_tools s -> limits_ok config s' -> inv n s' ((i, InHand) :: hand).
Proof.
  intros Hi Ht Htok Hst Hc Hn Hres Htask Hphase Hok Hr Hre Hto Hlim.
  eapply (relocate tasks config n n i InHand InHand t (f t) s s' _ _ (tokens s ++ hand)); [| done | done | |].
  - split; try done.
    + apply from_hand.
    + rewrite Htok. apply from_hand.
    + by rewrite Hst, (alter_insert f i _ t).
    + rewrite Hto. cbn. lia.
  - unfold ahead. rewrite Htask, Hphase. lia.
  - intros _ _. unfold same_course, left_over, todo. cbn. rewrite Htask, Hphase. lia.
Qed.

(** From the hand to a queue. *)
Lemma hand_to_queue n s i p t t' hand s' :
  inv n s ((i, InHand) :: hand) -> sm_states s !! i = Some t ->
  p = AtReady \/ p = AtAdmission \/ p = AtTool ->
  tokens s' ≡ₚ (i, p) :: tokens s -> sm_states s' = <[i := t']> (sm_states s) ->
  sm_config s' = sm_config s -> sm_now s' = sm_now s -> sm_result s' = sm_result s ->
  ts_task t' = ts_task t -> ts_phase t' = ts_phase t -> ts_admitted t' = ts_admitted t ->
  ts_holdsRunning t' = ts_holdsRunning t -> place_ok (LiveIO config) p t' ->
  sm_running s' = sm_running s -> sm_resident s' = sm_resident s -> sm_tools s' = sm_tools s ->
  inv n s' hand.
Proof.
  intros Hi Ht Hp Htok Hst Hc Hn Hres Htask Hphase Hadm Hholds Hok Hr Hre Hto.
  eapply (relocate tasks config n n i InHand p t t' s s' _ _ (tokens s ++ hand)); [| done | | |].
  - split; try done.
    + apply from_hand.
    + by rewrite Htok.
    + unfold slot. rewrite Hholds. lia.
    + unfold residency. rewrite Hadm. lia.
    + rewrite Hto. unfold tool_slot. by destruct Hp as [-> | [-> | ->]]; cbn; lia.
  - pose proof (iv_limits _ _ _ _ _ Hi) as Hl. unfold limits_ok in *. by rewrite Hr, Hre, Hto.
  - unfold ahead. rewrite Htask, Hphase. destruct Hp as [-> | [-> | ->]]; cbn; lia.
  - intros _ _. unfold same_course, left_over, todo. destruct Hp as [-> | [-> | ->]]; cbn; rewrite Htask, Hphase; lia.
Qed.

Lemma on_task_states i f s t : sm_states s !! i = Some t -> sm_states (on_task i f s) = <[i := f t]> (sm_states s).
Proof. intros Ht. cbn. exact (alter_insert _ _ _ _ Ht). Qed.

Lemma enqueueAdmission_inv n s i b t hand :
  inv n s ((i, InHand) :: hand) -> sm_states s !! i = Some t -> place_ok (LiveIO config) AtAdmission t ->
  inv n (enqueueAdmission i b s) hand.
Proof.
  intros Hi Ht Hok. eapply (hand_to_queue n s i AtAdmission t (with_readySeq (nextSeq s) (with_continuation b t))); try done; [by right; left | |].
  - unfold enqueueAdmission. rewrite tokens_admission. done.
  - unfold enqueueAdmission. cbn. exact (alter_insert _ _ _ _ Ht).
Qed.

Lemma enqueueReady_inv n s i b t hand :
  inv n s ((i, InHand) :: hand) -> sm_states s !! i = Some t -> place_ok (LiveIO config) AtReady t ->
  inv n (enqueueReady i b s) hand.
Proof.
  intros Hi Ht Hok. eapply (hand_to_queue n s i AtReady t (with_readySeq (nextSeq s) (with_continuation b t))); try done; [by left | |].
  - unfold enqueueReady. rewrite tokens_ready. done.
  - unfold enqueueReady. cbn. exact (alter_insert _ _ _ _ Ht).
Qed.

Lemma enqueueTool_inv n s i t hand :
  inv n s ((i, InHand) :: hand) -> sm_states s !! i = Some t -> flags true (negb (LiveIO config)) false t ->
  at_kind PhaseExternalIO t -> inv n (enqueueTool i s) hand.
Proof.
  intros Hi Ht (Hadm & Hh & _) Hkind. destruct (in_hand _ _ _ _ Hi) as (t0 & Ht0 & Hok). cbn in Ht0. simplify_eq.
  destruct Hok as (Hcomp & Hrej & _).
  eapply (hand_to_queue n s i AtTool t (with_slots (ts_holdsRunning t) true t)); try done; [by right; right | |].
  - unfold enqueueTool. rewrite tokens_tool. done.
  - unfold enqueueTool. cbn. exact (alter_insert _ _ _ _ Ht).
Qed.
(** Behind an event: the hand or the tool queue gives the task up to a phase
    that ends later. *)
Lemma push_event n s0 s i p kind t t' ph rest hand hand' :
  inv n s0 hand -> sm_states s0 !! i = Some t -> current t = Some ph ->
  tokens s0 ++ hand ≡ₚ (i, p) :: rest -> tokens s ++ hand' ≡ₚ rest ->
  sm_states s = <[i := t']> (sm_states s0) ->
  sm_config s = sm_config s0 -> sm_now s = sm_now s0 -> sm_result s = sm_result s0 ->
  ts_task t' = ts_task t -> ts_phase t' = ts_phase t ->
  p = InHand \/ p = AtTool -> kind <> eventArrival ->
  (forall e, ev_kind e = kind -> ev_phase e = ts_phase t -> place_ok (LiveIO config) (AtEvent e) t') ->
  (kind = eventCPUDone <-> ph_Kind ph = CPU) -> (kind = eventIODone <-> ph_Kind ph = PhaseExternalIO) ->
  sm_running s = (sm_running s0 + b2z (ts_holdsRunning t') - b2z (ts_holdsRunning t))%Z ->
  sm_resident s = (sm_resident s0 + b2z (ts_admitted t') - b2z (ts_admitted t))%Z ->
  sm_tools s = (sm_tools s0 + (if decide (kind = eventIODone) then 1 else 0))%Z ->
  limits_ok config s ->
  inv n (pushEvent (i64 (sm_now s + ph_Duration ph)) kind i s) hand'.
Proof.
  intros Hi Ht Hph Hfrom Hto Hst Hc Hn Hres Htask Hphase Hp Hkind Hok Hcpu Hio Hr Hre Hto' Hlim.
  assert (i < length (sm_states s0))%nat as Hlt by (by eapply lookup_lt_Some).
  unfold pushEvent. rewrite Hst, list_lookup_insert_eq by done. set (e := mkEvent _ _ kind i _).
  assert (next_phase (AtEvent e) t' = S (ts_phase t)) as Hnext.
  { unfold next_phase. cbn. rewrite Hphase. by destruct kind. }
  assert (ts_phase t = next_phase p t) as Hnp by (by destruct Hp as [-> | ->]).
  assert (forall f, is_event f (AtEvent e) = bool_decide (kind = f)) as Hev by (intros []; cbn; by destruct kind).
  assert (forall f, is_event f p = false) as Hevp by (intros []; by destruct Hp as [-> | ->]).
  eapply (relocate tasks config n n i p (AtEvent e) t t' s0 _ hand hand' rest); [| done | done | |].
  - split; try done.
    + rewrite tokens_event. unfold event_token. cbn [app]. by rewrite Hto.
    + by apply Hok.
    + unfold tool_slot, b2z. rewrite Hev, Hevp. cbn [sm_tools set_events]. rewrite Hto'. case_decide; case_bool_decide; try done; cbn; lia.
  - unfold ahead. rewrite Htask, Hphase, Hev, Hevp. rewrite bool_decide_eq_false_2 by done. lia.
  - intros Hf Htm. destruct (end_of_phase n s0 hand i p t ph Hi Hf Htm) as [Hend Hpos]; try done.
    { rewrite Hfrom. by left. }
    assert (forall kinds, todo kinds p t
      = ((if kinds (ph_Kind ph) then ph_Duration ph else 0) + todo kinds (AtEvent e) t')%Z) as Htodo.
    { intros kinds. unfold todo. rewrite Hnext, Htask, <- Hnp. by apply work_drop. }
    assert (due (sm_now s0) p = sm_now s0) as Hdue by (by destruct Hp as [-> | ->]).
    assert (due (sm_now s0) (AtEvent e) = (sm_now s0 + ph_Duration ph)%Z) as Hdue' by (cbn; by rewrite Hn, Hend).
    unfold same_course, left_over. rewrite Hdue', Hdue, !Hev, !Hevp, !Htodo. cbn [any_kind]. unfold of_kind.
    repeat split; try lia.
    + rewrite (bool_decide_ext _ _ Hio). case_bool_decide; lia.
    + intros _. rewrite (bool_decide_ext _ _ Hcpu). case_bool_decide; lia.
Qed.

Lemma complete_inv n s i t hand :
  inv n s ((i, InHand) :: hand) -> sm_states s !! i = Some t -> ts_holdsRunning t = false -> current t = None ->
  inv n (complete i s) hand.
Proof.
  intros Hi Ht Hh Hend. pose proof (lookup_lt_Some _ _ _ Ht) as Hlt.
  remember (complete i s) as s' eqn:Hs'. unfold complete, releaseResident in Hs'.
  rewrite Ht, (on_task_states _ _ _ _ Ht), list_lookup_insert_eq in Hs' by done. cbn [ts_admitted with_end] in Hs'.
  eapply (retire tasks config Hids n n i InHand t (mkTaskResult (sm_now s) (i64 (sm_now s - tk_Arrival (ts_task t))) false)
            s s' _ hand (tokens s ++ hand)); [| done | | |].
  - split; rewrite ?Hs'; destruct (ts_admitted t) eqn:Hadm; try done; cbn;
      unfold slot, residency, tool_slot; rewrite ?Hh, ?Hadm; cbn; try lia.
    all: try (apply from_hand). all: try (by intros P).
    all: rewrite (alter_insert _ i _ t Ht).
    { rewrite (alter_insert (with_admitted false) i _ (with_end true (ts_rejected t) t)), list_insert_insert_eq;
        [by eexists | by apply list_lookup_insert_eq]. }
    by eexists.
  - unfold slot. by rewrite Hh.
  - destruct (in_hand _ _ _ _ Hi) as (t0 & Ht0 & _ & _ & _ & _ & Hle). cbn in Ht0, Hle. simplify_eq.
    unfold ahead. cbn. lia.
  - intros [Hq Hfit] Htm. assert ((i, InHand) ∈ tokens s ++ (i, InHand) :: hand) as Hin by (rewrite from_hand; by left).
    pose proof (todo_le_sum _ _ _ _ _ _ Hi Hin Ht) as Hle. pose proof (tm_now _ _ _ _ Htm) as Hnow.
    pose proof (tm_horizon_now _ _ _ _ Htm) as Hhor. pose proof (tm_start _ _ _ _ Htm i InHand t Hin Ht) as Hs.
    assert (forall kinds, todo kinds InHand t = 0%Z) as Hz by (intros kinds; by apply work_end).
    rewrite Hz in *. cbn [due] in Hs. pose proof (vt_arrival _ (valid_state _ _ _ _ _ Hi Ht)) as Harr.
    pose proof (work_nonneg _ (valid_state _ _ _ _ _ Hi Ht) any_kind 0) as Hw. rewrite drop_0 in Hw.
    pose proof (tm_makespan _ _ _ _ Htm) as Hms. split; [| split; [| split; [done |]]].
    + unfold spent, left_over. rewrite !Hz. done.
    + rewrite Hs'. cbn. destruct (ts_admitted t); cbn; lia.
    + cbn [tr_Latency]. unfold i64. rewrite Z.mod_small by lia. lia.
Qed.

(** ** The operations *)

Lemma enter_wait n s i t ph hand :
  inv n s ((i, InHand) :: hand) -> sm_states s !! i = Some t -> flags true false false t ->
  current t = Some ph -> ph_Kind ph = DurableWait ->
  inv n (pushEvent (i64 (sm_now s + ph_Duration ph)) eventWaitDone i (releaseResident i s)) hand.
Proof.
  intros Hi Ht (Hadm & Hh & Htool) Hph Hk. pose proof (iv_limits _ _ _ _ _ Hi) as Hl.
  destruct (in_hand _ _ _ _ Hi) as (t0 & Ht0 & Hcomp & Hrej & _). cbn in Ht0. simplify_eq.
  remember (releaseResident i s) as s1 eqn:Hs1. unfold releaseResident in Hs1. rewrite Ht, Hadm in Hs1.
  assert (sm_now s = sm_now s1) as -> by (by rewrite Hs1).
  eapply (push_event n s s1 i InHand eventWaitDone t (with_admitted false t) ph (tokens s ++ hand)); try done.
  all: rewrite ?Hs1; try done; cbn; rewrite ?Hadm; cbn; try lia.
  - apply from_hand.
  - exact (alter_insert _ _ _ _ Ht).
  - by left.
  - intros e He Hep. unfold place_ok. rewrite He. repeat (split; [done |]).
    change (at_kind DurableWait t). unfold at_kind. rewrite Hph. cbn. by rewrite Hk.
  - rewrite Hk. by split.
  - rewrite Hk. by split.
  - rewrite decide_False by done. lia.
  - unfold limits_ok in *. cbn. lia.
Qed.

Lemma advance_inv n s i t hand :
  inv n s ((i, InHand) :: hand) -> sm_states s !! i = Some t -> ts_holdsRunning t = false ->
  (ts_admitted t = false -> current t = None \/ at_kind CPU t) -> inv n (advance i s) hand.
Proof.
  intros Hi Ht Hh Hadm. pose proof (valid_state _ _ _ _ _ Hi Ht) as Hv.
  destruct (in_hand _ _ _ _ Hi) as (t0 & Ht0 & Hcomp & Hrej & Htool & _). cbn in Ht0. simplify_eq.
  unfold advance. rewrite Ht. destruct (current t) as [ph |] eqn:Hph; [| by eapply complete_inv].
  destruct (vt_phase _ Hv _ _ Hph) as [_ Hkind].
  assert (forall k, ph_Kind ph = k -> at_kind k t) as Hat.
  { intros k Hk. unfold at_kind. rewrite Hph. cbn. by apply bool_decide_eq_true. }
  destruct (ts_admitted t) eqn:Ha; cbn [negb].
  2:{ eapply enqueueAdmission_inv; [done | done |]. repeat (split; [done |]).
      by destruct (Hadm eq_refl). }
  case_bool_decide as Hcpu; [| case_bool_decide as Hio; [| case_bool_decide as Hdw; [| by destruct Hkind as [? | [? | ?]]]]].
  - eapply enqueueReady_inv; [done | done |]. repeat (split; [done |]). left. by apply Hat.
  - assert (inv n (on_task i (with_continuation true) s) ((i, InHand) :: hand)) as Hi'.
    { eapply (in_hand_update n s i (with_continuation true) t); try done; unfold slot, residency; cbn; try lia.
      - destruct (in_hand _ _ _ _ Hi) as (t0 & Ht0 & Hok). cbn in Ht0. by simplify_eq.
      - apply (iv_limits _ _ _ _ _ Hi). }
    pose proof (on_task_states i (with_continuation true) s t Ht) as Hst.
    assert (sm_states (on_task i (with_continuation true) s) !! i = Some (with_continuation true t)) as Ht'.
    { rewrite Hst. apply list_lookup_insert_eq. by eapply lookup_lt_Some. }
    rewrite (iv_config _ _ _ _ _ Hi'). destruct (LiveIO config) eqn:Hlive.
    + eapply enqueueTool_inv; [done | done | by rewrite Hlive | by apply Hat].
    + eapply enqueueReady_inv; [done | done |]. repeat (split; [done |]). right. split; [done |]. by apply Hat.
  - assert (sm_now (releaseResident i s) = sm_now s) as ->.
    { unfold releaseResident. rewrite Ht. by rewrite Ha. }
    by eapply enter_wait.
Qed.

Lemma leave_running_inv n s i t hand :
  inv n s ((i, InHand) :: hand) -> sm_states s !! i = Some t -> ts_holdsRunning t = true ->
  inv n (leave_running i s) hand.
Proof.
  intros Hi Ht Hh. pose proof (lookup_lt_Some _ _ _ Ht) as Hlt. pose proof (iv_limits _ _ _ _ _ Hi) as Hl.
  destruct (in_hand _ _ _ _ Hi) as (t0 & Ht0 & Hcomp & Hrej & Htool & Hadm & Hle). cbn in Ht0. simplify_eq.
  specialize (Hadm Hh). unfold leave_running. set (f := fun t => with_slots false (ts_inToolQueue t) t).
  eapply (advance_inv _ _ _ (f t)).
  - eapply (in_hand_update n s i f t); try done; unfold slot, residency; cbn; rewrite ?Hh; cbn; try lia.
    unfold limits_ok in *. cbn. lia.
  - cbn. rewrite (alter_insert f i _ t Ht). by apply list_lookup_insert_eq.
  - done.
  - cbn. congruence.
Qed.

(** ** Events *)

(** The event in the hand has come: its task is in the hand, one phase further. *)
Lemma take_event n s i e t f s' hand :
  inv n s ((i, AtEvent e) :: hand) -> sm_states s !! i = Some t ->
  (fits -> ev_at e = sm_now s) ->
  tokens s' = tokens s -> sm_states s' = alter f i (sm_states s) ->
  sm_config s' = sm_config s -> sm_now s' = sm_now s -> sm_result s' = sm_result s ->
  ts_task (f t) = ts_task t -> ts_phase (f t) = next_phase (AtEvent e) t ->
  ts_admitted (f t) = ts_admitted t -> ts_holdsRunning (f t) = ts_holdsRunning t ->
  place_ok (LiveIO config) InHand (f t) ->
  sm_running s' = sm_running s -> sm_resident s' = sm_resident s ->
  sm_tools s' = (sm_tools s - tool_slot (AtEvent e) t)%Z ->
  inv (n - 1) s' ((i, InHand) :: hand).
Proof.
  intros Hi Ht Hat Htok Hst Hc Hn Hres Htask Hphase Hadm Hholds Hok Hr Hre Hto.
  pose proof (iv_limits _ _ _ _ _ Hi) as Hl.
  eapply (relocate tasks config n _ i (AtEvent e) InHand t (f t) s s' _ _ (tokens s ++ hand)); [| done | | |].
  - split; try done.
    + apply from_hand.
    + rewrite Htok. apply from_hand.
    + by rewrite Hst, (alter_insert f i _ t).
    + unfold slot. rewrite Hholds. lia.
    + unfold residency. rewrite Hadm. lia.
    + rewrite Hto. unfold tool_slot. cbn. lia.
  - unfold limits_ok in *. rewrite Hr, Hre, Hto. unfold tool_slot, b2z. case_match; lia.
  - unfold ahead. rewrite Htask, Hphase. unfold next_phase. cbn. destruct (ev_kind e); cbn; lia.
  - intros Hf _. unfold same_course, left_over, todo. cbn [due is_event]. rewrite (Hat Hf), Htask.
    change (next_phase InHand (f t)) with (ts_phase (f t)). rewrite Hphase. cbn [next_phase].
    destruct (ev_kind e); repeat split; lia.
Qed.

Lemma next_bound t : is_Some (current t) -> (S (ts_phase t) <= length (tk_Phases (ts_task t)))%nat.
Proof. intros Hc. apply lookup_lt_is_Some in Hc. lia. Qed.

Lemma at_kind_some k t : at_kind k t -> is_Some (current t).
Proof. unfold at_kind, is_kind. destruct (current t); [by eexists | done]. Qed.

Lemma cpu_done_inv n s i e t hand :
  inv n s ((i, AtEvent e) :: hand) -> sm_states s !! i = Some t -> (fits -> ev_at e = sm_now s) ->
  ev_kind e = eventCPUDone -> inv (n - 1) (cpu_done i t s) hand.
Proof.
  intros Hi Ht Hat He. pose proof (lookup_lt_Some _ _ _ Ht) as Hlt.
  destruct (in_hand _ _ _ _ Hi) as (t0 & Ht0 & Hok). cbn in Ht0. simplify_eq. unfold place_ok in Hok. cbn [snd] in Hok.
  rewrite He in Hok. destruct Hok as (Hcomp & Hrej & Hep & (Hadm & Hh & Htool) & Hk).
  pose proof (next_bound _ (at_kind_some _ _ Hk)) as Hle. set (f := with_phase (S (ts_phase t))).
  assert (inv (n - 1) (on_task i f s) ((i, InHand) :: hand)) as Hi'.
  { eapply (take_event n s i e t f); try done; unfold tool_slot, next_phase; cbn; rewrite ?He; try done; cbn; lia. }
  assert (sm_states (on_task i f s) !! i = Some (f t)) as Ht'.
  { rewrite (on_task_states _ _ _ _ Ht). by apply list_lookup_insert_eq. }
  unfold cpu_done. fold f. rewrite (iv_config _ _ _ _ _ Hi'). destruct (_ && _) eqn:Hio; [| by eapply leave_running_inv].
  apply andb_true_iff in Hio as [Hio Hlive]. eapply enqueueTool_inv; [done | done | by rewrite Hlive | exact Hio].
Qed.

Lemma start_cpu n s i t ph hand :
  inv n s ((i, InHand) :: hand) -> sm_states s !! i = Some t -> flags true true false t ->
  current t = Some ph -> ph_Kind ph = CPU ->
  inv n (pushEvent (i64 (sm_now s + ph_Duration ph)) eventCPUDone i s) hand.
Proof.
  intros Hi Ht Hflags Hph Hk. destruct (in_hand _ _ _ _ Hi) as (t0 & Ht0 & Hcomp & Hrej & _). cbn in Ht0. simplify_eq.
  eapply (push_event n s s i InHand eventCPUDone t t ph (tokens s ++ hand)); try done; try lia.
  - apply from_hand.
  - by rewrite list_insert_id.
  - by left.
  - intros e He Hep. unfold place_ok. rewrite He. repeat (split; [done |]). unfold at_kind. rewrite Hph. cbn. by rewrite Hk.
  - rewrite Hk. by split.
  - rewrite decide_False by done. lia.
  - apply (iv_limits _ _ _ _ _ Hi).
Qed.

Lemma is_kind_duration k p : is_kind k p = true -> exists ph, p = Some ph /\ ph_Kind ph = k /\ duration_of p = ph_Duration ph.
Proof. destruct p as [ph |]; [| done]. intros Hk%bool_decide_eq_true. by exists ph. Qed.

Lemma io_done_inv n s i e t hand :
  inv n s ((i, AtEvent e) :: hand) -> sm_states s !! i = Some t -> (fits -> ev_at e = sm_now s) ->
  ev_kind e = eventIODone -> inv (n - 1) (io_done i t s) hand.
Proof.
  intros Hi Ht Hat He. pose proof (lookup_lt_Some _ _ _ Ht) as Hlt.
  destruct (in_hand _ _ _ _ Hi) as (t0 & Ht0 & Hok). cbn in Ht0. simplify_eq. unfold place_ok in Hok. cbn [snd] in Hok.
  rewrite He in Hok. destruct Hok as (Hcomp & Hrej & Hep & (Hadm & Hh & Htool) & Hk).
  pose proof (next_bound _ (at_kind_some _ _ Hk)) as Hle.
  unfold io_done. set (f := fun u => with_phase (S (ts_phase u)) (with_slots (ts_holdsRunning u) false u)).
  set (s1 := on_task i f _). assert (inv (n - 1) s1 ((i, InHand) :: hand)) as Hi'.
  { eapply (take_event n s i e t f); try done; unfold tool_slot, next_phase; cbn; rewrite ?He; done. }
  assert (sm_states s1 !! i = Some (f t)) as Ht'.
  { unfold s1. cbn. rewrite (alter_insert f i _ t Ht). by apply list_lookup_insert_eq. }
  destruct (ts_holdsRunning t) eqn:Hholds.
  - destruct (is_kind CPU _) eqn:Hcpu; [| by eapply leave_running_inv].
    destruct (is_kind_duration _ _ Hcpu) as (ph & Hph & Hkind & ->).
    eapply (start_cpu _ s1); [done | done | done | exact Hph | done].
  - eapply advance_inv; [done | done | done |]. intros Ha. cbn in Ha. congruence.
Qed.

Lemma wait_done_inv n s i e t hand :
  inv n s ((i, AtEvent e) :: hand) -> sm_states s !! i = Some t -> (fits -> ev_at e = sm_now s) ->
  ev_kind e = eventWaitDone -> inv (n - 1) (advance i (on_task i (with_phase (S (ts_phase t))) s)) hand.
Proof.
  intros Hi Ht Hat He. pose proof (lookup_lt_Some _ _ _ Ht) as Hlt. pose proof (valid_state _ _ _ _ _ Hi Ht) as Hv.
  destruct (in_hand _ _ _ _ Hi) as (t0 & Ht0 & Hok). cbn in Ht0. simplify_eq. unfold place_ok in Hok. cbn [snd] in Hok.
  rewrite He in Hok. destruct Hok as (Hcomp & Hrej & Hep & (Hadm & Hh & Htool) & Hk).
  pose proof (next_bound _ (at_kind_some _ _ Hk)) as Hle. set (f := with_phase (S (ts_phase t))).
  assert (inv (n - 1) (on_task i f s) ((i, InHand) :: hand)) as Hi'.
  { eapply (take_event n s i e t f); try done; unfold tool_slot, next_phase; cbn; rewrite ?He; try done; try (cbn; lia).
    unfold place_ok. cbn. rewrite Hh. repeat (split; [done |]). done. }
  assert (sm_states (on_task i f s) !! i = Some (f t)) as Ht'.
  { rewrite (on_task_states _ _ _ _ Ht). by apply list_lookup_insert_eq. }
  eapply advance_inv; [done | done | done |]. intros _. change (current (f t)) with (phase_at t (S (ts_phase t))).
  unfold at_kind. change (current (f t)) with (phase_at t (S (ts_phase t))).
  destruct (phase_at t (S (ts_phase t))) as [q |] eqn:Hq; [right | by left].
  unfold at_kind in Hk. destruct (is_kind_duration _ _ Hk) as (p & Hp & Hpk & _).
  cbn. by rewrite (vt_wait _ Hv _ _ _ Hp Hq Hpk).
Qed.

(** No event is ever stale. *)
Lemma handle_ok n s e hand :
  inv n s (event_token e :: hand) -> (fits -> ev_at e = sm_now s) ->
  exists s', handle e s = Ok s' /\ inv (n - 1) s' hand.
Proof.
  intros Hi Hat. unfold event_token in Hi. destruct (in_hand _ _ _ _ Hi) as (t & Ht & Hok). cbn [fst snd] in Ht, Hok.
  unfold handle. rewrite Ht. unfold place_ok in Hok. destruct Hok as (Hcomp & Hrej & Hep & Hok).
  rewrite Hcomp, Hrej, Hep, Nat.eqb_refl. cbn [orb negb]. destruct (ev_kind e) eqn:He.
  - destruct Hok as (Hflags & Hphase & Hk). eexists. split; [done |].
    assert (inv (n - 1) s ((ev_task e, InHand) :: hand)) as Hi'.
    { eapply (take_event n s (ev_task e) e t id); try done.
      - symmetry. rewrite (alter_insert id _ _ t Ht). by apply list_insert_id.
      - unfold next_phase. by rewrite He.
      - split; [done |]. split; [done |]. destruct Hflags as (Ha & Hh & Htool). unfold id. rewrite Ha, Hh, Htool, Hphase.
        repeat (split; [done |]). lia.
      - unfold tool_slot. cbn. rewrite He. cbn. lia. }
    eapply enqueueAdmission_inv; [done | done |]. by split.
  - destruct Hok as ((Hadm & Hh & Htool) & Hk). rewrite Hh. eexists. split; [done |]. by eapply cpu_done_inv.
  - destruct Hok as ((Hadm & Hh & Htool) & Hk). rewrite Htool. eexists. split; [done |]. by eapply io_done_inv.
  - destruct Hok as ((Hadm & Hh & Htool) & Hk). rewrite Hadm. eexists. split; [done |]. by eapply wait_done_inv.
Qed.

(** ** A batch of events *)

Lemma pushEvent_now a k i s : sm_now (pushEvent a k i s) = sm_now s.
Proof. unfold pushEvent. by case_match. Qed.

Lemma releaseResident_now i s : sm_now (releaseResident i s) = sm_now s.
Proof. unfold releaseResident. by repeat case_match. Qed.

Lemma advance_now i s : sm_now (advance i s) = sm_now s.
Proof.
  unfold advance, complete. repeat case_match; try done; cbn; by rewrite ?pushEvent_now, releaseResident_now.
Qed.

Lemma handle_now e s s' : handle e s = Ok s' -> sm_now s' = sm_now s.
Proof.
  unfold handle, cpu_done, io_done, leave_running.
  repeat case_match; intros Hh; simplify_eq; try done; by rewrite ?advance_now, ?pushEvent_now.
Qed.

Lemma handle_batch_ok n s batch hand :
  inv n s (map event_token batch ++ hand) -> (fits -> Forall (fun e => ev_at e = sm_now s) batch) ->
  exists s', handle_batch batch s = Ok s' /\ inv (n - Z.of_nat (length batch)) s' hand.
Proof.
  revert n s. induction batch as [| e batch IH]; intros n s Hi Hat.
  { exists s. split; [done |]. eapply inv_weaken; [| exact Hi]. cbn. lia. }
  destruct (handle_ok n s e (map event_token batch ++ hand) Hi) as (s1 & Hs1 & Hi1).
  { intros Hf. by destruct (list.Forall_cons_1 _ _ _ (Hat Hf)). }
  destruct (IH (n - 1)%Z s1 Hi1) as (s' & Hs' & Hi').
  { intros Hf. rewrite (handle_now _ _ _ Hs1). by destruct (list.Forall_cons_1 _ _ _ (Hat Hf)). }
  exists s'. cbn [handle_batch]. rewrite Hs1. cbn. split; [done |]. eapply inv_weaken; [| exact Hi']. cbn [length]. lia.
Qed.

(** ** Starting tools *)

Lemma pushEvent_peaks a k i s : pushEvent a k i (updatePeaks s) = updatePeaks (pushEvent a k i s).
Proof. unfold pushEvent. cbn. by case_match. Qed.

Lemma start_tool_ok n s i rest :
  inv n s [] -> sm_toolQueue s = i :: rest -> (sm_tools s < MaxInflightTools config)%Z ->
  let s1 := updatePeaks (set_counters (sm_running s) (sm_resident s) (sm_tools s + 1)
              (set_queues (sm_ready s) (sm_admission s) rest s)) in
  let duration := match sm_states s1 !! i with Some t => duration_of (current t) | None => 0%Z end in
  inv n (pushEvent (i64 (sm_now s1 + duration)) eventIODone i s1) [].
Proof.
  intros Hi Hq Hlt s1 duration. pose proof (iv_limits _ _ _ _ _ Hi) as Hl.
  set (others := map (fun i => (i, AtReady)) (sm_ready s) ++ map (fun i => (i, AtAdmission)) (sm_admission s)
                 ++ map (fun i => (i, AtTool)) rest ++ map event_token (sm_events s)).
  assert (tokens s ++ [] ≡ₚ (i, AtTool) :: others) as Hfrom.
  { unfold tokens, others. rewrite Hq, app_nil_r. cbn. by rewrite <- !Permutation_middle. }
  destruct (in_place n s [] i AtTool Hi) as (t & Ht & Hcomp & Hrej & Hflags & Hk); [rewrite Hfrom; by left |].
  destruct (is_kind_duration _ _ Hk) as (ph & Hph & Hkind & Hd). unfold duration, s1. rewrite pushEvent_peaks.
  apply updatePeaks_inv. cbn. rewrite Ht, Hd. set (s2 := set_counters _ _ _ _).
  eapply (push_event n s s2 i AtTool eventIODone t t ph others [] []); try done.
  - cbn. by rewrite app_nil_r.
  - cbn. by rewrite list_insert_id.
  - by right.
  - intros e He Hep. unfold place_ok. rewrite He. by repeat (split; [done |]).
  - rewrite Hkind. by split.
  - cbn. lia.
  - cbn. lia.
  - unfold limits_ok in *. cbn. lia.
Qed.

Lemma start_tools_ok n q s :
  inv n s [] -> sm_toolQueue s = q ->
  let s' := start_tools q s in
  inv n s' [] /\ sm_ready s' = sm_ready s /\ sm_admission s' = sm_admission s
  /\ (sm_toolQueue s' = [] \/ MaxInflightTools config <= sm_tools s')%Z
  /\ (if (sm_tools s <? MaxInflightTools config)%Z && negb (length q =? 0)%nat
      then (length (sm_toolQueue s') < length q)%nat else s' = s).
Proof.
  revert s. induction q as [| i rest IH]; intros s Hi Hq; cbn zeta.
  { cbn [start_tools length]. rewrite andb_false_r. split_and!; auto. }
  cbn [start_tools]. rewrite (iv_config _ _ _ _ _ Hi). destruct (Z.ltb_spec (sm_tools s) (MaxInflightTools config)) as [Hlt | Hge].
  2:{ cbn [andb]. split_and!; auto. }
  pose proof (start_tool_ok n s i rest Hi Hq Hlt) as Hi1. cbn zeta in Hi1. set (s1 := pushEvent _ _ _ _) in *.
  assert (sm_toolQueue s1 = rest /\ sm_ready s1 = sm_ready s /\ sm_admission s1 = sm_admission s) as (Hq1 & Hr1 & Ha1).
  { unfold s1, pushEvent. by case_match. }
  destruct (IH s1 Hi1 Hq1) as (Hi' & Hr & Ha & Hstuck & Hlen). cbn [andb negb length Nat.eqb].
  split_and!; [done | by rewrite Hr | by rewrite Ha | done |].
  destruct (_ && _); [lia |]. rewrite Hlen, Hq1. lia.
Qed.

(** ** Choosing a task *)

Lemma fold_choice {A} (f : A -> A -> bool) first rest :
  foldl (fun best c => if f c best then c else best) first rest ∈ first :: rest.
Proof.
  revert first. induction rest as [| c rest IH]; intros first; cbn [foldl]; [by left |].
  specialize (IH (if f c first then c else first)). apply elem_of_cons in IH as [IH | IH].
  - rewrite IH. destruct (f c first); [right; left | left].
  - right. by right.
Qed.

Lemma chooseRunnable_spec s :
  match chooseRunnable s with
  | (None, s') => candidates s = [] /\ s' = s
  | (Some (i, true), s') => i ∈ sm_admission s /\ (sm_resident s < MaxResident (sm_config s))%Z
      /\ s' = set_queues (sm_ready s) (removeState (sm_admission s) i) (sm_toolQueue s) s
  | (Some (i, false), s') => i ∈ sm_ready s
      /\ s' = set_queues (removeState (sm_ready s) i) (sm_admission s) (sm_toolQueue s) s
  end.
Proof.
  unfold chooseRunnable. destruct (candidates s) as [| first rest] eqn:Hc; [done |].
  pose proof (fold_choice (prefer_candidate s) first rest) as Hin. set (chosen := foldl _ _ _) in *.
  rewrite <- Hc in Hin. unfold candidates in Hin. destruct chosen as [i b]. apply elem_of_app in Hin as [Hin | Hin].
  - apply list_elem_of_fmap in Hin as (j & [= -> ->] & Hj). done.
  - destruct (Z.ltb_spec (sm_resident s) (MaxResident (sm_config s))); [| by apply elem_of_nil in Hin].
    apply list_elem_of_fmap in Hin as (j & [= -> ->] & Hj). done.
Qed.

Lemma take_token n s s' i p :
  inv n s [] -> p = AtReady \/ p = AtAdmission -> tokens s ++ [] ≡ₚ (i, p) :: tokens s' ->
  sm_states s' = sm_states s -> sm_config s' = sm_config s -> sm_now s' = sm_now s -> sm_result s' = sm_result s ->
  sm_running s' = sm_running s -> sm_resident s' = sm_resident s -> sm_tools s' = sm_tools s ->
  exists t, sm_states s' !! i = Some t /\ place_ok (LiveIO config) p t /\ inv n s' [(i, InHand)].
Proof.
  intros Hi Hp Htok Hst Hc Hn Hres Hr Hre Hto. pose proof (iv_limits _ _ _ _ _ Hi) as Hl.
  destruct (in_place n s [] i p Hi) as (t & Ht & Hok); [rewrite Htok; by left |]. exists t.
  rewrite Hst. split; [done |]. split; [done |].
  eapply (relocate tasks config n n i p InHand t t s s' _ _ (tokens s')); [| done | | |].
  - split; try done.
    + by rewrite from_hand, app_nil_r.
    + by rewrite Hst, list_insert_id.
    + destruct Hok as (Hcomp & Hrej & Hok). repeat (split; [done |]).
      destruct Hp as [-> | ->].
      * destruct Hok as ((Hadm & Hh & Htool) & Hk). split; [done |]. split; [done |]. apply Nat.lt_le_incl, next_bound.
        destruct Hk as [Hk | [_ Hk]]; by eapply at_kind_some.
      * destruct Hok as ((Hadm & Hh & Htool) & Hk). split; [done |]. split; [congruence |].
        apply Nat.lt_le_incl, next_bound. by eapply at_kind_some.
    + unfold slot. lia.
    + unfold residency. lia.
    + rewrite Hto. unfold tool_slot. by destruct Hp as [-> | ->]; cbn; lia.
  - unfold limits_ok in *. by rewrite Hr, Hre, Hto.
  - unfold ahead. destruct Hp as [-> | ->]; cbn; lia.
  - intros _ _. unfold same_course, left_over, todo. destruct Hp as [-> | ->]; cbn; lia.
Qed.
End Operations.
