(* ===== verification/SimProps.v ===== *)
(** * SimProps: what the scheduling simulator promises

    The loops over the operations of [SimOps] end; so a validated simulation
    ends with every task finished, within its limits, and no work is lost. *)

From S2P Require Import Prelude Errors Sim SimSpec SimOps.

(** ** The event heap *)

Lemma pop_event_spec l :
  match pop_event l with
  | None => l = []
  | Some (e, rest) => l ≡ₚ e :: rest /\ Forall (fun x => ev_at e <= ev_at x)%Z l
  end.
Proof.
  induction l as [| e l IH]; [done |]. cbn [pop_event]. destruct (pop_event l) as [[least others] |].
  - destruct IH as [Hp Hle]. unfold event_less. destruct (Z.eqb_spec (ev_at least) (ev_at e)) as [Heq | Hne]; cbn [negb].
    + assert (forall x, x = least \/ x = e -> Forall (fun y => ev_at x <= ev_at y)%Z (e :: l)) as H.
      { intros x Hx. assert (ev_at x = ev_at least) as Hxl by (by destruct Hx as [-> | ->]). constructor; [lia |].
        eapply list.Forall_impl; [exact Hle |]. cbn. lia. }
      destruct (_ <? _)%N; (split; [| apply H; auto]); [| done]. rewrite Hp. apply perm_swap.
    + destruct (Z.ltb_spec (ev_at least) (ev_at e)).
      * split; [rewrite Hp; apply perm_swap |]. constructor; [lia | done].
      * split; [done |]. constructor; [lia |]. eapply list.Forall_impl; [exact Hle |]. cbn. lia.
  - subst. split; [done |]. constructor; [lia | done].
Qed.

Lemma pop_batch_spec fuel a l :
  let (batch, rest) := pop_batch fuel a l in l ≡ₚ batch ++ rest /\ Forall (fun e => ev_at e = a) batch.
Proof.
  revert l. induction fuel as [| fuel IH]; intros l; cbn [pop_batch]; [by split |].
  pose proof (pop_event_spec l) as Hp. destruct (pop_event l) as [[e rest] |]; [| by rewrite Hp].
  destruct Hp as [Hp _]. destruct (Z.eqb_spec (ev_at e) a); [| by split].
  specialize (IH rest). destruct (pop_batch fuel a rest) as [batch rest']. destruct IH as [Hr Hb].
  split; [by rewrite Hp, Hr | by constructor].
Qed.

(** The batch is not empty. *)
Lemma pop_batch_first l e rest :
  pop_event l = Some (e, rest) -> (1 <= length (fst (pop_batch (length l) (ev_at e) l)))%nat.
Proof.
  intros Hp. destruct l as [| x l]; [done |]. cbn [length pop_batch]. rewrite Hp, Z.eqb_refl.
  destruct (pop_batch _ _ rest). cbn. lia.
Qed.

Section Loops.
Context (tasks : list Task) (config : Config).
Context (Hids : NoDup (map tk_ID tasks)) (Hvalid : Forall valid_task tasks).
Context (Hrun : (1 <= MaxRunning config)%Z) (Hresident : (MaxRunning config <= MaxResident config)%Z)
  (Htools : (1 <= MaxInflightTools config)%Z).

Notation inv := (inv tasks config).
Notation fits := (fits tasks config).
Notation timed := (timed tasks config).

(** ** Draining *)

Lemma admitTask_ok n s i t :
  inv n s [(i, InHand)] -> sm_states s !! i = Some t -> flags false false false t ->
  (sm_resident s < MaxResident config)%Z ->
  inv n (admitTask i s) [(i, InHand)] /\ sm_states (admitTask i s) !! i = Some (with_admitted true t).
Proof.
  intros Hi Ht (Hadm & Hh & Htool) Hlt. pose proof (iv_limits _ _ _ _ _ Hi) as Hl.
  pose proof (on_task_states i (with_admitted true) s t Ht) as Hst. pose proof (lookup_lt_Some _ _ _ Ht) as Hlen.
  destruct (in_hand _ _ _ _ _ _ Hi) as (t0 & Ht0 & Hok). cbn [fst snd] in Ht0, Hok. simplify_eq.
  split; [| unfold admitTask; cbn; rewrite (alter_insert _ _ _ _ Ht); by apply list_lookup_insert_eq].
  apply updatePeaks_inv. eapply (in_hand_update tasks config n s i (with_admitted true) t); try done.
  - destruct Hok as (Hcomp & Hrej & _ & _ & Hle). repeat (split; [done |]). done.
  - unfold slot. cbn. lia.
  - unfold residency. cbn. rewrite Hadm. cbn. lia.
  - unfold limits_ok in *. cbn. lia.
Qed.

Lemma hold_slot_ok n s i t :
  inv n s [(i, InHand)] -> sm_states s !! i = Some t -> flags true false false t ->
  (sm_running s < MaxRunning config)%Z ->
  let f := fun t => with_slots true (ts_inToolQueue t) t in
  let s1 := on_task i f s in
  let s2 := updatePeaks (set_counters (sm_running s1 + 1) (sm_resident s1) (sm_tools s1) s1) in
  inv n s2 [(i, InHand)] /\ sm_states s2 !! i = Some (f t).
Proof.
  intros Hi Ht (Hadm & Hh & Htool) Hlt f s1 s2. pose proof (iv_limits _ _ _ _ _ Hi) as Hl.
  pose proof (lookup_lt_Some _ _ _ Ht) as Hlen.
  destruct (in_hand _ _ _ _ _ _ Hi) as (t0 & Ht0 & Hok). cbn [fst snd] in Ht0, Hok. simplify_eq.
  split; [| unfold s2, s1; cbn; rewrite (alter_insert f i _ t Ht); by apply list_lookup_insert_eq].
  apply updatePeaks_inv. eapply (in_hand_update tasks config n s i f t); try done.
  - destruct Hok as (Hcomp & Hrej & _ & _ & Hle). repeat (split; [done |]). done.
  - unfold slot. cbn. rewrite Hh. cbn. lia.
  - unfold residency. cbn. lia.
  - unfold limits_ok in *. cbn. lia.
Qed.

Lemma start_admitted n s i t :
  inv n s [(i, InHand)] -> sm_states s !! i = Some t -> flags true false false t ->
  at_kind CPU t \/ LiveIO config = false /\ at_kind PhaseExternalIO t ->
  (sm_running s < MaxRunning config)%Z -> inv n (start_task i false s) [].
Proof.
  intros Hi Ht Hflags Hk Hlt. unfold start_task. rewrite Ht.
  destruct (hold_slot_ok n s i t Hi Ht Hflags Hlt) as [Hi2 Ht2]. cbn zeta in *. set (s2 := updatePeaks _) in *.
  destruct Hflags as (Hadm & Hh & Htool). destruct (is_kind CPU (current t)) eqn:Hcpu.
  - destruct (is_kind_duration _ _ Hcpu) as (ph & Hph & Hkind & ->). eapply start_cpu; [done | done | done | by split | exact Hph | done].
  - destruct Hk as [Hk | [Hlive Hk]]; [unfold at_kind in Hk; congruence |].
    eapply enqueueTool_inv; [done | done | | exact Hk]. rewrite Hlive. by split.
Qed.

Lemma start_task_ok n s :
  inv n s [] -> (sm_running s < MaxRunning config)%Z ->
  match chooseRunnable s with
  | (Some (i, b), s') => inv n (start_task i b s') []
  | (None, _) => True
  end.
Proof.
  intros Hi Hlt. pose proof (chooseRunnable_spec s) as Hch. destruct (chooseRunnable s) as [[[i []] |] s']; [| | done].
  - destruct Hch as (Hin & Hres & ->). set (s' := set_queues _ _ _ _).
    destruct (take_token tasks config n s s' i AtAdmission Hi) as (t & Ht & (_ & _ & Hflags & Hk) & Hi'); try done.
    { by right. }
    { rewrite app_nil_r. unfold tokens, s'. cbn. rewrite (removeState_perm _ _ Hin) at 1. cbn. by rewrite <- Permutation_middle. }
    rewrite (iv_config _ _ _ _ _ Hi) in Hres. destruct (admitTask_ok n s' i t Hi' Ht Hflags Hres) as [Hi2 Ht2].
    change (start_task i true s') with (start_task i false (admitTask i s')). destruct Hflags as (_ & Hh & Htool).
    eapply start_admitted; [done | done | by split | by left | done].
  - destruct Hch as (Hin & ->). set (s' := set_queues _ _ _ _).
    destruct (take_token tasks config n s s' i AtReady Hi) as (t & Ht & (_ & _ & Hflags & Hk) & Hi'); try done.
    { by left. }
    { rewrite app_nil_r. unfold tokens, s'. cbn. rewrite (removeState_perm _ _ Hin) at 1. done. }
    eapply start_admitted; [done | done | done | done | done].
Qed.

(** ** The loop of [drain] *)

Definition drain_measure (s : simulator) : nat :=
  length (sm_toolQueue s) + 2 * (length (sm_ready s) + length (sm_admission s)).

Definition stuck (s : simulator) : Prop :=
  (sm_toolQueue s = [] \/ MaxInflightTools config <= sm_tools s)%Z
  /\ (candidates s = [] \/ MaxRunning config <= sm_running s)%Z.

Lemma start_task_measure i b s : (drain_measure (start_task i b s) <= S (drain_measure s))%nat.
Proof.
  assert (forall k s, drain_measure (pushEvent k eventCPUDone i s) = drain_measure s) as Hpush.
  { intros k s0. unfold pushEvent. by case_match. }
  assert (forall s, drain_measure (enqueueTool i s) = S (drain_measure s)) as Htool.
  { intros s0. unfold enqueueTool, drain_measure. cbn. rewrite length_app. cbn. lia. }
  unfold start_task. destruct (is_kind CPU _); rewrite ?Hpush, ?Htool; by destruct b; cbn; unfold drain_measure; cbn; lia.
Qed.

Lemma removeState_length l i : i ∈ l -> S (length (removeState l i)) = length l.
Proof. intros Hi%removeState_perm. by rewrite Hi at 2. Qed.

Lemma drain_turn_ok n s :
  inv n s [] ->
  let (progress, s') := drain_turn s in
  inv n s' [] /\ if progress then (drain_measure s' < drain_measure s)%nat else stuck s'.
Proof.
  intros Hi. unfold drain_turn. destruct (start_tools_ok tasks config Hvalid n _ s Hi eq_refl) as (Hi1 & Hr & Ha & Hst & Hlen).
  rewrite (iv_config _ _ _ _ _ Hi) in *. set (s1 := start_tools _ s) in *.
  assert (drain_measure s1 <= drain_measure s)%nat as Hle.
  { unfold drain_measure. rewrite Hr, Ha. destruct (_ && _); [lia | by rewrite Hlen]. }
  assert ((sm_tools s <? MaxInflightTools config)%Z && negb (length (sm_toolQueue s) =? 0)%nat = true ->
          drain_measure s1 < drain_measure s)%nat as Hless.
  { intros Heq. rewrite Heq in Hlen. unfold drain_measure. rewrite Hr, Ha. lia. }
  rewrite (iv_config _ _ _ _ _ Hi1). destruct (Z.ltb_spec (sm_running s1) (MaxRunning config)) as [Hlt | Hge].
  2:{ split; [done |]. destruct (_ && _); [by apply Hless | by split; [| right]]. }
  pose proof (chooseRunnable_spec s1) as Hch. pose proof (start_task_ok n s1 Hi1 Hlt) as Hok.
  destruct (chooseRunnable s1) as [[[i b] |] s2].
  - split; [done |]. pose proof (start_task_measure i b s2) as Hm.
    enough (drain_measure s2 + 2 <= drain_measure s1)%nat by lia. destruct b.
    + destruct Hch as (Hin & _ & ->). apply removeState_length in Hin. unfold drain_measure. cbn. lia.
    + destruct Hch as (Hin & ->). apply removeState_length in Hin. unfold drain_measure. cbn. lia.
  - destruct Hch as [Hc ->]. split; [done |]. destruct (_ && _); [by apply Hless | by split; [| left]].
Qed.

Lemma drain_turns_ok n fuel s :
  inv n s [] -> (drain_measure s < fuel)%nat -> inv n (drain_turns fuel s) [] /\ stuck (drain_turns fuel s).
Proof.
  revert s. induction fuel as [| fuel IH]; intros s Hi Hlt; [lia |]. cbn [drain_turns].
  pose proof (drain_turn_ok n s Hi) as H. destruct (drain_turn s) as [[] s']; destruct H as [Hi' H]; [| done].
  apply IH; [done | lia].
Qed.

Lemma drain_ok n s : inv n s [] -> inv n (drain s) [] /\ stuck (drain s).
Proof. intros Hi. apply drain_turns_ok; [done |]. unfold drain_fuel, drain_measure. lia. Qed.

(** ** Nothing is stuck for ever *)

Lemma sum_tokens_zero f s :
  (forall i p t, (i, p) ∈ tokens s -> sm_states s !! i = Some t -> f p t = 0%Z) -> sum_over f s [] = 0%Z.
Proof.
  intros Hz. unfold sum_over. rewrite app_nil_r. rewrite (zsum_ext _ (fun _ => 0%Z)).
  - clear Hz. induction (tokens s) as [| x l IH]; [done |]. rewrite zsum_cons, IH. done.
  - intros [i p] Hin. unfold at_place. cbn [fst snd]. destruct (sm_states s !! i) as [t |] eqn:Ht; [by eapply Hz | done].
Qed.

Lemma tokens_without_events s i p :
  sm_events s = [] -> (i, p) ∈ tokens s ->
  p = AtReady /\ i ∈ sm_ready s \/ p = AtAdmission /\ i ∈ sm_admission s \/ p = AtTool /\ i ∈ sm_toolQueue s.
Proof.
  intros He. unfold tokens. rewrite He. cbn. rewrite app_nil_r, !elem_of_app, !list_elem_of_fmap.
  intros [(j & [= <- <-] & Hj) | [(j & [= <- <-] & Hj) | (j & [= <- <-] & Hj)]]; auto.
Qed.

(** When nothing can be started and no event is pending, nothing is left. *)
Lemma no_deadlock n s : inv n s [] -> stuck s -> sm_events s = [] -> tokens s = [].
Proof.
  intros Hi [Htool Hrunnable] He.
  assert (sm_tools s = 0%Z) as Ht0.
  { rewrite (iv_tools _ _ _ _ _ Hi). apply sum_tokens_zero. intros i p t Hin _.
    by destruct (tokens_without_events s i p He Hin) as [[-> _] | [[-> _] | [-> _]]]. }
  assert (sm_toolQueue s = []) as Hq by (destruct Htool; [done | lia]).
  assert (forall i p t, (i, p) ∈ tokens s -> sm_states s !! i = Some t ->
            p = AtReady /\ i ∈ sm_ready s /\ flags true false false t
            \/ p = AtAdmission /\ flags false false false t) as Hin.
  { intros i p t Hip Ht. destruct (in_place _ _ n s [] i p Hi) as (t' & Ht' & _ & _ & Hok); [by rewrite app_nil_r |].
    simplify_eq. destruct (tokens_without_events s i p He Hip) as [[-> Hj] | [[-> Hj] | [-> Hj]]].
    - left. split_and!; [done | done | apply Hok..].
    - right. split; [done | apply Hok].
    - rewrite Hq in Hj. by apply elem_of_nil in Hj. }
  assert (sm_running s = 0%Z) as Hr0.
  { rewrite (iv_running _ _ _ _ _ Hi). apply sum_tokens_zero. intros i p t Hip Ht. unfold slot.
    by destruct (Hin i p t Hip Ht) as [(_ & _ & _ & -> & _) | (_ & _ & -> & _)]. }
  assert (candidates s = []) as Hc by (destruct Hrunnable; [done | lia]).
  unfold candidates in Hc. apply app_eq_nil in Hc as [Hready Hadm]. apply map_eq_nil in Hready.
  assert (sm_resident s = 0%Z) as Hs0.
  { rewrite (iv_resident _ _ _ _ _ Hi). apply sum_tokens_zero. intros i p t Hip Ht. unfold residency.
    destruct (Hin i p t Hip Ht) as [(_ & Hj & _) | (_ & -> & _)]; [| done]. rewrite Hready in Hj. by apply elem_of_nil in Hj. }
  rewrite (iv_config _ _ _ _ _ Hi), Hs0 in Hadm. destruct (Z.ltb_spec 0 (MaxResident config)); [| lia].
  apply map_eq_nil in Hadm. unfold tokens. by rewrite Hready, Hadm, Hq, He.
Qed.

(** ** The queue limit *)

Lemma reject_newest_ok n s :
  inv n s [] -> ~ roomy tasks config -> sm_admission s <> [] ->
  inv n (reject_newest s) [] /\ sm_events (reject_newest s) = sm_events s.
Proof.
  intros Hi Hq Hne. unfold reject_newest. destruct (sm_admission s) as [| first rest] eqn:Ha; [done |].
  pose proof (fold_choice (newer s) first rest) as Hin. set (i := foldl _ _ _) in *. rewrite <- Ha in Hin.
  set (s1 := set_queues _ _ _ _). assert (tokens s ++ [] ≡ₚ (i, AtAdmission) :: tokens s1) as Hfrom.
  { rewrite app_nil_r. unfold tokens, s1. cbn. rewrite (removeState_perm _ _ Hin) at 1. rewrite Ha. cbn.
    by rewrite <- Permutation_middle. }
  destruct (in_place _ _ n s [] i AtAdmission Hi) as (t & Ht & Hok); [rewrite Hfrom; by left |].
  destruct Hok as (Hcomp & Hrej & (Hadm & Hh & Htool) & Hk). change (sm_states s1) with (sm_states s). rewrite Ht.
  split; [| done].
  eapply (retire tasks config Hids n n i AtAdmission t (mkTaskResult 0 0 true) s _ [] [] (tokens s1));
    [| done | | |].
  - split; try done.
    + cbn. by rewrite app_nil_r.
    + eexists. split; [exact (alter_insert _ _ _ _ Ht) | done].
    + unfold slot. rewrite Hh. cbn. lia.
    + unfold residency. rewrite Hadm. cbn. lia.
    + unfold tool_slot. cbn. lia.
    + cbn. lia.
  - unfold slot. by rewrite Hh.
  - unfold ahead. cbn. pose proof (next_bound _ (at_kind_some _ _ Hk)). lia.
  - by intros [? _].
Qed.

(** There are no more places than tasks. *)
Lemma tokens_length n s hand : inv n s hand -> (length (tokens s ++ hand) <= length tasks)%nat.
Proof.
  intros Hi. rewrite <- (length_map fst), <- (length_seq (length tasks) 0). apply submseteq_length.
  apply NoDup_submseteq; [apply (iv_nodup _ _ _ _ _ Hi) |]. intros i ([j p] & -> & Hin)%list_elem_of_fmap.
  destruct (iv_ok _ _ _ _ _ Hi j p Hin) as (t & Ht & _). apply lookup_lt_Some in Ht.
  rewrite <- (iv_tasks _ _ _ _ _ Hi), length_map. apply elem_of_seq. cbn. lia.
Qed.

Lemma admission_length n s : inv n s [] -> (length (sm_admission s) <= length tasks)%nat.
Proof.
  intros Hi. pose proof (tokens_length _ _ _ Hi) as Hl. unfold tokens in Hl. rewrite !length_app, !length_map in Hl. lia.
Qed.

Lemma reject_loop_ok n fuel s :
  inv n s [] -> MaxQueued config <> 0%Z -> (0 <= MaxQueued config)%Z ->
  inv n (reject_loop fuel s) [] /\ sm_events (reject_loop fuel s) = sm_events s.
Proof.
  intros Hi Hq Hq0. revert s Hi. induction fuel as [| fuel IH]; intros s Hi; [done |]. cbn [reject_loop].
  rewrite (iv_config _ _ _ _ _ Hi). destruct (Z.ltb_spec (MaxQueued config) (Z.of_nat (length (sm_admission s)))) as [Hlt |]; [| by split].
  assert (~ roomy tasks config) as Hroom by (pose proof (admission_length _ _ Hi); unfold roomy; lia).
  destruct (reject_newest_ok n s Hi Hroom) as [Hi' He]; [by intros Hnil; rewrite Hnil in Hlt; cbn in Hlt; lia |].
  destruct (IH _ Hi') as [Hi'' He']. split; [done | by rewrite He'].
Qed.

Lemma reject_loop_empty fuel s : sm_admission s = [] -> (0 <= MaxQueued (sm_config s))%Z -> reject_loop fuel s = s.
Proof.
  intros Ha Hq. destruct fuel; [done |]. cbn [reject_loop]. rewrite Ha.
  destruct (Z.ltb_spec (MaxQueued (sm_config s)) (Z.of_nat (length (@nil nat)))); [cbn in *; lia | done].
Qed.

Definition live_or_empty (s : simulator) : Prop := sm_events s = [] -> tokens s = [].

Lemma enforceQueueLimit_ok n s :
  inv n s [] -> (0 <= MaxQueued config)%Z -> live_or_empty s ->
  inv n (enforceQueueLimit s) [] /\ live_or_empty (enforceQueueLimit s).
Proof.
  intros Hi Hq0 Hlive. unfold enforceQueueLimit. rewrite (iv_config _ _ _ _ _ Hi).
  destruct (Z.eqb_spec (MaxQueued config) 0); [done |].
  destruct (reject_loop_ok n (length (sm_admission s)) s Hi) as [Hi' He]; [done | done |]. split; [done |].
  intros Hnil. rewrite He in Hnil. specialize (Hlive Hnil). rewrite reject_loop_empty; [done | |].
  - unfold tokens in Hlive. apply app_eq_nil in Hlive as [_ Hlive]. apply app_eq_nil in Hlive as [Ha _]. by apply map_eq_nil in Ha.
  - by rewrite (iv_config _ _ _ _ _ Hi).
Qed.

(** ** The clock *)

Lemma total_work_le kind ts : Forall valid_task ts -> (0 <= total_work kind ts <= horizon ts)%Z.
Proof.
  intros Hv. rewrite list.Forall_forall in Hv. unfold total_work, horizon. split.
  - apply zsum_nonneg. intros k Hk. pose proof (work_nonneg _ (Hv _ Hk) (of_kind kind) 0) as H. by rewrite drop_0 in H.
  - assert (forall l, 0 <= foldr Z.max 0 l)%Z as Hmax by (induction l; cbn; lia).
    specialize (Hmax (map tk_Arrival ts)).
    enough (zsum (fun k => work (of_kind kind) (tk_Phases k)) ts <= zsum (fun k => work any_kind (tk_Phases k)) ts)%Z by lia.
    apply zsum_le. intros k Hk. pose proof (work_le _ (Hv _ Hk) (of_kind kind) 0) as H. by rewrite drop_0 in H.
Qed.

(** Time passes: what is under way has less left, by the number of slots. *)
Lemma zsum_left_over kind k now a states l :
  zsum (at_place (left_over kind k now) states) l
  = (zsum (at_place (left_over kind k a) states) l
     + (a - now) * zsum (at_place (fun p _ => b2z (is_event k p)) states) l)%Z.
Proof.
  induction l as [| [i p] l IH]; [cbn; lia |]. rewrite !zsum_cons, IH. unfold at_place. cbn [fst snd].
  destruct (states !! i) as [t |]; [| lia]. unfold left_over. destruct (is_event k p) eqn:He; cbn [b2z]; [| lia].
  destruct p; [done.. | | done]. cbn [due]. lia.
Qed.

(** One slot's statistic after the integration over [a - now]. *)
Lemma integrate_slot n s kind k total slots time a :
  inv n s [] -> fits -> (0 <= total <= horizon tasks)%Z -> (sm_now s <= a <= horizon tasks)%Z -> (0 <= sm_now s)%Z ->
  Forall (fun e => a <= ev_at e)%Z (sm_events s) ->
  slots = zsum (at_place (fun p _ => b2z (is_event k p)) (sm_states s)) (tokens s ++ []) ->
  (0 <= time)%Z -> (time + sum_over (left_over kind k (sm_now s)) s [] = total)%Z ->
  (0 <= time + slots * (a - sm_now s))%Z
  /\ (time + slots * (a - sm_now s) + zsum (at_place (left_over kind k a) (sm_states s)) (tokens s ++ []) = total)%Z
  /\ i64 (time + i64 (slots * i64 (a - sm_now s))) = (time + slots * (a - sm_now s))%Z.
Proof.
  intros Hi [_ Hfit] Htotal Ha Hnow Hev Hslots Htime Hsum. unfold sum_over in Hsum.
  rewrite (zsum_left_over _ _ _ a), <- Hslots in Hsum.
  assert (0 <= slots)%Z as Hs0.
  { rewrite Hslots. apply zsum_nonneg. intros x _. unfold at_place, b2z. by repeat case_match. }
  assert (0 <= zsum (at_place (left_over kind k a) (sm_states s)) (tokens s ++ []))%Z as Hl0.
  { apply zsum_nonneg. intros [i p] Hin. unfold at_place. cbn [fst snd].
    destruct (sm_states s !! i) as [t |] eqn:Ht; [| done]. unfold left_over.
    pose proof (work_nonneg _ (valid_state _ _ Hvalid _ _ _ _ _ Hi Ht) (of_kind kind) (next_phase p t)) as Hw.
    unfold todo. destruct (is_event k p) eqn:He; [| lia]. destruct p as [| | | e |]; [done.. | | done]. cbn [due].
    rewrite app_nil_r in Hin. assert (a <= ev_at e)%Z; [| lia]. rewrite list.Forall_forall in Hev. apply Hev.
    unfold tokens in Hin. rewrite !elem_of_app, !list_elem_of_fmap in Hin.
    destruct Hin as [(j & [=] & _) | [(j & [=] & _) | [(j & [=] & _) | (e' & [= -> ->] & He')]]]. done. }
  assert (0 <= slots * (a - sm_now s))%Z by nia.
  assert (i64 (a - sm_now s) = (a - sm_now s)%Z) as -> by (unfold i64; rewrite Z.mod_small by lia; lia).
  split; [lia |]. split; [lia |]. unfold i64. rewrite (Z.mod_small (slots * (a - sm_now s) + 2 ^ 63)) by lia.
  rewrite Z.mod_small by lia. lia.
Qed.

(** With live I/O a running slot is held by a phase that computes. *)
Lemma slots_compute n s :
  inv n s [] -> LiveIO config = true ->
  sm_running s = zsum (at_place (fun p _ => b2z (is_event eventCPUDone p)) (sm_states s)) (tokens s ++ []).
Proof.
  intros Hi Hlive. rewrite (iv_running _ _ _ _ _ Hi). unfold sum_over. apply zsum_ext. intros [i p] Hin.
  destruct (in_place _ _ n s [] i p Hi Hin) as (t & Ht & _ & _ & Hok). unfold at_place. cbn [fst snd]. rewrite Ht.
  unfold slot. rewrite Hlive in Hok. destruct p as [| | | e |]; cbn in Hok.
  - by destruct Hok as ((_ & -> & _) & _).
  - by destruct Hok as ((_ & -> & _) & _).
  - by destruct Hok as ((_ & -> & _) & _).
  - destruct Hok as [_ Hok]. cbn. destruct (ev_kind e); [destruct Hok as ((_ & -> & _) & _ & _) |..];
      [| by destruct Hok as ((_ & -> & _) & _)..]; done.
  - rewrite app_nil_r in Hin. unfold tokens in Hin. rewrite !elem_of_app, !list_elem_of_fmap in Hin.
    by destruct Hin as [(? & [=] & _) | [(? & [=] & _) | [(? & [=] & _) | (? & [=] & _)]]].
Qed.

Lemma integrate_result delta s :
  (delta <= 0)%Z /\ integrate delta s = s
  \/ r_ToolSlotTime (sm_result (integrate delta s)) = i64 (r_ToolSlotTime (sm_result s) + i64 (sm_tools s * delta))
     /\ r_RunningSlotTime (sm_result (integrate delta s))
        = i64 (r_RunningSlotTime (sm_result s) + i64 (sm_running s * delta)).
Proof. unfold integrate. destruct (Z.leb_spec delta 0); [by left | by right]. Qed.

Lemma timed_tick n s e rest s' :
  inv n s [] -> fits -> timed s [] -> pop_event (sm_events s) = Some (e, rest) ->
  s' = set_now (ev_at e) (integrate (i64 (ev_at e - sm_now s)) s) ->
  tokens s' = tokens s -> sm_states s' = sm_states s -> r_Makespan (sm_result s') = r_Makespan (sm_result s) ->
  timed s' [].
Proof.
  intros Hi Hf Htm Hpop Hs' Htok Hst Hms'. pose proof (pop_event_spec (sm_events s)) as Hspec. rewrite Hpop in Hspec.
  destruct Hspec as [Hperm Hev]. set (a := ev_at e) in *. pose proof Htm as [Hnow Hd Hhn Hh Hs Ht Hr Hms].
  assert (forall f, sum_over f s' [] = sum_over f s []) as Hsum by (intros f; unfold sum_over; by rewrite Htok, Hst).
  assert (sm_now s' = a) as Hnow' by (by rewrite Hs').
  assert ((ev_task e, AtEvent e) ∈ tokens s ++ []) as Hine.
  { rewrite app_nil_r. unfold tokens. rewrite !elem_of_app. do 3 right. apply list_elem_of_fmap. exists e.
    split; [done |]. rewrite Hperm. by left. }
  pose proof (Hd _ _ Hine) as Hda. pose proof (Hh _ _ Hine) as Hha. cbn [due] in Hda, Hha. fold a in Hda, Hha.
  assert (0 <= sum_over (todo any_kind) s [])%Z as Htd.
  { destruct (in_place _ _ n s [] _ _ Hi Hine) as (t & Ht0 & _).
    pose proof (todo_le_sum _ _ Hvalid _ _ _ _ _ _ Hi Hine Ht0). lia. }
  assert (forall i p, (i, p) ∈ tokens s ++ [] -> due a p = a \/ due a p = due (sm_now s) p /\ a <= due (sm_now s) p)%Z as Hdue.
  { intros i p Hin. destruct p as [| | | e' |]; auto. right. split; [done |]. cbn. rewrite list.Forall_forall in Hev. apply Hev.
    rewrite app_nil_r in Hin. unfold tokens in Hin. rewrite !elem_of_app, !list_elem_of_fmap in Hin.
    by destruct Hin as [(j & [=] & _) | [(j & [=] & _) | [(j & [=] & _) | (e'' & [= -> ->] & He')]]]. }
  assert (forall i p, (i, p) ∈ tokens s ++ [] -> due (sm_now s) p <= due a p)%Z as Hmono.
  { intros i p Hin. specialize (Hd _ _ Hin). destruct p; cbn in *; lia. }
  assert (sm_now s <= a <= horizon tasks)%Z as Hrange by lia.
  assert (i64 (a - sm_now s) = a - sm_now s)%Z as Hdelta.
  { destruct Hf as [_ Hfit]. unfold i64. rewrite Z.mod_small by lia. lia. }
  split; rewrite ?Hsum, ?Htok, ?Hst, ?Hnow', ?Hms'; try done; try lia.
  - intros i p Hin. destruct (Hdue i p Hin) as [-> | [-> ?]]; lia.
  - intros i p Hin. destruct (Hdue i p Hin) as [-> | [-> ?]]; [lia |]. by eapply Hh.
  - intros i p t Hin Hti. specialize (Hs i p t Hin Hti). specialize (Hmono i p Hin). lia.
  - destruct Ht as [Ht0 Ht].
    destruct (integrate_slot n s _ _ _ (sm_tools s) _ a Hi Hf (total_work_le PhaseExternalIO _ Hvalid) Hrange Hnow Hev
                (iv_tools _ _ _ _ _ Hi) Ht0 Ht) as (H1 & H2 & H3).
    destruct (integrate_result (i64 (a - sm_now s)) s) as [[Hle Heq] | [Heq _]]; rewrite Hs'; cbn; rewrite Heq.
    + rewrite Hdelta in Hle. assert (a = sm_now s) as -> by lia. split; [done | lia].
    + rewrite H3. split; [done | exact H2].
  - intros Hlive. destruct (Hr Hlive) as [Hr0 Hrr].
    destruct (integrate_slot n s _ _ _ (sm_running s) _ a Hi Hf (total_work_le CPU _ Hvalid) Hrange Hnow Hev
                (slots_compute _ _ Hi Hlive) Hr0 Hrr) as (H1 & H2 & H3).
    destruct (integrate_result (i64 (a - sm_now s)) s) as [[Hle Heq] | [_ Heq]]; rewrite Hs'; cbn; rewrite Heq.
    + rewrite Hdelta in Hle. assert (a = sm_now s) as -> by lia. split; [done | lia].
    + rewrite H3. split; [done | exact H2].
Qed.

Lemma tick_ok n s e rest :
  inv n s [] -> pop_event (sm_events s) = Some (e, rest) ->
  inv n (set_now (ev_at e) (integrate (i64 (ev_at e - sm_now s)) s)) [].
Proof.
  intros Hi Hpop. pose proof (pop_event_spec (sm_events s)) as Hspec. rewrite Hpop in Hspec. destruct Hspec as [Hperm Hev].
  set (a := ev_at e) in *. set (s' := set_now a _).
  assert (tokens s' = tokens s /\ sm_states s' = sm_states s) as [Htok Hst] by (unfold s', integrate; by case_match).
  assert (forall f, sum_over f s' [] = sum_over f s []) as Hsum by (intros f; unfold sum_over; by rewrite Htok, Hst).
  pose proof Hi as [Hc Htasks Hnd Hok Hr Hre Hto Hlim Hpk Hcnt Hunl Hrep Ha Htm].
  assert (sm_config s' = sm_config s /\ sm_running s' = sm_running s /\ sm_resident s' = sm_resident s
          /\ sm_tools s' = sm_tools s) as (Hc' & Hr' & Hre' & Hto') by (unfold s', integrate; by case_match).
  assert (peaks_ok config (sm_result s') /\ r_Completed (sm_result s') = r_Completed (sm_result s)
          /\ r_Rejected (sm_result s') = r_Rejected (sm_result s)
          /\ r_Makespan (sm_result s') = r_Makespan (sm_result s)
          /\ r_Tasks (sm_result s') = r_Tasks (sm_result s)) as (Hpk' & Hcm & Hrj & Hms' & Htk)
    by (unfold s', integrate; by case_match).
  split; rewrite ?Hsum, ?Htok, ?Hst; try congruence.
  - done.
  - unfold limits_ok in *. by rewrite Hr', Hre', Hto'.
  - rewrite Hrj. exact Hunl.
  - intros i t Ht. destruct (Hrep i t Ht) as [Hin | Hrp]; [by left | right].
    unfold reported in *. by rewrite Htk.
  - intros Hf. specialize (Htm Hf). by eapply timed_tick.
Qed.

(** ** The loop *)

Lemma inv_rearrange n s s' hand hand' :
  inv n s hand -> tokens s' ++ hand' ≡ₚ tokens s ++ hand -> sm_states s' = sm_states s ->
  sm_config s' = sm_config s -> sm_now s' = sm_now s -> sm_result s' = sm_result s ->
  sm_running s' = sm_running s -> sm_resident s' = sm_resident s -> sm_tools s' = sm_tools s -> inv n s' hand'.
Proof.
  intros [Hc Htasks Hnd Hok Hr Hre Hto Hlim Hpk Hcnt Hunl Hrep Ha Htm] Hp Hst Hc' Hn Hres Hr' Hre' Hto'.
  assert (forall f, sum_over f s' hand' = sum_over f s hand) as Hsum.
  { intros f. unfold sum_over. by rewrite Hst, (zsum_perm _ _ _ Hp). }
  assert (forall x, x ∈ tokens s' ++ hand' -> x ∈ tokens s ++ hand) as Hin by (intros x; by rewrite Hp).
  split; rewrite ?Hsum, ?Hst, ?Hres, ?Hp; try congruence; try done.
  - intros i p Hip. by apply Hok, Hin.
  - unfold limits_ok in *. by rewrite Hr', Hre', Hto'.
  - intros i t Ht. rewrite Hp. by apply Hrep.
  - intros Hf. destruct (Htm Hf) as [Hnow Hd Hhn Hh Hs Ht Hr2 Hms].
    split; rewrite ?Hsum, ?Hst, ?Hres, ?Hn; try done; intros i p; intros; (eapply Hd || eapply Hh || eapply Hs); eauto.
Qed.

Lemma turn_ok n s e rest :
  inv n s [] -> (0 <= MaxQueued config)%Z -> pop_event (sm_events s) = Some (e, rest) ->
  exists s', turn (ev_at e) s = Ok s' /\ inv (n - 1) s' [] /\ live_or_empty s'.
Proof.
  intros Hi Hq Hpop. unfold turn. cbn zeta. pose proof (tick_ok n s e rest Hi Hpop) as Hi1.
  set (s1 := set_now _ _) in *. assert (sm_events s1 = sm_events s) as He1 by (unfold s1, integrate; by case_match).
  assert (sm_now s1 = ev_at e) as Hn1 by done. clearbody s1. rewrite He1. pose proof (pop_batch_first _ _ _ Hpop) as Hlen.
  pose proof (pop_batch_spec (length (sm_events s)) (ev_at e) (sm_events s)) as Hb.
  destruct (pop_batch _ _ _) as [batch rest']. destruct Hb as [Hperm Hat]. cbn [fst] in Hlen.
  set (s2 := set_events _ rest' s1).
  assert (inv n s2 (map event_token batch ++ [])) as Hi2.
  { eapply (inv_rearrange n s1); try done. unfold tokens, s2. cbn. rewrite He1, Hperm, !map_app, !app_nil_r, <- !app_assoc.
    do 3 apply Permutation_app_head. apply Permutation_app_comm. }
  destruct (handle_batch_ok tasks config Hids Hvalid _ _ _ _ Hi2) as (s3 & Hs3 & Hi3).
  { intros _. change (sm_now s2) with (sm_now s1). by rewrite Hn1. }
  rewrite Hs3. cbn. eexists. split; [done |].
  destruct (drain_ok _ _ Hi3) as [Hi4 Hstuck].
  destruct (enforceQueueLimit_ok _ _ Hi4 Hq) as [Hi5 Hlive].
  { intros He. by eapply no_deadlock. }
  split; [| done]. eapply inv_weaken; [| done]. lia.
Qed.

Lemma events_ahead n s : inv n s [] -> sm_events s <> [] -> (1 <= n)%Z.
Proof.
  intros Hi He. pose proof (iv_ahead _ _ _ _ _ Hi) as Ha. destruct (sm_events s) as [| e rest] eqn:Hev; [done |].
  assert ((ev_task e, AtEvent e) ∈ tokens s ++ []) as Hin.
  { rewrite app_nil_r. unfold tokens. rewrite !elem_of_app. do 3 right. apply list_elem_of_fmap. exists e.
    split; [done |]. rewrite Hev. by left. }
  assert (forall i p, (i, p) ∈ tokens s ++ [] -> 0 <= at_place ahead (sm_states s) (i, p)
            /\ (is_event eventArrival p || match p with AtEvent _ => true | _ => false end = true ->
                1 <= at_place ahead (sm_states s) (i, p)))%Z as Hall.
  { intros i p Hip. destruct (in_place _ _ n s [] i p Hi Hip) as (t & Ht & _ & _ & Hok). unfold at_place. cbn [fst snd].
    rewrite Ht. unfold ahead, b2z. destruct p as [| | | e' |].
    - destruct Hok as [_ [Hk | [_ Hk]]]; pose proof (next_bound _ (at_kind_some _ _ Hk)); cbn [is_event]; by split; [lia |].
    - destruct Hok as [_ Hk]; pose proof (next_bound _ (at_kind_some _ _ Hk)); cbn [is_event]; by split; [lia |].
    - destruct Hok as [_ Hk]; pose proof (next_bound _ (at_kind_some _ _ Hk)); cbn [is_event]; by split; [lia |].
    - assert (is_Some (current t)) as Hc.
      { destruct Hok as [_ Hok]. destruct (ev_kind e'); [destruct Hok as (_ & _ & Hk) | destruct Hok as (_ & Hk)..];
          by eapply at_kind_some. }
      pose proof (next_bound _ Hc). destruct (is_event eventArrival (AtEvent e')); split; intros; lia.
    - destruct Hok as (_ & _ & Hle). cbn [is_event]. by split; [lia |]. }
  pose proof (Hall _ _ Hin) as [_ H1]. rewrite orb_true_r in H1. specialize (H1 eq_refl).
  assert (at_place ahead (sm_states s) (ev_task e, AtEvent e) <= sum_over ahead s [])%Z; [| lia].
  apply zsum_member; [| done]. intros [i p] Hip. apply (Hall i p Hip).
Qed.

Lemma simulate_ok fuel n s :
  inv n s [] -> (0 <= MaxQueued config)%Z -> live_or_empty s -> (n <= Z.of_nat fuel)%Z ->
  exists s', simulate fuel s = Some (Ok s') /\ tokens s' = [] /\ inv n s' [].
Proof.
  revert n s. induction fuel as [| fuel IH]; intros n s Hi Hq Hlive Hn; cbn [simulate];
    pose proof (pop_event_spec (sm_events s)) as Hpop; destruct (pop_event (sm_events s)) as [[e rest] |] eqn:Hp.
  - destruct Hpop as [Hpop _]. assert (1 <= n)%Z; [| lia]. apply (events_ahead n s Hi). intros He. rewrite He in Hpop.
    by apply Permutation_nil_cons in Hpop.
  - exists s. by split_and!; [| apply Hlive |].
  - destruct (turn_ok n s e rest Hi Hq Hp) as (s1 & -> & Hi1 & Hlive1).
    destruct (IH _ _ Hi1 Hq Hlive1) as (s' & Hs' & Htok & Hi'); [lia |]. exists s'. split; [done |]. split; [done |].
    eapply inv_weaken; [| done]. lia.
  - exists s. by split_and!; [| apply Hlive |].
Qed.
End Loops.

(** ** The beginning *)

Lemma zsum_lookup {A B} (f : A -> Z) (g : B -> Z) l l' :
  length l = length l' -> (forall j x y, l !! j = Some x -> l' !! j = Some y -> f x = g y) -> zsum f l = zsum g l'.
Proof.
  revert l'. induction l as [| x l IH]; intros [| y l'] Hlen Heq; try done.
  rewrite !zsum_cons, (IH l'); [by rewrite (Heq 0%nat x y) | cbn in Hlen; lia |].
  intros j. apply (Heq (S j)).
Qed.

(** The arrival of the [j]-th task. *)
Definition arrives (tasks : list Task) (j : nat) (e : event) : Prop :=
  exists k, tasks !! j = Some k /\ ev_at e = tk_Arrival k /\ ev_kind e = eventArrival /\ ev_task e = j
            /\ ev_phase e = 0%nat.

Lemma start_spec tasks config :
  exists seq l, foldl add_task (start_simulator config) tasks
    = mkSim config 0 seq l (map initial_state tasks) [] [] [] 0 0 0 0 empty_result
    /\ length l = length tasks /\ (forall j e, l !! j = Some e -> arrives tasks j e).
Proof.
  induction tasks as [| k tasks IH] using rev_ind; [by exists 0%N, [] |].
  destruct IH as (seq & l & Heq & Hlen & Hl). rewrite foldl_app, Heq. cbn [foldl]. unfold add_task, pushEvent. cbn.
  rewrite lookup_app_r, Nat.sub_diag, length_map by done. cbn. eexists _, _. split.
  { unfold set_events, set_states. cbn. by rewrite map_app. }
  rewrite !length_app, Hlen. split; [done |]. intros j e Hj. destruct (decide (j < length l)%nat) as [Hlt | Hge].
  - rewrite lookup_app_l in Hj by done. destruct (Hl j e Hj) as (k' & Hk' & Hrest). exists k'. split; [| done].
    by apply lookup_app_l_Some.
  - rewrite lookup_app_r in Hj by lia. destruct (j - length l)%nat as [| m] eqn:Hm; [| done]. injection Hj as <-.
    exists k. cbn. assert (j = length tasks) as -> by lia. rewrite lookup_app_r, Nat.sub_diag by lia. done.
Qed.

Lemma start_ok tasks config :
  Forall valid_task tasks -> (1 <= MaxRunning config)%Z -> (MaxRunning config <= MaxResident config)%Z ->
  (1 <= MaxInflightTools config)%Z -> tasks <> [] ->
  let s := foldl add_task (start_simulator config) tasks in
  inv tasks config (Z.of_nat (simulate_fuel tasks)) s [] /\ live_or_empty s.
Proof.
  intros Hv Hrun Hres Htool Hne s. destruct (start_spec tasks config) as (seq & l & Heq & Hlen & Hl).
  fold s in Heq. assert (tokens s ++ [] = map event_token l) as Htok by (by rewrite Heq, app_nil_r).
  assert (forall f g, (forall k e, ev_kind e = eventArrival -> f (AtEvent e) (initial_state k) = g k) ->
            sum_over f s [] = zsum g tasks) as Hsum.
  { intros f g Hfg. unfold sum_over. rewrite Htok, Heq. cbn [sm_states]. apply zsum_lookup; [by rewrite length_map |].
    intros j x k Hx Hk. rewrite list_lookup_fmap in Hx. destruct (l !! j) as [e |] eqn:He; [| done]. injection Hx as <-.
    destruct (Hl j e He) as (k' & Hk' & _ & Hkind & Hi & _). unfold at_place, event_token. cbn [fst snd].
    rewrite Hi, list_lookup_fmap, Hk'. cbn. simplify_eq. by apply Hfg. }
  assert (forall i p, (i, p) ∈ tokens s ++ [] -> exists k e, tasks !! i = Some k /\ p = AtEvent e
            /\ ev_at e = tk_Arrival k /\ ev_kind e = eventArrival /\ ev_phase e = 0%nat) as Hin.
  { intros i p. rewrite Htok. intros (e & [= -> ->] & He)%list_elem_of_fmap. apply list_elem_of_lookup in He as [j Hj].
    destruct (Hl j e Hj) as (k & Hk & Hat & Hkind & <- & Hp). by exists k, e. }
  assert (forall k, k ∈ tasks -> valid_task k) as Hvk by (by rewrite list.Forall_forall in Hv).
  assert (forall k e, ev_kind e = eventArrival -> todo any_kind (AtEvent e) (initial_state k) = work any_kind (tk_Phases k)) as Htodo.
  { intros k e He. unfold todo, next_phase. rewrite He. cbn. by rewrite drop_0. }
  assert (forall kind ek, ek <> eventArrival -> forall k e, ev_kind e = eventArrival ->
            left_over kind ek 0 (AtEvent e) (initial_state k) = work (of_kind kind) (tk_Phases k)) as Hleft.
  { intros kind ek Hek k e He. unfold left_over, todo, next_phase. rewrite He. cbn [ts_phase initial_state ts_task]. rewrite drop_0.
    destruct ek; cbn [is_event]; rewrite ?He; [done | lia..]. }
  split.
  2:{ rewrite Heq. intros He. cbn in He. subst l. by destruct tasks. }
  split; try (by rewrite Heq).
  - rewrite Heq. cbn. rewrite map_map. apply map_id.
  - rewrite Htok, map_map. apply NoDup_alt. intros i j x. change (map (fun e => fst (event_token e)) l) with (ev_task <$> l).
    rewrite !list_lookup_fmap. destruct (l !! i) as [e |] eqn:He; [| done]. destruct (l !! j) as [e' |] eqn:He'; [| done].
    destruct (Hl _ _ He) as (_ & _ & _ & _ & <- & _). destruct (Hl _ _ He') as (_ & _ & _ & _ & <- & _). cbn. congruence.
  - intros i p Hip. destruct (Hin i p Hip) as (k & e & Hk & -> & Hat & Hkind & Hp). exists (initial_state k).
    rewrite Heq. cbn [sm_states]. rewrite list_lookup_fmap, Hk. split; [done |]. unfold place_ok. rewrite Hkind.
    repeat (split; [done |]). exact (vt_head _ (Hvk k (list_elem_of_lookup_2 _ _ _ Hk))).
  - rewrite (Hsum _ (fun _ => 0%Z)) by done. rewrite Heq. cbn. clear. by induction tasks.
  - rewrite (Hsum _ (fun _ => 0%Z)) by done. rewrite Heq. cbn. clear. by induction tasks.
  - rewrite (Hsum _ (fun _ => 0%Z)); [rewrite Heq; cbn; clear; by induction tasks |].
    intros k e He. unfold tool_slot. cbn. by rewrite He.
  - rewrite Heq. unfold limits_ok. cbn. lia.
  - rewrite Heq. unfold peaks_ok. cbn. lia.
  - rewrite Htok, length_map, Hlen, Heq. cbn. lia.
  - intros i t Ht. left. rewrite Htok, map_map. rewrite Heq in Ht. cbn in Ht.
    assert (i < length l)%nat as Hlt by (apply lookup_lt_Some in Ht; rewrite length_map in Ht; lia).
    apply lookup_lt_is_Some in Hlt as [e He]. apply list_elem_of_fmap. exists e. cbn.
    destruct (Hl _ _ He) as (_ & _ & _ & _ & -> & _). split; [done | by eapply list_elem_of_lookup_2].
  - rewrite (Hsum _ (fun k => Z.of_nat (S (length (tk_Phases k))))).
    + unfold simulate_fuel. clear. induction tasks as [| k ts IH]; [done |]. rewrite zsum_cons. cbn [map].
      unfold list_sum in *. cbn [foldr]. lia.
    + intros k e He. unfold ahead. cbn. rewrite He. cbn. lia.
  - intros [_ Hfit]. assert (0 <= foldr Z.max 0 (map tk_Arrival tasks))%Z as Hm0 by (clear; induction tasks; cbn; lia).
    assert (forall k, k ∈ tasks -> tk_Arrival k <= foldr Z.max 0 (map tk_Arrival tasks))%Z as Hmax.
    { clear. induction tasks as [| k ts IH]; intros k' Hk'; [by apply elem_of_nil in Hk' |]. cbn.
      apply elem_of_cons in Hk' as [-> | Hk']; [lia |]. specialize (IH k' Hk'). lia. }
    rewrite Heq in *. clear Heq.
    pose proof (Hsum _ _ Htodo) as Hst. pose proof (Hsum _ _ (Hleft PhaseExternalIO eventIODone ltac:(done))) as Hsi.
    pose proof (Hsum _ _ (Hleft CPU eventCPUDone ltac:(done))) as Hsc.
    split; cbn [sm_now sm_result empty_result r_ToolSlotTime r_RunningSlotTime r_Makespan]; rewrite ?Hst, ?Hsi, ?Hsc;
      try done; unfold horizon.
    + intros i p Hip. destruct (Hin i p Hip) as (k & e & Hk & -> & Hat & _). cbn. rewrite Hat.
      apply (vt_arrival _ (Hvk k (list_elem_of_lookup_2 _ _ _ Hk))).
    + lia.
    + intros i p Hip. destruct (Hin i p Hip) as (k & e & Hk & -> & Hat & _). cbn. rewrite Hat.
      specialize (Hmax k (list_elem_of_lookup_2 _ _ _ Hk)). lia.
    + intros i p t Hip Ht. destruct (Hin i p Hip) as (k & e & Hk & -> & Hat & Hkind & _). cbn in Ht.
      rewrite list_lookup_fmap, Hk in Ht. injection Ht as <-. rewrite (Htodo k e Hkind). cbn. lia.
    + pose proof (total_work_le CPU tasks Hv). fold (horizon tasks). lia.
Qed.

(** ** Validation *)

Lemma validate_phases_ok id index phases :
  validate_phases id index phases = Ok tt ->
  (forall n p, phases !! n = Some p ->
     (0 < ph_Duration p)%Z /\ (ph_Kind p = CPU \/ ph_Kind p = PhaseExternalIO \/ ph_Kind p = DurableWait))
  /\ (forall n p q, phases !! n = Some p -> phases !! S n = Some q -> ph_Kind p = DurableWait -> ph_Kind q = CPU).
Proof.
  revert index. induction phases as [| p phases IH]; intros index Hv; [done |]. cbn [validate_phases] in Hv.
  destruct (0 <? ph_Duration p)%Z eqn:Hd; [| done]. cbn [guard res_bind] in Hv.
  destruct (bool_decide (ph_Kind p = CPU) || _ || _) eqn:Hk; [| done]. cbn [guard res_bind] in Hv.
  match type of Hv with res_bind (guard ?b _) _ = _ => destruct b eqn:Hw; [| done] end. cbn [guard res_bind] in Hv.
  destruct (IH _ Hv) as [Hp Hnext]. split.
  - intros [| n] q Hq; [| by apply (Hp n)]. injection Hq as <-. guards. split; [done |].
    repeat (apply orb_true_iff in Hk as [Hk | Hk]); guards; auto.
  - intros [| n] q q' Hq Hq'; [| by apply (Hnext n)]. injection Hq as <-. cbn in Hq'. destruct phases as [| x phases]; [done |].
    injection Hq' as <-. intros Hdw. rewrite Hdw in Hw. rewrite bool_decide_eq_true_2 in Hw by done. cbn in Hw. by guards.
Qed.

Lemma validate_tasks_ok seen tasks :
  validate_tasks seen tasks = Ok tt ->
  Forall valid_task tasks /\ NoDup (map tk_ID tasks) /\ (forall k, k ∈ tasks -> tk_ID k ∉ seen).
Proof.
  revert seen. induction tasks as [| k tasks IH]; intros seen Hv.
  { split; [constructor |]. split; [constructor |]. by intros k Hk%elem_of_nil. }
  cbn [validate_tasks] in Hv. destruct (negb _ && _ && _ && _) eqn:Hk; [| done]. cbn [guard res_bind] in Hv.
  destruct (negb (bool_decide (tk_ID k ∈ seen))) eqn:Hseen; [| done]. cbn [guard res_bind] in Hv.
  destruct (validate_phases _ _ _) as [[] |] eqn:Hph; [| done]. cbn [res_bind] in Hv.
  destruct (IH _ Hv) as (Htasks & Hnd & Hnew). destruct (validate_phases_ok _ _ _ Hph) as [Hp Hw].
  apply andb_true_iff in Hk as [Hk Hhead]. guards. split; [constructor; [| done] | split].
  - split; [done | | done | done]. by destruct (tk_Phases k).
  - cbn [map]. apply list.NoDup_cons. split; [| done]. intros (k' & Hid & Hk')%list_elem_of_fmap.
    apply (Hnew k' Hk'). rewrite Hid. set_solver.
  - intros k' [-> | Hk']%elem_of_cons; [done |]. specialize (Hnew k' Hk'). set_solver.
Qed.

Lemma validateSimulation_ok tasks config :
  validateSimulation tasks config = Ok tt ->
  tasks <> [] /\ (1 <= MaxRunning config <= MaxResident config)%Z /\ (1 <= MaxInflightTools config)%Z
  /\ (0 <= MaxQueued config)%Z /\ Forall valid_task tasks /\ NoDup (map tk_ID tasks).
Proof.
  unfold validateSimulation. destruct (negb _ && _ && _ && _ && _) eqn:Hb; [| done]. cbn [guard res_bind].
  destruct (bool_decide (Policy config = FIFO) || _ || _); [| done]. cbn [guard res_bind]. intros Hv.
  destruct (validate_tasks_ok _ _ Hv) as (Htasks & Hnd & _). guards. split; [by intros -> |].
  split_and!; first [lia | done].
Qed.

Lemma validate_phases_complete id index phases :
  (forall n p, phases !! n = Some p ->
     (0 < ph_Duration p)%Z /\ (ph_Kind p = CPU \/ ph_Kind p = PhaseExternalIO \/ ph_Kind p = DurableWait)) ->
  (forall n p q, phases !! n = Some p -> phases !! S n = Some q -> ph_Kind p = DurableWait -> ph_Kind q = CPU) ->
  validate_phases id index phases = Ok tt.
Proof.
  revert index. induction phases as [| p phases IH]; intros index Hp Hw; [done |]. cbn [validate_phases].
  destruct (Hp 0%nat p eq_refl) as [Hd Hk]. rewrite (proj2 (Z.ltb_lt _ _) Hd). cbn [guard res_bind].
  replace (bool_decide (ph_Kind p = CPU) || _ || _) with true
    by (destruct Hk as [-> | [-> | ->]]; by vm_compute). cbn [guard res_bind].
  replace (match phases with next :: _ => _ | [] => _ end) with true.
  - cbn [guard res_bind]. apply IH; [intros n; apply (Hp (S n)) | intros n; apply (Hw (S n))].
  - destruct phases as [| q phases]; [done |]. case_bool_decide as Hdw; [| done].
    by rewrite (bool_decide_eq_true_2 _ (Hw 0%nat p q eq_refl eq_refl Hdw)).
Qed.

Lemma validate_tasks_complete seen tasks :
  Forall (fun k => tk_ID k <> "" /\ (0 <= tk_ResidentBytes k)%Z /\ valid_task k) tasks ->
  NoDup (map tk_ID tasks) -> (forall k, k ∈ tasks -> tk_ID k ∉ seen) -> validate_tasks seen tasks = Ok tt.
Proof.
  intros Hv. revert seen. induction Hv as [| k tasks (Hid & Hb & Hk) Hv IH]; intros seen Hnd Hseen; [done |].
  cbn [map] in Hnd. apply list.NoDup_cons in Hnd as [Hnew Hnd]. cbn [validate_tasks].
  rewrite (bool_decide_eq_false_2 _ Hid), (proj2 (Z.leb_le _ _) (vt_arrival k Hk)), (proj2 (Z.leb_le _ _) Hb).
  pose proof (vt_head k Hk) as Hh.
  replace (head (tk_Phases k)) with (tk_Phases k !! 0%nat) by (by destruct (tk_Phases k)). rewrite Hh.
  cbn [negb andb guard res_bind].
  rewrite (bool_decide_eq_false_2 (tk_ID k ∈ seen)) by (apply Hseen; by left). cbn [negb guard res_bind].
  rewrite validate_phases_complete by apply Hk. cbn [res_bind]. apply IH; [done |].
  intros k' Hk'. specialize (Hseen k'). intros [Heq%elem_of_singleton | Hin]%elem_of_union.
  - apply Hnew, list_elem_of_fmap. by exists k'.
  - by apply Hseen; [right |].
Qed.

Lemma validateSimulation_complete tasks config :
  tasks <> [] -> (1 <= MaxRunning config <= MaxResident config)%Z -> (1 <= MaxInflightTools config)%Z ->
  (0 <= MaxQueued config)%Z -> Policy config ∈ [FIFO; ReadyFirst; FinishSoon] ->
  validate_tasks ∅ tasks = Ok tt -> validateSimulation tasks config = Ok tt.
Proof.
  intros Hne Hr Ht Hq Hp Hv. unfold validateSimulation.
  rewrite (proj2 (Z.leb_le 1 _)), (proj2 (Z.leb_le (MaxRunning config) _)), (proj2 (Z.leb_le 1 _)), (proj2 (Z.leb_le 0 _)) by lia.
  destruct tasks; [done |]. cbn [length Nat.eqb negb andb guard res_bind].
  replace (bool_decide (Policy config = FIFO) || _ || _) with true; [done |].
  rewrite !elem_of_cons in Hp. destruct Hp as [-> | [-> | [-> | []%elem_of_nil]]]; by vm_compute.
Qed.

(** ** The properties *)

Lemma simulation_ends tasks config :
  validateSimulation tasks config = Ok tt ->
  exists s, simulate (simulate_fuel tasks) (foldl add_task (start_simulator config) tasks) = Some (Ok s)
    /\ tokens s = [] /\ inv tasks config (Z.of_nat (simulate_fuel tasks)) s []
    /\ Simulate tasks config = Some (Ok (finishResult (sm_result s))).
Proof.
  intros Hv. destruct (validateSimulation_ok _ _ Hv) as (Hne & Hrun & Htool & Hq & Htasks & Hids).
  destruct (start_ok tasks config Htasks) as [Hi Hlive]; [lia.. | done |].
  destruct (simulate_ok tasks config Hids Htasks ltac:(lia) ltac:(lia) ltac:(lia) (simulate_fuel tasks) _ _ Hi Hq Hlive)
    as (s & Hs & Htok & Hi'); [lia |]. exists s. split; [done |]. split; [done |]. split; [done |].
  unfold Simulate. rewrite Hv, Hs. pose proof (iv_count _ _ _ _ _ Hi') as Hc. rewrite Htok in Hc. cbn in Hc.
  rewrite Z.add_0_r in Hc. by rewrite Hc, Z.eqb_refl.
Qed.

Lemma finishResult_same r :
  r_Completed (finishResult r) = r_Completed r /\ r_Rejected (finishResult r) = r_Rejected r
  /\ r_Makespan (finishResult r) = r_Makespan r /\ r_Tasks (finishResult r) = r_Tasks r
  /\ r_PeakRunning (finishResult r) = r_PeakRunning r /\ r_PeakResident (finishResult r) = r_PeakResident r
  /\ r_PeakInflightTools (finishResult r) = r_PeakInflightTools r
  /\ r_RunningSlotTime (finishResult r) = r_RunningSlotTime r
  /\ r_ToolSlotTime (finishResult r) = r_ToolSlotTime r.
Proof. unfold finishResult. by case_match. Qed.

(** With room for everyone a simulation completes every task. *)
Lemma simulation_completes tasks config :
  validateSimulation tasks config = Ok tt -> roomy tasks config ->
  exists r, Simulate tasks config = Some (Ok r) /\ r_Completed r = Z.of_nat (length tasks) /\ r_Rejected r = 0%Z.
Proof.
  intros Hv Hroom. destruct (simulation_ends tasks config Hv) as (s & _ & Htok & Hi & ->). eexists. split; [done |].
  destruct (finishResult_same (sm_result s)) as (-> & -> & _). pose proof (iv_count _ _ _ _ _ Hi) as Hc.
  rewrite Htok in Hc. cbn in Hc. pose proof (iv_unlimited _ _ _ _ _ Hi Hroom). lia.
Qed.

(** At the end every task is reported. *)
Lemma all_reported tasks config n s k :
  inv tasks config n s [] -> tokens s = [] -> k ∈ tasks -> reported tasks config (sm_result s) k.
Proof.
  intros Hi Htok Hk. rewrite <- (iv_tasks _ _ _ _ _ Hi) in Hk. apply list_elem_of_fmap in Hk as (t & -> & Ht).
  apply list_elem_of_lookup in Ht as [i Ht]. destruct (iv_reported _ _ _ _ _ Hi i t Ht) as [Hin | Hr]; [| done].
  rewrite Htok in Hin. by apply elem_of_nil in Hin.
Qed.

(** C35.  A simulation always finishes, within its limits.  Whatever the trace,
    the policy and the bounds that validation accepts, and even if times
    overflow, the event loop ends after at most one turn per arrival and phase;
    no completion event is ever stale and no task is left behind: every task
    is completed or rejected and has a result, none is rejected when
    the queue has no limit or a place for each, and the numbers of running, resident and tool slots never exceeded
    the configured ones. *)
Theorem simulation_always_finishes tasks config :
  validateSimulation tasks config = Ok tt ->
  match Simulate tasks config with
  | Some (Ok r) =>
      (r_Completed r + r_Rejected r = Z.of_nat (length tasks))%Z
      /\ (roomy tasks config -> r_Rejected r = 0%Z)
      /\ (forall k, k ∈ tasks -> is_Some (r_Tasks r !! tk_ID k))
      /\ (r_PeakRunning r <= MaxRunning config)%Z /\ (r_PeakResident r <= MaxResident config)%Z
      /\ (r_PeakInflightTools r <= MaxInflightTools config)%Z
  | _ => False
  end.
Proof.
  intros Hv. destruct (simulation_ends tasks config Hv) as (s & _ & Htok & Hi & ->).
  destruct (finishResult_same (sm_result s)) as (-> & -> & _ & -> & -> & -> & -> & _ & _).
  pose proof (iv_count _ _ _ _ _ Hi) as Hc. rewrite Htok in Hc. cbn in Hc.
  destruct (iv_peaks _ _ _ _ _ Hi) as (? & ? & ?). split; [lia |]. split; [apply (iv_unlimited _ _ _ _ _ Hi) |].
  split; [| done]. intros k Hk. destruct (all_reported _ _ _ _ _ Hi Htok Hk) as (tr & Htr & _). by exists tr.
Qed.

(** Two tasks whose tools overlap with live I/O: [TestLiveIOReusesRunningCapacity]. *)
Definition demo_phases : list Phase := [mkPhase CPU 10; mkPhase PhaseExternalIO 100; mkPhase CPU 10].
Definition demo_tasks : list Task := [mkTask "a" 0 0 8 demo_phases; mkTask "b" 0 0 8 demo_phases].
Definition demo_config (live : bool) (queued : Z) : Config := mkConfig 1 2 2 queued live FIFO.

Lemma simulation_always_finishes_witness :
  validateSimulation demo_tasks (demo_config false 1) = Ok tt
  /\ match Simulate demo_tasks (demo_config false 1) with
     | Some (Ok r) => (r_Completed r + r_Rejected r = 2)%Z /\ (r_PeakRunning r <= 1)%Z
     | _ => False
     end.
Proof.
  assert (validateSimulation demo_tasks (demo_config false 1) = Ok tt) as Hv by reflexivity.
  split; [exact Hv |]. pose proof (simulation_always_finishes demo_tasks (demo_config false 1) Hv) as H.
  destruct (Simulate demo_tasks (demo_config false 1)) as [[r | e] |]; [| exact H | exact H].
  destruct H as (Hc & _ & _ & Hp & _). exact (conj Hc Hp).
Defined.

(** C36.  No simulated work is lost or counted twice.  When the queue has no
    limit or a place for each task, and when the latest arrival plus all durations stays below 2^63, tool slots
    were busy for exactly the external I/O of the trace; with live I/O running
    slots were busy for exactly its CPU phases, so that no running slot is held
    while a tool runs; the simulation is over by the latest arrival plus all
    durations; and no task has a latency below the sum of its phases. *)
Theorem simulated_work_is_conserved tasks config :
  validateSimulation tasks config = Ok tt -> roomy tasks config -> (horizon tasks < 2 ^ 63)%Z ->
  match Simulate tasks config with
  | Some (Ok r) =>
      r_ToolSlotTime r = total_work PhaseExternalIO tasks
      /\ (LiveIO config = true -> r_RunningSlotTime r = total_work CPU tasks)
      /\ (r_Makespan r <= horizon tasks)%Z
      /\ (forall k, k ∈ tasks -> exists tr, r_Tasks r !! tk_ID k = Some tr /\ tr_Rejected tr = false
            /\ (work any_kind (tk_Phases k) <= tr_Latency tr)%Z)
  | _ => False
  end.
Proof.
  intros Hv Hq Hfit. destruct (simulation_ends tasks config Hv) as (s & _ & Htok & Hi & ->).
  destruct (finishResult_same (sm_result s)) as (_ & _ & -> & -> & _ & _ & _ & -> & ->).
  pose proof (conj Hq Hfit : fits tasks config) as Hf. destruct (iv_timed _ _ _ _ _ Hi Hf) as [_ _ _ _ _ Ht Hr Hms].
  unfold sum_over in Ht, Hr. rewrite Htok in Ht, Hr. cbn in Ht, Hr. split; [lia |]. split.
  { intros Hlive. specialize (Hr Hlive). lia. }
  split; [lia |]. intros k Hk. destruct (all_reported _ _ _ _ _ Hi Htok Hk) as (tr & Htr & Hok). exists tr.
  split; [done | by apply Hok].
Qed.

Lemma simulated_work_is_conserved_witness :
  validateSimulation demo_tasks (demo_config true 0) = Ok tt
  /\ match Simulate demo_tasks (demo_config true 0) with
     | Some (Ok r) => r_ToolSlotTime r = 200%Z /\ r_RunningSlotTime r = 40%Z
     | _ => False
     end.
Proof.
  assert (validateSimulation demo_tasks (demo_config true 0) = Ok tt) as Hv by reflexivity.
  assert (roomy demo_tasks (demo_config true 0)) as Hq by (left; reflexivity).
  assert (horizon demo_tasks < 2 ^ 63)%Z as Hf by reflexivity.
  split; [exact Hv |]. pose proof (simulated_work_is_conserved demo_tasks (demo_config true 0) Hv Hq Hf) as H.
  destruct (Simulate demo_tasks (demo_config true 0)) as [[r | e] |]; [| exact H | exact H].
  destruct H as (Ht & Hr & _). exact (conj Ht (Hr eq_refl)).
Defined.
