(* ===== verification/JsonStream.v ===== *)
(** * JsonStream: [json.Decoder] and the struct fields of its rows

    A decoder reads one value after another from a stream.  The end of a number
    shows only at the byte after it, which belongs to the next value. *)

From S2P Require Import Prelude Json Http Float64.

(** ** Values of a stream *)

(** The value that the scanner is at the end of does not go on with [c]. *)
Definition ends_before (sc : scanner) (c : ascii) : bool :=
  scan_eof sc && match scan sc c with
                 | Some sc' => match sc_step sc' with EndTop => true | _ => false end
                 | None => true
                 end.

Inductive read_result := Value (raw rest : string) | EndOfStream | BadStream.

Definition read_more (c : ascii) (r : read_result) : read_result :=
  match r with Value raw rest => Value (String c raw) rest | _ => r end.

(** [Decoder.readValue]: the text of the next value and what is left.  The end
    of the stream is unexpected after anything but blanks. *)
Fixpoint read_value (sc : scanner) (blank : bool) (s : string) : read_result :=
  match s with
  | EmptyString => if scan_eof sc then Value "" "" else if blank then EndOfStream else BadStream
  | String c s' =>
      if ends_before sc c then Value "" s
      else match scan sc c with
           | None => BadStream
           | Some sc' =>
               match sc_step sc' with
               | EndTop => Value (String c "") s'
               | _ => read_more c (read_value sc' (blank && is_space c) s')
               end
           end
  end.

(** The values as [json.RawMessage]s, and whether the stream ended after one;
    every value takes a byte. *)
Fixpoint stream_from (fuel : nat) (s : string) : list string * bool :=
  match fuel with
  | O => ([], false)
  | S fuel =>
      match read_value scan_init true s with
      | Value raw rest => let '(raws, clean) := stream_from fuel rest in (trim raw :: raws, clean)
      | EndOfStream => ([], true)
      | BadStream => ([], false)
      end
  end.

Definition stream_values (s : string) : list string * bool := stream_from (S (String.length s)) s.

(** ** Fields *)

(** An [int64], or an [int] of 64 bits. *)
Definition store_number (old : Z) (raw : string) : option Z :=
  if bool_decide (raw = "null") then Some old else ParseInt64 raw.

Definition store_int32 (old : Z) (raw : string) : option Z :=
  if bool_decide (raw = "null") then Some old
  else n ← ParseInt64 raw; if ((- 2 ^ 31 <=? n) && (n <? 2 ^ 31))%Z then Some n else None.

(** A [float64]. *)
Definition is_number (raw : string) : bool :=
  match raw with String c _ => bool_decide (c = "-"%char) || is_digit c | EmptyString => false end.

Definition store_float (old : float64) (raw : string) : option float64 :=
  if bool_decide (raw = "null") then Some old else if is_number raw then ParseFloat raw else None.

(** A [*bool]. *)
Definition store_bool_pointer (old : option bool) (raw : string) : option (option bool) :=
  if bool_decide (raw = "null") then Some None else Some <$> store_bool (default false old) raw.

(** A slice of [int64]: its length and the array behind it, which a second
    member of the name is decoded over. *)
Fixpoint store_each (backing : list Z) (raws : list string) : option (list Z) :=
  match raws with
  | [] => Some []
  | raw :: raws =>
      n ← store_number (default 0%Z (head backing)) raw;
      ns ← store_each (tail backing) raws;
      Some (n :: ns)
  end.

Definition store_numbers (old : nat * list Z) (raw : string) : option (nat * list Z) :=
  if bool_decide (raw = "null") then Some (O, [])
  else
    raws ← array_elems raw;
    if bool_decide (raws = []) then Some (O, [])
    else ns ← store_each (snd old) raws; Some (length raws, ns ++ drop (length raws) (snd old)).

(** ** Lemmas *)

Lemma read_more_value c r raw rest :
  read_more c r = Value raw rest -> exists raw', r = Value raw' rest /\ raw = String c raw'.
Proof. destruct r; [| done | done]. intros [= <- <-]. eauto. Qed.

(** Reading splits the stream. *)
Lemma read_value_split sc blank s raw rest : read_value sc blank s = Value raw rest -> s = raw +:+ rest.
Proof.
  revert sc blank raw. induction s as [| c s IH]; intros sc blank raw; cbn [read_value].
  - destruct (scan_eof sc); [by intros [= <- <-] |]. by destruct blank.
  - destruct (ends_before sc c); [by intros [= <- <-] |]. destruct (scan sc c) as [sc' |]; [| done].
    assert (forall raw, read_more c (read_value sc' (blank && is_space c) s) = Value raw rest ->
      String c s = raw +:+ rest) as Hmore.
    { intros raw' (raw0 & Hr & ->)%read_more_value. by rewrite (IH _ _ _ Hr). }
    by destruct (sc_step sc'); try apply Hmore; intros [= <- <-].
Qed.
