(* ===== verification/Calibration.v ===== *)
(** * Calibration: traces from measurements ([scheduling/calibration.go])

    Turning measured attempts into tasks of the simulator, predicting batches
    and summarizing how far the predictions are off.  Durations and counts are
    [int64] and [int], which wrap; ratios are [float64].  A stream of JSON rows
    is read by [JsonStream]. *)

From S2P Require Import Order Prelude Errors Json Http Float64 Sim JsonStream.

Definition maxCalibrationToolDispatches : Z := 1000.
Definition maxCalibrationPopulation : Z := 10000.

(** ** Data *)

Record PhaseCaptureMetadata := mkMetadata {
  pm_Type : string;
  pm_Artifact : string;
  pm_ArtifactSHA256 : string;
  pm_ArtifactBytes : Z;
  pm_GOOS : string;
  pm_GOARCH : string;
  pm_GoVersion : string;
  pm_SourceRevision : string;
  pm_SourceModified : option bool;
  pm_Preparation : string;
  pm_Cases : string;
  pm_Iterations : Z;
  pm_ToolDelayNS : Z;
  pm_ParkDelayNS : Z;
  pm_RunnerSetupNS : Z;
  pm_ExternalIO : bool
}.

Record PhaseSample := mkSample {
  ps_Type : string;
  ps_Case : string;
  ps_Iteration : Z;
  ps_CreateNS : Z;
  ps_FirstAttemptNS : Z;
  ps_ParkIntervalNS : Z;
  ps_DecideNS : Z;
  ps_ReadmitAttemptNS : Z;
  ps_ToolServiceNS : Z;
  ps_ToolQueueNS : Z;
  ps_ToolResumeNS : Z;
  ps_ToolFailures : Z;
  ps_RuntimeOverheadNS : Z;
  ps_ToolDispatches : Z;
  ps_Result : float64;
  ps_TotalNS : Z
}.

Record PhaseCapture := mkCapture { pc_Metadata : PhaseCaptureMetadata; pc_Samples : list PhaseSample }.

Record CalibrationOptions := mkOptions { co_Case : string; co_ResidentBytes : Z }.

Record CalibrationProvenance := mkProvenance {
  cp_Case : string;
  cp_Samples : Z;
  cp_CPUSplit : string;
  cp_ToolSplit : string;
  cp_ExcludedCreateNS : Z;
  cp_ExcludedQueueNS : Z;
  cp_ExcludedResumeNS : Z;
  cp_DurableParkAllowed : bool
}.

Record BatchObservation := mkObservation {
  bo_Case : string;
  bo_Mode : string;
  bo_Tasks : Z;
  bo_RunningLimit : Z;
  bo_ResidentLimit : Z;
  bo_ToolLimit : Z;
  bo_ExternalIO : bool;
  bo_HeapMiB : Z;
  bo_SyntheticHoldNS : Z;
  bo_SetupNS : Z;
  bo_BatchNS : Z;
  bo_RequestNS : list Z;
  bo_PeakHostWaits : Z;
  bo_SampledPeakRSSKiB : option Z;
  bo_Completed : Z
}.

Record CalibrationComparison := mkComparison {
  cc_Type : string;
  cc_Case : string;
  cc_Tasks : Z;
  cc_RunningLimit : Z;
  cc_ResidentLimit : Z;
  cc_ToolLimit : Z;
  cc_ExternalIO : bool;
  cc_ObservedBatchNS : Z;
  cc_PredictedMakespanNS : Z;
  cc_AbsoluteErrorNS : Z;
  cc_RelativeError : float64;
  cc_Tolerance : float64;
  cc_WithinTolerance : bool
}.

Record CalibrationSummary := mkSummary {
  cs_Type : string;
  cs_Case : string;
  cs_Tasks : Z;
  cs_RunningLimit : Z;
  cs_ResidentLimit : Z;
  cs_ToolLimit : Z;
  cs_ExternalIO : bool;
  cs_Samples : Z;
  cs_MeanObservedBatchNS : Z;
  cs_MeanPredictedMakespanNS : Z;
  cs_MeanRelativeError : float64;
  cs_MaxRelativeError : float64;
  cs_WithinTolerance : Z
}.

(** ** Decoding *)

(** The fields of a row, in the order they are declared. *)
Definition metadata_fields : list string :=
  ["type"; "artifact"; "artifact_sha256"; "artifact_bytes"; "goos"; "goarch"; "go_version"; "source_revision";
   "source_modified"; "preparation"; "cases"; "iterations"; "synthetic_tool_delay_ns"; "synthetic_park_delay_ns";
   "runner_setup_ns"; "external_io"].

Definition sample_fields : list string :=
  ["type"; "case"; "iteration"; "create_ns"; "first_attempt_ns"; "park_interval_ns"; "decide_ns";
   "readmit_attempt_ns"; "tool_service_ns"; "tool_queue_ns"; "tool_resume_ns"; "tool_failures";
   "attempt_minus_tool_ns"; "tool_dispatches"; "result"; "total_ns"].

Definition observation_fields : list string :=
  ["case"; "mode"; "tasks"; "running_limit"; "resident_limit"; "tool_limit"; "external_io"; "heap_mib";
   "synthetic_hold_ns"; "setup_ns"; "batch_ns"; "request_ns"; "peak_host_waits"; "sampled_peak_rss_kib";
   "completed"].

(** [decodeStrict] of a row that is one JSON value. *)
Definition decode_metadata (raw : string) : option PhaseCaptureMetadata :=
  ms ← strict_members metadata_fields raw;
  let text field := fold_field field store_string "" ms in
  let number field := fold_field field store_number 0%Z ms in
  type ← text "type"; artifact ← text "artifact"; sha ← text "artifact_sha256"; bytes ← number "artifact_bytes";
  goos ← text "goos"; goarch ← text "goarch"; version ← text "go_version"; revision ← text "source_revision";
  modified ← fold_field "source_modified" store_bool_pointer None ms;
  preparation ← text "preparation"; cases ← text "cases"; iterations ← number "iterations";
  toolDelay ← number "synthetic_tool_delay_ns"; parkDelay ← number "synthetic_park_delay_ns";
  setup ← number "runner_setup_ns"; external ← fold_field "external_io" store_bool false ms;
  Some (mkMetadata type artifact sha bytes goos goarch version revision modified preparation cases iterations
          toolDelay parkDelay setup external).

Definition decode_sample (raw : string) : option PhaseSample :=
  ms ← strict_members sample_fields raw;
  let text field := fold_field field store_string "" ms in
  let number field := fold_field field store_number 0%Z ms in
  type ← text "type"; case ← text "case"; iteration ← number "iteration"; create ← number "create_ns";
  first ← number "first_attempt_ns"; park ← number "park_interval_ns"; decide ← number "decide_ns";
  readmit ← number "readmit_attempt_ns"; service ← number "tool_service_ns"; queue ← number "tool_queue_ns";
  resume ← number "tool_resume_ns"; failures ← number "tool_failures"; overhead ← number "attempt_minus_tool_ns";
  dispatches ← number "tool_dispatches"; result ← fold_field "result" store_float (S754_zero false) ms;
  total ← number "total_ns";
  Some (mkSample type case iteration create first park decide readmit service queue resume failures overhead
          dispatches result total).

Definition decode_observation (raw : string) : option BatchObservation :=
  ms ← strict_members observation_fields raw;
  let text field := fold_field field store_string "" ms in
  let number field := fold_field field store_number 0%Z ms in
  case ← text "case"; mode ← text "mode"; tasks ← number "tasks"; running ← number "running_limit";
  resident ← number "resident_limit"; tools ← number "tool_limit";
  external ← fold_field "external_io" store_bool false ms; heap ← number "heap_mib";
  hold ← number "synthetic_hold_ns"; setup ← number "setup_ns"; batch ← number "batch_ns";
  '(n, requests) ← fold_field "request_ns" store_numbers (O, []) ms;
  waits ← fold_field "peak_host_waits" store_int32 0%Z ms;
  rss ← fold_field "sampled_peak_rss_kib" store_int64 None ms; completed ← number "completed";
  Some (mkObservation case mode tasks running resident tools external heap hold setup batch (take n requests) waits
          rss completed).

(** The kind of a row: a struct with one field, whatever else it holds. *)
Definition decode_kind (raw : string) : option string :=
  if bool_decide (raw = "null") then Some ""
  else ms ← object_members raw; fold_field "type" store_string "" ms.

Inductive capture_error :=
| EPhaseRow (row : nat) | EPhaseRowType (row : nat) | ELeadingMetadata | EPhaseMetadata | ESampleFirst
| EPhaseSample (row : nat) | EUnknownRow (kind : string) | EIncompleteCapture | EInvalidMetadata.

(** One row: the metadata once it was seen, and the samples. *)
Definition decode_row (row : nat) (raw : string) (metadata : option PhaseCaptureMetadata) (samples : list PhaseSample) :
  res capture_error (option PhaseCaptureMetadata * list PhaseSample) :=
  match decode_kind raw with
  | None => Err (EPhaseRowType row)
  | Some kind =>
      if bool_decide (kind = "metadata") then
        match metadata, samples with
        | None, [] => match decode_metadata raw with Some m => Ok (Some m, []) | None => Err EPhaseMetadata end
        | _, _ => Err ELeadingMetadata
        end
      else if bool_decide (kind = "sample") then
        match metadata with
        | None => Err ESampleFirst
        | Some _ =>
            match decode_sample raw with
            | Some sample => Ok (metadata, samples ++ [sample])
            | None => Err (EPhaseSample row)
            end
        end
      else Err (EUnknownRow kind)
  end.

(** The loop over the rows; [clean] says whether the stream ended well. *)
Fixpoint decode_rows (row : nat) (raws : list string) (clean : bool) (metadata : option PhaseCaptureMetadata)
    (samples : list PhaseSample) : res capture_error (option PhaseCaptureMetadata * list PhaseSample) :=
  match raws with
  | [] => if clean then Ok (metadata, samples) else Err (EPhaseRow row)
  | raw :: raws =>
      let* (metadata, samples) := decode_row row raw metadata samples in
      decode_rows (S row) raws clean metadata samples
  end.

Definition DecodePhaseCapture (stream : string) : res capture_error PhaseCapture :=
  let '(raws, clean) := stream_values stream in
  let* (metadata, samples) := decode_rows 0 raws clean None [] in
  match metadata, samples with
  | Some m, _ :: _ =>
      if bool_decide (pm_Preparation m = "") || bool_decide (pm_Cases m = "") || (pm_Iterations m <? 1)%Z
         || (pm_ToolDelayNS m <? 0)%Z || (pm_ParkDelayNS m <? 0)%Z || (pm_RunnerSetupNS m <? 0)%Z
      then Err EInvalidMetadata
      else Ok (mkCapture m samples)
  | _, _ => Err EIncompleteCapture
  end.

(** The rows up to the first that is refused. *)
Fixpoint observation_rows (index : nat) (raws : list string) (clean : bool) : res nat (list BatchObservation) :=
  match raws with
  | [] => if clean then Ok [] else Err index
  | raw :: raws =>
      match decode_observation raw with
      | None => Err index
      | Some row => let* rows := observation_rows (S index) raws clean in Ok (row :: rows)
      end
  end.

Inductive observations_error := EObservedRow (index : nat) | ENoObservedRows.

Definition DecodeBatchObservations (stream : string) : res observations_error (list BatchObservation) :=
  let '(raws, clean) := stream_values stream in
  match observation_rows 0 raws clean with
  | Err index => Err (EObservedRow index)
  | Ok [] => Err ENoObservedRows
  | Ok rows => Ok rows
  end.

(** ** Tasks *)

(** An even split, the first parts one longer. *)
Definition splitDuration (total parts : Z) : list Z :=
  if (parts =? 0)%Z then []
  else
    let base := Z.quot total parts in
    let remainder := Z.rem total parts in
    map (fun index => if (Z.of_nat index <? remainder)%Z then i64 (base + 1) else base) (seq 0 (Z.to_nat parts)).

(** A CPU phase per part, and a call after it as long as there is one. *)
Fixpoint calibrated_phases (cpus tools : list Z) : list Phase :=
  match cpus with
  | [] => []
  | cpu :: cpus =>
      mkPhase CPU cpu ::
      match tools with
      | tool :: tools => mkPhase PhaseExternalIO tool :: calibrated_phases cpus tools
      | [] => calibrated_phases cpus []
      end
  end.

Definition localNS (s : PhaseSample) : Z :=
  i64 (i64 (i64 (ps_FirstAttemptNS s - ps_ToolServiceNS s) - ps_ToolQueueNS s) - ps_ToolResumeNS s).

Definition calibrated_task (residentBytes : Z) (s : PhaseSample) : Task :=
  mkTask (ps_Case s +:+ "-" +:+ format_06d (Z.to_N (ps_Iteration s))) 0 0 residentBytes
    (calibrated_phases (splitDuration (localNS s) (ps_ToolDispatches s + 1))
       (splitDuration (ps_ToolServiceNS s) (ps_ToolDispatches s))).

(** The checks on one sample of the case. *)
Definition check_sample (s : PhaseSample) : res string unit :=
  let text := "case " +:+ quote (ps_Case s) +:+ " iteration " +:+ pretty (ps_Iteration s) in
  let* _ := guard (negb (negb (ps_ParkIntervalNS s =? 0)%Z || negb (ps_ReadmitAttemptNS s =? 0)%Z
                         || negb (ps_DecideNS s =? 0)%Z))
              (text +:+ " contains durable park/re-admit timings") in
  let* _ := guard (negb (bool_decide (ps_Case s = "") || (ps_Iteration s <? 0)%Z || (ps_CreateNS s <? 0)%Z
                         || (ps_FirstAttemptNS s <=? 0)%Z || (ps_ToolDispatches s <? 0)%Z
                         || (maxCalibrationToolDispatches <? ps_ToolDispatches s)%Z || (ps_ToolServiceNS s <? 0)%Z
                         || (ps_ToolQueueNS s <? 0)%Z || (ps_ToolResumeNS s <? 0)%Z || negb (ps_ToolFailures s =? 0)%Z))
              (text +:+ " has invalid timing fields") in
  let* _ := guard (negb ((ps_ToolDispatches s =? 0)%Z
                         && (negb (ps_ToolServiceNS s =? 0)%Z || negb (ps_ToolQueueNS s =? 0)%Z
                             || negb (ps_ToolResumeNS s =? 0)%Z)))
              (text +:+ " has Tool timing without dispatches") in
  guard (negb ((localNS s <? ps_ToolDispatches s + 1)%Z
               || ((0 <? ps_ToolDispatches s)%Z && (ps_ToolServiceNS s <? ps_ToolDispatches s)%Z)))
    (text +:+ " has no positive phase decomposition").

Definition add_provenance (s : PhaseSample) (p : CalibrationProvenance) : CalibrationProvenance :=
  mkProvenance (cp_Case p) (cp_Samples p + 1) (cp_CPUSplit p) (cp_ToolSplit p)
    (i64 (cp_ExcludedCreateNS p + ps_CreateNS s)) (i64 (cp_ExcludedQueueNS p + ps_ToolQueueNS s))
    (i64 (cp_ExcludedResumeNS p + ps_ToolResumeNS s)) (cp_DurableParkAllowed p).

(** The loop over the samples. *)
Fixpoint calibrate_samples (options : CalibrationOptions) (samples : list PhaseSample) (seen : gset string)
    (tasks : list Task) (provenance : CalibrationProvenance) : res string (list Task * CalibrationProvenance) :=
  match samples with
  | [] => Ok (tasks, provenance)
  | sample :: samples =>
      if negb (bool_decide (ps_Case sample = co_Case options))
      then calibrate_samples options samples seen tasks provenance
      else
        let* _ := check_sample sample in
        let task := calibrated_task (co_ResidentBytes options) sample in
        let* _ := guard (negb (bool_decide (tk_ID task ∈ seen))) ("duplicate calibrated task " +:+ quote (tk_ID task)) in
        calibrate_samples options samples ({[tk_ID task]} ∪ seen) (tasks ++ [task]) (add_provenance sample provenance)
  end.

Definition BuildCalibratedTasks (capture : PhaseCapture) (options : CalibrationOptions) :
  res string (list Task * CalibrationProvenance) :=
  let* _ := guard (negb (bool_decide (co_Case options = "") || (co_ResidentBytes options <? 0)%Z))
              "calibration case is required and resident bytes must be non-negative" in
  let provenance := mkProvenance (co_Case options) 0 "equal_between_tool_calls" "equal_across_tool_calls" 0 0 0 false in
  let* (tasks, provenance) := calibrate_samples options (pc_Samples capture) ∅ [] provenance in
  let* _ := guard (negb (length tasks =? 0)%nat) ("phase capture has no samples for case " +:+ quote (co_Case options)) in
  Ok (sort_by (fun left right => str_lt (tk_ID left) (tk_ID right)) tasks, provenance).

(** ** Predictions *)

Definition empty_task : Task := mkTask "" 0 0 0 [].

(** The task at an index of the population. *)
Definition repeated_task (templates : list Task) (index : nat) : Task :=
  let template := default empty_task (templates !! (index mod length templates)%nat) in
  mkTask ("task-" +:+ format_06d (N.of_nat index)) 0 (tk_Priority template) (tk_ResidentBytes template)
    (tk_Phases template).

Definition RepeatCalibratedTasks (templates : list Task) (count : Z) : list Task :=
  if (length templates =? 0)%nat || (count <=? 0)%Z then []
  else map (repeated_task templates) (seq 0 (Z.to_nat count)).

Definition invalid_observation (o : BatchObservation) : bool :=
  bool_decide (bo_Case o = "") || (bo_Tasks o <? 1)%Z || (maxCalibrationPopulation <? bo_Tasks o)%Z
  || (bo_RunningLimit o <? 1)%Z || (maxCalibrationPopulation <? bo_RunningLimit o)%Z
  || (bo_ResidentLimit o <? bo_RunningLimit o)%Z || (maxCalibrationPopulation <? bo_ResidentLimit o)%Z
  || (bo_ToolLimit o <? 1)%Z || (maxCalibrationPopulation <? bo_ToolLimit o)%Z || (bo_BatchNS o <=? 0)%Z.

Definition observation_config (o : BatchObservation) (policy : string) : Config :=
  mkConfig (bo_RunningLimit o) (bo_ResidentLimit o) (bo_ToolLimit o) (bo_Tasks o) (bo_ExternalIO o) policy.

Definition absolute_error (predicted observed : Z) : Z :=
  let absolute := i64 (predicted - observed) in if (absolute <? 0)%Z then i64 (- absolute) else absolute.

Definition comparison (o : BatchObservation) (makespan : Z) (tolerance : float64) : CalibrationComparison :=
  let absolute := absolute_error makespan (bo_BatchNS o) in
  let relative := fdiv (float_of_int absolute) (float_of_int (bo_BatchNS o)) in
  mkComparison "comparison" (bo_Case o) (bo_Tasks o) (bo_RunningLimit o) (bo_ResidentLimit o) (bo_ToolLimit o)
    (bo_ExternalIO o) (bo_BatchNS o) makespan absolute relative tolerance (fle relative tolerance).

(** The loop over the observations; none when a simulation runs out of fuel. *)
Fixpoint compare_rows (templates : list Task) (policy : string) (tolerance : float64) (index : nat)
    (observations : list BatchObservation) : option (res string (list CalibrationComparison)) :=
  match observations with
  | [] => Some (Ok [])
  | o :: rest =>
      if invalid_observation o then Some (Err ("invalid observed batch row " +:+ format_uint (N.of_nat index)))
      else
        match Simulate (RepeatCalibratedTasks templates (bo_Tasks o)) (observation_config o policy) with
        | None => None
        | Some (Err e) =>
            Some (Err ("simulate observed batch row " +:+ format_uint (N.of_nat index) +:+ ": " +:+ e))
        | Some (Ok result) =>
            match compare_rows templates policy tolerance (S index) rest with
            | Some (Ok rows) => Some (Ok (comparison o (r_Makespan result) tolerance :: rows))
            | other => other
            end
        end
  end.

Definition CompareObservedBatches (templates : list Task) (observations : list BatchObservation) (policy : string)
    (tolerance : float64) : option (res string (list CalibrationComparison)) :=
  if (length templates =? 0)%nat || (length observations =? 0)%nat || flt tolerance (float_of_int 0)
     || flt (float_of_int 1) tolerance || is_nan tolerance
  then Some (Err "invalid calibration comparison inputs")
  else compare_rows templates policy tolerance 0 observations.

(** ** Summaries *)

(** Case, tasks, running, resident, tools, external I/O. *)
Notation arm := (string * Z * Z * Z * Z * bool)%type.

Definition arm_of (c : CalibrationComparison) : arm :=
  (cc_Case c, cc_Tasks c, cc_RunningLimit c, cc_ResidentLimit c, cc_ToolLimit c, cc_ExternalIO c).

Definition new_summary (c : CalibrationComparison) : CalibrationSummary :=
  mkSummary "summary" (cc_Case c) (cc_Tasks c) (cc_RunningLimit c) (cc_ResidentLimit c) (cc_ToolLimit c)
    (cc_ExternalIO c) 0 0 0 (S754_zero false) (S754_zero false) 0.

(** A mean of integers moved towards the next of [count] values. *)
Definition move_mean (mean value count : Z) : Z := i64 (mean + Z.quot (i64 (value - mean)) count).

Definition add_comparison (c : CalibrationComparison) (s : CalibrationSummary) : CalibrationSummary :=
  let count := (cs_Samples s + 1)%Z in
  mkSummary (cs_Type s) (cs_Case s) (cs_Tasks s) (cs_RunningLimit s) (cs_ResidentLimit s) (cs_ToolLimit s)
    (cs_ExternalIO s) count
    (move_mean (cs_MeanObservedBatchNS s) (cc_ObservedBatchNS c) count)
    (move_mean (cs_MeanPredictedMakespanNS s) (cc_PredictedMakespanNS c) count)
    (fadd (cs_MeanRelativeError s) (fdiv (fsub (cc_RelativeError c) (cs_MeanRelativeError s)) (float_of_int count)))
    (if flt (cs_MaxRelativeError s) (cc_RelativeError c) then cc_RelativeError c else cs_MaxRelativeError s)
    (if cc_WithinTolerance c then cs_WithinTolerance s + 1 else cs_WithinTolerance s).

Definition group_comparison (groups : gmap arm CalibrationSummary) (c : CalibrationComparison) :
  gmap arm CalibrationSummary :=
  <[arm_of c := add_comparison c (default (new_summary c) (groups !! arm_of c))]> groups.

Definition summary_lt : CalibrationSummary -> CalibrationSummary -> bool :=
  lex cs_Case str_lt (lex cs_Tasks Z.ltb (lex cs_RunningLimit Z.ltb (lex cs_ResidentLimit Z.ltb
    (lex cs_ToolLimit Z.ltb (fun a b => negb (cs_ExternalIO a) && cs_ExternalIO b))))).

Definition SummarizeCalibrationComparisons (comparisons : list CalibrationComparison) : list CalibrationSummary :=
  sort_by summary_lt (map snd (map_to_list (foldl group_comparison ∅ comparisons))).
