(* ===== verification/CalibrationProps.v ===== *)
(** * CalibrationProps: what calibrated traces and their summaries promise

    Splitting keeps every measured total, calibrated traces are accepted and
    their simulations finish, and summaries count every comparison once. *)

From S2P Require Import Order Prelude Errors Float64 Sim SimSpec SimProps Calibration.

(** ** Splitting *)

Lemma zsum_prefix (base r : Z) n :
  (0 <= r)%Z ->
  zsum (fun i => base + if (Z.of_nat i <? r)%Z then 1 else 0)%Z (seq 0 n) = (Z.of_nat n * base + Z.min (Z.of_nat n) r)%Z.
Proof.
  intros Hr. induction n as [| n IH]; [cbn; lia |].
  rewrite seq_S, zsum_app, IH, zsum_cons. cbn [zsum foldr]. destruct (Z.ltb_spec (Z.of_nat (0 + n)) r); lia.
Qed.

Section Split.
Context (total parts : Z) (Htotal : (parts <= total < 2 ^ 63)%Z) (Hparts : (1 <= parts)%Z).

Lemma split_parts :
  splitDuration total parts
  = map (fun i => total / parts + if (Z.of_nat i <? total mod parts)%Z then 1 else 0)%Z (seq 0 (Z.to_nat parts)).
Proof.
  unfold splitDuration. destruct (Z.eqb_spec parts 0); [lia |]. rewrite Z.quot_div_nonneg, Z.rem_mod_nonneg by lia.
  apply map_ext_in. intros i _. case_match; [| lia]. apply i64_id.
  pose proof (Z.div_mod total parts). pose proof (Z.mod_pos_bound total parts). guards. nia.
Qed.

Lemma split_length : length (splitDuration total parts) = Z.to_nat parts.
Proof. by rewrite split_parts, length_map, length_seq. Qed.

Lemma split_total : zsum id (splitDuration total parts) = total.
Proof.
  pose proof (Z.mod_pos_bound total parts). rewrite split_parts, zsum_map. cbn [id]. rewrite zsum_prefix by lia.
  pose proof (Z.div_mod total parts). lia.
Qed.

Lemma split_even d : d ∈ splitDuration total parts -> (1 <= d /\ total / parts <= d <= total / parts + 1)%Z.
Proof.
  rewrite split_parts. intros (i & -> & _)%list_elem_of_fmap.
  assert (1 <= total / parts)%Z by (apply Z.div_le_lower_bound; lia). case_match; lia.
Qed.
End Split.

(** ** Phases *)

Lemma half_SS n : (S (S n) / 2 = S (n / 2))%nat.
Proof. replace (S (S n)) with (1 * 2 + n)%nat by lia. by rewrite Nat.div_add_l by lia. Qed.

(** A CPU phase, then a call and a CPU phase for each call. *)
Lemma calibrated_phases_alternate cpus tools n :
  length cpus = S (length tools) ->
  calibrated_phases cpus tools !! n
  = if Nat.even n then mkPhase CPU <$> cpus !! (n / 2)%nat else mkPhase PhaseExternalIO <$> tools !! (n / 2)%nat.
Proof.
  revert tools n. induction cpus as [| c cpus IH]; intros tools n Hlen; [done |].
  destruct tools as [| t tools]; cbn in Hlen.
  - destruct cpus; [| done]. destruct n as [| [| n]]; [done.. |]. cbn [Nat.even calibrated_phases].
    rewrite half_SS.
    by destruct (Nat.even n).
  - destruct n as [| [| n]]; [done.. |]. cbn [Nat.even calibrated_phases].
    rewrite half_SS.
    cbn [lookup list_lookup]. apply IH. lia.
Qed.

Lemma calibrated_phases_length cpus tools :
  length cpus = S (length tools) -> length (calibrated_phases cpus tools) = (length cpus + length tools)%nat.
Proof.
  revert tools. induction cpus as [| c cpus IH]; intros [| t tools] Hlen; cbn in *; try lia.
  - destruct cpus; [done | done].
  - rewrite IH by lia. lia.
Qed.

Lemma calibrated_phases_work cpus tools :
  length cpus = S (length tools) ->
  work (of_kind CPU) (calibrated_phases cpus tools) = zsum id cpus
  /\ work (of_kind PhaseExternalIO) (calibrated_phases cpus tools) = zsum id tools.
Proof.
  revert tools. induction cpus as [| c cpus IH]; intros [| t tools] Hlen; [done.. | |]; cbn in Hlen.
  - by destruct cpus.
  - destruct (IH tools) as [H1 H2]; [lia |]. unfold work in *. cbn [calibrated_phases]. rewrite !zsum_cons, H1, H2. by split.
Qed.

Lemma calibrated_phases_elem cpus tools p :
  p ∈ calibrated_phases cpus tools ->
  ph_Kind p = CPU /\ ph_Duration p ∈ cpus \/ ph_Kind p = PhaseExternalIO /\ ph_Duration p ∈ tools.
Proof.
  revert tools. induction cpus as [| c cpus IH]; intros tools; [by intros ?%elem_of_nil |].
  cbn [calibrated_phases]. intros [-> | Hp]%elem_of_cons; [left; split; [done | by left] |].
  destruct tools as [| t tools].
  - destruct (IH _ Hp) as [[? ?] | [? ?]]; [left | right]; (split; [done |]); [by right | done].
  - apply elem_of_cons in Hp as [-> | Hp]; [right; split; [done | by left] |].
    destruct (IH _ Hp) as [[? ?] | [? ?]]; [left | right]; (split; [done |]); by right.
Qed.

(** ** Samples *)

(** The fields are 64-bit integers. *)
Definition sample_fits (s : PhaseSample) : Prop :=
  Forall (fun n => - 2 ^ 63 <= n < 2 ^ 63)%Z
    [ps_FirstAttemptNS s; ps_ToolServiceNS s; ps_ToolQueueNS s; ps_ToolResumeNS s; ps_ToolDispatches s].

Lemma localNS_wraps s :
  localNS s = i64 (ps_FirstAttemptNS s - ps_ToolServiceNS s - ps_ToolQueueNS s - ps_ToolResumeNS s).
Proof.
  unfold localNS. rewrite i64_sub_l, <- Z.sub_add_distr, i64_sub_l. f_equal. lia.
Qed.

Record decomposable (s : PhaseSample) : Prop := {
  dc_case : ps_Case s <> "";
  dc_iteration : (0 <= ps_Iteration s)%Z;
  dc_dispatches : (0 <= ps_ToolDispatches s <= maxCalibrationToolDispatches)%Z;
  dc_local : (ps_ToolDispatches s + 1 <= localNS s < 2 ^ 63)%Z;
  dc_tools : (ps_ToolDispatches s = 0 /\ ps_ToolServiceNS s = 0)%Z
    \/ (1 <= ps_ToolDispatches s <= ps_ToolServiceNS s)%Z
}.

Lemma check_sample_ok s : check_sample s = Ok tt -> decomposable s.
Proof.
  unfold check_sample. intros (u1 & H1%guard_Ok & H)%res_bind_Ok. apply res_bind_Ok in H as (u2 & H2%guard_Ok & H).
  apply res_bind_Ok in H as (u3 & H3%guard_Ok & H%guard_Ok). guards.
  split; [done | done | unfold maxCalibrationToolDispatches in *; lia | |].
  - split; [lia |]. rewrite localNS_wraps. unfold i64. pose proof (Z.mod_pos_bound
      (ps_FirstAttemptNS s - ps_ToolServiceNS s - ps_ToolQueueNS s - ps_ToolResumeNS s + 2 ^ 63) (2 ^ 64)). lia.
  - destruct (Z.eqb_spec (ps_ToolDispatches s) 0) as [Hz |]; cbn in H3; guards.
    + left. destruct (Z.eqb_spec (ps_ToolServiceNS s) 0); [done |]. done.
    + right. destruct (Z.ltb_spec 0 (ps_ToolDispatches s)); [| lia]. cbn in *. guards. lia.
Qed.

Section Sample.
Context (s : PhaseSample) (residentBytes : Z) (Hs : decomposable s).
Context (Hservice : (ps_ToolServiceNS s < 2 ^ 63)%Z).

Notation cpus := (splitDuration (localNS s) (ps_ToolDispatches s + 1)).
Notation tools := (splitDuration (ps_ToolServiceNS s) (ps_ToolDispatches s)).

Lemma cpus_total : zsum id cpus = localNS s.
Proof. destruct Hs as [_ _ [? _] ? _]. apply split_total; lia. Qed.

Lemma tools_total : zsum id tools = ps_ToolServiceNS s.
Proof. destruct (dc_tools s Hs) as [[-> ->] | ?]; [done |]. apply split_total; lia. Qed.

Lemma sample_lengths : length cpus = S (length tools) /\ length tools = Z.to_nat (ps_ToolDispatches s).
Proof.
  destruct Hs as [_ _ [? _] Hl Ht]. rewrite split_length by lia. destruct Ht as [[-> _] | ?]; [done |].
  rewrite split_length by lia. lia.
Qed.

Lemma cpus_even d : d ∈ cpus ->
  (1 <= d /\ localNS s / (ps_ToolDispatches s + 1) <= d <= localNS s / (ps_ToolDispatches s + 1) + 1)%Z.
Proof. destruct Hs as [_ _ [? _] Hl _]. apply split_even; lia. Qed.

Lemma tools_even d : d ∈ tools ->
  (1 <= d /\ ps_ToolServiceNS s / ps_ToolDispatches s <= d <= ps_ToolServiceNS s / ps_ToolDispatches s + 1)%Z.
Proof.
  destruct (dc_tools s Hs) as [[-> _] | ?]; [by intros ?%elem_of_nil |]. apply split_even; lia.
Qed.

Lemma calibrated_task_valid : valid_task (calibrated_task residentBytes s).
Proof.
  destruct sample_lengths as [Hl _]. split; [done | | |]; cbn [calibrated_task tk_Phases].
  - rewrite calibrated_phases_alternate by done. cbn. by destruct cpus.
  - intros n p Hp%list_elem_of_lookup_2. destruct (calibrated_phases_elem _ _ _ Hp) as [[-> Hd] | [-> Hd]].
    + apply cpus_even in Hd. split; [lia | auto].
    + apply tools_even in Hd. split; [lia | auto].
  - intros n p q Hp%list_elem_of_lookup_2 _ Hw.
    destruct (calibrated_phases_elem _ _ _ Hp) as [[Hk _] | [Hk _]]; by rewrite Hw in Hk.
Qed.
End Sample.

(** ** The loop over the samples *)

Definition of_case (options : CalibrationOptions) (samples : list PhaseSample) : list PhaseSample :=
  filter (fun s => ps_Case s = co_Case options) samples.

Lemma of_case_cons options s samples :
  of_case options (s :: samples)
  = if bool_decide (ps_Case s = co_Case options) then s :: of_case options samples else of_case options samples.
Proof. unfold of_case. rewrite filter_cons. by repeat case_decide || case_bool_decide. Qed.

Section Samples.
Context (options : CalibrationOptions).

Notation task_of := (calibrated_task (co_ResidentBytes options)).
Notation ids l := (map (fun s => tk_ID (task_of s)) l).

Lemma calibrate_samples_ok samples seen tasks provenance tasks' provenance' :
  calibrate_samples options samples seen tasks provenance = Ok (tasks', provenance') ->
  let mine := of_case options samples in
  tasks' = tasks ++ map task_of mine /\ Forall (fun s => check_sample s = Ok tt) mine /\ NoDup (ids mine)
  /\ (forall i, i ∈ ids mine -> i ∉ seen)
  /\ cp_Samples provenance' = (cp_Samples provenance + Z.of_nat (length mine))%Z
  /\ i64 (cp_ExcludedCreateNS provenance') = i64 (cp_ExcludedCreateNS provenance + zsum ps_CreateNS mine)
  /\ i64 (cp_ExcludedQueueNS provenance') = i64 (cp_ExcludedQueueNS provenance + zsum ps_ToolQueueNS mine)
  /\ i64 (cp_ExcludedResumeNS provenance') = i64 (cp_ExcludedResumeNS provenance + zsum ps_ToolResumeNS mine).
Proof.
  revert seen tasks provenance. induction samples as [| s samples IH]; intros seen tasks provenance Heq.
  { injection Heq as <- <-. cbn. rewrite app_nil_r, !Z.add_0_r. split_and!; try done; try constructor.
    by intros i ?%elem_of_nil. }
  cbn [calibrate_samples] in Heq. rewrite of_case_cons. destruct (bool_decide (ps_Case s = _)); [| by apply IH].
  cbn [negb] in Heq. apply res_bind_Ok in Heq as ([] & Hc & Heq). apply res_bind_Ok in Heq as (u & Hs%guard_Ok & Heq).
  guards. destruct (IH _ _ _ Heq) as (-> & Hf & Hnd & Hnew & Hn & H1 & H2 & H3). cbn [map length].
  split_and!.
  - by rewrite <- app_assoc.
  - by constructor.
  - apply list.NoDup_cons. split; [| done]. intros Hin. apply (Hnew _ Hin). set_solver.
  - intros i [-> | Hi]%elem_of_cons; [done |]. specialize (Hnew i Hi). set_solver.
  - rewrite Hn. cbn [add_provenance cp_Samples]. lia.
  - rewrite H1, zsum_cons. cbn [add_provenance cp_ExcludedCreateNS]. rewrite i64_add_l. f_equal. lia.
  - rewrite H2, zsum_cons. cbn [add_provenance cp_ExcludedQueueNS]. rewrite i64_add_l. f_equal. lia.
  - rewrite H3, zsum_cons. cbn [add_provenance cp_ExcludedResumeNS]. rewrite i64_add_l. f_equal. lia.
Qed.

Lemma calibrate_samples_complete samples seen tasks provenance :
  let mine := of_case options samples in
  Forall (fun s => check_sample s = Ok tt) mine -> NoDup (ids mine) -> (forall i, i ∈ ids mine -> i ∉ seen) ->
  exists provenance', calibrate_samples options samples seen tasks provenance
    = Ok (tasks ++ map task_of mine, provenance').
Proof.
  revert seen tasks provenance. induction samples as [| s samples IH]; intros seen tasks provenance mine Hf Hnd Hnew.
  { exists provenance. unfold mine. cbn. by rewrite app_nil_r. }
  subst mine. rewrite of_case_cons in *. cbn [calibrate_samples]. destruct (bool_decide (ps_Case s = _)); [| by apply IH].
  apply list.Forall_cons in Hf as [Hc Hf]. cbn [map] in *. apply list.NoDup_cons in Hnd as [Hs Hnd]. rewrite Hc.
  cbn [negb res_bind]. rewrite (bool_decide_eq_false_2 (tk_ID (task_of s) ∈ seen)) by (apply Hnew; by left). cbn [negb guard res_bind].
  destruct (IH ({[tk_ID (task_of s)]} ∪ seen) (tasks ++ [task_of s]) (add_provenance s provenance) Hf Hnd) as [p Hp].
  { intros i Hi. specialize (Hnew i). intros [->%elem_of_singleton | Hin]%elem_of_union; [done |].
    by apply Hnew; [right |]. }
  exists p. rewrite Hp. by rewrite <- app_assoc.
Qed.

(** Samples of one case have distinct tasks as long as their iterations differ. *)
Lemma ids_iterations samples :
  Forall (fun s => check_sample s = Ok tt) samples -> Forall (fun s => ps_Case s = co_Case options) samples ->
  NoDup (ids samples) <-> NoDup (map ps_Iteration samples).
Proof.
  induction samples as [| s samples IH]; intros Hf Hc; [by split; constructor |].
  apply list.Forall_cons in Hf as [Hs Hf]. apply list.Forall_cons in Hc as [Hsc Hc].
  cbn [map]. rewrite !list.NoDup_cons, (IH Hf Hc).
  enough (tk_ID (task_of s) ∈ ids samples <-> ps_Iteration s ∈ map ps_Iteration samples) by tauto.
  rewrite list.Forall_forall in Hf. rewrite list.Forall_forall in Hc.
  split; intros (s' & Heq & Hin)%list_elem_of_fmap; apply list_elem_of_fmap; exists s'; (split; [| done]).
  - cbn in Heq. rewrite Hsc, (Hc s' Hin) in Heq. apply (inj (String.app _)) in Heq.
    apply (inj (String.app "-")), format_06d_inj in Heq.
    pose proof (dc_iteration _ (check_sample_ok _ Hs)). pose proof (dc_iteration _ (check_sample_ok _ (Hf s' Hin))). lia.
  - cbn. by rewrite Heq, Hsc, (Hc s' Hin).
Qed.
End Samples.

(** ** Calibrated traces *)

(** What the code requires of a capture and a case. *)
Definition calibratable (capture : PhaseCapture) (options : CalibrationOptions) : Prop :=
  let samples := of_case options (pc_Samples capture) in
  co_Case options <> "" /\ (0 <= co_ResidentBytes options)%Z /\ samples <> []
  /\ Forall (fun s => check_sample s = Ok tt) samples /\ NoDup (map ps_Iteration samples).

(** The phases of a trace: CPU and calls take turns, each kind keeps its total
    and is split evenly. *)
Definition faithful_trace (s : PhaseSample) (phases : list Phase) : Prop :=
  let cpu := i64 (ps_FirstAttemptNS s - ps_ToolServiceNS s - ps_ToolQueueNS s - ps_ToolResumeNS s) in
  Z.of_nat (length phases) = (2 * ps_ToolDispatches s + 1)%Z
  /\ work (of_kind CPU) phases = cpu /\ work (of_kind PhaseExternalIO) phases = ps_ToolServiceNS s
  /\ forall n p, phases !! n = Some p ->
       let '(kind, total, parts) :=
         if Nat.even n then (CPU, cpu, ps_ToolDispatches s + 1)%Z
         else (PhaseExternalIO, ps_ToolServiceNS s, ps_ToolDispatches s) in
       ph_Kind p = kind /\ (1 <= ph_Duration p)%Z /\ (total / parts <= ph_Duration p <= total / parts + 1)%Z.

Lemma calibrated_task_faithful b s :
  decomposable s -> (ps_ToolServiceNS s < 2 ^ 63)%Z -> faithful_trace s (tk_Phases (calibrated_task b s)).
Proof.
  intros Hs Hlt. destruct (sample_lengths s Hs Hlt) as [Hl Ht]. pose proof (dc_dispatches s Hs) as Hd.
  destruct (calibrated_phases_work _ _ Hl) as [Hcpu Hio]. unfold faithful_trace. rewrite <- localNS_wraps. cbn [calibrated_task tk_Phases].
  split_and!.
  - rewrite calibrated_phases_length by done. lia.
  - by rewrite Hcpu, cpus_total.
  - by rewrite Hio, tools_total.
  - intros n p. rewrite calibrated_phases_alternate by done. destruct (Nat.even n).
    + intros (d & Hd'%list_elem_of_lookup_2 & ->)%fmap_Some. split; [done |]. by apply cpus_even.
    + intros (d & Hd'%list_elem_of_lookup_2 & ->)%fmap_Some. split; [done |]. by apply tools_even.
Qed.

(** Sorting by distinct names is strict. *)
Lemma sort_ids_strict tasks :
  NoDup (map tk_ID tasks) ->
  StronglySorted (fun a b => str_lt (tk_ID a) (tk_ID b) = true)
    (sort_by (fun left right => str_lt (tk_ID left) (tk_ID right)) tasks).
Proof. intros Hd. apply (sort_by_strict str_lt tk_ID); [apply _ | apply str_lt_total | done]. Qed.

Lemma build_ok capture options tasks provenance :
  BuildCalibratedTasks capture options = Ok (tasks, provenance) ->
  let samples := of_case options (pc_Samples capture) in
  (0 <= co_ResidentBytes options)%Z /\ samples <> [] /\ Forall (fun s => check_sample s = Ok tt) samples
  /\ NoDup (map tk_ID (map (calibrated_task (co_ResidentBytes options)) samples))
  /\ tasks = sort_by (fun left right => str_lt (tk_ID left) (tk_ID right))
               (map (calibrated_task (co_ResidentBytes options)) samples)
  /\ cp_Samples provenance = Z.of_nat (length samples).
Proof.
  unfold BuildCalibratedTasks. intros (u & H%guard_Ok & Hr)%res_bind_Ok. guards.
  apply res_bind_Ok in Hr as ([ts p] & Hs & Hr). apply res_bind_Ok in Hr as (u' & Hn%guard_Ok & Hr).
  injection Hr as <- <-. apply calibrate_samples_ok in Hs as (-> & Hf & Hnd & _ & Hc & _). cbn in *.
  split_and!; try done.
  - intros He. by rewrite He in Hn.
  - by rewrite map_map.
Qed.

Lemma build_valid capture options tasks provenance :
  BuildCalibratedTasks capture options = Ok (tasks, provenance) ->
  Forall (fun s => (ps_ToolServiceNS s < 2 ^ 63)%Z) (pc_Samples capture) ->
  tasks <> [] /\ Forall (fun k => tk_ID k <> "" /\ (0 <= tk_ResidentBytes k)%Z /\ valid_task k) tasks
  /\ NoDup (map tk_ID tasks).
Proof.
  intros Hb Hfit. destruct (build_ok _ _ _ _ Hb) as (Hr & Hne & Hf & Hnd & -> & _). split_and!.
  - intros Hnil. apply Hne. apply (f_equal length) in Hnil. rewrite sort_by_perm, length_map in Hnil.
    by destruct (of_case _ _).
  - rewrite sort_by_perm. apply list.Forall_forall. rewrite list.Forall_forall in Hf. rewrite list.Forall_forall in Hfit. intros k (s & -> & Hs)%list_elem_of_fmap.
    pose proof (check_sample_ok _ (Hf s Hs)) as Hd. split_and!; [| done |].
    + cbn. destruct (ps_Case s) eqn:Hc; [by destruct (dc_case s Hd) | done].
    + apply calibrated_task_valid; [done |]. apply Hfit. by apply list_elem_of_filter in Hs as [_ ?].
  - by rewrite sort_by_perm.
Qed.

(** C37.  Calibrated traces keep the measurements.  A capture is converted
    exactly when the samples of the case pass their checks and have distinct
    iterations; then there is one task for each of these samples, in the order
    of the names, and its phases alternate between local work and calls, with
    the measured service time as the total of the calls, the rest of the
    attempt - as a 64-bit number - as the total of the local work, and parts
    that are positive and differ by at most a nanosecond.  The simulator
    accepts the tasks under any configuration it accepts. *)
Theorem calibrated_traces_keep_measurements capture options :
  Forall (fun s => (ps_ToolServiceNS s < 2 ^ 63)%Z) (pc_Samples capture) ->
  (is_ok (BuildCalibratedTasks capture options) = true <-> calibratable capture options)
  /\ forall tasks provenance, BuildCalibratedTasks capture options = Ok (tasks, provenance) ->
     let samples := of_case options (pc_Samples capture) in
     tasks ≡ₚ map (calibrated_task (co_ResidentBytes options)) samples
     /\ StronglySorted (fun a b => str_lt (tk_ID a) (tk_ID b) = true) tasks
     /\ cp_Samples provenance = Z.of_nat (length samples)
     /\ Forall (fun s => faithful_trace s (tk_Phases (calibrated_task (co_ResidentBytes options) s))) samples
     /\ validate_tasks ∅ tasks = Ok tt.
Proof.
  intros Hfit. split.
  - unfold calibratable. set (samples := of_case options (pc_Samples capture)).
    assert (Forall (fun s => ps_Case s = co_Case options) samples) as Hcase.
    { apply list.Forall_forall. by intros s [? _]%list_elem_of_filter. }
    split.
    + destruct (BuildCalibratedTasks capture options) as [[tasks provenance] |] eqn:Hb; [intros _ | done].
      destruct (build_ok _ _ _ _ Hb) as (Hr & Hne & Hf & Hnd & _ & _). rewrite map_map in Hnd.
      split_and!; try done; [| by eapply ids_iterations].
      unfold BuildCalibratedTasks in Hb. intros He. by rewrite He in Hb.
    + intros (Hc & Hr & Hne & Hf & Hnd). unfold BuildCalibratedTasks.
      rewrite (bool_decide_eq_false_2 _ Hc). destruct (Z.ltb_spec (co_ResidentBytes options) 0); [lia |].
      cbn [orb negb guard res_bind]. edestruct (calibrate_samples_complete options (pc_Samples capture) ∅ []) as [p ->];
        [done | by eapply ids_iterations | set_solver |].
      cbn [res_bind app]. fold samples. by destruct samples.
  - intros tasks provenance Hb samples. destruct (build_ok _ _ _ _ Hb) as (_ & _ & Hf & Hnd & Heq & Hn).
    destruct (build_valid _ _ _ _ Hb Hfit) as (_ & Hv & Hids). split_and!; [| | done | |].
    + by rewrite Heq, sort_by_perm.
    + rewrite Heq. by apply sort_ids_strict.
    + apply list.Forall_forall. rewrite list.Forall_forall in Hf. rewrite list.Forall_forall in Hfit. intros s Hs. apply calibrated_task_faithful; [by apply check_sample_ok, Hf |].
      apply Hfit. by apply list_elem_of_filter in Hs as [_ ?].
    + apply validate_tasks_complete; [done | done |]. set_solver.
Qed.

(** ** Predictions *)

(** Traces that the simulator accepts, whatever they are named. *)
Definition traces_ok (templates : list Task) : Prop :=
  templates <> [] /\ Forall (fun k => (0 <= tk_ResidentBytes k)%Z /\ valid_task k) templates.

Lemma repeated_tasks templates count :
  traces_ok templates -> (1 <= count)%Z ->
  let tasks := RepeatCalibratedTasks templates count in
  Z.of_nat (length tasks) = count /\ tasks <> [] /\ validate_tasks ∅ tasks = Ok tt
  /\ forall n, (n < Z.to_nat count)%nat -> exists k, k ∈ templates
       /\ tk_Phases <$> tasks !! n = Some (tk_Phases k) /\ templates !! (n mod length templates)%nat = Some k.
Proof.
  intros [Hne Hf] Hc tasks. assert (length templates <> 0)%nat as Hl by (by destruct templates).
  assert (tasks = map (repeated_task templates) (seq 0 (Z.to_nat count))) as Heq.
  { subst tasks. unfold RepeatCalibratedTasks. destruct (Nat.eqb_spec (length templates) 0); [done |].
    by destruct (Z.leb_spec count 0); [lia |]. }
  assert (forall n, exists k, k ∈ templates /\ templates !! (n mod length templates)%nat = Some k) as Hat.
  { intros n. destruct (lookup_lt_is_Some_2 templates (n mod length templates)) as [k Hk]; [by apply Nat.mod_upper_bound |].
    exists k. split; [by eapply list_elem_of_lookup_2 | done]. }
  rewrite list.Forall_forall in Hf. rewrite Heq. split_and!.
  - rewrite length_map, length_seq. lia.
  - destruct (Z.to_nat count) eqn:Hn; [lia | done].
  - apply validate_tasks_complete; [| | set_solver].
    + apply list.Forall_forall. intros k (n & -> & _)%list_elem_of_fmap. destruct (Hat n) as (k & Hk & Hn).
      destruct (Hf k Hk) as [Hr Hv]. unfold repeated_task. rewrite Hn. split_and!; [done | done |].
      destruct Hv. by split.
    + rewrite map_map. apply (NoDup_fmap_2_strong (fun n => tk_ID (repeated_task templates n))); [| apply NoDup_seq].
      intros n m _ _ Heq'. apply (inj (String.app "task-")), format_06d_inj in Heq'. lia.
  - intros n Hn. destruct (Hat n) as (k & Hk & Hm). exists k. split; [done |]. split; [| done].
    rewrite list_lookup_fmap, lookup_seq_lt by done. cbn. by rewrite Hm.
Qed.

(** One row: the observation and what is predicted for it. *)
Definition predicted (templates : list Task) (policy : string) (tolerance : float64) (o : BatchObservation)
    (c : CalibrationComparison) : Prop :=
  exists r, Simulate (RepeatCalibratedTasks templates (bo_Tasks o)) (observation_config o policy) = Some (Ok r)
    /\ r_Completed r = bo_Tasks o /\ r_Rejected r = 0%Z /\ c = comparison o (r_Makespan r) tolerance.

Lemma prediction templates policy o :
  traces_ok templates -> policy ∈ [FIFO; ReadyFirst; FinishSoon] -> invalid_observation o = false ->
  exists r, Simulate (RepeatCalibratedTasks templates (bo_Tasks o)) (observation_config o policy) = Some (Ok r)
    /\ r_Completed r = bo_Tasks o /\ r_Rejected r = 0%Z.
Proof.
  intros Ht Hp Ho. unfold invalid_observation in Ho. guards.
  destruct (repeated_tasks templates (bo_Tasks o) Ht ltac:(lia)) as (Hl & Hne & Hv & _).
  destruct (simulation_completes (RepeatCalibratedTasks templates (bo_Tasks o)) (observation_config o policy))
    as (r & Hr & Hcomp & Hrej).
  - apply validateSimulation_complete; cbn; try done; lia.
  - right. cbn. lia.
  - exists r. by rewrite Hcomp, Hl.
Qed.

Lemma compare_rows_spec templates policy tolerance index observations :
  traces_ok templates -> policy ∈ [FIFO; ReadyFirst; FinishSoon] ->
  exists out, compare_rows templates policy tolerance index observations = Some out
    /\ (is_ok out = true <-> Forall (fun o => invalid_observation o = false) observations)
    /\ forall rows, out = Ok rows -> Forall2 (predicted templates policy tolerance) observations rows.
Proof.
  intros Ht Hp. revert index. induction observations as [| o rest IH]; intros index; cbn [compare_rows].
  { eexists. split; [done |]. split; [by split |]. intros rows [= <-]. constructor. }
  destruct (invalid_observation o) eqn:Ho.
  { eexists. split; [done |]. split; [| done]. split; [done |]. intros [? _]%list.Forall_cons. congruence. }
  destruct (prediction templates policy o Ht Hp Ho) as (r & Hr & Hc & Hj). rewrite Hr.
  destruct (IH (S index)) as ([rows | e] & -> & Hok & Hrows); (eexists; split; [done |]); split.
  - cbn in *. rewrite list.Forall_cons. tauto.
  - intros rows' [= <-]. constructor; [by exists r | by apply Hrows].
  - cbn in *. rewrite list.Forall_cons. tauto.
  - done.
Qed.

(** A tolerance between 0 and 1. *)
Lemma tolerance_checked t :
  flt t (float_of_int 0) || flt (float_of_int 1) t || is_nan t = false
  <-> fle (float_of_int 0) t = true /\ fle t (float_of_int 1) = true.
Proof.
  split.
  - intros Hb. guards. split; apply fle_flt; try done; apply float_of_int_number.
  - rewrite !fle_spec. intros ((_ & Hn & H0) & (_ & _ & H1)). rewrite Hn.
    destruct (flt t _) eqn:Ha; [by apply flt_spec in Ha as (_ & _ & []) |].
    by destruct (flt _ t) eqn:Hb; [apply flt_spec in Hb as (_ & _ & []) |].
Qed.

(** Predictions are complete.  For traces calibrated from a capture and a
    policy the simulator knows, the comparison always finishes; it succeeds
    exactly when there are observations, all of them acceptable, and the
    tolerance lies between 0 and 1; then there is one row for each observation,
    in order, and its prediction is the makespan of a simulation in which every
    task of the population completed and none was rejected. *)
Theorem predictions_are_complete capture options templates provenance observations policy tolerance :
  BuildCalibratedTasks capture options = Ok (templates, provenance) ->
  Forall (fun s => (ps_ToolServiceNS s < 2 ^ 63)%Z) (pc_Samples capture) ->
  policy ∈ [FIFO; ReadyFirst; FinishSoon] ->
  exists out, CompareObservedBatches templates observations policy tolerance = Some out
    /\ (is_ok out = true <->
        observations <> [] /\ Forall (fun o => invalid_observation o = false) observations
        /\ fle (float_of_int 0) tolerance = true /\ fle tolerance (float_of_int 1) = true)
    /\ forall rows, out = Ok rows -> Forall2 (predicted templates policy tolerance) observations rows.
Proof.
  intros Hb Hfit Hp. destruct (build_valid _ _ _ _ Hb Hfit) as (Hne & Hv & _).
  assert (traces_ok templates) as Ht.
  { split; [done |]. eapply list.Forall_impl; [exact Hv |]. by intros k (_ & ? & ?). }
  destruct (compare_rows_spec templates policy tolerance 0 observations Ht Hp) as (out & Hout & Hok & Hrows).
  unfold CompareObservedBatches. destruct templates as [| k ts]; [done |].
  destruct observations as [| o os]; cbn [length Nat.eqb orb].
  { eexists. split; [done |]. split; [| done]. split; [done |]. by intros [[] _]. }
  pose proof (tolerance_checked tolerance) as Htol. destruct (flt _ _ || _ || _).
  - eexists. split; [done |]. split; [| done]. split; [done |]. intros (_ & _ & H). by apply Htol in H.
  - exists out. split; [done |]. split; [| done]. rewrite Hok. destruct Htol as [Htol _]. destruct (Htol eq_refl) as [H0 H1].
    split; [| tauto]. intros H. by split_and!.
Qed.

(** ** Summaries *)

Definition of_arm (a : arm) (cs : list CalibrationComparison) : list CalibrationComparison :=
  filter (fun c => arm_of c = a) cs.

Definition summary_arm (s : CalibrationSummary) : arm :=
  (cs_Case s, cs_Tasks s, cs_RunningLimit s, cs_ResidentLimit s, cs_ToolLimit s, cs_ExternalIO s).

Definition summary_of (first : CalibrationComparison) (cs : list CalibrationComparison) : CalibrationSummary :=
  foldl (fun s c => add_comparison c s) (new_summary first) cs.

Lemma of_arm_snoc a cs c : of_arm a (cs ++ [c]) = of_arm a cs ++ (if bool_decide (arm_of c = a) then [c] else []).
Proof. unfold of_arm. rewrite list.filter_app, filter_cons, filter_nil. by repeat case_decide || case_bool_decide. Qed.

Lemma groups_spec cs a :
  foldl group_comparison ∅ cs !! a
  = match of_arm a cs with [] => None | (first :: _) as mine => Some (summary_of first mine) end.
Proof.
  induction cs as [| c cs IH] using rev_ind; [done |]. rewrite foldl_snoc, of_arm_snoc. unfold group_comparison at 1.
  case_bool_decide as Ha.
  - subst a. rewrite lookup_insert_eq, IH. destruct (of_arm (arm_of c) cs) as [| first mine]; [done |].
    cbn [app default]. unfold summary_of. change (first :: mine ++ [c]) with ((first :: mine) ++ [c]). by rewrite foldl_snoc.
  - by rewrite lookup_insert_ne, IH, app_nil_r.
Qed.

Lemma summaries_elem cs s :
  s ∈ SummarizeCalibrationComparisons cs
  <-> exists a first mine, of_arm a cs = first :: mine /\ s = summary_of first (first :: mine).
Proof.
  unfold SummarizeCalibrationComparisons. rewrite elem_of_sort_by. split.
  - intros ([a s'] & -> & Hin%elem_of_map_to_list)%list_elem_of_fmap. rewrite groups_spec in Hin. cbn.
    destruct (of_arm a cs) as [| first mine] eqn:Heq; [done |]. injection Hin as <-. by exists a, first, mine.
  - intros (a & first & mine & Heq & ->). apply list_elem_of_fmap. exists (a, summary_of first (first :: mine)).
    split; [done |]. by rewrite elem_of_map_to_list, groups_spec, Heq.
Qed.

Lemma summary_of_fields first cs :
  let s := summary_of first cs in
  summary_arm s = arm_of first /\ cs_Samples s = Z.of_nat (length cs)
  /\ cs_WithinTolerance s = Z.of_nat (length (filter (fun c => cc_WithinTolerance c = true) cs)).
Proof.
  induction cs as [| c cs (Ha & Hn & Hw) IH] using rev_ind; [done |]. unfold summary_of in *. rewrite foldl_snoc.
  rewrite length_app, list.filter_app, length_app, filter_cons, filter_nil.
  split_and!; [done | cbn [add_comparison cs_Samples length]; lia |]. cbn [add_comparison cs_WithinTolerance].
  destruct (cc_WithinTolerance c); case_decide; try done; cbn [length]; lia.
Qed.

(** The mean moves towards the value. *)
Lemma move_mean_between mean value count :
  (0 <= mean < 2 ^ 63)%Z -> (0 <= value < 2 ^ 63)%Z -> (1 <= count)%Z ->
  (Z.min mean value <= move_mean mean value count <= Z.max mean value)%Z.
Proof.
  intros Hm Hv Hc. unfold move_mean. rewrite (i64_id (value - mean)) by lia.
  assert (Z.min 0 (value - mean) <= Z.quot (value - mean) count <= Z.max 0 (value - mean))%Z as Hq.
  { assert (forall d, 0 <= d -> 0 <= Z.quot d count <= d)%Z as Hd.
    { intros d Hd. rewrite Z.quot_div_nonneg by lia. split; [apply Z.div_pos; lia | apply Z.div_le_upper_bound; nia]. }
    destruct (Z.le_ge_cases 0 (value - mean)) as [Hle | Hge]; [specialize (Hd _ Hle); lia |].
    specialize (Hd (mean - value)%Z ltac:(lia)). rewrite <- (Z.opp_involutive (value - mean)), Z.quot_opp_l by lia.
    replace (- (value - mean))%Z with (mean - value)%Z by lia. lia. }
  rewrite i64_id by lia. lia.
Qed.

Lemma move_mean_first value : (0 <= value < 2 ^ 63)%Z -> move_mean 0 value 1 = value.
Proof. intros Hv. unfold move_mean. rewrite Z.sub_0_r, (i64_id value), Z.quot_1_r, Z.add_0_l by lia. apply i64_id. lia. Qed.

Section Mean.
Context (value : CalibrationComparison -> Z).

Fixpoint mean_from (mean count : Z) (cs : list CalibrationComparison) : Z :=
  match cs with
  | [] => mean
  | c :: cs => mean_from (move_mean mean (value c) (count + 1)) (count + 1) cs
  end.

Lemma mean_from_between lo hi mean count cs :
  (0 <= count)%Z -> (0 <= mean < 2 ^ 63)%Z -> (lo <= mean <= hi)%Z ->
  Forall (fun c => 0 <= value c < 2 ^ 63)%Z cs -> Forall (fun c => lo <= value c <= hi)%Z cs ->
  (lo <= mean_from mean count cs <= hi)%Z.
Proof.
  intros Hc Hm Hb Hr. revert mean count Hc Hm Hb. induction Hr as [| c cs Hv Hr IH]; intros mean count Hc Hm Hb Hf; [done |].
  apply list.Forall_cons in Hf as [Hlo Hf]. pose proof (move_mean_between mean (value c) (count + 1) Hm Hv ltac:(lia)).
  apply IH; [lia | lia | lia | done].
Qed.

Lemma mean_between lo hi cs :
  cs <> [] -> Forall (fun c => 0 <= value c < 2 ^ 63)%Z cs -> Forall (fun c => lo <= value c <= hi)%Z cs ->
  (lo <= mean_from 0 0 cs <= hi)%Z.
Proof.
  destruct cs as [| c cs]; [done |]. intros _ [Hv Hr]%list.Forall_cons [Hb Hf]%list.Forall_cons. cbn [mean_from].
  rewrite Z.add_0_l, move_mean_first by done. by apply mean_from_between.
Qed.
End Mean.

Lemma fold_means s cs :
  let s' := foldl (fun s c => add_comparison c s) s cs in
  cs_MeanObservedBatchNS s' = mean_from cc_ObservedBatchNS (cs_MeanObservedBatchNS s) (cs_Samples s) cs
  /\ cs_MeanPredictedMakespanNS s' = mean_from cc_PredictedMakespanNS (cs_MeanPredictedMakespanNS s) (cs_Samples s) cs.
Proof. revert s. induction cs as [| c cs IH]; intros s; [done |]. apply (IH (add_comparison c s)). Qed.

Lemma summary_means first cs :
  let s := summary_of first cs in
  cs_MeanObservedBatchNS s = mean_from cc_ObservedBatchNS 0 0 cs
  /\ cs_MeanPredictedMakespanNS s = mean_from cc_PredictedMakespanNS 0 0 cs.
Proof. apply (fold_means (new_summary first)). Qed.

(** The largest error that is a number. *)
Lemma summary_max first cs :
  let s := summary_of first cs in
  is_nan (cs_MaxRelativeError s) = false
  /\ forall c, c ∈ cs -> is_nan (cc_RelativeError c) = false -> fle (cc_RelativeError c) (cs_MaxRelativeError s) = true.
Proof.
  induction cs as [| c cs [Hn Hle]] using rev_ind; [split; [done |]; by intros c ?%elem_of_nil |].
  unfold summary_of in *. rewrite foldl_snoc. cbn zeta. cbn [add_comparison cs_MaxRelativeError].
  destruct (flt _ (cc_RelativeError c)) eqn:Hlt.
  - pose proof Hlt as Hlt'. apply flt_spec in Hlt' as (_ & Hc & _). split; [done |].
    intros c' [Hin | ->%list_elem_of_singleton]%elem_of_app Hc'; [| by apply fle_refl].
    eapply fle_trans; [by apply Hle | by apply flt_fle].
  - split; [done |]. intros c' [Hin | ->%list_elem_of_singleton]%elem_of_app Hc'; [by apply Hle |]. by apply fle_flt.
Qed.

(** The order of the arms. *)
Definition arm_lt : arm -> arm -> bool :=
  lex (fun a => a.1.1.1.1.1) str_lt (lex (fun a => a.1.1.1.1.2) Z.ltb (lex (fun a => a.1.1.1.2) Z.ltb
    (lex (fun a => a.1.1.2) Z.ltb (lex (fun a => a.1.2) Z.ltb (fun a b => negb a.2 && b.2))))).

Lemma arm_lt_total x y : arm_lt x y = false -> arm_lt y x = false -> x = y.
Proof.
  intros Hx Hy. unfold arm_lt in *.
  do 5 (let H := fresh in destruct (lex_ties _ _ _ _ _ _ Hx Hy) as (H & Hx' & Hy'); clear Hx Hy;
        rename Hx' into Hx, Hy' into Hy).
  destruct x as [[[[[??]?]?]?] []], y as [[[[[??]?]?]?] []]; cbn in *; congruence.
Qed.

#[export] Instance arm_lt_order : SortOrder arm_lt.
Proof. unfold arm_lt. repeat apply lex_order; try apply _. Qed.

Lemma group_arm cs a s : foldl group_comparison ∅ cs !! a = Some s -> summary_arm s = a.
Proof.
  rewrite groups_spec. destruct (of_arm a cs) as [| first mine] eqn:Heq; [done |]. intros [= <-].
  destruct (summary_of_fields first (first :: mine)) as (-> & _).
  assert (first ∈ of_arm a cs) as Hin by (rewrite Heq; by left). by apply list_elem_of_filter in Hin as [-> _].
Qed.

Lemma summaries_sorted cs :
  StronglySorted (fun a b => arm_lt (summary_arm a) (summary_arm b) = true) (SummarizeCalibrationComparisons cs).
Proof.
  apply (sort_by_strict arm_lt summary_arm); [apply _ | apply arm_lt_total |]. rewrite map_map.
  rewrite (map_ext_in _ fst); [apply NoDup_fst_map_to_list |].
  intros [a s] Hin. by apply list_elem_of_In, elem_of_map_to_list, group_arm in Hin.
Qed.

(** Summaries count every comparison once.  There is one summary for
    each resource arm that was compared, and they come in strictly increasing
    order of arms; a summary counts the comparisons of its arm and those within
    tolerance, its means lie between the least and the greatest value of the
    arm, and its largest error is at least each of them. *)
Theorem summaries_partition_comparisons comparisons :
  Forall (fun c => 0 <= cc_ObservedBatchNS c < 2 ^ 63 /\ 0 <= cc_PredictedMakespanNS c < 2 ^ 63)%Z comparisons ->
  let summaries := SummarizeCalibrationComparisons comparisons in
  (forall c, c ∈ comparisons -> arm_of c ∈ map summary_arm summaries)
  /\ StronglySorted (fun a b => arm_lt (summary_arm a) (summary_arm b) = true) summaries
  /\ forall s, s ∈ summaries ->
     let mine := of_arm (summary_arm s) comparisons in
     mine <> [] /\ cs_Samples s = Z.of_nat (length mine)
     /\ cs_WithinTolerance s = Z.of_nat (length (filter (fun c => cc_WithinTolerance c = true) mine))
     /\ (forall lo hi, Forall (fun c => lo <= cc_ObservedBatchNS c <= hi)%Z mine ->
           lo <= cs_MeanObservedBatchNS s <= hi)%Z
     /\ (forall lo hi, Forall (fun c => lo <= cc_PredictedMakespanNS c <= hi)%Z mine ->
           lo <= cs_MeanPredictedMakespanNS s <= hi)%Z
     /\ forall c, c ∈ mine -> is_nan (cc_RelativeError c) = false ->
           fle (cc_RelativeError c) (cs_MaxRelativeError s) = true.
Proof.
  intros Hf summaries. split_and!.
  - intros c Hc. apply list_elem_of_fmap. assert (c ∈ of_arm (arm_of c) comparisons) as Hin by (by apply list_elem_of_filter).
    destruct (of_arm (arm_of c) comparisons) as [| first mine] eqn:Heq; [by apply elem_of_nil in Hin |].
    exists (summary_of first (first :: mine)). split; [| apply summaries_elem; by eexists _, _, _].
    destruct (summary_of_fields first (first :: mine)) as (-> & _).
    assert (first ∈ of_arm (arm_of c) comparisons) as Hfirst by (rewrite Heq; by left).
    by apply list_elem_of_filter in Hfirst as [-> _].
  - apply summaries_sorted.
  - intros s (a & first & rest & Heq & ->)%summaries_elem. destruct (summary_of_fields first (first :: rest)) as (Ha & Hn & Hw).
    assert (summary_arm (summary_of first (first :: rest)) = a) as Harm.
    { rewrite Ha. assert (first ∈ of_arm a comparisons) as Hin by (rewrite Heq; by left).
      by apply list_elem_of_filter in Hin as [-> _]. }
    intros mine. assert (mine = first :: rest) as -> by (unfold mine; by rewrite Harm).
    assert (Forall (fun c => 0 <= cc_ObservedBatchNS c < 2 ^ 63 /\ 0 <= cc_PredictedMakespanNS c < 2 ^ 63)%Z (first :: rest)) as Hr.
    { rewrite <- Heq. apply list.Forall_forall. intros c [_ Hc]%list_elem_of_filter. rewrite list.Forall_forall in Hf. by apply Hf. }
    split_and!; [done | done | done | | |].
    + intros lo hi Hb. destruct (summary_means first (first :: rest)) as [-> _]. apply mean_between; [done | | done].
      eapply list.Forall_impl; [exact Hr |]. by intros c [? _].
    + intros lo hi Hb. destruct (summary_means first (first :: rest)) as [_ ->]. apply mean_between; [done | | done].
      eapply list.Forall_impl; [exact Hr |]. by intros c [_ ?].
    + apply summary_max.
Qed.

(** ** Witnesses *)

Definition demo_sample (iteration first : Z) : PhaseSample :=
  mkSample "sample" "fetch" iteration 0 first 0 0 0 31 4 2 0 0 2 (S754_zero false) 0.

Definition demo_capture : PhaseCapture :=
  mkCapture (mkMetadata "metadata" "" "" 0 "" "" "" "" None "cow" "fetch" 2 0 0 0 true)
    [demo_sample 1 100; demo_sample 0 101; mkSample "sample" "park" 0 0 5 7 0 0 0 0 0 0 0 0 (S754_zero false) 0].

Definition demo_options : CalibrationOptions := mkOptions "fetch" 1048576.

Definition demo_traces : list Task :=
  let trace id a b c := mkTask id 0 0 1048576
    [mkPhase CPU a; mkPhase PhaseExternalIO 16; mkPhase CPU b; mkPhase PhaseExternalIO 15; mkPhase CPU c] in
  [trace "fetch-000000" 22 21 21; trace "fetch-000001" 21 21 21]%Z.

Definition demo_provenance : CalibrationProvenance :=
  mkProvenance "fetch" 2 "equal_between_tool_calls" "equal_across_tool_calls" 0 8 4 false.

Lemma calibrated_traces_keep_measurements_witness :
  BuildCalibratedTasks demo_capture demo_options = Ok (demo_traces, demo_provenance)
  /\ validate_tasks ∅ demo_traces = Ok tt.
Proof.
  assert (BuildCalibratedTasks demo_capture demo_options = Ok (demo_traces, demo_provenance)) as Hb by (by vm_compute).
  split; [exact Hb |].
  apply (proj2 (calibrated_traces_keep_measurements demo_capture demo_options ltac:(by repeat constructor)) _ _ Hb).
Defined.

Definition demo_observation : BatchObservation :=
  mkObservation "fetch" "" 3 1 2 1 true 0 0 0 250 [] 0 None 3.

Lemma predictions_are_complete_witness :
  exists out, CompareObservedBatches demo_traces [demo_observation] FIFO (float_of_decimal false 5 (-1)) = Some out
    /\ is_ok out = true
    /\ forall rows, out = Ok rows -> map cc_PredictedMakespanNS rows = [206%Z].
Proof.
  destruct (predictions_are_complete demo_capture demo_options demo_traces demo_provenance [demo_observation] FIFO
              (float_of_decimal false 5 (-1)) ltac:(by vm_compute) ltac:(by repeat constructor) ltac:(by left))
    as (out & Hout & Hok & _).
  exists out. split; [exact Hout |]. split; [apply Hok; split_and!; [done | constructor; [by vm_compute | constructor] | by vm_compute | by vm_compute] |].
  intros rows ->. vm_compute in Hout. by injection Hout as <-.
Defined.

Definition demo_comparisons : list CalibrationComparison :=
  [comparison demo_observation 206 (float_of_int 1); comparison demo_observation 300 (float_of_int 1)].

Lemma summaries_partition_comparisons_witness :
  forall s, s ∈ SummarizeCalibrationComparisons demo_comparisons -> cs_Samples s = 2%Z.
Proof.
  intros s Hs.
  destruct (summaries_partition_comparisons demo_comparisons) as (_ & _ & H).
  { repeat constructor; done. }
  destruct (H s Hs) as (_ & -> & _). vm_compute in Hs. apply list_elem_of_singleton in Hs as ->. by vm_compute.
Defined.

(** A sample whose parts exceed it by almost 2^64 passes the checks: the
    difference wraps to a positive number. *)
Definition wrapped_sample : PhaseSample :=
  mkSample "sample" "fetch" 0 0 1 0 0 0 (2 ^ 62) (2 ^ 63 - 1) (2 ^ 62) 0 0 1 (S754_zero false) 0.

Lemma wrapped_sample_is_accepted :
  check_sample wrapped_sample = Ok tt
  /\ (ps_FirstAttemptNS wrapped_sample < ps_ToolServiceNS wrapped_sample)%Z
  /\ work (of_kind CPU) (tk_Phases (calibrated_task 0 wrapped_sample)) = 2%Z.
Proof. split; [| split]; by vm_compute. Qed.
