(* ===== verification/Sweep.v ===== *)
(** * Sweep: grids of simulations ([scheduling/sweep.go])

    Every point of a grid runs one workload twice, with inline and with live
    I/O.  Converting a [float64] outside the range of [int64] is left to the
    implementation of Go: [convert_out_of_range] is a parameter. *)

From S2P Require Import Order Prelude Errors Float64 Sim.

Definition maxCanonicalTasksPerPoint : Z := 10000.
Definition maxCanonicalSweepPoints : Z := 100000.

(** ** Data *)

Record CanonicalSweep := mkSweep {
  sw_TaskCounts : list Z;
  sw_IORatios : list float64;
  sw_RunningLimits : list Z;
  sw_ResidentMultipliers : list Z;
  sw_ToolLimits : list Z;
  sw_Policies : list string;
  sw_CPUBefore : Z;
  sw_CPUAfter : Z;
  sw_ResidentBytes : Z
}.

Record SweepPoint := mkPoint {
  sp_RecordType : string;
  sp_Tasks : Z;
  sp_IORatio : float64;
  sp_CPUBefore : Z;
  sp_IODuration : Z;
  sp_CPUAfter : Z;
  sp_RunningLimit : Z;
  sp_ResidentMultiplier : Z;
  sp_ResidentLimit : Z;
  sp_ToolLimit : Z;
  sp_Policy : string;
  sp_InlineMakespan : Z;
  sp_LiveMakespan : Z;
  sp_Speedup : float64;
  sp_InlineMeanLatency : Z;
  sp_LiveMeanLatency : Z;
  sp_InlineP95Latency : Z;
  sp_LiveP95Latency : Z;
  sp_InlinePeakResident : Z;
  sp_LivePeakResident : Z;
  sp_InlineResidentMiBSecs : float64;
  sp_LiveResidentMiBSecs : float64;
  sp_ResidentAreaRatio : float64
}.

Record SweepBoundary := mkBoundary {
  sb_RecordType : string;
  sb_Tasks : Z;
  sb_RunningLimit : Z;
  sb_ResidentMultiplier : Z;
  sb_ResidentLimit : Z;
  sb_ToolLimit : Z;
  sb_Policy : string;
  sb_FirstFivePercentRatio : option float64;
  sb_FirstTenPercentRatio : option float64;
  sb_MaxSpeedup : float64;
  sb_MaxSpeedupRatio : float64;
  sb_ResidentAreaRatioAtMax : float64
}.

(** ** Normalization *)

(** The checks on sorted values. *)
Fixpoint check_ints (label : string) (previous : option Z) (values : list Z) : res string unit :=
  match values with
  | [] => Ok tt
  | value :: rest =>
      let* _ := guard (negb (value <=? 0)%Z) (label +:+ " values must be positive") in
      let* _ := guard (negb (bool_decide (previous = Some value))) ("duplicate " +:+ label +:+ " value") in
      check_ints label (Some value) rest
  end.

Definition sortedUniquePositiveInts (values : list Z) (label : string) : res string (list Z) :=
  let* _ := guard (negb (length values =? 0)%nat) (label +:+ " values are required") in
  let result := sort_by Z.ltb values in
  let* _ := check_ints label None result in
  Ok result.

(** The order of [sort.Float64s]: what is no number comes first. *)
Definition float_before (x y : float64) : bool := flt x y || (is_nan x && negb (is_nan y)).

Fixpoint check_ratios (maxIORatio : float64) (previous : option float64) (ratios : list float64) : res string unit :=
  match ratios with
  | [] => Ok tt
  | ratio :: rest =>
      let* _ := guard (negb (fle ratio (float_of_int 0) || is_nan ratio || is_inf ratio))
                  "I/O ratios must be finite and positive" in
      let* _ := guard (negb (flt maxIORatio ratio)) "I/O ratio overflows time.Duration" in
      let* _ := guard (negb (match previous with Some p => feq ratio p | None => false end)) "duplicate I/O ratio" in
      check_ratios maxIORatio (Some ratio) rest
  end.

Fixpoint check_policies (previous : option string) (policies : list string) : res string unit :=
  match policies with
  | [] => Ok tt
  | policy :: rest =>
      let* _ := guard (bool_decide (policy = FIFO) || bool_decide (policy = ReadyFirst)
                       || bool_decide (policy = FinishSoon))
                  ("unknown policy " +:+ quote policy) in
      let* _ := guard (negb (bool_decide (previous = Some policy))) "duplicate policy" in
      check_policies (Some policy) rest
  end.

(** The number of points, factor by factor. *)
Fixpoint count_points (pointCount : Z) (factors : list nat) : res string Z :=
  match factors with
  | [] => Ok pointCount
  | factor :: rest =>
      let* _ := guard (negb (Z.quot maxCanonicalSweepPoints (Z.of_nat factor) <? pointCount)%Z)
                  "canonical grid exceeds research guard of 100000 points" in
      count_points (pointCount * Z.of_nat factor) rest
  end.

(** [math.Nextafter(float64(math.MaxInt64), 0)] over the CPU time. *)
Definition max_ratio (cpu : Z) : float64 := fdiv (SFpred 53 1024 (float_of_int (2 ^ 63 - 1))) (float_of_int cpu).

Definition normalizeCanonicalSweep (input : CanonicalSweep) : res string CanonicalSweep :=
  let before := sw_CPUBefore input in
  let after := sw_CPUAfter input in
  let* _ := guard (negb ((before <=? 0)%Z || (after <=? 0)%Z || (sw_ResidentBytes input <? 0)%Z))
              "canonical CPU durations must be positive and resident bytes non-negative" in
  let* _ := guard (negb (i64 (2 ^ 63 - 1 - after) <? before)%Z)
              "canonical CPU duration sum overflows time.Duration" in
  let* taskCounts := sortedUniquePositiveInts (sw_TaskCounts input) "task count" in
  let* _ := guard (negb (maxCanonicalTasksPerPoint <? default 0 (list.last taskCounts))%Z)
              "task count exceeds research guard 10000" in
  let* runningLimits := sortedUniquePositiveInts (sw_RunningLimits input) "running limit" in
  let* multipliers := sortedUniquePositiveInts (sw_ResidentMultipliers input) "resident multiplier" in
  let* toolLimits := sortedUniquePositiveInts (sw_ToolLimits input) "tool limit" in
  let* _ := guard (negb (length (sw_IORatios input) =? 0)%nat) "I/O ratios are required" in
  let ratios := sort_by float_before (sw_IORatios input) in
  let* _ := check_ratios (max_ratio (i64 (before + after))) None ratios in
  let* _ := guard (negb (length (sw_Policies input) =? 0)%nat) "policies are required" in
  let policies := sort_by str_lt (sw_Policies input) in
  let* _ := check_policies None policies in
  let* _ := count_points 1 [length taskCounts; length ratios; length runningLimits; length multipliers;
                            length toolLimits; length policies] in
  Ok (mkSweep taskCounts ratios runningLimits multipliers toolLimits policies before after (sw_ResidentBytes input)).

(** ** Points *)

Definition canonical_task (before ioDuration after residentBytes : Z) (index : nat) : Task :=
  mkTask ("task-" +:+ format_06d (N.of_nat index)) 0 0 residentBytes
    [mkPhase CPU before; mkPhase PhaseExternalIO ioDuration; mkPhase CPU after].

Definition canonicalTasks (count before ioDuration after residentBytes : Z) : list Task :=
  map (canonical_task before ioDuration after residentBytes) (seq 0 (Z.to_nat count)).

Definition updateBoundary (b : SweepBoundary) (p : SweepPoint) : SweepBoundary :=
  let reached (threshold : float64) (first : option float64) :=
    match first with
    | None => if fle threshold (sp_Speedup p) then Some (sp_IORatio p) else None
    | Some _ => first
    end in
  let better := flt (sb_MaxSpeedup b) (sp_Speedup p) in
  mkBoundary (sb_RecordType b) (sb_Tasks b) (sb_RunningLimit b) (sb_ResidentMultiplier b) (sb_ResidentLimit b)
    (sb_ToolLimit b) (sb_Policy b)
    (reached (float_of_decimal false 105 (-2)) (sb_FirstFivePercentRatio b))
    (reached (float_of_decimal false 110 (-2)) (sb_FirstTenPercentRatio b))
    (if better then sp_Speedup p else sb_MaxSpeedup b)
    (if better then sp_IORatio p else sb_MaxSpeedupRatio b)
    (if better then sp_ResidentAreaRatio p else sb_ResidentAreaRatioAtMax b).

Inductive sweep_error :=
| EGrid (text : string)
| EResidentOverflow (running multiplier : Z)
| EPoint (live : bool) (tasks : Z) (ratio : float64) (running resident tools : Z) (policy : string) (cause : string).

(** The loops append to the points and the boundaries; none when a simulation
    runs out of fuel. *)
Notation sweep_result := (option (res sweep_error (list SweepPoint * list SweepBoundary))).

Fixpoint each {A} (f : A -> sweep_result) (l : list A) : sweep_result :=
  match l with
  | [] => Some (Ok ([], []))
  | a :: l =>
      match f a with
      | Some (Ok (points, boundaries)) =>
          match each f l with
          | Some (Ok (points', boundaries')) => Some (Ok (points ++ points', boundaries ++ boundaries'))
          | other => other
          end
      | other => other
      end
  end.

Section Sweep.
Context (convert_out_of_range : float64 -> Z).

(** [time.Duration(x)]. *)
Definition duration_of_float (x : float64) : Z := default (convert_out_of_range x) (trunc x).

Definition io_duration (cpuTotal : Z) (ratio : float64) : Z :=
  let d := duration_of_float (math_Round (fmul (float_of_int cpuTotal) ratio)) in if (d <? 1)%Z then 1 else d.

Section Grid.
Context (grid : CanonicalSweep).

Definition cpu_total : Z := i64 (sw_CPUBefore grid + sw_CPUAfter grid).

Definition new_boundary (tasks running multiplier tools : Z) (policy : string) : SweepBoundary :=
  mkBoundary "boundary" tasks running multiplier (running * multiplier) tools policy None None (S754_zero false)
    (S754_zero false) (S754_zero false).

Definition point_tasks (tasks : Z) (ratio : float64) : list Task :=
  canonicalTasks tasks (sw_CPUBefore grid) (io_duration cpu_total ratio) (sw_CPUAfter grid) (sw_ResidentBytes grid).

Definition point_config (running resident tools : Z) (policy : string) (live : bool) : Config :=
  mkConfig running resident tools 0 live policy.

Definition sweep_point (tasks running multiplier tools : Z) (policy : string) (ratio : float64)
    (inline live : SimResult) : SweepPoint :=
  mkPoint "point" tasks ratio (sw_CPUBefore grid) (io_duration cpu_total ratio) (sw_CPUAfter grid) running multiplier
    (running * multiplier) tools policy (r_Makespan inline) (r_Makespan live)
    (if (0 <? r_Makespan live)%Z then fdiv (float_of_int (r_Makespan inline)) (float_of_int (r_Makespan live))
     else S754_zero false)
    (r_MeanLatency inline) (r_MeanLatency live) (r_P95Latency inline) (r_P95Latency live)
    (r_PeakResident inline) (r_PeakResident live) (r_ResidentMiBSeconds inline) (r_ResidentMiBSeconds live)
    (if flt (float_of_int 0) (r_ResidentMiBSeconds inline)
     then fdiv (r_ResidentMiBSeconds live) (r_ResidentMiBSeconds inline) else S754_zero false).

(** The loop over the ratios. *)
Fixpoint sweep_ratios (tasks running multiplier tools : Z) (policy : string) (ratios : list float64)
    (boundary : SweepBoundary) : option (res sweep_error (list SweepPoint * SweepBoundary)) :=
  match ratios with
  | [] => Some (Ok ([], boundary))
  | ratio :: rest =>
      let resident := (running * multiplier)%Z in
      let workload := point_tasks tasks ratio in
      match Simulate workload (point_config running resident tools policy false) with
      | None => None
      | Some (Err e) => Some (Err (EPoint false tasks ratio running resident tools policy e))
      | Some (Ok inline) =>
          match Simulate workload (point_config running resident tools policy true) with
          | None => None
          | Some (Err e) => Some (Err (EPoint true tasks ratio running resident tools policy e))
          | Some (Ok live) =>
              let point := sweep_point tasks running multiplier tools policy ratio inline live in
              match sweep_ratios tasks running multiplier tools policy rest (updateBoundary boundary point) with
              | Some (Ok (points, boundary)) => Some (Ok (point :: points, boundary))
              | other => other
              end
          end
      end
  end.

Definition sweep_cell (tasks running multiplier tools : Z) (policy : string) : sweep_result :=
  match sweep_ratios tasks running multiplier tools policy (sw_IORatios grid)
          (new_boundary tasks running multiplier tools policy) with
  | Some (Ok (points, boundary)) => Some (Ok (points, [boundary]))
  | Some (Err e) => Some (Err e)
  | None => None
  end.

Definition sweep_residents (tasks running multiplier : Z) : sweep_result :=
  if (Z.quot (2 ^ 63 - 1) multiplier <? running)%Z then Some (Err (EResidentOverflow running multiplier))
  else each (fun tools => each (sweep_cell tasks running multiplier tools) (sw_Policies grid)) (sw_ToolLimits grid).

Definition sweep_grid : sweep_result :=
  each (fun tasks => each (fun running => each (sweep_residents tasks running) (sw_ResidentMultipliers grid))
    (sw_RunningLimits grid)) (sw_TaskCounts grid).
End Grid.

Definition RunCanonicalSweep (input : CanonicalSweep) : sweep_result :=
  match normalizeCanonicalSweep input with
  | Err text => Some (Err (EGrid text))
  | Ok grid => sweep_grid grid
  end.
End Sweep.
