(* ===== verification/SweepProps.v ===== *)
(** * SweepProps: what a sweep promises

    An accepted grid is a sorted version of the input without duplicates, every
    point of it is simulated twice, and the boundaries summarize their points. *)

From S2P Require Import Order Prelude Errors Float64 Sim SimSpec SimProps Sweep.

(** ** Orders *)

#[export] Instance float_before_order : SortOrder float_before.
Proof.
  assert (forall x y, float_before x y = true <-> is_nan y = false /\ (is_nan x = true \/ ~ key_le (float_key y) (float_key x))) as H.
  { intros x y. unfold float_before. rewrite orb_true_iff, flt_spec, andb_true_iff, negb_true_iff.
    destruct (is_nan x), (is_nan y); intuition congruence. }
  assert (forall x y, float_before x y = false <-> is_nan y = true \/ is_nan x = false /\ key_le (float_key y) (float_key x)) as H'.
  { intros x y. rewrite <- not_true_iff_false, H. destruct (is_nan y), (is_nan x), (decide (key_le (float_key y) (float_key x))); intuition congruence. }
  split.
  - intros x y. rewrite H, H'. intros (Hy & [Hx | Hk]); [by left | right]. split; [done |].
    by destruct (key_le_total (float_key x) (float_key y)).
  - unfold not_after. intros x y z. rewrite !H'. intros [Hx | [Hy Hxy]] [Hy' | [Hz Hyz]]; try (by left); try congruence.
    right. split; [done |]. by eapply key_le_trans.
Qed.

Lemma feq_spec x y :
  is_nan x = false -> is_nan y = false -> key_le (float_key x) (float_key y) -> key_le (float_key y) (float_key x) ->
  feq x y = true.
Proof.
  unfold feq, SFeqb, key_le, float_key. intros Hx Hy.
  destruct x as [[] | [] | | [] m e], y as [[] | [] | | [] m' e']; try done; cbn; try lia.
  all: change (Pos.compare_cont Eq m m') with (Pos.compare m m').
  all: intros; assert (e = e') as -> by lia; assert (m = m') as -> by lia; by rewrite Z.compare_refl, Pos.compare_refl.
Qed.

(** Neighbours that are sorted, are numbers and differ. *)
Lemma float_strict x y :
  is_nan x = false -> is_nan y = false -> not_after float_before x y -> feq y x = false -> flt x y = true.
Proof.
  intros Hx Hy Hn He. destruct (flt x y) eqn:Hxy; [done |]. apply orb_false_iff in Hn as [Hyx _].
  apply fle_flt, fle_spec in Hxy as (_ & _ & H1); [| done | done]. apply fle_flt, fle_spec in Hyx as (_ & _ & H2); [| done | done].
  by rewrite feq_spec in He.
Qed.

(** ** Normalization *)

Notation strictly lt l := (StronglySorted (fun x y => lt x y = true) l).

Lemma check_ints_ok label previous values :
  check_ints label previous values = Ok tt ->
  Forall (fun v => 0 < v)%Z values /\ (forall v, head values = Some v -> previous <> Some v)
  /\ forall n x y, values !! n = Some x -> values !! S n = Some y -> x <> y.
Proof.
  revert previous. induction values as [| v rest IH]; intros previous Hc; [split_and!; [constructor | done | done] |].
  cbn [check_ints] in Hc. apply res_bind_Ok in Hc as (u & Hp%guard_Ok & Hc). apply res_bind_Ok in Hc as (u' & Hd%guard_Ok & Hc).
  guards. destruct (IH _ Hc) as (Hf & Hh & Ha). split_and!; [by constructor | by intros v' [= <-] |].
  intros [| n] x y Hx Hy; [| by apply (Ha n)]. injection Hx as <-. intros <-. apply (Hh v); [| done].
  by destruct rest as [| w rest]; [| injection Hy as <-].
Qed.

Lemma sortedUniquePositiveInts_ok values label result :
  sortedUniquePositiveInts values label = Ok result ->
  result ≡ₚ values /\ strictly Z.ltb result /\ Forall (fun v => 0 < v)%Z result /\ result <> [].
Proof.
  unfold sortedUniquePositiveInts. intros (u & Hn%guard_Ok & Hr)%res_bind_Ok. apply res_bind_Ok in Hr as ([] & Hc & [= <-]).
  destruct (check_ints_ok _ _ _ Hc) as (Hf & _ & Ha). split_and!; [apply sort_by_perm | | done |].
  - refine (sorted_strictly _ _ _ (sort_by_sorted _ _) _). intros n x y Hx Hy. specialize (Ha n x y Hx Hy).
    pose proof (sort_by_sorted Z.ltb values) as Hs.
    enough (not_after Z.ltb x y) by (unfold not_after in *; guards; apply Z.ltb_lt; lia).
    by eapply sorted_neighbours.
  - intros Hnil. apply (f_equal length) in Hnil. rewrite sort_by_perm in Hnil. cbn in Hnil. by rewrite Hnil in Hn.
Qed.

Lemma check_ratios_ok bound previous ratios :
  check_ratios bound previous ratios = Ok tt ->
  Forall (fun r => is_nan r = false /\ is_inf r = false /\ flt (float_of_int 0) r = true /\ flt bound r = false)%Z ratios
  /\ (forall r p, head ratios = Some r -> previous = Some p -> feq r p = false)
  /\ forall n x y, ratios !! n = Some x -> ratios !! S n = Some y -> feq y x = false.
Proof.
  revert previous. induction ratios as [| r rest IH]; intros previous Hc; [split_and!; [constructor | done | done] |].
  cbn [check_ratios] in Hc. apply res_bind_Ok in Hc as (u & Hp%guard_Ok & Hc). apply res_bind_Ok in Hc as (u' & Hm%guard_Ok & Hc).
  apply res_bind_Ok in Hc as (u'' & Hd%guard_Ok & Hc). guards. destruct (IH _ Hc) as (Hf & Hh & Ha). split_and!.
  - constructor; [| done]. split_and!; [done.. | | done]. destruct (flt (float_of_int 0) r) eqn:Hlt; [done |].
    pose proof (fle_flt _ r (float_of_int_number 0) ltac:(assumption) Hlt). congruence.
  - intros r' p [= <-] ->. done.
  - intros [| n] x y Hx Hy; [| by apply (Ha n)]. injection Hx as <-. eapply Hh; [| done].
    by destruct rest as [| w rest]; [| injection Hy as <-].
Qed.

Lemma check_policies_ok previous policies :
  check_policies previous policies = Ok tt ->
  Forall (fun p => p ∈ [FIFO; ReadyFirst; FinishSoon]) policies /\ (forall p, head policies = Some p -> previous <> Some p)
  /\ forall n x y, policies !! n = Some x -> policies !! S n = Some y -> x <> y.
Proof.
  revert previous. induction policies as [| p rest IH]; intros previous Hc; [split_and!; [constructor | done | done] |].
  cbn [check_policies] in Hc. apply res_bind_Ok in Hc as (u & Hp%guard_Ok & Hc). apply res_bind_Ok in Hc as (u' & Hd%guard_Ok & Hc).
  guards. destruct (IH _ Hc) as (Hf & Hh & Ha). split_and!; [| by intros p' [= <-] |].
  - constructor; [| done]. rewrite !elem_of_cons. repeat (apply orb_true_iff in Hp as [Hp | Hp]); guards; auto.
  - intros [| n] x y Hx Hy; [| by apply (Ha n)]. injection Hx as <-. intros <-. apply (Hh p); [| done].
    by destruct rest as [| w rest]; [| injection Hy as <-].
Qed.

(** What an accepted grid is. *)
Record normalized (input grid : CanonicalSweep) : Prop := {
  nm_tasks : sw_TaskCounts grid ≡ₚ sw_TaskCounts input /\ strictly Z.ltb (sw_TaskCounts grid)
    /\ Forall (fun v => 0 < v <= maxCanonicalTasksPerPoint)%Z (sw_TaskCounts grid);
  nm_running : sw_RunningLimits grid ≡ₚ sw_RunningLimits input /\ strictly Z.ltb (sw_RunningLimits grid)
    /\ Forall (fun v => 0 < v)%Z (sw_RunningLimits grid);
  nm_multipliers : sw_ResidentMultipliers grid ≡ₚ sw_ResidentMultipliers input
    /\ strictly Z.ltb (sw_ResidentMultipliers grid) /\ Forall (fun v => 0 < v)%Z (sw_ResidentMultipliers grid);
  nm_tools : sw_ToolLimits grid ≡ₚ sw_ToolLimits input /\ strictly Z.ltb (sw_ToolLimits grid)
    /\ Forall (fun v => 0 < v)%Z (sw_ToolLimits grid);
  nm_ratios : sw_IORatios grid ≡ₚ sw_IORatios input /\ strictly flt (sw_IORatios grid)
    /\ Forall (fun r => flt (float_of_int 0) r = true /\ is_inf r = false) (sw_IORatios grid);
  nm_policies : sw_Policies grid ≡ₚ sw_Policies input /\ strictly str_lt (sw_Policies grid)
    /\ Forall (fun p => p ∈ [FIFO; ReadyFirst; FinishSoon]) (sw_Policies grid);
  nm_durations : (0 < sw_CPUBefore grid /\ 0 < sw_CPUAfter grid /\ 0 <= sw_ResidentBytes grid)%Z;
  nm_size : (length (sw_TaskCounts grid) * length (sw_IORatios grid) * length (sw_RunningLimits grid)
    * length (sw_ResidentMultipliers grid) * length (sw_ToolLimits grid) * length (sw_Policies grid)
    <= Z.to_nat maxCanonicalSweepPoints)%nat;
  nm_some : sw_TaskCounts grid <> []
}.

Lemma count_points_ok points factors n :
  count_points points factors = Ok n -> (0 <= points <= maxCanonicalSweepPoints)%Z -> Forall (fun f => f <> 0%nat) factors ->
  n = foldl (fun p f => p * Z.of_nat f)%Z points factors /\ (n <= maxCanonicalSweepPoints)%Z.
Proof.
  revert points. induction factors as [| f rest IH]; intros points Hc Hp Hf; [injection Hc as <-; split; [done | apply Hp] |].
  cbn [count_points] in Hc. apply res_bind_Ok in Hc as (u & Hq%guard_Ok & Hc). apply list.Forall_cons in Hf as [Hf Hrest].
  guards. apply IH; [done | | done]. unfold maxCanonicalSweepPoints in *. rewrite Z.quot_div_nonneg in Hq by lia.
  split; [lia |]. pose proof (Z.mul_div_le 100000 (Z.of_nat f)). nia.
Qed.

Lemma length_nonempty {A} (l : list A) : negb (length l =? 0)%nat = true -> length l <> 0%nat.
Proof. by destruct l. Qed.

Lemma last_bound l v : strictly Z.ltb l -> (default 0 (list.last l) <= v)%Z -> Forall (fun x => x <= v)%Z l.
Proof.
  intros Hs Hl. induction Hs as [| x l Hs IH Hx]; [constructor |]. destruct l as [| y l].
  - constructor; [exact Hl | constructor].
  - specialize (IH Hl). constructor; [| done]. apply list.Forall_cons in Hx as [Hx _]. apply list.Forall_cons in IH as [IH _].
    guards. lia.
Qed.

Lemma float_sorted l :
  strictly float_before l -> Forall (fun r => is_nan r = false) l -> strictly flt l.
Proof.
  induction 1 as [| x l Hs IH Hx]; intros [Hxn Hl]%list.Forall_cons || intros _; constructor; [by apply IH |].
  eapply list.Forall_impl; [exact Hx |]. intros y. unfold float_before. rewrite Hxn. by rewrite orb_false_r.
Qed.

Lemma ratios_sorted bound ratios :
  check_ratios bound None (sort_by float_before ratios) = Ok tt -> strictly flt (sort_by float_before ratios).
Proof.
  intros Hc. destruct (check_ratios_ok _ _ _ Hc) as (Hq & _ & Hqa).
  assert (Forall (fun r => is_nan r = false) (sort_by float_before ratios)) as Hn.
  { eapply list.Forall_impl; [exact Hq |]. by intros r [? _]. }
  apply float_sorted; [| done]. refine (sorted_strictly _ _ _ (sort_by_sorted _ _) _). intros i x y Hx Hy.
  rewrite list.Forall_forall in Hn. unfold float_before. rewrite (float_strict x y); [done | | | | by eapply Hqa].
  - by eapply Hn, list_elem_of_lookup_2.
  - by eapply Hn, list_elem_of_lookup_2.
  - exact (sorted_neighbours _ _ i x y (sort_by_sorted float_before _) Hx Hy).
Qed.

Lemma policies_sorted policies :
  check_policies None (sort_by str_lt policies) = Ok tt -> strictly str_lt (sort_by str_lt policies).
Proof.
  intros Hc. destruct (check_policies_ok _ _ Hc) as (_ & _ & Hpa). refine (sorted_strictly _ _ _ (sort_by_sorted _ _) _).
  intros i x y Hx Hy. specialize (Hpa i x y Hx Hy).
  pose proof (sorted_neighbours _ _ i x y (sort_by_sorted str_lt _) Hx Hy) as Hn.
  destruct (str_lt x y) eqn:Hxy; [done |]. destruct Hpa. by apply str_lt_total.
Qed.

Lemma normalize_ok input grid :
  normalizeCanonicalSweep input = Ok grid ->
  normalized input grid /\ sw_CPUBefore grid = sw_CPUBefore input /\ sw_CPUAfter grid = sw_CPUAfter input
  /\ sw_ResidentBytes grid = sw_ResidentBytes input.
Proof.
  unfold normalizeCanonicalSweep. intros (u1 & Hd%guard_Ok & H)%res_bind_Ok.
  apply res_bind_Ok in H as (u2 & Hsum%guard_Ok & H). apply res_bind_Ok in H as (tasks & Htasks & H).
  apply res_bind_Ok in H as (u3 & Hmax%guard_Ok & H). apply res_bind_Ok in H as (running & Hrunning & H).
  apply res_bind_Ok in H as (multipliers & Hmult & H). apply res_bind_Ok in H as (tools & Htools & H).
  apply res_bind_Ok in H as (u4 & Hrn%guard_Ok & H). apply res_bind_Ok in H as ([] & Hratios & H).
  apply res_bind_Ok in H as (u5 & Hpn%guard_Ok & H). apply res_bind_Ok in H as ([] & Hpol & H).
  apply res_bind_Ok in H as (n & Hcount & [= <-]). split; [| done].
  destruct (sortedUniquePositiveInts_ok _ _ _ Htasks) as (Ht1 & Ht2 & Ht3 & Ht4).
  destruct (sortedUniquePositiveInts_ok _ _ _ Hrunning) as (Hr1 & Hr2 & Hr3 & Hr4).
  destruct (sortedUniquePositiveInts_ok _ _ _ Hmult) as (Hm1 & Hm2 & Hm3 & Hm4).
  destruct (sortedUniquePositiveInts_ok _ _ _ Htools) as (Hk1 & Hk2 & Hk3 & Hk4).
  destruct (check_ratios_ok _ _ _ Hratios) as (Hq & _ & Hqa). destruct (check_policies_ok _ _ Hpol) as (Hp & _ & Hpa).
  apply length_nonempty in Hrn, Hpn.
  assert (forall (l : list Z), l <> [] -> length l <> 0%nat) as Hlen by (by intros []).
  split; cbn; try (split_and!; done).
  - split_and!; [done | done |]. guards. apply last_bound in Hmax; [| done]. apply list.Forall_forall.
    rewrite list.Forall_forall in Hmax. rewrite list.Forall_forall in Ht3. intros v Hv. split; auto.
  - split_and!; [apply sort_by_perm | by eapply ratios_sorted | eapply list.Forall_impl; [exact Hq |]; by intros r (_ & ? & ? & _)].
  - split_and!; [apply sort_by_perm | by apply policies_sorted | done].
  - guards. lia.
  - apply count_points_ok in Hcount as [-> Hle]; [| done |].
    + cbn [foldl] in Hle. unfold maxCanonicalSweepPoints in *. lia.
    + rewrite !sort_by_perm. repeat constructor; auto.
  - done.
Qed.

(** ** The reference: a grid as lists of its points and boundaries *)

Section Reference.
Context (convert : float64 -> Z) (input grid : CanonicalSweep) (Hgrid : normalized input grid).

Definition outcome (tasks : list Task) (config : Config) : SimResult :=
  match Simulate tasks config with Some (Ok r) => r | _ => empty_result end.

(** Tasks, running limit, multiplier, tool limit, policy. *)
Notation cell := (Z * Z * Z * Z * string)%type.

Definition cell_run (c : cell) (ratio : float64) (live : bool) : SimResult :=
  let '(tasks, running, multiplier, tools, policy) := c in
  outcome (point_tasks convert grid tasks ratio) (point_config running (running * multiplier) tools policy live).

Definition cell_point (c : cell) (ratio : float64) : SweepPoint :=
  let '(tasks, running, multiplier, tools, policy) := c in
  sweep_point convert grid tasks running multiplier tools policy ratio (cell_run c ratio false) (cell_run c ratio true).

Definition cell_points (c : cell) : list SweepPoint := map (cell_point c) (sw_IORatios grid).

Definition cell_boundary (c : cell) : SweepBoundary :=
  let '(tasks, running, multiplier, tools, policy) := c in
  foldl updateBoundary (new_boundary tasks running multiplier tools policy) (cell_points c).

Definition cells : list cell :=
  tasks ← sw_TaskCounts grid; running ← sw_RunningLimits grid; multiplier ← sw_ResidentMultipliers grid;
  tools ← sw_ToolLimits grid; policy ← sw_Policies grid; [(tasks, running, multiplier, tools, policy)].

(** No resident limit overflows. *)
Definition residents_fit : Prop :=
  forall running multiplier, running ∈ sw_RunningLimits grid -> multiplier ∈ sw_ResidentMultipliers grid ->
    (running * multiplier < 2 ^ 63)%Z.

Lemma canonical_tasks_ok count before io after bytes :
  (1 <= count)%Z -> (0 < before)%Z -> (0 < io)%Z -> (0 < after)%Z -> (0 <= bytes)%Z ->
  let tasks := canonicalTasks count before io after bytes in
  Z.of_nat (length tasks) = count /\ tasks <> [] /\ validate_tasks ∅ tasks = Ok tt.
Proof.
  intros Hc Hb Hi Ha Hr tasks. unfold tasks, canonicalTasks. split_and!.
  - rewrite length_map, length_seq. lia.
  - by destruct (Z.to_nat count) eqn:Hn; [lia |].
  - apply validate_tasks_complete; [| | set_solver].
    + apply list.Forall_forall. intros k (n & -> & _)%list_elem_of_fmap. split_and!; [done | done |].
      split; [done | done | |]; cbn [canonical_task tk_Phases].
      * intros [| [| [| n']]] p Hp; [injection Hp as <-.. | done]; cbn; auto.
      * intros [| [| n']] p q Hp Hq Hk; [injection Hp as <-; done.. | done].
    + rewrite map_map. apply (NoDup_fmap_2_strong (fun n => tk_ID (canonical_task before io after bytes n))); [| apply NoDup_seq].
      intros n m _ _ Heq'. apply (inj (String.app "task-")), format_06d_inj in Heq'. lia.
Qed.

Lemma io_duration_pos cpu ratio : (0 < io_duration convert cpu ratio)%Z.
Proof. unfold io_duration. destruct (Z.ltb_spec (duration_of_float convert (math_Round (fmul (float_of_int cpu) ratio))) 1); lia. Qed.

Definition of_grid (c : cell) : Prop :=
  let '(tasks, running, multiplier, tools, policy) := c in
  tasks ∈ sw_TaskCounts grid /\ running ∈ sw_RunningLimits grid /\ multiplier ∈ sw_ResidentMultipliers grid
  /\ tools ∈ sw_ToolLimits grid /\ policy ∈ sw_Policies grid.

Lemma cell_completes tasks running multiplier tools policy ratio live :
  of_grid (tasks, running, multiplier, tools, policy) ->
  let r := cell_run (tasks, running, multiplier, tools, policy) ratio live in
  Simulate (point_tasks convert grid tasks ratio) (point_config running (running * multiplier) tools policy live)
    = Some (Ok r)
  /\ r_Completed r = tasks /\ r_Rejected r = 0%Z.
Proof.
  intros (Ht & Hr & Hm & Hk & Hp). unfold cell_run, outcome.
  destruct Hgrid as [(_ & _ & Htf) (_ & _ & Hrf) (_ & _ & Hmf) (_ & _ & Hkf) _ (_ & _ & Hpf) (Hb & Ha & Hbytes) _ _].
  rewrite list.Forall_forall in Htf. rewrite list.Forall_forall in Hrf. rewrite list.Forall_forall in Hmf.
  rewrite list.Forall_forall in Hkf. rewrite list.Forall_forall in Hpf.
  specialize (Htf _ Ht). specialize (Hrf _ Hr). specialize (Hmf _ Hm). specialize (Hkf _ Hk).
  destruct (canonical_tasks_ok tasks (sw_CPUBefore grid) (io_duration convert (cpu_total grid) ratio) (sw_CPUAfter grid)
              (sw_ResidentBytes grid)) as (Hl & Hne & Hv); try done; try lia; [apply io_duration_pos |].
  destruct (simulation_completes (point_tasks convert grid tasks ratio)
              (point_config running (running * multiplier) tools policy live)) as (r & -> & Hc & Hrej).
  - apply validateSimulation_complete; cbn; [done | nia | lia | done | by apply Hpf | done].
  - by left.
  - split; [done |]. split; [| done]. rewrite Hc. exact Hl.
Qed.

Lemma sweep_ratios_spec tasks running multiplier tools policy ratios boundary :
  of_grid (tasks, running, multiplier, tools, policy) ->
  let points := map (cell_point (tasks, running, multiplier, tools, policy)) ratios in
  sweep_ratios convert grid tasks running multiplier tools policy ratios boundary
  = Some (Ok (points, foldl updateBoundary boundary points)).
Proof.
  intros Hc. revert boundary. induction ratios as [| ratio rest IH]; intros boundary; [done |]. cbn [sweep_ratios].
  destruct (cell_completes _ _ _ _ _ ratio false Hc) as [-> _]. destruct (cell_completes _ _ _ _ _ ratio true Hc) as [-> _].
  rewrite IH. done.
Qed.

Lemma each_spec {A} (f : A -> sweep_result) (g : A -> list cell) l :
  (forall a, a ∈ l -> f a = Some (Ok (mjoin (map cell_points (g a)), map cell_boundary (g a)))) ->
  each f l = Some (Ok (mjoin (map cell_points (l ≫= g)), map cell_boundary (l ≫= g))).
Proof.
  induction l as [| a l IH]; intros Hf; [done |]. cbn [each]. rewrite (Hf a) by (by left).
  rewrite IH by (intros b Hb; apply Hf; by right). cbn [mbind list_bind]. rewrite !map_app, list.join_app. done.
Qed.

Lemma residents_spec tasks running multiplier :
  tasks ∈ sw_TaskCounts grid -> running ∈ sw_RunningLimits grid -> multiplier ∈ sw_ResidentMultipliers grid ->
  (running * multiplier < 2 ^ 63)%Z ->
  let mine := tools ← sw_ToolLimits grid; policy ← sw_Policies grid; [(tasks, running, multiplier, tools, policy)] in
  sweep_residents convert grid tasks running multiplier = Some (Ok (mjoin (map cell_points mine), map cell_boundary mine)).
Proof.
  intros Ht Hr Hm Hfit mine. unfold sweep_residents.
  destruct Hgrid as [_ _ (_ & _ & Hmf) _ _ _ _ _ _]. rewrite list.Forall_forall in Hmf. specialize (Hmf _ Hm).
  destruct (Z.ltb_spec (Z.quot (2 ^ 63 - 1) multiplier) running) as [Hlt |].
  { rewrite Z.quot_div_nonneg in Hlt by lia.
    assert (running <= (2 ^ 63 - 1) / multiplier)%Z; [| lia]. apply Z.div_le_lower_bound; nia. }
  apply each_spec. intros tools Hk. apply each_spec. intros policy Hp. unfold sweep_cell.
  rewrite sweep_ratios_spec by done. cbn. by rewrite app_nil_r.
Qed.

Lemma grid_spec :
  residents_fit -> sweep_grid convert grid = Some (Ok (mjoin (map cell_points cells), map cell_boundary cells)).
Proof.
  intros Hfit. unfold sweep_grid, cells. apply each_spec. intros tasks Ht. apply each_spec. intros running Hr.
  apply each_spec. intros multiplier Hm. by apply residents_spec, Hfit.
Qed.

(** The loops stop at the first resident limit that overflows. *)
Definition is_done (r : sweep_result) : Prop := exists x, r = Some (Ok x).

Definition overflowed (r : sweep_result) : Prop :=
  exists running multiplier, running ∈ sw_RunningLimits grid /\ multiplier ∈ sw_ResidentMultipliers grid
    /\ (2 ^ 63 <= running * multiplier)%Z /\ r = Some (Err (EResidentOverflow running multiplier)).

Lemma each_stops {A} (f : A -> sweep_result) l :
  (forall a, a ∈ l -> is_done (f a) \/ overflowed (f a)) ->
  is_done (each f l) /\ (forall a, a ∈ l -> is_done (f a)) \/ overflowed (each f l).
Proof.
  induction l as [| a l IH]; intros Hf; [left; split; [by eexists | by intros a ?%elem_of_nil] |]. cbn [each].
  destruct (Hf a ltac:(by left)) as [[[ps bs] Ha] | (r & m & Hr & Hm & Ho & ->)]; [| right; by exists r, m].
  rewrite Ha. destruct IH as [[[[ps' bs'] ->] Hall] | (r & m & Hr & Hm & Ho & ->)];
    [intros b Hb; apply Hf; by right | | right; by exists r, m].
  left. split; [by eexists |]. intros b [-> | Hb]%elem_of_cons; [by eexists | by apply Hall].
Qed.

Lemma each_stops' {A} (f : A -> sweep_result) l :
  (forall a, a ∈ l -> is_done (f a) \/ overflowed (f a)) -> is_done (each f l) \/ overflowed (each f l).
Proof. intros [[? _] | ?]%each_stops; auto. Qed.

Lemma each_done {A} (f : A -> sweep_result) l a :
  (forall a, a ∈ l -> is_done (f a) \/ overflowed (f a)) -> is_done (each f l) -> a ∈ l -> is_done (f a).
Proof. intros [[_ Hall] | (? & ? & _ & _ & _ & ->)]%each_stops [? ?] Ha; [by apply Hall | done]. Qed.

Lemma residents_stop tasks running multiplier :
  tasks ∈ sw_TaskCounts grid -> running ∈ sw_RunningLimits grid -> multiplier ∈ sw_ResidentMultipliers grid ->
  let r := sweep_residents convert grid tasks running multiplier in
  (is_done r /\ running * multiplier < 2 ^ 63)%Z \/ overflowed r.
Proof.
  intros Ht Hr Hm. destruct (Z.lt_ge_cases (running * multiplier) (2 ^ 63)) as [Hlt | Hge].
  - left. split; [eexists; by apply residents_spec | done].
  - right. exists running, multiplier. split_and!; [done.. |]. unfold sweep_residents.
    destruct Hgrid as [_ _ (_ & _ & Hmf) _ _ _ _ _ _]. rewrite list.Forall_forall in Hmf. specialize (Hmf _ Hm).
    destruct (Z.ltb_spec (Z.quot (2 ^ 63 - 1) multiplier) running) as [| Hle]; [done |].
    rewrite Z.quot_div_nonneg in Hle by lia. pose proof (Z.mul_div_le (2 ^ 63 - 1) multiplier). nia.
Qed.

Lemma grid_stops : sw_TaskCounts grid <> [] -> ~ residents_fit -> overflowed (sweep_grid convert grid).
Proof.
  intros Hne Hfit. unfold sweep_grid.
  assert (forall tasks running multiplier, tasks ∈ sw_TaskCounts grid -> running ∈ sw_RunningLimits grid ->
    multiplier ∈ sw_ResidentMultipliers grid -> is_done (sweep_residents convert grid tasks running multiplier)
    \/ overflowed (sweep_residents convert grid tasks running multiplier)) as H1.
  { intros tasks running multiplier Ht Hr Hm. destruct (residents_stop tasks running multiplier Ht Hr Hm) as [[? _] | ?]; auto. }
  assert (forall tasks running, tasks ∈ sw_TaskCounts grid -> running ∈ sw_RunningLimits grid ->
    let r := each (sweep_residents convert grid tasks running) (sw_ResidentMultipliers grid) in
    is_done r \/ overflowed r) as H2 by (intros; apply each_stops'; auto).
  destruct (each_stops (fun tasks => each (fun running => each (sweep_residents convert grid tasks running)
    (sw_ResidentMultipliers grid)) (sw_RunningLimits grid)) (sw_TaskCounts grid)) as [[_ Hall] | Ho]; [| | exact Ho].
  { intros tasks Ht. apply each_stops'. intros running Hr. by apply H2. }
  destruct Hfit. intros running multiplier Hr Hm. destruct (sw_TaskCounts grid) as [| tasks ts] eqn:Hts; [done |].
  assert (tasks ∈ tasks :: ts) as Ht by (by left). specialize (Hall tasks Ht).
  apply (each_done _ _ running) in Hall; [| intros; by apply H2 | done].
  apply (each_done _ _ multiplier) in Hall; [| intros; by apply H1 | done].
  rewrite <- Hts in Ht. destruct (residents_stop tasks running multiplier Ht Hr Hm) as [[_ ?] | (? & ? & _ & _ & _ & He)]; [done |].
  destruct Hall as [? Hd]. congruence.
Qed.
End Reference.

(** ** Boundaries *)

(** The ratio of the first point that reaches a speedup. *)
Definition first_reaching (threshold : float64) (points : list SweepPoint) : option float64 :=
  sp_IORatio <$> head (filter (fun p => fle threshold (sp_Speedup p) = true) points).

Record summarizes (points : list SweepPoint) (b : SweepBoundary) : Prop := {
  sm_five : sb_FirstFivePercentRatio b = first_reaching (float_of_decimal false 105 (-2)) points;
  sm_ten : sb_FirstTenPercentRatio b = first_reaching (float_of_decimal false 110 (-2)) points;
  sm_most : forall p, p ∈ points -> is_nan (sp_Speedup p) = false -> fle (sp_Speedup p) (sb_MaxSpeedup b) = true;
  sm_attained : sb_MaxSpeedup b = S754_zero false
    \/ exists p, p ∈ points /\ sb_MaxSpeedup b = sp_Speedup p /\ sb_MaxSpeedupRatio b = sp_IORatio p
         /\ sb_ResidentAreaRatioAtMax b = sp_ResidentAreaRatio p
}.

Lemma first_reaching_snoc threshold points p :
  first_reaching threshold (points ++ [p])
  = match first_reaching threshold points with
    | None => if fle threshold (sp_Speedup p) then Some (sp_IORatio p) else None
    | first => first
    end.
Proof.
  unfold first_reaching. rewrite list.filter_app, filter_cons, filter_nil.
  destruct (filter _ points) as [| q qs]; [| done]. cbn. case_decide as Hp; [by rewrite Hp |].
  by destruct (fle threshold (sp_Speedup p)).
Qed.

Lemma boundary_summarizes tasks running multiplier tools policy points :
  summarizes points (foldl updateBoundary (new_boundary tasks running multiplier tools policy) points).
Proof.
  enough (summarizes points (foldl updateBoundary (new_boundary tasks running multiplier tools policy) points)
    /\ is_nan (sb_MaxSpeedup (foldl updateBoundary (new_boundary tasks running multiplier tools policy) points)) = false)
    as [? _] by done.
  induction points as [| p points [[H5 H10 Hm Ha] Hn] IH] using rev_ind.
  { split; [split; try done; [by intros p ?%elem_of_nil | by left] | done]. }
  rewrite foldl_snoc. set (b := foldl _ _ points) in *. split; [split |]; cbn [updateBoundary sb_FirstFivePercentRatio
    sb_FirstTenPercentRatio sb_MaxSpeedup sb_MaxSpeedupRatio sb_ResidentAreaRatioAtMax].
  - rewrite first_reaching_snoc, <- H5. by destruct (sb_FirstFivePercentRatio b).
  - rewrite first_reaching_snoc, <- H10. by destruct (sb_FirstTenPercentRatio b).
  - intros q [Hq | ->%list_elem_of_singleton]%elem_of_app Hqn; destruct (flt _ (sp_Speedup p)) eqn:Hlt.
    + eapply fle_trans; [by apply Hm | by apply flt_fle].
    + by apply Hm.
    + by apply fle_refl.
    + by apply fle_flt.
  - destruct (flt _ (sp_Speedup p)).
    + right. exists p. split; [| done]. apply elem_of_app. right. by left.
    + destruct Ha as [Ha | (q & Hq & Ha)]; [by left | right]. exists q. split; [| done]. apply elem_of_app. by left.
  - destruct (flt _ (sp_Speedup p)) eqn:Hlt; [| done]. by apply flt_spec in Hlt as (_ & ? & _).
Qed.

(** C38.  A sweep covers its grid.  An accepted grid is the input, sorted and
    without duplicates, and the sweep runs it unless a resident limit overflows,
    which it reports: there is one point for each combination of the grid, in
    the order of the loops, made of an inline and a live simulation that both
    finish with every task completed, and one boundary for each resource
    configuration, which has the first ratio - the least, since ratios ascend -
    of its points to reach 5 and 10 percent, and the greatest speedup. *)
Theorem sweep_covers_the_grid convert input :
  match normalizeCanonicalSweep input with
  | Err text => RunCanonicalSweep convert input = Some (Err (EGrid text))
  | Ok grid =>
      normalized input grid
      /\ (residents_fit grid ->
         RunCanonicalSweep convert input
         = Some (Ok (mjoin (map (cell_points convert grid) (cells grid)), map (cell_boundary convert grid) (cells grid))))
      /\ (~ residents_fit grid -> overflowed grid (RunCanonicalSweep convert input))
      /\ forall c, c ∈ cells grid ->
           summarizes (cell_points convert grid c) (cell_boundary convert grid c)
           /\ strictly flt (map sp_IORatio (cell_points convert grid c))
           /\ forall ratio live, r_Completed (cell_run convert grid c ratio live) = c.1.1.1.1
                /\ r_Rejected (cell_run convert grid c ratio live) = 0%Z
  end.
Proof.
  unfold RunCanonicalSweep. destruct (normalizeCanonicalSweep input) as [grid | text] eqn:Hn; [| done].
  destruct (normalize_ok _ _ Hn) as [Hg _]. split_and!; [done | by eapply grid_spec | eapply grid_stops; [done | apply Hg] |].
  intros [[[[tasks running] multiplier] tools] policy] Hc. split_and!.
  - apply boundary_summarizes.
  - unfold cell_points. rewrite map_map. cbn. rewrite map_id. apply Hg.
  - intros ratio live. eapply (cell_completes convert input grid Hg). unfold cells in Hc.
    repeat (apply list_elem_of_bind in Hc as (? & Hc & ?)). by apply list_elem_of_singleton in Hc as [= -> -> -> -> ->].
Qed.

(** The largest ratio that is accepted for 10 ms of CPU time still overflows:
    the product rounds to 2^63. *)
Lemma accepted_ratio_overflows :
  let ratio := max_ratio 10000000 in
  check_ratios ratio None [ratio] = Ok tt
  /\ trunc (math_Round (fmul (float_of_int 10000000) ratio)) = None.
Proof. split; by vm_compute. Qed.
